(* ===== verification/_CoqProject ===== *)
-Q . S2P
Prelude.v
GoStrings.v
GoPath.v
GoFmt.v
GoValue.v
GoBase64.v
SafePath.v
Policy.v
PolicyCompose.v
LintCore.v
LintRules.v
LintSpec.v
LintSource.v
Rbac.v
Fanout.v
LogStream.v
TermStream.v
PhaseTracker.v
LintPhase.v
Health.v
ComposeDoc.v
PbRecord.v
PbTable.v
ProjectIdentity.v
PostCheck.v
Overrides.v
ConfigFiles.v
ConfigInject.v
DepGraph.v
Renderer.v
Scheduler.v
PendingReconciles.v
EnvFile.v
EnvVars.v
WaitJobs.v
Spool.v
Transport.v
DurableCommands.v
WorkerQueue.v
WorkerTokens.v
WorkerCommands.v
WorkerServer.v
WorkerServerSpec.v
JobFile.v
JobRuns.v
JobDispatch.v
JobCron.v
ReconcileCore.v
Reconcile.v
ReconcileOps.v
ReconcileLogic.v
ReconcileSpec.v
ReconcileSettled.v
ReconcileRuns.v
Transfer.v
ComposeRun.v
Migration.v
MigrationSpec.v
Redact.v
Executor.v
ExecutorSpec.v
WorkerJobs.v
WorkerJobsSpec.v
WorkerFiles.v
WorkerQueries.v
Crypto.v
AuditLog.v
ApiKeys.v
Webhook.v
Routes.v
Users.v
Identity.v
EnvSecrets.v
SopsFiles.v
EnvRoutes.v
TermSessions.v
StackDefs.v
StackMigrate.v
StackRoutes.v
RecordHooks.v
