(* ===== verification/Prelude.v ===== *)
(** * wireops: a verification development

    wireops deploys Docker Compose stacks from git repositories.  A server keeps
    stacks, repositories, workers, policies and revisions in a database; a
    reconciler renders a stack's compose document into a stored revision, checks it
    against the policy of the stack's worker and sends it to the worker, which runs
    it with docker and reports back; the server then verifies what runs.  The
    source is Go, under src/; this library models its own logic and proves what
    makes it correct.

    ** Conventions

    A Go function without effects is a function here, with the name it has in the
    source.  A result with an [error] is an [option] or a sum.  A method that
    changes its receiver takes the state and returns the new one.  A call that can
    fail for reasons outside the program (the database, the disk, docker, a worker)
    has its outcome as an argument, so a theorem holds for every combination of
    failures.  Code outside src/ (YAML, SHA-256, ciphers, database queries) is a
    parameter with its documented behaviour as a hypothesis or as the laws of a
    class; the theorems that have one are applied to a concrete function in their
    witness.  Iterating over a Go map is the class [GoRange]: some permutation of the
    entries, so what is proved holds for every order.  Goroutines are steps of a
    relation between states.

    ** Files and sources

    Libraries:
    - [Prelude]: error sequencing, sorting, map iteration, 64-bit wrap, tactics.
    - [GoStrings], [GoPath], [GoFmt], [GoValue], [GoBase64]: what the code uses of
      Go's [strings], [path/filepath], [strconv] and [fmt], decoded YAML values and
      [encoding/base64].
    - [PbRecord], [PbTable]: the database records and tables the code reads
      and writes, and what a save may leave in a row that has changed meanwhile.

    Admission: what may run on a worker.
    - [SafePath]: internal/safepath/safepath.go.
    - [Policy]: internal/policy/policy.go; [PolicyCompose]: internal/policy/compose.go.
    - [Rbac]: internal/rbac/rbac.go.
    - [LintCore] (findings, report, runner), [LintRules] (every rule) and [LintSpec]
      (what the rules decide together): internal/lint/lint.go and rules_*.go;
      [LintSource]: source.go and redact.go.
    - [DepGraph]: internal/depgraph/graph.go.

    Rendering: from a repository to a stored revision.
    - [ComposeDoc]: internal/compose/config.go and the names of runner.go.
    - [Overrides], [ConfigInject], [Renderer]: internal/sync/renderer.go.
    - [ConfigFiles]: internal/configfiles.
    - [ProjectIdentity]: internal/sync/project_identity.go.
    - [EnvVars]: internal/envvars/resolver.go; [EnvFile]: internal/sync/envfile.go.

    Deploying and verifying.
    - [Scheduler], [PendingReconciles]: internal/sync/scheduler.go.
    - [WaitJobs]: internal/sync/wait_jobs.go.
    - [PhaseTracker]: internal/sync/phase_tracker.go; [LintPhase]:
      internal/sync/lint.go.
    - [Health]: internal/compose/status.go and health.go.
    - [PostCheck]: internal/sync/postcheck.go and deploy_timeout.go.
    - [ReconcileCore], [Reconcile], [ReconcileOps], [Transfer]:
      internal/sync/reconciler.go.  The operations are programs of a monad over the
      server's records, the phase timeline, the revision files and the commands sent,
      which may return early; what git, docker, the workers and the libraries answer is
      the record [externals] and the class [Platform], and a list of answers says which
      database calls fail.  [ReconcileLogic] has the program logic their theorems use,
      [ReconcileSpec], [ReconcileSettled], [ReconcileRuns] and [Transfer] the
      theorems.

    The worker's side of a deploy.
    - [ComposeRun]: internal/compose/runner.go, linewriter.go and the contained reading
      of config.go.  What the host does (processes, files, docker's API) is a list of
      calls, and what it answers a function of the calls before; programs are in the
      monad over that list.
    - [Migration], [MigrationSpec]: worker/executor/project_migration.go.
    - [Redact]: worker/executor/redact.go; [Executor], [ExecutorSpec]: deploy, redeploy,
      teardown and probe of worker/executor/runner.go, with registry_auth.go.
    - The rest of runner.go: [WorkerJobs], [WorkerJobsSpec] (jobs, with the arguments of
      docker run of internal/protocol/messages.go), [WorkerFiles] (reading a file for an
      import) and [WorkerQueries] (inspection, container actions, discovery, logs, with
      internal/docker/client.go).

    Jobs.
    - [JobFile]: internal/job/parser.go.
    - [JobRuns] (the job_runs table), [JobDispatch] (from a cron tick to the workers)
      and [JobCron] (the cron entries): internal/jobscheduler/scheduler.go, with the
      choice of workers by tags of internal/worker/server.go.

    Streams and delivery.
    - [Fanout], [LogStream]: internal/logstream/broker.go;
      [TermStream]: internal/termstream/broker.go.
    - [Spool]: worker/spool/store.go; [Transport]: worker/transport/transport.go, what
      it sends, flushes and drains over the outbox.
    - [DurableCommands]: the deduplication of redelivered commands of
      worker/handlers/handlers.go, one step per access of a shared map;
      [WorkerQueue]: the semaphores and the queue of the same file, and its job
      handler.
    - [WorkerTokens]: internal/worker/service.go; [WorkerCommands]:
      internal/worker/commands.go; [WorkerServer]: internal/worker/server.go, the
      threads of dispatches and connections, one step per locked region, with the
      invariants of their interleavings in [WorkerServerSpec].

    Identity, access and audit.
    - [Crypto]: internal/crypto; [AuditLog]: internal/audit/audit.go.
    - [ApiKeys]: internal/auth/apikey.go and internal/routes/service_accounts.go.
    - [Webhook]: internal/webhook/signature.go and the webhook route of
      internal/routes/stack_routes.go.
    - [Routes]: the routes of internal/routes with their guards, one table per file, the
      choice of a route and the chain of cmd/serve.go a request goes through.
    - [Users]: internal/routes/users.go and the user guard of internal/hooks/pb_hooks.go;
      [Identity]: invitations, internal/setup/service.go, the sign-on route of
      internal/routes/auth.go with its rate limiter, and [syncSuperusers] of cmd/serve.go.

    Environment variables and secrets.
    - [EnvSecrets]: the hooks of the variables in internal/hooks/pb_hooks.go and the
      providers of internal/secrets; [EnvRoutes]: bulk edit, copy and reveal
      of internal/routes/env_var_routes.go.
    - [SopsFiles]: internal/secrets/sops.go and internal/routes/sops_routes.go.

    Stacks and their definitions.
    - [StackDefs]: internal/manifest/parser.go, internal/routes/wireops.go,
      stack_definition_routes.go and the creation routes of stack_routes.go, the lock of
      described fields in internal/hooks/pb_hooks.go and internal/stackdef/bypass.go.
    - [StackMigrate]: internal/routes/stack_migrate_routes.go with pkg/utils/setdiff.go.
    - [StackRoutes]: the other handlers of internal/routes/stack_routes.go, with
      stack_observability.go and container_log_filters.go.
    - [RecordHooks]: the hooks of internal/hooks/pb_hooks.go that check repositories, their
      keys, registry credentials, policies and stacks, and
      internal/registry/credential_store.go.

    Terminals.
    - [TermSessions]: internal/termsession/termsession.go, internal/routes/terminal.go and
      what cmd/serve.go does with the messages of the workers.

    ** What is proved

    Admission.  The compose validator accepts a document exactly when every service
    is permitted in its images, volumes, devices, networks, capabilities, security
    options and host modes, and reports the first violation of the exhaustive listing;
    the host path behind a named volume is held against the docker socket only.  Bind mounts, the docker
    socket, the precedence of worker and global settings, the roles and the guard of
    the routes are characterised exactly.  Accepted paths stay inside their
    directory.  A lint report has an error exactly when the document cannot be
    deployed or violates the policy, its order and counts are determined by the
    document, variables are reported exactly when nothing defines them, escaped text
    is never taken for a reference, the search for a source line ends on cyclic
    documents, and redacted messages show no directory of the server.  The dependency
    graph has the nodes and edges the document declares.

    Rendering.  What a render stores passed every gate in the form it is stored in, or is
    the current revision, which is kept; rendering again changes nothing while the identity
    of the project stays; the file of an earlier version is never rewritten whatever
    storage call fails, and that of the current one only when it cannot be looked up or the
    checksum was cleared, as a move does; a torn file is kept; reserved labels cannot be forged;
    overrides compute an order-free specification in every map order; config files
    are exactly the regular files below their source; project renames and
    migrations keep the deployed volumes and start from the deployed revision.  Every
    reader that follows the documented rules of Docker Compose, which is a parameter, reads
    from the .env file exactly the variables it was written from, and the environment has
    the documented precedence.  A key that starts a comment is accepted and lost.

    Deploying.  The scheduler keeps its concurrency limits from the start of the process
    on, and every ticker that is not cancelled is the registered one of its stack, but for
    one whose cancel function the start overwrote: a stack that was recovered at the boot
    has two.  It never deadlocks on its slots, and unregistering a stack stops its other
    tickers; waiting rows are
    dispatched once each; waiting for jobs follows the stack's policy and closes its
    phase.  The phase timeline has at most one open row under every database
    failure.  A deploy is declared verified only on evidence, and is when there is
    some; after a timeout the record advances exactly when the host provably runs the
    new revision.  Whatever fails, the reconciler records a revision as deployed only
    when it sent it and the worker confirmed it or its containers were seen running it;
    it sends at most three commands per operation; it leaves no stack syncing that was not,
    when the database answers, nothing is cancelled and it does not wait for jobs; a transfer tears the source down only
    after the target confirmed.  Six runs show where the code does not do what its
    comments say: a failed deploy is not tried again, a failed stack turns active, an
    expired reconcile stays syncing, a redeploy loses the detail of its render, a retry
    and a repeated teardown are answered from the worker's cache.

    On the worker.  No value of the environment a command ships comes back in a line, an
    output or an error of docker; files are written and removed only below the worker's
    directory, whatever ids a command has; the lines streamed do not depend on how the
    output arrives.  A project migration touches only the containers and, when asked, the
    named volumes of its stack, and either starts the target, leaves everything as it was,
    goes back to the previous revision, or says that it could not; it starts no other file.  A container is stopped
    or restarted only when it carries the label of the stack; a file is read only where
    imports may come from; logs stay within their limit; discovery reports exactly the
    projects that are not managed.  From the server to the host: a job runs with its own image,
    command and options, which the policy permitted, and its config files, and a deploy that timed out is recorded
    exactly when the stack's containers show its commit and no other.  Two runs show a job
    image that docker takes for an option, and a link through which an import reads
    another kind of file.

    Jobs.  A job reaches a worker only through the worker's policy; its runs are
    created once per target and never stay pending after a dispatch; a run's status
    only moves forward under every interleaving, a completion is final, and the reaper
    and the worker reports close exactly the runs they should.  Four theorems show
    where the code falls short: the isolation flags do not reach jobs, untagged jobs
    never run, overlapping registrations leak a cron entry, the picked worker depends
    on map order.

    Streams.  Neither broker ever sends on a closed channel, buffers stay bounded,
    redelivered lines appear once, the first listener of a terminal gets the backlog.
    A message of the worker's outbox survives every later operation and failing
    call until it is acknowledged, and every completed flush sends it; draining at
    shutdown ends.  On the worker, two copies of a command never run at the same time
    and the concurrency and queue limits hold under every interleaving; a job command
    is scheduled at most once.  A deploy command is executed at most once when its
    deduplication is not interrupted; as the code is, two copies can both execute it.
    On the server, commands are written only to connections of their worker and
    results return to the dispatch of their command, a worker has at most one open
    connection, a revoked worker's tokens are dead for good, and an undisturbed
    reconnection resends what waits.  Four runs show what the interleavings do allow:
    an exec sent twice, a result taken from another worker, a command a connected
    worker is never sent, and a revoked worker that stays connected.

    Identity, access and audit.  A request that brings at most an API key reaches no
    route for admins, however the requests that manage service accounts interleave; the
    routes that change something need an operator but for the public ones; the table has
    no conflicting patterns and no unknown capability.  A disabled account stays locked
    out, an issued key replaces the one before and works until it is revoked.  A push
    triggers a sync exactly when it is signed and for the right branch.  The audit log
    names the authenticated actor whatever the headers say, keeps no value of a body, and
    misses exactly the routes listed.  The initial admin stays enabled and protected, and an admin unless a
    sign-on writes its role, and the last active admin stays active under the route, an invitation makes one account, set-up
    happens once, superusers are the active admins, and the rate limiter keeps its bound.
    Encrypted values decrypt and the canary pins the key.  Four runs show where guards
    end: single sign-on demotes the initial admin, the hook lets the mark be removed, two
    requests together remove the last two admins, a disabled account gets a dead key.

    Environment variables and secrets.  However variables are created, changed and
    deleted, one request after the other, an internal secret is stored encrypted and never
    shown or made plain, and its value is what a deploy gets; two overlapping requests can
    expose one.  A bulk edit does exactly what it is asked or nothing, and so does a copy;
    a reveal returns internal secrets only and is recorded.  External references stay in
    the configured mount or project.  The SOPS file is read inside the checkout and the age
    key is not left in the environment or on the disk.

    Terminals.  No worker has more sessions than its limit; only who opened a session types
    into it, and only they or a manager of security close it; a transcript is the header
    and the chunks of its session in order; the sweep closes exactly the idle sessions, and
    two theorems show that output is no activity and that an ended session keeps its slot.

    Stacks and their definitions.  A definition that parses is valid; refreshing a stack
    from it gives the fields it describes the values a new stack would have, and a second
    refresh changes nothing; the described fields are locked for every save that has no
    bypass; the compose file is found inside the checkout.  A stack moves to another
    repository only on a confirmed request and with its lock held, and the critical
    warnings of the preview are exactly the volumes left behind and the host ports both
    projects publish.  Five theorems show where this ends: repeated tags never settle, a
    bypass admits concurrent saves, an unreadable secrets file is not reported, a failed
    save leaves a torn-down stack, a second teardown is not executed.

    Handlers and hooks of a stack.  Overrides that are saved apply again and give the
    document the policy permitted; a deleted stack leaves nothing of its own and keeps what
    others own; commands go only to the connected worker of the stack; the health shown is
    the one of the containers counted; log windows and output are bounded, and so is the
    compose file shown; an import saves the stack that was asked for.  Every repository
    keeps a key of the type its address needs, and private keys, passphrases and passwords
    are stored encrypted; a pull gets
    the credentials of its registries and no others; the name of a deployed project is the
    server's to change.  Six theorems show where this ends: an override with an empty list
    is stored without it, a failed deletion leaves a stack unscheduled, a refused teardown
    is repeated from the cache, the timestamp 0 is refused, an unanswered query admits the
    deletion of a repository, a local stack is listed from a file of the server.

    ** Bounds and fuel

    Recursion is structural except where a string is consumed rune by rune or a
    pattern chunk by chunk: there the fuel is the length of the string (or one more),
    and each step consumes at least one character.  The loops of the source that wait
    (post-check, waiting for jobs) run over the list of what each round observes; the
    post-check makes at most three.  The line search takes the length of the path as
    fuel and the drain one round per half second of its timeout: both are proved to be
    enough.  Resolving a link goes up the path, one element per
    unit of fuel; more fuel than elements is proved to change nothing.  Durations and counters wrap at 64 bits where the
    source multiplies or increments them without a check.

    ** Not modelled

    The queues of terminal sessions, the session and read loop of the
    worker end, interactive exec, the handlers of the HTTP routes that only wrap the
    components above, git, the clients of secret providers, the challenges of registries,
    metrics, backups, and the MCP server, which is a client of the routes.  The order for
    later work is: registry challenges, metrics. *)
From Corelib Require Export ssreflect.
From Stdlib Require Export Ascii.
From stdpp Require Export gmap strings list sorting pretty.

#[export] Set SsrOldRewriteGoalsOrder.
#[global] Open Scope general_if_scope.
#[export] Set Warnings "-rewrite-rw,-clear-no-such-hyp,-register-all".

Create HintDb wireops.
Create Rewrite HintDb wireops_rw.

Declare Scope wireops_scope.
Delimit Scope wireops_scope with wireops.
#[global] Open Scope wireops_scope.

(** ** Go's [error] results

    A Go function that returns only an [error] is a function into [option E],
    [None] being [nil].  [err_seq] is the statement sequence
    [if err := a; err != nil { return err }; b], and [first_err] is the loop
    [for _, x := range l { if err := f(x); err != nil { return err } }]. *)
Definition err_seq {E} (a b : option E) : option E :=
  match a with Some e => Some e | None => b end.

Notation "a ;;? b" := (err_seq a b)
  (at level 60, right associativity) : wireops_scope.

Fixpoint first_err {A E} (f : A → option E) (l : list A) : option E :=
  match l with
  | [] => None
  | x :: l => f x ;;? first_err f l
  end.

(** ** Sorted listings of Go maps

    [sort.Strings] over the keys of a map: Go compares strings byte by byte,
    which is [String.le]. *)
Definition sort_strings (l : list string) : list string := merge_sort strings.String.le l.

Definition sorted_keys {A} (m : gmap string A) : list string :=
  sort_strings (map_to_list m).*1.

(** Signed 64-bit arithmetic wraps around. *)
Definition wrap64 (z : Z) : Z := ((z + 2 ^ 63) mod 2 ^ 64 - 2 ^ 63)%Z.

(** ** Tactics *)

(** Split the innermost [if]/[match] of the goal or of a hypothesis, keeping
    the equation, and close the branches that are contradictory. *)
Ltac case_step :=
  match goal with
  | |- context [match ?x with _ => _ end] =>
      lazymatch x with context [match _ with _ => _ end] => fail | _ => destruct x eqn:? end
  | H : context [match ?x with _ => _ end] |- _ =>
      lazymatch x with context [match _ with _ => _ end] => fail | _ => destruct x eqn:? end
  end.

Ltac cases := repeat (case_step; simplify_eq/=; try done).

(** Turn boolean connectives in the context into propositions. *)
Ltac bool_props :=
  repeat match goal with
  | H : (_ && _)%bool = true |- _ => apply andb_true_iff in H as [? ?]
  | H : (_ || _)%bool = false |- _ => apply orb_false_iff in H as [? ?]
  | H : (_ || _)%bool = true |- _ => apply orb_true_iff in H
  | H : negb _ = true |- _ => apply negb_true_iff in H
  | H : negb _ = false |- _ => apply negb_false_iff in H
  | H : bool_decide _ = true |- _ => apply bool_decide_eq_true in H
  | H : bool_decide _ = false |- _ => apply bool_decide_eq_false in H
  end.

(** ** Lemmas on error sequencing *)
Section errors.
Context {A E : Type}.
Implicit Types (f g : A → option E) (l k : list A).

Lemma err_seq_None (a b : option E) : (a ;;? b) = None ↔ a = None ∧ b = None.
Proof. destruct a, b; naive_solver. Qed.

Lemma err_seq_assoc (a b c : option E) : ((a ;;? b) ;;? c) = (a ;;? (b ;;? c)).
Proof. by destruct a. Qed.

Lemma err_seq_None_r (a : option E) : (a ;;? None) = a.
Proof. by destruct a. Qed.

Lemma first_err_None f l : first_err f l = None ↔ ∀ x, x ∈ l → f x = None.
Proof.
  induction l as [|x l IH]; simpl; [set_solver|].
  rewrite err_seq_None IH. set_solver.
Qed.

Lemma first_err_Some f l e :
  first_err f l = Some e ↔
  ∃ l1 x l2, l = l1 ++ x :: l2 ∧ first_err f l1 = None ∧ f x = Some e.
Proof.
  split.
  - induction l as [|x l IH]; simpl; [done|].
    destruct (f x) as [e'|] eqn:Hx; simpl; intros He.
    + simplify_eq. by exists [], x, l.
    + destruct (IH He) as (l1 & y & l2 & -> & Hl1 & Hy).
      exists (x :: l1), y, l2. simpl. by rewrite Hx.
  - intros (l1 & x & l2 & -> & Hl1 & Hx).
    induction l1 as [|y l1 IH]; simpl in *; [by rewrite Hx|].
    apply err_seq_None in Hl1 as [-> ?]. simpl. auto.
Qed.

Lemma first_err_app f l k : first_err f (l ++ k) = (first_err f l ;;? first_err f k).
Proof. induction l as [|x l IH]; simpl; [done|]. by rewrite IH err_seq_assoc. Qed.

Lemma first_err_ext f g l : (∀ x, x ∈ l → f x = g x) → first_err f l = first_err g l.
Proof.
  induction l as [|x l IH]; intros Hfg; simpl; [done|].
  rewrite (Hfg x); [|by constructor]. rewrite IH; [done|].
  intros y Hy. apply Hfg. by constructor.
Qed.

(** Stopping at the first error reports the head of the list of all errors. *)
Lemma first_err_head_omap f l : first_err f l = head (omap f l).
Proof. induction l as [|x l IH]; simpl; [done|]. by destruct (f x). Qed.

Lemma head_app_seq (l k : list E) : head (l ++ k) = (head l ;;? head k).
Proof. by destruct l. Qed.
End errors.

Lemma first_err_map {A B E} (f : B → option E) (g : A → B) (l : list A) :
  first_err f (g <$> l) = first_err (λ x, f (g x)) l.
Proof. induction l as [|x l IH]; simpl; [done|]. by rewrite IH. Qed.

Lemma head_fmap {A B} (f : A → B) (l : list A) : head (f <$> l) = f <$> head l.
Proof. by destruct l. Qed.

#[export] Hint Rewrite @err_seq_None_r @first_err_app @head_app_seq : wireops_rw.

(** ** Lemmas on sorted key listings *)
#[global] Instance string_le_total : Total strings.String.le := _.

Lemma sort_strings_perm l : sort_strings l ≡ₚ l.
Proof. apply merge_sort_Permutation. Qed.

Lemma elem_of_sort_strings x l : x ∈ sort_strings l ↔ x ∈ l.
Proof. by rewrite sort_strings_perm. Qed.

Lemma sort_strings_sorted l : Sorted strings.String.le (sort_strings l).
Proof. apply Sorted_merge_sort, _. Qed.

Lemma elem_of_sorted_keys {A} (m : gmap string A) k :
  k ∈ sorted_keys m ↔ is_Some (m !! k).
Proof.
  unfold sorted_keys. rewrite elem_of_sort_strings list_elem_of_fmap. split.
  - intros ([k' v] & -> & ?%elem_of_map_to_list). simpl. eauto.
  - intros [v ?]. exists (k, v). by rewrite elem_of_map_to_list.
Qed.

Lemma NoDup_sorted_keys {A} (m : gmap string A) : NoDup (sorted_keys m).
Proof.
  unfold sorted_keys. rewrite sort_strings_perm. apply NoDup_fst_map_to_list.
Qed.

(** Two sorted permutations of the same strings are the same list, so a sorted
    listing does not depend on the order in which a Go map is iterated. *)
Lemma sort_strings_perm_eq l k : l ≡ₚ k → sort_strings l = sort_strings k.
Proof.
  intros Hp. apply (Sorted_unique strings.String.le); [apply sort_strings_sorted..|].
  by rewrite !sort_strings_perm.
Qed.

(** ** Propositional glue *)
Lemma exists_and_iff {A} (P Q R : A → Prop) :
  (∀ x, P x → (Q x ↔ R x)) → (∃ x, P x ∧ Q x) ↔ (∃ x, P x ∧ R x).
Proof. intros H. split; intros (x & Hx & ?); exists x; (split; [done|]); by apply H. Qed.

(** ** Map iteration
    [for k, v := range m] visits the entries in an unspecified order. *)
Class GoRange := {
  go_range : ∀ {A}, gmap string A → list (string * A);
  go_range_perm : ∀ {A} (m : gmap string A), go_range m ≡ₚ map_to_list m
}.

Lemma elem_of_go_range `{GoRange} {A} (m : gmap string A) k x :
  (k, x) ∈ go_range m ↔ m !! k = Some x.
Proof. rewrite go_range_perm. apply elem_of_map_to_list. Qed.

Lemma NoDup_go_range `{GoRange} {A} (m : gmap string A) : NoDup (go_range m).*1.
Proof. rewrite go_range_perm. apply NoDup_fst_map_to_list. Qed.

(** One possible order. *)
Definition some_range : GoRange := {| go_range := λ A m, map_to_list m; go_range_perm := λ A m, reflexivity _ |}.
