(* ===== verification/GoStrings.v ===== *)
(** * Go strings

    The operations of Go's [strings] package that the modelled code calls.  A
    Go string is a sequence of bytes; so is [string] here, a list of 8-bit
    characters.  Search functions that return an index in Go return the two
    halves around it here ([None] for the index -1). *)
From S2P Require Import Prelude.

(** ** Characters *)
Definition slash : ascii := "/"%char.
Definition colon : ascii := ":"%char.
Definition dquote : ascii := ascii_of_nat 34.
Definition squote : ascii := ascii_of_nat 39.
Definition ch (n : nat) : string := String (ascii_of_nat n) "".

(** ** [strings.HasPrefix], [strings.TrimPrefix], [strings.HasSuffix] *)
Fixpoint strip_prefix (p s : string) : option string :=
  match p, s with
  | EmptyString, _ => Some s
  | String a p, String b s => if decide (a = b) then strip_prefix p s else None
  | String _ _, EmptyString => None
  end.

Definition HasPrefix (s p : string) : bool :=
  match strip_prefix p s with Some _ => true | None => false end.

Definition TrimPrefix (s p : string) : string :=
  match strip_prefix p s with Some r => r | None => s end.

Fixpoint rev_app (s acc : string) : string :=
  match s with EmptyString => acc | String a s => rev_app s (String a acc) end.

Definition srev (s : string) : string := rev_app s "".

Definition HasSuffix (s x : string) : bool := HasPrefix (srev s) (srev x).

Definition TrimSuffix (s x : string) : string :=
  if HasSuffix s x then srev (TrimPrefix (srev s) (srev x)) else s.

(** ** [strings.Contains] *)
Fixpoint Contains (s sub : string) : bool :=
  HasPrefix s sub ||
  match s with EmptyString => false | String _ s => Contains s sub end.

(** [strings.ContainsAny]; the sets of characters used in the source are ASCII. *)
Fixpoint ContainsAny (s : string) (cs : list ascii) : bool :=
  match s with
  | EmptyString => false
  | String a s => bool_decide (a ∈ cs) || ContainsAny s cs
  end.

(** [strings.Count] of a one-byte substring. *)
Fixpoint count_char (c : ascii) (s : string) : nat :=
  match s with
  | EmptyString => 0
  | String a s => (if decide (a = c) then 1 else 0) + count_char c s
  end.

(** ** Cutting at a character

    [cut c s] splits around the first [c] ([strings.Index] and
    [strings.SplitN(s, c, 2)]); [rcut c s] around the last one
    ([strings.LastIndex]). *)
Fixpoint cut (c : ascii) (s : string) : option (string * string) :=
  match s with
  | EmptyString => None
  | String a s' =>
      if decide (a = c) then Some (EmptyString, s')
      else match cut c s' with
           | Some (l, r) => Some (String a l, r)
           | None => None
           end
  end.

Fixpoint rcut (c : ascii) (s : string) : option (string * string) :=
  match s with
  | EmptyString => None
  | String a s' =>
      match rcut c s' with
      | Some (l, r) => Some (String a l, r)
      | None => if decide (a = c) then Some (EmptyString, s') else None
      end
  end.

(** [strings.SplitN(s, c, n)[0]] for [n >= 2], also [strings.Split(s, c)[0]]. *)
Definition before (c : ascii) (s : string) : string :=
  match cut c s with Some (l, _) => l | None => s end.

(** [strings.Split] at a one-byte separator: never the empty list. *)
Fixpoint Split (c : ascii) (s : string) : list string :=
  match s with
  | EmptyString => [EmptyString]
  | String a s' =>
      if decide (a = c) then EmptyString :: Split c s'
      else match Split c s' with
           | [] => [String a EmptyString]
           | h :: t => String a h :: t
           end
  end.

(** [strings.Join]. *)
Fixpoint Join (sep : string) (l : list string) : string :=
  match l with
  | [] => EmptyString
  | [x] => x
  | x :: l => x +:+ sep +:+ Join sep l
  end.

(** ** [strings.TrimSpace]

    The UTF-8 encodings of the runes for which [unicode.IsSpace] holds. *)
Definition space_seqs : list string :=
  (ch <$> [9; 10; 11; 12; 13; 32]) ++
  [ch 194 +:+ ch 133; ch 194 +:+ ch 160;
   ch 225 +:+ ch 154 +:+ ch 128] ++
  ((λ n, ch 226 +:+ ch 128 +:+ ch n) <$>
    [128; 129; 130; 131; 132; 133; 134; 135; 136; 137; 138; 168; 169; 175]) ++
  [ch 226 +:+ ch 129 +:+ ch 159; ch 227 +:+ ch 128 +:+ ch 128].

Definition strip_any (ps : list string) (s : string) : option string :=
  head (omap (λ p, strip_prefix p s) ps).

Fixpoint trim_left_fuel (n : nat) (ps : list string) (s : string) : string :=
  match n with
  | 0 => s
  | S n => match strip_any ps s with Some r => trim_left_fuel n ps r | None => s end
  end.

(** Every stripped sequence is at least one byte, so the length is enough fuel. *)
Definition trim_left (ps : list string) (s : string) : string :=
  trim_left_fuel (String.length s) ps s.

Definition trim_right (ps : list string) (s : string) : string :=
  srev (trim_left (srev <$> ps) (srev s)).

Definition TrimSpace (s : string) : string := trim_right space_seqs (trim_left space_seqs s).

(** [strings.Trim] with a cutset of ASCII characters. *)
Definition Trim (s : string) (cs : list ascii) : string :=
  let ps := (λ c, String c EmptyString) <$> cs in trim_right ps (trim_left ps s).

(** ** [strings.ToLower]

    ASCII letters, and the two other runes whose lower case is ASCII (U+0130
    and U+212A).  The remaining non-ASCII runes are left alone: Go maps them to
    non-ASCII runes, which no comparison in the modelled code can tell apart. *)
Definition lower_ascii (a : ascii) : ascii :=
  let n := nat_of_ascii a in
  if (65 <=? n) && (n <=? 90) then ascii_of_nat (n + 32) else a.

Fixpoint lower_fuel (n : nat) (s : string) : string :=
  match n, s with
  | S n, String a s' =>
      match strip_prefix (ch 196 +:+ ch 176) s, strip_prefix (ch 226 +:+ ch 132 +:+ ch 170) s with
      | Some r, _ => String "i" (lower_fuel n r)
      | _, Some r => String "k" (lower_fuel n r)
      | None, None => String (lower_ascii a) (lower_fuel n s')
      end
  | _, _ => EmptyString
  end.

Definition ToLower (s : string) : string := lower_fuel (String.length s) s.

(** [strconv.Itoa] on a non-negative number, and [fmt.Sprint] of one. *)
Definition Itoa (n : Z) : string := pretty n.

(** ** Lemmas *)

(** [app] of [String] is kept folded by [simpl]; these are its equations. *)
Lemma sapp_nil_l s : "" +:+ s = s.
Proof. done. Qed.

Lemma sapp_cons a s t : String a s +:+ t = String a (s +:+ t).
Proof. done. Qed.

Lemma sapp_nil_r s : s +:+ "" = s.
Proof. induction s as [|a s IH]; [done|]. by rewrite sapp_cons IH. Qed.

Lemma sapp_assoc s t u : (s +:+ t) +:+ u = s +:+ (t +:+ u).
Proof. induction s as [|a s IH]; [done|]. by rewrite !sapp_cons IH. Qed.

Lemma sapp_inv_head s t u : s +:+ t = s +:+ u → t = u.
Proof. induction s as [|a s IH]; rewrite ?sapp_cons; intros; simplify_eq; auto. Qed.

#[export] Hint Rewrite sapp_nil_l sapp_nil_r sapp_cons sapp_assoc : wireops_rw.

Lemma slength_app s t : String.length (s +:+ t) = String.length s + String.length t.
Proof. induction s as [|a s IH]; [done|]. rewrite sapp_cons /=. by rewrite IH. Qed.

Lemma strip_prefix_Some p s r : strip_prefix p s = Some r ↔ s = p +:+ r.
Proof.
  revert s. induction p as [|a p IH]; intros s; simpl.
  - rewrite sapp_nil_l. naive_solver.
  - rewrite sapp_cons. destruct s as [|b s]; [done|].
    case_decide; simplify_eq; [rewrite IH|]; naive_solver.
Qed.

Lemma HasPrefix_spec s p : HasPrefix s p = true ↔ ∃ r, s = p +:+ r.
Proof.
  unfold HasPrefix. destruct (strip_prefix p s) as [r|] eqn:Hs.
  - apply strip_prefix_Some in Hs. naive_solver.
  - split; [done|]. intros [r ?%strip_prefix_Some]. congruence.
Qed.

Lemma HasPrefix_app p r : HasPrefix (p +:+ r) p = true.
Proof. apply HasPrefix_spec. eauto. Qed.

Lemma TrimPrefix_app p r : TrimPrefix (p +:+ r) p = r.
Proof.
  unfold TrimPrefix. by rewrite (proj2 (strip_prefix_Some p (p +:+ r) r) eq_refl).
Qed.

Lemma rev_app_spec s acc : rev_app s acc = srev s +:+ acc.
Proof.
  unfold srev. revert acc. induction s as [|a s IH]; intros acc; simpl; [done|].
  rewrite IH (IH (String a "")) sapp_assoc. done.
Qed.

Lemma srev_cons a s : srev (String a s) = srev s +:+ String a "".
Proof. unfold srev at 1. simpl. apply rev_app_spec. Qed.

Lemma srev_app s t : srev (s +:+ t) = srev t +:+ srev s.
Proof.
  induction s as [|a s IH]; [by rewrite sapp_nil_l sapp_nil_r|].
  by rewrite sapp_cons !srev_cons IH sapp_assoc.
Qed.

Lemma srev_involutive s : srev (srev s) = s.
Proof. induction s as [|a s IH]; [done|]. by rewrite srev_cons srev_app IH. Qed.

Lemma HasSuffix_app s x : HasSuffix (s +:+ x) x = true.
Proof. unfold HasSuffix. rewrite srev_app. apply HasPrefix_app. Qed.

Lemma TrimSuffix_app s x : TrimSuffix (s +:+ x) x = s.
Proof.
  unfold TrimSuffix. by rewrite HasSuffix_app srev_app TrimPrefix_app srev_involutive.
Qed.

Lemma Contains_spec s sub : Contains s sub = true ↔ ∃ l r, s = l +:+ sub +:+ r.
Proof.
  split.
  - induction s as [|a s IH]; simpl.
    + rewrite orb_false_r HasPrefix_spec. intros [r Hr]. by exists "", r.
    + intros [[r Hr]%HasPrefix_spec|Hs]%orb_true_iff; [by exists "", r|].
      destruct (IH Hs) as (l & r & ->). by exists (String a l), r.
  - intros (l & r & ->). induction l as [|a l IH].
    + rewrite sapp_nil_l. destruct (sub +:+ r) eqn:Hs; simpl; rewrite -Hs HasPrefix_app //.
    + rewrite sapp_cons. simpl. rewrite IH. apply orb_true_r.
Qed.

Lemma Contains_false_app l sub r : Contains (l +:+ r) sub = false →
  Contains l sub = false ∧ Contains r sub = false.
Proof.
  intros Hn. split; apply not_true_iff_false; intros (u & v & ->)%Contains_spec;
    apply not_true_iff_false in Hn; apply Hn, Contains_spec.
  - exists u, (v +:+ r). by rewrite !sapp_assoc.
  - exists (l +:+ u), v. by rewrite !sapp_assoc.
Qed.

(** ** Cutting and joining *)

Fixpoint in_string (c : ascii) (s : string) : Prop :=
  match s with EmptyString => False | String a s => a = c ∨ in_string c s end.

Lemma in_string_app c s t : in_string c (s +:+ t) ↔ in_string c s ∨ in_string c t.
Proof.
  induction s as [|a s IH]; [rewrite sapp_nil_l; simpl; tauto|].
  rewrite sapp_cons. simpl. rewrite IH. tauto.
Qed.

Lemma cut_Some c s l r : cut c s = Some (l, r) ↔ s = l +:+ String c r ∧ ¬ in_string c l.
Proof.
  revert l. induction s as [|a s IH]; intros l; simpl.
  - split; [done|]. intros [Hs _]. by destruct l.
  - case_decide as Ha; [subst a|].
    + split; [intros; simplify_eq; rewrite sapp_nil_l; naive_solver|]. intros [Hs Hl].
      destruct l as [|b l]; rewrite ?sapp_cons ?sapp_nil_l in Hs; simplify_eq; [done|].
      simpl in Hl. tauto.
    + split.
      * destruct (cut c s) as [[l' r']|]; [|done]. intros; simplify_eq.
        destruct (proj1 (IH l') eq_refl) as [-> ?]. rewrite sapp_cons. simpl. naive_solver.
      * intros [Hs Hl]. destruct l as [|b l]; rewrite ?sapp_cons ?sapp_nil_l in Hs; simplify_eq.
        simpl in Hl. rewrite (proj2 (IH l)); [done|tauto].
Qed.

Lemma cut_None c s : cut c s = None ↔ ¬ in_string c s.
Proof.
  induction s as [|a s IH]; simpl; [naive_solver|].
  case_decide; [naive_solver|]. destruct (cut c s) as [[]|]; naive_solver.
Qed.

Lemma rcut_None c s : rcut c s = None ↔ ¬ in_string c s.
Proof.
  induction s as [|a s IH]; simpl; [naive_solver|].
  destruct (rcut c s) as [[]|]; [naive_solver|]. case_decide; naive_solver.
Qed.

Lemma rcut_Some c s l r : rcut c s = Some (l, r) ↔ s = l +:+ String c r ∧ ¬ in_string c r.
Proof.
  revert l r. induction s as [|a s IH]; intros l r; simpl.
  - split; [done|]. intros [Hs _]. by destruct l.
  - destruct (rcut c s) as [[l' r']|] eqn:Hr.
    + split.
      * intros; simplify_eq. destruct (proj1 (IH l' r) eq_refl) as [-> ?]. by rewrite sapp_cons.
      * intros [Hs Hn]. destruct l as [|b l]; rewrite ?sapp_cons ?sapp_nil_l in Hs; simplify_eq.
        -- by rewrite (proj2 (rcut_None c r) Hn) in Hr.
        -- assert (Some (l', r') = Some (l, r)) by (by apply IH). by simplify_eq.
    + apply rcut_None in Hr. split.
      * case_decide; [|done]. intros; simplify_eq. rewrite sapp_nil_l. done.
      * intros [Hs Hn]. destruct l as [|b l]; rewrite ?sapp_cons ?sapp_nil_l in Hs; simplify_eq.
        -- by rewrite decide_True.
        -- exfalso. apply Hr, in_string_app. right. by left.
Qed.

Lemma before_no_char c s : ¬ in_string c s → before c s = s.
Proof. intros Hn. unfold before. by rewrite (proj2 (cut_None c s) Hn). Qed.

Lemma before_app c l r : ¬ in_string c l → before c (l +:+ String c r) = l.
Proof. intros Hn. unfold before. by rewrite (proj2 (cut_Some c _ l r) (conj eq_refl Hn)). Qed.

Lemma before_clean c s : ¬ in_string c (before c s).
Proof.
  unfold before. destruct (cut c s) as [[l r]|] eqn:Hc.
  - by apply cut_Some in Hc as [_ ?].
  - by apply cut_None.
Qed.

Lemma Split_nonempty c s : Split c s ≠ [].
Proof. destruct s; simpl; [done|]. case_decide; [done|]. by case_match. Qed.

Lemma Split_no_char c s x : x ∈ Split c s → ¬ in_string c x.
Proof.
  revert x. induction s as [|a s IH]; intros x; simpl.
  - rewrite list_elem_of_singleton. intros -> [].
  - case_decide as Ha.
    + rewrite elem_of_cons. intros [->|?]; [intros []|auto].
    + pose proof (Split_nonempty c s). destruct (Split c s) as [|h t]; [done|].
      rewrite elem_of_cons. intros [->|?]; [|apply IH; by constructor].
      simpl. intros [?|Hin]; [done|]. by apply (IH h); [constructor|].
Qed.

Lemma Split_single c s : ¬ in_string c s → Split c s = [s].
Proof.
  induction s as [|a s IH]; simpl; [done|]. intros Hn.
  rewrite decide_False; [rewrite IH|]; naive_solver.
Qed.

Lemma Split_app c s t : ¬ in_string c s → Split c (s +:+ String c t) = s :: Split c t.
Proof.
  induction s as [|a s IH]; simpl.
  - intros _. by rewrite decide_True.
  - intros Hn. rewrite decide_False; [rewrite IH|]; naive_solver.
Qed.

Lemma Join_cons sep x l : l ≠ [] → Join sep (x :: l) = x +:+ sep +:+ Join sep l.
Proof. by destruct l. Qed.

Lemma Join_Split c s : Join (String c "") (Split c s) = s.
Proof.
  induction s as [|a s IH]; simpl; [done|].
  pose proof (Split_nonempty c s) as Hne.
  case_decide as Ha; [subst a|].
  - rewrite Join_cons //. by rewrite IH.
  - destruct (Split c s) as [|h t]; [done|].
    rewrite -IH. by destruct t.
Qed.

Lemma Split_Join c l : l ≠ [] → (∀ x, x ∈ l → ¬ in_string c x) →
  Split c (Join (String c "") l) = l.
Proof.
  induction l as [|x l IH]; [done|]. intros _ Hl.
  destruct l as [|y l].
  - simpl. apply Split_single, Hl. by constructor.
  - rewrite Join_cons // sapp_cons sapp_nil_l Split_app.
    + f_equal. apply IH; [done|]. intros z Hz. apply Hl. by constructor.
    + apply Hl. by constructor.
Qed.

Lemma Split_Join_app c l t : (∀ x, x ∈ l → ¬ in_string c x) → l ≠ [] →
  Split c (Join (String c "") l +:+ String c t) = l ++ Split c t.
Proof.
  induction l as [|x l IH]; [done|]. intros Hl _.
  assert (¬ in_string c x) by (apply Hl; by constructor).
  destruct l as [|y l].
  - simpl. by rewrite Split_app.
  - rewrite Join_cons // sapp_cons sapp_nil_l sapp_assoc sapp_cons Split_app //.
    simpl. f_equal. apply IH; [|done]. intros z Hz. apply Hl. by constructor.
Qed.

Lemma in_string_split c s : in_string c s ↔ ∃ l r, s = l +:+ String c r.
Proof.
  split.
  - induction s as [|a s IH]; simpl; [done|]. intros [->|Hs]; [by exists "", s|].
    destruct (IH Hs) as (l & r & ->). by exists (String a l), r.
  - intros (l & r & ->). apply in_string_app. right. by left.
Qed.

Lemma Contains_char c s : Contains s (String c "") = true ↔ in_string c s.
Proof. rewrite Contains_spec in_string_split. done. Qed.

Lemma Contains_char_false c s : Contains s (String c "") = false ↔ ¬ in_string c s.
Proof. rewrite -not_true_iff_false Contains_char. done. Qed.

Lemma ContainsAny_false s cs : ContainsAny s cs = false ↔ ∀ c, c ∈ cs → ¬ in_string c s.
Proof.
  induction s as [|a s IH]; simpl; [naive_solver|].
  rewrite orb_false_iff bool_decide_eq_false IH. naive_solver.
Qed.
