(* ===== verification/GoPath.v ===== *)
(** * Go file paths

    The functions of Go's [path/filepath] (on Unix) that the modelled code
    calls: [Clean], [Join], [IsAbs], [Ext], [Rel] and [Match].  [Clean] is
    given by its documented rules on the list of path components. *)
From S2P Require Import Prelude GoStrings.

(** ** [filepath.Clean] *)

(** One path element against the stack of the elements kept so far, innermost
    first: empty and [.] elements vanish, [..] removes the element before it,
    vanishes at a root and is kept at the start of a relative path. *)
Definition clean_step (rooted : bool) (stk : list string) (c : string) : list string :=
  if decide (c = "" ∨ c = ".") then stk
  else if decide (c = "..") then
    match stk with
    | [] => if rooted then [] else [".."]
    | top :: rest => if decide (top = "..") then ".." :: stk else rest
    end
  else c :: stk.

Definition clean_stack (rooted : bool) (cs : list string) : list string :=
  foldl (clean_step rooted) [] cs.

Definition IsAbs (p : string) : bool := HasPrefix p "/".

(** The elements of a cleaned path. *)
Definition path_comps (p : string) : list string :=
  reverse (clean_stack (IsAbs p) (Split slash p)).

Definition show_path (rooted : bool) (cs : list string) : string :=
  if rooted then "/" +:+ Join "/" cs
  else match cs with [] => "." | _ => Join "/" cs end.

Definition Clean (p : string) : string := show_path (IsAbs p) (path_comps p).

(** [filepath.Join(dir, name)]: empty arguments are dropped. *)
Definition PathJoin (dir name : string) : string :=
  if decide (dir = "") then (if decide (name = "") then "" else Clean name)
  else if decide (name = "") then Clean dir
  else Clean (dir +:+ String slash name).

(** [filepath.Ext]: the suffix from the last dot of the final element. *)
Definition Ext (p : string) : string :=
  let base := match rcut slash p with Some (_, b) => b | None => p end in
  match rcut "."%char base with Some (_, e) => String "." e | None => "" end.

(** [filepath.Base]. *)
Definition Base (p : string) : string :=
  if decide (p = "") then "."
  else let q := trim_right ["/"] p in
       let b := match rcut slash q with Some (_, b) => b | None => q end in
       if decide (b = "") then "/" else b.

(** [filepath.Dir] of a path whose directory part is already clean. *)
Definition Dir (p : string) : string :=
  match rcut slash p with Some (d, _) => Clean (d +:+ "/") | None => "." end.

(** ** [filepath.Rel] *)
Fixpoint strip_common (b t : list string) : list string * list string :=
  match b, t with
  | x :: b', y :: t' => if decide (x = y) then strip_common b' t' else (b, t)
  | _, _ => (b, t)
  end.

Definition Rel (base targ : string) : option string :=
  if decide (Clean base = Clean targ) then Some "."
  else if decide (IsAbs base = IsAbs targ) then
    let '(b, t) := strip_common (path_comps base) (path_comps targ) in
    if decide (head b = Some "..") then None
    else Some (show_path false (replicate (length b) ".." ++ t))
  else None.

(** ** [filepath.Match] *)

(** [utf8.DecodeRuneInString]: the rune and its width in bytes; a byte that
    starts no valid encoding is U+FFFD of width 1. *)
Definition in_range (lo hi n : N) : bool := (lo <=? n)%N && (n <=? hi)%N.

Definition decode_rune (s : string) : N * nat :=
  let bytes := N_of_ascii <$> String.list_ascii_of_string s in
  match bytes return N * nat with
  | [] => (65533%N, 0)
  | b0 :: t =>
      if (b0 <=? 127)%N then (b0, 1)
      else match t with
      | b1 :: t =>
        if in_range 194 223 b0 && in_range 128 191 b1 then (((b0 - 192) * 64 + (b1 - 128))%N, 2)
        else match t with
        | b2 :: t =>
          if in_range 224 239 b0 && in_range 128 191 b2 &&
             in_range (if b0 =? 224 then 160 else 128)%N (if b0 =? 237 then 159 else 191)%N b1
          then (((b0 - 224) * 4096 + (b1 - 128) * 64 + (b2 - 128))%N, 3)
          else match t with
          | b3 :: _ =>
            if in_range 240 244 b0 && in_range 128 191 b2 && in_range 128 191 b3 &&
               in_range (if b0 =? 240 then 144 else 128)%N (if b0 =? 244 then 143 else 191)%N b1
            then (((b0 - 240) * 262144 + (b1 - 128) * 4096 + (b2 - 128) * 64 + (b3 - 128))%N, 4)
            else (65533%N, 1)
          | _ => (65533%N, 1)
          end
        | _ => (65533%N, 1)
        end
      | _ => (65533%N, 1)
      end
  end.

Fixpoint sdrop (n : nat) (s : string) : string :=
  match n, s with S n, String _ s => sdrop n s | _, _ => s end.

(** [scanChunk]: leading stars, then the pattern up to the next star that is
    not inside a character class. *)
Fixpoint scan_stars (p : string) : bool * string :=
  match p with
  | String a p' => if decide (a = "*"%char) then (true, (scan_stars p').2) else (false, p)
  | EmptyString => (false, p)
  end.

Fixpoint scan_body (inrange : bool) (p : string) : string * string :=
  match p with
  | EmptyString => (EmptyString, EmptyString)
  | String a p' =>
      if decide (a = "\"%char) then
        match p' with
        | EmptyString => (p, EmptyString)
        | String b p'' => let '(c, r) := scan_body inrange p'' in (String a (String b c), r)
        end
      else if decide (a = "*"%char ∧ inrange = false) then (EmptyString, p)
      else
        let inrange := if decide (a = "["%char) then true
                       else if decide (a = "]"%char) then false else inrange in
        let '(c, r) := scan_body inrange p' in (String a c, r)
  end.

Definition scan_chunk (p : string) : bool * string * string :=
  let '(star, p) := scan_stars p in
  let '(chunk, rest) := scan_body false p in (star, chunk, rest).

(** [getEsc]: one possibly escaped rune of a character class. *)
Definition get_esc (chunk : string) : option (N * string) :=
  match chunk with
  | EmptyString | String "-" _ | String "]" _ => None
  | _ =>
      let c := match chunk with String "\" c => c | _ => chunk end in
      let '(r, n) := decode_rune c in
      if decide (n = 0 ∨ (r = 65533%N ∧ n = 1) ∨ sdrop n c = "") then None
      else Some (r, sdrop n c)
  end.

(** The ranges of a character class against a rune ([None] once the match has
    failed; the class is still parsed).  [first] is [nrange = 0]. *)
Fixpoint class_ranges (fuel : nat) (first : bool) (r : option N) (hit : bool) (chunk : string)
    : option (bool * string) :=
  match fuel with
  | 0 => None
  | S fuel =>
      match first, chunk with
      | false, String "]" c => Some (hit, c)
      | _, _ =>
          lo ← get_esc chunk;
          hi ← match lo.2 with String "-" c => get_esc c | _ => Some lo end;
          class_ranges fuel false r
            (hit || match r with Some r => (lo.1 <=? r)%N && (r <=? hi.1)%N | None => false end) hi.2
      end
  end.

Inductive match_result := MBad | MFail | MOk (rest : string).

(** [matchChunk]; [s = None] records that the match has already failed. *)
Fixpoint match_chunk_fuel (fuel : nat) (chunk : string) (s : option string) : match_result :=
  match fuel, chunk with
  | _, EmptyString => match s with Some s => MOk s | None => MFail end
  | 0, _ => MBad
  | S fuel, String a chunk' =>
      let s := match s with Some EmptyString => None | _ => s end in
      let literal (c : ascii) (chunk : string) :=
        match_chunk_fuel fuel chunk
          (match s with
           | Some (String b s) => if decide (c = b) then Some s else None
           | _ => None
           end) in
      if decide (a = "["%char) then
        let r := match s with Some s => Some (decode_rune s).1 | None => None end in
        let rest := match s with Some s => Some (sdrop (decode_rune s).2 s) | None => None end in
        let '(negated, c) :=
          match chunk' with
          | String b c => if decide (b = "^"%char) then (true, c) else (false, chunk')
          | EmptyString => (false, chunk')
          end in
        match class_ranges (S (String.length c)) true r false c with
        | None => MBad
        | Some (hit, c) =>
            match_chunk_fuel fuel c (if Bool.eqb hit negated then None else rest)
        end
      else if decide (a = "?"%char) then
        match_chunk_fuel fuel chunk'
          (match s with
           | Some (String b _ as s) =>
               if decide (b = slash) then None else Some (sdrop (decode_rune s).2 s)
           | _ => None
           end)
      else if decide (a = "\"%char) then
        match chunk' with
        | EmptyString => MBad
        | String c chunk'' => literal c chunk''
        end
      else literal a chunk'
  end.

Definition match_chunk (chunk s : string) : match_result :=
  match_chunk_fuel (String.length chunk) chunk (Some s).

(** The [for] loop that skips bytes of the name under a star. *)
Fixpoint star_search (chunk : string) (last : bool) (name : string) : match_result :=
  match name with
  | EmptyString => MFail
  | String b name =>
      if decide (b = slash) then MFail
      else match match_chunk chunk name with
           | MBad => MBad
           | MFail => star_search chunk last name
           | MOk t => if decide (last ∧ t ≠ "") then star_search chunk last name else MOk t
           end
  end.

(** The remaining pattern must be well formed even when nothing matches. *)
Fixpoint pattern_ok (fuel : nat) (p : string) : bool :=
  match fuel with
  | 0 => bool_decide (p = "")
  | S fuel =>
      if decide (p = "") then true
      else let '(_, chunk, rest) := scan_chunk p in
           match match_chunk chunk "" with MBad => false | _ => pattern_ok fuel rest end
  end.

(** [Some b] is [(b, nil)], [None] is [ErrBadPattern]. *)
Fixpoint match_fuel (fuel : nat) (p name : string) : option bool :=
  match fuel with
  | 0 => None
  | S fuel =>
      if decide (p = "") then Some (bool_decide (name = ""))
      else
        let '(star, chunk, rest) := scan_chunk p in
        let last := bool_decide (rest = "") in
        if decide (star ∧ chunk = "") then Some (negb (Contains name "/"))
        else
          let no := if pattern_ok (String.length rest) rest then Some false else None in
          let skip := if star then
                        match star_search chunk last name with
                        | MBad => None | MOk t => match_fuel fuel rest t | MFail => no
                        end
                      else no in
          match match_chunk chunk name with
          | MBad => None
          | MOk t => if decide (t = "" ∨ rest ≠ "") then match_fuel fuel rest t else skip
          | MFail => skip
          end
  end.

(** Each round consumes at least one byte of the pattern, so its length (plus
    the final empty round) is enough fuel. *)
Definition Match (p name : string) : option bool := match_fuel (S (String.length p)) p name.

(** ** [Clean] normalises

    A normalised list of elements: proper names, preceded in a relative path
    by any number of [..]. *)
Definition proper (c : string) : Prop :=
  c ≠ "" ∧ c ≠ "." ∧ c ≠ ".." ∧ ¬ in_string slash c.

Definition normalised (rooted : bool) (cs : list string) : Prop :=
  ∃ n ns, cs = replicate n ".." ++ ns ∧ Forall proper ns ∧ (rooted = true → n = 0).

Lemma normalised_no_slash r cs x : normalised r cs → x ∈ cs → ¬ in_string slash x.
Proof.
  intros (n & ns & -> & Hns & _) [Hx|Hx]%elem_of_app.
  - apply elem_of_replicate in Hx as [-> _]. simpl. intuition discriminate.
  - rewrite Forall_forall in Hns. by apply Hns.
Qed.

Lemma clean_step_normalised r stk c : ¬ in_string slash c →
  normalised r (reverse stk) → normalised r (reverse (clean_step r stk c)).
Proof.
  intros Hc (n & ns & Hstk & Hns & Hn). unfold clean_step.
  apply (f_equal reverse) in Hstk. rewrite reverse_involutive reverse_app in Hstk. subst stk.
  case_decide as H1; [by exists n, ns; rewrite reverse_app !reverse_involutive|].
  case_decide as H2.
  - induction ns as [|x ns _] using rev_ind.
    + rewrite reverse_nil app_nil_l reverse_replicate. destruct n as [|n]; simpl.
      * destruct r; [by exists 0, []|]. by exists 1, [].
      * exists (S (S n)), []. rewrite app_nil_r. split; [|naive_solver].
        apply (reverse_replicate (S (S n))).
    + rewrite reverse_snoc /=. apply Forall_app in Hns as [Hns Hx].
      apply Forall_singleton in Hx as (_ & _ & Hx & _). rewrite decide_False //.
      exists n, ns. by rewrite reverse_app !reverse_involutive.
  - exists n, (ns ++ [c]). rewrite reverse_cons reverse_app !reverse_involutive app_assoc.
    split_and!; [done| |done]. apply Forall_app. split; [done|].
    apply Forall_singleton. unfold proper. naive_solver.
Qed.

Lemma foldl_step_normalised r cs stk : (∀ x, x ∈ cs → ¬ in_string slash x) →
  normalised r (reverse stk) → normalised r (reverse (foldl (clean_step r) stk cs)).
Proof.
  revert stk. induction cs as [|c cs IH]; intros stk Hcs Hn; simpl; [done|].
  apply IH; [set_solver|]. apply clean_step_normalised; [set_solver|done].
Qed.

Lemma path_comps_normalised p : normalised (IsAbs p) (path_comps p).
Proof.
  apply foldl_step_normalised; [apply Split_no_char|]. by exists 0, [].
Qed.

Lemma foldl_step_proper r ns stk : Forall proper ns →
  foldl (clean_step r) stk ns = reverse ns ++ stk.
Proof.
  revert stk. induction ns as [|c ns IH]; intros stk Hns; simpl; [done|].
  apply Forall_cons in Hns as [(? & ? & ? & ?) Hns]. rewrite IH //.
  unfold clean_step. rewrite decide_False; [|naive_solver]. rewrite decide_False //.
  by rewrite reverse_cons -app_assoc.
Qed.

Lemma clean_stack_normalised r cs : normalised r cs → clean_stack r cs = reverse cs.
Proof.
  intros (n & ns & -> & Hns & Hn). unfold clean_stack. rewrite foldl_app reverse_app.
  rewrite foldl_step_proper //. f_equal. rewrite reverse_replicate.
  destruct r; [by rewrite Hn|]. clear Hn.
  assert (∀ k, foldl (clean_step false) (replicate k "..") (replicate n "..")
             = replicate (n + k) "..") as Hr; [|by rewrite (Hr 0) Nat.add_0_r].
  induction n as [|n IH]; intros k; [done|].
  rewrite Nat.add_succ_l -Nat.add_succ_r -(IH (S k)) /=. f_equal. by destruct k.
Qed.

Lemma IsAbs_spec p : IsAbs p = true ↔ ∃ r, p = String slash r.
Proof. apply HasPrefix_spec. Qed.

Lemma IsAbs_false p : (∀ r, p ≠ String slash r) → IsAbs p = false.
Proof. intros Hp. apply not_true_iff_false. rewrite IsAbs_spec. intros [r ->]. by eapply Hp. Qed.

Lemma Join_head c (cs : list string) :
  ∃ t, Join "/" (c :: cs) = c +:+ t.
Proof. destruct cs as [|y cs]; [exists ""; by rewrite sapp_nil_r|]. simpl. eauto. Qed.

Lemma normalised_head_not_slash c cs r : normalised r (c :: cs) → ∃ a s, c = String a s ∧ a ≠ slash.
Proof.
  intros Hn. assert (¬ in_string slash c) as Hs by (eapply normalised_no_slash; [done|by constructor]).
  destruct c as [|a s]; [|exists a, s; simpl in Hs; naive_solver].
  destruct Hn as (n & ns & Heq & Hns & _). exfalso.
  destruct n as [|n]; [|done]. simpl in Heq. subst ns.
  apply Forall_cons in Hns as [[] _]. done.
Qed.

Lemma IsAbs_show r cs : normalised r cs → IsAbs (show_path r cs) = r.
Proof.
  intros Hn. destruct r; [done|]. simpl. destruct cs as [|c cs]; [done|].
  destruct (normalised_head_not_slash c cs false Hn) as (a & s & -> & Ha).
  destruct (Join_head (String a s) cs) as [t ->]. rewrite sapp_cons.
  apply IsAbs_false. naive_solver.
Qed.

(** Printing a normalised path and splitting it again gives its elements. *)
Lemma path_comps_show r cs : normalised r cs → path_comps (show_path r cs) = cs.
Proof.
  intros Hn. unfold path_comps. rewrite IsAbs_show //.
  assert (∀ x, x ∈ cs → ¬ in_string slash x) as Hs by eauto using normalised_no_slash.
  apply (inj reverse). rewrite reverse_involutive -(clean_stack_normalised r) //.
  destruct (decide (cs = [])) as [->|Hne]; [by destruct r|].
  destruct r; simpl.
  - rewrite Split_Join //.
  - destruct cs as [|c cs]; [done|]. rewrite Split_Join //.
Qed.

Lemma path_comps_Clean p : path_comps (Clean p) = path_comps p.
Proof. apply path_comps_show, path_comps_normalised. Qed.

Lemma IsAbs_Clean p : IsAbs (Clean p) = IsAbs p.
Proof. apply IsAbs_show, path_comps_normalised. Qed.

Lemma Clean_idempotent p : Clean (Clean p) = Clean p.
Proof. unfold Clean at 1. by rewrite IsAbs_Clean path_comps_Clean. Qed.

Lemma Clean_eq p q : Clean p = Clean q ↔ IsAbs p = IsAbs q ∧ path_comps p = path_comps q.
Proof.
  split; [|by unfold Clean; intros [-> ->]].
  intros H. by rewrite -(IsAbs_Clean p) -(path_comps_Clean p) H IsAbs_Clean path_comps_Clean.
Qed.

(** ** Containment

    [inside base p]: the cleaned [p] is [base] or lies below it. *)
Definition inside (base p : string) : Prop :=
  IsAbs p = IsAbs base ∧ ∃ rest, path_comps p = path_comps base ++ rest.

Lemma Split_app_gen c s t : Split c (s +:+ String c t) = Split c s ++ Split c t.
Proof.
  induction s as [|a s IH].
  - rewrite sapp_nil_l /=. by rewrite decide_True.
  - rewrite sapp_cons /=. rewrite IH. case_decide; [done|].
    pose proof (Split_nonempty c s). by destruct (Split c s).
Qed.

(** Once [..] stands at the bottom of a relative path, it stays. *)
Lemma clean_step_keeps_dotdot stk c : ".." ∈ stk → ".." ∈ clean_step false stk c.
Proof.
  unfold clean_step. case_decide; [done|]. case_decide.
  - destruct stk as [|top rest]; [set_solver|]. case_decide; set_solver.
  - set_solver.
Qed.

(** A relative path that does not climb pushes its elements on any stack. *)
Lemma foldl_step_descend cs : ".." ∉ clean_stack false cs →
  ∀ r stk, foldl (clean_step r) stk cs = clean_stack false cs ++ stk.
Proof.
  induction cs as [|c cs IH] using rev_ind; intros Hn r stk; [done|].
  unfold clean_stack in *. rewrite foldl_snoc in Hn. rewrite !foldl_snoc.
  assert (".." ∉ foldl (clean_step false) [] cs) as Hn'.
  { intros ?. by apply Hn, clean_step_keeps_dotdot. }
  rewrite (IH Hn' r stk). set (st := foldl (clean_step false) [] cs) in *.
  unfold clean_step in *. case_decide; [done|]. case_decide; [|done].
  destruct st as [|top rest]; [set_solver|]. simpl. case_decide; [|done].
  set_solver.
Qed.

Lemma path_comps_descend base p : base ≠ "" → IsAbs p = false → ".." ∉ path_comps p →
  path_comps (base +:+ String slash p) = path_comps base ++ path_comps p ∧
  IsAbs (base +:+ String slash p) = IsAbs base.
Proof.
  intros Hb Hp Hn.
  assert (IsAbs (base +:+ String slash p) = IsAbs base) as HA.
  { destruct base as [|a b]; [done|]. rewrite sapp_cons. unfold IsAbs, HasPrefix. simpl.
    by case_decide. }
  split; [|done]. unfold path_comps in *. rewrite HA Split_app_gen.
  rewrite Hp in Hn |- *. unfold clean_stack at 1. rewrite foldl_app.
  rewrite foldl_step_descend; [by rewrite reverse_app|].
  intros H. apply Hn. by apply elem_of_reverse.
Qed.

Lemma proper_comps c : proper c → path_comps c = [c] ∧ IsAbs c = false.
Proof.
  intros (H1 & H2 & H3 & H4). assert (IsAbs c = false) as HA.
  { apply IsAbs_false. intros r ->. apply H4. by left. }
  split; [|done]. unfold path_comps. rewrite Split_single // /clean_stack /=.
  unfold clean_step. rewrite decide_False; [|naive_solver]. by rewrite decide_False.
Qed.

Lemma inside_PathJoin base p : base ≠ "" → IsAbs p = false → ".." ∉ path_comps p →
  inside base (PathJoin base p).
Proof.
  intros Hb Hp Hn. unfold PathJoin. rewrite decide_False //.
  case_decide; unfold inside; rewrite IsAbs_Clean path_comps_Clean.
  - split; [done|]. exists []. by rewrite app_nil_r.
  - destruct (path_comps_descend base p) as [-> ->]; [done..|]. eauto.
Qed.

(** Every element of a printed path is a substring of it. *)
Lemma Join_elem x cs : x ∈ cs → ∃ l r, Join "/" cs = l +:+ x +:+ r.
Proof.
  induction cs as [|c cs IH]; [by intros ?%elem_of_nil|].
  intros [->|Hx]%elem_of_cons.
  - destruct (Join_head c cs) as [t ->]. by exists "", t.
  - destruct (IH Hx) as (l & r & Heq). rewrite Join_cons; [|by intros ->; apply elem_of_nil in Hx].
    rewrite Heq. exists (c +:+ "/" +:+ l), r. by rewrite !sapp_assoc.
Qed.

Lemma no_dotdot_comps p : Contains (Clean p) ".." = false → ".." ∉ path_comps p.
Proof.
  intros Hc Hin. apply not_true_iff_false in Hc. apply Hc, Contains_spec.
  destruct (Join_elem ".." (path_comps p) Hin) as (l & r & Heq).
  unfold Clean, show_path. destruct (IsAbs p).
  - exists ("/" +:+ l), r. rewrite Heq !sapp_assoc //.
  - destruct (path_comps p); [by apply elem_of_nil in Hin|]. eauto.
Qed.

(** In a relative path, [..] can only come first. *)
Lemma leading_dotdot p : IsAbs p = false → ".." ∈ path_comps p → HasPrefix (Clean p) ".." = true.
Proof.
  intros Hp Hin. destruct (path_comps_normalised p) as (n & ns & Heq & Hns & _).
  unfold Clean, show_path. rewrite Hp Heq. rewrite Heq in Hin.
  apply elem_of_app in Hin as [Hin|Hin].
  - destruct n as [|n]; [by apply elem_of_nil in Hin|]. rewrite replicate_S.
    destruct (Join_head ".." (replicate n ".." ++ ns)) as [t Ht].
    simpl in *. rewrite Ht. apply HasPrefix_app.
  - rewrite Forall_forall in Hns. by destruct (Hns _ Hin) as (_ & _ & ? & _).
Qed.

(** ** String prefixes of cleaned paths

    The tests [Clean(h) == Clean(a)] and [HasPrefix(Clean(h), Clean(a) + "/")]
    in terms of path elements. *)
Lemma normalised_names r cs x : normalised r cs → x ∈ cs → x ≠ "" ∧ x ≠ ".".
Proof.
  intros (n & ns & -> & Hns & _) [Hx|Hx]%elem_of_app.
  - by apply elem_of_replicate in Hx as [-> _].
  - rewrite Forall_forall in Hns. by destruct (Hns _ Hx) as (? & ? & _).
Qed.

Lemma Split_Clean p : path_comps p ≠ [] →
  Split slash (Clean p) = (if IsAbs p then [""] else []) ++ path_comps p.
Proof.
  intros Hne. pose proof (path_comps_normalised p) as Hn.
  assert (∀ x, x ∈ path_comps p → ¬ in_string slash x) as Hs by eauto using normalised_no_slash.
  unfold Clean, show_path. destruct (IsAbs p).
  - change ("/" +:+ Join "/" (path_comps p)) with ("" +:+ String slash (Join "/" (path_comps p))).
    rewrite Split_app; [|by intros []]. by rewrite Split_Join.
  - destruct (path_comps p) as [|c cs]; [done|]. by rewrite Split_Join.
Qed.

Lemma Clean_nil p : path_comps p = [] → Clean p = if IsAbs p then "/" else ".".
Proof. intros Hp. unfold Clean, show_path. rewrite Hp. by destruct (IsAbs p). Qed.

Lemma Join_app l k : l ≠ [] → k ≠ [] → Join "/" (l ++ k) = Join "/" l +:+ String slash (Join "/" k).
Proof.
  intros Hl Hk. induction l as [|x l IH]; [done|]. destruct l as [|y l].
  - simpl. destruct k; [done|]. done.
  - change ((x :: y :: l) ++ k) with (x :: ((y :: l) ++ k)).
    rewrite Join_cons; [|by destruct k]. rewrite IH // (Join_cons _ x (y :: l)) // !sapp_assoc //.
Qed.

Lemma Clean_nonempty p : Clean p ≠ "".
Proof.
  pose proof (path_comps_normalised p) as Hn. unfold Clean, show_path. destruct (IsAbs p); [done|].
  destruct (path_comps p) as [|c cs] eqn:Hc; [done|].
  destruct (Join_head c cs) as [t ->].
  destruct (normalised_names _ _ c Hn) as [? _]; [by constructor|]. by destruct c.
Qed.

Lemma Clean_prefix_spec a h : HasPrefix (Clean h) (Clean a +:+ "/") = true ↔
  path_comps a ≠ [] ∧ IsAbs h = IsAbs a ∧ ∃ rest, rest ≠ [] ∧ path_comps h = path_comps a ++ rest.
Proof.
  split.
  - intros [r Hr]%HasPrefix_spec. rewrite sapp_assoc sapp_cons sapp_nil_l in Hr.
    pose proof (path_comps_normalised h) as Hh. pose proof (path_comps_normalised a) as Ha.
    assert (path_comps h ≠ []) as Hne.
    { intros E. rewrite (Clean_nil h E) in Hr. pose proof (Clean_nonempty a).
      destruct (Clean a) as [|c s]; [done|]. rewrite sapp_cons in Hr.
      destruct (IsAbs h); simplify_eq; destruct s; done. }
    pose proof (Split_Clean h Hne) as Hsp. rewrite Hr Split_app_gen in Hsp.
    destruct (decide (path_comps a = [])) as [E|E].
    + exfalso. rewrite (Clean_nil a E) in Hsp.
      destruct (path_comps h) as [|c cs]; [done|].
      destruct (normalised_names _ _ c Hh) as [? ?]; [by constructor|].
      destruct (IsAbs a), (IsAbs h); simpl in Hsp; congruence.
    + split; [done|]. rewrite (Split_Clean a E) in Hsp.
      destruct (path_comps a) as [|d ds] eqn:Ed; [done|].
      destruct (path_comps h) as [|c cs] eqn:Ec; [done|].
      destruct (normalised_names _ _ c Hh) as [? ?]; [by constructor|].
      destruct (normalised_names _ _ d Ha) as [? ?]; [by constructor|].
      pose proof (Split_nonempty slash r).
      destruct (IsAbs a), (IsAbs h); simpl in Hsp; try congruence;
        (split; [done|]); exists (Split slash r); split; simpl; congruence.
  - intros (Ha & HA & rest & Hne & Hh). apply HasPrefix_spec. exists (Join "/" rest).
    unfold Clean, show_path. rewrite HA Hh. rewrite sapp_assoc.
    destruct (IsAbs a).
    + rewrite Join_app // !sapp_assoc //.
    + destruct (path_comps a) as [|c cs] eqn:Ec; [done|].
      rewrite -(Join_app (c :: cs)) //.
Qed.

Lemma Clean_prefix_inside a h :
  Clean h = Clean a ∨ HasPrefix (Clean h) (Clean a +:+ "/") = true ↔
  inside a h ∧ (path_comps a ≠ [] ∨ path_comps h = []).
Proof.
  rewrite Clean_prefix_spec Clean_eq. unfold inside. split.
  - intros [[HA Hc]|(Hne & HA & rest & _ & Hc)]; [|eauto 6].
    split; [split; [done|]; exists []; by rewrite app_nil_r|].
    destruct (path_comps a); [by right|by left].
  - intros [[HA [rest Hc]] Hne]. destruct (decide (rest = [])) as [->|Hr].
    + left. by rewrite app_nil_r in Hc.
    + right. destruct Hne as [Hne|Hne]; [eauto 6|].
      rewrite Hne in Hc. symmetry in Hc. apply app_eq_nil in Hc as [_ ?]. done.
Qed.

(** ** [Match] on patterns without metacharacters *)
Definition plain_char (a : ascii) : Prop :=
  a ≠ "*"%char ∧ a ≠ "?"%char ∧ a ≠ "["%char ∧ a ≠ "\"%char.

Fixpoint plain (p : string) : Prop :=
  match p with EmptyString => True | String a p => plain_char a ∧ plain p end.

Lemma scan_body_plain pre t : plain pre →
  scan_body false (pre +:+ t) = (pre +:+ (scan_body false t).1, (scan_body false t).2).
Proof.
  intros Hp. induction pre as [|a pre IH].
  - rewrite !sapp_nil_l. by destruct (scan_body false t).
  - destruct Hp as [(H1 & H2 & H3 & H4) Hp]. rewrite !sapp_cons /=.
    rewrite decide_False // decide_False; [|naive_solver]. rewrite decide_False //.
    replace (if decide (a = "]"%char) then false else false) with false by (by case_decide).
    by rewrite (IH Hp).
Qed.

Lemma scan_stars_plain pre t : pre ≠ "" → plain pre →
  scan_stars (pre +:+ t) = (false, pre +:+ t).
Proof.
  destruct pre as [|a pre]; [done|]. intros _ [(H1 & _) _]. rewrite sapp_cons /=.
  by rewrite decide_False.
Qed.

Lemma match_chunk_failed fuel pre : plain pre → String.length pre ≤ fuel →
  match_chunk_fuel fuel pre None = MFail.
Proof.
  revert fuel. induction pre as [|a pre IH]; intros [|fuel] Hp Hl; simpl in *; try done; [lia|].
  destruct Hp as [(H1 & H2 & H3 & H4) Hp].
  rewrite decide_False // decide_False // decide_False //. apply IH; [done|lia].
Qed.

Lemma match_chunk_plain pre s : plain pre →
  match_chunk pre s = match strip_prefix pre s with Some r => MOk r | None => MFail end.
Proof.
  unfold match_chunk. remember (String.length pre) as fuel eqn:Hf.
  assert (String.length pre ≤ fuel) as Hl by lia. clear Hf.
  revert fuel s Hl. induction pre as [|a pre IH]; intros [|fuel] s Hl Hp; simpl in *; try done; [lia|].
  destruct Hp as [(H1 & H2 & H3 & H4) Hp].
  rewrite decide_False // decide_False // decide_False //.
  destruct s as [|b s]; [apply match_chunk_failed; [done|lia]|].
  case_decide; [apply IH; [lia|done]|]. apply match_chunk_failed; [done|lia].
Qed.

Lemma Match_plain pre name : plain pre →
  Match pre name = Some (bool_decide (name = pre)).
Proof.
  intros Hp. unfold Match. simpl. case_decide as Hne; [by subst|].
  rewrite /scan_chunk -{1}(sapp_nil_r pre) scan_stars_plain // scan_body_plain //= sapp_nil_r.
  rewrite match_chunk_plain //.
  destruct (strip_prefix pre name) as [r|] eqn:Hs.
  - apply strip_prefix_Some in Hs as ->. destruct (decide (r = "")) as [->|Hr].
    + destruct pre; [done|]. simpl. rewrite sapp_nil_r.
      by rewrite !bool_decide_eq_true_2.
    + rewrite decide_False; [|intros [?|?]; done]. rewrite bool_decide_eq_false_2 //.
      intros E. apply Hr, (sapp_inv_head pre). by rewrite sapp_nil_r.
  - rewrite bool_decide_eq_false_2 //. intros ->.
    by rewrite (proj2 (strip_prefix_Some pre pre "")) in Hs; [|rewrite sapp_nil_r].
Qed.

(** A literal prefix and one trailing star: the star stands for any characters
    but a separator. *)
Lemma Match_plain_star pre name : plain pre →
  Match (pre +:+ "*") name = Some true ↔ ∃ x, name = pre +:+ x ∧ ¬ in_string slash x.
Proof.
  intros Hp. unfold Match. destruct (decide (pre = "")) as [->|Hne].
  { simpl. split.
    - intros H. exists name. split; [done|]. apply Contains_char_false.
      apply negb_true_iff. by injection H.
    - intros (x & -> & H). rewrite sapp_nil_l. apply Contains_char_false in H.
      by rewrite (H : Contains x "/" = false). }
  assert (pre +:+ "*" ≠ "") as Hpne by (by destruct pre).
  cbn [match_fuel]. rewrite decide_False //.
  rewrite /scan_chunk scan_stars_plain // scan_body_plain //= sapp_nil_r.
  rewrite match_chunk_plain //.
  destruct (strip_prefix pre name) as [r|] eqn:Hs.
  - apply strip_prefix_Some in Hs as ->. rewrite decide_True; [|by right].
    destruct (String.length (pre +:+ "*")) eqn:Hl; [by destruct pre|]. cbn.
    split.
    + intros H. exists r. split; [done|]. apply Contains_char_false.
      apply negb_true_iff. by injection H.
    + intros (x & Hx & Hn). apply sapp_inv_head in Hx as ->.
      apply Contains_char_false in Hn. by rewrite (Hn : Contains x "/" = false).
  - split; [done|]. intros (x & -> & _).
    by rewrite (proj2 (strip_prefix_Some pre (pre +:+ x) x)) in Hs.
Qed.

(** ** Elements of joined paths *)

(** [filepath.Base] is one element, or the root. *)
Lemma Base_single s : Base s = "/" ∨ ¬ in_string slash (Base s).
Proof.
  unfold Base. case_decide; [right; by apply (bool_decide_unpack _)|]. cbv zeta.
  destruct (rcut slash (trim_right ["/"] s)) as [[l b]|] eqn:Hr.
  - apply rcut_Some in Hr as [_ Hb]. case_decide; [by left|by right].
  - apply rcut_None in Hr. case_decide; [by left|by right].
Qed.

Lemma path_comps_push p x : p ≠ "" → IsAbs (p +:+ String slash x) = IsAbs p
  ∧ path_comps (p +:+ String slash x) = reverse (foldl (clean_step (IsAbs p)) (reverse (path_comps p)) (Split slash x)).
Proof.
  intros Hp. assert (IsAbs (p +:+ String slash x) = IsAbs p) as HA.
  { destruct p as [|a b]; [done|]. rewrite sapp_cons. unfold IsAbs, HasPrefix. simpl. by case_decide. }
  split; [done|]. unfold path_comps. rewrite HA Split_app_gen. unfold clean_stack. by rewrite foldl_app reverse_involutive.
Qed.

Lemma PathJoin_comps p x : p ≠ "" → x ≠ "" → IsAbs (PathJoin p x) = IsAbs p
  ∧ path_comps (PathJoin p x) = reverse (foldl (clean_step (IsAbs p)) (reverse (path_comps p)) (Split slash x)).
Proof.
  intros Hp Hx. unfold PathJoin. rewrite decide_False // decide_False //. rewrite IsAbs_Clean path_comps_Clean.
  by apply path_comps_push.
Qed.

Lemma PathJoin_ne p x : p ≠ "" → PathJoin p x ≠ "".
Proof. intros Hp. unfold PathJoin. rewrite decide_False //. case_decide; apply Clean_nonempty. Qed.
