(* ===== verification/GoFmt.v ===== *)
(** * Go formatting

    What the modelled code uses of [fmt], [strconv] and the replacement
    functions of [strings]: [%q] ([strconv.Quote]), [strings.ReplaceAll],
    [strings.ToUpper] and [strconv.FormatFloat(x, 'f', 0, 64)]. *)
From S2P Require Import Prelude GoStrings GoPath.

(** ** [strconv.Quote]

    Which runes above U+007F are printable is read from Unicode tables that
    Go generates; they are a parameter. *)
Class UnicodeTables := IsPrintWide : N → bool.

Definition IsPrint `{UnicodeTables} (r : N) : bool :=
  if (r <? 128)%N then in_range 32 126 r else IsPrintWide r.

Definition hexdigit (n : N) : ascii :=
  ascii_of_N (if (n <? 10)%N then 48 + n else 87 + n)%N.

(** The last [k] hexadecimal digits of [n]. *)
Fixpoint hex_digits (k : nat) (n : N) : string :=
  match k with
  | 0 => ""
  | S k => hex_digits k (n / 16)%N +:+ String (hexdigit (n mod 16)%N) ""
  end.

Fixpoint stake (n : nat) (s : string) : string :=
  match n, s with S n, String a s => String a (stake n s) | _, _ => "" end.

(** [appendEscapedRune] for the quote character, the rune being written [raw]. *)
Definition escape_rune `{UnicodeTables} (r : N) (raw : string) : string :=
  if (r =? 34)%N || (r =? 92)%N then "\" +:+ raw
  else if IsPrint r then raw
  else if (r =? 7)%N then "\a" else if (r =? 8)%N then "\b"
  else if (r =? 12)%N then "\f" else if (r =? 10)%N then "\n"
  else if (r =? 13)%N then "\r" else if (r =? 9)%N then "\t"
  else if (r =? 11)%N then "\v"
  else if (r <? 32)%N || (r =? 127)%N then "\x" +:+ hex_digits 2 r
  else if (r <? 65536)%N then "\u" +:+ hex_digits 4 r
  else "\U" +:+ hex_digits 8 r.

(** Every rune is at least one byte wide, so the length is enough fuel. *)
Fixpoint quote_fuel `{UnicodeTables} (fuel : nat) (s : string) : string :=
  match fuel, s with
  | S fuel, String a _ =>
      let '(r, n) := decode_rune s in
      (if decide (r = 65533%N ∧ n = 1) then "\x" +:+ hex_digits 2 (N_of_ascii a)
       else escape_rune r (stake n s)) +:+ quote_fuel fuel (sdrop n s)
  | _, _ => ""
  end.

Definition Quote `{UnicodeTables} (s : string) : string :=
  String dquote (quote_fuel (String.length s) s +:+ String dquote "").

(** ** [strings.ReplaceAll] of a non-empty string, from left to right.

    [skip] bytes belong to the occurrence that was just replaced. *)
Fixpoint replace_from (old new : string) (skip : nat) (s : string) : string :=
  match s with
  | EmptyString => EmptyString
  | String a s' =>
      match skip with
      | S k => replace_from old new k s'
      | 0 => if HasPrefix s old then new +:+ replace_from old new (pred (String.length old)) s'
             else String a (replace_from old new 0 s')
      end
  end.

Definition ReplaceAll (s old new : string) : string := replace_from old new 0 s.

(** ** [strings.ToUpper]

    ASCII letters and the two other runes whose upper case is ASCII (U+0131 and
    U+017F); the remaining ones are left alone, as in [ToLower]. *)
Definition upper_ascii (a : ascii) : ascii :=
  let n := nat_of_ascii a in
  if (97 <=? n) && (n <=? 122) then ascii_of_nat (n - 32) else a.

Fixpoint upper_fuel (n : nat) (s : string) : string :=
  match n, s with
  | S n, String a s' =>
      match strip_prefix (ch 196 +:+ ch 177) s, strip_prefix (ch 197 +:+ ch 191) s with
      | Some r, _ => String "I" (upper_fuel n r)
      | _, Some r => String "S" (upper_fuel n r)
      | None, None => String (upper_ascii a) (upper_fuel n s')
      end
  | _, _ => EmptyString
  end.

Definition ToUpper (s : string) : string := upper_fuel (String.length s) s.

(** ** Decimal numbers

    [strconv.FormatFloat(x, 'f', 0, 64)] of the number that [fmt.Sprint] prints
    as [t] (an optional sign, digits, an optional fraction and an optional
    exponent), for magnitudes below 2^53: rounded half to even. *)
Definition digit_of (a : ascii) : N := (N_of_ascii a - 48)%N.

Fixpoint digits_acc (acc : N) (s : string) : N :=
  match s with EmptyString => acc | String a s => digits_acc (acc * 10 + digit_of a)%N s end.

(** The mantissa as an integer and the power of ten it is multiplied by. *)
Definition decimal (t : string) : N * Z :=
  let '(m, e) := match cut "e"%char t with Some (m, e) => (m, e) | None => (t, "") end in
  let exp := match e with
             | String "-" e => (- Z.of_N (digits_acc 0 e))%Z
             | String "+" e => Z.of_N (digits_acc 0 e)
             | e => Z.of_N (digits_acc 0 e)
             end in
  match cut "."%char m with
  | Some (i, f) => (digits_acc 0 (i +:+ f), (exp - Z.of_nat (String.length f))%Z)
  | None => (digits_acc 0 m, exp)
  end.

Definition round_half_even (m : N) (e : Z) : N :=
  if decide (0 ≤ e)%Z then (m * 10 ^ Z.to_N e)%N
  else
    let d := (10 ^ Z.to_N (- e))%N in
    let q := (m / d)%N in
    let r := (m mod d)%N in
    if (d <? 2 * r)%N || ((d =? 2 * r)%N && N.odd q) then (q + 1)%N else q.

Definition FormatFloat0 (t : string) : string :=
  let '(sign, body) := match t with String "-" b => ("-", b) | _ => ("", t) end in
  let '(m, e) := decimal body in
  sign +:+ pretty (round_half_even m e).

(** ** Parsing numbers *)

(** [strconv.Atoi] on a 64-bit platform. *)
Definition is_digit (a : ascii) : bool := let n := nat_of_ascii a in (48 <=? n) && (n <=? 57).

Fixpoint all_digits (s : string) : bool :=
  match s with EmptyString => true | String a s => is_digit a && all_digits s end.

Definition Atoi (s : string) : option Z :=
  let '(neg, body) := match s with
                      | String "-" b => (true, b)
                      | String "+" b => (false, b)
                      | _ => (false, s)
                      end in
  if bool_decide (body = "") || negb (all_digits body) then None
  else
    let n := Z.of_N (digits_acc 0 body) in
    let n := if neg then (- n)%Z else n in
    if decide (- 2 ^ 63 ≤ n < 2 ^ 63)%Z then Some n else None.

(** ** Lemmas on replacement *)

Lemma replace_from_skip old new k s t : String.length s = k →
  replace_from old new k (s +:+ t) = replace_from old new 0 t.
Proof.
  revert s. induction k as [|k IH]; intros [|a s] Hl; try done. rewrite sapp_cons. simpl. apply IH. by injection Hl.
Qed.

Lemma ReplaceAll_match old new r : old ≠ "" → ReplaceAll (old +:+ r) old new = new +:+ ReplaceAll r old new.
Proof.
  intros Hne. destruct old as [|a old]; [done|]. unfold ReplaceAll. rewrite sapp_cons.
  cbn [replace_from]. rewrite -sapp_cons HasPrefix_app. f_equal.
  by rewrite (replace_from_skip (String a old) new _ old r).
Qed.

Lemma ReplaceAll_other a s old new : HasPrefix (String a s) old = false →
  ReplaceAll (String a s) old new = String a (ReplaceAll s old new).
Proof. unfold ReplaceAll. cbn [replace_from]. by intros ->. Qed.

(** Induction along the occurrences that are replaced. *)
Lemma replace_ind old (Hne : old ≠ "") (P : string → Prop) : P "" →
  (∀ r, P r → P (old +:+ r)) →
  (∀ a s, HasPrefix (String a s) old = false → P s → P (String a s)) → ∀ s, P s.
Proof.
  intros H0 Hm Ho s. remember (String.length s) as n eqn:Hn. revert s Hn.
  induction (lt_wf n) as [n _ IH]; intros s ->. destruct s as [|a s]; [done|].
  destruct (HasPrefix (String a s) old) eqn:Hp.
  - apply HasPrefix_spec in Hp as [r Hr]. rewrite Hr. apply Hm. apply (IH (String.length r)); [|done].
    rewrite Hr slength_app. destruct old; [done|]. simpl. lia.
  - apply Ho; [done|]. apply (IH (String.length s)); simpl; [lia|done].
Qed.

Lemma HasPrefix_cons a s b p : HasPrefix (String a s) (String b p) = bool_decide (b = a) && HasPrefix s p.
Proof. unfold HasPrefix. cbn [strip_prefix]. case_decide; [by rewrite bool_decide_eq_true_2|by rewrite bool_decide_eq_false_2]. Qed.

(** A text without the first character of the replacement that is at the start of the
    result was there before. *)
Lemma replaced_prefix old c rest s u : old ≠ "" → ¬ in_string c u →
  HasPrefix (ReplaceAll s old (String c rest)) u = true → HasPrefix s u = true.
Proof.
  intros Hne. revert u. induction s as [|r IH|a s Hp IH] using (replace_ind old Hne); [done|..]; intros u Hu.
  - rewrite ReplaceAll_match // sapp_cons. destruct u as [|b u]; [done|].
    rewrite HasPrefix_cons. intros [Hb%bool_decide_eq_true _]%andb_true_iff. subst b. exfalso. apply Hu. by left.
  - rewrite ReplaceAll_other //. destruct u as [|b u]; [done|]. rewrite !HasPrefix_cons.
    intros [-> Ht]%andb_true_iff. apply IH; [|done]. intros Hin. apply Hu. by right.
Qed.
