(* ===== verification/GoValue.v ===== *)
(** * Decoded JSON and YAML documents

    [map[string]interface{}] trees as the compose code walks them.  A Go map
    has no order: it is a [gmap].  A number is kept as the text [fmt.Sprint]
    prints for it. *)
From S2P Require Import Prelude GoStrings.

Inductive value :=
| VNull
| VBool (b : bool)
| VNum (text : string)
| VStr (s : string)
| VList (l : list value)
| VMap (m : gmap string value).

(** ** Type assertions [x, ok := v.(T)] *)
Definition as_map (v : value) : option (gmap string value) :=
  match v with VMap m => Some m | _ => None end.
Definition as_list (v : value) : option (list value) :=
  match v with VList l => Some l | _ => None end.
Definition as_str (v : value) : option string :=
  match v with VStr s => Some s | _ => None end.
Definition as_bool (v : value) : option bool :=
  match v with VBool b => Some b | _ => None end.

(** Field access and assertion together: [m[k].(T)]. *)
Definition get_map (k : string) (m : gmap string value) := m !! k ≫= as_map.
Definition get_list (k : string) (m : gmap string value) := m !! k ≫= as_list.
Definition get_str (k : string) (m : gmap string value) := m !! k ≫= as_str.
Definition get_bool (k : string) (m : gmap string value) := m !! k ≫= as_bool.

(** [fmt.Sprint]: the entries of a map are printed in the order of its keys. *)
Definition sprint_entries (entries : list (string * string)) : string :=
  Join " " ((λ kv, kv.1 +:+ ":" +:+ kv.2) <$> merge_sort (λ a b, strings.String.le a.1 b.1) entries).

Fixpoint Sprint (v : value) : string :=
  match v with
  | VNull => "<nil>"
  | VBool b => if b then "true" else "false"
  | VNum t => t
  | VStr s => s
  | VList l => "[" +:+ Join " " (map Sprint l) +:+ "]"
  | VMap m => "map[" +:+ sprint_entries (map_fold (λ k x acc, (k, Sprint x) :: acc) [] m) +:+ "]"
  end.

(** Non-empty strings of a list of values. *)
Definition nonempty_strings (l : list value) : list string :=
  filter (λ s, s ≠ "") (omap as_str l).

Lemma elem_of_nonempty_strings s l : s ∈ nonempty_strings l ↔ s ≠ "" ∧ VStr s ∈ l.
Proof.
  unfold nonempty_strings. rewrite list_elem_of_filter list_elem_of_omap. split.
  - intros (Hs & v & Hv & Heq). split; [done|]. by destruct v; simplify_eq/=.
  - intros [Hs Hv]. split; [done|]. by exists (VStr s).
Qed.

Lemma get_map_Some k m m' : get_map k m = Some m' ↔ m !! k = Some (VMap m').
Proof. unfold get_map. destruct (m !! k) as [[]|]; naive_solver. Qed.

Lemma get_str_Some k m s : get_str k m = Some s ↔ m !! k = Some (VStr s).
Proof. unfold get_str. destruct (m !! k) as [[]|]; naive_solver. Qed.

Lemma get_list_Some k m l : get_list k m = Some l ↔ m !! k = Some (VList l).
Proof. unfold get_list. destruct (m !! k) as [[]|]; naive_solver. Qed.

(** ** Induction on documents *)
Fixpoint depth (v : value) : nat :=
  match v with
  | VList l => S (foldr (λ x n, depth x `max` n) 0 l)
  | VMap m => S (map_fold (λ _ x n, depth x `max` n) 0 m)
  | _ => 0
  end.

Lemma depth_list x l : x ∈ l → depth x < depth (VList l).
Proof.
  intros Hx. cbn [depth]. apply Nat.lt_succ_r. induction Hx as [x l|x y l Hx IH]; cbn [foldr]; lia.
Qed.

Lemma depth_map k x m : m !! k = Some x → depth x < depth (VMap m).
Proof.
  intros Hx. cbn [depth]. apply Nat.lt_succ_r. revert k x Hx.
  apply (map_fold_weak_ind (λ n m, ∀ k x, m !! k = Some x → depth x ≤ n)); [done|].
  intros k x m' n Hk IH k' x'. rewrite lookup_insert_Some. intros [[<- <-]|[_ Hx']]; [lia|].
  specialize (IH _ _ Hx'). lia.
Qed.

Lemma value_nested_ind (P : value → Prop) :
  P VNull → (∀ b, P (VBool b)) → (∀ t, P (VNum t)) → (∀ s, P (VStr s)) →
  (∀ l, (∀ x, x ∈ l → P x) → P (VList l)) →
  (∀ m, (∀ k x, m !! k = Some x → P x) → P (VMap m)) → ∀ v, P v.
Proof.
  intros Hn Hb Ht Hs Hl Hm v. induction v as [v IH] using (induction_ltof1 _ depth). unfold ltof in IH.
  destruct v; auto.
  - apply Hl. intros x Hx. by apply IH, depth_list.
  - apply Hm. intros k x Hx. by eapply IH, depth_map.
Qed.

(** A string that occurs as a value anywhere in a document. *)
Inductive occurs (s : string) : value → Prop :=
| occurs_here : occurs s (VStr s)
| occurs_list l x : x ∈ l → occurs s x → occurs s (VList l)
| occurs_map m k x : m !! k = Some x → occurs s x → occurs s (VMap m).

Lemma elem_of_map_fold_union (f : value → gset string) (m : gmap string value) y :
  y ∈ map_fold (λ _ x acc, f x ∪ acc) ∅ m ↔ ∃ k x, m !! k = Some x ∧ y ∈ f x.
Proof.
  apply (map_fold_weak_ind (λ r m, y ∈ r ↔ ∃ k x, m !! k = Some x ∧ y ∈ f x)); [set_solver|].
  intros k x m' r Hk IH. rewrite elem_of_union IH. split.
  - intros [Hy|(k' & x' & Hk' & Hy)]; [exists k, x; by rewrite lookup_insert_eq|].
    exists k', x'. rewrite lookup_insert_ne; [done|]. congruence.
  - intros (k' & x' & [[<- <-]|[_ Hk']]%lookup_insert_Some & Hy); [by left|right; eauto].
Qed.

Lemma elem_of_foldr_union {A} (f : A → gset string) (l : list A) y :
  y ∈ foldr (λ x acc, f x ∪ acc) ∅ l ↔ ∃ x, x ∈ l ∧ y ∈ f x.
Proof. induction l as [|x l IH]; cbn [foldr]; [set_solver|]. rewrite elem_of_union IH. set_solver. Qed.
