(* ===== verification/GoBase64.v ===== *)
(** * encoding/base64: StdEncoding

    The padded alphabet A-Z a-z 0-9 + /; decoding skips line breaks and ignores
    the unused low bits of the last digit, as the package does unless it is made
    strict. *)
From Stdlib Require Import ZArith.
From S2P Require Import Prelude GoStrings.

Definition alphabet : string := "ABCDEFGHIJKLMNOPQRSTUVWXYZabcdefghijklmnopqrstuvwxyz0123456789+/".

Definition pad : ascii := "="%char.

Definition c64 (n : Z) : ascii := default pad (String.get (Z.to_nat n) alphabet).

Fixpoint index_of (a : ascii) (n : Z) (s : string) : option Z :=
  match s with
  | "" => None
  | String b s => if decide (a = b) then Some n else index_of a (n + 1) s
  end.

Definition d64 (a : ascii) : option Z := index_of a 0 alphabet.

Definition byte_Z (a : ascii) : Z := Z.of_N (N_of_ascii a).
Definition Z_byte (n : Z) : ascii := ascii_of_N (Z.to_N n).

Fixpoint EncodeToString (s : string) : string :=
  match s with
  | "" => ""
  | String a "" =>
      let n := (byte_Z a * 16)%Z in
      String (c64 (n / 64)) (String (c64 (n mod 64)) (String pad (String pad "")))
  | String a (String b "") =>
      let n := ((byte_Z a * 256 + byte_Z b) * 4)%Z in
      String (c64 (n / 4096)) (String (c64 (n / 64 mod 64)) (String (c64 (n mod 64)) (String pad "")))
  | String a (String b (String c r)) =>
      let n := ((byte_Z a * 256 + byte_Z b) * 256 + byte_Z c)%Z in
      String (c64 (n / 262144)) (String (c64 (n / 4096 mod 64))
        (String (c64 (n / 64 mod 64)) (String (c64 (n mod 64)) (EncodeToString r))))
  end.

Fixpoint drop_newlines (s : string) : string :=
  match s with
  | "" => ""
  | String a r => if decide (a = ascii_of_nat 10 ∨ a = ascii_of_nat 13) then drop_newlines r
                  else String a (drop_newlines r)
  end.

Fixpoint decode_quads (s : string) : option string :=
  match s with
  | "" => Some ""
  | String p (String q (String r (String t rest))) =>
      x ← d64 p; y ← d64 q;
      if decide (t = pad) then
        if decide (rest = "") then
          if decide (r = pad) then Some (String (Z_byte ((x * 64 + y) / 16)) "")
          else z ← d64 r;
               let n := (((x * 64 + y) * 64 + z) / 4)%Z in
               Some (String (Z_byte (n / 256)) (String (Z_byte (n mod 256)) ""))
        else None
      else
        z ← d64 r; w ← d64 t; more ← decode_quads rest;
        let n := (((x * 64 + y) * 64 + z) * 64 + w)%Z in
        Some (String (Z_byte (n / 65536)) (String (Z_byte (n / 256 mod 256))
                (String (Z_byte (n mod 256)) more)))
  | _ => None
  end.

Definition DecodeString (s : string) : option string := decode_quads (drop_newlines s).

Definition sextets : list Z := Z.of_nat <$> seq 0 64.

Lemma c64_facts n : (0 ≤ n < 64)%Z →
  d64 (c64 n) = Some n ∧ c64 n ≠ pad ∧ c64 n ≠ ascii_of_nat 10 ∧ c64 n ≠ ascii_of_nat 13.
Proof.
  intros Hn.
  assert (Forall (λ n, d64 (c64 n) = Some n ∧ c64 n ≠ pad ∧ c64 n ≠ ascii_of_nat 10
                       ∧ c64 n ≠ ascii_of_nat 13) sextets) as H.
  { unfold sextets. repeat (constructor; [split; [reflexivity|]; repeat split; intros [=]|]). constructor. }
  rewrite Forall_forall in H. apply H. unfold sextets. apply list_elem_of_fmap.
  exists (Z.to_nat n). split; [lia|]. apply elem_of_seq. lia.
Qed.

Lemma d64_c64 n : (0 ≤ n < 64)%Z → d64 (c64 n) = Some n.
Proof. intros ?%c64_facts. tauto. Qed.

Lemma c64_not_pad n : (0 ≤ n < 64)%Z → c64 n ≠ pad.
Proof. intros ?%c64_facts. tauto. Qed.

Lemma byte_Z_range a : (0 ≤ byte_Z a < 256)%Z.
Proof. unfold byte_Z. pose proof (N_ascii_bounded a). lia. Qed.

Lemma Z_byte_Z a n : n = byte_Z a → Z_byte n = a.
Proof. intros ->. unfold Z_byte, byte_Z. by rewrite N2Z.id ascii_N_embedding. Qed.

Lemma drop_newlines_c64 n s : (0 ≤ n < 64)%Z →
  drop_newlines (String (c64 n) s) = String (c64 n) (drop_newlines s).
Proof. intros (_ & _ & ? & ?)%c64_facts. simpl. rewrite decide_False //. tauto. Qed.

(** Induction three bytes at a time. *)
Lemma triple_ind (P : string → Prop) : P "" → (∀ a, P (String a "")) →
  (∀ a b, P (String a (String b ""))) → (∀ a b c r, P r → P (String a (String b (String c r)))) →
  ∀ s, P s.
Proof.
  intros H0 H1 H2 H3. fix IH 1. intros [|a [|b [|c r]]]; [done|done|done|]. apply H3, IH.
Qed.

Ltac sextet := Z.to_euclidean_division_equations; lia.

Lemma base64_roundtrip s : DecodeString (EncodeToString s) = Some s.
Proof.
  unfold DecodeString. induction s as [|a|a b|a b c r IH] using triple_ind; [done|..];
    pose proof (byte_Z_range a); try pose proof (byte_Z_range b); try pose proof (byte_Z_range c);
    cbn [EncodeToString]; cbv zeta.
  - rewrite !drop_newlines_c64; [|sextet..]. simpl. rewrite !d64_c64; [|sextet..]. simpl.
    do 2 f_equal. apply Z_byte_Z. sextet.
  - rewrite !drop_newlines_c64; [|sextet..]. simpl. rewrite !d64_c64; [|sextet..]. simpl.
    rewrite decide_False; [|apply c64_not_pad; sextet].
    f_equal. f_equal; [apply Z_byte_Z; sextet|]. f_equal. apply Z_byte_Z. sextet.
  - rewrite !drop_newlines_c64; [|sextet..]. simpl. rewrite !d64_c64; [|sextet..]. simpl.
    rewrite decide_False; [|apply c64_not_pad; sextet]. rewrite IH /=.
    f_equal. f_equal; [apply Z_byte_Z; sextet|]. f_equal; [apply Z_byte_Z; sextet|].
    f_equal. apply Z_byte_Z. sextet.
Qed.
