(* ===== verification/SafePath.v ===== *)
(** * internal/safepath: validation of caller-supplied paths

    Every validator returns the Go [error] ([None] is [nil]); the errors carry
    the arguments of their messages. *)
From S2P Require Import Prelude GoStrings GoPath.

Inductive path_error :=
| EEmpty
| ETraversal (p : string)
| ENotRelative (p : string)
| ENotAbsolute (p : string)
| ENotFilename (p : string)
| EExtension (p : string)
| EInvalidChars (p : string)
| EHiddenName (p : string)
| ENotClean (p : string)
| EOutside (dir root : string)
| ECannotOpen (root : string).

Definition slash_backslash : list ascii := [slash; "\"%char].

Definition ValidateComposePath (p : string) : option path_error :=
  if decide (p = "" ∨ p = ".") then None
  else
    let cleaned := Clean p in
    if Contains cleaned ".." then Some (ETraversal p)
    else if IsAbs cleaned then Some (ENotRelative p)
    else None.

Definition ValidateComposeFile (f : string) : option path_error :=
  if decide (f = "") then None
  else
    let cleaned := Clean f in
    if Contains cleaned ".." then Some (ETraversal f)
    else if IsAbs cleaned then Some (ENotRelative f)
    else if Contains cleaned "/" then Some (ENotFilename f)
    else
      let ext := ToLower (Ext cleaned) in
      if decide (ext ≠ ".yml" ∧ ext ≠ ".yaml") then Some (EExtension f) else None.

Definition ValidateBackupKey (key : string) : option path_error :=
  if decide (key = "") then Some EEmpty
  else
    let cleaned := Clean key in
    if decide (cleaned ≠ key) then Some (EInvalidChars key)
    else if ContainsAny cleaned slash_backslash then Some (ENotFilename key)
    else if bool_decide (cleaned = ".") || bool_decide (cleaned = "..") || Contains cleaned ".."
    then Some (ETraversal key)
    else if decide (ToLower (Ext cleaned) ≠ ".zip") then Some (EExtension key)
    else None.

Definition ValidateHostPath (p : string) : option path_error :=
  if decide (p = "") then Some EEmpty
  else
    let cleaned := Clean p in
    if Contains cleaned ".." then Some (ETraversal p)
    else if negb (IsAbs cleaned) then Some (ENotAbsolute p)
    else None.

Definition ValidateConfigName (name : string) : option path_error :=
  if decide (name = "") then Some EEmpty
  else if ContainsAny name slash_backslash then Some (ENotFilename name)
  else if bool_decide (name = ".") || bool_decide (name = "..") || HasPrefix name "."
  then Some (EHiddenName name)
  else None.

Definition ValidateContainerMountPath (target : string) : option path_error :=
  if decide (target = "") then Some EEmpty
  else if negb (IsAbs target) then Some (ENotAbsolute target)
  else
    let cleaned := Clean target in
    if decide (cleaned ≠ target ∨ cleaned = "/") then Some (ENotClean target) else None.

(** [OpenRoot]: [open_root] is [os.OpenRoot], which succeeds or not depending on
    the file system. *)
Definition OpenRoot {R} (open_root : string → option R) (root dir : string)
    : path_error + (R * string) :=
  let rootDir := if decide (root = "") then dir else root in
  match Rel rootDir dir with
  | None => inl (EOutside dir rootDir)
  | Some rel =>
      if bool_decide (rel = "..") || HasPrefix rel "../" then inl (EOutside dir rootDir)
      else match open_root rootDir with
           | None => inl (ECannotOpen rootDir)
           | Some r => inr (r, rel)
           end
  end.

Definition CleanRelativePath (p : string) : path_error + string :=
  if decide (p = "") then inl EEmpty
  else
    let cleaned := Clean p in
    if HasPrefix cleaned ".." || IsAbs cleaned then inl (ENotRelative p)
    else inr cleaned.

(** ** Lemmas *)

Lemma PathJoin_proper dir c : dir ≠ "" → proper c →
  path_comps (PathJoin dir c) = path_comps dir ++ [c].
Proof.
  intros Hd Hc. destruct (proper_comps c Hc) as [Hcc HA].
  destruct Hc as (Hne & _ & Hdd & _).
  unfold PathJoin. rewrite decide_False // decide_False // path_comps_Clean.
  destruct (path_comps_descend dir c) as [-> _]; [done..| |by rewrite Hcc].
  rewrite Hcc list_elem_of_singleton. congruence.
Qed.

(** A relative cleaned path without a separator is a single element. *)
Lemma single_component p : IsAbs p = false → ¬ in_string slash (Clean p) →
  path_comps p = [] ∨ path_comps p = [Clean p].
Proof.
  intros Hp Hs. unfold Clean, show_path in *. rewrite Hp in Hs |- *.
  destruct (path_comps p) as [|c [|d cs]]; [by left|by right|].
  exfalso. apply Hs. rewrite Join_cons //. apply in_string_app. right. by left.
Qed.

Lemma strip_common_spec b t b' t' : strip_common b t = (b', t') →
  ∃ pre, b = pre ++ b' ∧ t = pre ++ t'.
Proof.
  revert t. induction b as [|x b IH]; intros [|y t] Heq; simplify_eq/=; try by exists [].
  case_decide; simplify_eq; [|by exists []].
  destruct (IH _ Heq) as (pre & -> & ->). by exists (y :: pre).
Qed.

Lemma climbing_path n cs : 0 < n →
  bool_decide (show_path false (replicate n ".." ++ cs) = "..") ||
  HasPrefix (show_path false (replicate n ".." ++ cs)) "../" = true.
Proof.
  intros Hn. destruct n as [|n]; [lia|]. rewrite replicate_S. simpl.
  apply orb_true_iff. destruct (replicate n ".." ++ cs) as [|c rest]; [by left|right].
  apply HasPrefix_spec. exists (Join "/" (c :: rest)). done.
Qed.

Lemma Rel_inside base targ rel : Rel base targ = Some rel →
  bool_decide (rel = "..") || HasPrefix rel "../" = false → inside base targ.
Proof.
  unfold Rel, inside. intros Hrel Hup. case_decide as Heq.
  - apply Clean_eq in Heq as [-> ->]. split; [done|]. exists []. by rewrite app_nil_r.
  - case_decide as HA; [|done]. split; [done|].
    destruct (strip_common _ _) as [b t] eqn:Hsc.
    apply strip_common_spec in Hsc as (pre & -> & ->).
    case_decide; simplify_eq. destruct b as [|x b]; [exists t; by rewrite app_nil_r|].
    rewrite climbing_path in Hup; [|simpl; lia]. done.
Qed.

(** ** Properties *)

(** A compose_path accepted by [ValidateComposePath] cannot leave the
    directory it is joined to, whatever that directory is. *)
Theorem compose_path_contained (base p : string) :
  base ≠ "" → ValidateComposePath p = None → inside base (PathJoin base p).
Proof.
  intros Hb. unfold ValidateComposePath. case_decide as Hd.
  - intros _. apply inside_PathJoin; [done|by destruct Hd as [-> | ->]|].
    by destruct Hd as [-> | ->]; intros ?%elem_of_nil.
  - destruct (Contains _ _) eqn:Hc; [done|]. destruct (IsAbs (Clean p)) eqn:HA; [done|]. intros _.
    rewrite IsAbs_Clean in HA. apply inside_PathJoin; [done..|]. by apply no_dotdot_comps.
Qed.

Lemma compose_path_contained_witness :
  inside "/data/repo" (PathJoin "/data/repo" "stacks/./web/..").
Proof. apply compose_path_contained; [done|reflexivity]. Defined.

(** A backup key accepted by [ValidateBackupKey] names a direct child of
    whatever directory it is joined to, and ends in .zip. *)
Theorem backup_key_direct_child (dir key : string) :
  dir ≠ "" → ValidateBackupKey key = None →
  path_comps (PathJoin dir key) = path_comps dir ++ [key] ∧ ToLower (Ext key) = ".zip".
Proof.
  intros Hd. unfold ValidateBackupKey. case_decide as H1; [done|].
  case_decide as H2; [done|]. rewrite H2.
  destruct (ContainsAny _ _) eqn:H3; [done|].
  destruct (bool_decide (key = ".")) eqn:H4; [done|].
  destruct (bool_decide (key = "..")) eqn:H5; [done|].
  destruct (Contains key "..") eqn:H6; [done|]. simpl.
  bool_props. case_decide as H7; [done|]. intros _. split; [|done]. apply PathJoin_proper; [done|].
  rewrite ContainsAny_false in H3. unfold proper. split_and!; try done.
  apply H3. by constructor.
Qed.

Lemma backup_key_direct_child_witness :
  path_comps (PathJoin "/data/backups" "nightly.ZIP") = ["data"; "backups"; "nightly.ZIP"].
Proof. by apply (backup_key_direct_child "/data/backups" "nightly.ZIP"). Defined.

(** when [OpenRoot] succeeds, the directory lies inside the opened root. *)
Theorem open_root_contained {R} (open_root : string → option R) (root dir : string) r rel :
  OpenRoot open_root root dir = inr (r, rel) →
  inside (if decide (root = "") then dir else root) dir.
Proof.
  unfold OpenRoot. destruct (Rel _ _) as [rel'|] eqn:Hrel; [|done].
  destruct (_ || _) eqn:Hup; [done|]. intros _. by eapply Rel_inside.
Qed.

Lemma open_root_contained_witness : inside "/data/repo" "/data/repo/stacks/web".
Proof.
  by apply (open_root_contained (λ _, Some tt) "/data/repo" "/data/repo/stacks/web" tt "stacks/web").
Defined.

(** The other validators; each accepted value is a clean name or path. *)
Lemma compose_file_direct_child dir f : dir ≠ "" → f ≠ "" → ValidateComposeFile f = None →
  path_comps (PathJoin dir (Clean f)) = path_comps dir ++ [Clean f].
Proof.
  intros Hd Hf. unfold ValidateComposeFile. rewrite decide_False //.
  destruct (Contains (Clean f) "..") eqn:H1; [done|].
  destruct (IsAbs (Clean f)) eqn:H2; [done|].
  destruct (Contains (Clean f) "/") eqn:H3; [done|]. case_decide as H4; [done|]. intros _.
  apply no_dotdot_comps in H1. rewrite IsAbs_Clean in H2. apply Contains_char_false in H3.
  destruct (single_component f) as [Hc|Hc]; [done..| |].
  - exfalso. apply H4. unfold Clean, show_path. by rewrite H2 Hc.
  - apply PathJoin_proper; [done|].
    destruct (path_comps_normalised f) as (n & ns & Heq & Hns & _). rewrite Heq in H1.
    destruct n as [|n]; [|exfalso; apply H1; simpl; by constructor]. simpl in Heq. subst ns.
    rewrite Hc in Hns. by apply Forall_singleton.
Qed.

Lemma config_name_direct_child dir name : dir ≠ "" → ValidateConfigName name = None →
  path_comps (PathJoin dir name) = path_comps dir ++ [name].
Proof.
  intros Hd. unfold ValidateConfigName. case_decide as H1; [done|].
  destruct (ContainsAny _ _) eqn:H2; [done|]. destruct (_ || _) eqn:H3; [done|]. intros _.
  bool_props. rewrite ContainsAny_false in H2. apply PathJoin_proper; [done|].
  unfold proper. split_and!; try done. apply H2. by constructor.
Qed.

Lemma mount_path_accepted target : ValidateContainerMountPath target = None ↔
  IsAbs target = true ∧ Clean target = target ∧ target ≠ "/".
Proof.
  unfold ValidateContainerMountPath. case_decide as H1; [subst; naive_solver|].
  destruct (IsAbs target); simpl; [|naive_solver].
  destruct (decide (Clean target = target)) as [Hc|Hc].
  - rewrite Hc. case_decide; split; intuition congruence.
  - rewrite decide_True; [intuition congruence|by left].
Qed.

Lemma host_path_absolute p : ValidateHostPath p = None →
  IsAbs p = true ∧ Forall proper (path_comps p).
Proof.
  unfold ValidateHostPath. case_decide; [done|]. destruct (Contains _ _); [done|].
  rewrite IsAbs_Clean. destruct (IsAbs p) eqn:HA; [|done]. intros _. split; [done|].
  destruct (path_comps_normalised p) as (n & ns & -> & Hns & Hn). by rewrite (Hn HA).
Qed.

Lemma clean_relative_contained base p q : base ≠ "" → CleanRelativePath p = inr q →
  q = Clean p ∧ inside base (PathJoin base q).
Proof.
  intros Hb. unfold CleanRelativePath. case_decide; [done|].
  destruct (HasPrefix _ _) eqn:H1; [done|]. destruct (IsAbs (Clean p)) eqn:H2; [done|].
  intros; simplify_eq/=. split; [done|]. apply inside_PathJoin; [done..|].
  rewrite path_comps_Clean. intros Hin. rewrite IsAbs_Clean in H2.
  by rewrite (leading_dotdot p) in H1.
Qed.
