(* ===== verification/Policy.v ===== *)
(** * internal/policy/policy.go: worker security policies

    Resolution of the effective policy of a worker ([Load], [loadGlobal]) and
    the validators for volumes, networks, images and the other dimensions of a
    compose service.  A nil slice and an empty slice are the same list here:
    the code only ever asks for their length. *)
From S2P Require Import Prelude GoStrings GoPath.

(** ** Data *)
Record WorkerPolicy := {
  Disabled : bool;
  AllowedVolumes : list string;
  AllowedNetworks : list string;
  AllowedImages : list string;
  AllowedCapAdd : list string;
  AllowedDevices : list string;
  AllowedSecurityOpt : list string;
  PreventLatestImages : bool;
  BlockHostVolumes : bool;
  BlockPrivileged : bool;
  BlockHostNetwork : bool;
  BlockHostPID : bool;
  BlockHostIPC : bool;
  BlockDockerSocket : bool;
  AllowRenderOverrides : bool
}.

(** Per-worker flag overrides: a nil pointer is [None]. *)
Record policyFlags := {
  f_PreventLatestImages : option bool;
  f_BlockHostVolumes : option bool;
  f_BlockPrivileged : option bool;
  f_BlockHostNetwork : option bool;
  f_BlockHostPID : option bool;
  f_BlockHostIPC : option bool;
  f_BlockDockerSocket : option bool;
  f_AllowRenderOverrides : option bool
}.

Definition zero_flags : policyFlags := Build_policyFlags None None None None None None None None.

Definition open_policy : WorkerPolicy :=
  Build_WorkerPolicy false [] [] [] [] [] [] false false false false false false false false.

(** The [worker_policies] singleton: [g_enabled] is [None] when the field is nil. *)
Record global_record := {
  g_enabled : option bool;
  g_volumes : list string;
  g_networks : list string;
  g_images : list string;
  g_cap_add : list string;
  g_devices : list string;
  g_security_opt : list string;
  g_prevent_latest_images : bool;
  g_block_host_volumes : bool;
  g_block_privileged : bool;
  g_block_host_network : bool;
  g_block_host_pid : bool;
  g_block_host_ipc : bool;
  g_block_docker_socket : bool;
  g_allow_render_overrides : bool
}.

(** The policy fields of a [workers] record: a JSON list field that is null,
    absent or undecodable leaves its pointer nil ([None]). *)
Record worker_record := {
  w_policy_inherit : option bool;
  w_policy_volumes : option (list string);
  w_policy_networks : option (list string);
  w_policy_images : option (list string);
  w_policy_cap_add : option (list string);
  w_policy_devices : option (list string);
  w_policy_security_opt : option (list string);
  w_policy_flags : string
}.

(** The outcome of a database lookup. *)
Inductive db_result (A : Type) := Found (a : A) | NoRows | DbError.
Arguments Found {A} _.
Arguments NoRows {A}.
Arguments DbError {A}.

Inductive load_error := EFindGlobal | EFindWorker.

(** ** Resolution *)
Definition resolveFlag (local : option bool) (global inherit : bool) : bool :=
  match local with
  | Some b => b
  | None => if inherit then global else false
  end.

Definition resolveList (local : option (list string)) (global : list string) (inherit : bool)
    : list string :=
  match local with
  | Some l => l
  | None => if inherit then global else []
  end.

Definition loadGlobal (find_all : db_result (list global_record)) : load_error + WorkerPolicy :=
  match find_all with
  | DbError => inl EFindGlobal
  | NoRows | Found [] => inr open_policy
  | Found (rec :: _) =>
      inr {| Disabled := negb (default true (g_enabled rec));
             AllowedVolumes := g_volumes rec;
             AllowedNetworks := g_networks rec;
             AllowedImages := g_images rec;
             AllowedCapAdd := g_cap_add rec;
             AllowedDevices := g_devices rec;
             AllowedSecurityOpt := g_security_opt rec;
             PreventLatestImages := g_prevent_latest_images rec;
             BlockHostVolumes := g_block_host_volumes rec;
             BlockPrivileged := g_block_privileged rec;
             BlockHostNetwork := g_block_host_network rec;
             BlockHostPID := g_block_host_pid rec;
             BlockHostIPC := g_block_host_ipc rec;
             BlockDockerSocket := g_block_docker_socket rec;
             AllowRenderOverrides := g_allow_render_overrides rec |}
  end.

(** [unmarshal_flags] is [json.Unmarshal] into a zero [policyFlags], its error
    dropped; [find_worker] is the lookup of [workerID]. *)
Definition Load (unmarshal_flags : string → policyFlags)
    (find_all : db_result (list global_record)) (find_worker : string → db_result worker_record)
    (workerID : string) : load_error + WorkerPolicy :=
  match loadGlobal find_all with
  | inl e => inl e
  | inr global =>
      if decide (workerID = "") then inr global
      else match find_worker workerID with
      | NoRows => inr global
      | DbError => inl EFindWorker
      | Found worker =>
          let inherit := default true (w_policy_inherit worker) in
          let flags := if decide (w_policy_flags worker = "") then zero_flags
                       else unmarshal_flags (w_policy_flags worker) in
          inr {| Disabled := Disabled global;
                 AllowedVolumes :=
                   resolveList (w_policy_volumes worker) (AllowedVolumes global) inherit;
                 AllowedNetworks :=
                   resolveList (w_policy_networks worker) (AllowedNetworks global) inherit;
                 AllowedImages :=
                   resolveList (w_policy_images worker) (AllowedImages global) inherit;
                 AllowedCapAdd :=
                   resolveList (w_policy_cap_add worker) (AllowedCapAdd global) inherit;
                 AllowedDevices :=
                   resolveList (w_policy_devices worker) (AllowedDevices global) inherit;
                 AllowedSecurityOpt :=
                   resolveList (w_policy_security_opt worker) (AllowedSecurityOpt global) inherit;
                 PreventLatestImages :=
                   resolveFlag (f_PreventLatestImages flags) (PreventLatestImages global) inherit;
                 BlockHostVolumes :=
                   resolveFlag (f_BlockHostVolumes flags) (BlockHostVolumes global) inherit;
                 BlockPrivileged :=
                   resolveFlag (f_BlockPrivileged flags) (BlockPrivileged global) inherit;
                 BlockHostNetwork :=
                   resolveFlag (f_BlockHostNetwork flags) (BlockHostNetwork global) inherit;
                 BlockHostPID :=
                   resolveFlag (f_BlockHostPID flags) (BlockHostPID global) inherit;
                 BlockHostIPC :=
                   resolveFlag (f_BlockHostIPC flags) (BlockHostIPC global) inherit;
                 BlockDockerSocket :=
                   resolveFlag (f_BlockDockerSocket flags) (BlockDockerSocket global) inherit;
                 AllowRenderOverrides :=
                   resolveFlag (f_AllowRenderOverrides flags) (AllowRenderOverrides global) inherit
              |}
      end
  end.

(** ** Validators *)

(** One constructor per message; the arguments are the quoted values. *)
Inductive policy_error :=
| EHostBindMount (hostPart : string)
| EVolumeNotAllowed (hostPart : string)
| ENetworkNotAllowed (network : string)
| ELatestImage (img : string)
| EImageNotAllowed (img : string)
| EPrivileged (service : string)
| EHostNetwork (service : string)
| EHostPID (service : string)
| EHostIPC (service : string)
| EDockerSocket (mount : string)
| ECapability (c : string)
| EDevice (d : string)
| ESecurityOpt (o : string).

(** [isHostPath] of compose.go is the same test as the one inlined in
    [validateSingleVolume]. *)
Definition isHostPath (src : string) : bool :=
  HasPrefix src "/" || HasPrefix src "./" || HasPrefix src "../" || HasPrefix src "~".

(** The host path is the allowed one or starts with it and a separator. *)
Definition bind_allowed (allowed hostPart : string) : bool :=
  let allowedClean := Clean allowed in
  let hostClean := Clean hostPart in
  bool_decide (hostClean = allowedClean) || HasPrefix hostClean (allowedClean +:+ "/").

Definition validateSingleVolume (p : WorkerPolicy) (vol : string) : option policy_error :=
  let hostPart := before colon vol in
  let isBindMount := isHostPath hostPart in
  if BlockHostVolumes p && isBindMount then Some (EHostBindMount hostPart)
  else match AllowedVolumes p with
  | [] => None
  | allowed =>
      if existsb (λ a, if isBindMount then bind_allowed a hostPart
                       else bool_decide (hostPart = a)) allowed
      then None else Some (EVolumeNotAllowed hostPart)
  end.

Definition ValidateVolumes (p : WorkerPolicy) (volumes : list string) : option policy_error :=
  if Disabled p then None else first_err (validateSingleVolume p) volumes.

Definition stringInList (s : string) (l : list string) : bool :=
  existsb (λ item, bool_decide (item = s)) l.

Definition ValidateNetwork (p : WorkerPolicy) (network : string) : option policy_error :=
  if Disabled p then None
  else if decide (network = "") then None
  else match AllowedNetworks p with
  | [] => None
  | allowed =>
      if existsb (λ a, bool_decide (network = a)) allowed then None
      else Some (ENetworkNotAllowed network)
  end.

Definition isLatestOrUntagged (image : string) : bool :=
  let imagePart := before "@"%char image in
  let suffix := match rcut slash imagePart with Some (_, r) => r | None => imagePart end in
  match rcut colon suffix with
  | None => true
  | Some (_, tag) => bool_decide (tag = "") || bool_decide (tag = "latest")
  end.

Definition matchPattern (pattern image : string) : bool :=
  if decide (pattern = image) then true
  else match Match pattern image with
       | None => false
       | Some matched => matched
       end.

Definition imageAllowed (p : WorkerPolicy) (image : string) : bool :=
  existsb (λ pattern, matchPattern pattern image) (AllowedImages p).

Definition validateImage (p : WorkerPolicy) (img : string) : option policy_error :=
  if PreventLatestImages p && isLatestOrUntagged img then Some (ELatestImage img)
  else if bool_decide (AllowedImages p ≠ []) && negb (imageAllowed p img)
  then Some (EImageNotAllowed img)
  else None.

Definition ValidateImages (p : WorkerPolicy) (images : list string) : option policy_error :=
  if Disabled p then None else first_err (validateImage p) images.

(** The four whole-service checks report the first offending service. *)
Definition service_check (disabled block : bool) (mk : string → policy_error)
    (services : list string) : option policy_error :=
  if disabled || negb block then None
  else match services with [] => None | s :: _ => Some (mk s) end.

Definition ValidatePrivileged (p : WorkerPolicy) := service_check (Disabled p) (BlockPrivileged p) EPrivileged.
Definition ValidateHostNetwork (p : WorkerPolicy) := service_check (Disabled p) (BlockHostNetwork p) EHostNetwork.
Definition ValidateHostPID (p : WorkerPolicy) := service_check (Disabled p) (BlockHostPID p) EHostPID.
Definition ValidateHostIPC (p : WorkerPolicy) := service_check (Disabled p) (BlockHostIPC p) EHostIPC.

Definition dockerSocketPaths : list string := ["/var/run/docker.sock"; "/run/docker.sock"].

Definition exposesDockerSocket (m : string) : bool :=
  let src := Clean (before colon m) in
  let prefix := if decide (src = "/") then src else src +:+ "/" in
  existsb (λ sockPath, bool_decide (src = sockPath) || HasPrefix sockPath prefix) dockerSocketPaths.

Definition ValidateDockerSocket (p : WorkerPolicy) (mounts : list string) : option policy_error :=
  if Disabled p || negb (BlockDockerSocket p) then None
  else first_err (λ m, if exposesDockerSocket m then Some (EDockerSocket m) else None) mounts.

Definition list_check (disabled : bool) (allowed : list string) (mk : string → policy_error)
    (xs : list string) : option policy_error :=
  if disabled || bool_decide (allowed = []) then None
  else first_err (λ x, if stringInList x allowed then None else Some (mk x)) xs.

Definition ValidateCapAdd (p : WorkerPolicy) := list_check (Disabled p) (AllowedCapAdd p) ECapability.
Definition ValidateDevices (p : WorkerPolicy) := list_check (Disabled p) (AllowedDevices p) EDevice.
Definition ValidateSecurityOpt (p : WorkerPolicy) := list_check (Disabled p) (AllowedSecurityOpt p) ESecurityOpt.

(** ** Specifications *)

(** The dimensions of a policy, to state resolution once for all of them. *)
Inductive allow_dim := DVolumes | DNetworks | DImages | DCapAdd | DDevices | DSecurityOpt.
Inductive flag_dim :=
| DPreventLatest | DHostVolumes | DPrivileged | DHostNetwork | DHostPID | DHostIPC
| DDockerSocket | DRenderOverrides.

Definition allowed (p : WorkerPolicy) (d : allow_dim) : list string :=
  match d with
  | DVolumes => AllowedVolumes p | DNetworks => AllowedNetworks p
  | DImages => AllowedImages p | DCapAdd => AllowedCapAdd p
  | DDevices => AllowedDevices p | DSecurityOpt => AllowedSecurityOpt p
  end.

Definition flag (p : WorkerPolicy) (d : flag_dim) : bool :=
  match d with
  | DPreventLatest => PreventLatestImages p | DHostVolumes => BlockHostVolumes p
  | DPrivileged => BlockPrivileged p | DHostNetwork => BlockHostNetwork p
  | DHostPID => BlockHostPID p | DHostIPC => BlockHostIPC p
  | DDockerSocket => BlockDockerSocket p | DRenderOverrides => AllowRenderOverrides p
  end.

Definition worker_allowed (w : worker_record) (d : allow_dim) : option (list string) :=
  match d with
  | DVolumes => w_policy_volumes w | DNetworks => w_policy_networks w
  | DImages => w_policy_images w | DCapAdd => w_policy_cap_add w
  | DDevices => w_policy_devices w | DSecurityOpt => w_policy_security_opt w
  end.

Definition worker_flag (f : policyFlags) (d : flag_dim) : option bool :=
  match d with
  | DPreventLatest => f_PreventLatestImages f | DHostVolumes => f_BlockHostVolumes f
  | DPrivileged => f_BlockPrivileged f | DHostNetwork => f_BlockHostNetwork f
  | DHostPID => f_BlockHostPID f | DHostIPC => f_BlockHostIPC f
  | DDockerSocket => f_BlockDockerSocket f | DRenderOverrides => f_AllowRenderOverrides f
  end.

(** What a policy promises about one volume: no bind mount when host volumes
    are blocked; under a non-empty allowlist, a bind mount lies inside an
    allowed directory and a named volume is listed. *)
Definition volume_permitted (p : WorkerPolicy) (vol : string) : Prop :=
  let host := before colon vol in
  (BlockHostVolumes p = true → isHostPath host = false) ∧
  (AllowedVolumes p ≠ [] →
   ∃ a, a ∈ AllowedVolumes p ∧
        if isHostPath host
        then inside a host ∧ (path_comps a ≠ [] ∨ path_comps host = [])
        else host = a).

(** ** Lemmas *)
Lemma existsb_spec {A} (f : A → bool) l : existsb f l = true ↔ ∃ x, x ∈ l ∧ f x = true.
Proof. rewrite existsb_exists. by setoid_rewrite list_elem_of_In. Qed.

Lemma stringInList_spec s l : stringInList s l = true ↔ s ∈ l.
Proof.
  unfold stringInList. rewrite existsb_spec. setoid_rewrite bool_decide_eq_true. naive_solver.
Qed.

Lemma bind_allowed_spec a h : bind_allowed a h = true ↔
  inside a h ∧ (path_comps a ≠ [] ∨ path_comps h = []).
Proof.
  unfold bind_allowed. rewrite orb_true_iff bool_decide_eq_true. apply Clean_prefix_inside.
Qed.

Lemma existsb_guard {A E} (f : A → bool) l (e : E) :
  (if existsb f l then None else Some e) = None ↔ ∃ x, x ∈ l ∧ f x = true.
Proof. rewrite -existsb_spec. by destruct (existsb f l). Qed.

Lemma validateSingleVolume_None p vol :
  validateSingleVolume p vol = None ↔ volume_permitted p vol.
Proof.
  unfold validateSingleVolume, volume_permitted. generalize (before colon vol) as h. intros h.
  destruct (BlockHostVolumes p && isHostPath h) eqn:HB.
  { bool_props. split; [done|]. intros [Hh _]. rewrite Hh in H0; done. }
  assert (BlockHostVolumes p = true → isHostPath h = false).
  { intros Hb. by rewrite Hb in HB. }
  destruct (AllowedVolumes p) as [|a l] eqn:Ha; [naive_solver|]. rewrite -Ha existsb_guard.
  trans (∃ x, x ∈ AllowedVolumes p ∧
    if isHostPath h then inside x h ∧ (path_comps x ≠ [] ∨ path_comps h = []) else h = x).
  - apply exists_and_iff. intros x _.
    destruct (isHostPath h); [apply bind_allowed_spec|apply bool_decide_eq_true].
  - rewrite Ha. naive_solver.
Qed.

Lemma socket_paths_clean s : s ∈ dockerSocketPaths →
  Clean s = s ∧ IsAbs s = true ∧ path_comps s ≠ [].
Proof.
  unfold dockerSocketPaths. rewrite !elem_of_cons. intros [->|[->|H%elem_of_nil]]; [vm_compute; done..|done].
Qed.

Lemma exposesDockerSocket_spec m : exposesDockerSocket m = true ↔
  ∃ s, s ∈ dockerSocketPaths ∧ inside (before colon m) s.
Proof.
  unfold exposesDockerSocket. rewrite existsb_spec. set (src := before colon m).
  apply exists_and_iff. intros s Hs.
  destruct (socket_paths_clean s Hs) as (Hc & HA & Hne).
  destruct (decide (Clean src = "/")) as [Hr|Hr].
  - rewrite orb_true_iff HasPrefix_spec. split; [intros _|].
    + assert (IsAbs src = true) as HAs by (by rewrite -IsAbs_Clean Hr).
      assert (path_comps src = []) as Hcs by (by rewrite -path_comps_Clean Hr).
      split; [congruence|]. exists (path_comps s). by rewrite Hcs.
    + intros _. right. apply IsAbs_spec in HA as [r ->]. rewrite Hr. by exists r.
  - pose proof (Clean_prefix_inside src s) as Hpi. rewrite Hc in Hpi.
    rewrite orb_true_iff bool_decide_eq_true.
    trans (s = Clean src ∨ HasPrefix s (Clean src +:+ "/") = true); [naive_solver|].
    rewrite Hpi. split; [by intros [? _]|]. intros Hin. split; [done|]. left.
    intros Hcs. destruct Hin as [HAs _]. apply Hr. rewrite Clean_nil //. by rewrite -HAs HA.
Qed.

Lemma ValidateVolumes_None p vols : ValidateVolumes p vols = None ↔
  Disabled p = true ∨ first_err (validateSingleVolume p) vols = None.
Proof. unfold ValidateVolumes. destruct (Disabled p); naive_solver. Qed.

(** ** Properties *)

(** [ValidateVolumes] accepts a list exactly when the policy is disabled or
    permits every volume in it; in particular an accepted bind mount under a
    non-empty allowlist lies inside an allowed directory, component-wise. *)
Theorem volumes_policy_exact (p : WorkerPolicy) (vols : list string) :
  ValidateVolumes p vols = None ↔
  Disabled p = true ∨ ∀ vol, vol ∈ vols → volume_permitted p vol.
Proof.
  rewrite ValidateVolumes_None first_err_None. by setoid_rewrite validateSingleVolume_None.
Qed.

(** With the docker-socket rule on, [ValidateDockerSocket] accepts a list of
    mounts exactly when no mount source is the socket or one of its ancestor
    directories, the root included. *)
Theorem docker_socket_exact (p : WorkerPolicy) (mounts : list string) :
  Disabled p = false → BlockDockerSocket p = true →
  ValidateDockerSocket p mounts = None ↔
  ∀ m s, m ∈ mounts → s ∈ dockerSocketPaths → ¬ inside (before colon m) s.
Proof.
  intros Hd Hb. unfold ValidateDockerSocket. rewrite Hd Hb /= first_err_None. split.
  - intros H m s Hm Hs Hin. specialize (H m Hm).
    by rewrite (proj2 (exposesDockerSocket_spec m)) in H; [|eauto].
  - intros H m Hm. destruct (exposesDockerSocket m) eqn:He; [|done].
    apply exposesDockerSocket_spec in He as (s & Hs & Hin). by destruct (H m s Hm Hs).
Qed.

Definition socket_policy : WorkerPolicy :=
  Build_WorkerPolicy false [] [] [] [] [] [] false false false false false false true false.

Lemma docker_socket_exact_witness :
  ValidateDockerSocket socket_policy ["/srv/data:/data"] = None ∧
  ∀ m s, m ∈ ["/srv/data:/data"] → s ∈ dockerSocketPaths → ¬ inside (before colon m) s.
Proof.
  split; [reflexivity|].
  apply (docker_socket_exact socket_policy ["/srv/data:/data"]); reflexivity.
Defined.

(** [Load] resolves every allowlist and every flag the documented way: an
    explicit worker value wins, otherwise the global value is inherited, and
    without inheritance the dimension is open (list empty, flag off); the
    global kill switch always carries over. *)
Theorem load_precedence unmarshal find_all find_worker workerID global worker p :
  workerID ≠ "" →
  loadGlobal find_all = inr global →
  find_worker workerID = Found worker →
  Load unmarshal find_all find_worker workerID = inr p →
  Disabled p = Disabled global ∧
  (∀ d, allowed p d = match worker_allowed worker d with
                      | Some l => l
                      | None => if default true (w_policy_inherit worker)
                                then allowed global d else []
                      end) ∧
  (∀ d, flag p d =
        match worker_flag (if decide (w_policy_flags worker = "") then zero_flags
                           else unmarshal (w_policy_flags worker)) d with
        | Some b => b
        | None => if default true (w_policy_inherit worker) then flag global d else false
        end).
Proof.
  intros Hw Hg Hf. unfold Load. rewrite Hg decide_False // Hf. intros; simplify_eq/=.
  split; [done|]. by split; intros [].
Qed.

Definition sample_worker : worker_record :=
  Build_worker_record None (Some ["/srv"]) None None None None None "{}".
Definition sample_flags : policyFlags :=
  Build_policyFlags (Some false) None None None None None None None.
Definition sample_global : global_record :=
  Build_global_record (Some true) ["/data"] ["proxy"] [] [] [] [] true false true false false false
    true false.

Lemma load_precedence_witness : ∃ p,
  Load (λ _, sample_flags) (Found [sample_global]) (λ _, Found sample_worker) "w1" = inr p ∧
  allowed p DVolumes = ["/srv"] ∧ allowed p DNetworks = ["proxy"] ∧
  flag p DPreventLatest = false ∧ flag p DPrivileged = true.
Proof.
  eexists. split; [reflexivity|].
  edestruct (load_precedence (λ _, sample_flags) (Found [sample_global])
    (λ _, Found sample_worker) "w1") as (_ & Ha & Hf); [done|reflexivity..|].
  rewrite !Ha !Hf. split_and!; reflexivity.
Defined.

(** ** Images *)

(** A digest part of an image reference: nothing, or an at sign and the rest. *)
Definition digest_part (d : string) : Prop := d = "" ∨ ∃ r, d = String "@" r.

Lemma before_digest s d : ¬ in_string "@" s → digest_part d → before "@"%char (s +:+ d) = s.
Proof.
  intros Hs [->|[r ->]]; [rewrite sapp_nil_r; by apply before_no_char|by apply before_app].
Qed.

(** A directory part: nothing, or anything up to a slash. *)
Definition dir_part (pre : string) : Prop := pre = "" ∨ ∃ d, pre = d +:+ "/".

Lemma last_segment pre seg : dir_part pre → ¬ in_string slash seg →
  match rcut slash (pre +:+ seg) with Some (_, r) => r | None => pre +:+ seg end = seg.
Proof.
  intros [->|[d ->]] Hs.
  - rewrite sapp_nil_l. by rewrite (proj2 (rcut_None slash seg) Hs).
  - rewrite sapp_assoc sapp_cons sapp_nil_l.
    by rewrite (proj2 (rcut_Some slash _ d seg) (conj eq_refl Hs)).
Qed.

(** [isLatestOrUntagged] reads the tag of an image reference
    [pre seg [: tag] [@ digest]] (registry host and port in [pre]): a reference
    without a tag counts as latest, one with a tag exactly when the tag is
    empty or is the word latest; the digest never matters. *)
Theorem image_tag_rule (pre seg tag digest : string) :
  dir_part pre → digest_part digest →
  ¬ in_string "@" pre → ¬ in_string "@" seg → ¬ in_string "@" tag →
  ¬ in_string slash seg → ¬ in_string colon seg →
  ¬ in_string slash tag → ¬ in_string colon tag →
  isLatestOrUntagged ((pre +:+ seg) +:+ digest) = true ∧
  isLatestOrUntagged ((pre +:+ (seg +:+ String colon tag)) +:+ digest) =
    bool_decide (tag = "" ∨ tag = "latest").
Proof.
  intros Hpre Hd Ha1 Ha2 Ha3 Hs1 Hc1 Hs2 Hc2. unfold isLatestOrUntagged. split.
  - rewrite before_digest //; [|rewrite in_string_app; tauto].
    rewrite last_segment //. by rewrite (proj2 (rcut_None colon seg) Hc1).
  - rewrite before_digest //.
    2: { rewrite !in_string_app /=. intuition discriminate. }
    rewrite last_segment //.
    2: { rewrite in_string_app /=. intuition discriminate. }
    rewrite (proj2 (rcut_Some colon _ seg tag) (conj eq_refl Hc2)).
    by rewrite bool_decide_or.
Qed.

Lemma image_tag_rule_witness :
  isLatestOrUntagged "ghcr.io:5000/org/app:v2@sha256:ab" = false.
Proof.
  refine (proj2 (image_tag_rule "ghcr.io:5000/org/" "app" "v2" "@sha256:ab" _ _ _ _ _ _ _ _ _));
    [right; by exists "ghcr.io:5000/org"|right; by exists "sha256:ab"|cbn; intuition discriminate..].
Defined.

(** An allowlist pattern made of a literal prefix and a final star admits
    exactly the images that continue the prefix without another slash (or are
    the pattern itself): a star never crosses a path separator. *)
Theorem image_pattern_star (pre image : string) :
  plain pre →
  matchPattern (pre +:+ "*") image = true ↔
  ∃ x, image = pre +:+ x ∧ ¬ in_string slash x.
Proof.
  intros Hp. rewrite -Match_plain_star //. unfold matchPattern. case_decide as Heq.
  - split; [intros _|done]. apply Match_plain_star; [done|]. exists "*". split; [done|].
    simpl. intuition discriminate.
  - destruct (Match _ _) as [[]|]; naive_solver.
Qed.

Lemma image_pattern_star_witness : ¬ matchPattern "ghcr.io/org/*" "ghcr.io/org/team/app:1" = true.
Proof.
  intros (x & Hx & Hn)%(image_pattern_star "ghcr.io/org/"); [|repeat split; discriminate].
  apply (sapp_inv_head "ghcr.io/org/" "team/app:1" x) in Hx. subst x. apply Hn. cbn. tauto.
Defined.

Lemma matchPattern_plain pattern image : plain pattern →
  matchPattern pattern image = bool_decide (image = pattern).
Proof.
  intros Hp. unfold matchPattern. case_decide as Heq; [by rewrite bool_decide_eq_true_2|].
  by rewrite Match_plain.
Qed.

Lemma ValidateImages_None p imgs : ValidateImages p imgs = None ↔
  Disabled p = true ∨ ∀ img, img ∈ imgs →
    (PreventLatestImages p = true → isLatestOrUntagged img = false) ∧
    (AllowedImages p ≠ [] → ∃ pat, pat ∈ AllowedImages p ∧ matchPattern pat img = true).
Proof.
  unfold ValidateImages. destruct (Disabled p); [naive_solver|].
  rewrite first_err_None. split; [intros H; right|intros [|H]; [done|]]; intros img Hi;
    specialize (H img Hi); unfold validateImage, imageAllowed in *.
  - destruct (PreventLatestImages p && _) eqn:H1; [done|].
    destruct (bool_decide (AllowedImages p ≠ []) && _) eqn:H2; [done|].
    split; [intros E; by rewrite E in H1|]. intros E.
    rewrite bool_decide_eq_true_2 //= in H2. apply negb_false_iff in H2. by apply existsb_spec.
  - destruct H as [H1 H2]. destruct (PreventLatestImages p); simpl.
    1: rewrite H1 //. all: case_bool_decide as Ha; [|done];
      by rewrite (proj2 (existsb_spec _ _) (H2 Ha)).
Qed.

(** The literal rule for allowed directories has one corner: an allowlist
    entry that cleans to the root directory permits the root itself and nothing
    below it, although every absolute path starts with it. *)
Theorem root_allowlist_entry (p : WorkerPolicy) (host : string) :
  Disabled p = false → AllowedVolumes p = ["/"] → ¬ in_string colon host → IsAbs host = true →
  path_comps host ≠ [] →
  ValidateVolumes p [host] ≠ None.
Proof.
  intros Hd Ha Hc HA Hne HV. apply ValidateVolumes_None in HV as [?|HV]; [congruence|].
  rewrite first_err_None in HV.
  destruct (proj1 (validateSingleVolume_None p host)) as [_ Hall]; [apply HV; by constructor|]. rewrite Ha before_no_char // in Hall.
  destruct Hall as (a & ->%list_elem_of_singleton & Hin); [done|].
  assert (isHostPath host = true) as E by (unfold isHostPath; by rewrite (HA : HasPrefix host "/" = true)).
  rewrite E in Hin. by destruct Hin as [_ [?|?]].
Qed.

Lemma root_allowlist_entry_witness :
  ValidateVolumes (Build_WorkerPolicy false ["/"] [] [] [] [] [] false false false false false
    false false false) ["/etc"] ≠ None.
Proof. apply root_allowlist_entry; [done..|cbn; intuition discriminate|done|done]. Defined.
