(* ===== verification/PolicyCompose.v ===== *)
(** * internal/policy/compose.go: policies applied to a compose config

    [extractComposeRefs] collects every value the policy looks at from a
    decoded compose document, [ValidateComposeConfig] stops at the first
    violation, [ComposeViolations] reports all of them. *)
From S2P Require Import Prelude GoStrings GoPath GoValue Policy.

(** ** Extraction *)
Record ownedRef := { Service : string; Value : string }.

Record composeRefs := {
  images : list ownedRef;
  volumes : list ownedRef;
  networks : list ownedRef;
  privilegedServices : list string;
  hostNetworkServices : list string;
  hostPIDServices : list string;
  hostIPCServices : list string;
  capAdds : list ownedRef;
  securityOpts : list ownedRef;
  devices : list ownedRef;
  mounts : list ownedRef
}.

Definition values (refs : list ownedRef) : list string := Value <$> refs.

Definition own (svcName : string) (l : list string) : list ownedRef := Build_ownedRef svcName <$> l.

(** Host paths behind named volumes: [volumes.<name>.driver_opts.device]. *)
Definition volume_device (def : value) : option string :=
  d ← as_map def; opts ← get_map "driver_opts" d; device ← get_str "device" opts;
  if decide (device = "") then None else Some device.

Definition namedVolumeDevices (configMap : gmap string value) : gmap string string :=
  match get_map "volumes" configMap with
  | None => ∅
  | Some topVolumes => omap volume_device topVolumes
  end.

Definition service_images (svc : gmap string value) : list string :=
  match get_str "image" svc with
  | Some img => if decide (img = "") then [] else [img]
  | None => []
  end.

Definition service_strings (key : string) (svc : gmap string value) : list string :=
  match get_list key svc with Some l => nonempty_strings l | None => [] end.

Definition service_devices (svc : gmap string value) : list string :=
  filter (λ s, s ≠ "") ((λ d, TrimSpace (before colon d)) <$> service_strings "devices" svc).

(** The source of one entry of a service's [volumes] list. *)
Definition short_volume_source (volStr : string) : string :=
  let volStr := TrimSpace volStr in
  let volStr := TrimPrefix volStr "-" in
  let volStr := TrimSpace volStr in
  let volStr := Trim volStr [dquote; squote] in
  match Split colon volStr with
  | [] => ""
  | [part] => let p := TrimSpace part in if isHostPath p then p else ""
  | part :: _ => TrimSpace part
  end.

Definition volume_source (volRaw : value) : string :=
  match volRaw with
  | VStr volStr => short_volume_source volStr
  | VMap vol => default "" (get_str "source" vol)
  | _ => ""
  end.

Definition service_volumes (svc : gmap string value) : list string :=
  match get_list "volumes" svc with
  | Some vols => filter (λ s, s ≠ "") (volume_source <$> vols)
  | None => []
  end.

Definition service_networks (svc : gmap string value) : list string :=
  match svc !! "networks" with
  | Some (VMap nets) => sorted_keys nets
  | Some (VList netsList) => nonempty_strings netsList
  | _ => []
  end.

Definition uses_host (key : string) (svc : gmap string value) : bool :=
  bool_decide (get_str key svc = Some "host").

Definition is_privileged (svc : gmap string value) : bool :=
  bool_decide (get_bool "privileged" svc = Some true).

(** The services of a config in sorted order; entries that are not maps are skipped. *)
Definition sorted_services (configMap : gmap string value) : list (string * gmap string value) :=
  match get_map "services" configMap with
  | None => []
  | Some svcs => omap (λ name, pair name <$> get_map name svcs) (sorted_keys svcs)
  end.

Definition extractComposeRefs (configMap : gmap string value) : composeRefs :=
  let svcs := sorted_services configMap in
  let collect (f : gmap string value → list string) :=
    svcs ≫= λ s, own s.1 (f s.2) in
  let select (f : gmap string value → bool) := (filter (λ s, f s.2 = true) svcs).*1 in
  let vols := collect service_volumes in
  let devs := collect service_devices in
  let namedVolumeRefs := filter (λ r, isHostPath (Value r) = false) vols in
  let devicesByName := namedVolumeDevices configMap in
  let resolvedVolumeDevices :=
    omap (λ r, Build_ownedRef (Service r) <$> devicesByName !! Value r) namedVolumeRefs in
  {| images := collect service_images;
     volumes := vols;
     networks := collect service_networks;
     privilegedServices := select is_privileged;
     hostNetworkServices := select (uses_host "network_mode");
     hostPIDServices := select (uses_host "pid");
     hostIPCServices := select (uses_host "ipc");
     capAdds := collect (service_strings "cap_add");
     securityOpts := collect (service_strings "security_opt");
     devices := devs;
     mounts := vols ++ devs ++ resolvedVolumeDevices |}.

(** ** Validation *)

(** The check that reports an error fixes the prefix of its message. *)
Inductive check :=
| CImages | CVolumes | CNetworks | CPrivileged | CHostNetwork | CHostPID | CHostIPC
| CDockerSocket | CCapAdd | CDevices | CSecurityOpt.

Definition message := (check * policy_error)%type.

Definition tag (c : check) (err : option policy_error) : option message := pair c <$> err.

Definition ValidateComposeConfig (p : WorkerPolicy) (configMap : gmap string value)
    : option message :=
  if Disabled p then None
  else
    let refs := extractComposeRefs configMap in
    tag CImages (ValidateImages p (values (images refs))) ;;?
    tag CVolumes (ValidateVolumes p (values (volumes refs))) ;;?
    first_err (λ net, tag CNetworks (ValidateNetwork p (Value net))) (networks refs) ;;?
    tag CPrivileged (ValidatePrivileged p (privilegedServices refs)) ;;?
    tag CHostNetwork (ValidateHostNetwork p (hostNetworkServices refs)) ;;?
    tag CHostPID (ValidateHostPID p (hostPIDServices refs)) ;;?
    tag CHostIPC (ValidateHostIPC p (hostIPCServices refs)) ;;?
    tag CDockerSocket (ValidateDockerSocket p (values (mounts refs))) ;;?
    tag CCapAdd (ValidateCapAdd p (values (capAdds refs))) ;;?
    tag CDevices (ValidateDevices p (values (devices refs))) ;;?
    tag CSecurityOpt (ValidateSecurityOpt p (values (securityOpts refs))).

Record Violation := {
  v_Check : check;
  v_Service : string;
  v_Subject : string;
  v_Message : message
}.

(** The closure [add] over the references of one kind. *)
Definition add (c : check) (validate : string → option policy_error) (ref : ownedRef)
    : option Violation :=
  (λ e, {| v_Check := c; v_Service := Service ref; v_Subject := Value ref; v_Message := (c, e) |})
    <$> validate (Value ref).

Definition own_self (services : list string) : list ownedRef :=
  (λ s, {| Service := s; Value := s |}) <$> services.

Definition ComposeViolations (p : WorkerPolicy) (configMap : gmap string value) : list Violation :=
  if Disabled p then []
  else
    let refs := extractComposeRefs configMap in
    omap (add CImages (λ v, ValidateImages p [v])) (images refs) ++
    omap (add CVolumes (λ v, ValidateVolumes p [v])) (volumes refs) ++
    omap (add CNetworks (ValidateNetwork p)) (networks refs) ++
    omap (add CPrivileged (λ v, ValidatePrivileged p [v])) (own_self (privilegedServices refs)) ++
    omap (add CHostNetwork (λ v, ValidateHostNetwork p [v])) (own_self (hostNetworkServices refs)) ++
    omap (add CHostPID (λ v, ValidateHostPID p [v])) (own_self (hostPIDServices refs)) ++
    omap (add CHostIPC (λ v, ValidateHostIPC p [v])) (own_self (hostIPCServices refs)) ++
    omap (add CDockerSocket (λ v, ValidateDockerSocket p [v])) (mounts refs) ++
    omap (add CCapAdd (λ v, ValidateCapAdd p [v])) (capAdds refs) ++
    omap (add CDevices (λ v, ValidateDevices p [v])) (devices refs) ++
    omap (add CSecurityOpt (λ v, ValidateSecurityOpt p [v])) (securityOpts refs).

(** ** Specification: what an accepted config promises about each service *)
Definition has_service (configMap : gmap string value) (name : string) (svc : gmap string value)
    : Prop :=
  ∃ svcs, get_map "services" configMap = Some svcs ∧ get_map name svcs = Some svc.

Definition image_permitted (p : WorkerPolicy) (img : string) : Prop :=
  (PreventLatestImages p = true → isLatestOrUntagged img = false) ∧
  (AllowedImages p ≠ [] → ∃ pat, pat ∈ AllowedImages p ∧ matchPattern pat img = true).

Definition listed (allowed : list string) (x : string) : Prop := allowed ≠ [] → x ∈ allowed.

Definition mount_permitted (p : WorkerPolicy) (m : string) : Prop :=
  BlockDockerSocket p = true → ∀ s, s ∈ dockerSocketPaths → ¬ inside (before colon m) s.

(** The host path behind a named volume: [volumes.<name>.driver_opts.device]. *)
Definition named_device (configMap : gmap string value) (name dev : string) : Prop :=
  ∃ vols def opts, configMap !! "volumes" = Some (VMap vols) ∧ vols !! name = Some (VMap def) ∧
    def !! "driver_opts" = Some (VMap opts) ∧ opts !! "device" = Some (VStr dev) ∧ dev ≠ "".

Definition joins_network (svc : gmap string value) (n : string) : Prop :=
  (∃ nets, svc !! "networks" = Some (VMap nets) ∧ is_Some (nets !! n)) ∨
  (∃ l, svc !! "networks" = Some (VList l) ∧ VStr n ∈ l).

(** The non-empty strings of a service's list. *)
Definition lists_string (svc : gmap string value) (key x : string) : Prop :=
  x ≠ "" ∧ ∃ l, svc !! key = Some (VList l) ∧ VStr x ∈ l.

(** The source of an entry of a service's volumes. *)
Definition mounts_source (svc : gmap string value) (src : string) : Prop :=
  src ≠ "" ∧ ∃ l entry, svc !! "volumes" = Some (VList l) ∧ entry ∈ l ∧
    match entry with
    | VStr short => short_volume_source short = src
    | VMap long => long !! "source" = Some (VStr src)
    | _ => False
    end.

(** What the validator asks of one service.  A volume source is held against the allowed
    volumes, the block of bind mounts and the docker socket; the host path a named volume
    stands for against the docker socket only. *)
Record service_permitted (p : WorkerPolicy) (configMap svc : gmap string value) : Prop := {
  sp_images : ∀ img, svc !! "image" = Some (VStr img) → img ≠ "" → image_permitted p img;
  sp_volumes : ∀ v, mounts_source svc v → volume_permitted p v ∧ mount_permitted p v;
  sp_named : ∀ v dev, mounts_source svc v → isHostPath v = false → named_device configMap v dev →
    mount_permitted p dev;
  sp_networks : ∀ n, joins_network svc n → n ≠ "" → listed (AllowedNetworks p) n;
  sp_privileged : svc !! "privileged" = Some (VBool true) → BlockPrivileged p = false;
  sp_host_network : svc !! "network_mode" = Some (VStr "host") → BlockHostNetwork p = false;
  sp_host_pid : svc !! "pid" = Some (VStr "host") → BlockHostPID p = false;
  sp_host_ipc : svc !! "ipc" = Some (VStr "host") → BlockHostIPC p = false;
  sp_cap_add : ∀ c, lists_string svc "cap_add" c → listed (AllowedCapAdd p) c;
  sp_devices : ∀ d, lists_string svc "devices" d → TrimSpace (before colon d) ≠ "" →
    listed (AllowedDevices p) (TrimSpace (before colon d)) ∧ mount_permitted p (TrimSpace (before colon d));
  sp_security_opt : ∀ o, lists_string svc "security_opt" o → listed (AllowedSecurityOpt p) o
}.

(** The same in terms of what the code extracts from a service. *)
Record service_checked (p : WorkerPolicy) (configMap svc : gmap string value) : Prop := {
  sc_images : ∀ img, img ∈ service_images svc → image_permitted p img;
  sc_volumes : ∀ v, v ∈ service_volumes svc → volume_permitted p v ∧ mount_permitted p v;
  sc_named : ∀ v dev, v ∈ service_volumes svc → isHostPath v = false →
    namedVolumeDevices configMap !! v = Some dev → mount_permitted p dev;
  sc_networks : ∀ n, n ∈ service_networks svc → n ≠ "" → listed (AllowedNetworks p) n;
  sc_privileged : get_bool "privileged" svc = Some true → BlockPrivileged p = false;
  sc_host_network : get_str "network_mode" svc = Some "host" → BlockHostNetwork p = false;
  sc_host_pid : get_str "pid" svc = Some "host" → BlockHostPID p = false;
  sc_host_ipc : get_str "ipc" svc = Some "host" → BlockHostIPC p = false;
  sc_cap_add : ∀ c, c ∈ service_strings "cap_add" svc → listed (AllowedCapAdd p) c;
  sc_devices : ∀ d, d ∈ service_devices svc → listed (AllowedDevices p) d ∧ mount_permitted p d;
  sc_security_opt : ∀ o, o ∈ service_strings "security_opt" svc → listed (AllowedSecurityOpt p) o
}.

(** ** Lemmas: one pass of a validator is its singleton runs in order *)
Lemma tag_None c e : tag c e = None ↔ e = None.
Proof. by destruct e. Qed.

Lemma tag_first_err {A} c (f : A → option policy_error) l :
  tag c (first_err f l) = first_err (λ x, tag c (f x)) l.
Proof. induction l as [|x l IH]; simpl; [done|]. rewrite -IH. by destruct (f x). Qed.

Lemma head_add c f refs :
  v_Message <$> head (omap (add c f) refs) = tag c (first_err f (values refs)).
Proof.
  rewrite tag_first_err. unfold values. rewrite first_err_map -first_err_head_omap.
  induction refs as [|r refs IH]; simpl; [done|]. rewrite -IH. unfold add, tag.
  by destruct (f (Value r)).
Qed.

Lemma values_own_self l : values (own_self l) = l.
Proof. unfold values, own_self. rewrite -list_fmap_compose. apply list_fmap_id. Qed.

Section singletons.
Context (p : WorkerPolicy).

Lemma ValidateImages_single l :
  ValidateImages p l = first_err (λ v, ValidateImages p [v]) l.
Proof.
  unfold ValidateImages. destruct (Disabled p); [by induction l|].
  apply first_err_ext. intros v _. simpl. by rewrite err_seq_None_r.
Qed.

Lemma ValidateVolumes_single l :
  ValidateVolumes p l = first_err (λ v, ValidateVolumes p [v]) l.
Proof.
  unfold ValidateVolumes. destruct (Disabled p); [by induction l|].
  apply first_err_ext. intros v _. simpl. by rewrite err_seq_None_r.
Qed.

Lemma ValidateDockerSocket_single l :
  ValidateDockerSocket p l = first_err (λ v, ValidateDockerSocket p [v]) l.
Proof.
  unfold ValidateDockerSocket. destruct (_ || _); [by induction l|].
  apply first_err_ext. intros v _. simpl. by rewrite err_seq_None_r.
Qed.

Lemma list_check_single d a mk l :
  list_check d a mk l = first_err (λ v, list_check d a mk [v]) l.
Proof.
  unfold list_check. destruct (_ || _); [by induction l|].
  apply first_err_ext. intros v _. simpl. by rewrite err_seq_None_r.
Qed.

Lemma service_check_single d b mk l :
  service_check d b mk l = first_err (λ v, service_check d b mk [v]) l.
Proof. unfold service_check. destruct (_ || _); [by induction l|]. by destruct l. Qed.
End singletons.

Lemma validate_head (p : WorkerPolicy) (configMap : gmap string value) :
  ValidateComposeConfig p configMap = v_Message <$> head (ComposeViolations p configMap).
Proof.
  unfold ValidateComposeConfig, ComposeViolations. destruct (Disabled p); [done|].
  set (refs := extractComposeRefs configMap). rewrite -!head_fmap !fmap_app !head_app_seq.
  rewrite !head_fmap !head_add !values_own_self.
  rewrite -ValidateImages_single -ValidateVolumes_single -ValidateDockerSocket_single.
  unfold ValidatePrivileged, ValidateHostNetwork, ValidateHostPID, ValidateHostIPC,
    ValidateCapAdd, ValidateDevices, ValidateSecurityOpt.
  rewrite -!service_check_single -!list_check_single.
  by rewrite (tag_first_err CNetworks) /values first_err_map.
Qed.

(** [ValidateComposeConfig] reports exactly the first entry of
    [ComposeViolations], message included, and accepts exactly when that list
    is empty: failing fast and reporting everything cannot disagree. *)
Theorem validate_is_first_violation (p : WorkerPolicy) (configMap : gmap string value) :
  ValidateComposeConfig p configMap = v_Message <$> head (ComposeViolations p configMap).
Proof. apply validate_head. Qed.

(** ** Lemmas: extraction reaches every service *)
Lemma elem_of_sorted_services configMap name svc :
  (name, svc) ∈ sorted_services configMap ↔ has_service configMap name svc.
Proof.
  unfold sorted_services, has_service. destruct (get_map "services" configMap) as [svcs|].
  - rewrite list_elem_of_omap. split.
    + intros (n & _ & Hn). destruct (get_map n svcs) eqn:E; simplify_eq/=. eauto.
    + intros (svcs' & ? & Hn); simplify_eq. exists name. rewrite Hn. split; [|done].
      apply elem_of_sorted_keys. apply get_map_Some in Hn. eauto.
  - rewrite elem_of_nil. naive_solver.
Qed.

Section extraction.
Context (configMap : gmap string value).
Abbreviation svcs := (sorted_services configMap).

Lemma elem_of_collect f v :
  v ∈ values (svcs ≫= λ s, own s.1 (f s.2)) ↔
  ∃ name svc, has_service configMap name svc ∧ v ∈ f svc.
Proof.
  unfold values, own. rewrite list_elem_of_fmap. setoid_rewrite list_elem_of_bind. split.
  - intros ([? v'] & -> & [name svc] & Hr & Hs). apply list_elem_of_fmap in Hr as (w & ? & ?).
    simplify_eq/=. apply elem_of_sorted_services in Hs. eauto.
  - intros (name & svc & Hs & Hv). exists (Build_ownedRef name v). split; [done|].
    exists (name, svc). split; [|by apply elem_of_sorted_services].
    apply list_elem_of_fmap. eauto.
Qed.

Lemma select_nil (f : gmap string value → bool) :
  (filter (λ s, f s.2 = true) svcs).*1 = [] ↔
  ∀ name svc, has_service configMap name svc → f svc = false.
Proof.
  split.
  - intros Hn name svc Hs. apply elem_of_sorted_services in Hs.
    destruct (f svc) eqn:Hf; [|done]. exfalso.
    assert (name ∈ (filter (λ s, f s.2 = true) svcs).*1) as Hin; [|by rewrite Hn in Hin; apply elem_of_nil in Hin].
    apply list_elem_of_fmap. exists (name, svc). split; [done|]. by apply list_elem_of_filter.
  - intros H. destruct (filter _ svcs) as [|[name svc] l] eqn:Hf; [done|]. exfalso.
    assert ((name, svc) ∈ filter (λ s, f s.2 = true) svcs) as [Ht Hin]%list_elem_of_filter
      by (rewrite Hf; by constructor).
    apply elem_of_sorted_services in Hin. rewrite (H name svc Hin) in Ht. done.
Qed.

Lemma elem_of_mounts v : v ∈ values (mounts (extractComposeRefs configMap)) ↔
  ∃ name svc, has_service configMap name svc ∧
    (v ∈ service_volumes svc ∨ v ∈ service_devices svc ∨
     ∃ w, w ∈ service_volumes svc ∧ isHostPath w = false ∧ namedVolumeDevices configMap !! w = Some v).
Proof.
  unfold extractComposeRefs. simpl. unfold values. rewrite !fmap_app !elem_of_app.
  pose proof (elem_of_collect service_volumes v) as Hv.
  pose proof (elem_of_collect service_devices v) as Hd. unfold values in Hv, Hd.
  rewrite Hv Hd.
  assert (v ∈ Value <$> omap (λ r, Build_ownedRef (Service r) <$> namedVolumeDevices configMap !! Value r)
      (filter (λ r, isHostPath (Value r) = false) (svcs ≫= λ s, own s.1 (service_volumes s.2))) ↔
    ∃ name svc, has_service configMap name svc ∧ ∃ w, w ∈ service_volumes svc ∧
      isHostPath w = false ∧ namedVolumeDevices configMap !! w = Some v) as ->; [|naive_solver].
  rewrite list_elem_of_fmap. setoid_rewrite list_elem_of_omap. setoid_rewrite list_elem_of_filter.
  split.
  - intros (r & -> & r' & [Hh Hr'] & Heq).
    destruct (namedVolumeDevices configMap !! Value r') as [dev|] eqn:Hdev; simplify_eq/=.
    assert (Value r' ∈ values (svcs ≫= λ s, own s.1 (service_volumes s.2))) as Hin
      by (apply list_elem_of_fmap; eauto).
    apply elem_of_collect in Hin as (name & svc & ? & ?). eauto 8.
  - intros (name & svc & Hs & w & Hw & Hh & Hdev).
    exists (Build_ownedRef name v). split; [done|]. exists (Build_ownedRef name w).
    simpl. rewrite Hdev. split; [|done]. split; [done|].
    apply list_elem_of_bind. exists (name, svc). split; [|by apply elem_of_sorted_services].
    apply list_elem_of_fmap. eauto.
Qed.
End extraction.

(** ** Lemmas: each validator on a live policy *)
Section live.
Context (p : WorkerPolicy) (Hlive : Disabled p = false).

Lemma images_None l : ValidateImages p l = None ↔ ∀ v, v ∈ l → image_permitted p v.
Proof. rewrite ValidateImages_None Hlive. unfold image_permitted. naive_solver. Qed.

Lemma volumes_None l : ValidateVolumes p l = None ↔ ∀ v, v ∈ l → volume_permitted p v.
Proof.
  rewrite ValidateVolumes_None Hlive first_err_None. setoid_rewrite validateSingleVolume_None.
  naive_solver.
Qed.

Lemma socket_None l : ValidateDockerSocket p l = None ↔ ∀ m, m ∈ l → mount_permitted p m.
Proof.
  unfold ValidateDockerSocket, mount_permitted. rewrite Hlive /=.
  destruct (BlockDockerSocket p); simpl; [|naive_solver]. rewrite first_err_None.
  split; intros H m Hm; specialize (H m Hm).
  - intros _ s Hs Hin. by rewrite (proj2 (exposesDockerSocket_spec m)) in H; [|eauto].
  - destruct (exposesDockerSocket m) eqn:He; [|done].
    apply exposesDockerSocket_spec in He as (s & Hs & Hin). by destruct (H eq_refl s Hs).
Qed.

Lemma network_None n : ValidateNetwork p n = None ↔ (n ≠ "" → listed (AllowedNetworks p) n).
Proof.
  unfold ValidateNetwork, listed. rewrite Hlive. case_decide; [naive_solver|].
  destruct (AllowedNetworks p) as [|a l] eqn:Ha; [naive_solver|].
  rewrite existsb_guard. setoid_rewrite bool_decide_eq_true. naive_solver.
Qed.

Lemma service_check_None b mk l : service_check (Disabled p) b mk l = None ↔ (l ≠ [] → b = false).
Proof. unfold service_check. rewrite Hlive /=. destruct b, l; naive_solver. Qed.

Lemma list_check_None a mk l :
  list_check (Disabled p) a mk l = None ↔ ∀ x, x ∈ l → listed a x.
Proof.
  unfold list_check, listed. rewrite Hlive /=. case_bool_decide as Ha; [naive_solver|].
  rewrite first_err_None. setoid_rewrite <- stringInList_spec.
  split; intros H x Hx; specialize (H x Hx); destruct (stringInList x a); naive_solver.
Qed.
End live.

(** A flag check over the selected services, service by service. *)
Lemma select_check (configMap : gmap string value) (f : gmap string value → bool) (b : bool) :
  ((filter (λ s, f s.2 = true) (sorted_services configMap)).*1 ≠ [] → b = false) ↔
  ∀ name svc, has_service configMap name svc → f svc = true → b = false.
Proof.
  rewrite select_nil. split.
  - intros H name svc Hs Hf. apply H. intros Hall. by rewrite (Hall name svc Hs) in Hf.
  - intros H Hn. destruct b; [|done]. exfalso. apply Hn. intros name svc Hs.
    destruct (f svc) eqn:Hf; [|done]. by specialize (H name svc Hs Hf).
Qed.

Lemma collect_all (configMap : gmap string value) f (P : string → Prop) :
  (∀ v, v ∈ values (sorted_services configMap ≫= λ s, own s.1 (f s.2)) → P v) ↔
  ∀ name svc, has_service configMap name svc → ∀ v, v ∈ f svc → P v.
Proof. setoid_rewrite elem_of_collect. naive_solver. Qed.

Lemma uses_host_true key svc : uses_host key svc = true ↔ get_str key svc = Some "host".
Proof. apply bool_decide_eq_true. Qed.

Lemma is_privileged_true svc : is_privileged svc = true ↔ get_bool "privileged" svc = Some true.
Proof. apply bool_decide_eq_true. Qed.

Lemma compose_config_checked (p : WorkerPolicy) (configMap : gmap string value) :
  Disabled p = false →
  ValidateComposeConfig p configMap = None ↔
  ∀ name svc, has_service configMap name svc → service_checked p configMap svc.
Proof.
  intros Hd. unfold ValidateComposeConfig. rewrite Hd.
  rewrite !err_seq_None !tag_None first_err_None. setoid_rewrite tag_None.
  rewrite images_None // volumes_None // socket_None //.
  unfold ValidatePrivileged, ValidateHostNetwork, ValidateHostPID, ValidateHostIPC,
    ValidateCapAdd, ValidateDevices, ValidateSecurityOpt.
  rewrite !service_check_None // !list_check_None //.
  setoid_rewrite network_None; [|done..]. setoid_rewrite elem_of_mounts.
  simpl. rewrite !select_check !collect_all. setoid_rewrite uses_host_true.
  setoid_rewrite is_privileged_true.
  assert ((∀ x, x ∈ sorted_services configMap ≫= (λ s, own s.1 (service_networks s.2)) →
              Value x ≠ "" → listed (AllowedNetworks p) (Value x)) ↔
          ∀ name svc, has_service configMap name svc → ∀ n, n ∈ service_networks svc →
              n ≠ "" → listed (AllowedNetworks p) n) as ->.
  { rewrite -(collect_all configMap service_networks (λ n, n ≠ "" → listed (AllowedNetworks p) n)).
    unfold values. setoid_rewrite list_elem_of_fmap. naive_solver. }
  split.
  - intros (Hi & Hv & Hn & Hp & Hnet & Hpid & Hipc & Hm & Hc & Hdev & Hso) name svc Hs.
    constructor.
    + apply (Hi _ _ Hs).
    + intros v Hvv. split; [apply (Hv _ _ Hs v Hvv)|]. apply Hm. exists name, svc. auto.
    + intros v dev Hvv Hh Hl. apply Hm. exists name, svc. split; [done|]. right; right. by exists v.
    + apply (Hn _ _ Hs).
    + apply (Hp _ _ Hs).
    + apply (Hnet _ _ Hs).
    + apply (Hpid _ _ Hs).
    + apply (Hipc _ _ Hs).
    + apply (Hc _ _ Hs).
    + intros d Hdd. split; [apply (Hdev _ _ Hs d Hdd)|]. apply Hm. exists name, svc. auto.
    + apply (Hso _ _ Hs).
  - intros H. split_and!; try (intros name svc Hs; by apply (H name svc Hs)).
    intros m (name & svc & Hs & Hm). destruct (H name svc Hs) as [_ Hv Hn _ _ _ _ _ _ Hdev _].
    destruct Hm as [Hm|[Hm|(w & Hw & Hh & Hl)]].
    + by apply Hv.
    + by apply Hdev.
    + by apply (Hn w).
Qed.

Lemma service_volumes_spec svc v : v ∈ service_volumes svc ↔ mounts_source svc v.
Proof.
  unfold service_volumes, mounts_source, get_list. destruct (svc !! "volumes") as [[]|] eqn:E; simpl; try set_solver.
  rewrite list_elem_of_filter list_elem_of_fmap. split.
  - intros (Hne & e & -> & He). split; [done|]. eexists _, e. split; [done|]. split; [done|].
    destruct e; simpl in *; try done. unfold get_str in *. destruct (_ !! "source") as [[]|]; done.
  - intros (Hne & l' & e & [= <-] & He & Hs). split; [done|]. exists e. split; [|done].
    destruct e; simpl in *; try done. unfold get_str. by rewrite Hs.
Qed.

Lemma service_strings_spec key svc x : x ∈ service_strings key svc ↔ lists_string svc key x.
Proof.
  unfold service_strings, lists_string, get_list. destruct (svc !! key) as [[]|] eqn:E; simpl; try set_solver.
  rewrite elem_of_nonempty_strings. naive_solver.
Qed.

Lemma service_networks_spec svc n : n ≠ "" → n ∈ service_networks svc ↔ joins_network svc n.
Proof.
  intros Hn. unfold service_networks, joins_network.
  destruct (svc !! "networks") as [[]|] eqn:E; try (split; [set_solver|naive_solver]).
  - rewrite elem_of_nonempty_strings. naive_solver.
  - rewrite elem_of_sorted_keys. naive_solver.
Qed.

Lemma namedVolumeDevices_spec configMap name dev :
  namedVolumeDevices configMap !! name = Some dev ↔ named_device configMap name dev.
Proof.
  unfold namedVolumeDevices, named_device, get_map.
  destruct (configMap !! "volumes") as [[]|]; try (split; [done|naive_solver]).
  cbn [mbind option_bind]. rewrite lookup_omap. split.
  - intros (def & Hd & Hv)%bind_Some. unfold volume_device in Hv.
    apply bind_Some in Hv as (d & Hdm & Hv). apply bind_Some in Hv as (opts & Ho & Hv).
    apply bind_Some in Hv as (device & Hdev & Hv). case_decide; simplify_eq.
    apply get_map_Some in Ho. apply get_str_Some in Hdev.
    destruct def; simplify_eq/=. naive_solver.
  - intros (vols & def & opts & [= <-] & Hv & Ho & Hd & Hne). rewrite Hv. cbn [mbind option_bind].
    unfold volume_device. cbn [as_map mbind option_bind].
    rewrite (proj2 (get_map_Some _ _ _) Ho). cbn [mbind option_bind].
    rewrite (proj2 (get_str_Some _ _ _) Hd). cbn [mbind option_bind]. by rewrite decide_False.
Qed.

Lemma service_checked_permitted p configMap svc :
  service_checked p configMap svc ↔ service_permitted p configMap svc.
Proof.
  assert (∀ d, d ∈ service_devices svc ↔ d ≠ "" ∧ ∃ x, lists_string svc "devices" x ∧ d = TrimSpace (before colon x)) as Hd.
  { intros d. unfold service_devices. rewrite list_elem_of_filter list_elem_of_fmap.
    setoid_rewrite service_strings_spec. naive_solver. }
  assert (∀ img, img ∈ service_images svc ↔ img ≠ "" ∧ svc !! "image" = Some (VStr img)) as Hi.
  { intros img. unfold service_images, get_str. destruct (svc !! "image") as [[]|]; simpl; try case_decide; set_solver. }
  split; intros [H1 H2 H3 H4 H5 H6 H7 H8 H9 H10 H11]; split.
  all: try (rewrite -get_str_Some; done).
  all: try (rewrite get_str_Some; done).
  all: try (intros x; rewrite -service_strings_spec; auto; done).
  all: try (intros x; rewrite service_strings_spec; auto; done).
  - intros img E Hne. apply H1, Hi. done.
  - intros v Hv. apply H2. by apply service_volumes_spec.
  - intros v dev Hv Hh Hn. apply (H3 v); [by apply service_volumes_spec|done|by apply namedVolumeDevices_spec].
  - intros n Hj Hne. apply H4; [by apply service_networks_spec|done].
  - intros Hb. apply H5. unfold get_bool. by rewrite Hb.
  - intros d Hl Hne. apply H10, Hd. eauto.
  - intros img [? ?]%Hi. by apply H1.
  - intros v ?%service_volumes_spec. auto.
  - intros v dev ?%service_volumes_spec Hh ?%namedVolumeDevices_spec. eauto.
  - intros n Hn Hne. apply H4; [by apply service_networks_spec|done].
  - intros Hb. apply H5. unfold get_bool in Hb. destruct (svc !! "privileged") as [[]|]; by simplify_eq/=.
  - intros d (Hne & x & Hx & ->)%Hd. auto.
Qed.

(** C1: On an enabled policy, [ValidateComposeConfig] accepts a compose config
    exactly when every service of it is permitted in its images, the sources of its
    volumes, devices, networks, capabilities, security options and host modes.  The host
    path behind a named volume ([driver_opts.device]) is held against the docker socket
    only, as [sp_named] says: neither the allowed volumes nor the block of bind mounts
    applies to it ([named_volume_hides_a_host_path]). *)
Theorem compose_config_exact (p : WorkerPolicy) (configMap : gmap string value) :
  Disabled p = false →
  ValidateComposeConfig p configMap = None ↔
  ∀ name svc, has_service configMap name svc → service_permitted p configMap svc.
Proof.
  intros Hd. rewrite compose_config_checked //. setoid_rewrite service_checked_permitted. done.
Qed.

Definition demo_config : gmap string value :=
  {["services" := VMap {["web" := VMap {["image" := VStr "nginx:1.27";
                                         "volumes" := VList [VStr "sock:/s"]]}]};
    "volumes" := VMap {["sock" := VMap {["driver_opts" :=
                                           VMap {["device" := VStr "/var/run"]}]}]}]}.

(** A named volume backed by the socket's directory is caught. *)
Lemma compose_config_exact_witness :
  ¬ ∀ name svc, has_service demo_config name svc → service_permitted socket_policy demo_config svc.
Proof.
  intros H. apply (compose_config_exact socket_policy demo_config) in H; [|reflexivity].
  vm_compute in H. discriminate.
Defined.

(** A policy that rejects bind mounts and allows one directory admits a service that mounts
    any other directory of the host through a named volume. *)
Theorem named_volume_hides_a_host_path :
  let p := {| Disabled := false; AllowedVolumes := ["/srv/data"; "data"]; AllowedNetworks := []; AllowedImages := []; AllowedCapAdd := [];
              AllowedDevices := []; AllowedSecurityOpt := []; PreventLatestImages := false; BlockHostVolumes := true; BlockPrivileged := true;
              BlockHostNetwork := true; BlockHostPID := true; BlockHostIPC := true; BlockDockerSocket := true; AllowRenderOverrides := false |} in
  let config (source : string) : gmap string value :=
    {["services" := VMap {["web" := VMap {["volumes" := VList [VStr (source +:+ ":/mnt")]]}]};
      "volumes" := VMap {["data" := VMap {["driver_opts" := VMap {["device" := VStr "/etc"]}]}]}]} in
  ValidateComposeConfig p (config "data") = None ∧ ValidateComposeConfig p (config "/etc") ≠ None.
Proof. vm_compute. done. Qed.
