(* ===== verification/LintCore.v ===== *)
(** * internal/lint/lint.go: findings, reports and the rule runner

    Rules are pure functions from a decoded compose config to findings.  [Run]
    applies the registered rules in the order of their identifiers, counts the
    findings by severity and sorts them.  The runner takes the registry as an
    argument here; the rules and the registry itself are in LintRules. *)
From S2P Require Import Prelude GoStrings GoPath GoFmt GoValue Policy PolicyCompose.

(** ** Data *)
Inductive Severity := SeverityError | SeverityWarning | SeverityInfo.

#[global] Instance Severity_eq_dec : EqDecision Severity.
Proof. solve_decision. Defined.

Record Finding := {
  f_Rule : string; f_Title : string; f_Severity : Severity; f_Service : string;
  f_Path : string; f_Line : Z; f_Message : string; f_Hint : string; f_Vars : list string }.

(** A composite literal of the rules: the fields they leave unset are zero. *)
Definition finding (sev : Severity) (svc path msg hint : string) : Finding :=
  {| f_Rule := ""; f_Title := ""; f_Severity := sev; f_Service := svc; f_Path := path; f_Line := 0;
     f_Message := msg; f_Hint := hint; f_Vars := [] |}.

Definition with_rule (rule : string) (f : Finding) : Finding :=
  {| f_Rule := rule; f_Title := f_Title f; f_Severity := f_Severity f; f_Service := f_Service f;
     f_Path := f_Path f; f_Line := f_Line f; f_Message := f_Message f; f_Hint := f_Hint f; f_Vars := f_Vars f |}.

Definition with_title (title : string) (f : Finding) : Finding :=
  {| f_Rule := f_Rule f; f_Title := title; f_Severity := f_Severity f; f_Service := f_Service f;
     f_Path := f_Path f; f_Line := f_Line f; f_Message := f_Message f; f_Hint := f_Hint f; f_Vars := f_Vars f |}.

Definition with_vars (vars : list string) (f : Finding) : Finding :=
  {| f_Rule := f_Rule f; f_Title := f_Title f; f_Severity := f_Severity f; f_Service := f_Service f;
     f_Path := f_Path f; f_Line := f_Line f; f_Message := f_Message f; f_Hint := f_Hint f; f_Vars := vars |}.

Record Report := { Findings : list Finding; Errors : Z; Warnings : Z; Infos : Z }.

Definition HasErrors (r : Report) : bool := bool_decide (0 < Errors r)%Z.

Definition plural (n : Z) (word : string) : string :=
  let s := Itoa n +:+ " " +:+ word in
  if decide (n = 1)%Z then s else s +:+ "s".

Definition Summary (r : Report) : string :=
  if decide (Findings r = []) then "no findings"
  else Join ", "
    ((if decide (0 < Errors r)%Z then [plural (Errors r) "error"] else []) ++
     (if decide (0 < Warnings r)%Z then [plural (Warnings r) "warning"] else []) ++
     (if decide (0 < Infos r)%Z then [plural (Infos r) "info"] else [])).

(** ** The view of a config *)
Record Config := { Raw : gmap string value; Services : list (string * gmap string value) }.

Definition NewConfig (raw : gmap string value) : Config :=
  match get_map "services" raw with
  | None => {| Raw := raw; Services := [] |}
  | Some svcs =>
      {| Raw := raw; Services := omap (λ name, pair name <$> get_map name svcs) (sorted_keys svcs) |}
  end.

Definition topLevelKeys (c : Config) (block : string) : gset string :=
  match get_map block (Raw c) with
  | None => ∅
  | Some m => dom m
  end.

Record Context := {
  ctx_Policy : option WorkerPolicy;
  ctx_EnvKeys : option (gset string);
  ctx_RepoRoot : string }.

Definition policyBlocks (ctx : Context) (flag : WorkerPolicy → bool) : bool :=
  match ctx_Policy ctx with
  | None => false
  | Some p => if Disabled p then false else flag p
  end.

Definition EnvKeysFromPairs (pairs : list string) : gset string :=
  foldl (λ keys pair,
    match cut "="%char pair with
    | Some (key, _) => if decide (key = "") then keys else {[key]} ∪ keys
    | None => keys
    end) ∅ pairs.

(** ** Titles *)
Definition RuleLatestTag := "compose/latest-tag".
Definition RuleNoRestartPolicy := "compose/no-restart-policy".
Definition RuleNoHealthcheck := "compose/no-healthcheck".
Definition RuleNoResourceLimits := "compose/no-resource-limits".
Definition RulePublishedPortAllInterfaces := "compose/published-port-all-interfaces".
Definition RulePlaintextSecret := "compose/plaintext-secret".
Definition RuleRelativeBindMount := "compose/relative-bind-mount".
Definition RulePrivileged := "compose/privileged".
Definition RuleHostNamespace := "compose/host-namespace".
Definition RuleDockerSocket := "compose/docker-socket".
Definition RuleNoServices := "compose/no-services".
Definition RuleMissingImage := "compose/missing-image".
Definition RuleUndeclaredNetwork := "compose/undeclared-network".
Definition RuleUndeclaredVolume := "compose/undeclared-volume".
Definition RuleUnresolvedVariable := "compose/unresolved-variable".
Definition RuleObsoleteVersionKey := "compose/obsolete-version-key".
Definition RuleUnescapedConfigInterpolation := "compose/unescaped-config-interpolation".
Definition RulePolicyWorkerPolicy := "policy/worker-policy".

Definition ruleTitles : gmap string string := list_to_map [
  (RuleLatestTag, "Unpinned image tag");
  (RuleNoRestartPolicy, "No restart policy");
  (RuleNoHealthcheck, "No healthcheck");
  (RuleNoResourceLimits, "No resource limits");
  (RulePublishedPortAllInterfaces, "Port published on all interfaces");
  (RulePlaintextSecret, "Plaintext secret");
  (RuleRelativeBindMount, "Relative bind mount");
  (RulePrivileged, "Privileged container");
  (RuleHostNamespace, "Host namespace shared");
  (RuleDockerSocket, "Docker socket mounted");
  (RuleNoServices, "No services defined");
  (RuleMissingImage, "Missing image");
  (RuleUndeclaredNetwork, "Undeclared network");
  (RuleUndeclaredVolume, "Undeclared volume");
  (RuleUnresolvedVariable, "Unresolved variable");
  (RuleObsoleteVersionKey, "Obsolete version key");
  (RuleUnescapedConfigInterpolation, "Unescaped config interpolation");
  ("policy/images", "Image blocked by policy");
  ("policy/volumes", "Volume blocked by policy");
  ("policy/networks", "Network blocked by policy");
  ("policy/privileged", "Privileged blocked by policy");
  ("policy/host_network", "Host network blocked by policy");
  ("policy/host_pid", "Host PID blocked by policy");
  ("policy/host_ipc", "Host IPC blocked by policy");
  ("policy/docker_socket", "Docker socket blocked by policy");
  ("policy/cap_add", "Capability addition blocked by policy");
  ("policy/devices", "Device mount blocked by policy");
  ("policy/security_opt", "Security option blocked by policy") ].

(** [strings.NewReplacer("-", " ", "_", " ")]. *)
Fixpoint dashes_to_spaces (s : string) : string :=
  match s with
  | EmptyString => EmptyString
  | String a s => String (if decide (a = "-"%char ∨ a = "_"%char) then " "%char else a) (dashes_to_spaces s)
  end.

Definition humanizeRule (rule : string) : string :=
  let slug := match rcut slash rule with Some (_, r) => r | None => rule end in
  match dashes_to_spaces slug with
  | EmptyString => EmptyString
  | String a rest => ToUpper (String a "") +:+ rest
  end.

Definition titleForRule (rule : string) : string :=
  match ruleTitles !! rule with Some title => title | None => humanizeRule rule end.

Definition severityRank (s : Severity) : Z :=
  match s with SeverityError => 0 | SeverityWarning => 1 | SeverityInfo => 2 end.

(** ** Stable sorting

    [sort.SliceStable]: insertion from the right, an element staying before
    those it is not greater than. *)
Section stable_sort.
Context {A : Type} (less : A → A → bool).

Fixpoint insert_stable (x : A) (l : list A) : list A :=
  match l with
  | [] => [x]
  | y :: l' => if less y x then y :: insert_stable x l' else x :: l
  end.

Definition SliceStable (l : list A) : list A := foldr insert_stable [] l.

Lemma insert_stable_perm x l : insert_stable x l ≡ₚ x :: l.
Proof.
  induction l as [|y l IH]; simpl; [done|]. destruct (less y x); [|done]. rewrite IH. constructor.
Qed.

Lemma SliceStable_perm l : SliceStable l ≡ₚ l.
Proof. induction l as [|x l IH]; simpl; [done|]. by rewrite insert_stable_perm IH. Qed.

(** Nothing is less than what precedes it. *)
Definition in_order (l : list A) : Prop := StronglySorted (λ a b, less b a = false) l.

Hypothesis less_trans : ∀ a b c, less b a = false → less c b = false → less c a = false.
Hypothesis less_asym : ∀ a b, less a b = true → less b a = false.

Lemma insert_stable_sorted x l : in_order l → in_order (insert_stable x l).
Proof.
  unfold in_order. induction 1 as [|y l Hl IH Hy]; simpl; [repeat constructor|].
  destruct (less y x) eqn:Hyx; constructor; auto.
  - rewrite Forall_forall. intros z. rewrite insert_stable_perm elem_of_cons. intros [->|Hz]; [by apply less_asym|].
    by apply (proj1 (Forall_forall _ _) Hy).
  - by constructor.
  - constructor; [done|]. eapply Forall_impl; [exact Hy|]. intros z Hz. by apply (less_trans x y z).
Qed.

Lemma SliceStable_sorted l : in_order (SliceStable l).
Proof. induction l as [|x l IH]; simpl; [constructor|]. by apply insert_stable_sorted. Qed.

(** Elements of which none is less than another keep their order. *)
Lemma insert_stable_filter (P : A → Prop) `{∀ a, Decision (P a)} x l :
  (∀ a b, P a → P b → less a b = false) → filter P (insert_stable x l) = filter P (x :: l).
Proof.
  intros HP. induction l as [|y l IH]; [done|]. cbn [insert_stable]. destruct (less y x) eqn:Hyx; [|done].
  rewrite !filter_cons. rewrite IH filter_cons. destruct (decide (P x)), (decide (P y)); try done.
  by rewrite (HP y x) in Hyx.
Qed.

Lemma SliceStable_stable (P : A → Prop) `{∀ a, Decision (P a)} l :
  (∀ a b, P a → P b → less a b = false) → filter P (SliceStable l) = filter P l.
Proof.
  intros HP. induction l as [|x l IH]; [done|]. cbn [SliceStable foldr]. rewrite insert_stable_filter; [|done].
  rewrite !filter_cons. unfold SliceStable in IH. by rewrite IH.
Qed.
End stable_sort.

(** ** The runner *)
Definition rule := (string * (Config → Context → list Finding))%type.

Definition string_lt (a b : string) : bool := negb (bool_decide (strings.String.le b a)).

(** [sort.Slice] over rule identifiers; they are pairwise different, so that
    it leaves no choice. *)
Definition by_id (registry : list rule) : list rule := SliceStable (λ a b, string_lt a.1 b.1) registry.

(** The identifiers in the order of application. *)
Definition Rules (registry : list rule) : list string := sort_strings registry.*1.

(** One finding as the runner stores it. *)
Definition complete (id : string) (f : Finding) : Finding :=
  let f := if decide (f_Rule f = "") then with_rule id f else f in
  if decide (f_Title f = "") then with_title (titleForRule (f_Rule f)) f else f.

Definition count_finding (r : Report) (f : Finding) : Report :=
  match f_Severity f with
  | SeverityError =>
      {| Findings := Findings r ++ [f]; Errors := Errors r + 1; Warnings := Warnings r; Infos := Infos r |}
  | SeverityWarning =>
      {| Findings := Findings r ++ [f]; Errors := Errors r; Warnings := Warnings r + 1; Infos := Infos r |}
  | SeverityInfo =>
      {| Findings := Findings r ++ [f]; Errors := Errors r; Warnings := Warnings r; Infos := Infos r + 1 |}
  end.

Definition finding_less (a b : Finding) : bool :=
  if decide (severityRank (f_Severity a) ≠ severityRank (f_Severity b))
  then bool_decide (severityRank (f_Severity a) < severityRank (f_Severity b))%Z
  else if decide (f_Rule a ≠ f_Rule b) then string_lt (f_Rule a) (f_Rule b)
  else string_lt (f_Service a) (f_Service b).

Definition RunWith (registry : list rule) (raw : gmap string value) (ctx : Context) : Report :=
  let cfg := NewConfig raw in
  let report :=
    foldl (λ r rule, foldl (λ r f, count_finding r (complete rule.1 f)) r (rule.2 cfg ctx))
      {| Findings := []; Errors := 0; Warnings := 0; Infos := 0 |} (by_id registry) in
  {| Findings := SliceStable finding_less (Findings report);
     Errors := Errors report; Warnings := Warnings report; Infos := Infos report |}.

(** ** Orders *)
Lemma string_lt_false a b : string_lt a b = false ↔ strings.String.le b a.
Proof. unfold string_lt. by rewrite negb_false_iff bool_decide_eq_true. Qed.

Lemma string_lt_asym a b : string_lt a b = true → string_lt b a = false.
Proof.
  unfold string_lt. rewrite negb_true_iff bool_decide_eq_false string_lt_false. intros Hn.
  by destruct (total strings.String.le a b).
Qed.

Lemma string_lt_trans a b c : string_lt b a = false → string_lt c b = false → string_lt c a = false.
Proof. rewrite !string_lt_false. intros. by etrans. Qed.

(** What [finding_less] orders by. *)
Definition key_le (a b : Finding) : Prop :=
  (severityRank (f_Severity a) < severityRank (f_Severity b))%Z
  ∨ f_Severity a = f_Severity b
    ∧ (f_Rule a ≠ f_Rule b ∧ strings.String.le (f_Rule a) (f_Rule b)
       ∨ f_Rule a = f_Rule b ∧ strings.String.le (f_Service a) (f_Service b)).

Lemma severityRank_inj s s' : severityRank s = severityRank s' → s = s'.
Proof. by destruct s, s'. Qed.

Lemma finding_less_false a b : finding_less b a = false ↔ key_le a b.
Proof.
  unfold finding_less, key_le. destruct (decide (severityRank (f_Severity b) ≠ severityRank (f_Severity a))) as [Hr|Hr].
  - rewrite bool_decide_eq_false. split; [intros; left; lia|]. intros [?|[Heq _]]; [lia|]. by rewrite Heq in Hr.
  - apply dec_stable in Hr. pose proof (severityRank_inj _ _ Hr) as Hs.
    destruct (decide (f_Rule b ≠ f_Rule a)) as [Hn|Hn]; rewrite string_lt_false.
    + split; [intros; right; split; [done|left]; by split|].
      intros [?|[_ [[_ ?]|[? _]]]]; [lia|done|congruence].
    + apply dec_stable in Hn. split; [intros; right; split; [done|right]; by split|].
      intros [?|[_ [[? _]|[_ ?]]]]; [lia|congruence|done].
Qed.

Lemma key_le_trans a b c : key_le a b → key_le b c → key_le a c.
Proof.
  unfold key_le. intros [?|[Hs1 H1]] [?|[Hs2 H2]]; [left; lia|left; rewrite -Hs2; done|left; rewrite Hs1; done|].
  right. split; [congruence|].
  destruct H1 as [[Hn1 Hr1]|[He1 Hv1]], H2 as [[Hn2 Hr2]|[He2 Hv2]].
  - left. assert (strings.String.le (f_Rule a) (f_Rule c)) by (by etrans). split; [|done]. intros Heq.
    apply Hn2. rewrite Heq in Hr1. by apply (anti_symm strings.String.le).
  - left. by rewrite -He2.
  - left. by rewrite He1.
  - right. split; [congruence|]. by etrans.
Qed.

Lemma key_le_total a b : key_le a b ∨ key_le b a.
Proof.
  unfold key_le.
  destruct (Z.lt_trichotomy (severityRank (f_Severity a)) (severityRank (f_Severity b))) as [?|[Hs%severityRank_inj|?]];
    [auto| |auto].
  destruct (decide (f_Rule a = f_Rule b)) as [Hr|Hr].
  - destruct (total strings.String.le (f_Service a) (f_Service b)); [left|right]; right; split; auto.
  - destruct (total strings.String.le (f_Rule a) (f_Rule b)); [left|right]; right; split; auto.
Qed.

Lemma finding_less_trans a b c :
  finding_less b a = false → finding_less c b = false → finding_less c a = false.
Proof. rewrite !finding_less_false. apply key_le_trans. Qed.

Lemma finding_less_asym a b : finding_less a b = true → finding_less b a = false.
Proof.
  intros Hab. rewrite finding_less_false. destruct (key_le_total a b) as [?|Hba]; [done|].
  apply finding_less_false in Hba. congruence.
Qed.

(** ** What the runner reports *)
Definition all_findings (registry : list rule) (raw : gmap string value) (ctx : Context) : list Finding :=
  by_id registry ≫= λ r, complete r.1 <$> r.2 (NewConfig raw) ctx.

Definition count_sev (s : Severity) (l : list Finding) : Z :=
  Z.of_nat (length (filter (λ f, f_Severity f = s) l)).

Lemma count_sev_snoc s l f : count_sev s (l ++ [f]) = (count_sev s l + if decide (f_Severity f = s) then 1 else 0)%Z.
Proof. unfold count_sev. rewrite filter_app filter_cons filter_nil length_app. case_decide; simpl; lia. Qed.

(** A report whose counts are those of its findings. *)
Definition counted (l : list Finding) : Report :=
  {| Findings := l; Errors := count_sev SeverityError l; Warnings := count_sev SeverityWarning l;
     Infos := count_sev SeverityInfo l |}.

Lemma count_finding_counted l f : count_finding (counted l) f = counted (l ++ [f]).
Proof.
  unfold count_finding, counted. simpl. rewrite !count_sev_snoc.
  destruct (f_Severity f); simpl; f_equal; lia.
Qed.

Lemma foldl_counted {A} (g : A → list Finding) (xs : list A) l :
  foldl (λ r x, foldl count_finding r (g x)) (counted l) xs = counted (l ++ (xs ≫= g)).
Proof.
  assert (∀ fs l, foldl count_finding (counted l) fs = counted (l ++ fs)) as Hfs.
  { intros fs. induction fs as [|f fs IH]; intros l'; simpl; [by rewrite app_nil_r|].
    by rewrite count_finding_counted IH -app_assoc. }
  revert l. induction xs as [|x xs IH]; intros l; simpl; [by rewrite app_nil_r|].
  by rewrite Hfs IH -app_assoc.
Qed.

Lemma foldl_fmap_count id fs r :
  foldl (λ r f, count_finding r (complete id f)) r fs = foldl count_finding r (complete id <$> fs).
Proof. revert r. induction fs as [|f fs IH]; intros r; simpl; [done|]. apply IH. Qed.

Lemma RunWith_spec registry raw ctx :
  let all := all_findings registry raw ctx in
  RunWith registry raw ctx =
    {| Findings := SliceStable finding_less all; Errors := count_sev SeverityError all;
       Warnings := count_sev SeverityWarning all; Infos := count_sev SeverityInfo all |}.
Proof.
  cbv zeta. unfold RunWith, all_findings. cbv zeta.
  assert (∀ rs r, foldl (λ r rule, foldl (λ r f, count_finding r (complete rule.1 f)) r (rule.2 (NewConfig raw) ctx)) r rs
    = foldl (λ r rule, foldl count_finding r (complete rule.1 <$> rule.2 (NewConfig raw) ctx)) r rs) as Hr.
  { intros rs. induction rs as [|x rs IH]; intros r; simpl; [done|]. by rewrite foldl_fmap_count IH. }
  rewrite Hr. rewrite (foldl_counted (λ rule : string * (Config → Context → list Finding), complete rule.1 <$> rule.2 (NewConfig raw) ctx) (by_id registry) []).
  done.
Qed.

Lemma NewConfig_Services raw : Services (NewConfig raw) = sorted_services raw.
Proof. unfold NewConfig, sorted_services. by destruct (get_map "services" raw). Qed.

Lemma NewConfig_Raw raw : Raw (NewConfig raw) = raw.
Proof. unfold NewConfig. by destruct (get_map "services" raw). Qed.

Lemma elem_of_all_findings registry raw ctx f : f ∈ all_findings registry raw ctx ↔
  ∃ r g, r ∈ registry ∧ g ∈ r.2 (NewConfig raw) ctx ∧ f = complete r.1 g.
Proof.
  unfold all_findings. rewrite list_elem_of_bind. setoid_rewrite list_elem_of_fmap. split.
  - intros (r & (g & -> & Hg) & Hr). exists r, g. unfold by_id in Hr. by rewrite SliceStable_perm in Hr.
  - intros (r & g & Hr & Hg & ->). exists r. unfold by_id. rewrite SliceStable_perm. eauto.
Qed.

Lemma complete_Severity id f : f_Severity (complete id f) = f_Severity f.
Proof. unfold complete. cbv zeta. by repeat case_decide. Qed.

Lemma complete_Service id f : f_Service (complete id f) = f_Service f.
Proof. unfold complete. cbv zeta. by repeat case_decide. Qed.

Lemma complete_Vars id f : f_Vars (complete id f) = f_Vars f.
Proof. unfold complete. cbv zeta. by repeat case_decide. Qed.

Lemma count_sev_zero s l : count_sev s l = 0%Z ↔ ∀ f, f ∈ l → f_Severity f ≠ s.
Proof.
  unfold count_sev. rewrite -Nat2Z.inj_0 Nat2Z.inj_iff length_zero_iff_nil. split.
  - intros Hn f Hf Hs. apply elem_of_nil with f. rewrite -Hn. by apply list_elem_of_filter.
  - intros Hf. destruct (filter _ l) as [|f l'] eqn:Hl; [done|].
    assert (f ∈ filter (λ f, f_Severity f = s) l) as [? ?]%list_elem_of_filter by (rewrite Hl; constructor).
    naive_solver.
Qed.

(** No error finding: no rule reports one. *)
Lemma no_errors_iff registry raw ctx : HasErrors (RunWith registry raw ctx) = false ↔
  ∀ r g, r ∈ registry → g ∈ r.2 (NewConfig raw) ctx → f_Severity g ≠ SeverityError.
Proof.
  rewrite RunWith_spec. unfold HasErrors. simpl. rewrite bool_decide_eq_false.
  assert (∀ l, ¬ (0 < count_sev SeverityError l)%Z ↔ count_sev SeverityError l = 0%Z) as Hz
    by (intros l; unfold count_sev; lia).
  rewrite Hz count_sev_zero. setoid_rewrite elem_of_all_findings. split.
  - intros Ha r g Hr Hg. rewrite -(complete_Severity r.1 g). apply Ha. eauto.
  - intros Ha f (r & g & Hr & Hg & ->). rewrite complete_Severity. eauto.
Qed.

(** ** Registration order is irrelevant *)
Lemma by_id_perm registry registry' : NoDup registry.*1 → registry ≡ₚ registry' → by_id registry = by_id registry'.
Proof.
  intros Hnd Hp. unfold by_id.
  apply (StronglySorted_unique_strong (λ a b : rule, string_lt b.1 a.1 = false)).
  - intros a b Ha Hb Hab Hba. rewrite SliceStable_perm in Ha. rewrite SliceStable_perm -Hp in Hb.
    rewrite !string_lt_false in Hab, Hba. destruct a as [i fa], b as [j fb]. simpl in *.
    assert (i = j) as -> by (by apply (anti_symm strings.String.le)). f_equal.
    apply list_elem_of_lookup in Ha as [n Hn], Hb as [m Hm].
    assert (n = m) as ->.
    { eapply NoDup_lookup; [exact Hnd|..]; rewrite list_lookup_fmap; [by rewrite Hn|by rewrite Hm]. }
    by simplify_eq.
  - apply SliceStable_sorted; intros; [by eapply string_lt_trans|by apply string_lt_asym].
  - apply SliceStable_sorted; intros; [by eapply string_lt_trans|by apply string_lt_asym].
  - by rewrite !SliceStable_perm.
Qed.

Lemma RunWith_perm registry registry' raw ctx : NoDup registry.*1 → registry ≡ₚ registry' →
  RunWith registry raw ctx = RunWith registry' raw ctx.
Proof. intros Hnd Hp. unfold RunWith. by rewrite (by_id_perm _ _ Hnd Hp). Qed.

(** ** Environment keys *)
Lemma elem_of_EnvKeysFromPairs pairs k : k ∈ EnvKeysFromPairs pairs ↔
  k ≠ "" ∧ ∃ pair v, pair ∈ pairs ∧ cut "="%char pair = Some (k, v).
Proof.
  unfold EnvKeysFromPairs. induction pairs as [|q l IH] using rev_ind; simpl; [set_solver|].
  rewrite foldl_app. cbn [foldl]. setoid_rewrite elem_of_app. setoid_rewrite list_elem_of_singleton.
  destruct (cut "="%char q) as [[k' v']|] eqn:Hq.
  - case_decide as Hk; [subst k'|].
    + rewrite IH. split; [naive_solver|]. intros (Hne & p & v & [Hp| ->] & Hc); [eauto|congruence].
    + rewrite elem_of_union elem_of_singleton IH. split; [naive_solver|].
      intros (Hne & p & v & [Hp| ->] & Hc); [eauto 6|left; congruence].
  - rewrite IH. split; [naive_solver|]. intros (Hne & p & v & [Hp| ->] & Hc); [eauto|congruence].
Qed.
