(* ===== verification/LintRules.v ===== *)
(** * internal/lint/rules_*.go: the compose checks

    The structural, advisory and policy rules, the parsers they share
    (interpolations, mounts, ports, environments) and the registry. *)
From S2P Require Import Prelude GoStrings GoPath GoFmt GoValue Policy PolicyCompose LintCore.

(** ** Interpolations *)
Record interpolation := { i_Raw : string; i_Name : string; i_HasDefault : bool }.

Definition is_alpha (a : ascii) : bool :=
  let n := nat_of_ascii a in
  ((65 <=? n) && (n <=? 90)) || ((97 <=? n) && (n <=? 122)) || (n =? 95).
Definition is_word (a : ascii) : bool :=
  let n := nat_of_ascii a in is_alpha a || ((48 <=? n) && (n <=? 57)).

(** The longest prefix of characters that satisfy [f]. *)
Fixpoint take_while (f : ascii → bool) (s : string) : string :=
  match s with
  | EmptyString => EmptyString
  | String a s => if f a then String a (take_while f s) else EmptyString
  end.

(** [interpolationRe] at the current position: the whole match and its two
    groups.  The alternatives are tried in the order of the pattern. *)
Definition match_interpolation (s : string) : option (string * string * string) :=
  match s with
  | String "$" (String "$" _) => Some ("$$", "", "")
  | String "$" (String "{" r) =>
      match cut "}"%char r with
      | Some (body, _) => Some ("${" +:+ body +:+ "}", body, "")
      | None => None
      end
  | String "$" (String a r) =>
      if is_alpha a
      then let name := String a (take_while is_word r) in Some (String "$" name, "", name)
      else None
  | _ => None
  end.

(** [FindAllStringSubmatch]: leftmost matches that do not overlap; [skip] bytes
    belong to the previous one. *)
Fixpoint find_matches (skip : nat) (s : string) : list (string * string * string) :=
  match s with
  | EmptyString => []
  | String _ s' =>
      match skip with
      | S k => find_matches k s'
      | 0 =>
          match match_interpolation s with
          | Some m => m :: find_matches (pred (String.length m.1.1)) s'
          | None => find_matches 0 s'
          end
      end
  end.

(** [strings.IndexAny]: the part before the first of the characters and the part
    from it on. *)
Fixpoint cut_any (cs : list ascii) (s : string) : option (string * string) :=
  match s with
  | EmptyString => None
  | String a s' =>
      if decide (a ∈ cs) then Some (EmptyString, s)
      else match cut_any cs s' with
           | Some (l, r) => Some (String a l, r)
           | None => None
           end
  end.

Definition modifiers : list ascii := [":"; "-"; "?"; "+"]%char.

Definition parse_match (m : string * string * string) : option interpolation :=
  let '(m0, m1, m2) := m in
  if decide (m0 = "$$") then None
  else
    let expr := if bool_decide (m1 ≠ "") || HasPrefix (sdrop 1 m0) "{" then m1 else m2 in
    if decide (expr = "") then None
    else
      let ref :=
        match cut_any modifiers expr with
        | Some (String a l, rest) =>
            {| i_Raw := m0; i_Name := String a l;
               i_HasDefault := negb (HasPrefix rest ":?") && negb (HasPrefix rest "?") |}
        | _ => {| i_Raw := m0; i_Name := expr; i_HasDefault := false |}
        end in
      if decide (i_Name ref = "") then None else Some ref.

Definition parseInterpolations (s : string) : list interpolation :=
  omap parse_match (find_matches 0 s).

Definition hasInterpolation (s : string) : bool := bool_decide (parseInterpolations s ≠ []).

(** The variables read without a default, anywhere in a decoded value. *)
Fixpoint collectInterpolations (v : value) : gset string :=
  match v with
  | VStr s => list_to_set (i_Name <$> filter (λ r, i_HasDefault r = false) (parseInterpolations s))
  | VList l => foldr (λ x acc, collectInterpolations x ∪ acc) ∅ l
  | VMap m => map_fold (λ _ x acc, collectInterpolations x ∪ acc) ∅ m
  | _ => ∅
  end.

(** ** Networks and mounts *)
Definition serviceNetworks (svc : gmap string value) : list string :=
  match svc !! "networks" with
  | Some (VMap nets) => sorted_keys nets
  | Some (VList nets) => nonempty_strings nets
  | _ => []
  end.

Record mount := { m_source : string; m_target : string; m_isBind : bool; m_readOnly : bool; m_raw : string }.

Definition string_mount (v : string) : mount :=
  let spec := Trim (TrimSpace v) [dquote; squote] in
  match Split colon spec with
  | [] | [_] =>
      {| m_source := ""; m_target := default "" (head (Split colon spec)); m_isBind := isHostPath "";
         m_readOnly := false; m_raw := spec |}
  | p0 :: p1 :: rest =>
      let source := TrimSpace p0 in
      {| m_source := source; m_target := TrimSpace p1; m_isBind := isHostPath source;
         m_readOnly := match rest with p2 :: _ => Contains p2 "ro" | [] => false end; m_raw := spec |}
  end.

Definition map_mount (v : gmap string value) : mount :=
  let source := default "" (get_str "source" v) in
  let target := default "" (get_str "target" v) in
  let typ := default "" (get_str "type" v) in
  {| m_source := source; m_target := target; m_isBind := bool_decide (typ = "bind") || isHostPath source;
     m_readOnly := default false (get_bool "read_only" v);
     m_raw := if decide (target ≠ "") then source +:+ ":" +:+ target else source |}.

Definition value_mount (raw : value) : option mount :=
  match raw with
  | VStr v => Some (string_mount v)
  | VMap v => Some (map_mount v)
  | _ => None
  end.

Definition serviceMounts (svc : gmap string value) : list mount :=
  match get_list "volumes" svc with
  | None => []
  | Some list => omap value_mount list
  end.

(** ** Structural rules *)
Section rules.
Context `{UnicodeTables}.

Definition ruleNoServices (cfg : Config) (_ : Context) : list Finding :=
  if decide (Services cfg ≠ []) then []
  else [finding SeverityError "" "services" "compose file declares no services"
          "add at least one service under the top-level `services:` key"].

Definition missing_image (svc : string * gmap string value) : list Finding :=
  let image := default "" (get_str "image" svc.2) in
  if decide (image ≠ "") then []
  else match svc.2 !! "build" with
  | Some _ =>
      [finding SeverityError svc.1 ("services." +:+ svc.1 +:+ ".build")
         ("service " +:+ Quote svc.1 +:+ " only has a `build` section and no `image`")
         "wireops workers deploy pre-built images; build and push the image, then reference it with `image:`"]
  | None =>
      [finding SeverityError svc.1 ("services." +:+ svc.1)
         ("service " +:+ Quote svc.1 +:+ " has no `image`")
         "every service needs an `image:` to deploy"]
  end.

Definition ruleMissingImage (cfg : Config) (_ : Context) : list Finding :=
  Services cfg ≫= missing_image.

Definition ruleUndeclaredNetwork (cfg : Config) (_ : Context) : list Finding :=
  let declared := topLevelKeys cfg "networks" in
  Services cfg ≫= λ svc,
    serviceNetworks svc.2 ≫= λ net,
      if decide (net = "default" ∨ net ∈ declared) then []
      else [finding SeverityError svc.1 ("services." +:+ svc.1 +:+ ".networks")
              ("service " +:+ Quote svc.1 +:+ " joins network " +:+ Quote net
               +:+ ", which is not declared at the top level")
              ("add " +:+ Quote net +:+ " under the top-level `networks:` key (use `external: true` if the worker already has it)")].

Definition ruleUndeclaredVolume (cfg : Config) (_ : Context) : list Finding :=
  let declared := topLevelKeys cfg "volumes" in
  Services cfg ≫= λ svc,
    serviceMounts svc.2 ≫= λ m,
      if decide (m_isBind m = true ∨ m_source m = "" ∨ m_source m ∈ declared) then []
      else [finding SeverityError svc.1 ("services." +:+ svc.1 +:+ ".volumes")
              ("service " +:+ Quote svc.1 +:+ " mounts named volume " +:+ Quote (m_source m)
               +:+ ", which is not declared at the top level")
              ("add " +:+ Quote (m_source m) +:+ " under the top-level `volumes:` key")].

(** The variables of a service that nothing defines, in name order. *)
Definition missing_vars (envKeys : gset string) (svc : gmap string value) : list string :=
  sort_strings (filter (λ name, name ∉ envKeys) (elements (collectInterpolations (VMap svc)))).

Definition ruleUnresolvedVariable (cfg : Config) (ctx : Context) : list Finding :=
  match ctx_EnvKeys ctx with
  | None => []
  | Some envKeys =>
      Services cfg ≫= λ svc,
        let missing := missing_vars envKeys svc.2 in
        if decide (missing = []) then []
        else [with_vars missing
                (finding SeverityWarning svc.1 ("services." +:+ svc.1)
                  ("service " +:+ Quote svc.1 +:+ " references variable(s) nothing defines: " +:+ Join ", " missing)
                  "add them as stack environment variables, as global variables, or give them a default with ${VAR:-fallback}")]
  end.

Definition ruleObsoleteVersionKey (cfg : Config) (_ : Context) : list Finding :=
  match Raw cfg !! "version" with
  | None => []
  | Some _ => [finding SeverityInfo "" "version" "top-level `version:` key is obsolete"
                 "remove it — Compose ignores it and warns about it on every run"]
  end.

Definition config_refs (name : string) (entry : value) : list Finding :=
  match as_map entry ≫= get_str "content" with
  | None => []
  | Some content =>
      let refs := parseInterpolations content in
      if decide (content = "" ∨ refs = []) then []
      else
        let vars := sort_strings (elements (list_to_set (C := gset string) (i_Name <$> refs))) in
        [finding SeverityWarning "" ("configs." +:+ name +:+ ".content")
           ("config " +:+ Quote name +:+ " content contains unescaped interpolation reference(s): " +:+ Join ", " vars)
           "docker compose interpolates the whole rendered file, including embedded config content, before the container starts — escape a literal $ as $$ if it is not meant to be a compose variable"]
  end.

Definition ruleUnescapedConfigInterpolation (cfg : Config) (_ : Context) : list Finding :=
  match get_map "configs" (Raw cfg) with
  | None => []
  | Some configs =>
      sorted_keys configs ≫= λ name,
        match configs !! name with Some entry => config_refs name entry | None => [] end
  end.
(** ** Policy rule *)

(** The text of a policy error (policy.go) and of its check (compose.go). *)
Definition error_text (e : policy_error) : string :=
  match e with
  | EHostBindMount hostPart => "volume mount path " +:+ Quote hostPart +:+ " is a host bind-mount and the worker policy blocks host volumes"
  | EVolumeNotAllowed hostPart => "volume mount path " +:+ Quote hostPart +:+ " is not in the worker's allowed volume list"
  | ENetworkNotAllowed network => "network " +:+ Quote network +:+ " is not in the worker's allowed network list"
  | ELatestImage img => "image " +:+ Quote img +:+ " uses :latest or has no tag, which is blocked by the worker policy"
  | EImageNotAllowed img => "image " +:+ Quote img +:+ " is not in the worker's allowed image list"
  | EPrivileged svc => "service " +:+ Quote svc +:+ " runs with privileged: true, which is blocked by the worker policy"
  | EHostNetwork svc => "service " +:+ Quote svc +:+ " uses network_mode: host, which is blocked by the worker policy"
  | EHostPID svc => "service " +:+ Quote svc +:+ " uses pid: host, which is blocked by the worker policy"
  | EHostIPC svc => "service " +:+ Quote svc +:+ " uses ipc: host, which is blocked by the worker policy"
  | EDockerSocket m => "mount " +:+ Quote m +:+ " exposes the Docker socket, which is blocked by the worker policy"
  | ECapability c => "capability " +:+ Quote c +:+ " is not in the worker's allowed cap_add list"
  | EDevice d => "device " +:+ Quote d +:+ " is not in the worker's allowed device list"
  | ESecurityOpt o => "security_opt " +:+ Quote o +:+ " is not in the worker's allowed security_opt list"
  end.

Definition check_name (c : check) : string :=
  match c with
  | CImages => "images" | CVolumes => "volumes" | CNetworks => "networks" | CPrivileged => "privileged"
  | CHostNetwork => "host_network" | CHostPID => "host_pid" | CHostIPC => "host_ipc"
  | CDockerSocket => "docker_socket" | CCapAdd => "cap_add" | CDevices => "devices"
  | CSecurityOpt => "security_opt"
  end.

Definition check_prefix (c : check) : string :=
  match c with
  | CImages => "image policy violation" | CVolumes => "volume policy violation"
  | CNetworks => "network policy violation" | CPrivileged => "privileged mode policy violation"
  | CHostNetwork => "host network policy violation" | CHostPID => "host pid policy violation"
  | CHostIPC => "host ipc policy violation" | CDockerSocket => "docker socket policy violation"
  | CCapAdd => "cap_add policy violation" | CDevices => "device policy violation"
  | CSecurityOpt => "security_opt policy violation"
  end.

Definition message_text (m : message) : string := check_prefix m.1 +:+ ": " +:+ error_text m.2.

Definition policyCheckPaths : gmap string string := list_to_map [
  ("images", "image"); ("volumes", "volumes"); ("networks", "networks"); ("privileged", "privileged");
  ("host_network", "network_mode"); ("host_pid", "pid"); ("host_ipc", "ipc"); ("docker_socket", "volumes");
  ("cap_add", "cap_add"); ("devices", "devices"); ("security_opt", "security_opt") ].

Definition violation_finding (v : Violation) : Finding :=
  let c := check_name (v_Check v) in
  let path := match policyCheckPaths !! c with
              | Some key => if decide (v_Service v = "") then "" else "services." +:+ v_Service v +:+ "." +:+ key
              | None => ""
              end in
  with_rule ("policy/" +:+ c)
    (finding SeverityError (v_Service v) path (message_text (v_Message v))
      "blocked by this worker's deploy policy — adjust the compose file, or the policy under Settings").

Definition rulePolicyViolations (cfg : Config) (ctx : Context) : list Finding :=
  match ctx_Policy ctx with
  | None => []
  | Some p => if Disabled p then [] else violation_finding <$> ComposeViolations p (Raw cfg)
  end.

(** ** Advisory rules *)

(** The tag of an image reference and whether it is pinned. *)
Definition imageTag (image : string) : string * bool :=
  match cut "@"%char image with
  | Some _ => ("", true)
  | None =>
      let suffix := match rcut slash image with Some (_, r) => r | None => image end in
      match rcut colon suffix with
      | None => ("", false)
      | Some (_, tag) => (tag, bool_decide (tag ≠ "") && bool_decide (tag ≠ "latest"))
      end
  end.

Definition ruleLatestTag (cfg : Config) (ctx : Context) : list Finding :=
  if policyBlocks ctx PreventLatestImages then []
  else Services cfg ≫= λ svc,
    let image := default "" (get_str "image" svc.2) in
    if bool_decide (image = "") || hasInterpolation image then []
    else let '(tag, pinned) := imageTag image in
    if pinned : bool then []
    else
      let msg := if decide (tag = "")
        then "service " +:+ Quote svc.1 +:+ " uses image " +:+ Quote image +:+ " with no tag, which resolves to :latest"
        else "service " +:+ Quote svc.1 +:+ " uses image " +:+ Quote image +:+ ", which is not pinned to a specific version" in
      [finding SeverityWarning svc.1 ("services." +:+ svc.1 +:+ ".image") msg
         "pin an explicit tag or a @sha256 digest so redeploys are reproducible"].

Definition hasDeployRestartPolicy (svc : gmap string value) : bool :=
  match get_map "deploy" svc ≫= get_map "restart_policy" with
  | None => false
  | Some rp =>
      let condition := default "" (get_str "condition" rp) in
      bool_decide (condition ≠ "") && bool_decide (condition ≠ "none")
  end.

Definition ruleNoRestartPolicy (cfg : Config) (_ : Context) : list Finding :=
  Services cfg ≫= λ svc,
    let restart := default "" (get_str "restart" svc.2) in
    if (bool_decide (restart ≠ "") && bool_decide (restart ≠ "no")) || hasDeployRestartPolicy svc.2 then []
    else [finding SeverityWarning svc.1 ("services." +:+ svc.1 +:+ ".restart")
            ("service " +:+ Quote svc.1 +:+ " has no restart policy")
            "set `restart: unless-stopped` so the container comes back after a reboot or a crash"].

Definition ruleNoHealthcheck (cfg : Config) (_ : Context) : list Finding :=
  Services cfg ≫= λ svc,
    match svc.2 !! "healthcheck" with
    | Some _ => []
    | None => [finding SeverityInfo svc.1 ("services." +:+ svc.1 +:+ ".healthcheck")
                 ("service " +:+ Quote svc.1 +:+ " defines no healthcheck")
                 "add one so post-deploy checks can tell 'running' apart from 'actually serving'"]
    end.

(** A key that is present and not null. *)
Definition present (k : string) (m : gmap string value) : bool :=
  match m !! k with None | Some VNull => false | Some _ => true end.

Definition hasResourceLimit (svc : gmap string value) : bool :=
  present "mem_limit" svc || present "cpus" svc ||
  match (deploy ← get_map "deploy" svc; resources ← get_map "resources" deploy; get_map "limits" resources) with
  | None => false
  | Some limits => existsb (λ key, present key limits && negb (bool_decide (get_str key limits = Some "")))
                     ["memory"; "cpus"]
  end.

Definition ruleNoResourceLimits (cfg : Config) (_ : Context) : list Finding :=
  Services cfg ≫= λ svc,
    if hasResourceLimit svc.2 then []
    else [finding SeverityInfo svc.1 ("services." +:+ svc.1 +:+ ".deploy.resources.limits")
            ("service " +:+ Quote svc.1 +:+ " sets no memory or CPU limit")
            "set `deploy.resources.limits.memory` (or `mem_limit`) so one container cannot starve the host"].

Definition portNumber (v : option value) : string :=
  match v with
  | Some (VNum t) => if decide (t = "0" ∨ t = "-0") then "" else FormatFloat0 t
  | Some (VStr s) => s
  | _ => ""
  end.

(** The published port and the host address of one entry of [ports]. *)
Definition portBinding (raw : value) : option (string * string) :=
  match raw with
  | VMap v => Some (portNumber (v !! "published"), default "" (get_str "host_ip" v))
  | VStr v =>
      let parts := Split colon (before slash v) in
      match rev parts with
      | [] | [_] => Some ("", "")
      | [_; p] => Some (p, "")
      | _ :: p :: ip => Some (p, Join ":" (rev ip))
      end
  | _ => None
  end.

Definition all_interfaces (svcName : string) (i : nat) (raw : value) : list Finding :=
  match portBinding raw with
  | None => []
  | Some (published, hostIP) =>
      if decide (published = "") then []
      else if decide (hostIP ≠ "" ∧ hostIP ≠ "0.0.0.0" ∧ hostIP ≠ "::") then []
      else [finding SeverityWarning svcName ("services." +:+ svcName +:+ ".ports[" +:+ Itoa (Z.of_nat i) +:+ "]")
              ("service " +:+ Quote svcName +:+ " publishes port " +:+ published +:+ " on all interfaces")
              ("bind to a specific host IP (`127.0.0.1:" +:+ published +:+ ":...`) or drop the host port and route through your reverse proxy")]
  end.

Definition rulePublishedPortAllInterfaces (cfg : Config) (_ : Context) : list Finding :=
  Services cfg ≫= λ svc,
    match get_list "ports" svc.2 with
    | None => []
    | Some ports => mjoin (imap (all_interfaces svc.1) ports)
    end.

Definition secretKeyHints : list string :=
  ["PASSWORD"; "PASSWD"; "SECRET"; "TOKEN"; "APIKEY"; "API_KEY"; "PRIVATE_KEY"; "ACCESS_KEY"; "CREDENTIAL"].

Definition looksLikeSecretKey (key : string) : bool :=
  let upper := ToUpper key in existsb (λ hint, Contains upper hint) secretKeyHints.

Definition normalizeEnv (raw : option value) : gmap string string :=
  match raw with
  | Some (VMap v) => (λ val, match val with VStr s => s | VNull => "" | s => Sprint s end) <$> v
  | Some (VList v) =>
      foldl (λ out item,
        match as_str item ≫= cut "="%char with
        | Some (k, val) => <[k := val]> out
        | None => out
        end) ∅ v
  | _ => ∅
  end.

Definition plaintext_secret (svcName k v : string) : list Finding :=
  if bool_decide (v = "") || hasInterpolation v || negb (looksLikeSecretKey k) then []
  else [finding SeverityWarning svcName ("services." +:+ svcName +:+ ".environment." +:+ k)
          ("service " +:+ Quote svcName +:+ " sets " +:+ k +:+ " to a literal value")
          "move it to a stack environment variable marked secret, or to a SOPS-encrypted file"].

Definition rulePlaintextSecret (cfg : Config) (_ : Context) : list Finding :=
  Services cfg ≫= λ svc,
    let env := normalizeEnv (svc.2 !! "environment") in
    sorted_keys env ≫= λ k, plaintext_secret svc.1 k (default "" (env !! k)).

Definition underRoot (root path : string) : option string :=
  if decide (root = "") then None
  else
    let cleanRoot := Clean root in
    let cleanPath := Clean path in
    if decide (cleanPath = cleanRoot) then Some ""
    else
      let prefix := cleanRoot +:+ "/" in
      if HasPrefix cleanPath prefix then Some (TrimPrefix cleanPath prefix) else None.

(** The path shown for a bind mount of the repository, if it is one. *)
Definition repo_mount (root : string) (m : mount) : option string :=
  if negb (m_isBind m) || bool_decide (m_source m = "") then None
  else if HasPrefix (m_source m) "/" then
    match underRoot root (m_source m) with Some rel => Some ("./" +:+ rel) | None => None end
  else Some (m_source m).

Definition ruleRelativeBindMount (cfg : Config) (ctx : Context) : list Finding :=
  Services cfg ≫= λ svc,
    serviceMounts svc.2 ≫= λ m,
      match repo_mount (ctx_RepoRoot ctx) m with
      | None => []
      | Some shown =>
          [finding SeverityWarning svc.1 ("services." +:+ svc.1 +:+ ".volumes")
             ("service " +:+ Quote svc.1 +:+ " bind-mounts " +:+ Quote shown +:+ ", a path inside the repository")
             "the worker deploys from a rendered revision directory, not a clone of the repo, so this path will not exist there — use an absolute host path or a named volume"]
      end.

Definition rulePrivileged (cfg : Config) (ctx : Context) : list Finding :=
  if policyBlocks ctx BlockPrivileged then []
  else Services cfg ≫= λ svc,
    if negb (default false (get_bool "privileged" svc.2)) then []
    else [finding SeverityWarning svc.1 ("services." +:+ svc.1 +:+ ".privileged")
            ("service " +:+ Quote svc.1 +:+ " runs privileged")
            "privileged disables container isolation — grant specific capabilities with `cap_add` instead"].

Record ns_check := { ns_key : string; ns_label : string; ns_blocked : WorkerPolicy → bool; ns_hint : string }.

Definition ns_checks : list ns_check := [
  {| ns_key := "network_mode"; ns_label := "the host network namespace"; ns_blocked := BlockHostNetwork;
     ns_hint := "publish specific ports instead — host networking bypasses Docker's network isolation entirely" |};
  {| ns_key := "pid"; ns_label := "the host PID namespace"; ns_blocked := BlockHostPID;
     ns_hint := "the container can see and signal every process on the worker host" |};
  {| ns_key := "ipc"; ns_label := "the host IPC namespace"; ns_blocked := BlockHostIPC;
     ns_hint := "the container shares shared memory with every other process on the host" |} ].

Definition ruleHostNamespace (cfg : Config) (ctx : Context) : list Finding :=
  Services cfg ≫= λ svc,
    ns_checks ≫= λ c,
      if policyBlocks ctx (ns_blocked c) then []
      else if decide (default "" (get_str (ns_key c) svc.2) ≠ "host") then []
      else [finding SeverityWarning svc.1 ("services." +:+ svc.1 +:+ "." +:+ ns_key c)
              ("service " +:+ Quote svc.1 +:+ " shares " +:+ ns_label c) (ns_hint c)].

Definition ruleDockerSocket (cfg : Config) (ctx : Context) : list Finding :=
  if policyBlocks ctx BlockDockerSocket then []
  else Services cfg ≫= λ svc,
    serviceMounts svc.2 ≫= λ m,
      if decide (TrimSuffix (m_source m) "/" ∉ dockerSocketPaths) then []
      else
        let '(msg, hint) := if m_readOnly m
          then ("service " +:+ Quote svc.1 +:+ " mounts the Docker socket",
                "even read-only, the socket exposes every container on the host — prefer a socket proxy that filters the API")
          else ("service " +:+ Quote svc.1 +:+ " mounts the Docker socket read-write",
                "read-write access to the socket is root on the worker host — add `:ro`, or use a socket proxy that filters the API") in
        [finding SeverityWarning svc.1 ("services." +:+ svc.1 +:+ ".volumes") msg hint].

(** ** The registry, in the order of the files' [init] functions *)
Definition registry : list rule := [
  (RuleLatestTag, ruleLatestTag);
  (RuleNoRestartPolicy, ruleNoRestartPolicy);
  (RuleNoHealthcheck, ruleNoHealthcheck);
  (RuleNoResourceLimits, ruleNoResourceLimits);
  (RulePublishedPortAllInterfaces, rulePublishedPortAllInterfaces);
  (RulePlaintextSecret, rulePlaintextSecret);
  (RuleRelativeBindMount, ruleRelativeBindMount);
  (RulePrivileged, rulePrivileged);
  (RuleHostNamespace, ruleHostNamespace);
  (RuleDockerSocket, ruleDockerSocket);
  (RulePolicyWorkerPolicy, rulePolicyViolations);
  (RuleNoServices, ruleNoServices);
  (RuleMissingImage, ruleMissingImage);
  (RuleUndeclaredNetwork, ruleUndeclaredNetwork);
  (RuleUndeclaredVolume, ruleUndeclaredVolume);
  (RuleUnresolvedVariable, ruleUnresolvedVariable);
  (RuleObsoleteVersionKey, ruleObsoleteVersionKey);
  (RuleUnescapedConfigInterpolation, ruleUnescapedConfigInterpolation) ].

Definition Run (raw : gmap string value) (ctx : Context) : Report := RunWith registry raw ctx.
End rules.
