(* ===== verification/LintSpec.v ===== *)
(** * What the compose lint promises

    Which documents have no error-severity finding, that the report does not
    depend on registration order, how it is sorted and counted, and what the
    interpolation scanner sees. *)
From S2P Require Import Prelude GoStrings GoPath GoFmt GoValue Policy PolicyCompose LintCore LintRules.

Lemma StronglySorted_mono {A} (R S : A → A → Prop) l :
  (∀ a b, R a b → S a b) → StronglySorted R l → StronglySorted S l.
Proof. intros HRS. induction 1; constructor; [done|]. eapply Forall_impl; eauto. Qed.

(** ** Deployable documents *)
Definition declares (raw : gmap string value) (block name : string) : Prop :=
  ∃ m, raw !! block = Some (VMap m) ∧ is_Some (m !! name).

Definition service_joins (svc : gmap string value) (n : string) : Prop :=
  (∃ nets, svc !! "networks" = Some (VMap nets) ∧ is_Some (nets !! n)) ∨
  (n ≠ "" ∧ ∃ l, svc !! "networks" = Some (VList l) ∧ VStr n ∈ l).

(** The named volume an entry of a service's [volumes] mounts. *)
Definition mounts_volume (svc : gmap string value) (v : string) : Prop :=
  ∃ m, m ∈ serviceMounts svc ∧ m_isBind m = false ∧ m_source m = v ∧ v ≠ "".

Record deployable (raw : gmap string value) : Prop := {
  dp_services : ∃ name svc, has_service raw name svc;
  dp_images : ∀ name svc, has_service raw name svc → ∃ img, svc !! "image" = Some (VStr img) ∧ img ≠ "";
  dp_networks : ∀ name svc n, has_service raw name svc → service_joins svc n →
    n = "default" ∨ declares raw "networks" n;
  dp_volumes : ∀ name svc v, has_service raw name svc → mounts_volume svc v → declares raw "volumes" v
}.

(** The findings of a rule are all of one severity other than error. *)
Definition never_error (r : Config → Context → list Finding) : Prop :=
  ∀ cfg ctx f, f ∈ r cfg ctx → f_Severity f ≠ SeverityError.

(** Walk the binds and branches of a rule to the finding it builds. *)
Ltac open_finding :=
  repeat match goal with
  | H : _ ∈ [] |- _ => by apply elem_of_nil in H
  | H : _ ∈ [_] |- _ => apply list_elem_of_singleton in H; subst
  | H : _ ∈ _ ≫= _ |- _ => apply list_elem_of_bind in H as (? & ? & ?)
  | H : _ ∈ mjoin _ |- _ => apply list_elem_of_join in H as (? & ? & ?)
  | H : _ ∈ imap _ _ |- _ => apply elem_of_lookup_imap in H as (? & ? & -> & _)
  | H : _ ∈ (let '(_, _) := ?x in _) |- _ => destruct x
  | H : _ ∈ (if ?b then _ else _) |- _ => destruct b eqn:?
  | H : _ ∈ match ?x with _ => _ end |- _ => destruct x eqn:?
  end.

Section spec.
Context `{UnicodeTables}.

Lemma elem_of_topLevelKeys raw block name :
  name ∈ topLevelKeys (NewConfig raw) block ↔ declares raw block name.
Proof.
  unfold topLevelKeys, declares. rewrite NewConfig_Raw. unfold get_map.
  destruct (raw !! block) as [[]|]; cbn [mbind option_bind as_map]; try set_solver.
  rewrite elem_of_dom. naive_solver.
Qed.

Lemma elem_of_serviceNetworks svc n : n ∈ serviceNetworks svc ↔ service_joins svc n.
Proof.
  unfold serviceNetworks, service_joins.
  destruct (svc !! "networks") as [[]|]; try (split; [set_solver|naive_solver]).
  - rewrite elem_of_nonempty_strings. naive_solver.
  - rewrite elem_of_sorted_keys. naive_solver.
Qed.

(** The shape of the four structural rules. *)
Lemma per_service_clean raw (g : string * gmap string value → list Finding) (P : gmap string value → Prop) :
  (∀ name svc, g (name, svc) = [] ↔ P svc) →
  (∀ s f, f ∈ g s → f_Severity f = SeverityError) →
  (∀ f, f ∈ (Services (NewConfig raw) ≫= g) → f_Severity f ≠ SeverityError) ↔
  (∀ name svc, has_service raw name svc → P svc).
Proof.
  intros Hg Herr. rewrite NewConfig_Services. split.
  - intros Hf name svc Hs%elem_of_sorted_services. apply (Hg name).
    destruct (g (name, svc)) as [|f l] eqn:E; [done|]. exfalso.
    assert (f ∈ g (name, svc)) as Hin by (rewrite E; constructor).
    apply (Hf f); [|by eapply Herr]. apply list_elem_of_bind. eauto.
  - intros Hp f ([name svc] & Hin & Hs)%list_elem_of_bind. apply elem_of_sorted_services in Hs.
    assert (g (name, svc) = []) as E by (apply Hg; eauto). rewrite E in Hin. by apply elem_of_nil in Hin.
Qed.

Lemma bind_nil_iff {A B} (g : A → list B) l : (l ≫= g) = [] ↔ ∀ x, x ∈ l → g x = [].
Proof.
  induction l as [|x l IH]; [split; [set_solver|done]|]. cbn [mbind list_bind]. rewrite app_nil IH. set_solver.
Qed.

Lemma missing_image_clean name svc : missing_image (name, svc) = [] ↔
  ∃ img, svc !! "image" = Some (VStr img) ∧ img ≠ "".
Proof.
  unfold missing_image, get_str. cbv zeta. cbn [snd fst]. destruct (svc !! "image") as [[]|]; cbn;
    case_decide; repeat case_match; naive_solver.
Qed.

Lemma rule_networks_clean raw ctx :
  (∀ f, f ∈ ruleUndeclaredNetwork (NewConfig raw) ctx → f_Severity f ≠ SeverityError) ↔
  ∀ name svc, has_service raw name svc →
    ∀ n, service_joins svc n → n = "default" ∨ declares raw "networks" n.
Proof.
  unfold ruleUndeclaredNetwork. cbv zeta. apply per_service_clean.
  - intros name svc. rewrite bind_nil_iff. cbn [snd fst]. split.
    + intros Hn n Hj. specialize (Hn n). rewrite elem_of_serviceNetworks in Hn. specialize (Hn Hj).
      case_decide as Hd; [|done]. by rewrite -elem_of_topLevelKeys.
    + intros Hn n Hin%elem_of_serviceNetworks. specialize (Hn n Hin). rewrite -elem_of_topLevelKeys in Hn.
      by rewrite decide_True.
  - intros s f Hf. by open_finding.
Qed.

Lemma rule_volumes_clean raw ctx :
  (∀ f, f ∈ ruleUndeclaredVolume (NewConfig raw) ctx → f_Severity f ≠ SeverityError) ↔
  ∀ name svc, has_service raw name svc → ∀ v, mounts_volume svc v → declares raw "volumes" v.
Proof.
  unfold ruleUndeclaredVolume. cbv zeta. apply per_service_clean.
  - intros name svc. rewrite bind_nil_iff. cbn [snd fst]. split.
    + intros Hn v (m & Hm & Hb & Hs & Hne). specialize (Hn m Hm). case_decide as Hd; [|done].
      rewrite Hb Hs elem_of_topLevelKeys in Hd. naive_solver.
    + intros Hn m Hm. case_decide as Hd; [done|]. exfalso. apply Hd.
      destruct (m_isBind m) eqn:Hb; [by left|right]. destruct (decide (m_source m = "")) as [|Hne]; [by left|right].
      apply elem_of_topLevelKeys, Hn. by exists m.
  - intros s f Hf. by open_finding.
Qed.

Lemma rule_policy_clean raw ctx :
  (∀ f, f ∈ rulePolicyViolations (NewConfig raw) ctx → f_Severity f ≠ SeverityError) ↔
  ∀ p, ctx_Policy ctx = Some p → ValidateComposeConfig p raw = None.
Proof.
  unfold rulePolicyViolations. rewrite NewConfig_Raw. destruct (ctx_Policy ctx) as [p|]; [|set_solver].
  assert (Disabled p = true → ComposeViolations p raw = []) as Hdis by (unfold ComposeViolations; by intros ->).
  setoid_rewrite validate_head. split.
  - intros Hf p' [= <-]. destruct (Disabled p); [by rewrite Hdis|].
    destruct (ComposeViolations p raw) as [|v l]; [done|]. exfalso.
    apply (Hf (violation_finding v)); [by left|done].
  - intros Hp f Hf. destruct (Disabled p); [by apply elem_of_nil in Hf|]. specialize (Hp p eq_refl).
    destruct (ComposeViolations p raw) as [|v l]; [|done]. by apply elem_of_nil in Hf.
Qed.

Ltac advisory := intros cfg ctx f Hf; open_finding; done.

Lemma advisory_rules : Forall (λ r : rule, never_error r.2) (take 10 registry ++ drop 15 registry).
Proof.
  cbn [take drop registry app]. repeat (apply Forall_cons_2; cbn [snd]); try by apply Forall_nil.
  - unfold ruleLatestTag. advisory.
  - unfold ruleNoRestartPolicy. advisory.
  - unfold ruleNoHealthcheck. advisory.
  - unfold ruleNoResourceLimits. advisory.
  - unfold rulePublishedPortAllInterfaces. intros cfg ctx f Hf. open_finding.
    unfold all_interfaces in *. by open_finding.
  - unfold rulePlaintextSecret, plaintext_secret. advisory.
  - unfold ruleRelativeBindMount. advisory.
  - unfold rulePrivileged. advisory.
  - unfold ruleHostNamespace. advisory.
  - unfold ruleDockerSocket. advisory.
  - unfold ruleUnresolvedVariable. advisory.
  - unfold ruleObsoleteVersionKey. advisory.
  - unfold ruleUnescapedConfigInterpolation, config_refs. advisory.
Qed.

Lemma registry_split r : r ∈ registry ↔
  r ∈ take 10 registry ++ drop 15 registry
  ∨ r = (RulePolicyWorkerPolicy, rulePolicyViolations) ∨ r = (RuleNoServices, ruleNoServices)
  ∨ r = (RuleMissingImage, ruleMissingImage) ∨ r = (RuleUndeclaredNetwork, ruleUndeclaredNetwork)
  ∨ r = (RuleUndeclaredVolume, ruleUndeclaredVolume).
Proof.
  rewrite -{1}(take_drop 10 registry) -(take_drop 5 (drop 10 registry)) drop_drop !elem_of_app.
  assert (take 5 (drop 10 registry) =
    [(RulePolicyWorkerPolicy, rulePolicyViolations); (RuleNoServices, ruleNoServices);
     (RuleMissingImage, ruleMissingImage); (RuleUndeclaredNetwork, ruleUndeclaredNetwork);
     (RuleUndeclaredVolume, ruleUndeclaredVolume)]) as -> by done.
  rewrite !elem_of_cons elem_of_nil. cbn [Nat.add]. tauto.
Qed.

Lemma rule_services_clean raw ctx :
  (∀ f, f ∈ ruleNoServices (NewConfig raw) ctx → f_Severity f ≠ SeverityError) ↔
  ∃ name svc, has_service raw name svc.
Proof.
  unfold ruleNoServices. rewrite NewConfig_Services. destruct (sorted_services raw) as [|[name svc] l] eqn:E.
  - case_decide as Hd; [tauto|]. split.
    + intros Hf. exfalso. by eapply Hf; [constructor|].
    + intros (name & svc & Hs%elem_of_sorted_services). rewrite E in Hs. by apply elem_of_nil in Hs.
  - case_decide as Hd; [|done]. split; [|by intros _ f Hf%elem_of_nil].
    intros _. exists name, svc. apply elem_of_sorted_services. rewrite E. constructor.
Qed.

Lemma rule_images_clean raw ctx :
  (∀ f, f ∈ ruleMissingImage (NewConfig raw) ctx → f_Severity f ≠ SeverityError) ↔
  ∀ name svc, has_service raw name svc → ∃ img, svc !! "image" = Some (VStr img) ∧ img ≠ "".
Proof.
  unfold ruleMissingImage. apply per_service_clean; [apply missing_image_clean|].
  intros s f Hf. unfold missing_image in Hf. cbv zeta in Hf. by open_finding.
Qed.

Lemma lint_clean_iff raw ctx : HasErrors (Run raw ctx) = false ↔
  deployable raw ∧ ∀ p, ctx_Policy ctx = Some p → ValidateComposeConfig p raw = None.
Proof.
  unfold Run. rewrite no_errors_iff. setoid_rewrite registry_split. split.
  - intros Hr. split; [split|].
    + apply (rule_services_clean raw ctx). intros f Hf. apply (Hr (RuleNoServices, ruleNoServices)); [tauto|exact Hf].
    + apply (rule_images_clean raw ctx). intros f Hf. apply (Hr (RuleMissingImage, ruleMissingImage)); [tauto|exact Hf].
    + intros name svc n Hs. revert n. revert name svc Hs. apply (rule_networks_clean raw ctx).
      intros f Hf. apply (Hr (RuleUndeclaredNetwork, ruleUndeclaredNetwork)); [tauto|exact Hf].
    + intros name svc n Hs. revert n. revert name svc Hs. apply (rule_volumes_clean raw ctx).
      intros f Hf. apply (Hr (RuleUndeclaredVolume, ruleUndeclaredVolume)); [tauto|exact Hf].
    + apply (rule_policy_clean raw ctx). intros f Hf. apply (Hr (RulePolicyWorkerPolicy, rulePolicyViolations)); [tauto|exact Hf].
  - intros [[Hs Hi Hn Hv] Hp] r g [Hr|[ -> |[ -> |[ -> |[ -> | -> ]]]]].
    + pose proof advisory_rules as Ha. rewrite Forall_forall in Ha. apply (Ha r Hr).
    + apply (proj2 (rule_policy_clean raw ctx) Hp).
    + apply (proj2 (rule_services_clean raw ctx) Hs).
    + apply (proj2 (rule_images_clean raw ctx) Hi).
    + revert g. apply (rule_networks_clean raw ctx). eauto.
    + revert g. apply (rule_volumes_clean raw ctx). eauto.
Qed.

(** C12: A lint report has no error exactly when the document is deployable (it
    has a service, every service names an image, every network a service joins
    is declared or the default one, every named volume it mounts is declared)
    and the worker's policy, when one is given, accepts it.  So the report is a
    superset of what the deploy-time policy check rejects, and no advisory rule
    can block a deploy. *)
Theorem lint_errors_exact (raw : gmap string value) (ctx : Context) :
  HasErrors (Run raw ctx) = false ↔
  deployable raw ∧ ∀ p, ctx_Policy ctx = Some p → ValidateComposeConfig p raw = None.
Proof. apply lint_clean_iff. Qed.

Lemma registry_ids : NoDup (registry).*1.
Proof. by apply (bool_decide_unpack _); vm_compute. Qed.

(** The report does not depend on the order in which the rule files
    register their rules; its findings are those of the rules, in order of
    severity, rule and service; findings that agree in these three keep the order
    in which their rule reported them; and the three counts are the numbers of
    findings of each severity. *)
Theorem lint_report_exact (reg : list rule) (raw : gmap string value) (ctx : Context) :
  reg ≡ₚ registry →
  RunWith reg raw ctx = Run raw ctx
  ∧ Findings (Run raw ctx) ≡ₚ all_findings registry raw ctx
  ∧ StronglySorted key_le (Findings (Run raw ctx))
  ∧ (∀ sev rl svc, let P f := f_Severity f = sev ∧ f_Rule f = rl ∧ f_Service f = svc in
      filter P (Findings (Run raw ctx)) = filter P (all_findings registry raw ctx))
  ∧ Errors (Run raw ctx) = count_sev SeverityError (Findings (Run raw ctx))
  ∧ Warnings (Run raw ctx) = count_sev SeverityWarning (Findings (Run raw ctx))
  ∧ Infos (Run raw ctx) = count_sev SeverityInfo (Findings (Run raw ctx)).
Proof.
  intros Hp. split; [symmetry; apply RunWith_perm; [apply registry_ids|done]|].
  unfold Run. rewrite RunWith_spec. cbn [Findings Errors Warnings Infos].
  assert (∀ s l, count_sev s (SliceStable finding_less l) = count_sev s l) as Hc
    by (intros s l; unfold count_sev; by rewrite SliceStable_perm).
  rewrite !Hc. split_and!; [apply SliceStable_perm| | |done..].
  - eapply StronglySorted_mono; [|apply SliceStable_sorted; [apply finding_less_trans|apply finding_less_asym]].
    intros a b. apply finding_less_false.
  - intros sev rl svc. cbv zeta. apply SliceStable_stable. intros a b (Ha1 & Ha2 & Ha3) (Hb1 & Hb2 & Hb3).
    apply finding_less_false. unfold key_le. right. split; [congruence|right]. split; [congruence|].
    by rewrite Ha3 Hb3.
Qed.

(** ** Interpolations *)
Lemma find_matches_escape s : find_matches 0 (ReplaceAll s "$" "$$") =
  replicate (count_char "$" s) ("$$", "", "").
Proof.
  induction s as [|a s IH]; [done|]. cbn [count_char]. destruct (decide (a = "$"%char)) as [->|Ha].
  - change (String "$" s) with ("$" +:+ s). rewrite ReplaceAll_match //. rewrite sapp_cons sapp_cons sapp_nil_l.
    cbn [find_matches match_interpolation fst String.length pred replicate Nat.add]. by rewrite IH.
  - rewrite ReplaceAll_other; [|unfold HasPrefix; simpl; by destruct (decide _)].
    cbn [find_matches]. rewrite -IH. cbn [Nat.add]. unfold match_interpolation.
    destruct a as [[] [] [] [] [] [] [] []]; try done.
Qed.

(** The advice of the interpolation rules is right: with every dollar sign
    doubled, any text is free of variable references, so that the config content
    and the values it is applied to are left alone by the checks. *)
Theorem escaped_text_is_inert (s : string) : parseInterpolations (ReplaceAll s "$" "$$") = [].
Proof.
  unfold parseInterpolations. rewrite find_matches_escape. by induction (count_char "$" s).
Qed.

(** The variables of a document that are read without a default. *)
Definition reads (v : value) (x : string) : Prop :=
  ∃ s r, occurs s v ∧ r ∈ parseInterpolations s ∧ i_HasDefault r = false ∧ i_Name r = x.

Lemma collect_spec v x : x ∈ collectInterpolations v ↔ reads v x.
Proof.
  unfold reads. induction v as [| | |s|l IH|m IH] using value_nested_ind; cbn [collectInterpolations].
  1-3: split; [set_solver|]; intros (s & r & Ho & _); by inversion Ho.
  - rewrite elem_of_list_to_set list_elem_of_fmap. setoid_rewrite list_elem_of_filter. split.
    + intros (r & -> & Hd & Hr). exists s, r. split; [constructor|done].
    + intros (s' & r & Ho & Hr & Hd & <-). inversion Ho; subst. exists r. done.
  - rewrite (elem_of_foldr_union collectInterpolations). split.
    + intros (y & Hy & Hx). apply (IH y Hy) in Hx as (s & r & Ho & ?). exists s, r. split; [|done].
      by apply (occurs_list s l y).
    + intros (s & r & Ho & ?). inversion Ho as [|? y Hy Hoy|]; subst. exists y. split; [done|]. apply (IH y Hy). eauto.
  - rewrite (elem_of_map_fold_union collectInterpolations). split.
    + intros (k & y & Hy & Hx). apply (IH k y Hy) in Hx as (s & r & Ho & ?). exists s, r. split; [|done].
      by apply (occurs_map s m k y).
    + intros (s & r & Ho & ?). inversion Ho as [| |? k y Hy Hoy]; subst. exists k, y. split; [done|].
      apply (IH k y Hy). eauto.
Qed.

Lemma elem_of_missing_vars env svc x : x ∈ missing_vars env svc ↔ reads (VMap svc) x ∧ x ∉ env.
Proof.
  unfold missing_vars. rewrite elem_of_sort_strings list_elem_of_filter elem_of_elements collect_spec. tauto.
Qed.

(** Only the policy rule names its findings; the others get their own name. *)
Lemma rule_names r cfg ctx f : r ∈ registry → f ∈ r.2 cfg ctx →
  f_Rule f = "" ∨ r.1 = RulePolicyWorkerPolicy ∧ HasPrefix (f_Rule f) "policy/" = true.
Proof.
  unfold registry. rewrite !elem_of_cons elem_of_nil. intros Hr Hf.
  repeat destruct Hr as [->|Hr]; try done; cbn [fst snd] in *.
  11: { right. split; [done|]. unfold rulePolicyViolations in Hf. open_finding.
        apply list_elem_of_fmap in Hf as (v & -> & _). unfold violation_finding. cbn. apply HasPrefix_app. }
  all: left; unfold ruleLatestTag, ruleNoRestartPolicy, ruleNoHealthcheck, ruleNoResourceLimits,
    rulePublishedPortAllInterfaces, rulePlaintextSecret, plaintext_secret, ruleRelativeBindMount,
    rulePrivileged, ruleHostNamespace, ruleDockerSocket, ruleNoServices, ruleMissingImage, missing_image,
    ruleUndeclaredNetwork, ruleUndeclaredVolume, ruleUnresolvedVariable, ruleObsoleteVersionKey,
    ruleUnescapedConfigInterpolation, config_refs in Hf; open_finding; try done.
  unfold all_interfaces in *. by open_finding.
Qed.

(** The findings under a built-in rule's name are those of that rule. *)
Lemma findings_of_rule raw ctx id fn f : (id, fn) ∈ registry → HasPrefix id "policy/" = false → id ≠ "" →
  (∀ g cfg, g ∈ fn cfg ctx → f_Rule g = "") →
  f ∈ Findings (Run raw ctx) ∧ f_Rule f = id ↔ ∃ g, g ∈ fn (NewConfig raw) ctx ∧ f = complete id g.
Proof.
  intros Hin Hpre Hid Hempty. unfold Run. rewrite RunWith_spec. cbn [Findings]. rewrite SliceStable_perm elem_of_all_findings.
  assert (∀ g i, f_Rule g = "" → f_Rule (complete i g) = i) as Hc.
  { intros g i Hg. unfold complete. cbv zeta. rewrite (decide_True _ _ Hg). by case_decide. }
  split.
  - intros [(r & g & Hr & Hg & ->) Hrule]. destruct (rule_names r _ _ g Hr Hg) as [He|[_ Hp]].
    + rewrite Hc // in Hrule. exists g. rewrite -Hrule. split; [|done].
      assert (r = (id, fn)) as ->; [|done].
      apply list_elem_of_lookup in Hr as [n Hn], Hin as [m Hm].
      assert (n = m) as ->; [|by simplify_eq].
      eapply NoDup_lookup; [apply registry_ids|..]; rewrite list_lookup_fmap; [by rewrite Hn|rewrite Hm; by rewrite Hrule].
    + exfalso. unfold complete in Hrule. cbv zeta in Hrule.
      destruct (decide (f_Rule g = "")) as [He|He]; [by rewrite He in Hp|].
      assert (f_Rule g = id) as Hgi by (destruct (decide (f_Title g = EmptyString)); done). congruence.
  - intros (g & Hg & ->). split; [exists (id, fn), g; done|]. apply Hc. eauto.
Qed.

Lemma has_service_unique raw name svc svc' : has_service raw name svc → has_service raw name svc' → svc = svc'.
Proof. intros (m & Hm & Hs) (m' & Hm' & Hs'). congruence. Qed.

(** When the defined variables are known, the unresolved-variable findings of
    a service list exactly the variables that some string of the service, at any
    depth, reads without a default and that nothing defines. *)
Theorem unresolved_variables_exact (raw : gmap string value) (ctx : Context) (env : gset string)
    (name : string) (svc : gmap string value) (x : string) :
  ctx_EnvKeys ctx = Some env → has_service raw name svc →
  (∃ f, (f ∈ Findings (Run raw ctx) ∧ f_Rule f = RuleUnresolvedVariable) ∧ f_Service f = name ∧ x ∈ f_Vars f)
  ↔ reads (VMap svc) x ∧ x ∉ env.
Proof.
  intros Henv Hs. rewrite -elem_of_missing_vars.
  setoid_rewrite (findings_of_rule raw ctx RuleUnresolvedVariable ruleUnresolvedVariable);
    [|unfold registry; rewrite !elem_of_cons; tauto|done|done
     |intros g cfg; unfold ruleUnresolvedVariable; intros; by open_finding].
  unfold ruleUnresolvedVariable. rewrite Henv NewConfig_Services. split.
  - intros (f & (g & Hg & ->) & Hn & Hx). apply list_elem_of_bind in Hg as ([n s] & Hg & Hin).
    apply elem_of_sorted_services in Hin. cbv zeta in Hg. cbn [fst snd] in Hg.
    case_decide; [by apply elem_of_nil in Hg|]. apply list_elem_of_singleton in Hg as ->.
    rewrite complete_Service in Hn. rewrite complete_Vars in Hx. cbn in Hn, Hx. subst n. by rewrite (has_service_unique _ _ _ _ Hs Hin).
  - intros Hx. eexists. split; [eexists; split; [|reflexivity]|].
    + apply list_elem_of_bind. exists (name, svc). split; [|by apply elem_of_sorted_services].
      cbv zeta. cbn [fst snd]. rewrite decide_False; [by left|]. intros Hn. rewrite Hn in Hx. by apply elem_of_nil in Hx.
    + by rewrite complete_Service complete_Vars.
Qed.

(** ** Agreement with the policy *)

(** The lint and the worker policy agree on which images are pinned as long
    as no digest is involved; a digest makes an image pinned for the lint, while
    the policy still judges the tag in front of it, and blocks an image that is
    named by digest alone as untagged. *)
Theorem pinned_images (image digest : string) : ¬ in_string "@" image →
  (imageTag image).2 = negb (isLatestOrUntagged image)
  ∧ (imageTag (image +:+ String "@" digest)).2 = true
  ∧ isLatestOrUntagged (image +:+ String "@" digest) = isLatestOrUntagged image.
Proof.
  intros Hn. unfold imageTag, isLatestOrUntagged. cbv zeta.
  rewrite (proj2 (cut_None "@" image) Hn) (before_no_char _ _ Hn).
  rewrite (proj2 (cut_Some "@" _ image digest) (conj eq_refl Hn)) (before_app _ _ digest Hn). split; [|done].
  set (suffix := match rcut slash image with Some (_, r) => r | None => image end).
  destruct (rcut colon suffix) as [[l t]|]; [|done]. cbn [snd]. by rewrite negb_orb !bool_decide_not.
Qed.
End spec.

(** ** A document and its reports *)
#[local] Instance all_print : UnicodeTables := λ _, true.

Definition lint_demo : gmap string value :=
  {["services" := VMap {["web" := VMap {["image" := VStr "nginx:${TAG:?}";
                                         "environment" := VList [VStr "A=${X:-1}$$Y $Z"];
                                         "networks" := VList [VStr "front"]]}]};
    "networks" := VMap {["front" := VNull]}]}.

Definition demo_ctx : Context := {| ctx_Policy := None; ctx_EnvKeys := Some ∅; ctx_RepoRoot := "" |}.

Lemma lint_report_exact_witness :
  RunWith (reverse registry) lint_demo demo_ctx = Run lint_demo demo_ctx
  ∧ Errors (Run lint_demo demo_ctx) = 0%Z ∧ Warnings (Run lint_demo demo_ctx) = 2%Z
  ∧ Infos (Run lint_demo demo_ctx) = 2%Z.
Proof.
  split; [|by vm_compute].
  apply (lint_report_exact (reverse registry) lint_demo demo_ctx). apply reverse_Permutation.
Defined.

Lemma unresolved_variables_exact_witness :
  (∃ f, (f ∈ Findings (Run lint_demo demo_ctx) ∧ f_Rule f = RuleUnresolvedVariable)
    ∧ f_Service f = "web" ∧ "Z" ∈ f_Vars f)
  ∧ ¬ (∃ f, (f ∈ Findings (Run lint_demo demo_ctx) ∧ f_Rule f = RuleUnresolvedVariable)
    ∧ f_Service f = "web" ∧ "Y" ∈ f_Vars f).
Proof.
  assert (has_service lint_demo "web" (default ∅ (get_map "web" (default ∅ (get_map "services" lint_demo))))) as Hs
    by (eexists; split; vm_compute; reflexivity).
  split.
  - apply (unresolved_variables_exact lint_demo demo_ctx ∅ "web" _ "Z" eq_refl Hs).
    apply elem_of_missing_vars. apply (bool_decide_unpack _). by vm_compute.
  - intros Hy. apply (unresolved_variables_exact lint_demo demo_ctx ∅ "web" _ "Y" eq_refl Hs) in Hy.
    apply elem_of_missing_vars in Hy. revert Hy. apply (bool_decide_unpack _). by vm_compute.
Defined.

Lemma pinned_images_witness :
  (imageTag "nginx@sha256:00").2 = true ∧ isLatestOrUntagged "nginx@sha256:00" = true.
Proof.
  destruct (pinned_images "nginx" "sha256:00") as (_ & H1 & H2).
  - intros Hin. repeat (destruct Hin as [?|Hin]; [done|]). done.
  - split; [exact H1|]. etransitivity; [exact H2|reflexivity].
Defined.
