(* ===== verification/LintSource.v ===== *)
(** * internal/lint/source.go and redact.go: findings made presentable

    [ResolveLines] looks up the line of the source file a finding points at;
    [RedactFindings] removes the server's directories from its texts.

    The parsed source is a graph of [yaml.Node] structs that point at each other:
    a heap, since an alias may point back to a node that contains it. *)
From S2P Require Import Prelude GoStrings GoPath GoFmt GoValue LintCore.

(** ** YAML nodes *)
Inductive Kind := DocumentNode | SequenceNode | MappingNode | ScalarNode | AliasNode.

#[global] Instance Kind_eq_dec : EqDecision Kind.
Proof. solve_decision. Defined.

Definition ptr := positive.

Record Node := { n_Kind : Kind; n_Value : string; n_Line : Z; n_Content : list ptr; n_Alias : option ptr }.

Definition heap := gmap ptr Node.

Section source.
Context (h : heap).

(** The loop of [descendIndices]; [None] is running out of fuel, [Some None] is
    the result [ok = false]. *)
Fixpoint indices_loop (fuel : nat) (current : option ptr) (remaining : string) (matchedLine : Z)
    : option (option (option ptr * string * Z)) :=
  if negb (HasPrefix remaining "[")
  then Some (Some (current, TrimPrefix remaining ".", matchedLine))
  else match fuel with
  | 0 => None
  | S fuel =>
      match cut "]"%char remaining with
      | None => Some None
      | Some (l, rest) =>
          match Atoi (sdrop 1 l) with
          | None => Some None
          | Some idx =>
              if decide (idx < 0)%Z then Some None
              else
                match (c ← current; n ← h !! c;
                       if decide (n_Kind n = SequenceNode) then n_Content n !! Z.to_nat idx else None) with
                | None => Some (Some (None, "", matchedLine))
                | Some elem =>
                    indices_loop fuel (Some elem) rest
                      match h !! elem with Some n => n_Line n | None => 0%Z end
                end
          end
      end
  end.

Definition descendIndices (node : option ptr) (path : string) : option (option ptr * string * Z) :=
  default None (indices_loop (String.length path) node path 0).

(** Keys and values of a mapping. *)
Fixpoint candidates (content : list ptr) : list (Node * ptr) :=
  match content with
  | k :: v :: content => match h !! k with
                         | Some n => (n, v) :: candidates content
                         | None => candidates content
                         end
  | _ => []
  end.

Definition longer_key (a b : Node * ptr) : bool :=
  bool_decide (String.length (n_Value b.1) < String.length (n_Value a.1)).

(** One candidate against the path; [None] moves on to the next one. *)
Definition try_candidate (path : string) (c : Node * ptr) : option (option ptr * string * Z) :=
  let key := n_Value c.1 in
  if decide (key = "") then None
  else match strip_prefix key path with
  | None => None
  | Some EmptyString => Some (Some c.2, "", n_Line c.1)
  | Some (String "." rest) => Some (Some c.2, rest, n_Line c.1)
  | Some (String "[" _ as after) =>
      match descendIndices (Some c.2) after with
      | None => None
      | Some (elem, rest, line) => Some (elem, rest, if decide (line = 0)%Z then n_Line c.1 else line)
      end
  | Some _ => None
  end.

(** The node itself, or the one an alias stands for. *)
Definition deref (n : Node) : option Node :=
  if decide (n_Kind n = AliasNode) then match n_Alias n with Some a => h !! a | None => Some n end else Some n.

Definition mapping_of (node : option ptr) : option (list (Node * ptr)) :=
  p ← node; n ← h !! p; n ← deref n;
  if decide (n_Kind n = MappingNode) then Some (candidates (n_Content n)) else None.

Definition descend (node : option ptr) (path : string) : option (option ptr * string * Z) :=
  cs ← mapping_of node; head (omap (try_candidate path) (SliceStable longer_key cs)).

(** The loop of [deepestLine]; [None] is running out of fuel. *)
Fixpoint deepest_loop (fuel : nat) (current : option ptr) (remaining : string) (line : Z) : option Z :=
  if bool_decide (remaining = "") || bool_decide (current = None) then Some line
  else match fuel with
  | 0 => None
  | S fuel =>
      match descend current remaining with
      | None => Some line
      | Some (next, rest, matchedLine) => deepest_loop fuel next rest matchedLine
      end
  end.

Definition deepestLine (node : option ptr) (path : string) : Z :=
  default 0%Z (deepest_loop (String.length path) node path 0).
End source.

Definition with_line (line : Z) (f : Finding) : Finding :=
  {| f_Rule := f_Rule f; f_Title := f_Title f; f_Severity := f_Severity f; f_Service := f_Service f;
     f_Path := f_Path f; f_Line := line; f_Message := f_Message f; f_Hint := f_Hint f; f_Vars := f_Vars f |}.

(** [source] is what [yaml.Unmarshal] gave for the file: the nodes and the
    document's, or an error. *)
Definition ResolveLines (source : option (heap * ptr)) (findings : list Finding) : list Finding :=
  match findings, source with
  | [], _ | _, None => findings
  | _, Some (h, doc) =>
      let root := match h !! doc with
                  | Some n => if decide (n_Kind n = DocumentNode)
                              then match n_Content n with c :: _ => c | [] => doc end else doc
                  | None => doc
                  end in
      (λ f, if decide (f_Path f = "") then f else with_line (deepestLine h (Some root) (f_Path f)) f) <$> findings
  end.

(** ** Redaction *)

(** One root and its label; [abs] is [filepath.Abs] of a configured path. *)
Definition redact_root (abs : string → option string) (msg : string) (root : string * string) : string :=
  let '(path, label) := root in
  if decide (path = "") then msg
  else match abs path with
  | None => msg
  | Some a =>
      let trimmed := TrimSuffix a "/" in
      if decide (trimmed = "") then msg
      else ReplaceAll (ReplaceAll msg (trimmed +:+ "/") (label +:+ "/")) trimmed label
  end.

Definition redact_roots (reposWorkspace stacksStorage dataDir : string) : list (string * string) :=
  [(reposWorkspace, "<repos>"); (stacksStorage, "<stacks>"); (dataDir, "<data>")].

Section redact.
Context (abs : string → option string) (reposWorkspace stacksStorage dataDir : string).

Definition RedactWorkspacePaths (msg : string) : string :=
  foldl (redact_root abs) msg (redact_roots reposWorkspace stacksStorage dataDir).

Definition with_texts (msg hint : string) (f : Finding) : Finding :=
  {| f_Rule := f_Rule f; f_Title := f_Title f; f_Severity := f_Severity f; f_Service := f_Service f;
     f_Path := f_Path f; f_Line := f_Line f; f_Message := msg; f_Hint := hint; f_Vars := f_Vars f |}.

Definition RedactFindings (findings : list Finding) : list Finding :=
  (λ f, with_texts (RedactWorkspacePaths (f_Message f)) (RedactWorkspacePaths (f_Hint f)) f) <$> findings.
End redact.

(** ** Termination: every step consumes a part of the path *)
Section termination.
Context (h : heap).

Lemma TrimPrefix_length s p : String.length (TrimPrefix s p) ≤ String.length s.
Proof.
  unfold TrimPrefix. destruct (strip_prefix p s) as [r|] eqn:E; [|done].
  apply strip_prefix_Some in E as ->. rewrite slength_app. lia.
Qed.

Lemma cut_length c s l r : cut c s = Some (l, r) → String.length r < String.length s.
Proof. intros [-> _]%cut_Some. rewrite slength_app. simpl. lia. Qed.

Lemma indices_total fuel cur rem line : String.length rem ≤ fuel → is_Some (indices_loop h fuel cur rem line).
Proof.
  revert cur rem line. induction fuel as [|fuel IH]; intros cur rem line Hl; cbn [indices_loop].
  - destruct rem; [done|simpl in Hl; lia].
  - destruct (negb _); [done|]. destruct (cut _ rem) as [[l r]|] eqn:Hc; [|done].
    apply cut_length in Hc. destruct (Atoi _); [|done]. case_decide; [done|].
    destruct (_ ≫= _); [|done]. apply IH. lia.
Qed.

Lemma indices_shrink fuel cur rem line cur' rest line' :
  indices_loop h fuel cur rem line = Some (Some (cur', rest, line')) →
  String.length rest ≤ String.length rem ∧ (HasPrefix rem "[" = true → String.length rest < String.length rem).
Proof.
  revert cur rem line. induction fuel as [|fuel IH]; intros cur rem line; cbn [indices_loop].
  - destruct (HasPrefix rem "["); [done|]. intros; simplify_eq/=. split; [apply TrimPrefix_length|done].
  - destruct (HasPrefix rem "[") eqn:Hp; cbn [negb];
      [|intros; simplify_eq/=; split; [apply TrimPrefix_length|done]].
    destruct (cut _ rem) as [[l r]|] eqn:Hc; [|done]. pose proof (cut_length _ _ _ _ Hc).
    destruct (Atoi _); [|done]. case_decide; [done|]. destruct (_ ≫= _).
    + intros [? _]%IH. lia.
    + intros; simplify_eq. simpl. lia.
Qed.

Lemma try_candidate_shrinks path c next rest line :
  try_candidate h path c = Some (next, rest, line) → String.length rest < String.length path.
Proof.
  unfold try_candidate. cbv zeta. case_decide as Hk; [done|].
  destruct (strip_prefix _ path) as [after|] eqn:Hs; [|done]. apply strip_prefix_Some in Hs as ->.
  rewrite slength_app. assert (0 < String.length (n_Value c.1)) by (destruct (n_Value c.1); simpl; [done|lia]).
  destruct after as [|a after]; [intros; simplify_eq; simpl; lia|]. unfold descendIndices.
  destruct (decide (a = "["%char)) as [->|].
  - destruct (indices_loop h _ _ _ _) as [[[[e r] l]|]|] eqn:Hi; cbn [default id]; try done.
    intros [= ? <- ?]. apply indices_shrink in Hi as [? _]. lia.
  - intros Ha. assert (a = "."%char ∧ rest = after) as [-> ->]; [|simpl; lia].
    destruct a as [[] [] [] [] [] [] [] []]; simplify_eq; done.
Qed.

Lemma descend_shrinks node path next rest line :
  descend h node path = Some (next, rest, line) → String.length rest < String.length path.
Proof.
  unfold descend. intros (cs & _ & Hh)%bind_Some. apply head_Some_elem_of in Hh.
  apply list_elem_of_omap in Hh as (c & _ & Hc). by eapply try_candidate_shrinks.
Qed.

Lemma deepest_fuel fuel fuel' node path line : String.length path ≤ fuel → String.length path ≤ fuel' →
  deepest_loop h fuel node path line = deepest_loop h fuel' node path line
  ∧ is_Some (deepest_loop h fuel node path line).
Proof.
  revert fuel' node path line. induction fuel as [|fuel IH]; intros fuel' node path line H1 H2.
  - destruct path; [|simpl in H1; lia]. destruct fuel'; done.
  - destruct path as [|a path]; [destruct fuel'; done|]. destruct fuel' as [|fuel']; [simpl in H2; lia|].
    cbn [deepest_loop]. destruct (_ || _); [done|]. destruct (descend h node _) as [[[next rest] l]|] eqn:Hd; [|done].
    apply descend_shrinks in Hd. apply IH; simpl in *; lia.
Qed.
End termination.

(** Looking up the line of a finding terminates on every node graph, also
    on one in which an alias points back to a node around it: a loop of as many
    steps as the path has bytes always ends by itself, and more steps give the
    same line. *)
Theorem line_lookup_terminates (h : heap) (node : option ptr) (path : string) (fuel : nat) :
  String.length path ≤ fuel → deepest_loop h fuel node path 0 = Some (deepestLine h node path).
Proof.
  intros Hf. destruct (deepest_fuel h fuel (String.length path) node path 0 Hf (le_n _)) as [-> [l Hl]].
  unfold deepestLine. by rewrite Hl.
Qed.

(** A mapping whose only value is an alias of itself. *)
Definition cyclic : heap :=
  {[ 1%positive := {| n_Kind := MappingNode; n_Value := ""; n_Line := 1; n_Content := [2; 3]%positive; n_Alias := None |};
     2%positive := {| n_Kind := ScalarNode; n_Value := "a"; n_Line := 7; n_Content := []; n_Alias := None |};
     3%positive := {| n_Kind := AliasNode; n_Value := "x"; n_Line := 7; n_Content := []; n_Alias := Some 1%positive |} ]}.

Lemma line_lookup_terminates_witness : deepest_loop cyclic 100 (Some 1%positive) "a.a.a.b" 0 = Some 7%Z.
Proof. apply (line_lookup_terminates cyclic (Some 1%positive) "a.a.a.b" 100). vm_compute. lia. Defined.

(** ** Documents whose keys contain no path separator *)
Definition plain_key (k : string) : Prop := k ≠ "" ∧ ¬ in_string "." k ∧ ¬ in_string "[" k.

Definition plain_doc (h : heap) : Prop :=
  ∀ node cs c, mapping_of h node = Some cs → c ∈ cs → plain_key (n_Value c.1).

(** The reference lookup: one key per segment, from the root down, as far as it goes. *)
Definition lookup_key (h : heap) (node : option ptr) (k : string) : option (Z * ptr) :=
  cs ← mapping_of h node;
  head (omap (λ c : Node * ptr, if decide (n_Value c.1 = k) then Some (n_Line c.1, c.2) else None) cs).

Fixpoint walk (h : heap) (node : option ptr) (ks : list string) (line : Z) : Z :=
  match ks with
  | [] => line
  | k :: ks => match lookup_key h node k with
               | Some (l, v) => walk h (Some v) ks l
               | None => line
               end
  end.

Lemma sapp_eq_app s t u v : s +:+ t = u +:+ v →
  (∃ w, s = u +:+ w ∧ v = w +:+ t) ∨ (∃ w, u = s +:+ w ∧ t = w +:+ v).
Proof.
  revert u. induction s as [|a s IH]; intros u Heq; [right; exists u; by rewrite !sapp_nil_l|].
  destruct u as [|b u]; [left; exists (String a s); by rewrite !sapp_nil_l|].
  rewrite !sapp_cons in Heq. injection Heq as -> Heq.
  destruct (IH u Heq) as [(w & -> & ->)|(w & -> & ->)]; [left|right]; exists w; by rewrite sapp_cons.
Qed.

(** What remains of a path after its first segment. *)
Definition segment_rest (suffix rest : string) : Prop :=
  (suffix = "" ∧ rest = "") ∨ suffix = String "." rest.

Lemma strip_other key k suffix rest a after : plain_key key → plain_key k → key ≠ k → segment_rest suffix rest →
  strip_prefix key (k +:+ suffix) = Some (String a after) → a ≠ "."%char ∧ a ≠ "["%char.
Proof.
  intros (_ & Hd & Hb) (Hk & Hkd & Hkb) Hne Hs Hp. apply strip_prefix_Some in Hp.
  apply sapp_eq_app in Hp as [(w & -> & Ha)|(w & -> & ->)].
  - destruct w as [|b w]; [by rewrite sapp_nil_r in Hne|]. rewrite sapp_cons in Ha. simplify_eq.
    rewrite !in_string_app in Hkd, Hkb. simpl in Hkd, Hkb. naive_solver.
  - destruct w as [|b w]; [by rewrite sapp_nil_r in Hne|]. exfalso.
    destruct Hs as [[Hs _]|Hs]; rewrite sapp_cons in Hs; simplify_eq. apply Hd, in_string_app. right. by left.
Qed.

Lemma try_plain h k suffix rest c : plain_key (n_Value c.1) → plain_key k → segment_rest suffix rest →
  try_candidate h (k +:+ suffix) c = if decide (n_Value c.1 = k) then Some (Some c.2, rest, n_Line c.1) else None.
Proof.
  intros Hc Hk Hs. unfold try_candidate. cbv zeta. rewrite decide_False; [|apply Hc].
  case_decide as He.
  - rewrite He (proj2 (strip_prefix_Some k (k +:+ suffix) suffix) eq_refl).
    destruct Hs as [[-> ->]| ->]; done.
  - destruct (strip_prefix _ _) as [[|a after]|] eqn:Hp; [| |done].
    + apply strip_prefix_Some in Hp. rewrite sapp_nil_r in Hp. exfalso.
      destruct Hs as [[-> _]| ->]; [rewrite sapp_nil_r in Hp; done|].
      destruct Hc as (_ & Hd & _). apply Hd. rewrite -Hp. apply in_string_app. right. by left.
    + destruct (strip_other _ _ _ _ _ _ Hc Hk He Hs Hp) as [H1 H2].
      destruct a as [[] [] [] [] [] [] [] []]; done.
Qed.

Lemma omap_filter {A B} (f : A → option B) (P : A → Prop) `{∀ a, Decision (P a)} (l : list A) :
  (∀ a, ¬ P a → f a = None) → omap f (filter P l) = omap f l.
Proof.
  intros HP. induction l as [|a l IH]; [done|]. rewrite filter_cons. case_decide as Ha; cbn [omap list_omap].
  - by rewrite -IH.
  - by rewrite HP.
Qed.

(** The longest key first does not change the first match of one key. *)
Lemma first_key h k suffix rest cs : (∀ c, c ∈ cs → plain_key (n_Value c.1)) → plain_key k → segment_rest suffix rest →
  head (omap (try_candidate h (k +:+ suffix)) (SliceStable longer_key cs)) =
  (λ lv : Z * ptr, (Some lv.2, rest, lv.1)) <$>
    head (omap (λ c : Node * ptr, if decide (n_Value c.1 = k) then Some (n_Line c.1, c.2) else None) cs).
Proof.
  intros Hcs Hk Hs.
  assert (omap (try_candidate h (k +:+ suffix)) (SliceStable longer_key cs) =
    omap (λ c : Node * ptr, if decide (n_Value c.1 = k) then Some (Some c.2, rest, n_Line c.1) else None)
      (SliceStable longer_key cs)) as ->.
  { assert (∀ c, c ∈ SliceStable longer_key cs → plain_key (n_Value c.1)) as Hp
      by (intros c; rewrite SliceStable_perm; apply Hcs).
    induction (SliceStable longer_key cs) as [|c l IH]; [done|]. cbn [omap list_omap].
    rewrite (try_plain h k suffix rest); [|apply Hp; by left|done|done]. rewrite IH; [done|]. intros c' Hc'. apply Hp. by right. }
  rewrite -(omap_filter _ (λ c : Node * ptr, n_Value c.1 = k)); [|by intros; rewrite decide_False].
  rewrite SliceStable_stable; [|intros a b Ha Hb; unfold longer_key; apply bool_decide_eq_false; rewrite Ha Hb; lia].
  rewrite omap_filter; [|by intros; rewrite decide_False].
  rewrite -head_fmap. f_equal. clear. induction cs as [|c l IH]; [done|]. cbn [omap list_omap fmap list_fmap].
  case_decide; cbn; by rewrite IH.
Qed.

Lemma descend_plain h node k suffix rest : plain_doc h → plain_key k → segment_rest suffix rest →
  descend h node (k +:+ suffix) = (λ lv, (Some lv.2, rest, lv.1)) <$> lookup_key h node k.
Proof.
  intros Hd Hk Hs. unfold descend, lookup_key. destruct (mapping_of h node) as [cs|] eqn:Hm; [|done].
  cbn [mbind option_bind]. apply first_key; [|done..]. intros c. by apply (Hd node).
Qed.

Lemma walk_loop h ks : plain_doc h → Forall plain_key ks → ∀ fuel node line,
  String.length (Join "." ks) ≤ fuel → deepest_loop h fuel (Some node) (Join "." ks) line = Some (walk h (Some node) ks line).
Proof.
  intros Hd. induction 1 as [|k ks Hk Hks IH]; intros fuel node line Hf; [by destruct fuel|].
  assert (∃ suffix, Join "." (k :: ks) = k +:+ suffix ∧ segment_rest suffix (Join "." ks)) as (suffix & Hj & Hs).
  { destruct ks as [|k' ks]; [exists ""; rewrite sapp_nil_r; split; [done|by left]|].
    rewrite Join_cons //. exists ("." +:+ Join "." (k' :: ks)). split; [done|]. right. done. }
  rewrite Hj in Hf |- *. rewrite slength_app in Hf.
  assert (String.length k ≠ 0) by (destruct Hk as [? _]; by destruct k).
  destruct fuel as [|fuel]; [lia|]. cbn [deepest_loop walk].
  rewrite (bool_decide_eq_false_2 (k +:+ suffix = "")); [|destruct Hk as [? _]; by destruct k].
  rewrite (bool_decide_eq_false_2 (Some node = None)) //. cbn [orb].
  rewrite (descend_plain h _ k suffix _ Hd Hk Hs). destruct (lookup_key h (Some node) k) as [[l v]|]; [|done].
  cbn [fmap option_fmap option_map fst snd]. apply IH.
  destruct Hs as [[-> ->]|Hs]; simpl; [lia|]. rewrite Hs in Hf. simpl in Hf. lia.
Qed.

(** On a document whose keys contain neither a dot nor a bracket, the line of a
    finding is that of its path looked up key by key from the root: the line of
    the deepest key of the path that exists, and 0 when not even the first one
    does. *)
Theorem line_lookup_exact (h : heap) (root : ptr) (ks : list string) : plain_doc h → Forall plain_key ks →
  deepestLine h (Some root) (Join "." ks) = walk h (Some root) ks 0.
Proof. intros Hd Hk. unfold deepestLine. by rewrite (walk_loop h ks Hd Hk _ root 0%Z (le_n _)). Qed.

Lemma cyclic_plain : plain_doc cyclic.
Proof.
  intros [p|] cs c Hm Hc; [|done]. unfold mapping_of in Hm. cbn [mbind option_bind] in Hm.
  apply bind_Some in Hm as (n & Hn & Hm). apply bind_Some in Hm as (n' & Hn' & Hm).
  assert (cs = [({| n_Kind := ScalarNode; n_Value := "a"; n_Line := 7; n_Content := []; n_Alias := None |}, 3%positive)]) as ->.
  { unfold cyclic in Hn. repeat (apply lookup_insert_Some in Hn as [[<- <-]|[_ Hn]]); [..|by apply lookup_singleton_Some in Hn as [<- <-]; vm_compute in Hn'; simplify_eq; vm_compute in Hm; simplify_eq].
    all: vm_compute in Hn'; simplify_eq; vm_compute in Hm; by simplify_eq. }
  apply list_elem_of_singleton in Hc as ->. cbn. split; [done|]. by split; intros [?|[]].
Qed.

Lemma line_lookup_exact_witness : deepestLine cyclic (Some 1%positive) (Join "." ["a"; "a"; "b"]) = 7%Z.
Proof.
  rewrite (line_lookup_exact cyclic 1%positive ["a"; "a"; "b"] cyclic_plain); [reflexivity|].
  repeat constructor; try done; by intros [?|[]].
Defined.

(** ** Redaction leaves no root behind *)
(** A text that starts with a slash cannot start inside one that has none. *)
Lemma Contains_skip l x t : ¬ in_string slash l → Contains (l +:+ x) (String slash t) = true → Contains x (String slash t) = true.
Proof.
  induction l as [|a l IH]; intros Hl; [done|]. rewrite sapp_cons. cbn [Contains].
  rewrite HasPrefix_cons bool_decide_eq_false_2; [|intros <-; apply Hl; by left]. cbn [andb orb].
  apply IH. intros Hin. apply Hl. by right.
Qed.

Section leftovers.
Context (t : string).
Abbreviation root := (String slash t).
Hypothesis root_clean : ¬ in_string "<" root.

Lemma t_clean : ¬ in_string "<" t.
Proof. intros Hin. apply root_clean. by right. Qed.

Lemma Contains_app_r s x u : Contains x u = true → Contains (s +:+ x) u = true.
Proof. rewrite !Contains_spec. intros (l & r & ->). exists (s +:+ l), r. by rewrite !sapp_assoc. Qed.

Lemma Contains_prefix s u : HasPrefix s u = true → Contains s u = true.
Proof. intros [r ->]%HasPrefix_spec. apply Contains_spec. by exists "", r. Qed.

(** Replacing a directory, or a directory and its separator, brings back no root
    that was not there. *)
Lemma replace_preserves o label sep s : o +:+ sep ≠ "" → ¬ in_string slash label → sep = "" ∨ sep = "/" →
  Contains s root = false → Contains (ReplaceAll s (o +:+ sep) (String "<" label +:+ sep)) root = false.
Proof.
  intros Hne Hl Hsep. induction s as [|r IH|a s Hp IH] using (replace_ind _ Hne); [done|..]; intros Hs.
  - rewrite ReplaceAll_match //. apply not_true_iff_false. intros Hc. rewrite sapp_assoc in Hc.
    apply Contains_skip in Hc; [|intros [?|?]; done].
    assert (Contains r root = false) as Hr
      by (apply not_true_iff_false; intros Hr; apply not_true_iff_false in Hs; by apply Hs, Contains_app_r).
    specialize (IH Hr). destruct Hsep as [->| ->]; [by rewrite IH in Hc|].
    change ("/" +:+ ?x) with (String slash x) in Hc. cbn [Contains] in Hc. rewrite IH orb_false_r in Hc.
    rewrite HasPrefix_cons bool_decide_eq_true_2 // in Hc. cbn [andb] in Hc.
    apply replaced_prefix in Hc; [|done|apply t_clean].
    apply not_true_iff_false in Hs. apply Hs. rewrite sapp_assoc. apply Contains_app_r, Contains_prefix.
    change ("/" +:+ r) with (String slash r). by rewrite HasPrefix_cons bool_decide_eq_true_2.
  - rewrite ReplaceAll_other //. cbn [Contains] in Hs |- *. apply orb_false_iff in Hs as [Hs1 Hs2].
    rewrite (IH Hs2) orb_false_r. apply not_true_iff_false. intros Hc. rewrite -ReplaceAll_other // in Hc.
    apply replaced_prefix in Hc; [|done..]. congruence.
Qed.

(** Replacing a root removes it. *)
Lemma replace_removes label s : ¬ in_string slash label → Contains (ReplaceAll s root (String "<" label)) root = false.
Proof.
  intros Hl. rewrite -(sapp_nil_r (String "<" label)). assert (root ≠ "") as Hne by done.
  induction s as [|r IH|a s Hp IH] using (replace_ind _ Hne); [done|..].
  - rewrite ReplaceAll_match //. apply not_true_iff_false. rewrite sapp_nil_r in IH |- *. intros Hc.
    apply Contains_skip in Hc; [|intros [?|?]; done]. congruence.
  - rewrite ReplaceAll_other //. cbn [Contains]. rewrite IH orb_false_r. apply not_true_iff_false. intros Hc.
    rewrite -ReplaceAll_other // in Hc. apply replaced_prefix in Hc; [|done..]. congruence.
Qed.
End leftovers.

Lemma TrimSuffix_cases s x : TrimSuffix s x = s ∨ s = TrimSuffix s x +:+ x.
Proof.
  unfold TrimSuffix. destruct (HasSuffix s x) eqn:Hs; [right|by left]. unfold HasSuffix in Hs.
  apply HasPrefix_spec in Hs as [r Hr]. rewrite Hr TrimPrefix_app. apply (f_equal srev) in Hr.
  by rewrite srev_involutive srev_app srev_involutive in Hr.
Qed.

Section hidden.
Context (abs : string → option string).

Lemma redact_preserves t msg path label : ¬ in_string "<" (String slash t) → ¬ in_string slash label →
  Contains msg (String slash t) = false →
  Contains (redact_root abs msg (path, String "<" label)) (String slash t) = false.
Proof.
  intros Ht Hl Hm. unfold redact_root. case_decide; [done|]. destruct (abs path) as [a|]; [|done]. cbv zeta.
  case_decide as Hne; [done|].
  rewrite -(sapp_nil_r (TrimSuffix a "/")) -(sapp_nil_r (String "<" label)) in Hne |- *.
  apply (replace_preserves t Ht); [done|done|by left|]. rewrite !sapp_nil_r.
  apply (replace_preserves t Ht); [by destruct (TrimSuffix a "/")|done|by right|done].
Qed.

Lemma redact_removes t msg path label a : path ≠ "" → abs path = Some a → TrimSuffix a "/" = String slash t →
  ¬ in_string "<" (String slash t) → ¬ in_string slash label →
  Contains (redact_root abs msg (path, String "<" label)) (String slash t) = false.
Proof.
  intros Hp Ha Htr Ht Hl. unfold redact_root. rewrite decide_False // Ha Htr. cbv zeta. case_decide; [done|].
  by apply replace_removes.
Qed.

(** Redaction hides the server's directories: whatever a message was, no
    configured root (the repository workspace, the stack storage, the data
    directory) occurs in what is shown, in its absolute form, unless the root is
    the file system root or has an angle bracket in its name. *)
Theorem redaction_hides_roots (repos stacks data msg path a : string) :
  path ∈ [repos; stacks; data] → path ≠ "" → abs path = Some a → HasPrefix a "/" = true → ¬ in_string "<" a →
  TrimSuffix a "/" ≠ "" →
  Contains (RedactWorkspacePaths abs repos stacks data msg) (TrimSuffix a "/") = false.
Proof.
  intros Hin Hp Ha Hpre Hlt Hne.
  assert (∃ t, TrimSuffix a "/" = String slash t ∧ ¬ in_string "<" (String slash t)) as (t & Ht & Hc).
  { destruct (TrimSuffix a "/") as [|b t] eqn:E; [done|]. exists t.
    assert (∃ x, a = String b t +:+ x) as [x Hx].
    { destruct (TrimSuffix_cases a "/") as [H|H]; rewrite E in H; [exists ""; by rewrite sapp_nil_r|by exists "/"]. }
    rewrite Hx sapp_cons HasPrefix_cons in Hpre. apply andb_true_iff in Hpre as [<-%bool_decide_eq_true _].
    split; [done|]. intros Hi. apply Hlt. rewrite Hx. apply in_string_app. by left. }
  unfold RedactWorkspacePaths, redact_roots. cbn [foldl]. rewrite Ht.
  assert (¬ in_string slash "repos>" ∧ ¬ in_string slash "stacks>" ∧ ¬ in_string slash "data>") as (H1 & H2 & H3)
    by (rewrite -!cut_None; done).
  rewrite !elem_of_cons elem_of_nil in Hin. destruct Hin as [->|[->|[->|[]]]].
  - by do 2 (apply redact_preserves; [done|done|]); apply (redact_removes t _ _ _ a).
  - by apply redact_preserves; [done|done|]; apply (redact_removes t _ _ _ a).
  - by apply (redact_removes t _ _ _ a).
Qed.
End hidden.

Lemma redaction_hides_roots_witness :
  Contains (RedactWorkspacePaths Some "/data/repos" "/data/stacks/" "/data" "mount /data/repos/r1/x and /data") "/data" = false.
Proof.
  apply (redaction_hides_roots Some "/data/repos" "/data/stacks/" "/data" _ "/data" "/data").
  - by right; right; left.
  - done.
  - done.
  - done.
  - rewrite -cut_None. done.
  - done.
Defined.

Lemma redaction_example :
  RedactWorkspacePaths Some "/data/repos" "/data/stacks/" "/data" "mount /data/repos/r1/x and /data"
  = "mount <repos>/r1/x and <data>".
Proof. by vm_compute. Qed.
