(* ===== verification/Rbac.v ===== *)
(** * internal/rbac: roles, capabilities and the route guards *)
From S2P Require Import Prelude GoStrings.

(** ** Roles and capabilities *)
Definition RoleMonitoring := "monitoring".
Definition RoleViewer := "viewer".
Definition RoleOperator := "operator".
Definition RoleAdmin := "admin".

Definition ActorUser := "user".
Definition ActorAgent := "agent".

(** [Capability] is a string type in the source as well. *)
Definition CapViewMetrics := "view_metrics".
Definition CapViewStacks := "view_stacks".
Definition CapViewJobs := "view_jobs".
Definition CapViewLogs := "view_logs".
Definition CapOperateStacks := "operate_stacks".
Definition CapManageRepos := "manage_repositories".
Definition CapViewWorkers := "view_workers".
Definition CapManageWorkers := "manage_workers".
Definition CapManageJobs := "manage_jobs".
Definition CapManageSettings := "manage_settings".
Definition CapManageUsers := "manage_users".
Definition CapManageSecurity := "manage_security".
Definition CapViewAuditLogs := "view_audit_logs".
Definition CapUseTerminal := "use_terminal".
Definition CapViewWorkerPolicy := "view_worker_policy".

Definition minimumRoleByCapability : gmap string string :=
  list_to_map
    [(CapViewMetrics, RoleMonitoring); (CapViewStacks, RoleViewer); (CapViewJobs, RoleViewer);
     (CapViewLogs, RoleViewer); (CapOperateStacks, RoleOperator); (CapManageRepos, RoleOperator);
     (CapViewWorkers, RoleViewer); (CapManageWorkers, RoleOperator); (CapManageJobs, RoleOperator);
     (CapManageSettings, RoleAdmin); (CapManageUsers, RoleAdmin); (CapManageSecurity, RoleAdmin);
     (CapViewAuditLogs, RoleAdmin); (CapUseTerminal, RoleOperator);
     (CapViewWorkerPolicy, RoleOperator)].

Definition NormalizeRole (role : string) : string :=
  let r := ToLower (TrimSpace role) in
  if decide (r = RoleMonitoring) then RoleMonitoring
  else if decide (r = RoleViewer) then RoleViewer
  else if decide (r = RoleOperator) then RoleOperator
  else if decide (r = RoleAdmin) then RoleAdmin
  else "".

Definition MustNormalizeRole (role : string) : string :=
  if decide (NormalizeRole role = "") then RoleViewer else NormalizeRole role.

Definition RoleRank (role : string) : nat :=
  let r := NormalizeRole role in
  if decide (r = RoleMonitoring) then 1
  else if decide (r = RoleViewer) then 2
  else if decide (r = RoleOperator) then 3
  else if decide (r = RoleAdmin) then 4
  else 0.

Definition AtLeast (role minimum : string) : bool := RoleRank minimum <=? RoleRank role.

Definition highest_step (best role : string) : string :=
  let normalized := NormalizeRole role in
  if RoleRank best <? RoleRank normalized then normalized else best.

Definition HighestRole (roles : list string) : string := foldl highest_step "" roles.

Definition MinimumRole (capability : string) : string :=
  default RoleAdmin (minimumRoleByCapability !! capability).

Definition AllCapabilities : list string := sorted_keys minimumRoleByCapability.

Definition CapabilitiesFor (role : string) : list string :=
  filter (λ c, AtLeast role (MinimumRole c) = true) AllCapabilities.

(** ** Requests and guards *)

(** The authenticated record of a request event. *)
Record auth_record := {
  a_superuser : bool;
  a_collection : option string;
  a_disabled : bool;
  a_role : string;
  a_id : string
}.

(** A [*core.RequestEvent]: [None] is a nil event; its [Auth] may be nil too. *)
Definition event := option (option auth_record).

Definition ResolveActor (e : event) : string * string * string :=
  match e with
  | None | Some None => ("", "", "")
  | Some (Some auth) =>
      if a_superuser auth then (RoleAdmin, ActorUser, a_id auth)
      else if bool_decide (a_collection auth = Some "users") && a_disabled auth
      then ("", ActorUser, a_id auth)
      else
        let role := NormalizeRole (a_role auth) in
        let actorType := if decide (a_collection auth = Some "service_accounts")
                         then ActorAgent else ActorUser in
        (role, actorType, a_id auth)
  end.

Definition Can (e : event) (capability : string) : bool :=
  let '(role, _, _) := ResolveActor e in AtLeast role (MinimumRole capability).

(** What a guard does with the request. *)
Inductive outcome :=
| Next
| ReturnNil
| Unauthorized
| Forbidden (capability minimum_role actor_role : string)
| ForbiddenNotSuperuser.

Definition Require (capability : string) (e : event) : outcome :=
  if Can e capability then Next
  else match e with
  | None => ReturnNil
  | Some None => Unauthorized
  | Some (Some _) =>
      let '(role, _, _) := ResolveActor e in Forbidden capability (MinimumRole capability) role
  end.

Definition RequireSuperuser (e : event) : outcome :=
  match e with
  | Some (Some auth) => if a_superuser auth then Next else ForbiddenNotSuperuser
  | Some None => Unauthorized
  | None => ReturnNil
  end.

(** ** Lemmas *)
Definition known_roles : list string := [RoleMonitoring; RoleViewer; RoleOperator; RoleAdmin].

Lemma NormalizeRole_cases role :
  NormalizeRole role = "" ∨ NormalizeRole role ∈ known_roles.
Proof.
  unfold NormalizeRole, known_roles. set (r := ToLower _).
  repeat case_decide; (by left) || (right; set_solver).
Qed.

Lemma NormalizeRole_known r : r ∈ known_roles → NormalizeRole r = r.
Proof.
  unfold known_roles. rewrite !elem_of_cons elem_of_nil.
  intros [->|[->|[->|[->|[]]]]]; vm_compute; reflexivity.
Qed.

Lemma NormalizeRole_idemp role : NormalizeRole (NormalizeRole role) = NormalizeRole role.
Proof.
  destruct (NormalizeRole_cases role) as [->|H]; [reflexivity|by apply NormalizeRole_known].
Qed.

Lemma RoleRank_normalize role : RoleRank (NormalizeRole role) = RoleRank role.
Proof. unfold RoleRank. by rewrite NormalizeRole_idemp. Qed.

Lemma RoleRank_known r : r ∈ known_roles → 1 ≤ RoleRank r.
Proof.
  unfold known_roles. rewrite !elem_of_cons elem_of_nil.
  intros [->|[->|[->|[->|[]]]]]; vm_compute; lia.
Qed.

Lemma RoleRank_le role : RoleRank role ≤ 4.
Proof. unfold RoleRank. repeat case_decide; lia. Qed.

Lemma RoleRank_inj r s : NormalizeRole r = r → NormalizeRole s = s →
  RoleRank r = RoleRank s → r = s.
Proof.
  intros Hr Hs. pose proof (NormalizeRole_cases r) as Cr. pose proof (NormalizeRole_cases s) as Cs.
  rewrite Hr in Cr. rewrite Hs in Cs. clear Hr Hs. revert Cr Cs.
  unfold known_roles. rewrite !elem_of_cons !elem_of_nil.
  intros [->|[->|[->|[->|[->|[]]]]]] [->|[->|[->|[->|[->|[]]]]]]; vm_compute; done.
Qed.

Lemma MinimumRole_known c : MinimumRole c ∈ known_roles.
Proof.
  unfold MinimumRole. destruct (minimumRoleByCapability !! c) as [r|] eqn:Hc; simpl; [|set_solver].
  apply elem_of_list_to_map_2 in Hc. revert Hc. unfold known_roles. rewrite !elem_of_cons elem_of_nil.
  intuition (simplify_eq; auto).
Qed.

Lemma AtLeast_true role m : AtLeast role m = true ↔ RoleRank m ≤ RoleRank role.
Proof. apply Nat.leb_le. Qed.

Lemma CapabilitiesFor_spec role c :
  c ∈ CapabilitiesFor role ↔
  is_Some (minimumRoleByCapability !! c) ∧ AtLeast role (MinimumRole c) = true.
Proof.
  unfold CapabilitiesFor, AllCapabilities.
  rewrite list_elem_of_filter elem_of_sorted_keys. tauto.
Qed.

Lemma Require_Next c e : Require c e = Next ↔ Can e c = true.
Proof.
  unfold Require. destruct (Can e c); [done|]. destruct e as [[auth|]|]; [|done..].
  by destruct (ResolveActor _) as [[]].
Qed.

Lemma AtLeast_empty c : AtLeast "" (MinimumRole c) = false.
Proof.
  pose proof (RoleRank_known _ (MinimumRole_known c)). apply not_true_iff_false.
  rewrite AtLeast_true. change (RoleRank "") with 0. lia.
Qed.

Lemma AtLeast_admin c : AtLeast RoleAdmin (MinimumRole c) = true.
Proof. rewrite AtLeast_true. change (RoleRank RoleAdmin) with 4. apply RoleRank_le. Qed.

Lemma Can_auth auth c : Can (Some (Some auth)) c = true ↔
  if a_superuser auth then True
  else ¬ (a_collection auth = Some "users" ∧ a_disabled auth = true) ∧
       AtLeast (a_role auth) (MinimumRole c) = true.
Proof.
  unfold Can, ResolveActor. destruct (a_superuser auth); [by rewrite AtLeast_admin|].
  destruct (bool_decide (a_collection auth = Some "users") && a_disabled auth) eqn:Hd.
  - bool_props. rewrite AtLeast_empty. split; [done|]. intros [[] _]; done.
  - rewrite !AtLeast_true RoleRank_normalize. apply andb_false_iff in Hd.
    split; [|by intros [_ ?]]. intros H. split; [|done]. intros [Hu Hdis].
    destruct Hd as [Hd|Hd]; bool_props; congruence.
Qed.

(** Folding the maximum: the accumulator is always a normalised role. *)
Lemma HighestRole_fold roles best : NormalizeRole best = best →
  let r := foldl highest_step best roles in
  NormalizeRole r = r ∧ RoleRank best ≤ RoleRank r ∧
  (∀ role, role ∈ roles → RoleRank role ≤ RoleRank r) ∧
  (r = best ∨ ∃ role, role ∈ roles ∧ r = NormalizeRole role).
Proof.
  revert best. induction roles as [|x roles IH]; intros best Hb; simpl.
  { split_and!; [done..| |by left]. by intros ? ?%elem_of_nil. }
  assert (highest_step best x = if RoleRank best <? RoleRank x then NormalizeRole x else best) as ->
    by (unfold highest_step; by rewrite RoleRank_normalize).
  destruct (RoleRank best <? RoleRank x) eqn:Hlt.
  - apply Nat.ltb_lt in Hlt.
    destruct (IH (NormalizeRole x)) as (H1 & H2 & H3 & H4); [apply NormalizeRole_idemp|].
    rewrite (RoleRank_normalize x) in H2. split_and!; [done|lia| |].
    + intros r [->|Hr]%elem_of_cons; [done|by apply H3].
    + right. destruct H4 as [->|(r & ? & ?)]; [exists x|exists r]; by rewrite elem_of_cons; auto.
  - apply Nat.ltb_ge in Hlt. destruct (IH best Hb) as (H1 & H2 & H3 & H4).
    split_and!; [done|done| |].
    + intros r [->|Hr]%elem_of_cons; [lia|by apply H3].
    + destruct H4 as [->|(r & ? & ?)]; [by left|right]. exists r. rewrite elem_of_cons. auto.
Qed.

(** ** Properties *)

(** The route guard and the introspection listing agree, and both follow the
    actor: a request passes [Require] for a known capability exactly when it is
    authenticated and its actor is a superuser, or an account other than a
    disabled user whose role lists the capability. *)
Theorem require_matches_listing (e : event) (c : string) :
  is_Some (minimumRoleByCapability !! c) →
  Require c e = Next ↔
  ∃ auth, e = Some (Some auth) ∧
    if a_superuser auth then True
    else ¬ (a_collection auth = Some "users" ∧ a_disabled auth = true) ∧
         c ∈ CapabilitiesFor (a_role auth).
Proof.
  intros Hc. rewrite Require_Next. destruct e as [[auth|]|].
  - rewrite Can_auth. split.
    + intros H. exists auth. split; [done|]. destruct (a_superuser auth); [done|].
      rewrite CapabilitiesFor_spec. tauto.
    + intros (a & ? & H); simplify_eq. destruct (a_superuser a); [done|].
      rewrite CapabilitiesFor_spec in H. tauto.
  - unfold Can. simpl. rewrite AtLeast_empty. naive_solver.
  - unfold Can. simpl. rewrite AtLeast_empty. naive_solver.
Qed.

Definition agent_event : event :=
  Some (Some (Build_auth_record false (Some "service_accounts") false " Operator " "a1")).

Lemma require_matches_listing_witness :
  Require CapUseTerminal agent_event = Next ∧ Require CapManageSettings agent_event ≠ Next.
Proof.
  split.
  - apply (require_matches_listing agent_event CapUseTerminal); [vm_compute; eauto|].
    eexists. split; [reflexivity|]. simpl. split; [intros [? _]; discriminate|].
    apply CapabilitiesFor_spec. vm_compute. eauto.
  - intros (a & Ha & H)%(require_matches_listing agent_event CapManageSettings);
      [|vm_compute; eauto].
    injection Ha as <-. destruct H as [_ H]. apply CapabilitiesFor_spec in H as [_ H].
    vm_compute in H. discriminate H.
Defined.

(** Roles form a ladder: a role that is at least another one has every
    capability of it, a role below admin has none of the administrative
    capabilities, and an unknown role has none at all. *)
Theorem capabilities_ladder (r s : string) :
  (AtLeast r s = true → CapabilitiesFor s ⊆ CapabilitiesFor r) ∧
  (AtLeast r RoleAdmin = false →
     ∀ c, c ∈ [CapManageSettings; CapManageUsers; CapManageSecurity; CapViewAuditLogs] →
          c ∉ CapabilitiesFor r) ∧
  (NormalizeRole r = "" → CapabilitiesFor r = []).
Proof.
  split_and!.
  - intros Hrs c. rewrite !CapabilitiesFor_spec !AtLeast_true. apply AtLeast_true in Hrs.
    intros [? ?]. split; [done|lia].
  - intros Hr c Hc. rewrite CapabilitiesFor_spec.
    assert (MinimumRole c = RoleAdmin) as ->; [|intros [_ ?]; congruence].
    rewrite !elem_of_cons elem_of_nil in Hc.
    destruct Hc as [->|[->|[->|[->|[]]]]]; vm_compute; reflexivity.
  - intros Hr. destruct (CapabilitiesFor r) as [|c l] eqn:Hl; [done|].
    assert (c ∈ CapabilitiesFor r) as [_ H]%CapabilitiesFor_spec by (rewrite Hl; by constructor).
    apply AtLeast_true in H. rewrite -(RoleRank_normalize r) Hr in H.
    pose proof (RoleRank_known _ (MinimumRole_known c)). change (RoleRank "") with 0 in H. lia.
Qed.

Lemma capabilities_ladder_witness :
  CapabilitiesFor RoleViewer ⊆ CapabilitiesFor "OPERATOR" ∧ CapabilitiesFor "root" = [].
Proof.
  split; [by apply (capabilities_ladder "OPERATOR" RoleViewer)|].
  by apply (capabilities_ladder "root" "root").
Defined.

(** [HighestRole] returns a normalised role whose rank is the maximum of the
    ranks of its arguments, and one of its arguments unless all are unknown. *)
Theorem highest_role_is_maximum (roles : list string) :
  NormalizeRole (HighestRole roles) = HighestRole roles ∧
  (∀ r, r ∈ roles → RoleRank r ≤ RoleRank (HighestRole roles)) ∧
  (HighestRole roles = "" ∨ ∃ r, r ∈ roles ∧ HighestRole roles = NormalizeRole r).
Proof. destruct (HighestRole_fold roles "") as (? & _ & ? & ?); [done|]. done. Qed.
