(* ===== verification/Fanout.v ===== *)
(** * Channel fan-out

    The part internal/logstream and internal/termstream have in common: a map
    from a key (stack or session id) to the buffered channels of its
    subscribers, all access under one mutex.  A Go channel is a buffer and a
    closed flag in a store, so that a subscriber and the broker share it; a
    send is the non-blocking [select { case c <- ev: default: }], and a send on
    a closed channel, a panic in Go, is [None]. *)
From S2P Require Import Prelude.

Section fanout.
Context {E : Type} (cap : nat).

Record chan := { buf : list E; closed : bool }.

Record hub := { subs : gmap string (list nat); chans : gmap nat chan; next : nat }.

Definition empty_hub : hub := {| subs := ∅; chans := ∅; next := 0 |}.

(** [b.subs[key]], nil when absent. *)
Definition subs_of (key : string) (h : hub) : list nat := default [] (subs h !! key).

Definition send (ev : E) (c : chan) : option chan :=
  if closed c then None
  else if decide (length (buf c) < cap) then Some {| buf := buf c ++ [ev]; closed := false |}
  else Some c.

Definition deliver (ev : E) (ids : list nat) (cs : gmap nat chan) : option (gmap nat chan) :=
  foldl (λ acc id, cs ← acc; c ← cs !! id; c' ← send ev c; Some (<[id := c']> cs)) (Some cs) ids.

Definition publish (key : string) (ev : E) (h : hub) : option hub :=
  cs ← deliver ev (subs_of key h) (chans h);
  Some {| subs := subs h; chans := cs; next := next h |}.

(** A fresh channel that first receives [init], what does not fit dropped. *)
Definition subscribe (key : string) (init : list E) (h : hub) : nat * hub :=
  let c := next h in
  (c, {| subs := <[key := subs_of key h ++ [c]]> (subs h);
         chans := <[c := {| buf := take cap init; closed := false |}]> (chans h);
         next := S c |}).

Fixpoint remove_first (c : nat) (l : list nat) : list nat :=
  match l with
  | [] => []
  | x :: l => if decide (x = c) then l else x :: remove_first c l
  end.

(** The closure [unsub]: remove the channel if it is still registered, close
    it, and drop the key when nobody is left. *)
Definition unsubscribe (key : string) (c : nat) (h : hub) : hub :=
  let ids := subs_of key h in
  let '(ids', cs) :=
    if decide (c ∈ ids)
    then (remove_first c ids, alter (λ ch, {| buf := buf ch; closed := true |}) c (chans h))
    else (ids, chans h) in
  {| subs := if decide (ids' = []) then delete key (subs h) else <[key := ids']> (subs h);
     chans := cs; next := next h |}.

(** The subscriber's side: take one event out of the buffer. *)
Definition recv (c : nat) (h : hub) : option (E * hub) :=
  ch ← chans h !! c;
  match buf ch with
  | [] => None
  | ev :: rest =>
      Some (ev, {| subs := subs h; chans := <[c := {| buf := rest; closed := closed ch |}]> (chans h);
                   next := next h |})
  end.

(** ** Invariant *)
Record wf (h : hub) : Prop := {
  wf_live : ∀ key ids, subs h !! key = Some ids → ids ≠ [] ∧ NoDup ids ∧
    ∀ c, c ∈ ids → ∃ ch, chans h !! c = Some ch ∧ closed ch = false;
  wf_disjoint : ∀ k1 k2 c, c ∈ subs_of k1 h → c ∈ subs_of k2 h → k1 = k2;
  wf_bounded : ∀ c ch, chans h !! c = Some ch → c < next h ∧ length (buf ch) ≤ cap
}.

Implicit Types (h : hub) (ev : E).

Lemma subs_of_Some key ids h : subs h !! key = Some ids → subs_of key h = ids.
Proof. intros H. unfold subs_of. by rewrite H. Qed.

Lemma elem_subs_of key c h : c ∈ subs_of key h → ∃ ids, subs h !! key = Some ids ∧ c ∈ ids.
Proof.
  unfold subs_of. destruct (subs h !! key) as [ids|]; simpl; [eauto|by intros ?%elem_of_nil].
Qed.

Lemma wf_sub h key c : wf h → c ∈ subs_of key h →
  ∃ ch, chans h !! c = Some ch ∧ closed ch = false.
Proof. intros Hw (ids & Hk & Hc)%elem_subs_of. by apply (wf_live h Hw key ids). Qed.

Lemma wf_NoDup h key : wf h → NoDup (subs_of key h).
Proof.
  intros Hw. unfold subs_of. destruct (subs h !! key) as [ids|] eqn:Hk; simpl; [|constructor].
  by apply (wf_live h Hw key ids).
Qed.

Lemma remove_first_elem c x l : x ∈ remove_first c l → x ∈ l.
Proof. induction l as [|y l IH]; simpl; [done|]. case_decide; set_solver. Qed.

Lemma remove_first_NoDup c l : NoDup l → NoDup (remove_first c l) ∧ c ∉ remove_first c l.
Proof.
  induction l as [|y l IH]; simpl; [set_solver|]. intros [Hy Hl]%NoDup_cons.
  destruct (IH Hl). case_decide; [by subst|]. rewrite NoDup_cons.
  split; [split; [|done]|set_solver]. intros ?%remove_first_elem. done.
Qed.

(** Delivery touches the listed channels only, appending where there is room. *)
Lemma deliver_spec ev ids cs : NoDup ids →
  (∀ c, c ∈ ids → ∃ ch, cs !! c = Some ch ∧ closed ch = false) →
  ∃ cs', deliver ev ids cs = Some cs' ∧
    ∀ c, cs' !! c = if decide (c ∈ ids)
                    then (λ ch, if decide (length (buf ch) < cap)
                                then {| buf := buf ch ++ [ev]; closed := false |} else ch) <$> cs !! c
                    else cs !! c.
Proof.
  revert cs. induction ids as [|i ids IH]; intros cs Hnd Hlive.
  { exists cs. split; [done|]. intros c. done. }
  apply NoDup_cons in Hnd as [Hi Hnd].
  destruct (Hlive i) as (ch & Hch & Hcl); [by constructor|].
  set (ch' := if decide (length (buf ch) < cap)
              then {| buf := buf ch ++ [ev]; closed := false |} else ch).
  assert (send ev ch = Some ch') as Hsend by (unfold send, ch'; rewrite Hcl; by case_decide).
  destruct (IH (<[i := ch']> cs)) as (cs' & Hd & Hcs'); [done| |].
  { intros c Hc. rewrite lookup_insert_ne; [|by intros ->]. apply Hlive. by constructor. }
  exists cs'. split.
  { unfold deliver in *. simpl. by rewrite Hch /= Hsend. }
  intros c. rewrite Hcs'. destruct (decide (c = i)) as [->|Hne].
  - rewrite decide_False // decide_True; [|by constructor]. rewrite lookup_insert_eq Hch. done.
  - rewrite lookup_insert_ne //. case_decide; [rewrite decide_True; [done|by constructor]|].
    rewrite decide_False //. rewrite elem_of_cons. naive_solver.
Qed.

(** Publishing to a well-formed hub never panics. *)
Lemma publish_spec key ev h : wf h →
  ∃ h', publish key ev h = Some h' ∧ subs h' = subs h ∧ next h' = next h ∧
    ∀ c, chans h' !! c = if decide (c ∈ subs_of key h)
                    then (λ ch, if decide (length (buf ch) < cap)
                                then {| buf := buf ch ++ [ev]; closed := false |} else ch) <$> chans h !! c
                    else chans h !! c.
Proof.
  intros Hw. destruct (deliver_spec ev (subs_of key h) (chans h)) as (cs' & Hd & Hcs').
  - by apply wf_NoDup.
  - intros c. by apply wf_sub.
  - eexists. unfold publish. rewrite Hd. simpl. eauto.
Qed.

Lemma wf_empty : wf empty_hub.
Proof.
  split; simpl; [intros key ids Hk; by rewrite lookup_empty in Hk| |intros c ch Hc; by rewrite lookup_empty in Hc].
  intros k1 k2 c Hc. unfold subs_of in Hc. simpl in Hc. rewrite lookup_empty in Hc.
  by apply elem_of_nil in Hc.
Qed.

Lemma wf_publish key ev h h' : wf h → publish key ev h = Some h' → wf h'.
Proof.
  intros Hw Hp. destruct (publish_spec key ev h Hw) as (h'' & Hp' & Hs & Hn & Hc); simplify_eq.
  split.
  - intros k ids Hk. rewrite Hs in Hk. destruct (wf_live h Hw k ids Hk) as (? & ? & Hl).
    split_and!; [done..|]. intros c Hin. destruct (Hl c Hin) as (ch & Hch & Hcl).
    rewrite Hc Hch. case_decide; [|eauto]. simpl. case_decide; eauto.
  - intros k1 k2 c. unfold subs_of. rewrite Hs. apply (wf_disjoint h Hw).
  - intros c ch. rewrite Hc Hn. case_decide; [|apply (wf_bounded h Hw)].
    destruct (chans h !! c) as [ch0|] eqn:Hch; simpl; [|done]. intros; simplify_eq.
    destruct (wf_bounded h Hw c ch0 Hch) as [? ?]. split; [done|].
    case_decide; [|done]. simpl. rewrite length_app /=. lia.
Qed.

Lemma wf_subscribe key init h : wf h → wf (subscribe key init h).2.
Proof.
  intros Hw. unfold subscribe. simpl.
  assert (∀ k c, c ∈ subs_of k h → c < next h) as Hlt.
  { intros k c Hc. destruct (wf_sub h k c Hw Hc) as (ch & Hch & _). by apply (wf_bounded h Hw c ch). }
  split; simpl.
  - intros k ids. destruct (decide (k = key)) as [->|Hne].
    + rewrite lookup_insert_eq. intros [= <-]. split; [by destruct (subs_of key h)|]. split.
      * apply NoDup_app. split_and!; [by apply wf_NoDup| |apply NoDup_singleton].
        intros c Hc ->%list_elem_of_singleton. specialize (Hlt _ _ Hc). lia.
      * intros c [Hc| ->%list_elem_of_singleton]%elem_of_app; [|rewrite lookup_insert_eq; eauto].
        rewrite lookup_insert_ne; [by eapply wf_sub|]. specialize (Hlt _ _ Hc). lia.
    + rewrite lookup_insert_ne //. intros Hk. destruct (wf_live h Hw k ids Hk) as (? & ? & Hl).
      split_and!; [done..|]. intros c Hc. rewrite lookup_insert_ne; [by apply Hl|].
      rewrite -(subs_of_Some _ _ _ Hk) in Hc. specialize (Hlt _ _ Hc). lia.
  - assert (∀ k c, c ∈ subs_of k {| subs := <[key:=subs_of key h ++ [next h]]> (subs h);
        chans := <[next h := {| buf := take cap init; closed := false |}]> (chans h); next := S (next h) |} →
        c ∈ subs_of k h ∨ (k = key ∧ c = next h)) as Hin.
    { intros k c. unfold subs_of at 1. simpl. destruct (decide (k = key)) as [->|Hne].
      - rewrite lookup_insert_eq /=. intros [?| ->%list_elem_of_singleton]%elem_of_app; auto.
      - rewrite lookup_insert_ne //. auto. }
    intros k1 k2 c [H1|[-> ->]]%Hin [H2|[-> Hc]]%Hin; subst; try done.
    + by eapply (wf_disjoint h Hw).
    + specialize (Hlt _ _ H1). lia.
    + specialize (Hlt _ _ H2). lia.
  - intros c ch. destruct (decide (c = next h)) as [->|Hne].
    + rewrite lookup_insert_eq. intros [= <-]. simpl. rewrite length_take. lia.
    + rewrite lookup_insert_ne //. intros Hc. destruct (wf_bounded h Hw c ch Hc). lia.
Qed.

Lemma subs_of_unsubscribe key c k h :
  subs_of k (unsubscribe key c h) =
  if decide (k = key ∧ c ∈ subs_of key h) then remove_first c (subs_of key h) else subs_of k h.
Proof.
  unfold unsubscribe. destruct (decide (c ∈ subs_of key h)) as [Hc|Hc]; unfold subs_of at 1; simpl.
  - destruct (decide (k = key)) as [->|Hne].
    + rewrite (decide_True (P := key = key ∧ c ∈ subs_of key h)) //.
      case_decide as Hr; [by rewrite lookup_delete_eq Hr|by rewrite lookup_insert_eq].
    + rewrite (decide_False (P := k = key ∧ c ∈ subs_of key h)); [|naive_solver].
      case_decide; [by rewrite lookup_delete_ne|by rewrite lookup_insert_ne].
  - rewrite (decide_False (P := k = key ∧ c ∈ subs_of key h)); [|naive_solver].
    destruct (decide (k = key)) as [->|Hne].
    + case_decide as Hr; [by rewrite lookup_delete_eq Hr|by rewrite lookup_insert_eq].
    + case_decide; [by rewrite lookup_delete_ne|by rewrite lookup_insert_ne].
Qed.

Lemma unsubscribe_key_nonempty key c k ids h : wf h →
  subs (unsubscribe key c h) !! k = Some ids → ids ≠ [].
Proof.
  intros Hw. unfold unsubscribe. case_decide; simpl; case_decide as Hr;
    (destruct (decide (k = key)) as [->|Hne];
     [rewrite ?lookup_delete_eq ?lookup_insert_eq|rewrite ?lookup_delete_ne ?lookup_insert_ne //]);
    try done; try (intros; by simplify_eq); apply (wf_live h Hw).
Qed.

Lemma wf_unsubscribe key c h : wf h → wf (unsubscribe key c h).
Proof.
  intros Hw.
  assert (∀ k x, x ∈ subs_of k (unsubscribe key c h) → x ∈ subs_of k h ∧ (c ∈ subs_of key h → x ≠ c)) as Hin.
  { intros k x. rewrite subs_of_unsubscribe. case_decide as Hd.
    - destruct Hd as [-> Hc]. destruct (remove_first_NoDup c (subs_of key h)); [by apply wf_NoDup|].
      intros Hx. split; [by eapply remove_first_elem|]. congruence.
    - intros Hx. split; [done|]. intros Hc ->. apply Hd. split; [|done].
      by eapply (wf_disjoint h Hw). }
  split.
  - intros k ids Hk. split; [by eapply unsubscribe_key_nonempty|].
    apply subs_of_Some in Hk. subst ids. split.
    + rewrite subs_of_unsubscribe. case_decide; [|by apply wf_NoDup].
      apply remove_first_NoDup. by apply wf_NoDup.
    + intros x [Hx Hne]%Hin. destruct (wf_sub h k x Hw Hx) as (ch & Hch & Hcl). exists ch.
      split; [|done]. unfold unsubscribe. case_decide; simpl; [|done].
      rewrite lookup_alter_ne //. intros ->. by apply Hne.
  - intros k1 k2 x [H1 _]%Hin [H2 _]%Hin. by eapply (wf_disjoint h Hw).
  - intros x ch. unfold unsubscribe. case_decide; simpl; [|apply (wf_bounded h Hw)].
    rewrite lookup_alter. case_decide as Hcx; [subst x|apply (wf_bounded h Hw)].
    destruct (chans h !! c) as [ch0|] eqn:Hx; simpl; [|done]. intros; simplify_eq/=.
    by apply (wf_bounded h Hw).
Qed.

Lemma wf_recv c h ev h' : wf h → recv c h = Some (ev, h') → wf h'.
Proof.
  intros Hw. unfold recv. destruct (chans h !! c) as [ch|] eqn:Hc; simpl; [|done].
  destruct (buf ch) as [|e rest] eqn:Hb; [done|]. intros; simplify_eq. split; simpl.
  - intros k ids Hk. destruct (wf_live h Hw k ids Hk) as (? & ? & Hl).
    split_and!; [done..|]. intros x Hx. destruct (Hl x Hx) as (ch' & Hch' & Hcl).
    destruct (decide (x = c)) as [->|]; [|rewrite lookup_insert_ne //; eauto].
    rewrite lookup_insert_eq. simplify_eq. eexists. split; [done|]. done.
  - apply (wf_disjoint h Hw).
  - intros x ch'. destruct (decide (x = c)) as [->|].
    + rewrite lookup_insert_eq. intros; simplify_eq/=.
      destruct (wf_bounded h Hw c ch Hc) as [? Hl]. rewrite Hb /= in Hl. lia.
    + rewrite lookup_insert_ne //. apply (wf_bounded h Hw).
Qed.

(** What is in a subscriber's buffer. *)
Definition buffer (c : nat) (h : hub) : list E := match chans h !! c with Some ch => buf ch | None => [] end.

(** Publishing a burst that fits appends it, in order, for every subscriber. *)
Definition publish_all (key : string) (evs : list E) (h : hub) : option hub :=
  foldl (λ acc ev, h ← acc; publish key ev h) (Some h) evs.

Lemma publish_all_None key evs : foldl (λ acc ev, h ← acc; publish key ev h) None evs = None.
Proof. by induction evs. Qed.

Lemma publish_all_buffer key evs h c : wf h → c ∈ subs_of key h →
  length (buffer c h) + length evs ≤ cap →
  ∃ h', publish_all key evs h = Some h' ∧ wf h' ∧ buffer c h' = buffer c h ++ evs.
Proof.
  revert h. induction evs as [|ev evs IH]; intros h Hw Hc Hl; simpl in *.
  { exists h. by rewrite app_nil_r. }
  destruct (publish_spec key ev h Hw) as (h1 & Hp & Hs & Hn & Hch).
  assert (wf h1) as Hw1 by eauto using wf_publish.
  destruct (wf_sub h key c Hw Hc) as (ch & Hcc & Hcl).
  assert (buffer c h1 = buffer c h ++ [ev]) as Hb.
  { unfold buffer in *. rewrite Hch decide_True // Hcc /=. rewrite Hcc in Hl.
    rewrite decide_True //. lia. }
  destruct (IH h1) as (h' & Hp' & Hw' & Hb').
  - done.
  - unfold subs_of. by rewrite Hs.
  - rewrite Hb length_app /=. lia.
  - exists h'. unfold publish_all in *. simpl. rewrite Hp. split_and!; [done..|].
    by rewrite Hb' Hb -app_assoc.
Qed.

Lemma publish_other key ev h h' c : wf h → publish key ev h = Some h' → c ∉ subs_of key h →
  buffer c h' = buffer c h.
Proof.
  intros Hw Hp Hc. destruct (publish_spec key ev h Hw) as (h1 & ? & _ & _ & Hch); simplify_eq.
  unfold buffer. by rewrite Hch decide_False.
Qed.
End fanout.

Arguments chan : clear implicits.
Arguments hub : clear implicits.
