(* ===== verification/LogStream.v ===== *)
(** * internal/logstream: live fan-out of sync_logs updates

    The broker is a [Fanout] hub of 16-slot channels keyed by stack id, plus
    the in-memory output buffers of commands in flight.  Times are nanoseconds. *)
From Stdlib Require Import ZArith.
From S2P Require Import Prelude GoStrings Fanout.

Record Event := { RecordID : string; Output : string; Status : string }.

Record liveCommand := { output : string; lastSeq : Z; updatedAt : Z }.

Record Broker := { b_hub : hub Event; live : gmap string liveCommand }.

Definition chan_size : nat := 16.
Definition liveCommandRetention : Z := 15 * 60 * 1000000000.
Definition liveCommandMaxBytes : Z := 1048576.

Definition New : Broker := {| b_hub := empty_hub; live := ∅ |}.

Definition Subscribe (stackID : string) (b : Broker) : nat * Broker :=
  let '(c, h) := subscribe chan_size stackID [] (b_hub b) in
  (c, {| b_hub := h; live := live b |}).

Definition Unsubscribe (stackID : string) (c : nat) (b : Broker) : Broker :=
  {| b_hub := unsubscribe stackID c (b_hub b); live := live b |}.

Definition Publish (stackID : string) (ev : Event) (b : Broker) : option Broker :=
  h ← publish chan_size stackID ev (b_hub b); Some {| b_hub := h; live := live b |}.

Definition liveRecordID (commandID : string) : string := "live:" +:+ commandID.

Definition render_line (phase line : string) : string :=
  if decide (phase ≠ "") then "[" +:+ phase +:+ "] " +:+ line +:+ ch 10 else line +:+ ch 10.

(** The guarded append to one command's buffer. *)
Definition append_line (phase line : string) (seq now : Z) (lc : liveCommand) : liveCommand :=
  if decide (lastSeq lc < seq)%Z then
    {| output := if decide (Z.of_nat (String.length (output lc)) < liveCommandMaxBytes)%Z
                 then output lc +:+ render_line phase line else output lc;
       lastSeq := seq; updatedAt := now |}
  else {| output := output lc; lastSeq := lastSeq lc; updatedAt := now |}.

Definition fresh_live : liveCommand := {| output := ""; lastSeq := 0; updatedAt := 0 |}.

Definition sweepLiveLocked (now : Z) (m : gmap string liveCommand) : gmap string liveCommand :=
  filter (λ kv, ¬ (updatedAt kv.2 < now - liveCommandRetention)%Z) m.

(** [now] and [now'] are the two readings of the clock. *)
Definition PublishLine (stackID commandID phase line : string) (seq now now' : Z) (b : Broker)
    : option Broker :=
  if decide (commandID = "") then Some b
  else
    let lc := append_line phase line seq now (default fresh_live (live b !! commandID)) in
    let m := sweepLiveLocked now' (<[commandID := lc]> (live b)) in
    Publish stackID {| RecordID := liveRecordID commandID; Output := output lc; Status := "running" |}
      {| b_hub := b_hub b; live := m |}.

Definition ForgetLiveCommand (commandID : string) (b : Broker) : Broker :=
  {| b_hub := b_hub b; live := delete commandID (live b) |}.

(** ** Runs of the broker *)
Inductive step : Broker → Broker → Prop :=
| step_subscribe stackID b : step b (Subscribe stackID b).2
| step_unsubscribe stackID c b : step b (Unsubscribe stackID c b)
| step_publish stackID ev b b' : Publish stackID ev b = Some b' → step b b'
| step_line stackID cmd phase line seq now now' b b' :
    PublishLine stackID cmd phase line seq now now' b = Some b' → step b b'
| step_forget cmd b : step b (ForgetLiveCommand cmd b)
| step_recv c b ev h : recv c (b_hub b) = Some (ev, h) → step b {| b_hub := h; live := live b |}.

Definition reachable (b : Broker) : Prop := rtc step New b.

(** ** Lemmas *)
Lemma Publish_hub stackID ev b b' : Publish stackID ev b = Some b' →
  publish chan_size stackID ev (b_hub b) = Some (b_hub b') ∧ live b' = live b.
Proof. unfold Publish. destruct (publish _ _ _ _); naive_solver. Qed.

Lemma log_step_wf b b' : step b b' → wf chan_size (b_hub b) → wf chan_size (b_hub b').
Proof.
  intros Hs Hw. destruct Hs as [stackID b|stackID c b|stackID ev b b' Hp
    |stackID cmd phase line seq now now' b b' Hp|cmd b|c b ev h Hr].
  - exact (wf_subscribe chan_size stackID [] (b_hub b) Hw).
  - by apply wf_unsubscribe.
  - apply Publish_hub in Hp as [Hp _]. by eapply wf_publish.
  - unfold PublishLine in Hp. case_decide; [by simplify_eq|].
    apply Publish_hub in Hp as [Hp _]. by eapply wf_publish.
  - done.
  - by eapply wf_recv.
Qed.

Lemma log_reachable_wf b : reachable b → wf chan_size (b_hub b).
Proof.
  unfold reachable. intros Hr.
  assert (wf chan_size (b_hub New)) as Hn by apply wf_empty. revert Hn.
  induction Hr as [|x y z Hs _ IH]; [done|]. intros Hw. apply IH. by eapply log_step_wf.
Qed.

Lemma sweep_lookup now m k lc : m !! k = Some lc → (now - liveCommandRetention ≤ updatedAt lc)%Z →
  sweepLiveLocked now m !! k = Some lc.
Proof. intros Hk Hu. apply map_lookup_filter_Some. simpl. split; [done|lia]. Qed.

(** A line of command output with its sequence number, and a sequence of
    deliveries of such lines: [delivers p ds ls] says that after the lines [p],
    the deliveries [ds] bring the lines [ls] for the first time, in order, any
    earlier line possibly delivered again in between. *)
Record line := { l_phase : string; l_text : string; l_seq : Z }.

Inductive delivers : list line → list line → list line → Prop :=
| delivers_nil p : delivers p [] []
| delivers_new p l ds ls : delivers (p ++ [l]) ds ls → delivers p (l :: ds) (l :: ls)
| delivers_again p l ds ls : l ∈ p → delivers p ds ls → delivers p (l :: ds) ls.

Fixpoint transcript (ls : list line) : string :=
  match ls with [] => "" | l :: ls => render_line (l_phase l) (l_text l) +:+ transcript ls end.

(** Sequence numbers grow, from a positive one. *)
Fixpoint increasing (last : Z) (ls : list line) : Prop :=
  match ls with [] => True | l :: ls => (last < l_seq l)%Z ∧ increasing (l_seq l) ls end.

Definition last_seq (p : list line) : Z := match last p with Some l => l_seq l | None => 0 end.

(** One [PublishLine] per delivery, each with its own clock readings. *)
Definition publish_lines (stackID cmd : string) (ds : list (line * (Z * Z))) (b : Broker)
    : option Broker :=
  foldl (λ acc d, b ← acc;
    PublishLine stackID cmd (l_phase d.1) (l_text d.1) (l_seq d.1) d.2.1 d.2.2 b) (Some b) ds.

Lemma transcript_app l k : transcript (l ++ k) = transcript l +:+ transcript k.
Proof. induction l as [|x l IH]; simpl; [done|]. by rewrite IH sapp_assoc. Qed.

Lemma increasing_app a p ls : increasing a (p ++ ls) ↔
  increasing a p ∧ increasing (match last p with Some l => l_seq l | None => a end) ls.
Proof.
  revert a. induction p as [|l p IH]; intros a; [simpl; tauto|].
  change (increasing a ((l :: p) ++ ls)) with ((a < l_seq l)%Z ∧ increasing (l_seq l) (p ++ ls)).
  change (increasing a (l :: p)) with ((a < l_seq l)%Z ∧ increasing (l_seq l) p).
  rewrite IH last_cons. destruct (last p); tauto.
Qed.

Lemma increasing_bound a p l : increasing a p → l ∈ p →
  (a < l_seq l)%Z ∧ (l_seq l ≤ match last p with Some x => l_seq x | None => a end)%Z.
Proof.
  revert a l. induction p as [|x p IH]; intros a l Hi Hl; [by apply elem_of_nil in Hl|].
  destruct Hi as [Hx Hi]. rewrite last_cons. destruct p as [|y p]; simpl.
  { apply elem_of_cons in Hl as [->|?%elem_of_nil]; [lia|done]. }
  assert (∀ z, z ∈ y :: p → (l_seq x < l_seq z)%Z
    ∧ (l_seq z ≤ match last (y :: p) with Some x => l_seq x | None => l_seq x end)%Z) as H
    by (intros z; by apply IH).
  destruct (H y) as [? ?]; [apply elem_of_cons; by left|].
  apply elem_of_cons in Hl as [->|Hl]; [|destruct (H l Hl)]; destruct (last (y :: p)); lia.
Qed.

(** One line on a buffer holding the transcript of [p]: a new line is
    appended, a line of [p] changes nothing but the time stamp. *)
Lemma append_line_new p l now lc : output lc = transcript p → (lastSeq lc < l_seq l)%Z →
  (Z.of_nat (String.length (transcript p)) < liveCommandMaxBytes)%Z →
  append_line (l_phase l) (l_text l) (l_seq l) now lc
  = {| output := transcript (p ++ [l]); lastSeq := l_seq l; updatedAt := now |}.
Proof.
  intros Ho Hs Hm. unfold append_line. rewrite decide_True // decide_True; [|by rewrite Ho].
  by rewrite Ho transcript_app /= sapp_nil_r.
Qed.

Lemma append_line_again l now lc : (l_seq l ≤ lastSeq lc)%Z →
  append_line (l_phase l) (l_text l) (l_seq l) now lc
  = {| output := output lc; lastSeq := lastSeq lc; updatedAt := now |}.
Proof. intros Hs. unfold append_line. rewrite decide_False //. lia. Qed.

(** [PublishLine] on a sound broker: it does not panic, keeps the broker sound,
    and stores the extended buffer. *)
Lemma PublishLine_live stackID cmd l now now' b : wf chan_size (b_hub b) → cmd ≠ "" →
  (now' ≤ now + liveCommandRetention)%Z →
  ∃ b', PublishLine stackID cmd (l_phase l) (l_text l) (l_seq l) now now' b = Some b'
    ∧ wf chan_size (b_hub b')
    ∧ live b' !! cmd = Some (append_line (l_phase l) (l_text l) (l_seq l) now
                               (default fresh_live (live b !! cmd))).
Proof.
  intros Hw Hc Ht. unfold PublishLine. rewrite decide_False //.
  set (lc := append_line _ _ _ _ _). unfold Publish.
  edestruct (publish_spec chan_size stackID
    {| RecordID := liveRecordID cmd; Output := output lc; Status := "running" |} (b_hub b) Hw)
    as (h' & Hp & _).
  assert (updatedAt lc = now) as Hu by (unfold lc, append_line; by case_decide).
  eexists. simpl. rewrite Hp. split_and!; [done|by eapply wf_publish|]. simpl.
  apply sweep_lookup; [by rewrite lookup_insert_eq|]. lia.
Qed.

(** What the buffer of [cmd] holds after the lines [p] have arrived. *)
Definition holds (p : list line) (lc : liveCommand) : Prop :=
  output lc = transcript p ∧ lastSeq lc = last_seq p.

Lemma transcript_prefix p q : String.length (transcript p) ≤ String.length (transcript (p ++ q)).
Proof. rewrite transcript_app slength_app. lia. Qed.

(** ** Properties *)

(** Whatever sequence of subscribing, unsubscribing, publishing and reading
    has happened, publishing an event never panics on a closed channel, and no
    subscriber's buffer exceeds the sixteen events it was made for. *)
Theorem log_broker_safe b stackID ev : reachable b →
  (∃ b', Publish stackID ev b = Some b')
  ∧ ∀ c, length (buffer c (b_hub b)) ≤ 16.
Proof.
  intros Hr%log_reachable_wf. split.
  - destruct (publish_spec chan_size stackID ev (b_hub b) Hr) as (h & Hp & _).
    eexists. unfold Publish. by rewrite Hp.
  - intros c. unfold buffer. destruct (chans (b_hub b) !! c) as [ch|] eqn:Hc; simpl; [|lia].
    apply (wf_bounded chan_size (b_hub b) Hr c ch Hc).
Qed.

Lemma publish_lines_cons stackID cmd d ds b b' :
  PublishLine stackID cmd (l_phase d.1) (l_text d.1) (l_seq d.1) d.2.1 d.2.2 b = Some b' →
  publish_lines stackID cmd (d :: ds) b = publish_lines stackID cmd ds b'.
Proof. intros H. unfold publish_lines. simpl. by rewrite H. Qed.

Lemma publish_lines_transcript stackID cmd p ds ls b : cmd ≠ "" →
  delivers p (ds.*1) ls → increasing 0 (p ++ ls) →
  (Z.of_nat (String.length (transcript (p ++ ls))) < liveCommandMaxBytes)%Z →
  Forall (λ d, d.2.2 ≤ d.2.1 + liveCommandRetention)%Z ds →
  wf chan_size (b_hub b) → holds p (default fresh_live (live b !! cmd)) →
  ∃ b', publish_lines stackID cmd ds b = Some b' ∧ wf chan_size (b_hub b')
    ∧ holds (p ++ ls) (default fresh_live (live b' !! cmd)).
Proof.
  intros Hcmd Hd. remember (ds.*1) as xs eqn:Hxs. revert ds b Hxs.
  induction Hd as [p|p l xs ls Hd IH|p l xs ls Hl Hd IH]; intros ds b Hxs Hi Hm Ht Hw [Ho Hs];
    destruct ds as [|[x [now now']] ds]; simplify_eq/=.
  { exists b. rewrite app_nil_r. done. }
  all: apply Forall_cons in Ht as [Ht Hts]; simpl in Ht.
  all: destruct (PublishLine_live stackID cmd x now now' b Hw Hcmd Ht) as (b1 & Hp & Hw1 & Hl1).
  all: rewrite (publish_lines_cons _ _ (x, (now, now')) ds b b1 Hp).
  - pose proof (transcript_prefix p (x :: ls)) as Hpre.
    assert (last_seq p < l_seq x)%Z as Hlt.
    { apply increasing_app in Hi as [_ [Hx _]]. by destruct (last p) eqn:E; unfold last_seq; rewrite E. }
    destruct (IH ds b1) as (b' & ? & ? & ?); try done.
    + by rewrite -app_assoc.
    + by rewrite -app_assoc.
    + rewrite Hl1 /= (append_line_new p) //; [|lia..].
      split; [done|]. unfold last_seq. by rewrite last_snoc.
    + exists b'. rewrite -app_assoc in H1. done.
  - apply increasing_app in Hi as Hi'. destruct Hi' as [Hip _].
    destruct (increasing_bound 0 p x Hip Hl) as [_ Hle].
    destruct (IH ds b1) as (b' & ? & ? & ?); try done.
    + rewrite Hl1 /= append_line_again //. rewrite Hs. unfold last_seq. by destruct (last p).
    + by exists b'.
Qed.

(** The transport may deliver any already delivered output line of a
    command again; as long as the lines carry growing sequence numbers from 1,
    the text stays below the 1 MiB cap and each call's sweep happens within the
    retention time, the live buffer ends up with exactly the transcript in which
    every line appears once, in order. *)
Theorem redelivery_is_idempotent stackID cmd ds ls b : reachable b → cmd ≠ "" →
  live b !! cmd = None → delivers [] (ds.*1) ls → increasing 0 ls →
  (Z.of_nat (String.length (transcript ls)) < liveCommandMaxBytes)%Z →
  Forall (λ d, d.2.2 ≤ d.2.1 + liveCommandRetention)%Z ds → ls ≠ [] →
  ∃ b' lc, publish_lines stackID cmd ds b = Some b'
    ∧ live b' !! cmd = Some lc ∧ output lc = transcript ls.
Proof.
  intros Hr Hcmd Hl Hd Hi Hm Ht Hne.
  destruct (publish_lines_transcript stackID cmd [] ds ls b) as (b' & Hp & _ & Ho & Hs); try done.
  - by apply log_reachable_wf.
  - by rewrite Hl.
  - exists b'. destruct (live b' !! cmd) as [lc|] eqn:E; [by exists lc|].
    exfalso. destruct ls as [|l ls] using rev_ind; [done|].
    simpl in Hs. unfold last_seq in Hs. rewrite last_snoc in Hs.
    destruct (increasing_bound 0 (ls ++ [l]) l Hi) as [? _]; [|lia].
    apply elem_of_app. right. by apply list_elem_of_singleton.
Qed.

(** A broker with one reader on stack [s1]. *)
Definition one_reader : Broker := (Subscribe "s1" New).2.

Lemma one_reader_reachable : reachable one_reader.
Proof. eapply rtc_l; [apply (step_subscribe "s1")|apply rtc_refl]. Qed.

Definition event1 : Event := {| RecordID := "r1"; Output := "pulling"; Status := "running" |}.

Lemma log_broker_safe_witness :
  (∃ b', Publish "s1" event1 one_reader = Some b') ∧ ∀ c, length (buffer c (b_hub one_reader)) ≤ 16.
Proof. apply (log_broker_safe one_reader "s1" event1 one_reader_reachable). Defined.

Definition line1 : line := {| l_phase := "pull"; l_text := "web"; l_seq := 1 |}.
Definition line2 : line := {| l_phase := ""; l_text := "done"; l_seq := 2 |}.

Lemma redelivery_is_idempotent_witness :
  ∃ b' lc, publish_lines "s1" "cmd" [(line1, (0, 0)%Z); (line1, (5, 6)%Z); (line2, (7, 7)%Z); (line1, (8, 9)%Z)]
             one_reader = Some b'
    ∧ live b' !! "cmd" = Some lc ∧ output lc = transcript [line1; line2].
Proof.
  apply (redelivery_is_idempotent "s1" "cmd" _ [line1; line2]).
  - apply one_reader_reachable.
  - done.
  - reflexivity.
  - simpl. apply delivers_new, delivers_again; [simpl; apply elem_of_cons; by left|].
    apply delivers_new, delivers_again; [simpl; apply elem_of_cons; by left|]. apply delivers_nil.
  - simpl. lia.
  - vm_compute. reflexivity.
  - repeat constructor; simpl; unfold liveCommandRetention; lia.
  - done.
Defined.
