(* ===== verification/TermStream.v ===== *)
(** * internal/termstream: fan-out of terminal session output

    A [Fanout] hub of 256-slot channels keyed by session id, plus the events
    published before a session's first subscriber.  Event data is a byte string. *)
From Stdlib Require Import ZArith.
From S2P Require Import Prelude GoStrings Fanout.

Record TEvent := { Data : string; Closed : bool; ExitCode : Z; Error : string }.

Definition maxPendingEvents : nat := 256.

Record TBroker := { t_hub : hub TEvent; pending : gmap string (list TEvent) }.

Definition New : TBroker := {| t_hub := empty_hub; pending := ∅ |}.

(** [b.pending[sessionID]], nil when absent. *)
Definition pending_of (sessionID : string) (b : TBroker) : list TEvent :=
  default [] (pending b !! sessionID).

Definition Subscribe (sessionID : string) (b : TBroker) : nat * TBroker :=
  let '(c, h) := subscribe maxPendingEvents sessionID (pending_of sessionID b) (t_hub b) in
  (c, {| t_hub := h; pending := delete sessionID (pending b) |}).

Definition Unsubscribe (sessionID : string) (c : nat) (b : TBroker) : TBroker :=
  {| t_hub := unsubscribe sessionID c (t_hub b); pending := pending b |}.

Definition push_pending (ev : TEvent) (buf : list TEvent) : list TEvent :=
  (if decide (maxPendingEvents ≤ length buf) then drop 1 buf else buf) ++ [ev].

Definition publish_event (sessionID : string) (ev : TEvent) (b : TBroker) : option TBroker :=
  if decide (subs_of sessionID (t_hub b) = []) then
    Some {| t_hub := t_hub b;
            pending := <[sessionID := push_pending ev (pending_of sessionID b)]> (pending b) |}
  else h ← publish maxPendingEvents sessionID ev (t_hub b);
       Some {| t_hub := h; pending := pending b |}.

Definition PublishOutput (sessionID data : string) (b : TBroker) : option TBroker :=
  publish_event sessionID {| Data := data; Closed := false; ExitCode := 0; Error := "" |} b.

Definition PublishClosed (sessionID : string) (exitCode : Z) (errMsg : string) (b : TBroker)
    : option TBroker :=
  publish_event sessionID {| Data := ""; Closed := true; ExitCode := exitCode; Error := errMsg |} b.

Inductive step : TBroker → TBroker → Prop :=
| step_subscribe sid b : step b (Subscribe sid b).2
| step_unsubscribe sid c b : step b (Unsubscribe sid c b)
| step_output sid data b b' : PublishOutput sid data b = Some b' → step b b'
| step_closed sid code msg b b' : PublishClosed sid code msg b = Some b' → step b b'
| step_recv c b ev h : recv c (t_hub b) = Some (ev, h) → step b {| t_hub := h; pending := pending b |}.

Definition reachable (b : TBroker) : Prop := rtc step New b.

(** The invariant: a sound hub, at most 256 events waiting per session, and
    nothing waiting for a session somebody listens to. *)
Record wf_term (b : TBroker) : Prop := {
  wf_hub : wf maxPendingEvents (t_hub b);
  wf_pending : ∀ sid, length (pending_of sid b) ≤ maxPendingEvents;
  wf_drained : ∀ sid, subs_of sid (t_hub b) ≠ [] → pending_of sid b = []
}.

(** The last [n] elements of a list. *)
Definition lastn {A} (n : nat) (l : list A) : list A := drop (length l - n) l.

Lemma lastn_short {A} n (l : list A) : length l ≤ n → lastn n l = l.
Proof. intros H. unfold lastn. by replace (length l - n) with 0 by lia. Qed.

Lemma lastn_snoc {A} n (l : list A) x : 0 < n →
  lastn n (lastn n l ++ [x]) = lastn n (l ++ [x]).
Proof.
  intros Hn. unfold lastn. rewrite !length_app length_drop /=.
  destruct (decide (length l ≤ n)) as [Hl|Hl].
  - replace (length l - n) with 0 by lia. rewrite drop_0. f_equal. lia.
  - rewrite !drop_app_le ?length_drop; [|lia..]. rewrite drop_drop. do 2 f_equal. lia.
Qed.

Lemma push_pending_lastn ev buf : length buf ≤ maxPendingEvents →
  push_pending ev buf = lastn maxPendingEvents (buf ++ [ev]).
Proof.
  intros Hl. unfold push_pending, lastn. rewrite length_app /=.
  assert (0 < maxPendingEvents) by (unfold maxPendingEvents; lia). case_decide.
  - rewrite drop_app_le; [|lia]. do 2 f_equal. lia.
  - replace (_ - _) with 0 by lia. done.
Qed.

Lemma lastn_length {A} n (l : list A) : length (lastn n l) ≤ n.
Proof. unfold lastn. rewrite length_drop. lia. Qed.

Lemma pending_of_insert sid evs h m k :
  pending_of k {| t_hub := h; pending := <[sid := evs]> m |}
  = if decide (k = sid) then evs else pending_of k {| t_hub := h; pending := m |}.
Proof.
  unfold pending_of. simpl. case_decide as E; [subst; by rewrite lookup_insert_eq|].
  by rewrite lookup_insert_ne.
Qed.

Lemma pending_of_delete sid h m k :
  pending_of k {| t_hub := h; pending := delete sid m |}
  = if decide (k = sid) then [] else pending_of k {| t_hub := h; pending := m |}.
Proof.
  unfold pending_of. simpl. case_decide as E; [subst; by rewrite lookup_delete_eq|].
  by rewrite lookup_delete_ne.
Qed.

Lemma wf_publish_event sid ev b : wf_term b →
  ∃ b', publish_event sid ev b = Some b' ∧ wf_term b'.
Proof.
  intros [Hh Hp Hd]. unfold publish_event. case_decide as Hs.
  - eexists. split; [done|]. split; [done| |]; intros k; rewrite pending_of_insert; case_decide as E.
    + rewrite push_pending_lastn //. apply lastn_length.
    + apply Hp.
    + intros Hk. by rewrite E in Hk.
    + apply Hd.
  - destruct (publish_spec maxPendingEvents sid ev (t_hub b) Hh) as (h & Hpub & Hsub & _).
    eexists. rewrite Hpub. split; [done|]. split; [by eapply wf_publish|done|].
    intros k. unfold subs_of. simpl. rewrite Hsub. apply Hd.
Qed.

Lemma subs_of_subscribe cap key init k (h : hub TEvent) :
  subs_of k (subscribe cap key init h).2 = if decide (k = key) then subs_of key h ++ [next h] else subs_of k h.
Proof.
  unfold subscribe, subs_of. simpl. case_decide as E; [subst; by rewrite lookup_insert_eq|].
  by rewrite lookup_insert_ne.
Qed.

Lemma wf_term_subscribe sid b : wf_term b → wf_term (Subscribe sid b).2.
Proof.
  intros [Hh Hp Hd].
  change (Subscribe sid b).2 with
    {| t_hub := (subscribe maxPendingEvents sid (pending_of sid b) (t_hub b)).2;
       pending := delete sid (pending b) |}.
  split; [by apply wf_subscribe| |]; intros k; rewrite pending_of_delete; case_decide as E.
  - simpl. lia.
  - apply Hp.
  - done.
  - cbn [t_hub]. rewrite subs_of_subscribe decide_False //. apply Hd.
Qed.

Lemma term_step_wf b b' : step b b' → wf_term b → wf_term b'.
Proof.
  intros Hs Hw. destruct Hs as [sid b|sid c b|sid data b b' Hp|sid code msg b b' Hp|c b ev h Hr].
  - by apply wf_term_subscribe.
  - destruct Hw as [Hh Hp Hd]. split; [by apply wf_unsubscribe|done|].
    intros k Hk. apply Hd. intros Hn. apply Hk. cbn [t_hub Unsubscribe].
    rewrite subs_of_unsubscribe. case_decide as E; [|done]. destruct E as [-> _]. by rewrite Hn.
  - destruct (wf_publish_event sid {| Data := data; Closed := false; ExitCode := 0; Error := "" |} b Hw)
      as (? & ? & ?). unfold PublishOutput in Hp. by simplify_eq.
  - destruct (wf_publish_event sid {| Data := ""; Closed := true; ExitCode := code; Error := msg |} b Hw)
      as (? & ? & ?). unfold PublishClosed in Hp. by simplify_eq.
  - destruct Hw as [Hh Hp Hd]. split; [by eapply wf_recv|done|].
    intros k. unfold recv in Hr. destruct (chans (t_hub b) !! c) as [ch|]; [|done].
    simpl in Hr. destruct (Fanout.buf ch); [done|]. simplify_eq. apply Hd.
Qed.

Lemma term_reachable_wf b : reachable b → wf_term b.
Proof.
  intros Hr. assert (wf_term New) as Hn.
  { split; [apply wf_empty| |]; intros sid; unfold pending_of; simpl; rewrite lookup_empty /=; [lia|done]. }
  revert Hn. unfold reachable in Hr. induction Hr as [|x y z Hs _ IH]; [done|].
  intros Hw. apply IH. by eapply term_step_wf.
Qed.

(** Publishing a list of events to one session. *)
Definition publish_events (sid : string) (evs : list TEvent) (b : TBroker) : option TBroker :=
  foldl (λ acc ev, b ← acc; publish_event sid ev b) (Some b) evs.

Lemma publish_events_pending sid evs b : subs_of sid (t_hub b) = [] →
  length (pending_of sid b) ≤ maxPendingEvents →
  ∃ b', publish_events sid evs b = Some b' ∧ t_hub b' = t_hub b
    ∧ pending_of sid b' = lastn maxPendingEvents (pending_of sid b ++ evs).
Proof.
  revert b. induction evs as [|ev evs IH]; intros b Hs Hl.
  { exists b. rewrite app_nil_r lastn_short //. }
  set (b1 := {| t_hub := t_hub b;
    pending := <[sid := push_pending ev (pending_of sid b)]> (pending b) |}).
  assert (publish_event sid ev b = Some b1) as Hb1 by (unfold publish_event; by rewrite decide_True).
  assert (pending_of sid b1 = lastn maxPendingEvents (pending_of sid b ++ [ev])) as Hpe.
  { unfold b1. rewrite pending_of_insert decide_True // push_pending_lastn //. }
  destruct (IH b1) as (b' & Hp & Hh & Hb'); [done|rewrite Hpe; apply lastn_length|].
  exists b'. split_and!; [|done|].
  - unfold publish_events in *. simpl. by rewrite Hb1.
  - rewrite Hb' Hpe. clear. revert ev. generalize (pending_of sid b) as l.
    induction evs as [|x evs IH] using rev_ind; intros l ev.
    + rewrite app_nil_r. apply lastn_short, lastn_length.
    + rewrite app_assoc -lastn_snoc; [|unfold maxPendingEvents; lia]. rewrite IH.
      rewrite lastn_snoc; [|unfold maxPendingEvents; lia]. by rewrite -app_assoc.
Qed.

(** In every reachable state of the terminal broker publishing succeeds
    without a send on a closed channel, the backlog of a session never exceeds
    256 events, and a session with a listener has no backlog. *)
Theorem term_broker_safe b sid ev : reachable b →
  (∃ b', publish_event sid ev b = Some b')
  ∧ length (pending_of sid b) ≤ 256
  ∧ (subs_of sid (t_hub b) ≠ [] → pending_of sid b = []).
Proof.
  intros Hw%term_reachable_wf. split_and!; [|apply (wf_pending b Hw)|apply (wf_drained b Hw)].
  destruct (wf_publish_event sid ev b Hw) as (b' & ? & _). by exists b'.
Qed.

(** Output published before anybody listens to a session is not lost: the
    first subscriber's channel starts with the last 256 of the events published
    so far (all of them when there are no more), in order, and nothing is kept
    back. *)
Theorem first_subscriber_gets_backlog b sid evs : reachable b →
  subs_of sid (t_hub b) = [] → pending_of sid b = [] →
  ∃ b', publish_events sid evs b = Some b' ∧
    let '(c, b'') := Subscribe sid b' in
    buffer c (t_hub b'') = lastn 256 evs ∧ subs_of sid (t_hub b'') = [c] ∧ pending_of sid b'' = [].
Proof.
  intros Hw%term_reachable_wf Hs Hp.
  destruct (publish_events_pending sid evs b Hs (wf_pending b Hw sid)) as (b' & Hpub & Hh & Hb').
  exists b'. split; [done|]. rewrite Hp app_nil_l in Hb'.
  change (Subscribe sid b') with (next (t_hub b'),
    {| t_hub := (subscribe maxPendingEvents sid (pending_of sid b') (t_hub b')).2;
       pending := delete sid (pending b') |}).
  split_and!.
  - unfold buffer, subscribe. simpl. rewrite lookup_insert_eq. cbn [Fanout.buf]. rewrite Hb' take_ge //.
    apply lastn_length.
  - cbn [t_hub]. rewrite subs_of_subscribe decide_True // Hh Hs //.
  - by rewrite pending_of_delete decide_True.
Qed.

(** A terminal session that fails before the browser connects still shows
    its end: after any output followed by the closing event, the first
    subscriber finds the closing event last in its channel. *)
Theorem closed_event_reaches_late_subscriber b sid evs code msg : reachable b →
  subs_of sid (t_hub b) = [] → pending_of sid b = [] →
  ∃ b' b'', publish_events sid evs b = Some b' ∧ PublishClosed sid code msg b' = Some b'' ∧
    let '(c, b3) := Subscribe sid b'' in
    last (buffer c (t_hub b3)) = Some {| Data := ""; Closed := true; ExitCode := code; Error := msg |}.
Proof.
  intros Hw%term_reachable_wf Hs Hp.
  destruct (publish_events_pending sid evs b Hs (wf_pending b Hw sid)) as (b' & Hpub & Hh & Hb').
  set (ev := {| Data := ""; Closed := true; ExitCode := code; Error := msg |}).
  assert (length (pending_of sid b') ≤ maxPendingEvents) as Hlen by (rewrite Hb'; apply lastn_length).
  eexists b', _. split_and!; [done|unfold PublishClosed, publish_event; by rewrite decide_True // Hh|].
  fold ev. unfold Subscribe, subscribe, buffer. cbn [t_hub fst snd chans].
  rewrite lookup_insert_eq pending_of_insert decide_True //. cbn [Fanout.buf].
  rewrite push_pending_lastn // take_ge; [|apply lastn_length].
  unfold lastn. rewrite length_app drop_app_le /=; [by rewrite last_snoc|].
  unfold maxPendingEvents. lia.
Qed.

Lemma New_reachable : reachable New.
Proof. apply rtc_refl. Qed.

Definition prompt : TEvent := {| Data := "$ "; Closed := false; ExitCode := 0; Error := "" |}.

Lemma term_broker_safe_witness :
  (∃ b', publish_event "t1" prompt New = Some b') ∧ length (pending_of "t1" New) ≤ 256
  ∧ (subs_of "t1" (t_hub New) ≠ [] → pending_of "t1" New = []).
Proof. apply (term_broker_safe New "t1" prompt New_reachable). Defined.

Lemma first_subscriber_gets_backlog_witness :
  ∃ b', publish_events "t1" [prompt; prompt] New = Some b' ∧
    let '(c, b'') := Subscribe "t1" b' in
    buffer c (t_hub b'') = lastn 256 [prompt; prompt] ∧ subs_of "t1" (t_hub b'') = [c]
    ∧ pending_of "t1" b'' = [].
Proof. apply (first_subscriber_gets_backlog New "t1" [prompt; prompt] New_reachable); reflexivity. Defined.

Lemma closed_event_reaches_late_subscriber_witness :
  ∃ b' b'', publish_events "t1" [prompt] New = Some b' ∧ PublishClosed "t1" 126 "no shell" b' = Some b'' ∧
    let '(c, b3) := Subscribe "t1" b'' in
    last (buffer c (t_hub b3)) = Some {| Data := ""; Closed := true; ExitCode := 126; Error := "no shell" |}.
Proof.
  apply (closed_event_reaches_late_subscriber New "t1" [prompt] 126 "no shell" New_reachable); reflexivity.
Defined.
