(* ===== verification/PhaseTracker.v ===== *)
(** * internal/sync/phase_tracker.go: the deploy timeline of one sync log

    The [sync_log_phases] table is the list of its rows, a row's id being its
    position; saving a new record appends, saving a known one overwrites.  Every
    database call can fail, which the operations take as arguments, and so are
    the readings of the clock (nanoseconds).  A record in memory keeps what was
    set on it even when saving it failed, as the pointer [t.current] does. *)
From Stdlib Require Import ZArith.
From S2P Require Import Prelude GoStrings.

Definition PhaseGitFetch := "git_fetch".
Definition PhaseLint := "lint".
Definition PhaseRender := "render".
Definition PhaseSecretsFetch := "secrets_fetch".
Definition PhasePolicyCheck := "policy_check".
Definition PhaseDispatch := "dispatch".
Definition PhaseWorkerAck := "worker_ack".
Definition PhaseComposeUp := "compose_up".
Definition PhasePostCheck := "post_check".
Definition PhaseNotify := "notify".

Definition DeployPhaseOrder : list string :=
  [PhaseGitFetch; PhaseLint; PhaseRender; PhaseSecretsFetch; PhasePolicyCheck; PhaseDispatch;
   PhaseWorkerAck; PhaseComposeUp; PhasePostCheck; PhaseNotify].

Definition PhaseStatusRunning := "running".
Definition PhaseStatusSuccess := "success".
Definition PhaseStatusError := "error".
Definition PhaseStatusSkipped := "skipped".

Fixpoint phase_index (phase : string) (l : list string) : nat :=
  match l with
  | [] => 0
  | p :: l => if decide (p = phase) then 0 else S (phase_index phase l)
  end.

Definition phaseSeq (phase : string) : nat := phase_index phase DeployPhaseOrder.

Record row := { r_sync_log : string; r_phase : string; r_status : string; r_started_at : Z;
                r_duration_ms : Z; r_detail : string; r_seq : nat }.

(** A record in memory: its id in the table and its fields. *)
Record memory := { m_id : nat; m_row : row }.

Record phaseTracker := { syncLogID : string; current : option memory }.

Record metric := { mt_phase : string; mt_status : string; mt_duration : Z }.

Record world := { rows : list row; metrics : list metric }.

(** One call into the database: whether looking up the collection and saving
    succeed, and the clock. *)
Record env := { find_ok : bool; save_ok : bool; now : Z }.

Definition newPhaseTracker (id : string) : phaseTracker := {| syncLogID := id; current := None |}.

Definition err_finish (phase : string) : string := "phase tracker finish phase=" +:+ phase.
Definition err_start (phase : string) : string := "phase tracker start phase=" +:+ phase.
Definition err_recordSkipped (phase : string) : string := "phase tracker recordSkipped phase=" +:+ phase.
Definition err_recordCompleted (phase : string) : string := "phase tracker recordCompleted phase=" +:+ phase.

Abbreviation result := (option string * option phaseTracker * world)%type.

Definition close_row (status detail : string) (duration : Z) (r : row) : row :=
  {| r_sync_log := r_sync_log r; r_phase := r_phase r; r_status := status;
     r_started_at := r_started_at r; r_duration_ms := duration; r_detail := detail; r_seq := r_seq r |}.

Definition set_current (c : option memory) (t : phaseTracker) : phaseTracker :=
  {| syncLogID := syncLogID t; current := c |}.

Definition finish (phase status detail : string) (e : env) (t : option phaseTracker) (w : world)
    : result :=
  match t with
  | None => (None, t, w)
  | Some t' =>
      match current t' with
      | None => (None, t, w)
      | Some m =>
          if decide (r_phase (m_row m) ≠ phase) then (None, t, w)
          else
            let durationMs := Z.quot (now e - r_started_at (m_row m)) 1000000 in
            let r := close_row status detail durationMs (m_row m) in
            if save_ok e then
              (None, Some (set_current None t'),
               {| rows := <[m_id m := r]> (rows w);
                  metrics := metrics w ++ [{| mt_phase := phase; mt_status := status; mt_duration := durationMs |}] |})
            else
              (Some (err_finish phase), Some (set_current (Some {| m_id := m_id m; m_row := r |}) t'), w)
      end
  end.

(** A fresh row, appended when it is saved. *)
Definition new_row (log phase status : string) (started duration : Z) (detail : string) : row :=
  {| r_sync_log := log; r_phase := phase; r_status := status; r_started_at := started;
     r_duration_ms := duration; r_detail := detail; r_seq := phaseSeq phase |}.

(** [e1] is the environment of closing the open phase, [e2] of opening the new one. *)
Definition start (phase : string) (e1 e2 : env) (t : option phaseTracker) (w : world) : result :=
  match t with
  | None => (None, t, w)
  | Some t' =>
      let '(err, t1, w1) :=
        match current t' with
        | Some m => finish (r_phase (m_row m)) PhaseStatusSuccess "" e1 t w
        | None => (None, t, w)
        end in
      match err, t1 with
      | Some _, _ => (err, t1, w1)
      | None, None => (None, t1, w1)
      | None, Some t1' =>
          let r := new_row (syncLogID t1') phase PhaseStatusRunning (now e2) 0 "" in
          if find_ok e2 && save_ok e2 then
            (None, Some (set_current (Some {| m_id := length (rows w1); m_row := r |}) t1'),
             {| rows := rows w1 ++ [r]; metrics := metrics w1 |})
          else (Some (err_start phase), t1, w1)
      end
  end.

Definition finishCurrentAsError (detail : string) (e : env) (t : option phaseTracker) (w : world)
    : option phaseTracker * world :=
  match t with
  | None => (t, w)
  | Some t' =>
      match current t' with
      | None => (t, w)
      | Some m => let '(_, t1, w1) := finish (r_phase (m_row m)) PhaseStatusError detail e t w in (t1, w1)
      end
  end.

(** A row written closed at once. *)
Definition record_closed (err : string) (phase status detail : string) (started duration : Z)
    (e : env) (t : phaseTracker) (w : world) : option string * world :=
  if find_ok e && save_ok e then
    (None, {| rows := rows w ++ [new_row (syncLogID t) phase status started duration detail];
              metrics := metrics w ++ [{| mt_phase := phase; mt_status := status; mt_duration := duration |}] |})
  else (Some err, w).

Definition recordSkipped (phase detail : string) (e : env) (t : option phaseTracker) (w : world)
    : option string * world :=
  match t with
  | None => (None, w)
  | Some t => record_closed (err_recordSkipped phase) phase PhaseStatusSkipped detail (now e) 0 e t w
  end.

Definition recordCompleted (phase status : string) (startedAt durationMs : Z) (detail : string)
    (e : env) (t : option phaseTracker) (w : world) : option string * world :=
  match t with
  | None => (None, w)
  | Some t => record_closed (err_recordCompleted phase) phase status detail startedAt durationMs e t w
  end.

(** ** Runs *)

(** The terminal statuses [finish] and [recordCompleted] are called with. *)
Definition terminal (status : string) : Prop := status ≠ PhaseStatusRunning.

(** One operation of a deploy on its own tracker, each database call succeeding
    or failing. *)
Inductive step : phaseTracker * world → phaseTracker * world → Prop :=
| step_start phase e1 e2 t w err t' w' :
    start phase e1 e2 (Some t) w = (err, Some t', w') → step (t, w) (t', w')
| step_finish phase status detail e t w err t' w' : terminal status →
    finish phase status detail e (Some t) w = (err, Some t', w') → step (t, w) (t', w')
| step_error detail e t w t' w' :
    finishCurrentAsError detail e (Some t) w = (Some t', w') → step (t, w) (t', w')
| step_skipped phase detail e t w err w' :
    recordSkipped phase detail e (Some t) w = (err, w') → step (t, w) (t, w')
| step_completed phase status started d detail e t w err w' : terminal status →
    recordCompleted phase status started d detail e (Some t) w = (err, w') → step (t, w) (t, w').

Definition reachable (log : string) (s : phaseTracker * world) : Prop :=
  rtc step (newPhaseTracker log, {| rows := []; metrics := [] |}) s.

(** The metric a row stands for. *)
Definition row_metric (r : row) : option metric :=
  if decide (r_status r = PhaseStatusRunning) then None
  else Some {| mt_phase := r_phase r; mt_status := r_status r; mt_duration := r_duration_ms r |}.

(** The open phase, if any, is the table's one running row; the metrics are
    those of the closed rows; every row is ordered by its phase. *)
Record sound (log : string) (s : phaseTracker * world) : Prop := {
  s_log : syncLogID s.1 = log;
  s_running : ∀ i r, rows s.2 !! i = Some r → r_status r = PhaseStatusRunning →
    ∃ m, current s.1 = Some m ∧ m_id m = i;
  s_current : ∀ m, current s.1 = Some m → ∃ r, rows s.2 !! m_id m = Some r
    ∧ r_status r = PhaseStatusRunning ∧ r_phase r = r_phase (m_row m) ∧ r_seq r = r_seq (m_row m)
    ∧ r_sync_log r = r_sync_log (m_row m) ∧ r_started_at r = r_started_at (m_row m);
  s_metrics : metrics s.2 ≡ₚ omap row_metric (rows s.2);
  s_rows : Forall (λ r, r_seq r = phaseSeq (r_phase r) ∧ r_sync_log r = log) (rows s.2)
}.

Lemma insert_split {A} (l : list A) i x y : l !! i = Some x →
  <[i := y]> l = take i l ++ y :: drop (S i) l ∧ l = take i l ++ x :: drop (S i) l.
Proof.
  intros Hx. split; [|symmetry; by apply take_drop_middle].
  apply insert_take_drop. by eapply lookup_lt_Some.
Qed.

Lemma omap_insert_None {A B} (f : A → option B) l i x y b : l !! i = Some x → f x = None →
  f y = Some b → omap f (<[i := y]> l) ≡ₚ omap f l ++ [b].
Proof.
  intros Hx Hfx Hfy. destruct (insert_split l i x y Hx) as [-> Hl]. rewrite {3}Hl.
  rewrite !omap_app /= Hfx Hfy. simpl. rewrite -Permutation_middle. apply Permutation_cons_append.
Qed.

Lemma finish_sound log phase status detail e t w err t' w' : terminal status →
  sound log (t, w) → finish phase status detail e (Some t) w = (err, Some t', w') → sound log (t', w').
Proof.
  intros Hterm Hs Hf. unfold finish in Hf. destruct (current t) as [m|] eqn:Hc; [|by simplify_eq].
  destruct (decide (r_phase (m_row m) ≠ phase)) as [|Hp]; [by simplify_eq|].
  apply dec_stable in Hp. set (d := Z.quot _ _) in Hf.
  destruct Hs as [Hl Hrun Hcur Hm Hrows]. simpl in *.
  destruct (Hcur m Hc) as (r & Hr & Hst & Hph & Hseq & Hlog & Hsa).
  destruct (save_ok e); simplify_eq; split; simpl in *; try done.
  - intros i r' Hi Hst'. destruct (decide (i = m_id m)) as [->|Hne].
    + rewrite list_lookup_insert_eq in Hi; [by simplify_eq|by eapply lookup_lt_Some].
    + rewrite list_lookup_insert_ne // in Hi. destruct (Hrun i r' Hi Hst') as (m' & ? & ?). congruence.
  - rewrite Hm. symmetry. eapply omap_insert_None; [done|unfold row_metric; by rewrite decide_True|].
    unfold row_metric. rewrite decide_False //.
  - apply Forall_insert; [done|]. simpl. rewrite -Hph -Hseq -Hlog.
    by apply (Forall_lookup_1 _ _ _ _ Hrows Hr).
  - intros i r' Hi Hst'. destruct (Hrun i r' Hi Hst') as (m' & ? & ?). simplify_eq. eauto.
  - intros m' [= <-]. eauto 10.
Qed.

Lemma finish_shape phase status detail e t w :
  ∃ err t' w', finish phase status detail e (Some t) w = (err, Some t', w')
    ∧ syncLogID t' = syncLogID t
    ∧ (err = None → (∃ m, current t = Some m ∧ r_phase (m_row m) = phase) → current t' = None).
Proof.
  unfold finish. destruct (current t) as [m|] eqn:Hc; [|by eexists _, _, _].
  case_decide as Hp; [|destruct (save_ok e)]; eexists _, _, _; split_and!; try done.
  intros _ (m' & ? & ?). by simplify_eq.
Qed.

Lemma append_sound log t w r : current t = None ∨ r_status r ≠ PhaseStatusRunning →
  r_seq r = phaseSeq (r_phase r) → r_sync_log r = log →
  sound log (t, w) →
  sound log (set_current (if decide (r_status r = PhaseStatusRunning)
                          then Some {| m_id := length (rows w); m_row := r |} else current t) t,
             {| rows := rows w ++ [r];
                metrics := metrics w ++ option_list (row_metric r) |}).
Proof.
  intros Hor Hseq Hlog [Hl Hrun Hcur Hm Hrows]. simpl in *. split; simpl; try done.
  - intros i r' [Hi|[Hlen Hi]]%lookup_app_Some Hst.
    + destruct (Hrun i r' Hi Hst) as (m & Hc & <-). case_decide; [|eauto]. naive_solver.
    + apply list_lookup_singleton_Some in Hi as [Hi <-]. rewrite decide_True //.
      eexists. split; [done|]. simpl. lia.
  - intros m. case_decide as Hst.
    + intros [= <-]. simpl. exists r. rewrite lookup_app_r // Nat.sub_diag. eauto 10.
    + intros Hc. destruct (Hcur m Hc) as (r0 & Hr0 & ?). exists r0. split; [|done].
      by apply lookup_app_l_Some.
  - rewrite omap_app Hm. f_equiv. simpl. by destruct (row_metric r).
  - apply Forall_app. split; [done|]. by apply Forall_singleton.
Qed.

Lemma append_running log phase z t w : current t = None → sound log (t, w) →
  sound log (set_current (Some {| m_id := length (rows w);
                                  m_row := new_row (syncLogID t) phase PhaseStatusRunning z 0 "" |}) t,
             {| rows := rows w ++ [new_row (syncLogID t) phase PhaseStatusRunning z 0 ""];
                metrics := metrics w |}).
Proof.
  intros Hc Hs. assert (syncLogID t = log) as Hl by apply Hs.
  pose proof (append_sound log t w (new_row (syncLogID t) phase PhaseStatusRunning z 0 "")
    (or_introl Hc) eq_refl Hl Hs) as H.
  unfold row_metric in H. simpl in H. by rewrite app_nil_r in H.
Qed.

Lemma record_closed_sound log err phase status detail started d e t w o w' : terminal status →
  sound log (t, w) → record_closed err phase status detail started d e t w = (o, w') → sound log (t, w').
Proof.
  intros Ht Hs. unfold record_closed. destruct (find_ok e && save_ok e); [|by intros; simplify_eq].
  intros; simplify_eq. assert (syncLogID t = log) as Hl by apply Hs.
  pose proof (append_sound log t w (new_row (syncLogID t) phase status started d detail)
    (or_intror Ht) eq_refl Hl Hs) as H.
  unfold row_metric in H. simpl in H. rewrite !decide_False // in H. by destruct t.
Qed.

Lemma start_sound log phase e1 e2 t w err t' w' : sound log (t, w) →
  start phase e1 e2 (Some t) w = (err, Some t', w') → sound log (t', w').
Proof.
  intros Hs. unfold start. destruct (current t) as [m|] eqn:Hc.
  - destruct (finish_shape (r_phase (m_row m)) PhaseStatusSuccess "" e1 t w)
      as (err1 & t1 & w1 & Hf & Hlog & Hnone). rewrite Hf.
    assert (sound log (t1, w1)) as Hs1 by (eapply finish_sound; [|done|done]; done).
    destruct err1; [by intros; simplify_eq|].
    destruct (find_ok e2 && save_ok e2); intros; simplify_eq; [|done].
    apply append_running; [|done]. apply Hnone; eauto.
  - destruct (find_ok e2 && save_ok e2); intros; simplify_eq; [|done]. by apply append_running.
Qed.

Lemma step_sound log s s' : step s s' → sound log s → sound log s'.
Proof.
  intros Hst Hs. destruct Hst as [phase e1 e2 t w err t' w' H|phase status detail e t w err t' w' Ht H
    |detail e t w t' w' H|phase detail e t w err w' H|phase status started d detail e t w err w' Ht H].
  - by eapply start_sound.
  - by eapply finish_sound.
  - unfold finishCurrentAsError in H. destruct (current t) as [m|]; [|by simplify_eq].
    destruct (finish _ _ _ _ _ _) as [[err t1] w1] eqn:Hf. simplify_eq.
    by eapply finish_sound; [|done|done].
  - by eapply record_closed_sound; [|done|done].
  - by eapply record_closed_sound; [|done|done].
Qed.

Lemma reachable_sound log s : reachable log s → sound log s.
Proof.
  unfold reachable. intros Hr.
  assert (sound log (newPhaseTracker log, {| rows := []; metrics := [] |})) as H0 by (split; simpl; done).
  revert H0. induction Hr as [|x y z Hst _ IH]; [done|]. intros Hx. apply IH. by eapply step_sound.
Qed.

(** ** Properties *)

(** Whatever mix of phase operations and failing database calls a deploy
    goes through, its timeline has at most one row with status running, namely
    the tracker's open phase; every row carries the canonical position of its
    phase, and the duration metrics are exactly those of the closed rows. *)
Theorem timeline_invariant log t w : reachable log (t, w) →
  (∀ i j ri rj, rows w !! i = Some ri → rows w !! j = Some rj →
     r_status ri = PhaseStatusRunning → r_status rj = PhaseStatusRunning → i = j)
  ∧ (∀ m, current t = Some m → ∃ r, rows w !! m_id m = Some r ∧ r_status r = PhaseStatusRunning)
  ∧ Forall (λ r, r_seq r = phaseSeq (r_phase r) ∧ r_sync_log r = log) (rows w)
  ∧ metrics w ≡ₚ omap row_metric (rows w).
Proof.
  intros [Hl Hrun Hcur Hm Hrows]%reachable_sound. simpl in *. split_and!; [|naive_solver|done..].
  intros i j ri rj Hi Hj Hsi Hsj.
  destruct (Hrun i ri Hi Hsi) as (m & Hc & <-). destruct (Hrun j rj Hj Hsj) as (m' & ? & <-). congruence.
Qed.

(** The deferred cleanup works: after any run, closing the open phase as an
    error leaves no row running, and the row that was open says error with the
    given detail and its elapsed milliseconds. *)
Theorem cleanup_leaves_nothing_running log t w e detail : reachable log (t, w) → save_ok e = true →
  ∃ t' w', finishCurrentAsError detail e (Some t) w = (Some t', w')
    ∧ current t' = None
    ∧ (∀ i r, rows w' !! i = Some r → r_status r ≠ PhaseStatusRunning)
    ∧ (∀ m, current t = Some m → ∃ r, rows w' !! m_id m = Some r ∧ r_status r = PhaseStatusError
         ∧ r_detail r = detail
         ∧ r_duration_ms r = Z.quot (now e - r_started_at (m_row m)) 1000000).
Proof.
  intros Hr Hsave. pose proof (reachable_sound _ _ Hr) as Hs.
  unfold finishCurrentAsError. destruct (current t) as [m|] eqn:Hc.
  - destruct (finish (r_phase (m_row m)) PhaseStatusError detail e (Some t) w) as [[err t1] w1] eqn:Hf.
    destruct (finish_shape (r_phase (m_row m)) PhaseStatusError detail e t w)
      as (err' & t' & w' & Hf' & _ & _). rewrite Hf' in Hf. simplify_eq.
    assert (sound log (t', w1)) as Hs' by (eapply finish_sound; [|done|done]; done).
    unfold finish in Hf'. rewrite Hc decide_False in Hf'; [|naive_solver]. rewrite Hsave in Hf'.
    simplify_eq. eexists _, _. split_and!; [done|done| |].
    + intros i r Hi Hst. by destruct (s_running log _ Hs' i r Hi Hst) as (? & ? & _).
    + intros m' [= <-]. destruct (s_current log _ Hs m Hc) as (r & Hr0 & _). simpl in *.
      eexists. split; [apply list_lookup_insert_eq; by eapply lookup_lt_Some|]. done.
  - eexists _, _. split_and!; [done|done| |done].
    intros i r Hi Hst. destruct (s_running log _ Hs i r Hi Hst) as (? & Hx & _). simpl in Hx. congruence.
Qed.

(** The tracker after opening the fetch phase and then the render phase. *)
Definition ok_env (z : Z) : env := {| find_ok := true; save_ok := true; now := z |}.

Definition fetch_row : row := new_row "log1" PhaseGitFetch PhaseStatusRunning 0 0 "".
Definition after_fetch : phaseTracker * world :=
  ({| syncLogID := "log1"; current := Some {| m_id := 0; m_row := fetch_row |} |},
   {| rows := [fetch_row]; metrics := [] |}).

Lemma after_fetch_reachable : reachable "log1" after_fetch.
Proof.
  eapply rtc_l; [|apply rtc_refl].
  apply (step_start PhaseGitFetch (ok_env 0) (ok_env 0) _ _ None). reflexivity.
Qed.

Lemma timeline_invariant_witness :
  metrics after_fetch.2 ≡ₚ omap row_metric (rows after_fetch.2).
Proof. apply (timeline_invariant "log1" after_fetch.1 after_fetch.2 after_fetch_reachable). Defined.

Lemma cleanup_leaves_nothing_running_witness :
  ∃ t' w', finishCurrentAsError "boom" (ok_env 5000000) (Some after_fetch.1) after_fetch.2 = (Some t', w')
    ∧ current t' = None.
Proof.
  destruct (cleanup_leaves_nothing_running "log1" after_fetch.1 after_fetch.2 (ok_env 5000000) "boom"
    after_fetch_reachable eq_refl) as (t' & w' & H1 & H2 & _).
  exists t', w'. split; [exact H1|exact H2].
Defined.
