(* ===== verification/LintPhase.v ===== *)
(** * internal/sync/lint.go: the lint phase of a deploy

    The early lint run of a reconcile and its row in the deploy timeline. *)
From Stdlib Require Import ZArith.
From S2P Require Import Prelude GoStrings GoFmt GoValue Policy LintCore LintRules PhaseTracker.

Record lintResult := { l_report : Report; l_started : Z; l_duration : Z; l_err : option string }.

Definition empty_report : Report := {| Findings := []; Errors := 0; Warnings := 0; Infos := 0 |}.

Definition detail (l : lintResult) : string :=
  match l_err l with
  | Some err => "lint skipped: " +:+ err
  | None => Summary (l_report l)
  end.

(** The errors of the phase tracker are dropped by the caller. *)
Definition recordLintPhase (e : env) (pt : option phaseTracker) (res : lintResult) (w : world) : world :=
  match l_err res with
  | Some _ => (recordSkipped PhaseLint (detail res) e pt w).2
  | None => (recordCompleted PhaseLint PhaseStatusSuccess (l_started res) (l_duration res) (detail res) e pt w).2
  end.

(** The local variable [res] of [lintCompose], whose deferred function stores the
    elapsed milliseconds in it.  The result of the function is not named, so
    [return res] copies the variable before the deferred function runs. *)
Definition deferred (ended : Z) (res : lintResult) : lintResult :=
  {| l_report := l_report res; l_started := l_started res;
     l_duration := Z.quot (ended - l_started res) 1000000; l_err := l_err res |}.

Definition returns (ended : Z) (res : lintResult) : lintResult :=
  let result := res in
  let res := deferred ended res in
  result.

Section lint.
Context `{UnicodeTables}.

(** [config] is the decoded output of [docker compose config], [load] the worker's
    policy as loaded for a worker. *)
Definition lintCompose (started ended : Z) (config : gmap string value + string)
    (load : string → WorkerPolicy + string) (root workerID : string) (envVars : list string) : lintResult :=
  match config with
  | inr err => returns ended {| l_report := empty_report; l_started := started; l_duration := 0; l_err := Some err |}
  | inl configMap =>
      let wp := if decide (workerID = "") then None
                else match load workerID with inl p => Some p | inr _ => None end in
      returns ended
        {| l_report := Run configMap {| ctx_Policy := wp; ctx_EnvKeys := Some (EnvKeysFromPairs envVars);
                                        ctx_RepoRoot := root |};
           l_started := started; l_duration := 0; l_err := None |}
  end.

(** The lint phase never fails a deploy and never shows how long it took: its
    row is a success or skipped, never an error, and a success always has a
    duration of 0, since the deferred function sets a variable that the return
    statement has already copied. *)
Theorem lint_phase_recorded (started ended : Z) (config : gmap string value + string)
    (load : string → WorkerPolicy + string) (root workerID : string) (envVars : list string)
    (e : env) (t : phaseTracker) (w : world) :
  find_ok e = true → save_ok e = true →
  let res := lintCompose started ended config load root workerID envVars in
  ∃ r, rows (recordLintPhase e (Some t) res w) = rows w ++ [r]
  ∧ r_phase r = PhaseLint ∧ r_duration_ms r = 0%Z ∧ r_detail r = detail res
  ∧ r_status r = match config with inl _ => PhaseStatusSuccess | inr _ => PhaseStatusSkipped end.
Proof.
  intros Hf Hs res. unfold recordLintPhase. destruct config as [m|err]; cbn [l_err lintCompose returns res].
  - unfold recordCompleted, record_closed. rewrite Hf Hs. cbn. by eexists.
  - unfold recordSkipped, record_closed. rewrite Hf Hs. cbn. by eexists.
Qed.
End lint.

#[local] Instance printable : UnicodeTables := λ _, true.

Lemma lint_phase_recorded_witness :
  ∃ r, rows (recordLintPhase (ok_env 9000000) (Some (newPhaseTracker "log1"))
               (lintCompose 1000000 5000000 (inl ∅) (λ _, inl open_policy) "/repo" "w1" [])
               {| rows := []; metrics := [] |}) = [r]
  ∧ r_duration_ms r = 0%Z ∧ r_detail r = "1 error".
Proof.
  destruct (lint_phase_recorded 1000000 5000000 (inl ∅) (λ _, inl open_policy) "/repo" "w1" []
    (ok_env 9000000) (newPhaseTracker "log1") {| rows := []; metrics := [] |} eq_refl eq_refl)
    as (r & H1 & _ & H2 & H3 & _).
  exists r. split; [exact H1|]. split; [exact H2|]. rewrite H3. vm_compute. reflexivity.
Defined.
