(* ===== verification/Health.v ===== *)
(** * internal/compose/health.go: what a service's containers say about it

    [since] stands for parsing a start time and reading the clock: the elapsed
    nanoseconds, or [None] for a text that is no RFC 3339 time. *)
From Stdlib Require Import ZArith.
From S2P Require Import Prelude GoStrings.

Record ServiceStatus := {
  ServiceName : string; ContainerID : string; ContainerName : string; Status : string;
  Labels : gmap string string; Health : string; RestartCount : Z; StartedAt : string; ExitCode : Z }.

Inductive ServiceHealthState :=
  ServiceHealthy | ServiceStarting | ServiceMissing | ServiceUnhealthy | ServiceRestartLooping.

#[global] Instance ServiceHealthState_eq_dec : EqDecision ServiceHealthState.
Proof. solve_decision. Defined.

Definition restartLoopThreshold : Z := 3.
Definition restartLoopWindow : Z := 2 * 60 * 1000000000.

(** status.go: Docker's container states. *)
Definition mapStatus (state : string) : string :=
  let s := ToLower state in
  if decide (s = "running") then "running"
  else if decide (s = "exited" ∨ s = "dead") then "exited"
  else if decide (s = "paused") then "paused"
  else if decide (s = "created") then "created"
  else if decide (s = "restarting") then "error"
  else "missing".

Section health.
Context (since : string → option Z).

Definition IsRestartLooping (s : ServiceStatus) : bool :=
  if decide (RestartCount s < restartLoopThreshold)%Z then false
  else if decide (StartedAt s = "") then true
  else match since (StartedAt s) with
       | None => true
       | Some d => bool_decide (d < restartLoopWindow)%Z
       end.

(** The four flags of the loop over the instances. *)
Record flags := { healthy : bool; starting : bool; unhealthy : bool; looping : bool }.

Definition no_flags : flags := {| healthy := false; starting := false; unhealthy := false; looping := false |}.
Definition set_healthy (f : flags) : flags :=
  {| healthy := true; starting := starting f; unhealthy := unhealthy f; looping := looping f |}.
Definition set_starting (f : flags) : flags :=
  {| healthy := healthy f; starting := true; unhealthy := unhealthy f; looping := looping f |}.
Definition set_unhealthy (f : flags) : flags :=
  {| healthy := healthy f; starting := starting f; unhealthy := true; looping := looping f |}.
Definition set_looping (f : flags) : flags :=
  {| healthy := healthy f; starting := starting f; unhealthy := unhealthy f; looping := true |}.

Definition observe (isInit requireAllReplicas : bool) (f : flags) (i : ServiceStatus) : flags :=
  if IsRestartLooping i then set_looping f
  else if isInit then
    if decide (Status i = "running") then set_healthy f
    else if decide (Status i = "exited") then
      if decide (ExitCode i = 0)%Z then set_healthy f else set_unhealthy f
    else if decide (Status i = "created" ∨ Status i = "restarting" ∨ Status i = "paused")
      then set_starting f
    else set_unhealthy f
  else if negb requireAllReplicas && bool_decide (Status i = "running")
          && bool_decide (Health i ≠ "unhealthy") then set_healthy f
  else if decide (Status i = "exited" ∨ Status i = "dead" ∨ Health i = "unhealthy")
    then set_unhealthy f
  else if decide (Status i ≠ "running" ∨ Health i = "starting") then set_starting f
  else set_healthy f.

Definition ClassifyServiceInstances (instances : list ServiceStatus) (isInit requireAllReplicas : bool)
    : ServiceHealthState :=
  match instances with
  | [] => if isInit then ServiceHealthy else ServiceMissing
  | _ =>
      let f := foldl (observe isInit requireAllReplicas) no_flags instances in
      if requireAllReplicas then
        if looping f then ServiceRestartLooping
        else if unhealthy f then ServiceUnhealthy
        else if starting f then ServiceStarting
        else if healthy f then ServiceHealthy
        else ServiceMissing
      else
        if healthy f then ServiceHealthy
        else if looping f then ServiceRestartLooping
        else if unhealthy f then ServiceUnhealthy
        else if isInit then ServiceStarting
        else ServiceMissing
  end.

(** ** What the classification means *)

(** The flag one instance raises. *)
Inductive verdict := VHealthy | VStarting | VUnhealthy | VLooping.

#[global] Instance verdict_eq_dec : EqDecision verdict.
Proof. solve_decision. Defined.

Definition verdict_of (isInit strict : bool) (i : ServiceStatus) : verdict :=
  let f := observe isInit strict no_flags i in
  if looping f then VLooping else if unhealthy f then VUnhealthy
  else if starting f then VStarting else VHealthy.

(** A container that makes its service sound: a run-to-completion one that runs
    or has exited with 0; another that runs, its health check not failing and,
    when every replica counts, not pending. *)
Definition sound_instance (isInit strict : bool) (i : ServiceStatus) : Prop :=
  IsRestartLooping i = false ∧
  if isInit then Status i = "running" ∨ (Status i = "exited" ∧ ExitCode i = 0%Z)
  else Status i = "running" ∧ Health i ≠ "unhealthy" ∧ (strict = true → Health i ≠ "starting").

Definition flag (v : verdict) (f : flags) : bool :=
  match v with VHealthy => healthy f | VStarting => starting f
             | VUnhealthy => unhealthy f | VLooping => looping f end.

Lemma observe_flag isInit strict f i v :
  flag v (observe isInit strict f i) = flag v f || bool_decide (verdict_of isInit strict i = v).
Proof.
  unfold verdict_of, observe.
  repeat (let x := match goal with |- context [match ?b with _ => _ end] =>
            lazymatch b with
            | IsRestartLooping _ => b | isInit => b | decide _ => b
            | negb _ && _ && _ => b end end in destruct x);
  destruct v; simpl; by rewrite ?orb_true_r ?orb_false_r.
Qed.

Lemma fold_flag isInit strict v l : ∀ f,
  flag v (foldl (observe isInit strict) f l) = flag v f || existsb (λ i, bool_decide (verdict_of isInit strict i = v)) l.
Proof.
  induction l as [|i l IH]; intros f; simpl; [by rewrite orb_false_r|].
  by rewrite IH observe_flag orb_assoc.
Qed.

(** Some instance raises the flag. *)
Definition some_instance (isInit strict : bool) (v : verdict) (l : list ServiceStatus) : bool :=
  existsb (λ i, bool_decide (verdict_of isInit strict i = v)) l.

Lemma some_instance_spec isInit strict v l :
  some_instance isInit strict v l = true ↔ ∃ i, i ∈ l ∧ verdict_of isInit strict i = v.
Proof.
  unfold some_instance. rewrite existsb_exists.
  split; intros (i & Hi & Hv); exists i; rewrite ?bool_decide_eq_true in Hv |- *;
    (split; [|done]); by apply list_elem_of_In.
Qed.

Lemma some_instance_perm isInit strict v l k : l ≡ₚ k →
  some_instance isInit strict v l = some_instance isInit strict v k.
Proof.
  intros Hp. apply eq_true_iff_eq. rewrite !some_instance_spec. by setoid_rewrite Hp.
Qed.

Lemma Classify_flags instances isInit strict : instances ≠ [] →
  ClassifyServiceInstances instances isInit strict =
  let some v := some_instance isInit strict v instances in
  if strict then
    if some VLooping then ServiceRestartLooping
    else if some VUnhealthy then ServiceUnhealthy
    else if some VStarting then ServiceStarting
    else if some VHealthy then ServiceHealthy else ServiceMissing
  else
    if some VHealthy then ServiceHealthy
    else if some VLooping then ServiceRestartLooping
    else if some VUnhealthy then ServiceUnhealthy
    else if isInit then ServiceStarting else ServiceMissing.
Proof.
  intros Hne. unfold ClassifyServiceInstances.
  pose proof (fold_flag isInit strict VHealthy instances no_flags) as H1.
  pose proof (fold_flag isInit strict VStarting instances no_flags) as H2.
  pose proof (fold_flag isInit strict VUnhealthy instances no_flags) as H3.
  pose proof (fold_flag isInit strict VLooping instances no_flags) as H4.
  simpl in H1, H2, H3, H4. destruct instances as [|i l]; [done|].
  unfold some_instance. cbv beta zeta. by rewrite -H1 -H2 -H3 -H4.
Qed.

Lemma verdict_healthy isInit strict i :
  verdict_of isInit strict i = VHealthy ↔ sound_instance isInit strict i.
Proof.
  unfold verdict_of, sound_instance, observe.
  destruct (IsRestartLooping i); [simpl; intuition congruence|].
  destruct (decide (Status i = "running")) as [Hr|Hr];
    destruct (decide (Health i = "unhealthy")) as [Hu|Hu];
    destruct (decide (Health i = "starting")) as [Hs|Hs]; destruct isInit, strict; simpl;
    rewrite ?(bool_decide_eq_true_2 _ Hr) ?(bool_decide_eq_false_2 _ Hr); simpl;
    rewrite ?(bool_decide_eq_true_2 (Health i ≠ "unhealthy") Hu)
            ?(bool_decide_eq_false_2 (Health i ≠ "unhealthy") (λ H, H Hu)); simpl;
    repeat case_decide; simpl; intuition congruence.
Qed.

Lemma Classify_perm l k isInit strict : l ≡ₚ k →
  ClassifyServiceInstances l isInit strict = ClassifyServiceInstances k isInit strict.
Proof.
  intros Hp. destruct l as [|i l].
  { by apply Permutation_nil_l in Hp as ->. }
  assert (k ≠ []) as Hk by (intros ->; by apply Permutation_nil_r in Hp).
  rewrite !Classify_flags //. cbv beta zeta.
  assert (∀ v, some_instance isInit strict v (i :: l) = some_instance isInit strict v k) as H
    by (intros v; by apply some_instance_perm).
  by rewrite !H.
Qed.

Lemma some_healthy isInit strict l :
  some_instance isInit strict VHealthy l = true ↔ ∃ i, i ∈ l ∧ sound_instance isInit strict i.
Proof. rewrite some_instance_spec. by setoid_rewrite verdict_healthy. Qed.

(** Deploy mode: healthy means some sound instance, or a run-to-completion
    service without containers. *)
Lemma Classify_any l isInit :
  ClassifyServiceInstances l isInit false = ServiceHealthy ↔
  (l = [] ∧ isInit = true) ∨ ∃ i, i ∈ l ∧ sound_instance isInit false i.
Proof.
  destruct l as [|i l]; [destruct isInit; simpl; set_solver|].
  rewrite Classify_flags //. cbv beta zeta. rewrite -some_healthy.
  destruct (some_instance _ _ VHealthy _); [naive_solver|].
  split; [|intros [[? _]|?]; done].
  by repeat match goal with |- context [if ?b then _ else _] => destruct b end.
Qed.

(** Live mode: healthy means every instance is sound. *)
Lemma Classify_all l isInit :
  ClassifyServiceInstances l isInit true = ServiceHealthy ↔
  (l = [] → isInit = true) ∧ ∀ i, i ∈ l → sound_instance isInit true i.
Proof.
  destruct l as [|i0 l]; [destruct isInit; simpl; set_solver|].
  rewrite Classify_flags //. cbv beta zeta. split.
  - intros H. split; [done|]. intros i Hi. apply verdict_healthy.
    destruct (verdict_of isInit true i) eqn:Hv; [done|exfalso..].
    all: pose proof (proj2 (some_instance_spec isInit true _ _) (ex_intro _ i (conj Hi Hv))) as Hs.
    all: rewrite Hs in H; by repeat case_match.
  - intros [_ Hall].
    assert (∀ v, v ≠ VHealthy → some_instance isInit true v (i0 :: l) = false) as Hno.
    { intros v Hv. apply not_true_is_false. rewrite some_instance_spec. intros (i & Hi & <-).
      by apply Hv, verdict_healthy, Hall. }
    rewrite (Hno VLooping) // (Hno VUnhealthy) // (Hno VStarting) //. assert (some_instance isInit true VHealthy (i0 :: l) = true) as ->; [|done].
    apply some_healthy. exists i0. split; [by constructor|]. apply Hall. by constructor.
Qed.

(** The container classifier says a service is healthy exactly when its
    containers are sound: in live mode every container must be (an init service
    may have none), in deploy mode one sound container is enough; and the verdict
    does not depend on the order in which Docker lists the containers. *)
Theorem classifier_exact l k isInit strict : l ≡ₚ k →
  ClassifyServiceInstances l isInit strict = ClassifyServiceInstances k isInit strict
  ∧ (ClassifyServiceInstances l isInit true = ServiceHealthy ↔
       (l = [] → isInit = true) ∧ ∀ i, i ∈ l → sound_instance isInit true i)
  ∧ (ClassifyServiceInstances l isInit false = ServiceHealthy ↔
       (l = [] ∧ isInit = true) ∨ ∃ i, i ∈ l ∧ sound_instance isInit false i).
Proof. intros Hp. split_and!; [by apply Classify_perm|apply Classify_all|apply Classify_any]. Qed.

End health.

Definition running_web : ServiceStatus :=
  {| ServiceName := "web"; ContainerID := "c1"; ContainerName := "web-1"; Status := "running";
     Labels := ∅; Health := "none"; RestartCount := 0; StartedAt := ""; ExitCode := 0 |}.
Definition crashed_web : ServiceStatus :=
  {| ServiceName := "web"; ContainerID := "c2"; ContainerName := "web-2"; Status := "exited";
     Labels := ∅; Health := "none"; RestartCount := 0; StartedAt := ""; ExitCode := 137 |}.

Lemma classifier_exact_witness :
  ClassifyServiceInstances (λ _, None) [running_web; crashed_web] false true
  = ClassifyServiceInstances (λ _, None) [crashed_web; running_web] false true
  ∧ ClassifyServiceInstances (λ _, None) [running_web; crashed_web] false true = ServiceUnhealthy
  ∧ ClassifyServiceInstances (λ _, None) [running_web; crashed_web] false false = ServiceHealthy.
Proof.
  split; [|split; vm_compute; reflexivity].
  apply (classifier_exact (λ _, None)). constructor.
Defined.
