(* ===== verification/ComposeDoc.v ===== *)
(** * internal/compose/config.go: reading and rewriting compose documents

    The functions that look at a parsed compose file or at the map
    [docker compose config] produced.  [yaml_parse] is the YAML library; the
    struct decoding the code asks of it is written out on the parsed value: an
    absent or null field keeps its zero value, a field of the wrong shape is an
    error.  [docker compose] itself and the opening of files are not modelled. *)
From Stdlib Require Import ZArith.
From S2P Require Import Prelude GoStrings GoPath GoValue.

Definition initLabel : string := "customization.init".

(** ** Numbers
    An integer among the texts [fmt] prints for a number: decimal digits, or a
    mantissa and a non-negative exponent that leaves no fraction. *)
Definition digit_of (a : ascii) : option Z :=
  let n := nat_of_ascii a in
  if decide (48 ≤ n ∧ n ≤ 57) then Some (Z.of_nat (n - 48)) else None.

Fixpoint digits_from (acc : Z) (s : string) : option Z :=
  match s with
  | "" => Some acc
  | String a s => d ← digit_of a; digits_from (10 * acc + d)%Z s
  end.

Definition digits (s : string) : option Z := if decide (s = "") then None else digits_from 0 s.

Definition unsigned_int (t : string) : option Z :=
  match cut "e"%char t with
  | None => digits t
  | Some (mant, ex) =>
      e ← (r ← strip_prefix "+" ex; digits r);
      let '(a, b) := match cut "."%char mant with Some p => p | None => (mant, "") end in
      n ← digits (a +:+ b);
      if decide (Z.of_nat (String.length b) ≤ e)%Z
      then Some (n * 10 ^ (e - Z.of_nat (String.length b)))%Z else None
  end.

Definition num_int (t : string) : option Z :=
  match strip_prefix "-" t with
  | Some r => Z.opp <$> unsigned_int r
  | None => unsigned_int t
  end.

(** ** Struct decoding *)

(** A field of map type. *)
Definition decode_map_field (v : option value) : option (gmap string value) :=
  match v with
  | None | Some VNull => Some ∅
  | Some (VMap m) => Some m
  | Some _ => None
  end.

(** The document, whose top level must be a mapping or empty. *)
Definition decode_doc (v : value) : option (gmap string value) := decode_map_field (Some v).

Definition decode_services (v : value) : option (gmap string value) :=
  doc ← decode_doc v; decode_map_field (doc !! "services").

(** ** Names *)
Definition ProjectName (workDir : string) : string :=
  ToLower ((fix sub (s : string) : string :=
    match s with
    | "" => ""
    | String a s => String (if decide (a = " "%char) then "_"%char else a) (sub s)
    end) (Base workDir)).

Definition project_char (a : ascii) : bool :=
  let n := nat_of_ascii a in
  bool_decide (97 ≤ n ∧ n ≤ 122) || bool_decide (48 ≤ n ∧ n ≤ 57)
  || bool_decide (a = "_"%char) || bool_decide (a = "-"%char).

(** The loop runs over runes: a multi-byte rune becomes one dash. *)
Fixpoint sanitize_runes (fuel : nat) (s : string) : string :=
  match fuel, s with
  | S fuel, String a _ =>
      String (if project_char a then a else "-"%char)
        (sanitize_runes fuel (sdrop (decode_rune s).2 s))
  | _, _ => ""
  end.

(** [strings.TrimLeft]. *)
Fixpoint trim_left_chars (cs : list ascii) (s : string) : string :=
  match s with
  | "" => ""
  | String a r => if decide (a ∈ cs) then trim_left_chars cs r else s
  end.

Definition SanitizeProjectName (name : string) : string :=
  let lower := ToLower (TrimSpace name) in
  let sanitized := trim_left_chars ["-"%char; "_"%char] (sanitize_runes (String.length lower) lower) in
  if decide (sanitized = "") then "stack" else sanitized.

(** ** Labels *)

(** [strings.SplitN(s, "=", 2)] into a key and a value, the value empty when
    there is no equals sign. *)
Definition split_label (s : string) : string * string :=
  match cut "="%char s with Some p => p | None => (s, "") end.

Definition labelsToMap (input : option value) : gmap string string :=
  match input with
  | Some (VMap m) => Sprint <$> m
  | Some (VList l) =>
      foldl (λ acc v, match v with
                      | VStr s => let '(k, x) := split_label s in <[k := x]> acc
                      | _ => acc
                      end) ∅ l
  | _ => ∅
  end.

Definition isLabelTruthy (labels : gmap string string) (key : string) : bool :=
  let v := ToLower (default "" (labels !! key)) in
  bool_decide (v = "true" ∨ v = "1" ∨ v = "yes").

(** ** Service lists *)
Section services.
Context `{GoRange} (yaml_parse : string → option value).

(** The error and whether services were found, as composeYAMLCheck reports them. *)
Definition composeYAMLCheck (data : string) : option bool :=
  v ← yaml_parse data; services ← decode_services v; Some (bool_decide (services ≠ ∅)).

Definition IsComposeFile (data : string) : bool := default false (composeYAMLCheck data).

Definition ComposeCandidateError (data : string) : option string :=
  match composeYAMLCheck data with
  | None => Some "invalid compose document"
  | Some false => Some "no services defined"
  | Some true => None
  end.

Definition ExpectedServiceNames (data : string) : option (list string) :=
  v ← yaml_parse data; services ← decode_services v; Some (go_range services).*1.

Record ExpectedService := { es_Name : string; IsInit : bool; Replicas : Z }.

Definition composeReplicaCount (raw : option value) : option Z :=
  match raw with Some (VNum t) => num_int t | _ => None end.

(** One service's struct: its labels, scale and deploy.replicas. *)
Definition decode_service (v : value) : option (option value * option value * option value) :=
  svc ← decode_map_field (Some v);
  deploy ← decode_map_field (svc !! "deploy");
  Some (svc !! "labels", svc !! "scale", deploy !! "replicas").

Definition effective_replicas (scale replicas : option value) : Z :=
  match composeReplicaCount scale with
  | Some n => n
  | None => match composeReplicaCount replicas with Some n => n | None => 1 end
  end.

Definition expected_service (name : string) (d : option value * option value * option value)
    : option ExpectedService :=
  let '(labels, scale, replicas) := d in
  let n := effective_replicas scale replicas in
  if decide (n = 0)%Z then None
  else Some {| es_Name := name; IsInit := isLabelTruthy (labelsToMap labels) initLabel; Replicas := n |}.

(** Decoding every value of a map, failing when one fails. *)
Fixpoint decode_each {A} (f : value → option A) (l : list (string * value)) : option (list (string * A)) :=
  match l with
  | [] => Some []
  | kv :: l => match f kv.2, decode_each f l with
               | Some a, Some r => Some ((kv.1, a) :: r)
               | _, _ => None
               end
  end.

Definition ExpectedServices (data : string) : option (list ExpectedService) :=
  v ← yaml_parse data; services ← decode_services v;
  match decode_each decode_service (go_range services) with
  | Some ds => Some (omap (λ kd, expected_service kd.1 kd.2) ds)
  | None => None
  end.

(** Only the labels of a service are decoded here. *)
Definition decode_labels (v : value) : option (gmap string string) :=
  svc ← decode_map_field (Some v); Some (labelsToMap (svc !! "labels")).

Definition InitServiceNames (data : string) : option (gset string) :=
  v ← yaml_parse data; services ← decode_services v;
  match decode_each decode_labels (go_range services) with
  | Some ds => Some (list_to_set (filter (λ kd, isLabelTruthy kd.2 initLabel = true) ds).*1)
  | None => None
  end.

Definition ExtractProjectName (data : string) : string + string :=
  match v ← yaml_parse data; decode_doc v with
  | None => inr "failed to parse compose name"
  | Some doc =>
      match doc !! "name" with
      | Some (VList _) | Some (VMap _) => inr "failed to parse compose name"
      | None | Some VNull => inr "compose file has no top-level 'name' field"
      | Some v => if decide (Sprint v = "") then inr "compose file has no top-level 'name' field"
                  else inl (Sprint v)
      end
  end.
End services.

(** ** Resource names *)
Definition auto_name (project key : string) : string := project +:+ "_" +:+ key.

Definition rename_resource (oldName newName key : string) (v : value) : value :=
  match v with
  | VMap def =>
      if decide (get_str "name" def = Some (auto_name oldName key))
      then VMap (<["name" := VStr (auto_name newName key)]> def) else v
  | _ => v
  end.

Definition rename_section (oldName newName section : string) (configMap : gmap string value)
    : gmap string value :=
  match configMap !! section with
  | Some (VMap resources) =>
      <[section := VMap (map_imap (λ key v, Some (rename_resource oldName newName key v)) resources)]> configMap
  | _ => configMap
  end.

Definition RewriteAutoNamedResources (configMap : gmap string value) (oldName newName : string)
    : gmap string value :=
  if decide (oldName = "" ∨ oldName = newName) then configMap
  else foldl (λ m section, rename_section oldName newName section m) configMap ["networks"; "volumes"].

Definition preserve_volume (previous : gmap string value) (targetProject key : string) (raw : value) : value :=
  match raw with
  | VMap def =>
      if decide (get_str "name" def = Some (auto_name targetProject key)) then
        match previous !! key with
        | Some (VMap previousDef) =>
            let previousName := default "" (get_str "name" previousDef) in
            if decide (previousName ≠ "") then VMap (<["name" := VStr previousName]> def) else raw
        | _ => raw
        end
      else raw
  | _ => raw
  end.

Definition PreserveAutoNamedVolumes (configMap previousConfig : gmap string value) (targetProject : string)
    : gmap string value :=
  match configMap !! "volumes" with
  | Some (VMap current) =>
      if decide (targetProject = "") then configMap
      else match previousConfig !! "volumes" with
           | Some (VMap previous) =>
               <["volumes" := VMap (map_imap (λ key raw, Some (preserve_volume previous targetProject key raw)) current)]>
                 configMap
           | _ => configMap
           end
  | _ => configMap
  end.

(** ** Properties *)

(** The [name] of a resource definition. *)
Definition def_name (v : option value) : option string :=
  match v with Some (VMap def) => get_str "name" def | _ => None end.

#[local] Arguments def_name : simpl never.

Definition resource_name (section key : string) (configMap : gmap string value) : option string :=
  match configMap !! section with Some (VMap res) => def_name (res !! key) | _ => None end.

Lemma get_str_insert k s m : get_str k (<[k := VStr s]> m) = Some s.
Proof. unfold get_str. by rewrite lookup_insert_eq. Qed.

Lemma resource_name_imap f section key m resources :
  m !! section = Some (VMap resources) →
  resource_name section key (<[section := VMap (map_imap (λ k v, Some (f k v)) resources)]> m)
  = def_name (f key <$> resources !! key).
Proof.
  intros Hs. unfold resource_name. rewrite lookup_insert_eq /= map_lookup_imap.
  by destruct (resources !! key).
Qed.

Lemma resource_name_insert_ne section s key v m : section ≠ s →
  resource_name section key (<[s := v]> m) = resource_name section key m.
Proof. intros Hne. unfold resource_name. by rewrite lookup_insert_ne. Qed.

Lemma resource_name_at section key m resources : m !! section = Some (VMap resources) →
  resource_name section key m = def_name (resources !! key).
Proof. intros Hs. unfold resource_name. by rewrite Hs. Qed.

Lemma resource_name_eq section key m m' : m !! section = m' !! section →
  resource_name section key m = resource_name section key m'.
Proof. intros Hs. unfold resource_name. by rewrite Hs. Qed.

Lemma rename_resource_name oldName newName key v :
  def_name (Some (rename_resource oldName newName key v))
  = if decide (def_name (Some v) = Some (auto_name oldName key))
    then Some (auto_name newName key) else def_name (Some v).
Proof.
  destruct v as [| | | | |def]; try done.
  unfold def_name. simpl. case_decide; [|done]. apply get_str_insert.
Qed.

Lemma rename_section_name oldName newName section s key m :
  resource_name s key (rename_section oldName newName section m)
  = if decide (s = section ∧ resource_name s key m = Some (auto_name oldName key))
    then Some (auto_name newName key) else resource_name s key m.
Proof.
  unfold rename_section. destruct (decide (s = section)) as [->|Hne].
  - destruct (m !! section) as [[| | | | |res]|] eqn:Hm; try (rewrite decide_False //;
      intros [_ Hn]; unfold resource_name in Hn; by rewrite Hm in Hn).
    rewrite resource_name_imap // (resource_name_at section key m res Hm).
    destruct (res !! key) as [v|]; simpl; [|rewrite decide_False //; naive_solver].
    rewrite rename_resource_name. repeat case_decide; naive_solver.
  - rewrite decide_False; [|naive_solver].
    destruct (m !! section) as [[]|]; try done. by apply resource_name_insert_ne.
Qed.

Lemma preserve_volume_name previous target key v :
  def_name (Some (preserve_volume previous target key v))
  = if decide (def_name (Some v) = Some (auto_name target key)) then
      let p := default "" (def_name (previous !! key)) in
      if decide (p = "") then Some (auto_name target key) else Some p
    else def_name (Some v).
Proof.
  destruct v as [| | | | |def]; try done. unfold preserve_volume.
  destruct (decide (get_str "name" def = Some (auto_name target key))) as [Hn|Hn].
  2: by rewrite decide_False.
  rewrite (decide_True (P := def_name (Some (VMap def)) = _)) //.
  destruct (previous !! key) as [[| | | | |pd]|]; try done. cbv zeta.
  change (def_name (Some (VMap pd))) with (get_str "name" pd).
  destruct (decide (default "" (get_str "name" pd) = "")) as [He|Hp].
  - rewrite decide_False //. naive_solver.
  - rewrite decide_True //. apply get_str_insert.
Qed.

Lemma preserve_name m prev target key : target ≠ "" →
  resource_name "volumes" key (PreserveAutoNamedVolumes m prev target)
  = if decide (resource_name "volumes" key m = Some (auto_name target key)) then
      let p := default "" (resource_name "volumes" key prev) in
      if decide (p = "") then Some (auto_name target key) else Some p
    else resource_name "volumes" key m.
Proof.
  intros Ht. unfold PreserveAutoNamedVolumes.
  destruct (m !! "volumes") as [[| | | | |cur]|] eqn:Hm; try (rewrite decide_False //;
    intros Hn; unfold resource_name in Hn; by rewrite Hm in Hn).
  rewrite decide_False //.
  destruct (prev !! "volumes") as [[| | | | |previous]|] eqn:Hp;
    try (assert (resource_name "volumes" key prev = None) as -> by (unfold resource_name; by rewrite Hp);
         simpl; case_decide; congruence).
  rewrite resource_name_imap // (resource_name_at _ _ m cur Hm) (resource_name_at _ _ prev previous Hp).
  destruct (cur !! key) as [v|]; simpl; [|done]. apply preserve_volume_name.
Qed.

Lemma preserve_other m prev target section : section ≠ "volumes" →
  PreserveAutoNamedVolumes m prev target !! section = m !! section.
Proof.
  intros Hne. unfold PreserveAutoNamedVolumes. destruct (m !! "volumes") as [[]|]; try done.
  case_decide; [done|]. destruct (prev !! "volumes") as [[]|]; try done. by rewrite lookup_insert_ne.
Qed.

Lemma rename_section_other oldName newName section s m : s ≠ section →
  rename_section oldName newName section m !! s = m !! s.
Proof.
  intros Hne. unfold rename_section. destruct (m !! section) as [[]|]; try done.
  by rewrite lookup_insert_ne.
Qed.

(** Renaming a stack's compose project changes exactly the implicit
    resource names: a network named old_key becomes new_key; a volume named
    old_key keeps the physical name it had in the deployed revision when there
    was one and becomes new_key otherwise; explicitly named networks and volumes
    keep their names, and no other section of the document changes. *)
Theorem project_rename_exact m prev oldName newName key : oldName ≠ "" → newName ≠ "" → oldName ≠ newName →
  let m' := PreserveAutoNamedVolumes (RewriteAutoNamedResources m oldName newName) prev newName in
  let name s := resource_name s key m in
  resource_name "networks" key m'
    = (if decide (name "networks" = Some (auto_name oldName key))
       then Some (auto_name newName key) else name "networks")
  ∧ resource_name "volumes" key m'
    = (if decide (name "volumes" = Some (auto_name oldName key) ∨ name "volumes" = Some (auto_name newName key))
       then let p := default "" (resource_name "volumes" key prev) in
            if decide (p = "") then Some (auto_name newName key) else Some p
       else name "volumes")
  ∧ ∀ section, section ≠ "networks" → section ≠ "volumes" → m' !! section = m !! section.
Proof.
  intros Ho Hn Hne. cbv zeta. unfold RewriteAutoNamedResources.
  rewrite decide_False; [|tauto]. cbn [foldl]. split_and!.
  - rewrite (resource_name_eq _ _ _ _ (preserve_other _ prev newName "networks" ltac:(done))).
    rewrite rename_section_name. case_decide as Hx; [by destruct Hx|].
    rewrite rename_section_name. repeat case_decide; intuition congruence.
  - rewrite preserve_name //.
    assert (resource_name "volumes" key (rename_section oldName newName "volumes"
        (rename_section oldName newName "networks" m))
      = if decide (resource_name "volumes" key m = Some (auto_name oldName key))
        then Some (auto_name newName key) else resource_name "volumes" key m) as ->.
    { rewrite rename_section_name. rewrite rename_section_name.
      destruct (decide ("volumes" = "networks" ∧ _)) as [[? _]|_]; [done|].
      repeat case_decide; intuition congruence. }
    cbv zeta. repeat case_decide; intuition congruence.
  - intros section H1 H2. rewrite preserve_other // !rename_section_other //.
Qed.

(** The characters of a string. *)
Definition chars_ok (P : ascii → bool) (s : string) : Prop := ∀ c, in_string c s → P c = true.

Lemma sanitize_runes_ok fuel s : chars_ok project_char (sanitize_runes fuel s).
Proof.
  revert s. induction fuel as [|fuel IH]; intros [|a s] c; simpl; try done.
  intros [<-|Hc]; [|by eapply IH]. by destruct (project_char a) eqn:E.
Qed.

Lemma trim_left_chars_spec cs s : ∃ p, s = p +:+ trim_left_chars cs s ∧
  match trim_left_chars cs s with "" => True | String a _ => a ∉ cs end.
Proof.
  induction s as [|a s (p & Hp & Hh)]; simpl; [by exists ""|]. case_decide.
  - exists (String a p). split; [|done]. by rewrite sapp_cons -Hp.
  - exists "". done.
Qed.

Definition alphanumeric (a : ascii) : bool :=
  let n := nat_of_ascii a in bool_decide (97 ≤ n ∧ n ≤ 122) || bool_decide (48 ≤ n ∧ n ≤ 57).

(** Whatever a stack is called, the compose project name derived from it is
    one Docker accepts: not empty, of the characters a-z, 0-9, dash and
    underscore only, and starting with a letter or a digit. *)
Theorem project_name_valid name : 
  chars_ok project_char (SanitizeProjectName name)
  ∧ ∃ a r, SanitizeProjectName name = String a r ∧ alphanumeric a = true.
Proof.
  unfold SanitizeProjectName. set (body := sanitize_runes _ _).
  assert (chars_ok project_char body) as Hb by apply sanitize_runes_ok.
  destruct (trim_left_chars_spec ["-"%char; "_"%char] body) as (p & Hp & Hh).
  case_decide as He.
  { split; [|by eexists _, _]. intros c. simpl. naive_solver. }
  assert (chars_ok project_char (trim_left_chars ["-"%char; "_"%char] body)) as Ht.
  { intros c Hc. apply Hb. rewrite Hp. apply in_string_app. by right. }
  split; [done|]. destruct (trim_left_chars _ body) as [|a r]; [done|].
  exists a, r. split; [done|]. specialize (Ht a (or_introl eq_refl)).
  unfold project_char in Ht. unfold alphanumeric. rewrite !elem_of_cons in Hh.
  destruct (bool_decide (a = "_"%char)) eqn:E1; [bool_props; naive_solver|].
  destruct (bool_decide (a = "-"%char)) eqn:E2; [bool_props; naive_solver|].
  by rewrite !orb_false_r in Ht.
Qed.

Lemma decode_each_spec {A} (f : value → option A) l ds : decode_each f l = Some ds →
  ds.*1 = l.*1 ∧ ∀ k a, (k, a) ∈ ds ↔ ∃ v, (k, v) ∈ l ∧ f v = Some a.
Proof.
  revert ds. induction l as [|[k v] l IH]; intros ds; simpl.
  { intros [= <-]. split; [done|]. set_solver. }
  destruct (f v) as [a|] eqn:Hf; [|done]. destruct (decode_each f l) as [r|]; [|done].
  intros [= <-]. destruct (IH r eq_refl) as [H1 H2]. split; [simpl; f_equal; exact H1|].
  intros k' a'. rewrite elem_of_cons H2. split.
  - intros [?|(v' & ? & ?)]; [simplify_eq; exists v|exists v']; rewrite elem_of_cons; auto.
  - intros (v' & [?|?]%elem_of_cons & ?); simplify_eq; [by left|right; eauto].
Qed.

Lemma omap_names_NoDup (ds : list (string * (option value * option value * option value))) :
  NoDup ds.*1 → NoDup (es_Name <$> omap (λ kd, expected_service kd.1 kd.2) ds).
Proof.
  induction ds as [|[k d] ds IH]; simpl; [constructor|]. intros [Hk Hn]%NoDup_cons.
  destruct (expected_service k d) as [e|] eqn:He; [|by apply IH]. simpl.
  apply NoDup_cons. split; [|by apply IH]. intros (e' & Hname & He')%list_elem_of_fmap.
  apply list_elem_of_omap in He' as ([k' d'] & Hin & He'). apply Hk, list_elem_of_fmap.
  exists (k', d'). split; [|done]. simpl. unfold expected_service in He, He'.
  destruct d as [[? ?] ?], d' as [[? ?] ?]. simpl in He'. repeat case_decide; simplify_eq; simpl in *; congruence.
Qed.

(** The services a live health check waits for are exactly the declared
    services whose effective replica count is not zero (scale first, then
    deploy.replicas, else one), each once, whatever order the services map is
    iterated in. *)
Theorem expected_services_exact `{GoRange} yaml_parse data v services l :
  yaml_parse data = Some v → decode_services v = Some services →
  ExpectedServices yaml_parse data = Some l →
  NoDup (es_Name <$> l) ∧
  ∀ e, e ∈ l ↔ ∃ sv labels scale replicas, services !! es_Name e = Some sv
    ∧ decode_service sv = Some (labels, scale, replicas)
    ∧ Replicas e = effective_replicas scale replicas ∧ Replicas e ≠ 0%Z
    ∧ IsInit e = isLabelTruthy (labelsToMap labels) initLabel.
Proof.
  intros Hv Hs. unfold ExpectedServices. rewrite Hv /= Hs /=.
  destruct (decode_each _ _) as [ds|] eqn:Hd; [|done]. intros [= <-].
  apply decode_each_spec in Hd as [Hk Hd]. split.
  { apply omap_names_NoDup. rewrite Hk. apply NoDup_go_range. }
  intros e. rewrite list_elem_of_omap. split.
  - intros ([k [[la sc] re]] & Hin & He). apply Hd in Hin as (sv & Hsv & Hdec).
    apply elem_of_go_range in Hsv. unfold expected_service in He. simpl in He.
    case_decide; simplify_eq/=. by eexists _, _, _, _.
  - intros (sv & la & sc & re & Hsv & Hdec & Hr & Hr0 & Hi).
    exists (es_Name e, (la, sc, re)). split; [apply Hd; exists sv; by rewrite elem_of_go_range|].
    unfold expected_service. simpl. rewrite decide_False; [|congruence].
    destruct e. simpl in *. by subst.
Qed.

(** A stack whose directory gave the project name red, renamed to media. *)
Definition red_doc : gmap string value :=
  {[ "volumes" := VMap {[ "data" := VMap {[ "name" := VStr "red_data" ]};
                          "keep" := VMap {[ "name" := VStr "red_backups" ]} ]} ]}.
Definition red_deployed : gmap string value :=
  {[ "volumes" := VMap {[ "data" := VMap {[ "name" := VStr "pihole_data" ]} ]} ]}.

Lemma project_rename_exact_witness :
  resource_name "volumes" "data"
    (PreserveAutoNamedVolumes (RewriteAutoNamedResources red_doc "red" "media") red_deployed "media")
  = Some "pihole_data".
Proof.
  destruct (project_rename_exact red_doc red_deployed "red" "media" "data"
    ltac:(done) ltac:(done) ltac:(done)) as (_ & H & _).
  refine (eq_trans H _). vm_compute. reflexivity.
Defined.

Definition two_services : value :=
  VMap {[ "services" := VMap {[ "web" := VMap ∅; "off" := VMap {[ "scale" := VNum "0" ]} ]} ]}.

Lemma expected_services_exact_witness :
  NoDup (es_Name <$> [{| es_Name := "web"; IsInit := false; Replicas := 1 |}]).
Proof.
  apply (@expected_services_exact some_range (λ _, Some two_services) "" two_services
    {[ "web" := VMap ∅; "off" := VMap {[ "scale" := VNum "0" ]} ]}); vm_compute; reflexivity.
Defined.
