(* ===== verification/PbRecord.v ===== *)
(** * Database records

    A [core.Record] of the PocketBase library as the code uses it: an id and
    named fields, read with a conversion to the type asked for (a missing field
    or one of another type gives the zero value) and written in memory. *)
From Stdlib Require Import ZArith.
From S2P Require Import Prelude GoStrings GoValue ComposeDoc.

Record record := { Id : string; fields : gmap string value }.

Definition GetString (k : string) (r : record) : string :=
  match fields r !! k with
  | Some (VStr s) => s
  | Some (VNum t) => t
  | Some (VBool b) => if b then "true" else "false"
  | _ => ""
  end.

Definition GetInt (k : string) (r : record) : Z :=
  match fields r !! k with
  | Some (VNum t) | Some (VStr t) => default 0%Z (num_int t)
  | Some (VBool true) => 1
  | _ => 0
  end.

Definition GetBool (k : string) (r : record) : bool :=
  match fields r !! k with Some (VBool b) => b | _ => false end.

Definition SetField (k : string) (v : value) (r : record) : record :=
  {| Id := Id r; fields := <[k := v]> (fields r) |}.

Definition SetStr (k s : string) (r : record) : record := SetField k (VStr s) r.
Definition SetInt (k : string) (n : Z) (r : record) : record := SetField k (VNum (Itoa n)) r.

Lemma GetString_SetStr k s r : GetString k (SetStr k s r) = s.
Proof. unfold GetString. simpl. by rewrite lookup_insert_eq. Qed.

Lemma fields_SetField_ne k k' v r : k ≠ k' → fields (SetField k' v r) !! k = fields r !! k.
Proof. intros Hne. simpl. by rewrite lookup_insert_ne. Qed.

Lemma GetString_SetField_ne k k' v r : k ≠ k' → GetString k (SetField k' v r) = GetString k r.
Proof. intros Hne. unfold GetString. by rewrite fields_SetField_ne. Qed.

Lemma GetInt_SetField_ne k k' v r : k ≠ k' → GetInt k (SetField k' v r) = GetInt k r.
Proof. intros Hne. unfold GetInt. by rewrite fields_SetField_ne. Qed.

Lemma GetString_SetField_eq k s r : GetString k (SetField k (VStr s) r) = s.
Proof. apply GetString_SetStr. Qed.

Lemma fields_SetField_eq k v r : fields (SetField k v r) !! k = Some v.
Proof. simpl. by rewrite lookup_insert_eq. Qed.

(** Reading through a chain of writes. *)
Ltac record_simpl :=
  unfold SetStr, SetInt in *;
  repeat first
    [ rewrite GetString_SetField_eq | rewrite fields_SetField_eq
    | rewrite GetString_SetField_ne; [|done] | rewrite GetInt_SetField_ne; [|done]
    | rewrite fields_SetField_ne; [|done] ].

(** ** Decimal texts *)

(** Every character is a digit. *)
Definition all_digits (s : string) : Prop := ∀ c, in_string c s → is_Some (digit_of c).

Lemma pretty_N_char_digit (n : N) : (n < 10)%N → digit_of (pretty_N_char n) = Some (Z.of_N n).
Proof.
  intros Hn. assert (n = 0 ∨ n = 1 ∨ n = 2 ∨ n = 3 ∨ n = 4 ∨ n = 5 ∨ n = 6 ∨ n = 7 ∨ n = 8 ∨ n = 9)%N as H by lia.
  by repeat destruct H as [->|H]; [..|subst n].
Qed.

Lemma pretty_N_go_digits x : ∀ s, all_digits s →
  all_digits (pretty_N_go x s) ∧ digits_from 0 (pretty_N_go x s) = digits_from (Z.of_N x) s.
Proof.
  induction (N.lt_wf_0 x) as [x _ IH]. intros s Hs.
  destruct (decide (0 < x)%N) as [Hx|Hx]; [|assert (x = 0%N) as -> by lia; by rewrite pretty_N_go_0].
  assert (x `mod` 10 < 10)%N as Hm by (by apply N.mod_lt). pose proof (pretty_N_char_digit _ Hm) as Hc.
  rewrite pretty_N_go_step //.
  destruct (IH (x `div` 10)%N ltac:(apply N.div_lt; lia) (String (pretty_N_char (x `mod` 10)) s)) as [H1 H2].
  { intros c [<-|Hin]; [rewrite Hc; eauto|by apply Hs]. }
  split; [done|]. rewrite H2. cbn [digits_from]. rewrite Hc /=. f_equal.
  pose proof (N.div_mod x 10). lia.
Qed.

Lemma pretty_N_digits (x : N) : all_digits (pretty x) ∧ digits (pretty x) = Some (Z.of_N x).
Proof.
  unfold pretty, pretty_N. case_decide as Hx.
  { subst x. split; [|done]. intros c [<-|[]]. by eexists. }
  destruct (pretty_N_go_digits x "" ltac:(by intros c [])) as [H1 H2]. split; [done|].
  unfold digits. case_decide as He; [|done]. rewrite He in H2. simpl in H2. simplify_eq. lia.
Qed.

Lemma cut_none_digits c s : digit_of c = None → all_digits s → cut c s = None.
Proof. intros Hc Hs. apply cut_None. intros Hin. destruct (Hs c Hin). congruence. Qed.

Lemma Itoa_pos n : (0 ≤ n)%Z → Itoa n = pretty (Z.to_N n).
Proof. by destruct n. Qed.

Lemma num_int_Itoa n : (0 ≤ n)%Z → num_int (Itoa n) = Some n.
Proof.
  intros Hn. rewrite Itoa_pos //. destruct (pretty_N_digits (Z.to_N n)) as [H1 H2].
  unfold num_int. assert (strip_prefix "-" (pretty (Z.to_N n)) = None) as ->.
  { destruct (strip_prefix _ _) as [r|] eqn:Hs; [|done]. apply strip_prefix_Some in Hs.
    assert (in_string "-"%char (pretty (Z.to_N n))) as Hin by (rewrite Hs; by left).
    by destruct (H1 _ Hin). }
  unfold unsigned_int. rewrite cut_none_digits // H2. f_equal. lia.
Qed.

Lemma GetInt_SetInt k n r : (0 ≤ n)%Z → GetInt k (SetInt k n r) = n.
Proof. intros Hn. unfold GetInt. simpl. by rewrite lookup_insert_eq num_int_Itoa. Qed.
