(* ===== verification/PbTable.v ===== *)
(** * Database tables

    A collection as the list of its records in the order they were created.  The
    queries the code makes are by equality of one field; a save replaces the record
    with the same id or adds the record at the end. *)
From Stdlib Require Import ZArith.
From S2P Require Import Prelude GoStrings GoValue ComposeDoc PbRecord.

Abbreviation rows := (list record).

(** [FindAllRecords] with a [dbx.HashExp] of one column. *)
Definition FindAll (k v : string) (t : rows) : rows := filter (λ r, GetString k r = v) t.

Definition FindById (id : string) (t : rows) : option record := head (filter (λ r, Id r = id) t).

Definition ids_of (t : rows) : list string := Id <$> t.

Definition upsert (rec : record) (t : rows) : rows :=
  if decide (Id rec ∈ ids_of t) then (λ r, if decide (Id r = Id rec) then rec else r) <$> t else t ++ [rec].

Lemma FindById_Some id t r : FindById id t = Some r → r ∈ t ∧ Id r = id.
Proof.
  unfold FindById. destruct (filter _ t) as [|x l] eqn:Hf; [done|]. intros [= ->].
  assert (r ∈ filter (λ r, Id r = id) t) as Hin by (rewrite Hf; by left).
  apply list_elem_of_filter in Hin. tauto.
Qed.

Lemma FindAll_elem k v t r : r ∈ FindAll k v t ↔ GetString k r = v ∧ r ∈ t.
Proof. unfold FindAll. by rewrite list_elem_of_filter. Qed.

Lemma FindAll_head k v t r l : FindAll k v t = r :: l → GetString k r = v ∧ r ∈ t.
Proof. intros Hf. apply FindAll_elem. rewrite Hf. by left. Qed.

Lemma elem_of_upsert rec t r : r ∈ upsert rec t ↔ r = rec ∨ r ∈ t ∧ Id r ≠ Id rec.
Proof.
  unfold upsert. case_decide as Hin.
  - rewrite list_elem_of_fmap. split.
    + intros (x & -> & Hx). case_decide; [by left|right; done].
    + intros [->|[Hr Hne]]; [|exists r; by rewrite decide_False].
      apply list_elem_of_fmap in Hin as (x & Hi & Hx). exists x. by rewrite decide_True.
  - rewrite elem_of_app list_elem_of_singleton. split; [|tauto]. intros [Hr|Hr]; [right|by left].
    split; [done|]. intros He. apply Hin. rewrite -He. by apply list_elem_of_fmap_2.
Qed.

Lemma ids_upsert rec t id : id ∈ ids_of (upsert rec t) ↔ id = Id rec ∨ id ∈ ids_of t.
Proof.
  unfold ids_of. rewrite !list_elem_of_fmap. split.
  - intros (r & -> & [->|[Hr _]]%elem_of_upsert); [by left|]. right. eauto.
  - intros [->|(r & -> & Hr)]; [exists rec; split; [done|]; apply elem_of_upsert; by left|].
    destruct (decide (Id r = Id rec)) as [He|He].
    + exists rec. split; [done|]. apply elem_of_upsert. by left.
    + exists r. split; [done|]. apply elem_of_upsert. auto.
Qed.

Lemma NoDup_upsert rec t : NoDup (ids_of t) → NoDup (ids_of (upsert rec t)).
Proof.
  intros Hn. unfold upsert. case_decide as Hin.
  - enough (ids_of ((λ r, if decide (Id r = Id rec) then rec else r) <$> t) = ids_of t) as -> by done.
    unfold ids_of. rewrite -list_fmap_compose. apply list_fmap_ext. intros i x _. simpl. by case_decide.
  - unfold ids_of. rewrite fmap_app. apply NoDup_app. split; [done|]. split; [|apply NoDup_singleton].
    intros x Hx ->%list_elem_of_singleton. done.
Qed.

(** The id tells the rows apart. *)
Lemma NoDup_ids_inj t x y : NoDup (ids_of t) → x ∈ t → y ∈ t → Id x = Id y → x = y.
Proof.
  intros Hn Hx Hy He. apply list_elem_of_lookup in Hx as [i Hi], Hy as [j Hj].
  assert (i = j) as ->; [|congruence]. apply (NoDup_lookup (ids_of t) i j (Id x)); [done|..]; unfold ids_of; rewrite list_lookup_fmap.
  - by rewrite Hi.
  - by rewrite Hj /= He.
Qed.

(** A save finds the record again under its id, and under any field. *)
Lemma FindById_upsert rec t : FindById (Id rec) (upsert rec t) = Some rec.
Proof.
  destruct (FindById (Id rec) (upsert rec t)) as [r|] eqn:Hf.
  - destruct (FindById_Some _ _ _ Hf) as [[->|[_ Hne]]%elem_of_upsert Hid]; [done|]. done.
  - exfalso. unfold FindById in Hf. destruct (filter _ _) as [|x l] eqn:He; [|done].
    apply (filter_nil_not_elem_of _ _ rec He); [done|]. apply elem_of_upsert. by left.
Qed.

Lemma FindAll_upsert_eq k v rec t : NoDup (ids_of t) → FindAll k v t = [] ∨ ids_of (FindAll k v t) = [Id rec] →
  GetString k rec = v → FindAll k v (upsert rec t) = [rec].
Proof.
  intros Hnd Hf Hv. unfold upsert. case_decide as Hin.
  - unfold FindAll in *. induction t as [|r t IH]; [by apply elem_of_nil in Hin|].
    cbn [fmap list_fmap]. unfold ids_of in Hnd, Hin. cbn in Hnd, Hin. apply NoDup_cons in Hnd as [Hr Hnd].
    destruct (decide (Id r = Id rec)) as [He|He].
    + rewrite filter_cons decide_True //. f_equal.
      assert ((λ r0, if decide (Id r0 = Id rec) then rec else r0) <$> t = t) as ->.
      { transitivity (id <$> t); [|apply list_fmap_id]. apply list_fmap_ext. intros i x Hx. case_decide as Hd; [|done].
        exfalso. apply Hr. rewrite He -Hd. apply list_elem_of_fmap_2. by eapply list_elem_of_lookup_2. }
      rewrite filter_cons in Hf. case_decide.
      * destruct Hf as [Hf|Hf]; [done|]. unfold ids_of in Hf. rewrite fmap_cons in Hf. injection Hf as _ Hf. by apply fmap_nil_inv in Hf.
      * destruct Hf as [Hf|Hf]; [done|]. exfalso. apply Hr. rewrite He.
        assert (Id rec ∈ ids_of (filter (λ r0, GetString k r0 = v) t)) as Hx by (rewrite Hf; by left).
        apply list_elem_of_fmap in Hx as (x & -> & Hx). apply list_elem_of_filter in Hx as [_ Hx]. by apply list_elem_of_fmap_2.
    + apply elem_of_cons in Hin as [Hin|Hin]; [done|]. rewrite filter_cons in Hf. rewrite filter_cons.
      case_decide as Hg; [|by apply IH]. exfalso. destruct Hf as [Hf|Hf]; [done|]. cbn in Hf. by simplify_eq.
  - unfold FindAll in *. rewrite filter_app filter_cons_True // filter_nil.
    destruct Hf as [->|Hf]; [done|]. exfalso. apply Hin.
    assert (Id rec ∈ ids_of (filter (λ r0, GetString k r0 = v) t)) as Hx by (rewrite Hf; by left).
    apply list_elem_of_fmap in Hx as (x & -> & Hx). apply list_elem_of_filter in Hx as [_ Hx]. by apply list_elem_of_fmap_2.
Qed.

(** ** Fields of database records: booleans, dates and nil

    The setters and getters of a [core.Record] the identity code uses besides the texts
    and integers of PbRecord, and what may be in a row after a save. *)
(** The zero [time.Time], in nanoseconds; a date field that is not set reads as it. *)
Definition zero_time : Z := -62135596800000000000.

Definition date_value (t : Z) : value := if decide (t = zero_time) then VNull else VNum (Itoa t).

Definition GetDateTime (k : string) (r : record) : Z :=
  match fields r !! k with Some (VNum t) => default zero_time (num_int t) | _ => zero_time end.

Definition SetBool (k : string) (b : bool) (r : record) : record := SetField k (VBool b) r.
Definition SetNil (k : string) (r : record) : record := SetField k VNull r.

Lemma GetBool_SetField_ne k k' v r : k ≠ k' → GetBool k (SetField k' v r) = GetBool k r.
Proof. intros Hne. unfold GetBool. by rewrite fields_SetField_ne. Qed.

Lemma GetBool_SetField_eq k b r : GetBool k (SetField k (VBool b) r) = b.
Proof. unfold GetBool. simpl. by rewrite lookup_insert_eq. Qed.

(** Reading through a chain of writes of all kinds. *)
Ltac field_simpl :=
  unfold SetBool, SetNil in *; record_simpl;
  repeat first [rewrite GetBool_SetField_eq | rewrite GetBool_SetField_ne; [|done]]; record_simpl.

(** A save of [m], read as [o], over the row [c]: it writes the fields that were changed;
    of the others it may write back what was read or leave what is there. *)
Definition save_spec (save_over : record → record → record → record) : Prop := ∀ o m c k,
  Id (save_over o m c) = Id m ∧
  (fields (save_over o m c) !! k = fields m !! k ∨
   fields (save_over o m c) !! k = fields c !! k ∧ fields m !! k = fields o !! k).

(** A save that writes the whole record. *)
Definition save_all (o m c : record) : record := m.

Lemma save_all_spec : save_spec save_all.
Proof. intros o m c k. split; [reflexivity|left; reflexivity]. Defined.

Section save.
Context (save_over : record → record → record → record) (Hsave : save_spec save_over).

Lemma save_over_same r m : save_over r m r = m.
Proof.
  destruct (Hsave r m r "") as [Hi _]. destruct (save_over r m r) as [i f] eqn:He, m as [i' f']. simpl in *. f_equal; [done|].
  apply map_eq. intros k. destruct (Hsave r {| Id := i'; fields := f' |} r k) as [_ Hk]. rewrite He in Hk. simpl in Hk.
  destruct Hk as [Hk|[-> Hk]]; congruence.
Qed.

Lemma save_over_Id o m c : Id (save_over o m c) = Id m.
Proof. by destruct (Hsave o m c ""). Qed.

(** A property of one field holds after the save if it holds of what is saved and of
    what is there. *)
Lemma save_over_field k (P : option value → Prop) o m c : P (fields m !! k) → P (fields c !! k) → P (fields (save_over o m c) !! k).
Proof. intros Hm Hc. by destruct (Hsave o m c k) as [_ [->|[-> _]]]. Qed.
End save.
