(* ===== verification/ProjectIdentity.v ===== *)
(** * internal/sync/project_identity.go: which compose project a stack is

    [read_file] reads a file of the revision storage (with the error text on
    failure), [find_worker] looks up a worker record. *)
From Stdlib Require Import ZArith.
From S2P Require Import Prelude GoStrings GoPath GoValue GoBase64 ComposeDoc PbRecord.

(** renderer.go: what rendering a revision returns, less the tracked config
    files and lint warnings. *)
Record RenderResult := {
  Version : Z; Checksum : string; RenderedPath : string;
  rr_ProjectName : string; PreviousProjectName : string; PreviousCompose : string }.

Record projectIdentity := {
  TargetName : string; PreviousName : string; pi_PreviousCompose : string; NeedsMigration : bool }.

Definition target_only (target : string) : projectIdentity :=
  {| TargetName := target; PreviousName := ""; pi_PreviousCompose := ""; NeedsMigration := false |}.

(** A [[]string] field: null or a list of strings. *)
Fixpoint string_list (l : list value) : option (list string) :=
  match l with
  | [] => Some []
  | VStr s :: l => r ← string_list l; Some (s :: r)
  | _ => None
  end.

Definition string_list_field (v : option value) : option (list string) :=
  match v with
  | Some (VList l) => string_list l
  | Some VNull => Some []
  | _ => None
  end.

Definition workerHasCapability (worker : record) (capability : string) : bool :=
  match string_list_field (fields worker !! "capabilities") with
  | Some cs => bool_decide (capability ∈ cs)
  | None => false
  end.

Definition CapabilityProjectIdentityMigrationV1 : string := "project_identity_migration_v1".

Section commands.
(** The deploy command's own fields are passed through untouched. *)
Context {DeployCommand : Type} (find_worker : string → option record).

Record ProjectMigrationSpec := {
  pm_Previous : string; pm_Target : string; PreviousComposeB64 : string }.

Record RedeployCommand := {
  rd_base : DeployCommand; RecreateContainers : bool; RecreateVolumes : bool; RecreateNetworks : bool;
  ProjectMigration : option ProjectMigrationSpec }.

Inductive command := Deploy (c : DeployCommand) | Redeploy (c : RedeployCommand).

Definition needsMigration (render : RenderResult) : bool :=
  bool_decide (PreviousProjectName render ≠ "")
  && bool_decide (PreviousProjectName render ≠ rr_ProjectName render).

Definition deployCommandForRender (workerID : string) (base : DeployCommand) (render : RenderResult)
    (recreateContainers recreateVolumes recreateNetworks : bool) : command + string :=
  let migrate := needsMigration render in
  if negb migrate && negb recreateContainers && negb recreateVolumes && negb recreateNetworks
  then inl (Deploy base)
  else
    let cmd := {| rd_base := base; RecreateContainers := recreateContainers;
                  RecreateVolumes := recreateVolumes; RecreateNetworks := recreateNetworks;
                  ProjectMigration := None |} in
    if negb migrate then inl (Redeploy cmd)
    else match find_worker workerID with
    | None => inr "failed to load worker capabilities"
    | Some worker =>
        if negb (workerHasCapability worker CapabilityProjectIdentityMigrationV1)
        then inr ("worker " +:+ GetString "hostname" worker
                  +:+ " must be updated before Compose project identity can migrate")
        else inl (Redeploy
          {| rd_base := base; RecreateContainers := true; RecreateVolumes := recreateVolumes;
             RecreateNetworks := recreateNetworks;
             ProjectMigration := Some {| pm_Previous := PreviousProjectName render;
                                         pm_Target := rr_ProjectName render;
                                         PreviousComposeB64 := EncodeToString (PreviousCompose render) |} |})
    end.
End commands.

Definition persistProjectIdentity (stack : record) (render : option RenderResult) : record :=
  match render with
  | Some r => if decide (rr_ProjectName r ≠ "")
              then SetStr "compose_project_name" (rr_ProjectName r) stack else stack
  | None => stack
  end.

Section identity.
Context (yaml_parse : string → option value) (stackStorage : string)
  (read_file : string → string + string).

Definition GetRevisionFilePath (stackID : string) (version : Z) : string :=
  PathJoin (PathJoin stackStorage stackID) ("v" +:+ Itoa version +:+ ".yml").

(** The name the stack is rendered under. *)
Definition target_name (stack : record) : string :=
  if decide (GetString "compose_project_name" stack = "")
  then SanitizeProjectName (GetString "name" stack) else GetString "compose_project_name" stack.

Definition resolveProjectIdentity (stack : record) : projectIdentity + string :=
  let target := target_name stack in
  let version := GetInt "deployed_version" stack in
  if decide (version = 0)%Z then inl (target_only target)
  else match read_file (GetRevisionFilePath (Id stack) version) with
  | inr err => inr ("cannot safely resolve deployed Compose identity from revision v"
                    +:+ Itoa version +:+ ": " +:+ err)
  | inl content =>
      match ExtractProjectName yaml_parse content with
      | inr _ => inl (target_only target)
      | inl previousName =>
          inl {| TargetName := target; PreviousName := previousName; pi_PreviousCompose := content;
                 NeedsMigration := bool_decide (previousName ≠ target) |}
      end
  end.

Definition DeployedProjectName (stack : record) : string + string :=
  let name := GetString "compose_project_name" stack in
  if decide (name ≠ "") then inl name
  else match resolveProjectIdentity stack with
  | inr err => inr err
  | inl identity => inl (if decide (PreviousName identity ≠ "") then PreviousName identity
                         else TargetName identity)
  end.

Lemma ExtractProjectName_nonempty data n : ExtractProjectName yaml_parse data = inl n → n ≠ "".
Proof.
  unfold ExtractProjectName. destruct (_ ≫= _) as [doc|]; [|done].
  destruct (doc !! "name") as [[]|]; try done; case_decide; intros; by simplify_eq.
Qed.

Lemma target_name_nonempty stack : target_name stack ≠ "".
Proof.
  unfold target_name. case_decide; [|done].
  unfold SanitizeProjectName. by case_decide.
Qed.

Lemma resolve_migration stack identity : resolveProjectIdentity stack = inl identity →
  TargetName identity = target_name stack
  ∧ (NeedsMigration identity = true ↔
     ∃ content previous, GetInt "deployed_version" stack ≠ 0%Z
       ∧ read_file (GetRevisionFilePath (Id stack) (GetInt "deployed_version" stack)) = inl content
       ∧ ExtractProjectName yaml_parse content = inl previous ∧ previous ≠ target_name stack
       ∧ PreviousName identity = previous ∧ pi_PreviousCompose identity = content).
Proof.
  unfold resolveProjectIdentity. case_decide as Hv.
  { intros [= <-]. split; [done|]. split; [done|]. by intros (? & ? & ? & _). }
  destruct (read_file _) as [content|err] eqn:Hr; [|done].
  destruct (ExtractProjectName yaml_parse content) as [p|e] eqn:He; intros [= <-]; (split; [done|]).
  - simpl. rewrite bool_decide_eq_true. split.
    + intros Hp. by exists content, p.
    + intros (c & q & _ & ? & ? & ? & <- & _). done.
  - split; [done|]. intros (c & q & _ & Hc & Hq & _). congruence.
Qed.

(** A project migration starts only from the revision that was really
    deployed: it is asked for exactly when the stack has a deployed version, that
    revision's file can be read and names a project other than the target, and
    the previous name and document are then those of that file; the target is
    never empty. *)
Theorem migration_baseline stack identity : resolveProjectIdentity stack = inl identity →
  TargetName identity ≠ ""
  ∧ (NeedsMigration identity = true ↔
     ∃ content previous, GetInt "deployed_version" stack ≠ 0%Z
       ∧ read_file (GetRevisionFilePath (Id stack) (GetInt "deployed_version" stack)) = inl content
       ∧ ExtractProjectName yaml_parse content = inl previous ∧ previous ≠ TargetName identity
       ∧ PreviousName identity = previous ∧ pi_PreviousCompose identity = content).
Proof.
  intros [Ht Hm]%resolve_migration. rewrite Ht. split; [apply target_name_nonempty|done].
Qed.

(** Once a deploy has recorded the project it rendered, runtime reads and
    container actions use that project, whatever happens to the revision files. *)
Theorem recorded_identity_wins stack render : rr_ProjectName render ≠ "" →
  DeployedProjectName (persistProjectIdentity stack (Some render)) = inl (rr_ProjectName render).
Proof.
  intros Hn. unfold DeployedProjectName, persistProjectIdentity.
  rewrite (decide_True (P := rr_ProjectName render ≠ "")) // GetString_SetStr decide_True //.
Qed.
End identity.

(** The command sent for a render is a plain deploy exactly when nothing is
    to be recreated and the project keeps its name; a migration is sent only to a
    worker that announced the capability, always recreates the containers, and
    carries both names and the previous document in a form that decodes to it. *)
Theorem deploy_command_exact {D} find_worker workerID (base : D) render rc rv rn cmd :
  deployCommandForRender find_worker workerID base render rc rv rn = inl cmd →
  match cmd with
  | Deploy c => c = base ∧ rc = false ∧ rv = false ∧ rn = false ∧ needsMigration render = false
  | Redeploy c =>
      rd_base c = base ∧ RecreateVolumes c = rv ∧ RecreateNetworks c = rn
      ∧ match ProjectMigration c with
        | None => needsMigration render = false ∧ RecreateContainers c = rc ∧ (rc || rv || rn) = true
        | Some spec =>
            needsMigration render = true ∧ RecreateContainers c = true
            ∧ (∃ worker, find_worker workerID = Some worker
                 ∧ workerHasCapability worker CapabilityProjectIdentityMigrationV1 = true)
            ∧ pm_Previous spec = PreviousProjectName render ∧ pm_Target spec = rr_ProjectName render
            ∧ pm_Previous spec ≠ pm_Target spec
            ∧ DecodeString (PreviousComposeB64 spec) = Some (PreviousCompose render)
        end
  end.
Proof.
  unfold deployCommandForRender. destruct (needsMigration render) eqn:Hm; simpl.
  - destruct (find_worker workerID) as [w|] eqn:Hw; [|done].
    destruct (workerHasCapability w _) eqn:Hc; simpl; [|done]. intros [= <-]. simpl.
    unfold needsMigration in Hm. apply andb_true_iff in Hm as [_ Hm%bool_decide_eq_true].
    split_and!; try done; [by exists w|apply base64_roundtrip].
  - destruct rc, rv, rn; simpl; intros [= <-]; simpl; repeat split; done.
Qed.

Definition old_stack : record :=
  {| Id := "s1"; fields := {[ "name" := VStr "Media"; "deployed_version" := VNum "4" ]} |}.
Definition old_doc (_ : string) : option value := Some (VMap {[ "name" := VStr "red" ]}).
Definition renamed : RenderResult :=
  {| Version := 5; Checksum := "abc"; RenderedPath := "v5.yml"; rr_ProjectName := "media";
     PreviousProjectName := "red"; PreviousCompose := "name: red" |}.
Definition capable (_ : string) : option record :=
  Some {| Id := "w1"; fields := {[ "capabilities" := VList [VStr CapabilityProjectIdentityMigrationV1] ]} |}.

Lemma migration_baseline_witness :
  ∃ identity, resolveProjectIdentity old_doc "/data" (λ _, inl "name: red") old_stack = inl identity
    ∧ NeedsMigration identity = true ∧ TargetName identity ≠ "".
Proof.
  eexists. split; [vm_compute; reflexivity|]. split; [reflexivity|].
  eapply (migration_baseline old_doc "/data" (λ _, inl "name: red") old_stack). vm_compute. reflexivity.
Defined.

Lemma recorded_identity_wins_witness :
  DeployedProjectName old_doc "/data" (λ _, inr "gone") (persistProjectIdentity old_stack (Some renamed))
  = inl "media".
Proof. apply (recorded_identity_wins old_doc "/data" (λ _, inr "gone") old_stack renamed). done. Defined.

Lemma deploy_command_exact_witness :
  ∃ cmd, deployCommandForRender capable "w1" tt renamed false false false = inl (Redeploy cmd)
    ∧ RecreateContainers cmd = true ∧ rd_base cmd = tt.
Proof.
  eexists. split; [vm_compute; reflexivity|]. split; [reflexivity|].
  exact (proj1 (deploy_command_exact capable "w1" tt renamed false false false _
    (ltac:(vm_compute; reflexivity) : deployCommandForRender capable "w1" tt renamed false false false = inl (Redeploy _)))).
Defined.
