(* ===== verification/PostCheck.v ===== *)
(** * internal/sync/postcheck.go: verifying a deploy against the worker

    What the worker answers to each status query is an argument ([replies], by
    attempt number), and so is whether the context ends during the pause after
    an attempt ([interrupted], with the context's error).  [unmarshal] is
    decoding into the variable [statuses], which the loop reuses: it gets the
    old value and may leave a changed one behind even when it fails. *)
From Stdlib Require Import ZArith.
From S2P Require Import Prelude GoStrings GoValue ComposeDoc Health PbRecord ProjectIdentity.

Definition postCheckAttempts : nat := 3.

Record postCheckResult := { pc_Status : string; Detail : string; Skipped : bool }.

Inductive reply := DispatchFailed (err : string) | Replied (output error : string).

Definition buildPostCheckDetail (total : nat) (ok missing unhealthy restartLooping : list string) : string :=
  if decide (length ok = total)
  then "post-check passed: " +:+ Itoa (Z.of_nat total) +:+ "/" +:+ Itoa (Z.of_nat total) +:+ " services running"
  else
    Join "; " (["post-check: " +:+ Itoa (Z.of_nat (length ok)) +:+ "/" +:+ Itoa (Z.of_nat total) +:+ " services healthy"]
      ++ (if decide (missing = []) then [] else ["missing/not running: " +:+ Join ", " missing])
      ++ (if decide (unhealthy = []) then [] else ["unhealthy: " +:+ Join ", " unhealthy])
      ++ (if decide (restartLooping = []) then [] else ["restart looping: " +:+ Join ", " restartLooping])).

Section postcheck.
Context (since : string → option Z).

(** The four lists of [evaluatePostCheck]. *)
Record buckets := { b_ok : list string; b_missing : list string; b_unhealthy : list string;
                    b_looping : list string }.

Definition no_buckets : buckets := {| b_ok := []; b_missing := []; b_unhealthy := []; b_looping := [] |}.
Definition add_ok (n : string) (b : buckets) : buckets :=
  {| b_ok := b_ok b ++ [n]; b_missing := b_missing b; b_unhealthy := b_unhealthy b; b_looping := b_looping b |}.
Definition add_missing (n : string) (b : buckets) : buckets :=
  {| b_ok := b_ok b; b_missing := b_missing b ++ [n]; b_unhealthy := b_unhealthy b; b_looping := b_looping b |}.
Definition add_unhealthy (n : string) (b : buckets) : buckets :=
  {| b_ok := b_ok b; b_missing := b_missing b; b_unhealthy := b_unhealthy b ++ [n]; b_looping := b_looping b |}.
Definition add_looping (n : string) (b : buckets) : buckets :=
  {| b_ok := b_ok b; b_missing := b_missing b; b_unhealthy := b_unhealthy b; b_looping := b_looping b ++ [n] |}.

(** [byService[name]]: the statuses of one service, in order. *)
Definition instances_of (statuses : list ServiceStatus) (name : string) : list ServiceStatus :=
  filter (λ s, ServiceName s = name) statuses.

Definition place (initSet : gset string) (statuses : list ServiceStatus) (b : buckets) (name : string)
    : buckets :=
  match ClassifyServiceInstances since (instances_of statuses name) (bool_decide (name ∈ initSet)) false with
  | ServiceHealthy => add_ok name b
  | ServiceRestartLooping => add_looping name b
  | ServiceUnhealthy => add_unhealthy name b
  | ServiceStarting => if decide (name ∈ initSet) then add_unhealthy name b else add_missing name b
  | ServiceMissing => add_missing name b
  end.

Definition evaluatePostCheck (expected : list string) (initSet : gset string)
    (statuses : list ServiceStatus) : postCheckResult :=
  let b := foldl (place initSet statuses) no_buckets expected in
  let detail := buildPostCheckDetail (length expected) (b_ok b) (b_missing b) (b_unhealthy b) (b_looping b) in
  {| pc_Status := if decide (length (b_ok b) = length expected) then "active"
                  else if decide (length (b_ok b) = 0) then "error" else "degraded";
     Detail := detail; Skipped := false |}.

Definition skipped (detail : string) : postCheckResult :=
  {| pc_Status := "active"; Detail := detail; Skipped := true |}.

(** ** What passing means *)

(** A service passes when it has a sound container, or is a run-to-completion
    service without containers. *)
Definition passes (initSet : gset string) (sts : list ServiceStatus) (name : string) : Prop :=
  (instances_of sts name = [] ∧ name ∈ initSet) ∨
  ∃ i, i ∈ sts ∧ ServiceName i = name ∧ sound_instance since (bool_decide (name ∈ initSet)) false i.

Lemma passes_healthy initSet sts name :
  ClassifyServiceInstances since (instances_of sts name) (bool_decide (name ∈ initSet)) false = ServiceHealthy
  ↔ passes initSet sts name.
Proof.
  rewrite Classify_any bool_decide_eq_true. unfold passes. f_equiv.
  split; intros (i & Hi); exists i; unfold instances_of in *; rewrite list_elem_of_filter in Hi |- *; tauto.
Qed.

#[global] Instance passes_dec initSet sts name : Decision (passes initSet sts name).
Proof.
  refine (cast_if (decide (ClassifyServiceInstances since (instances_of sts name)
    (bool_decide (name ∈ initSet)) false = ServiceHealthy))).
  - by apply passes_healthy.
  - by intros ?%passes_healthy.
Defined.

Lemma place_ok initSet sts b name :
  b_ok (place initSet sts b name) = if decide (passes initSet sts name) then b_ok b ++ [name] else b_ok b.
Proof.
  unfold place. destruct (decide (passes initSet sts name)) as [Hp|Hp]; rewrite -passes_healthy in Hp.
  - by rewrite Hp.
  - destruct (ClassifyServiceInstances _ _ _ _); try done. by case_decide.
Qed.

Lemma fold_ok initSet sts l : ∀ b,
  b_ok (foldl (place initSet sts) b l) = b_ok b ++ filter (passes initSet sts) l.
Proof.
  induction l as [|n l IH]; intros b; simpl; [by rewrite app_nil_r|].
  rewrite IH place_ok filter_cons. case_decide; [by rewrite -app_assoc|done].
Qed.

Lemma evaluate_status expected initSet sts :
  pc_Status (evaluatePostCheck expected initSet sts)
  = if decide (length (filter (passes initSet sts) expected) = length expected) then "active"
    else if decide (length (filter (passes initSet sts) expected) = 0) then "error" else "degraded".
Proof. unfold evaluatePostCheck. by rewrite fold_ok. Qed.

Lemma filter_length_full {A} (P : A → Prop) `{∀ x, Decision (P x)} l :
  length (filter P l) = length l ↔ Forall P l.
Proof.
  induction l as [|x l IH]; [by split; [constructor|]|]. rewrite filter_cons Forall_cons -IH.
  pose proof (length_filter P l). case_decide; simpl; [split; [intros; split; [done|lia]|intros [? ?]; lia]|].
  split; [lia|by intros [? _]].
Qed.

Lemma filter_length_zero {A} (P : A → Prop) `{∀ x, Decision (P x)} l :
  length (filter P l) = 0 ↔ Forall (λ x, ¬ P x) l.
Proof.
  induction l as [|x l IH]; [by split; [constructor|]|]. rewrite filter_cons Forall_cons -IH.
  case_decide; simpl; naive_solver.
Qed.

Lemma filter_notall {A} (P : A → Prop) `{∀ x, Decision (P x)} l :
  Exists (λ x, ¬ P x) l ↔ length (filter P l) ≠ length l.
Proof.
  rewrite filter_length_full. split.
  - intros (x & Hx & HP)%Exists_exists Hf. by rewrite Forall_forall in Hf; apply HP, Hf.
  - intros Hf. by apply not_Forall_Exists in Hf; [|apply _].
Qed.

Lemma filter_some {A} (P : A → Prop) `{∀ x, Decision (P x)} l :
  Exists P l ↔ length (filter P l) ≠ 0.
Proof.
  rewrite filter_length_zero. split.
  - intros (x & Hx & HP)%Exists_exists Hf. rewrite Forall_forall in Hf. by eapply Hf.
  - intros Hf. apply not_Forall_Exists in Hf; [|apply _]. eapply Exists_impl; [done|].
    intros x. apply dec_stable.
Qed.

Lemma evaluate_active expected initSet sts :
  pc_Status (evaluatePostCheck expected initSet sts) = "active" ↔ Forall (passes initSet sts) expected.
Proof.
  rewrite evaluate_status -filter_length_full. split; [|by intros ?; rewrite decide_True].
  repeat case_decide; done.
Qed.

Lemma evaluate_not_skipped expected initSet sts : Skipped (evaluatePostCheck expected initSet sts) = false.
Proof. done. Qed.

(** The post-deploy verdict is the right one: active exactly when every
    declared service passes, error exactly when none does, degraded in between,
    and it depends neither on the order the services are declared or iterated in
    nor on the order Docker lists the containers. *)
Theorem post_check_verdict expected expected' initSet sts sts' : expected ≠ [] →
  expected ≡ₚ expected' → sts ≡ₚ sts' →
  let st := pc_Status (evaluatePostCheck expected initSet sts) in
  (st = "active" ↔ Forall (passes initSet sts) expected)
  ∧ (st = "error" ↔ Forall (λ n, ¬ passes initSet sts n) expected)
  ∧ (st = "degraded" ↔ Exists (passes initSet sts) expected ∧ Exists (λ n, ¬ passes initSet sts n) expected)
  ∧ st = pc_Status (evaluatePostCheck expected' initSet sts').
Proof.
  intros Hne He Hs st. unfold st. split_and!; [apply evaluate_active| | |].
  - rewrite evaluate_status -filter_length_zero. case_decide as H1; [|by case_decide].
    destruct expected; [done|]. simpl in *. split; [done|]. rewrite H1. done.
  - rewrite evaluate_status filter_some filter_notall. repeat case_decide; naive_solver.
  - assert (∀ n, passes initSet sts n ↔ passes initSet sts' n) as Hp.
    { intros n. rewrite -!passes_healthy. rewrite (Classify_perm since _ (instances_of sts' n)); [done|].
      unfold instances_of. by rewrite Hs. }
    assert (length (filter (passes initSet sts) expected) = length (filter (passes initSet sts') expected')) as Hf.
    { rewrite (list_filter_iff _ (passes initSet sts')) //. apply Permutation_length. by apply filter_Permutation. }
    by rewrite !evaluate_status Hf (Permutation_length He).
Qed.

Section deploy_check.
Context `{GoRange} (yaml_parse : string → option value)
  (unmarshal : string → list ServiceStatus → bool * list ServiceStatus)
  (replies : nat → reply) (interrupted : nat → option string).

(** The loop's variables: the decoded statuses, the last query error, whether a
    status ever arrived. *)
Record loop_state := { statuses : list ServiceStatus; queryErr : string; gotStatus : bool }.

(** One query: the new variables, or the verdict that ends the loop. *)
Definition query (expected : list string) (initSet : gset string) (attempt : nat) (s : loop_state)
    : postCheckResult + loop_state :=
  match replies attempt with
  | DispatchFailed err => inr {| statuses := statuses s; queryErr := err; gotStatus := gotStatus s |}
  | Replied output error =>
      if decide (error ≠ "") then
        inr {| statuses := statuses s; queryErr := error; gotStatus := gotStatus s |}
      else
        let '(ok, sts) := unmarshal output (statuses s) in
        if ok then
          if decide (pc_Status (evaluatePostCheck expected initSet sts) = "active") then
            inl {| pc_Status := "active";
                   Detail := "post-check passed: " +:+ Itoa (Z.of_nat (length expected)) +:+ "/"
                             +:+ Itoa (Z.of_nat (length expected)) +:+ " services running";
                   Skipped := false |}
          else inr {| statuses := sts; queryErr := ""; gotStatus := true |}
        else inr {| statuses := sts; queryErr := "failed to parse status response"; gotStatus := gotStatus s |}
  end.

(** The attempts still to make, [left] of them, starting with number [attempt]. *)
Fixpoint attempts (expected : list string) (initSet : gset string) (left attempt : nat) (s : loop_state)
    : postCheckResult + loop_state :=
  match left with
  | 0 => inr s
  | S left' =>
      match query expected initSet attempt s with
      | inl r => inl r
      | inr s' =>
          match (if decide (attempt < postCheckAttempts) then interrupted attempt else None) with
          | Some err => inl (skipped ("post-check skipped: interrupted: " +:+ err))
          | None => attempts expected initSet left' (S attempt) s'
          end
      end
  end.

Definition postDeployCheck (composeContent : string) : postCheckResult :=
  match ExpectedServiceNames yaml_parse composeContent with
  | None | Some [] => skipped "post-check skipped: could not parse expected services from compose"
  | Some expected =>
      let initSet := default ∅ (InitServiceNames yaml_parse composeContent) in
      match attempts expected initSet postCheckAttempts 1
              {| statuses := []; queryErr := ""; gotStatus := false |} with
      | inl r => r
      | inr s => if gotStatus s then evaluatePostCheck expected initSet (statuses s)
                 else skipped ("post-check skipped: could not query worker status: " +:+ queryErr s)
      end
  end.

(** The reply to [attempt] was decoded to [sts]. *)
Definition decoded (attempt : nat) (sts : list ServiceStatus) : Prop :=
  ∃ output old, replies attempt = Replied output "" ∧ unmarshal output old = (true, sts).

(** A failed decode leaves the variable alone. *)
Definition decode_atomic : Prop := ∀ output old sts, unmarshal output old = (false, sts) → sts = old.

Lemma query_spec expected initSet attempt s : decode_atomic →
  match query expected initSet attempt s with
  | inl r => pc_Status r = "active" ∧ Skipped r = false
             ∧ ∃ sts, decoded attempt sts ∧ Forall (passes initSet sts) expected
  | inr s' => (gotStatus s' = gotStatus s ∧ statuses s' = statuses s)
              ∨ (gotStatus s' = true ∧ decoded attempt (statuses s'))
  end.
Proof.
  intros Hat. unfold query. destruct (replies attempt) as [err|output error] eqn:Hr; [by left|].
  case_decide as He; [by left|]. subst error.
  destruct (unmarshal output (statuses s)) as [[] sts] eqn:Hu.
  - assert (decoded attempt sts) as Hd by (by exists output, (statuses s)).
    destruct (decide (pc_Status (evaluatePostCheck expected initSet sts) = "active")) as [Ha|Ha].
    + split_and!; [done..|]. exists sts. split; [done|]. by apply evaluate_active.
    + right. split; [done|done].
  - left. split; [done|]. simpl. by eapply Hat.
Qed.

Lemma attempts_spec expected initSet left : ∀ attempt s, decode_atomic →
  match attempts expected initSet left attempt s with
  | inl r => Skipped r = true ∨ (pc_Status r = "active" ∧
             ∃ k sts, attempt ≤ k < attempt + left ∧ decoded k sts ∧ Forall (passes initSet sts) expected)
  | inr s' => (gotStatus s' = gotStatus s ∧ statuses s' = statuses s)
              ∨ (gotStatus s' = true ∧ ∃ k, attempt ≤ k < attempt + left ∧ decoded k (statuses s'))
  end.
Proof.
  induction left as [|left IH]; intros attempt s Hat; simpl; [by left|].
  pose proof (query_spec expected initSet attempt s Hat) as Hq.
  destruct (query expected initSet attempt s) as [r|s1].
  { destruct Hq as (Hst & _ & sts & Hd & Hp). right. split; [done|].
    exists attempt, sts. split_and!; [lia|lia|done|done]. }
  destruct (if decide (attempt < postCheckAttempts) then interrupted attempt else None); [by left|].
  specialize (IH (S attempt) s1 Hat). destruct (attempts expected initSet left (S attempt) s1) as [r|s2].
  - destruct IH as [?|(? & k & sts & ? & ? & ?)]; [by left|right]. split; [done|].
    exists k, sts. split_and!; [lia|lia|done|done].
  - destruct IH as [[Hg Hs]|(Hg & k & ? & ?)]; [|right; split; [done|]; exists k; split; [lia|done]].
    destruct Hq as [[? ?]|[? Hd]]; [left; split; congruence|]. right. split; [congruence|].
    exists attempt. split; [lia|]. by rewrite Hs.
Qed.

(** ** Properties *)

(** A deploy is never declared verified without evidence: when the check is
    not skipped and says active, one of the at most three status queries was
    answered and decoded, and in that answer every service the compose file
    declares passes.  (A failed decode is assumed not to touch the variable.) *)
Theorem verified_needs_evidence composeContent : decode_atomic →
  let r := postDeployCheck composeContent in
  Skipped r = false → pc_Status r = "active" →
  ∃ expected k sts, ExpectedServiceNames yaml_parse composeContent = Some expected
    ∧ 1 ≤ k ≤ 3 ∧ decoded k sts
    ∧ Forall (passes (default ∅ (InitServiceNames yaml_parse composeContent)) sts) expected.
Proof.
  intros Hat r. unfold r, postDeployCheck.
  destruct (ExpectedServiceNames yaml_parse composeContent) as [[|e expected]|]; [done| |done].
  set (initSet := default ∅ _).
  pose proof (attempts_spec (e :: expected) initSet postCheckAttempts 1
    {| statuses := []; queryErr := ""; gotStatus := false |} Hat) as Ha.
  destruct (attempts _ _ _ _ _) as [r'|s]; intros Hsk Hst.
  - destruct Ha as [?|(_ & k & sts & Hk & Hd & Hp)]; [congruence|].
    exists (e :: expected), k, sts. unfold postCheckAttempts in Hk. split_and!; [done|lia|lia|done|done].
  - destruct (gotStatus s) eqn:Hg; [|done]. simpl in Ha.
    destruct Ha as [[? _]|(_ & k & Hk & Hd)]; [congruence|].
    exists (e :: expected), k, (statuses s). unfold postCheckAttempts in Hk.
    split_and!; [done|lia|lia|done|]. by apply evaluate_active.
Qed.

Lemma attempts_find expected initSet k left : ∀ attempt s,
  attempt ≤ k < attempt + left → (∀ j, attempt ≤ j < k → interrupted j = None) →
  (∀ old, ∃ output sts, replies k = Replied output "" ∧ unmarshal output old = (true, sts)
     ∧ Forall (passes initSet sts) expected) →
  ∃ r, attempts expected initSet left attempt s = inl r ∧ pc_Status r = "active" ∧ Skipped r = false.
Proof.
  induction left as [|left IH]; intros attempt s Hk Hi Hg; [lia|]. simpl.
  destruct (decide (attempt = k)) as [->|Hne].
  - destruct (Hg (statuses s)) as (output & sts & Hr & Hu & Hp).
    assert (query expected initSet k s = inl {| pc_Status := "active";
      Detail := "post-check passed: " +:+ Itoa (Z.of_nat (length expected)) +:+ "/"
        +:+ Itoa (Z.of_nat (length expected)) +:+ " services running"; Skipped := false |}) as ->.
    { unfold query. rewrite Hr. case_decide as Hx; [done|]. rewrite Hu decide_True //. by apply evaluate_active. }
    by eexists.
  - assert (interrupted attempt = None) as Hn by (apply Hi; lia).
    destruct (query expected initSet attempt s) as [r|s'] eqn:Hq.
    + exists r. split; [done|]. unfold query in Hq. repeat case_match; by simplify_eq.
    + rewrite Hn. replace (if decide _ then None else None) with (@None string) by (by case_decide).
      apply IH; [lia| |done]. intros j Hj. apply Hi. lia.
Qed.

(** The check succeeds as soon as the stack is up: if one of the three
    queries is answered with every declared service passing and the context did
    not end before it, the deploy is declared verified and active. *)
Theorem healthy_deploy_is_verified composeContent expected k :
  ExpectedServiceNames yaml_parse composeContent = Some expected → expected ≠ [] → 1 ≤ k ≤ 3 →
  (∀ j, 1 ≤ j < k → interrupted j = None) →
  (∀ old, ∃ output sts, replies k = Replied output "" ∧ unmarshal output old = (true, sts)
     ∧ Forall (passes (default ∅ (InitServiceNames yaml_parse composeContent)) sts) expected) →
  pc_Status (postDeployCheck composeContent) = "active" ∧ Skipped (postDeployCheck composeContent) = false.
Proof.
  intros He Hne Hk Hi Hg. unfold postDeployCheck. rewrite He. destruct expected as [|e expected]; [done|].
  destruct (attempts_find (e :: expected) (default ∅ (InitServiceNames yaml_parse composeContent)) k
    postCheckAttempts 1 {| statuses := []; queryErr := ""; gotStatus := false |}) as (r & -> & ? & ?); try done.
  unfold postCheckAttempts. lia.
Qed.
End deploy_check.
End postcheck.

(** A document with one service, and the worker's answer that it runs. *)
Definition one_service (_ : string) : option value :=
  Some (VMap {[ "services" := VMap {[ "web" := VMap ∅ ]} ]}).
Definition answers (_ : string) (_ : list ServiceStatus) : bool * list ServiceStatus := (true, [running_web]).

Lemma passes_web : Forall (passes (λ _, None) ∅ [running_web]) ["web"].
Proof.
  apply Forall_singleton. right. exists running_web. split; [by constructor|]. split; [done|].
  split; [vm_compute; reflexivity|]. done.
Qed.

Lemma post_check_verdict_witness :
  pc_Status (evaluatePostCheck (λ _, None) ["web"; "db"] ∅ [running_web]) = "degraded"
  ∧ pc_Status (evaluatePostCheck (λ _, None) ["web"; "db"] ∅ [running_web])
    = pc_Status (evaluatePostCheck (λ _, None) ["db"; "web"] ∅ [running_web]).
Proof.
  split; [vm_compute; reflexivity|].
  apply (post_check_verdict (λ _, None) ["web"; "db"] ["db"; "web"] ∅ [running_web] [running_web]);
    [done|constructor|done].
Defined.

Lemma verified_needs_evidence_witness :
  ∃ expected k sts, @ExpectedServiceNames some_range one_service "" = Some expected
    ∧ 1 ≤ k ≤ 3 ∧ decoded answers (λ _, Replied "[]" "") k sts
    ∧ Forall (passes (λ _, None) (default ∅ (@InitServiceNames some_range one_service "")) sts) expected.
Proof.
  apply (@verified_needs_evidence (λ _, None) some_range one_service answers (λ _, Replied "[]" "") (λ _, None)).
  - intros output old sts. done.
  - vm_compute. reflexivity.
  - vm_compute. reflexivity.
Defined.

Lemma healthy_deploy_is_verified_witness :
  pc_Status (@postDeployCheck (λ _, None) some_range one_service answers (λ _, Replied "[]" "") (λ _, None) "")
  = "active".
Proof.
  apply (@healthy_deploy_is_verified (λ _, None) some_range one_service answers (λ _, Replied "[]" "")
    (λ _, None) "" ["web"] 2).
  - vm_compute. reflexivity.
  - done.
  - lia.
  - done.
  - intros old. exists "[]", [running_web]. split_and!; [done|done|].
    replace (default ∅ _) with (∅ : gset string) by (vm_compute; reflexivity). apply passes_web.
Defined.

(** ** internal/sync/deploy_timeout.go: settling the record after a killed deploy

    The post-check runs as above; [inspect_reply] is the worker's
    answer to the inspect command, decoded by [decode_inspect].  [now] is the
    formatted time. *)
Record InspectResult := { CommitSHA : string; CommitSHAs : list string }.

Record timeoutConvergence := { tc_Status : string; tc_Detail : string; Converged : bool }.

Definition no_inspect : InspectResult := {| CommitSHA := ""; CommitSHAs := [] |}.

(** reconciler.go: every failure reads as nothing found. *)
Definition inspectStack (decode_inspect : string → option InspectResult) (r : reply) : InspectResult :=
  match r with
  | DispatchFailed _ => no_inspect
  | Replied output error => if decide (error ≠ "") then no_inspect else default no_inspect (decode_inspect output)
  end.

Definition inspectStackCommit decode_inspect (r : reply) : string := CommitSHA (inspectStack decode_inspect r).

Definition agreedRevision (inspected : InspectResult) : string * string :=
  match CommitSHAs inspected with
  | [sha] => (sha, "")
  | _ :: _ => ("", "containers straddle revisions " +:+ Join " and " (CommitSHAs inspected))
  | [] => if decide (CommitSHA inspected ≠ "")
          then ("", "worker reports only one container's revision, so agreement could not be checked")
          else ("", "")
  end.

Definition describeCommit (sha : string) : string :=
  if decide (sha = "") then "an unknown revision" else sha.

(** The decision once the post-check and the inspection are in. *)
Definition converge (check : postCheckResult) (inspected : InspectResult) (commitSHA previousSHA : string)
    : timeoutConvergence :=
  if Skipped check then {| tc_Status := ""; tc_Detail := Detail check; Converged := false |}
  else if decide (commitSHA = previousSHA) then
    {| tc_Status := pc_Status check;
       tc_Detail := Detail check +:+ "; commit unchanged from the last deploy, so the container labels cannot confirm this revision, record left unchanged";
       Converged := false |}
  else
    let '(revision, disagreement) := agreedRevision inspected in
    if decide (revision ≠ commitSHA) then
      let why := if decide (disagreement = "") then "containers still on " +:+ describeCommit revision
                 else disagreement in
      {| tc_Status := pc_Status check;
         tc_Detail := Detail check +:+ "; " +:+ why +:+ ", recorded revision left unchanged";
         Converged := false |}
    else
      {| tc_Status := pc_Status check;
         tc_Detail := Detail check +:+ "; every container runs the attempted revision, record converged";
         Converged := true |}.

Definition applyTimeoutConvergence (stack : record) (render : RenderResult) (commitSHA now : string) : record :=
  persistProjectIdentity
    (SetStr "deployed_at" now (SetStr "deployed_checksum" (Checksum render)
      (SetStr "deployed_commit" commitSHA (SetInt "deployed_version" (Version render)
        (SetStr "last_synced_at" now stack))))) (Some render).

Section timeout.
Context (since : string → option Z) `{GoRange} (yaml_parse : string → option value)
  (unmarshal : string → list ServiceStatus → bool * list ServiceStatus)
  (replies : nat → reply) (interrupted : nat → option string)
  (decode_inspect : string → option InspectResult) (inspect_reply : reply).

Abbreviation post_check := (postDeployCheck since yaml_parse unmarshal replies interrupted).

(** [dispatcher] says whether the reconciler has one. *)
Definition convergeAfterTimeout (dispatcher : bool) (composeContent commitSHA previousSHA : string)
    : timeoutConvergence :=
  if negb dispatcher || bool_decide (commitSHA = "")
  then {| tc_Status := ""; tc_Detail := ""; Converged := false |}
  else converge (post_check composeContent) (inspectStack decode_inspect inspect_reply) commitSHA previousSHA.

Lemma converge_spec check inspected commitSHA previousSHA : commitSHA ≠ "" →
  Converged (converge check inspected commitSHA previousSHA) = true ↔
  Skipped check = false ∧ commitSHA ≠ previousSHA ∧ CommitSHAs inspected = [commitSHA].
Proof.
  intros Hc. unfold converge. destruct (Skipped check); [naive_solver|].
  destruct (decide (commitSHA = previousSHA)); [naive_solver|]. unfold agreedRevision.
  destruct (CommitSHAs inspected) as [|sha [|? ?]]; simpl; repeat case_decide; simpl; naive_solver.
Qed.

(** After a deploy killed by its budget the record is advanced exactly when
    the host provably has the new revision: the reconciler could ask, the
    post-check verified something, the commit differs from the one already
    deployed, and the worker reports that commit as the only one the stack's
    containers carry. *)
Theorem convergence_exact dispatcher composeContent commitSHA previousSHA :
  Converged (convergeAfterTimeout dispatcher composeContent commitSHA previousSHA) = true ↔
  dispatcher = true ∧ commitSHA ≠ "" ∧ commitSHA ≠ previousSHA
  ∧ Skipped (post_check composeContent) = false
  ∧ ∃ output inspected, inspect_reply = Replied output "" ∧ decode_inspect output = Some inspected
      ∧ CommitSHAs inspected = [commitSHA].
Proof.
  unfold convergeAfterTimeout. destruct dispatcher; simpl; [|naive_solver].
  destruct (bool_decide (commitSHA = "")) eqn:Hc; bool_props; simpl; [naive_solver|].
  rewrite converge_spec //. unfold inspectStack.
  destruct inspect_reply as [err|output error]; [simpl; naive_solver|].
  case_decide as He; [simpl; naive_solver|]. subst error.
  destruct (decode_inspect output) as [i|] eqn:Hd; simpl; naive_solver.
Qed.
End timeout.

(** Advancing the record writes the same bookkeeping a successful deploy
    writes (version, commit, checksum, times, project name) and touches no other
    field: the error fields still say how the deploy failed. *)
Theorem convergence_bookkeeping stack render commitSHA now : rr_ProjectName render ≠ "" →
  let s := applyTimeoutConvergence stack render commitSHA now in
  GetString "deployed_commit" s = commitSHA ∧ GetString "deployed_checksum" s = Checksum render
  ∧ fields s !! "deployed_version" = Some (VNum (Itoa (Version render)))
  ∧ GetString "compose_project_name" s = rr_ProjectName render
  ∧ ∀ k, k ∉ ["last_synced_at"; "deployed_version"; "deployed_commit"; "deployed_checksum"; "deployed_at";
              "compose_project_name"] → fields s !! k = fields stack !! k.
Proof.
  intros Hn s. unfold s, applyTimeoutConvergence, persistProjectIdentity. rewrite decide_True //.
  split_and!; [by record_simpl..|].
  intros k Hk. rewrite !not_elem_of_cons in Hk. unfold SetStr, SetInt.
  rewrite !fields_SetField_ne; tauto.
Qed.

Lemma convergence_bookkeeping_witness :
  GetString "deployed_commit" (applyTimeoutConvergence old_stack renamed "abc123" "2025-01-01T00:00:00Z") = "abc123".
Proof. apply (convergence_bookkeeping old_stack renamed "abc123" "2025-01-01T00:00:00Z"). done. Defined.
