(* ===== verification/Overrides.v ===== *)
(** * internal/sync/renderer.go: render-time service overrides

    [ApplyServiceOverrides] walks the overrides in Go's unspecified map order
    and stops at the first that does not apply.  The specification
    [apply_overrides_spec] has no order; the refinement theorem says the loop
    computes it whatever the order. *)
From Stdlib Require Import ZArith.
From S2P Require Import Prelude GoStrings GoValue.

(** A nil slice or pointer is [None]. *)
Record ServiceOverride := {
  Image : string; Ports : option (list string); Networks : option (list string); Scale : option Z }.

Inductive override_error :=
| UnknownOverrideService (service : string)
| InvalidService (service : string)
| ScaleOutOfRange (service : string)
| ScaleGlobalMode (service mode : string)
| ScaleContainerName (service : string)
| ScaleFixedPort (service : string).

Definition maxRenderOverrideScale : Z := 100.

Definition port_fixed (rawPort : value) : bool :=
  match rawPort with
  | VMap port =>
      match port !! "published" with
      | Some published => bool_decide (Sprint published ≠ "") && bool_decide (Sprint published ≠ "0")
      | None => false
      end
  | VStr port => bool_decide (1 ≤ count_char colon port)
  | _ => false
  end.

Definition serviceHasFixedPublishedPort (raw : option value) : bool :=
  match raw with Some (VList ports) => existsb port_fixed ports | _ => false end.

Definition applyServiceScaleOverride (serviceName : string) (svc : gmap string value) (scale : Z)
    : gmap string value + override_error :=
  if decide (scale < 0 ∨ maxRenderOverrideScale < scale)%Z then inr (ScaleOutOfRange serviceName)
  else
    let mode := match get_map "deploy" svc with
                | Some deploy => default "" (get_str "mode" deploy) | None => "" end in
    if decide (mode = "global" ∨ mode = "global-job") then inr (ScaleGlobalMode serviceName mode)
    else if decide (1 < scale ∧ default "" (get_str "container_name" svc) ≠ "")%Z
      then inr (ScaleContainerName serviceName)
    else if bool_decide (1 < scale)%Z && serviceHasFixedPublishedPort (svc !! "ports")
      then inr (ScaleFixedPort serviceName)
    else
      let svc1 := <["scale" := VNum (Itoa scale)]> svc in
      inl (match get_map "deploy" svc1 with
           | Some deploy => <["deploy" := VMap (<["replicas" := VNum (Itoa scale)]> deploy)]> svc1
           | None => svc1
           end).

Definition set_image (o : ServiceOverride) (svc : gmap string value) : gmap string value :=
  if decide (Image o ≠ "") then <["image" := VStr (Image o)]> svc else svc.

Definition set_list (key : string) (l : option (list string)) (svc : gmap string value) : gmap string value :=
  match l with Some l => <[key := VList (VStr <$> l)]> svc | None => svc end.

(** What one override does to its service. *)
Definition override_service (name : string) (o : ServiceOverride) (svc : gmap string value)
    : gmap string value + override_error :=
  let svc := set_list "networks" (Networks o) (set_list "ports" (Ports o) (set_image o svc)) in
  match Scale o with
  | Some scale => applyServiceScaleOverride name svc scale
  | None => inl svc
  end.

Definition external_network : value := VMap {[ "external" := VBool true ]}.

(** The loop's variables: services, declared networks, [networksAdded]. *)
Record loop := { services : gmap string value; declaredNetworks : gmap string value; networksAdded : bool }.

Definition declare_network (s : loop) (n : string) : loop :=
  match declaredNetworks s !! n with
  | Some _ => s
  | None => {| services := services s; declaredNetworks := <[n := external_network]> (declaredNetworks s);
               networksAdded := true |}
  end.

Definition override_step (s : loop) (kv : string * ServiceOverride) : loop + override_error :=
  let '(serviceName, override) := kv in
  match services s !! serviceName with
  | None => inr (UnknownOverrideService serviceName)
  | Some (VMap svc) =>
      let s1 := foldl declare_network s (default [] (Networks override)) in
      match override_service serviceName override svc with
      | inr err => inr err
      | inl svc' => inl {| services := <[serviceName := VMap svc']> (services s1);
                           declaredNetworks := declaredNetworks s1; networksAdded := networksAdded s1 |}
      end
  | Some _ => inr (InvalidService serviceName)
  end.

Fixpoint override_loop (l : list (string * ServiceOverride)) (s : loop) : loop + override_error :=
  match l with
  | [] => inl s
  | kv :: l => match override_step s kv with inr err => inr err | inl s' => override_loop l s' end
  end.

Definition start_loop (configMap : gmap string value) : loop :=
  {| services := default ∅ (get_map "services" configMap);
     declaredNetworks := default ∅ (get_map "networks" configMap); networksAdded := false |}.

Definition ApplyServiceOverrides `{GoRange} (configMap : gmap string value)
    (overrides : gmap string ServiceOverride) : gmap string value + override_error :=
  match override_loop (go_range overrides) (start_loop configMap) with
  | inr err => inr err
  | inl s =>
      let m := <["services" := VMap (services s)]> configMap in
      inl (if networksAdded s then <["networks" := VMap (declaredNetworks s)]> m else m)
  end.

Definition RenderOverridesRequireContainerRecreate `{GoRange} (overrides : gmap string ServiceOverride) : bool :=
  existsb (λ kv, bool_decide (Image kv.2 ≠ "") || bool_decide (Ports kv.2 ≠ None)
                 || bool_decide (Networks kv.2 ≠ None)) (go_range overrides).

(** ** The specification, free of any order *)

(** The networks the overrides ask for. *)
Definition wanted_networks (overrides : gmap string ServiceOverride) : gset string :=
  list_to_set (map_to_list overrides ≫= λ kv, default [] (Networks kv.2)).

Definition overridden (name : string) (o : option ServiceOverride) (v : value) : value :=
  match o, v with
  | Some o, VMap svc => match override_service name o svc with inl svc' => VMap svc' | inr _ => v end
  | _, _ => v
  end.

Definition applicable (services : gmap string value) (name : string) (o : ServiceOverride) : Prop :=
  ∃ svc svc', services !! name = Some (VMap svc) ∧ override_service name o svc = inl svc'.

Definition apply_overrides_spec (configMap : gmap string value) (overrides : gmap string ServiceOverride)
    : gmap string value :=
  let svcs := default ∅ (get_map "services" configMap) in
  let nets := default ∅ (get_map "networks" configMap) in
  let m := <["services" := VMap (map_imap (λ n v, Some (overridden n (overrides !! n) v)) svcs)]> configMap in
  if decide (wanted_networks overrides ⊆ dom nets) then m
  else <["networks" := VMap (nets ∪ gset_to_gmap external_network (wanted_networks overrides))]> m.

(** ** Lemmas *)
Definition extend (nets : gmap string value) (l : gset string) : gmap string value :=
  nets ∪ gset_to_gmap external_network l.

Lemma extend_nil nets : extend nets ∅ = nets.
Proof. unfold extend. rewrite gset_to_gmap_empty. by rewrite (right_id_L ∅ (∪)). Qed.

Lemma declare_networks s l :
  foldl declare_network s l =
  {| services := services s; declaredNetworks := extend (declaredNetworks s) (list_to_set l);
     networksAdded := networksAdded s || bool_decide (¬ list_to_set (C := gset string) l ⊆ dom (declaredNetworks s)) |}.
Proof.
  revert s. induction l as [|n l IH]; intros s.
  { rewrite extend_nil bool_decide_eq_false_2; [rewrite orb_false_r; by destruct s|set_solver]. }
  simpl. rewrite IH. clear IH. unfold declare_network. destruct (declaredNetworks s !! n) as [v|] eqn:Hn; simpl.
  - assert (n ∈ dom (declaredNetworks s)) as Hd by (apply elem_of_dom; eauto). f_equal.
    + apply map_eq. intros k. unfold extend. rewrite !lookup_union !lookup_gset_to_gmap.
      destruct (decide (k = n)) as [->|Hne]; [rewrite Hn; by repeat case_guard|].
      f_equal. repeat case_guard; set_solver.
    + f_equal. apply bool_decide_ext. set_solver.
  - assert (n ∉ dom (declaredNetworks s)) as Hd by (by apply not_elem_of_dom). f_equal.
    + apply map_eq. intros k. unfold extend. rewrite !lookup_union !lookup_gset_to_gmap.
      destruct (decide (k = n)) as [->|Hne].
      * rewrite lookup_insert_eq Hn. repeat case_guard; set_solver.
      * rewrite lookup_insert_ne //. f_equal. repeat case_guard; set_solver.
    + rewrite (bool_decide_eq_true_2 (¬ {[n]} ∪ list_to_set l ⊆ dom (declaredNetworks s))); [|set_solver].
      by rewrite !orb_true_r.
Qed.

Definition nets_of (l : list (string * ServiceOverride)) : gset string :=
  list_to_set (l ≫= λ kv, default [] (Networks kv.2)).

Definition loop_spec (l : list (string * ServiceOverride)) (s : loop) : loop :=
  {| services := map_imap (λ n v, Some (overridden n (list_to_map (M := gmap string ServiceOverride) l !! n) v)) (services s);
     declaredNetworks := extend (declaredNetworks s) (nets_of l);
     networksAdded := networksAdded s || bool_decide (¬ nets_of l ⊆ dom (declaredNetworks s)) |}.

Lemma extend_extend nets a b : extend (extend nets a) b = extend nets (a ∪ b).
Proof.
  apply map_eq. intros k. unfold extend. rewrite !lookup_union !lookup_gset_to_gmap.
  destruct (nets !! k); simpl; repeat case_guard; set_solver.
Qed.

Lemma dom_extend nets a : dom (extend nets a) = dom nets ∪ a.
Proof. unfold extend. rewrite dom_union_L dom_gset_to_gmap. done. Qed.

Lemma step_ok s name o svc svc' : services s !! name = Some (VMap svc) → override_service name o svc = inl svc' →
  override_step s (name, o) = inl
    {| services := <[name := VMap svc']> (services s);
       declaredNetworks := extend (declaredNetworks s) (list_to_set (default [] (Networks o)));
       networksAdded := networksAdded s
         || bool_decide (¬ list_to_set (C := gset string) (default [] (Networks o)) ⊆ dom (declaredNetworks s)) |}.
Proof. intros Hs Ho. unfold override_step. by rewrite Hs Ho declare_networks. Qed.

Lemma step_inl s name o s' : override_step s (name, o) = inl s' → applicable (services s) name o.
Proof.
  unfold override_step. destruct (services s !! name) as [[| | | | |svc]|] eqn:Hs; try done.
  destruct (override_service name o svc) as [svc'|] eqn:Ho; [|done]. intros _. by exists svc, svc'.
Qed.

Lemma loop_inl l : ∀ s s', NoDup l.*1 → override_loop l s = inl s' →
  ∀ n o, (n, o) ∈ l → applicable (services s) n o.
Proof.
  induction l as [|[n o] l IH]; intros s s' Hnd Hl n' o' Hin; [by apply elem_of_nil in Hin|].
  apply NoDup_cons in Hnd as [Hn Hnd]. cbn [override_loop] in Hl.
  destruct (override_step s (n, o)) as [s1|] eqn:Hst; [|done].
  pose proof (step_inl _ _ _ _ Hst) as (svc & svc' & Hs & Ho).
  apply elem_of_cons in Hin as [?|Hin]; [simplify_eq; by exists svc, svc'|].
  destruct (IH s1 s' Hnd Hl n' o' Hin) as (x & x' & Hx & Hox). exists x, x'. split; [|done].
  rewrite (step_ok _ _ _ _ _ Hs Ho) in Hst. simplify_eq. simpl in Hx.
  assert (n ≠ n') as Hne by (intros ->; apply Hn, list_elem_of_fmap; by exists (n', o')).
  by rewrite lookup_insert_ne in Hx.
Qed.

Lemma loop_ok l : ∀ s, NoDup l.*1 → (∀ n o, (n, o) ∈ l → applicable (services s) n o) →
  override_loop l s = inl (loop_spec l s).
Proof.
  induction l as [|[n o] l IH]; intros s Hnd Hap.
  { simpl. unfold loop_spec, nets_of. simpl. rewrite extend_nil bool_decide_eq_false_2; [|set_solver].
    rewrite orb_false_r. do 2 f_equal. destruct s as [sv dn na]; simpl. f_equal.
    apply map_eq. intros k. rewrite map_lookup_imap lookup_empty. by destruct (sv !! k) as [[]|]. }
  apply NoDup_cons in Hnd as [Hn Hnd].
  destruct (Hap n o) as (svc & svc' & Hs & Ho); [by constructor|].
  cbn [override_loop]. rewrite (step_ok _ _ _ _ _ Hs Ho) IH //.
  2: { intros n' o' Hin. destruct (Hap n' o') as (x & x' & ? & ?); [by constructor|]. exists x, x'.
       split; [|done]. simpl. rewrite lookup_insert_ne //. intros ->. apply Hn, list_elem_of_fmap. by exists (n', o'). }
  f_equal. unfold loop_spec. simpl. f_equal.
  - apply map_eq. intros k. rewrite !map_lookup_imap. destruct (decide (k = n)) as [->|Hne].
    + rewrite !lookup_insert_eq Hs. simpl. rewrite Ho not_elem_of_list_to_map_1 //.
    + rewrite !lookup_insert_ne //.
  - rewrite extend_extend. f_equal. unfold nets_of. simpl. by rewrite list_to_set_app_L.
  - rewrite -orb_assoc. f_equal. rewrite dom_extend. unfold nets_of. simpl. rewrite list_to_set_app_L.
    rewrite -bool_decide_or. apply bool_decide_ext.
    destruct (decide (list_to_set (C := gset string) (default [] (Networks o)) ⊆ dom (declaredNetworks s))); set_solver.
Qed.

Lemma nets_of_range `{GoRange} overrides : nets_of (go_range overrides) = wanted_networks overrides.
Proof.
  unfold nets_of, wanted_networks. apply set_eq. intros n. rewrite !elem_of_list_to_set !list_elem_of_bind.
  by setoid_rewrite go_range_perm.
Qed.

Lemma range_to_map `{GoRange} (overrides : gmap string ServiceOverride) :
  list_to_map (go_range overrides) = overrides.
Proof.
  rewrite (list_to_map_proper _ (map_to_list overrides)); [apply list_to_map_to_list|
    apply NoDup_go_range|apply go_range_perm].
Qed.

(** ** Properties *)

Lemma apply_overrides_iff `{GoRange} configMap overrides m :
  ApplyServiceOverrides configMap overrides = inl m ↔
  (∀ n o, overrides !! n = Some o → applicable (default ∅ (get_map "services" configMap)) n o)
  ∧ m = apply_overrides_spec configMap overrides.
Proof.
  assert ((∀ n o, overrides !! n = Some o → applicable (default ∅ (get_map "services" configMap)) n o) →
    ApplyServiceOverrides configMap overrides = inl (apply_overrides_spec configMap overrides)) as Hok.
  { intros Hap. unfold ApplyServiceOverrides. rewrite loop_ok.
    - unfold apply_overrides_spec, loop_spec. simpl. rewrite nets_of_range range_to_map. f_equal.
      unfold extend. destruct (decide (wanted_networks overrides ⊆ _)) as [Hw|Hw].
      + rewrite bool_decide_eq_false_2 //. naive_solver.
      + rewrite bool_decide_eq_true_2 //.
    - apply NoDup_go_range.
    - intros n o Hin. apply Hap. by apply elem_of_go_range. }
  split.
  - intros Ha. assert (∀ n o, overrides !! n = Some o →
      applicable (default ∅ (get_map "services" configMap)) n o) as Hap.
    { intros n o Hn. unfold ApplyServiceOverrides in Ha.
      destruct (override_loop _ _) as [s|] eqn:Hl; [|done].
      eapply (loop_inl _ _ _ (NoDup_go_range overrides) Hl). by apply elem_of_go_range. }
    split; [done|]. rewrite (Hok Hap) in Ha. by simplify_eq.
  - intros [Hap ->]. by apply Hok.
Qed.

(** C34: Applying render overrides means the same thing in every order Go may
    iterate them: it succeeds exactly when each override names a service of the
    document and its scale is admissible there, and then the result is the
    specified document, with every overridden service changed, all others kept,
    and the networks that were missing declared external. *)
Theorem overrides_refine_spec `{GoRange} configMap overrides m :
  ApplyServiceOverrides configMap overrides = inl m ↔
  (∀ n o, overrides !! n = Some o → applicable (default ∅ (get_map "services" configMap)) n o)
  ∧ m = apply_overrides_spec configMap overrides.
Proof. apply apply_overrides_iff. Qed.

(** A scale override that is accepted is safe: the count is between 0 and
    100, the service is not in a global mode, more than one replica is accepted
    only without a fixed container name and without a fixed published port, and
    scale and deploy.replicas agree afterwards. *)
Theorem scale_override_safe name svc n svc' : applyServiceScaleOverride name svc n = inl svc' →
  (0 ≤ n ≤ 100)%Z
  ∧ (∀ deploy, get_map "deploy" svc = Some deploy →
       get_str "mode" deploy ≠ Some "global" ∧ get_str "mode" deploy ≠ Some "global-job")
  ∧ ((1 < n)%Z → default "" (get_str "container_name" svc) = "" ∧ serviceHasFixedPublishedPort (svc !! "ports") = false)
  ∧ svc' !! "scale" = Some (VNum (Itoa n))
  ∧ (∀ deploy', get_map "deploy" svc' = Some deploy' → deploy' !! "replicas" = Some (VNum (Itoa n)))
  ∧ ∀ k, k ≠ "scale" → k ≠ "deploy" → svc' !! k = svc !! k.
Proof.
  unfold applyServiceScaleOverride. case_decide as Hr; [done|]. cbv zeta.
  case_decide as Hm; [done|]. case_decide as Hc; [done|].
  destruct (bool_decide (1 < n)%Z && _) eqn:Hp; [done|].
  assert (get_map "deploy" (<["scale" := VNum (Itoa n)]> svc) = get_map "deploy" svc) as Hd
    by (unfold get_map; by rewrite lookup_insert_ne).
  rewrite Hd. intros [= <-]. unfold maxRenderOverrideScale in Hr. split_and!; [lia|lia| | | | |].
  - intros deploy Hdep. rewrite Hdep in Hm. destruct (get_str "mode" deploy); simpl in Hm; naive_solver.
  - intros Hn. rewrite bool_decide_eq_true_2 //= in Hp. split; [|done].
    destruct (decide (default "" (get_str "container_name" svc) = "")); tauto.
  - destruct (get_map "deploy" svc); rewrite ?lookup_insert_eq //. by rewrite lookup_insert_ne // lookup_insert_eq.
  - intros deploy'. destruct (get_map "deploy" svc) as [d|] eqn:Hdep.
    + unfold get_map. rewrite lookup_insert_eq /=. intros [= <-]. by rewrite lookup_insert_eq.
    + by rewrite Hd.
  - intros k H1 H2. destruct (get_map "deploy" svc); rewrite ?lookup_insert_ne //.
Qed.

Definition web_svc : gmap string value :=
  {[ "image" := VStr "nginx:1.27"; "deploy" := VMap {[ "replicas" := VNum "1" ]} ]}.

Lemma scale_override_safe_witness :
  ∃ svc', applyServiceScaleOverride "web" web_svc 3 = inl svc' ∧ svc' !! "scale" = Some (VNum (Itoa 3)).
Proof.
  eexists. split; [vm_compute; reflexivity|].
  eapply (scale_override_safe "web" web_svc 3). vm_compute. reflexivity.
Defined.
