(* ===== verification/ConfigFiles.v ===== *)
(** * internal/configfiles/resolve.go: config files read from a checkout

    The file system is what [os.Lstat] finds at an absolute path: a regular file
    with the size its entry reports and the content reading it gives, a directory
    with its entries in the order [filepath.WalkDir] visits them, or anything
    else (a symlink, a device).  [cwd] is the process's directory, [sha256] the
    hex digest. *)
From Stdlib Require Import ZArith.
From S2P Require Import Prelude GoStrings GoPath SafePath.

Inductive node :=
| Regular (size : Z) (content : option string)
| Directory (entries : list (string * node))
| Unreadable
| Special.

Definition MaxFileBytes : Z := 1048576.
Definition MaxTotalBytes : Z := 5242880.

Record Source := { s_Name : string; s_Path : string }.

Record ResolvedFile := {
  rf_Name : string; rf_SourcePath : string; RelPath : string; Content : string; rf_Checksum : string }.

Inductive resolve_error :=
| InvalidPath (name path : string)
| Escapes (name path : string)
| CannotStat (name path : string)
| NotRegular (name path : string)
| CannotRead (name path : string)
| TooLarge (name path : string)
| TotalTooLarge (name : string)
| WalkError (name : string).

Definition Abs (cwd p : string) : string := if IsAbs p then Clean p else PathJoin cwd p.

Definition containedJoin (cwd workDir rel : string) : option string :=
  let baseAbs := Abs cwd workDir in
  let fullAbs := Abs cwd (PathJoin baseAbs rel) in
  match Rel baseAbs fullAbs with
  | None => None
  | Some relCheck => if decide (relCheck = "..") then None
                     else if HasPrefix relCheck "../" then None else Some fullAbs
  end.

(** The new total. *)
Definition checkSize (name path : string) (size total : Z) : Z + resolve_error :=
  if decide (MaxFileBytes < size)%Z then inr (TooLarge name path)
  else if decide (MaxTotalBytes < total + size)%Z then inr (TotalTooLarge name)
  else inl (total + size)%Z.

Section resolve.
Context (sha256 : string → string).

(** A file found at [path], [rel] being its path under the source. *)
Definition read_regular (name path rel : string) (size : Z) (content : option string) (total : Z)
    : (list ResolvedFile * Z) + resolve_error :=
  match checkSize name path size total with
  | inr err => inr err
  | inl total' =>
      match content with
      | None => inr (CannotRead name path)
      | Some c => inl ([{| rf_Name := name; rf_SourcePath := path; RelPath := rel; Content := c;
                           rf_Checksum := sha256 c |}], total')
      end
  end.

Definition child (rel name : string) : string := if decide (rel = "") then name else rel +:+ "/" +:+ name.

(** [filepath.WalkDir] with the callback of [resolveDir]. *)
Fixpoint walk (s : Source) (rel : string) (n : node) (total : Z)
    : (list ResolvedFile * Z) + resolve_error :=
  match n with
  | Regular size content => read_regular (s_Name s) (s_Path s +:+ "/" +:+ rel) rel size content total
  | Special => inr (NotRegular (s_Name s) rel)
  | Unreadable => inr (WalkError (s_Name s))
  | Directory entries =>
      (fix walk_entries (es : list (string * node)) (total : Z) :=
         match es with
         | [] => inl ([], total)
         | (name, n) :: es =>
             match walk s (child rel name) n total with
             | inr err => inr err
             | inl (files, total') =>
                 match walk_entries es total' with
                 | inr err => inr err
                 | inl (more, total'') => inl (files ++ more, total'')
                 end
             end
         end) entries total
  end.

Definition resolveDir (s : Source) (n : node) (total : Z) : (list ResolvedFile * Z) + resolve_error :=
  walk s "" n total.

Context (cwd : string) (Lstat : string → option node).

(** One source of the loop. *)
Definition resolve_one (workDir : string) (s : Source) (total : Z) : (list ResolvedFile * Z) + resolve_error :=
  match CleanRelativePath (s_Path s) with
  | inl _ => inr (InvalidPath (s_Name s) (s_Path s))
  | inr clean =>
      match containedJoin cwd workDir clean with
      | None => inr (Escapes (s_Name s) clean)
      | Some full =>
          match Lstat full with
          | None => inr (CannotStat (s_Name s) (s_Path s))
          | Some (Directory _ as n) | Some (Unreadable as n) => resolveDir s n total
          | Some Special => inr (NotRegular (s_Name s) (s_Path s))
          | Some (Regular size content) => read_regular (s_Name s) (s_Path s) "" size content total
          end
      end
  end.

Fixpoint resolve_loop (workDir : string) (sources : list Source) (total : Z)
    : (list ResolvedFile * Z) + resolve_error :=
  match sources with
  | [] => inl ([], total)
  | s :: rest =>
      match resolve_one workDir s total with
      | inr err => inr err
      | inl (files, total') =>
          match resolve_loop workDir rest total' with
          | inr err => inr err
          | inl (more, total'') => inl (files ++ more, total'')
          end
      end
  end.

Definition Resolve (workDir : string) (sources : list Source) : list ResolvedFile + resolve_error :=
  match resolve_loop workDir sources 0 with inl (files, _) => inl files | inr err => inr err end.

(** ** What is under a path *)

(** The files under a node with their relative paths, in walking order. *)
Fixpoint leaves (rel : string) (n : node) : list (string * node) :=
  match n with
  | Directory entries =>
      (fix go (es : list (string * node)) :=
         match es with [] => [] | (name, n) :: es => leaves (child rel name) n ++ go es end) entries
  | _ => [(rel, n)]
  end.

(** A file that may be shipped. *)
Definition shippable (n : node) : Prop :=
  ∃ size c, n = Regular size (Some c) ∧ (size ≤ MaxFileBytes)%Z.

Definition size_of (n : node) : Z := match n with Regular size _ => size | _ => 0 end.

Definition total_size (l : list (string * node)) : Z := foldr (λ ln z, size_of ln.2 + z)%Z 0%Z l.

Definition file_of (name base : string) (ln : string * node) : ResolvedFile :=
  let c := match ln.2 with Regular _ (Some c) => c | _ => "" end in
  {| rf_Name := name; rf_SourcePath := base +:+ "/" +:+ ln.1; RelPath := ln.1; Content := c;
     rf_Checksum := sha256 c |}.

(** Structural induction on the nodes of a tree. *)
Lemma tree_ind (P : node → Prop) :
  (∀ size c, P (Regular size c)) → (∀ es, Forall (λ en, P en.2) es → P (Directory es)) →
  P Unreadable → P Special → ∀ n, P n.
Proof.
  intros HR HD HU HS. fix IH 1. intros [size c|es| |]; [apply HR| |apply HU|apply HS].
  apply HD. induction es as [|[name n] es IHes]; constructor; [apply IH|apply IHes].
Qed.

Lemma read_regular_inl name path rel size content total files total' :
  read_regular name path rel size content total = inl (files, total') →
  ∃ c, content = Some c ∧ (size ≤ MaxFileBytes)%Z ∧ total' = (total + size)%Z
    ∧ (total + size ≤ MaxTotalBytes)%Z
    ∧ files = [{| rf_Name := name; rf_SourcePath := path; RelPath := rel; Content := c; rf_Checksum := sha256 c |}].
Proof.
  unfold read_regular, checkSize. repeat case_decide; [done|done|].
  destruct content as [c|]; [|done]. intros [= <- <-]. exists c. split_and!; try done; lia.
Qed.

Lemma total_size_app l k : total_size (l ++ k) = (total_size l + total_size k)%Z.
Proof. induction l as [|x l IH]; simpl; [done|]. unfold total_size in *. simpl. lia. Qed.

(** What a successful step did: the files of the listed leaves, all shippable,
    the running total kept below the limit. *)
Definition stepped (l : list (string * node)) (total total' : Z) : Prop :=
  Forall (λ ln, shippable ln.2) l ∧ total' = (total + total_size l)%Z
  ∧ ((total ≤ MaxTotalBytes)%Z → (total' ≤ MaxTotalBytes)%Z).

Lemma stepped_app l k t t' t'' : stepped l t t' → stepped k t' t'' → stepped (l ++ k) t t''.
Proof.
  intros (H1 & H2 & H3) (H4 & H5 & H6). split_and!.
  - by apply Forall_app.
  - rewrite total_size_app. lia.
  - intros Ht. apply H6, H3, Ht.
Qed.

Lemma walk_spec s n : ∀ rel total files total', walk s rel n total = inl (files, total') →
  files = file_of (s_Name s) (s_Path s) <$> leaves rel n ∧ stepped (leaves rel n) total total'.
Proof.
  induction n as [size c|es IH| |] using tree_ind; intros rel total files total' Hw; try done.
  - apply read_regular_inl in Hw as (c' & -> & ? & -> & ? & ->). simpl. split; [done|].
    split_and!; [|unfold total_size; simpl; lia|lia].
    apply Forall_singleton. by exists size, c'.
  - revert total files total' Hw. induction IH as [|[name n] es Hn Hes IHes]; intros total files total' Hw.
    { simpl in Hw. simplify_eq. split; [done|]. split_and!; [constructor|unfold total_size; simpl; lia|done]. }
    simpl in Hw. destruct (walk s (child rel name) n total) as [[f1 t1]|] eqn:H1; [|done].
    apply Hn in H1 as [-> Hs1]. simpl in IHes.
    match type of Hw with match ?w with _ => _ end = _ => destruct w as [[f2 t2]|] eqn:H2 end; [|done].
    apply IHes in H2 as [-> Hs2]. simplify_eq. simpl. rewrite fmap_app. split; [done|].
    by eapply stepped_app.
Qed.

(** The files a source stands for. *)
Definition source_files (s : Source) (n : node) : list ResolvedFile :=
  match n with
  | Regular _ (Some c) => [{| rf_Name := s_Name s; rf_SourcePath := s_Path s; RelPath := "";
                              Content := c; rf_Checksum := sha256 c |}]
  | _ => file_of (s_Name s) (s_Path s) <$> leaves "" n
  end.

(** The node a source resolves to, inside the checkout. *)
Definition locates (workDir : string) (s : Source) (n : node) : Prop :=
  ∃ clean full, CleanRelativePath (s_Path s) = inr clean ∧ containedJoin cwd workDir clean = Some full
    ∧ inside (Abs cwd workDir) full ∧ Lstat full = Some n.

Hypothesis cwd_abs : IsAbs cwd = true.

Lemma Abs_IsAbs p : IsAbs (Abs cwd p) = true.
Proof.
  unfold Abs. destruct (IsAbs p) eqn:Hp; [by rewrite IsAbs_Clean|].
  apply IsAbs_spec in cwd_abs as [r Hr]. unfold PathJoin. rewrite Hr.
  destruct (decide (String slash r = "")); [done|]. destruct (decide (p = "")); by rewrite IsAbs_Clean.
Qed.

Lemma contained_inside workDir s clean full : CleanRelativePath (s_Path s) = inr clean →
  containedJoin cwd workDir clean = Some full → inside (Abs cwd workDir) full.
Proof.
  intros Hc. unfold containedJoin. set (base := Abs cwd workDir).
  assert (base ≠ "") as Hb.
  { intros Hb. pose proof (Abs_IsAbs workDir) as Ha. fold base in Ha. by rewrite Hb in Ha. }
  destruct (clean_relative_contained base (s_Path s) clean Hb Hc) as [_ Hin].
  destruct (Rel base _); [|done]. case_decide; [done|]. destruct (HasPrefix _ _); [done|].
  intros [= <-]. destruct Hin as [Ha [rest Hr]]. unfold base in Ha at 2. rewrite Abs_IsAbs in Ha.
  unfold Abs at 1. rewrite Ha. split; [|exists rest; by rewrite path_comps_Clean].
  rewrite IsAbs_Clean Ha. by unfold base; rewrite Abs_IsAbs.
Qed.

Lemma resolve_one_spec workDir s total files total' :
  resolve_one workDir s total = inl (files, total') →
  ∃ n, locates workDir s n ∧ files = source_files s n ∧ stepped (leaves "" n) total total'.
Proof.
  unfold resolve_one. destruct (CleanRelativePath (s_Path s)) as [|clean] eqn:Hc; [done|].
  destruct (containedJoin cwd workDir clean) as [full|] eqn:Hf; [|done].
  pose proof (contained_inside workDir s clean full Hc Hf) as Hin.
  destruct (Lstat full) as [n|] eqn:Hn; [|done]. intros Hr. exists n. split; [by exists clean, full|].
  destruct n as [size c|es| |]; try done.
  - apply read_regular_inl in Hr as (c' & -> & ? & -> & ? & ->). split; [done|].
    split_and!; [|unfold total_size; simpl; lia|lia]. apply Forall_singleton. by exists size, c'.
  - apply walk_spec in Hr. done.
Qed.

Lemma resolve_loop_spec workDir sources : ∀ total files total',
  resolve_loop workDir sources total = inl (files, total') →
  ∃ nodes, Forall2 (locates workDir) sources nodes
    ∧ files = mjoin (zip_with source_files sources nodes)
    ∧ stepped (nodes ≫= leaves "") total total'.
Proof.
  induction sources as [|s rest IH]; intros total files total' Hr; simpl in Hr.
  { simplify_eq. exists []. split_and!; [constructor|done|].
    split_and!; [constructor|unfold total_size; simpl; lia|done]. }
  destruct (resolve_one workDir s total) as [[f1 t1]|] eqn:H1; [|done].
  destruct (resolve_loop workDir rest t1) as [[f2 t2]|] eqn:H2; [|done]. simplify_eq.
  apply resolve_one_spec in H1 as (n & Hl & -> & Hs1). apply IH in H2 as (nodes & Hls & -> & Hs2).
  exists (n :: nodes). split_and!; [by constructor|done|]. simpl. by eapply stepped_app.
Qed.

(** The config files shipped with a revision are exactly the regular files
    found at or below the declared sources, in order, nothing left out: every
    source lies inside the checkout, no symlink or device is among them, no file
    is larger than 1 MiB and all of them together are at most 5 MiB. *)
Theorem resolve_exact workDir sources files : Resolve workDir sources = inl files →
  ∃ nodes, Forall2 (locates workDir) sources nodes
    ∧ files = mjoin (zip_with source_files sources nodes)
    ∧ Forall (λ ln, shippable ln.2) (nodes ≫= leaves "")
    ∧ (total_size (nodes ≫= leaves "") ≤ MaxTotalBytes)%Z.
Proof.
  unfold Resolve. destruct (resolve_loop workDir sources 0) as [[fs t]|] eqn:Hr; [|done].
  intros [= <-]. apply resolve_loop_spec in Hr as (nodes & Hl & Hf & Hs & -> & Ht).
  exists nodes. split_and!; try done. unfold MaxTotalBytes in *. lia.
Qed.
End resolve.

(** A checkout with a file and a directory of two files. *)
Definition sample_tree (p : string) : option node :=
  if decide (p = "/repo/app.conf") then Some (Regular 3 (Some "a=1"))
  else if decide (p = "/repo/conf.d")
  then Some (Directory [("x.conf", Regular 2 (Some "xx")); ("sub", Directory [("y.conf", Regular 1 (Some "y"))])])
  else None.

Definition sample_sources : list Source :=
  [{| s_Name := "web__app"; s_Path := "app.conf" |}; {| s_Name := "web__d"; s_Path := "conf.d" |}].

Lemma resolve_exact_witness :
  ∃ nodes, Forall2 (locates "/srv" sample_tree "/repo") sample_sources nodes.
Proof.
  destruct (resolve_exact (λ c, c) "/srv" sample_tree eq_refl "/repo" sample_sources
    [{| rf_Name := "web__app"; rf_SourcePath := "app.conf"; RelPath := ""; Content := "a=1"; rf_Checksum := "a=1" |};
     {| rf_Name := "web__d"; rf_SourcePath := "conf.d/x.conf"; RelPath := "x.conf"; Content := "xx"; rf_Checksum := "xx" |};
     {| rf_Name := "web__d"; rf_SourcePath := "conf.d/sub/y.conf"; RelPath := "sub/y.conf"; Content := "y"; rf_Checksum := "y" |}]
    (ltac:(vm_compute; reflexivity))) as (nodes & Hl & _).
  exists nodes. exact Hl.
Defined.
