(* ===== verification/ConfigInject.v ===== *)
(** * internal/sync/renderer.go: config mounts from service annotations

    [dev.wireops.config.<name>: <source>:<target>] annotations become entries of
    the document's [configs] and of the service's [configs] list.  Services and
    annotations are walked in Go's unspecified map order; the directives are
    sorted before they are used. *)
From Stdlib Require Import ZArith.
From S2P Require Import Prelude GoStrings GoPath GoValue SafePath ComposeDoc ConfigFiles.

Definition configAnnotationPrefix : string := "dev.wireops.config.".

Definition NormalizeToMap (input : option value) : gmap string value :=
  match input with
  | Some (VMap m) => m
  | Some (VList l) =>
      foldl (λ acc v, match v with
                      | VStr s => let '(k, x) := split_label s in <[k := VStr x]> acc
                      | _ => acc
                      end) ∅ l
  | _ => ∅
  end.

(** The first colon must have text on both sides; the source must be a relative
    path without escape, the target a clean absolute path. *)
Definition splitConfigMapping (v : string) : (string * string) + string :=
  match cut colon v with
  | None => inr "expected <source>:<target>"
  | Some (source, target) =>
      if decide (source = "" ∨ target = "") then inr "expected <source>:<target>"
      else match CleanRelativePath source with
           | inl _ => inr "invalid source"
           | inr _ => match ValidateContainerMountPath target with
                      | Some _ => inr "invalid target"
                      | None => inl (source, target)
                      end
           end
  end.

Definition replace_char (a : ascii) : ascii :=
  if decide (a = slash) then "-"%char else if decide (a = " "%char) then "_"%char else a.

Fixpoint map_string (f : ascii → ascii) (s : string) : string :=
  match s with "" => "" | String a s => String (f a) (map_string f s) end.

Definition sanitizeConfigKey (key relPath : string) : string :=
  if decide (relPath = "") then key else key +:+ "-" +:+ map_string replace_char relPath.

Record configDirective := {
  cd_Service : string; cd_Name : string; cd_Source : string; cd_Target : string; cd_key : string }.

Record TrackedFile := { tf_Name : string; tf_SourcePath : string; tf_Target : string; tf_Checksum : string }.

Definition directive_key (service name : string) : string := service +:+ "__" +:+ name.

(** One annotation of one service, as met by the scan. *)
Definition parse_directive (c : string * (string * value)) : configDirective + string :=
  let '(serviceName, (k, v)) := c in
  let name := TrimPrefix k configAnnotationPrefix in
  match ValidateConfigName name with
  | Some _ => inr ("service " +:+ serviceName +:+ ": invalid config annotation name " +:+ name)
  | None =>
      match splitConfigMapping (default "" (as_str v)) with
      | inr err => inr ("service " +:+ serviceName +:+ ": " +:+ configAnnotationPrefix +:+ name +:+ ": " +:+ err)
      | inl (source, target) =>
          inl {| cd_Service := serviceName; cd_Name := name; cd_Source := source; cd_Target := target;
                 cd_key := directive_key serviceName name |}
      end
  end.

(** Parsing in order, the first error ending the scan. *)
Fixpoint parse_all (l : list (string * (string * value))) : list configDirective + string :=
  match l with
  | [] => inl []
  | c :: l =>
      match parse_directive c with
      | inr err => inr err
      | inl d => match parse_all l with inr err => inr err | inl ds => inl (d :: ds) end
      end
  end.

(** The annotations of a service, those under deploy winning. *)
Definition merged_annotations (svc : gmap string value) : gmap string value :=
  match get_map "deploy" svc with
  | Some deploy => NormalizeToMap (deploy !! "annotations") ∪ NormalizeToMap (svc !! "annotations")
  | None => NormalizeToMap (svc !! "annotations")
  end.

Section inject.
Context `{GoRange}.

Definition service_annotations (kv : string * value) : list (string * (string * value)) :=
  match kv.2 with
  | VMap svc => pair kv.1 <$> filter (λ a, HasPrefix a.1 configAnnotationPrefix = true) (go_range (merged_annotations svc))
  | _ => []
  end.

Definition collectConfigDirectives (services : gmap string value) : list configDirective + string :=
  parse_all (go_range services ≫= service_annotations).

Definition key_le (a b : configDirective) : Prop := strings.String.le (cd_key a) (cd_key b).

#[global] Instance key_le_dec a b : Decision (key_le a b) := _.

Definition sort_directives (l : list configDirective) : list configDirective := merge_sort key_le l.

(** The accumulators of the second loop. *)
Record inject_state := {
  topConfigs : gmap string value; i_services : gmap string value; tracked : list TrackedFile }.

(** One resolved file of a directive: its place in the container and its keys. *)
Definition mount_target (d : configDirective) (rf : ResolvedFile) : string :=
  if decide (RelPath rf = "") then cd_Target d else trim_right ["/"] (cd_Target d) +:+ "/" +:+ RelPath rf.

Definition mount_entry (d : configDirective) (rf : ResolvedFile) : value :=
  VMap {[ "source" := VStr (sanitizeConfigKey (cd_key d) (RelPath rf)); "target" := VStr (mount_target d rf) ]}.

Definition track (d : configDirective) (rf : ResolvedFile) : TrackedFile :=
  {| tf_Name := if decide (RelPath rf = "") then cd_key d else cd_key d +:+ "/" +:+ RelPath rf;
     tf_SourcePath := rf_SourcePath rf; tf_Target := mount_target d rf; tf_Checksum := rf_Checksum rf |}.

Definition inject_directive (resolved : list ResolvedFile) (s : inject_state) (d : configDirective) : inject_state :=
  let svc := match i_services s !! cd_Service d with Some (VMap m) => m | _ => ∅ end in
  let existing := default [] (get_list "configs" svc) in
  let files := filter (λ rf, rf_Name rf = cd_key d) resolved in
  {| topConfigs := foldl (λ m rf, <[sanitizeConfigKey (cd_key d) (RelPath rf) :=
                             VMap {[ "content" := VStr (Content rf) ]}]> m) (topConfigs s) files;
     i_services := <[cd_Service d := VMap (<["configs" := VList (existing ++ (mount_entry d <$> files))]> svc)]>
                     (i_services s);
     tracked := tracked s ++ (track d <$> files) |}.

(** [resolve] is [configfiles.Resolve] on the stack's work directory. *)
Definition injectConfigContent (resolve : list Source → list ResolvedFile + resolve_error)
    (configMap services : gmap string value)
    : (gmap string value * gmap string value * list TrackedFile) + string :=
  match collectConfigDirectives services with
  | inr err => inr err
  | inl [] => inl (configMap, services, [])
  | inl ds =>
      let directives := sort_directives ds in
      match resolve ((λ d, {| s_Name := cd_key d; s_Path := cd_Source d |}) <$> directives) with
      | inr _ => inr "config resolve error"
      | inl resolved =>
          let s := foldl (inject_directive resolved)
                     {| topConfigs := default ∅ (get_map "configs" configMap); i_services := services; tracked := [] |}
                     directives in
          inl (<["configs" := VMap (topConfigs s)]> configMap, i_services s, tracked s)
      end
  end.
End inject.

(** ** Order independence *)

(** The annotations of all services, free of any order. *)
Definition annotation_of (services : gmap string value) (c : string * (string * value)) : Prop :=
  ∃ svc, services !! c.1 = Some (VMap svc) ∧ merged_annotations svc !! c.2.1 = Some c.2.2
    ∧ HasPrefix c.2.1 configAnnotationPrefix = true.

Lemma service_annotations_perm (R1 R2 : GoRange) kv :
  @service_annotations R1 kv ≡ₚ @service_annotations R2 kv.
Proof.
  unfold service_annotations. destruct kv.2; try done. by rewrite !go_range_perm.
Qed.

Lemma scan_perm (R1 R2 : GoRange) services :
  @go_range R1 _ services ≫= @service_annotations R1 ≡ₚ @go_range R2 _ services ≫= @service_annotations R2.
Proof.
  transitivity (@go_range R1 _ services ≫= @service_annotations R2).
  - generalize (@go_range R1 _ services) as l. induction l as [|kv l IH]; [done|].
    rewrite !bind_cons. by rewrite (service_annotations_perm R1 R2 kv) IH.
  - apply bind_Permutation. by rewrite !go_range_perm.
Qed.

Lemma parse_all_spec l ds : parse_all l = inl ds ↔ Forall2 (λ c d, parse_directive c = inl d) l ds.
Proof.
  revert ds. induction l as [|c l IH]; intros ds; simpl.
  { split; [intros [= <-]; constructor|by intros ->%Forall2_nil_inv_l]. }
  destruct (parse_directive c) as [d|] eqn:Hd.
  - destruct (parse_all l) as [ds'|] eqn:Hl; split.
    + intros [= <-]. constructor; [done|]. by apply IH.
    + intros (d' & ds'' & ? & Hf & ->)%Forall2_cons_inv_l. apply IH in Hf. congruence.
    + done.
    + intros (d' & ds'' & ? & Hf & ->)%Forall2_cons_inv_l. apply IH in Hf. congruence.
  - split; [done|]. intros (d' & ds'' & ? & Hf & ->)%Forall2_cons_inv_l. congruence.
Qed.

Lemma collect_perm (R1 R2 : GoRange) services ds :
  @collectConfigDirectives R1 services = inl ds →
  ∃ ds', @collectConfigDirectives R2 services = inl ds' ∧ ds ≡ₚ ds'.
Proof.
  unfold collectConfigDirectives. rewrite parse_all_spec. intros Hf.
  destruct (Permutation_Forall2 (scan_perm R1 R2 services) Hf) as (ds' & Hp & Hf').
  exists ds'. by rewrite parse_all_spec.
Qed.

Lemma sort_directives_eq l k : NoDup (cd_key <$> l) → l ≡ₚ k → sort_directives l = sort_directives k.
Proof.
  intros Hnd Hp. unfold sort_directives.
  assert (Transitive key_le) by (intros x y z; unfold key_le; apply transitivity).
  assert (Total key_le) by (intros x y; unfold key_le; apply string_le_total).
  apply (Sorted_unique_strong key_le); [|apply Sorted_merge_sort, _..|by rewrite !merge_sort_Permutation].
  intros x y Hx Hy H1 H2. rewrite !merge_sort_Permutation in Hx, Hy. rewrite -Hp in Hy.
  assert (cd_key x = cd_key y) as He by (by apply (anti_symm strings.String.le)).
  apply list_elem_of_lookup in Hx as [i Hi], Hy as [j Hj].
  assert (i = j) as ->; [|congruence].
  eapply (NoDup_lookup (cd_key <$> l)); [done| |]; rewrite list_lookup_fmap; [by rewrite Hi|by rewrite Hj /= He].
Qed.

(** Embedding config files into a revision does not depend on map iteration
    order: as long as no two directives share a service__name key, the rendered
    document, the services and the tracked files are the same in every order, so
    the checksum of an unchanged stack does not flap. *)
Theorem config_injection_deterministic (R1 R2 : GoRange) resolve configMap services ds :
  @collectConfigDirectives R1 services = inl ds → NoDup (cd_key <$> ds) →
  @injectConfigContent R1 resolve configMap services = @injectConfigContent R2 resolve configMap services.
Proof.
  intros H1 Hnd. destruct (collect_perm R1 R2 services ds H1) as (ds' & H2 & Hp).
  unfold injectConfigContent. rewrite H1 H2.
  destruct ds as [|d ds]; [by apply Permutation_nil in Hp as ->|].
  destruct ds' as [|d' ds']; [by apply Permutation_sym, Permutation_nil in Hp|].
  by rewrite (sort_directives_eq _ _ Hnd Hp).
Qed.

(** A checkout whose conf.d holds the files a-b and a/b. *)
Definition clash_tree (p : string) : option node :=
  if decide (p = "/repo/conf.d")
  then Some (Directory [("a", Directory [("b", Regular 1 (Some "2"))]); ("a-b", Regular 1 (Some "1"))])
  else None.

Definition clash_services : gmap string value :=
  {[ "web" := VMap {[ "annotations" := VMap {[ "dev.wireops.config.d" := VStr "conf.d:/etc/conf.d" ]} ]} ]}.

(** The config key of a file is not unique per resolved file: for a directory
    holding a-b and a/b both files are resolved and mounted at their own targets,
    but the document carries one config, so one of the two contents is lost. *)
Theorem config_keys_collide :
  ∃ m services tr configs,
    @injectConfigContent some_range (Resolve (λ c, c) "/srv" clash_tree "/repo") ∅ clash_services = inl (m, services, tr)
    ∧ (tf_Target <$> tr) = ["/etc/conf.d/a/b"; "/etc/conf.d/a-b"]
    ∧ get_map "configs" m = Some configs ∧ size configs = 1.
Proof. eexists _, _, _, _. split; [vm_compute; reflexivity|]. split_and!; vm_compute; reflexivity. Qed.

(** A service with two config annotations. *)
Definition annotated : gmap string value :=
  {[ "web" := VMap {[ "annotations" :=
       VMap {[ "dev.wireops.config.app" := VStr "app.conf:/etc/app.conf";
               "dev.wireops.config.d" := VStr "conf.d:/etc/conf.d" ]} ]} ]}.

Definition reverse_range : GoRange :=
  {| go_range := λ A m, reverse (map_to_list m); go_range_perm := λ A m, reverse_Permutation _ |}.

Lemma config_injection_deterministic_witness :
  @injectConfigContent some_range (Resolve (λ c, c) "/srv" sample_tree "/repo") ∅ annotated
  = @injectConfigContent reverse_range (Resolve (λ c, c) "/srv" sample_tree "/repo") ∅ annotated.
Proof.
  eapply (config_injection_deterministic some_range reverse_range); [vm_compute; reflexivity|].
  apply (bool_decide_unpack _). vm_compute. reflexivity.
Defined.
