(* ===== verification/DepGraph.v ===== *)
(** * internal/depgraph: the dependency graph of a stack

    Services, networks and volumes of a rendered compose document as nodes,
    [depends_on], network and volume relations as edges. *)
From S2P Require Import Prelude GoStrings GoPath GoFmt GoValue Policy PolicyCompose.
From S2P Require Import ComposeDoc ConfigInject LintCore LintRules LintSpec.

Definition KindService := "service".
Definition KindNetwork := "network".
Definition KindVolume := "volume".
Definition EdgeDependsOn := "depends_on".
Definition EdgeNetwork := "network".
Definition EdgeVolume := "volume".

Record Node := { ID : string; Kind : string; Image : string; Slug : string; Status : string; Health : string;
                 External : bool }.

Record Edge := { Source : string; Target : string; Type_ : string; Label : string }.

Record Graph := { Nodes : list Node; Edges : list Edge }.

Definition ServiceNodeID (name : string) : string := "service:" +:+ name.
Definition NetworkNodeID (name : string) : string := "network:" +:+ name.
Definition VolumeNodeID (name : string) : string := "volume:" +:+ name.

Definition resource_node (kind id : string) (external : bool) : Node :=
  {| ID := id; Kind := kind; Image := ""; Slug := ""; Status := ""; Health := ""; External := external |}.

(** [sortedKeys] of a value that may not be a map. *)
Definition sortedKeys (v : option value) : list string :=
  match v with Some (VMap m) => sorted_keys m | _ => [] end.

Definition slug_label (meta : gmap string value) : option string :=
  match get_str "customization.image.slug" meta with
  | Some val => if decide (val = "") then None else Some val
  | None => None
  end.

Definition customImageSlug (svc : gmap string value) : string :=
  match slug_label (NormalizeToMap (svc !! "labels")), slug_label (NormalizeToMap (svc !! "annotations")) with
  | Some slug, _ => slug
  | None, Some slug => slug
  | None, None =>
      match get_map "deploy" svc with
      | None => ""
      | Some deploy =>
          match slug_label (NormalizeToMap (deploy !! "labels")) with
          | Some slug => slug
          | None => default "" (slug_label (NormalizeToMap (deploy !! "annotations")))
          end
      end
  end.

Definition isExternal (def : option value) : bool :=
  match def with
  | Some (VMap m) => match m !! "external" with
                     | Some (VBool b) => b
                     | Some (VMap _) => true
                     | _ => false
                     end
  | _ => false
  end.

(** The name and the condition of a dependency. *)
Definition dependency := (string * string)%type.

Definition dependsOn (v : option value) : list dependency :=
  match v with
  | Some (VList val) => (λ name, (name, "")) <$> nonempty_strings val
  | Some (VMap val) =>
      (λ name, (name, default "" (get_map name val ≫= get_str "condition"))) <$> sorted_keys val
  | _ => []
  end.

Definition graphNetworks (v : option value) : list string :=
  match v with
  | Some (VMap nets) => sorted_keys nets
  | Some (VList nets) => nonempty_strings nets
  | _ => []
  end.

Definition isBindSource (src : string) : bool :=
  HasPrefix src "/" || HasPrefix src "./" || HasPrefix src "../" || HasPrefix src "~".

(** The named volume of one entry of [volumes]. *)
Definition named_source (raw : value) : option string :=
  match raw with
  | VStr m =>
      let spec := Trim (TrimSpace m) [dquote; squote] in
      match Split colon spec with
      | p0 :: _ :: _ =>
          let source := TrimSpace p0 in
          if bool_decide (source = "") || isBindSource source then None else Some source
      | _ => None
      end
  | VMap m =>
      if decide (get_str "type" m ≠ Some "volume") then None
      else
        let source := default "" (get_str "source" m) in
        if bool_decide (source = "") || isBindSource source then None else Some source
  | _ => None
  end.

Definition namedVolumes (v : option value) : list string :=
  match v with
  | Some (VList list) => sort_strings (elements (list_to_set (C := gset string) (omap named_source list)))
  | _ => []
  end.

(** ** Building *)
Record building := { b_graph : Graph; networkNodes : gset string; volumeNodes : gset string }.

Definition add_node (n : Node) (g : Graph) : Graph := {| Nodes := Nodes g ++ [n]; Edges := Edges g |}.
Definition add_edge (e : Edge) (g : Graph) : Graph := {| Nodes := Nodes g; Edges := Edges g ++ [e] |}.

Definition declare_network (nets : gmap string value) (b : building) (name : string) : building :=
  {| b_graph := add_node (resource_node KindNetwork (NetworkNodeID name) (isExternal (nets !! name))) (b_graph b);
     networkNodes := {[name]} ∪ networkNodes b; volumeNodes := volumeNodes b |}.

Definition declare_volume (vols : gmap string value) (b : building) (name : string) : building :=
  {| b_graph := add_node (resource_node KindVolume (VolumeNodeID name) (isExternal (vols !! name))) (b_graph b);
     networkNodes := networkNodes b; volumeNodes := {[name]} ∪ volumeNodes b |}.

Definition join_network (svc : string) (b : building) (net : string) : building :=
  let b := if decide (net ∈ networkNodes b) then b
           else {| b_graph := add_node (resource_node KindNetwork (NetworkNodeID net) false) (b_graph b);
                   networkNodes := {[net]} ∪ networkNodes b; volumeNodes := volumeNodes b |} in
  {| b_graph := add_edge {| Source := ServiceNodeID svc; Target := NetworkNodeID net; Type_ := EdgeNetwork; Label := "" |}
                  (b_graph b);
     networkNodes := networkNodes b; volumeNodes := volumeNodes b |}.

Definition mount_volume (svc : string) (b : building) (vol : string) : building :=
  let b := if decide (vol ∈ volumeNodes b) then b
           else {| b_graph := add_node (resource_node KindVolume (VolumeNodeID vol) false) (b_graph b);
                   networkNodes := networkNodes b; volumeNodes := {[vol]} ∪ volumeNodes b |} in
  {| b_graph := add_edge {| Source := ServiceNodeID svc; Target := VolumeNodeID vol; Type_ := EdgeVolume; Label := "" |}
                  (b_graph b);
     networkNodes := networkNodes b; volumeNodes := volumeNodes b |}.

Definition depend (svc : string) (b : building) (d : dependency) : building :=
  {| b_graph := add_edge {| Source := ServiceNodeID svc; Target := ServiceNodeID d.1; Type_ := EdgeDependsOn; Label := d.2 |}
                  (b_graph b);
     networkNodes := networkNodes b; volumeNodes := volumeNodes b |}.

Definition add_service (services : gmap string value) (b : building) (name : string) : building :=
  match get_map name services with
  | None => b
  | Some svc =>
      let b := {| b_graph := add_node {| ID := ServiceNodeID name; Kind := KindService; Image := default "" (get_str "image" svc);
                                         Slug := customImageSlug svc; Status := ""; Health := ""; External := false |} (b_graph b);
                  networkNodes := networkNodes b; volumeNodes := volumeNodes b |} in
      let b := foldl (depend name) b (dependsOn (svc !! "depends_on")) in
      let b := foldl (join_network name) b (graphNetworks (svc !! "networks")) in
      foldl (mount_volume name) b (namedVolumes (svc !! "volumes"))
  end.

Definition map_or_empty (k : string) (raw : gmap string value) : gmap string value := default ∅ (get_map k raw).

(** [raw] is the decoded document, [None] when it is not YAML of a map. *)
Definition BuildFromCompose (raw : option (gmap string value)) : option Graph :=
  match raw with
  | None => None
  | Some raw =>
      let b := {| b_graph := {| Nodes := []; Edges := [] |}; networkNodes := ∅; volumeNodes := ∅ |} in
      let b := foldl (declare_network (map_or_empty "networks" raw)) b (sortedKeys (raw !! "networks")) in
      let b := foldl (declare_volume (map_or_empty "volumes" raw)) b (sortedKeys (raw !! "volumes")) in
      let services := map_or_empty "services" raw in
      Some (b_graph (foldl (add_service services) b (sorted_keys services)))
  end.

(** ** Specification *)
Definition ids (g : Graph) : list string := ID <$> Nodes g.

Definition service_edges (name : string) (svc : gmap string value) : list Edge :=
  ((λ d : dependency, {| Source := ServiceNodeID name; Target := ServiceNodeID d.1; Type_ := EdgeDependsOn; Label := d.2 |})
     <$> dependsOn (svc !! "depends_on")) ++
  ((λ n, {| Source := ServiceNodeID name; Target := NetworkNodeID n; Type_ := EdgeNetwork; Label := "" |})
     <$> graphNetworks (svc !! "networks")) ++
  ((λ v, {| Source := ServiceNodeID name; Target := VolumeNodeID v; Type_ := EdgeVolume; Label := "" |})
     <$> namedVolumes (svc !! "volumes")).

(** ** Identifiers of different kinds differ *)
Lemma node_ids_disjoint a b : ServiceNodeID a ≠ NetworkNodeID b ∧ ServiceNodeID a ≠ VolumeNodeID b
  ∧ NetworkNodeID a ≠ VolumeNodeID b.
Proof. unfold ServiceNodeID, NetworkNodeID, VolumeNodeID. split_and!; done. Qed.

#[local] Instance ServiceNodeID_inj : Inj (=) (=) ServiceNodeID.
Proof. intros a b. apply sapp_inv_head. Qed.
#[local] Instance NetworkNodeID_inj : Inj (=) (=) NetworkNodeID.
Proof. intros a b. apply sapp_inv_head. Qed.
#[local] Instance VolumeNodeID_inj : Inj (=) (=) VolumeNodeID.
Proof. intros a b. apply sapp_inv_head. Qed.

(** ** The invariant of building; [done] are the services added so far *)
Record inv (done : list string) (b : building) : Prop := {
  i_nodup : NoDup (ids (b_graph b));
  i_net : ∀ n, NetworkNodeID n ∈ ids (b_graph b) ↔ n ∈ networkNodes b;
  i_vol : ∀ v, VolumeNodeID v ∈ ids (b_graph b) ↔ v ∈ volumeNodes b;
  i_svc : ∀ s, ServiceNodeID s ∈ ids (b_graph b) ↔ s ∈ done;
  i_src : ∀ e, e ∈ Edges (b_graph b) → Source e ∈ ids (b_graph b);
  i_tgt : ∀ e, e ∈ Edges (b_graph b) → Type_ e = EdgeDependsOn ∨ Target e ∈ ids (b_graph b)
}.

Lemma ids_add_node n g : ids (add_node n g) = ids g ++ [ID n].
Proof. unfold ids. simpl. by rewrite fmap_app. Qed.

Lemma inv_add_node done done' b n nets vols : inv done b → ID n ∉ ids (b_graph b) →
  (∀ x, ID n = NetworkNodeID x ∨ x ∈ networkNodes b ↔ x ∈ nets) →
  (∀ x, ID n = VolumeNodeID x ∨ x ∈ volumeNodes b ↔ x ∈ vols) →
  (∀ x, ID n = ServiceNodeID x ∨ x ∈ done ↔ x ∈ done') →
  inv done' {| b_graph := add_node n (b_graph b); networkNodes := nets; volumeNodes := vols |}.
Proof.
  intros [H1 H2 H3 H4 H5 H6] Hn Hnet Hvol Hsvc.
  assert (∀ x, x ∈ ids (add_node n (b_graph b)) ↔ x = ID n ∨ x ∈ ids (b_graph b)) as Hin
    by (intros x; rewrite ids_add_node elem_of_app list_elem_of_singleton; tauto).
  split; cbn [b_graph networkNodes volumeNodes add_node Edges].
  - rewrite ids_add_node. apply NoDup_app. split; [done|]. split; [|apply NoDup_singleton].
    intros x Hx ->%list_elem_of_singleton. done.
  - intros x. rewrite Hin H2 -Hnet. naive_solver.
  - intros x. rewrite Hin H3 -Hvol. naive_solver.
  - intros x. rewrite Hin H4 -Hsvc. naive_solver.
  - intros e He. apply Hin. auto.
  - intros e He. rewrite Hin. destruct (H6 e He); auto.
Qed.

Lemma inv_add_edge done b e : inv done b → Source e ∈ ids (b_graph b) →
  Type_ e = EdgeDependsOn ∨ Target e ∈ ids (b_graph b) →
  inv done {| b_graph := add_edge e (b_graph b); networkNodes := networkNodes b; volumeNodes := volumeNodes b |}.
Proof.
  intros [H1 H2 H3 H4 H5 H6] Hs Ht. split; try done; cbn [b_graph add_edge Edges].
  - intros e'. rewrite elem_of_app list_elem_of_singleton. intros [?| ->]; [by apply H5|done].
  - intros e'. rewrite elem_of_app list_elem_of_singleton. intros [?| ->]; [by apply H6|done].
Qed.

Lemma inv_declare_network done nets b name : inv done b → name ∉ networkNodes b → inv done (declare_network nets b name).
Proof.
  intros Hi Hn. apply (inv_add_node done done _ _ _ _ Hi); cbn [ID resource_node].
  - by rewrite (i_net _ _ Hi).
  - intros x. rewrite elem_of_union elem_of_singleton (inj_iff NetworkNodeID). naive_solver.
  - intros x. pose proof (node_ids_disjoint x name). pose proof (node_ids_disjoint name x). naive_solver.
  - intros x. pose proof (node_ids_disjoint x name). naive_solver.
Qed.

Lemma inv_declare_volume done vols b name : inv done b → name ∉ volumeNodes b → inv done (declare_volume vols b name).
Proof.
  intros Hi Hn. apply (inv_add_node done done _ _ _ _ Hi); cbn [ID resource_node].
  - by rewrite (i_vol _ _ Hi).
  - intros x. pose proof (node_ids_disjoint x name). naive_solver.
  - intros x. rewrite elem_of_union elem_of_singleton (inj_iff VolumeNodeID). naive_solver.
  - intros x. pose proof (node_ids_disjoint x name). naive_solver.
Qed.

Lemma inv_join_network done svc b net : inv done b → svc ∈ done → inv done (join_network svc b net).
Proof.
  intros Hi Hs. unfold join_network. cbv zeta. case_decide as Hn.
  - apply inv_add_edge; [done|by apply (i_svc _ _ Hi)|right; by apply (i_net _ _ Hi)].
  - pose proof (inv_declare_network done ∅ b net Hi Hn) as Hi'.
    apply (inv_add_edge done _ _ Hi'); [by apply (i_svc _ _ Hi')|].
    right. apply (i_net _ _ Hi'). cbn. set_solver.
Qed.

Lemma inv_mount_volume done svc b vol : inv done b → svc ∈ done → inv done (mount_volume svc b vol).
Proof.
  intros Hi Hs. unfold mount_volume. cbv zeta. case_decide as Hn.
  - apply inv_add_edge; [done|by apply (i_svc _ _ Hi)|right; by apply (i_vol _ _ Hi)].
  - pose proof (inv_declare_volume done ∅ b vol Hi Hn) as Hi'.
    apply (inv_add_edge done _ _ Hi'); [by apply (i_svc _ _ Hi')|].
    right. apply (i_vol _ _ Hi'). cbn. set_solver.
Qed.

Lemma inv_depend done svc b d : inv done b → svc ∈ done → inv done (depend svc b d).
Proof. intros Hi Hs. apply (inv_add_edge done _ _ Hi); [by apply (i_svc _ _ Hi)|by left]. Qed.

(** A loop keeps what its body keeps. *)
Lemma foldl_keeps {A B} (P : B → Prop) (f : B → A → B) l b : (∀ b x, P b → P (f b x)) → P b → P (foldl f b l).
Proof. intros Hf. revert b. induction l as [|x l IH]; intros b Hb; simpl; [done|]. auto. Qed.

Lemma inv_add_service services done b name svc : inv done b → name ∉ done → get_map name services = Some svc →
  inv (name :: done) (add_service services b name).
Proof.
  intros Hi Hn Hs. unfold add_service. rewrite Hs. cbv zeta.
  apply foldl_keeps; [intros; apply inv_mount_volume; [done|by left]|].
  apply foldl_keeps; [intros; apply inv_join_network; [done|by left]|].
  apply foldl_keeps; [intros; apply inv_depend; [done|by left]|].
  apply (inv_add_node done _ _ _ _ _ Hi); cbn [ID].
  - by rewrite (i_svc _ _ Hi).
  - intros x. pose proof (node_ids_disjoint name x). naive_solver.
  - intros x. pose proof (node_ids_disjoint name x). naive_solver.
  - intros x. rewrite elem_of_cons (inj_iff ServiceNodeID). naive_solver.
Qed.

Lemma inv_declared_networks done nets l b : NoDup l → (∀ n, n ∈ l → n ∉ networkNodes b) → inv done b →
  let b' := foldl (declare_network nets) b l in
  inv done b' ∧ (∀ n, n ∈ networkNodes b' ↔ n ∈ l ∨ n ∈ networkNodes b) ∧ volumeNodes b' = volumeNodes b
  ∧ Edges (b_graph b') = Edges (b_graph b).
Proof.
  cbv zeta. revert b. induction l as [|x l IH]; intros b Hnd Hl Hi; [cbn [foldl]; set_solver|].
  apply NoDup_cons in Hnd as [Hx Hnd]. cbn [foldl].
  destruct (IH (declare_network nets b x) Hnd) as (H1 & H2 & H3 & H4); cbn [declare_network networkNodes] in *.
  - intros n Hn. specialize (Hl n). set_solver.
  - apply inv_declare_network; [done|]. apply Hl. by left.
  - split_and!; [done| |done|done]. intros n. rewrite H2. set_solver.
Qed.

Lemma inv_declared_volumes done vols l b : NoDup l → (∀ v, v ∈ l → v ∉ volumeNodes b) → inv done b →
  let b' := foldl (declare_volume vols) b l in
  inv done b' ∧ (∀ v, v ∈ volumeNodes b' ↔ v ∈ l ∨ v ∈ volumeNodes b) ∧ networkNodes b' = networkNodes b
  ∧ Edges (b_graph b') = Edges (b_graph b).
Proof.
  cbv zeta. revert b. induction l as [|x l IH]; intros b Hnd Hl Hi; [cbn [foldl]; set_solver|].
  apply NoDup_cons in Hnd as [Hx Hnd]. cbn [foldl].
  destruct (IH (declare_volume vols b x) Hnd) as (H1 & H2 & H3 & H4); cbn [declare_volume volumeNodes] in *.
  - intros v Hv. specialize (Hl v). set_solver.
  - apply inv_declare_volume; [done|]. apply Hl. by left.
  - split_and!; [done| |done|done]. intros v. rewrite H2. set_solver.
Qed.

(** What the loops over a service's relations add. *)
Lemma depend_fold name l b : foldl (depend name) b l =
  {| b_graph := {| Nodes := Nodes (b_graph b);
                   Edges := Edges (b_graph b) ++ ((λ d : dependency, {| Source := ServiceNodeID name;
                     Target := ServiceNodeID d.1; Type_ := EdgeDependsOn; Label := d.2 |}) <$> l) |};
     networkNodes := networkNodes b; volumeNodes := volumeNodes b |}.
Proof.
  revert b. induction l as [|d l IH]; intros [[ns es] nets vols]; cbn [foldl fmap list_fmap]; [by rewrite app_nil_r|].
  rewrite IH. cbn. by rewrite -app_assoc.
Qed.

Lemma join_fold name l b : let b' := foldl (join_network name) b l in
  Edges (b_graph b') = Edges (b_graph b) ++ ((λ n, {| Source := ServiceNodeID name; Target := NetworkNodeID n;
    Type_ := EdgeNetwork; Label := "" |}) <$> l)
  ∧ (∀ n, n ∈ networkNodes b' ↔ n ∈ networkNodes b ∨ n ∈ l) ∧ volumeNodes b' = volumeNodes b.
Proof.
  cbv zeta. revert b. induction l as [|n l IH]; intros b; cbn [foldl fmap list_fmap]; [rewrite app_nil_r; set_solver|].
  destruct (IH (join_network name b n)) as (-> & H2 & ->). unfold join_network in *. cbv zeta in *.
  case_decide; cbn in *; (split_and!; [by rewrite -app_assoc| |done]); intros m; rewrite H2; set_solver.
Qed.

Lemma mount_fold name l b : let b' := foldl (mount_volume name) b l in
  Edges (b_graph b') = Edges (b_graph b) ++ ((λ v, {| Source := ServiceNodeID name; Target := VolumeNodeID v;
    Type_ := EdgeVolume; Label := "" |}) <$> l)
  ∧ (∀ v, v ∈ volumeNodes b' ↔ v ∈ volumeNodes b ∨ v ∈ l) ∧ networkNodes b' = networkNodes b.
Proof.
  cbv zeta. revert b. induction l as [|n l IH]; intros b; cbn [foldl fmap list_fmap]; [rewrite app_nil_r; set_solver|].
  destruct (IH (mount_volume name b n)) as (-> & H2 & ->). unfold mount_volume in *. cbv zeta in *.
  case_decide; cbn in *; (split_and!; [by rewrite -app_assoc| |done]); intros m; rewrite H2; set_solver.
Qed.

Lemma add_service_fold services b name svc : get_map name services = Some svc →
  let b' := add_service services b name in
  Edges (b_graph b') = Edges (b_graph b) ++ service_edges name svc
  ∧ (∀ n, n ∈ networkNodes b' ↔ n ∈ networkNodes b ∨ n ∈ graphNetworks (svc !! "networks"))
  ∧ (∀ v, v ∈ volumeNodes b' ↔ v ∈ volumeNodes b ∨ v ∈ namedVolumes (svc !! "volumes")).
Proof.
  intros Hs. cbv zeta. unfold add_service. rewrite Hs. cbv zeta.
  set (b1 := foldl (join_network name) _ _). destruct (mount_fold name (namedVolumes (svc !! "volumes")) b1) as (-> & Hv & ->).
  setoid_rewrite Hv. subst b1.
  match goal with |- context [foldl (join_network name) ?b ?l] => destruct (join_fold name l b) as (-> & Hn & ->) end.
  setoid_rewrite Hn. rewrite !depend_fold. cbn. unfold service_edges. by rewrite -!app_assoc.
Qed.

Lemma services_fold services l b done : NoDup l → (∀ s, s ∈ l → s ∉ done) → inv done b →
  let b' := foldl (add_service services) b l in
  ∃ done', inv done' b' ∧ (∀ s, s ∈ done' ↔ s ∈ done ∨ s ∈ l ∧ is_Some (get_map s services))
  ∧ Edges (b_graph b') = Edges (b_graph b) ++ (omap (λ name, pair name <$> get_map name services) l ≫= λ s, service_edges s.1 s.2)
  ∧ (∀ n, n ∈ networkNodes b' ↔ n ∈ networkNodes b ∨
      ∃ s svc, s ∈ l ∧ get_map s services = Some svc ∧ n ∈ graphNetworks (svc !! "networks"))
  ∧ (∀ v, v ∈ volumeNodes b' ↔ v ∈ volumeNodes b ∨
      ∃ s svc, s ∈ l ∧ get_map s services = Some svc ∧ v ∈ namedVolumes (svc !! "volumes")).
Proof.
  cbv zeta. revert b done. induction l as [|x l IH]; intros b done Hnd Hl Hi.
  { exists done. cbn. rewrite app_nil_r. set_solver. }
  apply NoDup_cons in Hnd as [Hx Hnd]. cbn [foldl omap list_omap]. destruct (get_map x services) as [svc|] eqn:Hs.
  - destruct (add_service_fold services b x svc Hs) as (He & Hn & Hv).
    destruct (IH (add_service services b x) (x :: done) Hnd) as (done' & H1 & H2 & H3 & H4 & H5);
      [set_solver|apply inv_add_service with svc; [done|apply Hl; by left|done]|].
    exists done'. split; [done|]. split; [|split; [|split]].
    + intros s. rewrite H2 !elem_of_cons. split; [|naive_solver]. intros [[-> |?]|[? ?]]; [|tauto|tauto]. right. rewrite Hs. eauto.
    + rewrite H3 He. cbn [fmap option_fmap option_map mbind list_bind fst snd]. by rewrite app_assoc.
    + intros n. rewrite H4 Hn. setoid_rewrite elem_of_cons. split; [naive_solver|].
      intros [?|(s & sv & [->|?] & Hg & ?)]; [tauto| |naive_solver]. simplify_eq. tauto.
    + intros n. rewrite H5 Hv. setoid_rewrite elem_of_cons. split; [naive_solver|].
      intros [?|(s & sv & [->|?] & Hg & ?)]; [tauto| |naive_solver]. simplify_eq. tauto.
  - assert (add_service services b x = b) as -> by (unfold add_service; by rewrite Hs).
    destruct (IH b done Hnd) as (done' & H1 & H2 & H3 & H4 & H5); [set_solver|done|].
    exists done'. split; [done|]. split; [|split; [by rewrite H3|split]].
    + intros s. rewrite H2 elem_of_cons. split; [naive_solver|]. intros [?|[[->|?] Hsome]]; [tauto| |tauto].
      rewrite Hs in Hsome. by destruct Hsome.
    + intros n. rewrite H4. setoid_rewrite elem_of_cons. split; [naive_solver|].
      intros [?|(s & sv & [->|?] & Hg & ?)]; [tauto|congruence|naive_solver].
    + intros n. rewrite H5. setoid_rewrite elem_of_cons. split; [naive_solver|].
      intros [?|(s & sv & [->|?] & Hg & ?)]; [tauto|congruence|naive_solver].
Qed.

Lemma sortedKeys_declares raw block n : n ∈ sortedKeys (raw !! block) ↔ declares raw block n.
Proof.
  unfold sortedKeys, declares. destruct (raw !! block) as [[]|]; try (split; [set_solver|naive_solver]).
  rewrite elem_of_sorted_keys. naive_solver.
Qed.

Lemma NoDup_sortedKeys v : NoDup (sortedKeys v).
Proof. unfold sortedKeys. destruct v as [[]|]; try constructor. apply NoDup_sorted_keys. Qed.

Lemma has_service_map raw s svc : has_service raw s svc ↔ get_map s (map_or_empty "services" raw) = Some svc.
Proof.
  unfold has_service, map_or_empty. destruct (get_map "services" raw) as [m|]; cbn; [naive_solver|].
  split; [naive_solver|]. unfold get_map. by rewrite lookup_empty.
Qed.

Lemma get_map_key s (m svc : gmap string value) : get_map s m = Some svc → s ∈ sorted_keys m.
Proof. intros H%get_map_Some. apply elem_of_sorted_keys. eauto. Qed.

Lemma graph_facts raw : ∃ g, BuildFromCompose (Some raw) = Some g
  ∧ NoDup (ids g)
  ∧ (∀ s, ServiceNodeID s ∈ ids g ↔ ∃ svc, has_service raw s svc)
  ∧ (∀ n, NetworkNodeID n ∈ ids g ↔ declares raw "networks" n ∨
      ∃ s svc, has_service raw s svc ∧ n ∈ graphNetworks (svc !! "networks"))
  ∧ (∀ v, VolumeNodeID v ∈ ids g ↔ declares raw "volumes" v ∨
      ∃ s svc, has_service raw s svc ∧ v ∈ namedVolumes (svc !! "volumes"))
  ∧ Edges g = (sorted_services raw ≫= λ s, service_edges s.1 s.2)
  ∧ (∀ e, e ∈ Edges g → Source e ∈ ids g ∧ (Type_ e = EdgeDependsOn ∨ Target e ∈ ids g)).
Proof.
  eexists. split; [reflexivity|].
  set (b0 := {| b_graph := {| Nodes := []; Edges := [] |}; networkNodes := ∅; volumeNodes := ∅ |}).
  assert (inv [] b0) as Hi0 by (split; try done; [constructor|set_solver..]).
  destruct (inv_declared_networks [] (map_or_empty "networks" raw) (sortedKeys (raw !! "networks")) b0
    (NoDup_sortedKeys _) ltac:(set_solver) Hi0) as (Hi1 & Hn1 & Hv1 & He1).
  set (b1 := foldl _ b0 _) in *.
  assert (∀ v, v ∈ sortedKeys (raw !! "volumes") → v ∉ volumeNodes b1) as Hfresh by (rewrite Hv1; set_solver).
  destruct (inv_declared_volumes [] (map_or_empty "volumes" raw) (sortedKeys (raw !! "volumes")) b1
    (NoDup_sortedKeys _) Hfresh Hi1) as (Hi2 & Hv2 & Hn2 & He2).
  set (b2 := foldl _ b1 _) in *.
  destruct (services_fold (map_or_empty "services" raw) (sorted_keys (map_or_empty "services" raw)) b2 []
    (NoDup_sorted_keys _) ltac:(set_solver) Hi2) as (done & [H1 H2 H3 H4 H5 H6] & Hd & He & Hn & Hv).
  set (b3 := foldl _ b2 _) in *. split_and!.
  - done.
  - intros s. rewrite H4 Hd elem_of_nil. setoid_rewrite has_service_map. split; [intros [[]|[_ [svc ?]]]; eauto|].
    intros [svc Hs]. right. split; [by eapply get_map_key|eauto].
  - intros n. rewrite H2 Hn Hn2 Hn1 sortedKeys_declares. setoid_rewrite has_service_map. cbn. split; [set_solver|].
    intros [?|(s & svc & Hs & ?)]; [tauto|]. right. exists s, svc. split; [by eapply get_map_key|done].
  - intros v. rewrite H3 Hv Hv2 Hv1 sortedKeys_declares. setoid_rewrite has_service_map. cbn. split; [set_solver|].
    intros [?|(s & svc & Hs & ?)]; [tauto|]. right. exists s, svc. split; [by eapply get_map_key|done].
  - rewrite He He2 He1. cbn [Edges b_graph b0 app]. unfold sorted_services, map_or_empty.
    by destruct (get_map "services" raw).
  - intros e Hin. split; [by apply H5|by apply H6].
Qed.

(** The dependency graph of a document has one node per service, per network and
    per volume that is declared or used, no identifier twice, and for each service,
    in name order, exactly the edges of its relations; every edge starts at a node
    and every network and volume edge ends at one; a dependency edge ends at a node
    exactly when the service it names is defined. *)
Theorem dependency_graph_exact (raw : gmap string value) (g : Graph) :
  BuildFromCompose (Some raw) = Some g →
  NoDup (ids g)
  ∧ (∀ s, ServiceNodeID s ∈ ids g ↔ ∃ svc, has_service raw s svc)
  ∧ (∀ n, NetworkNodeID n ∈ ids g ↔ declares raw "networks" n ∨
      ∃ s svc, has_service raw s svc ∧ n ∈ graphNetworks (svc !! "networks"))
  ∧ (∀ v, VolumeNodeID v ∈ ids g ↔ declares raw "volumes" v ∨
      ∃ s svc, has_service raw s svc ∧ v ∈ namedVolumes (svc !! "volumes"))
  ∧ Edges g = (sorted_services raw ≫= λ s, service_edges s.1 s.2)
  ∧ (∀ e, e ∈ Edges g → Source e ∈ ids g ∧ (Type_ e = EdgeDependsOn ∨ Target e ∈ ids g)).
Proof. intros Hb. destruct (graph_facts raw) as (g' & Hg & Hspec). by simplify_eq. Qed.

(** ** Agreement with the lint *)
Lemma named_source_mount raw x : named_source raw = Some x →
  ∃ m, value_mount raw = Some m ∧ m_isBind m = false ∧ m_source m = x ∧ x ≠ "".
Proof.
  unfold named_source, value_mount. destruct raw as [| | |s| |m]; try done; intros Hx.
  - eexists. split; [done|]. unfold string_mount. cbv zeta in Hx |- *.
    destruct (Split colon _) as [|p0 [|p1 rest]]; try done. destruct (_ || _) eqn:Hb; [done|]. bool_props. simplify_eq.
    by split_and!.
  - eexists. split; [done|]. case_decide as Ht; [done|]. cbv zeta in Hx.
    destruct (_ || _) eqn:Hb; [done|]. bool_props. simplify_eq. unfold map_mount. cbn.
    rewrite Ht. by split_and!.
Qed.

Lemma namedVolumes_mounts svc x : x ∈ namedVolumes (svc !! "volumes") → mounts_volume svc x.
Proof.
  unfold namedVolumes, mounts_volume, serviceMounts, get_list. destruct (svc !! "volumes") as [[]|]; try set_solver.
  rewrite elem_of_sort_strings elem_of_elements elem_of_list_to_set list_elem_of_omap.
  intros (raw & Hin & (m & Hm & Hb & Hs & Hne)%named_source_mount). exists m. split; [|done].
  cbn. apply list_elem_of_omap. eauto.
Qed.

Lemma graphNetworks_joins svc n : n ∈ graphNetworks (svc !! "networks") ↔ service_joins svc n.
Proof. apply elem_of_serviceNetworks. Qed.

(** The graph of a document the lint passes shows only declared resources: every
    volume node is a declared volume and every network node a declared network or
    the default one, so a node that the graph adds on its own is the default
    network. *)
Theorem graph_of_deployable (raw : gmap string value) (g : Graph) :
  deployable raw → BuildFromCompose (Some raw) = Some g →
  (∀ v, VolumeNodeID v ∈ ids g ↔ declares raw "volumes" v)
  ∧ (∀ n, NetworkNodeID n ∈ ids g → n = "default" ∨ declares raw "networks" n).
Proof.
  intros Hd Hb. destruct (graph_facts raw) as (g' & Hg & _ & _ & Hn & Hv & _). simplify_eq. split.
  - intros v. rewrite Hv. split; [|by left]. intros [?|(s & svc & Hs & Hm%namedVolumes_mounts)]; [done|].
    by eapply (dp_volumes _ Hd).
  - intros n. rewrite Hn. intros [?|(s & svc & Hs & Hj%graphNetworks_joins)]; [by right|].
    by eapply (dp_networks _ Hd).
Qed.

Definition graph_demo : gmap string value :=
  {["services" := VMap {["web" := VMap {["image" := VStr "nginx:1.27"; "depends_on" := VList [VStr "db"; VStr "gone"];
                                         "networks" := VList [VStr "default"]; "volumes" := VList [VStr "data:/d"; VStr "./x:/x"]]};
                         "db" := VMap {["image" := VStr "postgres:17"]}]};
    "volumes" := VMap {["data" := VNull]}]}.

Definition graph_of (raw : gmap string value) : Graph :=
  default {| Nodes := []; Edges := [] |} (BuildFromCompose (Some raw)).

Lemma dependency_graph_exact_witness :
  NoDup (ids (graph_of graph_demo)) ∧ ServiceNodeID "gone" ∉ ids (graph_of graph_demo)
  ∧ ids (graph_of graph_demo) = ["volume:data"; "service:db"; "service:web"; "network:default"].
Proof.
  destruct (dependency_graph_exact graph_demo (graph_of graph_demo) eq_refl) as (H1 & _).
  split; [exact H1|]. split; [|vm_compute; reflexivity].
  apply (bool_decide_unpack _). vm_compute. exact I.
Defined.

Lemma graph_of_deployable_witness :
  VolumeNodeID "data" ∈ ids (graph_of graph_demo) ↔ declares graph_demo "volumes" "data".
Proof.
  refine (proj1 (graph_of_deployable graph_demo (graph_of graph_demo) _ eq_refl) "data").
  apply (lint_clean_iff (H := λ _, true) graph_demo {| ctx_Policy := None; ctx_EnvKeys := None; ctx_RepoRoot := "" |}).
  vm_compute. reflexivity.
Defined.
