(* ===== verification/Renderer.v ===== *)
(** * internal/sync/renderer.go: rendering and storing a revision

    [GenerateRevision] turns the resolved compose document of a stack into the
    next stored revision: project name, config files, overrides, policy and lint
    gates, ownership labels, checksum, version, file and database row.

    What lies outside is an argument: the document [docker compose config] gave
    ([rq_config]), the worker's policy and the stacks table as the database
    returned them, YAML, SHA-256 and HMAC, and whether each
    storage step succeeds.  The stored files and revision rows are the [world]. *)
From Stdlib Require Import ZArith.
From S2P Require Import Prelude GoStrings GoPath GoValue SafePath Policy PolicyCompose.
From S2P Require Import GoFmt LintCore LintRules LintSpec.
From S2P Require Import ComposeDoc PbRecord ConfigFiles ConfigInject Overrides ProjectIdentity.

Notation "'attempt' x ':=' e 'in' k" := (match e with inl x => k | inr err => inr err end)
  (at level 10, x pattern, k at level 200) : wireops_scope.
Open Scope wireops_scope.

Definition ExtensionKey : string := "x-wireops".
Definition labelManaged : string := "dev.wireops.managed".
Definition labelStackID : string := "dev.wireops.stack_id".
Definition labelCommitSHA : string := "dev.wireops.repository.commit_sha".
Definition labelChecksum : string := "dev.wireops.checksum".
Definition labelGeneratedAt : string := "dev.wireops.generated_at".

(** ** Metadata *)
Definition reserved (k : string) : bool := bool_decide (k = "dev.wireops") || HasPrefix k "dev.wireops.".

Definition stripWireopsMetadata (m : gmap string value) : gmap string value :=
  filter (λ kv, reserved kv.1 = false) m.

(** What identifies the stack in its containers. *)
Record metadata := {
  md_stackID : string; md_stackName : string; md_repoName : string; md_repoURL : string;
  md_branch : string; md_composeFile : string; md_fingerprint : string }.

Definition base_labels (md : metadata) (m : gmap string value) : gmap string value :=
  <[labelStackID := VStr (md_stackID md)]> (<[labelManaged := VStr "true"]> (stripWireopsMetadata m)).

Definition base_annotations (md : metadata) (m : gmap string value) : gmap string value :=
  let a := <["dev.wireops.repository.file" := VStr (md_composeFile md)]>
          (<["dev.wireops.repository.branch" := VStr (md_branch md)]>
          (<["dev.wireops.repository.url" := VStr (md_repoURL md)]>
          (<["dev.wireops.repository" := VStr (md_repoName md)]>
          (<["dev.wireops.stack_name" := VStr (md_stackName md)]> (stripWireopsMetadata m))))) in
  if decide (md_fingerprint md ≠ "") then <["dev.wireops.worker.fingerprint" := VStr (md_fingerprint md)]> a else a.

Definition stamp_service (md : metadata) (v : value) : value :=
  match v with
  | VMap svc =>
      VMap (<["annotations" := VMap (base_annotations md (NormalizeToMap (svc !! "annotations")))]>
           (<["labels" := VMap (base_labels md (NormalizeToMap (svc !! "labels")))]> svc))
  | _ => v
  end.

Definition stamp_services (md : metadata) (services : gmap string value) : gmap string value :=
  stamp_service md <$> services.

Definition version_service (commitSHA checksum generatedAt : string) (version : Z) (v : value) : value :=
  match v with
  | VMap svc =>
      let labels := default ∅ (get_map "labels" svc) in
      let annotations := default ∅ (get_map "annotations" svc) in
      let annotations :=
        <[labelGeneratedAt := VStr generatedAt]> (<[labelChecksum := VStr checksum]>
        (<["dev.wireops.version" := VStr (Itoa version)]>
        (<["dev.wireops.repository.commit_sha" := VStr commitSHA]> annotations))) in
      VMap (<["annotations" := VMap annotations]>
           (<["labels" := VMap (<[labelCommitSHA := VStr commitSHA]> labels)]> svc))
  | _ => v
  end.

Definition injectVersionMetadata (services : gmap string value) (commitSHA checksum generatedAt : string)
    (version : Z) : gmap string value :=
  version_service commitSHA checksum generatedAt version <$> services.

(** ** Project name uniqueness *)
Definition collides (stackID workerID projectName : string) (rec : record) : bool :=
  bool_decide (Id rec ≠ stackID) && bool_decide (GetString "worker" rec = workerID)
  && bool_decide (target_name rec = projectName).

Definition ensureProjectNameUnique (stacks : list record + string) (stackID workerID projectName : string)
    : option string :=
  match stacks with
  | inr err => Some ("failed to check compose project name uniqueness: " +:+ err)
  | inl records =>
      match head (filter (λ r, collides stackID workerID projectName r = true) records) with
      | Some rec => Some ("compose project name " +:+ projectName +:+ " would collide with existing stack "
                          +:+ GetString "name" rec)
      | None => None
      end
  end.

Definition containmentRootFor (workspace : string) (repo : option record) (workDir : string) : string :=
  match repo with
  | None => workDir
  | Some repo =>
      let repoDir := PathJoin workspace (Id repo) in
      let cleanWork := Clean workDir in
      if bool_decide (cleanWork = repoDir) || HasPrefix cleanWork (repoDir +:+ "/") then repoDir else workDir
  end.

(** ** Rendering *)
Record request := {
  rq_stack : record; rq_repo : option record; rq_workDir : string; rq_composeFile : string;
  rq_envVars : list string; rq_commitSHA : string; rq_forceIncrement : bool; rq_workerID : string;
  rq_fingerprint : string; rq_overrides : gmap string ServiceOverride;
  rq_config : gmap string value + string;
  rq_policy : WorkerPolicy + string;
  rq_stacks : list record + string;
  rq_generatedAt : string }.

Record revision := { rev_stack : string; rev_version : Z; rev_commit : string; rev_checksum : string; rev_path : string }.

Record world := { files : gmap string string; revisions : list revision }.

(** How [os.WriteFile] ends: it empties the file when it opens it, so a write that fails
    later leaves the beginning of the content. *)
Inductive write_result := Written | NotOpened | Torn (n : nat).

(** Which calls of the file system and the database succeed. *)
Record storage_env := {
  stat_ok : bool; mkdir_ok : bool; write : write_result; record_ok : bool; remove_ok : bool; save_ok : bool }.

Section render.
Context `{GoRange} `{UT : UnicodeTables} (yaml_parse : string → option value) (yaml_marshal : gmap string value → option string)
  (sha256 : string → string) (hmac : string → string)
  (resolve : string → list Source → list ResolvedFile + resolve_error)
  (workspace stackStorage : string).

(** The keyed digest of the sorted environment, each entry ended by a NUL. *)
Definition hashEnvVars (envVars : list string) : string :=
  hmac (foldr (λ kv s, kv +:+ ch 0 +:+ s) "" (sort_strings envVars)).

Definition read_revision (w : world) (p : string) : string + string :=
  match files w !! p with Some c => inl c | None => inr "no such file or directory" end.

Definition metadata_of (rq : request) : metadata :=
  let get k := match rq_repo rq with Some r => GetString k r | None => "" end in
  {| md_stackID := Id (rq_stack rq); md_stackName := GetString "name" (rq_stack rq);
     md_repoName := get "name"; md_repoURL := get "git_url";
     md_branch := if decide (get "branch" = "") then "main" else get "branch";
     md_composeFile := rq_composeFile rq; md_fingerprint := rq_fingerprint rq |}.

(** The document under its project name. *)
Definition rename_project (identity : projectIdentity) (configMap : gmap string value)
    : gmap string value + string :=
  let oldName := default "" (get_str "name" configMap) in
  let newName := TargetName identity in
  let m := RewriteAutoNamedResources (<["name" := VStr newName]> configMap) oldName newName in
  if NeedsMigration identity then
    match v ← yaml_parse (pi_PreviousCompose identity); decode_doc v with
    | None => inr "failed to parse deployed compose revision for project migration"
    | Some previousConfig => inl (PreserveAutoNamedVolumes m previousConfig newName)
    end
  else inl m.

Definition services_of (configMap : gmap string value) : gmap string value + string :=
  match configMap !! "services" with
  | None | Some VNull => inr "no services defined in compose file"
  | Some (VMap s) => if decide (s = ∅) then inr "services block is invalid or empty" else inl s
  | Some _ => inr "services block is invalid or empty"
  end.

Definition ErrUnknownOverrideService : string := "render override targets unknown service".

Definition with_overrides (wp : WorkerPolicy) (overrides : gmap string ServiceOverride)
    (configMap services : gmap string value) : gmap string value + string :=
  if decide (overrides = ∅) then inl (<["services" := VMap services]> configMap)
  else if negb (AllowRenderOverrides wp) then inr "render-time overrides are disabled by the worker policy"
  else match ApplyServiceOverrides (<["services" := VMap services]> configMap) overrides with
       | inl m => inl m
       | inr (UnknownOverrideService _) => inr ErrUnknownOverrideService
       | inr _ => inr "render override rejected"
       end.

(** Policy and lint gates: the warnings, or why the document is refused. *)
Definition gate (wp : WorkerPolicy) (rq : request) (configMap : gmap string value) : list string + string :=
  match ValidateComposeConfig wp configMap with
  | Some _ => inr "policy violation"
  | None =>
      let root := containmentRootFor workspace (rq_repo rq) (rq_workDir rq) in
      let report := Run configMap {| ctx_Policy := Some wp;
                                     ctx_EnvKeys := Some (EnvKeysFromPairs (rq_envVars rq)); ctx_RepoRoot := root |} in
      if HasErrors report
      then inr ("compose file failed static checks: "
                +:+ Join "; " (f_Message <$> filter (λ f, f_Severity f = SeverityError) (Findings report)))
      else inl ((λ f, f_Rule f +:+ ": " +:+ f_Message f)
                <$> filter (λ f, f_Severity f = SeverityWarning) (Findings report))
  end.

(** Everything up to the gates. *)
Definition prepare (rq : request) (w : world)
    : (gmap string value * projectIdentity * list TrackedFile * list string) + string :=
  attempt config := rq_config rq in
  let configMap := delete ExtensionKey config in
  if decide (GetString "name" (rq_stack rq) = "")
  then inr "stack has no name to derive a compose project name from"
  else
    attempt identity := resolveProjectIdentity yaml_parse stackStorage (read_revision w) (rq_stack rq) in
    match ensureProjectNameUnique (rq_stacks rq) (Id (rq_stack rq)) (rq_workerID rq) (TargetName identity) with
    | Some err => inr err
    | None =>
        attempt configMap := rename_project identity configMap in
        attempt wp := rq_policy rq in
        attempt services := services_of configMap in
        attempt (configMap, services, tracked) := injectConfigContent (resolve (rq_workDir rq)) configMap services in
        attempt configMap := with_overrides wp (rq_overrides rq) configMap services in
        attempt warnings := gate wp rq configMap in
        inl (configMap, identity, tracked, warnings)
    end.

Definition result_of (version : Z) (checksum : string) (identity : projectIdentity) : RenderResult :=
  {| Version := version; Checksum := checksum; RenderedPath := "v" +:+ Itoa version +:+ ".yml";
     rr_ProjectName := TargetName identity; PreviousProjectName := PreviousName identity;
     PreviousCompose := pi_PreviousCompose identity |}.

Definition put_file (p content : string) (w : world) : world :=
  {| files := <[p := content]> (files w); revisions := revisions w |}.

(** Whether it succeeds, and what it leaves. *)
Definition WriteFile (r : write_result) (p content : string) (w : world) : bool * world :=
  match r with
  | Written => (true, put_file p content w)
  | NotOpened => (false, w)
  | Torn n => (false, put_file p (String.substring 0 n content) w)
  end.

Definition remove_file (p : string) (w : world) : world :=
  {| files := delete p (files w); revisions := revisions w |}.

Definition outcome : Type := ((RenderResult * list TrackedFile * list string) + string) * record * world.

(** Storing a new revision under [nextVersion]. *)
Definition store_revision (rq : request) (e : storage_env) (finalMap : gmap string value) (nextVersion : Z)
    (checksum : string) (result : RenderResult * list TrackedFile * list string) (w : world) : outcome :=
  let stack := rq_stack rq in
  match yaml_marshal finalMap with
  | None => (inr "failed to marshal final compose yaml", stack, w)
  | Some finalYAML =>
      if negb (mkdir_ok e) then (inr "failed to create stack storage dir", stack, w)
      else
        let filePath := PathJoin (PathJoin stackStorage (Id stack)) ("v" +:+ Itoa nextVersion +:+ ".yml") in
        match WriteFile (write e) filePath finalYAML w with
        | (false, w1) => (inr "failed to write rendered compose file", stack, w1)
        | (true, w1) =>
          if negb (record_ok e)
          then (inr "failed to create revision record", stack, if remove_ok e then remove_file filePath w1 else w1)
          else
            let w2 := {| files := files w1; revisions := revisions w1 ++
                           [{| rev_stack := Id stack; rev_version := nextVersion; rev_commit := rq_commitSHA rq;
                               rev_checksum := checksum; rev_path := filePath |}] |} in
            let stack' := SetStr "checksum" checksum (SetStr "desired_commit" (rq_commitSHA rq)
                            (SetInt "current_version" nextVersion stack)) in
            if negb (save_ok e) then (inr "failed to update stack record", stack', w2)
            else (inl result, stack', w2)
        end
  end.

(** An unchanged revision: its file is written again when [os.Stat] does not find it. *)
Definition keep_revision (rq : request) (e : storage_env) (finalMap : gmap string value) (currentVersion : Z)
    (w : world) : world :=
  let p := GetRevisionFilePath stackStorage (Id (rq_stack rq)) currentVersion in
  if stat_ok e && bool_decide (is_Some (files w !! p)) then w
  else match yaml_marshal finalMap with
       | Some finalYAML => (WriteFile (write e) p finalYAML w).2
       | None => w
       end.

Definition current_version (stack : record) : Z :=
  let v := GetInt "current_version" stack in if decide (v = 0)%Z then 1%Z else v.

(** The checksum of a stamped document and the environment. *)
Definition checksum_of (configMap : gmap string value) (envVars : list string) : option string :=
  y ← yaml_marshal configMap; Some (sha256 (y +:+ hashEnvVars envVars)).

Definition GenerateRevision (rq : request) (e : storage_env) (w : world) : outcome :=
  let stack := rq_stack rq in
  match prepare rq w with
  | inr err => (inr err, stack, w)
  | inl (configMap, identity, tracked, warnings) =>
      let currentVersion := current_version stack in
      let nextVersion := if rq_forceIncrement rq then (currentVersion + 1)%Z else currentVersion in
      let services := stamp_services (metadata_of rq) (default ∅ (get_map "services" configMap)) in
      let configMap := <["services" := VMap services]> configMap in
      match checksum_of configMap (rq_envVars rq) with
      | None => (inr "failed to normalize YAML for checksum", stack, w)
      | Some checksum =>
          let final v := <["services" := VMap (injectVersionMetadata services (rq_commitSHA rq) checksum
                                                 (rq_generatedAt rq) v)]> configMap in
          let old := GetString "checksum" stack in
          if negb (rq_forceIncrement rq) && bool_decide (old = checksum) then
            (inl (result_of currentVersion checksum identity, tracked, warnings), stack,
             keep_revision rq e (final nextVersion) currentVersion w)
          else
            let version := if negb (rq_forceIncrement rq) && bool_decide (old ≠ "")
                           then (nextVersion + 1)%Z else nextVersion in
            store_revision rq e (final version) version checksum
              (result_of version checksum identity, tracked, warnings) w
      end
  end.

(** ** Paths and unchanged files *)
Lemma version_name_proper n : (0 ≤ n)%Z → proper ("v" +:+ Itoa n +:+ ".yml").
Proof.
  intros Hn. unfold proper. split_and!; try done.
  intros Hin. rewrite !in_string_app in Hin. rewrite Itoa_pos // in Hin.
  destruct Hin as [[?|[]]|[Hin|Hin]]; [done| |by simpl in Hin; naive_solver].
  by destruct (proj1 (pretty_N_digits (Z.to_N n)) _ Hin).
Qed.

Lemma app_inv_tail_s s t u : s +:+ u = t +:+ u → s = t.
Proof.
  intros Heq. apply (f_equal srev) in Heq. rewrite !srev_app in Heq. apply sapp_inv_head in Heq.
  by rewrite -(srev_involutive s) Heq srev_involutive.
Qed.

Lemma revision_path_inj id a b : stackStorage ≠ "" → (0 ≤ a)%Z → (0 ≤ b)%Z →
  GetRevisionFilePath stackStorage id a = GetRevisionFilePath stackStorage id b → a = b.
Proof.
  intros Hs Ha Hb Heq. apply (f_equal path_comps) in Heq. unfold GetRevisionFilePath in Heq.
  assert (PathJoin stackStorage id ≠ "") as Hd.
  { unfold PathJoin. rewrite decide_False //. case_decide; apply Clean_nonempty. }
  rewrite (PathJoin_proper _ _ Hd (version_name_proper a Ha)) (PathJoin_proper _ _ Hd (version_name_proper b Hb)) in Heq.
  apply app_inj_2 in Heq as [_ [= Heq]]; [|done].
  rewrite !sapp_nil_l in Heq. apply app_inv_tail_s in Heq. by apply pretty_Z_inj in Heq.
Qed.

Lemma write_other r p content w q : q ≠ p → files (WriteFile r p content w).2 !! q = files w !! q.
Proof. intros Hq. destruct r; simpl; [by rewrite lookup_insert_ne|done|by rewrite lookup_insert_ne]. Qed.

Lemma write_revisions r p content w : revisions (WriteFile r p content w).2 = revisions w.
Proof. by destruct r. Qed.

Lemma store_revision_world rq e m v sum res w o st w' p :
  store_revision rq e m v sum res w = (o, st, w') →
  p ≠ GetRevisionFilePath stackStorage (Id (rq_stack rq)) v → files w' !! p = files w !! p.
Proof.
  unfold store_revision, GetRevisionFilePath. destruct (yaml_marshal m) as [y|]; [|by intros; simplify_eq].
  destruct (mkdir_ok e); simpl; [|by intros; simplify_eq]. intros Hs Hp.
  pose proof (write_other (write e) _ y w _ Hp) as Hw. destruct (WriteFile _ _ _ _) as [[] w1]; simpl in Hw; [|by simplify_eq].
  destruct (record_ok e); simpl in Hs; [destruct (save_ok e); simpl in Hs; simplify_eq/=; exact Hw|].
  destruct (remove_ok e); simplify_eq/=; [|done]. by rewrite lookup_delete_ne.
Qed.

Lemma store_revision_inl rq e m v sum res w r st w' :
  store_revision rq e m v sum res w = (inl r, st, w') →
  r = res ∧ st = SetStr "checksum" sum (SetStr "desired_commit" (rq_commitSHA rq)
                   (SetInt "current_version" v (rq_stack rq)))
  ∧ (∃ y, yaml_marshal m = Some y ∧
       files w' !! GetRevisionFilePath stackStorage (Id (rq_stack rq)) v = Some y)
  ∧ revisions w' = revisions w ++ [{| rev_stack := Id (rq_stack rq); rev_version := v;
      rev_commit := rq_commitSHA rq; rev_checksum := sum;
      rev_path := GetRevisionFilePath stackStorage (Id (rq_stack rq)) v |}].
Proof.
  unfold store_revision, GetRevisionFilePath. destruct (yaml_marshal m) as [y|]; [|by intros; simplify_eq].
  destruct (mkdir_ok e); simpl; [|by intros; simplify_eq]. destruct (write e); simpl; [|by intros; simplify_eq..].
  destruct (record_ok e), (save_ok e); intros; simplify_eq/=. split_and!; try done. exists y. by rewrite lookup_insert_eq.
Qed.

Lemma keep_revision_other rq e m v w p :
  p ≠ GetRevisionFilePath stackStorage (Id (rq_stack rq)) v → files (keep_revision rq e m v w) !! p = files w !! p.
Proof.
  intros Hp. unfold keep_revision. destruct (_ && _); [done|]. destruct (yaml_marshal m); [|done]. by apply write_other.
Qed.

Lemma keep_revision_same rq e m v w : stat_ok e = true →
  is_Some (files w !! GetRevisionFilePath stackStorage (Id (rq_stack rq)) v) → keep_revision rq e m v w = w.
Proof. intros He Hc. unfold keep_revision. by rewrite He bool_decide_eq_true_2. Qed.

Lemma keep_revision_records rq e m v w : revisions (keep_revision rq e m v w) = revisions w.
Proof. unfold keep_revision. destruct (_ && _); [done|]. destruct (yaml_marshal m); [|done]. apply write_revisions. Qed.

Lemma current_version_pos stack : (0 ≤ GetInt "current_version" stack)%Z → (1 ≤ current_version stack)%Z.
Proof. unfold current_version. case_decide; lia. Qed.

(** ** Properties *)

(** C18: A render changes no file but that of the current version of its stack and of the
    one after it, whatever fails on the way.  In particular the files of the earlier
    versions are never touched; and a file of the current version stays as it is when it
    can be looked up and the stack has a checksum or the increment is forced.  (A stack
    whose checksum was cleared has its current version rewritten, see
    [cleared_checksum_rewrites].) *)
Theorem revision_history_immutable rq e w o st w' : stackStorage ≠ "" →
  (0 ≤ GetInt "current_version" (rq_stack rq))%Z →
  GenerateRevision rq e w = (o, st, w') →
  let current := current_version (rq_stack rq) in
  let path := GetRevisionFilePath stackStorage (Id (rq_stack rq)) in
  (∀ p, p ≠ path current → p ≠ path (current + 1)%Z → files w' !! p = files w !! p)
  ∧ (∀ v, (0 ≤ v < current)%Z → files w' !! path v = files w !! path v)
  ∧ (stat_ok e = true → GetString "checksum" (rq_stack rq) ≠ "" ∨ rq_forceIncrement rq = true →
     ∀ c, files w !! path current = Some c → files w' !! path current = Some c).
Proof.
  intros Hs Hcv Hg. cbv zeta. pose proof (current_version_pos _ Hcv) as Hpos.
  assert (∀ a b, (0 ≤ a < b)%Z →
    GetRevisionFilePath stackStorage (Id (rq_stack rq)) a ≠ GetRevisionFilePath stackStorage (Id (rq_stack rq)) b) as Hne.
  { intros a b Hab Heq. apply revision_path_inj in Heq; [lia|done|lia|lia]. }
  assert (∀ p, p ≠ GetRevisionFilePath stackStorage (Id (rq_stack rq)) (current_version (rq_stack rq)) →
    p ≠ GetRevisionFilePath stackStorage (Id (rq_stack rq)) (current_version (rq_stack rq) + 1) → files w' !! p = files w !! p) as Hframe.
  { intros p H1 H2. unfold GenerateRevision in Hg. destruct (prepare rq w) as [[[[m id] tr] ws]|]; [|by simplify_eq].
    destruct (checksum_of _ _) as [sum|]; [|by simplify_eq]. cbv zeta in Hg.
    destruct (negb (rq_forceIncrement rq) && _); [simplify_eq; by apply keep_revision_other|].
    eapply store_revision_world; [exact Hg|]. destruct (rq_forceIncrement rq); simpl; [done|]. by case_bool_decide. }
  split_and!; [done| |].
  - intros v Hv. apply Hframe; apply Hne; lia.
  - intros Hst Hor c Hc. unfold GenerateRevision in Hg. destruct (prepare rq w) as [[[[m id] tr] ws]|]; [|by simplify_eq].
    destruct (checksum_of _ _) as [sum|]; [|by simplify_eq]. cbv zeta in Hg.
    destruct (negb (rq_forceIncrement rq) && _); [simplify_eq; by rewrite keep_revision_same|].
    rewrite (store_revision_world _ _ _ _ _ _ _ _ _ _ _ Hg) //. apply Hne. split; [lia|].
    destruct (rq_forceIncrement rq); simpl; [lia|]. rewrite bool_decide_eq_true_2; [lia|]. by destruct Hor.
Qed.

(** Without a checksum an unforced render that succeeds stores its document under the
    version the stack already has. *)
Theorem cleared_checksum_rewrites rq e w r tr ws st w' :
  GetString "checksum" (rq_stack rq) = "" → rq_forceIncrement rq = false → GenerateRevision rq e w = (inl (r, tr, ws), st, w') →
  Checksum r ≠ "" →
  Version r = current_version (rq_stack rq) ∧
  ∃ doc y, yaml_marshal doc = Some y ∧ files w' !! GetRevisionFilePath stackStorage (Id (rq_stack rq)) (current_version (rq_stack rq)) = Some y.
Proof.
  intros Hc Hf. unfold GenerateRevision. destruct (prepare rq w) as [[[[m id] tr'] ws']|]; [|by intros; simplify_eq].
  destruct (checksum_of _ _) as [sum|]; [|by intros; simplify_eq]. cbv zeta. rewrite Hc Hf /=. case_bool_decide as Hs.
  - intros [= <- _ _ _ _] Hne. by destruct Hne.
  - intros Hg Hne. apply store_revision_inl in Hg as (Hr & _ & (y & Hy & Hfile) & _). simplify_eq/=. eauto.
Qed.

Lemma unique_spec stacks stackID workerID name : ensureProjectNameUnique stacks stackID workerID name = None →
  ∃ records, stacks = inl records ∧
    ∀ r, r ∈ records → Id r ≠ stackID → GetString "worker" r = workerID → target_name r ≠ name.
Proof.
  unfold ensureProjectNameUnique. destruct stacks as [records|]; [|done].
  destruct (head _) eqn:Hh; [done|]. intros _. exists records. split; [done|].
  intros r Hr Hid Hw Hn. apply head_None in Hh.
  assert (r ∈ filter (λ r, collides stackID workerID name r = true) records) as Hin.
  { apply list_elem_of_filter. split; [|done]. unfold collides. by rewrite !bool_decide_eq_true_2. }
  rewrite Hh in Hin. by apply elem_of_nil in Hin.
Qed.

Lemma gate_inl wp rq m ws : gate wp rq m = inl ws → ValidateComposeConfig wp m = None ∧ deployable m.
Proof.
  unfold gate. destruct (ValidateComposeConfig wp m); [done|]. cbv zeta. destruct (HasErrors _) eqn:He; [done|].
  intros _. split; [done|]. by apply lint_clean_iff in He as [? _].
Qed.

(** A service whose labels and annotations may have changed. *)
Definition relabelled (v v' : value) : Prop :=
  v' = v ∨ ∃ svc svc', v = VMap svc ∧ v' = VMap svc' ∧ ∀ k, k ∉ ["labels"; "annotations"] → svc' !! k = svc !! k.

(** The same document, but for the labels and annotations of its services. *)
Definition same_but_labels (m m' : gmap string value) : Prop :=
  ∃ services services', get_map "services" m = Some services ∧ m' = <["services" := VMap services']> m ∧
    ∀ name, option_Forall2 relabelled (services !! name) (services' !! name).

Lemma same_service m m' name svc' : same_but_labels m m' → has_service m' name svc' →
  ∃ svc, has_service m name svc ∧ ∀ k, k ∉ ["labels"; "annotations"] → svc' !! k = svc !! k.
Proof.
  intros (ss & ss' & Hs & -> & Hf) (x & Hx & Hn). apply get_map_Some in Hx. rewrite lookup_insert_eq in Hx. injection Hx as <-.
  apply get_map_Some in Hn. specialize (Hf name). rewrite Hn in Hf. inversion Hf as [v v' Hr Hv|]; subst.
  destruct Hr as [<-|(svc & svc'' & -> & [= <-] & Hk)].
  - exists svc'. split; [|done]. exists ss. split; [done|]. by apply get_map_Some.
  - exists svc. split; [|done]. exists ss. split; [done|]. by apply get_map_Some.
Qed.

Lemma same_service_back m m' name svc : same_but_labels m m' → has_service m name svc → ∃ svc', has_service m' name svc'.
Proof.
  intros (ss & ss' & Hs & -> & Hf) (x & Hx & Hn). rewrite Hs in Hx. injection Hx as <-. apply get_map_Some in Hn.
  specialize (Hf name). rewrite Hn in Hf. inversion Hf as [v v' Hr Hv Hv'|]; subst.
  assert (∃ svc', v' = VMap svc') as [svc' ->] by (destruct Hr as [->|(? & svc' & _ & -> & _)]; eauto).
  exists svc', ss'. split; [apply get_map_Some, lookup_insert_eq|by apply get_map_Some].
Qed.

Lemma same_block m m' k : same_but_labels m m' → k ≠ "services" → m' !! k = m !! k.
Proof. intros (? & ? & _ & -> & _) Hk. by rewrite lookup_insert_ne. Qed.

Ltac same_keys Hk := repeat rewrite -> Hk by (apply (bool_decide_unpack _); exact I).

(** Neither the lint rules nor the policy look at labels and annotations. *)
Lemma same_deployable m m' : same_but_labels m m' → deployable m → deployable m'.
Proof.
  intros Hm [D1 D2 D3 D4]. split.
  - destruct D1 as (name & svc & Hs). destruct (same_service_back _ _ _ _ Hm Hs) as [svc' ?]. eauto.
  - intros name svc' (svc & Hs & Hk)%(same_service _ _ _ _ Hm). same_keys Hk. eauto.
  - intros name svc' n (svc & Hs & Hk)%(same_service _ _ _ _ Hm) Hj. unfold declares. rewrite (same_block _ _ _ Hm) //.
    eapply D3; [exact Hs|]. revert Hj. unfold service_joins. by same_keys Hk.
  - intros name svc' v (svc & Hs & Hk)%(same_service _ _ _ _ Hm) Hv. unfold declares. rewrite (same_block _ _ _ Hm) //.
    eapply D4; [exact Hs|]. revert Hv. unfold mounts_volume, serviceMounts, get_list. by same_keys Hk.
Qed.

Lemma same_permitted wp m m' : same_but_labels m m' → ValidateComposeConfig wp m = None → ValidateComposeConfig wp m' = None.
Proof.
  intros Hm. destruct (Disabled wp) eqn:Hd; [by unfold ValidateComposeConfig; rewrite Hd|].
  rewrite !compose_config_checked //. setoid_rewrite service_checked_permitted.
  intros Hp name svc' (svc & Hs & Hk)%(same_service _ _ _ _ Hm). destruct (Hp _ _ Hs) as [P1 P2 P3 P4 P5 P6 P7 P8 P9 P10 P11].
  assert (∀ v, mounts_source svc' v → mounts_source svc v) as Hms by (intros v; unfold mounts_source; by same_keys Hk).
  assert (∀ k x, k ∉ ["labels"; "annotations"] → lists_string svc' k x → lists_string svc k x) as Hls
    by (intros k x Hl; unfold lists_string; by rewrite Hk).
  split; try (same_keys Hk; done).
  - intros v Hv. auto.
  - intros v dev Hv Hh Hn. apply (P3 v dev); [auto..|]. revert Hn. unfold named_device. by rewrite (same_block _ _ _ Hm).
  - intros n. unfold joins_network. same_keys Hk. apply P4.
  - intros c Hc. apply P9, Hls; [set_solver|done].
  - intros d Hc. apply P10, Hls; [set_solver|done].
  - intros o Hc. apply P11, Hls; [set_solver|done].
Qed.

Lemma stamped_same m services md commit sum at_ v : get_map "services" m = Some services →
  same_but_labels m (<["services" := VMap (injectVersionMetadata (stamp_services md services) commit sum at_ v)]>
    (<["services" := VMap (stamp_services md services)]> m)).
Proof.
  intros Hs. eexists services, _. split; [done|]. rewrite insert_insert_eq. split; [done|]. intros name.
  unfold injectVersionMetadata, stamp_services. rewrite !lookup_fmap. destruct (services !! name) as [x|]; simpl; constructor.
  destruct x; try by left. right. eexists _, _. split; [done|]. split; [done|]. intros k Hk. cbn.
  rewrite !lookup_insert_ne //; set_solver.
Qed.

(** What of a document a render that succeeded has stored: the document itself, under its
    version and with a revision record; or nothing, because the document has the checksum
    of the current revision, whose file is only written again when it is not found. *)
Definition stores (rq : request) (w : world) (r : RenderResult) (w' : world) (doc : gmap string value) : Prop :=
  let path := GetRevisionFilePath stackStorage (Id (rq_stack rq)) (Version r) in
  ∃ content, yaml_marshal doc = Some content ∧
    files w' !! path = Some content ∧
    revisions w' = revisions w ++ [{| rev_stack := Id (rq_stack rq); rev_version := Version r; rev_commit := rq_commitSHA rq;
                                      rev_checksum := Checksum r; rev_path := path |}].

Definition keeps (rq : request) (w : world) (r : RenderResult) (w' : world) (doc : gmap string value) : Prop :=
  let path := GetRevisionFilePath stackStorage (Id (rq_stack rq)) (Version r) in
  rq_forceIncrement rq = false ∧ Version r = current_version (rq_stack rq) ∧ GetString "checksum" (rq_stack rq) = Checksum r ∧
  revisions w' = revisions w ∧
  (w' = w ∨ ∃ content written, yaml_marshal doc = Some content ∧ files w' = <[path := written]> (files w) ∧
     (written = content ∨ ∃ n, written = String.substring 0 n content)).

Lemma keep_revision_keeps rq e m w : let w' := keep_revision rq e m (current_version (rq_stack rq)) w in
  w' = w ∨ ∃ content written, yaml_marshal m = Some content ∧
    files w' = <[GetRevisionFilePath stackStorage (Id (rq_stack rq)) (current_version (rq_stack rq)) := written]> (files w) ∧
    (written = content ∨ ∃ n, written = String.substring 0 n content).
Proof.
  cbv zeta. unfold keep_revision. destruct (_ && _); [by left|]. destruct (yaml_marshal m) as [y|]; [|by left].
  destruct (write e) as [| |n]; simpl; [right; eauto 6|by left|right; eauto 8].
Qed.

(** What it means for the document behind a successful render to have passed the gates. *)
Lemma prepare_gated rq w m id tr ws : prepare rq w = inl (m, id, tr, ws) →
  ∃ wp others, rq_policy rq = inl wp ∧ ValidateComposeConfig wp m = None ∧ deployable m
  ∧ (rq_overrides rq ≠ ∅ → AllowRenderOverrides wp = true) ∧ rq_stacks rq = inl others
  ∧ ∀ s, s ∈ others → Id s ≠ Id (rq_stack rq) → GetString "worker" s = rq_workerID rq → target_name s ≠ TargetName id.
Proof.
  unfold prepare. destruct (rq_config rq) as [config|]; [|done]. case_decide; [done|].
  destruct (resolveProjectIdentity _ _ _ _) as [identity|]; [|done].
  destruct (ensureProjectNameUnique _ _ _ _) eqn:Hu; [done|].
  destruct (rename_project _ _) as [m1|]; [|done]. destruct (rq_policy rq) as [wp|]; [|done].
  destruct (services_of m1) as [svcs|]; [|done].
  destruct (injectConfigContent _ _ _) as [[[m2 svcs2] tr2]|]; [|done].
  destruct (with_overrides _ _ _ _) as [m3|] eqn:Ho; [|done].
  destruct (gate wp rq m3) as [ws2|] eqn:Hgate; [|done]. intros [= <- <- <- <-].
  apply unique_spec in Hu as (others & Hs & Hn). apply gate_inl in Hgate as [Hv Hl].
  exists wp, others. split_and!; try done.
  intros Hne. unfold with_overrides in Ho. rewrite decide_False // in Ho. by destruct (AllowRenderOverrides wp).
Qed.


(** The same stack rendered again, with its updated record, at another time and
    for another commit. *)
Definition again (rq : request) (st : record) (commit at_ : string) : request :=
  {| rq_stack := st; rq_repo := rq_repo rq; rq_workDir := rq_workDir rq; rq_composeFile := rq_composeFile rq;
     rq_envVars := rq_envVars rq; rq_commitSHA := commit; rq_forceIncrement := false;
     rq_workerID := rq_workerID rq; rq_fingerprint := rq_fingerprint rq; rq_overrides := rq_overrides rq;
     rq_config := rq_config rq; rq_policy := rq_policy rq; rq_stacks := rq_stacks rq;
     rq_generatedAt := at_ |}.

(** The project keeps its name: nothing is to be migrated, or still the same is. *)
Definition same_project (id id' : projectIdentity) : Prop :=
  TargetName id' = TargetName id ∧ (id' = id ∨ NeedsMigration id = false ∧ NeedsMigration id' = false).

Lemma rename_same id id' m : same_project id id' → rename_project id' m = rename_project id m.
Proof. intros [Ht [->|[H1 H2]]]; [done|]. unfold rename_project. by rewrite Ht H1 H2. Qed.

Lemma prepare_again rq st commit at_ w w' m id tr ws id' :
  Id st = Id (rq_stack rq) → GetString "name" st = GetString "name" (rq_stack rq) →
  resolveProjectIdentity yaml_parse stackStorage (read_revision w) (rq_stack rq) = inl id →
  resolveProjectIdentity yaml_parse stackStorage (read_revision w') st = inl id' → same_project id id' →
  prepare rq w = inl (m, id, tr, ws) → prepare (again rq st commit at_) w' = inl (m, id', tr, ws).
Proof.
  intros Hid Hname Hr Hr' Hs. unfold prepare. simpl. rewrite Hname Hr Hr' Hid. destruct (rq_config rq) as [config|]; [|done].
  case_decide; [done|]. rewrite (rename_same _ _ _ Hs). destruct Hs as [-> _]. destruct (ensureProjectNameUnique _ _ _ _); [done|].
  destruct (rename_project _ _) as [m1|]; [|done]. destruct (rq_policy rq) as [wp|]; [|done].
  destruct (services_of m1) as [svcs|]; [|done]. destruct (injectConfigContent _ _ _) as [[[m2 svcs2] tr2]|]; [|done].
  destruct (with_overrides _ _ _ _) as [m3|]; [|done]. change (gate wp (again rq st commit at_) m3) with (gate wp rq m3).
  destruct (gate wp rq m3); [|done]. by intros [= <- <- <-].
Qed.

(** The identity a render worked with. *)
Lemma prepare_identity rq w m id tr ws : prepare rq w = inl (m, id, tr, ws) →
  resolveProjectIdentity yaml_parse stackStorage (read_revision w) (rq_stack rq) = inl id.
Proof.
  unfold prepare. destruct (rq_config rq); [|done]. case_decide; [done|]. destruct (resolveProjectIdentity _ _ _ _); [|done].
  destruct (ensureProjectNameUnique _ _ _ _); [done|]. destruct (rename_project _ _) as [m1|]; [|done].
  destruct (rq_policy rq); [|done]. destruct (services_of m1); [|done]. destruct (injectConfigContent _ _ _) as [[[??]?]|]; [|done].
  destruct (with_overrides _ _ _ _); [|done]. destruct (gate _ _ _); [|done]. by intros [= _ <- _ _].
Qed.

(** The record a successful render leaves: its checksum and version are those returned. *)
Lemma GenerateRevision_inl rq e w r tr ws st w' : (0 ≤ GetInt "current_version" (rq_stack rq))%Z →
  GenerateRevision rq e w = (inl (r, tr, ws), st, w') →
  ∃ m id, prepare rq w = inl (m, id, tr, ws)
  ∧ checksum_of (<["services" := VMap (stamp_services (metadata_of rq) (default ∅ (get_map "services" m)))]> m)
      (rq_envVars rq) = Some (Checksum r)
  ∧ r = result_of (Version r) (Checksum r) id
  ∧ Id st = Id (rq_stack rq) ∧ GetString "name" st = GetString "name" (rq_stack rq)
  ∧ GetString "checksum" st = Checksum r ∧ current_version st = Version r.
Proof.
  intros Hcv. pose proof (current_version_pos _ Hcv) as Hpos.
  unfold GenerateRevision. destruct (prepare rq w) as [[[[m id] tr'] ws']|] eqn:Hp; [|by intros; simplify_eq].
  destruct (checksum_of _ _) as [sum|] eqn:Hsum; [|by intros; simplify_eq]. cbv zeta. intros Hg.
  exists m, id.
  destruct (negb (rq_forceIncrement rq) && bool_decide (GetString "checksum" (rq_stack rq) = sum)) eqn:Hk.
  - apply andb_true_iff in Hk as [_ Hk%bool_decide_eq_true]. by simplify_eq/=.
  - pose proof (store_revision_inl _ _ _ _ _ _ _ _ _ _ Hg) as (Hres & -> & _). injection Hres as -> -> ->.
    match goal with |- context [SetInt "current_version" ?v _] => assert (1 ≤ v)%Z as Hv end.
    { destruct (rq_forceIncrement rq); simpl; [lia|]. case_bool_decide; lia. }
    split_and!; try done; [by unfold SetInt; record_simpl|by record_simpl|].
    unfold current_version at 1. unfold SetStr. do 2 (rewrite GetInt_SetField_ne; [|done]). rewrite GetInt_SetInt; [|lia].
    rewrite decide_False; [done|lia].
Qed.


(** The order in which the environment variables arrive does not matter for
    the checksum, so a reordered environment causes no redeploy. *)
Theorem checksum_ignores_env_order m env env' : env ≡ₚ env' → checksum_of m env = checksum_of m env'.
Proof. intros Hp. unfold checksum_of, hashEnvVars. by rewrite (sort_strings_perm_eq _ _ Hp). Qed.
End render.

(** ** Ownership metadata *)
Lemma strip_reserved m k : reserved k = true → stripWireopsMetadata m !! k = None.
Proof.
  intros Hk. unfold stripWireopsMetadata. apply map_lookup_filter_None. right. intros v _. simpl. by rewrite Hk.
Qed.

Lemma strip_free m k : reserved k = false → stripWireopsMetadata m !! k = m !! k.
Proof.
  intros Hk. unfold stripWireopsMetadata. destruct (m !! k) as [v|] eqn:Hv.
  - apply map_lookup_filter_Some. done.
  - apply map_lookup_filter_None. by left.
Qed.

Lemma insert_free k k' v (m : gmap string value) : reserved k' = true → reserved k = false →
  <[k' := v]> m !! k = m !! k.
Proof. intros H1 H2. apply lookup_insert_ne. intros ->. congruence. Qed.

(** The ownership metadata cannot be forged from a repository: in every
    rendered service the reserved labels are exactly the three the renderer
    writes, with its own values, whatever the compose file said, every other
    label is the user's, and no reserved annotation of the user survives unless
    the renderer has set it. *)
Theorem ownership_labels_unforgeable md services commit sum at_ v name svc :
  services !! name = Some (VMap svc) →
  ∃ svc' labels annotations,
    injectVersionMetadata (stamp_services md services) commit sum at_ v !! name = Some (VMap svc')
    ∧ get_map "labels" svc' = Some labels ∧ get_map "annotations" svc' = Some annotations
    ∧ labels !! labelManaged = Some (VStr "true")
    ∧ labels !! labelStackID = Some (VStr (md_stackID md))
    ∧ labels !! labelCommitSHA = Some (VStr commit)
    ∧ (∀ k, reserved k = true → is_Some (labels !! k) → k ∈ [labelManaged; labelStackID; labelCommitSHA])
    ∧ (∀ k, reserved k = false → labels !! k = NormalizeToMap (svc !! "labels") !! k)
    ∧ (∀ k, reserved k = false → annotations !! k = NormalizeToMap (svc !! "annotations") !! k)
    ∧ annotations !! labelChecksum = Some (VStr sum).
Proof.
  intros Hs. unfold injectVersionMetadata, stamp_services. rewrite !lookup_fmap Hs /=.
  eexists _, _, _. split; [done|]. unfold get_map.
  split; [rewrite lookup_insert_ne // lookup_insert_eq //|]. split; [rewrite lookup_insert_eq //|].
  rewrite (lookup_insert_ne _ "annotations" "labels") // !lookup_insert_eq /=. unfold base_labels.
  split_and!.
  - do 2 (rewrite lookup_insert_ne; [|done]). by rewrite lookup_insert_eq.
  - rewrite lookup_insert_ne; [|done]. by rewrite lookup_insert_eq.
  - by rewrite ?lookup_insert_eq.
  - intros k Hk [x Hx]. rewrite !elem_of_cons elem_of_nil.
    destruct (decide (k = labelCommitSHA)) as [->|H1]; [tauto|]. rewrite lookup_insert_ne // in Hx.
    destruct (decide (k = labelStackID)) as [->|H2]; [tauto|]. rewrite lookup_insert_ne // in Hx.
    destruct (decide (k = labelManaged)) as [->|H3]; [tauto|]. rewrite lookup_insert_ne // in Hx.
    by rewrite strip_reserved in Hx.
  - intros k Hk. rewrite !insert_free //. by apply strip_free.
  - intros k Hk. unfold base_annotations. rewrite !insert_free //. case_decide; rewrite ?insert_free //;
      by apply strip_free.
  - by rewrite lookup_insert_ne // lookup_insert_eq.
Qed.

(** A stack rendered for the first time with trivial codecs. *)
Definition demo_stack : record :=
  {| Id := "s1"; fields := {[ "name" := VStr "media"; "worker" := VStr "w1" ]} |}.
Definition demo_config : gmap string value :=
  {[ "name" := VStr "red"; "services" := VMap {[ "web" := VMap {[ "image" := VStr "nginx:1.27"; "restart" := VStr "always" ]} ]} ]}.
Definition demo_request : request :=
  {| rq_stack := demo_stack; rq_repo := None; rq_workDir := "/repo"; rq_composeFile := "docker-compose.yml";
     rq_envVars := ["A=1"]; rq_commitSHA := "c1"; rq_forceIncrement := true; rq_workerID := "w1";
     rq_fingerprint := ""; rq_overrides := ∅; rq_config := inl demo_config; rq_policy := inl open_policy;
     rq_stacks := inl [demo_stack]; rq_generatedAt := "t0" |}.
Definition all_ok : storage_env :=
  {| stat_ok := true; mkdir_ok := true; write := Written; record_ok := true; remove_ok := true; save_ok := true |}.
Definition empty_world : world := {| files := {[ "/data/s1/v1.yml" := "old" ]}; revisions := [] |}.

Abbreviation demo_render := (@GenerateRevision some_range (λ _, true) (λ _, None) (λ _, Some "doc") (λ s, s) (λ s, s)
  (λ _ _, inl []) "/repos" "/data").

Definition demo_identity : projectIdentity := target_only "media".
Definition demo_sum : string := "docA=1" +:+ ch 0.
Definition demo_record : record :=
  SetStr "checksum" demo_sum (SetStr "desired_commit" "c1" (SetInt "current_version" 2 demo_stack)).
Definition demo_world : world :=
  {| files := <["/data/s1/v2.yml" := "doc"]> (files empty_world);
     revisions := [{| rev_stack := "s1"; rev_version := 2; rev_commit := "c1"; rev_checksum := demo_sum;
                      rev_path := "/data/s1/v2.yml" |}] |}.

Lemma demo_run : demo_render demo_request all_ok empty_world
  = (inl (result_of 2 demo_sum demo_identity, [], []), demo_record, demo_world).
Proof. vm_compute. reflexivity. Qed.

Lemma revision_history_immutable_witness :
  files demo_world !! GetRevisionFilePath "/data" "s1" 1 = Some "old".
Proof.
  destruct (@revision_history_immutable some_range (λ _, true) (λ _, None) (λ _, Some "doc") (λ s, s) (λ s, s) (λ _ _, inl [])
    "/repos" "/data" demo_request all_ok empty_world (inl (result_of 2 demo_sum demo_identity, [], [])) demo_record demo_world)
    as (_ & _ & H).
  - discriminate.
  - vm_compute. discriminate.
  - apply demo_run.
  - apply H; [reflexivity|by right|vm_compute; reflexivity].
Defined.


(** The stack above once its revision is deployed. *)
Definition demo_deployed : record := SetInt "deployed_version" 2 demo_record.


(** A move to another repository clears the checksum of a stack and keeps its version: the
    next render writes over the revision that is deployed. *)
Example cleared_checksum_example :
  files (demo_render (again demo_request demo_stack "c2" "t1") all_ok empty_world).2 !! "/data/s1/v1.yml" = Some "doc"
  ∧ files empty_world !! "/data/s1/v1.yml" = Some "old".
Proof. by vm_compute. Qed.

(** A write of the missing file that fails half-way is not repeated: the next render finds
    the file and takes it for the revision. *)
Theorem torn_revision_is_kept `{GoRange} `{UnicodeTables} yaml_marshal stackStorage rq e m v w content n : stat_ok e = true →
  yaml_marshal m = Some content → files w !! GetRevisionFilePath stackStorage (Id (rq_stack rq)) v = None → write e = Torn n →
  let w' := keep_revision yaml_marshal stackStorage rq e m v w in
  files w' !! GetRevisionFilePath stackStorage (Id (rq_stack rq)) v = Some (String.substring 0 n content)
  ∧ ∀ e2 m2, stat_ok e2 = true → keep_revision yaml_marshal stackStorage rq e2 m2 v w' = w'.
Proof.
  intros He Hy Hf Hw. cbv zeta.
  assert (files (keep_revision yaml_marshal stackStorage rq e m v w) !! GetRevisionFilePath stackStorage (Id (rq_stack rq)) v
    = Some (String.substring 0 n content)) as Hc.
  { unfold keep_revision. rewrite He bool_decide_eq_false_2; [|by rewrite Hf; intros []]. simpl. rewrite Hy Hw. apply lookup_insert_eq. }
  split; [done|]. intros e2 m2 He2. apply keep_revision_same; [done|]. by eexists.
Qed.

Lemma checksum_ignores_env_order_witness :
  checksum_of (λ _, Some "doc") (λ s, s) (λ s, s) ∅ ["A=1"; "B=2"]
  = checksum_of (λ _, Some "doc") (λ s, s) (λ s, s) ∅ ["B=2"; "A=1"].
Proof. apply (checksum_ignores_env_order (λ _, Some "doc") (λ s, s) (λ s, s)). constructor. Defined.

Definition forged : gmap string value :=
  {[ "web" := VMap {[ "labels" := VMap {[ labelStackID := VStr "victim"; "team" := VStr "a" ]} ]} ]}.
Definition demo_metadata : metadata :=
  {| md_stackID := "s1"; md_stackName := "media"; md_repoName := ""; md_repoURL := ""; md_branch := "main";
     md_composeFile := "docker-compose.yml"; md_fingerprint := "" |}.

Lemma ownership_labels_unforgeable_witness :
  ∃ svc' labels,
    injectVersionMetadata (stamp_services demo_metadata forged) "c1" "sum" "t0" 2 !! "web" = Some (VMap svc')
    ∧ get_map "labels" svc' = Some labels ∧ labels !! labelStackID = Some (VStr "s1").
Proof.
  destruct (ownership_labels_unforgeable demo_metadata forged "c1" "sum" "t0" 2 "web"
    {[ "labels" := VMap {[ labelStackID := VStr "victim"; "team" := VStr "a" ]} ]} eq_refl)
    as (svc' & labels & annotations & H1 & H2 & _ & _ & H3 & _).
  exists svc', labels. split; [exact H1|]. split; [exact H2|exact H3].
Defined.
