(* ===== verification/Scheduler.v ===== *)
(** * internal/sync/scheduler.go: tickers, triggers and slots

    Every goroutine of the scheduler is a thread of the state: a ticker of a
    stack or a repository, or one triggered operation.  A thread is idle (a
    ticker between ticks), waits for a slot of its semaphore, or runs.  A
    semaphore is the number of its slots in use.  The interleavings are the steps
    of [sched_step]; those of the boot, where [Start] takes the lock once for every
    record it starts and the hooks register stacks before and in between, are the
    steps of [boot_step]. *)
From Stdlib Require Import ZArith.
From S2P Require Import Prelude GoStrings GoValue PbRecord.

Inductive op := OpSync (trigger : string) (queueTotal : Z) | OpRollback (commitSHA : string)
  | OpForceRedeploy (containers volumes networks pauseAfter : bool) | OpTransfer (targetWorkerID : string).

Inductive kind := CronStack | CronRepo | Triggered (o : op) (userID : string).

Inductive phase := Idle | Waiting | Running.

#[global] Instance op_eq_dec : EqDecision op.
Proof. solve_decision. Defined.
#[global] Instance kind_eq_dec : EqDecision kind.
Proof. solve_decision. Defined.
#[global] Instance phase_eq_dec : EqDecision phase.
Proof. solve_decision. Defined.

Record thread := { th_kind : kind; th_key : string; th_interval : Z; th_cancelled : bool; th_phase : phase }.

Record Scheduler := {
  jobs : gmap string nat; repoJobs : gmap string nat; threads : gmap nat thread; next_id : nat;
  rootDone : bool; syncUsed : nat; fetchUsed : nat }.

Section scheduler.
Context (scanPeriod : Z) (maxSyncs maxFetches : nat).

(** ** Intervals *)
Definition maxSyncIntervalSeconds : Z := 365 * 24 * 60 * 60.

Definition intervalFromSeconds (seconds : Z) : Z :=
  if decide (seconds ≤ 0)%Z then scanPeriod
  else let seconds := if decide (maxSyncIntervalSeconds < seconds)%Z then maxSyncIntervalSeconds else seconds in
       wrap64 (seconds * 1000000000).

Definition resolveSyncInterval (stack : record) : Z := intervalFromSeconds (GetInt "sync_interval_seconds" stack).
Definition resolveRepoSyncInterval (repo : record) : Z := intervalFromSeconds (GetInt "sync_interval_seconds" repo).

(** ** Operations *)
Definition NewScheduler : Scheduler :=
  {| jobs := ∅; repoJobs := ∅; threads := ∅; next_id := 0; rootDone := false; syncUsed := 0; fetchUsed := 0 |}.

Definition set_threads (ths : gmap nat thread) (s : Scheduler) : Scheduler :=
  {| jobs := jobs s; repoJobs := repoJobs s; threads := ths; next_id := next_id s; rootDone := rootDone s;
     syncUsed := syncUsed s; fetchUsed := fetchUsed s |}.

Definition set_jobs (js : gmap string nat) (s : Scheduler) : Scheduler :=
  {| jobs := js; repoJobs := repoJobs s; threads := threads s; next_id := next_id s; rootDone := rootDone s;
     syncUsed := syncUsed s; fetchUsed := fetchUsed s |}.

Definition set_repoJobs (js : gmap string nat) (s : Scheduler) : Scheduler :=
  {| jobs := jobs s; repoJobs := js; threads := threads s; next_id := next_id s; rootDone := rootDone s;
     syncUsed := syncUsed s; fetchUsed := fetchUsed s |}.

Definition Shutdown (s : Scheduler) : Scheduler :=
  {| jobs := jobs s; repoJobs := repoJobs s; threads := threads s; next_id := next_id s; rootDone := true;
     syncUsed := syncUsed s; fetchUsed := fetchUsed s |}.

(** [go]: a new thread. *)
Definition spawn (t : thread) (s : Scheduler) : Scheduler :=
  {| jobs := jobs s; repoJobs := repoJobs s; threads := <[next_id s := t]> (threads s);
     next_id := S (next_id s); rootDone := rootDone s; syncUsed := syncUsed s; fetchUsed := fetchUsed s |}.

Definition cancel_thread (t : thread) : thread :=
  {| th_kind := th_kind t; th_key := th_key t; th_interval := th_interval t; th_cancelled := true;
     th_phase := th_phase t |}.

(** Calling the stored cancel function. *)
Definition cancel (o : option nat) (s : Scheduler) : Scheduler :=
  match o with Some id => set_threads (alter cancel_thread id (threads s)) s | None => s end.

Definition startJobLocked (stack : record) (s : Scheduler) : Scheduler :=
  set_jobs (<[Id stack := next_id s]> (jobs s))
    (spawn {| th_kind := CronStack; th_key := Id stack; th_interval := resolveSyncInterval stack;
              th_cancelled := false; th_phase := Idle |} s).

Definition startRepoJobLocked (repo : record) (s : Scheduler) : Scheduler :=
  set_repoJobs (<[Id repo := next_id s]> (repoJobs s))
    (spawn {| th_kind := CronRepo; th_key := Id repo; th_interval := resolveRepoSyncInterval repo;
              th_cancelled := false; th_phase := Idle |} s).

Definition paused (stack : record) : bool := bool_decide (GetString "status" stack = "paused").

(** What [Start] goes through: both tables are read first, and without either nothing
    starts.  The paused stacks are passed over when their turn comes. *)
Inductive item := StackItem (stack : record) | RepoItem (repo : record).

Definition start_plan (stacks repos : option (list record)) : option (list item) :=
  match stacks, repos with
  | Some stacks, Some repos => Some ((StackItem <$> List.filter (λ stack, negb (paused stack)) stacks) ++ (RepoItem <$> repos))
  | _, _ => None
  end.

(** [startJob] and [startRepoJob]: one record, under the lock. *)
Definition start_item (i : item) (s : Scheduler) : Scheduler :=
  match i with StackItem stack => startJobLocked stack s | RepoItem repo => startRepoJobLocked repo s end.

(** [Start] with nothing beside it. *)
Definition Start (stacks repos : option (list record)) (s : Scheduler) : bool * Scheduler :=
  match start_plan stacks repos with Some l => (true, foldl (λ s i, start_item i s) s l) | None => (false, s) end.

Definition RegisterStack (stack : record) (s : Scheduler) : Scheduler :=
  let s1 := cancel (jobs s !! Id stack) s in
  if paused stack then set_jobs (delete (Id stack) (jobs s1)) s1 else startJobLocked stack s1.

Definition UnregisterStack (stackID : string) (s : Scheduler) : Scheduler :=
  match jobs s !! stackID with
  | Some id => set_jobs (delete stackID (jobs s)) (cancel (Some id) s)
  | None => s
  end.

Definition RegisterRepo (repo : record) (s : Scheduler) : Scheduler :=
  startRepoJobLocked repo (cancel (repoJobs s !! Id repo) s).

Definition UnregisterRepo (repoID : string) (s : Scheduler) : Scheduler :=
  match repoJobs s !! repoID with
  | Some id => set_repoJobs (delete repoID (repoJobs s)) (cancel (Some id) s)
  | None => s
  end.

(** [safeRun] does nothing once the context is done. *)
Definition trigger (o : op) (stackID userID : string) (s : Scheduler) : Scheduler :=
  if rootDone s then s
  else spawn {| th_kind := Triggered o userID; th_key := stackID; th_interval := 0; th_cancelled := false;
                th_phase := Waiting |} s.

Definition TriggerSync (stackID tr : string) (queueTotal : Z) (userID : string) (s : Scheduler) : Scheduler :=
  trigger (OpSync tr queueTotal) stackID userID s.
Definition TriggerRollback (stackID commitSHA userID : string) (s : Scheduler) : Scheduler :=
  trigger (OpRollback commitSHA) stackID userID s.
Definition TriggerForceRedeploy (stackID : string) (c v n pauseAfter : bool) (userID : string) (s : Scheduler)
    : Scheduler := trigger (OpForceRedeploy c v n pauseAfter) stackID userID s.
Definition TriggerTransfer (stackID targetWorkerID userID : string) (s : Scheduler) : Scheduler :=
  trigger (OpTransfer targetWorkerID) stackID userID s.

(** ** The goroutines *)
Definition is_fetch (t : thread) : bool := bool_decide (th_kind t = CronRepo).
Definition is_ticker (t : thread) : bool :=
  match th_kind t with CronStack | CronRepo => true | Triggered _ _ => false end.

Definition set_phase (p : phase) (t : thread) : thread :=
  {| th_kind := th_kind t; th_key := th_key t; th_interval := th_interval t; th_cancelled := th_cancelled t;
     th_phase := p |}.

(** A ticker goes back to waiting for its next tick, a triggered one ends. *)
Definition settle (id : nat) (t : thread) (ths : gmap nat thread) : gmap nat thread :=
  if is_ticker t then <[id := set_phase Idle t]> ths else delete id ths.

Definition used (t : thread) (s : Scheduler) : nat := if is_fetch t then fetchUsed s else syncUsed s.
Definition slots (t : thread) : nat := if is_fetch t then maxFetches else maxSyncs.

Definition set_used (t : thread) (n : nat) (s : Scheduler) : Scheduler :=
  {| jobs := jobs s; repoJobs := repoJobs s; threads := threads s; next_id := next_id s; rootDone := rootDone s;
     syncUsed := if is_fetch t then syncUsed s else n; fetchUsed := if is_fetch t then n else fetchUsed s |}.

Inductive sched_step : Scheduler → Scheduler → Prop :=
| step_register stack s : sched_step s (RegisterStack stack s)
| step_unregister stackID s : sched_step s (UnregisterStack stackID s)
| step_register_repo repo s : sched_step s (RegisterRepo repo s)
| step_unregister_repo repoID s : sched_step s (UnregisterRepo repoID s)
| step_trigger o stackID userID s : sched_step s (trigger o stackID userID s)
| step_shutdown s : sched_step s (Shutdown s)
| step_tick id t s : threads s !! id = Some t → is_ticker t = true → th_phase t = Idle →
    th_cancelled t = false → rootDone s = false →
    sched_step s (set_threads (<[id := set_phase Waiting t]> (threads s)) s)
| step_stop id t s : threads s !! id = Some t → is_ticker t = true → th_phase t = Idle →
    th_cancelled t = true ∨ rootDone s = true →
    sched_step s (set_threads (delete id (threads s)) s)
| step_acquire id t s : threads s !! id = Some t → th_phase t = Waiting → used t s < slots t →
    sched_step s (set_used t (S (used t s)) (set_threads (<[id := set_phase Running t]> (threads s)) s))
| step_give_up id t s : threads s !! id = Some t → th_phase t = Waiting →
    rootDone s = true ∨ is_ticker t = true →
    sched_step s (set_threads (settle id t (threads s)) s)
| step_finish id t s : threads s !! id = Some t → th_phase t = Running →
    sched_step s (set_used t (pred (used t s)) (set_threads (settle id t (threads s)) s)).

(** ** The boot *)

(** The ticker that is registered for a repository ([f] is [true]) or a stack. *)
Definition registered (f : bool) (k : string) (s : Scheduler) : option nat := (if f then repoJobs s else jobs s) !! k.

Definition item_key (i : item) : bool * string := match i with StackItem r => (false, Id r) | RepoItem r => (true, Id r) end.

(** The scheduler, what [Start] has still to start ([None]: it has not read the tables), and
    the tickers whose cancel function [Start] has overwritten. *)
Record boot := { sched : Scheduler; pending : option (list item); lost : gmap (bool * string) nat }.

Definition booted : boot := {| sched := NewScheduler; pending := None; lost := ∅ |}.

Definition overwritten (i : item) (b : boot) : gmap (bool * string) nat :=
  match registered (item_key i).1 (item_key i).2 (sched b) with Some id => <[item_key i := id]> (lost b) | None => lost b end.

Inductive boot_step : boot → boot → Prop :=
| boot_any b s' : sched_step (sched b) s' → boot_step b {| sched := s'; pending := pending b; lost := lost b |}
| boot_read stacks repos l b : pending b = None → NoDup (Id <$> stacks) → NoDup (Id <$> repos) → start_plan (Some stacks) (Some repos) = Some l →
    boot_step b {| sched := sched b; pending := Some l; lost := lost b |}
| boot_start i l b : pending b = Some (i :: l) →
    boot_step b {| sched := start_item i (sched b); pending := Some l; lost := overwritten i b |}.

(** The scheduler from the start of the process on. *)
Definition sched_reachable (b : boot) : Prop := rtc boot_step booted b.

(** ** Invariant *)
Definition running (f : bool) (t : thread) : Prop := th_phase t = Running ∧ is_fetch t = f.

Definition holding (f : bool) (ths : gmap nat thread) : nat := size (filter (λ kv, running f kv.2) ths).

Definition one (f : bool) (t : thread) : nat := if decide (running f t) then 1 else 0.

Record inv (lost : gmap (bool * string) nat) (s : Scheduler) : Prop := {
  i_sync : syncUsed s = holding false (threads s) ∧ syncUsed s ≤ maxSyncs;
  i_fetch : fetchUsed s = holding true (threads s) ∧ fetchUsed s ≤ maxFetches;
  i_ids : ∀ id t, threads s !! id = Some t → id < next_id s;
  i_live : ∀ id t, threads s !! id = Some t → is_ticker t = true → th_cancelled t = false →
    registered (is_fetch t) (th_key t) s = Some id ∨ lost !! (is_fetch t, th_key t) = Some id
}.

Lemma holding_insert f id t ths : holding f (<[id := t]> ths) = one f t + holding f (delete id ths).
Proof.
  unfold holding, one. case_decide as Hr.
  - rewrite -insert_delete_eq map_filter_insert_True //.
    rewrite map_size_insert_None; [done|]. apply map_lookup_filter_None. left. apply lookup_delete_eq.
  - rewrite map_filter_insert_False //.
Qed.

Lemma holding_lookup f id t ths : ths !! id = Some t → holding f ths = one f t + holding f (delete id ths).
Proof. intros Ht. rewrite -{1}(insert_id ths id t Ht). apply holding_insert. Qed.

Lemma holding_new f id t ths : ths !! id = None → holding f (<[id := t]> ths) = one f t + holding f ths.
Proof. intros Hn. rewrite holding_insert delete_id //. Qed.

Lemma holding_alter f id ths : holding f (alter cancel_thread id ths) = holding f ths.
Proof.
  destruct (ths !! id) as [t|] eqn:Ht.
  - assert (alter cancel_thread id ths = <[id := cancel_thread t]> ths) as ->.
    { apply map_eq. intros j. destruct (decide (j = id)) as [->|Hne].
      - by rewrite lookup_alter_eq lookup_insert_eq Ht.
      - by rewrite lookup_alter_ne // lookup_insert_ne. }
    rewrite holding_insert (holding_lookup f id t ths Ht). done.
  - assert (alter cancel_thread id ths = ths) as ->; [|done].
    apply map_eq. intros j. destruct (decide (j = id)) as [->|Hne].
    + by rewrite lookup_alter_eq Ht.
    + by rewrite lookup_alter_ne.
Qed.

Lemma cancel_thread_kind t : is_ticker (cancel_thread t) = is_ticker t ∧ is_fetch (cancel_thread t) = is_fetch t.
Proof. done. Qed.

Lemma inv_cancel L o s : inv L s → inv L (cancel o s).
Proof.
  intros [Hs Hf Hi Hj]. destruct o as [id|]; [|done].
  assert (∀ j t, alter cancel_thread id (threads s) !! j = Some t → ∃ t0, threads s !! j = Some t0
    ∧ is_ticker t = is_ticker t0 ∧ is_fetch t = is_fetch t0 ∧ th_key t = th_key t0 ∧ (th_cancelled t = false → th_cancelled t0 = false)) as Hal.
  { intros j t. destruct (decide (j = id)) as [->|Hne].
    - rewrite lookup_alter_eq. destruct (threads s !! id) as [t0|]; [|done]. intros [= <-]. by exists t0.
    - rewrite lookup_alter_ne //. intros Ht. by exists t. }
  split; simpl.
  - by rewrite holding_alter.
  - by rewrite holding_alter.
  - intros j t (t0 & Ht0 & _)%Hal. by eapply Hi.
  - intros j t (t0 & Ht0 & Hk & Hfe & Hkey & Hc)%Hal Hkind Hcan. rewrite Hkey Hfe. apply Hj; [done|congruence|auto].
Qed.

(** After cancelling the registered ticker of a key, a live ticker of the key is a lost one. *)
Lemma cancel_kills L f k s id t : inv L s → threads (cancel (registered f k s) s) !! id = Some t →
  is_ticker t = true → th_cancelled t = false → is_fetch t = f → th_key t = k → L !! (f, k) = Some id.
Proof.
  intros Hinv Ht Hk Hc <- <-. destruct (registered _ _ s) as [id0|] eqn:Hjob; simpl in Ht.
  - destruct (decide (id = id0)) as [->|Hne].
    + rewrite lookup_alter_eq in Ht. destruct (threads s !! id0); simplify_eq/=.
    + rewrite lookup_alter_ne // in Ht. destruct (i_live L s Hinv id t Ht Hk Hc); [congruence|done].
  - destruct (i_live L s Hinv id t Ht Hk Hc); [congruence|done].
Qed.

Lemma fresh_thread L s : inv L s → threads s !! next_id s = None.
Proof.
  intros Hinv. destruct (threads s !! next_id s) as [t|] eqn:Ht; [|done].
  pose proof (i_ids L s Hinv _ _ Ht). lia.
Qed.

Lemma one_not_running f t : th_phase t ≠ Running → one f t = 0.
Proof. intros Hp. unfold one. rewrite decide_False //. by intros [? _]. Qed.

(** Starting a ticker where every live one of its key is lost. *)
Lemma inv_start L i s : inv L s →
  (∀ id t, threads s !! id = Some t → is_ticker t = true → th_cancelled t = false → (is_fetch t, th_key t) = item_key i → L !! item_key i = Some id) →
  inv L (start_item i s).
Proof.
  intros Hinv Hno. pose proof (fresh_thread L s Hinv) as Hfr. destruct Hinv as [Hs Hf Hi Hj].
  assert (∀ t, (∀ id' t', <[next_id s := t]> (threads s) !! id' = Some t' → id' < S (next_id s))) as Hids.
  { intros t id t'. destruct (decide (id = next_id s)) as [->|Hne]; [lia|]. rewrite lookup_insert_ne //. intros Ht%Hi. lia. }
  split; [destruct i; simpl; rewrite holding_new // one_not_running //..|destruct i; apply Hids|].
  intros id t Ht Hk Hc. destruct (decide (id = next_id s)) as [->|Hne].
  - left. unfold registered. destruct i as [r|r]; simpl in Ht |- *; rewrite lookup_insert_eq in Ht; injection Ht as <-; cbn; apply lookup_insert_eq.
  - assert (threads s !! id = Some t) as Ht0 by (destruct i; simpl in Ht; by rewrite lookup_insert_ne in Ht).
    destruct (decide ((is_fetch t, th_key t) = item_key i)) as [He|He]; [right; rewrite He; by eapply Hno|].
    destruct (Hj id t Ht0 Hk Hc) as [Hr|Hr]; [left|by right]. unfold registered in *.
    destruct i as [r|r]; simpl in He |- *; destruct (is_fetch t); try done; rewrite lookup_insert_ne //; congruence.
Qed.

(** Threads whose identity is kept. *)
Definition evolves (s : Scheduler) (ths : gmap nat thread) : Prop :=
  ∀ id t, ths !! id = Some t → ∃ t0, threads s !! id = Some t0
    ∧ th_kind t = th_kind t0 ∧ th_key t = th_key t0 ∧ th_cancelled t = th_cancelled t0.

Lemma inv_evolves L s ths su fu : inv L s → evolves s ths →
  su = holding false ths ∧ su ≤ maxSyncs → fu = holding true ths ∧ fu ≤ maxFetches →
  inv L {| jobs := jobs s; repoJobs := repoJobs s; threads := ths; next_id := next_id s; rootDone := rootDone s;
         syncUsed := su; fetchUsed := fu |}.
Proof.
  intros [Hs Hf Hi Hj] Hev H1 H2. split; simpl; [done|done| |].
  - intros id t (t0 & Ht0 & _)%Hev. by eapply Hi.
  - intros id t (t0 & Ht0 & Hk & Hkey & Hc)%Hev Htk Hcan. unfold is_ticker, is_fetch in *. rewrite Hk Hkey. apply (Hj id t0); [done|by rewrite -Hk|by rewrite -Hc].
Qed.

Lemma evolves_phase s id t p : threads s !! id = Some t → evolves s (<[id := set_phase p t]> (threads s)).
Proof.
  intros Ht j t'. destruct (decide (j = id)) as [->|Hne].
  - rewrite lookup_insert_eq. intros [= <-]. by exists t.
  - rewrite lookup_insert_ne //. intros Hj. by exists t'.
Qed.

Lemma evolves_delete s id : evolves s (delete id (threads s)).
Proof. intros j t'. rewrite lookup_delete_Some. intros [_ Hj]. by exists t'. Qed.

Lemma evolves_settle s id t : threads s !! id = Some t → evolves s (settle id t (threads s)).
Proof. intros Ht. unfold settle. destruct (is_ticker t); [by apply evolves_phase|apply evolves_delete]. Qed.

Lemma holding_phase f id t p ths : ths !! id = Some t → th_phase t ≠ Running → p ≠ Running →
  holding f (<[id := set_phase p t]> ths) = holding f ths.
Proof. intros Ht Hp Hp'. by rewrite holding_insert (holding_lookup f id t ths Ht) !one_not_running. Qed.

Lemma holding_delete f id t ths : ths !! id = Some t → th_phase t ≠ Running →
  holding f (delete id ths) = holding f ths.
Proof. intros Ht Hp. by rewrite (holding_lookup f id t ths Ht) one_not_running. Qed.

Lemma holding_settle f id t ths : ths !! id = Some t → holding f ths = one f t + holding f (settle id t ths).
Proof.
  intros Ht. rewrite (holding_lookup f id t ths Ht). f_equal. unfold settle. destruct (is_ticker t); [|done].
  by rewrite holding_insert one_not_running.
Qed.

Lemma holding_run f id t ths : ths !! id = Some t → th_phase t ≠ Running →
  holding f (<[id := set_phase Running t]> ths) = (if decide (is_fetch t = f) then 1 else 0) + holding f ths.
Proof.
  intros Ht Hp. rewrite holding_insert (holding_lookup f id t ths Ht) (one_not_running _ t) //.
  f_equal. unfold one, running. simpl. repeat case_decide; naive_solver.
Qed.

Lemma inv_delisted L f k s : inv L s →
  (∀ id t, threads s !! id = Some t → is_ticker t = true → th_cancelled t = false → is_fetch t = f → th_key t = k → L !! (f, k) = Some id) →
  inv L (if f then set_repoJobs (delete k (repoJobs s)) s else set_jobs (delete k (jobs s)) s).
Proof.
  intros [Hs Hf Hi Hj] Hk. destruct f; (split; [done..|]; intros id t Ht Htk Hc; simpl in Ht;
    destruct (Hj id t Ht Htk Hc) as [Hr|Hr]; [|by right]; unfold registered in *; simpl; destruct (is_fetch t) eqn:Hfe; try (by left);
    (destruct (decide (th_key t = k)) as [He|He]; [right; rewrite He; by eapply Hk|left; by rewrite lookup_delete_ne])).
Qed.

Lemma inv_register L stack s : inv L s → inv L (RegisterStack stack s).
Proof.
  intros Hinv. pose proof (inv_cancel L (registered false (Id stack) s) s Hinv) as Hc.
  pose proof (λ id t, cancel_kills L false (Id stack) s id t Hinv) as Hk. unfold RegisterStack. change (jobs s !! Id stack) with (registered false (Id stack) s).
  destruct (paused stack); [by apply (inv_delisted L false)|]. apply (inv_start L (StackItem stack)); [done|]. intros id t Ht Htk Hcan [= Hf Hkey]. by eapply Hk.
Qed.

Lemma inv_unregister L stackID s : inv L s → inv L (UnregisterStack stackID s).
Proof.
  intros Hinv. unfold UnregisterStack. pose proof (λ i t, cancel_kills L false stackID s i t Hinv) as Hk. unfold registered in Hk.
  destruct (jobs s !! stackID) as [id|] eqn:Hj; [|done]. apply (inv_delisted L false stackID (cancel (Some id) s)); [by apply inv_cancel|exact Hk].
Qed.

Lemma inv_register_repo L repo s : inv L s → inv L (RegisterRepo repo s).
Proof.
  intros Hinv. pose proof (λ id t, cancel_kills L true (Id repo) s id t Hinv) as Hk. apply (inv_start L (RepoItem repo)); [by apply inv_cancel|].
  intros id t Ht Htk Hcan [= Hf Hkey]. by eapply Hk.
Qed.

Lemma inv_unregister_repo L repoID s : inv L s → inv L (UnregisterRepo repoID s).
Proof.
  intros Hinv. unfold UnregisterRepo. pose proof (λ i t, cancel_kills L true repoID s i t Hinv) as Hk. unfold registered in Hk.
  destruct (repoJobs s !! repoID) as [id|] eqn:Hj; [|done]. apply (inv_delisted L true repoID (cancel (Some id) s)); [by apply inv_cancel|exact Hk].
Qed.

Lemma inv_trigger L o stackID userID s : inv L s → inv L (trigger o stackID userID s).
Proof.
  intros Hinv. unfold trigger. destruct (rootDone s); [done|].
  pose proof (fresh_thread L s Hinv) as Hfr. destruct Hinv as [Hs Hf Hi Hj]. split; simpl.
  - rewrite holding_new // one_not_running //.
  - rewrite holding_new // one_not_running //.
  - intros id t. destruct (decide (id = next_id s)) as [->|Hne]; [lia|].
    rewrite lookup_insert_ne //. intros Ht%Hi. lia.
  - intros id t. destruct (decide (id = next_id s)) as [->|Hne].
    + rewrite lookup_insert_eq. by intros [= <-].
    + rewrite lookup_insert_ne //. apply Hj.
Qed.

Lemma inv_acquire L id t s : inv L s → threads s !! id = Some t → th_phase t = Waiting → used t s < slots t →
  inv L (set_used t (S (used t s)) (set_threads (<[id := set_phase Running t]> (threads s)) s)).
Proof.
  intros Hinv Ht Hp Hu. assert (th_phase t ≠ Running) as Hnr by congruence.
  apply (inv_evolves L s (<[id := set_phase Running t]> (threads s)));
    [done|by apply evolves_phase|..]; simpl; rewrite holding_run //;
    destruct (i_sync L s Hinv), (i_fetch L s Hinv); unfold used, slots in *;
    destruct (is_fetch t); simpl in *; lia.
Qed.

Lemma inv_finish L id t s : inv L s → threads s !! id = Some t → th_phase t = Running →
  inv L (set_used t (pred (used t s)) (set_threads (settle id t (threads s)) s)).
Proof.
  intros Hinv Ht Hp. destruct (i_sync L s Hinv) as [Hs ?], (i_fetch L s Hinv) as [Hf ?].
  rewrite (holding_settle _ id t _ Ht) in Hs. rewrite (holding_settle _ id t _ Ht) in Hf.
  apply (inv_evolves L s (settle id t (threads s))); [done|by apply evolves_settle|..]; simpl; unfold used, one, running in *;
    destruct (is_fetch t); simpl in *; repeat case_decide; try lia; naive_solver.
Qed.

Lemma inv_keep L s ths : inv L s → evolves s ths → (∀ f, holding f ths = holding f (threads s)) →
  inv L (set_threads ths s).
Proof.
  intros Hinv Hev Hh. destruct (i_sync L s Hinv), (i_fetch L s Hinv).
  apply (inv_evolves L s ths); try done; by rewrite Hh.
Qed.

Lemma inv_step L s s' : sched_step s s' → inv L s → inv L s'.
Proof.
  intros Hst Hinv. destruct Hst as [stack s|stackID s|repo s|repoID s|o stackID userID s|s|id t s Ht _ Hp _ _
    |id t s Ht _ Hp _|id t s Ht Hp Hu|id t s Ht Hp _|id t s Ht Hp].
  - by apply inv_register.
  - by apply inv_unregister.
  - by apply inv_register_repo.
  - by apply inv_unregister_repo.
  - by apply inv_trigger.
  - by destruct Hinv.
  - apply inv_keep; [done|by apply evolves_phase|]. intros f. apply holding_phase; [done|by rewrite Hp|done].
  - apply inv_keep; [done|by apply evolves_delete|]. intros f. eapply holding_delete; [done|by rewrite Hp].
  - by apply inv_acquire.
  - apply inv_keep; [done|by apply evolves_settle|]. intros f.
    rewrite (holding_settle f id t _ Ht) one_not_running //. by rewrite Hp.
  - by apply inv_finish.
Qed.

(** [Start] has lost no ticker of a record it has still to start, and starts each once. *)
Definition boot_inv (b : boot) : Prop :=
  inv (lost b) (sched b) ∧ match pending b with Some l => NoDup (item_key <$> l) ∧ ∀ i, i ∈ l → lost b !! item_key i = None | None => lost b = ∅ end.

Lemma NoDup_filter_Id f (l : list record) : NoDup (Id <$> l) → NoDup (Id <$> List.filter f l).
Proof.
  induction l as [|r l IH]; [done|]. cbn. intros [Hr Hl]%NoDup_cons. destruct (f r); [|by apply IH]. cbn. apply NoDup_cons. split; [|by apply IH].
  intros (x & He & [Hx _]%list_elem_of_In%List.filter_In)%list_elem_of_fmap. apply Hr. rewrite He. by apply list_elem_of_fmap_2, list_elem_of_In.
Qed.

Lemma plan_keys stacks repos l : NoDup (Id <$> stacks) → NoDup (Id <$> repos) → start_plan (Some stacks) (Some repos) = Some l → NoDup (item_key <$> l).
Proof.
  intros Hs Hr [= <-]. rewrite fmap_app -!list_fmap_compose. change (item_key ∘ StackItem) with (pair false ∘ Id). change (item_key ∘ RepoItem) with (pair true ∘ Id).
  rewrite (list_fmap_compose Id (pair false)) (list_fmap_compose Id (pair true)). apply NoDup_app. split_and!.
  - apply (NoDup_fmap_2 (pair false)). by apply NoDup_filter_Id.
  - intros x (? & -> & _)%list_elem_of_fmap (? & [=] & _)%list_elem_of_fmap.
  - by apply (NoDup_fmap_2 (pair true)).
Qed.

Lemma boot_inv_step b b' : boot_step b b' → boot_inv b → boot_inv b'.
Proof.
  intros [b0 s' Hst|stacks repos l b0 Hp Hs Hr Hl|i l b0 Hp] [Hinv Hpe]; unfold boot_inv; simpl.
  - split; [by eapply inv_step|done].
  - rewrite Hp in Hpe. rewrite Hpe in Hinv |- *. split_and!; [done|exact (plan_keys _ _ _ Hs Hr Hl)|intros; apply lookup_empty].
  - rewrite Hp in Hpe. destruct Hpe as [Hnd Hno]. apply NoDup_cons in Hnd as [Hi Hnd]. pose proof (Hno i ltac:(by left)) as Hn.
    assert (∀ j, j ∈ l → item_key j ≠ item_key i) as Hne by (intros j Hj He; apply Hi; rewrite -He; by apply list_elem_of_fmap_2).
    assert (∀ j, j ∈ l → overwritten i b0 !! item_key j = None) as Hno'.
    { intros j Hj. unfold overwritten. destruct (registered _ _ _); [rewrite lookup_insert_ne; [|by apply not_eq_sym, Hne]|]; apply Hno; by right. }
    split_and!; [|done|done]. apply inv_start.
    + destruct Hinv as [H1 H2 H3 H4]. split; [done..|]. intros id t Ht Htk Hc. destruct (H4 id t Ht Htk Hc) as [|HL]; [by left|right].
      unfold overwritten. destruct (registered _ _ _); [|done]. rewrite lookup_insert_ne; [done|]. congruence.
    + intros id t Ht Htk Hc He. destruct (i_live _ _ Hinv id t Ht Htk Hc) as [Hr|HL]; [|congruence].
      unfold overwritten. rewrite -He /= Hr. apply lookup_insert_eq.
Qed.

Lemma reachable_inv b : sched_reachable b → inv (lost b) (sched b).
Proof.
  intros Hr. enough (boot_inv b) as [? _] by done. assert (boot_inv booted) as H0.
  { split; [|done]. assert (∀ f, holding f (threads NewScheduler) = 0) as H0.
    { intros f. unfold holding. simpl. by rewrite map_filter_empty map_size_empty. }
    split; rewrite /= ?H0; try lia; intros id t Ht; by rewrite lookup_empty in Ht. }
  unfold sched_reachable in Hr. induction Hr as [|x y z Hst _ IH]; [done|]. apply IH. by eapply boot_inv_step.
Qed.

Lemma start_runs l : ∀ b, pending b = Some l → ∃ L, rtc boot_step b {| sched := foldl (λ s i, start_item i s) (sched b) l; pending := Some []; lost := L |}.
Proof.
  induction l as [|i l IH]; intros b Hb.
  - exists (lost b). destruct b as [s pe L]. simpl in Hb. subst pe. apply rtc_refl.
  - destruct (IH {| sched := start_item i (sched b); pending := Some l; lost := overwritten i b |}) as [L HL]; [done|].
    exists L. eapply rtc_l; [by apply boot_start|exact HL].
Qed.

(** With nothing in between, the steps of the boot are [Start]. *)
Theorem start_completes stacks repos b : pending b = None → NoDup (Id <$> stacks) → NoDup (Id <$> repos) →
  ∃ L, rtc boot_step b {| sched := (Start (Some stacks) (Some repos) (sched b)).2; pending := Some []; lost := L |}.
Proof.
  intros Hp Hs Hr. destruct (start_runs ((StackItem <$> List.filter (λ stack, negb (paused stack)) stacks) ++ (RepoItem <$> repos))
    {| sched := sched b; pending := Some ((StackItem <$> List.filter (λ stack, negb (paused stack)) stacks) ++ (RepoItem <$> repos)); lost := lost b |}) as [L HL]; [done|].
  exists L. eapply rtc_l; [by apply (boot_read stacks repos)|exact HL].
Qed.

(** ** Properties *)

(** C37: From the start of the process on, whatever stacks and repositories are registered,
    paused and removed, before, during and after the start of the cron, ticks and triggers
    arrive and operations end: no more reconciles run at once than there are sync slots and
    no more fetches than fetch slots, every slot in use belongs to exactly one running
    thread, and a ticker that is not cancelled is the registered one of its stack or
    repository, or the one that was registered when the start reached that record and lost
    its cancel function there; so there is no second live ticker but that one. *)
Theorem scheduler_bounds b : sched_reachable b → let s := sched b in
  holding false (threads s) = syncUsed s ∧ syncUsed s ≤ maxSyncs
  ∧ holding true (threads s) = fetchUsed s ∧ fetchUsed s ≤ maxFetches
  ∧ (∀ id t, threads s !! id = Some t → th_kind t = CronStack → th_cancelled t = false →
      jobs s !! th_key t = Some id ∨ lost b !! (false, th_key t) = Some id)
  ∧ (∀ id t, threads s !! id = Some t → th_kind t = CronRepo → th_cancelled t = false →
      repoJobs s !! th_key t = Some id ∨ lost b !! (true, th_key t) = Some id).
Proof.
  intros Hinv%reachable_inv s. destruct (i_sync _ s Hinv), (i_fetch _ s Hinv). split_and!; try done; intros id t Ht Hk Hc;
    pose proof (i_live _ s Hinv id t Ht) as Hl; unfold is_ticker, is_fetch in Hl; rewrite Hk in Hl; by apply Hl.
Qed.

(** Removing a stack, or saving it as paused, stops its cron: every ticker of the stack is
    cancelled afterwards, the ones whose reconcile is still running included, but for one
    that [Start] has lost. *)
Theorem unregistered_stack_is_silent b stack id t : sched_reachable b → paused stack = true →
  (threads (UnregisterStack (Id stack) (sched b)) !! id = Some t
   ∨ threads (RegisterStack stack (sched b)) !! id = Some t) →
  th_kind t = CronStack → th_key t = Id stack → lost b !! (false, Id stack) ≠ Some id → th_cancelled t = true.
Proof.
  intros Hinv%reachable_inv Hp Ht Hk Hkey Hl. destruct (th_cancelled t) eqn:Hc; [done|exfalso]. apply Hl.
  apply (cancel_kills (lost b) false (Id stack) (sched b) id t Hinv); [|by rewrite /is_ticker Hk|done|by rewrite /is_fetch Hk|done]. unfold registered. destruct Ht as [Ht|Ht].
  - unfold UnregisterStack in Ht. by destruct (jobs (sched b) !! Id stack).
  - unfold RegisterStack in Ht. by rewrite Hp in Ht.
Qed.

(** Waiting for a slot never deadlocks: whenever a thread waits, either a
    slot of its pool is free for it or some thread holding one can finish. *)
Theorem slots_never_deadlock b id t : let s := sched b in sched_reachable b → 0 < maxSyncs → 0 < maxFetches →
  threads s !! id = Some t → th_phase t = Waiting →
  used t s < slots t ∨ ∃ id' t', threads s !! id' = Some t' ∧ th_phase t' = Running ∧ is_fetch t' = is_fetch t.
Proof.
  intros s Hinv%reachable_inv Hm Hf Ht Hp. destruct (decide (used t s < slots t)) as [|Hfull]; [by left|right].
  assert (holding (is_fetch t) (threads s) ≠ 0) as Hne.
  { destruct (i_sync _ s Hinv), (i_fetch _ s Hinv). unfold used, slots in Hfull. destruct (is_fetch t); lia. }
  unfold holding in Hne. rewrite map_size_ne_0_lookup in Hne. destruct Hne as (id' & t' & Hl).
  apply map_lookup_filter_Some in Hl as [Hl [Hr Hfe]]. by exists id', t'.
Qed.

(** The ticker interval is always a positive duration, whatever number of
    seconds is stored, as [time.NewTicker] requires: values up to a year are
    taken exactly, larger ones are clamped before the 64-bit multiplication can
    overflow, and unset ones give the scan period. *)
Theorem interval_positive seconds : (0 < scanPeriod)%Z →
  (0 < intervalFromSeconds seconds)%Z
  ∧ ((0 < seconds ≤ maxSyncIntervalSeconds)%Z → intervalFromSeconds seconds = seconds * 1000000000)%Z
  ∧ ((maxSyncIntervalSeconds < seconds)%Z →
       intervalFromSeconds seconds = maxSyncIntervalSeconds * 1000000000)%Z
  ∧ ((seconds ≤ 0)%Z → intervalFromSeconds seconds = scanPeriod).
Proof.
  intros Hs. assert (∀ n, (0 < n ≤ maxSyncIntervalSeconds)%Z → wrap64 (n * 1000000000) = n * 1000000000)%Z as Hw.
  { intros n Hn. unfold wrap64, maxSyncIntervalSeconds in *. rewrite Z.mod_small; lia. }
  unfold intervalFromSeconds. repeat case_decide; rewrite ?Hw; unfold maxSyncIntervalSeconds in *; lia.
Qed.
End scheduler.

Definition stack1 : record := {| Id := "st1"; fields := {[ "status" := VStr "paused" ]} |}.
Definition stack2 : record := {| Id := "st2"; fields := ∅ |}.

(** A stack that was syncing when the server stopped: the recovery saves it with the status
    of an error, the hook of the save registers it, and then [Start] starts it again. *)
Definition recovered : record := {| Id := "st2"; fields := {[ "status" := VStr "error" ]} |}.

Definition read_once (b : boot) : boot := {| sched := sched b; pending := Some [StackItem recovered]; lost := lost b |}.
Definition registered_first : boot := read_once {| sched := RegisterStack 1000000000 recovered NewScheduler; pending := None; lost := ∅ |}.
Definition twice : boot :=
  {| sched := start_item 1000000000 (StackItem recovered) (sched registered_first); pending := Some []; lost := overwritten (StackItem recovered) registered_first |}.

Lemma twice_reachable : sched_reachable 1000000000 1 1 twice.
Proof.
  eapply rtc_l; [apply (boot_any _ _ _ booted), (step_register _ _ _ recovered)|].
  eapply rtc_l; [apply (boot_read _ _ _ [recovered] [] [StackItem recovered]); [done|apply NoDup_singleton|constructor|reflexivity]|].
  eapply rtc_l; [by apply (boot_start _ _ _ (StackItem recovered) [])|apply rtc_refl].
Qed.

(** At the boot the recovered stack gets two tickers, and removing the stack stops only one:
    the other goes on reconciling it until the server stops. *)
Theorem boot_leaves_two_tickers : let s := sched twice in
  (∃ t0 t1, threads s !! 0 = Some t0 ∧ threads s !! 1 = Some t1 ∧ th_cancelled t0 = false ∧ th_cancelled t1 = false ∧
    (th_kind t0, th_key t0) = (CronStack, "st2") ∧ (th_kind t1, th_key t1) = (CronStack, "st2")) ∧
  (∃ t0, threads (UnregisterStack "st2" s) !! 0 = Some t0 ∧ th_cancelled t0 = false).
Proof. split; repeat eexists. Qed.

Definition started : boot :=
  {| sched := start_item 1000000000 (StackItem stack2) NewScheduler; pending := Some []; lost := ∅ |}.
Definition waiting : boot := {| sched := trigger (OpSync "manual" 0) "st2" "u1" (sched started); pending := Some []; lost := ∅ |}.

Lemma waiting_reachable : sched_reachable 1000000000 1 1 waiting.
Proof.
  eapply rtc_l; [apply (boot_read _ _ _ [stack2] [] [StackItem stack2] booted); [done|apply NoDup_singleton|constructor|reflexivity]|].
  eapply rtc_l; [by apply (boot_start _ _ _ (StackItem stack2) [])|].
  eapply rtc_l; [apply (boot_any _ _ _ started), (step_trigger _ _ _ (OpSync "manual" 0) "st2" "u1")|apply rtc_refl].
Qed.

Lemma scheduler_bounds_witness : syncUsed (sched waiting) ≤ 1 ∧ lost twice = {[ (false, "st2") := 0 ]} ∧
  ∃ t, threads (sched twice) !! 0 = Some t ∧ (jobs (sched twice) !! th_key t = Some 0 ∨ lost twice !! (false, th_key t) = Some 0).
Proof.
  split_and!.
  - apply (scheduler_bounds 1000000000 1 1 waiting waiting_reachable).
  - vm_compute. reflexivity.
  - eexists. split; [reflexivity|]. destruct (scheduler_bounds 1000000000 1 1 twice twice_reachable) as (_ & _ & _ & _ & H & _). by apply H.
Defined.

Definition paused2 : record := {| Id := "st2"; fields := {[ "status" := VStr "paused" ]} |}.

Lemma unregistered_stack_is_silent_witness :
  ∃ t, threads (RegisterStack 1000000000 paused2 (sched waiting)) !! 0 = Some t ∧ th_cancelled t = true.
Proof.
  eexists. split; [vm_compute; reflexivity|].
  eapply (unregistered_stack_is_silent 1000000000 1 1 waiting paused2 0).
  - apply waiting_reachable.
  - reflexivity.
  - right. vm_compute. reflexivity.
  - reflexivity.
  - reflexivity.
  - vm_compute. congruence.
Defined.

Lemma slots_never_deadlock_witness :
  ∃ t, threads (sched waiting) !! 1 = Some t ∧
    (used t (sched waiting) < slots 1 1 t ∨
     ∃ id' t', threads (sched waiting) !! id' = Some t' ∧ th_phase t' = Running ∧ is_fetch t' = is_fetch t).
Proof.
  eexists. split; [vm_compute; reflexivity|].
  eapply (slots_never_deadlock 1000000000 1 1 waiting 1); [apply waiting_reachable|lia|lia|vm_compute; reflexivity|reflexivity].
Defined.

Lemma interval_positive_witness : (0 < intervalFromSeconds 60000000000 10000000000)%Z.
Proof. apply (interval_positive 60000000000 10000000000). lia. Defined.
