(* ===== verification/PendingReconciles.v ===== *)
(** * internal/sync/scheduler.go: reconciles that waited for a worker

    [TriggerPendingReconciles] on the rows of [stack_pending_reconciles], as the
    database lists them.  [find_stack] looks a stack up, [created] is a row's
    creation time, [delete_ok] says whether deleting the row with that id
    succeeds. *)
From Stdlib Require Import ZArith.
From S2P Require Import Prelude GoStrings GoValue PbRecord.

Record dispatch := { d_stack : string; d_trigger : string; d_total : nat }.

Section pending.
Context `{GoRange} (find_stack : string → option record) (created : record → Z) (delete_ok : string → bool).

(** Rows of stacks that live on this worker. *)
Definition on_worker (workerID : string) (rec : record) : bool :=
  match find_stack (GetString "stack" rec) with
  | Some stackRec => bool_decide (GetString "worker" stackRec = workerID)
  | None => false
  end.

(** The events kept so far and the rows deleted so far. *)
Record scan := { events : gmap string record; deleted : list string }.

(** One row of the first loop; [None] when a delete fails. *)
Definition scan_row (workerID : string) (s : scan) (rec : record) : option scan :=
  if on_worker workerID rec then
    let stackID := GetString "stack" rec in
    match events s !! stackID with
    | None => Some {| events := <[stackID := rec]> (events s); deleted := deleted s |}
    | Some existing =>
        if decide (created existing < created rec)%Z then
          if delete_ok (Id existing)
          then Some {| events := <[stackID := rec]> (events s); deleted := deleted s ++ [Id existing] |} else None
        else
          if delete_ok (Id rec)
          then Some {| events := events s; deleted := deleted s ++ [Id rec] |} else None
    end
  else Some s.

(** The scan up to the end or the first failure (then [false]). *)
Fixpoint scan_rows (workerID : string) (l : list record) (s : scan) : bool * scan :=
  match l with
  | [] => (true, s)
  | rec :: l => match scan_row workerID s rec with Some s' => scan_rows workerID l s' | None => (false, s) end
  end.

(** The second loop: delete the row, then trigger. *)
Fixpoint dispatch_events (total : nat) (l : list (string * record)) (dels : list string) (out : list dispatch)
    : bool * list string * list dispatch :=
  match l with
  | [] => (true, dels, out)
  | (stackID, rec) :: l =>
      if delete_ok (Id rec)
      then dispatch_events total l (dels ++ [Id rec])
             (out ++ [{| d_stack := stackID; d_trigger := GetString "trigger" rec; d_total := total |}])
      else (false, dels, out)
  end.

Definition TriggerPendingReconciles (records : option (list record)) (workerID : string)
    : bool * list string * list dispatch :=
  match records with
  | None => (false, [], [])
  | Some records =>
      let '(ok, s) := scan_rows workerID records {| events := ∅; deleted := [] |} in
      if ok then dispatch_events (size (events s)) (go_range (events s)) (deleted s) []
      else (false, deleted s, [])
  end.

(** ** Lemmas *)

(** The newest row of a stack: no later one, and no earlier row of the same age. *)
Definition newest (l : list record) (workerID stackID : string) (rec : record) : Prop :=
  rec ∈ l ∧ on_worker workerID rec = true ∧ GetString "stack" rec = stackID
  ∧ ∀ r, r ∈ l → on_worker workerID r = true → GetString "stack" r = stackID → (created r ≤ created rec)%Z.

Record scanned (workerID : string) (p : list record) (s : scan) : Prop := {
  sc_newest : ∀ k rec, events s !! k = Some rec → newest p workerID k rec;
  sc_all : ∀ r, r ∈ p → on_worker workerID r = true → is_Some (events s !! GetString "stack" r);
  sc_rows : Id <$> filter (λ r, on_worker workerID r = true) p
            ≡ₚ deleted s ++ (Id <$> (map_to_list (events s)).*2)
}.

Lemma snd_insert_new (m : gmap string record) k r : m !! k = None →
  Id <$> (map_to_list (<[k := r]> m)).*2 ≡ₚ Id r :: (Id <$> (map_to_list m).*2).
Proof. intros Hk. by rewrite map_to_list_insert. Qed.

Lemma snd_lookup (m : gmap string record) k r : m !! k = Some r →
  Id <$> (map_to_list m).*2 ≡ₚ Id r :: (Id <$> (map_to_list (delete k m)).*2).
Proof. intros Hk. rewrite -{1}(insert_delete_id m k r Hk). apply snd_insert_new, lookup_delete_eq. Qed.

Lemma snd_replace (m : gmap string record) k r r' : m !! k = Some r →
  Id r :: (Id <$> (map_to_list (<[k := r']> m)).*2) ≡ₚ Id r' :: (Id <$> (map_to_list m).*2).
Proof.
  intros Hk. rewrite (snd_lookup m k r Hk) -insert_delete_eq snd_insert_new ?lookup_delete_eq //.
  apply Permutation_swap.
Qed.

Lemma scan_row_inv workerID p s rec s' : scanned workerID p s → scan_row workerID s rec = Some s' →
  scanned workerID (p ++ [rec]) s'.
Proof.
  intros [Hn Ha Hr] Hs. unfold scan_row in Hs.
  assert (∀ k r, newest p workerID k r → GetString "stack" rec ≠ k ∨ on_worker workerID rec = false →
    newest (p ++ [rec]) workerID k r) as Hext.
  { intros k r (H1 & H2 & H3 & H4) Hne. split_and!; [by apply elem_of_app; left|done|done|].
    intros x [Hx| ->%list_elem_of_singleton]%elem_of_app Hw Hk; [by apply H4|].
    destruct Hne; congruence. }
  destruct (on_worker workerID rec) eqn:Hw.
  2: { simplify_eq. split.
       - intros k r Hk. apply Hext; auto.
       - intros r [Hin| ->%list_elem_of_singleton]%elem_of_app Hon; [by apply Ha|congruence].
       - rewrite filter_app filter_cons_False; [by rewrite app_nil_r|]. by rewrite Hw. }
  assert (Id <$> filter (λ r, on_worker workerID r = true) (p ++ [rec])
          ≡ₚ Id rec :: (Id <$> filter (λ r, on_worker workerID r = true) p)) as Hf.
  { rewrite filter_app filter_cons_True // fmap_app /=. by rewrite Permutation_app_comm. }
  destruct (events s !! GetString "stack" rec) as [ex|] eqn:He.
  - destruct (Hn _ _ He) as (Hin & Hexw & Hexk & Hexm).
    case_decide as Hlt; [destruct (delete_ok (Id ex))|destruct (delete_ok (Id rec))]; simplify_eq; split; simpl.
    + intros k r. destruct (decide (k = GetString "stack" rec)) as [->|Hne].
      * rewrite lookup_insert_eq. intros [= <-]. split_and!; [apply elem_of_app; right; by constructor|done|done|].
        intros x [Hx| ->%list_elem_of_singleton]%elem_of_app Hxw Hk; [|lia].
        specialize (Hexm x Hx Hxw Hk). lia.
      * rewrite lookup_insert_ne //. intros Hk. apply Hext; auto.
    + intros r [Hin'| ->%list_elem_of_singleton]%elem_of_app Hon; rewrite lookup_insert; case_decide; eauto.
    + rewrite Hf Hr -app_assoc /=. rewrite (snd_replace _ _ ex rec He). by rewrite Permutation_middle.
    + intros k r Hk. destruct (decide (k = GetString "stack" rec)) as [->|Hne]; [|apply Hext; auto].
      simplify_eq. split_and!; [by apply elem_of_app; left|done|done|].
      intros x [Hx| ->%list_elem_of_singleton]%elem_of_app Hxw Hk; [by apply Hexm|lia].
    + intros r [Hin'| ->%list_elem_of_singleton]%elem_of_app Hon; eauto.
    + rewrite Hf Hr -app_assoc /=. by rewrite Permutation_middle.
  - simplify_eq. split; simpl.
    + intros k r. destruct (decide (k = GetString "stack" rec)) as [->|Hne].
      * rewrite lookup_insert_eq. intros [= <-]. split_and!; [apply elem_of_app; right; by constructor|done|done|].
        intros x [Hx| ->%list_elem_of_singleton]%elem_of_app Hxw Hk; [|lia].
        destruct (Ha x Hx Hxw) as [? Hx']. rewrite Hk in Hx'. congruence.
      * rewrite lookup_insert_ne //. intros Hk. apply Hext; auto.
    + intros r [Hin'| ->%list_elem_of_singleton]%elem_of_app Hon; rewrite lookup_insert; case_decide; try done; eauto.
    + rewrite Hf Hr snd_insert_new //. by rewrite Permutation_middle.
Qed.

Lemma scan_rows_inv workerID l : ∀ p s ok s', scanned workerID p s → scan_rows workerID l s = (ok, s') →
  ok = true → scanned workerID (p ++ l) s'.
Proof.
  induction l as [|rec l IH]; intros p s ok s' Hp Hs Hok; simpl in Hs.
  { simplify_eq. by rewrite app_nil_r. }
  destruct (scan_row workerID s rec) as [s1|] eqn:H1; [|simplify_eq].
  rewrite cons_middle app_assoc. eapply IH; [|done|done]. by eapply scan_row_inv.
Qed.

Lemma dispatch_spec total l : ∀ dels out ok dels' out', dispatch_events total l dels out = (ok, dels', out') →
  ∃ done todo, l = done ++ todo ∧ (ok = true → todo = [])
    ∧ dels' = dels ++ (Id <$> done.*2)
    ∧ out' = out ++ ((λ kr, {| d_stack := kr.1; d_trigger := GetString "trigger" kr.2; d_total := total |}) <$> done).
Proof.
  induction l as [|[k rec] l IH]; intros dels out ok dels' out' Hd; simpl in Hd.
  { simplify_eq. exists [], []. by rewrite !app_nil_r. }
  destruct (delete_ok (Id rec)).
  - destruct (IH _ _ _ _ _ Hd) as (dn & todo & -> & Hok & -> & ->). exists ((k, rec) :: dn), todo.
    split_and!; [done|done| |]; by rewrite -app_assoc.
  - simplify_eq. exists [], ((k, rec) :: l). by rewrite !app_nil_r.
Qed.

Lemma scan_rows_ok workerID l : (∀ id, delete_ok id = true) → ∀ s ok s',
  scan_rows workerID l s = (ok, s') → ok = true.
Proof.
  intros Hdel. induction l as [|r l IH]; intros s ok s' Hs; simpl in Hs; [by simplify_eq|].
  destruct (scan_row workerID s r) as [s1|] eqn:Hr; [by eapply IH|].
  unfold scan_row in Hr. destruct (on_worker workerID r); [|done].
  repeat case_match; try done; match goal with E : delete_ok _ = false |- _ => by rewrite Hdel in E end.
Qed.

Lemma dispatch_ok total l : (∀ id, delete_ok id = true) → ∀ dels out ok dels' out',
  dispatch_events total l dels out = (ok, dels', out') → ok = true.
Proof.
  intros Hdel. induction l as [|[k r] l IH]; intros dels out ok dels' out' Hd; simpl in Hd; [by simplify_eq|].
  rewrite Hdel in Hd. by eapply IH.
Qed.

(** ** Properties *)

(** When a worker comes back, every stack of that worker with waiting rows is
    reconciled exactly once, for the newest of its rows, every row of that
    worker's stacks is consumed and no other row is touched (given that the
    deletes succeed). *)
Theorem pending_reconciles_exact records workerID ok dels out :
  (∀ id, delete_ok id = true) →
  TriggerPendingReconciles (Some records) workerID = (ok, dels, out) →
  ok = true
  ∧ dels ≡ₚ Id <$> filter (λ r, on_worker workerID r = true) records
  ∧ NoDup (d_stack <$> out)
  ∧ (∀ d, d ∈ out → d_total d = length out
       ∧ ∃ rec, newest records workerID (d_stack d) rec ∧ d_trigger d = GetString "trigger" rec)
  ∧ ∀ r, r ∈ records → on_worker workerID r = true → GetString "stack" r ∈ d_stack <$> out.
Proof.
  intros Hdel. unfold TriggerPendingReconciles.
  destruct (scan_rows workerID records _) as [ok1 s] eqn:Hs.
  assert (ok1 = true) as -> by (by eapply scan_rows_ok).
  assert (scanned workerID records s) as [Hn Ha Hr].
  { eapply (scan_rows_inv workerID records [] _ true); [|done|done]. split; simpl; [|set_solver|done].
    intros k rec Hk. by rewrite lookup_empty in Hk. }
  intros Hd. assert (ok = true) as -> by (by eapply dispatch_ok).
  destruct (dispatch_spec _ _ _ _ _ _ _ Hd) as (dn & todo & Hl & Htodo & -> & ->).
  rewrite Htodo // app_nil_r in Hl. subst dn. rewrite app_nil_l.
  assert (d_stack <$> ((λ kr, {| d_stack := kr.1; d_trigger := GetString "trigger" kr.2;
    d_total := size (events s) |}) <$> go_range (events s)) = (go_range (events s)).*1) as Hst
    by (by rewrite -list_fmap_compose).
  split_and!; [done| | | |].
  - by rewrite Hr go_range_perm.
  - rewrite Hst. apply NoDup_go_range.
  - intros d ([k rec] & -> & Hin)%list_elem_of_fmap. apply elem_of_go_range in Hin. simpl. split.
    + by rewrite length_fmap go_range_perm length_map_to_list.
    + exists rec. split; [by apply Hn|done].
  - intros r Hin Hw. rewrite Hst. destruct (Ha r Hin Hw) as [rec Hrec].
    apply list_elem_of_fmap. exists (GetString "stack" r, rec). by rewrite elem_of_go_range.
Qed.
End pending.

Definition pend (id stack tr : string) : record :=
  {| Id := id; fields := {[ "stack" := VStr stack; "trigger" := VStr tr ]} |}.
Definition age (r : record) : Z := if decide (Id r = "p2") then 2%Z else 1%Z.
Definition home (_ : string) : option record := Some {| Id := "s"; fields := {[ "worker" := VStr "w1" ]} |}.

Lemma pending_reconciles_exact_witness :
  NoDup (d_stack <$> [{| d_stack := "s1"; d_trigger := "manual"; d_total := 1 |}]).
Proof.
  eapply (@pending_reconciles_exact some_range home age (λ _, true)
    [pend "p1" "s1" "cron"; pend "p2" "s1" "manual"; pend "p3" "s1" "cron"] "w1" true ["p1"; "p3"; "p2"]);
    [done|vm_compute; reflexivity].
Defined.
