(* ===== verification/EnvFile.v ===== *)
(** * internal/sync/envfile.go: the .env file shipped to a worker

    The loops over runes only compare with ASCII characters, so they are loops
    over bytes here. *)
From Stdlib Require Import ZArith.
From S2P Require Import Prelude GoStrings GoBase64.

Definition nl : ascii := ascii_of_nat 10.
Definition cr : ascii := ascii_of_nat 13.
Definition tab : ascii := ascii_of_nat 9.
Definition bslash : ascii := ascii_of_nat 92.
Definition dollar : ascii := "$"%char.

Fixpoint existsc (f : ascii → bool) (s : string) : bool :=
  match s with "" => false | String a s => f a || existsc f s end.

Definition invalid_key_char (c : ascii) : bool :=
  bool_decide (c = "="%char) || bool_decide (c = nl) || bool_decide (c = cr)
  || bool_decide (nat_of_ascii c < 32).

Definition validateEnvKey (key : string) : option string :=
  if decide (key = "") then Some "env key must not be empty"
  else if decide (TrimSpace key ≠ key) then Some "env key must not have surrounding whitespace"
  else if existsc invalid_key_char key then Some "env key contains invalid character"
  else None.

Definition special (c : ascii) : bool :=
  bool_decide (c ∈ [" "%char; tab; dquote; "#"%char; bslash; nl; cr]).

Definition escape_char (a : ascii) : string :=
  if decide (a = bslash) then String bslash (String bslash "")
  else if decide (a = dquote) then String bslash (String dquote "")
  else if decide (a = dollar) then String bslash (String dollar "")
  else if decide (a = nl) then String bslash "n"
  else if decide (a = cr) then String bslash "r"
  else if decide (a = tab) then String bslash "t"
  else String a "".

(** The replacer: one character at a time. *)
Fixpoint escape (s : string) : string :=
  match s with "" => "" | String a s => escape_char a +:+ escape s end.

Definition quoteEnvValue (val : string) : string :=
  let has c := existsc (λ a, bool_decide (a = c)) val in
  let hasDollar := has dollar in
  let hasSingleQuote := has squote in
  let needsQuote := hasDollar || hasSingleQuote || existsc special val in
  if negb needsQuote then val
  else if hasDollar && negb hasSingleQuote && negb (has cr || has nl) && negb (HasSuffix val (String bslash ""))
  then String squote val +:+ String squote ""
  else String dquote (escape val) +:+ String dquote "".

Fixpoint serializeEnvContent (envVars : list string) : string + string :=
  match envVars with
  | [] => inl ""
  | kv :: rest =>
      match cut "="%char kv with
      | None => inr ("malformed entry: missing '='")
      | Some (key, val) =>
          match validateEnvKey key with
          | Some err => inr err
          | None =>
              match serializeEnvContent rest with
              | inr err => inr err
              | inl more => inl (key +:+ "=" +:+ quoteEnvValue val +:+ String nl more)
              end
          end
      end
  end.

Definition BuildEnvFileB64 (envVars : list string) : string + string :=
  match envVars with
  | [] => inl ""
  | _ => match serializeEnvContent envVars with
         | inr err => inr ("BuildEnvFileB64: " +:+ err)
         | inl content => inl (EncodeToString content)
         end
  end.

(** ** What Docker Compose reads

    The reader of Docker Compose is a parameter.  [ComposeEnv] states what its documentation
    says of the forms the code uses: a text without quotes is the value if no blank, quote,
    backslash, [#] or [$] is in it and no white space around it; a text in single quotes is
    the value, [$] and [#] included, and only a quote after a backslash would go on; in
    double quotes the escapes stand for their characters and a [$] that is not escaped is
    interpolated; a line that starts with [#] is a comment.  [written w v] is: the text [w]
    stands for the value [v]. *)
Inductive escaped : string → string → Prop :=
| esc_nil : escaped "" ""
| esc_char c w v : c ∉ [dquote; bslash; dollar; nl; cr] → escaped w v → escaped (String c w) (String c v)
| esc_seq d c w v : (d, c) ∈ [(bslash, bslash); (dquote, dquote); (dollar, dollar); ("n"%char, nl); ("r"%char, cr); ("t"%char, tab)] → escaped w v →
    escaped (String bslash (String d w)) (String c v).

Inductive written : string → string → Prop :=
| written_plain v : (∀ c, in_string c v → c ∉ [" "%char; tab; nl; cr; dquote; squote; "#"%char; bslash; dollar]) → TrimSpace v = v → written v v
| written_single v : (∀ c, in_string c v → c ∉ [squote; nl; cr]) → HasSuffix v (String bslash "") = false → written (String squote v +:+ String squote "") v
| written_double w v : escaped w v → written (String dquote w +:+ String dquote "") v.

Definition name_char (c : ascii) : bool :=
  let n := nat_of_ascii c in
  (65 <=? n) && (n <=? 90) || (97 <=? n) && (n <=? 122) || (48 <=? n) && (n <=? 57) || (n =? 95).

(** A name of the environment, as the routes that write variables and the SOPS files ask for
    it: letters, digits and underscores, and no digit first. *)
Definition env_name (k : string) : bool :=
  match k with
  | "" => false
  | String c _ => negb ((48 <=? nat_of_ascii c) && (nat_of_ascii c <=? 57)) && negb (existsc (λ c, negb (name_char c)) k)
  end.

(** [read env content]: the variables a file defines, in its order, where [env] is what an
    interpolation finds. *)
Class ComposeEnv (read : (string → option string) → string → option (list (string * string))) := {
  read_empty env : read env "" = Some [];
  read_assignment env k w v rest : env_name k = true → written w v → read env (k +:+ "=" +:+ w +:+ String nl rest) = cons (k, v) <$> read env rest;
  read_comment env text rest : ¬ in_string nl text → read env (String "#"%char text +:+ String nl rest) = read env rest
}.

(** Where white space surrounds a value, some of it is a blank, a tab or a line break. *)
Definition plain_ends (v : string) : Prop := TrimSpace v = v ∨ ∃ c, in_string c v ∧ c ∈ [" "%char; tab; nl; cr].

(** ** Lemmas *)
Lemma existsc_false f s : existsc f s = false ↔ ∀ c, in_string c s → f c = false.
Proof.
  induction s as [|a s IH]; simpl; [split; [by intros|done]|].
  rewrite orb_false_iff IH. split; [intros [H1 H2] c [<-|Hc]; auto|auto].
Qed.

Lemma existsc_char c s : existsc (λ a, bool_decide (a = c)) s = false ↔ ¬ in_string c s.
Proof.
  rewrite existsc_false. split.
  - intros H Hc. specialize (H c Hc). by rewrite bool_decide_eq_true_2 in H.
  - intros H d Hd. apply bool_decide_eq_false_2. by intros ->.
Qed.

Lemma escape_escaped v : escaped (escape v) v.
Proof.
  induction v as [|a v IH]; [constructor|]. cbn [escape]. unfold escape_char.
  repeat (case_decide; [subst a; rewrite /= ; apply esc_seq; [apply (bool_decide_unpack _); vm_compute; exact I|done]|]).
  rewrite sapp_cons sapp_nil_l. apply esc_char; [|done]. rewrite !not_elem_of_cons. split_and!; try done. apply not_elem_of_nil.
Qed.

Lemma escaped_no_nl w v : escaped w v → ¬ in_string nl w.
Proof.
  induction 1 as [|c w v Hc _ IH|d c w v Hd _ IH]; [by intros []| |].
  - intros [->|Hin]; [|done]. apply Hc. apply (bool_decide_unpack _). vm_compute. exact I.
  - intros [Hb|[->|Hin]]; [done| |done]. rewrite !elem_of_cons elem_of_nil in Hd. destruct_or! Hd; done.
Qed.

Lemma written_no_nl w v : written w v → ¬ in_string nl w.
Proof.
  intros [u Hu _|u Hu _|u u' Hu].
  - intros Hin. apply (Hu nl Hin). apply (bool_decide_unpack _). vm_compute. exact I.
  - rewrite in_string_app. intros [[[=]|Hin]|[[=]|[]]]. apply (Hu nl Hin). apply (bool_decide_unpack _). vm_compute. exact I.
  - rewrite in_string_app. intros [[[=]|Hin]|[[=]|[]]]. by eapply escaped_no_nl.
Qed.

(** The quoting of the code is one of the forms, for the value it was given. *)
Lemma quote_written v : plain_ends v → written (quoteEnvValue v) v.
Proof.
  intros Hends. unfold quoteEnvValue. cbv zeta.
  assert (written (String dquote (escape v) +:+ String dquote "") v) as Hdouble by apply written_double, escape_escaped.
  destruct (existsc (λ a, bool_decide (a = dollar)) v) eqn:Hd, (existsc (λ a, bool_decide (a = squote)) v) eqn:Hs;
    cbn [orb andb negb]; try exact Hdouble; rewrite ?existsc_char in Hs Hd.
  - destruct (negb (_ || _) && negb _) eqn:Hx; [|exact Hdouble]. apply andb_true_iff in Hx as [Hx Hb%negb_true_iff].
    apply negb_true_iff, orb_false_iff in Hx as [Hc Hn]. rewrite !existsc_char in Hc Hn. apply written_single; [|done].
    intros c Hin. rewrite !elem_of_cons elem_of_nil. by intros [->|[->|[->|[]]]].
  - destruct (existsc special v) eqn:Hsp; [exact Hdouble|]. rewrite existsc_false in Hsp.
    assert (∀ c, in_string c v → c ∉ [" "%char; tab; dquote; "#"%char; bslash; nl; cr]) as Hno
      by (intros c Hc%Hsp; unfold special in Hc; by apply bool_decide_eq_false in Hc).
    apply written_plain.
    + intros c Hin Hc. pose proof (Hno c Hin) as Hc'. rewrite !not_elem_of_cons in Hc'. rewrite !elem_of_cons in Hc.
      rewrite elem_of_nil in Hc. destruct_or! Hc; subst c; naive_solver.
    + destruct Hends as [|(c & Hin & Hc)]; [done|]. destruct (Hno c Hin). rewrite !elem_of_cons elem_of_nil in Hc. rewrite !elem_of_cons. naive_solver.
Qed.

(** The three ways a value is written. *)
Inductive quoted (v : string) : string → Prop :=
| quoted_plain : ¬ in_string dollar v → ¬ in_string squote v → (∀ c, in_string c v → special c = false) →
    quoted v v
| quoted_single : ¬ in_string squote v → ¬ in_string nl v → quoted v (String squote v +:+ String squote "")
| quoted_double : quoted v (String dquote (escape v) +:+ String dquote "").

Lemma quote_cases v : quoted v (quoteEnvValue v).
Proof.
  unfold quoteEnvValue. cbv zeta.
  destruct (existsc (λ a, bool_decide (a = dollar)) v) eqn:Hd, (existsc (λ a, bool_decide (a = squote)) v) eqn:Hs;
    cbn [orb andb negb]; try constructor; rewrite ?existsc_char in Hs Hd.
  - destruct (negb (_ || _) && _) eqn:Hx; [|constructor]. apply andb_true_iff in Hx as [Hx _].
    apply negb_true_iff, orb_false_iff in Hx as [_ Hx]. rewrite existsc_char in Hx. by constructor.
  - destruct (existsc special v) eqn:Hsp; simpl; constructor; try done. by apply existsc_false.
Qed.

Lemma validated_key key : validateEnvKey key = None → ¬ in_string "="%char key ∧ ¬ in_string nl key.
Proof.
  unfold validateEnvKey. case_decide; [done|]. case_decide; [done|].
  destruct (existsc _ _) eqn:He; [done|]. rewrite existsc_false in He. intros _.
  split; intros Hin%He; done.
Qed.

(** Every variable that is written is one line. *)
Lemma escape_no_nl v : ¬ in_string nl (escape v).
Proof. apply (escaped_no_nl _ v), escape_escaped. Qed.

Lemma line_written key val : validateEnvKey key = None → ¬ in_string nl (key +:+ "=" +:+ quoteEnvValue val).
Proof.
  intros [_ Hn]%validated_key. rewrite !in_string_app. intros [?|[[[=]|[]]|Hin]]; [done|]. destruct (quote_cases val) as [_ _ H3|_ H2|].
  - by specialize (H3 nl Hin).
  - rewrite in_string_app in Hin. by destruct Hin as [[[=]|?]|[[=]|[]]].
  - rewrite in_string_app in Hin. destruct Hin as [[[=]|Hin]|[[=]|[]]]. by apply escape_no_nl in Hin.
Qed.

Lemma name_char_spec c : name_char c = true → 48 ≤ nat_of_ascii c ∧ c ≠ "="%char.
Proof. unfold name_char. intros H. split; [|by intros ->]. repeat (apply orb_true_iff in H as [H|H]); try (apply andb_true_iff in H as [H _]); rewrite ?Nat.leb_le ?Nat.eqb_eq in H; lia. Qed.

Lemma name_chars k c : env_name k = true → in_string c k → name_char c = true.
Proof.
  unfold env_name. destruct k as [|a k]; [done|]. intros [_ Hn%negb_true_iff]%andb_true_iff Hin. rewrite existsc_false in Hn. by apply negb_false_iff, Hn.
Qed.

(** A text of name characters has no white space to cut. *)
Lemma no_strip (ps : list string) s : forallb (λ p, match p with String c _ => negb (name_char c) | "" => false end) ps = true →
  (∀ c, in_string c s → name_char c = true) → strip_any ps s = None.
Proof.
  intros Hps Hs. unfold strip_any. induction ps as [|p ps IH]; [done|]. cbn in Hps |- *. apply andb_true_iff in Hps as [Hp Hps].
  destruct p as [|c p]; [done|]. destruct s as [|a s]; [by apply IH|]. cbn [strip_prefix].
  assert (c ≠ a) as Hne by (intros ->; by rewrite (Hs a ltac:(by left)) in Hp). rewrite decide_False //. by apply IH.
Qed.

Lemma in_srev c s : in_string c (srev s) ↔ in_string c s.
Proof. induction s as [|a s IH]; [done|]. rewrite srev_cons in_string_app IH. cbn. tauto. Qed.

Lemma name_trimmed k : (∀ c, in_string c k → name_char c = true) → TrimSpace k = k.
Proof.
  intros Hk. unfold TrimSpace, trim_right, trim_left. assert (∀ n ps s, strip_any ps s = None → trim_left_fuel n ps s = s) as Hid by (intros [|n] ps s H; cbn; [|rewrite H]; done).
  rewrite (Hid _ space_seqs k); [|by apply no_strip; [vm_compute; reflexivity|]]. rewrite Hid; [apply srev_involutive|]. apply no_strip; [vm_compute; reflexivity|]. intros c Hc. by apply Hk, in_srev.
Qed.

(** A name passes the check of the keys. *)
Lemma name_validated k : env_name k = true → validateEnvKey k = None ∧ ¬ in_string "="%char k ∧ ¬ in_string nl k.
Proof.
  intros Hk. pose proof (λ c Hc, name_char_spec c (name_chars k c Hk Hc)) as Hc. split_and!.
  - unfold validateEnvKey. destruct (decide (k = "")) as [->|_]; [done|]. destruct (decide (TrimSpace k ≠ k)) as [Hn|_].
    { destruct Hn. apply name_trimmed. intros c. by apply name_chars. }
    rewrite (proj2 (existsc_false invalid_key_char k)); [done|]. intros c Hin. destruct (Hc c Hin) as [H48 Hne]. unfold invalid_key_char.
    rewrite !orb_false_iff !bool_decide_eq_false. split_and!; [done|intros ->; vm_compute in H48; lia|intros ->; vm_compute in H48; lia|lia].
  - intros Hin. by destruct (Hc _ Hin).
  - intros Hin. destruct (Hc _ Hin) as [H _]. vm_compute in H. lia.
Qed.

Section reader.
Context (read : (string → option string) → string → option (list (string * string))) `{!ComposeEnv read}.

(** C39: The .env file shipped to a worker loses nothing: variables with the names an
    environment has are written, one line each, and Docker Compose, which is a parameter
    with the rules of its documentation for quotes, escapes, comments and interpolation,
    reads back exactly them, in order, whatever its own environment holds; so no value is
    interpolated, cut at a comment, or read as another line or variable.  A value that has
    only other white space than blanks, tabs and line breaks around it, such as a form
    feed, is left out: the code does not quote it. *)
Theorem env_file_roundtrip vars : Forall (λ kv, env_name kv.1 = true ∧ plain_ends kv.2) vars →
  ∃ content, serializeEnvContent ((λ kv, kv.1 +:+ "=" +:+ kv.2) <$> vars) = inl content ∧
    (∀ env, read env content = Some vars) ∧ length (Split nl content) = S (length vars).
Proof.
  induction 1 as [|[key val] vars [Hk Hv] _ IH]; cbn [fmap list_fmap fst snd] in *.
  { exists "". split; [done|]. split; [apply read_empty|done]. }
  destruct IH as (more & Hm & Hr & Hl). destruct (name_validated key Hk) as (Hval & Heq & Hnl). pose proof (quote_written val Hv) as Hw.
  exists (key +:+ "=" +:+ quoteEnvValue val +:+ String nl more). split_and!.
  - cbn [serializeEnvContent]. rewrite (proj2 (cut_Some "="%char (key +:+ "=" +:+ val) key val)); [|by split]. by rewrite Hval Hm.
  - intros env. by rewrite (read_assignment _ _ _ val) // Hr.
  - rewrite -!sapp_assoc (Split_app nl ((key +:+ "=") +:+ quoteEnvValue val) more); [by rewrite /= Hl|].
    rewrite !in_string_app. intros [[?|[[=]|[]]]|Hin]; [done|]. by apply (written_no_nl _ val) in Hin.
Qed.

(** The check of the keys lets a key pass that starts with the sign of a comment: the
    variable is written and Docker Compose skips its line. *)
Theorem hash_key_is_lost val env : ∃ content, serializeEnvContent ["#A=" +:+ val] = inl content ∧ read env content = Some [].
Proof.
  exists ("#A=" +:+ quoteEnvValue val +:+ String nl ""). split; [done|]. pose proof (line_written "#A" val ltac:(vm_compute; reflexivity)) as Hn.
  change ("#A=" +:+ quoteEnvValue val +:+ String nl "") with (String "#"%char ("A=" +:+ quoteEnvValue val +:+ String nl "")).
  rewrite -(sapp_assoc "A=") -sapp_cons read_comment; [apply read_empty|]. intros Hin. apply Hn. right. exact Hin.
Qed.
End reader.

(** ** A reader

    One that follows the rules: comments and empty lines are skipped, a [$] that is not
    escaped or in single quotes is interpolated, here up to the end of the text. *)
Definition seq_char (a : ascii) : ascii :=
  if decide (a = "n"%char) then nl else if decide (a = "r"%char) then cr
  else if decide (a = "t"%char) then tab else a.

Fixpoint unescape (env : string → option string) (s : string) : string :=
  match s with
  | "" => ""
  | String c r =>
      if decide (c = dquote) then ""
      else if decide (c = dollar) then default "" (env r)
      else if decide (c = bslash) then
        match r with "" => "" | String d r => String (seq_char d) (unescape env r) end
      else String c (unescape env r)
  end.

Definition read_value (env : string → option string) (w : string) : string :=
  match w with
  | "" => ""
  | String c r =>
      if decide (c = squote) then TrimSuffix r (String squote "")
      else if decide (c = dquote) then unescape env r
      else match cut dollar w with Some (before, name) => before +:+ default "" (env name) | None => TrimSpace (hd "" (Split "#"%char w)) end
  end.

Fixpoint sample_lines (env : string → option string) (lines : list string) : option (list (string * string)) :=
  match lines with
  | [] => Some []
  | line :: lines =>
      if decide (line = "" ∨ HasPrefix line "#" = true) then sample_lines env lines
      else match cut "="%char line with Some (k, w) => cons (k, read_value env w) <$> sample_lines env lines | None => None end
  end.

Definition sample_read (env : string → option string) (content : string) : option (list (string * string)) := sample_lines env (Split nl content).

Lemma unescape_escaped env w v r : escaped w v → unescape env (w +:+ String dquote r) = v.
Proof.
  induction 1 as [|c w v Hc _ IH|d c w v Hd _ IH]; [done| |].
  - rewrite !not_elem_of_cons in Hc. rewrite sapp_cons. cbn [unescape]. rewrite !decide_False; [by rewrite IH|naive_solver..].
  - rewrite !sapp_cons. simpl. rewrite IH. f_equal.
    rewrite !elem_of_cons elem_of_nil in Hd. destruct_or! Hd; by simplify_eq.
Qed.

Lemma read_written env w v : written w v → read_value env w = v.
Proof.
  intros [u Hu Ht|u Hu _|u u' Hu].
  - destruct u as [|c r]; [done|]. unfold read_value.
    assert (∀ x, x ∈ [" "%char; tab; nl; cr; dquote; squote; "#"%char; bslash; dollar] → ¬ in_string x (String c r)) as Hno by (intros x Hx Hin; by apply (Hu x)).
    rewrite decide_False; [|intros ->; apply (Hno squote); [apply (bool_decide_unpack _); vm_compute; exact I|by left]].
    rewrite decide_False; [|intros ->; apply (Hno dquote); [apply (bool_decide_unpack _); vm_compute; exact I|by left]].
    rewrite (proj2 (cut_None _ _)); [|apply Hno, (bool_decide_unpack _); vm_compute; exact I].
    rewrite Split_single; [exact Ht|]. apply Hno, (bool_decide_unpack _). vm_compute. exact I.
  - rewrite sapp_cons. exact (TrimSuffix_app u (String squote "")).
  - rewrite sapp_cons. by apply unescape_escaped.
Qed.

Lemma sample_reads : ComposeEnv sample_read.
Proof.
  split; [done| |].
  - intros env k w v rest Hk Hw. destruct (name_validated k Hk) as (_ & Heq & Hnl). unfold sample_read.
    rewrite -!sapp_assoc (Split_app nl ((k +:+ "=") +:+ w) rest).
    2: { rewrite !in_string_app. intros [[?|[[=]|[]]]|Hin]; [done|]. by apply (written_no_nl _ v) in Hin. }
    cbn [sample_lines]. rewrite decide_False.
    2: { destruct k as [|c k]; [done|]. intros [[=]|Hp]. assert (name_char c = true) as Hc by (apply (name_chars (String c k)); [done|by left]).
         rewrite !sapp_cons in Hp. apply HasPrefix_spec in Hp as [r [= -> _]]. done. }
    rewrite sapp_assoc (proj2 (cut_Some "="%char (k +:+ "=" +:+ w) k w)); [|by split]. by rewrite (read_written env w v).
  - intros env text rest Hn. unfold sample_read. rewrite sapp_cons -sapp_cons Split_app; [|by intros [[=]|?]]. cbn [sample_lines].
    case_decide as Hne; [done|]. destruct Hne. right. apply HasPrefix_spec. by exists text.
Qed.

Lemma env_file_roundtrip_witness :
  let vars := [("A", "1"); ("B", "$x#y"); ("C", "it's $HOME" +:+ String nl "end")] in
  ∃ content, serializeEnvContent ((λ kv, kv.1 +:+ "=" +:+ kv.2) <$> vars) = inl content ∧
    (∀ env, sample_read env content = Some vars) ∧ length (Split nl content) = 4.
Proof.
  intros vars. apply (@env_file_roundtrip sample_read sample_reads vars). repeat constructor; vm_compute; reflexivity.
Defined.
