(* ===== verification/EnvVars.v ===== *)
(** * internal/envvars/resolver.go: the effective environment of a stack or job

    The rows are as the database lists them; [find_global] looks up a global
    variable, [resolve_secret] asks a secret provider for a value ([None] for the
    whole function when no registry is configured). *)
From Stdlib Require Import ZArith.
From S2P Require Import Prelude GoStrings GoValue PbRecord.

Section envvars.
Context (registry : option (string → string → string + string)).

(** The value of one row: its key, or nothing when the key is blank. *)
Definition resolve_row (rec : record) : option (string * string) + string :=
  let key := TrimSpace (GetString "key" rec) in
  if decide (key = "") then inl None
  else
    let value := GetString "value" rec in
    if GetBool "secret" rec then
      match registry with
      | None => inr ("cannot resolve secret env var " +:+ key +:+ ": secret registry is not configured")
      | Some resolve =>
          match resolve (GetString "secret_provider" rec) value with
          | inl v => inl (Some (key, v))
          | inr err => inr ("cannot resolve secret env var " +:+ key +:+ ": " +:+ err)
          end
      end
    else inl (Some (key, value)).

Definition putResolved (rec : record) (values : gmap string string) : gmap string string + string :=
  match resolve_row rec with
  | inr err => inr err
  | inl None => inl values
  | inl (Some (k, v)) => inl (<[k := v]> values)
  end.

Fixpoint put_all (l : list record) (values : gmap string string) : gmap string string + string :=
  match l with
  | [] => inl values
  | rec :: l => match putResolved rec values with inr err => inr err | inl values => put_all l values end
  end.

(** A table that may not exist yet: [inl None]. *)
Definition rows_of (t : option (list record) + string) : list record + string :=
  match t with inl (Some l) => inl l | inl None => inl [] | inr err => inr err end.

Context (find_global : string → option record).

Fixpoint global_rows (bindings : list record) : list record + string :=
  match bindings with
  | [] => inl []
  | b :: bindings =>
      let globalID := GetString "global_env_var" b in
      if decide (globalID = "") then global_rows bindings
      else match find_global globalID with
           | None => inr ("load global env var " +:+ globalID)
           | Some rec => match global_rows bindings with inr err => inr err | inl l => inl (rec :: l) end
           end
  end.

Definition loadGlobalRecords (bindings : option (list record) + string) : list record + string :=
  match rows_of bindings with inr err => inr err | inl bs => global_rows bs end.

Definition loadEffective (bindings locals : option (list record) + string) : gmap string string + string :=
  match loadGlobalRecords bindings with
  | inr err => inr err
  | inl globals =>
      match put_all globals ∅ with
      | inr err => inr err
      | inl values =>
          match rows_of locals with
          | inr err => inr err
          | inl ls => put_all ls values
          end
      end
  end.

Definition sortedEnvList (values : gmap string string) : list string :=
  (λ k, k +:+ "=" +:+ default "" (values !! k)) <$> sorted_keys values.

Definition LoadStack (bindings locals : option (list record) + string) : list string + string :=
  match loadEffective bindings locals with inr err => inr err | inl values => inl (sortedEnvList values) end.

Definition LoadJob (bindings locals : option (list record) + string) : gmap string string + string :=
  loadEffective bindings locals.

(** ** Precedence *)

(** The rows' resolved pairs, or failure. *)
Fixpoint resolved_rows (l : list record) : option (list (string * string)) :=
  match l with
  | [] => Some []
  | rec :: l =>
      match resolve_row rec, resolved_rows l with
      | inl o, Some ps => Some (option_list o ++ ps)
      | _, _ => None
      end
  end.

(** The last value given to a key. *)
Fixpoint last_value (k : string) (ps : list (string * string)) : option string :=
  match ps with
  | [] => None
  | (k', v) :: ps => match last_value k ps with
                     | Some v' => Some v'
                     | None => if decide (k = k') then Some v else None
                     end
  end.

Lemma put_all_spec l : ∀ values,
  match resolved_rows l with
  | Some ps => ∃ m, put_all l values = inl m
      ∧ ∀ k, m !! k = match last_value k ps with Some v => Some v | None => values !! k end
  | None => ∃ err, put_all l values = inr err
  end.
Proof.
  induction l as [|rec l IH]; intros values; simpl; [by exists values|].
  unfold putResolved. destruct (resolve_row rec) as [o|err]; [|by exists err].
  set (values' := match o with Some (k, v) => <[k := v]> values | None => values end).
  assert ((match match o with Some (k, v) => inl (<[k := v]> values) | None => inl values end with
           | inl values0 => put_all l values0 | inr err => inr err end)
          = put_all l values') as Heq by (unfold values'; by destruct o as [[]|]).
  specialize (IH values'). destruct (resolved_rows l) as [ps|].
  - destruct IH as (m & Hm & Hk). exists m. split; [by rewrite -Hm -Heq; destruct o as [[]|]|].
    intros k. rewrite Hk. unfold values'. destruct o as [[k' v]|]; simpl; [|done].
    destruct (last_value k ps); [done|]. rewrite lookup_insert. case_decide as E1; case_decide as E2; congruence.
  - destruct IH as (err & He). exists err. rewrite -He -Heq. by destruct o as [[]|].
Qed.

(** The environment of a stack is the global variables overridden by its own,
    the later row winning among rows of the same key; it is delivered sorted by
    key with every key once, and it is refused as a whole when one secret cannot
    be resolved. *)
Theorem effective_environment bindings locals gs ls :
  loadGlobalRecords bindings = inl gs → rows_of locals = inl ls →
  match resolved_rows gs, resolved_rows ls with
  | Some gps, Some lps =>
      ∃ m, loadEffective bindings locals = inl m
        ∧ (∀ k, m !! k = match last_value k lps with Some v => Some v | None => last_value k gps end)
        ∧ LoadStack bindings locals = inl (sortedEnvList m)
        ∧ Sorted strings.String.le (sorted_keys m) ∧ NoDup (sorted_keys m)
        ∧ ∀ e, e ∈ sortedEnvList m ↔ ∃ k v, m !! k = Some v ∧ e = k +:+ "=" +:+ v
  | _, _ => ∃ err, loadEffective bindings locals = inr err ∧ LoadStack bindings locals = inr err
  end.
Proof.
  intros Hg Hl. unfold LoadStack, loadEffective. rewrite Hg Hl.
  pose proof (put_all_spec gs ∅) as H1. destruct (resolved_rows gs) as [gps|].
  2: { destruct H1 as [err ->]. by exists err. }
  destruct H1 as (m1 & -> & Hm1). pose proof (put_all_spec ls m1) as H2.
  destruct (resolved_rows ls) as [lps|].
  2: { destruct H2 as [err ->]. by exists err. }
  destruct H2 as (m & -> & Hm). exists m. split_and!; [done| |done|apply sort_strings_sorted|apply NoDup_sorted_keys|].
  - intros k. rewrite Hm Hm1 lookup_empty. destruct (last_value k lps); [done|]. by destruct (last_value k gps).
  - intros e. unfold sortedEnvList. rewrite list_elem_of_fmap. split.
    + intros (k & -> & Hk). apply elem_of_sorted_keys in Hk as [v Hv]. exists k, v. by rewrite Hv.
    + intros (k & v & Hv & ->). exists k. rewrite Hv elem_of_sorted_keys. eauto.
Qed.
End envvars.

Definition var (id k v : string) : record :=
  {| Id := id; fields := {[ "key" := VStr k; "value" := VStr v; "secret" := VBool false ]} |}.
Definition binding : record := {| Id := "b1"; fields := {[ "global_env_var" := VStr "g1" ]} |}.

Lemma effective_environment_witness :
  ∃ m, loadEffective None (λ _, Some (var "g1" "A" "global")) (inl (Some [binding])) (inl (Some [var "l1" "A" "local"])) = inl m
    ∧ LoadStack None (λ _, Some (var "g1" "A" "global")) (inl (Some [binding])) (inl (Some [var "l1" "A" "local"]))
      = inl (sortedEnvList m).
Proof.
  destruct (effective_environment None (λ _, Some (var "g1" "A" "global")) (inl (Some [binding]))
    (inl (Some [var "l1" "A" "local"])) [var "g1" "A" "global"] [var "l1" "A" "local"] eq_refl eq_refl)
    as (m & H1 & _ & H2 & _).
  exists m. split; [exact H1|exact H2].
Defined.
