(* ===== verification/WaitJobs.v ===== *)
(** * internal/sync/wait_jobs.go: a deploy waiting for running jobs

    What each round of the polling loop meets is an argument: the context ending
    during the pause, or the answer to the query for active job runs, with the
    time.  The deploy's timeline is the one of [PhaseTracker]; the sync log is
    the list of the updates made to it.  [show_elapsed] formats a duration. *)
From Stdlib Require Import ZArith.
From S2P Require Import Prelude GoStrings GoValue PbRecord PhaseTracker.

Definition defaultWaitRunningJobsTimeoutSeconds : Z := 300.

Inductive poll := PollFailed | PollActive (n : nat).

Record round := { rd_ctx : option string; rd_poll : poll; rd_now : Z }.

(** How the loop ends; [StillWaiting] when the rounds given are used up. *)
Inductive exit :=
| StillWaiting
| Interrupted (err : string) (at_ : Z)
| Proceed (queryFailed : bool) (at_ : Z)
| TimedOut (n : nat) (at_ : Z).

Fixpoint wait_loop (deadline : option Z) (rounds : list round) : exit :=
  match rounds with
  | [] => StillWaiting
  | r :: rest =>
      match rd_ctx r with
      | Some err => Interrupted err (rd_now r)
      | None =>
          match rd_poll r with
          | PollFailed => Proceed true (rd_now r)
          | PollActive 0 => Proceed false (rd_now r)
          | PollActive (S n) =>
              match deadline with
              | Some d => if decide (d < rd_now r)%Z then TimedOut (S n) (rd_now r) else wait_loop deadline rest
              | None => wait_loop deadline rest
              end
          end
      end
  end.

(** The deploy while it waits: its tracker (none without a sync log), its
    timeline, the updates of the sync log, whether the stack was marked failed. *)
Record deploy := {
  dp_tracker : option phaseTracker; dp_world : world; dp_updates : list (string * string); dp_marked : bool }.

Record wait_result := { wr_log : bool; wr_err : option string; wr_deploy : deploy }.

Section wait.
Context (show_elapsed : Z → string) (logID : string).

Definition update_log (status msg : string) (d : deploy) : deploy :=
  {| dp_tracker := dp_tracker d; dp_world := dp_world d; dp_updates := dp_updates d ++ [(status, msg)];
     dp_marked := dp_marked d |}.

(** [pt.finish] on the policy_check phase, its error ignored. *)
Definition finish_check (status detail : string) (e : env) (d : deploy) : deploy :=
  let '(_, t, w) := finish PhasePolicyCheck status detail e (dp_tracker d) (dp_world d) in
  {| dp_tracker := t; dp_world := w; dp_updates := dp_updates d; dp_marked := dp_marked d |}.

Definition mark_error (d : deploy) : deploy :=
  {| dp_tracker := dp_tracker d; dp_world := dp_world d; dp_updates := dp_updates d; dp_marked := true |}.

(** Closing the phase and the log, when there is one. *)
Definition settle_log (haslog : bool) (phaseStatus logStatus msg : string) (e : env) (d : deploy) : deploy :=
  if haslog then update_log logStatus msg (finish_check phaseStatus msg e d) else d.

Definition conclude (x : exit) (haslog : bool) (start : Z) (e : env) (d : deploy) : option wait_result :=
  match x with
  | StillWaiting => None
  | Interrupted err at_ =>
      Some {| wr_log := haslog; wr_err := Some err;
              wr_deploy := settle_log haslog PhaseStatusError "error" err e d |}
  | TimedOut n at_ =>
      let msg := "timeout waiting " +:+ show_elapsed (at_ - start) +:+ " for " +:+ Itoa (Z.of_nat n)
                 +:+ " running job(s) on repository to finish before deploy" in
      Some {| wr_log := haslog; wr_err := Some msg;
              wr_deploy := mark_error (settle_log haslog PhaseStatusError "error" msg e d) |}
  | Proceed queryFailed at_ =>
      let detail := if queryFailed
        then "proceeded after " +:+ show_elapsed (at_ - start) +:+ ": failed to query active jobs, continuing best-effort"
        else "proceeded after waiting " +:+ show_elapsed (at_ - start) +:+ " for running jobs to finish" in
      Some {| wr_log := haslog; wr_err := None;
              wr_deploy := settle_log haslog (if queryFailed then PhaseStatusSkipped else PhaseStatusSuccess)
                             "running" detail e d |}
  end.

Definition deadline_of (stack : record) (start : Z) : option Z :=
  if decide (GetString "wait_running_jobs" stack = "timeout") then
    let secs := GetInt "wait_running_jobs_timeout_seconds" stack in
    let secs := if decide (secs ≤ 0)%Z then defaultWaitRunningJobsTimeoutSeconds else secs in
    Some (start + secs * 1000000000)%Z
  else None.

(** Opening the sync log, its tracker and the policy_check phase. *)
Definition open_log (n : nat) (e1 e2 : env) (d : deploy) : deploy :=
  let '(_, t, w) := start PhasePolicyCheck e1 e2 (Some (newPhaseTracker logID)) (dp_world d) in
  update_log "waiting_jobs" ("deploy paused: " +:+ Itoa (Z.of_nat n) +:+ " job(s) currently running on this repository")
    {| dp_tracker := t; dp_world := w; dp_updates := dp_updates d; dp_marked := dp_marked d |}.

Definition waitForRunningJobs (stack : record) (first : poll) (log_ok : bool) (e1 e2 e3 : env) (start : Z)
    (rounds : list round) (d : deploy) : option wait_result :=
  let policy := GetString "wait_running_jobs" stack in
  let proceed := Some {| wr_log := false; wr_err := None; wr_deploy := d |} in
  if decide (policy = "" ∨ policy = "never") then proceed
  else match first with
  | PollFailed | PollActive 0 => proceed
  | PollActive n =>
      conclude (wait_loop (deadline_of stack start) rounds) log_ok start e3
        (if log_ok then open_log n e1 e2 d else d)
  end.

(** ** Lemmas *)

(** What a round shows. *)
Definition idle (r : round) : Prop := rd_ctx r = None ∧ rd_poll r = PollActive 0.
Definition busy (r : round) (n : nat) : Prop := rd_ctx r = None ∧ rd_poll r = PollActive (S n).

Lemma wait_loop_spec deadline rounds :
  match wait_loop deadline rounds with
  | StillWaiting => ∀ r, r ∈ rounds → ∃ n, busy r n ∧ (∀ dl, deadline = Some dl → rd_now r ≤ dl)%Z
  | Interrupted err _ => ∃ r, r ∈ rounds ∧ rd_ctx r = Some err
  | Proceed true _ => ∃ r, r ∈ rounds ∧ rd_ctx r = None ∧ rd_poll r = PollFailed
  | Proceed false _ => ∃ r, r ∈ rounds ∧ idle r
  | TimedOut n at_ => ∃ r dl n', r ∈ rounds ∧ n = S n' ∧ busy r n' ∧ at_ = rd_now r
                        ∧ deadline = Some dl ∧ (dl < at_)%Z
  end.
Proof.
  induction rounds as [|r rest IH]; simpl; [intros r Hr; by apply elem_of_nil in Hr|].
  assert (∀ r', r' ∈ rest → r' ∈ r :: rest) as Hin by (intros; apply elem_of_cons; by right).
  assert (r ∈ r :: rest) as Hr by (apply elem_of_cons; by left).
  assert ((∀ dl, deadline = Some dl → (rd_now r ≤ dl)%Z) → ∀ n, busy r n →
    match wait_loop deadline rest with
    | StillWaiting => ∀ r0, r0 ∈ r :: rest → ∃ n, busy r0 n ∧ (∀ dl, deadline = Some dl → rd_now r0 ≤ dl)%Z
    | Interrupted err _ => ∃ r0, r0 ∈ r :: rest ∧ rd_ctx r0 = Some err
    | Proceed true _ => ∃ r0, r0 ∈ r :: rest ∧ rd_ctx r0 = None ∧ rd_poll r0 = PollFailed
    | Proceed false _ => ∃ r0, r0 ∈ r :: rest ∧ idle r0
    | TimedOut n at_ => ∃ r0 dl n', r0 ∈ r :: rest ∧ n = S n' ∧ busy r0 n' ∧ at_ = rd_now r0
                          ∧ deadline = Some dl ∧ (dl < at_)%Z
    end) as Hrest.
  { intros Hdl n Hb. destruct (wait_loop deadline rest) as [|err a|[] a|m a].
    - intros r0 [->|H0]%elem_of_cons; [by exists n|by apply IH].
    - destruct IH as (r0 & ? & ?). exists r0. auto.
    - destruct IH as (r0 & ? & ? & ?). exists r0. auto.
    - destruct IH as (r0 & ? & ?). exists r0. auto.
    - destruct IH as (r0 & dl & n' & ? & ?). exists r0, dl, n'. auto. }
  destruct (rd_ctx r) as [err|] eqn:Hc; [by exists r|].
  destruct (rd_poll r) as [|[|n]] eqn:Hp; [by exists r|by exists r|].
  destruct deadline as [d|]; [|by apply (Hrest ltac:(done) n)].
  case_decide as Hd; [by exists r, d, n|]. apply (Hrest ltac:(intros; simplify_eq; lia) n). done.
Qed.

(** Waiting for jobs decides as the stack's policy says: without a policy the
    deploy goes on at once and nothing is recorded; when it goes on after waiting,
    a query has shown no active job or has failed; it is refused only because the
    context ended or, under the timeout policy alone, because jobs were still
    active after the deadline, and then the stack is marked failed. *)
Theorem wait_policy_respected stack first log_ok e1 e2 e3 start rounds d res :
  waitForRunningJobs stack first log_ok e1 e2 e3 start rounds d = Some res →
  let policy := GetString "wait_running_jobs" stack in
  (policy = "" ∨ policy = "never" → wr_err res = None ∧ wr_deploy res = d)
  ∧ (wr_err res = None →
       policy = "" ∨ policy = "never" ∨ first = PollFailed ∨ first = PollActive 0
       ∨ ∃ r, r ∈ rounds ∧ rd_ctx r = None ∧ (rd_poll r = PollActive 0 ∨ rd_poll r = PollFailed))
  ∧ (∀ err, wr_err res = Some err →
       (∃ r, r ∈ rounds ∧ rd_ctx r = Some err)
       ∨ (policy = "timeout" ∧ dp_marked (wr_deploy res) = true
          ∧ ∃ r n dl, r ∈ rounds ∧ busy r n ∧ deadline_of stack start = Some dl ∧ (dl < rd_now r)%Z)).
Proof.
  unfold waitForRunningJobs. cbv zeta. case_decide as Hpol; [intros [= <-]; naive_solver|].
  destruct first as [|[|n]]; [intros [= <-]; naive_solver..|].
  pose proof (wait_loop_spec (deadline_of stack start) rounds) as Hl.
  destruct (wait_loop _ rounds) as [|err a|[] a|m a]; simpl; intros; simplify_eq/=.
  - split_and!; [tauto|done|]. intros ? [= <-]. by left.
  - split_and!; [tauto| |done]. intros _. destruct Hl as (r & ? & ? & ?). do 4 right. exists r. auto.
  - split_and!; [tauto| |done]. intros _. destruct Hl as (r & ? & ? & ?). do 4 right. exists r. auto.
  - split_and!; [tauto|done|]. intros err0 _. right.
    destruct Hl as (r & dl & n' & Hr & -> & Hb & -> & Hdl & Hlt).
    split; [|split; [done|by exists r, n', dl]].
    unfold deadline_of in Hdl. by case_decide.
Qed.

(** Under the timeout policy the wait is bounded: as soon as one round comes
    after the deadline, the deploy has gone on or been refused. *)
Theorem wait_timeout_bounded stack first log_ok e1 e2 e3 start rounds d r dl :
  GetString "wait_running_jobs" stack = "timeout" → deadline_of stack start = Some dl →
  r ∈ rounds → (dl < rd_now r)%Z →
  is_Some (waitForRunningJobs stack first log_ok e1 e2 e3 start rounds d).
Proof.
  intros Hp Hdl Hr Hlt. unfold waitForRunningJobs. cbv zeta. case_decide; [eauto|].
  destruct first as [|[|n]]; [eauto..|].
  pose proof (wait_loop_spec (deadline_of stack start) rounds) as Hl.
  destruct (wait_loop _ rounds) as [| | |]; simpl; eauto.
  destruct (Hl r Hr) as (n' & _ & Hle). specialize (Hle dl Hdl). lia.
Qed.

Lemma open_then_finish n e1 e2 e3 d status msg : find_ok e2 = true → save_ok e2 = true → save_ok e3 = true →
  ∃ r, rows (dp_world (finish_check status msg e3 (open_log n e1 e2 d))) = rows (dp_world d) ++ [r]
    ∧ r_phase r = PhasePolicyCheck ∧ r_status r = status ∧ r_detail r = msg ∧ r_sync_log r = logID.
Proof.
  intros Hf Hs2 Hs3. unfold open_log, start, finish_check. simpl. rewrite Hf Hs2 /= Hs3 /=.
  eexists. rewrite insert_app_r_alt // Nat.sub_diag /=. split; [done|]. done.
Qed.

(** A deploy that waited leaves a closed policy_check phase: on every exit, by
    proceeding, timing out or being interrupted, exactly one row was added to the
    timeline and it is not running any more (given that the database accepts the
    writes). *)
Theorem wait_closes_policy_check stack n e1 e2 e3 start rounds d res :
  GetString "wait_running_jobs" stack ≠ "" → GetString "wait_running_jobs" stack ≠ "never" →
  find_ok e2 = true → save_ok e2 = true → save_ok e3 = true →
  waitForRunningJobs stack (PollActive (S n)) true e1 e2 e3 start rounds d = Some res →
  ∃ r, rows (dp_world (wr_deploy res)) = rows (dp_world d) ++ [r]
    ∧ r_phase r = PhasePolicyCheck ∧ r_status r ≠ PhaseStatusRunning
    ∧ (r_status r = PhaseStatusError ↔ is_Some (wr_err res)).
Proof.
  intros Hp1 Hp2 Hf Hs2 Hs3. unfold waitForRunningJobs. cbv zeta. rewrite decide_False; [|tauto].
  destruct (wait_loop _ rounds) as [|err a|qf a|m a]; intros Hres; simpl in Hres; [done|..];
    injection Hres as <-; simpl.
  - destruct (open_then_finish (S n) e1 e2 e3 d PhaseStatusError err Hf Hs2 Hs3) as (r & Hr & Hp & Hst & _).
    exists r. rewrite Hst. split_and!; [exact Hr|done|done|]. split; eauto.
  - set (status := if qf then PhaseStatusSkipped else PhaseStatusSuccess).
    set (msg := if qf then _ else _).
    destruct (open_then_finish (S n) e1 e2 e3 d status msg Hf Hs2 Hs3) as (r & Hr & Hp & Hst & _).
    exists r. rewrite Hst. unfold status. split_and!; [exact Hr|done|by destruct qf|].
    destruct qf; split; try done; by intros [? ?].
  - set (msg := "timeout waiting " +:+ _).
    destruct (open_then_finish (S n) e1 e2 e3 d PhaseStatusError msg Hf Hs2 Hs3) as (r & Hr & Hp & Hst & _).
    exists r. rewrite Hst. split_and!; [exact Hr|done|done|]. split; eauto.
Qed.
End wait.

Definition waiting_stack : record :=
  {| Id := "s1"; fields := {[ "wait_running_jobs" := VStr "timeout";
                              "wait_running_jobs_timeout_seconds" := VNum "10" ]} |}.
Definition fresh_deploy : deploy :=
  {| dp_tracker := None; dp_world := {| rows := []; metrics := [] |}; dp_updates := []; dp_marked := false |}.
Definition late_round : round := {| rd_ctx := None; rd_poll := PollActive 2; rd_now := 11000000000 |}.

Lemma wait_policy_respected_witness :
  ∃ res, waitForRunningJobs (λ _, "11s") "log1" waiting_stack (PollActive 1) true (ok_env 0) (ok_env 0) (ok_env 1) 0
           [late_round] fresh_deploy = Some res
    ∧ dp_marked (wr_deploy res) = true.
Proof.
  eexists. split; [vm_compute; reflexivity|].
  destruct (wait_policy_respected (λ _, "11s") "log1" waiting_stack (PollActive 1) true (ok_env 0) (ok_env 0) (ok_env 1) 0
    [late_round] fresh_deploy _ ltac:(vm_compute; reflexivity)) as (_ & _ & H).
  destruct (H _ eq_refl) as [(r & [->|Hr]%elem_of_cons & Hc)|(_ & Hm & _)]; [discriminate Hc|by apply elem_of_nil in Hr|exact Hm].
Defined.

Lemma wait_timeout_bounded_witness :
  is_Some (waitForRunningJobs (λ _, "11s") "log1" waiting_stack (PollActive 1) true (ok_env 0) (ok_env 0) (ok_env 1) 0
             [late_round] fresh_deploy).
Proof.
  apply (wait_timeout_bounded (λ _, "11s") "log1" waiting_stack (PollActive 1) true (ok_env 0) (ok_env 0) (ok_env 1) 0
    [late_round] fresh_deploy late_round 10000000000); [reflexivity|reflexivity|by constructor|simpl; lia].
Defined.

Lemma wait_closes_policy_check_witness :
  ∃ res r, waitForRunningJobs (λ _, "11s") "log1" waiting_stack (PollActive 1) true (ok_env 0) (ok_env 0) (ok_env 1) 0
           [late_round] fresh_deploy = Some res
    ∧ rows (dp_world (wr_deploy res)) = [r] ∧ r_status r ≠ PhaseStatusRunning.
Proof.
  destruct (waitForRunningJobs (λ _, "11s") "log1" waiting_stack (PollActive 1) true (ok_env 0) (ok_env 0) (ok_env 1) 0
           [late_round] fresh_deploy) as [res|] eqn:E; [|discriminate E].
  destruct (wait_closes_policy_check (λ _, "11s") "log1" waiting_stack 0 (ok_env 0) (ok_env 0) (ok_env 1) 0
    [late_round] fresh_deploy res ltac:(done) ltac:(done) eq_refl eq_refl eq_refl E) as (r & H1 & _ & H2 & _).
  exists res, r. split; [reflexivity|]. split; [exact H1|exact H2].
Defined.
