(* ===== verification/Spool.v ===== *)
(** * worker/spool/store.go: the worker's encrypted outbox

    A store is a directory of encrypted messages, one JSON file per message.
    The disk is the regular files (their content at a cleaned path) and the
    directories.  Every call that can fail has its outcome as an argument: a
    write that fails may leave part of the data behind, and stopping between two
    calls leaves the disk a failure of the second would leave.  The JSON codec of
    [encoding/json] and the AES-GCM cipher under the derived key are interfaces
    ([Json], [Aead]) with the behaviour their documentation promises; opening
    with a nonce of the wrong length panics.  Times are nanoseconds. *)
From Stdlib Require Import ZArith.
From S2P Require Import Prelude GoStrings GoPath GoBase64.

(** ** The disk *)
Record disk := { files : gmap string string; dirs : gset string }.

Definition set_files (fl : gmap string string) (f : disk) : disk := {| files := fl; dirs := dirs f |}.

(** A directory and the directories above it. *)
Definition ancestors (d : string) : list string :=
  (λ n, show_path (IsAbs d) (take n (path_comps d))) <$> seq 1 (length (path_comps d)).

Definition MkdirAll (ok : bool) (d : string) (f : disk) : option disk :=
  if ok && forallb (λ a, bool_decide (files f !! a = None)) (ancestors d)
  then Some {| files := files f; dirs := list_to_set (ancestors d) ∪ dirs f |} else None.

(** A complete write, or what a failed one leaves in the file. *)
Inductive write_outcome := Written | Failed (left : option string).

Definition WriteFile (w : write_outcome) (p data : string) (f : disk) : bool * disk :=
  if decide (Dir p ∈ dirs f ∧ p ∉ dirs f) then
    match w with
    | Written => (true, set_files (<[p := data]> (files f)) f)
    | Failed (Some part) => (false, set_files (<[p := part]> (files f)) f)
    | Failed None => (false, f)
    end
  else (false, f).

Definition Rename (ok : bool) (old new : string) (f : disk) : option disk :=
  match files f !! old with
  | Some data => if decide (ok = true ∧ Dir new ∈ dirs f ∧ new ∉ dirs f)
                 then Some (set_files (<[new := data]> (delete old (files f))) f) else None
  | None => None
  end.

(** The name of an entry of [d]. *)
Definition child (d p : string) : option string :=
  match strip_prefix (d +:+ "/") p with
  | Some n => if decide (n = "") then None else if Contains n "/" then None else Some n
  | None => None
  end.

Definition children (d : string) (ps : list string) : list string := omap (child d) ps.

(** The entries in name order, each with [IsDir]; [None] when there is no such
    directory. *)
Definition ReadDir (d : string) (f : disk) : option (list (string * bool)) :=
  if decide (d ∈ dirs f) then
    let ds := children d (elements (dirs f)) in
    Some ((λ n, (n, bool_decide (n ∈ ds))) <$> sort_strings (children d ((map_to_list (files f)).*1) ++ ds))
  else None.

(** [base] itself and everything below it. *)
Definition is_inside (base p : string) : bool :=
  bool_decide (IsAbs p = IsAbs base ∧ path_comps base `prefix_of` path_comps p).

Definition RemoveAll (base : string) (f : disk) : disk :=
  {| files := filter (λ kv, is_inside base kv.1 = false) (files f);
     dirs := filter (λ d, is_inside base d = false) (dirs f) |}.

(** Nothing but the directory itself is below it. *)
Definition is_empty (d : string) (f : disk) : bool :=
  forallb (λ p, negb (is_inside d p) || bool_decide (p = d)) ((map_to_list (files f)).*1 ++ elements (dirs f)).

(** ** Records *)
Record storedMessage := {
  MessageID : string; Kind : string; CreatedAt : Z; Attempts : Z; Nonce : string; Ciphertext : string }.

Definition set_attempts (n : Z) (r : storedMessage) : storedMessage :=
  {| MessageID := MessageID r; Kind := Kind r; CreatedAt := CreatedAt r; Attempts := n;
     Nonce := Nonce r; Ciphertext := Ciphertext r |}.

(** [utf8.ValidString]. *)
Fixpoint valid_utf8_fuel (fuel : nat) (s : string) : bool :=
  match fuel, s with
  | _, "" => true
  | 0, _ => false
  | S fuel, _ => let '(r, n) := decode_rune s in
                 if decide (r = 65533%N ∧ n = 1) then false else valid_utf8_fuel fuel (sdrop n s)
  end.

Definition ValidString (s : string) : bool := valid_utf8_fuel (String.length s) s.

(** What [encoding/json] keeps unchanged: valid UTF-8, years 0 to 9999, 64-bit
    integers. *)
Definition time_ok (t : Z) : Prop :=
  (-62167219200 * 1000000000 ≤ t < 253402300800 * 1000000000)%Z.

Record encodable (r : storedMessage) : Prop := {
  enc_id : ValidString (MessageID r) = true; enc_kind : ValidString (Kind r) = true;
  enc_nonce : ValidString (Nonce r) = true; enc_text : ValidString (Ciphertext r) = true;
  enc_time : time_ok (CreatedAt r); enc_attempts : (- 2 ^ 63 ≤ Attempts r < 2 ^ 63)%Z }.

(** The codec: [norm] is an envelope as a generic decoder sees it. *)
Class Json (Envelope : Type) := {
  marshal_record : storedMessage → option string;
  unmarshal_record : string → option storedMessage;
  marshal_env : Envelope → option string;
  decode_env : string → option Envelope;
  norm : Envelope → Envelope;
  record_roundtrip r : encodable r → ∃ d, marshal_record r = Some d ∧ unmarshal_record d = Some r;
  env_roundtrip e p : marshal_env e = Some p → decode_env p = Some (norm e) }.

Definition NonceSize : nat := 12.

(** The cipher under the key derived from a token. *)
Class Aead := {
  Seal : string → string → string → string → string;
  OpenAead : string → string → string → string → option string;
  open_seal token nonce p a : OpenAead token nonce (Seal token nonce p a) a = Some p }.

Record Store := { root : string; pendingDir : string; quarantineDir : string; token : string }.

Inductive spool_error :=
| RootRequired | TokenRequired | DirFailed | MessageIDRequired | MarshalFailed | RandFailed | WriteFailed
| RenameFailed | SyncFailed | ReadFailed | DecodeFailed | RemoveFailed | ListFailed.

Section spool.
Context {Envelope : Type} {JS : Json Envelope} {AE : Aead}.

Record PendingMessage := {
  pm_MessageID : string; pm_Kind : string; pm_CreatedAt : Z; pm_Attempts : Z; pm_Envelope : Envelope }.

(** ** Opening a store *)
Fixpoint mkdirs (ok : string → bool) (ds : list string) (f : disk) : option disk :=
  match ds with
  | [] => Some f
  | d :: ds => match MkdirAll (ok d) d f with Some f => mkdirs ok ds f | None => None end
  end.

Definition New (ok : string → bool) (rootDir tok : string) (f : disk) : (Store * disk) + spool_error :=
  if decide (TrimSpace rootDir = "") then inr RootRequired
  else if decide (TrimSpace tok = "") then inr TokenRequired
  else let rt := PathJoin rootDir "spool" in
       let st := {| root := rt; pendingDir := PathJoin rt "pending";
                    quarantineDir := PathJoin rt "quarantine"; token := tok |} in
       match mkdirs ok [root st; pendingDir st; quarantineDir st] f with
       | Some f => inl (st, f)
       | None => inr DirFailed
       end.

Definition pathForMessage (s : Store) (messageID : string) : string :=
  PathJoin (pendingDir s) (messageID +:+ ".json").

(** ** Writing *)
Record write_faults := {
  w_write : write_outcome; w_rename : bool; w_open : bool; w_sync : bool; w_dopen : bool; w_dsync : bool }.

Definition writeRecordAt (w : write_faults) (path : string) (record : storedMessage) (f : disk)
  : option spool_error * disk :=
  match marshal_record record with
  | None => (Some MarshalFailed, f)
  | Some data =>
      let tmpPath := path +:+ ".tmp" in
      match WriteFile (w_write w) tmpPath data f with
      | (false, f1) => (Some WriteFailed, f1)
      | (true, f1) =>
          match Rename (w_rename w) tmpPath path f1 with
          | None => (Some RenameFailed, f1)
          | Some f2 =>
              if negb (w_open w) then (Some SyncFailed, f2)
              else if negb (w_sync w) then (Some SyncFailed, f2)
              else if negb (w_dopen w) then (Some SyncFailed, f2)
              else if negb (w_dsync w) then (Some SyncFailed, f2)
              else (None, f2)
          end
      end
  end.

Definition writeRecord (s : Store) (w : write_faults) (record : storedMessage) (f : disk)
  : option spool_error * disk := writeRecordAt w (pathForMessage s (MessageID record)) record f.

(** [now] is the clock, [nonce] the bytes the random source gave. *)
Definition new_record (s : Store) (now : Z) (nonce messageID kind payload : string) : storedMessage :=
  {| MessageID := messageID; Kind := kind; CreatedAt := now; Attempts := 0;
     Nonce := EncodeToString nonce; Ciphertext := EncodeToString (Seal (token s) nonce payload messageID) |}.

Definition Enqueue (s : Store) (w : write_faults) (now : Z) (random : option string)
    (messageID kind : string) (env : Envelope) (f : disk) : option spool_error * disk :=
  if decide (messageID = "") then (Some MessageIDRequired, f)
  else match marshal_env env with
  | None => (Some MarshalFailed, f)
  | Some payload =>
      match random with
      | None => (Some RandFailed, f)
      | Some nonce => writeRecord s w (new_record s now nonce messageID kind payload) f
      end
  end.

(** ** Reading *)
Definition readRecord (s : Store) (read_ok : string → bool) (messageID : string) (f : disk)
  : storedMessage + spool_error :=
  let path := pathForMessage s messageID in
  match (if read_ok path then files f !! path else None) with
  | None => inr ReadFailed
  | Some data => match unmarshal_record data with Some r => inl r | None => inr DecodeFailed end
  end.

Inductive decrypted := Opened (env : Envelope) | Rejected | Panicked.

Definition decryptEnvelope (s : Store) (record : storedMessage) : decrypted :=
  match DecodeString (Nonce record) with
  | None => Rejected
  | Some nonce =>
      match DecodeString (Ciphertext record) with
      | None => Rejected
      | Some ciphertext =>
          if decide (String.length nonce ≠ NonceSize) then Panicked
          else match OpenAead (token s) nonce ciphertext (MessageID record) with
          | None => Rejected
          | Some plaintext => match decode_env plaintext with Some env => Opened env | None => Rejected end
          end
      end
  end.

Definition MarkAttempt (s : Store) (read_ok : string → bool) (w : write_faults) (messageID : string) (f : disk)
  : option spool_error * disk :=
  match readRecord s read_ok messageID f with
  | inr e => (Some e, f)
  | inl record =>
      writeRecordAt w (pathForMessage s messageID) (set_attempts (wrap64 (Attempts record + 1)) record) f
  end.

Definition Ack (s : Store) (remove_ok : bool) (messageID : string) (f : disk) : option spool_error * disk :=
  if decide (messageID = "") then (None, f)
  else let path := pathForMessage s messageID in
       match files f !! path with
       | None =>
           if decide (path ∈ dirs f) then
             if remove_ok && is_empty path f
             then (None, {| files := files f; dirs := dirs f ∖ {[path]} |}) else (Some RemoveFailed, f)
           else (None, f)
       | Some _ => if remove_ok then (None, set_files (delete path (files f)) f) else (Some RemoveFailed, f)
       end.

(** The outcomes of the calls [Pending] makes, and the second it reads for the
    name of a quarantined file. *)
Record calls := {
  list_ok : bool; read_ok : string → bool; mkdir_ok : string → bool; move_ok : string → bool;
  stamp : string → string }.

Definition quarantineMessage (s : Store) (c : calls) (messageID : string) (f : disk) : option spool_error * disk :=
  let path := pathForMessage s messageID in
  let dst := PathJoin (quarantineDir s) (messageID +:+ "-" +:+ stamp c messageID +:+ ".json") in
  match MkdirAll (mkdir_ok c messageID) (quarantineDir s) f with
  | None => (Some DirFailed, f)
  | Some f1 =>
      match Rename (move_ok c messageID) path dst f1 with
      | Some f2 => (None, f2)
      | None => (if bool_decide (files f1 !! path = None) then None else Some RenameFailed, f1)
      end
  end.

Definition to_pending (record : storedMessage) (env : Envelope) : PendingMessage :=
  {| pm_MessageID := MessageID record; pm_Kind := Kind record; pm_CreatedAt := CreatedAt record;
     pm_Attempts := Attempts record; pm_Envelope := env |}.

Definition is_message (e : string * bool) : bool := negb (e.2 || negb (bool_decide (Ext e.1 = ".json"))).

(** The loop over the entries; [None] when a call panics. *)
Fixpoint pending_loop (s : Store) (c : calls) (entries : list (string * bool)) (f : disk)
  : option (list PendingMessage * disk) :=
  match entries with
  | [] => Some ([], f)
  | entry :: entries =>
      if negb (is_message entry) then pending_loop s c entries f
      else let messageID := TrimSuffix entry.1 ".json" in
           match readRecord s (read_ok c) messageID f with
           | inr _ => pending_loop s c entries (quarantineMessage s c messageID f).2
           | inl record =>
               match decryptEnvelope s record with
               | Panicked => None
               | Rejected => pending_loop s c entries (quarantineMessage s c messageID f).2
               | Opened env =>
                   match pending_loop s c entries f with
                   | Some (pending, f) => Some (to_pending record env :: pending, f)
                   | None => None
                   end
               end
           end
  end.

(** [sort.Slice] by the code's less function; the order of equal elements is
    open. *)
Definition less (a b : PendingMessage) : bool :=
  if (pm_CreatedAt a =? pm_CreatedAt b)%Z
  then negb (bool_decide (strings.String.le (pm_MessageID b) (pm_MessageID a)))
  else (pm_CreatedAt a <? pm_CreatedAt b)%Z.

Context (sort_slice : list PendingMessage → list PendingMessage).

(** Listing fails when its call does, or when the path is a file. *)
Definition list_fails (s : Store) (c : calls) (f : disk) : bool :=
  negb (list_ok c) || bool_decide (is_Some (files f !! pendingDir s)).

Definition Pending (s : Store) (c : calls) (f : disk) : option ((list PendingMessage + spool_error) * disk) :=
  if list_fails s c f then Some (inr ListFailed, f)
  else match ReadDir (pendingDir s) f with
  | None => Some (inl [], f)
  | Some entries =>
      match pending_loop s c entries f with
      | Some (pending, f) => Some (inl (sort_slice pending), f)
      | None => None
      end
  end.

Definition CountPending (s : Store) (c : calls) (f : disk) : nat + spool_error :=
  if list_fails s c f then inr ListFailed
  else match ReadDir (pendingDir s) f with
  | None => inl 0
  | Some entries => inl (length (filter (λ e, is_message e = true) entries))
  end.

Definition Purge (s : Store) (f : disk) : disk := RemoveAll (root s) f.

(** ** Paths *)
(** A cleaned directory other than the root and the current one. *)
Definition clean_dir (d : string) : Prop := Clean d = d ∧ path_comps d ≠ [].

Lemma join_name d n : clean_dir d → proper n → PathJoin d n = d +:+ "/" +:+ n.
Proof.
  intros [Hd Hc] Hn. destruct (proper_comps n Hn) as [HC HA].
  assert (d ≠ "") as Hd' by (intros ->; by apply Hc).
  unfold PathJoin. rewrite decide_False // decide_False; [|by destruct Hn].
  destruct (path_comps_descend d n) as [H1 H2]; [done..| |].
  { rewrite HC. destruct Hn as (_ & _ & ? & _). set_solver. }
  unfold Clean. rewrite H1 H2 HC. rewrite -{3}Hd. unfold Clean, show_path.
  rewrite Join_app //. destruct (IsAbs d); [done|].
  destruct (path_comps d) eqn:E; [done|]. by rewrite -app_comm_cons.
Qed.

Lemma join_clean_dir d n : d ≠ "" → proper n → clean_dir (PathJoin d n) ∧
  path_comps (PathJoin d n) = path_comps d ++ [n].
Proof.
  intros Hd Hn. destruct (proper_comps n Hn) as [HC HA].
  unfold PathJoin. rewrite decide_False // decide_False; [|by destruct Hn].
  destruct (path_comps_descend d n) as [H1 H2]; [done..| |].
  { rewrite HC. destruct Hn as (_ & _ & ? & _). set_solver. }
  unfold clean_dir. rewrite Clean_idempotent path_comps_Clean H1 HC. split; [split; [done|]|done].
  by destruct (path_comps d).
Qed.

Lemma file_proper id : ¬ in_string slash id → proper (id +:+ ".json").
Proof.
  intros Hs. split; [by destruct id|]. split; [by destruct id as [|? [|]]|].
  split; [by destruct id as [|? [|? []]]|]. rewrite in_string_app. intros [?|Hx]; [done|].
  simpl in Hx. naive_solver.
Qed.

Lemma child_Some d p n : child d p = Some n ↔ p = d +:+ "/" +:+ n ∧ n ≠ "" ∧ ¬ in_string slash n.
Proof.
  unfold child. rewrite -sapp_assoc. split.
  - destruct (strip_prefix _ p) as [m|] eqn:E; [|done]. apply strip_prefix_Some in E.
    case_decide; [done|]. destruct (Contains m "/") eqn:C; [done|]. intros [= ->].
    apply Contains_char_false in C. done.
  - intros (-> & Hn & Hs). rewrite (proj2 (strip_prefix_Some _ _ n)); [|done].
    rewrite decide_False //. by rewrite (proj2 (Contains_char_false slash n) Hs).
Qed.

(** A name below one directory is not below another. *)
Lemma name_inj d d' n n' : ¬ in_string slash n → ¬ in_string slash n' →
  d +:+ "/" +:+ n = d' +:+ "/" +:+ n' → d = d' ∧ n = n'.
Proof.
  intros Hn Hn' Heq.
  assert (rcut slash (d +:+ "/" +:+ n) = Some (d, n)) as H1 by (by apply rcut_Some).
  assert (rcut slash (d' +:+ "/" +:+ n') = Some (d', n')) as H2 by (by apply rcut_Some).
  rewrite Heq H2 in H1. by simplify_eq.
Qed.

Lemma suffix_differs (a b x y : string) : String.length x = String.length y → a +:+ x = b +:+ y → x = y.
Proof.
  intros Hl Heq. apply (f_equal srev) in Heq. rewrite !srev_app in Heq.
  assert (∀ s t u v : string, String.length s = String.length t → s +:+ u = t +:+ v → s = t) as Hp.
  { induction s as [|? s IH]; intros [|? t] u v Hst E; simpl in *; try lia; [done|].
    injection Hst as Hst. injection E as -> E. f_equal. eauto. }
  assert (∀ s, String.length (srev s) = String.length s) as Hr.
  { induction s as [|? s IH]; [done|]. rewrite srev_cons slength_app /=. lia. }
  apply Hp in Heq; [|by rewrite !Hr]. rewrite -(srev_involutive x) -(srev_involutive y). by f_equal.
Qed.

Lemma Ext_json n : ¬ in_string slash n → Ext n = ".json" ↔ ∃ id, n = id +:+ ".json".
Proof.
  intros Hs. unfold Ext. rewrite (proj2 (rcut_None slash n) Hs). split.
  - destruct (rcut _ n) as [[l e]|] eqn:E; [|done]. intros [= ->].
    apply rcut_Some in E as [-> _]. eauto.
  - intros [id ->]. rewrite (proj2 (rcut_Some "."%char _ id "json")); [done|].
    split; [done|]. simpl. naive_solver.
Qed.

(** ** Stores *)
Record store_wf (s : Store) : Prop := {
  wf_pending : clean_dir (pendingDir s); wf_quarantine : clean_dir (quarantineDir s);
  wf_apart : pendingDir s ≠ quarantineDir s }.

Lemma ancestors_self d : clean_dir d → d ∈ ancestors d.
Proof.
  intros [Hd Hc]. unfold ancestors. apply list_elem_of_fmap. exists (length (path_comps d)).
  rewrite firstn_all. split; [by rewrite -{1}Hd|]. apply elem_of_seq.
  destruct (path_comps d); [done|]. simpl. lia.
Qed.

Lemma MkdirAll_spec ok d f f' : MkdirAll ok d f = Some f' → files f' = files f ∧
  dirs f ⊆ dirs f' ∧ (clean_dir d → d ∈ dirs f') ∧ ∀ p, files f !! p ≠ None → p ∉ dirs f → p ∉ dirs f'.
Proof.
  unfold MkdirAll. destruct (ok && _) eqn:E; [|done]. intros [= <-]. simpl. bool_props.
  split; [done|]. split; [set_solver|]. split.
  - intros Hd%ancestors_self. set_solver.
  - intros p Hp Hn. rewrite elem_of_union elem_of_list_to_set. intros [Ha|?]; [|done].
    match goal with H : forallb _ _ = true |- _ => rewrite forallb_forall in H; specialize (H p); rename H into Hf end.
    rewrite -list_elem_of_In bool_decide_eq_true in Hf. auto.
Qed.

Lemma New_wf ok rootDir tok f s f' : New ok rootDir tok f = inl (s, f') →
  store_wf s ∧ pendingDir s ∈ dirs f'.
Proof.
  unfold New. case_decide as Hr; [done|]. case_decide; [done|].
  assert (rootDir ≠ "") as Hr' by (intros ->; by apply Hr).
  assert (proper "spool" ∧ proper "pending" ∧ proper "quarantine") as (P1 & P2 & P3).
  { repeat split; try done; simpl; naive_solver. }
  destruct (join_clean_dir rootDir "spool" Hr' P1) as [[Hc Hn] Hcs].
  assert (PathJoin rootDir "spool" ≠ "") as Hne by (rewrite -Hc; apply Clean_nonempty).
  destruct (join_clean_dir _ "pending" Hne P2) as [Dp Cp].
  destruct (join_clean_dir _ "quarantine" Hne P3) as [Dq Cq].
  cbv zeta. cbn [mkdirs root pendingDir quarantineDir]. cases.
  all: repeat match goal with H : MkdirAll _ _ _ = Some _ |- _ => apply MkdirAll_spec in H as (? & ? & ? & _) end.
  intros [= <- <-]. split; [|set_solver]. split; simpl; [done..|]. intros E. rewrite E Cq in Cp.
  apply app_inj_tail in Cp as [_ ?]. done.
Qed.

Lemma path_name s id : store_wf s → ¬ in_string slash id →
  pathForMessage s id = pendingDir s +:+ "/" +:+ id +:+ ".json".
Proof. intros [] ?. by apply join_name, file_proper. Qed.

Lemma json_no_slash id : ¬ in_string slash id → ¬ in_string slash (id +:+ ".json").
Proof. intros Hs. apply (file_proper id Hs). Qed.

Lemma app_tail_inj (a b x : string) : a +:+ x = b +:+ x → a = b.
Proof.
  intros E. apply (f_equal srev) in E. rewrite !srev_app in E. apply sapp_inv_head in E.
  by rewrite -(srev_involutive a) E srev_involutive.
Qed.

Lemma path_inj s id id' : store_wf s → ¬ in_string slash id → ¬ in_string slash id' →
  pathForMessage s id = pathForMessage s id' → id = id'.
Proof.
  intros Hw H1 H2. rewrite !path_name //. intros E. apply name_inj in E as [_ E]; [|by apply json_no_slash..].
  by apply app_tail_inj in E.
Qed.

(** The messages of a listing. *)
Definition ids (entries : list (string * bool)) : list string :=
  (λ e, TrimSuffix e.1 ".json") <$> filter (λ e, is_message e = true) entries.

(** What reading and decrypting one message gives. *)
Inductive verdict := Good (m : PendingMessage) | Bad | Boom.

Definition examine (s : Store) (c : calls) (id : string) (f : disk) : verdict :=
  match readRecord s (read_ok c) id f with
  | inr _ => Bad
  | inl record => match decryptEnvelope s record with
                  | Opened env => Good (to_pending record env) | Rejected => Bad | Panicked => Boom
                  end
  end.

Definition good (v : verdict) : option PendingMessage := match v with Good m => Some m | _ => None end.

Lemma loop_cons s c e entries f : pending_loop s c (e :: entries) f =
  if is_message e then
    match examine s c (TrimSuffix e.1 ".json") f with
    | Boom => None
    | Bad => pending_loop s c entries (quarantineMessage s c (TrimSuffix e.1 ".json") f).2
    | Good m => match pending_loop s c entries f with Some (l, f) => Some (m :: l, f) | None => None end
    end
  else pending_loop s c entries f.
Proof.
  cbn [pending_loop]. unfold examine. destruct (is_message e); [|done]. simpl.
  destruct (readRecord _ _ _ _) as [r|]; [|done]. by destruct (decryptEnvelope s r).
Qed.

Lemma ids_cons e entries : ids (e :: entries) =
  if is_message e then TrimSuffix e.1 ".json" :: ids entries else ids entries.
Proof.
  unfold ids. destruct (is_message e) eqn:E.
  - by rewrite filter_cons_True.
  - rewrite filter_cons_False; [|by rewrite E]. done.
Qed.

(** ** Quarantine *)
Definition q_path (s : Store) (c : calls) (id : string) : string :=
  PathJoin (quarantineDir s) (id +:+ "-" +:+ stamp c id +:+ ".json").

(** The stamp is [20060102150405]: fourteen digits. *)
Definition stamps_ok (c : calls) : Prop :=
  ∀ id, ¬ in_string slash (stamp c id) ∧ String.length (stamp c id) = 14.

Definition q_name (c : calls) (id : string) : string := id +:+ "-" +:+ stamp c id +:+ ".json".

Lemma q_name_proper c id : stamps_ok c → ¬ in_string slash id → proper (q_name c id).
Proof.
  intros Hc Hs. unfold q_name. rewrite -!sapp_assoc. apply file_proper.
  rewrite !in_string_app. simpl. destruct (Hc id). intros [[?|[?|[]]]|?]; done.
Qed.

Lemma q_path_name s c id : store_wf s → stamps_ok c → ¬ in_string slash id →
  q_path s c id = quarantineDir s +:+ "/" +:+ q_name c id.
Proof. intros [] ??. by apply join_name, q_name_proper. Qed.

Lemma q_path_ne s c id id' : store_wf s → stamps_ok c → ¬ in_string slash id → ¬ in_string slash id' →
  q_path s c id ≠ pathForMessage s id'.
Proof.
  intros Hw Hc H1 H2. rewrite q_path_name // path_name //. intros E.
  apply name_inj in E as [E _]; [by destruct Hw| |by apply json_no_slash].
  by destruct (q_name_proper c id Hc H1) as (_ & _ & _ & ?).
Qed.

Lemma q_path_inj s c id id' : store_wf s → stamps_ok c → ¬ in_string slash id → ¬ in_string slash id' →
  q_path s c id = q_path s c id' → id = id'.
Proof.
  intros Hw Hc H1 H2. rewrite !q_path_name //. intros E. apply name_inj in E as [_ E].
  2, 3: by destruct (q_name_proper c id Hc H1) as (_ & _ & _ & ?), (q_name_proper c id' Hc H2) as (_ & _ & _ & ?).
  unfold q_name in E. destruct (Hc id) as [_ L1], (Hc id') as [_ L2].
  pose proof E as E2. apply suffix_differs in E2; [|by rewrite !slength_app L1 L2].
  rewrite E2 in E. by apply app_tail_inj in E.
Qed.

Lemma quarantine_spec s c id f : let f' := (quarantineMessage s c id f).2 in
  dirs f ⊆ dirs f' ∧
  (∀ p, files f !! p ≠ None → p ∉ dirs f → p ∉ dirs f') ∧
  (files f' = files f ∨ ∃ data, files f !! pathForMessage s id = Some data ∧
     files f' = <[q_path s c id := data]> (delete (pathForMessage s id) (files f))).
Proof.
  unfold quarantineMessage. destruct (MkdirAll _ _ f) as [f1|] eqn:E; [|naive_solver].
  apply MkdirAll_spec in E as (Hf & Hd & _ & Hp). fold (q_path s c id).
  unfold Rename. rewrite Hf. destruct (files f !! pathForMessage s id) as [data|] eqn:E; [|naive_solver].
  case_decide; simpl; rewrite ?Hf; naive_solver.
Qed.

Lemma examine_ext s c id f f' : files f' !! pathForMessage s id = files f !! pathForMessage s id →
  examine s c id f' = examine s c id f.
Proof. intros E. unfold examine, readRecord. by rewrite E. Qed.

(** ** The listing *)
Lemma elem_of_children d ps n : n ∈ children d ps ↔ d +:+ "/" +:+ n ∈ ps ∧ n ≠ "" ∧ ¬ in_string slash n.
Proof.
  unfold children. rewrite list_elem_of_omap. setoid_rewrite child_Some. naive_solver.
Qed.

Lemma NoDup_children d ps : NoDup ps → NoDup (children d ps).
Proof.
  intros Hn. induction Hn as [|p ps Hp Hn IH]; [constructor|]. unfold children in *. simpl.
  destruct (child d p) as [n|] eqn:E; [|done]. constructor; [|done].
  intros Hin. apply elem_of_children in Hin as [Hin _]. apply child_Some in E as [-> _]. done.
Qed.

Definition names (entries : list (string * bool)) : list string :=
  fst <$> filter (λ e, is_message e = true) entries.

Lemma is_message_true n b : is_message (n, b) = true ↔ b = false ∧ Ext n = ".json".
Proof.
  unfold is_message. simpl. rewrite negb_true_iff orb_false_iff negb_false_iff bool_decide_eq_true. done.
Qed.

Lemma names_perm d f entries : ReadDir d f = Some entries →
  names entries ≡ₚ filter (λ n, n ∉ children d (elements (dirs f)) ∧ Ext n = ".json")
                     (children d ((map_to_list (files f)).*1)).
Proof.
  unfold ReadDir. case_decide; [|done]. intros [= <-].
  set (A := children d ((map_to_list (files f)).*1)). set (B := children d (elements (dirs f))).
  assert (∀ l, names ((λ n, (n, bool_decide (n ∈ B))) <$> l) = filter (λ n, n ∉ B ∧ Ext n = ".json") l) as Hf.
  { induction l as [|n l IH]; [done|]. unfold names in *. rewrite fmap_cons filter_cons filter_cons.
    destruct (decide (is_message (n, bool_decide (n ∈ B)) = true)) as [E|E];
      rewrite is_message_true bool_decide_eq_false in E.
    - rewrite decide_True // fmap_cons. by rewrite IH.
    - rewrite decide_False // IH. }
  rewrite Hf sort_strings_perm filter_app.
  assert (filter (λ n, n ∉ B ∧ Ext n = ".json") B = []) as ->; [|by rewrite app_nil_r].
  apply elem_of_nil_inv. intros x. rewrite list_elem_of_filter. tauto.
Qed.

Lemma ids_names s f entries : ReadDir (pendingDir s) f = Some entries →
  ((λ n, n +:+ ".json") <$> ids entries) = names entries.
Proof.
  intros Hr. pose proof (names_perm _ _ _ Hr) as Hp. unfold ids, names in *.
  rewrite -list_fmap_compose. apply list_fmap_ext. intros i e Hi. simpl.
  assert (e.1 ∈ fst <$> filter (λ e, is_message e = true) entries) as He.
  { apply list_elem_of_fmap. exists e. split; [done|]. by apply list_elem_of_lookup_2 with i. }
  rewrite Hp in He. apply list_elem_of_filter in He as [[_ He] (_ & _ & Hs)%elem_of_children].
  apply Ext_json in He as [id ->]; [|done]. by rewrite TrimSuffix_app.
Qed.

Lemma elem_of_ids s f entries id : store_wf s → ReadDir (pendingDir s) f = Some entries →
  id ∈ ids entries ↔
  ¬ in_string slash id ∧ is_Some (files f !! pathForMessage s id) ∧ pathForMessage s id ∉ dirs f.
Proof.
  intros Hw Hr.
  assert (id ∈ ids entries ↔ id +:+ ".json" ∈ names entries) as ->.
  { rewrite -(ids_names s f entries) // list_elem_of_fmap. split; [naive_solver|].
    intros (y & E & ?). by apply app_tail_inj in E as ->. }
  rewrite (names_perm _ _ _ Hr) list_elem_of_filter !elem_of_children elem_of_elements.
  assert (∀ p : string, p ∈ (map_to_list (files f)).*1 ↔ is_Some (files f !! p)) as Hk.
  { intros p. rewrite list_elem_of_fmap. split.
    - intros ([k v] & -> & Hv). apply elem_of_map_to_list in Hv. by exists v.
    - intros [v Hv]. exists (p, v). by rewrite elem_of_map_to_list. }
  rewrite Hk. assert (¬ in_string slash (id +:+ ".json") ↔ ¬ in_string slash id) as Hs.
  { split; [intros Hx Hi; apply Hx; rewrite in_string_app; by left|apply json_no_slash]. }
  split.
  - intros [[Hd He] (Hf & Hn & Hi)]. pose proof (proj1 Hs Hi) as Hi'. rewrite path_name //. tauto.
  - intros (Hi & Hf & Hd). rewrite path_name // in Hf, Hd. destruct (file_proper id Hi) as (? & _).
    pose proof (proj2 (Ext_json _ (proj2 Hs Hi)) (ex_intro _ id eq_refl)). tauto.
Qed.

Lemma NoDup_ids s f entries : ReadDir (pendingDir s) f = Some entries → NoDup (ids entries).
Proof.
  intros Hr. apply (NoDup_fmap_1 (λ n, n +:+ ".json")). rewrite (ids_names s f) //.
  rewrite (names_perm _ _ _ Hr). apply NoDup_filter, NoDup_children, NoDup_fst_map_to_list.
Qed.

(** ** The loop *)
Definition untouched (s : Store) (c : calls) (l : list string) (f : disk) (p : string) : Prop :=
  ∀ id, id ∈ l → examine s c id f = Bad → p ≠ pathForMessage s id ∧ p ≠ q_path s c id.

Definition kept_or_moved (s : Store) (c : calls) (f f' : disk) (id : string) : Prop :=
  files f' !! pathForMessage s id = files f !! pathForMessage s id ∨
  (files f' !! pathForMessage s id = None ∧ files f' !! q_path s c id = files f !! pathForMessage s id).

Record scanned_ok (s : Store) (c : calls) (l : list string) (f : disk) (out : list PendingMessage) (f' : disk)
  : Prop := {
  so_calm : ∀ id, id ∈ l → examine s c id f ≠ Boom;
  so_out : out = omap (λ id, good (examine s c id f)) l;
  so_dirs : dirs f ⊆ dirs f';
  so_rest : ∀ p, untouched s c l f p → files f' !! p = files f !! p ∧
              (files f !! p ≠ None → p ∉ dirs f → p ∉ dirs f');
  so_bad : ∀ id, id ∈ l → examine s c id f = Bad → kept_or_moved s c f f' id }.

Lemma scanned_good s c id l f m out f' : examine s c id f = Good m →
  scanned_ok s c l f out f' → scanned_ok s c (id :: l) f (m :: out) f'.
Proof.
  intros Hm [H1 H2 H3 H4 H5]. split; [|by rewrite H2 /= Hm|done| |].
  - intros x [->|?]%elem_of_cons; [by rewrite Hm|auto].
  - intros p Hp. apply H4. intros x Hx. apply Hp. by right.
  - intros x [->|?]%elem_of_cons; [by rewrite Hm|auto].
Qed.

Lemma omap_ext_in {A B} (g h : A → option B) (l : list A) : (∀ x, x ∈ l → g x = h x) → omap g l = omap h l.
Proof.
  induction l as [|x l IH]; intros Hx; [done|]. cbn [omap list_omap]. rewrite Hx; [|by left].
  destruct (h x); [f_equal|]; apply IH; intros; apply Hx; by right.
Qed.

Lemma scanned_bad s c id l f out f' : store_wf s → stamps_ok c →
  (∀ x, x ∈ id :: l → ¬ in_string slash x) → id ∉ l → examine s c id f = Bad →
  scanned_ok s c l (quarantineMessage s c id f).2 out f' → scanned_ok s c (id :: l) f out f'.
Proof.
  intros Hw Hc Hs Hn Hb. set (f1 := (quarantineMessage s c id f).2).
  destruct (quarantine_spec s c id f) as (Hd & Hnd & Hq). fold f1 in Hd, Hnd, Hq.
  assert (∀ p, p ≠ pathForMessage s id → p ≠ q_path s c id → files f1 !! p = files f !! p) as Hf1.
  { intros p ??. destruct Hq as [->|(data & _ & ->)]; [done|].
    rewrite lookup_insert_ne // lookup_delete_ne //. }
  assert (∀ x, x ∈ l → files f1 !! pathForMessage s x = files f !! pathForMessage s x) as Hl.
  { intros x Hx. apply Hf1; [intros E; apply path_inj in E as ->; try done; apply Hs; set_solver|].
    apply not_eq_sym, q_path_ne; try done; apply Hs; set_solver. }
  assert (∀ x, x ∈ l → examine s c x f1 = examine s c x f) as He by (intros; by apply examine_ext, Hl).
  intros [H1 H2 H3 H4 H5]. split.
  - intros x [->|?]%elem_of_cons; [by rewrite Hb|]. rewrite -He //. auto.
  - rewrite H2 /= Hb /=. apply omap_ext_in. intros. by rewrite He.
  - set_solver.
  - intros p Hp. destruct (Hp id) as [P1 P2]; [by left|done|].
    destruct (H4 p) as [-> E2]; [intros x Hx Ex; apply Hp; [by right|by rewrite -He]|].
    rewrite Hf1 //. split; [done|]. intros. apply E2; [by rewrite Hf1|]. by apply Hnd.
  - intros x [->|Hx]%elem_of_cons Ex.
    + assert (untouched s c l f1 (pathForMessage s id) ∧ untouched s c l f1 (q_path s c id)) as [U1 U2].
      { split; intros x Hx _; split.
        - intros E. apply path_inj in E as ->; try done; apply Hs; set_solver.
        - apply not_eq_sym, q_path_ne; try done; apply Hs; set_solver.
        - apply q_path_ne; try done; apply Hs; set_solver.
        - intros E. apply q_path_inj in E as ->; try done; apply Hs; set_solver. }
      unfold kept_or_moved. rewrite (proj1 (H4 _ U1)) (proj1 (H4 _ U2)).
      destruct Hq as [->|(data & E & ->)]; [by left|]. right.
      rewrite lookup_insert_eq E. split; [|done].
      rewrite lookup_insert_ne; [|by apply q_path_ne; try done; apply Hs; left]. by rewrite lookup_delete_eq.
    + specialize (H5 x Hx). rewrite He // in H5. specialize (H5 Ex). unfold kept_or_moved in *.
      by rewrite -Hl.
Qed.

Lemma pending_loop_spec s c entries : store_wf s → stamps_ok c → ∀ f,
  (∀ id, id ∈ ids entries → ¬ in_string slash id) → NoDup (ids entries) →
  match pending_loop s c entries f with
  | None => ∃ id, id ∈ ids entries ∧ examine s c id f = Boom
  | Some (out, f') => scanned_ok s c (ids entries) f out f'
  end.
Proof.
  intros Hw Hc. induction entries as [|e entries IH]; intros f Hs Hn.
  { simpl. split; try done; intros; set_solver. }
  rewrite loop_cons. rewrite ids_cons in Hs, Hn |- *. destruct (is_message e); [|by apply IH].
  set (id := TrimSuffix e.1 ".json") in *. apply NoDup_cons in Hn as [Hid Hn].
  destruct (examine s c id f) as [m| |] eqn:Ex.
  - specialize (IH f). destruct (pending_loop s c entries f) as [[out f']|].
    + apply scanned_good; [done|]. apply IH; [|done]. intros; apply Hs. by right.
    + destruct IH as (x & ? & ?); [intros; apply Hs; by right|done|]. exists x. split; [by right|done].
  - specialize (IH (quarantineMessage s c id f).2).
    destruct (pending_loop s c entries _) as [[out f']|].
    + apply scanned_bad; try done. apply IH; [|done]. intros; apply Hs. by right.
    + destruct IH as (x & Hx & Hb); [intros; apply Hs; by right|done|]. exists x. split; [by right|].
      rewrite -Hb. symmetry. apply examine_ext. destruct (quarantine_spec s c id f) as (_ & _ & Hq).
      destruct Hq as [->|(data & _ & ->)]; [done|].
      assert (¬ in_string slash id ∧ ¬ in_string slash x) as [? ?] by (split; apply Hs; set_solver).
      rewrite lookup_insert_ne; [|by apply q_path_ne]. rewrite lookup_delete_ne //.
      intros E. apply path_inj in E as ->; done.
  - exists id. split; [by left|done].
Qed.

(** ** Writes *)
Lemma tmp_ne (p : string) : p +:+ ".tmp" ≠ p.
Proof. intros E. apply (f_equal String.length) in E. rewrite slength_app /= in E. lia. Qed.

(** Whatever call fails, the file is the old one or the complete new one, and
    only its temporary file is touched besides. *)
Lemma write_spec w path r f e f' : writeRecordAt w path r f = (e, f') →
  dirs f' = dirs f ∧
  (∀ p, p ≠ path → p ≠ path +:+ ".tmp" → files f' !! p = files f !! p) ∧
  (e ≠ None ∧ files f' !! path = files f !! path ∨
   ∃ d, marshal_record r = Some d ∧ files f' !! path = Some d ∧ path ∉ dirs f ∧
        Dir (path +:+ ".tmp") ∈ dirs f).
Proof.
  assert (path ≠ path +:+ ".tmp") as Hne by (apply not_eq_sym, tmp_ne).
  unfold writeRecordAt. destruct (marshal_record r) as [d|]; [|intros [= <- <-]; naive_solver].
  unfold WriteFile. destruct (decide _) as [Hd|]; [|intros [= <- <-]; naive_solver].
  destruct (w_write w) as [|[part|]]; cycle 1.
  - intros [= <- <-]. simpl. split; [done|]. split; [intros; by rewrite lookup_insert_ne|].
    left. split; [done|]. by rewrite lookup_insert_ne.
  - intros [= <- <-]. naive_solver.
  - unfold Rename. cbn [files dirs set_files]. rewrite lookup_insert_eq.
    destruct (decide _) as [Hr|]; cbn [files dirs set_files].
    + rewrite delete_insert_eq. intros Heq.
      assert (f' = set_files (<[path:=d]> (delete (path +:+ ".tmp") (files f))) f) as ->.
      { repeat case_match; by simplify_eq. }
      cbn [files dirs set_files]. split; [done|]. split.
      * intros. rewrite lookup_insert_ne // lookup_delete_ne //.
      * right. exists d. rewrite lookup_insert_eq. naive_solver.
    + intros [= <- <-]. cbn [files dirs set_files]. split; [done|]. split; [intros; by rewrite lookup_insert_ne|].
      left. split; [done|]. by rewrite lookup_insert_ne.
Qed.

(** ** Durability *)
Inductive op :=
| OEnqueue (w : write_faults) (now : Z) (random : option string) (id kind : string) (env : Envelope)
| OMark (rd : string → bool) (w : write_faults) (id : string)
| OAck (rm : bool) (id : string)
| OPending (c : calls).

Definition run_op (s : Store) (o : op) (f : disk) : option disk :=
  match o with
  | OEnqueue w now random id kind env => Some (Enqueue s w now random id kind env f).2
  | OMark rd w id => Some (MarkAttempt s rd w id f).2
  | OAck rm id => Some (Ack s rm id f).2
  | OPending c => match Pending s c f with Some (_, f) => Some f | None => None end
  end.

Fixpoint run_ops (s : Store) (os : list op) (f : disk) : option disk :=
  match os with
  | [] => Some f
  | o :: os => match run_op s o f with Some f => run_ops s os f | None => None end
  end.

(** Operations that do not replace or acknowledge message [id], and read its
    file when they list the store. *)
Definition leaves (s : Store) (id : string) (o : op) : Prop :=
  match o with
  | OEnqueue _ _ _ id' _ _ | OAck _ id' => pathForMessage s id' ≠ pathForMessage s id
  | OMark _ _ _ => True
  | OPending c => stamps_ok c ∧ read_ok c (pathForMessage s id) = true
  end.

(** The file of [id] holds [base] but for the attempts. *)
Definition holds (s : Store) (id : string) (base : storedMessage) (f : disk) : Prop :=
  ∃ data n, files f !! pathForMessage s id = Some data ∧ pathForMessage s id ∉ dirs f ∧
    unmarshal_record data = Some (set_attempts n base) ∧ encodable (set_attempts n base) ∧
    pendingDir s ∈ dirs f.

Lemma encodable_attempts n m r : encodable (set_attempts n r) → encodable (set_attempts (wrap64 m) r).
Proof. intros []. split; simpl in *; try done. unfold wrap64. pose proof (Z.mod_pos_bound (m + 2 ^ 63) (2 ^ 64)). lia. Qed.

Lemma path_not_tmp s id p : store_wf s → ¬ in_string slash id → pathForMessage s id ≠ p +:+ ".tmp".
Proof.
  intros Hw Hs E. rewrite path_name // -!sapp_assoc in E.
  apply (f_equal srev) in E. rewrite !srev_app in E. simpl in E. done.
Qed.

Lemma holds_write s w path r f e f' id base : store_wf s → ¬ in_string slash id →
  writeRecordAt w path r f = (e, f') → path ≠ pathForMessage s id →
  holds s id base f → holds s id base f'.
Proof.
  intros Hw Hs Hr Hne (data & n & Hf & Hd & Hrest). apply write_spec in Hr as (Hdirs & Hp & _).
  exists data, n. rewrite Hdirs Hp //. by apply path_not_tmp.
Qed.

Lemma holds_enqueue s w now random id' kind env f id base : store_wf s → ¬ in_string slash id →
  pathForMessage s id' ≠ pathForMessage s id → holds s id base f →
  holds s id base (Enqueue s w now random id' kind env f).2.
Proof.
  intros Hw Hs Hne Hh. unfold Enqueue. case_decide; [done|].
  destruct (marshal_env env); [|done]. destruct random; [|done].
  unfold writeRecord. destruct (writeRecordAt _ _ _ f) as [e f'] eqn:E. by eapply holds_write.
Qed.

Lemma holds_mark s rd w id' f id base : store_wf s → ¬ in_string slash id →
  holds s id base f → holds s id base (MarkAttempt s rd w id' f).2.
Proof.
  intros Hw Hs Hh. unfold MarkAttempt. destruct (readRecord s rd id' f) as [r|] eqn:Er; [|done].
  destruct (writeRecordAt _ _ _ f) as [e f'] eqn:E.
  destruct (decide (pathForMessage s id' = pathForMessage s id)) as [Heq|]; [|by eapply holds_write].
  destruct Hh as (data & n & Hf & Hd & Hu & He & Hp).
  unfold readRecord in Er. rewrite Heq in Er, E. destruct (rd _); [|done]. rewrite Hf Hu in Er.
  simplify_eq. apply write_spec in E as (Hdirs & _ & [[_ Hk]|(d & Hm & Hk & _ & _)]).
  - exists data, n. by rewrite Hdirs Hk.
  - exists d, (wrap64 (n + 1)). simpl. rewrite Hdirs Hk. pose proof (encodable_attempts _ (n + 1) _ He) as He'.
    change (set_attempts (wrap64 (n + 1)) (set_attempts n base)) with (set_attempts (wrap64 (n + 1)) base) in Hm.
    destruct (record_roundtrip _ He') as (d' & Hm' & Hu'). simpl in Hm. rewrite Hm in Hm'. by simplify_eq.
Qed.

(** A directory that holds a message is not empty. *)
Lemma pending_not_empty s id f : store_wf s → ¬ in_string slash id →
  is_Some (files f !! pathForMessage s id) → is_empty (pendingDir s) f = false.
Proof.
  intros Hw Hs [data Hf]. apply not_true_is_false. unfold is_empty. rewrite forallb_forall. intros He.
  destruct (join_clean_dir (pendingDir s) (id +:+ ".json")) as [[Hc _] Hp].
  { destruct Hw as [[Hcl _] _ _]. rewrite -Hcl. apply Clean_nonempty. }
  { by apply file_proper. }
  specialize (He (pathForMessage s id)). rewrite -list_elem_of_In elem_of_app list_elem_of_fmap in He.
  apply orb_true_iff in He as [He|He].
  - apply negb_true_iff, bool_decide_eq_false in He. apply He. unfold pathForMessage. rewrite Hp.
    split; [|by exists [id +:+ ".json"]]. fold (pathForMessage s id). rewrite path_name //.
    apply (path_comps_descend (pendingDir s)); [|by apply proper_comps, file_proper|].
    + destruct Hw as [[Hcl _] _ _]. rewrite -Hcl. apply Clean_nonempty.
    + destruct (proper_comps _ (file_proper id Hs)) as [-> _]. destruct (file_proper id Hs) as (_ & _ & ? & _). set_solver.
  - apply bool_decide_eq_true in He. unfold pathForMessage in He. rewrite He in Hp.
    apply (f_equal length) in Hp. rewrite length_app /= in Hp. lia.
  - left. exists (pathForMessage s id, data). split; [done|]. by apply elem_of_map_to_list.
Qed.

Lemma holds_ack s rm id' f id base : store_wf s → ¬ in_string slash id →
  pathForMessage s id' ≠ pathForMessage s id →
  holds s id base f → holds s id base (Ack s rm id' f).2.
Proof.
  intros Hw Hs Hne Hh. unfold Ack. case_decide; [done|].
  destruct Hh as (data & n & Hf & Hd & Hu & He & Hp). destruct (files f !! pathForMessage s id') eqn:E.
  - destruct rm; exists data, n; simpl; [rewrite lookup_delete_ne //|done].
  - destruct (decide _); [|by exists data, n]. destruct (rm && is_empty _ _) eqn:Ee; [|by exists data, n].
    exists data, n. simpl. split; [done|]. split; [set_solver|]. split; [done|]. split; [done|].
    apply elem_of_difference. split; [done|]. apply not_elem_of_singleton. intros Heq.
    bool_props. rewrite -Heq (pending_not_empty s id) // in H1.
Qed.

(** The stored record opens. *)
Lemma decrypt_new s now nonce id kind env payload n : marshal_env env = Some payload →
  String.length nonce = NonceSize →
  decryptEnvelope s (set_attempts n (new_record s now nonce id kind payload)) = Opened (norm env).
Proof.
  intros Hm Hl. unfold decryptEnvelope. simpl. rewrite !base64_roundtrip decide_False; [|tauto].
  by rewrite open_seal (env_roundtrip env).
Qed.

(** What [Enqueue] stored, as a message. *)
Definition opens (s : Store) (base : storedMessage) (env : Envelope) : Prop :=
  ∀ n, decryptEnvelope s (set_attempts n base) = Opened env.

Lemma holds_examine s c id base env f : opens s base env → read_ok c (pathForMessage s id) = true →
  holds s id base f → ∃ n, examine s c id f = Good (to_pending (set_attempts n base) env).
Proof.
  intros Ho Hr (data & n & Hf & _ & Hu & _). exists n. unfold examine, readRecord.
  by rewrite Hr Hf Hu Ho.
Qed.

Lemma Pending_spec s c f r f' : store_wf s → stamps_ok c → Pending s c f = Some (r, f') →
  (r = inr ListFailed ∧ f' = f ∧ list_fails s c f = true) ∨ (r = inl [] ∧ f' = f ∧ pendingDir s ∉ dirs f) ∨
  ∃ l out, list_fails s c f = false ∧ pendingDir s ∈ dirs f ∧ NoDup l ∧
    (∀ id, id ∈ l ↔ ¬ in_string slash id ∧ is_Some (files f !! pathForMessage s id) ∧
                    pathForMessage s id ∉ dirs f) ∧
    r = inl (sort_slice out) ∧ CountPending s c f = inl (length l) ∧ scanned_ok s c l f out f'.
Proof.
  intros Hw Hc. unfold Pending, CountPending. destruct (list_fails s c f); simpl; [intros [= <- <-]; by left|].
  destruct (ReadDir (pendingDir s) f) as [es|] eqn:Er.
  - pose proof (pending_loop_spec s c es Hw Hc f) as Hl. pose proof (elem_of_ids s f es) as Hi.
    destruct (pending_loop s c es f) as [[out f1]|]; [|done]. intros [= <- <-]. right. right.
    exists (ids es), out. split; [done|].
    split; [unfold ReadDir in Er; by case_decide|]. split; [by eapply NoDup_ids|].
    split; [intros; by apply Hi|]. split; [done|]. split; [unfold ids; by rewrite length_fmap|].
    apply Hl; [|by eapply NoDup_ids].
    intros id Hx. by apply Hi in Hx as [? _].
  - intros [= <- <-]. right. left. unfold ReadDir in Er. by case_decide.
Qed.

Lemma holds_pending s c f id base env r f' : store_wf s → ¬ in_string slash id → stamps_ok c →
  read_ok c (pathForMessage s id) = true → opens s base env →
  Pending s c f = Some (r, f') → holds s id base f → holds s id base f'.
Proof.
  intros Hw Hs Hc Hr Ho HP Hh. apply Pending_spec in HP as [(_ & -> & _)|[(_ & -> & _)|HP]]; [done|done| |done|done].
  destruct HP as (l & out & _ & _ & _ & Hl & _ & _ & [_ _ Hd Hrest _]).
  pose proof (holds_examine s c id base env f Ho Hr Hh) as [m Hx].
  destruct Hh as (data & n & Hf & Hnd & Hu & He & Hp).
  destruct (Hrest (pathForMessage s id)) as [Hk Hk2].
  { intros y Hy Hb. apply Hl in Hy as (Hys & _). split; [|by apply not_eq_sym, q_path_ne].
    intros E. apply path_inj in E as ->; try done. by rewrite Hx in Hb. }
  exists data, n. rewrite Hk. split; [done|]. split; [|split; [done|split; [done|set_solver]]].
  apply Hk2; [by rewrite Hf|done].
Qed.

Lemma holds_ops s id base env os : store_wf s → ¬ in_string slash id → opens s base env →
  ∀ f f', Forall (leaves s id) os → run_ops s os f = Some f' → holds s id base f → holds s id base f'.
Proof.
  intros Hw Hs Ho. induction os as [|o os IH]; intros f f' Hall Hrun Hh; simpl in Hrun; [by simplify_eq|].
  apply Forall_cons in Hall as [Hl Hall]. destruct (run_op s o f) as [f1|] eqn:E; [|done].
  apply (IH f1 f'); [done..|]. destruct o as [w now random id' kind e|rd w id'|rm id'|c]; simpl in *.
  - simplify_eq. by apply holds_enqueue.
  - simplify_eq. by apply holds_mark.
  - simplify_eq. by apply holds_ack.
  - destruct Hl. destruct (Pending s c f) as [[r f2]|] eqn:EP; [|done]. simplify_eq.
    by eapply holds_pending.
Qed.

(** ** Base64 text is plain ASCII *)
Fixpoint ascii7 (s : string) : Prop :=
  match s with "" => True | String a s => (N_of_ascii a <= 127)%N ∧ ascii7 s end.

Lemma ascii7_valid s : ascii7 s → ValidString s = true.
Proof.
  unfold ValidString. induction s as [|a s IH]; [done|]. intros [Ha Hs]. cbn [String.length valid_utf8_fuel].
  assert (decode_rune (String a s) = (N_of_ascii a, 1)) as ->.
  { unfold decode_rune. cbn [String.list_ascii_of_string fmap list_fmap]. by rewrite (proj2 (N.leb_le _ _) Ha). }
  rewrite decide_False; [by apply IH|]. intros [E _]. rewrite E in Ha. lia.
Qed.

Lemma c64_ascii n : (N_of_ascii (c64 n) <= 127)%N.
Proof.
  assert (∀ k s, ascii7 s → (N_of_ascii (default pad (String.get k s)) <= 127)%N) as Hg.
  { intros k s. revert k. induction s as [|a s IH]; intros [|k] Hs; simpl; try (by destruct Hs).
    apply IH. apply Hs. }
  apply Hg. vm_compute. repeat split; intros; discriminate.
Qed.

Lemma EncodeToString_valid s : ValidString (EncodeToString s) = true.
Proof.
  apply ascii7_valid. assert (N_of_ascii pad <= 127)%N as Hp by (vm_compute; discriminate).
  induction s as [|a|a b|a b c r IH] using triple_ind; cbn [EncodeToString]; cbv zeta; [done|..];
    repeat split; auto using c64_ascii.
Qed.

Lemma Dir_tmp s id : store_wf s → ¬ in_string slash id → Dir (pathForMessage s id +:+ ".tmp") = pendingDir s.
Proof.
  intros Hw Hs. rewrite path_name // !sapp_assoc. unfold Dir.
  rewrite (proj2 (rcut_Some slash _ (pendingDir s) (id +:+ ".json.tmp"))).
  2: { split; [done|]. rewrite in_string_app. intros [?|Hx]; [done|]. simpl in Hx. naive_solver. }
  destruct Hw as [[Hc Hn] _ _]. assert (pendingDir s ≠ "") as Hne by (intros E; by rewrite E in Hn).
  destruct (path_comps_descend (pendingDir s) "") as [H1 H2]; [done|done|set_solver|].
  change (pendingDir s +:+ "/") with (pendingDir s +:+ String slash ""). rewrite -{2}Hc. unfold Clean.
  rewrite H1 H2. by rewrite app_nil_r.
Qed.

Lemma enqueued s w now nonce id kind env f f' : store_wf s → ¬ in_string slash id →
  ValidString id = true → ValidString kind = true → time_ok now → String.length nonce = NonceSize →
  Enqueue s w now (Some nonce) id kind env f = (None, f') →
  ∃ base, holds s id base f' ∧ opens s base (norm env) ∧
    MessageID base = id ∧ Kind base = kind ∧ CreatedAt base = now.
Proof.
  intros Hw Hs Hv Hk Ht Hl. unfold Enqueue. case_decide; [done|].
  destruct (marshal_env env) as [payload|] eqn:Hm; [|done]. unfold writeRecord. intros E.
  set (base := new_record s now nonce id kind payload) in E.
  assert (encodable (set_attempts 0 base)) as Henc.
  { split; simpl; [done|done|apply EncodeToString_valid|apply EncodeToString_valid|done|lia]. }
  apply write_spec in E as (Hd & _ & [[? _]|(d & Hmr & Hf & Hnd & Hdir)]); [done|].
  destruct (record_roundtrip _ Henc) as (d' & Hm' & Hu). change (set_attempts 0 base) with base in Hm'.
  simpl MessageID in *. rewrite Hmr in Hm'. simplify_eq.
  exists base. split; [|split; [intros n; by apply decrypt_new|done]].
  exists d', 0%Z. rewrite Hd Hf. rewrite Dir_tmp // in Hdir.
Qed.

(** ** Properties *)

(** What [sort.Slice] promises. *)
Definition sorts : Prop :=
  ∀ l, sort_slice l ≡ₚ l ∧ Sorted (λ a b, less b a = false) (sort_slice l).

(** An outgoing message is never lost: once Enqueue has returned without an
    error on a store, and whatever follows - other messages stored with any
    failing call, any attempt marked, other messages acknowledged, the store
    listed with files being quarantined - a later listing still returns it, with
    its kind, its time and its envelope. *)
Theorem spool_durable ok rootDir tok f0 s f1 w now nonce id kind env f2 f3 os f4 c msgs f5 :
  sorts → New ok rootDir tok f0 = inl (s, f1) → ¬ in_string slash id → ValidString id = true →
  ValidString kind = true → time_ok now → String.length nonce = NonceSize →
  Enqueue s w now (Some nonce) id kind env f2 = (None, f3) →
  Forall (leaves s id) os → run_ops s os f3 = Some f4 →
  stamps_ok c → read_ok c (pathForMessage s id) = true → Pending s c f4 = Some (inl msgs, f5) →
  ∃ n, {| pm_MessageID := id; pm_Kind := kind; pm_CreatedAt := now; pm_Attempts := n;
          pm_Envelope := norm env |} ∈ msgs.
Proof.
  intros Hsort HN Hs Hv Hk Ht Hn HE Hall Hrun Hc Hr HP. apply New_wf in HN as [Hw _].
  destruct (enqueued s w now nonce id kind env f2 f3) as (base & Hh & Ho & <- & <- & <-); [done..|].
  apply (holds_ops s _ base (norm env) os Hw Hs Ho f3 f4 Hall Hrun) in Hh.
  destruct (holds_examine s c _ base (norm env) f4 Ho Hr Hh) as [n Hx].
  destruct Hh as (data & m & Hf & Hnd & _ & _ & Hp). exists n.
  apply Pending_spec in HP as [(? & _)|[(_ & _ & ?)|(l & out & _ & _ & _ & Hl & E & _ & [_ Hout _ _ _])]]; try done.
  simplify_eq. rewrite (proj1 (Hsort _)) list_elem_of_omap. exists (MessageID base). rewrite Hx. split; [|done].
  apply Hl. by rewrite Hf.
Qed.

(** A listing returns exactly the messages whose files can be read and opened,
    in the order of their times and then of their IDs; CountPending is the number
    of message files.  A file that cannot be read or opened is left where it is or
    moved to the quarantine with its content, and nothing else changes. *)
Theorem pending_exact ok rootDir tok f0 s f1 c f msgs f' : sorts →
  New ok rootDir tok f0 = inl (s, f1) → stamps_ok c → pendingDir s ∈ dirs f →
  Pending s c f = Some (inl msgs, f') →
  ∃ l, NoDup l ∧
    (∀ id, id ∈ l ↔ ¬ in_string slash id ∧ is_Some (files f !! pathForMessage s id) ∧
                    pathForMessage s id ∉ dirs f) ∧
    CountPending s c f = inl (length l) ∧
    msgs ≡ₚ omap (λ id, good (examine s c id f)) l ∧
    Sorted (λ a b, less b a = false) msgs ∧
    (∀ id, id ∈ l → examine s c id f = Bad → kept_or_moved s c f f' id) ∧
    (∀ p, untouched s c l f p → files f' !! p = files f !! p).
Proof.
  intros Hsort HN Hc Hd HP. apply New_wf in HN as [Hw _].
  apply Pending_spec in HP as [(? & _)|[(_ & _ & ?)|(l & out & _ & _ & Hn & Hl & E & Hcount & [_ Hout _ Hrest Hbad])]];
    try done.
  simplify_eq. exists l. split; [done|]. split; [done|]. split; [done|].
  split; [by rewrite (proj1 (Hsort _))|]. split; [apply Hsort|]. split; [done|].
  intros p Hp. by apply Hrest.
Qed.

(** Listing a store panics exactly when some message file is a well-formed
    record whose nonce and ciphertext are valid base64 but whose nonce does not
    have the cipher's length: such a file stops the worker instead of being
    quarantined. *)
Theorem pending_panics_exactly ok rootDir tok f0 s f1 c f : New ok rootDir tok f0 = inl (s, f1) →
  stamps_ok c →
  Pending s c f = None ↔ list_fails s c f = false ∧ pendingDir s ∈ dirs f ∧
    ∃ id record nonce ct, ¬ in_string slash id ∧ pathForMessage s id ∉ dirs f ∧
      readRecord s (read_ok c) id f = inl record ∧ DecodeString (Nonce record) = Some nonce ∧
      DecodeString (Ciphertext record) = Some ct ∧ String.length nonce ≠ NonceSize.
Proof.
  intros HN Hc. apply New_wf in HN as [Hw _].
  assert (∀ id, examine s c id f = Boom ↔ ∃ record nonce ct, readRecord s (read_ok c) id f = inl record ∧
    DecodeString (Nonce record) = Some nonce ∧ DecodeString (Ciphertext record) = Some ct ∧
    String.length nonce ≠ NonceSize) as Hx.
  { intros id. unfold examine, decryptEnvelope. destruct (readRecord _ _ _ _) as [r|]; [|naive_solver].
    destruct (DecodeString (Nonce r)) as [nonce|] eqn:E1; [|split; [done|intros (? & ? & ? & ? & ? & _); congruence]].
    destruct (DecodeString (Ciphertext r)) as [ct|] eqn:E2; [|split; [done|intros (? & ? & ? & ? & ? & ? & _); congruence]].
    case_decide; [naive_solver|]. split; [intros; cases|]. intros (? & ? & ? & ? & ? & ? & ?). congruence. }
  split.
  - unfold Pending. destruct (list_fails s c f); [done|]. destruct (ReadDir (pendingDir s) f) as [es|] eqn:Er; [|done].
    pose proof (pending_loop_spec s c es Hw Hc f) as Hl.
    destruct (pending_loop s c es f) as [[? ?]|]; [done|]. intros _.
    destruct Hl as (id & Hid & Hb); [intros x Hi; by apply (elem_of_ids s f es x Hw Er) in Hi as [? _]|by eapply NoDup_ids|].
    split; [done|]. split; [unfold ReadDir in Er; by case_decide|].
    apply Hx in Hb as (r & nonce & ct & ?). apply (elem_of_ids s f) in Hid as (? & _ & ?); [|done..].
    exists id, r, nonce, ct. tauto.
  - intros (Hlo & Hd & id & r & nonce & ct & Hs & Hnd & Hrd & Hrest).
    destruct (Pending s c f) as [[res f']|] eqn:HP; [|done]. exfalso.
    apply Pending_spec in HP as [(_ & _ & ?)|[(_ & _ & ?)|(l & out & _ & _ & _ & Hl & _ & _ & [Hcalm _ _ _ _])]];
      try done; [congruence|].
    apply (Hcalm id); [|apply Hx; naive_solver]. apply Hl. split; [done|]. split; [|done].
    unfold readRecord in Hrd. destruct (read_ok c _); [|done]. by destruct (files f !! _).
Qed.
End spool.

(** ** A concrete store *)
Fixpoint bits (p : positive) : string :=
  match p with xH => "" | xO p => String "0" (bits p) | xI p => String "1" (bits p) end.

Fixpoint unbits (s : string) : positive :=
  match s with "" => xH | String a s => if decide (a = "0"%char) then xO (unbits s) else xI (unbits s) end.

Lemma unbits_bits p : unbits (bits p) = p.
Proof. induction p; simpl; congruence. Qed.

Definition untuple (t : string * string * Z * Z * string * string) : storedMessage :=
  let '(i, k, cr, a, n, ct) := t in
  {| MessageID := i; Kind := k; CreatedAt := cr; Attempts := a; Nonce := n; Ciphertext := ct |}.

Definition write_tuple (r : storedMessage) : string :=
  bits (encode (MessageID r, Kind r, CreatedAt r, Attempts r, Nonce r, Ciphertext r)).
Definition read_tuple (d : string) : option storedMessage := untuple <$> decode (unbits d).

Lemma read_write_tuple r : read_tuple (write_tuple r) = Some r.
Proof. unfold read_tuple, write_tuple. rewrite unbits_bits decode_encode. by destruct r. Qed.

#[local] Instance toy_json : Json string := {|
  marshal_record r := Some (write_tuple r); unmarshal_record := read_tuple;
  marshal_env := Some; decode_env := Some; norm := id;
  record_roundtrip r _ := ex_intro _ (write_tuple r) (conj eq_refl (read_write_tuple r));
  env_roundtrip e p E := eq_sym E |}.

Definition toy_seal (tok nonce p a : string) : string := bits (encode (tok, nonce, p, a)).
Definition toy_open (tok nonce c a : string) : option string :=
  match decode (A := string * string * string * string) (unbits c) with
  | Some (t, n, p, b) => if decide (t = tok ∧ n = nonce ∧ b = a) then Some p else None
  | None => None
  end.

Lemma toy_open_seal tok nonce p a : toy_open tok nonce (toy_seal tok nonce p a) a = Some p.
Proof. unfold toy_open, toy_seal. by rewrite unbits_bits decode_encode decide_True. Qed.

#[local] Instance toy_aead : Aead := {| Seal := toy_seal; OpenAead := toy_open; open_seal := toy_open_seal |}.

Definition by_time (a b : PendingMessage (Envelope := string)) : Prop := less b a = false.
#[local] Instance by_time_dec a b : Decision (by_time a b) := decide (less b a = false).
Definition toy_sort : list (PendingMessage (Envelope := string)) → list PendingMessage := merge_sort by_time.

#[local] Instance by_time_total : Total by_time.
Proof.
  intros a b. unfold by_time, less. rewrite Z.eqb_sym. destruct (pm_CreatedAt a =? pm_CreatedAt b)%Z eqn:E.
  - rewrite !negb_false_iff !bool_decide_eq_true. apply (total strings.String.le).
  - rewrite !Z.ltb_ge. lia.
Qed.

Lemma toy_sorts : sorts toy_sort.
Proof. intros l. split; [apply merge_sort_Permutation|apply (Sorted_merge_sort by_time)]. Qed.

Definition disk0 : disk := {| files := ∅; dirs := ∅ |}.
Definition store1 : Store :=
  {| root := "/data/spool"; pendingDir := "/data/spool/pending"; quarantineDir := "/data/spool/quarantine";
     token := "t" |}.
Definition disk1 : disk := default disk0 (mkdirs (λ _, true) [root store1; pendingDir store1; quarantineDir store1] disk0).

Definition no_faults : write_faults :=
  {| w_write := Written; w_rename := true; w_open := true; w_sync := true; w_dopen := true; w_dsync := true |}.
Definition all_ok : calls :=
  {| list_ok := true; read_ok := λ _, true; mkdir_ok := λ _, true; move_ok := λ _, true;
     stamp := λ _, "20240102030405" |}.
(** The rename of another message fails. *)
Definition bad_rename : write_faults :=
  {| w_write := Written; w_rename := false; w_open := true; w_sync := true; w_dopen := true; w_dsync := true |}.

Definition disk2 : disk := (Enqueue store1 no_faults 7 (Some "123456789012") "m1" "job_completed" "done" disk1).2.
Definition ops1 : list op := [OEnqueue bad_rename 8 (Some "123456789012") "m2" "command_result" "x";
  OMark (λ _, true) no_faults "m1"; OAck true "m3"; OPending all_ok].
Definition disk3 : disk := default disk0 (run_ops toy_sort store1 ops1 disk2).

Lemma new_store1 : New (λ _, true) "/data" "t" disk0 = inl (store1, disk1).
Proof. reflexivity. Qed.

Lemma stamps_all_ok : stamps_ok all_ok.
Proof. intros x. split; [|done]. simpl. repeat (intros [E|E]; [discriminate|revert E]). done. Qed.

Definition message1 (n : Z) : PendingMessage (Envelope := string) :=
  {| pm_MessageID := "m1"; pm_Kind := "job_completed"; pm_CreatedAt := 7; pm_Attempts := n;
     pm_Envelope := "done" |}.

Lemma m1_plain : ¬ in_string slash "m1".
Proof. simpl. repeat (intros [E|E]; [discriminate|revert E]). done. Qed.

Lemma spool_durable_witness : Pending toy_sort store1 all_ok disk3 = Some (inl [message1 1], disk3) ∧
  ∃ n, message1 n ∈ [message1 1].
Proof.
  split; [vm_compute; reflexivity|].
  refine (spool_durable toy_sort (λ _, true) "/data" "t" disk0 store1 disk1 no_faults 7 "123456789012" "m1"
    "job_completed" "done" disk1 disk2 ops1 disk3 all_ok [message1 1] disk3
    toy_sorts eq_refl m1_plain eq_refl eq_refl _ eq_refl _ _ _ stamps_all_ok eq_refl _).
  - unfold time_ok. lia.
  - vm_compute. reflexivity.
  - repeat constructor; try apply stamps_all_ok; vm_compute; discriminate.
  - vm_compute. reflexivity.
  - vm_compute. reflexivity.
Defined.

(** A file that is not a record, and one whose nonce is empty. *)
Definition disk4 : disk := set_files (<["/data/spool/pending/x.json" := "garbage"]> (files disk2)) disk2.
Definition empty_record : storedMessage :=
  {| MessageID := ""; Kind := ""; CreatedAt := 0; Attempts := 0; Nonce := ""; Ciphertext := "" |}.
Definition disk5 : disk :=
  set_files (<["/data/spool/pending/x.json" := write_tuple empty_record]> (files disk2)) disk2.

Lemma pending_exact_witness : ∃ msgs f, Pending toy_sort store1 all_ok disk4 = Some (inl msgs, f) ∧
  Sorted (λ a b, less b a = false) msgs.
Proof.
  eexists _, _. split; [vm_compute; reflexivity|].
  edestruct (pending_exact toy_sort (λ _, true) "/data" "t" disk0 store1 disk1 all_ok disk4)
    as (l & _ & _ & _ & _ & Hs & _).
  - apply toy_sorts.
  - reflexivity.
  - apply stamps_all_ok.
  - apply (bool_decide_eq_true_1 _). vm_compute. reflexivity.
  - vm_compute. reflexivity.
  - exact Hs.
Defined.

Lemma pending_panics_exactly_witness : Pending toy_sort store1 all_ok disk5 = None.
Proof.
  apply (proj2 (pending_panics_exactly toy_sort (λ _, true) "/data" "t" disk0 store1 disk1 all_ok disk5
    eq_refl stamps_all_ok)).
  split; [reflexivity|]. split; [apply (bool_decide_eq_true_1 _); vm_compute; reflexivity|].
  exists "x", empty_record, "", "". split; [simpl; intros [E|[]]; discriminate|].
  split; [apply (bool_decide_eq_true_1 _); vm_compute; reflexivity|].
  split; [vm_compute; reflexivity|]. split; [reflexivity|]. split; [reflexivity|]. vm_compute. discriminate.
Defined.
