(* ===== verification/Transport.v ===== *)
(** * worker/transport: the outbox on the wire

    Results and job reports are stored in the spool before they are sent and sent
    again with every heartbeat until the server acknowledges them.  A connection
    is the list of envelopes written to it; whether each write succeeds is given
    by [link]. *)
From Stdlib Require Import ZArith.
From S2P Require Import Prelude GoStrings GoPath GoFmt Spool.

Section transport.
Context {Envelope : Type} {JS : Json Envelope} {AE : Aead}.
Abbreviation message := (PendingMessage (Envelope := Envelope)).
Context (sort_slice : list message → list message).
Context (link : nat → bool).

Record net := { wire : list Envelope; attempt : nat }.

(** No connection and a failed write are the same to the caller. *)
Definition sendEnvelope (env : Envelope) (n : net) : bool * net :=
  match marshal_env env with
  | None => (false, n)
  | Some _ =>
      if link (attempt n) then (true, {| wire := wire n ++ [env]; attempt := S (attempt n) |})
      else (false, {| wire := wire n; attempt := S (attempt n) |})
  end.

(** Storing comes first; a message that could not be stored is not sent. *)
Definition persistAndSend (s : option Store) (w : write_faults) (now : Z) (random : option string)
    (messageID kind : string) (env : Envelope) (f : disk) (n : net) : bool * disk * net :=
  match s with
  | None => (false, f, n)
  | Some s =>
      match Enqueue s w now random messageID kind env f with
      | (Some _, f) => (false, f, n)
      | (None, f) => let '(ok, n) := sendEnvelope env n in (ok, f, n)
      end
  end.

(** The calls of marking an attempt, per message. *)
Record mark_calls := { mk_read : string → bool; mk_write : write_faults }.

Fixpoint flush_loop (s : Store) (mk : string → mark_calls) (pending : list message)
    (f : disk) (n : net) : disk * net :=
  match pending with
  | [] => (f, n)
  | msg :: pending =>
      let f := (MarkAttempt s (mk_read (mk (pm_MessageID msg))) (mk_write (mk (pm_MessageID msg))) (pm_MessageID msg) f).2 in
      match sendEnvelope (pm_Envelope msg) n with
      | (true, n) => flush_loop s mk pending f n
      | (false, n) => (f, n)
      end
  end.

(** [None] when listing the spool panics. *)
Definition FlushPersistentMessages (s : option Store) (c : calls) (mk : string → mark_calls) (f : disk) (n : net)
    : option (disk * net) :=
  match s with
  | None => Some (f, n)
  | Some s =>
      match Pending sort_slice s c f with
      | None => None
      | Some (inr _, f) => Some (f, n)
      | Some (inl pending, f) => Some (flush_loop s mk pending f n)
      end
  end.

Definition ackPersistentMessage (s : option Store) (remove_ok : bool) (messageID : string) (f : disk)
    : option spool_error * disk :=
  match s with
  | None => (None, f)
  | Some s => Ack s remove_ok messageID f
  end.

Definition pendingCounts (s : option Store) (c : calls) (f : disk) : option (nat * nat * disk) :=
  match s with
  | None => Some (0, 0, f)
  | Some s =>
      match Pending sort_slice s c f with
      | None => None
      | Some (inr _, f) => Some (0, 0, f)
      | Some (inl pending, f) =>
          Some (length (filter (λ m, pm_Kind m = "command_result") pending),
                length (filter (λ m, pm_Kind m = "job_completed") pending), f)
      end
  end.

(** ** What one flush does *)

(** The messages a flush gets to, up to the first failed write. *)
Lemma flush_prefix s mk pending f n f' n' : flush_loop s mk pending f n = (f', n') →
  ∃ k, wire n' = wire n ++ (pm_Envelope <$> take k pending)
  ∧ ((∀ i, link (attempt n + i) = true) → Forall (λ m, is_Some (marshal_env (pm_Envelope m))) pending → k = length pending).
Proof.
  revert f n. induction pending as [|msg pending IH]; intros f n; cbn [flush_loop].
  - intros [= <- <-]. exists 0. cbn. by rewrite app_nil_r.
  - unfold sendEnvelope. destruct (marshal_env (pm_Envelope msg)) as [data|] eqn:Hm.
    + destruct (link (attempt n)) eqn:Hl.
      * intros Hf. apply IH in Hf as (k & Hw & Hk). exists (S k). cbn in Hw |- *. split; [by rewrite Hw -app_assoc|].
        intros Hall Hms. f_equal. apply Hk; [intros i; cbn; specialize (Hall (S i)); by rewrite Nat.add_succ_r in Hall|].
        by apply Forall_cons in Hms as [_ ?].
      * intros [= <- <-]. exists 0. cbn. rewrite app_nil_r. split; [done|]. intros Hall. specialize (Hall 0).
        by rewrite Nat.add_0_r Hl in Hall.
    + intros [= <- <-]. exists 0. rewrite app_nil_r. split; [done|]. intros _ [Hx _]%Forall_cons.
      rewrite Hm in Hx. by destruct Hx.
Qed.

(** On the disk a flush is a listing and some marked attempts. *)
Lemma flush_loop_ops s mk pending f n f' n' : flush_loop s mk pending f n = (f', n') →
  ∃ os, run_ops sort_slice s os f = Some f' ∧ Forall (λ o, ∃ rd w id, o = OMark rd w id) os.
Proof.
  revert f n. induction pending as [|msg pending IH]; intros f n; cbn [flush_loop].
  - intros [= <- <-]. by exists [].
  - destruct (sendEnvelope (pm_Envelope msg) n) as [[] n1].
    + intros (os & Hr & Ho)%IH. eexists (OMark _ _ (pm_MessageID msg) :: os). cbn [run_ops run_op].
      split; [exact Hr|]. constructor; eauto.
    + intros [= <- <-]. eexists [OMark _ _ (pm_MessageID msg)]. split; [done|]. repeat constructor. eauto.
Qed.

(** ** A worker's session as a sequence of events *)
Inductive event :=
| ESend (w : write_faults) (now : Z) (random : option string) (id kind : string) (env : Envelope)
| EFlush (c : calls) (mk : string → mark_calls)
| EAck (remove_ok : bool) (id : string)
| EReconnect.

Definition run_event (s : Store) (e : event) (st : disk * net) : option (disk * net) :=
  let '(f, n) := st in
  match e with
  | ESend w now random id kind env => let '(_, f, n) := persistAndSend (Some s) w now random id kind env f n in Some (f, n)
  | EFlush c mk => FlushPersistentMessages (Some s) c mk f n
  | EAck ok id => Some ((ackPersistentMessage (Some s) ok id f).2, n)
  | EReconnect => Some (f, {| wire := []; attempt := attempt n |})
  end.

Fixpoint run_events (s : Store) (es : list event) (st : disk * net) : option (disk * net) :=
  match es with
  | [] => Some st
  | e :: es => match run_event s e st with Some st => run_events s es st | None => None end
  end.

(** Events that neither reuse nor acknowledge message [id]. *)
Definition spares (s : Store) (id : string) (e : event) : Prop :=
  match e with
  | ESend _ _ _ id' _ _ | EAck _ id' => pathForMessage s id' ≠ pathForMessage s id
  | EFlush c _ => stamps_ok c ∧ read_ok c (pathForMessage s id) = true
  | EReconnect => True
  end.

Lemma run_ops_app s os os' f : run_ops sort_slice s (os ++ os') f =
  match run_ops sort_slice s os f with Some f => run_ops sort_slice s os' f | None => None end.
Proof. revert f. induction os as [|o os IH]; intros f; [done|]. cbn [run_ops app]. destruct (run_op sort_slice s o f); [apply IH|done]. Qed.

Lemma event_ops s id e f n f' n' : spares s id e → run_event s e (f, n) = Some (f', n') →
  ∃ os, run_ops sort_slice s os f = Some f' ∧ Forall (leaves s id) os.
Proof.
  destruct e as [w now random id' kind env|c mk|ok id'|]; cbn [spares run_event].
  - intros Hne. unfold persistAndSend. destruct (Enqueue s w now random id' kind env f) as [err f1] eqn:He. intros Hr.
    assert (f' = f1) as -> by (destruct err; [|destruct (sendEnvelope env n)]; by simplify_eq).
    exists [OEnqueue w now random id' kind env]. split; [cbn; by rewrite He|by repeat constructor].
  - intros Hc. cbn [FlushPersistentMessages]. destruct (Pending sort_slice s c f) as [[[pending|] f1]|] eqn:Hp; [|..|done].
    + intros [= Hf]. apply flush_loop_ops in Hf as (os & Hr & Ho).
      exists (OPending c :: os). cbn [run_ops run_op]. rewrite Hp. split; [done|]. constructor; [done|].
      eapply Forall_impl; [exact Ho|]. intros o (rd & w & x & ->). done.
    + intros [= <- <-]. exists [OPending c]. cbn [run_ops run_op]. rewrite Hp. split; [done|by rewrite Forall_singleton].
  - intros Hne [= <- <-]. exists [OAck ok id']. split; [done|by repeat constructor].
  - intros _ [= <- <-]. exists []. split; [done|constructor].
Qed.

Lemma events_ops s id es f n f' n' : Forall (spares s id) es → run_events s es (f, n) = Some (f', n') →
  ∃ os, run_ops sort_slice s os f = Some f' ∧ Forall (leaves s id) os.
Proof.
  revert f n. induction es as [|e es IH]; intros f n Hes; cbn [run_events].
  - intros [= <- <-]. exists []. split; [done|constructor].
  - apply Forall_cons in Hes as [He Hes]. destruct (run_event s e (f, n)) as [[f1 n1]|] eqn:Hr; [|done].
    intros Hrest. destruct (event_ops s id e f n f1 n1 He Hr) as (os & Hos & Hl).
    destruct (IH f1 n1 Hes Hrest) as (os' & Hos' & Hl'). exists (os ++ os').
    rewrite run_ops_app Hos. split; [done|]. by apply Forall_app.
Qed.

(** Delivery is at least once: a message whose storing succeeded, in whatever
    state the connection was, is written to the connection by any later flush that
    completes, whatever was sent, flushed, acknowledged or reconnected in between,
    as long as the server has not acknowledged it and its file stays readable; and a
    flush writes the pending messages in order, stopping at the first failed write. *)
Theorem outbox_at_least_once ok rootDir tok f0 s f1 w now nonce id kind env f2 n2 f3 n3 sent_ok es f4 n4 c mk msgs f5 :
  sorts sort_slice → New ok rootDir tok f0 = inl (s, f1) → ¬ in_string slash id → ValidString id = true →
  ValidString kind = true → time_ok now → String.length nonce = NonceSize →
  (Enqueue s w now (Some nonce) id kind env f2).1 = None →
  persistAndSend (Some s) w now (Some nonce) id kind env f2 n2 = (sent_ok, f3, n3) →
  Forall (spares s id) es → run_events s es (f3, n3) = Some (f4, n4) →
  stamps_ok c → read_ok c (pathForMessage s id) = true → Pending sort_slice s c f4 = Some (inl msgs, f5) →
  (∀ i, link (attempt n4 + i) = true) → Forall (λ m, is_Some (marshal_env (pm_Envelope m))) msgs →
  ∃ f6 n6, FlushPersistentMessages (Some s) c mk f4 n4 = Some (f6, n6)
  ∧ wire n6 = wire n4 ++ (pm_Envelope <$> msgs) ∧ norm env ∈ wire n6.
Proof.
  intros Hsort HN Hs Hv Hk Ht Hn HE HP Hes Hrun Hc Hr Hpend Hlink Hms.
  unfold persistAndSend in HP. destruct (Enqueue s w now (Some nonce) id kind env f2) as [err fe] eqn:He.
  cbn in HE. subst err. destruct (sendEnvelope env n2) as [b n2'] eqn:Hsend. simplify_eq.
  destruct (events_ops s id es _ _ _ _ Hes Hrun) as (os & Hos & Hl).
  destruct (spool_durable sort_slice ok rootDir tok f0 s f1 w now nonce id kind env f2 f3 os f4 c msgs f5) as [a Ha]; [done..|].
  cbn [FlushPersistentMessages]. rewrite Hpend. destruct (flush_loop s mk msgs f5 n4) as [f6 n6] eqn:Hf.
  exists f6, n6. split; [done|]. apply flush_prefix in Hf as (k & Hw & Hlen). rewrite (Hlen Hlink Hms) firstn_all in Hw.
  split; [done|]. rewrite Hw elem_of_app. right. apply list_elem_of_fmap. by eexists; split; [|exact Ha].
Qed.
End transport.

(** ** Intervals read from the environment *)
Definition heartbeatIntervalSecs (intervalStr : string) : Z :=
  (if decide (intervalStr = ""%string) then 30
  else match Atoi intervalStr with
  | None => 30
  | Some n => if decide (n ≤ 0) then 30 else n
  end)%Z.

Definition second : Z := 1000000000.

(** [time.Duration(val) * time.Second] wraps around. *)
Definition shutdownTimeout (envTimeout : string) : Z :=
  (if decide (envTimeout = ""%string) then 300 * second
  else match Atoi envTimeout with
  | Some val => if decide (0 < val) then wrap64 (val * second) else 300 * second
  | None => 300 * second
  end)%Z.

(** ** Shutting down

    The first loop of [drainAndFlush] waits for the running work, the second one for
    the acknowledgements; [now i] is the clock in the [i]th round, [busy i] whether work
    is left, [empty i] whether the outbox is.  [None] is running out of fuel. *)
Section drain.
Context (now : nat → Z) (busy empty : nat → bool) (deadline : Z).

Fixpoint drain_loop (fuel i : nat) : option nat :=
  match fuel with
  | 0 => None
  | S fuel =>
      if negb (busy i) then Some i
      else if decide (deadline < now i)%Z then Some i
      else drain_loop fuel (S i)
  end.

Fixpoint flush_rounds (fuel i : nat) : option nat :=
  match fuel with
  | 0 => None
  | S fuel =>
      if empty i then Some i
      else if decide (deadline < now i)%Z then Some i
      else flush_rounds fuel (S i)
  end.

Definition drainAndFlush (fuel : nat) : option nat :=
  match drain_loop fuel 0 with
  | None => None
  | Some i => flush_rounds fuel i
  end.

(** Half a second is slept after every round. *)
Hypothesis slept : ∀ i, (now i + 500000000 ≤ now (S i))%Z.

Lemma now_after i k : (now i + 500000000 * Z.of_nat k ≤ now (i + k))%Z.
Proof.
  induction k as [|k IH]; [rewrite Nat.add_0_r; lia|]. rewrite Nat.add_succ_r. specialize (slept (i + k)). lia.
Qed.

Lemma drain_loop_ends fuel i : (deadline < now i + 500000000 * (Z.of_nat fuel - 1))%Z → 0 < fuel →
  ∃ j, drain_loop fuel i = Some j ∧ i ≤ j < i + fuel.
Proof.
  revert i. induction fuel as [|fuel IH]; intros i Hd Hf; [lia|]. cbn [drain_loop].
  destruct (negb (busy i)); [exists i; split; [done|lia]|]. case_decide; [exists i; split; [done|lia]|].
  destruct fuel as [|fuel]; [lia|]. destruct (IH (S i)) as (j & Hj & ?); [specialize (slept i); lia|lia|].
  exists j. split; [done|lia].
Qed.

Lemma flush_rounds_ends fuel i : (deadline < now i + 500000000 * (Z.of_nat fuel - 1))%Z → 0 < fuel →
  ∃ j, flush_rounds fuel i = Some j ∧ i ≤ j < i + fuel.
Proof.
  revert i. induction fuel as [|fuel IH]; intros i Hd Hf; [lia|]. cbn [flush_rounds].
  destruct (empty i); [exists i; split; [done|lia]|]. case_decide; [exists i; split; [done|lia]|].
  destruct fuel as [|fuel]; [lia|]. destruct (IH (S i)) as (j & Hj & ?); [specialize (slept i); lia|lia|].
  exists j. split; [done|lia].
Qed.

(** C40: Shutting down always ends: whatever work keeps running and whatever the server
    fails to acknowledge, the two loops together make at most one round per half
    second of the configured timeout, and two more each. *)
Theorem drain_terminates (timeout : Z) : deadline = (now 0 + timeout)%Z → (0 ≤ timeout)%Z →
  let rounds := Z.to_nat (timeout / 500000000) + 2 in
  ∃ j, drainAndFlush rounds = Some j ∧ j < 2 * rounds.
Proof.
  intros Hd Ht rounds.
  assert (Z.of_nat rounds = timeout / 500000000 + 2)%Z as Hr
    by (unfold rounds; rewrite Nat2Z.inj_add Z2Nat.id; [lia|apply Z.div_pos; lia]).
  pose proof (Z.mul_succ_div_gt timeout 500000000 ltac:(lia)) as Hdiv.
  destruct (drain_loop_ends rounds 0) as (i & Hi & Hle); [lia|unfold rounds; lia|].
  unfold drainAndFlush. rewrite Hi.
  destruct (flush_rounds_ends rounds i) as (j & Hj & ?); [pose proof (now_after 0 i); rewrite Nat.add_0_l in H; lia|unfold rounds; lia|].
  exists j. split; [done|lia].
Qed.
End drain.

Lemma drain_terminates_witness :
  ∃ j, drainAndFlush (λ i, (500000000 * Z.of_nat i)%Z) (λ _, true) (λ _, false) 1000000000 4 = Some j ∧ j < 8.
Proof.
  apply (drain_terminates (λ i, (500000000 * Z.of_nat i)%Z) (λ _, true) (λ _, false) 1000000000
    ltac:(intros i; cbv beta; lia) 1000000000); [reflexivity|lia].
Defined.

(** The heartbeat interval is positive, and the shutdown timeout is whenever the
    configured number of seconds fits into a duration; beyond about 292 years it wraps
    around and may be negative, which ends the draining at once. *)
Theorem intervals_positive (interval timeout : string) :
  (0 < heartbeatIntervalSecs interval)%Z
  ∧ (∀ v, Atoi timeout = Some v → (v ≤ 9223372036)%Z → (0 < shutdownTimeout timeout)%Z)
  ∧ (Atoi timeout = None → shutdownTimeout timeout = (300 * second)%Z).
Proof.
  split_and!.
  - unfold heartbeatIntervalSecs. repeat (case_decide || case_match); lia.
  - intros v Hv Hle. unfold shutdownTimeout. case_decide; [unfold second; lia|]. rewrite Hv.
    case_decide; [|unfold second; lia]. unfold wrap64, second.
    rewrite Z.mod_small; lia.
  - intros Hv. unfold shutdownTimeout. rewrite Hv. by case_decide.
Qed.

Lemma shutdown_timeout_wraps : (shutdownTimeout "10000000000" < 0)%Z.
Proof. by vm_compute. Qed.

(** A report stored while the connection is down reaches the server after a reconnect. *)
#[local] Existing Instance toy_json.
#[local] Existing Instance toy_aead.

Definition link1 (i : nat) : bool := negb (i =? 0).
Definition no_net : net (Envelope := string) := {| wire := []; attempt := 0 |}.
Definition down_net : net (Envelope := string) := {| wire := []; attempt := 1 |}.
Definition plain_mark : string → mark_calls := λ _, {| mk_read := λ _, true; mk_write := no_faults |}.

Lemma outbox_at_least_once_witness :
  persistAndSend link1 (Some store1) no_faults 7 (Some "123456789012") "m1" "job_completed" "done" disk1 no_net
    = (false, disk2, down_net)
  ∧ ∃ f6 n6, FlushPersistentMessages toy_sort link1 (Some store1) all_ok plain_mark disk2 down_net = Some (f6, n6)
    ∧ "done" ∈ wire n6.
Proof.
  split; [vm_compute; reflexivity|].
  edestruct (outbox_at_least_once toy_sort link1 (λ _, true) "/data" "t" disk0 store1 disk1 no_faults 7 "123456789012" "m1"
    "job_completed" "done" disk1 no_net disk2 down_net false [EReconnect; EAck true "m3"] disk2 down_net
    all_ok plain_mark [message1 0] disk2 toy_sorts eq_refl m1_plain eq_refl eq_refl) as (f6 & n6 & H1 & _ & H2).
  - unfold time_ok. lia.
  - reflexivity.
  - vm_compute. reflexivity.
  - vm_compute. reflexivity.
  - repeat constructor. vm_compute. discriminate.
  - vm_compute. reflexivity.
  - apply stamps_all_ok.
  - reflexivity.
  - vm_compute. reflexivity.
  - intros i. reflexivity.
  - repeat constructor. eexists. reflexivity.
  - exists f6, n6. split; [exact H1|exact H2].
Defined.
