(* ===== verification/DurableCommands.v ===== *)
(** * worker/handlers: durable commands

    Deploy, redeploy and teardown commands may be delivered more than once.  The
    handlers of the copies run concurrently and share three concurrent maps: the
    running commands, the results of finished ones, and the claims.  Each access
    to a map is one atomic step; a run is an interleaving of the steps of the
    deliveries and of the clock. *)
From Stdlib Require Import ZArith.
From S2P Require Import Prelude GoStrings.

Record CommandResult := { CommandID : string; Output : string; Error : string }.

Record durableResultEntry := { e_result : CommandResult; e_at : Z }.

(** Thirty minutes, in nanoseconds. *)
Definition completedDurableRetention : Z := 30 * 60 * 1000000000.

Inductive sent_message := SentAck (messageID : string) | SentResult (r : CommandResult).

Record shared := {
  ActiveCommands : gset string;
  completedDurableCommands : gmap string durableResultEntry;
  claimedDurableCommands : gset string;
  sent : list sent_message;
  executions : list string;
  clock : Z }.

Definition set_active (a : gset string) (s : shared) : shared :=
  {| ActiveCommands := a; completedDurableCommands := completedDurableCommands s;
     claimedDurableCommands := claimedDurableCommands s; sent := sent s; executions := executions s; clock := clock s |}.
Definition set_cache (m : gmap string durableResultEntry) (s : shared) : shared :=
  {| ActiveCommands := ActiveCommands s; completedDurableCommands := m;
     claimedDurableCommands := claimedDurableCommands s; sent := sent s; executions := executions s; clock := clock s |}.
Definition set_claims (c : gset string) (s : shared) : shared :=
  {| ActiveCommands := ActiveCommands s; completedDurableCommands := completedDurableCommands s;
     claimedDurableCommands := c; sent := sent s; executions := executions s; clock := clock s |}.
Definition send (m : sent_message) (s : shared) : shared :=
  {| ActiveCommands := ActiveCommands s; completedDurableCommands := completedDurableCommands s;
     claimedDurableCommands := claimedDurableCommands s; sent := sent s ++ [m]; executions := executions s; clock := clock s |}.
Definition log_execution (id : string) (s : shared) : shared :=
  {| ActiveCommands := ActiveCommands s; completedDurableCommands := completedDurableCommands s;
     claimedDurableCommands := claimedDurableCommands s; sent := sent s; executions := executions s ++ [id]; clock := clock s |}.
Definition tick (d : Z) (s : shared) : shared :=
  {| ActiveCommands := ActiveCommands s; completedDurableCommands := completedDurableCommands s;
     claimedDurableCommands := claimedDurableCommands s; sent := sent s; executions := executions s; clock := clock s + d |}.

Definition ackDurableCommand (messageID : string) (s : shared) : shared :=
  if decide (messageID = "") then s else send (SentAck messageID) s.

Definition fresh (e : durableResultEntry) (s : shared) : bool :=
  bool_decide (clock s - e_at e ≤ completedDurableRetention)%Z.

(** [beginDurableCommand] without interruption. *)
Definition beginDurableCommand (commandID messageID : string) (s : shared) : bool * shared :=
  let s := ackDurableCommand messageID s in
  if decide (commandID ∈ ActiveCommands s) then (false, s)
  else
    let after_cache (s : shared) :=
      if decide (commandID ∈ claimedDurableCommands s) then (false, s)
      else (true, set_claims ({[commandID]} ∪ claimedDurableCommands s) s) in
    match completedDurableCommands s !! commandID with
    | Some entry =>
        if fresh entry s then (false, send (SentResult (e_result entry)) s)
        else after_cache (set_cache (delete commandID (completedDurableCommands s)) s)
    | None => after_cache s
    end.

(** A kept result is sent again and nothing is executed. *)
Lemma cached_is_replayed commandID messageID s e : commandID ∉ ActiveCommands s →
  completedDurableCommands s !! commandID = Some e → fresh e s = true →
  beginDurableCommand commandID messageID s = (false, send (SentResult (e_result e)) (ackDurableCommand messageID s)).
Proof.
  intros Ha Hc Hf. unfold beginDurableCommand. set (s1 := ackDurableCommand messageID s).
  assert (ActiveCommands s1 = ActiveCommands s ∧ completedDurableCommands s1 = completedDurableCommands s
    ∧ fresh e s1 = fresh e s) as (E1 & E2 & E3) by (unfold s1, ackDurableCommand; by case_decide).
  rewrite E1 decide_False; [|done]. by rewrite E2 Hc E3 Hf.
Qed.

(** Where the handler of one delivery is. *)
Inductive pc :=
| Received                         (** nothing done yet *)
| Acked                            (** the receipt is acknowledged *)
| NotActive                        (** the command is not among the running ones *)
| Expired                          (** an outdated result was found *)
| NotCached                        (** no result is known *)
| Claimed                          (** the claim is ours: [beginDurableCommand] returns true *)
| Running                          (** registered as running, the executor works *)
| Executed (r : CommandResult)     (** [finishDurableCommand] is called *)
| Cached (r : CommandResult)       (** the result is stored *)
| Unclaimed (r : CommandResult)    (** the claim is dropped *)
| Sweeping (r : CommandResult) (k : string)  (** an outdated result of [k] was found *)
| Answered                         (** the result is sent *)
| Finished.

Record delivery := { d_command : string; d_message : string; d_pc : pc }.

Definition at_pc (p : pc) (d : delivery) : delivery :=
  {| d_command := d_command d; d_message := d_message d; d_pc := p |}.

(** One step of [beginDurableCommand]. *)
Inductive begin_step (d : delivery) : pc → shared → shared → Prop :=
| b_ack s : d_pc d = Received → begin_step d Acked s (ackDurableCommand (d_message d) s)
| b_running s : d_pc d = Acked → d_command d ∈ ActiveCommands s → begin_step d Finished s s
| b_not_running s : d_pc d = Acked → d_command d ∉ ActiveCommands s → begin_step d NotActive s s
| b_replay s e : d_pc d = NotActive → completedDurableCommands s !! d_command d = Some e → fresh e s = true →
    begin_step d Finished s (send (SentResult (e_result e)) s)
| b_expired s e : d_pc d = NotActive → completedDurableCommands s !! d_command d = Some e → fresh e s = false →
    begin_step d Expired s s
| b_delete s : d_pc d = Expired →
    begin_step d NotCached s (set_cache (delete (d_command d) (completedDurableCommands s)) s)
| b_unknown s : d_pc d = NotActive → completedDurableCommands s !! d_command d = None → begin_step d NotCached s s
| b_claimed s : d_pc d = NotCached → d_command d ∈ claimedDurableCommands s → begin_step d Finished s s
| b_claim s : d_pc d = NotCached → d_command d ∉ claimedDurableCommands s →
    begin_step d Claimed s (set_claims ({[d_command d]} ∪ claimedDurableCommands s) s).

(** One step of the rest of the handler; the executor's result is anything. *)
Inductive handle_step (d : delivery) : pc → shared → shared → Prop :=
| h_run s : d_pc d = Claimed →
    handle_step d Running s (log_execution (d_command d) (set_active ({[d_command d]} ∪ ActiveCommands s) s))
| h_executed s r : d_pc d = Running → handle_step d (Executed r) s s
| h_store s r : d_pc d = Executed r →
    handle_step d (Cached r) s
      (set_cache (<[d_command d := {| e_result := r; e_at := clock s |}]> (completedDurableCommands s)) s)
| h_unclaim s r : d_pc d = Cached r →
    handle_step d (Unclaimed r) s (set_claims (claimedDurableCommands s ∖ {[d_command d]}) s)
| h_sweep s r k e : d_pc d = Unclaimed r → completedDurableCommands s !! k = Some e → fresh e s = false →
    handle_step d (Sweeping r k) s s
| h_sweep_delete s r k : d_pc d = Sweeping r k →
    handle_step d (Unclaimed r) s (set_cache (delete k (completedDurableCommands s)) s)
| h_answer s r : d_pc d = Unclaimed r → handle_step d Answered s (send (SentResult r) s)
| h_deregister s : d_pc d = Answered →
    handle_step d Finished s (set_active (ActiveCommands s ∖ {[d_command d]}) s).

(** A worker: the shared maps and the handlers of the deliveries so far. *)
Definition worker := (shared * list delivery)%type.

Inductive step (inner : delivery → pc → shared → shared → Prop) : worker → worker → Prop :=
| step_deliver s ds id mid :
    step inner (s, ds) (s, ds ++ [{| d_command := id; d_message := mid; d_pc := Received |}])
| step_move s ds i d p s' : ds !! i = Some d → inner d p s s' → step inner (s, ds) (s', <[i := at_pc p d]> ds)
| step_tick s ds t : (0 ≤ t)%Z → step inner (s, ds) (tick t s, ds).

(** Every atomic access interleaved, as the code runs. *)
Definition fine (d : delivery) (p : pc) (s s' : shared) : Prop := begin_step d p s s' ∨ handle_step d p s s'.

(** [beginDurableCommand] uninterrupted, the rest interleaved. *)
Inductive coarse (d : delivery) : pc → shared → shared → Prop :=
| c_begin s go s' : d_pc d = Received → beginDurableCommand (d_command d) (d_message d) s = (go, s') →
    coarse d (if go : bool then Claimed else Finished) s s'
| c_handle p s s' : handle_step d p s s' → coarse d p s s'.

Definition started : shared :=
  {| ActiveCommands := ∅; completedDurableCommands := ∅; claimedDurableCommands := ∅; sent := []; executions := []; clock := 0 |}.

Definition reachable (inner : delivery → pc → shared → shared → Prop) (w : worker) : Prop :=
  rtc (step inner) (started, []) w.

(** ** Mutual exclusion *)
Definition holds_claim (p : pc) : bool :=
  match p with Claimed | Running | Executed _ | Cached _ => true | _ => false end.

Record exclusive (w : worker) : Prop := {
  x_claimed : ∀ i d, w.2 !! i = Some d → holds_claim (d_pc d) = true → d_command d ∈ claimedDurableCommands w.1;
  x_unique : ∀ i j d d', w.2 !! i = Some d → w.2 !! j = Some d' → d_command d = d_command d' →
    holds_claim (d_pc d) = true → holds_claim (d_pc d') = true → i = j
}.

Lemma exclusive_move s ds i d p s' : exclusive (s, ds) → ds !! i = Some d →
  (∀ x, x ≠ d_command d → x ∈ claimedDurableCommands s → x ∈ claimedDurableCommands s') →
  (holds_claim p = true → d_command d ∈ claimedDurableCommands s' ∧
    (holds_claim (d_pc d) = true ∨ d_command d ∉ claimedDurableCommands s)) →
  (holds_claim p = false → d_command d ∈ claimedDurableCommands s →
    d_command d ∈ claimedDurableCommands s' ∨ holds_claim (d_pc d) = true) →
  exclusive (s', <[i := at_pc p d]> ds).
Proof.
  intros [Hc Hu] Hi Hother Hnew Hold. cbn [fst snd] in *.
  assert (∀ j d', j ≠ i → ds !! j = Some d' → holds_claim (d_pc d') = true → d_command d' = d_command d →
    holds_claim p = true → False) as Hclash.
  { intros j d' Hj Hd' Hh He Hp. destruct (Hnew Hp) as [_ [Hhd|Hn]].
    - apply Hj. by apply (Hu j i d' d).
    - apply Hn. rewrite -He. by eapply Hc. }
  split; cbn [fst snd].
  - intros j d' [(<- & <- & _)|(Hj & Hd')]%list_lookup_insert_Some Hh; [by apply Hnew|].
    destruct (decide (d_command d' = d_command d)) as [He|He]; [|by apply Hother, (Hc j)]. rewrite He.
    destruct (holds_claim p) eqn:Hp; [by apply Hnew|].
    destruct Hold as [?|Hhd]; [done| |done|]; [rewrite -He; by eapply Hc|].
    exfalso. apply Hj. symmetry. by apply (Hu j i d' d).
  - intros j k d1 d2 [(<- & <- & _)|(Hj & Hd1)]%list_lookup_insert_Some
      [(<- & <- & _)|(Hk & Hd2)]%list_lookup_insert_Some He H1 H2; cbn [at_pc d_command d_pc] in *.
    + done.
    + exfalso. by apply (Hclash k d2).
    + exfalso. by apply (Hclash j d1).
    + by apply (Hu j k d1 d2).
Qed.

Lemma ack_claims mid s : claimedDurableCommands (ackDurableCommand mid s) = claimedDurableCommands s.
Proof. unfold ackDurableCommand. by case_decide. Qed.

(** A step that neither takes nor drops a claim. *)
Lemma exclusive_keep s ds i d p s' : exclusive (s, ds) → ds !! i = Some d →
  claimedDurableCommands s' = claimedDurableCommands s →
  (holds_claim p = true → holds_claim (d_pc d) = true) → exclusive (s', <[i := at_pc p d]> ds).
Proof.
  intros Hx Hi He Hh. apply (exclusive_move s ds i d p s' Hx Hi); rewrite He; auto.
  intros Hp. split; [|auto]. apply (x_claimed _ Hx i); auto.
Qed.

Lemma handle_exclusive s ds i d p s' : exclusive (s, ds) → ds !! i = Some d → handle_step d p s s' →
  exclusive (s', <[i := at_pc p d]> ds).
Proof.
  intros Hx Hi Hs.
  inversion Hs as [? Hp|? ? Hp|? ? Hp|? r Hp|? ? ? ? Hp|? ? ? Hp|? ? Hp|? Hp]; subst;
    try (apply (exclusive_keep _ _ _ _ _ _ Hx Hi); [done|by rewrite Hp]).
  apply (exclusive_move _ _ _ _ _ _ Hx Hi); rewrite ?Hp; cbn; [set_solver|done|auto].
Qed.

Lemma fine_exclusive s ds i d p s' : exclusive (s, ds) → ds !! i = Some d → fine d p s s' →
  exclusive (s', <[i := at_pc p d]> ds).
Proof.
  intros Hx Hi [Hs|Hs]; [|by eapply handle_exclusive].
  inversion Hs as [? Hp|? Hp|? Hp|? ? Hp|? ? Hp|? Hp|? Hp|? Hp|? Hp]; subst;
    try (apply (exclusive_keep _ _ _ _ _ _ Hx Hi); [apply ack_claims|done]);
    try (apply (exclusive_keep _ _ _ _ _ _ Hx Hi); done).
  apply (exclusive_move _ _ _ _ _ _ Hx Hi); cbn; [set_solver| |done].
  intros _. split; [set_solver|by right].
Qed.

Lemma exclusive_deliver s ds id mid : exclusive (s, ds) →
  exclusive (s, ds ++ [{| d_command := id; d_message := mid; d_pc := Received |}]).
Proof.
  intros [Hc Hu]. split; cbn [fst snd] in *.
  - intros i d [Hd|[? Hd]]%lookup_app_Some Hh; [eauto|]. by apply list_lookup_singleton_Some in Hd as [_ <-].
  - intros i j d d' [Hd|[? Hd]]%lookup_app_Some [Hd'|[? Hd']]%lookup_app_Some He H1 H2;
      try (by apply list_lookup_singleton_Some in Hd as [_ <-]);
      try (by apply list_lookup_singleton_Some in Hd' as [_ <-]). eauto.
Qed.

Lemma reachable_exclusive w : reachable fine w → exclusive w.
Proof.
  unfold reachable. revert w. apply rtc_ind_r.
  - split; cbn; intros ? *; by rewrite lookup_nil.
  - intros w1 w2 _ Hs IH. inversion Hs; subst; [by apply exclusive_deliver|by eapply fine_exclusive|].
    destruct IH as [H1 H2]. by split.
Qed.

(** C28: Under every interleaving of the deliveries of a worker, no two of them are
    between taking the claim of one command and storing its result: two copies of
    a command are never executed at the same time. *)
Theorem durable_commands_exclusive (w : worker) (i j : nat) (d d' : delivery) :
  reachable fine w → w.2 !! i = Some d → w.2 !! j = Some d' → d_command d = d_command d' →
  holds_claim (d_pc d) = true → holds_claim (d_pc d') = true → i = j.
Proof. intros Hr. apply (x_unique _ (reachable_exclusive w Hr)). Qed.

(** ** At most once *)
Definition executing (p : pc) : bool := match p with Running | Executed _ => true | _ => false end.

(** What uninterrupted begins guarantee while no result is outdated. *)
Record once (w : worker) : Prop := {
  o_excl : exclusive w;
  o_fresh : ∀ k e, completedDurableCommands w.1 !! k = Some e → (0 ≤ e_at e)%Z;
  o_done : ∀ id, id ∈ executions w.1 → is_Some (completedDurableCommands w.1 !! id) ∨
    ∃ i d, w.2 !! i = Some d ∧ d_command d = id ∧ executing (d_pc d) = true;
  o_claim : ∀ i d, w.2 !! i = Some d → d_pc d = Claimed → d_command d ∉ executions w.1;
  o_sweep : ∀ i d r k, w.2 !! i = Some d → d_pc d ≠ Sweeping r k;
  o_nodup : NoDup (executions w.1);
  o_clock : (0 ≤ clock w.1)%Z
}.

Lemma executing_holds p : executing p = true → holds_claim p = true.
Proof. by destruct p. Qed.

Lemma fresh_now (e : durableResultEntry) (s : shared) : (0 ≤ e_at e)%Z → (clock s ≤ completedDurableRetention)%Z → fresh e s = true.
Proof. intros. unfold fresh. apply bool_decide_eq_true_2. lia. Qed.

(** A move that starts no execution and forgets none. *)
Lemma once_move s ds i d p s' : once (s, ds) → ds !! i = Some d → exclusive (s', <[i := at_pc p d]> ds) →
  executions s' = executions s → clock s' = clock s →
  (∀ k e, completedDurableCommands s' !! k = Some e → (0 ≤ e_at e)%Z) →
  (∀ k, is_Some (completedDurableCommands s !! k) → is_Some (completedDurableCommands s' !! k)) →
  (executing (d_pc d) = true → executing p = true ∨ is_Some (completedDurableCommands s' !! d_command d)) →
  (p = Claimed → d_command d ∉ executions s) → (∀ r k, p ≠ Sweeping r k) → once (s', <[i := at_pc p d]> ds).
Proof.
  intros [Hx Hf Hd Hc Hw Hn Ht] Hi Hx' He Hclk Hf' Hk Hex Hcl Hsw. cbn [fst snd] in *.
  split; cbn [fst snd]; rewrite ?He ?Hclk; [done|done| | | |done|done].
  - intros id Hin. destruct (Hd id Hin) as [Hs|(j & d' & Hj & <- & Hj')]; [left; auto|].
    destruct (decide (j = i)) as [->|Hne].
    + simplify_eq. destruct (Hex Hj') as [Hp|Hp]; [right|by left]. exists i, (at_pc p d).
      split; [|done]. apply list_lookup_insert_eq. by eapply lookup_lt_Some.
    + right. exists j, d'. by rewrite list_lookup_insert_ne.
  - intros j d' [(<- & <- & _)|(_ & Hj)]%list_lookup_insert_Some Hp; [by apply Hcl|eauto].
  - intros j d' r k [(<- & <- & _)|(_ & Hj)]%list_lookup_insert_Some; [apply Hsw|eauto].
Qed.

Lemma once_handle s ds i d p s' : (clock s ≤ completedDurableRetention)%Z → once (s, ds) → ds !! i = Some d →
  handle_step d p s s' → once (s', <[i := at_pc p d]> ds).
Proof.
  intros Hclk Ho Hi Hs. pose proof (handle_exclusive _ _ _ _ _ _ (o_excl _ Ho) Hi Hs) as Hx.
  pose proof (o_fresh _ Ho) as Hf. cbn [fst] in Hf.
  inversion Hs as [? Hp|? ? Hp|? r Hp|? r Hp|? ? ? ? Hp Hl Hn|? ? ? Hp|? ? Hp|? Hp]; subst.
  - destruct Ho as [_ _ Hd Hc Hw Hn Ht]. cbn [fst snd] in *. pose proof (Hc _ _ Hi Hp) as Hnew.
    split; cbn [fst snd log_execution set_active executions completedDurableCommands clock]; [done|done| | | | |done].
    + intros id. rewrite elem_of_app list_elem_of_singleton. intros [Hin| ->].
      * destruct (Hd id Hin) as [?|(j & d' & Hj & <- & He)]; [by left|right]. exists j, d'.
        rewrite list_lookup_insert_ne; [done|]. intros ->. simplify_eq. by rewrite Hp in He.
      * right. exists i, (at_pc Running d). split; [|done]. apply list_lookup_insert_eq. by eapply lookup_lt_Some.
    + intros j d' [(<- & <- & _)|(Hj & Hd')]%list_lookup_insert_Some Hp'; [done|].
      rewrite elem_of_app list_elem_of_singleton. intros [Hin|He]; [by eapply Hc|].
      apply Hj. symmetry. apply (x_unique _ Hx j i d' (at_pc Running d)); cbn [fst snd]; [|..];
        [by rewrite list_lookup_insert_ne| |done|by rewrite Hp'|done].
      apply list_lookup_insert_eq. by eapply lookup_lt_Some.
    + intros j d' r k [(<- & <- & _)|(_ & Hj)]%list_lookup_insert_Some; [done|eauto].
    + apply NoDup_app. split; [done|]. split; [|apply NoDup_singleton].
      intros x Hx' ->%list_elem_of_singleton. done.
  - apply (once_move _ _ _ _ _ _ Ho Hi Hx); try done. by left.
  - apply (once_move _ _ _ _ _ _ Ho Hi Hx); try done; cbn.
    + intros k e. rewrite lookup_insert_Some. intros [[_ <-]|[_ ?]]; [|eauto]. cbn. apply (o_clock _ Ho).
    + intros k Hk. destruct (decide (k = d_command d)) as [->|]; [rewrite lookup_insert_eq; eauto|by rewrite lookup_insert_ne].
    + intros _. right. rewrite lookup_insert_eq. eauto.
  - apply (once_move _ _ _ _ _ _ Ho Hi Hx); try done. by rewrite Hp.
  - exfalso. rewrite fresh_now in Hn; [done|eauto|done].
  - exfalso. by eapply (o_sweep _ Ho).
  - apply (once_move _ _ _ _ _ _ Ho Hi Hx); try done. by rewrite Hp.
  - apply (once_move _ _ _ _ _ _ Ho Hi Hx); try done. by rewrite Hp.
Qed.

Lemma ack_none s : ackDurableCommand "" s = s.
Proof. done. Qed.

Lemma begin_ack id mid s : beginDurableCommand id mid s =
  beginDurableCommand id "" (ackDurableCommand mid s).
Proof. done. Qed.

Lemma once_ack mid s ds : once (s, ds) → once (ackDurableCommand mid s, ds).
Proof.
  intros [[H1 H1'] H2 H3 H4 H5 H6 H7]. unfold ackDurableCommand. case_decide; by repeat split.
Qed.

Lemma once_begin s ds i d go s' : (clock s ≤ completedDurableRetention)%Z → once (s, ds) → ds !! i = Some d →
  d_pc d = Received → beginDurableCommand (d_command d) "" s = (go, s') →
  once (s', <[i := at_pc (if go then Claimed else Finished) d]> ds).
Proof.
  intros Hclk Ho Hi Hp. unfold beginDurableCommand. rewrite ack_none. cbv zeta.
  pose proof (o_excl _ Ho) as Hx. pose proof (o_fresh _ Ho) as Hf. cbn [fst] in Hf.
  assert (∀ s'', claimedDurableCommands s'' = claimedDurableCommands s → completedDurableCommands s'' = completedDurableCommands s →
    executions s'' = executions s → clock s'' = clock s → once (s'', <[i := at_pc Finished d]> ds)) as Hfin.
  { intros s'' H1 H2 H3 H4. apply (once_move _ _ _ _ _ _ Ho Hi); try done; rewrite ?H2; try done.
    - apply (exclusive_keep _ _ _ _ _ _ Hx Hi); done.
    - by rewrite Hp. }
  case_decide; [intros; simplify_eq; by apply Hfin|].
  destruct (completedDurableCommands s !! d_command d) as [e|] eqn:Hl.
  - rewrite fresh_now; [|eauto|done]. intros; simplify_eq. by apply Hfin.
  - case_decide as Hcl; [intros; simplify_eq; by apply Hfin|]. intros; simplify_eq.
    apply (once_move _ _ _ _ _ _ Ho Hi); try done.
    + apply (exclusive_move _ _ _ _ _ _ Hx Hi); cbn; [set_solver| |done]. intros _. split; [set_solver|by right].
    + by rewrite Hp.
    + intros _ Hin. destruct (o_done _ Ho _ Hin) as [[x Hs]|(j & d' & Hj & He & Hex)]; cbn [fst snd] in *; [congruence|].
      apply Hcl. rewrite -He. apply (x_claimed _ Hx j d'); [done|by apply executing_holds].
Qed.

Lemma step_clock inner s ds s' ds' : (∀ d p s s', inner d p s s' → clock s' = clock s) →
  step inner (s, ds) (s', ds') → (clock s ≤ clock s')%Z.
Proof. intros Hin Hs. inversion Hs as [|? ? ? ? ? ? _ Hi|]; subst; cbn; [lia|apply Hin in Hi; lia|lia]. Qed.

Lemma ack_clock mid s : clock (ackDurableCommand mid s) = clock s.
Proof. unfold ackDurableCommand. by case_decide. Qed.

Lemma coarse_clock d p s s' : coarse d p s s' → clock s' = clock s.
Proof.
  intros [s0 go s1 _ Hb|p' s0 s1 Hh].
  - rewrite -(ack_clock (d_message d) s0). revert Hb. unfold beginDurableCommand. cbv zeta.
    generalize (ackDurableCommand (d_message d) s0). intros s2 Hb. repeat (case_match; simplify_eq/=; try done).
  - by inversion Hh.
Qed.

Lemma reachable_once w : reachable coarse w → (clock w.1 ≤ completedDurableRetention)%Z → once w.
Proof.
  unfold reachable. revert w. apply (rtc_ind_r (λ w, (clock w.1 ≤ completedDurableRetention)%Z → once w)).
  - intros _. split; cbn [fst snd started executions completedDurableCommands clock].
    + split; intros ? *; by rewrite lookup_nil.
    + intros k e. by rewrite lookup_empty.
    + by intros id Hin%elem_of_nil.
    + intros i d. by rewrite lookup_nil.
    + intros i d r k. by rewrite lookup_nil.
    + apply NoDup_nil_2.
    + done.
  - intros [s ds] [s' ds'] _ Hs IH Hclk. cbn [fst] in *.
    pose proof (step_clock _ _ _ _ _ coarse_clock Hs) as Hmono. specialize (IH ltac:(lia)).
    inversion Hs as [? ? id mid|? ? i d p ? Hi Hc|? ? t Ht]; subst.
    + destruct IH as [H1 H2 H3 H4 H5 H6 H7]. cbn [fst snd] in *. split; cbn [fst snd]; try done.
      * by apply exclusive_deliver.
      * intros x Hx. destruct (H3 x Hx) as [?|(i & d & Hi & ?)]; [by left|right]. exists i, d.
        split; [by apply lookup_app_l_Some|done].
      * intros i d [Hd|[_ Hd]]%lookup_app_Some; [eauto|]. by apply list_lookup_singleton_Some in Hd as [_ <-].
      * intros i d r k [Hd|[_ Hd]]%lookup_app_Some; [eauto|]. by apply list_lookup_singleton_Some in Hd as [_ <-].
    + inversion Hc as [? go ? Hp Hb|? ? ? Hh]; subst.
      * rewrite begin_ack in Hb. apply (once_begin (ackDurableCommand (d_message d) s)); try done.
        -- rewrite ack_clock. lia.
        -- by apply once_ack.
      * apply (once_handle s); [lia|done..].
    + destruct IH as [[H1 H1'] H2 H3 H4 H5 H6 H7]. cbn [fst snd] in *. repeat split; cbn; try done. lia.
Qed.

(** With [beginDurableCommand] uninterrupted, a command is executed at most once
    during the time its result is kept, however often it is delivered and however
    the executions interleave. *)
Theorem durable_at_most_once (w : worker) :
  reachable coarse w → (clock w.1 ≤ completedDurableRetention)%Z → NoDup (executions w.1).
Proof. intros Hr Hc. apply (o_nodup _ (reachable_once w Hr Hc)). Qed.

(** One step of the [i]th delivery. *)
Ltac advance i := eapply rtc_l; [eapply (step_move fine _ _ i); [reflexivity|]|cbn [insert list_insert at_pc d_command d_message d_pc]].

Definition answer (out : string) : CommandResult := {| CommandID := "c"; Output := out; Error := "" |}.

(** As the code runs, the checks of [beginDurableCommand] are separate accesses: a
    copy of a command that has looked at the running commands and at the results
    before the first copy starts, and asks for the claim after the first copy has
    finished, executes the command a second time, without any time passing. *)
Theorem durable_double_execution :
  ∃ w, reachable fine w ∧ clock w.1 = 0%Z ∧ executions w.1 = ["c"; "c"].
Proof.
  eexists. unfold reachable, started. split.
  - eapply rtc_l; [apply (step_deliver fine _ _ "c" "m1")|]. eapply rtc_l; [apply (step_deliver fine _ _ "c" "m2")|].
    cbn [app].
    advance 1; [left; apply b_ack; reflexivity|]. advance 1; [left; apply b_not_running; [reflexivity|set_solver]|].
    advance 1; [left; apply b_unknown; reflexivity|].
    advance 0; [left; apply b_ack; reflexivity|]. advance 0; [left; apply b_not_running; [reflexivity|set_solver]|].
    advance 0; [left; apply b_unknown; reflexivity|]. advance 0; [left; apply b_claim; [reflexivity|set_solver]|].
    advance 0; [right; apply h_run; reflexivity|]. advance 0; [right; apply (h_executed _ _ (answer "deployed")); reflexivity|].
    advance 0; [right; eapply h_store; reflexivity|]. advance 0; [right; eapply h_unclaim; reflexivity|].
    advance 0; [right; eapply h_answer; reflexivity|]. advance 0; [right; eapply h_deregister; reflexivity|].
    advance 1; [left; apply b_claim; [reflexivity|vm_compute; set_solver]|]. advance 1; [right; apply h_run; reflexivity|].
    apply rtc_refl.
  - split; reflexivity.
Qed.

(** ** Witnesses *)
Definition one_delivery (p : pc) : list delivery := [{| d_command := "c"; d_message := "m1"; d_pc := p |}].

Lemma claimed_reachable : reachable fine
  (set_claims {["c"]} (send (SentAck "m1") started), one_delivery Claimed).
Proof.
  unfold reachable, started. eapply rtc_l; [apply (step_deliver fine _ _ "c" "m1")|]. cbn [app].
  advance 0; [left; apply b_ack; reflexivity|]. advance 0; [left; apply b_not_running; [reflexivity|set_solver]|].
  advance 0; [left; apply b_unknown; reflexivity|]. advance 0; [left; apply b_claim; [reflexivity|set_solver]|].
  apply rtc_refl.
Qed.

Lemma durable_commands_exclusive_witness : 0 = 0 ∧ "c" ∈ claimedDurableCommands (set_claims {["c"]} started).
Proof.
  split; [|set_solver].
  apply (durable_commands_exclusive _ 0 0 {| d_command := "c"; d_message := "m1"; d_pc := Claimed |}
    {| d_command := "c"; d_message := "m1"; d_pc := Claimed |} claimed_reachable); reflexivity.
Defined.

Lemma durable_at_most_once_witness : NoDup (executions (log_execution "c" (set_active {["c"]}
  (set_claims {["c"]} (send (SentAck "m1") started))))).
Proof.
  apply (durable_at_most_once (log_execution "c" (set_active {["c"]}
    (set_claims {["c"]} (send (SentAck "m1") started))), one_delivery Running)).
  - unfold reachable. eapply rtc_l; [apply (step_deliver coarse _ _ "c" "m1")|].
    eapply rtc_l; [eapply (step_move coarse _ _ 0); [reflexivity|]|].
    { apply (c_begin _ _ true); reflexivity. }
    eapply rtc_l; [eapply (step_move coarse _ _ 0); [reflexivity|apply c_handle, h_run; reflexivity]|].
    apply rtc_refl.
  - vm_compute. discriminate.
Defined.
