(* ===== verification/WorkerQueue.v ===== *)
(** * worker/handlers: admission of commands

    [TryScheduleThrottled] starts a command when its semaphore has a free slot,
    queues it when the queue is not full, and refuses it otherwise.  The
    semaphores are buffered channels, the counters are atomics: every access is
    one step, and a run interleaves the steps of the commands. *)
From Stdlib Require Import ZArith.
From S2P Require Import Prelude GoStrings DurableCommands.

Inductive semaphore := HeavySemaphore | LightSemaphore | InteractiveSemaphore.

#[global] Instance semaphore_eq_dec : EqDecision semaphore.
Proof. solve_decision. Defined.

(** Where a command is in [TryScheduleThrottled] and its goroutine. *)
Inductive tpc :=
| TNew            (** before the select *)
| TNoSlot         (** no slot was free *)
| TNotFull        (** [IsQueueFull] was false *)
| TCounted        (** [QueuedTasks] is incremented *)
| TOver           (** the counter is above the limit *)
| TAdmitted       (** accepted *)
| TQueued         (** [queuedHeavy] counts it if it is heavy; waits for a slot *)
| TSlot           (** it has a slot *)
| TUncounted      (** [QueuedTasks] is decremented *)
| TRunning        (** the handler runs *)
| TRejected
| TDone.

#[global] Instance tpc_eq_dec : EqDecision tpc.
Proof. solve_decision. Defined.

Record task := { t_sem : semaphore; t_pc : tpc }.

Record limits := { capacity : semaphore → Z; MaxQueueDepth : Z }.

(** [len] of the channels and the two counters. *)
Record counters := { busy : semaphore → Z; QueuedTasks : Z; queuedHeavy : Z }.

Definition InitSemaphores (heavy light interactive queueDepth : Z) : option limits :=
  if decide (heavy ≤ 0)%Z then None
  else if decide (light ≤ 0)%Z then None
  else if decide (interactive ≤ 0)%Z then None
  else Some {| capacity := λ k, match k with HeavySemaphore => heavy | LightSemaphore => light
                                | InteractiveSemaphore => interactive end;
               MaxQueueDepth := queueDepth |}.

Definition add_busy (k : semaphore) (d : Z) (c : counters) : counters :=
  {| busy := λ k', if decide (k' = k) then (busy c k' + d)%Z else busy c k';
     QueuedTasks := QueuedTasks c; queuedHeavy := queuedHeavy c |}.
Definition add_queued (d : Z) (c : counters) : counters :=
  {| busy := busy c; QueuedTasks := QueuedTasks c + d; queuedHeavy := queuedHeavy c |}.
Definition add_heavy (k : semaphore) (d : Z) (c : counters) : counters :=
  {| busy := busy c; QueuedTasks := QueuedTasks c;
     queuedHeavy := if decide (k = HeavySemaphore) then (queuedHeavy c + d)%Z else queuedHeavy c |}.

Definition IsQueueFull (l : limits) (c : counters) : bool := bool_decide (MaxQueueDepth l ≤ QueuedTasks c)%Z.

(** The next step of a command, when it can move. *)
Definition task_step (l : limits) (t : task) (c : counters) : option (tpc * counters) :=
  let k := t_sem t in
  match t_pc t with
  | TNew => if decide (busy c k < capacity l k)%Z then Some (TRunning, add_busy k 1 c) else Some (TNoSlot, c)
  | TNoSlot => if IsQueueFull l c then Some (TRejected, c) else Some (TNotFull, c)
  | TNotFull => Some (TCounted, add_queued 1 c)
  | TCounted => if decide (MaxQueueDepth l < QueuedTasks c)%Z then Some (TOver, c) else Some (TAdmitted, c)
  | TOver => Some (TRejected, add_queued (-1) c)
  | TAdmitted => Some (TQueued, add_heavy k 1 c)
  | TQueued => if decide (busy c k < capacity l k)%Z then Some (TSlot, add_busy k 1 c) else None
  | TSlot => Some (TUncounted, add_queued (-1) c)
  | TUncounted => Some (TRunning, add_heavy k (-1) c)
  | TRunning => Some (TDone, add_busy k (-1) c)
  | TRejected | TDone => None
  end.

Definition queue := (counters * list task)%type.

Inductive queue_step (l : limits) : queue → queue → Prop :=
| q_arrive c ts k : queue_step l (c, ts) (c, ts ++ [{| t_sem := k; t_pc := TNew |}])
| q_move c ts i t p c' : ts !! i = Some t → task_step l t c = Some (p, c') →
    queue_step l (c, ts) (c', <[i := {| t_sem := t_sem t; t_pc := p |}]> ts).

Definition idle : queue := ({| busy := λ _, 0%Z; QueuedTasks := 0; queuedHeavy := 0 |}, []).

Definition queue_reachable (l : limits) (q : queue) : Prop := rtc (queue_step l) idle q.

(** ** Counting *)
Definition count (P : task → bool) (ts : list task) : Z := Z.of_nat (length (filter (λ t, P t = true) ts)).

Lemma count_app P ts ts' : count P (ts ++ ts') = (count P ts + count P ts')%Z.
Proof. unfold count. rewrite filter_app length_app. lia. Qed.

Lemma count_cons P t ts : count P (t :: ts) = (Z.b2z (P t) + count P ts)%Z.
Proof. unfold count. rewrite filter_cons. destruct (P t); simpl; lia. Qed.

Lemma count_insert P ts i t t' : ts !! i = Some t →
  count P (<[i := t']> ts) = (count P ts - Z.b2z (P t) + Z.b2z (P t'))%Z.
Proof.
  revert i. induction ts as [|x ts IH]; intros [|i] Hi; simplify_eq/=; rewrite !count_cons; [lia|].
  rewrite (IH i Hi). lia.
Qed.

Lemma count_nonneg P ts : (0 ≤ count P ts)%Z.
Proof. unfold count. lia. Qed.

Lemma count_mono (P Q : task → bool) ts : (∀ t, P t = true → Q t = true) → (count P ts ≤ count Q ts)%Z.
Proof.
  intros HPQ. induction ts as [|t ts IH]; [done|]. rewrite !count_cons. specialize (HPQ t).
  destruct (P t); [rewrite HPQ //; simpl; lia|]. destruct (Q t); simpl; lia.
Qed.

Lemma count_strict (P Q : task → bool) ts i t : (∀ t, P t = true → Q t = true) → ts !! i = Some t →
  Q t = true → P t = false → (count P ts < count Q ts)%Z.
Proof.
  intros HPQ. revert i. induction ts as [|x ts IH]; intros [|i] Hi HQ HP; simplify_eq/=; rewrite !count_cons.
  - rewrite HQ HP. pose proof (count_mono P Q ts HPQ). simpl. lia.
  - specialize (IH i Hi HQ HP). specialize (HPQ x). destruct (P x); [rewrite HPQ //; lia|]. destruct (Q x); simpl; lia.
Qed.

Definition has_slot (k : semaphore) (t : task) : bool :=
  bool_decide (t_sem t = k) && match t_pc t with TSlot | TUncounted | TRunning => true | _ => false end.
Definition counted (t : task) : bool :=
  match t_pc t with TCounted | TOver | TAdmitted | TQueued | TSlot => true | _ => false end.
Definition waiting (t : task) : bool :=
  match t_pc t with TAdmitted | TQueued | TSlot => true | _ => false end.
Definition heavy_waiting (t : task) : bool :=
  bool_decide (t_sem t = HeavySemaphore) && match t_pc t with TQueued | TSlot | TUncounted => true | _ => false end.

Record queue_inv (l : limits) (q : queue) : Prop := {
  qi_busy : ∀ k, busy q.1 k = count (has_slot k) q.2;
  qi_cap : ∀ k, (busy q.1 k ≤ capacity l k)%Z;
  qi_queued : QueuedTasks q.1 = count counted q.2;
  qi_heavy : queuedHeavy q.1 = count heavy_waiting q.2;
  qi_waiting : (count waiting q.2 ≤ Z.max 0 (MaxQueueDepth l))%Z
}.

Lemma queue_move l c ts i t p c' : queue_inv l (c, ts) → ts !! i = Some t → task_step l t c = Some (p, c') →
  queue_inv l (c', <[i := {| t_sem := t_sem t; t_pc := p |}]> ts).
Proof.
  intros [Hb Hc Hq Hh Hw] Hi Hs. cbn [fst snd] in *.
  assert (∀ k, (busy c' k ≤ capacity l k)%Z) as Hcap.
  { intros k. specialize (Hc k). unfold task_step in Hs. destruct (t_pc t); repeat case_decide;
      repeat (case_match; try done); simplify_eq; cbn; try done; case_decide; subst; lia. }
  assert (t_pc t = TCounted → p = TAdmitted → (count waiting ts + 1 ≤ MaxQueueDepth l)%Z) as Hadm.
  { intros Ht ->. unfold task_step in Hs. rewrite Ht in Hs. case_decide as Hd; simplify_eq.
    assert (count waiting ts < count counted ts)%Z; [|lia].
    apply (count_strict waiting counted ts i t); [|done|unfold counted; by rewrite Ht|unfold waiting; by rewrite Ht].
    intros x. unfold waiting, counted. by destruct (t_pc x). }
  split; cbn [fst snd]; [intros k|done|..]; rewrite (count_insert _ _ _ _ _ Hi).
  - specialize (Hb k). rewrite -Hb. unfold has_slot. cbn [t_sem t_pc]. unfold task_step in Hs.
    destruct (t_pc t); repeat case_decide; repeat (case_match; try done); simplify_eq; cbn;
      repeat case_decide; repeat case_bool_decide; subst; cbn; try done; lia.
  - rewrite -Hq. unfold counted. cbn [t_pc]. unfold task_step in Hs.
    destruct (t_pc t); repeat case_decide; repeat (case_match; try done); simplify_eq; cbn; lia.
  - rewrite -Hh. unfold heavy_waiting. cbn [t_sem t_pc]. unfold task_step in Hs.
    destruct (t_pc t); repeat case_decide; repeat (case_match; try done); simplify_eq; cbn;
      repeat case_decide; repeat case_bool_decide; subst; cbn; try done; lia.
  - unfold waiting in *. cbn [t_pc]. unfold task_step in Hs.
    destruct (t_pc t); repeat case_decide; repeat (case_match; try done); simplify_eq; cbn; try lia.
    specialize (Hadm eq_refl eq_refl). lia.
Qed.

Lemma reachable_queue_inv l q : (∀ k, 0 ≤ capacity l k)%Z → queue_reachable l q → queue_inv l q.
Proof.
  intros Hcap. unfold queue_reachable. revert q. apply rtc_ind_r.
  - split; cbn [idle fst snd busy QueuedTasks queuedHeavy]; [done|done|done|done|unfold count; cbn; lia].
  - intros q1 q2 _ Hs IH. inversion Hs as [c ts k|c ts i t p c' Hi Ht]; subst; [|by eapply queue_move].
    destruct IH as [Hb Hc Hq Hh Hw]. cbn [fst snd] in *.
    assert (∀ P, P {| t_sem := k; t_pc := TNew |} = false →
      count P (ts ++ [{| t_sem := k; t_pc := TNew |}]) = count P ts) as Hn.
    { intros P HP. rewrite count_app count_cons HP. unfold count at 2. cbn. lia. }
    split; cbn [fst snd]; [intros k'|done|..]; rewrite Hn; try done.
    all: unfold has_slot, heavy_waiting; cbn; by rewrite andb_false_r.
Qed.

(** C32: Whatever the interleaving of arriving, queued and finishing commands, no
    semaphore class runs more commands than its configured concurrency and no more
    than the configured queue depth were accepted and are still waiting, although
    the check of the depth and its counter are separate steps; the two counters the
    server is shown are the numbers of commands they count. *)
Theorem worker_queue_bounds (heavy light interactive depth : Z) (l : limits) (q : queue) :
  InitSemaphores heavy light interactive depth = Some l → queue_reachable l q →
  (∀ k, count (has_slot k) q.2 ≤ capacity l k)%Z
  ∧ (∀ k, busy q.1 k = count (has_slot k) q.2)
  ∧ (count waiting q.2 ≤ Z.max 0 depth)%Z
  ∧ QueuedTasks q.1 = count counted q.2 ∧ queuedHeavy q.1 = count heavy_waiting q.2.
Proof.
  unfold InitSemaphores. repeat case_decide; intros Hl Hr; simplify_eq.
  match type of Hr with queue_reachable ?l _ => destruct (reachable_queue_inv l q) as [Hb Hc Hq Hh Hw] end;
    [by intros []; cbn; lia|done|].
  split_and!; try done. intros k. rewrite -Hb. apply Hc.
Qed.

Lemma worker_queue_bounds_witness : (count waiting [{| t_sem := HeavySemaphore; t_pc := TRunning |};
  {| t_sem := HeavySemaphore; t_pc := TNoSlot |}] ≤ Z.max 0 4)%Z.
Proof.
  destruct (worker_queue_bounds 1 2 3 4 _ (add_busy HeavySemaphore 1 idle.1,
    [{| t_sem := HeavySemaphore; t_pc := TRunning |}; {| t_sem := HeavySemaphore; t_pc := TNoSlot |}]) eq_refl)
    as (_ & _ & Hw & _); [|exact Hw].
  unfold queue_reachable. eapply rtc_l; [apply (q_arrive _ _ _ HeavySemaphore)|].
  eapply rtc_l; [apply (q_move _ _ _ 0); reflexivity|].
  eapply rtc_l; [apply (q_arrive _ _ _ HeavySemaphore)|].
  eapply rtc_l; [apply (q_move _ _ _ 1); reflexivity|]. apply rtc_refl.
Defined.

(** A queued command is never stuck: when its class has a free slot it moves, and
    when it has none, some command of its class holds a slot and can go on. *)
Lemma queued_command_progress l q i t : (∀ k, 0 < capacity l k)%Z → queue_reachable l q → q.2 !! i = Some t →
  t_pc t = TQueued → ∃ j t', q.2 !! j = Some t' ∧ t_sem t' = t_sem t ∧ is_Some (task_step l t' q.1).
Proof.
  intros Hcap Hr Hi Ht. destruct (reachable_queue_inv l q) as [Hb Hc _ _ _]; [intros k; specialize (Hcap k); lia|done|].
  destruct (decide (busy q.1 (t_sem t) < capacity l (t_sem t))%Z) as [Hlt|Hge].
  - exists i, t. split_and!; [done|done|]. unfold task_step. rewrite Ht decide_True //.
  - assert (0 < count (has_slot (t_sem t)) q.2)%Z as Hpos by (rewrite -Hb; specialize (Hcap (t_sem t)); lia).
    assert (∃ t', t' ∈ q.2 ∧ has_slot (t_sem t) t' = true) as (t' & Hin & Hs).
    { unfold count in Hpos. destruct (filter _ q.2) as [|t' ts] eqn:Hf; [simpl in Hpos; lia|].
      assert (t' ∈ filter (λ x, has_slot (t_sem t) x = true) q.2) as [? ?]%list_elem_of_filter
        by (rewrite Hf; by left). eauto. }
    apply list_elem_of_lookup in Hin as [j Hj]. exists j, t'. unfold has_slot in Hs.
    apply andb_true_iff in Hs as [Hk%bool_decide_eq_true Hp]. split_and!; [done|done|].
    unfold task_step. by destruct (t_pc t').
Qed.

(** ** Dispatching one message *)
Inductive dispatch_outcome := Scheduled | Replied (r : CommandResult) | Dropped.

Definition rejection (cmdID reason : string) : CommandResult :=
  {| CommandID := cmdID; Output := ""; Error := reason |}.

(** [cmdID] is the payload's [command_id], if it is a string; [admitted] is the
    result of [TryScheduleThrottled]. *)
Definition DispatchThrottled (accepting : bool) (cmdID : string) (admitted : bool) : dispatch_outcome :=
  if negb accepting then
    (if decide (cmdID = "") then Dropped else Replied (rejection cmdID "rejected: worker draining"))
  else if admitted then Scheduled
  else if decide (cmdID = "") then Dropped else Replied (rejection cmdID "rejected: worker overloaded").

(** ** [HandleRunJob]: called inline by the read loop, one message after the other *)
Record job_delivery := { j_command : string; j_run : string; j_message : string; j_admitted : bool }.

Record job_state := {
  js_shared : shared;
  js_active : gset string;     (** [ActiveJobs] *)
  js_scheduled : list string   (** the commands whose container was scheduled *) }.

Definition set_shared (s : shared) (j : job_state) : job_state :=
  {| js_shared := s; js_active := js_active j; js_scheduled := js_scheduled j |}.

(** [finishDurableCommand] without interruption. *)
Definition finishDurableCommand (commandID : string) (r : CommandResult) (s : shared) : shared :=
  let s := set_cache (<[commandID := {| e_result := r; e_at := clock s |}]> (completedDurableCommands s)) s in
  let s := set_claims (claimedDurableCommands s ∖ {[commandID]}) s in
  set_cache (filter (λ kv, fresh kv.2 s = true) (completedDurableCommands s)) s.

Definition queued_result (cmdID : string) : CommandResult := {| CommandID := cmdID; Output := "queued"; Error := "" |}.

Definition HandleRunJob (accepting : bool) (d : job_delivery) (j : job_state) : job_state :=
  if negb accepting then
    (if decide (j_command d = "") then j
     else set_shared (send (SentResult (rejection (j_command d) "rejected: worker draining")) (js_shared j)) j)
  else
    let s := ackDurableCommand (j_message d) (js_shared j) in
    let rest (s : shared) :=
      if decide (j_run d ∈ js_active j) then set_shared (send (SentResult (queued_result (j_command d))) s) j
      else if negb (j_admitted d) then
        set_shared (send (SentResult (rejection (j_command d) "rejected: worker overloaded")) s) j
      else
        {| js_shared := send (SentResult (queued_result (j_command d)))
                          (finishDurableCommand (j_command d) (queued_result (j_command d)) s);
           js_active := js_active j; js_scheduled := js_scheduled j ++ [j_command d] |} in
    match completedDurableCommands s !! j_command d with
    | Some entry =>
        if fresh entry s then set_shared (send (SentResult (e_result entry)) s) j
        else rest (set_cache (delete (j_command d) (completedDurableCommands s)) s)
    | None => rest s
    end.

(** Between two messages time passes and jobs start and end. *)
Definition job_event := (Z * gset string * bool * job_delivery)%type.

Definition job_step (j : job_state) (e : job_event) : job_state :=
  let '(dt, active, accepting, d) := e in
  HandleRunJob accepting d {| js_shared := tick dt (js_shared j); js_active := active; js_scheduled := js_scheduled j |}.

Definition job_run (es : list job_event) : job_state :=
  foldl job_step {| js_shared := started; js_active := ∅; js_scheduled := [] |} es.

Record job_inv (j : job_state) : Prop := {
  ji_fresh : ∀ k e, completedDurableCommands (js_shared j) !! k = Some e → (0 ≤ e_at e ≤ clock (js_shared j))%Z;
  ji_done : ∀ c, c ∈ js_scheduled j → is_Some (completedDurableCommands (js_shared j) !! c);
  ji_nodup : NoDup (js_scheduled j);
  ji_clock : (0 ≤ clock (js_shared j))%Z
}.

Lemma ack_fields mid s : completedDurableCommands (ackDurableCommand mid s) = completedDurableCommands s
  ∧ clock (ackDurableCommand mid s) = clock s.
Proof. unfold ackDurableCommand. by case_decide. Qed.

Lemma finish_keeps id r s k : (clock s ≤ completedDurableRetention)%Z →
  (∀ k e, completedDurableCommands s !! k = Some e → (0 ≤ e_at e ≤ clock s)%Z) → (0 ≤ clock s)%Z →
  completedDurableCommands (finishDurableCommand id r s) !! k =
  (<[id := {| e_result := r; e_at := clock s |}]> (completedDurableCommands s)) !! k.
Proof.
  intros Hret Hs H0. unfold finishDurableCommand. cbn [completedDurableCommands set_cache set_claims].
  rewrite map_lookup_filter. destruct (<[id := _]> _ !! k) as [e|] eqn:He; [|done]. cbn.
  rewrite option_guard_True; [done|]. unfold fresh. cbn [clock set_claims set_cache]. apply bool_decide_eq_true_2.
  apply lookup_insert_Some in He as [[_ <-]|[_ He%Hs]]; cbn; lia.
Qed.

Lemma run_job_inv j accepting d : job_inv j → (clock (js_shared j) ≤ completedDurableRetention)%Z →
  job_inv (HandleRunJob accepting d j) ∧ clock (js_shared (HandleRunJob accepting d j)) = clock (js_shared j).
Proof.
  intros [Hf Hd Hn H0] Hc. unfold HandleRunJob. destruct accepting; cbn [negb].
  2: { case_decide; split; done. }
  cbv zeta. destruct (ack_fields (j_message d) (js_shared j)) as [Hm Hk].
  set (s := ackDurableCommand (j_message d) (js_shared j)) in *.
  destruct (completedDurableCommands s !! j_command d) as [e|] eqn:He.
  - assert (fresh e s = true) as ->.
    { unfold fresh. apply bool_decide_eq_true_2. rewrite Hm in He. specialize (Hf _ _ He). rewrite Hk. lia. }
    split; [|done]. split; cbn; rewrite ?Hm ?Hk; done.
  - case_decide; [split; [|done]; split; cbn; rewrite ?Hm ?Hk; done|].
    destruct (j_admitted d); cbn [negb]; [|split; [|done]; split; cbn; rewrite ?Hm ?Hk; done].
    assert (∀ k, completedDurableCommands (finishDurableCommand (j_command d) (queued_result (j_command d)) s) !! k =
      (<[j_command d := {| e_result := queued_result (j_command d); e_at := clock s |}]> (completedDurableCommands s)) !! k) as Hfin.
    { intros k. apply finish_keeps; rewrite ?Hm ?Hk; done. }
    split; [|done]. split; cbn [js_shared js_scheduled send completedDurableCommands clock].
    + intros k e'. rewrite Hfin lookup_insert_Some. intros [[_ <-]|[_ He']]; cbn; rewrite ?Hk; [lia|].
      rewrite Hm in He'. eauto.
    + intros c. rewrite Hfin elem_of_app list_elem_of_singleton.
      destruct (decide (c = j_command d)) as [->|Hne]; [rewrite lookup_insert_eq; eauto|].
      rewrite lookup_insert_ne // Hm. intros [?|?]; [auto|done].
    + apply NoDup_app. split; [done|]. split; [|apply NoDup_singleton]. intros c Hc' ->%list_elem_of_singleton.
      apply Hd in Hc' as [x Hx]. rewrite Hm in He. congruence.
    + cbn. by rewrite Hk.
Qed.

(** A one-shot job command is scheduled at most once within the time its
    acceptance is remembered, however often it is redelivered, whatever jobs run and
    end in between and whether the worker was overloaded or draining at times. *)
Theorem run_job_at_most_once (es : list job_event) :
  Forall (λ e : job_event, (0 ≤ e.1.1.1)%Z) es → (clock (js_shared (job_run es)) ≤ completedDurableRetention)%Z →
  NoDup (js_scheduled (job_run es)).
Proof.
  intros Hes Hc. apply ji_nodup. revert Hes Hc. unfold job_run. induction es as [|e es IH] using rev_ind; intros Hes Hc.
  { split; cbn [foldl js_shared js_scheduled started completedDurableCommands clock];
      [intros k e; by rewrite lookup_empty|by intros c Hx%elem_of_nil|apply NoDup_nil_2|done]. }
  apply Forall_app in Hes as [Hes He]. rewrite Forall_singleton in He. destruct e as [[[dt active] accepting] d].
  rewrite foldl_app in Hc |- *. cbn [foldl job_step fst] in *.
  set (j := foldl job_step _ es) in *.
  set (j' := {| js_shared := tick dt (js_shared j); js_active := active; js_scheduled := js_scheduled j |}) in *.
  assert (clock (js_shared (HandleRunJob accepting d j')) = clock (js_shared j')) as Hclk.
  { unfold HandleRunJob. destruct accepting; cbn [negb]; [|by case_decide]. cbv zeta.
    destruct (ack_fields (j_message d) (js_shared j')) as [_ <-].
    repeat (case_match; try case_decide; try done). }
  rewrite Hclk in Hc. cbn in Hc, He. destruct (IH Hes ltac:(lia)) as [Hf Hd Hn H0].
  apply run_job_inv; [|done]. split; cbn; try done; [|lia]. intros k x Hx. specialize (Hf k x Hx). lia.
Qed.

Definition deliver_twice : list job_event :=
  [ (0%Z, ∅, true, {| j_command := "c1"; j_run := "r1"; j_message := "m1"; j_admitted := true |});
    (5%Z, {["r1"]}, true, {| j_command := "c1"; j_run := "r1"; j_message := "m2"; j_admitted := true |}) ].

Lemma run_job_at_most_once_witness : NoDup (js_scheduled (job_run deliver_twice)) ∧ js_scheduled (job_run deliver_twice) = ["c1"].
Proof.
  split; [|vm_compute; reflexivity]. apply (run_job_at_most_once deliver_twice).
  - repeat constructor; vm_compute; discriminate.
  - vm_compute. discriminate.
Defined.
