(* ===== verification/WorkerTokens.v ===== *)
(** * internal/worker/service.go: worker tokens

    A worker presents a token; its hash selects a row of worker_tokens, which leads
    to a row of workers.  [IssueToken], [ActivateToken] and the revocations hold the
    mutex of the service, so each is one step.  [ExpireStagingTokens] holds no lock:
    it reads the staging rows in one step and saves them one by one in later ones, so
    what it saves may be stale; a save writes the whole record.  Times are
    nanoseconds. *)
From Stdlib Require Import ZArith.
From S2P Require Import Prelude GoStrings GoValue ComposeDoc PbRecord PbTable.

Definition TokenStatusStaging := "STAGING".
Definition TokenStatusActive := "ACTIVE".
Definition TokenStatusRevoked := "REVOKED".
Definition TokenStatusExpired := "EXPIRED".

Inductive token_error := ErrTokenMissing | ErrTokenInvalid | ErrTokenExpired | ErrTokenRevoked | DatabaseError.

#[global] Instance token_error_eq_dec : EqDecision token_error.
Proof. solve_decision. Defined.

(** The two tables, and the rows a running [ExpireStagingTokens] has read and not
    saved yet. *)
Record store := { tokens : rows; workers : rows; expiring : rows }.

Definition set_tokens (t : rows) (s : store) : store :=
  {| tokens := t; workers := workers s; expiring := expiring s |}.
Definition set_workers (t : rows) (s : store) : store :=
  {| tokens := tokens s; workers := t; expiring := expiring s |}.

(** What happens outside the service during one operation: the clock, which calls
    of the database succeed (the save of a token by its id), the random bytes in
    hexadecimal, and the ids the database gives to new rows. *)
Record calls := {
  now : Z; find_collection : bool; find_tokens : bool; find_worker : bool; save_token : string → bool;
  save_worker : bool; random : option string; new_token_id : string; new_worker_id : string }.

Definition hour : Z := 3600000000000.

(** [now.After(rec.GetDateTime(...))]; the time of a field that is not set is the
    zero time, before every other. *)
Definition past (now : Z) (k : string) (r : record) : bool :=
  match fields r !! k with Some (VNum t) => bool_decide (default 0 (num_int t) < now)%Z | _ => true end.

Definition hostnameOrUnknown (hostname : string) : string :=
  if decide (hostname = "") then "unknown-worker" else hostname.

Section tokens.
Context (HashToken : string → string).

Definition IssueToken (c : calls) (createdBy : string) (s : store) : option string * store :=
  if negb (find_collection c) then (None, s)
  else match random c with
  | None => (None, s)
  | Some token =>
      let record := SetStr "created_by" createdBy (SetInt "expires_at" (now c + hour)
        (SetStr "status" TokenStatusStaging (SetStr "token_hash" (HashToken token)
          {| Id := new_token_id c; fields := ∅ |}))) in
      if save_token c (new_token_id c) then (Some token, set_tokens (upsert record (tokens s)) s) else (None, s)
  end.

Definition registerRemoteWorker (c : calls) (hostname tokenID : string) (s : store) : option record * store :=
  if negb (find_collection c) then (None, s)
  else
    let record := SetStr "status" "ACTIVE" (SetStr "fingerprint" ("remote:" +:+ tokenID)
      (SetStr "hostname" (hostnameOrUnknown hostname) {| Id := new_worker_id c; fields := ∅ |})) in
    if save_worker c then (Some record, set_workers (upsert record (workers s)) s) else (None, s).

Definition findTokenRecordByHash (c : calls) (tokenHash : string) (s : store) : record + token_error :=
  if negb (find_tokens c) then inr DatabaseError
  else match FindAll "token_hash" tokenHash (tokens s) with [] => inr ErrTokenInvalid | r :: _ => inl r end.

(** The verdict on the status of a token and, for a staging token past its time,
    the row that is saved. *)
Definition token_verdict (c : calls) (r : record) : option (token_error * option record) :=
  let status := GetString "status" r in
  if decide (status = TokenStatusRevoked) then Some (ErrTokenRevoked, None)
  else if decide (status = TokenStatusExpired) then Some (ErrTokenExpired, None)
  else if decide (status = TokenStatusStaging) then
    if past (now c) "expires_at" r then
      Some (ErrTokenExpired, Some (SetInt "last_used_at" (now c) (SetStr "status" TokenStatusExpired r)))
    else None
  else if decide (status = TokenStatusActive) then None
  else Some (ErrTokenInvalid, None).

Definition try_save (c : calls) (r : record) (s : store) : bool * store :=
  if save_token c (Id r) then (true, set_tokens (upsert r (tokens s)) s) else (false, s).

(** The first use of a token registers its worker. *)
Definition bind_worker (c : calls) (r : record) (hostname : string) (s : store)
  : (record * record + token_error) * store :=
  match registerRemoteWorker c hostname (Id r) s with
  | (None, s) => (inr DatabaseError, s)
  | (Some workerRecord, s) =>
      let r := SetField "expires_at" VNull (SetInt "last_used_at" (now c)
        (SetStr "status" TokenStatusActive (SetStr "worker" (Id workerRecord) r))) in
      let (ok, s) := try_save c r s in
      (if ok then inl (workerRecord, r) else inr DatabaseError, s)
  end.

(** Every later use finds it. *)
Definition reuse_worker (c : calls) (r : record) (workerID : string) (s : store)
  : (record * record + token_error) * store :=
  match (if find_worker c then FindById workerID (workers s) else None) with
  | None => (inr DatabaseError, s)
  | Some workerRecord =>
      let r := if decide (GetString "status" r = TokenStatusStaging) then
                 SetField "expires_at" VNull (SetStr "status" TokenStatusActive r) else r in
      let r := SetInt "last_used_at" (now c) r in
      let (ok, s) := try_save c r s in
      (if ok then inl (workerRecord, r) else inr DatabaseError, s)
  end.

Definition ActivateToken (c : calls) (token hostname : string) (s : store)
  : (record * record + token_error) * store :=
  if decide (token = "") then (inr ErrTokenMissing, s)
  else match findTokenRecordByHash c (HashToken token) s with
  | inr err => (inr err, s)
  | inl r =>
      match token_verdict c r with
      | Some (err, None) => (inr err, s)
      | Some (err, Some r') => (inr err, (try_save c r' s).2)
      | None =>
          let workerID := GetString "worker" r in
          if decide (workerID = "") then bind_worker c r hostname s else reuse_worker c r workerID s
      end
  end.

Definition revoked (c : calls) (r : record) : record :=
  SetInt "last_used_at" (now c) (SetStr "status" TokenStatusRevoked r).

Definition RevokeToken (c : calls) (recordID : string) (s : store) : bool * store :=
  match (if find_tokens c then FindById recordID (tokens s) else None) with
  | None => (false, s)
  | Some r => try_save c (revoked c r) s
  end.

Fixpoint revoke_loop (c : calls) (rs : rows) (s : store) : bool * store :=
  match rs with
  | [] => (true, s)
  | r :: rs => let (ok, s) := try_save c (revoked c r) s in if ok then revoke_loop c rs s else (false, s)
  end.

Definition RevokeTokensForWorker (c : calls) (workerID : string) (s : store) : bool * store :=
  if negb (find_tokens c) then (false, s) else revoke_loop c (FindAll "worker" workerID (tokens s)) s.

(** The save of the worker row and the revocation of its tokens. *)
Definition RevokeWorker (c : calls) (workerID : string) (s : store) : bool * store :=
  match (if find_worker c then FindById workerID (workers s) else None) with
  | None => (false, s)
  | Some r =>
      if save_worker c then
        RevokeTokensForWorker c workerID (set_workers (upsert (SetStr "status" "REVOKED" r) (workers s)) s)
      else (false, s)
  end.

Definition UpdateLastSeen (c : calls) (workerID : string) (s : store) : bool * store :=
  match (if find_worker c then FindById workerID (workers s) else None) with
  | None => (false, s)
  | Some r =>
      let r := SetInt "last_seen" (now c) r in
      let r := if decide (GetString "status" r = "REVOKED") then r else SetStr "status" "ACTIVE" r in
      if save_worker c then (true, set_workers (upsert r (workers s)) s) else (false, s)
  end.

(** One more entry of the health history of a worker, of which the last ten stay. *)
Definition push_health (status : string) (at_ : Z) (history : list value) : list value :=
  let history := history ++ [VMap (<["status" := VStr status]> {["timestamp" := VNum (Itoa at_)]})] in
  if decide (10 < length history) then drop (length history - 10) history else history.

Definition RecordHealthEvent (c : calls) (workerID status : string) (s : store) : bool * store :=
  match (if find_worker c then FindById workerID (workers s) else None) with
  | None => (false, s)
  | Some r =>
      let history := match fields r !! "health_history" with Some (VList l) => l | _ => [] end in
      let r := SetField "health_history" (VList (push_health status (now c) history)) r in
      if save_worker c then (true, set_workers (upsert r (workers s)) s) else (false, s)
  end.

(** [ExpireStagingTokens]: the query, and the treatment of one row.  The code reads the
    clock once for all rows, here each row may see a later time. *)
Definition expire_find (c : calls) (s : store) : store :=
  {| tokens := tokens s; workers := workers s;
     expiring := if find_tokens c then FindAll "status" TokenStatusStaging (tokens s) else [] |}.

Definition expire_next (c : calls) (s : store) : store :=
  match expiring s with
  | [] => s
  | r :: rs =>
      let s' := {| tokens := tokens s; workers := workers s; expiring := rs |} in
      if past (now c) "expires_at" r then
        let (ok, s'') := try_save c (SetInt "last_used_at" (now c) (SetStr "status" TokenStatusExpired r)) s' in
        if ok then s'' else {| tokens := tokens s; workers := workers s; expiring := [] |}
      else s'
  end.

(** ** The operations as steps *)
Inductive token_op :=
| OpIssue (createdBy : string)
| OpActivate (token hostname : string)
| OpRevokeToken (recordID : string)
| OpRevokeTokens (workerID : string)
| OpRevokeWorker (workerID : string)
| OpLastSeen (workerID : string)
| OpHealth (workerID status : string)
| OpExpireFind
| OpExpireNext.

Definition run_op (c : calls) (o : token_op) (s : store) : store :=
  match o with
  | OpIssue by_ => (IssueToken c by_ s).2
  | OpActivate token hostname => (ActivateToken c token hostname s).2
  | OpRevokeToken id => (RevokeToken c id s).2
  | OpRevokeTokens w => (RevokeTokensForWorker c w s).2
  | OpRevokeWorker w => (RevokeWorker c w s).2
  | OpLastSeen w => (UpdateLastSeen c w s).2
  | OpHealth w st => (RecordHealthEvent c w st s).2
  | OpExpireFind => expire_find c s
  | OpExpireNext => expire_next c s
  end.

(** The database gives a new row an id no row has. *)
Definition fresh_ids (c : calls) (s : store) : Prop :=
  new_token_id c ∉ ids_of (tokens s) ∧ new_worker_id c ∉ ids_of (workers s) ∧ new_worker_id c ≠ "".

#[global] Instance fresh_ids_dec c s : Decision (fresh_ids c s).
Proof. unfold fresh_ids. apply _. Defined.

Inductive token_steps (P : calls → Prop) : store → store → Prop :=
| ts_refl s : token_steps P s s
| ts_step s c o s' : fresh_ids c s → P c → token_steps P (run_op c o s) s' → token_steps P s s'.

(** ** Invariants of the token table *)

(** A token that is never accepted again. *)
Definition dead (r : record) : Prop :=
  GetString "status" r = TokenStatusRevoked ∨ GetString "status" r = TokenStatusExpired.

Definition issued (c : calls) (createdBy token : string) : record :=
  SetStr "created_by" createdBy (SetInt "expires_at" (now c + hour)
    (SetStr "status" TokenStatusStaging (SetStr "token_hash" (HashToken token)
      {| Id := new_token_id c; fields := ∅ |}))).

Definition bound (c : calls) (r : record) : record :=
  SetField "expires_at" VNull (SetInt "last_used_at" (now c)
    (SetStr "status" TokenStatusActive (SetStr "worker" (new_worker_id c) r))).

Definition reused (c : calls) (r : record) : record :=
  SetInt "last_used_at" (now c) (if decide (GetString "status" r = TokenStatusStaging) then
    SetField "expires_at" VNull (SetStr "status" TokenStatusActive r) else r).

Lemma dead_revoked c r : dead (revoked c r).
Proof. left. unfold revoked. by record_simpl. Qed.

Lemma dead_expired c r : dead (SetInt "last_used_at" (now c) (SetStr "status" TokenStatusExpired r)).
Proof. right. by record_simpl. Qed.

Lemma Forall_upsert (P : record → Prop) rec t : P rec → Forall P t → Forall P (upsert rec t).
Proof. rewrite !Forall_forall. intros Hp Ht r [->|[Hr _]]%elem_of_upsert; auto. Qed.

Lemma try_save_tokens (P : record → Prop) c r s : P r → Forall P (tokens s) → Forall P (tokens (try_save c r s).2).
Proof. intros Hr Hs. unfold try_save. destruct (save_token c (Id r)); [|done]. by apply Forall_upsert. Qed.

Lemma try_save_workers c r s : workers (try_save c r s).2 = workers s.
Proof. unfold try_save. by destruct (save_token c (Id r)). Qed.

Lemma revoke_loop_tokens (P : record → Prop) c rs s : (∀ r, dead r → P r) → Forall P (tokens s) →
  Forall P (tokens (revoke_loop c rs s).2).
Proof.
  intros Hd. revert s. induction rs as [|r rs IH]; intros s Hs; [done|]. simpl.
  pose proof (try_save_tokens P c (revoked c r) s (Hd _ (dead_revoked c r)) Hs) as H.
  destruct (try_save _ _ _) as [[|] s1]; simpl in *; auto.
Qed.

Lemma find_hash c h s r : findTokenRecordByHash c h s = inl r → r ∈ tokens s.
Proof.
  unfold findTokenRecordByHash. destruct (find_tokens c); [|done]. simpl.
  destruct (FindAll _ _ _) as [|x l] eqn:Hf; [done|]. intros [= <-]. by apply FindAll_head in Hf as [_ ?].
Qed.

(** What [ActivateToken] does to the tables, and what it returns. *)
Lemma activate_cases c token hostname s o s' : ActivateToken c token hostname s = (o, s') →
  (∃ err, o = inr err ∧ s' = s) ∨
  (∃ err, o = inr err ∧ ∃ r, s' = (try_save c (SetInt "last_used_at" (now c) (SetStr "status" TokenStatusExpired r)) s).2) ∨
  (∃ r, r ∈ tokens s ∧ token_verdict c r = None ∧ GetString "worker" r = "" ∧
     ∃ w s1, registerRemoteWorker c hostname (Id r) s = (w, s1) ∧
     match w with
     | None => o = inr DatabaseError ∧ s' = s1
     | Some w => Id w = new_worker_id c ∧ s' = (try_save c (bound c r) s1).2 ∧
                 (o = inr DatabaseError ∨ o = inl (w, bound c r) ∧ save_token c (Id r) = true)
     end) ∨
  (∃ r, r ∈ tokens s ∧ token_verdict c r = None ∧ GetString "worker" r ≠ "" ∧
     ((o = inr DatabaseError ∧ s' = s) ∨
      ∃ w, FindById (GetString "worker" r) (workers s) = Some w ∧ s' = (try_save c (reused c r) s).2 ∧
           (o = inr DatabaseError ∨ o = inl (w, reused c r) ∧ save_token c (Id r) = true))).
Proof.
  unfold ActivateToken. case_decide; [intros [= <- <-]; left; eauto|].
  destruct (findTokenRecordByHash _ _ _) as [r|err] eqn:Hf; [|intros [= <- <-]; left; eauto].
  apply find_hash in Hf. destruct (token_verdict c r) as [[err [r'|]]|] eqn:Hv.
  - intros [= <- <-]. right. left. exists err. split; [done|]. exists r. unfold token_verdict in Hv.
    by repeat case_match; simplify_eq.
  - intros [= <- <-]. left. eauto.
  - case_decide as Hw.
    + intros Ha. right. right. left. exists r. do 3 (split; [done|]). unfold bind_worker in Ha.
      destruct (registerRemoteWorker c hostname (Id r) s) as [[w|] s1] eqn:Hr;
        [|exists None, s1; by injection Ha as <- <-].
      assert (Id w = new_worker_id c) as Hid by (unfold registerRemoteWorker in Hr; repeat case_match; by simplify_eq).
      rewrite Hid in Ha. fold (bound c r) in Ha. exists (Some w), s1. split; [done|]. split; [done|].
      revert Ha. unfold try_save. cbn [Id bound SetField SetInt SetStr].
      destruct (save_token c (Id r)) eqn:Hok; intros [= <- <-]; auto.
    + intros Ha. right. right. right. exists r. do 3 (split; [done|]). unfold reuse_worker in Ha.
      destruct (find_worker c); [|left; by injection Ha as <- <-].
      destruct (FindById _ _) as [w|] eqn:Hb; [|left; by injection Ha as <- <-]. right. exists w.
      split; [done|]. fold (reused c r) in Ha. revert Ha. unfold try_save.
      assert (Id (reused c r) = Id r) as -> by (unfold reused; by case_decide).
      destruct (save_token c (Id r)) eqn:Hok; intros [= <- <-]; auto.
Qed.

(** A property of token rows that dead rows have is kept when new rows have it and
    accepted tokens keep it. *)
Lemma ops_keep (P : record → Prop) c o s :
  (∀ r, dead r → P r) → (∀ by_ token, P (issued c by_ token)) →
  (∀ r, r ∈ tokens s → P r → token_verdict c r = None → P (bound c r) ∧ (GetString "worker" r ≠ "" → P (reused c r))) →
  Forall P (tokens s) → Forall P (tokens (run_op c o s)).
Proof.
  intros Hd Hi Ha Hs. destruct o as [by_|token hostname|id|w|w|w|w st| |]; cbn [run_op].
  - unfold IssueToken. repeat case_match; simpl; try done. apply Forall_upsert; [apply Hi|done].
  - destruct (ActivateToken c token hostname s) as [o s'] eqn:He. cbn [snd].
    destruct (activate_cases _ _ _ _ _ _ He) as [(? & _ & ->)|[(? & _ & r & ->)|[(r & Hr & Hv & _ & w & s1 & Hreg & Hm)|(r & Hr & Hv & Hw & [[_ ->]|(w & _ & -> & _)])]]]; try done.
    + apply try_save_tokens; [apply Hd, dead_expired|done].
    + assert (tokens s1 = tokens s) as Ht by (unfold registerRemoteWorker in Hreg; repeat case_match; by simplify_eq).
      destruct w as [w|]; [destruct Hm as (_ & -> & _)|destruct Hm as [_ ->]; by rewrite Ht].
      apply try_save_tokens; [|by rewrite Ht]. by apply (Ha r Hr); [rewrite Forall_forall in Hs; apply Hs|].
    + apply try_save_tokens; [|done]. apply (Ha r Hr); [rewrite Forall_forall in Hs; by apply Hs|done..].
  - unfold RevokeToken. repeat case_match; simpl; try done; apply try_save_tokens; auto using dead_revoked.
  - unfold RevokeTokensForWorker. case_match; simpl; [done|]. by apply revoke_loop_tokens.
  - unfold RevokeWorker, RevokeTokensForWorker. repeat case_match; simpl; try done. by apply revoke_loop_tokens.
  - unfold UpdateLastSeen. by repeat case_match.
  - unfold RecordHealthEvent. by repeat case_match.
  - done.
  - unfold expire_next. destruct (expiring s) as [|r rs]; [done|]. destruct (past _ _ _); [|done].
    pose proof (try_save_tokens P c (SetInt "last_used_at" (now c) (SetStr "status" TokenStatusExpired r))
      {| tokens := tokens s; workers := workers s; expiring := rs |} (Hd _ (dead_expired c r)) Hs) as H1.
    by destruct (try_save _ _ _) as [[|] s1].
Qed.

(** No operation removes a row. *)
Lemma ops_grow c o s :
  (∀ id, id ∈ ids_of (tokens s) → id ∈ ids_of (tokens (run_op c o s))) ∧
  (∀ id, id ∈ ids_of (workers s) → id ∈ ids_of (workers (run_op c o s))).
Proof.
  assert (∀ r s0 id, id ∈ ids_of (tokens s0) → id ∈ ids_of (tokens (try_save c r s0).2)) as Hsave.
  { intros r s0 id Hin. unfold try_save. destruct (save_token c (Id r)); [|done]. apply ids_upsert. by right. }
  assert (∀ rs s0, (∀ id, id ∈ ids_of (tokens s0) → id ∈ ids_of (tokens (revoke_loop c rs s0).2))
                   ∧ workers (revoke_loop c rs s0).2 = workers s0) as Hloop.
  { induction rs as [|r rs IH]; intros s0; [done|]. simpl. pose proof (Hsave (revoked c r) s0) as H1.
    pose proof (try_save_workers c (revoked c r) s0) as H2. destruct (try_save _ _ _) as [[|] s1]; simpl in *; [|auto].
    destruct (IH s1) as [IH1 IH2]. split; [auto|congruence]. }
  destruct o as [by_|token hostname|id|w|w|w|w st| |]; cbn [run_op].
  - unfold IssueToken. repeat case_match; simpl; split; try done. intros id Hin. apply ids_upsert. by right.
  - destruct (ActivateToken c token hostname s) as [o s'] eqn:He. cbn [snd].
    destruct (activate_cases _ _ _ _ _ _ He) as [(? & _ & ->)|[(? & _ & r & ->)|[(r & Hr & Hv & _ & w & s1 & Hreg & Hm)|(r & Hr & Hv & Hw & [[_ ->]|(w & _ & -> & _)])]]]; try done.
    + rewrite try_save_workers. auto.
    + assert (tokens s1 = tokens s ∧ ∀ id, id ∈ ids_of (workers s) → id ∈ ids_of (workers s1)) as [Ht Hw].
      { unfold registerRemoteWorker in Hreg. repeat case_match; simplify_eq; split; try done.
        intros id Hin. apply ids_upsert. by right. }
      destruct w as [w|]; [destruct Hm as (_ & -> & _)|destruct Hm as [_ ->]; by rewrite Ht].
      rewrite try_save_workers. rewrite -Ht. auto.
    + rewrite try_save_workers. auto.
  - unfold RevokeToken. repeat case_match; simpl; try done; rewrite try_save_workers; auto.
  - unfold RevokeTokensForWorker. case_match; simpl; [done|]. destruct (Hloop (FindAll "worker" w (tokens s)) s) as [H1 H2].
    rewrite H2. auto.
  - unfold RevokeWorker, RevokeTokensForWorker. destruct (find_worker c); [|done].
    destruct (FindById _ _) as [r|]; [|done]. destruct (save_worker c); [|done].
    set (s0 := set_workers _ s).
    assert (∀ id, id ∈ ids_of (workers s) → id ∈ ids_of (workers s0)) as Hw by (intros id Hin; apply ids_upsert; by right).
    destruct (find_tokens c); [|done]. destruct (Hloop (FindAll "worker" w (tokens s0)) s0) as [Hl1 Hl2]. simpl.
    rewrite Hl2. auto.
  - unfold UpdateLastSeen. repeat case_match; simpl; split; try done; intros id Hin; apply ids_upsert; by right.
  - unfold RecordHealthEvent. repeat case_match; simpl; split; try done; intros id Hin; apply ids_upsert; by right.
  - done.
  - unfold expire_next. destruct (expiring s) as [|r rs]; [done|]. destruct (past _ _ _); [|done].
    set (s0 := {| tokens := tokens s; workers := workers s; expiring := rs |}).
    set (r0 := SetInt "last_used_at" (now c) (SetStr "status" TokenStatusExpired r)).
    pose proof (Hsave r0 s0) as H1. pose proof (try_save_workers c r0 s0) as H2.
    destruct (try_save c r0 s0) as [[|] s1]; simpl in *; [rewrite H2; auto|done].
Qed.

Lemma verdict_alive c r : token_verdict c r = None → ¬ dead r.
Proof. unfold token_verdict. intros Hv [Hd|Hd]; rewrite Hd in Hv; simpl in Hv; by repeat case_decide. Qed.

(** ** Revocation *)
Definition locked (w : string) (s : store) : Prop :=
  w ∈ ids_of (workers s) ∧ Forall (λ r, GetString "worker" r = w → dead r) (tokens s).

Lemma revoke_loop_spec c rs s s' : revoke_loop c rs s = (true, s') →
  workers s' = workers s ∧ ∀ r, r ∈ tokens s' → dead r ∨ r ∈ tokens s ∧ Id r ∉ ids_of rs.
Proof.
  revert s. induction rs as [|x rs IH]; intros s Hl; simpl in Hl.
  - injection Hl as <-. split; [done|]. intros r Hr. right. split; [done|]. apply not_elem_of_nil.
  - unfold try_save in Hl. destruct (save_token c _); [|done]. apply IH in Hl as [Hw Hl]. split; [done|].
    intros r Hr. destruct (Hl r Hr) as [Hd|[Hin Hni]]; [by left|].
    cbn [tokens set_tokens] in Hin. apply elem_of_upsert in Hin as [->|[Hin Hne]]; [left; apply dead_revoked|].
    right. split; [done|]. unfold ids_of. cbn. by apply not_elem_of_cons.
Qed.

Lemma revoke_locks c w s s1 : RevokeWorker c w s = (true, s1) → locked w s1.
Proof.
  unfold RevokeWorker. destruct (find_worker c); [|done]. destruct (FindById _ _) as [r|] eqn:Hb; [|done].
  destruct (save_worker c); [|done]. unfold RevokeTokensForWorker. destruct (find_tokens c); [|done].
  intros [Hw Hl]%revoke_loop_spec. apply FindById_Some in Hb as [Hin Hid]. split.
  - rewrite Hw. apply ids_upsert. by left.
  - apply Forall_forall. intros x Hx Hwx. destruct (Hl x Hx) as [Hd|[Hin' Hni]]; [done|]. exfalso. apply Hni.
    apply list_elem_of_fmap_2. by apply FindAll_elem.
Qed.

Lemma locked_step c o w s : w ≠ "" → fresh_ids c s → locked w s → locked w (run_op c o s).
Proof.
  intros Hne (_ & Hf & _) [Hw Ht]. split; [by apply ops_grow|].
  apply ops_keep; [by auto|intros by_ token; unfold issued; by record_simpl| |done].
  intros r Hr HP Hv. apply verdict_alive in Hv. split.
  - unfold bound. record_simpl. by intros <-.
  - intros _. unfold reused. case_decide; record_simpl; tauto.
Qed.

Lemma locked_steps P w s s' : w ≠ "" → token_steps P s s' → locked w s → locked w s'.
Proof. intros Hne. induction 1 as [|s c o s' Hf _ _ IH]; [done|]. intros Hl. by apply IH, locked_step. Qed.

(** C31: Once a worker has been revoked, no token ever authenticates as it again,
    whatever tokens are issued, used, revoked or swept afterwards and whichever calls
    of the database fail, also when the sweep of unused tokens saves rows it read
    before the revocation. *)
Theorem revoked_worker_locked_out c w s s1 s2 c' token hostname wr tr s3 :
  RevokeWorker c w s = (true, s1) → w ≠ "" → token_steps (λ _, True) s1 s2 → fresh_ids c' s2 →
  ActivateToken c' token hostname s2 = (inl (wr, tr), s3) → Id wr ≠ w.
Proof.
  intros Hr Hne Hs (_ & Hf & _) Ha. apply revoke_locks in Hr. destruct (locked_steps _ _ _ _ Hne Hs Hr) as [Hw Ht].
  rewrite Forall_forall in Ht.
  destruct (activate_cases _ _ _ _ _ _ Ha) as [(? & ? & _)|[(? & ? & _)|[(r & Hin & Hv & _ & x & sx & Hreg & Hm)|(r & Hin & Hv & _ & [[? _]|(x & Hx & _ & [?|[He _]])])]]]; try done.
  - destruct x as [x|]; [|by destruct Hm]. destruct Hm as (Hid & _ & [?|[He _]]); [done|]. simplify_eq.
    rewrite Hid. by intros <-.
  - injection He as -> ->. apply FindById_Some in Hx as [_ Hid]. rewrite Hid. intros Hc.
    apply verdict_alive in Hv. by apply Hv, Ht.
Qed.

(** ** Expiry of unused tokens *)
Definition unused (e : Z) (id : string) (r : record) : Prop :=
  Id r = id → dead r ∨ (GetString "status" r = TokenStatusStaging ∧ fields r !! "expires_at" = Some (VNum (Itoa e))).

Lemma unused_verdict e id c r : (0 ≤ e < now c)%Z → unused e id r → Id r = id → token_verdict c r ≠ None.
Proof.
  intros He Hu Hid Hv. destruct (Hu Hid) as [Hd|[Hs Hf]]; [by apply verdict_alive in Hv|].
  unfold token_verdict in Hv. rewrite Hs in Hv. cbn in Hv. unfold past in Hv. rewrite Hf num_int_Itoa in Hv; [|lia].
  cbn [default] in Hv. by rewrite bool_decide_true in Hv; [|simpl; lia].
Qed.

Lemma unused_step e id c o s : (0 ≤ e < now c)%Z → fresh_ids c s → id ∈ ids_of (tokens s) →
  Forall (unused e id) (tokens s) → Forall (unused e id) (tokens (run_op c o s)).
Proof.
  intros He (Hf & _) Hin Hs. apply ops_keep; [intros r Hd _; by left| | |done].
  - intros by_ token Hid. exfalso. apply Hf. cbn in Hid. by rewrite Hid.
  - intros r Hr Hu Hv. assert (Id r ≠ id) as Hne by (intros Hid; by eapply unused_verdict).
    split; [by intros ?|]. intros _ Hid. exfalso. apply Hne. rewrite -Hid. unfold reused. by case_decide.
Qed.

(** A token that was not used before it expired is never accepted afterwards, in
    whatever order the sweep, other workers and administrators act. *)
Theorem unused_token_expires e id s s' c token hostname wr tr s'' :
  (0 ≤ e < now c)%Z → id ∈ ids_of (tokens s) → Forall (unused e id) (tokens s) →
  token_steps (λ c, (e < now c)%Z) s s' → ActivateToken c token hostname s' = (inl (wr, tr), s'') → Id tr ≠ id.
Proof.
  intros He Hin Hu Hs Ha. assert (id ∈ ids_of (tokens s') ∧ Forall (unused e id) (tokens s')) as [Hin' Hu'].
  { induction Hs as [|s c0 o s' Hf Hc _ IH]; [done|]. apply IH; [by apply ops_grow|apply unused_step; [lia|done..]|done]. }
  rewrite Forall_forall in Hu'.
  assert (∃ r, r ∈ tokens s' ∧ token_verdict c r = None ∧ Id tr = Id r) as (r & Hr & Hv & ->).
  { destruct (activate_cases _ _ _ _ _ _ Ha) as [(? & ? & _)|[(? & ? & _)|[(r & Hr & Hv & _ & x & sx & Hreg & Hm)|(r & Hr & Hv & _ & [[? _]|(x & Hx & _ & [?|[Hq _]])])]]]; try done; exists r; (split; [done|]); (split; [done|]).
    - destruct x as [x|]; [|by destruct Hm]. by destruct Hm as (_ & _ & [?|[[= -> ->] _]]).
    - injection Hq as -> ->. unfold reused. by case_decide. }
  intros Hid. by eapply unused_verdict; [| |exact Hid|exact Hv]; [|apply Hu'].
Qed.

(** ** Reconnecting *)
Definition all_ok (c : calls) : Prop :=
  find_collection c = true ∧ find_tokens c = true ∧ find_worker c = true ∧ (∀ id, save_token c id = true)
  ∧ save_worker c = true.

(** A token issued for a worker is accepted during its first hour, registers one
    new worker, and is accepted at any later time as the same worker. *)
Theorem token_reconnects c by_ tok s s1 c1 h1 c2 h2 :
  IssueToken c by_ s = (Some tok, s1) → tok ≠ "" → FindAll "token_hash" (HashToken tok) (tokens s) = [] →
  NoDup (ids_of (tokens s)) → (0 ≤ now c + hour)%Z → (now c1 ≤ now c + hour)%Z → new_worker_id c1 ≠ "" →
  all_ok c1 → all_ok c2 →
  ∃ wr tr s2 tr' s3, ActivateToken c1 tok h1 s1 = (inl (wr, tr), s2) ∧ Id wr = new_worker_id c1
  ∧ ActivateToken c2 tok h2 s2 = (inl (wr, tr'), s3).
Proof.
  intros Hi Ht Hf Hnd H0 H1 Hw (Ha1 & Ha2 & Ha3 & Ha4 & Ha5) (Hb1 & Hb2 & Hb3 & Hb4 & Hb5).
  assert (s1 = set_tokens (upsert (issued c by_ tok) (tokens s)) s) as ->
    by (unfold IssueToken in Hi; repeat case_match; by simplify_eq).
  assert (FindAll "token_hash" (HashToken tok) (upsert (issued c by_ tok) (tokens s)) = [issued c by_ tok]) as Hfi.
  { apply FindAll_upsert_eq; [done|by left|]. unfold issued. by record_simpl. }
  assert (token_verdict c1 (issued c by_ tok) = None) as Hv1.
  { assert (GetString "status" (issued c by_ tok) = TokenStatusStaging) as Hs by (unfold issued; by record_simpl).
    assert (fields (issued c by_ tok) !! "expires_at" = Some (VNum (Itoa (now c + hour)))) as He
      by (unfold issued; by record_simpl).
    unfold token_verdict. rewrite Hs. cbn. unfold past. rewrite He num_int_Itoa //. cbn [default].
    rewrite bool_decide_false //. simpl. lia. }
  set (wr := SetStr "status" "ACTIVE" (SetStr "fingerprint" ("remote:" +:+ new_token_id c)
      (SetStr "hostname" (hostnameOrUnknown h1) {| Id := new_worker_id c1; fields := ∅ |}))).
  set (tr := bound c1 (issued c by_ tok)).
  set (s2 := set_tokens (upsert tr (upsert (issued c by_ tok) (tokens s))) (set_workers (upsert wr (workers s)) s)).
  assert (ActivateToken c1 tok h1 (set_tokens (upsert (issued c by_ tok) (tokens s)) s) = (inl (wr, tr), s2)) as Hact.
  { unfold ActivateToken. destruct (decide (tok = "")); [done|]. rewrite /findTokenRecordByHash Ha2. cbn [negb tokens set_tokens]. rewrite Hfi Hv1.
    assert (GetString "worker" (issued c by_ tok) = "") as -> by (unfold issued; by record_simpl).
    destruct (decide ("" = "")); [|done]. rewrite /bind_worker /registerRemoteWorker Ha1 Ha5.
    cbn [negb]. unfold try_save. by rewrite Ha4. }
  exists wr, tr, s2. eexists _, _. split; [done|]. split; [done|].
  unfold ActivateToken. destruct (decide (tok = "")); [done|]. rewrite /findTokenRecordByHash Hb2. cbn [negb tokens set_tokens s2].
  rewrite (FindAll_upsert_eq _ _ tr); [|by apply NoDup_upsert|right; by rewrite Hfi|unfold tr, bound, issued; by record_simpl].
  assert (token_verdict c2 tr = None) as ->.
  { unfold token_verdict. assert (GetString "status" tr = TokenStatusActive) as -> by (unfold tr, bound; by record_simpl). done. }
  assert (GetString "worker" tr = Id wr) as -> by (unfold tr, bound; by record_simpl).
  destruct (decide (Id wr = "")); [done|]. rewrite /reuse_worker Hb3. cbn [workers set_tokens set_workers s2]. rewrite FindById_upsert. cbv zeta. unfold try_save. by rewrite Hb4.
Qed.
End tokens.

(** ** Witnesses *)
Definition toy_hash (t : string) : string := "h" +:+ t.
Definition demo_calls (n : Z) (tid wid : string) : calls :=
  {| now := n; find_collection := true; find_tokens := true; find_worker := true; save_token := λ _, true;
     save_worker := true; random := Some ("tok" +:+ tid); new_token_id := tid; new_worker_id := wid |}.
Definition no_rows : store := {| tokens := []; workers := []; expiring := [] |}.
Definition issued1 : store := (IssueToken toy_hash (demo_calls 0 "t1" "w1") "admin" no_rows).2.
Definition used1 : store := (ActivateToken toy_hash (demo_calls 1 "t2" "w1") "tokt1" "host" issued1).2.
Definition revoked1 : store := (RevokeWorker (demo_calls 2 "t2" "w2") "w1" used1).2.
Definition reissued : store := run_op toy_hash (demo_calls 3 "t2" "w2") (OpIssue "admin") revoked1.
Definition joined : option (record * record) :=
  match (ActivateToken toy_hash (demo_calls 4 "t3" "w2") "tokt2" "host" reissued).1 with inl p => Some p | inr _ => None end.

Lemma revoked_worker_locked_out_witness : (Id <$> (fst <$> joined)) = Some "w2" ∧ "w2" ≠ "w1".
Proof.
  split; [vm_compute; reflexivity|].
  destruct (ActivateToken toy_hash (demo_calls 4 "t3" "w2") "tokt2" "host" reissued) as [[[wr tr]|err] s3] eqn:Ha;
    [|exfalso; by vm_compute in Ha].
  assert (Id wr = "w2") as <- by (vm_compute in Ha; by simplify_eq).
  apply (revoked_worker_locked_out toy_hash (demo_calls 2 "t2" "w2") "w1" used1 revoked1 reissued
           (demo_calls 4 "t3" "w2") "tokt2" "host" wr tr s3); [vm_compute; reflexivity|done| | |exact Ha].
  - eapply (ts_step _ _ _ (demo_calls 3 "t2" "w2") (OpIssue "admin")); [|done|apply ts_refl].
    by apply (bool_decide_unpack _); vm_compute.
  - by apply (bool_decide_unpack _); vm_compute.
Defined.

Definition late1 : option (record * record) :=
  match (ActivateToken toy_hash (demo_calls (hour + 4) "t3" "w2") "tokt2" "host"
          (run_op toy_hash (demo_calls (hour + 1) "t2" "w2") (OpIssue "admin") issued1)).1 with
  | inl p => Some p | inr _ => None end.

Lemma unused_token_expires_witness : (Id <$> (snd <$> late1)) = Some "t2" ∧ "t2" ≠ "t1".
Proof.
  split; [vm_compute; reflexivity|].
  set (s' := run_op toy_hash (demo_calls (hour + 1) "t2" "w2") (OpIssue "admin") issued1).
  destruct (ActivateToken toy_hash (demo_calls (hour + 4) "t3" "w2") "tokt2" "host" s') as [[[wr tr]|err] s3] eqn:Ha;
    [|exfalso; by vm_compute in Ha].
  assert (Id tr = "t2") as <- by (vm_compute in Ha; by simplify_eq).
  apply (unused_token_expires toy_hash hour "t1" issued1 s' (demo_calls (hour + 4) "t3" "w2") "tokt2" "host" wr tr s3);
    [cbn [now demo_calls]; unfold hour; lia|by apply (bool_decide_unpack _); vm_compute| | |exact Ha].
  - apply Forall_singleton. intros _. right. split; vm_compute; reflexivity.
  - eapply (ts_step _ _ _ (demo_calls (hour + 1) "t2" "w2") (OpIssue "admin")); [|cbn [now demo_calls]; unfold hour; lia|apply ts_refl].
    by apply (bool_decide_unpack _); vm_compute.
Defined.

Lemma token_reconnects_witness : ∃ wr tr s2 tr' s3,
  ActivateToken toy_hash (demo_calls 1 "t2" "w1") "tokt1" "host" issued1 = (inl (wr, tr), s2) ∧ Id wr = "w1"
  ∧ ActivateToken toy_hash (demo_calls (2 * hour) "t2" "w2") "tokt1" "host" s2 = (inl (wr, tr'), s3).
Proof.
  apply (token_reconnects toy_hash (demo_calls 0 "t1" "w1") "admin" "tokt1" no_rows issued1 (demo_calls 1 "t2" "w1") "host"
           (demo_calls (2 * hour) "t2" "w2") "host"); try done; apply NoDup_nil_2.
Defined.
