(* ===== verification/WorkerCommands.v ===== *)
(** * internal/worker/commands.go: the log of commands

    The worker_commands table.  A dispatch and its redeliveries share one row, found
    by the id of the command; the receipt of a delivery is found by the id of the
    message.  [calls] is what the database and the clock do during one operation. *)
From Stdlib Require Import ZArith.
From S2P Require Import Prelude GoStrings GoValue ComposeDoc PbRecord PbTable.

(** [week] is the time seven days later. *)
Record log_calls := { l_collection : bool; l_find : bool; l_save : bool; l_now : Z; l_week : Z; l_id : string }.

Definition new_command (c : log_calls) (commandID : string) : record :=
  SetStr "command_id" commandID {| Id := l_id c; fields := ∅ |}.

(** The user of the context and the payload are written only when there is one. *)
Definition set_created_by (user : string) (r : record) : record :=
  if decide (user = "") then r else SetStr "created_by" user r.
Definition set_payload (payload : option value) (r : record) : record :=
  match payload with Some p => SetField "payload" p r | None => r end.

Definition save_command (c : log_calls) (r : record) (t : rows) : option record * rows :=
  if l_save c then (Some r, upsert r t) else (None, t).

Definition logCommandDispatch (c : log_calls)
    (user workerID commandID idempotencyKey messageID commandType : string) (payload : option value) (t : rows)
  : option record * rows :=
  if negb (l_collection c) then (None, t)
  else
    let '(record, attemptCount) :=
      match (if l_find c then FindAll "command_id" commandID t else []) with
      | r :: _ => (r, GetInt "attempt_count" r + 1)%Z
      | [] => (new_command c commandID, 1%Z)
      end in
    let record := SetStr "idempotency_key" idempotencyKey (SetStr "status" "dispatched"
      (SetStr "command_type" commandType (SetStr "worker" workerID record))) in
    let record := SetField "next_attempt_at" VNull (SetInt "attempt_count" attemptCount
      (SetStr "message_id" messageID record)) in
    let record := SetInt "duration_ms" 0 (SetField "result" VNull (SetInt "expires_at" (l_week c) record)) in
    save_command c (set_payload payload (set_created_by user record)) t.

Definition LogCommandDispatch (c : log_calls)
    (user workerID commandID idempotencyKey messageID commandType : string) (payload : option value) (t : rows)
  : option record * rows :=
  logCommandDispatch c user workerID commandID
    (if decide (idempotencyKey = "") then commandID else idempotencyKey) messageID commandType payload t.

Definition LogCommandStart (c : log_calls) (user workerID commandID commandType : string) (payload : option value)
    (t : rows) : option record * rows :=
  logCommandDispatch c user workerID commandID commandID "" commandType payload t.

Definition LogCommandQueued (c : log_calls) (user workerID commandID idempotencyKey commandType : string)
    (payload : option value) (nextAttemptAt : Z) (t : rows) : option record * rows :=
  if negb (l_collection c) then (None, t)
  else
    let idempotencyKey := if decide (idempotencyKey = "") then commandID else idempotencyKey in
    if negb (l_find c) then (None, t)
    else
      let record := match FindAll "command_id" commandID t with
                    | r :: _ => r
                    | [] => SetInt "attempt_count" 0 (new_command c commandID)
                    end in
      let record := SetStr "idempotency_key" idempotencyKey (SetStr "status" "queued"
        (SetStr "command_type" commandType (SetStr "worker" workerID record))) in
      let record := SetInt "expires_at" (l_week c) (SetInt "next_attempt_at" nextAttemptAt record) in
      save_command c (set_payload payload (set_created_by user record)) t.

Definition finished_status (s : string) : bool :=
  bool_decide (s = "success") || bool_decide (s = "error") || bool_decide (s = "timed_out") || bool_decide (s = "cancelled").

Definition LogCommandAck (c : log_calls) (messageID : string) (t : rows) : bool * rows :=
  if decide (messageID = "") then (true, t)
  else if negb (l_find c) then (false, t)
  else match FindAll "message_id" messageID t with
       | [] => (true, t)
       | r :: _ =>
           if finished_status (GetString "status" r) then (true, t)
           else if l_save c then (true, upsert (SetInt "acked_at" (l_now c) (SetStr "status" "acked" r)) t)
           else (false, t)
       end.

Definition LogCommandFinish (c : log_calls) (commandID status : string) (result : option value) (durationMs : Z)
    (t : rows) : bool * rows :=
  match (if l_find c then FindAll "command_id" commandID t else []) with
  | [] => (false, t)
  | r :: _ =>
      let r := SetField "next_attempt_at" VNull (SetInt "duration_ms" durationMs (SetStr "status" status r)) in
      let r := match result with Some v => SetField "result" v r | None => r end in
      if l_save c then (true, upsert r t) else (false, t)
  end.

(** ** The life of a row *)

(** The operations on the log of one command; the database answers each of them. *)
Inductive log_op :=
| Dispatched (workerID messageID commandType : string)
| Queued (workerID commandType : string) (at_ : Z)
| Acked (messageID : string)
| Finished (status : string) (durationMs : Z).

Definition run_log (commandID : string) (c : log_calls) (o : log_op) (t : rows) : rows :=
  match o with
  | Dispatched w m ty => (LogCommandDispatch c "" w commandID commandID m ty None t).2
  | Queued w ty at_ => (LogCommandQueued c "" w commandID commandID ty None at_ t).2
  | Acked m => (LogCommandAck c m t).2
  | Finished st ms => (LogCommandFinish c commandID st None ms t).2
  end.

Definition answered (c : log_calls) : Prop := l_collection c = true ∧ l_find c = true ∧ l_save c = true.

(** The rows of a command: one, whose attempts are counted. *)
Definition logged (commandID : string) (n : nat) (t : rows) : Prop :=
  ∃ r, FindAll "command_id" commandID t = [r] ∧ GetInt "attempt_count" r = Z.of_nat n.

Definition is_dispatch (o : log_op) : bool := match o with Dispatched _ _ _ => true | _ => false end.

Lemma FindAll_upsert_ne k v rec t : GetString k rec ≠ v → (∀ r, r ∈ t → Id r = Id rec → GetString k r ≠ v) →
  FindAll k v (upsert rec t) = FindAll k v t.
Proof.
  intros Hk Hr. unfold upsert, FindAll. case_decide as Hin.
  - clear Hin. induction t as [|r t IH]; [done|]. rewrite fmap_cons !filter_cons.
    rewrite IH; [|intros x Hx; apply Hr; by right].
    destruct (decide (Id r = Id rec)) as [He|He]; [|done]. rewrite decide_False //.
    rewrite decide_False //. apply Hr; [by left|done].
  - by rewrite filter_app filter_cons_False // filter_nil app_nil_r.
Qed.

Lemma GetInt_eq k n r : (0 ≤ n)%Z → GetInt k (SetField k (VNum (Itoa n)) r) = n.
Proof. apply GetInt_SetInt. Qed.

(** Saving the row of the command again keeps it the only one. *)
Lemma logged_upsert id r r' n t : NoDup (ids_of t) → FindAll "command_id" id t = [r] → Id r' = Id r →
  GetString "command_id" r' = id → GetInt "attempt_count" r' = Z.of_nat n →
  NoDup (ids_of (upsert r' t)) ∧ logged id n (upsert r' t).
Proof.
  intros Hnd Hf Hid Hc Hn. split; [by apply NoDup_upsert|]. exists r'. split; [|done].
  apply FindAll_upsert_eq; [done| |done]. right. by rewrite Hf /= Hid.
Qed.

Lemma run_log_step id c o n t : NoDup (ids_of t) → answered c → l_id c ∉ ids_of t → logged id n t →
  NoDup (ids_of (run_log id c o t)) ∧ logged id (n + if is_dispatch o then 1 else 0) (run_log id c o t).
Proof.
  intros Hnd (Hc & Hf & Hs) Hfresh (r & Hr & Hn).
  assert (GetString "command_id" r = id) as Hid by (by apply FindAll_head in Hr as [? _]).
  destruct o as [w m ty|w ty at_|m|st ms]; cbn [run_log is_dispatch].
  - unfold LogCommandDispatch, logCommandDispatch. rewrite Hc Hf Hr. cbn [negb].
    unfold save_command. rewrite Hs. cbn [snd]. unfold set_payload, set_created_by. destruct (decide ("" = "")) as [_|?]; [|done].
    apply (logged_upsert id r); [done..| |]; record_simpl; [done|]. rewrite Hn GetInt_eq; lia.
  - unfold LogCommandQueued. rewrite Hc Hf Hr. cbn [negb]. unfold save_command. rewrite Hs. cbn [snd].
    unfold set_payload, set_created_by. destruct (decide ("" = "")) as [_|?]; [|done].
    apply (logged_upsert id r); [done..| |]; record_simpl; [done|]. rewrite Hn. lia.
  - rewrite Nat.add_0_r. unfold LogCommandAck. case_decide; [split; [done|by exists r]|]. rewrite Hf. cbn [negb].
    destruct (FindAll "message_id" m t) as [|x l] eqn:Hx; [split; [done|by exists r]|].
    destruct (finished_status _); [split; [done|by exists r]|]. rewrite Hs. cbn [snd].
    apply FindAll_head in Hx as [_ Hin]. set (x' := SetInt "acked_at" _ _).
    destruct (decide (GetString "command_id" x = id)) as [He|He].
    + assert (x ∈ FindAll "command_id" id t) as Hx' by (by apply FindAll_elem).
      rewrite Hr in Hx'. apply list_elem_of_singleton in Hx' as ->.
      apply (logged_upsert id r); [done..| |]; unfold x'; by record_simpl.
    + split; [by apply NoDup_upsert|]. exists r. split; [|done]. rewrite FindAll_upsert_ne; [done|unfold x'; by record_simpl|].
      intros y Hy Hyx Hyc. apply He. rewrite -Hyc. f_equal.
      assert (Id y = Id x) as Heq by done. clear Hyx.
      apply list_elem_of_lookup in Hy as [i Hi]. apply list_elem_of_lookup in Hin as [j Hj].
      assert (i = j) as -> by (eapply (NoDup_lookup (ids_of t)); [done|unfold ids_of; rewrite list_lookup_fmap Hi; done|unfold ids_of; by rewrite list_lookup_fmap Hj /= Heq]).
      congruence.
  - rewrite Nat.add_0_r. unfold LogCommandFinish. rewrite Hf Hr Hs. cbn [snd].
    apply (logged_upsert id r); [done..| |]; by record_simpl.
Qed.

Definition run_logs (id : string) (os : list (log_calls * log_op)) (t : rows) : rows :=
  foldl (λ t co, run_log id co.1 co.2 t) t os.

(** Each operation finds the database answering and a new id for a new row. *)
Fixpoint logs_ok (id : string) (os : list (log_calls * log_op)) (t : rows) : Prop :=
  match os with
  | [] => True
  | (c, o) :: os => answered c ∧ l_id c ∉ ids_of t ∧ logs_ok id os (run_log id c o t)
  end.

(** However a command is queued, dispatched, redelivered, acknowledged and
    finished, it has one row in the log, which counts its deliveries; a receipt that
    arrives after the command has finished does not change its status. *)
Theorem command_log_exact id c w m ty t os : FindAll "command_id" id t = [] → NoDup (ids_of t) → id ≠ "" →
  logs_ok id ((c, Dispatched w m ty) :: os) t →
  logged id (length (filter (λ co, is_dispatch co.2 = true) ((c, Dispatched w m ty) :: os)))
    (run_logs id ((c, Dispatched w m ty) :: os) t)
  ∧ ∀ c' st ms m' c'', finished_status st = true → answered c' →
      GetString "status" <$> FindAll "command_id" id
        (LogCommandAck c'' m' (LogCommandFinish c' id st None ms
          (run_logs id ((c, Dispatched w m ty) :: os) t)).2).2 = [st].
Proof.
  intros Hf Hnd Hne (Ha & Hfresh & Hos). cbn [run_logs foldl fst snd]. fold (run_logs id os (run_log id c (Dispatched w m ty) t)).
  assert (NoDup (ids_of (run_log id c (Dispatched w m ty) t)) ∧ logged id 1 (run_log id c (Dispatched w m ty) t)) as [Hnd1 Hl1].
  { destruct Ha as (Hc & Hfi & Hs). cbn [run_log]. unfold LogCommandDispatch, logCommandDispatch. rewrite Hc Hfi Hf. cbn [negb].
    unfold save_command. rewrite Hs. cbn [snd]. unfold set_payload, set_created_by. destruct (decide ("" = "")) as [_|?]; [|done].
    split; [by apply NoDup_upsert|]. eexists. split; [apply FindAll_upsert_eq; [done|by left|unfold new_command; by record_simpl]|].
    record_simpl. by rewrite GetInt_eq. }
  rewrite filter_cons_True //. cbn [length].
  assert (∀ n t1, NoDup (ids_of t1) → logged id n t1 → logs_ok id os t1 →
    NoDup (ids_of (run_logs id os t1)) ∧
    logged id (n + length (filter (λ co : log_calls * log_op, is_dispatch co.2 = true) os)) (run_logs id os t1)) as Hall.
  { clear -id. induction os as [|[c o] os IH]; intros n t1 Hnd Hl; [by rewrite Nat.add_0_r|]. intros (Ha & Hfr & Hos).
    destruct (run_log_step id c o n t1 Hnd Ha Hfr Hl) as [Hnd' Hl']. destruct (IH _ _ Hnd' Hl' Hos) as [H1 H2].
    split; [done|]. destruct (is_dispatch o) eqn:Ho.
    - rewrite filter_cons_True //. cbn [length]. by rewrite -Nat.add_assoc in H2.
    - rewrite filter_cons_False; [by rewrite Nat.add_0_r in H2|]. cbn [snd]. by rewrite Ho. }
  destruct (Hall 1 _ Hnd1 Hl1 Hos) as [Hnd2 Hl2]. split; [done|].
  intros c' st ms m' c'' Hst (_ & Hfi' & Hs'). destruct Hl2 as (r & Hr & _).
  set (t2 := run_logs id os _) in *.
  assert (GetString "command_id" r = id) as Hid by (by apply FindAll_head in Hr as [? _]).
  unfold LogCommandFinish. rewrite Hfi' Hr Hs'. cbn [snd]. set (r' := SetField "next_attempt_at" _ _).
  assert (FindAll "command_id" id (upsert r' t2) = [r']) as Hr'.
  { apply FindAll_upsert_eq; [done|right; by rewrite Hr|unfold r'; by record_simpl]. }
  assert (GetString "status" r' = st) as Hst' by (unfold r'; by record_simpl).
  assert (GetString "status" <$> FindAll "command_id" id (upsert r' t2) = [st]) as Hdone by (by rewrite Hr' /= Hst').
  unfold LogCommandAck. case_decide; [done|]. destruct (l_find c''); [|done]. cbn [negb].
  destruct (FindAll "message_id" m' _) as [|x l] eqn:Hx; [done|].
  destruct (finished_status (GetString "status" x)) eqn:Hfx; [done|]. destruct (l_save c''); [|done]. cbn [snd].
  apply FindAll_head in Hx as [_ Hin].
  rewrite FindAll_upsert_ne; [done| |].
  - record_simpl. intros He. assert (x ∈ FindAll "command_id" id (upsert r' t2)) as Hx' by (by apply FindAll_elem).
    rewrite Hr' in Hx'. apply list_elem_of_singleton in Hx' as ->. congruence.
  - intros y Hy Hyx Hyc. assert (y ∈ FindAll "command_id" id (upsert r' t2)) as Hy' by (by apply FindAll_elem).
    rewrite Hr' in Hy'. apply list_elem_of_singleton in Hy' as ->. cbn in Hyx.
    apply elem_of_upsert in Hin as [->|[_ Hne']]; [congruence|done].
Qed.

Definition demo_log (id : string) : log_calls :=
  {| l_collection := true; l_find := true; l_save := true; l_now := 5; l_week := 9; l_id := id |}.
Definition redelivered : list (log_calls * log_op) :=
  [(demo_log "r1", Dispatched "w" "m1" "deploy"); (demo_log "r2", Queued "w" "deploy" 1);
   (demo_log "r3", Dispatched "w" "m2" "deploy"); (demo_log "r4", Acked "m2")].

Lemma command_log_exact_witness : logged "c" 2 (run_logs "c" redelivered [])
  ∧ GetString "status" <$> FindAll "command_id" "c"
      (LogCommandAck (demo_log "r6") "m2" (LogCommandFinish (demo_log "r5") "c" "success" None 7
        (run_logs "c" redelivered [])).2).2 = ["success"].
Proof.
  destruct (command_log_exact "c" (demo_log "r1") "w" "m1" "deploy" []
    [(demo_log "r2", Queued "w" "deploy" 1); (demo_log "r3", Dispatched "w" "m2" "deploy"); (demo_log "r4", Acked "m2")])
    as [H1 H2]; [done|apply NoDup_nil_2|done| |split; [exact H1|by apply H2]].
  repeat (split; [done|]; split; [by apply (bool_decide_unpack _); vm_compute|]). done.
Defined.
