(* ===== verification/WorkerServer.v ===== *)
(** * internal/worker/server.go: commands and connections

    The server's end of the connections to its workers.  Every HTTP request that
    opens a websocket runs a session, every call of [Dispatch] a thread of its own;
    they share the maps of connections, of commands waiting for a result and of
    messages seen.  A step is one of the source's locked regions (or unlocked
    accesses) of these maps, together with the calls of the database and of the
    network next to it; [step] is executable, and [None] where the thread cannot
    take that step.  The terminal messages, which go to queues of their own, are left
    out. *)
From Stdlib Require Import ZArith.
From S2P Require Import Prelude GoStrings GoPath GoFmt GoValue ComposeDoc PbRecord PbTable.
From S2P Require Import DurableCommands WorkerTokens WorkerCommands.

(** ** Commands *)
Inductive kind :=
| DeployCommand | RedeployCommand | TeardownCommand | ProbeCommand | InspectCommand | GetStatusCommand
| GetResourcesCommand | ContainerActionCommand | GetContainerStatsCommand | GetContainerLogsCommand | ExecCommand
| DiscoverProjectsCommand | ReadFileCommand | RunJobCommand | KillJobCommand | GetMetricsCommand | OtherCommand.

#[global] Instance kind_eq_dec : EqDecision kind.
Proof. solve_decision. Defined.

(** A command: its type, its id, its delivery id and the other fields. *)
Record command := { c_kind : kind; c_id : string; c_mid : string; c_fields : gmap string value }.

Definition MsgDeploy := "deploy".
Definition MsgRedeploy := "redeploy".
Definition MsgTeardown := "teardown".
Definition MsgRunJob := "run_job".
Definition MsgExec := "exec".

Definition withDispatchMessageID (cmd : command) (messageID : string) : command :=
  match c_kind cmd with
  | DeployCommand | RedeployCommand | TeardownCommand | RunJobCommand =>
      {| c_kind := c_kind cmd; c_id := c_id cmd; c_mid := messageID; c_fields := c_fields cmd |}
  | _ => cmd
  end.

Definition isDurableCommand (msgType : string) : bool :=
  bool_decide (msgType = MsgDeploy) || bool_decide (msgType = MsgRedeploy) || bool_decide (msgType = MsgTeardown)
  || bool_decide (msgType = MsgRunJob).

Inductive dispatch_error :=
| UnknownType | BadContainerAction (id : string) | NotConnected (worker : string) | MarshalFailed (text : string)
| SendFailed (worker text : string) | Canceled | DeadlineExceeded | TimedOut (worker command : string).

(** The type switch of [Dispatch]. *)
Definition message_type (cmd : command) : string + dispatch_error :=
  match c_kind cmd with
  | DeployCommand => inl MsgDeploy
  | RedeployCommand => inl MsgRedeploy
  | TeardownCommand => inl MsgTeardown
  | ProbeCommand => inl "probe"
  | InspectCommand => inl "inspect"
  | GetStatusCommand => inl "get_status"
  | GetResourcesCommand => inl "get_resources"
  | ContainerActionCommand =>
      if HasPrefix (c_id cmd) "stop-container-" then inl "stop_container"
      else if HasPrefix (c_id cmd) "restart-container-" then inl "restart_container"
      else inr (BadContainerAction (c_id cmd))
  | GetContainerStatsCommand => inl "get_container_stats"
  | GetContainerLogsCommand => inl "get_container_logs"
  | ExecCommand => inl MsgExec
  | DiscoverProjectsCommand => inl "discover_projects"
  | ReadFileCommand => inl "read_file"
  | RunJobCommand => inl MsgRunJob
  | KillJobCommand => inl "kill_job"
  | GetMetricsCommand => inl "get_metrics"
  | OtherCommand => inr UnknownType
  end.

(** What is written to a connection. *)
Inductive message :=
| Command (msgType : string) (cmd : command)
| CancelCommand (id target : string)
| AckMessage (messageID : string)
| CloseFrame (reason : string).

(** A command waiting for its result: the channel is that of the dispatch with index
    [p_ch], and the envelope is built from the command again for each delivery. *)
Record pendingResult := {
  p_ch : nat; p_worker : string; p_type : string; p_command : string; p_cmd : command }.

Definition envelope (pr : pendingResult) (messageID : string) : message :=
  Command (p_type pr) (withDispatchMessageID (p_cmd pr) messageID).

(** The JSON value of a command, as the log stores it. *)
Definition command_value (cmd : command) : value :=
  let m := <["command_id" := VStr (c_id cmd)]> (c_fields cmd) in
  VMap (if decide (c_mid cmd = "") then m else <["message_id" := VStr (c_mid cmd)]> m).
Definition result_value (r : CommandResult) : value :=
  VMap (<["command_id" := VStr (CommandID r)]> (<["output" := VStr (Output r)]> {["error" := VStr (Error r)]})).
Definition error_text (e : dispatch_error) : string :=
  match e with
  | UnknownType => "unknown command type"
  | BadContainerAction id => "unknown or malformed container action command ID: " +:+ id
  | NotConnected w => "worker " +:+ w +:+ " is not connected"
  | MarshalFailed text | SendFailed _ text => text
  | Canceled => "context canceled"
  | DeadlineExceeded => "context deadline exceeded"
  | TimedOut w c => "timed out waiting for worker " +:+ w +:+ " response (command " +:+ c +:+ ")"
  end.
Definition error_value (e : dispatch_error) : value := VMap {["error" := VStr (error_text e)]}.

(** ** Threads *)

(** Where a call of [Dispatch] stands; the connection read at its start and the id of
    the first delivery. *)
Inductive dpc :=
| DLooked (conn : option nat)
| DRegistered (conn : option nat) (mid : string)
| DLogged (conn : nat) (mid : string)
| DUnsent
| DWaiting
| DGot (r : CommandResult)
| DInterrupted (e : dispatch_error)
| DFailing (status : string) (e : dispatch_error)
| DReturning (o : CommandResult + dispatch_error)
| DDone (o : CommandResult + dispatch_error).

Record dispatch := { d_worker : string; d_cmd : command; d_user : string; d_deadline : bool; d_dpc : dpc }.

(** The callbacks the server starts. *)
Inductive callback :=
| OnConnect (w : string) | OnDisconnect (w : string) | OnJobCompleted (mid run : string)
| OnHeartbeat (w : string) (active : list string) | OnTerminalOpenRejected (session reason : string).

(** Where the session of a connection stands: accepted, in the map of connections,
    about to resend with the write lock found there, resending, reading, handling a
    result, acknowledging, at its deferred cleanup, gone. *)
Inductive spc :=
| SUpgraded
| SRegistered
| SLocked (mu : bool)
| SReplay (mu : bool) (todo : list pendingResult)
| SReading
| SDeliver (mid : string) (r : CommandResult)
| SSend (pr : pendingResult) (mid : option string) (r : CommandResult)
| SAck (mid : string) (after : option callback)
| SBroken
| SClosed.

Record session := { s_worker : string; s_pc : spc }.

Record server := {
  connections : gmap string nat; connWriteMu : gset string; pending : gmap string pendingResult;
  workerTags : gmap string (list string); seenMessages : gmap string Z;
  chans : gmap nat CommandResult; closed : gset nat; wire : list (nat * message);
  sessions : list session; dispatches : list dispatch; callbacks : list callback;
  log : rows; auth : store }.

Definition set_maps (cs : gmap string nat) (mu : gset string) (tags : gmap string (list string)) (s : server) : server :=
  {| connections := cs; connWriteMu := mu; pending := pending s; workerTags := tags; seenMessages := seenMessages s;
     chans := chans s; closed := closed s; wire := wire s; sessions := sessions s; dispatches := dispatches s;
     callbacks := callbacks s; log := log s; auth := auth s |}.
Definition set_pending (p : gmap string pendingResult) (s : server) : server :=
  {| connections := connections s; connWriteMu := connWriteMu s; pending := p; workerTags := workerTags s;
     seenMessages := seenMessages s; chans := chans s; closed := closed s; wire := wire s; sessions := sessions s;
     dispatches := dispatches s; callbacks := callbacks s; log := log s; auth := auth s |}.
Definition set_seen (m : gmap string Z) (s : server) : server :=
  {| connections := connections s; connWriteMu := connWriteMu s; pending := pending s; workerTags := workerTags s;
     seenMessages := m; chans := chans s; closed := closed s; wire := wire s; sessions := sessions s;
     dispatches := dispatches s; callbacks := callbacks s; log := log s; auth := auth s |}.
Definition set_chans (c : gmap nat CommandResult) (s : server) : server :=
  {| connections := connections s; connWriteMu := connWriteMu s; pending := pending s; workerTags := workerTags s;
     seenMessages := seenMessages s; chans := c; closed := closed s; wire := wire s; sessions := sessions s;
     dispatches := dispatches s; callbacks := callbacks s; log := log s; auth := auth s |}.
Definition set_net (c : gset nat) (w : list (nat * message)) (s : server) : server :=
  {| connections := connections s; connWriteMu := connWriteMu s; pending := pending s; workerTags := workerTags s;
     seenMessages := seenMessages s; chans := chans s; closed := c; wire := w; sessions := sessions s;
     dispatches := dispatches s; callbacks := callbacks s; log := log s; auth := auth s |}.
Definition set_threads (ss : list session) (ds : list dispatch) (s : server) : server :=
  {| connections := connections s; connWriteMu := connWriteMu s; pending := pending s; workerTags := workerTags s;
     seenMessages := seenMessages s; chans := chans s; closed := closed s; wire := wire s; sessions := ss;
     dispatches := ds; callbacks := callbacks s; log := log s; auth := auth s |}.
Definition set_world (cb : list callback) (l : rows) (a : store) (s : server) : server :=
  {| connections := connections s; connWriteMu := connWriteMu s; pending := pending s; workerTags := workerTags s;
     seenMessages := seenMessages s; chans := chans s; closed := closed s; wire := wire s; sessions := sessions s;
     dispatches := dispatches s; callbacks := cb; log := l; auth := a |}.

Definition set_log (l : rows) (s : server) : server := set_world (callbacks s) l (auth s) s.
Definition set_auth (a : store) (s : server) : server := set_world (callbacks s) (log s) a s.
Definition call_back (cb : callback) (s : server) : server := set_world (callbacks s ++ [cb]) (log s) (auth s) s.

Definition at_session (k : nat) (p : spc) (s : server) : server :=
  set_threads (alter (λ x, {| s_worker := s_worker x; s_pc := p |}) k (sessions s)) (dispatches s) s.
Definition at_dispatch (i : nat) (p : dpc) (s : server) : server :=
  set_threads (sessions s) (alter (λ x, {| d_worker := d_worker x; d_cmd := d_cmd x; d_user := d_user x;
    d_deadline := d_deadline x; d_dpc := p |}) i (dispatches s)) s.

(** ** Connections *)
Definition close_conn (k : nat) (s : server) : server := set_net ({[k]} ∪ closed s) (wire s) s.

(** A write to a connection that was closed fails. *)
Definition write (k : nat) (ok : bool) (m : message) (s : server) : bool * server :=
  if ok && bool_decide (k ∉ closed s) then (true, set_net (closed s) (wire s ++ [(k, m)]) s) else (false, s).

Definition IsConnected (w : string) (s : server) : bool := bool_decide (is_Some (connections s !! w)).

Definition SetWorkerTags (w : string) (tags : list string) (s : server) : server :=
  set_maps (connections s) (connWriteMu s) (<[w := tags]> (workerTags s)) s.
Definition ClearWorkerTags (w : string) (s : server) : server :=
  set_maps (connections s) (connWriteMu s) (delete w (workerTags s)) s.

(** Taking a connection out of the maps, closed. *)
Definition drop_conn (w : string) (k : nat) (s : server) : server :=
  call_back (OnDisconnect w)
    (set_maps (delete w (connections s)) (connWriteMu s ∖ {[w]}) (delete w (workerTags s)) (close_conn k s)).

Definition DisconnectWorker (w : string) (ok : bool) (s : server) : server :=
  match connections s !! w with
  | Some k => drop_conn w k (write k ok (CloseFrame "worker revoked") s).2
  | None => ClearWorkerTags w s
  end.

Definition SendMessage (w : string) (m : message) (ok : bool) (s : server) : server :=
  match connections s !! w with Some k => (write k ok m s).2 | None => s end.

Definition SendAck (w messageID : string) (ok : bool) (s : server) : server :=
  if decide (TrimSpace messageID = "") then s else SendMessage w (AckMessage messageID) ok s.

Definition day : Z := 24 * hour.

Definition isDuplicateMessage (w messageID : string) (now : Z) (s : server) : bool * server :=
  if decide (TrimSpace messageID = "") then (false, s)
  else
    let key := w +:+ ":" +:+ messageID in
    let seen := filter (λ ka : string * Z, ¬ (day < now - ka.2)%Z) (seenMessages s) in
    match seen !! key with
    | Some _ => (true, set_seen seen s)
    | None => (false, set_seen (<[key := now]> seen) s)
    end.

Definition TerminalOpenSessionIDFromCommandID (commandID : string) : option string :=
  match strip_prefix "terminal-open-" commandID with Some "" | None => None | Some id => Some id end.

(** ** Dispatch *)
Definition durable (cmd : command) : bool :=
  match message_type cmd with inl ty => isDurableCommand ty | inr _ => false end.

(** The call reads the connection of the worker. *)
Definition Dispatch (w : string) (cmd : command) (user : string) (deadline : bool) (s : server) : server :=
  set_threads (sessions s) (dispatches s ++ [{| d_worker := w; d_cmd := cmd; d_user := user; d_deadline := deadline;
    d_dpc := DLooked (connections s !! w) |}]) s.

(** It classifies the command and registers it as waiting. *)
Definition dispatch_register (i : nat) (d : dispatch) (mid : string) (s : server) : option server :=
  match d_dpc d with
  | DLooked conn =>
      match message_type (d_cmd d) with
      | inr e => Some (at_dispatch i (DDone (inr e)) s)
      | inl ty =>
          if negb (isDurableCommand ty) && bool_decide (conn = None) then
            Some (at_dispatch i (DDone (inr (NotConnected (d_worker d)))) s)
          else
            let pr := {| p_ch := i; p_worker := d_worker d; p_type := ty; p_command := c_id (d_cmd d); p_cmd := d_cmd d |} in
            Some (at_dispatch i (DRegistered conn mid) (set_pending (<[c_id (d_cmd d) := pr]> (pending s)) s))
      end
  | _ => None
  end.

Definition type_of (cmd : command) : string := match message_type cmd with inl ty => ty | inr _ => "" end.

Definition queue_row (c : log_calls) (d : dispatch) (s : server) : server :=
  set_log (LogCommandQueued c (d_user d) (d_worker d) (c_id (d_cmd d)) (c_id (d_cmd d)) (type_of (d_cmd d))
    (Some (command_value (d_cmd d))) (l_now c) (log s)).2 s.

(** It logs the command as queued when the worker was offline, as dispatched
    otherwise. *)
Definition dispatch_log (i : nat) (d : dispatch) (c : log_calls) (s : server) : option server :=
  match d_dpc d with
  | DRegistered None _ => Some (at_dispatch i DWaiting (queue_row c d s))
  | DRegistered (Some k) mid =>
      Some (at_dispatch i (DLogged k mid)
        (set_log (LogCommandDispatch c (d_user d) (d_worker d) (c_id (d_cmd d)) (c_id (d_cmd d)) mid
           (type_of (d_cmd d)) (Some (command_value (d_cmd d))) (log s)).2 s))
  | _ => None
  end.

(** It writes the command; [marshal] is the text of an encoding error. *)
Definition dispatch_write (i : nat) (d : dispatch) (marshal : option string) (ok : bool) (text : string) (s : server)
  : option server :=
  match d_dpc d with
  | DLogged k mid =>
      match marshal with
      | Some err => Some (at_dispatch i (DFailing "error" (MarshalFailed err)) s)
      | None =>
          let (sent, s) := write k ok (Command (type_of (d_cmd d)) (withDispatchMessageID (d_cmd d) mid)) s in
          Some (at_dispatch i (if sent then DWaiting
                               else if durable (d_cmd d) then DUnsent
                               else DFailing "error" (SendFailed (d_worker d) text)) s)
      end
  | _ => None
  end.

(** A durable command that could not be written waits for a reconnection. *)
Definition dispatch_requeue (i : nat) (d : dispatch) (c : log_calls) (s : server) : option server :=
  match d_dpc d with DUnsent => Some (at_dispatch i DWaiting (queue_row c d s)) | _ => None end.

Definition dispatch_receive (i : nat) (d : dispatch) (s : server) : option server :=
  match d_dpc d, chans s !! i with
  | DWaiting, Some r => Some (at_dispatch i (DGot r) (set_chans (delete i (chans s)) s))
  | _, _ => None
  end.

(** The context ends, or the fallback timer of a context without deadline. *)
Definition dispatch_interrupt (i : nat) (d : dispatch) (e : dispatch_error) (s : server) : option server :=
  match d_dpc d, e, d_deadline d with
  | DWaiting, Canceled, _ | DWaiting, DeadlineExceeded, true => Some (at_dispatch i (DInterrupted e) s)
  | DWaiting, TimedOut w c, false =>
      if bool_decide (w = d_worker d) && bool_decide (c = c_id (d_cmd d)) then Some (at_dispatch i (DInterrupted e) s) else None
  | _, _, _ => None
  end.

Definition finish_status (e : dispatch_error) : string :=
  match e with Canceled => "cancelled" | DeadlineExceeded | TimedOut _ _ => "timed_out" | _ => "error" end.

Definition dispatch_cancel (i : nat) (d : dispatch) (ok : bool) (s : server) : option server :=
  match d_dpc d with
  | DInterrupted e =>
      Some (at_dispatch i (DFailing (finish_status e) e)
        (SendMessage (d_worker d) (CancelCommand ("cancel-" +:+ c_id (d_cmd d)) (c_id (d_cmd d))) ok s))
  | _ => None
  end.

(** It logs the outcome. *)
Definition dispatch_finish (i : nat) (d : dispatch) (c : log_calls) (ms : Z) (s : server) : option server :=
  let finish st v := set_log (LogCommandFinish c (c_id (d_cmd d)) st (Some v) ms (log s)).2 s in
  match d_dpc d with
  | DFailing st e => Some (at_dispatch i (DReturning (inr e)) (finish st (error_value e)))
  | DGot r => Some (at_dispatch i (DReturning (inl r))
                (finish (if decide (Error r = "") then "success" else "error") (result_value r)))
  | _ => None
  end.

(** The deferred removal of the waiting entry, and the return. *)
Definition dispatch_return (i : nat) (d : dispatch) (s : server) : option server :=
  match d_dpc d with
  | DReturning o => Some (at_dispatch i (DDone o) (set_pending (delete (c_id (d_cmd d)) (pending s)) s))
  | _ => None
  end.

(** ** Sessions *)
Section sessions.
Context (HashToken : string → string).

(** [handleWebSocket] up to the upgrade of the request. *)
Definition session_open (c : calls) (token : string) (upgraded : bool) (s : server) : server :=
  match ActivateToken HashToken c token "" (auth s) with
  | (inr _, a) => set_auth a s
  | (inl (record, _), a) =>
      if decide (GetString "status" record = "REVOKED") then set_auth a s
      else
        let s := set_auth (UpdateLastSeen c (Id record) a).2 s in
        if upgraded then set_threads (sessions s ++ [{| s_worker := Id record; s_pc := SUpgraded |}]) (dispatches s) s else s
  end.

Definition handleRegister (c : calls) (saved : bool) (token hostname : string) (tags : list string) (s : server) : server :=
  match ActivateToken HashToken c token hostname (auth s) with
  | (inr _, a) => set_auth a s
  | (inl (record, tokenRecord), a) =>
      if decide (GetString "status" record = "REVOKED") then set_auth a s
      else if negb saved then set_auth a s
      else
        let record := SetStr "fingerprint" ("remote:" +:+ Id tokenRecord) (SetStr "hostname" hostname record) in
        let a := set_workers (upsert record (workers a)) a in
        SetWorkerTags (Id record) tags (set_auth (UpdateLastSeen c (Id record) a).2 s)
  end.

(** The new connection replaces the one in the map, which is closed. *)
Definition session_register (k : nat) (x : session) (s : server) : option server :=
  match s_pc x with
  | SUpgraded =>
      let w := s_worker x in
      let s := match connections s !! w with Some old => close_conn old s | None => s end in
      Some (at_session k SRegistered (set_maps (<[w := k]> (connections s)) ({[w]} ∪ connWriteMu s) (workerTags s) s))
  | _ => None
  end.

(** The lookup of the write lock for the resending, outside the lock of the maps. *)
Definition session_online (k : nat) (x : session) (c : calls) (s : server) : option server :=
  match s_pc x with
  | SRegistered =>
      let s := set_auth (RecordHealthEvent c (s_worker x) "online" (auth s)).2 s in
      Some (at_session k (SLocked (bool_decide (s_worker x ∈ connWriteMu s))) s)
  | _ => None
  end.

(** The commands waiting for a worker, by id. *)
Definition waiting_for (w : string) (s : server) : gmap string pendingResult :=
  filter (λ kp : string * pendingResult, p_worker kp.2 = w) (pending s).

(** [replayPendingOnReconnect]: the snapshot, in the order of the iteration
    over the map. *)
Definition session_snapshot (k : nat) (x : session) (order : list string) (s : server) : option server :=
  match s_pc x with
  | SLocked mu =>
      let m := waiting_for (s_worker x) s in
      if bool_decide (NoDup order) && bool_decide (list_to_set order =@{gset string} dom m) then
        Some (at_session k (SReplay mu (omap (λ id, m !! id) order)) s)
      else None
  | _ => None
  end.

Definition session_replay (k : nat) (x : session) (mid : string) (marshal : bool) (c : log_calls) (ok : bool) (s : server)
  : option server :=
  match s_pc x with
  | SReplay mu (pr :: todo) =>
      if negb marshal then Some (at_session k (SReplay mu todo) s)
      else
        let s := set_log (LogCommandDispatch c "" (s_worker x) (p_command pr) (p_command pr) mid (p_type pr)
                   (Some (command_value (withDispatchMessageID (p_cmd pr) mid))) (log s)).2 s in
        if mu then Some (at_session k (SReplay mu todo) (write k ok (envelope pr mid) s).2)
        else Some (at_session k SBroken s)
  | _ => None
  end.

Definition session_serve (k : nat) (x : session) (s : server) : option server :=
  match s_pc x with
  | SReplay _ [] => Some (at_session k SReading (call_back (OnConnect (s_worker x)) s))
  | _ => None
  end.

Inductive inbound :=
| InAck (mid : string)
| InHeartbeat (active : list string)
| InJobCompleted (mid run : string)
| InResult (mid : string) (r : CommandResult)
| InMetrics (commandID metrics : string)
| InOther.

(** One message of the read loop. *)
Definition session_message (k : nat) (x : session) (c : calls) (lc : log_calls) (m : inbound) (s : server) : option server :=
  match s_pc x with
  | SReading =>
      let w := s_worker x in
      let s := set_auth (UpdateLastSeen c w (auth s)).2 s in
      Some match m with
      | InAck mid => set_log (LogCommandAck lc mid (log s)).2 s
      | InHeartbeat active => call_back (OnHeartbeat w active) (set_auth (RecordHealthEvent c w "online" (auth s)).2 s)
      | InJobCompleted mid run =>
          let (dup, s) := if decide (mid = "") then (false, s) else isDuplicateMessage w mid (now c) s in
          at_session k (SAck mid (if dup then None else Some (OnJobCompleted mid run))) s
      | InResult mid r =>
          let (dup, s) := if decide (mid = "") then (false, s) else isDuplicateMessage w mid (now c) s in
          at_session k (if dup then SAck mid None else SDeliver mid r) s
      | InMetrics id metrics =>
          match pending s !! id with
          | Some pr => at_session k (SSend pr None {| CommandID := id; Output := metrics; Error := "" |}) s
          | None => s
          end
      | InOther => s
      end
  | _ => None
  end.

(** A result finds the command that waits under its id. *)
Definition session_deliver (k : nat) (x : session) (s : server) : option server :=
  match s_pc x with
  | SDeliver mid r =>
      match pending s !! CommandID r with
      | Some pr => Some (at_session k (SSend pr (Some mid) r) s)
      | None =>
          let s := match TerminalOpenSessionIDFromCommandID (CommandID r) with
                   | Some id => call_back (OnTerminalOpenRejected id (Error r)) s
                   | None => s
                   end in
          Some (at_session k (SAck mid None) s)
      end
  | _ => None
  end.

(** The non-blocking send to its channel, of capacity one. *)
Definition session_send (k : nat) (x : session) (s : server) : option server :=
  match s_pc x with
  | SSend pr mid r =>
      let s := match chans s !! p_ch pr with None => set_chans (<[p_ch pr := r]> (chans s)) s | Some _ => s end in
      Some (at_session k (match mid with Some mid => SAck mid None | None => SReading end) s)
  | _ => None
  end.

Definition session_ack (k : nat) (x : session) (ok : bool) (s : server) : option server :=
  match s_pc x with
  | SAck mid after =>
      let s := SendAck (s_worker x) mid ok s in
      Some (at_session k SReading (match after with Some cb => call_back cb s | None => s end))
  | _ => None
  end.

Definition session_lost (k : nat) (x : session) (c : calls) (s : server) : option server :=
  match s_pc x with
  | SReading => Some (at_session k SBroken (set_auth (RecordHealthEvent c (s_worker x) "offline" (auth s)).2 s))
  | _ => None
  end.

(** The deferred cleanup leaves a newer connection of the worker alone. *)
Definition session_cleanup (k : nat) (x : session) (s : server) : option server :=
  match s_pc x with
  | SBroken =>
      Some (at_session k SClosed
        (if decide (connections s !! s_worker x = Some k) then drop_conn (s_worker x) k s else close_conn k s))
  | _ => None
  end.

(** ** Steps *)
Inductive action :=
| ADispatch (w : string) (cmd : command) (user : string) (deadline : bool)
| ADRegister (i : nat) (mid : string)
| ADLog (i : nat) (c : log_calls)
| ADWrite (i : nat) (marshal : option string) (ok : bool) (text : string)
| ADRequeue (i : nat) (c : log_calls)
| ADReceive (i : nat)
| ADInterrupt (i : nat) (e : dispatch_error)
| ADCancel (i : nat) (ok : bool)
| ADFinish (i : nat) (c : log_calls) (ms : Z)
| ADReturn (i : nat)
| AOpen (c : calls) (token : string) (upgraded : bool)
| ATags (c : calls) (saved : bool) (token hostname : string) (tags : list string)
| ASRegister (k : nat)
| ASOnline (k : nat) (c : calls)
| ASSnapshot (k : nat) (order : list string)
| ASReplay (k : nat) (mid : string) (marshal : bool) (c : log_calls) (ok : bool)
| ASServe (k : nat)
| ASMessage (k : nat) (c : calls) (lc : log_calls) (m : inbound)
| ASDeliver (k : nat)
| ASSend (k : nat)
| ASAck (k : nat) (ok : bool)
| ASLost (k : nat) (c : calls)
| ASCleanup (k : nat)
| ADisconnect (w : string) (ok : bool)
| AToken (c : calls) (o : token_op).

Definition step (a : action) (s : server) : option server :=
  match a with
  | ADispatch w cmd user deadline => Some (Dispatch w cmd user deadline s)
  | ADRegister i mid => d ← dispatches s !! i; dispatch_register i d mid s
  | ADLog i c => d ← dispatches s !! i; dispatch_log i d c s
  | ADWrite i marshal ok text => d ← dispatches s !! i; dispatch_write i d marshal ok text s
  | ADRequeue i c => d ← dispatches s !! i; dispatch_requeue i d c s
  | ADReceive i => d ← dispatches s !! i; dispatch_receive i d s
  | ADInterrupt i e => d ← dispatches s !! i; dispatch_interrupt i d e s
  | ADCancel i ok => d ← dispatches s !! i; dispatch_cancel i d ok s
  | ADFinish i c ms => d ← dispatches s !! i; dispatch_finish i d c ms s
  | ADReturn i => d ← dispatches s !! i; dispatch_return i d s
  | AOpen c token upgraded => Some (session_open c token upgraded s)
  | ATags c saved token hostname tags => Some (handleRegister c saved token hostname tags s)
  | ASRegister k => x ← sessions s !! k; session_register k x s
  | ASOnline k c => x ← sessions s !! k; session_online k x c s
  | ASSnapshot k order => x ← sessions s !! k; session_snapshot k x order s
  | ASReplay k mid marshal c ok => x ← sessions s !! k; session_replay k x mid marshal c ok s
  | ASServe k => x ← sessions s !! k; session_serve k x s
  | ASMessage k c lc m => x ← sessions s !! k; session_message k x c lc m s
  | ASDeliver k => x ← sessions s !! k; session_deliver k x s
  | ASSend k => x ← sessions s !! k; session_send k x s
  | ASAck k ok => x ← sessions s !! k; session_ack k x ok s
  | ASLost k c => x ← sessions s !! k; session_lost k x c s
  | ASCleanup k => x ← sessions s !! k; session_cleanup k x s
  | ADisconnect w ok => Some (DisconnectWorker w ok s)
  | AToken c o => Some (set_auth (run_op HashToken c o (auth s)) s)
  end.

Fixpoint run (acts : list action) (s : server) : option server :=
  match acts with [] => Some s | a :: acts => s' ← step a s; run acts s' end.

Definition started_server (a : store) : server :=
  {| connections := ∅; connWriteMu := ∅; pending := ∅; workerTags := ∅; seenMessages := ∅; chans := ∅; closed := ∅;
     wire := []; sessions := []; dispatches := []; callbacks := []; log := []; auth := a |}.

Definition reachable_server (s : server) : Prop := ∃ a acts, run acts (started_server a) = Some s.
End sessions.
