(* ===== verification/WorkerServerSpec.v ===== *)
(** * The worker server: what its interleavings keep

    Invariants of every reachable state of [WorkerServer]: one open connection per
    worker, and commands and results that reach only those they are for; that an
    undisturbed reconnection resends what waits; and four runs that show where the
    code falls short of its comments. *)
From Stdlib Require Import ZArith.
From S2P Require Import Prelude GoStrings GoPath GoFmt GoValue ComposeDoc PbRecord PbTable.
From S2P Require Import DurableCommands WorkerTokens WorkerCommands WorkerServer.

(** ** Connections *)

(** The session is in the part of its life in which it may be in the map. *)
Definition registered (p : spc) : bool := match p with SUpgraded | SClosed => false | _ => true end.

Record conn_inv (s : server) : Prop := {
  ci_reg w k : connections s !! w = Some k →
    ∃ x, sessions s !! k = Some x ∧ s_worker x = w ∧ registered (s_pc x) = true ∧ k ∉ closed s;
  ci_open k x : sessions s !! k = Some x → registered (s_pc x) = true → k ∉ closed s →
    connections s !! s_worker x = Some k;
  ci_fresh k x : sessions s !! k = Some x → s_pc x = SUpgraded → k ∉ closed s;
  ci_bound k : k ∈ closed s → k < length (sessions s);
  ci_mu : connWriteMu s = dom (connections s) }.

(** The parts of the state the invariant is about. *)
Definition same_conns (s s' : server) : Prop :=
  connections s' = connections s ∧ connWriteMu s' = connWriteMu s ∧ closed s' = closed s ∧ sessions s' = sessions s.

Lemma same_conns_inv s s' : same_conns s s' → conn_inv s → conn_inv s'.
Proof. intros (H1 & H2 & H3 & H4) [C1 C2 C3 C4 C5]. split; rewrite ?H1 ?H2 ?H3 ?H4; auto. Qed.

Lemma same_conns_refl s : same_conns s s.
Proof. done. Qed.

Lemma same_conns_write k ok m s : same_conns s (write k ok m s).2.
Proof. unfold write. by destruct (ok && _). Qed.

Lemma same_conns_written k ok m s s1 : same_conns s s1 → same_conns s (write k ok m s1).2.
Proof. intros (H1 & H2 & H3 & H4). unfold write. by destruct (ok && _). Qed.

Lemma same_conns_send w m ok s : same_conns s (SendMessage w m ok s).
Proof. unfold SendMessage. destruct (connections s !! w); [apply same_conns_write|done]. Qed.

Lemma same_conns_ack w mid ok s : same_conns s (SendAck w mid ok s).
Proof. unfold SendAck. case_decide; [done|apply same_conns_send]. Qed.

Lemma same_conns_dup w mid t s : same_conns s (isDuplicateMessage w mid t s).2.
Proof. unfold isDuplicateMessage. case_decide; [done|]. cbv zeta. by destruct (_ !! _). Qed.

(** A session after the step of session [k]. *)
Lemma at_session_lookup k p s j x : sessions (at_session k p s) !! j = Some x →
  ∃ y, sessions s !! j = Some y ∧ s_worker x = s_worker y ∧ s_pc x = if decide (k = j) then p else s_pc y.
Proof.
  cbn. rewrite list_lookup_alter. case_decide as Hk; [|eauto].
  subst j. destruct (sessions s !! k) as [y|]; simpl; [|done]. intros [= <-]. eauto.
Qed.

Lemma at_session_length k p s : length (sessions (at_session k p s)) = length (sessions s).
Proof. cbn. apply length_alter. Qed.

Lemma at_session_eq k x p s : sessions s !! k = Some x →
  sessions (at_session k p s) !! k = Some {| s_worker := s_worker x; s_pc := p |}.
Proof. intros Hx. cbn. by rewrite list_lookup_alter_eq Hx. Qed.

Lemma at_session_ne k j p s : k ≠ j → sessions (at_session k p s) !! j = sessions s !! j.
Proof. intros Hne. cbn. by rewrite list_lookup_alter_ne. Qed.

(** A step of a session inside that part of its life. *)
Lemma conn_inv_move k x p s : sessions s !! k = Some x → registered (s_pc x) = true → registered p = true →
  conn_inv s → conn_inv (at_session k p s).
Proof.
  intros Hx Hr Hp [C1 C2 C3 C4 C5]. split; [|..|done].
  - intros w j Hj. destruct (C1 w j Hj) as (y & Hy & Hw & Hry & Hc). destruct (decide (k = j)) as [<-|Hne].
    + assert (y = x) as -> by congruence. rewrite (at_session_eq _ x) //. by eexists.
    + rewrite at_session_ne //. by exists y.
  - intros j y (z & Hz & Hw & Hpc)%at_session_lookup Hry Hc. rewrite Hw. apply C2; [done| |done].
    rewrite Hpc in Hry. case_decide; [congruence|done].
  - intros j y (z & Hz & Hw & Hpc)%at_session_lookup Hu. rewrite Hu in Hpc. case_decide; [by subst p|]. by eapply C3.
  - intros j Hj. rewrite at_session_length. by apply C4.
Qed.

Lemma conn_inv_step k x p s s' : same_conns s s' → sessions s !! k = Some x → registered (s_pc x) = true →
  registered p = true → conn_inv s → conn_inv (at_session k p s').
Proof.
  intros Hs Hx Hr Hp Hi. apply (conn_inv_move k x); [|done..|by eapply same_conns_inv].
  by destruct Hs as (_ & _ & _ & ->).
Qed.

(** Taking the connection of a worker out of the map and closing it. *)
Lemma conn_inv_drop w k s : connections s !! w = Some k → conn_inv s → conn_inv (drop_conn w k s).
Proof.
  intros Hk [C1 C2 C3 C4 C5]. split; cbn.
  - intros w' j [Hne Hj]%lookup_delete_Some. destruct (C1 w' j Hj) as (y & Hy & Hw & Hry & Hc). exists y. split_and!; [done..|].
    rewrite not_elem_of_union not_elem_of_singleton. split; [|done]. intros ->.
    destruct (C1 w k Hk) as (z & Hz & Hwz & _). congruence.
  - intros j y Hy Hr [Hj Hc]%not_elem_of_union. apply lookup_delete_Some. split; [|by apply C2].
    intros ->. rewrite not_elem_of_singleton in Hj. pose proof (C2 j y Hy Hr Hc) as H1. congruence.
  - intros j y Hy Hu. rewrite not_elem_of_union not_elem_of_singleton. split; [|by eapply C3]. intros ->.
    destruct (C1 w k Hk) as (z & Hz & _ & Hr & _). rewrite Hy in Hz. injection Hz as ->. by rewrite Hu in Hr.
  - intros j [->%elem_of_singleton|Hj]%elem_of_union; [|by apply C4].
    destruct (C1 w k Hk) as (z & Hz & _). by apply lookup_lt_is_Some_1; eexists.
  - rewrite C5 dom_delete_L. done.
Qed.

(** Closing a connection that is not in the map. *)
Lemma conn_inv_close k x s : sessions s !! k = Some x → registered (s_pc x) = true → connections s !! s_worker x ≠ Some k →
  conn_inv s → conn_inv (close_conn k s).
Proof.
  intros Hx Hr Hn [C1 C2 C3 C4 C5]. split; cbn; [| | | |done].
  - intros w j Hj. destruct (C1 w j Hj) as (y & Hy & Hw & Hry & Hc). exists y. split_and!; [done..|].
    rewrite not_elem_of_union not_elem_of_singleton. split; [|done]. intros ->. congruence.
  - intros j y Hy Hry [_ Hc]%not_elem_of_union. by apply C2.
  - intros j y Hy Hu. rewrite not_elem_of_union not_elem_of_singleton. split; [|by eapply C3]. intros ->.
    rewrite Hx in Hy. injection Hy as ->. by rewrite Hu in Hr.
  - intros j [->%elem_of_singleton|Hj]%elem_of_union; [|by apply C4]. by apply lookup_lt_is_Some_1; eexists.
Qed.

(** A session that leaves, its connection closed and out of the map. *)
Lemma conn_inv_leave k x s : sessions s !! k = Some x → k ∈ closed s → conn_inv s → conn_inv (at_session k SClosed s).
Proof.
  intros Hx Hk [C1 C2 C3 C4 C5]. split; [|..|done].
  - intros w j Hj. destruct (C1 w j Hj) as (y & Hy & Hw & Hry & Hc). exists y. rewrite at_session_ne //.
    intros ->. by apply Hc.
  - intros j y (z & Hz & Hw & Hpc)%at_session_lookup Hry Hc. rewrite Hw. apply C2; [done| |done].
    rewrite Hpc in Hry. case_decide; [done|done].
  - intros j y (z & Hz & Hw & Hpc)%at_session_lookup Hu. rewrite Hu in Hpc. case_decide; [done|]. by eapply C3.
  - intros j Hj. rewrite at_session_length. by apply C4.
Qed.

Lemma conn_inv_register k x s s' : sessions s !! k = Some x → session_register k x s = Some s' → conn_inv s → conn_inv s'.
Proof.
  intros Hx Hs Hi. unfold session_register in Hs. destruct (s_pc x) eqn:Hpc; try done. injection Hs as <-.
  pose proof Hi as [C1 C2 C3 C4 C5]. set (w := s_worker x).
  assert (k ∉ closed s) as Hk by (by eapply C3).
  set (s1 := match connections s !! w with Some old => close_conn old s | None => s end).
  assert (sessions s1 = sessions s ∧ connections s1 = connections s ∧ connWriteMu s1 = connWriteMu s ∧ k ∉ closed s1) as (E1 & E2 & E3 & E4).
  { unfold s1. destruct (connections s !! w) as [old|] eqn:Ho; [|done]. split_and!; [done..|]. cbn.
    rewrite not_elem_of_union not_elem_of_singleton. split; [|done]. intros ->.
    destruct (C1 w old Ho) as (z & Hz & _ & Hr & _). rewrite Hx in Hz. injection Hz as ->. by rewrite Hpc in Hr. }
  assert (∀ j, j ∈ closed s1 ↔ j ∈ closed s ∨ connections s !! w = Some j) as E5.
  { intros j. unfold s1. destruct (connections s !! w) as [old|]; cbn; [set_solver|]. naive_solver. }
  split.
  - cbn. rewrite E2. intros w' j [[<- <-]|[Hne Hj]]%lookup_insert_Some.
    + exists {| s_worker := w; s_pc := SRegistered |}. split; [|done]. rewrite list_lookup_alter_eq E1 Hx. done.
    + destruct (C1 w' j Hj) as (y & Hy & Hw & Hry & Hc).
      assert (k ≠ j) as Hkj by (intros ->; rewrite Hx in Hy; injection Hy as ->; by rewrite Hpc in Hry).
      exists y. rewrite list_lookup_alter_ne // E1. split_and!; [done..|]. rewrite E5. intros [?|Hw']; [done|].
      destruct (C1 w j Hw') as (z & Hz & Hwz & _). congruence.
  - intros j y (z & Hz & Hw & Hp)%at_session_lookup Hry Hc. cbn in Hz, Hc |- *. rewrite E1 in Hz. rewrite E2.
    destruct (decide (k = j)) as [<-|Hne].
    + rewrite Hx in Hz. injection Hz as <-. rewrite Hw. apply lookup_insert_eq.
    + assert (j ∉ closed s ∧ connections s !! w ≠ Some j) as [Hc1 Hc2]
        by (rewrite E5 in Hc; tauto).
      assert (connections s !! s_worker y = Some j) as Hj by (rewrite Hw; apply C2; [done|by rewrite -Hp|done]).
      rewrite lookup_insert_ne //. intros He. apply Hc2. rewrite -Hj. by f_equal.
  - intros j y (z & Hz & Hw & Hp)%at_session_lookup Hu. cbn in Hz |- *. rewrite E1 in Hz. rewrite E5.
    rewrite Hu in Hp. case_decide; [done|]. intros [Hc|Hc]; [by eapply C3|].
    destruct (C1 w j Hc) as (z' & Hz' & _ & Hr & _). rewrite Hz in Hz'. injection Hz' as ->. by rewrite -Hp in Hr.
  - intros j. rewrite at_session_length. cbn. rewrite E1 E5. intros [Hc|Hc]; [by apply C4|].
    destruct (C1 w j Hc) as (z & Hz & _). by apply lookup_lt_is_Some_1; eexists.
  - cbn. rewrite E2 E3 C5 dom_insert_L. done.
Qed.

Section server.
Context (HashToken : string → string).

Lemma same_conns_auth a s : same_conns s (set_auth a s).
Proof. done. Qed.

Lemma conn_inv_open c token up s : conn_inv s → conn_inv (session_open HashToken c token up s).
Proof.
  intros Hi. unfold session_open. destruct (ActivateToken _ _ _ _ _) as [[[record tr]|err] a];
    [|by apply (same_conns_inv s)]. case_decide; [by apply (same_conns_inv s)|]. destruct up; [|by apply (same_conns_inv s)].
  destruct Hi as [C1 C2 C3 C4 C5]. split; cbn; [| | | |done].
  - intros w k Hk. destruct (C1 w k Hk) as (x & Hx & Hr). exists x. split; [|done]. by apply lookup_app_l_Some.
  - intros k x [Hx|[Hl Hx]]%lookup_app_Some Hr Hc; [by apply C2|].
    apply list_lookup_singleton_Some in Hx as [_ <-]. done.
  - intros k x [Hx|[Hl Hx]]%lookup_app_Some Hr Hc; [by eapply C3|]. apply C4 in Hc. lia.
  - intros k Hk%C4. rewrite length_app. lia.
Qed.

Lemma conn_inv_cleanup k x s s' : sessions s !! k = Some x → session_cleanup k x s = Some s' → conn_inv s → conn_inv s'.
Proof.
  intros Hx Hs Hi. unfold session_cleanup in Hs. destruct (s_pc x) eqn:Hpc; try done. injection Hs as <-.
  case_decide as Hk; eapply (conn_inv_leave k x); cbn; try done; [set_solver|by apply conn_inv_drop|set_solver|].
  apply (conn_inv_close k x); [done|by rewrite Hpc|done..].
Qed.

(** The steps of a dispatch leave the connections alone. *)
Definition dispatch_action (a : action) : bool :=
  match a with
  | ADispatch _ _ _ _ | ADRegister _ _ | ADLog _ _ | ADWrite _ _ _ _ | ADRequeue _ _ | ADReceive _ | ADInterrupt _ _
  | ADCancel _ _ | ADFinish _ _ _ | ADReturn _ => true
  | _ => false
  end.

Lemma dispatch_conns a s s' : dispatch_action a = true → step HashToken a s = Some s' → same_conns s s'.
Proof.
  intros Ha Hs. destruct a; try done; cbn [step] in Hs; [by injection Hs as <-|..];
    apply bind_Some in Hs as (d & _ & Hs).
  - unfold dispatch_register in Hs. by repeat case_match; simplify_eq.
  - unfold dispatch_log in Hs. by repeat case_match; simplify_eq.
  - unfold dispatch_write in Hs. destruct (d_dpc d) as [| |conn mid'| | | | | | |]; try done.
    destruct marshal; [by simplify_eq|].
    pose proof (same_conns_write conn ok (Command (type_of (d_cmd d)) (withDispatchMessageID (d_cmd d) mid')) s).
    destruct (write _ _ _ _) as [sent s1]. by simplify_eq.
  - unfold dispatch_requeue in Hs. by repeat case_match; simplify_eq.
  - unfold dispatch_receive in Hs. by repeat case_match; simplify_eq.
  - unfold dispatch_interrupt in Hs. by repeat case_match; simplify_eq.
  - unfold dispatch_cancel in Hs. destruct (d_dpc d); simplify_eq.
    apply (same_conns_send (d_worker d) (CancelCommand ("cancel-" +:+ c_id (d_cmd d)) (c_id (d_cmd d))) ok s).
  - unfold dispatch_finish in Hs. by repeat case_match; simplify_eq.
  - unfold dispatch_return in Hs. by repeat case_match; simplify_eq.
Qed.

(** The other steps of a session move it along inside its life. *)
Definition session_action (a : action) : option nat :=
  match a with
  | ASOnline k _ | ASSnapshot k _ | ASReplay k _ _ _ _ | ASServe k | ASMessage k _ _ _ | ASDeliver k | ASSend k
  | ASAck k _ | ASLost k _ => Some k
  | _ => None
  end.

Ltac moves := right; eexists; split; [|reflexivity]; done.

Lemma message_conns k x c lc m s s' : session_message k x c lc m s = Some s' →
  ∃ s1, same_conns s s1 ∧ (s' = s1 ∨ ∃ p, registered p = true ∧ s' = at_session k p s1).
Proof.
  unfold session_message. destruct (s_pc x); try done. cbv zeta. intros [= <-]. set (s0 := set_auth _ s).
  assert (∀ mid, same_conns s (if decide (mid = "") then (false, s0) else isDuplicateMessage (s_worker x) mid (now c) s0).2) as Hdup.
  { intros mid. case_decide; [done|]. apply (same_conns_dup (s_worker x) mid (now c) s0). }
  destruct m as [mid|act|mid run|mid r|id metrics|]; try (by eexists; split; [|left; reflexivity]).
  - specialize (Hdup mid). destruct (if decide (mid = "") then _ else _) as [dup s1]. exists s1. split; [done|]. moves.
  - specialize (Hdup mid). destruct (if decide (mid = "") then _ else _) as [dup s1]. exists s1. split; [done|]. right.
    eexists. split; [|done]. by destruct dup.
  - exists s0. split; [done|]. case_match; [moves|by left].
Qed.

Ltac moved := eexists; split; [eassumption|]; split; [done|]; split; [|moves]; try done.

Lemma session_conns a k s s' : session_action a = Some k → step HashToken a s = Some s' →
  ∃ x s1, sessions s !! k = Some x ∧ registered (s_pc x) = true ∧ same_conns s s1
    ∧ (s' = s1 ∨ ∃ p, registered p = true ∧ s' = at_session k p s1).
Proof.
  intros Ha Hs. destruct a; try done; injection Ha as ->; cbn [step] in Hs; apply bind_Some in Hs as (x & Hx & Hs); exists x.
  - unfold session_online in Hs. destruct (s_pc x); simplify_eq. moved.
  - unfold session_snapshot in Hs. destruct (s_pc x); simplify_eq. cbv zeta in Hs. case_match; simplify_eq.
    moved.
  - unfold session_replay in Hs. destruct (s_pc x) as [| | |mu [|pr todo]| | | | | |]; try done. cbv zeta in Hs.
    destruct (negb marshal), mu; simplify_eq; moved.
    by apply same_conns_written.
  - unfold session_serve in Hs. destruct (s_pc x) as [| | |mu [|pr todo]| | | | | |]; simplify_eq.
    moved.
  - assert (registered (s_pc x) = true) as Hr by (unfold session_message in Hs; by destruct (s_pc x)).
    apply message_conns in Hs as (s1 & Hs1 & Hm). by exists s1.
  - unfold session_deliver in Hs. destruct (s_pc x); try done. cbv zeta in Hs.
    repeat case_match; simplify_eq; moved.
  - unfold session_send in Hs. destruct (s_pc x) as [| | | | | |pr mid r| | |]; try done. cbv zeta in Hs.
    destruct (chans s !! _), mid; simplify_eq; moved.
  - unfold session_ack in Hs. destruct (s_pc x) as [| | | | | | |mid after| |]; try done. cbv zeta in Hs.
    pose proof (same_conns_ack (s_worker x) mid ok s). destruct after; simplify_eq; moved.
  - unfold session_lost in Hs. destruct (s_pc x); simplify_eq. moved.
Qed.

Lemma conn_inv_run a s s' : step HashToken a s = Some s' → conn_inv s → conn_inv s'.
Proof.
  intros Hs Hi. destruct (dispatch_action a) eqn:Hd; [by eapply same_conns_inv; [eapply dispatch_conns|]|].
  destruct (session_action a) as [k|] eqn:Hk.
  { destruct (session_conns a k s s' Hk Hs) as (x & s1 & Hx & Hr & Hs1 & [->|(p & Hp & ->)]);
      [by eapply same_conns_inv|by eapply conn_inv_step]. }
  destruct a; try done; cbn [step] in Hs.
  - injection Hs as <-. by apply conn_inv_open.
  - injection Hs as <-. unfold handleRegister. repeat case_match; by apply (same_conns_inv s).
  - apply bind_Some in Hs as (x & Hx & Hs). by eapply conn_inv_register.
  - apply bind_Some in Hs as (x & Hx & Hs). by eapply conn_inv_cleanup.
  - injection Hs as <-. unfold DisconnectWorker. destruct (connections s !! w) as [k|] eqn:Hc; [|by apply (same_conns_inv s)].
    pose proof (same_conns_write k ok (CloseFrame "worker revoked") s) as Hw. apply conn_inv_drop; [|by eapply same_conns_inv].
    by destruct Hw as (-> & _).
  - injection Hs as <-. by apply (same_conns_inv s).
Qed.

Lemma run_inv (P : server → Prop) acts s s' : (∀ a s s', step HashToken a s = Some s' → P s → P s') →
  run HashToken acts s = Some s' → P s → P s'.
Proof.
  intros Hp. revert s. induction acts as [|a acts IH]; intros s Hs Hi; cbn [run] in Hs; [by injection Hs as <-|].
  apply bind_Some in Hs as (s1 & H1 & H2). by eapply IH, Hp.
Qed.

Lemma reachable_conn_inv s : reachable_server HashToken s → conn_inv s.
Proof.
  intros (a & acts & Hr). eapply run_inv; [apply conn_inv_run|done|]. split; cbn; try done; try set_solver.
Qed.

(** C30: However connections, reconnections, losses, revocations and cleanups
    interleave, a worker is taken as connected exactly when it has an open
    connection past its registration, and it never has two: the late cleanup of a
    connection that was replaced does not disconnect the worker. *)
Theorem one_open_connection s w : reachable_server HashToken s →
  (IsConnected w s = true ↔
    ∃ k x, sessions s !! k = Some x ∧ s_worker x = w ∧ registered (s_pc x) = true ∧ k ∉ closed s)
  ∧ ∀ k k' x x', sessions s !! k = Some x → sessions s !! k' = Some x' → s_worker x = w → s_worker x' = w →
      registered (s_pc x) = true → registered (s_pc x') = true → k ∉ closed s → k' ∉ closed s → k = k'.
Proof.
  intros [C1 C2 _ _ _]%reachable_conn_inv. split.
  - unfold IsConnected. rewrite bool_decide_eq_true. split.
    + intros [k Hk]. destruct (C1 w k Hk) as (x & Hx & Hr). by exists k, x.
    + intros (k & x & Hx & <- & Hr & Hc). exists k. by apply C2.
  - intros k k' x x' Hx Hx' Hw Hw' Hr Hr' Hc Hc'. pose proof (C2 k x Hx Hr Hc). pose proof (C2 k' x' Hx' Hr' Hc'). congruence.
Qed.

(** ** Commands and results *)

(** The dispatch a waiting entry belongs to. *)
Definition owner (s : server) (pr : pendingResult) : Prop :=
  p_command pr = c_id (p_cmd pr) ∧
  ∃ d, dispatches s !! p_ch pr = Some d ∧ d_cmd d = p_cmd pr ∧ d_worker d = p_worker pr.

Definition conn_of (s : server) (k : nat) (w : string) : Prop := ∃ x, sessions s !! k = Some x ∧ s_worker x = w.

Definition session_ok (s : server) (x : session) : Prop :=
  match s_pc x with
  | SReplay _ todo => Forall (λ pr, owner s pr ∧ p_worker pr = s_worker x) todo
  | SSend pr _ r => owner s pr ∧ CommandID r = p_command pr
  | _ => True
  end.

Definition dispatch_ok (s : server) (d : dispatch) : Prop :=
  match d_dpc d with
  | DLooked (Some k) | DRegistered (Some k) _ | DLogged k _ => conn_of s k (d_worker d)
  | DGot r | DReturning (inl r) | DDone (inl r) => CommandID r = c_id (d_cmd d)
  | _ => True
  end.

(** A message on a connection: a command is one dispatched to the worker at its other
    end. *)
Definition wire_ok (s : server) (km : nat * message) : Prop :=
  match km.2 with
  | Command _ cmd => ∃ i d mid, dispatches s !! i = Some d ∧ conn_of s km.1 (d_worker d)
                       ∧ cmd = withDispatchMessageID (d_cmd d) mid
  | _ => True
  end.

Record corr_inv (s : server) : Prop := {
  co_pending id pr : pending s !! id = Some pr → p_command pr = id ∧ owner s pr;
  co_sessions : Forall (session_ok s) (sessions s);
  co_dispatches : Forall (dispatch_ok s) (dispatches s);
  co_chans i r : chans s !! i = Some r → ∃ d, dispatches s !! i = Some d ∧ CommandID r = c_id (d_cmd d);
  co_wire : Forall (wire_ok s) (wire s) }.

(** Dispatches keep their command and worker, sessions their worker. *)
Definition extends (s s' : server) : Prop :=
  (∀ i d, dispatches s !! i = Some d → ∃ d', dispatches s' !! i = Some d' ∧ d_cmd d' = d_cmd d ∧ d_worker d' = d_worker d) ∧
  (∀ k w, conn_of s k w → conn_of s' k w).

Lemma owner_mono s s' pr : extends s s' → owner s pr → owner s' pr.
Proof.
  intros [He _] (Hc & d & Hd & H1 & H2). split; [done|]. destruct (He _ _ Hd) as (d' & Hd' & E1 & E2).
  exists d'. split; [done|]. split; congruence.
Qed.

Lemma session_mono s s' x : extends s s' → session_ok s x → session_ok s' x.
Proof.
  intros He. unfold session_ok. destruct (s_pc x) as [| | |mu todo| | |pr mid r| | |]; try done.
  - intros Hf. eapply Forall_impl; [exact Hf|]. intros pr [Ho Hw]. split; [by eapply owner_mono|done].
  - intros [Ho Hr]. split; [by eapply owner_mono|done].
Qed.

Lemma dispatch_mono s s' d : extends s s' → dispatch_ok s d → dispatch_ok s' d.
Proof. intros [_ He]. unfold dispatch_ok. repeat case_match; auto. Qed.

Lemma wire_mono s s' km : extends s s' → wire_ok s km → wire_ok s' km.
Proof.
  intros [Hd Hc]. unfold wire_ok. destruct km.2; try done. intros (i & d & mid & Hi & Hk & ->).
  destruct (Hd _ _ Hi) as (d' & Hd' & E1 & E2). exists i, d', mid. split; [done|]. split; [rewrite E2; auto|congruence].
Qed.

(** After a step, the contents of every part were right before it or are new ones
    that are right. *)
Lemma corr_frame s s' : extends s s' →
  (∀ id pr, pending s' !! id = Some pr → p_command pr = id ∧ owner s pr) →
  Forall (session_ok s) (sessions s') → Forall (dispatch_ok s) (dispatches s') →
  (∀ i r, chans s' !! i = Some r → ∃ d, dispatches s !! i = Some d ∧ CommandID r = c_id (d_cmd d)) →
  Forall (wire_ok s) (wire s') → corr_inv s'.
Proof.
  intros He Hp Hs Hd Hc Hw. split.
  - intros id pr Hpr. destruct (Hp id pr Hpr) as [H1 H2]. split; [done|by eapply owner_mono].
  - eapply Forall_impl; [exact Hs|]. intros x. by apply session_mono.
  - eapply Forall_impl; [exact Hd|]. intros x. by apply dispatch_mono.
  - intros i r Hr. destruct (Hc i r Hr) as (d & Hi & Hid). destruct He as [He _]. destruct (He _ _ Hi) as (d' & Hd' & E & _).
    exists d'. split; [done|congruence].
  - eapply Forall_impl; [exact Hw|]. intros x. by apply wire_mono.
Qed.

(** Steps of one dispatch and of one session. *)
Lemma extends_at_dispatch i p s s1 : dispatches s1 = dispatches s → sessions s1 = sessions s → extends s (at_dispatch i p s1).
Proof.
  intros Ed Es. split.
  - intros j d Hd. cbn. rewrite Ed list_lookup_alter. case_decide; [subst j; rewrite Hd; by eexists|by exists d].
  - intros k w (x & Hx & Hw). exists x. cbn. by rewrite Es.
Qed.

Lemma extends_at_session k p s s1 : dispatches s1 = dispatches s → sessions s1 = sessions s → extends s (at_session k p s1).
Proof.
  intros Ed Es. split.
  - intros i d Hd. exists d. cbn. by rewrite Ed.
  - intros j w (x & Hx & Hw). unfold conn_of. cbn. rewrite Es list_lookup_alter. case_decide; [|by exists x].
    subst j. rewrite Hx. by eexists.
Qed.

Lemma Forall_alter_at {A} (P : A → Prop) f i (l : list A) : Forall P l → (∀ x, l !! i = Some x → P (f x)) → Forall P (alter f i l).
Proof.
  intros Hl Hf. apply Forall_lookup. intros j x. rewrite list_lookup_alter. case_decide.
  - subst j. destruct (l !! i) as [y|] eqn:Hy; simpl; [|done]. intros [= <-]. auto.
  - rewrite Forall_lookup in Hl. apply Hl.
Qed.

(** What the network and the log leave alone. *)
Definition same_core (s s1 : server) : Prop :=
  dispatches s1 = dispatches s ∧ sessions s1 = sessions s ∧ pending s1 = pending s ∧ chans s1 = chans s.

Lemma write_core k ok m s s1 : same_core s s1 → same_core s (write k ok m s1).2.
Proof. unfold write. by destruct (ok && _). Qed.

Lemma write_wire k ok m s s1 : Forall (wire_ok s) (wire s1) → wire_ok s (k, m) → Forall (wire_ok s) (wire (write k ok m s1).2).
Proof. intros Hw Hm. unfold write. destruct (ok && _); [|done]. cbn. apply Forall_app. split; [done|by apply Forall_singleton]. Qed.

Lemma send_core w m ok s s1 : same_core s s1 → same_core s (SendMessage w m ok s1).
Proof. intros H. unfold SendMessage. destruct (connections s1 !! w); [by apply write_core|done]. Qed.

Lemma send_wire w m ok s s1 : Forall (wire_ok s) (wire s1) → (∀ k, wire_ok s (k, m)) → Forall (wire_ok s) (wire (SendMessage w m ok s1)).
Proof. intros Hw Hm. unfold SendMessage. destruct (connections s1 !! w); [by apply write_wire|done]. Qed.

Lemma corr_same s s1 : corr_inv s → same_core s s1 → Forall (wire_ok s) (wire s1) → corr_inv s1.
Proof.
  intros [C1 C2 C3 C4 C5] (Ed & Es & Ep & Ec) Hw. apply (corr_frame s); rewrite ?Ed ?Es ?Ep ?Ec; try done.
  split; [intros i d; rewrite Ed; by eexists|]. unfold conn_of. by rewrite Es.
Qed.

Lemma corr_at_dispatch i d p s s1 : corr_inv s → same_core s s1 → Forall (wire_ok s) (wire s1) → dispatches s !! i = Some d →
  dispatch_ok s {| d_worker := d_worker d; d_cmd := d_cmd d; d_user := d_user d; d_deadline := d_deadline d; d_dpc := p |} →
  corr_inv (at_dispatch i p s1).
Proof.
  intros Hi Hc Hw Hd Hp. apply (corr_frame s1); [by apply extends_at_dispatch|..];
    destruct (corr_same s s1 Hi Hc Hw) as [C1 C2 C3 C4 C5]; try done.
  cbn. apply Forall_alter_at; [done|]. destruct Hc as (Ed & Es & _ & _). rewrite Ed Hd. intros x [= <-].
  eapply dispatch_mono; [|exact Hp]. split; [intros j y; rewrite Ed; by eexists|]. unfold conn_of. by rewrite Es.
Qed.

Lemma corr_at_session k x p s s1 : corr_inv s → same_core s s1 → Forall (wire_ok s) (wire s1) → sessions s !! k = Some x →
  session_ok s {| s_worker := s_worker x; s_pc := p |} → corr_inv (at_session k p s1).
Proof.
  intros Hi Hc Hw Hx Hp. apply (corr_frame s1); [by apply extends_at_session|..];
    destruct (corr_same s s1 Hi Hc Hw) as [C1 C2 C3 C4 C5]; try done.
  cbn. apply Forall_alter_at; [done|]. destruct Hc as (Ed & Es & _ & _). rewrite Es Hx. intros y [= <-].
  eapply session_mono; [|exact Hp]. split; [intros j z; rewrite Ed; by eexists|]. unfold conn_of. by rewrite Es.
Qed.

Lemma corr_pending p s : corr_inv s → (∀ id pr, p !! id = Some pr → p_command pr = id ∧ owner s pr) → corr_inv (set_pending p s).
Proof. intros [C1 C2 C3 C4 C5] Hp. apply (corr_frame s); try done. split; [by eexists|done]. Qed.

Lemma corr_chans c s : corr_inv s →
  (∀ i r, c !! i = Some r → ∃ d, dispatches s !! i = Some d ∧ CommandID r = c_id (d_cmd d)) → corr_inv (set_chans c s).
Proof. intros [C1 C2 C3 C4 C5] Hp. apply (corr_frame s); try done. split; [by eexists|done]. Qed.

Lemma corr_dispatch_step a s s' : conn_inv s → dispatch_action a = true → step HashToken a s = Some s' → corr_inv s → corr_inv s'.
Proof.
  intros Hci Ha Hs Hi. pose proof Hi as [C1 C2 C3 C4 C5]. destruct a; try done; cbn [step] in Hs.
  { injection Hs as <-. apply (corr_frame s); try done.
    - split; [|done]. intros i d Hd. exists d. cbn. split; [by apply lookup_app_l_Some|done].
    - cbn. apply Forall_app. split; [done|]. apply Forall_singleton. unfold dispatch_ok. cbn.
      destruct (connections s !! w) as [k|] eqn:Hk; [|done]. destruct (ci_reg _ Hci _ _ Hk) as (x & Hx & Hw & _). by exists x. }
  all: apply bind_Some in Hs as (d & Hd & Hs).
  all: pose proof (Forall_lookup_1 _ _ _ _ C3 Hd) as Hok; unfold dispatch_ok in Hok.
  - unfold dispatch_register in Hs. destruct (d_dpc d) as [conn| | | | | | | | |]; try done.
    destruct (message_type (d_cmd d)) as [ty|e]; [|simplify_eq; by apply (corr_at_dispatch i d _ s)].
    destruct (_ && _); simplify_eq; [by apply (corr_at_dispatch i d _ s)|].
    eapply (corr_at_dispatch i d); [apply corr_pending; [done|]|done|done|done|done].
    intros id pr [[<- <-]|[_ Hpr]]%lookup_insert_Some; [|by apply C1]. split; [done|]. split; [done|]. by exists d.
  - unfold dispatch_log in Hs. destruct (d_dpc d) as [|[k|] mid'| | | | | | | |]; simplify_eq; by apply (corr_at_dispatch i d _ s).
  - unfold dispatch_write in Hs. destruct (d_dpc d) as [| |k mid'| | | | | | |]; try done.
    destruct marshal; [simplify_eq; by apply (corr_at_dispatch i d _ s)|].
    pose proof (write_core k ok (Command (type_of (d_cmd d)) (withDispatchMessageID (d_cmd d) mid')) s s ltac:(done)) as Hc.
    pose proof (write_wire k ok (Command (type_of (d_cmd d)) (withDispatchMessageID (d_cmd d) mid')) s s C5) as Hw.
    destruct (write _ _ _ _) as [sent s1]. simplify_eq. apply (corr_at_dispatch i d _ s); [done|done|apply Hw|done|by repeat case_match].
    by exists i, d, mid'.
  - unfold dispatch_requeue in Hs. destruct (d_dpc d); simplify_eq; by apply (corr_at_dispatch i d _ s).
  - unfold dispatch_receive in Hs. destruct (d_dpc d); try done. destruct (chans s !! i) as [r|] eqn:Hr; simplify_eq.
    eapply (corr_at_dispatch i d); [apply corr_chans; [done|]|done|done|done|].
    + intros j r' [_ Hj]%lookup_delete_Some. by apply C4.
    + destruct (C4 _ _ Hr) as (d' & Hd' & He). unfold dispatch_ok. cbn. congruence.
  - unfold dispatch_interrupt in Hs. repeat case_match; simplify_eq; by apply (corr_at_dispatch i d _ s).
  - unfold dispatch_cancel in Hs. destruct (d_dpc d); simplify_eq. apply (corr_at_dispatch i d _ s); [done| | |done|done].
    + by apply send_core.
    + by apply send_wire.
  - unfold dispatch_finish in Hs. cbv zeta in Hs. destruct (d_dpc d); simplify_eq; by apply (corr_at_dispatch i d _ s).
  - unfold dispatch_return in Hs. destruct (d_dpc d); simplify_eq.
    eapply (corr_at_dispatch i d); [apply corr_pending; [done|]|done|done|done|done].
    intros id pr [_ Hpr]%lookup_delete_Some. by apply C1.
Qed.

Lemma dup_core w mid t s s1 : same_core s s1 → same_core s (isDuplicateMessage w mid t s1).2 ∧
  wire (isDuplicateMessage w mid t s1).2 = wire s1.
Proof. intros H. unfold isDuplicateMessage. case_decide; [done|]. cbv zeta. by destruct (_ !! _). Qed.

Lemma ack_core w mid ok s s1 : same_core s s1 → Forall (wire_ok s) (wire s1) →
  same_core s (SendAck w mid ok s1) ∧ Forall (wire_ok s) (wire (SendAck w mid ok s1)).
Proof. intros H Hw. unfold SendAck. case_decide; [done|]. split; [by apply send_core|by apply send_wire]. Qed.

Lemma corr_message k x c lc m s s' : sessions s !! k = Some x → session_message k x c lc m s = Some s' → corr_inv s → corr_inv s'.
Proof.
  intros Hx Hs Hi. pose proof Hi as [C1 C2 C3 C4 C5]. unfold session_message in Hs. destruct (s_pc x); try done. cbv zeta in Hs.
  injection Hs as <-. set (s0 := set_auth _ s). assert (same_core s s0) as H0 by done.
  assert (∀ mid, let r := if decide (mid = "") then (false, s0) else isDuplicateMessage (s_worker x) mid (now c) s0 in
    same_core s r.2 ∧ wire r.2 = wire s) as Hdup.
  { intros mid. cbv zeta. case_decide; [done|]. destruct (dup_core (s_worker x) mid (now c) s s0 H0) as [H1 H2]. by rewrite H2. }
  destruct m as [mid|act|mid run|mid r|id metrics|].
  - by apply (corr_same s).
  - by apply (corr_same s).
  - destruct (Hdup mid) as [H1 H2]. destruct (if decide (mid = "") then _ else _) as [dup s1].
    apply (corr_at_session k x _ s); [done|done|by rewrite H2|done|done].
  - destruct (Hdup mid) as [H1 H2]. destruct (if decide (mid = "") then _ else _) as [dup s1].
    apply (corr_at_session k x _ s); [done|done|by rewrite H2|done|by destruct dup].
  - case_match eqn:Hpr; [|by apply (corr_same s)]. apply (corr_at_session k x _ s); [done..|].
    destruct (C1 id p Hpr) as [Hid Ho]. by split.
  - by apply (corr_same s).
Qed.

Lemma corr_session_step a k s s' : session_action a = Some k → step HashToken a s = Some s' → corr_inv s → corr_inv s'.
Proof.
  intros Ha Hs Hi. pose proof Hi as [C1 C2 C3 C4 C5].
  destruct a; try done; injection Ha as ->; cbn [step] in Hs; apply bind_Some in Hs as (x & Hx & Hs);
    pose proof (Forall_lookup_1 _ _ _ _ C2 Hx) as Hok; unfold session_ok in Hok.
  - unfold session_online in Hs. destruct (s_pc x); simplify_eq. by apply (corr_at_session k x _ s).
  - unfold session_snapshot in Hs. destruct (s_pc x); try done. cbv zeta in Hs. case_match; simplify_eq.
    apply (corr_at_session k x _ s); [done..|]. apply Forall_forall. intros pr (id & Hid & Hpr)%list_elem_of_omap.
    apply map_lookup_filter_Some in Hpr as [Hpr Hw]. by destruct (C1 id pr Hpr).
  - unfold session_replay in Hs. destruct (s_pc x) as [| | |mu [|pr todo]| | | | | |]; try done. cbv zeta in Hs.
    apply Forall_cons in Hok as [[Ho Hpw] Hok].
    destruct (negb marshal); [simplify_eq; by apply (corr_at_session k x _ s)|].
    destruct mu; simplify_eq; [|by apply (corr_at_session k x _ s)].
    apply (corr_at_session k x _ s); [done|by apply write_core| |done|done]. apply write_wire; [done|].
    destruct Ho as (_ & d & Hd & Hc & Hw). exists (p_ch pr), d, mid. split; [done|]. split; [|by rewrite Hc].
    exists x. split; [done|]. congruence.
  - unfold session_serve in Hs. destruct (s_pc x) as [| | |mu [|pr todo]| | | | | |]; simplify_eq. by apply (corr_at_session k x _ s).
  - by eapply corr_message.
  - unfold session_deliver in Hs. destruct (s_pc x) as [| | | | |mid r| | | |]; try done. cbv zeta in Hs.
    destruct (pending s !! CommandID r) as [pr|] eqn:Hpr.
    + simplify_eq. apply (corr_at_session k x _ s); [done..|]. destruct (C1 _ pr Hpr) as [Hid Ho]. by split.
    + destruct (TerminalOpenSessionIDFromCommandID _); simplify_eq; by apply (corr_at_session k x _ s).
  - unfold session_send in Hs. destruct (s_pc x) as [| | | | | |pr mid r| | |]; try done. cbv zeta in Hs. destruct Hok as [Ho Hr].
    injection Hs as <-. set (s1 := match chans s !! p_ch pr with Some _ => s | None => _ end).
    assert (corr_inv s1 ∧ sessions s1 = sessions s) as [H1 H2].
    { unfold s1. destruct (chans s !! p_ch pr); [done|]. split; [|done]. apply corr_chans; [done|].
      intros i r' [[<- <-]|[_ Hi']]%lookup_insert_Some; [|by apply C4]. destruct Ho as (Hid & d & Hd & Hc & _).
      exists d. split; [done|]. congruence. }
    apply (corr_at_session k x _ s1); [done|done|apply H1|by rewrite H2|by destruct mid].
  - unfold session_ack in Hs. destruct (s_pc x) as [| | | | | | |mid after| |]; try done. cbv zeta in Hs.
    destruct (ack_core (s_worker x) mid ok s s ltac:(done) C5) as [H1 H2].
    destruct after; simplify_eq; by apply (corr_at_session k x _ s).
  - unfold session_lost in Hs. destruct (s_pc x); simplify_eq. by apply (corr_at_session k x _ s).
Qed.

Lemma corr_drop w k s : corr_inv s → corr_inv (drop_conn w k s).
Proof. intros Hi. apply (corr_same s); [done|done|apply Hi]. Qed.

Lemma corr_run a s s' : step HashToken a s = Some s' → conn_inv s ∧ corr_inv s → conn_inv s' ∧ corr_inv s'.
Proof.
  intros Hs [Hci Hi]. split; [by eapply conn_inv_run|]. pose proof (co_wire _ Hi) as C5.
  destruct (dispatch_action a) eqn:Hd; [by eapply corr_dispatch_step|].
  destruct (session_action a) as [k|] eqn:Hk; [by eapply corr_session_step|].
  destruct a; try done; cbn [step] in Hs.
  - injection Hs as <-. unfold session_open. destruct (ActivateToken _ _ _ _ _) as [[[record tr]|err] a]; [|by apply (corr_same s)].
    case_decide; [by apply (corr_same s)|]. destruct upgraded; [|by apply (corr_same s)].
    destruct Hi as [C1 C2 C3 C4 _]. apply (corr_frame s); try done.
    + split; [by eexists|]. intros k w (x & Hx & Hw). exists x. split; [|done]. cbn. by apply lookup_app_l_Some.
    + cbn. apply Forall_app. split; [done|by apply Forall_singleton].
  - injection Hs as <-. unfold handleRegister. repeat case_match; by apply (corr_same s).
  - apply bind_Some in Hs as (x & Hx & Hs). unfold session_register in Hs. destruct (s_pc x); simplify_eq. cbv zeta.
    apply (corr_at_session k x _ s); try done; by destruct (connections s !! s_worker x).
  - apply bind_Some in Hs as (x & Hx & Hs). unfold session_cleanup in Hs. destruct (s_pc x); simplify_eq.
    apply (corr_at_session k x _ s); try done; by case_decide.
  - injection Hs as <-. unfold DisconnectWorker. destruct (connections s !! w) as [k|]; [|by apply (corr_same s)].
    apply corr_drop, (corr_same s); [done|by apply write_core|by apply write_wire].
  - injection Hs as <-. by apply (corr_same s).
Qed.

Lemma reachable_corr s : reachable_server HashToken s → corr_inv s.
Proof.
  intros (a & acts & Hr). eapply (run_inv (λ s, conn_inv s ∧ corr_inv s)); [apply corr_run|done|].
  split; [apply reachable_conn_inv; by exists a, []|]. by split.
Qed.

Lemma delivery_id_only cmd mid : let c := withDispatchMessageID cmd mid in
  c_kind c = c_kind cmd ∧ c_id c = c_id cmd ∧ c_fields c = c_fields cmd ∧
  (c_mid c = c_mid cmd ∨ c_kind cmd ∈ [DeployCommand; RedeployCommand; TeardownCommand; RunJobCommand]).
Proof. unfold withDispatchMessageID. destruct (c_kind cmd) eqn:Hk; rewrite /= ?Hk; split_and!; try done; first [by left|right; apply (bool_decide_unpack _); exact I]. Qed.

(** C29: Under every interleaving of dispatches, connections and messages, a command is
    only ever written to a connection of the worker it was dispatched to, of the same type,
    with the same id and the same fields, and only the delivery id of a durable command is
    another; and the result a dispatch returns carries
    the id of its command. *)
Theorem commands_and_results_matched s : reachable_server HashToken s →
  (∀ k ty cmd, (k, Command ty cmd) ∈ wire s →
    ∃ i d x, dispatches s !! i = Some d ∧ sessions s !! k = Some x ∧ s_worker x = d_worker d
      ∧ c_kind cmd = c_kind (d_cmd d) ∧ c_id cmd = c_id (d_cmd d) ∧ c_fields cmd = c_fields (d_cmd d)
      ∧ (c_mid cmd = c_mid (d_cmd d) ∨ c_kind (d_cmd d) ∈ [DeployCommand; RedeployCommand; TeardownCommand; RunJobCommand]))
  ∧ (∀ i d r, dispatches s !! i = Some d → d_dpc d = DDone (inl r) → CommandID r = c_id (d_cmd d)).
Proof.
  intros [_ _ C3 _ C5]%reachable_corr. split.
  - intros k ty cmd Hin. rewrite Forall_forall in C5. destruct (C5 _ Hin) as (i & d & mid & Hd & (x & Hx & Hw) & Hc).
    exists i, d, x. subst cmd. split_and!; [done..| | | |]; apply delivery_id_only.
  - intros i d r Hd Hp. pose proof (Forall_lookup_1 _ _ _ _ C3 Hd) as Hok. unfold dispatch_ok in Hok. by rewrite Hp in Hok.
Qed.

(** ** Reconnection *)
Definition replays (k : nat) (lc : log_calls) (mids : string → string) (todo : list pendingResult) : list action :=
  (λ pr, ASReplay k (mids (p_command pr)) true lc true) <$> todo.

Lemma run_app acts acts' s : run HashToken (acts ++ acts') s = (s1 ← run HashToken acts s; run HashToken acts' s1).
Proof. revert s. induction acts as [|a acts IH]; intros s; [done|]. cbn. destruct (step HashToken a s); cbn; auto. Qed.

Lemma replays_write k x lc mids todo s : sessions s !! k = Some x → s_pc x = SReplay true todo → k ∉ closed s →
  ∃ s' x', run HashToken (replays k lc mids todo) s = Some s' ∧ sessions s' !! k = Some x' ∧ s_worker x' = s_worker x
    ∧ s_pc x' = SReplay true [] ∧ connections s' = connections s
    ∧ wire s' = wire s ++ ((λ pr, (k, envelope pr (mids (p_command pr)))) <$> todo).
Proof.
  revert s x. induction todo as [|pr todo IH]; intros s x Hx Hp Hk; cbn [replays fmap list_fmap run].
  { exists s, x. by rewrite app_nil_r. }
  cbn [step]. rewrite Hx /=. unfold session_replay. rewrite Hp. cbn [negb]. unfold write.
  rewrite bool_decide_true; [|done]. cbn [andb snd].
  set (s1 := at_session _ _ _).
  destruct (IH s1 {| s_worker := s_worker x; s_pc := SReplay true todo |}) as (s' & x' & Hr & Hx' & Hw & Hp' & Hcn & Hwi).
  - cbn. by rewrite list_lookup_alter_eq Hx.
  - done.
  - done.
  - exists s', x'. split_and!; [exact Hr|done..|]. rewrite Hwi. cbn. by rewrite -app_assoc.
Qed.

Lemma reconnect_prefix k x c s : reachable_server HashToken s → sessions s !! k = Some x → s_pc x = SUpgraded →
  let m := waiting_for (s_worker x) s in let order := elements (dom m) in
  ∃ s', run HashToken [ASRegister k; ASOnline k c; ASSnapshot k order] s = Some s'
  ∧ sessions s' !! k = Some {| s_worker := s_worker x; s_pc := SReplay true (omap (λ id, m !! id) order) |}
  ∧ k ∉ closed s' ∧ connections s' !! s_worker x = Some k ∧ wire s' = wire s.
Proof.
  intros Hr Hx Hp m order. pose proof (reachable_conn_inv s Hr) as Hci. pose proof (ci_fresh _ Hci k x Hx Hp) as Hk.
  set (s0 := match connections s !! s_worker x with Some old => close_conn old s | None => s end).
  assert (k ∉ closed s0 ∧ sessions s0 = sessions s ∧ pending s0 = pending s ∧ wire s0 = wire s) as (K0 & K1 & K2 & K3).
  { unfold s0. destruct (connections s !! s_worker x) as [old|] eqn:Ho; [|done]. split_and!; try done. cbn.
    rewrite not_elem_of_union not_elem_of_singleton. split; [|done]. intros ->.
    destruct (ci_reg _ Hci _ _ Ho) as (y & Hy & _ & Hry & _). rewrite Hx in Hy. injection Hy as <-. by rewrite Hp in Hry. }
  set (s1 := at_session k SRegistered (set_maps (<[s_worker x := k]> (connections s0)) ({[s_worker x]} ∪ connWriteMu s0) (workerTags s0) s0)).
  assert (sessions s1 !! k = Some {| s_worker := s_worker x; s_pc := SRegistered |}) as H1
    by (cbn; by rewrite list_lookup_alter_eq K1 Hx).
  set (s2 := at_session k (SLocked true) (set_auth (RecordHealthEvent c (s_worker x) "online" (auth s1)).2 s1)).
  assert (sessions s2 !! k = Some {| s_worker := s_worker x; s_pc := SLocked true |}) as H2
    by (unfold s2; cbn [at_session sessions set_threads set_auth set_world]; by rewrite list_lookup_alter_eq H1).
  set (s3 := at_session k (SReplay true (omap (λ id, m !! id) order)) s2).
  assert (waiting_for (s_worker x) s2 = m) as Hm by (unfold waiting_for, m; cbn; by rewrite K2).
  assert (bool_decide (NoDup order) && bool_decide (list_to_set order =@{gset string} dom m) = true) as Hb.
  { unfold order. apply andb_true_iff. split; apply bool_decide_true; [apply NoDup_elements|apply list_to_set_elements_L]. }
  exists s3. split; [|split_and!].
  - cbn [run step]. rewrite Hx. cbn [mbind option_bind]. unfold session_register. rewrite Hp. cbv zeta. fold s0. fold s1.
    cbn [mbind option_bind]. rewrite H1. cbn [mbind option_bind]. unfold session_online. cbn [s_pc s_worker]. cbv zeta.
    rewrite bool_decide_true; [|cbn; set_solver]. fold s2. cbn [mbind option_bind]. rewrite H2. cbn [mbind option_bind].
    unfold session_snapshot. cbn [s_pc s_worker]. cbv zeta. by rewrite Hm Hb.
  - unfold s3. cbn [at_session sessions set_threads]. by rewrite list_lookup_alter_eq H2.
  - done.
  - cbn. apply lookup_insert_eq.
  - done.
Qed.

(** A reconnection that nothing disturbs resends every command that waits for the
    worker, under its own id, to the new connection before it starts to read from
    it. *)
Theorem reconnect_resends_waiting k x c lc mids s : reachable_server HashToken s →
  sessions s !! k = Some x → s_pc x = SUpgraded →
  let order := elements (dom (waiting_for (s_worker x) s)) in
  ∃ todo s' x', run HashToken ([ASRegister k; ASOnline k c; ASSnapshot k order] ++ replays k lc mids todo ++ [ASServe k]) s = Some s'
  ∧ sessions s' !! k = Some x' ∧ s_pc x' = SReading ∧ connections s' !! s_worker x = Some k
  ∧ ∀ id pr, pending s !! id = Some pr → p_worker pr = s_worker x →
      (k, Command (p_type pr) (withDispatchMessageID (p_cmd pr) (mids id))) ∈ wire s'.
Proof.
  intros Hr Hx Hp order. destruct (reconnect_prefix k x c s Hr Hx Hp) as (s3 & Hrun & Hs3 & Hk3 & Hc3 & Hw3).
  fold order in Hrun, Hs3. set (m := waiting_for (s_worker x) s) in *. set (todo := omap (λ id, m !! id) order) in *.
  destruct (replays_write k _ lc mids todo s3 Hs3 eq_refl Hk3) as (s4 & x4 & Hr4 & Hx4 & Hw4 & Hp4 & Hc4 & Hwi4).
  exists todo, (at_session k SReading (call_back (OnConnect (s_worker x4)) s4)). eexists. split_and!.
  - rewrite run_app Hrun. cbn [mbind option_bind]. rewrite run_app Hr4. cbn [mbind option_bind run step]. rewrite Hx4.
    cbn [mbind option_bind]. unfold session_serve. by rewrite Hp4.
  - cbn. rewrite list_lookup_alter_eq Hx4. reflexivity.
  - done.
  - cbn. by rewrite Hc4.
  - intros id pr Hpr Hpw. cbn. rewrite Hwi4. apply elem_of_app. right. apply list_elem_of_fmap. exists pr.
    destruct (co_pending _ (reachable_corr s Hr) id pr Hpr) as [Hid _]. rewrite Hid. split; [done|].
    apply list_elem_of_omap. exists id. assert (m !! id = Some pr) as Hm by (by apply map_lookup_filter_Some).
    split; [|done]. apply elem_of_elements, elem_of_dom. by eexists.
Qed.
End server.

(** ** Redelivered messages *)
Definition key_of (w mid : string) : string := w +:+ ":" +:+ mid.

Definition note_all (ms : list (string * string * Z)) (s : server) : server :=
  foldl (λ s m, (isDuplicateMessage m.1.1 m.1.2 m.2 s).2) s ms.

Lemma seen_stays w mid t key t1 s : (t - t1 ≤ day)%Z → seenMessages s !! key = Some t1 →
  seenMessages (isDuplicateMessage w mid t s).2 !! key = Some t1.
Proof.
  intros Ht Hk. unfold isDuplicateMessage. case_decide; [done|]. cbv zeta.
  set (seen := filter _ (seenMessages s)).
  assert (seen !! key = Some t1) as Hs by (apply map_lookup_filter_Some; split; [done|]; cbn; lia).
  destruct (seen !! (w +:+ ":" +:+ mid)) eqn:Hw; [done|]. cbn. rewrite lookup_insert_ne //. congruence.
Qed.

(** A message with an id that was accepted is a duplicate for a day, whatever other
    messages arrive. *)
Theorem message_accepted_once_a_day w mid t1 t2 s s1 ms : TrimSpace mid ≠ "" →
  isDuplicateMessage w mid t1 s = (false, s1) → Forall (λ m, (m.2 - t1 ≤ day)%Z) ms → (t2 - t1 ≤ day)%Z →
  (isDuplicateMessage w mid t2 (note_all ms s1)).1 = true.
Proof.
  intros Hm Hd Hms Ht.
  assert (seenMessages s1 !! key_of w mid = Some t1) as H1.
  { unfold isDuplicateMessage in Hd. rewrite decide_False // in Hd. cbv zeta in Hd.
    destruct (_ !! _); simplify_eq. apply lookup_insert_eq. }
  assert (seenMessages (note_all ms s1) !! key_of w mid = Some t1) as H2.
  { clear Hd. revert s1 H1. induction Hms as [|[[w' mid'] t'] ms Hm' _ IH]; intros s1 H1; [done|]. cbn. by apply IH, seen_stays. }
  unfold isDuplicateMessage. rewrite decide_False //. cbv zeta. fold (key_of w mid).
  assert (filter (λ ka : string * Z, ¬ (day < t2 - ka.2)%Z) (seenMessages (note_all ms s1)) !! key_of w mid = Some t1) as ->; [|done].
  apply map_lookup_filter_Some. split; [done|]. cbn. lia.
Qed.

(** ** Where the code falls short *)
Definition tok_calls : calls := demo_calls 9 "t9" "w9".
Definition row_calls : log_calls := demo_log "row1".

(** Two workers, each with its token. *)
Definition two_workers : store :=
  let s := (IssueToken toy_hash (demo_calls 0 "t1" "w1") "admin" no_rows).2 in
  let s := (ActivateToken toy_hash (demo_calls 1 "t1" "w1") "tokt1" "one" s).2 in
  let s := (IssueToken toy_hash (demo_calls 2 "t2" "w2") "admin" s).2 in
  (ActivateToken toy_hash (demo_calls 3 "t2" "w2") "tokt2" "two" s).2.

Definition a_command (k : kind) (id : string) : command := {| c_kind := k; c_id := id; c_mid := ""; c_fields := ∅ |}.

(** The steps of a worker that connects as session [k] when nothing waits for it, and
    of a dispatch that is written to a connection. *)
Definition connects (k : nat) (token : string) : list action :=
  [AOpen tok_calls token true; ASRegister k; ASOnline k tok_calls; ASSnapshot k []; ASServe k].
Definition dispatched (i : nat) (w : string) (cmd : command) : list action :=
  [ADispatch w cmd "user" true; ADRegister i "m1"; ADLog i row_calls; ADWrite i None true ""].

(** What is seen of the state a run ends in. *)
Lemma observe {A} (f : server → A) acts s0 v : f <$> run toy_hash acts s0 = Some v →
  ∃ s, run toy_hash acts s0 = Some s ∧ f s = v.
Proof. intros (s & Hs & ->)%fmap_Some. by exists s. Qed.

Lemma ends acts s0 : bool_decide (is_Some (run toy_hash acts s0)) = true →
  run toy_hash acts s0 = Some (default s0 (run toy_hash acts s0)).
Proof. intros [s Hs]%bool_decide_eq_true. by rewrite Hs. Qed.

Definition exec_run : list action :=
  connects 0 "tokt1" ++ dispatched 0 "w1" (a_command ExecCommand "x1") ++
  [AOpen tok_calls "tokt1" true; ASRegister 1; ASOnline 1 tok_calls; ASSnapshot 1 ["x1"]; ASReplay 1 "m2" true row_calls true].

(** A command that runs something in a container is documented never to be sent
    again when a worker reconnects; the resending does not look at the type of the
    command, so one dispatch writes it to two connections. *)
Theorem exec_is_resent : ∃ s, run toy_hash exec_run (started_server two_workers) = Some s
  ∧ length (dispatches s) = 1 ∧ isDurableCommand MsgExec = false
  ∧ wire s = [(0, Command MsgExec (a_command ExecCommand "x1")); (1, Command MsgExec (a_command ExecCommand "x1"))].
Proof.
  destruct (observe (λ s, (length (dispatches s), wire s)) exec_run (started_server two_workers)
    (1, [(0, Command MsgExec (a_command ExecCommand "x1")); (1, Command MsgExec (a_command ExecCommand "x1"))]))
    as (s & Hs & He); [vm_compute; reflexivity|]. injection He as H1 H2. exact (ex_intro _ s (conj Hs (conj H1 (conj eq_refl H2)))).
Qed.

Definition forged : CommandResult := {| CommandID := "d1"; Output := "all good"; Error := "" |}.
Definition forged_run : list action :=
  connects 0 "tokt1" ++ connects 1 "tokt2" ++ dispatched 0 "w1" (a_command DeployCommand "d1") ++
  [ASMessage 1 tok_calls row_calls (InResult "r1" forged); ASDeliver 1; ASSend 1; ADReceive 0; ADFinish 0 row_calls 5; ADReturn 0].

(** The result of a command is looked up by its id alone: a dispatch to one worker
    returns what another worker sent under that id. *)
Theorem foreign_result_accepted : ∃ s, run toy_hash forged_run (started_server two_workers) = Some s
  ∧ s_worker <$> sessions s = ["w1"; "w2"]
  ∧ (λ d, (d_worker d, d_dpc d)) <$> dispatches s = [("w1", DDone (inl forged))].
Proof.
  destruct (observe (λ s, (s_worker <$> sessions s, (λ d, (d_worker d, d_dpc d)) <$> dispatches s)) forged_run
    (started_server two_workers) (["w1"; "w2"], [("w1", DDone (inl forged))])) as (s & Hs & He); [vm_compute; reflexivity|].
  injection He as H1 H2. exact (ex_intro _ s (conj Hs (conj H1 H2))).
Qed.

Definition late_run : list action :=
  [ADispatch "w1" (a_command DeployCommand "d1") "user" true] ++ connects 0 "tokt1" ++
  [ADRegister 0 "m1"; ADLog 0 row_calls].

(** A dispatch that finds the worker offline and registers its command after the
    worker's reconnection has looked for waiting commands is not sent at all: the
    worker is connected and idle, the command waits and nothing was written. *)
Theorem connected_worker_misses_command : ∃ s, run toy_hash late_run (started_server two_workers) = Some s
  ∧ IsConnected "w1" s = true ∧ s_pc <$> sessions s = [SReading] ∧ d_dpc <$> dispatches s = [DWaiting] ∧ wire s = [].
Proof.
  destruct (observe (λ s, (IsConnected "w1" s, s_pc <$> sessions s, d_dpc <$> dispatches s, wire s)) late_run
    (started_server two_workers) (true, [SReading], [DWaiting], [])) as (s & Hs & He); [vm_compute; reflexivity|].
  injection He as H1 H2 H3 H4. exact (ex_intro _ s (conj Hs (conj H1 (conj H2 (conj H3 H4))))).
Qed.

Definition revoked_run : list action :=
  [AOpen tok_calls "tokt1" true; AToken tok_calls (OpRevokeWorker "w1"); ADisconnect "w1" true; ASRegister 0;
   ASOnline 0 tok_calls; ASSnapshot 0 []; ASServe 0] ++ dispatched 0 "w1" (a_command DeployCommand "d1").

(** A worker whose request was authenticated before it was revoked and enters the
    map of connections after the revocation has closed them stays connected and is
    sent commands. *)
Theorem revoked_worker_stays_connected : ∃ s, run toy_hash revoked_run (started_server two_workers) = Some s
  ∧ IsConnected "w1" s = true ∧ GetString "status" <$> FindById "w1" (workers (auth s)) = Some "REVOKED"
  ∧ (λ km, km.1) <$> wire s = [0].
Proof.
  destruct (observe (λ s, (IsConnected "w1" s, GetString "status" <$> FindById "w1" (workers (auth s)), (λ km, km.1) <$> wire s))
    revoked_run (started_server two_workers) (true, Some "REVOKED", [0])) as (s & Hs & He); [vm_compute; reflexivity|].
  injection He as H1 H2 H3. exact (ex_intro _ s (conj Hs (conj H1 (conj H2 H3)))).
Qed.

(** ** Witnesses *)
Definition forged_state : server := default (started_server two_workers) (run toy_hash forged_run (started_server two_workers)).

Lemma forged_reachable : reachable_server toy_hash forged_state.
Proof. exists two_workers, forged_run. apply ends. vm_compute. reflexivity. Qed.

Lemma one_open_connection_witness : IsConnected "w2" forged_state = true ↔
  ∃ k x, sessions forged_state !! k = Some x ∧ s_worker x = "w2" ∧ registered (s_pc x) = true ∧ k ∉ closed forged_state.
Proof. apply (one_open_connection toy_hash forged_state "w2" forged_reachable). Defined.

Lemma commands_and_results_matched_witness : CommandID forged = c_id (a_command DeployCommand "d1").
Proof.
  destruct (commands_and_results_matched toy_hash forged_state forged_reachable) as [_ H].
  apply (H 0 {| d_worker := "w1"; d_cmd := a_command DeployCommand "d1"; d_user := "user"; d_deadline := true;
                d_dpc := DDone (inl forged) |} forged); vm_compute; reflexivity.
Defined.

Definition reopen_run : list action :=
  connects 0 "tokt1" ++ dispatched 0 "w1" (a_command DeployCommand "d1") ++ [AOpen tok_calls "tokt1" true].
Definition reopened : server := default (started_server two_workers) (run toy_hash reopen_run (started_server two_workers)).
Definition d1_pending : pendingResult :=
  {| p_ch := 0; p_worker := "w1"; p_type := MsgDeploy; p_command := "d1"; p_cmd := a_command DeployCommand "d1" |}.

Lemma reconnect_resends_waiting_witness : ∃ todo s', run toy_hash
    ([ASRegister 1; ASOnline 1 tok_calls; ASSnapshot 1 (elements (dom (waiting_for "w1" reopened)))] ++
     replays 1 row_calls (λ _, "m2") todo ++ [ASServe 1]) reopened = Some s'
  ∧ (1, Command MsgDeploy (withDispatchMessageID (a_command DeployCommand "d1") "m2")) ∈ wire s'.
Proof.
  destruct (reconnect_resends_waiting toy_hash 1 {| s_worker := "w1"; s_pc := SUpgraded |} tok_calls row_calls (λ _, "m2") reopened)
    as (todo & s' & x' & Hr & _ & _ & _ & Hw).
  - exists two_workers, reopen_run. apply ends. vm_compute. reflexivity.
  - vm_compute. reflexivity.
  - reflexivity.
  - exists todo, s'. split; [exact Hr|]. apply (Hw "d1" d1_pending); vm_compute; reflexivity.
Defined.
