(* ===== verification/JobFile.v ===== *)
(** * internal/job/parser.go: job definitions

    A job.yaml is decoded by a YAML library ([decode], the first document and
    what follows it) and then validated.  [ParseDuration] is Go's
    [time.ParseDuration] in nanoseconds, [read_file] the checkout. *)
From Stdlib Require Import ZArith.
From S2P Require Import Prelude GoStrings GoPath SafePath.

Definition ModeOnce : string := "once".
Definition ModeOnceAll : string := "once_all".

Record Resources := { CPU : string; Memory : string; Timeout : string }.

Record ConfigEntry := { ce_Name : string; ce_Path : string; ce_Target : string; ce_Mode : string }.

Record Definition_ := {
  d_Name : string; d_Description : string; d_Cron : string; d_Tags : list string; d_Group : string;
  d_Mode : string; d_Image : string; d_Command : list string; d_Volumes : list string; d_Network : string;
  d_Resources : Resources; d_Configs : list ConfigEntry }.

Inductive job_problem :=
| NameRequired | DescriptionRequired | ImageRequired | CronRequired | BadMode (mode : string)
| CPURequired | MemoryRequired | TimeoutRequired | BadTimeout (t : string)
| BadConfigName (i : nat) (n : string) | DuplicateName (i : nat) (n : string) | BadConfigPath (i : nat) (p : string)
| BadTarget (i : nat) (t : string) | DuplicateTarget (i : nat) (t : string) | BadFileMode (i : nat) (m : string).

(** What follows the first document. *)
Inductive trailing := Nothing | AnotherDocument | Garbage.

Inductive job_error :=
| BadJobPath (p : string) | CannotReadJob (p : string) | InvalidYAML | MultipleDocuments | TrailingContent
| Invalid (problems : list job_problem).

(** [strconv.ParseUint(s, 8, 32)]: octal digits and a value below 2^32. *)
Fixpoint octal_from (n : Z) (s : string) : option Z :=
  match s with
  | "" => Some n
  | String a s =>
      let d := (Z.of_N (N_of_ascii a) - 48)%Z in
      if decide (0 ≤ d < 8)%Z then octal_from (n * 8 + d) s else None
  end.

Definition ParseUint8_32 (s : string) : option Z :=
  if decide (s = "") then None
  else match octal_from 0 s with
  | Some n => if decide (n < 2 ^ 32)%Z then Some n else None
  | None => None
  end.

Definition when (b : bool) (p : job_problem) : list job_problem := if b then [p] else [].

Section job.
Context (ParseDuration : string → option Z).

(** The configs, with the names and targets accepted so far. *)
Fixpoint check_configs (i : nat) (cs : list ConfigEntry) (seenConfigNames seenTargets : gset string)
  : list job_problem :=
  match cs with
  | [] => []
  | c :: cs =>
      let '(p1, names) :=
        match ValidateConfigName (ce_Name c) with
        | Some _ => ([BadConfigName i (ce_Name c)], seenConfigNames)
        | None => if decide (ce_Name c ∈ seenConfigNames) then ([DuplicateName i (ce_Name c)], seenConfigNames)
                  else ([], {[ce_Name c]} ∪ seenConfigNames)
        end in
      let p2 := match CleanRelativePath (ce_Path c) with inl _ => [BadConfigPath i (ce_Path c)] | inr _ => [] end in
      let '(p3, targets) :=
        match ValidateContainerMountPath (ce_Target c) with
        | Some _ => ([BadTarget i (ce_Target c)], seenTargets)
        | None => if decide (ce_Target c ∈ seenTargets) then ([DuplicateTarget i (ce_Target c)], seenTargets)
                  else ([], {[ce_Target c]} ∪ seenTargets)
        end in
      let p4 := if decide (ce_Mode c = "") then []
                else match ParseUint8_32 (ce_Mode c) with Some _ => [] | None => [BadFileMode i (ce_Mode c)] end in
      p1 ++ p2 ++ p3 ++ p4 ++ check_configs (S i) cs names targets
  end.

Definition Validate (d : Definition_) : list job_problem :=
  when (bool_decide (d_Name d = "")) NameRequired ++
  when (bool_decide (d_Description d = "")) DescriptionRequired ++
  when (bool_decide (d_Image d = "")) ImageRequired ++
  when (bool_decide (d_Cron d = "")) CronRequired ++
  when (bool_decide (d_Mode d ≠ "" ∧ d_Mode d ≠ ModeOnce ∧ d_Mode d ≠ ModeOnceAll)) (BadMode (d_Mode d)) ++
  when (bool_decide (CPU (d_Resources d) = "")) CPURequired ++
  when (bool_decide (Memory (d_Resources d) = "")) MemoryRequired ++
  (if decide (Timeout (d_Resources d) = "") then [TimeoutRequired]
   else match ParseDuration (Timeout (d_Resources d)) with
        | None => [BadTimeout (Timeout (d_Resources d))] | Some _ => [] end) ++
  check_configs 0 (d_Configs d) ∅ ∅.

Definition default_mode (d : Definition_) : Definition_ :=
  if decide (d_Mode d = "") then
    {| d_Name := d_Name d; d_Description := d_Description d; d_Cron := d_Cron d; d_Tags := d_Tags d;
       d_Group := d_Group d; d_Mode := ModeOnce; d_Image := d_Image d; d_Command := d_Command d;
       d_Volumes := d_Volumes d; d_Network := d_Network d; d_Resources := d_Resources d; d_Configs := d_Configs d |}
  else d.

Context (decode : string → option (Definition_ * trailing)).
Context (read_file : string → option string).

Definition ParseJobFile (repoWorkspace repoID filePath : string) : Definition_ + job_error :=
  match CleanRelativePath filePath with
  | inl _ => inr (BadJobPath filePath)
  | inr clean =>
      match read_file (PathJoin (PathJoin repoWorkspace repoID) clean) with
      | None => inr (CannotReadJob filePath)
      | Some data =>
          match decode data with
          | None => inr InvalidYAML
          | Some (_, AnotherDocument) => inr MultipleDocuments
          | Some (_, Garbage) => inr TrailingContent
          | Some (def, Nothing) =>
              match Validate def with
              | [] => inl (default_mode def)
              | problems => inr (Invalid problems)
              end
          end
      end
  end.

(** ** Lemmas *)

(** What a valid config entry is. *)
Record config_ok (c : ConfigEntry) : Prop := {
  co_name : ValidateConfigName (ce_Name c) = None;
  co_path : ∃ clean, CleanRelativePath (ce_Path c) = inr clean;
  co_target : ValidateContainerMountPath (ce_Target c) = None;
  co_mode : ce_Mode c ≠ "" → ∃ n, ParseUint8_32 (ce_Mode c) = Some n }.

Lemma when_nil b p : when b p = [] ↔ b = false.
Proof. by destruct b. Qed.

Lemma check_configs_nil cs : ∀ i names targets, check_configs i cs names targets = [] ↔
  Forall config_ok cs ∧ NoDup (ce_Name <$> cs) ∧ NoDup (ce_Target <$> cs) ∧
  (∀ c, c ∈ cs → ce_Name c ∉ names ∧ ce_Target c ∉ targets).
Proof.
  induction cs as [|c cs IH]; intros i names targets; cbn [check_configs fmap list_fmap].
  { split; [|done]. intros _. split; [constructor|]. split; [constructor|]. split; [constructor|set_solver]. }
  rewrite Forall_cons !NoDup_cons !list_elem_of_fmap. split.
  - destruct (ValidateConfigName (ce_Name c)) eqn:E1; [|destruct (decide (ce_Name c ∈ names))];
      destruct (CleanRelativePath (ce_Path c)) eqn:E2;
      (destruct (ValidateContainerMountPath (ce_Target c)) eqn:E3; [|destruct (decide (ce_Target c ∈ targets))]);
      simpl; try (intros; discriminate).
    intros [H4 Hr]%app_nil. apply IH in Hr as (Hf & Hn & Ht & Hd).
    assert (config_ok c) as Hc.
    { split; [done|by eexists|done|]. intros Hm. rewrite decide_False // in H4.
      destruct (ParseUint8_32 _) eqn:E4; [by eexists|done]. }
    split; [done|]. split; [|split].
    + split; [|done]. intros (x & Hx & Hin). destruct (Hd x Hin) as [Hd1 _]. set_solver.
    + split; [|done]. intros (x & Hx & Hin). destruct (Hd x Hin) as [_ Hd2]. set_solver.
    + intros x [->|Hx]%elem_of_cons; [done|]. destruct (Hd x Hx). set_solver.
  - intros ([Hc Hf] & [Hn1 Hn2] & [Ht1 Ht2] & Hd). destruct Hc as [E1 [clean E2] E3 E4].
    destruct (Hd c) as [Hd1 Hd2]; [by left|]. rewrite E1 E2 E3 (decide_False (P := ce_Name c ∈ names)) // (decide_False (P := ce_Target c ∈ targets)) //. simpl.
    apply app_nil. split.
    { case_decide; [done|]. by destruct E4 as [n ->]. }
    apply IH. split; [done|]. split; [done|]. split; [done|]. intros x Hx.
    destruct (Hd x) as [Hx1 Hx2]; [by right|]. split.
    + intros [Heq%elem_of_singleton|?]%elem_of_union; [|done]. apply Hn1. exists x. done.
    + intros [Heq%elem_of_singleton|?]%elem_of_union; [|done]. apply Ht1. exists x. done.
Qed.

(** What a job.yaml must say. *)
Record job_ok (d : Definition_) : Prop := {
  jo_name : d_Name d ≠ ""; jo_description : d_Description d ≠ ""; jo_image : d_Image d ≠ ""; jo_cron : d_Cron d ≠ "";
  jo_mode : d_Mode d = "" ∨ d_Mode d = ModeOnce ∨ d_Mode d = ModeOnceAll;
  jo_cpu : CPU (d_Resources d) ≠ ""; jo_memory : Memory (d_Resources d) ≠ "";
  jo_timeout : Timeout (d_Resources d) ≠ "" ∧ is_Some (ParseDuration (Timeout (d_Resources d)));
  jo_configs : Forall config_ok (d_Configs d);
  jo_names : NoDup (ce_Name <$> d_Configs d); jo_targets : NoDup (ce_Target <$> d_Configs d) }.

Lemma Validate_nil d : Validate d = [] ↔ job_ok d.
Proof.
  unfold Validate. rewrite !app_nil !when_nil !bool_decide_eq_false check_configs_nil.
  assert ((if decide (Timeout (d_Resources d) = "") then [TimeoutRequired]
           else match ParseDuration (Timeout (d_Resources d)) with
                | None => [BadTimeout (Timeout (d_Resources d))] | Some _ => [] end) = [] ↔
          Timeout (d_Resources d) ≠ "" ∧ is_Some (ParseDuration (Timeout (d_Resources d)))) as ->.
  { case_decide; [naive_solver|]. destruct (ParseDuration _); split; try done; intros [_ [? ?]]; done. }
  split.
  - intros (H1 & H2 & H3 & H4 & H5 & H6 & H7 & H8 & H9 & H10 & H11 & _). split; try done.
    destruct (decide (d_Mode d = "")); [by left|]. right.
    destruct (decide (d_Mode d = ModeOnce)); [by left|]. right. apply dec_stable. tauto.
  - intros []. split_and!; try done; try tauto; set_solver.
Qed.

(** A job file is accepted exactly when it lies inside the checkout, can be read,
    is a single document and says everything a job must: the required fields, a
    known mode (once when none is given), a timeout that parses, and configs with
    valid distinct names, relative paths, valid distinct targets and octal
    modes. *)
Theorem job_file_exact repoWorkspace repoID filePath def :
  ParseJobFile repoWorkspace repoID filePath = inl def ↔
  ∃ clean data raw, CleanRelativePath filePath = inr clean ∧
    read_file (PathJoin (PathJoin repoWorkspace repoID) clean) = Some data ∧
    decode data = Some (raw, Nothing) ∧ job_ok raw ∧ def = default_mode raw.
Proof.
  unfold ParseJobFile. split.
  - intros H. cases. do 3 eexists. do 3 (split; [done|]). split; [by apply Validate_nil|done].
  - intros (clean & data & raw & -> & -> & -> & Hok%Validate_nil & ->). by rewrite Hok.
Qed.
End job.
