(* ===== verification/JobRuns.v ===== *)
(** * internal/jobscheduler/scheduler.go: the life of a job run

    The job_runs table by run id.  Every operation below holds the scheduler's
    run lock while it reads and writes (or, creating and patching, writes fields
    no other operation writes), so it is one step; the operations of the
    dispatching goroutines, the completion messages, the reaper and the worker
    reports interleave freely.  [db] is what the database does during one
    operation; saving stamps [updated].  Times are milliseconds, the precision the
    database stores. *)
From Stdlib Require Import ZArith.
From S2P Require Import Prelude GoStrings GoValue ComposeDoc PbRecord JobFile.

Definition table := gmap string record.

Record db := { now : Z; find_ok : bool; save_ok : bool }.

Definition SetTime (k : string) (t : Z) (r : record) : record := SetInt k t r.

(** [GetDateTime]: the zero time when the field is not set. *)
Definition GetTime (k : string) (r : record) : option Z :=
  match fields r !! k with Some (VNum t) => num_int t | _ => None end.

(** A zero time lies before every cutoff. *)
Definition time_before (t : option Z) (cutoff : Z) : bool :=
  match t with None => true | Some t => (t <? cutoff)%Z end.
Definition time_after (t : option Z) (cutoff : Z) : bool :=
  match t with None => false | Some t => (cutoff <? t)%Z end.

Definition FindRecordById (e : db) (id : string) (t : table) : option record :=
  if find_ok e then t !! id else None.

Definition Save (e : db) (rec : record) (t : table) : option table :=
  if save_ok e then Some (<[Id rec := SetTime "updated" (now e) rec]> t) else None.

Inductive run_error := NotFound (run : string) | SaveFailed (run : string) | QueryFailed.

Definition status (r : record) : string := GetString "status" r.

Definition terminal (s : string) : bool :=
  bool_decide (s = "success") || bool_decide (s = "error") || bool_decide (s = "stalled")
  || bool_decide (s = "forgotten").

(** ** Operations on one run *)

(** The fields of a new run; [id] is the id the database gives it. *)
Definition new_run (e : db) (id jobID workerID trigger st : string) (output : option string) (retentionMs : Z)
  : record :=
  let rec0 := {| Id := id; fields := ∅ |} in
  let rec1 := SetStr "status" st (SetStr "trigger" trigger (SetStr "job" jobID rec0)) in
  let rec2 := match output with Some o => SetStr "output" o rec1 | None => rec1 end in
  let rec3 := SetTime "expires_at" (now e + retentionMs) rec2 in
  let rec4 := if decide (workerID = "") then rec3 else SetStr "worker" workerID rec3 in
  SetTime "created" (now e) rec4.

Definition createJobRun (e : db) (id jobID workerID trigger st : string) (output : option string)
    (retentionMs : Z) (t : table) : option string * table :=
  if negb (find_ok e) then (None, t)
  else match Save e (new_run e id jobID workerID trigger st output retentionMs) t with
       | Some t' => (Some id, t')
       | None => (None, t)
       end.

Definition patchJobRunMeta (e : db) (runID containerName commitSHA : string) (t : table)
  : option run_error * table :=
  match FindRecordById e runID t with
  | None => (Some (NotFound runID), t)
  | Some rec =>
      match Save e (SetStr "commit_sha" commitSHA (SetStr "container_name" containerName rec)) t with
      | Some t' => (None, t')
      | None => (Some (SaveFailed runID), t)
      end
  end.

Definition setJobRunStarted (e : db) (runID : string) (t : table) : option run_error * table :=
  match FindRecordById e runID t with
  | None => (Some (NotFound runID), t)
  | Some rec =>
      if terminal (status rec) then (None, t)
      else
        let queueMs := (now e - default 0 (GetTime "created" rec))%Z in
        let queueMs := if (queueMs <? 0)%Z then 0%Z else queueMs in
        match Save e (SetInt "queue_time_ms" queueMs
                       (SetTime "started_at" (now e) (SetStr "status" "running" rec))) t with
        | Some t' => (None, t')
        | None => (Some (SaveFailed runID), t)
        end
  end.

Definition setJobRunStatus (e : db) (runID st : string) (t : table) : option run_error * table :=
  match FindRecordById e runID t with
  | None => (Some (NotFound runID), t)
  | Some rec =>
      if bool_decide (st = "running") && terminal (status rec) then (None, t)
      else match Save e (SetStr "status" st rec) t with
           | Some t' => (None, t')
           | None => (Some (SaveFailed runID), t)
           end
  end.

Definition MaxOutputLength : nat := 1000000.
Definition truncation_marker : string :=
  String (ascii_of_nat 10) (String (ascii_of_nat 10) "... [OUTPUT TRUNCATED FOR SIZE] ...")
    +:+ String (ascii_of_nat 10) (String (ascii_of_nat 10) "").

(** The part of [updateJobRun] that cuts the output; [limit] is
    [MaxOutputLength]. *)
Definition truncate_output (limit : nat) (output : string) : string :=
  if decide (limit < String.length output) then
    let available := limit - String.length truncation_marker in
    let head := available / 2 in
    let tail := available - head in
    String.substring 0 head output +:+ truncation_marker +:+ String.substring (String.length output - tail) tail output
  else output.

Definition updateJobRun (e : db) (runID st output : string) (durationMs queueTimeMs execTimeMs : Z) (t : table)
  : option run_error * table :=
  match FindRecordById e runID t with
  | None => (Some (NotFound runID), t)
  | Some rec =>
      let rec1 := SetInt "duration_ms" durationMs
                    (SetStr "output" (truncate_output MaxOutputLength output) (SetStr "status" st rec)) in
      let rec2 := if (0 <? queueTimeMs)%Z then SetInt "queue_time_ms" queueTimeMs rec1 else rec1 in
      let rec3 := if (0 <? execTimeMs)%Z then SetInt "execution_time_ms" execTimeMs rec2
                  else if bool_decide (st = "success") || bool_decide (st = "error") then
                    match GetTime "started_at" rec2 with
                    | Some started => SetInt "execution_time_ms" (now e - started) rec2
                    | None => rec2
                    end
                  else rec2 in
      match Save e rec3 t with
      | Some t' => (None, t')
      | None => (Some (SaveFailed runID), t)
      end
  end.

Record JobCompletedMessage := {
  JobRunID : string; Success : bool; Output : string; DurationMs : Z; QueueTimeMs : Z; ExecutionTimeMs : Z }.

Definition HandleJobCompleted (e : db) (msg : JobCompletedMessage) (t : table) : table :=
  (updateJobRun e (JobRunID msg) (if Success msg then "success" else "error") (Output msg)
     (DurationMs msg) (QueueTimeMs msg) (ExecutionTimeMs msg) t).2.

(** ** The reaper and the worker reports *)
Section reaper.
(** The scheduled_jobs table, the job files, [time.ParseDuration] in nanoseconds,
    and the query of all runs in a status (of a worker). *)
Context (find_job : string → option record) (parse_job : string → string → Definition_ + job_error).
Context (ParseDuration : string → option Z).
Context (find_all : option string → string → table → option (list record)).

Definition default_timeout_ms : Z := 600000.

Definition getJobTimeoutMs (rec : record) : Z :=
  let jobID := GetString "job" rec in
  if decide (jobID = "") then default_timeout_ms
  else match find_job jobID with
  | None => default_timeout_ms
  | Some jobRec =>
      match parse_job (GetString "repository" jobRec) (GetString "job_file" jobRec) with
      | inr _ => default_timeout_ms
      | inl def =>
          if decide (Timeout (d_Resources def) = "") then default_timeout_ms
          else match ParseDuration (Timeout (d_Resources def)) with
               | Some d => (d ÷ 1000000)%Z
               | None => default_timeout_ms
               end
      end
  end.

Definition maxJobRunDuration : Z := 60 * 60 * 1000.
Definition maxJobRunPendingDuration : Z := 15 * 60 * 1000.

Definition first (a b : option run_error) : option run_error := match a with Some _ => a | None => b end.

(** A run taken as lost: the re-read record must still be running. *)
Definition lose (e : db) (st output : string) (runID : string) (t : table) : option run_error * table :=
  match FindRecordById e runID t with
  | None => (None, t)
  | Some fresh =>
      if decide (status fresh ≠ "running") then (None, t)
      else match Save e (SetInt "execution_time_ms" (getJobTimeoutMs fresh)
                          (SetStr "output" output (SetStr "status" st fresh))) t with
           | Some t' => (None, t')
           | None => (Some (SaveFailed runID), t)
           end
  end.

(** [rec] is the record as listed, perhaps out of date by now. *)
Definition reconcileSingleRunningRun (e : db) (rec : record) (cutoff : Z) (t : table) : option run_error * table :=
  if negb (time_before (GetTime "updated" rec) cutoff) then (None, t)
  else lose e "forgotten" "job forgotten: still running after 1 hour with no completion signal" (Id rec) t.

Definition reconcileSinglePendingRun (e : db) (rec : record) (cutoff : Z) (t : table) : option run_error * table :=
  if negb (time_before (GetTime "updated" rec) cutoff) then (None, t)
  else match FindRecordById e (Id rec) t with
  | None => (None, t)
  | Some fresh =>
      if decide (status fresh ≠ "pending") then (None, t)
      else match Save e (SetStr "output"
             "job failed: stuck in pending for more than 15 minutes (failed to dispatch to worker)"
             (SetStr "status" "error" fresh)) t with
           | Some t' => (None, t')
           | None => (Some (SaveFailed (Id rec)), t)
           end
  end.

(** Each listed run in turn, keeping the first error. *)
Fixpoint each (f : record → table → option run_error * table) (l : list record) (err : option run_error) (t : table)
  : option run_error * table :=
  match l with
  | [] => (err, t)
  | rec :: l => let '(e1, t1) := f rec t in each f l (first err e1) t1
  end.

(** [e id] is the database while run [id] is treated, [clock] the time of the
    cutoffs. *)
Definition MarkForgottenRuns (e : string → db) (clock : Z) (t : table) : option run_error * table :=
  match find_all None "running" t with
  | None => (Some QueryFailed, t)
  | Some running =>
      let '(err, t1) := each (λ rec, reconcileSingleRunningRun (e (Id rec)) rec (clock - maxJobRunDuration))
                          running None t in
      match find_all None "pending" t1 with
      | None => (first err (Some QueryFailed), t1)
      | Some pending =>
          each (λ rec, reconcileSinglePendingRun (e (Id rec)) rec (clock - maxJobRunPendingDuration)) pending err t1
      end
  end.

Definition lost_output : string := "job lost: worker disconnected and job is no longer running".

Definition ReconcileActiveJobs (e : string → db) (clock : Z) (workerID : string) (activeIDs : list string) (t : table)
  : option run_error * table :=
  match find_all (Some workerID) "running" t with
  | None => (Some QueryFailed, t)
  | Some records =>
      each (λ rec t, if decide (Id rec ∈ activeIDs) then (None, t)
                     else if time_after (GetTime "updated" rec) (clock - 60000) then (None, t)
                     else lose (e (Id rec)) "error" lost_output (Id rec) t) records None t
  end.

(** The lock is held throughout, so the listed records are current. *)
Definition HandleWorkerDisconnect (e : string → db) (workerID : string) (t : table) : option run_error * table :=
  match find_all (Some workerID) "running" t with
  | None => (Some QueryFailed, t)
  | Some records =>
      each (λ rec t, match Save (e (Id rec)) (SetInt "execution_time_ms" (getJobTimeoutMs rec)
                              (SetStr "output" lost_output (SetStr "status" "error" rec))) t with
                     | Some t' => (None, t')
                     | None => (Some (SaveFailed (Id rec)), t)
                     end) records None t
  end.

(** ** Interleavings

    One operation of any goroutine; [upd] says on which runs a completion or a
    failed dispatch may be recorded. *)
Inductive run_step (upd : string → Prop) : table → table → Prop :=
| step_create e id jobID workerID trigger st output ret t :
    t !! id = None → st = "pending" ∨ terminal st = true →
    run_step upd t (createJobRun e id jobID workerID trigger st output ret t).2
| step_patch e id name sha t : run_step upd t (patchJobRunMeta e id name sha t).2
| step_started e id t : run_step upd t (setJobRunStarted e id t).2
| step_update e id st output d q x t : upd id → st = "success" ∨ st = "error" →
    run_step upd t (updateJobRun e id st output d q x t).2
| step_running e rec cutoff t : run_step upd t (reconcileSingleRunningRun e rec cutoff t).2
| step_pending e rec cutoff t : run_step upd t (reconcileSinglePendingRun e rec cutoff t).2
| step_lost e id t : run_step upd t (lose e "error" lost_output id t).2
| step_disconnect e workerID t : run_step upd t (HandleWorkerDisconnect e workerID t).2.

Definition table_wf (t : table) : Prop := ∀ id r, t !! id = Some r → Id r = id.

(** What the queries return. *)
Definition queries_ok : Prop := ∀ w st t l, find_all w st t = Some l → NoDup (Id <$> l) ∧
  ∀ r, r ∈ l ↔ t !! Id r = Some r ∧ status r = st ∧ ∀ id, w = Some id → GetString "worker" r = id.

(** A change of one run that a relation on records allows. *)
Definition changes (R : string → record → record → Prop) (t t' : table) : Prop :=
  table_wf t' ∧ ∀ id r, t !! id = Some r → ∃ r', t' !! id = Some r' ∧ R id r r'.

Section changes.
Context (R : string → record → record → Prop) (HR : ∀ id, PreOrder (R id)).

Lemma changes_refl t : table_wf t → changes R t t.
Proof. intros Hw. split; [done|]. intros id r Hr. exists r. split; [done|]. reflexivity. Qed.

Lemma changes_trans t1 t2 t3 : changes R t1 t2 → changes R t2 t3 → changes R t1 t3.
Proof.
  intros [_ H1] [Hw H2]. split; [done|]. intros id r Hr. destruct (H1 id r Hr) as (r2 & Hr2 & HR2).
  destruct (H2 id r2 Hr2) as (r3 & Hr3 & HR3). exists r3. split; [done|]. by transitivity r2.
Qed.

Lemma changes_save e rec r0 t t' : table_wf t → t !! Id rec = Some r0 →
  R (Id rec) r0 (SetTime "updated" (now e) rec) → Save e rec t = Some t' → changes R t t'.
Proof.
  intros Hw Hr HR'. unfold Save. destruct (save_ok e); [|done]. intros [= <-]. split.
  - intros id r [[<- <-]|[_ ?]]%lookup_insert_Some; [done|by apply Hw].
  - intros id r Hid. destruct (decide (id = Id rec)) as [->|].
    + eexists. rewrite lookup_insert_eq. split; [done|]. by simplify_eq.
    + exists r. by rewrite lookup_insert_ne.
Qed.

Lemma changes_each f l : (∀ rec t, rec ∈ l → table_wf t → changes R t (f rec t).2) →
  ∀ err t, table_wf t → changes R t (each f l err t).2.
Proof.
  induction l as [|rec l IH]; intros Hf err t Hw; [by apply changes_refl|]. cbn [each].
  pose proof (Hf rec t ltac:(by left) Hw) as Hc. destruct (f rec t) as [e1 t1]. simpl in Hc.
  eapply changes_trans; [exact Hc|]. apply IH; [|apply Hc]. intros; apply Hf; [by right|done].
Qed.
End changes.

(** Progress of a run: pending, running, finished. *)
Definition rank (s : string) : nat := if terminal s then 2 else if decide (s = "running") then 1 else 0.

Definition advance (_ : string) (r r' : record) : Prop :=
  rank (status r) ≤ rank (status r') ∧ GetString "job" r' = GetString "job" r ∧
  GetString "worker" r' = GetString "worker" r ∧ GetString "trigger" r' = GetString "trigger" r.

#[export] Instance advance_preorder id : PreOrder (advance id).
Proof.
  split; [by intros r|]. intros r1 r2 r3 (? & ? & ? & ?) (? & ? & ? & ?).
  split; [lia|]. split; [congruence|]. split; congruence.
Qed.

(** A finished run stays as it is, unless [upd] allows an update of it. *)
Definition settled (upd : string → Prop) (id : string) (r r' : record) : Prop :=
  terminal (status r) = true → ¬ upd id →
  status r' = status r ∧ GetString "output" r' = GetString "output" r ∧
  fields r' !! "duration_ms" = fields r !! "duration_ms".

#[export] Instance settled_preorder upd id : PreOrder (settled upd id).
Proof.
  split; [by intros r|]. intros r1 r2 r3 H12 H23 Ht Hu. destruct (H12 Ht Hu) as (E1 & E2 & E3).
  destruct H23 as (F1 & F2 & F3); [by rewrite E1|done|]. split; [congruence|]. split; congruence.
Qed.

(** Both at once. *)
Definition progress (upd : string → Prop) (id : string) (r r' : record) : Prop :=
  advance id r r' ∧ settled upd id r r'.

#[export] Instance progress_preorder upd id : PreOrder (progress upd id).
Proof.
  split; [by intros r|]. intros r1 r2 r3 [H1 H2] [H3 H4]. split; [by transitivity r2|by transitivity r2].
Qed.

Lemma unchanged upd t : table_wf t → changes (progress upd) t t.
Proof. apply changes_refl, progress_preorder. Qed.

Lemma FindRecordById_Some e id t r : table_wf t → FindRecordById e id t = Some r → t !! id = Some r ∧ Id r = id.
Proof. intros Hw. unfold FindRecordById. destruct (find_ok e); [|done]. intros Hr. split; [done|by apply Hw]. Qed.

(** Reading a run through the writes of an operation. *)
Ltac run_simpl := unfold status, SetTime in *; record_simpl.

Lemma rank_le_2 s : rank s ≤ 2.
Proof. unfold rank. repeat case_match; lia. Qed.

Lemma finish_progress upd id r r' : terminal (status r') = true → (terminal (status r) = true → upd id) →
  GetString "job" r' = GetString "job" r → GetString "worker" r' = GetString "worker" r →
  GetString "trigger" r' = GetString "trigger" r → progress upd id r r'.
Proof.
  intros Ht Hu Hj Hw Htr. split; [|intros Hx Hn; exfalso; auto].
  split; [|done]. unfold rank at 2. rewrite Ht. apply rank_le_2.
Qed.

Lemma progress_started upd e id t : table_wf t → changes (progress upd) t (setJobRunStarted e id t).2.
Proof.
  intros Hw. unfold setJobRunStarted. destruct (FindRecordById e id t) as [r|] eqn:Ef; [|by apply unchanged].
  apply FindRecordById_Some in Ef as [Hr <-]; [|done].
  destruct (terminal (status r)) eqn:Et; [by apply unchanged|]. cbv zeta.
  destruct (Save e _ t) as [t'|] eqn:Es; [|by apply unchanged].
  apply (changes_save _ (progress_preorder upd) e _ r _ _ Hw) in Es; [done..|]. split; [|by intros ?; congruence].
  split; [|by run_simpl]. run_simpl. unfold rank. rewrite Et. simpl. case_decide; lia.
Qed.

Lemma progress_patch upd e id name sha t : table_wf t → changes (progress upd) t (patchJobRunMeta e id name sha t).2.
Proof.
  intros Hw. unfold patchJobRunMeta. destruct (FindRecordById e id t) as [r|] eqn:Ef; [|by apply unchanged].
  apply FindRecordById_Some in Ef as [Hr <-]; [|done].
  destruct (Save e _ t) as [t'|] eqn:Es; [|by apply unchanged].
  apply (changes_save _ (progress_preorder upd) e _ r _ _ Hw) in Es; [done..|]. split; [split; by run_simpl|].
  intros _ _. by run_simpl.
Qed.

Lemma progress_update (upd : string → Prop) e id st output d q x t : table_wf t → upd id →
  st = "success" ∨ st = "error" → changes (progress upd) t (updateJobRun e id st output d q x t).2.
Proof.
  intros Hw Hu Hst. unfold updateJobRun. destruct (FindRecordById e id t) as [r|] eqn:Ef; [|by apply unchanged].
  apply FindRecordById_Some in Ef as [Hr <-]; [|done]. cbv zeta.
  destruct (Save e _ t) as [t'|] eqn:Es; [|by apply unchanged].
  assert (terminal st = true) as Ht by (by destruct Hst as [->| ->]).
  apply (changes_save _ (progress_preorder upd) e _ r _ _ Hw) in Es; [done|..].
  - by repeat case_match.
  - apply finish_progress; [..|]; repeat case_match; run_simpl; done.
Qed.

Lemma progress_lose upd e st output id t : table_wf t → terminal st = true →
  changes (progress upd) t (lose e st output id t).2.
Proof.
  intros Hw Hst. unfold lose. destruct (FindRecordById e id t) as [r|] eqn:Ef; [|by apply unchanged].
  apply FindRecordById_Some in Ef as [Hr <-]; [|done]. case_decide as Hs; [by apply unchanged|].
  destruct (Save e _ t) as [t'|] eqn:Es; [|by apply unchanged].
  apply (changes_save _ (progress_preorder upd) e _ r _ _ Hw) in Es; [done..|].
  apply finish_progress; [by run_simpl| |by run_simpl..]. by rewrite Hs.
Qed.

Lemma progress_pending upd e rec cutoff t : table_wf t →
  changes (progress upd) t (reconcileSinglePendingRun e rec cutoff t).2.
Proof.
  intros Hw. unfold reconcileSinglePendingRun. destruct (negb _); [by apply unchanged|].
  destruct (FindRecordById e (Id rec) t) as [r|] eqn:Ef; [|by apply unchanged].
  apply FindRecordById_Some in Ef as [Hr Hid]; [|done]. case_decide as Hs; [by apply unchanged|].
  destruct (Save e _ t) as [t'|] eqn:Es; [|by apply unchanged].
  apply (changes_save _ (progress_preorder upd) e _ r _ _ Hw) in Es; [done|by rewrite -Hid in Hr|].
  apply finish_progress; [by run_simpl| |by run_simpl..]. by rewrite Hs.
Qed.

Lemma progress_create upd e id jobID workerID trigger st output ret t : table_wf t → t !! id = None →
  changes (progress upd) t (createJobRun e id jobID workerID trigger st output ret t).2.
Proof.
  intros Hw Hn. unfold createJobRun. destruct (find_ok e); [|by apply unchanged]. cbn [negb].
  assert (Id (new_run e id jobID workerID trigger st output ret) = id) as Hid
    by (unfold new_run; by case_decide; destruct output).
  unfold Save. destruct (save_ok e); [|by apply unchanged]. cbn [snd]. split.
  - intros k r [[<- <-]|[_ ?]]%lookup_insert_Some; [done|by apply Hw].
  - intros k r Hk. exists r. rewrite Hid. rewrite lookup_insert_ne; [done|]. congruence.
Qed.

Context (Hq : queries_ok).

Lemma progress_disconnect upd e workerID t : table_wf t →
  changes (progress upd) t (HandleWorkerDisconnect e workerID t).2.
Proof.
  intros Hw. unfold HandleWorkerDisconnect. destruct (find_all _ _ t) as [l|] eqn:El; [|by apply unchanged].
  destruct (Hq _ _ _ _ El) as [Hn Hl].
  assert (∀ l' err t1, (∀ r, r ∈ l' → t1 !! Id r = Some r ∧ status r = "running") → NoDup (Id <$> l') → table_wf t1 →
    changes (progress upd) t1 (each (λ rec t, match Save (e (Id rec)) (SetInt "execution_time_ms" (getJobTimeoutMs rec)
        (SetStr "output" lost_output (SetStr "status" "error" rec))) t with
      | Some t' => (None, t') | None => (Some (SaveFailed (Id rec)), t) end) l' err t1).2) as Hall.
  { induction l' as [|rec l' IH]; intros err t1 Hl' Hn' Hw1; [by apply unchanged|]. cbn [each].
    rewrite fmap_cons in Hn'. apply NoDup_cons in Hn' as [Hni Hn']. destruct (Hl' rec) as [Hr Hs]; [by left|].
    destruct (Save _ _ t1) as [t2|] eqn:Es; [|by apply IH; [intros; apply Hl'; right|..]].
    assert (changes (progress upd) t1 t2) as Hc.
    { apply (changes_save _ (progress_preorder upd) _ _ rec _ _ Hw1) in Es; [exact Es|exact Hr|].
      apply finish_progress; [by run_simpl| |by run_simpl..]. by rewrite Hs. }
    eapply (changes_trans _ (progress_preorder upd)); [exact Hc|]. apply IH; [|done|apply Hc].
    intros r Hin. destruct (Hl' r) as [Hr' Hs']; [by right|]. split; [|done].
    unfold Save in Es. destruct (save_ok _); [|done]. simplify_eq. simpl. rewrite lookup_insert_ne //.
    intros E. apply Hni. rewrite E. by apply list_elem_of_fmap_2. }
  apply Hall; [|done|done]. intros r Hr. apply Hl in Hr as (? & ? & _). done.
Qed.

Lemma step_progress upd t t' : table_wf t → run_step upd t t' → changes (progress upd) t t'.
Proof.
  intros Hw Hs. destruct Hs.
  - by apply progress_create.
  - by apply progress_patch.
  - by apply progress_started.
  - by apply progress_update.
  - unfold reconcileSingleRunningRun. destruct (negb _); [by apply unchanged|by apply progress_lose].
  - by apply progress_pending.
  - by apply progress_lose.
  - by apply progress_disconnect.
Qed.

Lemma steps_progress upd t t' : table_wf t → rtc (run_step upd) t t' → changes (progress upd) t t'.
Proof.
  intros Hw Hs. induction Hs as [t|t1 t2 t3 Hs _ IH]; [by apply unchanged|].
  apply step_progress in Hs; [|done]. eapply (changes_trans _ (progress_preorder upd)); [exact Hs|]. apply IH, Hs.
Qed.

(** ** Sweeps over listed runs *)

(** The effect of an operation on its own run: an error, a new record. *)
Definition effect := record → option record → option run_error * option record.

Definition put (id : string) (o : option record) (t : table) : table :=
  match o with Some r => <[id := r]> t | None => t end.

Definition acts (f : record → table → option run_error * table) (g : effect) : Prop :=
  ∀ rec t, table_wf t → f rec t = ((g rec (t !! Id rec)).1, put (Id rec) (g rec (t !! Id rec)).2 t) ∧
    ∀ r', (g rec (t !! Id rec)).2 = Some r' → Id r' = Id rec.

Lemma put_wf id o t : table_wf t → (∀ r, o = Some r → Id r = id) → table_wf (put id o t).
Proof.
  intros Hw Ho. destruct o as [r|]; [|done]. simpl. intros k r' [[<- <-]|[_ ?]]%lookup_insert_Some; [by apply Ho|by apply Hw].
Qed.

Lemma put_ne id k o t : k ≠ id → put id o t !! k = t !! k.
Proof. intros. destruct o; [|done]. simpl. by rewrite lookup_insert_ne. Qed.

Lemma put_eq id o t : put id o t !! id = match o with Some r => Some r | None => t !! id end.
Proof. destruct o; [|done]. simpl. by rewrite lookup_insert_eq. Qed.

Lemma each_spec f g l : acts f g → NoDup (Id <$> l) → ∀ err t err' t', table_wf t → each f l err t = (err', t') →
  table_wf t' ∧
  (∀ rec, rec ∈ l → t' !! Id rec = match (g rec (t !! Id rec)).2 with Some r => Some r | None => t !! Id rec end) ∧
  (∀ id, id ∉ Id <$> l → t' !! id = t !! id) ∧
  (err' = None ↔ err = None ∧ ∀ rec, rec ∈ l → (g rec (t !! Id rec)).1 = None).
Proof.
  intros Hf. induction l as [|rec l IH]; intros Hn err t err' t' Hw; cbn [each].
  { intros [= <- <-]. split; [done|]. split; [set_solver|]. split; [done|]. split; [|tauto].
    intros ->. split; [done|]. set_solver. }
  rewrite fmap_cons in Hn. apply NoDup_cons in Hn as [Hni Hn].
  destruct (Hf rec t Hw) as [Hft Hid]. rewrite Hft. intros He. apply IH in He as (Hw' & Hin & Hout & Herr); [|done|].
  2: { by apply put_wf. }
  assert (∀ r, r ∈ l → Id r ≠ Id rec) as Hne.
  { intros r Hr E. apply Hni. rewrite -E. by apply list_elem_of_fmap_2. }
  split; [done|]. split; [|split].
  - intros r [->|Hr]%elem_of_cons; [rewrite Hout // put_eq //|]. rewrite Hin // put_ne //. by apply Hne.
  - intros id Hi. rewrite fmap_cons not_elem_of_cons in Hi. destruct Hi. rewrite Hout // put_ne //.
  - rewrite Herr. setoid_rewrite elem_of_cons. unfold first. split.
    + intros [Hfirst Hl]. destruct err; [done|]. split; [done|]. intros r [->|Hr]; [done|].
      specialize (Hl r Hr). rewrite put_ne in Hl; [done|by apply Hne].
    + intros [-> Hl]. split; [by apply Hl; left|]. intros r Hr. rewrite put_ne; [|by apply Hne].
      apply Hl. by right.
Qed.

Definition save_effect (e : db) (rec : record) : option run_error * option record :=
  if save_ok e then (None, Some (SetTime "updated" (now e) rec)) else (Some (SaveFailed (Id rec)), None).

Definition lost (st output : string) (r : record) : record :=
  SetInt "execution_time_ms" (getJobTimeoutMs r) (SetStr "output" output (SetStr "status" st r)).

Definition lose_effect (e : db) (st output : string) (o : option record) : option run_error * option record :=
  match o with
  | Some r => if find_ok e && bool_decide (status r = "running") then save_effect e (lost st output r) else (None, None)
  | None => (None, None)
  end.

Lemma lose_acts e st output id t : table_wf t →
  lose e st output id t = ((lose_effect e st output (t !! id)).1, put id (lose_effect e st output (t !! id)).2 t) ∧
  ∀ r', (lose_effect e st output (t !! id)).2 = Some r' → Id r' = id.
Proof.
  intros Hw. unfold lose, lose_effect, FindRecordById. destruct (t !! id) as [r|] eqn:Hr; [|by destruct (find_ok e)].
  apply Hw in Hr as <-. destruct (find_ok e); [|done]. simpl.
  destruct (decide (status r = "running")) as [E|E].
  - rewrite decide_False; [|tauto]. rewrite bool_decide_eq_true_2 //. unfold save_effect, Save.
    destruct (save_ok e); split; naive_solver.
  - rewrite decide_True // bool_decide_eq_false_2 //.
Qed.

Definition pending_output : string :=
  "job failed: stuck in pending for more than 15 minutes (failed to dispatch to worker)".
Definition forgotten_output : string := "job forgotten: still running after 1 hour with no completion signal".

Definition undispatched (r : record) : record := SetStr "output" pending_output (SetStr "status" "error" r).

Definition pending_effect (e : db) (o : option record) : option run_error * option record :=
  match o with
  | Some r => if find_ok e && bool_decide (status r = "pending") then save_effect e (undispatched r) else (None, None)
  | None => (None, None)
  end.

Definition running_sweep (e : string → db) (cutoff : Z) : effect := λ rec o,
  if time_before (GetTime "updated" rec) cutoff then lose_effect (e (Id rec)) "forgotten" forgotten_output o
  else (None, None).
Definition pending_sweep (e : string → db) (cutoff : Z) : effect := λ rec o,
  if time_before (GetTime "updated" rec) cutoff then pending_effect (e (Id rec)) o else (None, None).

Lemma running_acts e cutoff :
  acts (λ rec, reconcileSingleRunningRun (e (Id rec)) rec cutoff) (running_sweep e cutoff).
Proof.
  intros rec t Hw. unfold reconcileSingleRunningRun, running_sweep.
  destruct (time_before _ _); simpl; [by apply lose_acts|done].
Qed.

Lemma pending_acts e cutoff :
  acts (λ rec, reconcileSinglePendingRun (e (Id rec)) rec cutoff) (pending_sweep e cutoff).
Proof.
  intros rec t Hw. unfold reconcileSinglePendingRun, pending_sweep, pending_effect, FindRecordById.
  destruct (time_before _ _); simpl; [|done]. destruct (t !! Id rec) as [r|] eqn:Hr; [|by destruct (find_ok _)].
  apply Hw in Hr. rewrite -Hr. destruct (find_ok _); [|done]. simpl.
  destruct (decide (status r = "pending")) as [E|E].
  - rewrite decide_False; [|tauto]. rewrite bool_decide_eq_true_2 //. unfold save_effect, Save.
    destruct (save_ok _); split; naive_solver.
  - rewrite decide_True // bool_decide_eq_false_2 //.
Qed.

(** A run the reaper is due to close, and as what. *)
Definition due (clock : Z) (r : record) : option record :=
  if bool_decide (status r = "running") && time_before (GetTime "updated" r) (clock - maxJobRunDuration)
  then Some (lost "forgotten" forgotten_output r)
  else if bool_decide (status r = "pending") && time_before (GetTime "updated" r) (clock - maxJobRunPendingDuration)
  then Some (undispatched r) else None.

(** The runs a query is about. *)
Definition selected (w : option string) (st : string) (r : record) : Prop :=
  status r = st ∧ ∀ id, w = Some id → GetString "worker" r = id.

(** A sweep over the runs a query returned. *)
Lemma sweep_spec w st f g t l err err' t' : acts f g → find_all w st t = Some l → table_wf t →
  each f l err t = (err', t') → table_wf t' ∧
  (∀ id r, t !! id = Some r → selected w st r →
     t' !! id = match (g r (Some r)).2 with Some r' => Some r' | None => Some r end) ∧
  (∀ id r, t !! id = Some r → ¬ selected w st r → t' !! id = Some r) ∧
  (∀ id, t !! id = None → t' !! id = None) ∧
  (err' = None ↔ err = None ∧ ∀ id r, t !! id = Some r → selected w st r → (g r (Some r)).1 = None).
Proof.
  intros Hf Hl Hw He. destruct (Hq _ _ _ _ Hl) as [Hn Hin].
  destruct (each_spec f g l Hf Hn err t err' t' Hw He) as (Hw' & H1 & H2 & H3).
  assert (∀ id r, t !! id = Some r → selected w st r → r ∈ l ∧ Id r = id) as Hmem.
  { intros id r Hr Hs. pose proof (Hw _ _ Hr) as <-. split; [|done]. by apply Hin. }
  split; [done|]. split; [|split; [|split]].
  - intros id r Hr Hs. destruct (Hmem id r Hr Hs) as [Hm <-]. rewrite (H1 r Hm) Hr. done.
  - intros id r Hr Hs. rewrite H2 //. intros (r' & Hid & Hr')%list_elem_of_fmap. apply Hin in Hr' as (Hr' & Hs').
    apply Hs. assert (r = r') as -> by congruence. done.
  - intros id Hnone. rewrite H2 //. intros (r' & Hid & Hr')%list_elem_of_fmap.
    apply Hin in Hr' as (Hr' & _). congruence.
  - rewrite H3. split; intros [Ha Hb]; (split; [done|]).
    + intros id r Hr Hs. destruct (Hmem id r Hr Hs) as [Hm <-]. specialize (Hb r Hm). by rewrite Hr in Hb.
    + intros rec Hr. apply Hin in Hr as (Hr & Hs). rewrite Hr. by eapply Hb.
Qed.

(** ** Properties *)

(** However the operations of the scheduler interleave and whatever database
    calls fail, no run disappears or changes its job, worker or trigger, and its
    status only moves forward: a running run never becomes pending again and a
    finished one is never reopened. *)
Theorem job_run_lifecycle t t' id r : table_wf t → rtc (run_step (λ _, True)) t t' → t !! id = Some r →
  ∃ r', t' !! id = Some r' ∧ rank (status r) ≤ rank (status r') ∧
    GetString "job" r' = GetString "job" r ∧ GetString "worker" r' = GetString "worker" r ∧
    GetString "trigger" r' = GetString "trigger" r.
Proof.
  intros Hw Hs Hr. destruct (steps_progress _ _ _ Hw Hs) as [_ Hp].
  destruct (Hp id r Hr) as (r' & Hr' & [Ha _]). exists r'. split; [done|]. apply Ha.
Qed.

(** A saved update. *)
Lemma completion_saved e id st output d q x t r0 : table_wf t → t !! id = Some r0 →
  find_ok e = true → save_ok e = true →
  ∃ r, (updateJobRun e id st output d q x t).2 !! id = Some r ∧ status r = st ∧
    GetString "output" r = truncate_output MaxOutputLength output ∧
    fields r !! "duration_ms" = Some (VNum (Itoa d)).
Proof.
  intros Hw Hr0 Hf Hs. unfold updateJobRun, FindRecordById, Save. rewrite Hf Hr0 Hs. cbv zeta. cbn [snd].
  pose proof (Hw _ _ Hr0) as Hid.
  repeat case_match; eexists; (split; [cbn [Id SetField SetInt SetStr SetTime]; rewrite Hid; apply lookup_insert_eq|]);
    run_simpl; done.
Qed.

(** C35: A completion is final: once the completion of a run is saved, its status,
    output and duration stay what the worker reported, even if the start
    acknowledgement, the reaper, a worker report or a disconnect comes later, in any
    order and number. *)
Theorem completion_is_final e msg t t' : table_wf t → is_Some (t !! JobRunID msg) →
  find_ok e = true → save_ok e = true →
  rtc (run_step (λ id, id ≠ JobRunID msg)) (HandleJobCompleted e msg t) t' →
  ∃ r, t' !! JobRunID msg = Some r ∧ status r = (if Success msg then "success" else "error") ∧
    GetString "output" r = truncate_output MaxOutputLength (Output msg) ∧
    fields r !! "duration_ms" = Some (VNum (Itoa (DurationMs msg))).
Proof.
  intros Hw [r0 Hr0] Hf Hs Hrun.
  destruct (completion_saved e (JobRunID msg) (if Success msg then "success" else "error") (Output msg) (DurationMs msg)
    (QueueTimeMs msg) (ExecutionTimeMs msg) t r0 Hw Hr0 Hf Hs) as (r & Hr & H1 & H2 & H3).
  destruct (λ H, steps_progress (λ id, id ≠ JobRunID msg) _ t' H Hrun) as [_ Hp].
  { apply (progress_update (λ _, True) e (JobRunID msg)); [done|done|]. destruct (Success msg); [by left|by right]. }
  destruct (Hp _ _ Hr) as (r' & Hr' & [_ Hset]). exists r'. split; [done|].
  destruct Hset as (E1 & E2 & E3); [rewrite H1; by destruct (Success msg)|tauto|].
  rewrite E1 E2 E3. done.
Qed.

(** Every query succeeds. *)
Definition queries_answer : Prop := ∀ w st t, find_all w st t ≠ None.

Definition stamp (e : db) (r : record) : record := SetTime "updated" (now e) r.

(** What the reaper does to one run. *)
Definition reap_effect (e : db) (clock : Z) (r : record) : option run_error * option record :=
  match due clock r with
  | Some r' => if find_ok e then save_effect e r' else (None, None)
  | None => (None, None)
  end.

Lemma sweep_running e clock r : status r = "running" →
  running_sweep e (clock - maxJobRunDuration) r (Some r) = reap_effect (e (Id r)) clock r.
Proof.
  intros Hs. unfold running_sweep, lose_effect, reap_effect, due. rewrite Hs /=.
  destruct (time_before _ _); [|done]. by destruct (find_ok _).
Qed.

Lemma sweep_pending e clock r : status r = "pending" →
  pending_sweep e (clock - maxJobRunPendingDuration) r (Some r) = reap_effect (e (Id r)) clock r.
Proof.
  intros Hs. unfold pending_sweep, pending_effect, reap_effect, due. rewrite Hs /=.
  destruct (time_before _ (clock - maxJobRunPendingDuration)); [|done]. by destruct (find_ok _).
Qed.

Lemma reap_other e clock r : status r ≠ "running" → status r ≠ "pending" → reap_effect e clock r = (None, None).
Proof. intros H1 H2. unfold reap_effect, due. by rewrite !bool_decide_eq_false_2. Qed.

Lemma selected_all st r : selected None st r ↔ status r = st.
Proof. unfold selected. naive_solver. Qed.

(** No run becomes pending in the first sweep. *)
Lemma reaped_not_pending e clock r r1 : (reap_effect e clock r).2 = Some r1 → status r1 ≠ "pending".
Proof.
  unfold reap_effect, due, save_effect. intros Hr. repeat case_match; simplify_eq/=.
  - unfold lost. by run_simpl.
  - unfold undispatched. by run_simpl.
Qed.

Lemma mark_spec e clock t err t' : table_wf t → queries_answer → MarkForgottenRuns e clock t = (err, t') →
  (∀ id, t !! id = None → t' !! id = None) ∧
  (∀ id r, t !! id = Some r →
     t' !! id = match (reap_effect (e id) clock r).2 with Some r' => Some r' | None => Some r end) ∧
  (err = None ↔ ∀ id r, t !! id = Some r → (reap_effect (e id) clock r).1 = None).
Proof.
  intros Hw Ha. unfold MarkForgottenRuns.
  destruct (find_all None "running" t) as [l1|] eqn:E1; [|by destruct (Ha _ _ _ E1)].
  destruct (each _ l1 None t) as [err1 t1] eqn:P1.
  destruct (find_all None "pending" t1) as [l2|] eqn:E2; [|by destruct (Ha _ _ _ E2)]. intros P2.
  destruct (sweep_spec _ _ _ _ _ _ _ _ _ (running_acts e _) E1 Hw P1) as (Hw1 & A1 & A2 & A3 & A4).
  destruct (sweep_spec _ _ _ _ _ _ _ _ _ (pending_acts e _) E2 Hw1 P2) as (_ & B1 & B2 & B3 & B4).
  assert (∀ id r, t !! id = Some r → status r = "running" → ∃ r1, t1 !! id = Some r1 ∧ status r1 ≠ "pending" ∧
    r1 = match (reap_effect (e id) clock r).2 with Some r' => r' | None => r end) as Hrun.
  { intros id r Hr Hs. pose proof (A1 id r Hr (proj2 (selected_all _ _) Hs)) as Ht1.
    rewrite sweep_running // (Hw _ _ Hr) in Ht1. destruct ((reap_effect _ _ _).2) as [r1|] eqn:Er.
    - exists r1. split; [done|]. split; [by eapply reaped_not_pending|done].
    - exists r. rewrite Hs. done. }
  split; [auto|]. split.
  - intros id r Hr. destruct (decide (status r = "running")) as [Hs|Hs].
    { destruct (Hrun id r Hr Hs) as (r1 & Ht1 & Hn & ->). rewrite (B2 id _ Ht1); [by destruct ((reap_effect _ _ _).2)|].
      by rewrite selected_all. }
    pose proof (A2 id r Hr ltac:(by rewrite selected_all)) as Ht1.
    destruct (decide (status r = "pending")) as [Hp|Hp].
    + rewrite (B1 id r Ht1); [|by rewrite selected_all]. by rewrite sweep_pending // (Hw _ _ Hr).
    + rewrite (B2 id r Ht1); [|by rewrite selected_all]. by rewrite reap_other.
  - rewrite B4 A4. split.
    + intros [[_ HA] HB] id r Hr. destruct (decide (status r = "running")) as [Hs|Hs].
      { rewrite -{1}(Hw _ _ Hr) -sweep_running //. by apply (HA id r Hr), selected_all. }
      destruct (decide (status r = "pending")) as [Hp|Hp]; [|by rewrite reap_other].
      rewrite -{1}(Hw _ _ Hr) -sweep_pending //. apply (HB id r); [|by apply selected_all].
      apply (A2 id r Hr). by rewrite selected_all.
    + intros Hall. split; [split; [done|]|].
      * intros id r Hr Hs%selected_all. rewrite sweep_running // (Hw _ _ Hr). by apply Hall.
      * intros id r Hr Hp%selected_all. rewrite sweep_pending // (Hw1 _ _ Hr). apply Hall.
        destruct (t !! id) as [r0|] eqn:E0; [|by rewrite (A3 id E0) in Hr].
        destruct (decide (status r0 = "running")) as [Hs0|Hs0].
        -- destruct (Hrun id r0 E0 Hs0) as (r1 & Ht1 & Hn & _). congruence.
        -- pose proof (A2 id r0 E0 ltac:(by rewrite selected_all)). congruence.
Qed.

(** The reaper closes exactly the runs that are due: running for an hour without
    an update (forgotten), pending for a quarter of an hour (error); every other run
    is untouched, as is a due one the database does not let it read or save, and it
    reports an error exactly when a due run could not be saved. *)
Theorem reaper_exact e clock t err t' : table_wf t → queries_answer →
  MarkForgottenRuns e clock t = (err, t') →
  (∀ id, t' !! id = match t !! id with
     | Some r => match due clock r with
                 | Some r' => if find_ok (e id) && save_ok (e id) then Some (stamp (e id) r') else Some r
                 | None => Some r
                 end
     | None => None
     end) ∧
  (err = None ↔ ∀ id r, t !! id = Some r → due clock r ≠ None → find_ok (e id) = true → save_ok (e id) = true).
Proof.
  intros Hw Ha HM. destruct (mark_spec e clock t err t' Hw Ha HM) as (H1 & H2 & H3). unfold reap_effect in *. split.
  - intros id. destruct (t !! id) as [r|] eqn:Hr; [|by apply H1]. rewrite (H2 id r Hr). unfold save_effect.
    destruct (due clock r); [|done]. by destruct (find_ok (e id)), (save_ok (e id)).
  - rewrite H3. unfold save_effect. split.
    + intros Hall id r Hr Hd Hf. specialize (Hall id r Hr). destruct (due clock r); [|done]. rewrite Hf in Hall.
      by destruct (save_ok (e id)).
    + intros Hall id r Hr. specialize (Hall id r Hr). destruct (due clock r); [|done].
      destruct (find_ok (e id)); [|done]. by rewrite Hall.
Qed.

(** A run of the worker the server believes to be running. *)
Definition believed_running (workerID : string) (r : record) : bool :=
  bool_decide (status r = "running" ∧ GetString "worker" r = workerID).

Lemma selected_worker w r : selected (Some w) "running" r ↔ believed_running w r = true.
Proof. unfold selected, believed_running. rewrite bool_decide_eq_true. naive_solver. Qed.

(** A record that is saved when [b] holds. *)
Definition saved_if (b : bool) (e : db) (r r' : record) : option record :=
  if b && save_ok e then Some (stamp e r') else Some r.

(** When a worker reports what it runs, exactly its runs that the server believes
    running, that are not in the report and were not touched in the last minute, are
    marked lost; when it disconnects, exactly all its running runs are.  Every other
    run is untouched, and so is one the database does not let the scheduler save. *)
Theorem worker_reports_exact e clock workerID activeIDs t err1 t1 err2 t2 : table_wf t → queries_answer →
  ReconcileActiveJobs e clock workerID activeIDs t = (err1, t1) →
  HandleWorkerDisconnect e workerID t = (err2, t2) → ∀ id,
  t1 !! id = match t !! id with
    | Some r => saved_if (believed_running workerID r && bool_decide (id ∉ activeIDs)
                          && negb (time_after (GetTime "updated" r) (clock - 60000)) && find_ok (e id))
                  (e id) r (lost "error" lost_output r)
    | None => None
    end ∧
  t2 !! id = match t !! id with
    | Some r => saved_if (believed_running workerID r) (e id) r (lost "error" lost_output r)
    | None => None
    end.
Proof.
  intros Hw Ha HR HD id. unfold ReconcileActiveJobs in HR. unfold HandleWorkerDisconnect in HD.
  destruct (find_all _ _ t) as [l|] eqn:El; [|by destruct (Ha _ _ _ El)].
  set (g1 := (λ rec o, if decide (Id rec ∈ activeIDs) then (None, None)
    else if time_after (GetTime "updated" rec) (clock - 60000) then (None, None)
    else lose_effect (e (Id rec)) "error" lost_output o) : effect).
  set (g2 := (λ rec _, save_effect (e (Id rec)) (lost "error" lost_output rec)) : effect).
  assert (acts (λ rec t, if decide (Id rec ∈ activeIDs) then (None, t)
    else if time_after (GetTime "updated" rec) (clock - 60000) then (None, t)
    else lose (e (Id rec)) "error" lost_output (Id rec) t) g1) as Hg1.
  { intros rec t0 Hw0. unfold g1. destruct (decide _); [done|]. destruct (time_after _ _); [done|]. by apply lose_acts. }
  destruct (sweep_spec _ _ _ _ _ _ _ _ _ Hg1 El Hw HR) as (_ & A1 & A2 & A3 & _).
  match type of HD with each ?f _ _ _ = _ => assert (acts f g2) as Hg2 end.
  { intros rec t0 Hw0. unfold g2, save_effect, Save. destruct (save_ok _); (split; [done|]); [|done]. by intros ? [= <-]. }
  destruct (sweep_spec _ _ _ _ _ _ _ _ _ Hg2 El Hw HD) as (_ & B1 & B2 & B3 & _).
  destruct (t !! id) as [r|] eqn:Hr; [|by rewrite A3 // B3]. pose proof (Hw _ _ Hr) as Hid.
  setoid_rewrite selected_worker in A1. setoid_rewrite selected_worker in A2.
  setoid_rewrite selected_worker in B1. setoid_rewrite selected_worker in B2. unfold saved_if.
  destruct (believed_running workerID r) eqn:Eb.
  - rewrite (A1 id r Hr Eb) (B1 id r Hr Eb). unfold g1, g2, lose_effect, save_effect. rewrite Hid.
    unfold believed_running in Eb. apply bool_decide_eq_true in Eb as [Es _]. rewrite Es /=. split.
    + destruct (decide (id ∈ activeIDs)); [rewrite bool_decide_eq_false_2; [done|tauto]|]. rewrite bool_decide_eq_true_2 //.
      destruct (time_after _ _); [done|]. simpl. by destruct (find_ok (e id)), (save_ok (e id)).
    + by destruct (save_ok (e id)).
  - rewrite (A2 id r Hr) ?(B2 id r Hr) ?Eb //.
Qed.
End reaper.

(** ** Output *)

Lemma substring_length n m s : n + m ≤ String.length s → String.length (String.substring n m s) = m.
Proof.
  revert n m. induction s as [|a s IH]; intros [|n] [|m] Hl; simpl in *; try lia.
  - by rewrite (IH 0 m ltac:(lia)).
  - apply (IH n 0). lia.
  - apply (IH n (S m)). lia.
Qed.

(** A stored output never exceeds the limit: a longer one keeps as much of its
    beginning and of its end as fits around the marker. *)
Theorem output_bounded limit output : String.length truncation_marker ≤ limit →
  String.length (truncate_output limit output) ≤ limit ∧
  (String.length output ≤ limit → truncate_output limit output = output) ∧
  (limit < String.length output → String.length (truncate_output limit output) = limit ∧
     ∃ h u, h + u = limit - String.length truncation_marker ∧
       truncate_output limit output = String.substring 0 h output +:+ truncation_marker
         +:+ String.substring (String.length output - u) u output).
Proof.
  intros Hl. unfold truncate_output. generalize dependent truncation_marker. intros truncation_marker Hl. case_decide as Hd; [|split; [lia|]; split; [done|lia]].
  set (av := limit - String.length truncation_marker).
  assert (av = limit - String.length truncation_marker) as Hav by done. clearbody av.
  assert (av / 2 ≤ av) as Hh by (apply Nat.Div0.div_le_upper_bound; lia).
  assert (String.length (String.substring 0 (av / 2) output +:+ truncation_marker +:+
    String.substring (String.length output - (av - av / 2)) (av - av / 2) output) = limit) as E.
  { rewrite !slength_app. rewrite substring_length; [|lia]. rewrite substring_length; [|lia]. lia. }
  split; [lia|]. split; [lia|]. intros _. split; [done|]. exists (av / 2), (av - av / 2). split; [lia|done].
Qed.

(** ** Concrete runs *)
Definition toy_row (w : option string) (st : string) (kv : string * record) : option record :=
  if decide (Id kv.2 = kv.1 ∧ status kv.2 = st ∧ default (GetString "worker" kv.2) w = GetString "worker" kv.2)
  then Some kv.2 else None.
Definition toy_find_all (w : option string) (st : string) (t : table) : option (list record) :=
  Some (omap (toy_row w st) (map_to_list t)).

Lemma toy_queries : queries_ok toy_find_all.
Proof.
  intros w st t l [= <-]. split.
  - assert (∀ ml : list (string * record), NoDup ml.*1 → NoDup (Id <$> omap (toy_row w st) ml) ∧
      ∀ x, x ∈ Id <$> omap (toy_row w st) ml → x ∈ ml.*1) as Hs.
    { induction ml as [|[k r] ml IH]; intros Hn; [split; [constructor|done]|].
      rewrite fmap_cons in Hn. apply NoDup_cons in Hn as [Hni Hn]. destruct (IH Hn) as [IH1 IH2].
      cbn [omap list_omap]. destruct (toy_row w st (k, r)) as [y|] eqn:Ey; rewrite ?fmap_cons.
      - unfold toy_row in Ey. simpl in Ey. destruct (decide _) as [(Hk & _)|]; simplify_eq. simpl.
        split; [constructor; [auto|done]|]. intros x [->|Hx]%elem_of_cons; [by left|right; auto].
      - split; [done|]. intros x Hx. right. auto. }
    apply Hs, NoDup_fst_map_to_list.
  - intros r. rewrite list_elem_of_omap. split.
    + intros ([k r'] & Hin & Hr). apply elem_of_map_to_list in Hin. unfold toy_row in Hr. simpl in Hr.
      destruct (decide _) as [(Hk & Hs & Hw)|]; simplify_eq. split; [done|]. split; [done|]. by intros id ->.
    + intros (Hr & Hs & Hw). exists (Id r, r). rewrite elem_of_map_to_list. split; [done|]. unfold toy_row. simpl.
      rewrite decide_True //. split; [done|]. split; [done|]. destruct w; [symmetry; by apply Hw|done].
Qed.

Lemma toy_answers : queries_answer toy_find_all.
Proof. by intros w st t. Qed.

Definition ok_db (n : Z) : db := {| now := n; find_ok := true; save_ok := true |}.
Definition no_job (_ : string) : option record := None.
Definition no_parse (_ _ : string) : Definition_ + job_error := inr InvalidYAML.
Definition no_duration (_ : string) : option Z := None.

Definition run0 : table := (createJobRun (ok_db 1000) "r1" "j1" "w1" "cron" "pending" None 1 ∅).2.
Definition run1 : table := (setJobRunStarted (ok_db 2000) "r1" run0).2.
Definition done_msg : JobCompletedMessage :=
  {| JobRunID := "r1"; Success := true; Output := "ok"; DurationMs := 500; QueueTimeMs := 0; ExecutionTimeMs := 500 |}.

Lemma single_wf (r : record) : table_wf {[Id r := r]}.
Proof. by intros id r' [<- <-]%lookup_singleton_Some. Qed.

Lemma run0_wf : table_wf run0.
Proof. apply (single_wf (stamp (ok_db 1000) (new_run (ok_db 1000) "r1" "j1" "w1" "cron" "pending" None 1))). Qed.

Lemma run1_wf : table_wf run1.
Proof.
  exact (proj1 (progress_started (λ _, True) (ok_db 2000) "r1" run0 run0_wf)).
Qed.

Lemma job_run_lifecycle_witness : ∃ r', run1 !! "r1" = Some r' ∧ 0 ≤ rank (status r').
Proof.
  destruct (job_run_lifecycle no_job no_parse no_duration toy_find_all toy_queries run0 run1 "r1"
    (stamp (ok_db 1000) (new_run (ok_db 1000) "r1" "j1" "w1" "cron" "pending" None 1))) as (r' & Hr' & Hrank & _).
  - apply run0_wf.
  - eapply rtc_l; [|apply rtc_refl]. apply step_started.
  - reflexivity.
  - exists r'. split; [exact Hr'|exact Hrank].
Defined.

(** The acknowledgement of the start is recorded after the completion. *)
Lemma completion_is_final_witness :
  ∃ r, (setJobRunStarted (ok_db 4000) "r1" (HandleJobCompleted (ok_db 3000) done_msg run0)).2 !! "r1" = Some r ∧
       status r = "success".
Proof.
  destruct (completion_is_final no_job no_parse no_duration toy_find_all toy_queries (ok_db 3000) done_msg run0
    (setJobRunStarted (ok_db 4000) "r1" (HandleJobCompleted (ok_db 3000) done_msg run0)).2) as (r & Hr & Hs & _).
  - apply run0_wf.
  - eexists. reflexivity.
  - reflexivity.
  - reflexivity.
  - eapply rtc_l; [|apply rtc_refl]. apply step_started.
  - exists r. split; [exact Hr|exact Hs].
Defined.

Definition reaped : option run_error * table :=
  MarkForgottenRuns no_job no_parse no_duration toy_find_all (λ _, ok_db 4000000) 4000000 run1.

Lemma reaper_exact_witness : reaped.2 !! "r1" =
  Some (stamp (ok_db 4000000) (lost no_job no_parse no_duration "forgotten" forgotten_output (default {| Id := ""; fields := ∅ |} (run1 !! "r1")))).
Proof.
  rewrite (proj1 (reaper_exact no_job no_parse no_duration toy_find_all toy_queries (λ _, ok_db 4000000) 4000000 run1
    reaped.1 reaped.2 run1_wf toy_answers (surjective_pairing _)) "r1").
  vm_compute. reflexivity.
Defined.

Lemma worker_reports_exact_witness :
  (HandleWorkerDisconnect no_job no_parse no_duration toy_find_all (λ _, ok_db 5000) "w1" run1).2 !! "r1" =
  Some (stamp (ok_db 5000) (lost no_job no_parse no_duration "error" lost_output (default {| Id := ""; fields := ∅ |} (run1 !! "r1")))).
Proof.
  rewrite (proj2 (worker_reports_exact no_job no_parse no_duration toy_find_all toy_queries (λ _, ok_db 5000) 5000 "w1" []
    run1 _ _ _ _ run1_wf toy_answers (surjective_pairing _) (surjective_pairing _) "r1")).
  vm_compute. reflexivity.
Defined.

Lemma output_bounded_witness : String.length (truncate_output 50 (String.concat "" (repeat "0123456789" 10))) ≤ 50.
Proof. apply (output_bounded 50). vm_compute. lia. Defined.
