(* ===== verification/JobDispatch.v ===== *)
(** * internal/jobscheduler/scheduler.go: from a cron tick to the workers

    [executeJob] creates the runs of a job and starts one dispatch per run;
    [dispatchToWorker] checks the worker's policy and sends the command.  The state
    is the two tables and the commands sent.  What the code calls outside - the
    secret backends, the job file, the environment, the config files, the policy,
    the registry credentials, the worker's reply - is given by its result.  The
    tags of the connected workers are those of internal/worker/server.go. *)
From Stdlib Require Import ZArith.
From S2P Require Import Prelude GoStrings GoPath GoValue GoBase64 SafePath Policy ComposeDoc PbRecord ConfigFiles ConfigInject JobFile JobRuns.

(** ** Choosing workers *)

Definition workerHasAllTags (workerTags required : list string) : bool :=
  forallb (λ t, bool_decide (t ∈ workerTags)) required.

(** A Go map is copied and ranged over: any order. *)
Definition GetWorkersByTags `{GoRange} (workerTags : gmap string (list string)) (connected : string → bool)
    (tags : list string) : list string :=
  match tags with
  | [] => []
  | _ => (filter (λ kv, connected kv.1 = true ∧ workerHasAllTags kv.2 tags = true) (go_range workerTags)).*1
  end.

(** FNV-1a, 32 bits. *)
Fixpoint fnv1a (h : Z) (s : string) : Z :=
  match s with
  | "" => h
  | String a s => fnv1a ((Z.lxor h (Z.of_N (N_of_ascii a)) * 16777619) mod 2 ^ 32) s
  end.

Definition Sum32 (s : string) : Z := fnv1a 2166136261 s.

(** [workers] is not empty. *)
Definition pickWorker (jobID : string) (workers : list string) : string :=
  match workers with
  | [w] => w
  | _ => let idx := Z.to_nat (Sum32 jobID mod Z.of_nat (length workers)) in default "" (workers !! idx)
  end.

(** ** Display fields *)
Section names.
Context (IsLetter IsDigit : N → bool).

(** The loop over the runes of the name; the replacement rune of an invalid
    byte is neither a letter nor a digit. *)
Fixpoint sanitize_loop (fuel : nat) (previousSeparator : bool) (s : string) : string :=
  match fuel with
  | 0 => ""
  | S fuel =>
      if decide (s = "") then ""
      else
        let '(r, n) := decode_rune s in
        if IsLetter r || IsDigit r || bool_decide (r = 95%N) || bool_decide (r = 45%N) || bool_decide (r = 32%N)
        then String.substring 0 n s +:+ sanitize_loop fuel (bool_decide (r = 45%N) || bool_decide (r = 32%N)) (sdrop n s)
        else if previousSeparator then sanitize_loop fuel previousSeparator (sdrop n s)
        else "-" +:+ sanitize_loop fuel true (sdrop n s)
  end.

Definition sanitizeScheduledJobName (name id : string) : string :=
  let name := TrimSpace name in
  let sanitized := Trim (sanitize_loop (S (String.length name)) false name) [" "%char; "-"%char; "_"%char] in
  if decide (sanitized = "") then "job_" +:+ id else sanitized.

Definition fallbackScheduledJobName (jobFile id : string) : string :=
  let name := TrimSuffix (Base jobFile) (Ext jobFile) in
  if decide (name = "" ∨ name = ".") then "job_" +:+ id else name.

Definition ensureScheduledJobDisplayFields (def : option Definition_) (rec : record) : record :=
  match def with
  | Some d =>
      let name := if decide (d_Name d = "") then fallbackScheduledJobName (GetString "job_file" rec) (Id rec)
                  else d_Name d in
      SetStr "description" (d_Description d) (SetStr "name" (sanitizeScheduledJobName name (Id rec)) rec)
  | None =>
      if decide (GetString "name" rec = "") then
        SetStr "name" (sanitizeScheduledJobName (fallbackScheduledJobName (GetString "job_file" rec) (Id rec)) (Id rec)) rec
      else rec
  end.

(** ** The scheduled job *)
Definition setScheduledJobStatus (e : db) (jobID st : string) (jobs : table) : option run_error * table :=
  match FindRecordById e jobID jobs with
  | None => (Some (NotFound jobID), jobs)
  | Some rec =>
      if decide (status rec = "paused") then (None, jobs)
      else match Save e (SetStr "status" st (ensureScheduledJobDisplayFields None rec)) jobs with
           | Some jobs' => (None, jobs')
           | None => (Some (SaveFailed jobID), jobs)
           end
  end.

(** ** Dispatching one run *)
Record ConfigFileSpec := {
  cf_Name : string; cf_RelPath : string; cf_Target : string; cf_Mode : string; cf_ContentB64 : string }.

Record jobRunParams := {
  repoID : string; repoBranch : string; jobFile : string; commitSHA : string; def : Definition_;
  envMap : gmap string string; configFiles : list ConfigFileSpec }.

Record RunJobCommand := {
  CommandID : string; rj_JobRunID : string; JobName : string; Image : string; Command : list string;
  Env : gmap string string; RepositoryID : string; RepositoryBranch : string; RepositoryFile : string;
  CommitSHA : string; Volumes : list string; Network : string; CPUs : string; MemoryLimit : string;
  TimeoutSeconds : Z; ConfigFiles : list ConfigFileSpec; DispatchedAt : Z; RegistryAuthB64 : string;
  InsecureRegistries : list string }.

Inductive command := RunJob (c : RunJobCommand) | KillJob (commandID runID : string).

(** The reply of a worker: a transport error, an error of its own, or an
    acknowledgement. *)
Inductive reply := DispatchError (err : string) | WorkerError (err : string) | Acknowledged.

(** What happens around one dispatch. *)
Record dispatch_env := {
  de_patch : db; de_policy : WorkerPolicy + string; de_auth : (string * list string) + string;
  de_reply : reply; de_update : db; de_start : db; de_clock : Z }.

Section dispatch.
Context (ParseDuration : string → option Z).
(** The texts of errors. *)
Context (error_text : policy_error → string) (run_error_text : run_error → string).

Definition timeout_seconds (t : string) : Z :=
  if decide (t = "") then 0%Z else match ParseDuration t with Some d => (d ÷ 1000000000)%Z | None => 0%Z end.

Definition run_command (e : dispatch_env) (runID : string) (p : jobRunParams) (auth : string * list string)
  : RunJobCommand :=
  {| CommandID := "job-" +:+ runID; rj_JobRunID := runID; JobName := d_Name (def p); Image := d_Image (def p);
     Command := d_Command (def p); Env := envMap p; RepositoryID := repoID p; RepositoryBranch := repoBranch p;
     RepositoryFile := jobFile p; CommitSHA := commitSHA p; Volumes := d_Volumes (def p);
     Network := d_Network (def p); CPUs := CPU (d_Resources (def p)); MemoryLimit := Memory (d_Resources (def p));
     TimeoutSeconds := timeout_seconds (Timeout (d_Resources (def p))); ConfigFiles := configFiles p;
     DispatchedAt := de_clock e; RegistryAuthB64 := auth.1; InsecureRegistries := auth.2 |}.

(** The run is closed with an error. *)
Definition fail_run (e : dispatch_env) (runID msg : string) (t : table) : table :=
  (updateJobRun (de_update e) runID "error" msg 0 0 0 t).2.

(** The policy checks, in the order of the code. *)
Definition check_policy (wp : WorkerPolicy) (d : Definition_) : option policy_error :=
  ValidateImages wp [d_Image d] ;;? ValidateVolumes wp (d_Volumes d) ;;? ValidateNetwork wp (d_Network d).

(** The commands sent to the worker and the table afterwards. *)
Definition dispatchToWorker (e : dispatch_env) (runID : string) (p : jobRunParams) (t : table)
  : list command * table :=
  let containerName := "wireops-job-" +:+ runID in
  match patchJobRunMeta (de_patch e) runID containerName (commitSHA p) t with
  | (Some err, t1) => ([], fail_run e runID (run_error_text err) t1)
  | (None, t1) =>
      match de_policy e with
      | inr err => ([], fail_run e runID ("policy load error: " +:+ err) t1)
      | inl wp =>
          match check_policy wp (def p) with
          | Some err => ([], fail_run e runID ("policy violation: " +:+ error_text err) t1)
          | None =>
              match de_auth e with
              | inr err => ([], fail_run e runID ("registry auth error: " +:+ err) t1)
              | inl auth =>
                  let cmd := RunJob (run_command e runID p auth) in
                  match de_reply e with
                  | DispatchError err | WorkerError err => ([cmd], fail_run e runID err t1)
                  | Acknowledged =>
                      match setJobRunStarted (de_start e) runID t1 with
                      | (Some _, t2) => ([cmd; KillJob ("kill-" +:+ runID) runID], t2)
                      | (None, t2) => ([cmd], t2)
                      end
                  end
              end
          end
      end
  end.
End dispatch.

(** ** Config files of a job *)
Definition config_source (c : ConfigEntry) : Source := {| s_Name := ce_Name c; s_Path := ce_Path c |}.

(** [targetByName]: the last entry of a name; a missing one is the zero value. *)
Definition target_by_name (entries : list ConfigEntry) (name : string) : ConfigEntry :=
  default {| ce_Name := ""; ce_Path := ""; ce_Target := ""; ce_Mode := "" |}
    (last (filter (λ c, ce_Name c = name) entries)).

Definition config_spec (entries : list ConfigEntry) (rf : ResolvedFile) : ConfigFileSpec :=
  let c := target_by_name entries (rf_Name rf) in
  {| cf_Name := rf_Name rf; cf_RelPath := RelPath rf; cf_Target := ce_Target c; cf_Mode := ce_Mode c;
     cf_ContentB64 := EncodeToString (Content rf) |}.

(** [resolve] is [configfiles.Resolve] in the job's checkout. *)
Definition resolveJobConfigFiles (resolve : list Source → list ResolvedFile + resolve_error)
    (entries : list ConfigEntry) : list ConfigFileSpec + resolve_error :=
  match entries with
  | [] => inl []
  | _ => match resolve (config_source <$> entries) with
         | inl resolved => inl (config_spec entries <$> resolved)
         | inr err => inr err
         end
  end.

(** With distinct names, every resolved file is shipped once, with the target and
    mode of the entry it comes from and a content that decodes to the file's. *)
Lemma job_configs_faithful resolve entries resolved specs : NoDup (ce_Name <$> entries) → entries ≠ [] →
  resolve (config_source <$> entries) = inl resolved → resolveJobConfigFiles resolve entries = inl specs →
  length specs = length resolved ∧
  ∀ i rf c, resolved !! i = Some rf → c ∈ entries → ce_Name c = rf_Name rf →
    ∃ spec, specs !! i = Some spec ∧ cf_Name spec = rf_Name rf ∧ cf_RelPath spec = RelPath rf ∧
      cf_Target spec = ce_Target c ∧ cf_Mode spec = ce_Mode c ∧ DecodeString (cf_ContentB64 spec) = Some (Content rf).
Proof.
  intros Hn Hne Hr. unfold resolveJobConfigFiles. rewrite Hr. intros Hs.
  assert (specs = config_spec entries <$> resolved) as -> by (destruct entries; [done|by simplify_eq]).
  split; [by rewrite length_fmap|]. intros i rf c Hi Hc Hname.
  exists (config_spec entries rf). rewrite list_lookup_fmap Hi. split; [done|].
  assert (filter (λ c0, ce_Name c0 = rf_Name rf) entries = [c]) as Hf.
  { rewrite -Hname. clear -Hn Hc. induction entries as [|x l IH]; [set_solver|].
    rewrite fmap_cons in Hn. apply NoDup_cons in Hn as [Hni Hn]. rewrite filter_cons.
    apply elem_of_cons in Hc as [->|Hc].
    - rewrite decide_True //. f_equal. apply elem_of_nil_inv. intros y [Hy Hin]%list_elem_of_filter.
      apply Hni. rewrite -Hy. by apply list_elem_of_fmap_2.
    - rewrite decide_False; [by apply IH|]. intros E. apply Hni. rewrite E. by apply list_elem_of_fmap_2. }
  unfold config_spec, target_by_name. rewrite Hf. simpl. by rewrite base64_roundtrip.
Qed.

(** ** Cancelling a run *)
Inductive cancel_error := RunNotFound | NotRunning (st : string) | NoWorker | KillFailed (err : string).

Definition CancelRun (e : db) (rep : reply) (runID : string) (t : table) : option cancel_error * list (string * command) :=
  match FindRecordById e runID t with
  | None => (Some RunNotFound, [])
  | Some rec =>
      if decide (status rec ≠ "running") then (Some (NotRunning (status rec)), [])
      else let workerID := GetString "worker" rec in
           if decide (workerID = "") then (Some NoWorker, [])
           else (match rep with Acknowledged => None | DispatchError err | WorkerError err => Some (KillFailed err) end,
                 [(workerID, KillJob ("kill-" +:+ runID) runID)])
  end.

(** A kill is sent only for a running run, to the worker it runs on. *)
Lemma cancel_only_running e rep runID t err w c : CancelRun e rep runID t = (err, [(w, c)]) →
  ∃ r, t !! runID = Some r ∧ status r = "running" ∧ w = GetString "worker" r ∧ w ≠ "" ∧
    c = KillJob ("kill-" +:+ runID) runID ∧ (err = None ↔ rep = Acknowledged).
Proof.
  unfold CancelRun, FindRecordById. destruct (find_ok e); [|done]. destruct (t !! runID) as [r|]; [|done].
  case_decide as Hs; [done|]. case_decide; [done|]. intros [= <- <- <-]. exists r.
  split; [done|]. split; [done|]. split; [done|]. split; [done|]. split; [done|]. by destruct rep.
Qed.

(** ** Executing a job *)

(** The tables of the scheduler. *)
Record sys := { runs : table; jobs : table }.

(** The results of what [executeJob] calls, in the order of the code; [ids] are
    the ids the database gives to new runs. *)
Record exec_env := {
  ee_cancelled : bool; ee_find : db; ee_backends : option string; ee_parse : Definition_ + string;
  ee_workers : list string → list string; ee_envvars : gmap string string + string;
  ee_configs : list ConfigFileSpec + string; ee_branch : string; ee_head : string;
  ee_ids : list string; ee_create : string → db; ee_status : db; ee_save : db; ee_retention : Z }.

Definition runIDs (runID : option string) : list string :=
  match runID with None => [] | Some id => if decide (id = "") then [] else [id] end.

(** A run that fails before it is dispatched. *)
Definition failed_run (e : exec_env) (jobID trigger msg : string) (s : sys) : list string * sys :=
  let id := default "" (head (ee_ids e)) in
  let '(runID, rs) := createJobRun (ee_create e id) id jobID "" trigger "error" (Some msg) (ee_retention e) (runs s) in
  (runIDs runID, {| runs := rs; jobs := (setScheduledJobStatus (ee_status e) jobID "error" (jobs s)).2 |}).

Definition createStalledRun (e : exec_env) (jobID trigger : string) (tags : list string) (d : Definition_) (s : sys)
  : list string * sys :=
  let reason := match tags with
                | [] => "no matching workers available for the specified tags"
                | _ => "no matching workers available for the required tags: [" +:+ Join " " tags +:+ "]"
                end in
  let id := default "" (head (ee_ids e)) in
  let '(runID, rs) := createJobRun (ee_create e id) id jobID "" trigger "stalled" (Some reason) (ee_retention e) (runs s) in
  match runID with
  | None => ([], {| runs := rs; jobs := jobs s |})
  | Some id =>
      let js := match FindRecordById (ee_status e) jobID (jobs s) with
                | None => jobs s
                | Some rec =>
                    if decide (status rec = "paused") then jobs s
                    else match Save (ee_status e) (SetStr "status" "stalled"
                                 (ensureScheduledJobDisplayFields (Some d) rec)) (jobs s) with
                         | Some js => js
                         | None => jobs s
                         end
                end in
      (runIDs (Some id), {| runs := rs; jobs := js |})
  end.

(** One pending run per target; a run that cannot be created is skipped.  The
    result lists the created runs with their workers. *)
Fixpoint create_runs (e : exec_env) (jobID trigger : string) (targets : list (string * string)) (t : table)
  : list (string * string) * table :=
  match targets with
  | [] => ([], t)
  | (workerID, id) :: targets =>
      let '(runID, t1) := createJobRun (ee_create e id) id jobID workerID trigger "pending" None (ee_retention e) t in
      let '(created, t2) := create_runs e jobID trigger targets t1 in
      match runID with
      | None => (created, t2)
      | Some id => ((id, workerID) :: created, t2)
      end
  end.

(** The run ids returned, the dispatches started and the tables. *)
Definition executeJob (e : exec_env) (jobID trigger : string) (s : sys)
  : list string * list (string * string * jobRunParams) * sys :=
  let stop r : list string * list (string * string * jobRunParams) * sys := (r.1, [], r.2) in
  if ee_cancelled e then ([], [], s)
  else match FindRecordById (ee_find e) jobID (jobs s) with
  | None => ([], [], s)
  | Some rec =>
      match ee_backends e with
      | Some err => stop (failed_run e jobID trigger ("secret backend unavailable for job " +:+ jobID +:+ ": " +:+ err) s)
      | None =>
          match ee_parse e with
          | inr err => stop (failed_run e jobID trigger
                         ("cannot parse job.yaml " +:+ GetString "job_file" rec +:+ " for job " +:+ jobID +:+ ": " +:+ err) s)
          | inl d =>
              let rec := ensureScheduledJobDisplayFields (Some d) rec in
              match ee_workers e (d_Tags d) with
              | [] => stop (createStalledRun e jobID trigger (d_Tags d) d s)
              | workers =>
                  match ee_envvars e with
                  | inr err => stop (failed_run e jobID trigger ("cannot load env vars for job " +:+ jobID +:+ ": " +:+ err) s)
                  | inl env =>
                      match ee_configs e with
                      | inr err => stop (failed_run e jobID trigger
                                     ("cannot resolve config files for job " +:+ jobID +:+ ": " +:+ err) s)
                      | inl specs =>
                          let params := {| repoID := GetString "repository" rec; repoBranch := ee_branch e;
                                           jobFile := GetString "job_file" rec; commitSHA := ee_head e; def := d;
                                           envMap := env; configFiles := specs |} in
                          let targets := if decide (d_Mode d = ModeOnceAll) then workers else [pickWorker jobID workers] in
                          let '(created, rs) := create_runs e jobID trigger (zip targets (ee_ids e)) (runs s) in
                          let rec := SetTime "last_run_at" (now (ee_save e)) rec in
                          let rec := if decide (status rec = "stalled" ∨ status rec = "error")
                                     then SetStr "status" "active" rec else rec in
                          (created.*1, (λ c, (c, params)) <$> created,
                           {| runs := rs; jobs := default (jobs s) (Save (ee_save e) rec (jobs s)) |})
                      end
                  end
              end
          end
      end
  end.

(** ** Lemmas *)
Lemma pickWorker_elem jobID workers : workers ≠ [] → pickWorker jobID workers ∈ workers.
Proof.
  intros Hne. assert (∀ l : list string, l ≠ [] →
    default "" (l !! Z.to_nat (Sum32 jobID mod Z.of_nat (length l))) ∈ l) as Hidx.
  { intros l Hl. assert (0 < length l) by (destruct l; simpl; [done|lia]).
    pose proof (Z.mod_pos_bound (Sum32 jobID) (Z.of_nat (length l)) ltac:(lia)).
    destruct (lookup_lt_is_Some_2 l (Z.to_nat (Sum32 jobID mod Z.of_nat (length l)))) as [w Hw]; [lia|].
    rewrite Hw. simpl. by eapply list_elem_of_lookup_2. }
  destruct workers as [|w [|w' l]]; [done|by left|]. by apply Hidx.
Qed.

Lemma network_permitted wp n : Disabled wp = false → ValidateNetwork wp n = None →
  n ≠ "" → AllowedNetworks wp ≠ [] → n ∈ AllowedNetworks wp.
Proof.
  intros Hd. unfold ValidateNetwork. rewrite Hd. case_decide; [done|]. intros Hv _ Ha.
  destruct (AllowedNetworks wp) as [|a l] eqn:E; [done|]. destruct (existsb _ _) eqn:Ex; [|done].
  apply existsb_exists in Ex as (x & Hx & Hb). apply bool_decide_eq_true in Hb as ->. by apply list_elem_of_In.
Qed.

(** What a worker's policy says of a job. *)
Record job_permitted (wp : WorkerPolicy) (d : Definition_) : Prop := {
  jp_tag : PreventLatestImages wp = true → isLatestOrUntagged (d_Image d) = false;
  jp_image : AllowedImages wp ≠ [] → ∃ pat, pat ∈ AllowedImages wp ∧ matchPattern pat (d_Image d) = true;
  jp_volumes : ∀ vol, vol ∈ d_Volumes d → volume_permitted wp vol;
  jp_network : d_Network d ≠ "" → AllowedNetworks wp ≠ [] → d_Network d ∈ AllowedNetworks wp }.

Lemma check_policy_permitted wp d : check_policy wp d = None → Disabled wp = true ∨ job_permitted wp d.
Proof.
  unfold check_policy. rewrite !err_seq_None ValidateImages_None ValidateVolumes_None first_err_None.
  destruct (Disabled wp) eqn:Hd; [by left|]. intros ([?|Hi] & [?|Hv] & Hn); try done. right.
  destruct (Hi (d_Image d)) as [H1 H2]; [by left|]. split; [done|done| |].
  - intros vol Hvol. apply validateSingleVolume_None. auto.
  - by apply network_permitted.
Qed.

Section dispatched.
Context (ParseDuration : string → option Z).
Context (error_text : policy_error → string) (run_error_text : run_error → string).
Implicit Types (e : dispatch_env) (p : jobRunParams) (t : table).

Lemma fail_run_status e runID msg t r : table_wf t → t !! runID = Some r →
  find_ok (de_update e) = true → save_ok (de_update e) = true →
  ∃ r', fail_run e runID msg t !! runID = Some r' ∧ status r' = "error".
Proof.
  intros Hw Hr Hf Hs. destruct (completion_saved (de_update e) runID "error" msg 0 0 0 t r) as (r' & Hr' & E & _); eauto.
Qed.

(** A job reaches a worker only through its policy: a command to run a job is
    sent only when the worker's policy could be loaded and is disabled or permits
    the job's image, volumes and network, and when the registry credentials were
    found; it carries the job's own image, volumes and network, and a kill follows
    only when the start could not be recorded. *)
Theorem job_dispatch_gated e runID p t cmds t' :
  dispatchToWorker ParseDuration error_text run_error_text e runID p t = (cmds, t') →
  (∀ c, RunJob c ∈ cmds → ∃ wp auth, de_policy e = inl wp ∧ (Disabled wp = true ∨ job_permitted wp (def p)) ∧
     de_auth e = inl auth ∧ rj_JobRunID c = runID ∧ Image c = d_Image (def p) ∧
     Volumes c = d_Volumes (def p) ∧ Network c = d_Network (def p)) ∧
  (∀ cid rid, KillJob cid rid ∈ cmds → rid = runID ∧ de_reply e = Acknowledged ∧
     (find_ok (de_start e) = false ∨ save_ok (de_start e) = false ∨ t !! runID = None)).
Proof.
  unfold dispatchToWorker. cbv zeta.
  assert (∀ t1, (patchJobRunMeta (de_patch e) runID ("wireops-job-" +:+ runID) (commitSHA p) t).2 = t1 →
    t1 !! runID = None → t !! runID = None) as Hnone.
  { intros t1 <-. unfold patchJobRunMeta, FindRecordById, Save. destruct (find_ok _); [|done].
    destruct (t !! runID) as [r|] eqn:Hr; [|done]. destruct (save_ok _); [|by rewrite /= Hr].
    simpl. intros Hn. apply lookup_insert_None in Hn as [Hn _].
    by rewrite -Hr. }
  destruct (patchJobRunMeta _ _ _ _ t) as [[err|] t1] eqn:Ep; [intros [= <- <-]; split; set_solver|].
  specialize (Hnone t1 eq_refl).
  destruct (de_policy e) as [wp|]; [|intros [= <- <-]; split; set_solver].
  destruct (check_policy wp (def p)) eqn:Ec; [intros [= <- <-]; split; set_solver|].
  apply check_policy_permitted in Ec.
  destruct (de_auth e) as [auth|]; [|intros [= <- <-]; split; set_solver].
  assert (∀ l : list command, (∀ c, RunJob c ∈ l → c = run_command ParseDuration e runID p auth) →
    ∀ c, RunJob c ∈ l → ∃ wp0 auth0, @inl WorkerPolicy string wp = inl wp0 ∧
     (Disabled wp0 = true ∨ job_permitted wp0 (def p)) ∧ @inl (string * list string) string auth = inl auth0 ∧
     rj_JobRunID c = runID ∧ Image c = d_Image (def p) ∧ Volumes c = d_Volumes (def p) ∧
     Network c = d_Network (def p)) as Hrun.
  { intros l Hl c Hc. rewrite (Hl c Hc). by exists wp, auth. }
  destruct (de_reply e) as [err|err|]; [intros [= <- <-]; split; [by apply Hrun; set_solver|set_solver]..|].
  destruct (setJobRunStarted (de_start e) runID t1) as [[err|] t2] eqn:Es; intros [= <- <-].
  - split; [apply Hrun; set_solver|]. intros cid rid Hin.
    assert (rid = runID) as -> by set_solver. split; [done|]. split; [done|].
    unfold setJobRunStarted, FindRecordById, Save in Es. destruct (find_ok (de_start e)); [|by left]. right.
    destruct (t1 !! runID) as [r|] eqn:Hr; [|right; auto]. left. destruct (terminal (status r)); [done|].
    by destruct (save_ok (de_start e)).
  - split; [apply Hrun|]; set_solver.
Qed.

Lemma patch_ok d runID name sha t r : table_wf t → t !! runID = Some r → find_ok d = true → save_ok d = true →
  ∃ t1 r1, patchJobRunMeta d runID name sha t = (None, t1) ∧ table_wf t1 ∧ t1 !! runID = Some r1 ∧
    status r1 = status r.
Proof.
  intros Hw Hr Hf Hs. pose proof (progress_patch (λ _, True) d runID name sha t Hw) as [Hw1 _].
  unfold patchJobRunMeta, FindRecordById, Save in *. rewrite Hf Hs Hr in Hw1 |- *. simpl in Hw1.
  pose proof (Hw _ _ Hr) as Hid. eexists _, _. split; [done|]. split; [done|]. cbn [Id SetField SetStr].
  rewrite {1}Hid. split; [apply lookup_insert_eq|]. unfold status, SetTime. by record_simpl.
Qed.

Lemma started_ok d runID t r : table_wf t → t !! runID = Some r → status r = "pending" →
  find_ok d = true → save_ok d = true →
  ∃ t1 r1, setJobRunStarted d runID t = (None, t1) ∧ t1 !! runID = Some r1 ∧ status r1 = "running".
Proof.
  intros Hw Hr Hp Hf Hs. unfold setJobRunStarted, FindRecordById, Save. rewrite Hf Hs Hr Hp /=.
  eexists _, _. split; [done|]. rewrite {1}(Hw _ _ Hr). split; [apply lookup_insert_eq|].
  unfold status, SetTime. by record_simpl.
Qed.

(** A dispatch never leaves its run pending: with a database that answers, the run
    ends running when the worker acknowledged the command, and in error in every other
    case, whatever stopped it. *)
Theorem dispatch_settles_run e runID p t r cmds t' : table_wf t → t !! runID = Some r → status r = "pending" →
  find_ok (de_patch e) = true → save_ok (de_patch e) = true → find_ok (de_update e) = true →
  save_ok (de_update e) = true → find_ok (de_start e) = true → save_ok (de_start e) = true →
  dispatchToWorker ParseDuration error_text run_error_text e runID p t = (cmds, t') →
  ∃ r', t' !! runID = Some r' ∧
    ((de_reply e = Acknowledged ∧ (∃ c, cmds = [RunJob c]) ∧ status r' = "running") ∨
     ((cmds = [] ∨ de_reply e ≠ Acknowledged) ∧ status r' = "error")).
Proof.
  intros Hw Hr Hp F1 S1 F2 S2 F3 S3. unfold dispatchToWorker. cbv zeta.
  destruct (patch_ok (de_patch e) runID ("wireops-job-" +:+ runID) (commitSHA p) t r) as (t1 & r1 & -> & Hw1 & Hr1 & E1);
    [done..|].
  assert (∀ msg, ∃ r', fail_run e runID msg t1 !! runID = Some r' ∧ status r' = "error") as Hfail
    by (intros; by eapply fail_run_status).
  destruct (de_policy e) as [wp|err]; [|intros [= <- <-]; destruct (Hfail ("policy load error: " +:+ err)); naive_solver].
  destruct (check_policy wp (def p)) as [err|];
    [intros [= <- <-]; destruct (Hfail ("policy violation: " +:+ error_text err)); naive_solver|].
  destruct (de_auth e) as [auth|err]; [|intros [= <- <-]; destruct (Hfail ("registry auth error: " +:+ err)); naive_solver].
  destruct (de_reply e) as [err|err|]; [intros [= <- <-]; destruct (Hfail err) as (r' & ? & ?); exists r'; auto..|].
  destruct (started_ok (de_start e) runID t1 r1) as (t2 & r2 & -> & Hr2 & Hs2); [done|done|congruence|done..|].
  intros [= <- <-]. exists r2. split; [done|]. left. eauto.
Qed.
End dispatched.

(** ** Creating runs *)
Lemma snd_zip_take (l k : list string) : (zip l k).*2 = take (length l) k.
Proof. revert k. induction l as [|x l IH]; intros [|y k]; simpl; [done..|]. f_equal. apply IH. Qed.

Lemma zip_swap_take (l k : list string) : length l ≤ length k →
  (λ wi : string * string, (wi.2, wi.1)) <$> zip l k = zip (take (length l) k) l.
Proof.
  revert k. induction l as [|x l IH]; intros [|y k] Hl; simpl in *; [done|done|lia|]. f_equal. apply IH. lia.
Qed.

Lemma zip_swap_elem (l k : list string) id w : (id, w) ∈ zip (take (length l) k) l → (w, id) ∈ zip l k.
Proof.
  revert k. induction l as [|x l IH]; intros [|y k] Hin; [set_solver..|].
  cbn in Hin |- *. apply elem_of_cons in Hin as [[= -> ->]|?]; [by left|right; auto].
Qed.

Section creating.
Context (e : exec_env) (jobID trigger : string).
Context (Hdb : ∀ id, find_ok (ee_create e id) = true ∧ save_ok (ee_create e id) = true).

Definition pending_run (id workerID : string) : record :=
  stamp (ee_create e id) (new_run (ee_create e id) id jobID workerID trigger "pending" None (ee_retention e)).

Lemma create_ok id workerID t :
  createJobRun (ee_create e id) id jobID workerID trigger "pending" None (ee_retention e) t =
  (Some id, <[id := pending_run id workerID]> t).
Proof.
  unfold createJobRun, Save. destruct (Hdb id) as [-> ->]. cbn [negb].
  assert (Id (new_run (ee_create e id) id jobID workerID trigger "pending" None (ee_retention e)) = id) as ->;
    [unfold new_run; by case_decide|done].
Qed.

Lemma create_runs_spec tgts : NoDup tgts.*2 → ∀ t created t', create_runs e jobID trigger tgts t = (created, t') →
  created = (λ wi, (wi.2, wi.1)) <$> tgts ∧
  (∀ w id, (w, id) ∈ tgts → t' !! id = Some (pending_run id w)) ∧
  (∀ id, id ∉ tgts.*2 → t' !! id = t !! id).
Proof.
  induction tgts as [|[w id] tgts IH]; intros Hn t created t'; cbn [create_runs].
  { intros [= <- <-]. split; [done|]. split; [set_solver|done]. }
  rewrite fmap_cons in Hn. apply NoDup_cons in Hn as [Hni Hn]. rewrite create_ok.
  destruct (create_runs e jobID trigger tgts _) as [cr t2] eqn:E. intros [= <- <-].
  destruct (IH Hn _ _ _ E) as (-> & H1 & H2). split; [done|]. split.
  - intros w' id' [[= -> ->]|Hin]%elem_of_cons; [|by apply H1]. rewrite H2 //. apply lookup_insert_eq.
  - intros id' Hid. rewrite fmap_cons not_elem_of_cons in Hid. destruct Hid. rewrite H2 //. by apply lookup_insert_ne.
Qed.
End creating.

(** A job that can run gets one pending run per target and one dispatch per run:
    every matching worker in once_all mode, exactly one of them otherwise.  The runs
    name their worker, job and trigger, the caller gets exactly their ids, and no other
    run is touched. *)
Theorem job_runs_created jobID trigger e s rec d env specs out disp s' :
  ee_cancelled e = false → FindRecordById (ee_find e) jobID (jobs s) = Some rec → ee_backends e = None →
  ee_parse e = inl d → ee_workers e (d_Tags d) ≠ [] → ee_envvars e = inl env → ee_configs e = inl specs →
  (∀ id, find_ok (ee_create e id) = true ∧ save_ok (ee_create e id) = true) →
  NoDup (ee_ids e) → length (ee_workers e (d_Tags d)) ≤ length (ee_ids e) →
  executeJob e jobID trigger s = (out, disp, s') →
  ∃ targets,
    (if decide (d_Mode d = ModeOnceAll) then targets = ee_workers e (d_Tags d)
     else ∃ w, w ∈ ee_workers e (d_Tags d) ∧ targets = [w]) ∧
    out = take (length targets) (ee_ids e) ∧ disp.*1 = zip out targets ∧
    (∀ id w, (id, w) ∈ zip out targets → ∃ r, runs s' !! id = Some r ∧ status r = "pending" ∧
       GetString "worker" r = w ∧ GetString "job" r = jobID ∧ GetString "trigger" r = trigger) ∧
    (∀ id, id ∉ out → runs s' !! id = runs s !! id).
Proof.
  intros Hc Hf Hb Hp Hne He Hcf Hdb Hn Hlen. unfold executeJob. rewrite Hc Hf Hb Hp He Hcf. cbv zeta.
  destruct (ee_workers e (d_Tags d)) as [|w0 ws] eqn:Ew; [done|]. rewrite -Ew in Hne, Hlen |- *.
  set (targets := if decide (d_Mode d = ModeOnceAll) then ee_workers e (d_Tags d) else [pickWorker jobID (ee_workers e (d_Tags d))]).
  assert (length targets ≤ length (ee_ids e)) as Hlt.
  { unfold targets. case_decide; [done|]. simpl. destruct (ee_workers e (d_Tags d)); simpl in *; [done|lia]. }
  destruct (create_runs _ _ _ _ (runs s)) as [created rs] eqn:Ec. intros [= <- <- <-].
  apply create_runs_spec in Ec as (-> & H1 & H2); [|done|].
  2: { rewrite snd_zip_take. eapply sublist_NoDup; [exact Hn|apply sublist_take]. }
  exists targets. split.
  { unfold targets. case_decide; [done|]. eexists. split; [by apply pickWorker_elem|done]. }
  assert (((λ wi : string * string, (wi.2, wi.1)) <$> zip targets (ee_ids e)).*1 = take (length targets) (ee_ids e)) as Ho.
  { rewrite -list_fmap_compose. by rewrite snd_zip_take. }
  split; [done|]. rewrite Ho. split; [|split].
  - rewrite -list_fmap_compose list_fmap_id. apply zip_swap_take. done.
  - intros id w Hin. eexists. split; [apply H1, zip_swap_elem; done|]. simpl. unfold pending_run, stamp, new_run, status, SetTime.
    case_decide; record_simpl; [|done]. split; [done|]. split; [|done]. by subst w.
  - intros id Hid. simpl. apply H2. by rewrite snd_zip_take.
Qed.

(** A job without tags never runs: whatever workers are connected, executing it
    starts no dispatch, and when the run is created it is stalled. *)
Theorem untagged_job_never_runs `{GoRange} e jobID trigger s workerTags connected d out disp s' :
  ee_workers e = GetWorkersByTags workerTags connected → ee_parse e = inl d → d_Tags d = [] →
  executeJob e jobID trigger s = (out, disp, s') →
  disp = [] ∧ ∀ id, id ∈ out → ∃ r, runs s' !! id = Some r ∧ terminal (status r) = true.
Proof.
  intros Hw Hp Ht. unfold executeJob. rewrite Hw Hp Ht. cbn [GetWorkersByTags].
  assert (∀ st msg id rs t, createJobRun (ee_create e (default "" (head (ee_ids e)))) (default "" (head (ee_ids e)))
      jobID "" trigger st (Some msg) (ee_retention e) t = (Some id, rs) →
    ∃ r, rs !! id = Some r ∧ status r = st) as Hcreate.
  { intros st msg id rs t. unfold createJobRun, Save. destruct (negb _); [done|]. destruct (save_ok _); [|done].
    intros [= <- <-]. eexists. split; [apply lookup_insert_eq|]. unfold new_run, status, SetTime. simpl. by record_simpl. }
  destruct (ee_cancelled e); [intros [= <- <- <-]; split; [done|set_solver]|].
  destruct (FindRecordById _ _ _) as [rec|]; [|intros [= <- <- <-]; split; [done|set_solver]].
  destruct (ee_backends e) as [err|].
  - unfold failed_run. destruct (createJobRun _ _ _ _ _ _ _ _ (runs s)) as [[id|] rs] eqn:Ec; intros [= <- <- <-];
      (split; [done|]); [|set_solver]. intros id' Hid. simpl in Hid. case_decide; [set_solver|].
    apply list_elem_of_singleton in Hid as ->. destruct (Hcreate _ _ _ _ _ Ec) as (r & Hr & Hs). exists r.
    simpl. by rewrite Hs.
  - unfold createStalledRun. destruct (createJobRun _ _ _ _ _ _ _ _ (runs s)) as [[id|] rs] eqn:Ec; intros [= <- <- <-];
      (split; [done|]); [|set_solver]. intros id' Hid. simpl in Hid. case_decide; [set_solver|].
    apply list_elem_of_singleton in Hid as ->. destruct (Hcreate _ _ _ _ _ Ec) as (r & Hr & Hs). exists r.
    simpl. by rewrite Hs.
Qed.
End names.

(** Ranging over a map backwards. *)
Definition back_range : GoRange :=
  {| go_range := λ A m, reverse (map_to_list m); go_range_perm := λ A m, reverse_Permutation (map_to_list m) |}.

(** The worker picked for a job is not stable: for every job there are two connected
    workers with the job's tags for which the pick depends on the order in which the
    server ranges over its map of workers. *)
Theorem pick_depends_on_map_order jobID : ∃ workerTags connected tags,
  pickWorker jobID (GetWorkersByTags (H := some_range) workerTags connected tags) ≠
  pickWorker jobID (GetWorkersByTags (H := back_range) workerTags connected tags).
Proof.
  exists {["w1" := ["prod"]; "w2" := ["prod"]]}, (λ _, true), ["prod"].
  assert (∀ a b, a ≠ b → pickWorker jobID [a; b] ≠ pickWorker jobID [b; a]) as Hswap.
  { intros a b Hab. unfold pickWorker. cbn [length].
    pose proof (Z.mod_pos_bound (Sum32 jobID) 2 ltac:(lia)).
    assert (Z.to_nat (Sum32 jobID mod 2) = 0 ∨ Z.to_nat (Sum32 jobID mod 2) = 1) as [E|E] by lia;
      change (Z.of_nat 2) with 2%Z; rewrite E; simpl; congruence. }
  match goal with |- pickWorker _ ?l ≠ pickWorker _ ?k =>
    assert (∃ a b, a ≠ b ∧ l = [a; b] ∧ k = [b; a]) as (a & b & Hab & -> & ->) end.
  { eexists _, _. split; [|split; vm_compute; reflexivity]. discriminate. }
  by apply Hswap.
Qed.

(** The isolation flags of a worker's policy do not reach jobs: on a worker that
    blocks the docker socket and the host network, with open allowlists and host
    volumes not blocked, a job that mounts the socket and asks for the host network is
    sent to the worker with both. *)
Theorem job_isolation_not_enforced ParseDuration error_text run_error_text e runID p t r wp auth cmds t' :
  de_policy e = inl wp → BlockDockerSocket wp = true → BlockHostNetwork wp = true → BlockHostVolumes wp = false →
  AllowedVolumes wp = [] → AllowedNetworks wp = [] → AllowedImages wp = [] → PreventLatestImages wp = false →
  d_Volumes (def p) = ["/var/run/docker.sock:/var/run/docker.sock"] → d_Network (def p) = "host" →
  t !! runID = Some r → find_ok (de_patch e) = true → save_ok (de_patch e) = true → de_auth e = inl auth →
  dispatchToWorker ParseDuration error_text run_error_text e runID p t = (cmds, t') →
  ∃ c, RunJob c ∈ cmds ∧ Volumes c = ["/var/run/docker.sock:/var/run/docker.sock"] ∧ Network c = "host".
Proof.
  intros Hp _ _ Hbv Hv Hn Hi Hl Hvols Hnet Hr Hf Hs Ha.
  assert (check_policy wp (def p) = None) as Hc.
  { unfold check_policy, ValidateImages, ValidateVolumes, ValidateNetwork. rewrite Hvols Hnet Hn.
    destruct (Disabled wp); [done|]. unfold first_err, validateImage, validateSingleVolume. rewrite Hl Hi Hbv Hv. done. }
  unfold dispatchToWorker, patchJobRunMeta, FindRecordById, Save. rewrite Hf Hs Hr Hp Hc Ha. cbv zeta.
  destruct (de_reply e); [intros [= <- <-]; eexists; (split; [by left|done])..|].
  destruct (setJobRunStarted _ _ _) as [[]]; intros [= <- <-]; eexists; (split; [by left|done]).
Qed.

(** ** Concrete dispatches *)
Definition strict_policy : WorkerPolicy :=
  Build_WorkerPolicy false [] [] [] [] [] [] false false true true true true true false.

Definition sock_job : Definition_ :=
  {| d_Name := "backup"; d_Description := "d"; d_Cron := "@daily"; d_Tags := ["prod"]; d_Group := ""; d_Mode := ModeOnce;
     d_Image := "alpine:3"; d_Command := ["sh"]; d_Volumes := ["/var/run/docker.sock:/var/run/docker.sock"];
     d_Network := "host"; d_Resources := {| CPU := "1"; Memory := "1g"; Timeout := "10m" |}; d_Configs := [] |}.

Definition params1 : jobRunParams :=
  {| repoID := "repo"; repoBranch := "main"; jobFile := "job.yaml"; commitSHA := "c0"; def := sock_job; envMap := ∅;
     configFiles := [] |}.

Definition dispatch1 (rep : reply) : dispatch_env :=
  {| de_patch := ok_db 1500; de_policy := inl strict_policy; de_auth := inl ("", []); de_reply := rep;
     de_update := ok_db 1600; de_start := ok_db 1700; de_clock := 1550 |}.

Definition dispatched1 (rep : reply) : list command * table :=
  dispatchToWorker no_duration (λ _, "violation") (λ _, "db") (dispatch1 rep) "r1" params1 run0.

Definition pending1 : record := default {| Id := ""; fields := ∅ |} (run0 !! "r1").

Lemma job_isolation_not_enforced_witness : ∃ c, RunJob c ∈ (dispatched1 Acknowledged).1 ∧
  Volumes c = ["/var/run/docker.sock:/var/run/docker.sock"] ∧ Network c = "host".
Proof.
  exact (job_isolation_not_enforced no_duration (λ _, "violation") (λ _, "db") (dispatch1 Acknowledged) "r1" params1 run0
    pending1 strict_policy ("", []) _ _ eq_refl eq_refl eq_refl eq_refl eq_refl eq_refl eq_refl eq_refl eq_refl eq_refl
    eq_refl eq_refl eq_refl eq_refl (surjective_pairing (dispatched1 Acknowledged))).
Defined.

Lemma job_dispatch_gated_witness : ∃ wp, @inl WorkerPolicy string strict_policy = inl wp ∧
  (Disabled wp = true ∨ job_permitted wp sock_job).
Proof.
  destruct (proj1 (job_dispatch_gated no_duration (λ _, "violation") (λ _, "db") (dispatch1 Acknowledged)
    "r1" params1 run0 _ _ (surjective_pairing (dispatched1 Acknowledged)))
    (run_command no_duration (dispatch1 Acknowledged) "r1" params1 ("", []))) as (wp & auth & Hp & Hj & _).
  - vm_compute. left.
  - exists wp. split; [exact Hp|exact Hj].
Defined.

Lemma dispatch_settles_run_witness : ∃ r', (dispatched1 (DispatchError "timeout")).2 !! "r1" = Some r' ∧ status r' = "error".
Proof.
  destruct (dispatch_settles_run no_duration (λ _, "violation") (λ _, "db") (dispatch1 (DispatchError "timeout")) "r1" params1
    run0 pending1 _ _ run0_wf eq_refl eq_refl eq_refl eq_refl eq_refl eq_refl eq_refl eq_refl
    (surjective_pairing (dispatched1 (DispatchError "timeout")))) as (r' & Hr' & [(Hd & _)|(_ & Hs)]); [discriminate|].
  exists r'. split; [exact Hr'|exact Hs].
Defined.

Definition job1 : record := {| Id := "j1"; fields := {[ "job_file" := VStr "job.yaml" ]} |}.
Definition sys1 : sys := {| runs := ∅; jobs := {[ "j1" := job1 ]} |}.
Definition exec1 (workers : list string → list string) (d : Definition_) : exec_env :=
  {| ee_cancelled := false; ee_find := ok_db 1; ee_backends := None; ee_parse := inl d; ee_workers := workers;
     ee_envvars := inl ∅; ee_configs := inl []; ee_branch := "main"; ee_head := "c0"; ee_ids := ["r1"; "r2"];
     ee_create := λ _, ok_db 2; ee_status := ok_db 3; ee_save := ok_db 4; ee_retention := 7 |}.
Definition latin (r : N) : bool := ((97 <=? r) && (r <=? 122))%N.
Definition run_exec (e : exec_env) := executeJob latin (λ _, false) e "j1" "cron" sys1.

Lemma triple_eta {A B C} (x : A * B * C) : x = (x.1.1, x.1.2, x.2).
Proof. by destruct x as [[? ?] ?]. Qed.

Lemma job_runs_created_witness :
  ∃ targets, (∃ w, w ∈ ["w1"; "w2"] ∧ targets = [w]) ∧
    (run_exec (exec1 (λ _, ["w1"; "w2"]) sock_job)).1.1 = take (length targets) ["r1"; "r2"].
Proof.
  destruct (job_runs_created latin (λ _, false) "j1" "cron" (exec1 (λ _, ["w1"; "w2"]) sock_job) sys1 job1 sock_job ∅ []
    (run_exec (exec1 (λ _, ["w1"; "w2"]) sock_job)).1.1 (run_exec (exec1 (λ _, ["w1"; "w2"]) sock_job)).1.2
    (run_exec (exec1 (λ _, ["w1"; "w2"]) sock_job)).2) as (targets & Ht & Ho & _).
  - reflexivity.
  - reflexivity.
  - reflexivity.
  - reflexivity.
  - discriminate.
  - reflexivity.
  - reflexivity.
  - intros id. split; reflexivity.
  - apply (bool_decide_eq_true_1 _). vm_compute. reflexivity.
  - simpl. lia.
  - exact (triple_eta (run_exec (exec1 (λ _, ["w1"; "w2"]) sock_job))).
  - exists targets. split; [exact Ht|exact Ho].
Defined.

Definition untagged_job : Definition_ :=
  {| d_Name := "backup"; d_Description := "d"; d_Cron := "@daily"; d_Tags := []; d_Group := ""; d_Mode := ModeOnce;
     d_Image := "alpine:3"; d_Command := ["sh"]; d_Volumes := []; d_Network := "";
     d_Resources := {| CPU := "1"; Memory := "1g"; Timeout := "10m" |}; d_Configs := [] |}.

Definition untagged_exec : exec_env :=
  exec1 (GetWorkersByTags (H := some_range) {[ "w1" := ["prod"] ]} (λ _, true)) untagged_job.

Lemma untagged_job_never_runs_witness : (run_exec untagged_exec).1.2 = [].
Proof.
  apply (untagged_job_never_runs latin (λ _, false) (H := some_range) untagged_exec "j1" "cron" sys1 {[ "w1" := ["prod"] ]}
    (λ _, true) untagged_job (run_exec untagged_exec).1.1 _ (run_exec untagged_exec).2 eq_refl eq_refl eq_refl
    (triple_eta (run_exec untagged_exec))).
Defined.
