(* ===== verification/JobCron.v ===== *)
(** * internal/jobscheduler/scheduler.go: the cron entries of jobs

    The cron library keeps entries by id; the scheduler keeps the entry of each
    job.  [RegisterJob] takes the scheduler's lock twice, to remove the old entry
    and to store the new one, and adds the new entry to the cron in between:
    [registration] is a call at one of these points.  Adding an entry gives it a
    fresh id; [parse_cron] says which expressions the library accepts. *)
From S2P Require Import Prelude GoStrings GoValue PbRecord JobFile.

Record cron_state := { cron : gmap nat string; next_entry : nat; entries : gmap string nat }.

(** A call of [RegisterJob] that has removed the old entry, or also added the new
    one. *)
Inductive registration := Removed (jobID spec : string) | Added (jobID : string) (entry : nat).

Section cron.
Context (parse_cron : string → bool).

Definition Remove (o : option nat) (s : cron_state) : cron_state :=
  match o with
  | Some id => {| cron := delete id (cron s); next_entry := next_entry s; entries := entries s |}
  | None => s
  end.

Definition forget (jobID : string) (s : cron_state) : cron_state :=
  let s1 := Remove (entries s !! jobID) s in
  {| cron := cron s1; next_entry := next_entry s1; entries := delete jobID (entries s1) |}.

Definition UnregisterJob (jobID : string) (s : cron_state) : cron_state := forget jobID s.

(** The first part, up to the call of the cron library; [rec] is the job's record,
    [def] its parsed definition. *)
Definition register_begin (rec : option record) (def : option Definition_) (jobID : string) (s : cron_state)
  : option registration * cron_state :=
  match rec with
  | None => (None, s)
  | Some r =>
      let s1 := forget jobID s in
      if negb (GetBool "enabled" r) then (None, s1)
      else match def with
           | None => (None, s1)
           | Some d => (Some (Removed jobID (d_Cron d)), s1)
           end
  end.

(** [AddFunc]. *)
Definition AddFunc (jobID spec : string) (s : cron_state) : option registration * cron_state :=
  if parse_cron spec
  then (Some (Added jobID (next_entry s)),
        {| cron := <[next_entry s := jobID]> (cron s); next_entry := S (next_entry s); entries := entries s |})
  else (None, s).

Definition store_entry (jobID : string) (entry : nat) (s : cron_state) : cron_state :=
  {| cron := cron s; next_entry := next_entry s; entries := <[jobID := entry]> (entries s) |}.

(** The whole call, when nothing runs in between. *)
Definition RegisterJob (rec : option record) (def : option Definition_) (jobID : string) (s : cron_state) : cron_state :=
  match register_begin rec def jobID s with
  | (None, s1) | (Some (Added _ _), s1) => s1
  | (Some (Removed jobID spec), s1) =>
      match AddFunc jobID spec s1 with
      | (Some (Added jobID entry), s2) => store_entry jobID entry s2
      | (_, s2) => s2
      end
  end.

(** The jobs of a repository, in the order of the query. *)
Definition SyncJobsForRepo (rows : list (string * option record * option Definition_)) (s : cron_state) : cron_state :=
  foldl (λ s row, RegisterJob row.1.2 row.2 row.1.1 s) s rows.

(** Calls one at a time. *)
Inductive cron_step : cron_state → cron_state → Prop :=
| cs_register rec def jobID s : cron_step s (RegisterJob rec def jobID s)
| cs_unregister jobID s : cron_step s (UnregisterJob jobID s).

(** Calls that overlap: the state and the registrations under way. *)
Inductive overlap_step : cron_state * list registration → cron_state * list registration → Prop :=
| os_begin rec def jobID s ps :
    overlap_step (s, ps) (let '(o, s1) := register_begin rec def jobID s in (s1, match o with Some p => p :: ps | None => ps end))
| os_add jobID spec s ps qs :
    overlap_step (s, ps ++ Removed jobID spec :: qs)
      (let '(o, s1) := AddFunc jobID spec s in (s1, match o with Some p => ps ++ p :: qs | None => ps ++ qs end))
| os_store jobID entry s ps qs :
    overlap_step (s, ps ++ Added jobID entry :: qs) (store_entry jobID entry s, ps ++ qs)
| os_unregister jobID s ps : overlap_step (s, ps) (UnregisterJob jobID s, ps).

Definition no_entries : cron_state := {| cron := ∅; next_entry := 0; entries := ∅ |}.

(** ** Invariant *)

(** The cron runs exactly the entries the scheduler knows. *)
Record cron_inv (s : cron_state) : Prop := {
  ci_exact : ∀ id jobID, cron s !! id = Some jobID ↔ entries s !! jobID = Some id;
  ci_fresh : ∀ id, is_Some (cron s !! id) → id < next_entry s }.

Lemma inv_forget jobID s : cron_inv s → cron_inv (forget jobID s).
Proof.
  intros [He Hf]. unfold forget, Remove. destruct (entries s !! jobID) as [old|] eqn:Eo; split; simpl.
  - intros id j. rewrite lookup_delete_Some lookup_delete_Some. split.
    + intros [Hne Hc%He]. split; [|done]. intros ->. congruence.
    + intros [Hne Hj%He]. split; [|done]. intros ->. apply He in Eo. congruence.
  - intros id [j [_ Hj]%lookup_delete_Some]. by eapply Hf.
  - intros id j. rewrite lookup_delete_Some. rewrite He. split; [|naive_solver].
    intros Hj. split; [|done]. congruence.
  - auto.
Qed.

Lemma inv_add jobID s : cron_inv s → entries s !! jobID = None →
  cron_inv (store_entry jobID (next_entry s)
    {| cron := <[next_entry s := jobID]> (cron s); next_entry := S (next_entry s); entries := entries s |}).
Proof.
  intros [He Hf] Hn. split; simpl.
  - intros id j. rewrite !lookup_insert_Some He. split.
    + intros [[<- <-]|[Hne Hj]]; [by left|]. right. split; [congruence|done].
    + intros [[<- <-]|[Hne Hj]]; [by left|]. right. split; [|done]. intros <-. apply He in Hj.
      pose proof (Hf _ (ex_intro _ _ Hj)). lia.
  - intros id [j [[<- _]|[_ Hj]]%lookup_insert_Some]; [lia|]. pose proof (Hf _ (ex_intro _ _ Hj)). lia.
Qed.

Lemma cron_register_inv rec def jobID s : cron_inv s → cron_inv (RegisterJob rec def jobID s).
Proof.
  intros Hi. unfold RegisterJob, register_begin. destruct rec as [r|]; [|done].
  pose proof (inv_forget jobID s Hi) as Hi1. destruct (negb _); [done|]. destruct def as [d|]; [|done].
  unfold AddFunc. destruct (parse_cron _); [|done]. apply inv_add; [done|].
  unfold forget. simpl. apply lookup_delete_eq.
Qed.

Lemma steps_cron_inv s s' : rtc cron_step s s' → cron_inv s → cron_inv s'.
Proof.
  induction 1 as [|s1 s2 s3 Hs _ IH]; [done|]. intros Hi. apply IH.
  destruct Hs; [by apply cron_register_inv|by apply inv_forget].
Qed.

(** When registrations do not overlap, the cron runs exactly the entries the
    scheduler knows: each job has at most one, and none after it was unregistered or
    registered while disabled. *)
Theorem cron_entries_exact s jobID rec def :
  rtc cron_step no_entries s →
  (∀ id jobID, cron s !! id = Some jobID ↔ entries s !! jobID = Some id) ∧
  (∀ id, cron (UnregisterJob jobID s) !! id ≠ Some jobID) ∧
  (GetBool "enabled" rec = false → ∀ id, cron (RegisterJob (Some rec) def jobID s) !! id ≠ Some jobID).
Proof.
  intros Hs. assert (cron_inv s) as Hi.
  { apply (steps_cron_inv _ _ Hs). split; [done|]. intros id [? ?]. done. }
  assert (∀ id, cron (forget jobID s) !! id ≠ Some jobID) as Hf.
  { intros id Hc. apply (inv_forget jobID s Hi) in Hc. unfold forget in Hc. simpl in Hc.
    by rewrite lookup_delete_eq in Hc. }
  split; [apply Hi|]. split; [done|]. intros He id. unfold RegisterJob, register_begin. rewrite He. simpl. apply Hf.
Qed.

(** Overlapping registrations of one job can leak a cron entry: two calls that
    both remove the old entry before either stores the new one leave the job in the
    cron twice, and unregistering it then removes only one of the two. *)
Theorem overlapping_registrations_leak rec d jobID : GetBool "enabled" rec = true → parse_cron (d_Cron d) = true →
  ∃ s, rtc overlap_step (no_entries, []) (s, []) ∧ cron s !! 0 = Some jobID ∧ cron s !! 1 = Some jobID ∧
    cron (UnregisterJob jobID s) !! 0 = Some jobID.
Proof.
  intros He Hc.
  assert (∀ s, register_begin (Some rec) (Some d) jobID s = (Some (Removed jobID (d_Cron d)), forget jobID s)) as Hb
    by (intros; unfold register_begin; by rewrite He).
  eexists. split.
  - eapply rtc_l; [apply (os_begin (Some rec) (Some d) jobID)|]. rewrite Hb.
    eapply rtc_l; [apply (os_begin (Some rec) (Some d) jobID)|]. rewrite Hb.
    eapply rtc_l; [apply (os_add jobID (d_Cron d) _ [])|]. unfold AddFunc at 1. rewrite Hc.
    eapply rtc_l; [apply (os_add jobID (d_Cron d) _ [Added jobID 0] [])|]. unfold AddFunc at 1. rewrite Hc.
    eapply rtc_l; [apply (os_store jobID 0 _ [])|].
    eapply rtc_l; [apply (os_store jobID 1 _ [])|]. apply rtc_refl.
  - unfold UnregisterJob, forget. cbn [entries store_entry]. rewrite lookup_insert_eq.
    cbn [Remove cron store_entry]. split_and!.
    + by rewrite lookup_insert_ne // lookup_insert_eq.
    + by rewrite lookup_insert_eq.
    + by rewrite lookup_delete_ne // lookup_insert_ne // lookup_insert_eq.
Qed.
End cron.

(** ** Concrete registrations *)
Definition enabled_job : record := {| Id := "j1"; fields := {[ "enabled" := VBool true ]} |}.
Definition disabled_job : record := {| Id := "j1"; fields := {[ "enabled" := VBool false ]} |}.
Definition daily : Definition_ :=
  {| d_Name := "n"; d_Description := "d"; d_Cron := "@daily"; d_Tags := []; d_Group := ""; d_Mode := ModeOnce;
     d_Image := "i"; d_Command := []; d_Volumes := []; d_Network := "";
     d_Resources := {| CPU := "1"; Memory := "1g"; Timeout := "1m" |}; d_Configs := [] |}.

Definition registered : cron_state := RegisterJob (λ _, true) (Some enabled_job) (Some daily) "j1" no_entries.

Lemma cron_entries_exact_witness : ∀ id, cron (RegisterJob (λ _, true) (Some disabled_job) None "j1" registered) !! id ≠ Some "j1".
Proof.
  apply (cron_entries_exact (λ _, true) registered "j1" disabled_job None); [|reflexivity].
  eapply rtc_l; [apply (cs_register (λ _, true) (Some enabled_job) (Some daily) "j1")|apply rtc_refl].
Defined.

Lemma overlapping_registrations_leak_witness : ∃ s, cron s !! 0 = Some "j1" ∧ cron (UnregisterJob "j1" s) !! 0 = Some "j1".
Proof.
  destruct (overlapping_registrations_leak (λ _, true) enabled_job daily "j1" eq_refl eq_refl) as (s & _ & H0 & _ & H1).
  exists s. split; [exact H0|exact H1].
Defined.
