(* ===== verification/ReconcileCore.v ===== *)
(** * internal/sync/reconciler.go: the records a reconcile works on

    A reconcile is a sequence of calls to the database, to git, to docker and to a
    worker, each of which may fail.  It is written in a state monad with early
    returns: the state is what the calls read and write, and [answers] gives the
    outcome of each database call in turn ([true] when the list is used up), so that a
    theorem about every list covers every combination of failures. *)
From Stdlib Require Import ZArith.
From S2P Require Import Prelude GoStrings GoPath GoFmt GoValue GoBase64 SafePath ComposeDoc PbRecord PbTable.
From S2P Require Import ConfigInject EnvFile ProjectIdentity LintCore PhaseTracker LintPhase PostCheck.
From S2P Require JobRuns Renderer WaitJobs.

(** ** Commands and their results *)
Record DeployCommand := {
  CommandID : string; StackID : string; CommitSHA : string; Trigger : string; QueueTotal : Z; ComposeFileB64 : string;
  EnvFileB64 : string; ForcePull : bool; RemoveOrphans : bool; RegistryAuthB64 : string;
  InsecureRegistries : list string; PullTimeoutSeconds : Z; UpTimeoutSeconds : Z }.

Abbreviation command := (@ProjectIdentity.command DeployCommand).

Definition base_of (c : command) : DeployCommand := match c with Deploy b => b | Redeploy r => rd_base r end.

Record CommandResult := { Output : string; Error : string; TimedOut : bool; ComposeUpMs : Z }.

Definition no_result : CommandResult := {| Output := ""; Error := ""; TimedOut := false; ComposeUpMs := 0 |}.

(** An error of [Dispatch]; [deadline] when it is [context.DeadlineExceeded]. *)
Record dispatch_failure := { deadline : bool; de_text : string }.

Definition dispatchTimedOut (result : CommandResult) (dispatchErr : option dispatch_failure) : bool :=
  match dispatchErr with Some e => deadline e | None => TimedOut result end.

Definition reasonTimeout := "timeout".
Definition reasonDispatch := "dispatch".
Definition reasonCompose := "compose".

Definition deployFailureReason (result : CommandResult) (dispatchErr : option dispatch_failure) : string :=
  if dispatchTimedOut result dispatchErr then reasonTimeout
  else match dispatchErr with
       | Some _ => reasonDispatch
       | None => if decide (Error result = "") then "" else reasonCompose
       end.

Definition extractDispatchResult (result : CommandResult) (dispatchErr : option dispatch_failure) : string * option string :=
  let runErr := if decide (Error result = "") then None else Some (Error result) in
  (Output result, match dispatchErr with Some e => Some (de_text e) | None => runErr end).

Definition newline : string := String nl "".

Fixpoint ends_with_newline (s : string) : bool :=
  match s with
  | "" => false
  | String c "" => bool_decide (c = nl)
  | String _ s => ends_with_newline s
  end.

Definition buildErrorOutput (output : string) (runErr : option string) : string :=
  (if decide (output = "") then "" else output +:+ (if ends_with_newline output then "" else newline))
  +:+ match runErr with Some e => newline +:+ "error: " +:+ e | None => "" end.

(** ** Fields of the stack record *)
Definition resolveComposeRuntimeFlags (stack : record) : bool * bool :=
  let configSource := GetString "config_source" stack in
  let fileManaged := bool_decide (configSource = "wireops_file") || bool_decide (configSource = "compose_embedded") in
  (GetBool "force_pull" stack, negb (fileManaged && negb (GetBool "remove_orphans" stack))).

Definition deployUpTimeoutSeconds (default_secs : Z) (stack : record) : Z :=
  let seconds := GetInt "deploy_timeout_seconds" stack in if decide (0 < seconds)%Z then seconds else default_secs.

Definition effectivePrevStatus (stack : record) : string :=
  let status := GetString "status" stack in
  if decide (status = "pending" ∧ GetString "last_synced_at" stack ≠ "") then "active" else status.

Definition shouldMarkPendingOnQueue (stack : record) : bool := bool_decide (GetString "status" stack ≠ "error").

Definition truncateOutput (output : string) : string := JobRuns.truncate_output JobRuns.MaxOutputLength output.

Definition failure_fields (category reason errMsg at_ commit : string) (stack : record) : record :=
  SetStr "last_error_commit" commit (SetStr "last_error_at" at_ (SetStr "last_error_message" (truncateOutput errMsg)
    (SetStr "last_error_reason" reason (SetStr "last_error_category" category stack)))).

Definition clearLastError (stack : record) : record :=
  SetStr "last_error_commit" "" (SetStr "last_error_at" "" (SetStr "last_error_message" ""
    (SetStr "last_error_reason" "" (SetStr "last_error_category" "" stack)))).

Definition scheduleRefreshApplies (configSource : string) : bool :=
  bool_decide (configSource = "wireops_file") || bool_decide (configSource = "compose_embedded").

(** The two schedule fields of a committed definition; whether one differed. *)
Definition schedule_field (k : string) (to : Z) (cs : bool * record) : bool * record :=
  if decide (GetInt k cs.2 = to) then cs else (true, SetInt k to cs.2).
Definition scheduleChangesFor (stack : record) (timeout interval : Z) : bool * record :=
  schedule_field "sync_interval_seconds" interval (schedule_field "deploy_timeout_seconds" timeout (false, stack)).

Definition overlaySopsEnv (envVars : list string) (overlay : gmap string string) : list string :=
  if decide (overlay = ∅) then envVars
  else
    let values := foldl (λ (m : gmap string string) kv,
      match cut "="%char kv with Some (k, v) => <[k := v]> m | None => m end) ∅ envVars in
    let values := overlay ∪ values in
    (λ k, k +:+ "=" +:+ default "" (values !! k)) <$> sort_strings (elements (dom values)).

Definition buildEnvFileB64 (envVars : list string) : string + string :=
  match envVars with
  | [] => inl ""
  | _ => match serializeEnvContent envVars with
         | inr err => inr ("buildEnvFileB64: " +:+ err)
         | inl content => inl (EncodeToString content)
         end
  end.

(** ** The state of a reconcile *)

(** A notification (notify.Payload), or the audit row of overrides that were dropped. *)
Inductive note :=
| Notify (event log trigger commit : string) (duration : Z) (err : string)
| OverridesCleared (stack : string).

(** A command of a transfer, the worker it went to and what came back. *)
Inductive move :=
| Probed (worker id : string) (r : CommandResult + dispatch_failure)
| Deployed (worker : string) (c : DeployCommand) (r : CommandResult + dispatch_failure)
| TornDown (worker id : string) (r : CommandResult + dispatch_failure).

(** The stack row in the database and the record the call holds; the repositories; the
    sync logs; the tracker of the deploy and the rows of all phases; the rendered files;
    the rows of stack_config_files; the queue of waiting reconciles; the deploy commands
    sent with what came back; the commands of a transfer in order; the notifications; the outcomes of the coming calls of the
    database, and the clock and outcomes of the calls of the phase tracker. *)
Record st := {
  db : record; mem : record; repos : list record; logs : list record; tracker : option phaseTracker;
  phases : PhaseTracker.world; disk : Renderer.world; config_rows : list TrackedFile; queued : list record;
  sent : list (command * (CommandResult + dispatch_failure)); moves : list move; notes : list note; answers : list bool;
  clocks : list PhaseTracker.env }.

Definition set_stack (d m : record) (s : st) : st :=
  {| db := d; mem := m; repos := repos s; logs := logs s; tracker := tracker s; phases := phases s;
     disk := disk s; config_rows := config_rows s; queued := queued s; sent := sent s; moves := moves s; notes := notes s;
     answers := answers s; clocks := clocks s |}.
Definition set_repos (l : list record) (s : st) : st :=
  {| db := db s; mem := mem s; repos := l; logs := logs s; tracker := tracker s; phases := phases s;
     disk := disk s; config_rows := config_rows s; queued := queued s; sent := sent s; moves := moves s; notes := notes s;
     answers := answers s; clocks := clocks s |}.
Definition set_logs (l : list record) (s : st) : st :=
  {| db := db s; mem := mem s; repos := repos s; logs := l; tracker := tracker s; phases := phases s;
     disk := disk s; config_rows := config_rows s; queued := queued s; sent := sent s; moves := moves s; notes := notes s;
     answers := answers s; clocks := clocks s |}.
Definition set_phases (t : option phaseTracker) (w : PhaseTracker.world) (s : st) : st :=
  {| db := db s; mem := mem s; repos := repos s; logs := logs s; tracker := t; phases := w; disk := disk s;
     config_rows := config_rows s; queued := queued s; sent := sent s; moves := moves s; notes := notes s;
     answers := answers s; clocks := clocks s |}.
Definition set_disk (d : Renderer.world) (s : st) : st :=
  {| db := db s; mem := mem s; repos := repos s; logs := logs s; tracker := tracker s; phases := phases s;
     disk := d; config_rows := config_rows s; queued := queued s; sent := sent s; moves := moves s; notes := notes s;
     answers := answers s; clocks := clocks s |}.
Definition set_config_rows (l : list TrackedFile) (s : st) : st :=
  {| db := db s; mem := mem s; repos := repos s; logs := logs s; tracker := tracker s; phases := phases s;
     disk := disk s; config_rows := l; queued := queued s; sent := sent s; moves := moves s; notes := notes s;
     answers := answers s; clocks := clocks s |}.
Definition set_queued (q : list record) (s : st) : st :=
  {| db := db s; mem := mem s; repos := repos s; logs := logs s; tracker := tracker s; phases := phases s;
     disk := disk s; config_rows := config_rows s; queued := q; sent := sent s; moves := moves s; notes := notes s;
     answers := answers s; clocks := clocks s |}.
Definition add_sent (c : command) (r : CommandResult + dispatch_failure) (s : st) : st :=
  {| db := db s; mem := mem s; repos := repos s; logs := logs s; tracker := tracker s; phases := phases s;
     disk := disk s; config_rows := config_rows s; queued := queued s; sent := sent s ++ [(c, r)];
     moves := moves s; notes := notes s; answers := answers s; clocks := clocks s |}.
Definition add_note (n : note) (s : st) : st :=
  {| db := db s; mem := mem s; repos := repos s; logs := logs s; tracker := tracker s; phases := phases s;
     disk := disk s; config_rows := config_rows s; queued := queued s; sent := sent s;
     moves := moves s; notes := notes s ++ [n]; answers := answers s; clocks := clocks s |}.
Definition add_move (m : move) (s : st) : st :=
  {| db := db s; mem := mem s; repos := repos s; logs := logs s; tracker := tracker s; phases := phases s;
     disk := disk s; config_rows := config_rows s; queued := queued s; sent := sent s;
     moves := moves s ++ [m]; notes := notes s; answers := answers s; clocks := clocks s |}.
Definition set_faults (a : list bool) (c : list PhaseTracker.env) (s : st) : st :=
  {| db := db s; mem := mem s; repos := repos s; logs := logs s; tracker := tracker s; phases := phases s;
     disk := disk s; config_rows := config_rows s; queued := queued s; sent := sent s; moves := moves s; notes := notes s;
     answers := a; clocks := c |}.

(** ** The monad *)

(** A call returns an error or nil, or is still waiting for jobs to end. *)
Inductive ret := Returns (err : option string) | StillRunning.

Definition M (A : Type) : Type := st → (A + ret) * st.

#[global] Instance M_ret : MRet M := λ A x s, (inl x, s).
#[global] Instance M_bind : MBind M := λ A B f m s, match m s with (inl x, s') => f x s' | (inr r, s') => (inr r, s') end.

Definition leave {A} (r : ret) : M A := λ s, (inr r, s).
Definition fail {A} (err : string) : M A := leave (Returns (Some err)).
Definition gets {A} (f : st → A) : M A := λ s, (inl (f s), s).
Definition modify (f : st → st) : M unit := λ s, (inl tt, f s).
Definition stateful {A} (f : st → A * st) : M A := λ s, let '(x, s') := f s in (inl x, s').
Definition on_stack (f : record → record) : M unit := modify (λ s, set_stack (db s) (f (mem s)) s).

(** [if err := m(); err != nil { return err }] and [_ = m()]. *)
Definition check (m : M (option string)) : M unit := err ← m; match err with Some e => fail e | None => mret tt end.
Definition ignore {A} (m : M A) : M unit := _ ← m; mret tt.

(** The outcome of the next call of the database. *)
Definition answer : M bool := λ s,
  match answers s with b :: a => (inl b, set_faults a (clocks s) s) | [] => (inl true, s) end.

Definition default_env : PhaseTracker.env := {| PhaseTracker.find_ok := true; PhaseTracker.save_ok := true; PhaseTracker.now := 0 |}.
Definition next_env : M PhaseTracker.env := λ s,
  match clocks s with e :: c => (inl e, set_faults (answers s) c s) | [] => (inl default_env, s) end.

Definition now : M Z := e ← next_env; mret (PhaseTracker.now e).

(** [time.Since(start).Milliseconds()]. *)
Definition since_ms (start : Z) : M Z := t ← now; mret (Z.quot (t - start) 1000000).

(** What every failing call of the database says. *)
Definition db_error : string := "database error".

(** ** Phases of a deploy *)

(** The calls on the deploy's tracker; every caller drops their errors. *)
Definition pt_start (phase : string) : M unit :=
  e1 ← next_env; e2 ← next_env;
  modify (λ s, let '(_, t, w) := start phase e1 e2 (tracker s) (phases s) in set_phases t w s).
Definition pt_finish (phase status detail : string) : M unit :=
  e ← next_env; modify (λ s, let '(_, t, w) := finish phase status detail e (tracker s) (phases s) in set_phases t w s).
Definition pt_finishCurrentAsError (detail : string) : M unit :=
  e ← next_env; modify (λ s, let '(t, w) := finishCurrentAsError detail e (tracker s) (phases s) in set_phases t w s).
Definition pt_recordSkipped (pt : option phaseTracker) (phase detail : string) : M unit :=
  e ← next_env; modify (λ s, set_phases (tracker s) (recordSkipped phase detail e pt (phases s)).2 s).
Definition pt_recordCompleted (pt : option phaseTracker) (phase status : string) (started duration : Z) (detail : string)
    : M unit :=
  e ← next_env; modify (λ s, set_phases (tracker s) (recordCompleted phase status started duration detail e pt (phases s)).2 s).
Definition pt_recordLint (pt : option phaseTracker) (res : lintResult) : M unit :=
  e ← next_env; modify (λ s, set_phases (tracker s) (recordLintPhase e pt res (phases s)) s).

(** [defer pt.finishCurrentAsError(detail)] around the rest of a function. *)
Definition deferring {A} (detail : string) (m : M A) : M A := λ s,
  let '(r, s') := m s in (r, (pt_finishCurrentAsError detail s').2).

Definition renderPhaseDetail (r : RenderResult) (warnings : list string) : string :=
  "checksum=" +:+ Checksum r +:+ " version=" +:+ Itoa (Version r)
  +:+ (if decide (warnings = []) then "" else "; warnings=" +:+ Join "; " warnings).

Record completedPhase := { cp_phase : string; cp_start : Z; cp_duration : Z; cp_detail : string }.

Fixpoint backfill (pt : option phaseTracker) (prior : list completedPhase) : M unit :=
  match prior with
  | [] => mret tt
  | p :: prior => pt_recordCompleted pt (cp_phase p) PhaseStatusSuccess (cp_start p) (cp_duration p) (cp_detail p);;
                  backfill pt prior
  end.

Definition notify (event log trigger commit : string) (duration : Z) (err : string) : M unit :=
  modify (add_note (Notify event log trigger commit duration err)).
Definition SyncStarted := "sync.started".
Definition SyncDone := "sync.done".
Definition SyncError := "sync.error".

Section records.
Context (new_id : list record → string) (rfc3339 : Z → string).

(** ** Stack records *)
Definition saveRecord (op : string) : M (option string) :=
  ok ← answer; rec ← gets mem;
  if (ok : bool) then modify (λ s, set_stack (mem s) (mem s) s);; mret None
  else mret (Some (op +:+ " persistence failed collection=stacks record=" +:+ Id rec +:+ " status="
                   +:+ GetString "status" rec +:+ ": " +:+ db_error)).

Definition saveRecordStatus (status op : string) : M (option string) :=
  on_stack (SetStr "status" status);; saveRecord op.

Definition markErrorWithStatus (status : string) : M (option string) :=
  on_stack (SetStr "status" status);; saveRecord "mark error".
Definition markError : M (option string) := markErrorWithStatus "error".

Definition markStackFailure (category reason status errMsg commit : string) : M (option string) :=
  t ← now; on_stack (failure_fields category reason errMsg (rfc3339 t) commit);; markErrorWithStatus status.
Definition markStackError (category errMsg commit : string) : M (option string) :=
  markStackFailure category "" "error" errMsg commit.
Definition markSyncError (errMsg commit : string) : M (option string) := markStackError "sync" errMsg commit.
Definition markDeployError (errMsg commit : string) : M (option string) := markStackError "deploy" errMsg commit.
Definition markDeployFailure (reason status errMsg commit : string) : M (option string) :=
  markStackFailure "deploy" reason status errMsg commit.
Definition markSecretError (errMsg commit : string) : M (option string) :=
  on_stack (SetField "secret_error" (VBool true));; markSyncError errMsg commit.

Definition clearSecretError : M unit :=
  rec ← gets mem;
  if GetBool "secret_error" rec
  then on_stack (SetField "secret_error" (VBool false));; ignore (saveRecord "clear secret error") else mret tt.

Definition clearStaleRenderOverrides (stackID : string) : M unit :=
  on_stack (SetField "render_overrides" VNull);;
  ok ← answer;
  if (ok : bool) then modify (λ s, set_stack (mem s) (mem s) s);; modify (add_note (OverridesCleared stackID)) else mret tt.

Definition refreshScheduleFromDefinition (definition : option (Z * Z)) : M unit :=
  rec ← gets mem;
  match definition with
  | Some (timeout, interval) =>
      if scheduleRefreshApplies (GetString "config_source" rec) then
        let '(changed, rec') := scheduleChangesFor rec timeout interval in
        on_stack (λ _, rec');;
        if changed then
          ok ← answer; if (ok : bool) then modify (λ s, set_stack (mem s) (mem s) s) else mret tt
        else mret tt
      else mret tt
  | None => mret tt
  end.

(** ** Sync logs *)
Definition createSyncLog (stackID trigger commitSHA commitMsg : string) : M (record + string) :=
  found ← answer;
  if negb found then mret (inr ("create sync log stack=" +:+ stackID +:+ " trigger=" +:+ trigger +:+ ": " +:+ db_error)) else
  id ← gets (λ s, new_id (logs s));
  let rec := SetStr "commit_message" commitMsg (SetStr "commit_sha" commitSHA (SetStr "status" "running"
               (SetStr "trigger" trigger (SetStr "stack" stackID {| Id := id; fields := ∅ |})))) in
  saved ← answer;
  if negb saved
  then mret (inr ("create sync log stack=" +:+ stackID +:+ " trigger=" +:+ trigger +:+ " status=running: " +:+ db_error))
  else modify (λ s, set_logs (upsert rec (logs s)) s);; mret (inl rec).

(** Loading a sync log, changing it and saving it. *)
Definition change_log (id what : string) (f : record → record) : M (option string) :=
  found ← answer; row ← gets (λ s, FindById id (logs s));
  match (if (found : bool) then row else None) with
  | None => mret (Some (what +:+ db_error))
  | Some row =>
      saved ← answer;
      if (saved : bool) then modify (λ s, set_logs (upsert (f row) (logs s)) s);; mret None
      else mret (Some (what +:+ db_error))
  end.

Definition updateSyncLog (id status output : string) (durationMs : Z) : M (option string) :=
  change_log id ("update sync log id=" +:+ id +:+ " status=" +:+ status +:+ ": ")
    (λ row, SetInt "duration_ms" durationMs (SetStr "output" (truncateOutput output) (SetStr "status" status row))).

Definition updateSyncLogCommit (id commitSHA : string) : M (option string) :=
  change_log id ("update sync log commit id=" +:+ id +:+ ": ") (SetStr "commit_sha" commitSHA).

Definition logFailure (stackID trigger commitSHA errMsg : string) : M (option string) :=
  created ← createSyncLog stackID trigger commitSHA "";
  match created with
  | inr err => mret (Some err)
  | inl syncLog => updateSyncLog (Id syncLog) "error" errMsg 0
  end.

Definition logFailureWithPhaseAnd (stackID trigger commitSHA errMsg phase : string) (phaseStart : Z)
    (before : option phaseTracker → M unit) : M (option string) :=
  created ← createSyncLog stackID trigger commitSHA "";
  match created with
  | inr err => mret (Some err)
  | inl syncLog =>
      let pt := Some (newPhaseTracker (Id syncLog)) in
      before pt;;
      ms ← since_ms phaseStart;
      pt_recordCompleted pt phase "error" phaseStart ms errMsg;;
      updateSyncLog (Id syncLog) "error" errMsg 0
  end.

Definition logFailureWithPhase (stackID trigger commitSHA errMsg phase : string) (phaseStart : Z)
    (prior : list completedPhase) : M (option string) :=
  logFailureWithPhaseAnd stackID trigger commitSHA errMsg phase phaseStart (λ pt, backfill pt prior).

(** [x, err := m(); if err != nil { return err }]. *)
Definition get {A} (m : M (A + string)) : M A := r ← m; match r with inl x => mret x | inr err => fail err end.

(** Recording a failure before the deploy has a log, and leaving with it. *)
Definition abort_sync_as {A} (logged : M (option string)) (errMsg commit returned : string) : M A :=
  ignore logged;; ignore (markSyncError errMsg commit);; fail returned.
Definition abort_sync {A} (logged : M (option string)) (errMsg commit : string) : M A :=
  abort_sync_as logged errMsg commit errMsg.
Definition abort_secret {A} (logged : M (option string)) (errMsg commit : string) : M A :=
  ignore logged;; ignore (markSecretError errMsg commit);; fail errMsg.

(** [backends] is the verdict of [envvars.CheckStackSecretBackends]. *)
Definition checkSecretBackends (stackID trigger commitSHA : string) (backends : option string) : M unit :=
  match backends with
  | None => mret tt
  | Some err =>
      let errMsg := "cannot deploy: " +:+ err in
      t ← now; abort_secret (logFailureWithPhase stackID trigger commitSHA errMsg PhasePolicyCheck t []) errMsg commitSHA
  end.

(** ** The queue of an offline worker *)
Fixpoint delete_queued (stackID : string) (l : list record) : M (option string) :=
  match l with
  | [] => mret None
  | rec :: l =>
      ok ← answer;
      if (ok : bool) then modify (λ s, set_queued (filter (λ r, Id r ≠ Id rec) (queued s)) s);; delete_queued stackID l
      else mret (Some ("queue pending reconcile stack=" +:+ stackID +:+ " delete existing=" +:+ Id rec +:+ ": " +:+ db_error))
  end.

Definition queuePendingReconcile (stackID trigger commitSHA : string) : M (option string) :=
  let err := "queue pending reconcile stack=" +:+ stackID +:+ " trigger=" +:+ trigger in
  found ← answer;
  if negb found then mret (Some (err +:+ ": " +:+ db_error)) else
  listed ← answer;
  if negb listed then mret (Some (err +:+ " list existing: " +:+ db_error)) else
  existing ← gets (λ s, FindAll "stack" stackID (queued s));
  deleted ← delete_queued stackID existing;
  match deleted with Some e => mret (Some e) | None =>
  id ← gets (λ s, new_id (queued s));
  saved ← answer;
  if negb saved then mret (Some (err +:+ " save: " +:+ db_error)) else
  modify (λ s, set_queued (upsert (SetStr "commit_sha" commitSHA (SetStr "trigger" trigger (SetStr "stack" stackID
                            {| Id := id; fields := ∅ |}))) (queued s)) s);;
  created ← createSyncLog stackID "queue" commitSHA ("Added to offline queue (original trigger: " +:+ trigger +:+ ")");
  match created with
  | inr e => mret (Some e)
  | inl queueLog => updateSyncLog (Id queueLog) "queued" "Worker is offline. Sync will proceed when worker reconnects." 0
  end end.

(** ** Files *)
Definition readRenderedCompose (stackID trigger sha path : string) : M (string + string) :=
  d ← gets disk;
  match Renderer.files d !! path with
  | Some content => mret (inl content)
  | None => let errMsg := "failed to read rendered compose file: no such file or directory" in
            ignore (logFailure stackID trigger sha errMsg);; ignore (markSyncError errMsg sha);; mret (inr errMsg)
  end.

Definition compose_file_of (stack : record) : string :=
  let f := GetString "compose_file" stack in if decide (f = "") then "docker-compose.yml" else f.

Definition resolveComposeFile (workDir stackID trigger sha : string) (exists_ : string → bool) : M string :=
  stack ← gets mem;
  let composeFile := compose_file_of stack in
  match ValidateComposeFile composeFile with
  | Some _ => let errMsg := "invalid compose_file" in abort_sync (logFailure stackID trigger sha errMsg) errMsg sha
  | None =>
      if exists_ (PathJoin workDir composeFile) then mret composeFile
      else let errMsg := "compose file not found: " +:+ composeFile +:+ " (workdir: " +:+ workDir +:+ ")" in
           abort_sync (logFailure stackID trigger sha errMsg) errMsg sha
  end.

Definition upsertStackConfigTracking (files : list TrackedFile) : M unit :=
  ok ← answer; if (ok : bool) then modify (set_config_rows files) else mret tt.
End records.

Definition stackWorkDir (workspace : string) (stack : record) (repoID : string) : string + string :=
  let base := PathJoin workspace repoID in
  let composePath := GetString "compose_path" stack in
  match ValidateComposePath composePath with
  | Some _ => inr "invalid path"
  | None => if decide (composePath ≠ "" ∧ composePath ≠ ".") then inl (PathJoin base composePath) else inl base
  end.

Definition resolveWorker (find_worker : string → option record) (stack : record) : (string * string) + string :=
  let workerID := GetString "worker" stack in
  if decide (workerID = "") then inr "stack has no worker assigned"
  else match find_worker workerID with
       | None => inr ("failed to find worker " +:+ workerID)
       | Some worker => inl (workerID, GetString "fingerprint" worker)
       end.

Definition resolvePostDeployStatus (checkStatus : string) (pauseAfter : bool) : string :=
  if bool_decide (checkStatus = "active") && pauseAfter then "paused" else checkStatus.

Definition shouldRetryDeploy (attempt maxRetries : nat) : bool := bool_decide (attempt < maxRetries).

(** [acked_at] of the command's row, when it was observed. *)
Definition recordWorkerAckAndComposeUpPhases (pt : option phaseTracker) (acked : option Z) (dispatchStart composeUpMs : Z)
    : M unit :=
  match acked with
  | None => pt_recordSkipped pt PhaseWorkerAck "ack timestamp not observed"
  | Some t => pt_recordCompleted pt PhaseWorkerAck PhaseStatusSuccess dispatchStart
                (Z.max 0 (Z.quot (t - dispatchStart) 1000000)) ""
  end;;
  if decide (composeUpMs ≤ 0)%Z then pt_recordSkipped pt PhaseComposeUp "not reported by worker"
  else pt_recordCompleted pt PhaseComposeUp PhaseStatusSuccess (default dispatchStart acked) composeUpMs "".

(** ** internal/sync/reconciler.go: bringing a repository's checkout up to date

    The git operations are arguments: [clone] says how each attempt ended, [paused]
    whether the context ended in the pause after it, [head] is the commit checked out
    afterwards.  The repository records are those of the reconcile's state. *)
(** An error of git; [gf_deadline] when it is [context.DeadlineExceeded]. *)
Record git_failure := { gf_deadline : bool; gf_text : string }.

Definition transientMarkers : list string :=
  ["connection reset"; "connection timed out"; "context deadline exceeded"; "deadline exceeded"; "handshake failed";
   "i/o timeout"; "network is unreachable"; "no route to host"; "temporary"; "timeout"; "timed out";
   "unexpected packet"; "eof"].

Definition isTransientGitError (err : option git_failure) : bool :=
  match err with
  | None => false
  | Some e => gf_deadline e || existsb (Contains (ToLower (gf_text e))) transientMarkers
  end.

Definition maxAttempts : nat := 3.

(** [n] attempts remain, the next is number [attempt]; the error, or nil. *)
Fixpoint clone_attempts (clone : nat → option git_failure) (paused : nat → option string) (n attempt : nat)
    (lastErr : option string) : option string :=
  match n with
  | O => lastErr
  | S n =>
      match clone attempt with
      | None => None
      | Some e =>
          if bool_decide (attempt = maxAttempts) || negb (isTransientGitError (Some e)) then Some (gf_text e)
          else match paused attempt with
               | Some err => Some err
               | None => clone_attempts clone paused n (S attempt) (Some (gf_text e))
               end
      end
  end.

Definition cloneOrFetchWithRetry (clone : nat → option git_failure) (paused : nat → option string) : option string :=
  clone_attempts clone paused maxAttempts 1 None.

Definition HasChanged (remoteSHA localSHA : string) : bool := bool_decide (remoteSHA ≠ localSHA).

Definition find_repo (repoID : string) : M (option record) :=
  ok ← answer; row ← gets (λ s, FindById repoID (repos s)); mret (if (ok : bool) then row else None).

Definition save_repo (rec : record) (op : string) : M (option string) :=
  ok ← answer;
  if (ok : bool) then modify (λ s, set_repos (upsert rec (repos s)) s);; mret None
  else mret (Some (op +:+ " persistence failed collection=repositories record=" +:+ Id rec +:+ " status="
                   +:+ GetString "status" rec +:+ ": " +:+ db_error)).

Section fetch.
Context (rfc3339 : Z → string) (clone : nat → option git_failure) (paused : nat → option string) (head : string + string).

(** Whether the commit changed and the commit; [busy] when another fetch holds the
    repository, which a blocking call waits for. *)
Definition fetchRepo (repoID : string) (blocking busy : bool) : M ((bool * string) + string) :=
  if negb blocking && busy then mret (inl (false, "")) else
  found ← find_repo repoID;
  match found with
  | None => mret (inr ("repository " +:+ repoID +:+ " not found: " +:+ db_error))
  | Some repo =>
      match cloneOrFetchWithRetry clone paused with
      | Some err =>
          ignore (save_repo (SetStr "status" "error" repo) "mark error");;
          mret (inr ("git operation failed for repo " +:+ GetString "name" repo +:+ " (" +:+ GetString "git_url" repo
                     +:+ "): " +:+ err))
      | None =>
          match head with
          | inr err =>
              let branch := if decide (GetString "branch" repo = "") then "main" else GetString "branch" repo in
              mret (inr ("failed to get local SHA after fetching branch " +:+ branch +:+ ": " +:+ err))
          | inl remoteSHA =>
              let changed := HasChanged remoteSHA (GetString "last_commit_sha" repo) in
              t ← now;
              saved ← save_repo (SetStr "status" "connected" (SetStr "last_fetched_at" (rfc3339 t)
                                   (SetStr "last_commit_sha" remoteSHA repo))) "persist fetched repository state";
              mret (match saved with Some err => inr err | None => inl (changed, remoteSHA) end)
          end
      end
  end.

Definition FetchRepo (repoID trigger : string) (busy : bool) : M ((bool * string) + string) :=
  fetchRepo repoID (negb (bool_decide (trigger = "cron"))) busy.

(** [git_dir]: the checkout has a .git directory; [opens]: it can be opened. *)
Definition ensureRepoFetched (repo : record) (trigger : string) (git_dir opens : bool) : M (string + string) :=
  let repoID := Id repo in
  let neverFetched := bool_decide (GetString "last_fetched_at" repo = "") || negb git_dir in
  fetched ← (if negb (bool_decide (trigger = "cron")) || neverFetched then fetchRepo repoID true false
             else mret (inl (false, "")));
  match fetched with
  | inr err => mret (inr err)
  | inl (_, sha) =>
      fresh ← find_repo repoID;
      match fresh with
      | None => mret (inr ("repository " +:+ repoID +:+ " not found: " +:+ db_error))
      | Some fresh =>
          let remoteSHA := if decide (sha = "") then GetString "last_commit_sha" fresh else sha in
          if decide (remoteSHA = "") then mret (inr ("repository " +:+ repoID +:+ " has not been fetched yet"))
          else if opens then mret (inl remoteSHA) else mret (inr "failed to open local repo directory")
      end
  end.
End fetch.
