(* ===== verification/Reconcile.v ===== *)
(** * internal/sync/reconciler.go: ReconcileStack

    One run of the reconciler on a stack: the git fetch, the gates that skip a deploy,
    the render, the attempts to dispatch it, the post-check and the records written on
    every way out.  What the other systems answer is the record [externals]; the
    renderer, the lint, the job wait, the phase tracker, the post-check and the timeout
    convergence are the definitions of their own files. *)
From Stdlib Require Import ZArith.
From S2P Require Import Prelude GoStrings GoPath GoFmt GoValue GoBase64 SafePath Policy ComposeDoc PbRecord PbTable.
From S2P Require Import Overrides ConfigFiles ConfigInject EnvFile ProjectIdentity LintCore LintRules PhaseTracker LintPhase.
From S2P Require Import Health PostCheck ReconcileCore.
From S2P Require Renderer WaitJobs.

(** What a run meets outside the server's own records.  Where the code asks twice,
    the answer is indexed by the attempt. *)
Record externals := {
  x_backends : option string;                                  (* envvars.CheckStackSecretBackends *)
  x_clone : nat → option git_failure; x_git_paused : nat → option string; x_head : string + string;
  x_git_dir : bool; x_opens : bool; x_reset : option string;   (* the checkout *)
  x_definition : option (Z * Z);                               (* the committed timeout and interval *)
  x_worker : string → option record; x_connected : string → bool; x_inspect : reply;
  x_active : WaitJobs.poll; x_rounds : list WaitJobs.round;    (* the wait for jobs *)
  x_moved : list record → list record;                         (* fetches that ran during the wait *)
  x_message : string → string;                                 (* commit messages *)
  x_compose_exists : string → bool; x_env : list string + string; x_sops : gmap string string + string;
  x_lint : gmap string value + string; x_policy : string → WorkerPolicy + string;
  x_config : nat → gmap string value + string; x_stacks : nat → list record + string;
  x_storage : nat → Renderer.storage_env;
  x_registry : nat → string → list string → (string * list string) + string;
  x_dispatch : nat → command → CommandResult + dispatch_failure; x_cancelled : nat → option string;
  x_replies : nat → reply; x_interrupted : nat → option string; x_timeout_inspect : reply;
  x_acked : string → option Z;
  x_read : CommandResult + dispatch_failure; x_mkdir : string + string; x_write : option string; x_cleanup : option string }.

(** Libraries and configuration: YAML, JSON and digests, the config-file resolver, the
    directories, the formats of times and of decoding errors, the ids of new rows and
    the timeouts. *)
Class Platform := {
  #[global] p_range :: GoRange; #[global] p_unicode :: UnicodeTables;
  yaml_parse : string → option value; yaml_marshal : gmap string value → option string;
  sha256 : string → string; hmac : string → string;
  resolve : string → list Source → list ResolvedFile + resolve_error;
  workspace : string; stackStorage : string;
  since : string → option Z; unmarshal : string → list ServiceStatus → bool * list ServiceStatus;
  decode_inspect : string → option InspectResult; load_overrides : record → gmap string ServiceOverride;
  show_elapsed : Z → string; corrupt_input : string → string; new_id : list record → string; rfc3339 : Z → string;
  pull_timeout : Z; default_timeout : Z }.

Section reconcile.
Context `{Platform} (x : externals).

(** ** Rendering *)

(** [GenerateRevision] on the record the run holds; it saves the record when it
    stores a new revision. *)
Definition render (k : nat) (repo : option record) (workDir composeFile : string) (envVars : list string)
    (commitSHA : string) (forceIncrement : bool) (workerID fingerprint : string) (overrides : gmap string ServiceOverride)
    : M ((RenderResult * list TrackedFile * list string) + string) :=
  t ← now;
  stateful (λ s,
    let rq := {| Renderer.rq_stack := mem s; Renderer.rq_repo := repo; Renderer.rq_workDir := workDir;
                 Renderer.rq_composeFile := composeFile; Renderer.rq_envVars := envVars;
                 Renderer.rq_commitSHA := commitSHA; Renderer.rq_forceIncrement := forceIncrement;
                 Renderer.rq_workerID := workerID; Renderer.rq_fingerprint := fingerprint;
                 Renderer.rq_overrides := overrides; Renderer.rq_config := x_config x k;
                 Renderer.rq_policy := x_policy x workerID; Renderer.rq_stacks := x_stacks x k;
                 Renderer.rq_generatedAt := rfc3339 t |} in
    let '(res, stack, w) := Renderer.GenerateRevision yaml_parse yaml_marshal sha256 hmac resolve workspace stackStorage
                              rq (x_storage x k) (disk s) in
    let stored := bool_decide (length (Renderer.revisions (disk s)) < length (Renderer.revisions w)) in
    let saved := stored && match res with inl _ => true | inr _ => false end in
    (res, set_disk w (set_stack (if saved then stack else db s) stack s))).

(** Overrides that no longer apply are dropped and the render is tried without them. *)
Definition render_unattended (repo : option record) (stackID workDir composeFile : string) (envVars : list string)
    (commitSHA workerID fingerprint : string) : M ((RenderResult * list TrackedFile * list string) + string) :=
  stack ← gets mem;
  res ← render 0 repo workDir composeFile envVars commitSHA false workerID fingerprint (load_overrides stack);
  match res with
  | inr err =>
      if decide (err = Renderer.ErrUnknownOverrideService) then
        clearStaleRenderOverrides stackID;;
        render 1 repo workDir composeFile envVars commitSHA false workerID fingerprint ∅
      else mret res
  | inl _ => mret res
  end.

(** ** Dispatching *)

(** The variables of the attempts: the output, the error, its reason, the compose-up
    time and whether the registry credentials could not be prepared. *)
Record attempt_result := { a_output : string; a_err : option string; a_reason : string; a_ms : Z; a_registry : bool }.
Definition no_attempt : attempt_result := {| a_output := ""; a_err := None; a_reason := ""; a_ms := 0; a_registry := false |}.

(** Before the worker is asked, the output and time of the last attempt stay. *)
Definition refused (prev : attempt_result) (err : string) (registry : bool) : attempt_result :=
  {| a_output := a_output prev; a_err := Some err; a_reason := ""; a_ms := a_ms prev; a_registry := registry |}.

Definition answered (r : CommandResult + dispatch_failure) : attempt_result :=
  let '(result, dispatchErr) := match r with inl res => (res, None) | inr f => (no_result, Some f) end in
  let '(output, runErr) := extractDispatchResult result dispatchErr in
  {| a_output := output; a_err := runErr; a_reason := deployFailureReason result dispatchErr;
     a_ms := ComposeUpMs result; a_registry := false |}.

Record order := {
  o_log : string; o_stack : string; o_commit : string; o_trigger : string; o_queue : Z; o_worker : string;
  o_render : RenderResult; o_env : list string; o_what : string; o_containers : bool; o_volumes : bool; o_networks : bool }.

Definition base_command (o : order) (stack : record) (content envFileB64 : string) (auth : string * list string)
    : DeployCommand :=
  let '(forcePull, removeOrphans) := resolveComposeRuntimeFlags stack in
  {| CommandID := o_log o; StackID := o_stack o; CommitSHA := o_commit o; Trigger := o_trigger o; QueueTotal := o_queue o;
     ComposeFileB64 := EncodeToString content; EnvFileB64 := envFileB64; ForcePull := forcePull;
     RemoveOrphans := removeOrphans; RegistryAuthB64 := auth.1; InsecureRegistries := auth.2;
     PullTimeoutSeconds := pull_timeout; UpTimeoutSeconds := deployUpTimeoutSeconds default_timeout stack |}.

Definition dispatch_once (n : nat) (o : order) (content : string) (prev : attempt_result) : M attempt_result :=
  stack ← gets mem;
  match x_registry x n content (o_env o) with
  | inr err => mret (refused prev ("failed to resolve registry credentials: " +:+ err) true)
  | inl auth =>
      match buildEnvFileB64 (o_env o) with
      | inr err => mret (refused prev ("failed to serialize env vars for " +:+ o_what o +:+ ": " +:+ err) false)
      | inl envFileB64 =>
          match deployCommandForRender (x_worker x) (o_worker o) (base_command o stack content envFileB64 auth) (o_render o)
                  (o_containers o) (o_volumes o) (o_networks o) with
          | inr err => mret (answered (inr {| deadline := false; de_text := err |}))
          | inl cmd => let r := x_dispatch x n cmd in modify (add_sent cmd r);; mret (answered r)
          end
      end
  end.

Definition maxRetries : nat := 3.

Record deployed_attempt := { t_result : attempt_result; t_content : string; t_start : Z; t_duration : Z }.

(** [left] attempts remain, the next is number [attempt]. *)
Fixpoint deploy_attempts (o : order) (path trigger : string) (left_ attempt : nat) (acc : deployed_attempt)
    : M deployed_attempt :=
  match left_ with
  | O => mret acc
  | S left_ =>
      start ← now;
      content ← get (readRenderedCompose new_id rfc3339 (o_stack o) trigger (o_commit o) path);
      r ← dispatch_once attempt o content (t_result acc);
      ms ← since_ms start;
      let acc := {| t_result := r; t_content := content; t_start := start; t_duration := (t_duration acc + ms)%Z |} in
      match a_err r with
      | None => mret acc
      | Some err =>
          if a_registry r then mret acc
          else if shouldRetryDeploy attempt maxRetries then
            upd ← updateSyncLog (o_log o) "running"
                    (a_output r +:+ newline +:+ newline +:+ "[Attempt " +:+ Itoa (Z.of_nat attempt) +:+ " failed: " +:+ err
                     +:+ ". Retrying in 3s...]" +:+ newline) (t_duration acc);
            match upd with
            | Some e => ignore (markDeployError rfc3339 e (o_commit o));; fail e
            | None => match x_cancelled x attempt with
                      | Some e => fail e
                      | None => deploy_attempts o path trigger left_ (S attempt) acc
                      end
            end
          else deploy_attempts o path trigger left_ (S attempt) acc
      end
  end.

(** ** The ways out of a deploy *)
Definition post_check (content : string) : M postCheckResult :=
  pt_start PhasePostCheck;;
  let result := postDeployCheck since yaml_parse unmarshal (x_replies x) (x_interrupted x) content in
  let failed := bool_decide (pc_Status result = "error") || bool_decide (pc_Status result = "degraded") in
  pt_finish PhasePostCheck (if failed then PhaseStatusError else PhaseStatusSuccess) (Detail result);;
  mret result.

Definition deployed_fields (status commit checksum synced at_ : string) (r : RenderResult) (stack : record) : record :=
  clearLastError (persistProjectIdentity (SetStr "deployed_at" at_ (SetStr "deployed_checksum" checksum
    (SetStr "deployed_commit" commit (SetInt "deployed_version" (Version r) (SetStr "status" status
      (SetStr "last_synced_at" synced stack)))))) (Some r)).

(** Recording a deploy the worker confirmed. *)
Definition record_success (op lost status commit checksum log output attempted : string) (r : RenderResult)
    (result : postCheckResult) (duration : Z) : M unit :=
  synced ← now; at_ ← now;
  on_stack (deployed_fields status commit checksum (rfc3339 synced) (rfc3339 at_) r);;
  saved ← saveRecord op;
  match saved with
  | Some err => ignore (updateSyncLog log "error" (lost +:+ err) duration);; fail err
  | None =>
      let logStatus := if decide (pc_Status result = "active") then "success" else pc_Status result in
      upd ← updateSyncLog log logStatus output duration;
      match upd with
      | Some err => ignore (markDeployError rfc3339 err attempted);; fail err
      | None => mret tt
      end
  end.

Definition notify_result (log trigger commit : string) (result : postCheckResult) (duration : Z) : M unit :=
  let failed := bool_decide (pc_Status result = "error") in
  pt_start PhaseNotify;;
  notify (if failed then SyncError else SyncDone) log trigger commit duration (if failed then Detail result else "");;
  pt_finish PhaseNotify PhaseStatusSuccess "".

Definition checked_output (output : string) (result : postCheckResult) : string :=
  output +:+ newline +:+ newline +:+ "[post-check] " +:+ Detail result.

Definition deploy_succeeded (o : order) (trigger : string) (acc : deployed_attempt) : M unit :=
  pt_finish PhaseDispatch PhaseStatusSuccess "";;
  pt ← gets tracker;
  recordWorkerAckAndComposeUpPhases pt (x_acked x (o_log o)) (t_start acc) (a_ms (t_result acc));;
  result ← post_check (t_content acc);
  record_success "complete reconcile" "worker deploy succeeded but failed to persist stack success: " (pc_Status result)
    (o_commit o) (Checksum (o_render o)) (o_log o) (checked_output (a_output (t_result acc)) result) (o_commit o)
    (o_render o) result (t_duration acc);;
  notify_result (o_log o) trigger (o_commit o) result (t_duration acc).

(** After the last attempt failed with [runErr]. *)
Definition deploy_failed (o : order) (trigger lastSHA runErr : string) (acc : deployed_attempt) : M unit :=
  pt_finish PhaseDispatch PhaseStatusError runErr;;
  let errOutput := buildErrorOutput (a_output (t_result acc)) (Some runErr) in
  '(deployStatus, errOutput) ←
    (if decide (a_reason (t_result acc) = reasonTimeout) then
       let converged := convergeAfterTimeout since yaml_parse unmarshal (x_replies x) (x_interrupted x) decode_inspect
                          (x_timeout_inspect x) true (t_content acc) (o_commit o) lastSHA in
       let errOutput := errOutput +:+ (if decide (tc_Detail converged = "") then ""
                                       else newline +:+ newline +:+ "[post-timeout] " +:+ tc_Detail converged) in
       if Converged converged then
         t ← now; on_stack (λ stack, applyTimeoutConvergence stack (o_render o) (o_commit o) (rfc3339 t));;
         mret (tc_Status converged, errOutput)
       else mret ("error", errOutput)
     else mret ("error", errOutput));
  upd ← updateSyncLog (o_log o) "error" errOutput (t_duration acc);
  match upd with
  | Some err => ignore (markDeployError rfc3339 err (o_commit o));; fail err
  | None =>
      check (markDeployFailure rfc3339 (a_reason (t_result acc)) deployStatus errOutput (o_commit o));;
      pt_start PhaseNotify;;
      notify SyncError (o_log o) trigger (o_commit o) (t_duration acc) runErr;;
      pt_finish PhaseNotify PhaseStatusSuccess "";;
      fail runErr
  end.

(** ** Waiting for jobs *)
Definition present {A} (o : option A) : bool := match o with Some _ => true | None => false end.

Fixpoint update_logs (id : string) (duration : Z) (l : list (string * string)) : M unit :=
  match l with
  | [] => mret tt
  | (status, msg) :: l => ignore (updateSyncLog id status msg duration);; update_logs id duration l
  end.

(** The log opened for the wait, which the deploy goes on using. *)
Definition wait_for_jobs (stackID trigger commitSHA : string) : M (option record) :=
  stack ← gets mem;
  let policy := GetString "wait_running_jobs" stack in
  if decide (policy = "" ∨ policy = "never") then mret None
  else match x_active x with
  | WaitJobs.PollFailed | WaitJobs.PollActive 0 => mret None
  | WaitJobs.PollActive n =>
      created ← createSyncLog new_id stackID trigger commitSHA
                  ("waiting for " +:+ Itoa (Z.of_nat n) +:+ " running job(s) on repository");
      e1 ← next_env; e2 ← next_env;
      w ← gets phases;
      let waitLog := match created with inl rec => Some rec | inr _ => None end in
      let id := match waitLog with Some rec => Id rec | None => "" end in
      let fresh := {| WaitJobs.dp_tracker := None; WaitJobs.dp_world := w; WaitJobs.dp_updates := []; WaitJobs.dp_marked := false |} in
      let opened := if present waitLog then WaitJobs.open_log id n e1 e2 fresh else fresh in
      modify (λ s, set_phases (tracker s) (WaitJobs.dp_world opened) s);;
      update_logs id 0 (WaitJobs.dp_updates opened);;
      start ← now; e3 ← next_env;
      let waiting := {| WaitJobs.dp_tracker := WaitJobs.dp_tracker opened; WaitJobs.dp_world := WaitJobs.dp_world opened;
                        WaitJobs.dp_updates := []; WaitJobs.dp_marked := false |} in
      match WaitJobs.conclude show_elapsed (WaitJobs.wait_loop (WaitJobs.deadline_of stack start) (x_rounds x))
              (present waitLog) start e3 waiting with
      | None => leave StillRunning
      | Some res =>
          ms ← since_ms start;
          let d := WaitJobs.wr_deploy res in
          modify (λ s, set_phases (tracker s) (WaitJobs.dp_world d) s);;
          update_logs id ms (WaitJobs.dp_updates d);;
          (if WaitJobs.dp_marked d then ignore markError else mret tt);;
          match WaitJobs.wr_err res with Some err => fail err | None => mret waitLog end
      end
  end.

(** ** A reconcile that deploys nothing *)
Definition logNoopSyncWithPhases (stackID trigger commitSHA commitMsg output : string) (reused : option record)
    (gitFetchStart gitFetchDuration : Z) (lintRes : lintResult) (renderStart renderDuration : Z) : M unit :=
  syncLog ← match reused with
            | Some rec => mret rec
            | None => created ← createSyncLog new_id stackID trigger commitSHA commitMsg;
                      match created with inl rec => mret rec | inr err => fail ("failed to create no-op sync log: " +:+ err) end
            end;
  let pt := Some (newPhaseTracker (Id syncLog)) in
  pt_recordCompleted pt PhaseGitFetch PhaseStatusSuccess gitFetchStart gitFetchDuration "";;
  pt_recordLint pt lintRes;;
  (if present reused then mret tt else pt_recordSkipped pt PhasePolicyCheck "no wait needed");;
  pt_recordCompleted pt PhaseRender PhaseStatusSkipped renderStart renderDuration "compose unchanged, deploy skipped";;
  (if present reused then mret tt else notify SyncStarted (Id syncLog) trigger commitSHA 0 "");;
  check (updateSyncLog (Id syncLog) "noop" output 0);;
  notify SyncDone (Id syncLog) trigger commitSHA 0 "".

(** ** ReconcileStack *)

(** What the fetch phase leaves: the repository, its commit, the commit last deployed,
    the worker and its fingerprint, and when the phase started and how long it took. *)
Record fetched := {
  f_repo : record; f_sha : string; f_last : string; f_worker : string; f_fingerprint : string; f_start : Z; f_ms : Z }.

Definition reconcile_fetch (stackID trigger : string) : M fetched :=
  gitFetchStart ← now;
  stack ← gets mem;
  let repoID := GetString "repository" stack in
  let fails sha errMsg := logFailureWithPhase new_id stackID trigger sha errMsg PhaseGitFetch gitFetchStart [] in
  found ← find_repo repoID;
  match found with
  | None => let errMsg := "repository " +:+ repoID +:+ " not found for stack " +:+ stackID in
            abort_sync_as rfc3339 (fails "" errMsg) errMsg "" (errMsg +:+ ": " +:+ db_error)
  | Some repo =>
  fetchedSHA ← ensureRepoFetched rfc3339 (x_clone x) (x_git_paused x) (x_head x) repo trigger (x_git_dir x) (x_opens x);
  match fetchedSHA with
  | inr err => let errMsg := "git fetch failed for repo " +:+ repoID +:+ ": " +:+ err in
               abort_sync_as rfc3339 (fails "" errMsg) errMsg "" ("git operation failed: " +:+ err)
  | inl remoteSHA =>
  reloaded ← find_repo repoID;
  match reloaded with
  | None => let errMsg := "repository " +:+ repoID +:+ " vanished mid-reconcile for stack " +:+ stackID in
            abort_sync_as rfc3339 (fails remoteSHA errMsg) errMsg remoteSHA (errMsg +:+ ": " +:+ db_error)
  | Some repo =>
  refreshScheduleFromDefinition (x_definition x);;
  stack ← gets mem;
  match resolveWorker (x_worker x) stack with
  | inr err => let errMsg := "worker resolution failed: " +:+ err in
               abort_sync rfc3339 (fails "" errMsg) errMsg remoteSHA
  | inl (workerID, fingerprint) =>
      ms ← since_ms gitFetchStart;
      mret {| f_repo := repo; f_sha := remoteSHA; f_last := GetString "deployed_commit" stack; f_worker := workerID;
              f_fingerprint := fingerprint; f_start := gitFetchStart; f_ms := ms |}
  end end end end.

(** The worker is not connected. *)
Definition reconcile_offline (stackID trigger prevStatus : string) (f : fetched) : M unit :=
  if HasChanged (f_sha f) (f_last f) || negb (bool_decide (trigger = "cron")) then
    err ← queuePendingReconcile new_id stackID trigger (f_sha f);
    match err with
    | Some err => ignore (logFailure new_id stackID trigger (f_sha f) err);; ignore (markSyncError rfc3339 err (f_sha f));; fail err
    | None =>
        stack ← gets mem;
        if shouldMarkPendingOnQueue stack
        then check (saveRecordStatus "pending" "mark stack pending after offline queue") else mret tt
    end
  else check (saveRecordStatus prevStatus "restore status after offline cron skip").

(** The desired state: the commit to deploy, its message, the directory, the
    environment, the lint of the file as committed, and the render with its timing. *)
Record desired := {
  d_sha : string; d_message : string; d_env : list string; d_lint : lintResult;
  d_checksum : string; d_version : Z; d_render : RenderResult; d_warnings : list string; d_start : Z; d_ms : Z }.

Definition fetch_phase (f : fetched) : completedPhase :=
  {| cp_phase := PhaseGitFetch; cp_start := f_start f; cp_duration := f_ms f; cp_detail := "" |}.

(** The environment a deploy gets, with the values of the SOPS file on top. *)
Definition load_environment (stackID trigger sha : string) (prior : list completedPhase) (renderStart : Z) : M (list string) :=
  match x_env x with
  | inr err => let errMsg := "failed to load env vars: " +:+ err in
      abort_secret rfc3339 (logFailureWithPhase new_id stackID trigger sha errMsg PhaseRender renderStart prior) errMsg sha
  | inl envVars =>
      sopsStart ← now;
      match x_sops x with
      | inr err => let errMsg := "failed to decrypt SOPS secrets file: " +:+ err in
          ms ← since_ms renderStart;
          abort_secret rfc3339 (logFailureWithPhase new_id stackID trigger sha errMsg PhaseSecretsFetch sopsStart
            (prior ++ [{| cp_phase := PhaseRender; cp_start := renderStart; cp_duration := ms; cp_detail := "" |}])) errMsg sha
      | inl values => clearSecretError;; mret (overlaySopsEnv envVars values)
      end
  end.

(** The commit of the checkout once it is locked for reading, after the wait. *)
Definition settle_commit (repoID remoteSHA : string) (reused : option record) : M string :=
  modify (λ s, set_repos (x_moved x (repos s)) s);;
  fresh ← find_repo repoID;
  let sha := match fresh with Some r => GetString "last_commit_sha" r | None => "" end in
  let sha := if decide (sha = "") then remoteSHA else sha in
  (match reused with
   | Some log => if decide (sha ≠ remoteSHA) then ignore (updateSyncLogCommit (Id log) sha) else mret tt
   | None => mret tt
   end);;
  mret sha.

Definition reconcile_render (stackID trigger : string) (f : fetched) (reused : option record) : M desired :=
  stack ← gets mem;
  let repoID := GetString "repository" stack in
  remoteSHA ← settle_commit repoID (f_sha f) reused;
  renderStart ← now;
  match stackWorkDir workspace stack repoID with
  | inr err => let errMsg := "invalid compose_path: " +:+ err in
      abort_sync rfc3339 (logFailureWithPhase new_id stackID trigger remoteSHA errMsg PhaseRender renderStart [fetch_phase f])
        errMsg remoteSHA
  | inl workDir =>
  composeFile ← resolveComposeFile new_id rfc3339 workDir stackID trigger remoteSHA (x_compose_exists x);
  envVars ← load_environment stackID trigger remoteSHA [fetch_phase f] renderStart;
  lintStart ← now; lintEnd ← now;
  let lintRes := lintCompose lintStart lintEnd (x_lint x) (x_policy x)
                   (Renderer.containmentRootFor workspace (Some (f_repo f)) workDir) (f_worker f) envVars in
  found ← answer;
  if negb found then fail ("stack vanished mid-reconcile: " +:+ db_error) else
  modify (λ s, set_stack (db s) (db s) s);;
  stack ← gets mem;
  res ← render_unattended (Some (f_repo f)) stackID workDir composeFile envVars remoteSHA (f_worker f) (f_fingerprint f);
  match res with
  | inr err => let errMsg := "failed to generate label revision: " +:+ err in
      abort_sync rfc3339 (logFailureWithPhaseAnd new_id stackID trigger remoteSHA errMsg PhaseRender renderStart
        (λ pt, pt_recordCompleted pt PhaseGitFetch PhaseStatusSuccess (f_start f) (f_ms f) "";; pt_recordLint pt lintRes))
        errMsg remoteSHA
  | inl (r, files, warnings) =>
      ms ← since_ms renderStart;
      upsertStackConfigTracking files;;
      mret {| d_sha := remoteSHA; d_message := x_message x remoteSHA; d_env := envVars; d_lint := lintRes;
              d_checksum := GetString "checksum" stack; d_version := GetInt "current_version" stack;
              d_render := r; d_warnings := warnings; d_start := renderStart; d_ms := ms |}
  end end.

(** The attempts and their outcome. *)
Definition reconcile_dispatch (o : order) (trigger lastSHA : string) : M unit :=
  acc ← deploy_attempts o (GetRevisionFilePath stackStorage (o_stack o) (Version (o_render o))) trigger maxRetries 1
          {| t_result := no_attempt; t_content := ""; t_start := 0; t_duration := 0 |};
  match a_err (t_result acc) with
  | Some runErr => deploy_failed o trigger lastSHA runErr acc
  | None => deploy_succeeded o trigger acc
  end.

(** Dispatching a render that differs from the stored one. *)
Definition reconcile_deploy (stackID trigger : string) (queueTotal : Z) (f : fetched) (reused : option record) (d : desired)
    : M unit :=
  syncLog ← match reused with
            | Some rec => mret rec
            | None => created ← createSyncLog new_id stackID trigger (d_sha d) (d_message d);
                      match created with inl rec => mret rec | inr err => fail ("failed to create sync log: " +:+ err) end
            end;
  modify (λ s, set_phases (Some (newPhaseTracker (Id syncLog))) (phases s) s);;
  deferring "deploy aborted" (
    pt ← gets tracker;
    pt_recordCompleted pt PhaseGitFetch PhaseStatusSuccess (f_start f) (f_ms f) "";;
    pt_recordLint pt (d_lint d);;
    (if present reused then mret tt else pt_recordSkipped pt PhasePolicyCheck "no wait needed");;
    pt_recordCompleted pt PhaseRender PhaseStatusSuccess (d_start d) (d_ms d) (renderPhaseDetail (d_render d) (d_warnings d));;
    notify SyncStarted (Id syncLog) trigger (d_sha d) 0 "";;
    pt_start PhaseDispatch;;
    reconcile_dispatch
      {| o_log := Id syncLog; o_stack := stackID; o_commit := d_sha d; o_trigger := trigger; o_queue := queueTotal;
         o_worker := f_worker f; o_render := d_render d; o_env := d_env d; o_what := "remote deploy";
         o_containers := false; o_volumes := false; o_networks := false |} trigger (f_last f)).

Definition noop_output (r : RenderResult) : string :=
  "No changes detected." +:+ newline +:+ newline +:+ "Rendered compose checksum: " +:+ Checksum r +:+ newline
  +:+ "Revision: v" +:+ Itoa (Version r) +:+ newline
  +:+ "Deployment skipped because the active stack already matches the desired compose state.".

(** The worker is connected. *)
Definition reconcile_online (stackID trigger prevStatus : string) (queueTotal : Z) (f : fetched) : M unit :=
  stack ← gets mem;
  let neverSynced := bool_decide (GetString "last_synced_at" stack = "") in
  let containerSHA := if neverSynced then "" else inspectStackCommit decode_inspect (x_inspect x) in
  if bool_decide (trigger = "cron") && negb neverSynced && negb (HasChanged (f_sha f) (f_last f))
     && bool_decide (containerSHA = f_sha f)
  then check (saveRecordStatus prevStatus "restore status after unchanged container skip")
  else
    reused ← wait_for_jobs stackID trigger (f_sha f);
    d ← reconcile_render stackID trigger f reused;
    if negb neverSynced && bool_decide (Checksum (d_render d) = d_checksum d)
       && bool_decide (Version (d_render d) = d_version d)
    then
      check (saveRecordStatus prevStatus "restore status after unchanged compose skip");;
      if decide (trigger = "cron") then mret tt
      else logNoopSyncWithPhases stackID trigger (d_sha d) (d_message d) (noop_output (d_render d)) reused (f_start f) (f_ms f)
             (d_lint d) (d_start d) (d_ms d)
    else reconcile_deploy stackID trigger queueTotal f reused d.

(** The git-backed reconcile, from the secret check on. *)
Definition reconcile_git (stackID trigger : string) (queueTotal : Z) : M unit :=
  checkSecretBackends new_id rfc3339 stackID trigger "" (x_backends x);;
  stack ← gets mem;
  let prevStatus := effectivePrevStatus stack in
  check (saveRecordStatus "syncing" ("start reconcile trigger=" +:+ trigger));;
  f ← reconcile_fetch stackID trigger;
  if x_connected x (f_worker f) then reconcile_online stackID trigger prevStatus queueTotal f
  else reconcile_offline stackID trigger prevStatus f.
End reconcile.
