(* ===== verification/ReconcileOps.v ===== *)
(** * internal/sync/reconciler.go: the operations on a stack

    [ReconcileStack] with its local branch, [RollbackStack] and [ForceRedeployStack].
    Each takes the stack's lock without waiting: [busy] says that another operation
    holds it. *)
From Stdlib Require Import ZArith.
From S2P Require Import Prelude GoStrings GoPath GoFmt GoValue GoBase64 SafePath Policy ComposeDoc PbRecord PbTable.
From S2P Require Import Overrides ConfigFiles ConfigInject EnvFile ProjectIdentity LintCore LintRules PhaseTracker LintPhase.
From S2P Require Import Health PostCheck ReconcileCore Reconcile.
From S2P Require Renderer WaitJobs.

Section operations.
Context `{Platform} (x : externals).

Definition load_stack : M unit :=
  found ← answer;
  if negb found then fail ("stack not found: " +:+ db_error) else modify (λ s, set_stack (db s) (db s) s).

(** One dispatch of a rendered revision and its duration. *)
Definition deploy_once (o : order) (content : string) (start : Z) : M deployed_attempt :=
  r ← dispatch_once x 1 o content no_attempt;
  ms ← since_ms start;
  mret {| t_result := r; t_content := content; t_start := start; t_duration := ms |}.

(** ** Local stacks *)

(** Removing the working copy, whatever the rest of the function returned. *)
Definition with_cleanup (stackID trigger : string) (m : M unit) : M unit := λ s,
  let '(r, s') := m s in
  match x_cleanup x with
  | None => (r, s')
  | Some err =>
      let errMsg := "failed to clean temp work dir for local stack " +:+ stackID +:+ " (trigger=" +:+ trigger +:+ "): " +:+ err in
      let s'' := (ignore (logFailure new_id stackID trigger "" errMsg) s').2 in
      (match r with inl _ | inr (Returns None) => inr (Returns (Some errMsg)) | _ => r end, s'')
  end.

(** The file read from the worker's host, the directory of the working copy, and when
    reading started. *)
Definition local_fetch (stackID trigger workerID importPath : string) : M (string * string * Z) :=
  fetchStart ← now;
  let fails errMsg := abort_sync rfc3339 (logFailureWithPhase new_id stackID trigger "" errMsg PhaseGitFetch fetchStart []) errMsg "" in
  let '(output, refusal) := match x_read x with
    | inr e => ("", Some (de_text e +:+ " "))
    | inl res => (Output res, if decide (Error res = "") then None else Some ("<nil> " +:+ Error res)) end in
  match refusal with
  | Some err => fails ("failed to read remote compose file " +:+ importPath +:+ ": " +:+ err)
  | None =>
      match DecodeString output with
      | None => fails ("failed to decode remote compose file: " +:+ corrupt_input output)
      | Some data =>
          match x_mkdir x with
          | inr err => fails ("failed to create temp work dir: " +:+ err)
          | inl workDir => mret (data, workDir, fetchStart)
          end
      end
  end.

Definition local_dispatch (o : order) (trigger newChecksum : string) (start : Z) : M unit :=
  content ← get (readRenderedCompose new_id rfc3339 (o_stack o) trigger ""
                   (GetRevisionFilePath stackStorage (o_stack o) (Version (o_render o))));
  acc ← deploy_once o content start;
  match a_err (t_result acc) with
  | Some runErr =>
      pt_finish PhaseDispatch PhaseStatusError runErr;;
      let errOutput := buildErrorOutput (a_output (t_result acc)) (Some runErr) in
      upd ← updateSyncLog (o_log o) "error" errOutput (t_duration acc);
      match upd with
      | Some err => ignore (markDeployError rfc3339 err "");; fail err
      | None => check (markDeployFailure rfc3339 (a_reason (t_result acc)) "error" errOutput "");; fail runErr
      end
  | None =>
      pt_finish PhaseDispatch PhaseStatusSuccess "";;
      pt ← gets tracker;
      recordWorkerAckAndComposeUpPhases pt (x_acked x (o_log o)) start (a_ms (t_result acc));;
      result ← post_check x content;
      on_stack (SetStr "checksum" newChecksum);;
      record_success "complete local reconcile" "local deploy succeeded but failed to persist stack success: "
        (pc_Status result) (o_commit o) newChecksum (o_log o) (checked_output (a_output (t_result acc)) result) ""
        (o_render o) result (t_duration acc);;
      pt ← gets tracker;
      pt_recordSkipped pt PhaseNotify "n/a: local stack sync has no notifications"
  end.

Definition local_deploy (stackID trigger workerID newChecksum : string) (neverSynced : bool) (envVars : list string)
    (fetchStart fetchDuration renderStart renderDuration : Z) (renderRes : RenderResult) (warnings : list string) : M unit :=
  created ← createSyncLog new_id stackID trigger "imported" "local stack sync";
  syncLog ← match created with inl rec => mret rec | inr err => fail ("failed to create sync log: " +:+ err) end;
  modify (λ s, set_phases (Some (newPhaseTracker (Id syncLog))) (phases s) s);;
  deferring "local sync aborted" (
    pt ← gets tracker;
    pt_recordCompleted pt PhaseGitFetch PhaseStatusSuccess fetchStart fetchDuration "";;
    pt_recordSkipped pt PhaseLint "n/a: local stack compose comes from the worker, not git";;
    pt_recordSkipped pt PhasePolicyCheck "n/a: local stack sync";;
    pt_recordCompleted pt PhaseRender PhaseStatusSuccess renderStart renderDuration (renderPhaseDetail renderRes warnings);;
    stack ← gets mem;
    start ← now;
    pt_start PhaseDispatch;;
    local_dispatch
      {| o_log := Id syncLog; o_stack := stackID; o_commit := "imported"; o_trigger := trigger; o_queue := 0;
         o_worker := workerID; o_render := renderRes; o_env := envVars; o_what := "remote local-sync";
         o_containers := neverSynced; o_volumes := neverSynced && GetBool "import_recreate_volumes" stack;
         o_networks := false |} trigger newChecksum start).

(** From the working copy on. *)
Definition local_sync (stackID trigger workerID fingerprint prevStatus workDir composeContent : string) (fetchStart : Z) : M unit :=
  match x_write x with
  | Some err =>
      let errMsg := "failed to write source file: " +:+ err in
      abort_sync rfc3339 (logFailureWithPhase new_id stackID trigger "" errMsg PhaseGitFetch fetchStart []) errMsg ""
  | None =>
  fetchDuration ← since_ms fetchStart;
  stack ← gets mem;
  let newChecksum := sha256 composeContent in
  let neverSynced := bool_decide (GetString "last_synced_at" stack = "") in
  let fileChanged := bool_decide (newChecksum ≠ GetString "checksum" stack) in
  if bool_decide (trigger = "cron") && negb neverSynced && negb fileChanged
  then check (saveRecordStatus prevStatus "restore status after unchanged local stack skip")
  else
    renderStart ← now;
    let prior := [{| cp_phase := PhaseGitFetch; cp_start := fetchStart; cp_duration := fetchDuration; cp_detail := "" |}] in
    match x_env x with
    | inr err => let errMsg := "failed to load env vars: " +:+ err in
        abort_secret rfc3339 (logFailureWithPhase new_id stackID trigger "" errMsg PhaseRender renderStart prior) errMsg ""
    | inl envVars =>
        clearSecretError;;
        res ← render_unattended x None stackID workDir "source.yml" envVars "imported" workerID fingerprint;
        match res with
        | inr err => let errMsg := "failed to generate label revision: " +:+ err in
            abort_sync rfc3339 (logFailureWithPhase new_id stackID trigger "" errMsg PhaseRender renderStart prior) errMsg ""
        | inl (r, _, warnings) =>
            renderDuration ← since_ms renderStart;
            local_deploy stackID trigger workerID newChecksum neverSynced envVars fetchStart fetchDuration renderStart
              renderDuration r warnings
        end
    end
  end.

Definition reconcileLocalStack (stackID trigger : string) : M unit :=
  checkSecretBackends new_id rfc3339 stackID trigger "" (x_backends x);;
  stack ← gets mem;
  let fails errMsg := abort_sync rfc3339 (logFailure new_id stackID trigger "" errMsg) errMsg "" in
  if decide (GetString "import_path" stack = "") then fails "import_path is required for local stacks" else
  match resolveWorker (x_worker x) stack with
  | inr err => fails ("worker resolution failed: " +:+ err)
  | inl (workerID, fingerprint) =>
      if negb (x_connected x workerID) then
        err ← queuePendingReconcile new_id stackID trigger "";
        match err with
        | Some err => ignore (logFailure new_id stackID trigger "" err);; ignore (markSyncError rfc3339 err "");; fail err
        | None =>
            stack ← gets mem;
            if shouldMarkPendingOnQueue stack
            then check (saveRecordStatus "pending" "mark local stack pending after offline queue") else mret tt
        end
      else
        let prevStatus := effectivePrevStatus stack in
        check (saveRecordStatus "syncing" ("start local reconcile trigger=" +:+ trigger));;
        '(data, workDir, fetchStart) ← local_fetch stackID trigger workerID (GetString "import_path" stack);
        with_cleanup stackID trigger (local_sync stackID trigger workerID fingerprint prevStatus workDir data fetchStart)
  end.

(** ** ReconcileStack *)
Definition reconcile_loaded (stackID trigger : string) (queueTotal : Z) : M unit :=
  stack ← gets mem;
  if decide (GetString "status" stack = "paused") then mret tt
  else if bool_decide (trigger = "cron") && GetBool "secret_error" stack then mret tt
  else if decide (GetString "source_type" stack = "local") then reconcileLocalStack stackID trigger
  else reconcile_git x stackID trigger queueTotal.

Definition ReconcileStack (busy : bool) (stackID trigger : string) (queueTotal : Z) : M unit :=
  if busy then mret tt else load_stack;; reconcile_loaded stackID trigger queueTotal.

(** ** RollbackStack *)

(** The render of the commit rolled back to, as the fetch and render phases leave it. *)
Definition rollback_render (stackID commitSHA : string) : M (fetched * desired) :=
  gitFetchStart ← now;
  stack ← gets mem;
  let repoID := GetString "repository" stack in
  let fails errMsg := logFailureWithPhase new_id stackID "manual" commitSHA errMsg PhaseGitFetch gitFetchStart [] in
  found ← find_repo repoID;
  match found with
  | None => let errMsg := "repository " +:+ repoID +:+ " not found for stack " +:+ stackID in
            abort_sync_as rfc3339 (fails errMsg) errMsg commitSHA (errMsg +:+ ": " +:+ db_error)
  | Some repo =>
  match x_reset x with
  | Some err => let errMsg := "git reset to " +:+ commitSHA +:+ " failed: " +:+ err in
                abort_sync_as rfc3339 (fails errMsg) errMsg commitSHA ("git reset failed: " +:+ err)
  | None =>
  gitFetchDuration ← since_ms gitFetchStart;
  let prior := {| cp_phase := PhaseGitFetch; cp_start := gitFetchStart; cp_duration := gitFetchDuration; cp_detail := "" |} in
  renderStart ← now;
  let fails_render errMsg := logFailureWithPhase new_id stackID "manual" commitSHA errMsg PhaseRender renderStart [prior] in
  match stackWorkDir workspace stack repoID with
  | inr err => let errMsg := "invalid compose_path: " +:+ err in abort_sync rfc3339 (fails_render errMsg) errMsg commitSHA
  | inl workDir =>
  composeFile ← resolveComposeFile new_id rfc3339 workDir stackID "manual" commitSHA (x_compose_exists x);
  envVars ← load_environment x stackID "manual" commitSHA [prior] renderStart;
  stack ← gets mem;
  match resolveWorker (x_worker x) stack with
  | inr err => let errMsg := "worker resolution failed: " +:+ err in abort_sync rfc3339 (fails errMsg) errMsg commitSHA
  | inl (workerID, fingerprint) =>
  res ← render x 0 (Some repo) workDir composeFile envVars commitSHA true workerID fingerprint (load_overrides stack);
  match res with
  | inr err => let errMsg := "failed to generate label revision on rollback: " +:+ err in
               abort_sync rfc3339 (fails_render errMsg) errMsg commitSHA
  | inl (r, files, warnings) =>
      ms ← since_ms renderStart;
      upsertStackConfigTracking files;;
      mret ({| f_repo := repo; f_sha := commitSHA; f_last := ""; f_worker := workerID; f_fingerprint := fingerprint;
               f_start := gitFetchStart; f_ms := gitFetchDuration |},
            {| d_sha := commitSHA; d_message := "rollback to " +:+ commitSHA; d_env := envVars;
               d_lint := {| l_report := empty_report; l_started := 0; l_duration := 0; l_err := None |};
               d_checksum := GetString "checksum" stack; d_version := GetInt "current_version" stack; d_render := r;
               d_warnings := warnings; d_start := renderStart; d_ms := ms |})
  end end end end end.

Definition rollback_failed (log commitSHA runErr : string) (acc : deployed_attempt) : M unit :=
  pt_finish PhaseDispatch PhaseStatusError runErr;;
  let errOutput := buildErrorOutput (a_output (t_result acc)) (Some runErr) in
  upd ← updateSyncLog log "error" errOutput (t_duration acc);
  match upd with
  | Some err => ignore (markDeployError rfc3339 err commitSHA);; fail err
  | None =>
      pt_start PhaseNotify;;
      notify SyncError log "manual" commitSHA (t_duration acc) runErr;;
      pt_finish PhaseNotify PhaseStatusSuccess "";;
      check (markDeployFailure rfc3339 (a_reason (t_result acc)) "error" errOutput commitSHA);;
      fail runErr
  end.

Definition rollback_succeeded (log commitSHA : string) (repo : record) (r : RenderResult) (acc : deployed_attempt) : M unit :=
  pt_finish PhaseDispatch PhaseStatusSuccess "";;
  pt ← gets tracker;
  recordWorkerAckAndComposeUpPhases pt (x_acked x log) (t_start acc) (a_ms (t_result acc));;
  t ← now;
  saved ← save_repo (SetStr "last_fetched_at" (rfc3339 t) (SetStr "last_commit_sha" commitSHA repo))
            "persist rollback repository state";
  match saved with
  | Some err =>
      ignore (updateSyncLog log "error" ("rollback succeeded but failed to persist repository state: " +:+ err) (t_duration acc));;
      fail err
  | None =>
      result ← post_check x (t_content acc);
      record_success "complete rollback" "rollback succeeded but failed to persist stack state: "
        (resolvePostDeployStatus (pc_Status result) true) commitSHA (Checksum r) log
        (checked_output (a_output (t_result acc)) result) commitSHA r result (t_duration acc);;
      notify_result log "manual" commitSHA result (t_duration acc)
  end.

Definition rollback_dispatch (o : order) (repo : record) (start : Z) : M unit :=
  content ← get (readRenderedCompose new_id rfc3339 (o_stack o) "manual" (o_commit o)
                   (GetRevisionFilePath stackStorage (o_stack o) (Version (o_render o))));
  acc ← deploy_once o content start;
  match a_err (t_result acc) with
  | Some runErr => rollback_failed (o_log o) (o_commit o) runErr acc
  | None => rollback_succeeded (o_log o) (o_commit o) repo (o_render o) acc
  end.

Definition rollback_loaded (stackID commitSHA : string) : M unit :=
  checkSecretBackends new_id rfc3339 stackID "manual" commitSHA (x_backends x);;
  check (saveRecordStatus "syncing" "start rollback");;
  '(f, d) ← rollback_render stackID commitSHA;
  created ← createSyncLog new_id stackID "manual" commitSHA (d_message d);
  match created with
  | inr err => ignore (markSyncError rfc3339 err commitSHA);; fail err
  | inl syncLog =>
      modify (λ s, set_phases (Some (newPhaseTracker (Id syncLog))) (phases s) s);;
      deferring "rollback aborted" (
        pt ← gets tracker;
        pt_recordCompleted pt PhaseGitFetch PhaseStatusSuccess (f_start f) (f_ms f) "";;
        pt_recordSkipped pt PhaseLint "n/a: rollback deploys an already-linted revision";;
        pt_recordSkipped pt PhasePolicyCheck "n/a: rollback";;
        pt_recordCompleted pt PhaseRender PhaseStatusSuccess (d_start d) (d_ms d) (renderPhaseDetail (d_render d) (d_warnings d));;
        notify SyncStarted (Id syncLog) "manual" commitSHA 0 "";;
        start ← now;
        pt_start PhaseDispatch;;
        rollback_dispatch
          {| o_log := Id syncLog; o_stack := stackID; o_commit := commitSHA; o_trigger := "rollback"; o_queue := 0;
             o_worker := f_worker f; o_render := d_render d; o_env := d_env d; o_what := "remote rollback";
             o_containers := false; o_volumes := false; o_networks := false |} (f_repo f) start)
  end.

Definition RollbackStack (busy : bool) (stackID commitSHA : string) : M unit :=
  if busy then fail ("stack " +:+ stackID +:+ " already syncing") else load_stack;; rollback_loaded stackID commitSHA.

(** ** ForceRedeployStack *)
Definition failRedeploy (log lastSHA : string) (start : Z) (duration : option Z) (category reason errMsg : string) : M unit :=
  duration ← match duration with Some d => mret d | None => since_ms start end;
  pt_finishCurrentAsError errMsg;;
  upd ← updateSyncLog log "error" errMsg duration;
  match upd with
  | Some err => ignore (markStackError rfc3339 category err lastSHA);; fail err
  | None =>
      notify SyncError log "redeploy" lastSHA duration errMsg;;
      check (markStackFailure rfc3339 category (if decide (category = "deploy") then reason else "") "error" errMsg lastSHA);;
      fail errMsg
  end.

Definition redeploy_dispatch (o : order) (pauseAfter : bool) (start : Z) (warnings : list string) : M unit :=
  read ← readRenderedCompose new_id rfc3339 (o_stack o) "redeploy" (o_commit o)
           (GetRevisionFilePath stackStorage (o_stack o) (Version (o_render o)));
  match read with
  | inr err => failRedeploy (o_log o) (o_commit o) start None "sync" "" err
  | inl content =>
      pt_finish PhaseRender PhaseStatusSuccess (renderPhaseDetail (o_render o) warnings);;
      pt_start PhaseDispatch;;
      dispatchStart ← now;
      acc ← deploy_once o content start;
      match a_err (t_result acc) with
      | Some runErr => failRedeploy (o_log o) (o_commit o) start (Some (t_duration acc)) "deploy" (a_reason (t_result acc))
                         (buildErrorOutput (a_output (t_result acc)) (Some runErr))
      | None =>
          pt_finish PhaseDispatch PhaseStatusSuccess "";;
          pt ← gets tracker;
          recordWorkerAckAndComposeUpPhases pt (x_acked x (o_log o)) dispatchStart (a_ms (t_result acc));;
          result ← post_check x content;
          record_success "complete force redeploy" "redeploy succeeded but failed to persist stack state: "
            (resolvePostDeployStatus (pc_Status result) pauseAfter) (o_commit o) (Checksum (o_render o)) (o_log o)
            (checked_output (a_output (t_result acc)) result) (o_commit o) (o_render o) result (t_duration acc);;
          notify_result (o_log o) "redeploy" (o_commit o) result (t_duration acc)
      end
  end.

(** From the sync log on, every failure goes through [failRedeploy]. *)
Definition redeploy_run (stackID : string) (repo : record) (log lastSHA : string) (recreateContainers recreateVolumes
    recreateNetworks pauseAfter : bool) : M unit :=
  pt ← gets tracker;
  pt_recordSkipped pt PhaseGitFetch "n/a: force redeploy uses last known commit";;
  pt_recordSkipped pt PhaseLint "n/a: force redeploy";;
  pt_recordSkipped pt PhasePolicyCheck "n/a: force redeploy";;
  pt_start PhaseRender;;
  start ← now;
  stack ← gets mem;
  let fails errMsg := failRedeploy log lastSHA start None "sync" "" errMsg in
  match stackWorkDir workspace stack (Id repo) with
  | inr err => fails ("invalid compose_path: " +:+ err)
  | inl workDir =>
  match x_env x with
  | inr err => on_stack (SetField "secret_error" (VBool true));; fails ("failed to load env vars: " +:+ err)
  | inl envVars =>
  pt_start PhaseSecretsFetch;;
  match x_sops x with
  | inr err => on_stack (SetField "secret_error" (VBool true));; fails ("failed to decrypt SOPS secrets file: " +:+ err)
  | inl values =>
  let envVars := overlaySopsEnv envVars values in
  clearSecretError;;
  stack ← gets mem;
  match resolveWorker (x_worker x) stack with
  | inr err => fails ("worker resolution failed: " +:+ err)
  | inl (workerID, fingerprint) =>
  res ← render x 0 (Some repo) workDir (compose_file_of stack) envVars lastSHA true workerID fingerprint (load_overrides stack);
  match res with
  | inr err => fails ("failed to generate label revision on redeploy: " +:+ err)
  | inl (r, files, warnings) =>
  upsertStackConfigTracking files;;
  redeploy_dispatch
    {| o_log := log; o_stack := stackID; o_commit := lastSHA; o_trigger := "force-redeploy"; o_queue := 0;
       o_worker := workerID; o_render := r; o_env := envVars; o_what := "remote redeploy";
       o_containers := recreateContainers; o_volumes := recreateVolumes; o_networks := recreateNetworks |} pauseAfter start warnings
  end end end end end.

Definition redeploy_loaded (stackID : string) (recreateContainers recreateVolumes recreateNetworks pauseAfter : bool) : M unit :=
  checkSecretBackends new_id rfc3339 stackID "redeploy" "" (x_backends x);;
  check (saveRecordStatus "syncing" "start force redeploy");;
  stack ← gets mem;
  let repoID := GetString "repository" stack in
  found ← find_repo repoID;
  match found with
  | None => let errMsg := "repository " +:+ repoID +:+ " not found for stack " +:+ stackID in
            abort_sync_as rfc3339 (logFailure new_id stackID "redeploy" "" errMsg) errMsg "" (errMsg +:+ ": " +:+ db_error)
  | Some repo =>
      let lastSHA := GetString "last_commit_sha" repo in
      created ← createSyncLog new_id stackID "redeploy" lastSHA "force redeploy";
      match created with
      | inr err => ignore (markSyncError rfc3339 err lastSHA);; fail err
      | inl syncLog =>
          notify SyncStarted (Id syncLog) "redeploy" lastSHA 0 "";;
          modify (λ s, set_phases (Some (newPhaseTracker (Id syncLog))) (phases s) s);;
          deferring "force redeploy aborted"
            (redeploy_run stackID repo (Id syncLog) lastSHA recreateContainers recreateVolumes recreateNetworks pauseAfter)
      end
  end.

Definition ForceRedeployStack (busy : bool) (stackID : string) (recreateContainers recreateVolumes recreateNetworks
    pauseAfter : bool) : M unit :=
  if busy then fail ("stack " +:+ stackID +:+ " already syncing")
  else load_stack;; redeploy_loaded stackID recreateContainers recreateVolumes recreateNetworks pauseAfter.

(** ** Every operation that deploys *)
Inductive operation :=
| Reconcile (trigger : string) (queueTotal : Z)
| Rollback (commitSHA : string)
| ForceRedeploy (recreateContainers recreateVolumes recreateNetworks pauseAfter : bool).

Definition loaded (stackID : string) (op : operation) : M unit :=
  match op with
  | Reconcile trigger queueTotal => reconcile_loaded stackID trigger queueTotal
  | Rollback commitSHA => rollback_loaded stackID commitSHA
  | ForceRedeploy c v n p => redeploy_loaded stackID c v n p
  end.

Definition run (busy : bool) (stackID : string) (op : operation) : M unit :=
  match op with
  | Reconcile trigger queueTotal => ReconcileStack busy stackID trigger queueTotal
  | Rollback commitSHA => RollbackStack busy stackID commitSHA
  | ForceRedeploy c v n p => ForceRedeployStack busy stackID c v n p
  end.
End operations.
