(* ===== verification/ReconcileLogic.v ===== *)
(** * Reasoning about the reconciler

    Invariants of a run are predicates [I] on its state.  [keeps I m] says that [m]
    preserves [I] however it ends.  Most steps of the reconciler only write logs,
    phases, notifications and the fields of the stack record that are not about the
    deployed revision; an invariant that such writes cannot break is [stable], and every
    helper keeps every stable invariant. *)
From Stdlib Require Import ZArith.
From S2P Require Import Prelude GoStrings GoPath GoFmt GoValue GoBase64 SafePath Policy ComposeDoc PbRecord PbTable.
From S2P Require Import Overrides ConfigFiles ConfigInject EnvFile ProjectIdentity LintCore LintRules PhaseTracker LintPhase.
From S2P Require Import Health PostCheck ReconcileCore Reconcile ReconcileOps.
From S2P Require Renderer WaitJobs.

Definition keeps (I : st → Prop) {A} (m : M A) : Prop := ∀ s, I s → I (m s).2.

Section keeps.
Context (I : st → Prop).

Lemma keeps_ret {A} (a : A) : keeps I (mret a).
Proof. intros s Hs. exact Hs. Qed.
Lemma keeps_leave {A} r : keeps I (@leave A r).
Proof. intros s Hs. exact Hs. Qed.
Lemma keeps_gets {A} (f : st → A) : keeps I (gets f).
Proof. intros s Hs. exact Hs. Qed.
Lemma keeps_modify f : (∀ s, I s → I (f s)) → keeps I (modify f).
Proof. intros Hf s Hs. by apply Hf. Qed.
Lemma keeps_bind {A B} (m : M A) (k : A → M B) : keeps I m → (∀ a, keeps I (k a)) → keeps I (m ≫= k).
Proof.
  intros Hm Hk s Hs. specialize (Hm s Hs). unfold mbind, M_bind.
  destruct (m s) as [[a|r] s']; [by apply (Hk a)|done].
Qed.
Lemma keeps_check m : keeps I m → keeps I (check m).
Proof. intros Hm. apply keeps_bind; [done|]. intros [e|]; [apply keeps_leave|apply keeps_ret]. Qed.
Lemma keeps_ignore {A} (m : M A) : keeps I m → keeps I (ignore m).
Proof. intros Hm. apply keeps_bind; [done|]. intros ?. apply keeps_ret. Qed.
Lemma keeps_get {A} (m : M (A + string)) : keeps I m → keeps I (get m).
Proof. intros Hm. apply keeps_bind; [done|]. intros [a|e]; [apply keeps_ret|apply keeps_leave]. Qed.
End keeps.

Create HintDb keeps.
#[export] Hint Resolve keeps_ret keeps_leave keeps_gets keeps_check keeps_ignore keeps_get : keeps.

(** Splits a step into its calls and closes those the database knows. *)
Ltac keeps_step :=
  lazymatch goal with
  | |- keeps _ (mbind _ _) => apply keeps_bind; [|intros ?]
  | |- keeps _ (match ?a with _ => _ end) => destruct a
  | |- keeps _ (let _ := _ in _) => cbv zeta
  | |- keeps _ _ => solve [eauto with keeps]
  end.
Ltac keeps := repeat keeps_step.

(** ** Stable invariants *)

(** Fields in which the reconciler keeps its books; writing them says nothing about what
    is deployed, nor where. *)
Definition bookkeeping : list string :=
  ["status"; "last_error_category"; "last_error_reason"; "last_error_message"; "last_error_at"; "last_error_commit";
   "secret_error"; "render_overrides"; "deploy_timeout_seconds"; "sync_interval_seconds"; "checksum"; "compose_project_name"].

Definition books_only (r r' : record) : Prop := ∀ k, k ∉ bookkeeping → fields r' !! k = fields r !! k.

#[export] Instance books_only_preorder : PreOrder books_only.
Proof. split; [by intros r k|]. intros r1 r2 r3 H1 H2 k Hk. etrans; [by apply H2|by apply H1]. Qed.

Lemma books_set k v r : k ∈ bookkeeping → books_only r (SetField k v r).
Proof. intros Hk k' Hk'. apply fields_SetField_ne. by intros ->. Qed.

Lemma books_failure c rs e a cm r : books_only r (failure_fields c rs e a cm r).
Proof.
  unfold failure_fields, SetStr.
  repeat (etrans; [|apply books_set; by apply (bool_decide_unpack _)]). reflexivity.
Qed.

Lemma books_schedule r t i : books_only r (scheduleChangesFor r t i).2.
Proof.
  unfold scheduleChangesFor, schedule_field, SetInt. simpl.
  repeat (case_decide; simpl); repeat (etrans; [|apply books_set; by apply (bool_decide_unpack _)]); reflexivity.
Qed.

Record stable (I : st → Prop) : Prop := {
  stable_repos : ∀ l s, I s → I (set_repos l s); stable_logs : ∀ l s, I s → I (set_logs l s);
  stable_phases : ∀ t w s, I s → I (set_phases t w s); stable_rows : ∀ l s, I s → I (set_config_rows l s);
  stable_queued : ∀ l s, I s → I (set_queued l s); stable_note : ∀ n s, I s → I (add_note n s);
  stable_faults : ∀ a c s, I s → I (set_faults a c s);
  stable_save : ∀ s, I s → I (set_stack (mem s) (mem s) s);
  stable_load : ∀ s, I s → I (set_stack (db s) (db s) s);
  stable_set : ∀ r s, I s → books_only (mem s) r → I (set_stack (db s) r s) }.

Section stable.
Context {I : st → Prop} (HI : stable I).

Lemma keeps_on_stack f : (∀ r, books_only r (f r)) → keeps I (on_stack f).
Proof. intros Hf. apply keeps_modify. intros s Hs. apply (stable_set _ HI); [done|apply Hf]. Qed.
Lemma keeps_answer : keeps I answer.
Proof. intros s Hs. unfold answer. destruct (answers s); [done|by apply (stable_faults _ HI)]. Qed.
Lemma keeps_next_env : keeps I next_env.
Proof. intros s Hs. unfold next_env. destruct (clocks s); [done|by apply (stable_faults _ HI)]. Qed.
Lemma keeps_now : keeps I now.
Proof. apply keeps_bind; [apply keeps_next_env|]. intros e. apply keeps_ret. Qed.
Lemma keeps_since_ms z : keeps I (since_ms z).
Proof. apply keeps_bind; [apply keeps_now|]. intros e. apply keeps_ret. Qed.
Lemma keeps_saved : keeps I (modify (λ s, set_stack (mem s) (mem s) s)).
Proof. apply keeps_modify. apply (stable_save _ HI). Qed.
Lemma keeps_loaded : keeps I (modify (λ s, set_stack (db s) (db s) s)).
Proof. apply keeps_modify. apply (stable_load _ HI). Qed.
Lemma keeps_logs f : keeps I (modify (λ s, set_logs (f s) s)).
Proof. apply keeps_modify. intros s. apply (stable_logs _ HI). Qed.
Lemma keeps_repos f : keeps I (modify (λ s, set_repos (f s) s)).
Proof. apply keeps_modify. intros s. apply (stable_repos _ HI). Qed.
Lemma keeps_queued f : keeps I (modify (λ s, set_queued (f s) s)).
Proof. apply keeps_modify. intros s. apply (stable_queued _ HI). Qed.
Lemma keeps_rows l : keeps I (modify (set_config_rows l)).
Proof. apply keeps_modify. intros s. apply (stable_rows _ HI). Qed.
Lemma keeps_note n : keeps I (modify (add_note n)).
Proof. apply keeps_modify. intros s. apply (stable_note _ HI). Qed.
Lemma keeps_phases f g : keeps I (modify (λ s, set_phases (f s) (g s) s)).
Proof. apply keeps_modify. intros s. apply (stable_phases _ HI). Qed.
End stable.
#[export] Hint Resolve keeps_answer keeps_next_env keeps_now keeps_since_ms keeps_saved keeps_loaded keeps_logs keeps_repos
  keeps_queued keeps_rows keeps_note keeps_phases : keeps.
#[export] Hint Extern 2 (keeps _ (on_stack _)) => eapply keeps_on_stack; [eassumption|] : keeps.
#[export] Hint Extern 2 (∀ r, books_only r _) => intros ?;
  first [apply books_failure | unfold SetStr, SetInt; apply books_set; by apply (bool_decide_unpack _)] : keeps.

Section helpers.
Context `{Platform} {I : st → Prop} (HI : stable I).

Lemma keeps_pt_start ph : keeps I (pt_start ph).
Proof.
  unfold pt_start. keeps. apply keeps_modify. intros s Hs.
  destruct (start _ _ _ _ _) as [[??]?]. by apply (stable_phases _ HI).
Qed.
Lemma keeps_pt_finish ph st d : keeps I (pt_finish ph st d).
Proof.
  unfold pt_finish. keeps. apply keeps_modify. intros s Hs.
  destruct (finish _ _ _ _ _ _) as [[??]?]. by apply (stable_phases _ HI).
Qed.
Lemma keeps_pt_abort d : keeps I (pt_finishCurrentAsError d).
Proof.
  unfold pt_finishCurrentAsError. keeps. apply keeps_modify. intros s Hs.
  destruct (finishCurrentAsError _ _ _ _) as [??]. by apply (stable_phases _ HI).
Qed.
Lemma keeps_pt_skipped pt ph d : keeps I (pt_recordSkipped pt ph d).
Proof. unfold pt_recordSkipped. keeps. Qed.
Lemma keeps_pt_completed pt ph st z d dt : keeps I (pt_recordCompleted pt ph st z d dt).
Proof. unfold pt_recordCompleted. keeps. Qed.
Lemma keeps_pt_lint pt l : keeps I (pt_recordLint pt l).
Proof. unfold pt_recordLint. keeps. Qed.
Lemma keeps_notify e l t c d err : keeps I (notify e l t c d err).
Proof. unfold notify. keeps. Qed.
Lemma keeps_deferring {A} d (m : M A) : keeps I m → keeps I (deferring d m).
Proof.
  intros Hm s Hs. unfold deferring. specialize (Hm s Hs). destruct (m s) as [r s'].
  by apply (keeps_pt_abort d s').
Qed.
End helpers.
#[export] Hint Resolve keeps_pt_start keeps_pt_finish keeps_pt_abort keeps_pt_skipped keeps_pt_completed keeps_pt_lint
  keeps_notify : keeps.

Section records.
Context `{Platform} {I : st → Prop} (HI : stable I).

Lemma keeps_backfill pt l : keeps I (backfill pt l).
Proof. induction l as [|p l IH]; simpl; keeps. Qed.
Lemma keeps_saveRecord op : keeps I (saveRecord op).
Proof. unfold saveRecord. keeps. Qed.
Lemma keeps_saveRecordStatus status op : keeps I (saveRecordStatus status op).
Proof. pose proof keeps_saveRecord. unfold saveRecordStatus. keeps. Qed.
Lemma keeps_markErrorWithStatus status : keeps I (markErrorWithStatus status).
Proof. pose proof keeps_saveRecord. unfold markErrorWithStatus. keeps. Qed.
Lemma keeps_markStackFailure c r st e cm : keeps I (markStackFailure rfc3339 c r st e cm).
Proof. pose proof keeps_markErrorWithStatus. unfold markStackFailure. keeps. Qed.
Lemma keeps_markSecretError e cm : keeps I (markSecretError rfc3339 e cm).
Proof. pose proof keeps_markStackFailure. unfold markSecretError, markSyncError, markStackError. keeps. Qed.
Lemma keeps_clearSecretError : keeps I clearSecretError.
Proof. pose proof keeps_saveRecord. unfold clearSecretError. keeps. Qed.
Lemma keeps_clearStale id : keeps I (clearStaleRenderOverrides id).
Proof. unfold clearStaleRenderOverrides. keeps. Qed.
Lemma keeps_refresh d : keeps I (refreshScheduleFromDefinition d).
Proof.
  unfold refreshScheduleFromDefinition. intros s Hs. unfold mbind, M_bind, gets. simpl.
  destruct d as [[t i]|]; [|done]. destruct (scheduleRefreshApplies _); [|done].
  destruct (scheduleChangesFor (mem s) t i) as [ch r] eqn:Hr.
  assert (I (set_stack (db s) r s)) as Hs'.
  { apply (stable_set _ HI); [done|]. pose proof (books_schedule (mem s) t i) as Hb. by rewrite Hr in Hb. }
  revert Hs'. simpl. generalize (set_stack (db s) r s).
  assert (keeps I (if ch then answer ≫= λ ok : bool, if ok then modify (λ s, set_stack (mem s) (mem s) s) else mret tt
                   else mret tt)) as Hk by keeps.
  exact Hk.
Qed.

Lemma keeps_createSyncLog a b c d : keeps I (createSyncLog new_id a b c d).
Proof. unfold createSyncLog. keeps. Qed.
Lemma keeps_change_log id w f : keeps I (change_log id w f).
Proof. unfold change_log. keeps. Qed.
Lemma keeps_updateSyncLog id st o d : keeps I (updateSyncLog id st o d).
Proof. apply keeps_change_log. Qed.
Lemma keeps_updateSyncLogCommit id c : keeps I (updateSyncLogCommit id c).
Proof. apply keeps_change_log. Qed.
End records.
#[export] Hint Resolve keeps_backfill keeps_saveRecord keeps_saveRecordStatus keeps_markErrorWithStatus keeps_markStackFailure
  keeps_markSecretError keeps_clearSecretError keeps_clearStale keeps_refresh keeps_createSyncLog keeps_change_log
  keeps_updateSyncLog keeps_updateSyncLogCommit : keeps.
#[export] Hint Unfold markError markSyncError markDeployError markDeployFailure markStackError : keeps.

Section flows.
Context `{Platform} (x : externals) {I : st → Prop} (HI : stable I).

Lemma keeps_logFailure a b c d : keeps I (logFailure new_id a b c d).
Proof. unfold logFailure. keeps. Qed.
Lemma keeps_logFailureWithPhaseAnd a b c d ph z before : (∀ pt, keeps I (before pt)) →
  keeps I (logFailureWithPhaseAnd new_id a b c d ph z before).
Proof. intros Hb. unfold logFailureWithPhaseAnd. keeps. Qed.
Lemma keeps_logFailureWithPhase a b c d ph z prior : keeps I (logFailureWithPhase new_id a b c d ph z prior).
Proof. apply keeps_logFailureWithPhaseAnd. intros pt. by apply keeps_backfill. Qed.
Lemma keeps_abort_sync_as {A} logged e c r : keeps I logged → keeps I (@abort_sync_as rfc3339 A logged e c r).
Proof. intros Hl. unfold abort_sync_as. keeps. Qed.
Lemma keeps_abort_sync {A} logged e c : keeps I logged → keeps I (@abort_sync rfc3339 A logged e c).
Proof. apply keeps_abort_sync_as. Qed.
Lemma keeps_abort_secret {A} logged e c : keeps I logged → keeps I (@abort_secret rfc3339 A logged e c).
Proof. intros Hl. unfold abort_secret. keeps. Qed.
End flows.
#[export] Hint Resolve keeps_logFailure keeps_logFailureWithPhase keeps_abort_sync_as keeps_abort_sync
  keeps_abort_secret : keeps.
#[export] Hint Extern 3 (keeps _ (logFailureWithPhaseAnd _ _ _ _ _ _ _ _)) =>
  eapply keeps_logFailureWithPhaseAnd; [eassumption|intros ?; keeps] : keeps.

Section phases.
Context `{Platform} (x : externals) {I : st → Prop} (HI : stable I).

Lemma keeps_checkSecretBackends a b c e : keeps I (checkSecretBackends new_id rfc3339 a b c e).
Proof. unfold checkSecretBackends. keeps. Qed.
Lemma keeps_delete_queued a l : keeps I (delete_queued a l).
Proof. induction l as [|r l IH]; simpl; keeps. Qed.
Lemma keeps_queuePendingReconcile a b c : keeps I (queuePendingReconcile new_id a b c).
Proof. pose proof keeps_delete_queued. unfold queuePendingReconcile. keeps. Qed.
Lemma keeps_readRenderedCompose a b c d : keeps I (readRenderedCompose new_id rfc3339 a b c d).
Proof. unfold readRenderedCompose. keeps. Qed.
Lemma keeps_resolveComposeFile a b c d e : keeps I (resolveComposeFile new_id rfc3339 a b c d e).
Proof. unfold resolveComposeFile. keeps. Qed.
Lemma keeps_tracking l : keeps I (upsertStackConfigTracking l).
Proof. unfold upsertStackConfigTracking. keeps. Qed.
Lemma keeps_ack pt a z ms : keeps I (recordWorkerAckAndComposeUpPhases pt a z ms).
Proof. unfold recordWorkerAckAndComposeUpPhases. keeps. Qed.
Lemma keeps_find_repo id : keeps I (find_repo id).
Proof. unfold find_repo. keeps. Qed.
Lemma keeps_save_repo r op : keeps I (save_repo r op).
Proof. unfold save_repo. keeps. Qed.
Lemma keeps_fetchRepo c p h id b busy : keeps I (fetchRepo rfc3339 c p h id b busy).
Proof. pose proof keeps_find_repo. pose proof keeps_save_repo. unfold fetchRepo. keeps. Qed.
Lemma keeps_ensureRepoFetched c p h r t g o : keeps I (ensureRepoFetched rfc3339 c p h r t g o).
Proof. pose proof keeps_find_repo. pose proof keeps_fetchRepo. unfold ensureRepoFetched. keeps. Qed.
Lemma keeps_update_logs id d l : keeps I (update_logs id d l).
Proof. induction l as [|[??] l IH]; simpl; keeps. Qed.
Lemma keeps_wait_for_jobs a b c : keeps I (wait_for_jobs x a b c).
Proof. pose proof keeps_update_logs. unfold wait_for_jobs. keeps. Qed.
Lemma keeps_noop a b c d e r z1 z2 l z3 z4 : keeps I (logNoopSyncWithPhases a b c d e r z1 z2 l z3 z4).
Proof. unfold logNoopSyncWithPhases. keeps. Qed.
Lemma keeps_load_environment a b c l z : keeps I (load_environment x a b c l z).
Proof. unfold load_environment. keeps. Qed.
Lemma keeps_settle_commit a b c : keeps I (settle_commit x a b c).
Proof. pose proof keeps_find_repo. unfold settle_commit. keeps. Qed.
Lemma keeps_post_check c : keeps I (post_check x c).
Proof. unfold post_check. keeps. Qed.
Lemma keeps_notify_result a b c r z : keeps I (notify_result a b c r z).
Proof. unfold notify_result. keeps. Qed.
Lemma keeps_load_stack : keeps I load_stack.
Proof. unfold load_stack. keeps. Qed.
End phases.
#[export] Hint Resolve keeps_checkSecretBackends keeps_queuePendingReconcile keeps_readRenderedCompose keeps_resolveComposeFile
  keeps_tracking keeps_ack keeps_find_repo keeps_save_repo keeps_fetchRepo keeps_ensureRepoFetched keeps_wait_for_jobs keeps_noop
  keeps_load_environment keeps_settle_commit keeps_post_check keeps_notify_result keeps_load_stack : keeps.

Section early.
Context `{Platform} (x : externals) {I : st → Prop} (HI : stable I).

Lemma keeps_reconcile_fetch id tr : keeps I (reconcile_fetch x id tr).
Proof. unfold reconcile_fetch. keeps. Qed.
Lemma keeps_reconcile_offline id tr p f : keeps I (reconcile_offline id tr p f).
Proof. unfold reconcile_offline. keeps. Qed.
Lemma keeps_local_fetch id tr w p : keeps I (local_fetch x id tr w p).
Proof. unfold local_fetch. keeps. Qed.
Lemma keeps_with_cleanup id tr m : keeps I m → keeps I (with_cleanup x id tr m).
Proof.
  intros Hm s Hs. unfold with_cleanup. specialize (Hm s Hs). destruct (m s) as [r s'].
  destruct (x_cleanup x) as [e|]; [|done].
  apply (keeps_ignore I (logFailure new_id id tr "" _) (keeps_logFailure HI _ _ _ _) s' Hm).
Qed.
Lemma keeps_failRedeploy l c z d ca r e : keeps I (failRedeploy l c z d ca r e).
Proof. unfold failRedeploy. keeps. Qed.
Lemma keeps_rollback_failed l c e acc : keeps I (rollback_failed l c e acc).
Proof. unfold rollback_failed. keeps. Qed.

(** Steps that render keep a stable invariant that rendering keeps. *)
Context (Hrender : ∀ k repo wd cf ev c fi w fp ov, keeps I (render x k repo wd cf ev c fi w fp ov)).

Lemma keeps_render_unattended repo id wd cf ev c w fp : keeps I (render_unattended x repo id wd cf ev c w fp).
Proof. unfold render_unattended. keeps. Qed.
Lemma keeps_reconcile_render id tr f r : keeps I (reconcile_render x id tr f r).
Proof. pose proof keeps_render_unattended. unfold reconcile_render. keeps. Qed.
Lemma keeps_rollback_render id c : keeps I (rollback_render x id c).
Proof. unfold rollback_render. keeps. Qed.
End early.
#[export] Hint Resolve keeps_reconcile_fetch keeps_reconcile_offline keeps_local_fetch keeps_failRedeploy
  keeps_rollback_failed keeps_render_unattended keeps_reconcile_render keeps_rollback_render : keeps.

(** ** Triples *)

(** From a state with [P], [m] ends with a value and [Q], or leaves the function
    with [E]. *)
Definition triple (P : st → Prop) {A} (m : M A) (Q : A → st → Prop) (E : ret → st → Prop) : Prop :=
  ∀ s, P s → match m s with (inl a, s') => Q a s' | (inr r, s') => E r s' end.

Lemma triple_bind P {A B} (m : M A) (k : A → M B) R Q E :
  triple P m R E → (∀ a, triple (R a) (k a) Q E) → triple P (m ≫= k) Q E.
Proof.
  intros Hm Hk s Hs. specialize (Hm s Hs). unfold mbind, M_bind.
  destruct (m s) as [[a|r] s']; [by apply (Hk a)|done].
Qed.

Lemma triple_keeps I {A} (m : M A) : keeps I m → triple I m (λ _, I) (λ _, I).
Proof. intros Hk s Hs. specialize (Hk s Hs). by destruct (m s) as [[a|r] s']. Qed.

Lemma triple_weaken (P P' : st → Prop) {A} (m : M A) (Q Q' : A → st → Prop) (E E' : ret → st → Prop) :
  triple P' m Q' E' → (∀ s, P s → P' s) → (∀ a s, Q' a s → Q a s) → (∀ r s, E' r s → E r s) → triple P m Q E.
Proof.
  intros Hm HP HQ HE s Hs. specialize (Hm s (HP s Hs)). destruct (m s) as [[a|r] s']; [by apply HQ|by apply HE].
Qed.

(** A step that keeps the invariant goes first. *)
Lemma triple_step I {A B} (m : M A) (k : A → M B) Q (E : ret → st → Prop) :
  keeps I m → (∀ r s, I s → E r s) → (∀ a, triple I (k a) Q E) → triple I (m ≫= k) Q E.
Proof.
  intros Hm HE Hk. apply (triple_bind _ _ _ (λ _, I)); [|done].
  eapply triple_weaken; [by apply triple_keeps|done|done|done].
Qed.

Lemma triple_ret P {A} (a : A) Q E : (∀ s, P s → Q a s) → triple P (mret a) Q E.
Proof. intros Hq s Hs. by apply Hq. Qed.

Lemma triple_final I (F : st → Prop) {A} (m : M A) : keeps I m → (∀ s, I s → F s) → triple I m (λ _, F) (λ _, F).
Proof. intros Hk HF. eapply triple_weaken; [by apply triple_keeps|done|done|intros; by apply HF]. Qed.

Lemma triple_deferring I (F : st → Prop) (d : string) (m : M unit) : keeps F (pt_finishCurrentAsError d) →
  triple I m (λ _, F) (λ _, F) → triple I (deferring d m) (λ _, F) (λ _, F).
Proof.
  intros Hk Hm s Hs. specialize (Hm s Hs). unfold deferring. destruct (m s) as [r s'].
  assert (F s') as Hs' by (by destruct r). specialize (Hk s' Hs'). by destruct r.
Qed.

Lemma triple_leave P {A} r (Q : A → st → Prop) (E : ret → st → Prop) : (∀ s, P s → E r s) → triple P (leave r) Q E.
Proof. intros HE s Hs. by apply HE. Qed.

Lemma triple_pre (P P' : st → Prop) {A} (m : M A) Q E : triple P' m Q E → (∀ s, P s → P' s) → triple P m Q E.
Proof. intros Hm HP s Hs. exact (Hm s (HP s Hs)). Qed.

Lemma triple_pure P (φ : Prop) {A} (m : M A) Q E : (φ → triple P m Q E) → triple (λ s, P s ∧ φ) m Q E.
Proof. intros Hm s [Hs Hφ]. exact (Hm Hφ s Hs). Qed.

(** An operation that does not load the record changes nothing but the faults left to
    come; otherwise it goes on from the record of the database. *)
Lemma load_stack_cases s : ∃ a, let s1 := set_faults a (clocks s) s in
  load_stack s = (inl tt, set_stack (db s1) (db s1) s1) ∨ ∃ r, load_stack s = (inr r, s1).
Proof.
  unfold load_stack, mbind, M_bind, answer. destruct (answers s) as [|[] a] eqn:Ha; simpl.
  - exists []. left. by destruct s; simplify_eq/=.
  - exists a. by left.
  - exists a. right. by eexists.
Qed.

Lemma run_loads `{Platform} x stackID op : run x false stackID op = (load_stack;; loaded x stackID op).
Proof. by destruct op. Qed.

Lemma run_loaded `{Platform} x busy stackID op s : ∃ a, let s1 := set_faults a (clocks s) s in
  (∃ r, run x busy stackID op s = (r, s1)) ∨ run x busy stackID op s = loaded x stackID op (set_stack (db s1) (db s1) s1).
Proof.
  destruct busy; [exists (answers s); left; destruct op; eexists; by destruct s|].
  destruct (load_stack_cases s) as (a & Hl). exists a. simpl in *.
  rewrite run_loads. unfold mbind, M_bind. destruct Hl as [->|(r & ->)]; [by right|left; by eexists].
Qed.

(** ** The shape of every operation

    An invariant [I] that preparing keeps, and [F] that holds of every way out once the
    dispatching parts establish it. *)
Section shape.
Context `{Platform} (x : externals) (stackID : string) (I F : st → Prop) (HI : stable I) (HF : stable F)
  (HIF : ∀ s, I s → F s) (Hrender : ∀ k repo wd cf ev c fi w fp ov, keeps I (render x k repo wd cf ev c fi w fp ov)).

Definition reaches (m : M unit) : Prop := triple I m (λ _, F) (λ _, F).

Context (Hdispatch : ∀ o tr last, o_stack o = stackID → reaches (reconcile_dispatch x o tr last))
  (Hlocal : ∀ o tr sum z, o_stack o = stackID → reaches (local_dispatch x o tr sum z))
  (Hrollback : ∀ o repo z, o_stack o = stackID → reaches (rollback_dispatch x o repo z))
  (Hredeploy : ∀ o p z ws, o_stack o = stackID → reaches (redeploy_dispatch x o p z ws)).

Lemma reaches_keeps (m : M unit) : keeps I m → reaches m.
Proof. intros Hk. by apply triple_final. Qed.

Lemma reaches_step {A} (m : M A) (k : A → M unit) : keeps I m → (∀ a, reaches (k a)) → reaches (m ≫= k).
Proof. intros Hm Hk. apply triple_step; [done|intros _; apply HIF|done]. Qed.

Lemma reaches_deferring d (m : M unit) : reaches m → reaches (deferring d m).
Proof. apply triple_deferring. by apply keeps_pt_abort. Qed.

Lemma reaches_cleanup tr (m : M unit) : reaches m → reaches (with_cleanup x stackID tr m).
Proof.
  intros Hm s Hs. specialize (Hm s Hs). unfold with_cleanup.
  destruct (m s) as [r s']. destruct (x_cleanup x) as [e|]; [|by destruct r].
  assert (F s') as Hs' by (by destruct r).
  match goal with |- context [ignore ?l s'] => assert (keeps F (ignore l)) as Hk by keeps end.
  specialize (Hk s' Hs'). destruct r as [|[[]|]]; exact Hk.
Qed.

Ltac reach_step := lazymatch goal with
  | |- reaches (mbind _ _) => apply reaches_step; [solve [keeps]|intros ?]
  | |- reaches (match ?a with _ => _ end) => destruct a
  | |- reaches (deferring _ _) => apply reaches_deferring
  | |- reaches (with_cleanup _ _ _ _) => apply reaches_cleanup
  | |- reaches _ => first [by apply Hdispatch | by apply Hlocal | by apply Hrollback | by apply Hredeploy]
  end.
Ltac reach := cbv zeta; repeat first [solve [apply reaches_keeps; keeps] | progress cbv zeta | reach_step].

Lemma reaches_git tr q : reaches (reconcile_git x stackID tr q).
Proof. unfold reconcile_git, reconcile_online, reconcile_deploy. reach. Qed.

Lemma reaches_local tr : reaches (reconcileLocalStack x stackID tr).
Proof. unfold reconcileLocalStack, local_sync, local_deploy. reach. Qed.

Lemma reaches_loaded op : reaches (loaded x stackID op).
Proof.
  pose proof reaches_git. pose proof reaches_local. destruct op; simpl.
  - unfold reconcile_loaded. apply reaches_step; [keeps|]. intros stack. by repeat case_match; [apply reaches_keeps; keeps..| |].
  - unfold rollback_loaded. reach.
  - unfold redeploy_loaded, redeploy_run. reach.
Qed.
End shape.
