(* ===== verification/ReconcileSpec.v ===== *)
(** * What the reconciler records about a deployed revision

    The fields [deployed_commit], [deployed_version] and [deployed_checksum] move only
    with a dispatched command: the worker confirmed it, or it ran out of time and every
    container was then seen on the new commit. *)
From Stdlib Require Import ZArith.
From S2P Require Import Prelude GoStrings GoPath GoFmt GoValue GoBase64 SafePath Policy ComposeDoc PbRecord PbTable.
From S2P Require Import Overrides ConfigFiles ConfigInject EnvFile ProjectIdentity LintCore LintRules PhaseTracker LintPhase.
From S2P Require Import Health PostCheck ReconcileCore Reconcile ReconcileOps ReconcileLogic.
From S2P Require Renderer WaitJobs.

(** The worker reported success. *)
Definition confirmed (r : CommandResult + dispatch_failure) : Prop :=
  match r with inl res => Error res = "" | inr _ => False end.

(** The worker's budget or the server's deadline ran out. *)
Definition timed_out (r : CommandResult + dispatch_failure) : Prop :=
  match r with inl res => TimedOut res = true | inr f => deadline f = true end.

Lemma answered_confirmed r : a_err (answered r) = None → confirmed r.
Proof. destruct r as [res|f]; [|done]. simpl. by case_decide. Qed.

Lemma answered_timeout r : a_reason (answered r) = reasonTimeout → timed_out r.
Proof.
  destruct r as [res|f]; unfold answered, deployFailureReason; simpl.
  - destruct (TimedOut res); [done|]. by repeat case_decide.
  - by destruct (deadline f).
Qed.

(** The fields about the revision that was last deployed. *)
Definition deployed (r : record) : option value * option value * option value :=
  (fields r !! "deployed_commit", fields r !! "deployed_version", fields r !! "deployed_checksum").

Lemma deployed_set k v r : k ≠ "deployed_commit" → k ≠ "deployed_version" → k ≠ "deployed_checksum" →
  deployed (SetField k v r) = deployed r.
Proof. intros ???. unfold deployed. by rewrite !fields_SetField_ne. Qed.

Lemma deployed_books r r' : books_only r r' → deployed r' = deployed r.
Proof.
  intros Hb. unfold deployed.
  by rewrite !Hb; [|apply (bool_decide_unpack _)..].
Qed.

Section revision.
Context `{Platform} (x : externals) (stackID : string).

(** The last command sent carries the revision [(commit, v)] of the stack, with the file
    stored for it, and the worker's answer is evidence that it runs. *)
Definition sent_revision (commit : string) (v : Z) (s : st) : Prop :=
  ∃ pre cmd r content, sent s = pre ++ [(cmd, r)]
    ∧ StackID (base_of cmd) = stackID ∧ CommitSHA (base_of cmd) = commit
    ∧ Renderer.files (disk s) !! GetRevisionFilePath stackStorage stackID v = Some content
    ∧ ComposeFileB64 (base_of cmd) = EncodeToString content
    ∧ (confirmed r ∨ timed_out r ∧ ∃ previous,
         Converged (convergeAfterTimeout since yaml_parse unmarshal (x_replies x) (x_interrupted x) decode_inspect
                      (x_timeout_inspect x) true content commit previous) = true).

Definition records_revision (commit : string) (v : Z) (r : record) : Prop :=
  fields r !! "deployed_commit" = Some (VStr commit) ∧ fields r !! "deployed_version" = Some (VNum (Itoa v)).

(** ** The invariants of a run *)
Abbreviation fact := (option value * option value * option value)%type.

Definition shown (s : st) (d : fact) : Prop :=
  ∃ commit v sum, d = (Some (VStr commit), Some (VNum (Itoa v)), Some (VStr sum)) ∧ sent_revision commit v s.

(** After it: both copies of the record still say [d], or something shown. *)
Definition justified (d : fact) (s : st) : Prop :=
  (deployed (db s) = d ∨ shown s (deployed (db s))) ∧ (deployed (mem s) = d ∨ shown s (deployed (mem s))).

Definition justified_by (d e : fact) (s : st) : Prop := justified d s ∧ shown s e.

Lemma shown_ext s s' e : sent s' = sent s → disk s' = disk s → shown s e → shown s' e.
Proof. intros Hs Hd (c & v & sum & He & Hr). exists c, v, sum. split; [done|]. unfold sent_revision. by rewrite Hs Hd. Qed.

Lemma justified_ext d s s' : sent s' = sent s → disk s' = disk s →
  (deployed (db s') = deployed (db s) ∨ deployed (db s') = deployed (mem s)) →
  (deployed (mem s') = deployed (mem s) ∨ deployed (mem s') = deployed (db s)) → justified d s → justified d s'.
Proof.
  intros Hs Hd Hdb Hmem [H1 H2].
  assert (∀ e, e = d ∨ shown s e → e = d ∨ shown s' e) as Hmono
    by (intros e [?|?]; [by left|right; by apply (shown_ext s)]).
  split; [destruct Hdb as [->| ->]|destruct Hmem as [->| ->]]; by apply Hmono.
Qed.

Lemma justified_stable d : stable (justified d).
Proof. split; intros; (eapply justified_ext; [..|eassumption]; simpl; eauto using deployed_books). Qed.

Lemma justified_by_stable d e : stable (justified_by d e).
Proof.
  split; intros; (destruct select (justified_by _ _ _) as [Hj Hs];
    split; [eapply justified_ext; [..|exact Hj]; simpl; eauto using deployed_books|by eapply shown_ext; [..|exact Hs]]).
Qed.

(** ** Dispatching *)
Definition held (d : fact) (w : Renderer.world) (s : st) : Prop :=
  deployed (db s) = d ∧ deployed (mem s) = d ∧ disk s = w.

(** A success or a timeout came from the last command sent, which has the order's
    content. *)
Definition evidence (o : order) (content : string) (r : attempt_result) (s : st) : Prop :=
  a_err r = None ∨ a_reason r = reasonTimeout →
  ∃ pre cmd rr, sent s = pre ++ [(cmd, rr)] ∧ r = answered rr ∧ StackID (base_of cmd) = o_stack o
    ∧ CommitSHA (base_of cmd) = o_commit o ∧ ComposeFileB64 (base_of cmd) = EncodeToString content.

Definition attempted (o : order) (path : string) (d : fact) (w : Renderer.world) (acc : deployed_attempt) (s : st) : Prop :=
  held d w s ∧ evidence o (t_content acc) (t_result acc) s ∧ Renderer.files w !! path = Some (t_content acc).

Lemma held_stable d w : stable (held d w).
Proof. split; unfold held; simpl; intros; destruct_and?; split_and?; try done; try congruence; by rewrite (deployed_books (mem s)). Qed.

Lemma attempted_stable o path d w acc : stable (attempted o path d w acc).
Proof. split; unfold attempted, held, evidence; simpl; intros; destruct_and?; split_and?; try done; try congruence; by rewrite (deployed_books (mem s)). Qed.

Lemma held_justified d w s : held d w s → justified d s.
Proof. intros (H1 & H2 & _). split; by left. Qed.

Lemma command_base worker (base : DeployCommand) render c v n cmd :
  deployCommandForRender (x_worker x) worker base render c v n = inl cmd → base_of cmd = base.
Proof.
  unfold deployCommandForRender. destruct (_ && _ && _ && _); [by intros [= <-]|].
  destruct (negb _); [by intros [= <-]|]. destruct (x_worker x worker); [|done].
  destruct (negb _); [done|]. by intros [= <-].
Qed.

Lemma base_command_fields o stack content env auth : StackID (base_command o stack content env auth) = o_stack o
  ∧ CommitSHA (base_command o stack content env auth) = o_commit o
  ∧ ComposeFileB64 (base_command o stack content env auth) = EncodeToString content
  ∧ CommandID (base_command o stack content env auth) = o_log o.
Proof. unfold base_command. by destruct (resolveComposeRuntimeFlags stack). Qed.

(** What a dispatch does: nothing sent and a failure that is no timeout, or one command
    of the order sent. *)
Lemma dispatch_once_cases n o content prev s :
  let '(res, s') := dispatch_once x n o content prev s in
  ∃ r, res = inl r ∧ ((s' = s ∧ a_err r ≠ None ∧ a_reason r ≠ reasonTimeout)
    ∨ ∃ cmd rr env auth, s' = add_sent cmd rr s ∧ r = answered rr
        ∧ base_of cmd = base_command o (mem s) content env auth).
Proof.
  unfold dispatch_once, mbind, M_bind, gets. simpl.
  destruct (x_registry x n content (o_env o)) as [auth|e]; [|eexists; split; [done|]; by left].
  destruct (buildEnvFileB64 (o_env o)) as [env|e]; [|eexists; split; [done|]; by left].
  destruct (deployCommandForRender _ _ _ _ _ _ _) as [cmd|e] eqn:Hc; [|eexists; split; [done|]; by left].
  apply command_base in Hc. eexists; split; [done|]. right. by exists cmd, (x_dispatch x n cmd), env, auth.
Qed.

Lemma dispatch_once_spec n o content prev d w :
  triple (held d w) (dispatch_once x n o content prev) (λ r s, held d w s ∧ evidence o content r s) (λ _, justified d).
Proof.
  intros s Hs. pose proof (dispatch_once_cases n o content prev s) as Hd.
  destruct (dispatch_once x n o content prev s) as [res s'].
  destruct Hd as (r & -> & [(-> & He & Hr)|(cmd & rr & env & auth & -> & -> & Hb)]).
  - split; [done|]. intros [?|?]; [done|done].
  - split; [exact Hs|]. intros _. exists (sent s), cmd, rr.
    pose proof (base_command_fields o (mem s) content env auth) as (H1 & H2 & H3 & _).
    by rewrite Hb H1 H2 H3.
Qed.

Lemma read_either a tr sha path d w : triple (held d w) (readRenderedCompose new_id rfc3339 a tr sha path)
  (λ res s, held d w s ∧ match res with inl content => Renderer.files w !! path = Some content | inr _ => True end)
  (λ _, justified d).
Proof.
  intros s Hs. pose proof (keeps_readRenderedCompose (held_stable d w) a tr sha path s Hs) as Hk.
  revert Hk. unfold readRenderedCompose, mbind, M_bind, gets. simpl. destruct Hs as (H1 & H2 & H3). rewrite H3.
  destruct (Renderer.files w !! path) as [c|]; simpl; [intros Hk; by split|].
  destruct (ignore _ s) as [[[]|r] s']; [|intros Hk; by apply (held_justified d w)].
  destruct (ignore _ s') as [[[]|r] s'']; intros Hk; [done|by apply (held_justified d w)].
Qed.

Lemma read_spec a tr sha path d w : triple (held d w) (get (readRenderedCompose new_id rfc3339 a tr sha path))
  (λ content s, held d w s ∧ Renderer.files w !! path = Some content) (λ _, justified d).
Proof.
  eapply triple_bind; [apply read_either|]. intros [c|e]; [by apply triple_ret|].
  apply triple_leave. intros s [Hs _]. by eapply held_justified.
Qed.

Lemma deploy_attempts_spec o path tr d w : ∀ n k acc,
  triple (λ s, held d w s ∧ (n = 0 → attempted o path d w acc s)) (deploy_attempts x o path tr n k acc)
    (attempted o path d w) (λ _, justified d).
Proof.
  pose proof (held_stable d w) as Hst. pose proof (held_justified d w) as Hj.
  induction n as [|n IH]; intros k acc; [intros s [_ Hs]; by apply Hs|]. simpl.
  apply (triple_pre _ (held d w)); [|by intros s [? _]].
  apply triple_step; [eauto with keeps|done|]. intros start.
  eapply triple_bind; [apply read_spec|]. intros content.
  apply (triple_bind _ _ _ (λ r s, (held d w s ∧ evidence o content r s) ∧ Renderer.files w !! path = Some content)).
  { intros s [Hs Hf]. pose proof (dispatch_once_spec k o content (t_result acc) d w s Hs) as Hd.
    by destruct (dispatch_once _ _ _ _ _ _) as [[r|?] s']. }
  intros r.
  set (acc' ms := {| t_result := r; t_content := content; t_start := start; t_duration := (t_duration acc + ms)%Z |}).
  apply (triple_bind _ _ _ (λ ms, attempted o path d w (acc' ms))).
  { intros s [[Hs He] Hf]. change (match since_ms start s with (inl ms, s') => attempted o path d w (acc' ms) s'
      | (inr r, s') => justified d s' end).
    pose proof (attempted_stable o path d w (acc' 0%Z)) as Hat.
    assert (attempted o path d w (acc' 0%Z) s) as Ha by done.
    pose proof (keeps_since_ms Hat start s Ha) as Hk.
    destruct (since_ms start s) as [[ms|r'] s'] eqn:Hq; [exact Hk|]. by eapply held_justified, (proj1 Hk). }
  intros ms. pose proof (attempted_stable o path d w (acc' ms)) as Hat.
  assert (∀ s, attempted o path d w (acc' ms) s → justified d s) as Hja by (intros s [? _]; by eapply held_justified).
  simpl. destruct (a_err r) as [err|]; [|by apply triple_ret].
  destruct (a_registry r); [by apply triple_ret|].
  assert (triple (attempted o path d w (acc' ms)) (deploy_attempts x o path tr n (S k) (acc' ms)) (attempted o path d w)
            (λ _, justified d)) as Hrec.
  { eapply triple_pre; [apply IH|]. intros s Hs. split; [apply Hs|done]. }
  destruct (shouldRetryDeploy k maxRetries); [|done].
  apply triple_step; [eauto with keeps|by intros _|]. intros [e|].
  - apply triple_step; [keeps|by intros _|]. intros _. by apply triple_leave.
  - destruct (x_cancelled x k) as [e|]; [by apply triple_leave|exact Hrec].
Qed.

(** ** The ways out *)
Definition recorded (commit : string) (v : Z) (sum : string) : fact :=
  (Some (VStr commit), Some (VNum (Itoa v)), Some (VStr sum)).

Lemma keeps_adopt d e f : (∀ r, deployed (f r) = e) → keeps (justified_by d e) (on_stack f).
Proof.
  intros Hf s [[Hdb _] Hs]. simpl. split; [|by apply (shown_ext s)]. split.
  - destruct Hdb as [Hdb|Hdb]; [by left|right; by apply (shown_ext s)].
  - right. simpl. rewrite Hf. by apply (shown_ext s).
Qed.

Lemma deployed_persist r rr : deployed (persistProjectIdentity r (Some rr)) = deployed r.
Proof. unfold persistProjectIdentity, SetStr. case_decide; [by rewrite deployed_set|done]. Qed.

Lemma deployed_deployed_fields st c sum sy a rr r :
  deployed (deployed_fields st c sum sy a rr r) = recorded c (Version rr) sum.
Proof.
  unfold deployed_fields, clearLastError, SetStr, SetInt. rewrite !deployed_set; try done. rewrite deployed_persist.
  unfold SetStr. rewrite deployed_set; try done. unfold deployed.
  by repeat first [rewrite fields_SetField_eq | rewrite fields_SetField_ne; [|done]].
Qed.

Lemma deployed_convergence stack rr c t : deployed (applyTimeoutConvergence stack rr c t) = recorded c (Version rr) (Checksum rr).
Proof.
  unfold applyTimeoutConvergence. rewrite deployed_persist. unfold SetStr, SetInt. rewrite deployed_set; try done.
  unfold deployed.
  by repeat first [rewrite fields_SetField_eq | rewrite fields_SetField_ne; [|done]].
Qed.

Lemma keeps_record_success d op lost status commit sum log out att rr res dur :
  keeps (justified_by d (recorded commit (Version rr) sum))
    (record_success op lost status commit sum log out att rr res dur).
Proof.
  pose proof (justified_by_stable d (recorded commit (Version rr) sum)) as Hst.
  unfold record_success. do 2 (apply keeps_bind; [keeps|intros ?]).
  apply keeps_bind; [|intros _; keeps]. apply keeps_adopt. intros r. apply deployed_deployed_fields.
Qed.

(** A deploy that was attempted justifies what it records. *)
Lemma attempted_shown o path d w acc s v sum : attempted o path d w acc s → o_stack o = stackID →
  path = GetRevisionFilePath stackStorage stackID v →
  a_err (t_result acc) = None ∨ (a_reason (t_result acc) = reasonTimeout ∧ ∃ previous,
    Converged (convergeAfterTimeout since yaml_parse unmarshal (x_replies x) (x_interrupted x) decode_inspect
                 (x_timeout_inspect x) true (t_content acc) (o_commit o) previous) = true) →
  justified_by d (recorded (o_commit o) v sum) s.
Proof.
  intros (Hh & He & Hf) Hst -> Hev. split; [by eapply held_justified|].
  destruct He as (pre & cmd & rr & Hs & Ha & H1 & H2 & H3); [destruct Hev as [?|[? _]]; auto|].
  exists (o_commit o), v, sum. split; [done|]. exists pre, cmd, rr, (t_content acc).
  destruct Hh as (_ & _ & Hw). rewrite Hw -Hst. split_and!; try done; [by rewrite Hst|].
  destruct Hev as [Hev|[Hev Hc]]; [left|right]; rewrite Ha in Hev;
    [by apply answered_confirmed|split; [by apply answered_timeout|done]].
Qed.

Lemma deploy_failed_spec o tr last e path d w acc : o_stack o = stackID →
  path = GetRevisionFilePath stackStorage stackID (Version (o_render o)) →
  triple (attempted o path d w acc) (deploy_failed x o tr last e acc) (λ _, justified d) (λ _, justified d).
Proof.
  intros Hst Hp. pose proof (attempted_stable o path d w acc) as Hat. pose proof (justified_stable d) as Hjs.
  assert (∀ s, attempted o path d w acc s → justified d s) as Hja by (intros s [? _]; by eapply held_justified).
  unfold deploy_failed. apply triple_step; [keeps|by intros _|]. intros _. cbv zeta.
  apply (triple_bind _ _ _ (λ _, justified d)).
  - case_decide as Hr; [|apply triple_ret; exact Hja].
    destruct (Converged _) eqn:Hc; [|apply triple_ret; exact Hja].
    apply (triple_pre _ (justified_by d (recorded (o_commit o) (Version (o_render o)) (Checksum (o_render o))))).
    + pose proof (justified_by_stable d (recorded (o_commit o) (Version (o_render o)) (Checksum (o_render o)))) as Hst'.
      apply triple_step; [keeps|by intros _ s [? _]|]. intros t.
      apply triple_step; [|by intros _ s [? _]|].
      { apply keeps_adopt. intros r. apply deployed_convergence. }
      intros _. apply triple_ret. by intros s [? _].
    + intros s Hs. eapply attempted_shown; [done..|]. right. split; [done|]. by exists last.
  - intros [status out]. apply triple_final; [keeps|done].
Qed.

Lemma deploy_succeeded_spec o tr path d w acc : o_stack o = stackID →
  path = GetRevisionFilePath stackStorage stackID (Version (o_render o)) → a_err (t_result acc) = None →
  triple (attempted o path d w acc) (deploy_succeeded x o tr acc) (λ _, justified d) (λ _, justified d).
Proof.
  intros Hst Hp He. set (e := recorded (o_commit o) (Version (o_render o)) (Checksum (o_render o))).
  pose proof (justified_by_stable d e) as Hst'. apply (triple_pre _ (justified_by d e)).
  - apply triple_final; [|by intros s [? _]]. unfold deploy_succeeded.
    do 4 (apply keeps_bind; [keeps|intros ?]). apply keeps_bind; [apply keeps_record_success|]. intros _. keeps.
  - intros s Hs. eapply attempted_shown; [done..|]. by left.
Qed.

(** ** Whole operations *)
Definition early (d : fact) (s : st) : Prop := deployed (db s) = d ∧ deployed (mem s) = d.

Lemma early_stable d : stable (early d).
Proof. split; unfold early; simpl; intros; destruct_and?; split_and?; try done; try congruence; by rewrite (deployed_books (mem s)). Qed.

Lemma early_justified d s : early d s → justified d s.
Proof. intros [H1 H2]. split; by left. Qed.

Lemma triple_held d {A} (m : M A) Q E : (∀ w, triple (held d w) m Q E) → triple (early d) m Q E.
Proof. intros Hm s [H1 H2]. by apply (Hm (disk s)). Qed.

Lemma GenerateRevision_deployed rq e w :
  deployed (Renderer.GenerateRevision yaml_parse yaml_marshal sha256 hmac resolve workspace stackStorage rq e w).1.2
  = deployed (Renderer.rq_stack rq).
Proof.
  unfold Renderer.GenerateRevision. destruct (Renderer.prepare _ _ _ _ _ _) as [[[[m i] tr] ws]|]; [|done].
  destruct (Renderer.checksum_of _ _ _ _ _) as [sum|]; [|done]. cbv zeta.
  destruct (negb _ && _); [done|]. unfold Renderer.store_revision.
  destruct (yaml_marshal _); [|done]. destruct (negb _); [done|]. destruct (Renderer.WriteFile _ _ _ _) as [[] w1]; [|done].
  destruct (negb _); [done|].
  unfold SetStr, SetInt. destruct (negb _); simpl; by rewrite !deployed_set.
Qed.

Lemma keeps_render d k repo wd cf ev c fi w fp ov : keeps (early d) (render x k repo wd cf ev c fi w fp ov).
Proof.
  pose proof (early_stable d) as Hst. apply keeps_bind; [keeps|]. intros t s [H1 H2]. unfold stateful.
  match goal with |- context [Renderer.GenerateRevision _ _ _ _ _ _ _ ?rq ?e ?w] =>
    pose proof (GenerateRevision_deployed rq e w) as Hg; destruct (Renderer.GenerateRevision _ _ _ _ _ _ _ rq e w) as [[res stack] w'] end.
  simpl in *. unfold early. simpl. rewrite Hg. split; [|done]. by destruct (_ && _); [rewrite Hg|].
Qed.

(** The dispatching part of a run that started with [d]. *)
Abbreviation justifies d m := (reaches (early d) (justified d) m).

Lemma reconcile_dispatch_justified d tr lastSHA o : o_stack o = stackID → justifies d (reconcile_dispatch x o tr lastSHA).
Proof.
  intros Ho. apply triple_held. intros w. unfold reconcile_dispatch. rewrite Ho. eapply triple_bind; [eapply triple_pre; [apply deploy_attempts_spec|]|].
  { intros s Hs. split; [exact Hs|done]. }
  intros acc. destruct (a_err (t_result acc)) as [e|] eqn:He.
  - by eapply (deploy_failed_spec _ _ _ _ _ _ _ _ Ho).
  - by eapply (deploy_succeeded_spec _ _ _ _ _ _ Ho).
Qed.

(** One dispatch. *)
Lemma deploy_once_spec o content start path d w : Renderer.files w !! path = Some content →
  triple (held d w) (deploy_once x o content start) (λ acc s, attempted o path d w acc s ∧ t_content acc = content)
    (λ _, justified d).
Proof.
  intros Hf. unfold deploy_once. eapply triple_bind; [apply dispatch_once_spec|]. intros r s [Hs He].
  set (acc ms := {| t_result := r; t_content := content; t_start := start; t_duration := ms |}).
  pose proof (keeps_since_ms (attempted_stable o path d w (acc 0%Z)) start s (conj Hs (conj He Hf))) as Hk.
  unfold mbind, M_bind. destruct (since_ms start s) as [[ms|?] s']; [by split|]. by eapply held_justified, (proj1 Hk).
Qed.

(** The continuation after a single dispatch: both ways out. *)
Lemma once_spec d o start content w sum (fails : string → deployed_attempt → M unit) (ok : deployed_attempt → M unit) : o_stack o = stackID →
  Renderer.files w !! GetRevisionFilePath stackStorage stackID (Version (o_render o)) = Some content →
  (∀ e acc, keeps (justified d) (fails e acc)) →
  (∀ acc, keeps (justified_by d (recorded (o_commit o) (Version (o_render o)) sum)) (ok acc)) →
  triple (held d w) (acc ← deploy_once x o content start;
                     match a_err (t_result acc) with Some runErr => fails runErr acc | None => ok acc end)
    (λ _, justified d) (λ _, justified d).
Proof.
  intros Ho Hfile Hf Hok. eapply triple_bind; [by eapply deploy_once_spec|]. intros acc. simpl.
  destruct (a_err (t_result acc)) as [e|] eqn:He.
  - apply (triple_pre _ (justified d)); [by apply triple_final|]. intros s [[? _] _]. by eapply held_justified.
  - apply (triple_pre _ (justified_by d (recorded (o_commit o) (Version (o_render o)) sum))).
    + apply triple_final; [done|]. by intros s [? _].
    + intros s [Ha Hc]. eapply attempted_shown; [done..|]. by left.
Qed.

Lemma local_dispatch_justified d o tr sum z : o_stack o = stackID → justifies d (local_dispatch x o tr sum z).
Proof.
  intros Ho. apply triple_held. intros w. unfold local_dispatch. rewrite Ho. eapply triple_bind; [apply read_spec|]. intros content.
  apply triple_pure. intros Hf. eapply (once_spec d _ _ content w sum); [done|done| |].
  - pose proof (justified_stable d). intros e acc. keeps.
  - pose proof (justified_by_stable d (recorded (o_commit o) (Version (o_render o)) sum)) as Hst.
    pose proof keeps_record_success as Hs. intros acc. simpl. keeps.
Qed.

Lemma rollback_dispatch_justified d o repo z : o_stack o = stackID → justifies d (rollback_dispatch x o repo z).
Proof.
  intros Ho. apply triple_held. intros w. unfold rollback_dispatch. rewrite Ho. eapply triple_bind; [apply read_spec|]. intros content.
  apply triple_pure. intros Hf. eapply (once_spec d _ _ content w (Checksum (o_render o))); [done|done| |].
  - pose proof (justified_stable d). intros e acc. keeps.
  - pose proof (justified_by_stable d (recorded (o_commit o) (Version (o_render o)) (Checksum (o_render o)))) as Hst.
    pose proof keeps_record_success as Hs. intros acc. unfold rollback_succeeded. keeps.
Qed.

Lemma redeploy_dispatch_justified d o p z ws : o_stack o = stackID → justifies d (redeploy_dispatch x o p z ws).
Proof.
  intros Ho. apply triple_held. intros w. pose proof (held_stable d w) as Hsw. unfold redeploy_dispatch. rewrite Ho.
  eapply triple_bind; [apply read_either|]. intros [content|e]; apply triple_pure; intros Hf;
    [|apply triple_final; [keeps|apply held_justified]].
  do 3 (apply triple_step; [keeps|intros _; apply held_justified|]; intros ?).
  eapply (once_spec d _ _ content w (Checksum (o_render o))); [done|done| |].
  - pose proof (justified_stable d). intros e acc. keeps.
  - pose proof (justified_by_stable d (recorded (o_commit o) (Version (o_render o)) (Checksum (o_render o)))) as Hst.
    pose proof keeps_record_success as Hs. intros acc. simpl. keeps.
Qed.

Lemma loaded_justified d op : justifies d (loaded x stackID op).
Proof.
  apply reaches_loaded; [apply early_stable|apply justified_stable|apply early_justified|apply keeps_render
    |intros; by apply reconcile_dispatch_justified|intros; by apply local_dispatch_justified
    |intros; by apply rollback_dispatch_justified|intros; by apply redeploy_dispatch_justified].
Qed.
End revision.

(** C2: Whatever fails on the way, an operation moves the recorded revision of a
    stack only to one it sent to the worker: the command carried that commit and the
    stored file of that version, and either the worker reported success or the deploy
    ran out of time and every container was then seen running the new commit. *)
Theorem deployed_revision_is_proven `{Platform} (x : externals) (busy : bool) (stackID : string) (op : operation) (s : st) :
  let s' := (run x busy stackID op s).2 in
  deployed (db s') = deployed (db s)
  ∨ ∃ commit v, records_revision commit v (db s') ∧ sent_revision x stackID commit v s'.
Proof.
  intros s'. destruct (run_loaded x busy stackID op s) as (a & Hr). simpl in Hr. unfold s'. clear s'.
  destruct Hr as [(r & ->)| ->]; [by left|]. set (s1 := set_stack _ _ _).
  assert (triple (early (deployed (db s))) (loaded x stackID op) (λ _, justified x stackID (deployed (db s)))
            (λ _, justified x stackID (deployed (db s)))) as Hj by apply loaded_justified.
  specialize (Hj s1 (conj eq_refl eq_refl)). destruct (loaded x stackID op s1) as [res s']. simpl.
  assert (justified x stackID (deployed (db s)) s') as [[Hd|(c & v & sum & Hd & Hr)] _] by (by destruct res); [by left|].
  right. exists c, v. split; [|done]. unfold deployed in Hd. by simplify_eq.
Qed.

(** ** How often a run dispatches *)
Section attempts.
Context `{Platform} (x : externals) (stackID : string) (l : list (command * (CommandResult + dispatch_failure))).

Definition attempt_of (log : string) (p : command * (CommandResult + dispatch_failure)) : Prop :=
  CommandID (base_of p.1) = log ∧ StackID (base_of p.1) = stackID.

Definition unsent (s : st) : Prop := sent s = l.

(** Up to [k] attempts of one log, every one of them refused. *)
Definition retried (log : string) (k : nat) (s : st) : Prop :=
  ∃ new, sent s = l ++ new ∧ length new ≤ k ∧ Forall (attempt_of log) new ∧ Forall (λ p, ¬ confirmed p.2) new.

Definition dispatched (s : st) : Prop :=
  ∃ log new, sent s = l ++ new ∧ length new ≤ maxRetries ∧ Forall (attempt_of log) new
    ∧ ∀ i p, new !! i = Some p → S i < length new → ¬ confirmed p.2.

Lemma unsent_stable : stable unsent.
Proof. by split. Qed.
Lemma retried_stable log k : stable (retried log k).
Proof. by split. Qed.
Lemma dispatched_stable : stable dispatched.
Proof. by split. Qed.

Lemma retried_dispatched log k s : k ≤ maxRetries → retried log k s → dispatched s.
Proof.
  intros Hk (new & H1 & H2 & H3 & H4). exists log, new. split_and!; [done|lia|done|].
  intros i p Hp _. by eapply (Forall_lookup_1 _ _ _ _ H4).
Qed.

Lemma unsent_retried log s : unsent s → retried log 0 s.
Proof. intros Hs. exists []. rewrite app_nil_r. split_and!; [done|simpl; lia|constructor|constructor]. Qed.

Lemma confirmed_answered r : confirmed r → a_err (answered r) = None.
Proof. destruct r as [res|f]; [|done]. simpl. intros Hr. by case_decide. Qed.

Lemma dispatch_once_attempt n o content prev k : o_stack o = stackID → k < maxRetries →
  triple (retried (o_log o) k) (dispatch_once x n o content prev)
    (λ r s, match a_err r with Some _ => retried (o_log o) (S k) s | None => dispatched s end) (λ _, dispatched).
Proof.
  intros Ho Hk s (new & H1 & H2 & H3 & H4). pose proof (dispatch_once_cases x n o content prev s) as Hd.
  destruct (dispatch_once x n o content prev s) as [res s'].
  destruct Hd as (r & -> & [(-> & He & _)|(cmd & rr & env & auth & -> & -> & Hb)]).
  - destruct (a_err r); [|done]. exists new. split_and!; [done|lia|done..].
  - pose proof (base_command_fields o (mem s) content env auth) as (B1 & _ & _ & B4).
    assert (attempt_of (o_log o) (cmd, rr)) as Ha by (unfold attempt_of; simpl; by rewrite Hb B1 B4).
    destruct (a_err (answered rr)) eqn:He.
    + exists (new ++ [(cmd, rr)]). simpl. rewrite H1 -app_assoc length_app. simpl.
      split_and!; [done|lia|by apply Forall_app_2; [|apply Forall_singleton]|].
      apply Forall_app_2; [done|]. apply Forall_singleton. simpl. intros Hc%confirmed_answered. congruence.
    + exists (o_log o), (new ++ [(cmd, rr)]). simpl. rewrite H1 -app_assoc length_app. simpl.
      split_and!; [done|lia|by apply Forall_app_2; [|apply Forall_singleton]|].
      intros i p Hp Hi. rewrite lookup_app_l in Hp; [|lia]. by eapply (Forall_lookup_1 _ _ _ _ H4).
Qed.

Lemma deploy_attempts_bounded o path tr : o_stack o = stackID → ∀ n k acc, k + n = maxRetries →
  triple (retried (o_log o) k) (deploy_attempts x o path tr n (S k) acc) (λ _, dispatched) (λ _, dispatched).
Proof.
  intros Ho. pose proof dispatched_stable as Hds.
  induction n as [|n IH]; intros k acc Hk; [apply triple_ret; intros s; apply retried_dispatched; lia|]. simpl.
  pose proof (retried_stable (o_log o) k) as Hst. pose proof (retried_stable (o_log o) (S k)) as Hst'.
  assert (∀ s, retried (o_log o) k s → dispatched s) as Hd by (intros s; apply retried_dispatched; lia).
  assert (∀ s, retried (o_log o) (S k) s → dispatched s) as Hd' by (intros s; apply retried_dispatched; lia).
  do 2 (apply triple_step; [keeps|by intros _|]; intros ?).
  eapply triple_bind; [apply dispatch_once_attempt; [done|lia]|]. intros r. simpl.
  destruct (a_err r) as [e|] eqn:He; simpl; [|apply triple_final; [keeps|done]].
  apply triple_step; [keeps|by intros _|]. intros ms.
  destruct (a_registry r); [by apply triple_ret|]. destruct (shouldRetryDeploy _ _); [|apply IH; lia].
  apply triple_step; [keeps|by intros _|]. intros [err|]; [apply triple_final; [keeps|done]|].
  destruct (x_cancelled x (S k)); [by apply triple_leave|apply IH; lia].
Qed.

Lemma keeps_render_unsent k repo wd cf ev c fi w fp ov : keeps unsent (render x k repo wd cf ev c fi w fp ov).
Proof.
  pose proof unsent_stable as Hst. apply keeps_bind; [keeps|]. intros t s Hs. unfold stateful.
  by destruct (Renderer.GenerateRevision _ _ _ _ _ _ _ _ _ _) as [[??]?].
Qed.

(** One dispatch followed by steps that send nothing. *)
Lemma once_bounded o content z (k : deployed_attempt → M unit) : o_stack o = stackID → (∀ acc, keeps dispatched (k acc)) →
  triple unsent (acc ← deploy_once x o content z; k acc) (λ _, dispatched) (λ _, dispatched).
Proof.
  intros Ho Hk. pose proof dispatched_stable as Hds.
  apply (triple_pre _ (retried (o_log o) 0)); [|intros s; apply unsent_retried].
  apply (triple_bind _ _ _ (λ _, dispatched)); [|intros acc; by apply triple_final].
  unfold deploy_once. eapply triple_bind; [apply dispatch_once_attempt; [done|unfold maxRetries; lia]|]. intros r.
  apply (triple_pre _ dispatched); [apply triple_final; [keeps|done]|].
  intros s. destruct (a_err r); [|done]. apply retried_dispatched. unfold maxRetries. lia.
Qed.

Lemma loaded_dispatched op : reaches unsent dispatched (loaded x stackID op).
Proof.
  pose proof unsent_stable as Hus. pose proof dispatched_stable as Hds.
  assert (∀ s, unsent s → dispatched s) as Hud.
  { intros s Hs. apply (retried_dispatched "" 0); [unfold maxRetries; lia|by apply unsent_retried]. }
  apply reaches_loaded; [done|done|done|apply keeps_render_unsent|..]; intros o; intros; unfold reaches.
  - unfold reconcile_dispatch. eapply (triple_bind _ _ _ (λ _, dispatched)).
    + eapply triple_pre; [apply (deploy_attempts_bounded o _ _); [done|reflexivity]|]. intros s. apply unsent_retried.
    + intros acc. apply triple_final; [|done]. unfold deploy_failed, deploy_succeeded, record_success. keeps.
  - unfold local_dispatch. apply triple_step; [keeps|done|]. intros c. apply once_bounded; [done|].
    intros acc. unfold record_success. keeps.
  - unfold rollback_dispatch. apply triple_step; [keeps|done|]. intros c. apply once_bounded; [done|].
    intros acc. unfold rollback_succeeded, record_success. keeps.
  - unfold redeploy_dispatch. apply triple_step; [keeps|done|]. intros [c|e]; [|apply triple_final; [keeps|done]].
    do 3 (apply triple_step; [keeps|done|]; intros ?). apply once_bounded; [done|].
    intros acc. unfold record_success. keeps.
Qed.
End attempts.

Lemma run_dispatched `{Platform} (x : externals) (busy : bool) (stackID : string) (op : operation) (s : st) :
  dispatched stackID (sent s) (run x busy stackID op s).2.
Proof.
  destruct (run_loaded x busy stackID op s) as (a & Hr). simpl in Hr. destruct Hr as [(r & ->)| ->].
  { exists "", []. rewrite app_nil_r. split_and!; [done|simpl; lia|constructor|done]. }
  set (s1 := set_stack _ _ _). pose proof (loaded_dispatched x stackID (sent s) op s1 eq_refl) as Hl.
  destruct (loaded x stackID op s1) as [[] s']; exact Hl.
Qed.

(** An operation sends at most three commands, all for this stack and under one command
    id; a command is sent again only after the one before it was refused. *)
Theorem dispatches_are_bounded `{Platform} (x : externals) (busy : bool) (stackID : string) (op : operation) (s : st) :
  dispatched stackID (sent s) (run x busy stackID op s).2.
Proof. apply run_dispatched. Qed.
