(* ===== verification/ReconcileSettled.v ===== *)
(** * No operation leaves a stack "syncing"

    The database answers and nothing is cancelled: then every way out of every operation
    has written a settled status.  [calm φ] is the state of such a run: no fault is to
    come, both copies of the record have the same status, and [φ] holds of it. *)
From Stdlib Require Import ZArith.
From S2P Require Import Prelude GoStrings GoPath GoFmt GoValue GoBase64 SafePath Policy ComposeDoc PbRecord PbTable.
From S2P Require Import Overrides ConfigFiles ConfigInject EnvFile ProjectIdentity LintCore LintRules PhaseTracker LintPhase.
From S2P Require Import Health PostCheck ReconcileCore Reconcile ReconcileOps ReconcileLogic.
From S2P Require Renderer WaitJobs.

Definition status (r : record) : string := GetString "status" r.
Definition settled (v : string) : Prop := v ≠ "syncing".
Definition anything (v : string) : Prop := True.

Lemma settled_error : settled "error".
Proof. done. Qed.

Definition calm (φ : string → Prop) (s : st) : Prop :=
  answers s = [] ∧ status (db s) = status (mem s) ∧ φ (status (db s)).

(** [m] returns and keeps the run calm. *)
Definition quiet (φ : string → Prop) {A} (m : M A) : Prop := triple (calm φ) m (λ _, calm φ) (λ _ _, False).

Lemma status_set k v r : k ≠ "status" → status (SetField k v r) = status r.
Proof. intros Hk. apply GetString_SetField_ne. congruence. Qed.

Lemma status_failure c rs e a cm r : status (failure_fields c rs e a cm r) = status r.
Proof. unfold failure_fields, SetStr. by rewrite !status_set. Qed.

Lemma status_schedule r t i : status (scheduleChangesFor r t i).2 = status r.
Proof.
  unfold scheduleChangesFor, schedule_field, SetInt. simpl. repeat (case_decide; simpl); by rewrite ?status_set.
Qed.

Section quiet.
Context {φ : string → Prop}.

Lemma quiet_ret {A} (a : A) : quiet φ (mret a).
Proof. intros s Hs. exact Hs. Qed.
Lemma quiet_gets {A} (f : st → A) : quiet φ (gets f).
Proof. intros s Hs. exact Hs. Qed.
Lemma quiet_bind {A B} (m : M A) (k : A → M B) : quiet φ m → (∀ a, quiet φ (k a)) → quiet φ (m ≫= k).
Proof. apply triple_bind. Qed.
Lemma quiet_ignore {A} (m : M A) : quiet φ m → quiet φ (ignore m).
Proof. intros Hm. apply quiet_bind; [done|]. intros ?. apply quiet_ret. Qed.
(** A step that does not touch the stack or the faults. *)
Lemma quiet_modify f : (∀ s, answers (f s) = answers s ∧ db (f s) = db s ∧ mem (f s) = mem s) → quiet φ (modify f).
Proof.
  intros Hf s Hs. specialize (Hf s) as (H1 & H2 & H3). destruct Hs as (A1 & A2 & A3).
  unfold modify, calm. by rewrite H1 H2 H3.
Qed.
Lemma quiet_save : quiet φ (modify (λ s, set_stack (mem s) (mem s) s)).
Proof. intros s (A1 & A2 & A3). unfold modify, calm. simpl. by rewrite -A2. Qed.
Lemma quiet_load : quiet φ (modify (λ s, set_stack (db s) (db s) s)).
Proof. intros s (A1 & A2 & A3). done. Qed.
Lemma quiet_on_stack f : (∀ r, status (f r) = status r) → quiet φ (on_stack f).
Proof. intros Hf s (A1 & A2 & A3). unfold on_stack, modify, calm. simpl. by rewrite Hf. Qed.
Lemma quiet_answer : quiet φ answer.
Proof. intros s (A1 & A2 & A3). unfold answer. rewrite A1. done. Qed.
Lemma quiet_next_env : quiet φ next_env.
Proof. intros s Hs. unfold next_env. by destruct (clocks s). Qed.
End quiet.

Create HintDb quiet.
#[export] Hint Resolve quiet_ret quiet_gets quiet_ignore quiet_save quiet_load quiet_answer quiet_next_env : quiet.
#[export] Hint Extern 2 (quiet _ (modify _)) => apply quiet_modify; intros ?; by repeat case_match : quiet.
#[export] Hint Extern 2 (quiet _ (on_stack _)) => apply quiet_on_stack; intros ?;
  first [apply status_failure | unfold SetStr, SetInt; by rewrite ?status_set] : quiet.

Ltac quiet_step :=
  lazymatch goal with
  | |- quiet _ (mbind _ _) => apply quiet_bind; [|intros ?]
  | |- quiet _ (match ?a with _ => _ end) => destruct a
  | |- quiet _ (let _ := _ in _) => cbv zeta
  | |- quiet _ _ => solve [eauto with quiet]
  end.
Ltac quiet := repeat quiet_step.

Section helpers.
Context `{Platform} (x : externals) {φ : string → Prop}.

Lemma quiet_now : quiet φ now. Proof. unfold now. quiet. Qed.
Lemma quiet_since_ms z : quiet φ (since_ms z). Proof. pose proof quiet_now. unfold since_ms. quiet. Qed.
Lemma quiet_pt_start ph : quiet φ (pt_start ph). Proof. unfold pt_start. quiet. Qed.
Lemma quiet_pt_finish ph st d : quiet φ (pt_finish ph st d). Proof. unfold pt_finish. quiet. Qed.
Lemma quiet_pt_abort d : quiet φ (pt_finishCurrentAsError d). Proof. unfold pt_finishCurrentAsError. quiet. Qed.
Lemma quiet_pt_skipped pt ph d : quiet φ (pt_recordSkipped pt ph d). Proof. unfold pt_recordSkipped. quiet. Qed.
Lemma quiet_pt_completed pt ph st z d dt : quiet φ (pt_recordCompleted pt ph st z d dt).
Proof. unfold pt_recordCompleted. quiet. Qed.
Lemma quiet_pt_lint pt l : quiet φ (pt_recordLint pt l). Proof. unfold pt_recordLint. quiet. Qed.
Lemma quiet_notify e l t c d err : quiet φ (notify e l t c d err). Proof. unfold notify. quiet. Qed.
Lemma quiet_saveRecord op : quiet φ (saveRecord op). Proof. unfold saveRecord. quiet. Qed.
Lemma quiet_createSyncLog a b c d : quiet φ (createSyncLog new_id a b c d). Proof. unfold createSyncLog. quiet. Qed.
Lemma quiet_change_log id w f : quiet φ (change_log id w f). Proof. unfold change_log. quiet. Qed.
End helpers.
#[export] Hint Resolve quiet_now quiet_since_ms quiet_pt_start quiet_pt_finish quiet_pt_abort quiet_pt_skipped
  quiet_pt_completed quiet_pt_lint quiet_notify quiet_saveRecord quiet_createSyncLog quiet_change_log : quiet.
#[export] Hint Unfold updateSyncLog updateSyncLogCommit : quiet.

(** Writing a status and saving it. *)
Lemma set_status φ v op :
  triple (calm φ) (saveRecordStatus v op) (λ err s, calm (eq v) s ∧ err = None) (λ _ _, False).
Proof.
  intros s (A1 & A2 & A3). unfold saveRecordStatus, saveRecord, mbind, M_bind, on_stack, modify, answer, gets. simpl.
  rewrite A1. simpl. unfold calm. simpl. by rewrite /status /SetStr GetString_SetField_eq.
Qed.

Lemma calm_eq (φ : string → Prop) v s : φ v → calm (eq v) s → calm φ s.
Proof. intros Hv (A1 & A2 & A3). split_and!; [done..|by rewrite -A3]. Qed.

Lemma calm_mono (φ ψ : string → Prop) s : (∀ v, φ v → ψ v) → calm φ s → calm ψ s.
Proof. intros Hv (A1 & A2 & A3). split_and!; auto. Qed.

Section marks.
Context `{Platform} (x : externals) {φ : string → Prop} (Herr : φ "error").

Lemma marks c r v e cm : triple (calm φ) (markStackFailure rfc3339 c r v e cm) (λ err s, calm (eq v) s ∧ err = None) (λ _ _, False).
Proof.
  unfold markStackFailure. eapply triple_bind; [apply quiet_now|]. intros t.
  eapply triple_bind; [apply (quiet_on_stack (φ := φ)); intros ?; apply status_failure|]. intros ?.
  apply (set_status φ v "mark error").
Qed.

Lemma quiet_marks c r v e cm : φ v → quiet φ (markStackFailure rfc3339 c r v e cm).
Proof. intros Hv. eapply triple_weaken; [apply marks|done| |done]. intros err s' [Hs ?]. by eapply calm_eq. Qed.
Lemma quiet_markStackError c e cm : quiet φ (markStackError rfc3339 c e cm).
Proof. unfold markStackError. apply quiet_marks. exact Herr. Qed.
Lemma quiet_markSecretError e cm : quiet φ (markSecretError rfc3339 e cm).
Proof. pose proof quiet_markStackError. unfold markSecretError, markSyncError. quiet. Qed.
Lemma quiet_markError : quiet φ markError.
Proof. eapply triple_weaken; [apply (set_status φ "error" "mark error")|done| |done]. intros err s' [Hs ?]. by eapply calm_eq. Qed.
Lemma quiet_clearSecretError : quiet φ clearSecretError.
Proof. unfold clearSecretError. quiet. Qed.
Lemma quiet_clearStale id : quiet φ (clearStaleRenderOverrides id).
Proof. unfold clearStaleRenderOverrides. quiet. Qed.
Lemma quiet_refresh d : quiet φ (refreshScheduleFromDefinition d).
Proof.
  unfold refreshScheduleFromDefinition. intros s Hs. unfold mbind, M_bind, gets. simpl.
  destruct d as [[t i]|]; [|done]. destruct (scheduleRefreshApplies _); [|done].
  pose proof (status_schedule (mem s) t i) as Hr. destruct (scheduleChangesFor (mem s) t i) as [ch r].
  assert (calm φ (set_stack (db s) r s)) as Hs' by (destruct Hs as (A1 & A2 & A3); split_and!; [done|simpl in *; congruence|done]).
  revert Hs'. simpl. generalize (set_stack (db s) r s).
  assert (quiet φ (if ch then answer ≫= λ ok : bool, if ok then modify (λ s, set_stack (mem s) (mem s) s) else mret tt
                   else mret tt)) as Hk by quiet.
  exact Hk.
Qed.
Lemma quiet_backfill pt l : quiet φ (backfill pt l).
Proof. induction l as [|p l IH]; simpl; quiet. Qed.
Lemma quiet_logFailure a b c d : quiet φ (logFailure new_id a b c d).
Proof. unfold logFailure. quiet. Qed.
Lemma quiet_logFailureWithPhaseAnd a b c d ph z before : (∀ pt, quiet φ (before pt)) →
  quiet φ (logFailureWithPhaseAnd new_id a b c d ph z before).
Proof. intros Hb. unfold logFailureWithPhaseAnd. quiet. Qed.
Lemma quiet_logFailureWithPhase a b c d ph z l : quiet φ (logFailureWithPhase new_id a b c d ph z l).
Proof. apply quiet_logFailureWithPhaseAnd. intros pt. apply quiet_backfill. Qed.
Lemma quiet_delete_queued a l : quiet φ (delete_queued a l).
Proof. induction l as [|r l IH]; simpl; quiet. Qed.
Lemma quiet_queue a b c : quiet φ (queuePendingReconcile new_id a b c).
Proof. pose proof quiet_delete_queued. unfold queuePendingReconcile. quiet. Qed.
Lemma quiet_read a b c d : quiet φ (readRenderedCompose new_id rfc3339 a b c d).
Proof. pose proof quiet_logFailure. pose proof quiet_markStackError. unfold readRenderedCompose, markSyncError. quiet. Qed.
Lemma quiet_tracking l : quiet φ (upsertStackConfigTracking l).
Proof. unfold upsertStackConfigTracking. quiet. Qed.
Lemma quiet_ack pt a z ms : quiet φ (recordWorkerAckAndComposeUpPhases pt a z ms).
Proof. unfold recordWorkerAckAndComposeUpPhases. quiet. Qed.
Lemma quiet_find_repo id : quiet φ (find_repo id).
Proof. unfold find_repo. quiet. Qed.
Lemma quiet_save_repo r op : quiet φ (save_repo r op).
Proof. unfold save_repo. quiet. Qed.
Lemma quiet_fetchRepo c p h id b busy : quiet φ (fetchRepo rfc3339 c p h id b busy).
Proof. pose proof quiet_find_repo. pose proof quiet_save_repo. unfold fetchRepo. quiet. Qed.
Lemma quiet_ensure c p h r t g o : quiet φ (ensureRepoFetched rfc3339 c p h r t g o).
Proof. pose proof quiet_find_repo. pose proof quiet_fetchRepo. unfold ensureRepoFetched. quiet. Qed.
Lemma quiet_update_logs id d l : quiet φ (update_logs id d l).
Proof. induction l as [|[??] l IH]; simpl; quiet. Qed.
Lemma quiet_settle_commit a b c : quiet φ (settle_commit x a b c).
Proof. pose proof quiet_find_repo. unfold settle_commit. quiet. Qed.
Lemma quiet_post_check c : quiet φ (post_check x c).
Proof. unfold post_check. quiet. Qed.
Lemma quiet_notify_result a b c r z : quiet φ (notify_result a b c r z).
Proof. unfold notify_result. quiet. Qed.
Lemma quiet_dispatch_once n o c prev : quiet φ (dispatch_once x n o c prev).
Proof. unfold dispatch_once. quiet. Qed.
Lemma quiet_deploy_once o c z : quiet φ (deploy_once x o c z).
Proof. pose proof quiet_dispatch_once. unfold deploy_once. quiet. Qed.

Lemma GenerateRevision_status rq e w :
  status (Renderer.GenerateRevision yaml_parse yaml_marshal sha256 hmac resolve workspace stackStorage rq e w).1.2
  = status (Renderer.rq_stack rq).
Proof.
  unfold Renderer.GenerateRevision. destruct (Renderer.prepare _ _ _ _ _ _) as [[[[m i] tr] ws]|]; [|done].
  destruct (Renderer.checksum_of _ _ _ _ _) as [sum|]; [|done]. cbv zeta.
  destruct (negb _ && _); [done|]. unfold Renderer.store_revision.
  destruct (yaml_marshal _); [|done]. destruct (negb _); [done|]. destruct (Renderer.WriteFile _ _ _ _) as [[] w1]; [|done].
  destruct (negb _); [done|].
  unfold SetStr, SetInt. destruct (negb _); simpl; by rewrite !status_set.
Qed.

Lemma quiet_render k repo wd cf ev c fi w fp ov : quiet φ (render x k repo wd cf ev c fi w fp ov).
Proof.
  unfold render. apply quiet_bind; [quiet|]. intros t s (A1 & A2 & A3). unfold stateful.
  match goal with |- context [Renderer.GenerateRevision _ _ _ _ _ _ _ ?rq ?e ?w] =>
    pose proof (GenerateRevision_status rq e w) as Hg; destruct (Renderer.GenerateRevision _ _ _ _ _ _ _ rq e w) as [[res stack] w'] end.
  simpl in *. unfold calm. simpl. destruct (_ && _); simpl; rewrite ?Hg; split_and!; congruence.
Qed.
Lemma quiet_render_unattended repo id wd cf ev c w fp : quiet φ (render_unattended x repo id wd cf ev c w fp).
Proof. pose proof quiet_render. pose proof quiet_clearStale. unfold render_unattended. quiet. Qed.
End marks.
#[export] Hint Resolve quiet_markStackError quiet_markSecretError quiet_markError quiet_clearSecretError quiet_refresh
  quiet_logFailure quiet_logFailureWithPhase quiet_queue quiet_read quiet_tracking quiet_ack quiet_find_repo quiet_save_repo
  quiet_ensure quiet_update_logs quiet_settle_commit quiet_post_check quiet_notify_result quiet_dispatch_once
  quiet_deploy_once quiet_render quiet_render_unattended : quiet.
#[export] Hint Extern 3 (quiet _ (logFailureWithPhaseAnd _ _ _ _ _ _ _ _)) =>
  eapply quiet_logFailureWithPhaseAnd; intros ?; quiet : quiet.
#[export] Hint Unfold markSyncError markDeployError : quiet.

(** ** Ways out *)

(** A round of the wait in which jobs were still running. *)
Definition jobs_running (r : WaitJobs.round) : Prop := ∃ n, WaitJobs.rd_poll r = WaitJobs.PollActive (S n).

Section ways_out.
Context {rounds : list WaitJobs.round}.

(** Leaving is fine when the wait for jobs goes on, every round having seen jobs, or when
    the status is settled. *)
Definition left_ok (r : ret) (s : st) : Prop := (r = StillRunning ∧ Forall jobs_running rounds) ∨ calm settled s.

Definition ends {A} (m : M A) : Prop := triple (calm anything) m (λ _, calm anything) left_ok.
Definition closes {A} (m : M A) : Prop := triple (calm anything) m (λ _, calm settled) left_ok.
Definition aborts {A} (m : M A) : Prop := triple (calm anything) m (λ _ _, False) left_ok.
Definition stays {A} (m : M A) : Prop := triple (calm settled) m (λ _, calm settled) left_ok.

Lemma calm_any φ s : calm φ s → calm anything s.
Proof. by apply calm_mono. Qed.

Lemma ends_quiet {A} (m : M A) : quiet anything m → ends m.
Proof. intros Hm. by eapply triple_weaken; [apply Hm|..]. Qed.
Lemma ends_aborts {A} (m : M A) : aborts m → ends m.
Proof. intros Hm. by eapply triple_weaken; [apply Hm|..]. Qed.
Lemma closes_aborts {A} (m : M A) : aborts m → closes m.
Proof. intros Hm. by eapply triple_weaken; [apply Hm|..]. Qed.
Lemma ends_bind {A B} (m : M A) (k : A → M B) : ends m → (∀ a, ends (k a)) → ends (m ≫= k).
Proof. apply triple_bind. Qed.
Lemma closes_bind {A B} (m : M A) (k : A → M B) : ends m → (∀ a, closes (k a)) → closes (m ≫= k).
Proof. apply triple_bind. Qed.
Lemma aborts_bind {A B} (m : M A) (k : A → M B) : ends m → (∀ a, aborts (k a)) → aborts (m ≫= k).
Proof. apply triple_bind. Qed.

Lemma stays_quiet {A} (m : M A) : quiet settled m → stays m.
Proof. intros Hm. by eapply triple_weaken; [apply Hm|..]. Qed.
Lemma stays_bind {A B} (m : M A) (k : A → M B) : stays m → (∀ a, stays (k a)) → stays (m ≫= k).
Proof. apply triple_bind. Qed.
Lemma stays_leave {A} r : stays (@leave A r).
Proof. apply triple_leave. intros s Hs. by right. Qed.
Lemma stays_check m : quiet settled m → stays (check m).
Proof.
  intros Hm. apply stays_bind; [by apply stays_quiet|]. intros [e|]; [apply stays_leave|apply triple_ret; by intros].
Qed.

(** The status is written but not saved. *)
Definition pending (v : string) (s : st) : Prop := answers s = [] ∧ status (mem s) = v.

Lemma save_pending v op : triple (pending v) (saveRecord op) (λ err s, calm (eq v) s ∧ err = None) (λ _ _, False).
Proof.
  intros s (A1 & A2). unfold saveRecord, mbind, M_bind, modify, answer, gets. rewrite A1. simpl. by unfold calm.
Qed.

Lemma write_pending φ v f : (∀ r, status (f r) = v) → triple (calm φ) (on_stack f) (λ _, pending v) (λ _ _, False).
Proof. intros Hf s (A1 & _). unfold on_stack, modify, pending. simpl. by rewrite Hf. Qed.

(** A status written and saved, and what follows once it is settled. *)
Lemma closes_status {B} v op (k : M B) : settled v → stays k → closes (check (saveRecordStatus v op);; k).
Proof.
  intros Hv Hk. eapply (triple_bind _ _ _ (λ _, calm settled)); [|by intros ?].
  eapply triple_bind; [eapply triple_weaken; [apply (set_status anything v op)|done|done|done]|].
  intros err s [Hs ->]. by apply (calm_eq settled v).
Qed.

Lemma closes_status_only v op : settled v → closes (check (saveRecordStatus v op)).
Proof.
  intros Hv. eapply triple_bind; [eapply triple_weaken; [apply (set_status anything v op)|done|done|done]|].
  intros err s [Hs ->]. by apply (calm_eq settled v).
Qed.

Lemma ends_syncing op : ends (check (saveRecordStatus "syncing" op)).
Proof.
  eapply triple_bind; [eapply triple_weaken; [apply (set_status anything "syncing" op)|done|done|done]|].
  intros err s [Hs ->]. by apply (calm_any (eq "syncing")).
Qed.

Lemma created_log `{Platform} φ a b c d :
  triple (calm φ) (createSyncLog new_id a b c d) (λ r s, calm φ s ∧ ∃ rec, r = inl rec) (λ _ _, False).
Proof.
  intros s Hs. pose proof (quiet_createSyncLog (φ := φ) a b c d s Hs) as Hq. destruct Hs as (A1 & _).
  revert Hq. unfold createSyncLog, mbind, M_bind, answer, gets, modify. rewrite A1. simpl. rewrite A1. simpl.
  intros Hq. split; [exact Hq|]. by eexists.
Qed.

Lemma saved_repo φ r op : triple (calm φ) (save_repo r op) (λ err s, calm φ s ∧ err = None) (λ _ _, False).
Proof. intros s Hs. destruct Hs as (A1 & A2 & A3). unfold save_repo, mbind, M_bind, answer, modify. by rewrite A1. Qed.

(** Failing after the record was marked. *)
Lemma aborts_marked `{Platform} {A} c e cm err : aborts (ignore (markStackError rfc3339 c e cm);; (fail err : M A)).
Proof.
  unfold ignore. apply (triple_bind _ _ _ (λ _, calm settled)); [|intros ?; apply triple_leave; intros s Hs; by right].
  eapply triple_bind; [eapply triple_weaken; [apply (marks (φ := anything) c "" "error" e cm)|done|done|done]|].
  intros r s [Hs ?]. by apply (calm_eq settled "error" s settled_error).
Qed.

Lemma aborts_sync `{Platform} {A} logged e c r : quiet anything logged → aborts (@abort_sync_as rfc3339 A logged e c r).
Proof.
  intros Hl. unfold abort_sync_as. apply aborts_bind; [apply ends_quiet; by apply quiet_ignore|]. intros ?. apply aborts_marked.
Qed.

Lemma aborts_secret `{Platform} {A} logged e c : quiet anything logged → aborts (@abort_secret rfc3339 A logged e c).
Proof.
  intros Hl. unfold abort_secret. apply aborts_bind; [apply ends_quiet; by apply quiet_ignore|]. intros ?.
  unfold markSecretError, ignore.
  eapply (triple_bind _ _ _ (λ _, calm settled)); [|intros ?; apply triple_leave; intros s Hs; by right].
  eapply (triple_bind _ _ _ (λ _, calm settled)); [|intros ?; by apply triple_ret].
  eapply (triple_bind _ _ _ (λ _, calm anything)).
  { eapply triple_weaken; [apply (quiet_on_stack (φ := anything))|done|done|done]. intros r. by apply status_set. }
  intros ?. eapply triple_weaken; [apply (marks (φ := anything) "sync" "" "error" e c)|done| |done].
  intros err s [Hs ?]. by apply (calm_eq settled "error" s settled_error).
Qed.
End ways_out.

Create HintDb ways.
#[export] Hint Resolve settled_error : quiet ways.
#[export] Hint Extern 0 (anything _) => exact I : quiet ways.
#[export] Hint Resolve ends_aborts closes_aborts aborts_sync aborts_secret aborts_marked ends_syncing stays_leave stays_check : ways.
#[export] Hint Extern 1 (ends _) => apply ends_quiet; solve [quiet] : ways.
#[export] Hint Extern 1 (stays _) => apply stays_quiet; solve [quiet] : ways.
#[export] Hint Extern 1 (quiet _ _) => solve [quiet] : ways.

Ltac way_step :=
  lazymatch goal with
  | |- ends (match ?a with _ => _ end) => destruct a
  | |- closes (match ?a with _ => _ end) => destruct a
  | |- stays (match ?a with _ => _ end) => destruct a
  | |- ends (mbind _ _) => first [solve [eauto with ways] | apply ends_bind; [|intros ?]]
  | |- closes (mbind _ _) => first [solve [eauto with ways] | apply closes_bind; [solve [eauto with ways]|intros ?]]
  | |- stays (mbind _ _) => first [solve [eauto with ways] | apply stays_bind; [|intros ?]]
  | |- _ => solve [eauto with ways]
  end.
Ltac ways := repeat first [progress cbv zeta | way_step].

Section flows.
Context `{Platform} (x : externals) (stackID : string)
  (Hcancel : ∀ n, x_cancelled x n = None) (Hrounds : Forall (λ r, WaitJobs.rd_ctx r = None) (x_rounds x)).

Local Abbreviation ends := (ReconcileSettled.ends (rounds := x_rounds x)).
Local Abbreviation closes := (ReconcileSettled.closes (rounds := x_rounds x)).
Local Abbreviation aborts := (ReconcileSettled.aborts (rounds := x_rounds x)).
Local Abbreviation stays := (ReconcileSettled.stays (rounds := x_rounds x)).

Lemma check_settled c : settled (pc_Status (postDeployCheck since yaml_parse unmarshal (x_replies x) (x_interrupted x) c)).
Proof.
  unfold postDeployCheck. destruct (ExpectedServiceNames _ _) as [[|e l]|]; [done| |done].
  set (i := default ∅ _). generalize {| statuses := []; queryErr := ""; gotStatus := false |}. intros st0.
  assert (∀ n k s r, attempts since unmarshal (x_replies x) (x_interrupted x) (e :: l) i n k s = inl r → settled (pc_Status r)) as Ha.
  { induction n as [|n IH]; intros k s r; [done|]. simpl. unfold query.
    repeat case_match; intros; simplify_eq/=; first [done | by eapply IH]. }
  destruct (attempts _ _ _ _ _ _ _ _ _) as [r|s'] eqn:Hat; [by eapply Ha|].
  destruct (gotStatus s'); [|done]. unfold evaluatePostCheck. simpl. by repeat case_decide.
Qed.

Lemma checked φ c : triple (calm φ) (post_check x c) (λ r s, calm φ s ∧ settled (pc_Status r)) (λ _ _, False).
Proof.
  unfold post_check. eapply triple_bind; [apply quiet_pt_start|]. intros ?. cbv zeta.
  eapply triple_bind; [apply quiet_pt_finish|]. intros ?. apply triple_ret. intros s Hs. split; [done|apply check_settled].
Qed.

Lemma closes_record_success op lost v c sum log out att rr res d : settled v →
  closes (record_success op lost v c sum log out att rr res d).
Proof.
  intros Hv. unfold record_success. do 2 (apply closes_bind; [ways|intros ?]).
  eapply triple_bind; [eapply triple_weaken; [apply (write_pending anything v)|done|done|done]|].
  { intros r. unfold deployed_fields, clearLastError, persistProjectIdentity, SetStr, SetInt.
    case_decide; repeat (rewrite status_set; [|done]); apply GetString_SetField_eq. }
  intros ?. eapply triple_bind; [eapply triple_weaken; [apply save_pending|done|done|done]|].
  intros err. apply (triple_pre _ (λ s, calm settled s ∧ err = None)).
  - apply triple_pure. intros ->. change (stays (upd ← updateSyncLog log
      (if decide (pc_Status res = "active") then "success" else pc_Status res) out d;
      match upd with Some err => ignore (markDeployError rfc3339 err att);; fail err | None => mret tt end)). ways.
  - intros s [Hs He]. split; [by eapply calm_eq|done].
Qed.

Lemma closes_checked {A} c (k : postCheckResult → M A) : (∀ r, settled (pc_Status r) → closes (k r)) → closes (post_check x c ≫= k).
Proof.
  intros Hk. eapply triple_bind; [eapply triple_weaken; [apply (checked anything)|done|done|done]|].
  intros r. apply triple_pure. apply Hk.
Qed.

Lemma settled_post v p : settled v → settled (resolvePostDeployStatus v p).
Proof. unfold resolvePostDeployStatus. by destruct (_ && _). Qed.

Lemma settled_prev r : settled (status r) → settled (effectivePrevStatus r).
Proof. unfold effectivePrevStatus. by case_decide. Qed.

(** ** The wait for jobs *)
Lemma not_interrupted dl rounds : Forall (λ r, WaitJobs.rd_ctx r = None) rounds →
  ∀ e z, WaitJobs.wait_loop dl rounds ≠ WaitJobs.Interrupted e z.
Proof.
  induction 1 as [|r l Hr Hl IH]; intros e z; [done|]. simpl. rewrite Hr.
  destruct (WaitJobs.rd_poll r) as [|[|n]]; [done|done|]. destruct dl; [case_decide; [done|apply IH]|apply IH].
Qed.

Lemma still_waiting dl rounds : WaitJobs.wait_loop dl rounds = WaitJobs.StillWaiting → Forall jobs_running rounds.
Proof.
  induction rounds as [|r l IH]; simpl; [done|]. destruct (WaitJobs.rd_ctx r); [done|].
  destruct (WaitJobs.rd_poll r) as [|[|n]] eqn:Hp; [done|done|]. intros Hw. constructor; [by exists n|].
  apply IH. destruct dl; [by case_decide|done].
Qed.

Lemma ends_wait tr c : ends (wait_for_jobs x stackID tr c).
Proof.
  unfold wait_for_jobs. apply ends_bind; [ways|]. intros stack. cbv zeta. case_decide; [ways|].
  destruct (x_active x) as [|[|n]]; [ways|ways|].
  do 4 (apply ends_bind; [ways|intros ?]). cbv zeta. do 4 (apply ends_bind; [ways|intros ?]).
  pose proof (not_interrupted (WaitJobs.deadline_of stack a5) (x_rounds x) Hrounds) as Hni. unfold WaitJobs.conclude.
  destruct (WaitJobs.wait_loop _ _) as [|e z|qf z|k z] eqn:Hw.
  - apply triple_leave. intros s Hs. left. split; [done|]. by eapply still_waiting.
  - by destruct (Hni e z).
  - assert (∀ b st ls msg e d, WaitJobs.dp_marked d = false → WaitJobs.dp_marked (WaitJobs.settle_log b st ls msg e d) = false) as Hm.
    { intros b ??? ev d Hd. unfold WaitJobs.settle_log, WaitJobs.finish_check. destruct b; [|done]. by destruct (finish _ _ _ _ _ _) as [[??]?]. }
    simpl. apply ends_bind; [ways|intros ms]. do 2 (apply ends_bind; [ways|intros ?]). rewrite Hm; [|done]. ways.
  - simpl. apply ends_aborts. do 3 (apply aborts_bind; [ways|intros ?]).
    eapply (triple_bind _ _ _ (λ _, calm settled)); [|intros ?; apply triple_leave; intros s Hs; by right].
    eapply triple_bind; [eapply triple_weaken; [apply (set_status anything "error" "mark error")|done|done|done]|].
    intros r s [Hs ?]. by apply (calm_eq settled "error" s settled_error).
Qed.

(** ** Deploying *)
Lemma marked {B} c e cm (k : M B) Q E : triple (calm settled) k Q E →
  triple (calm anything) (ignore (markStackError rfc3339 c e cm);; k) Q E.
Proof.
  intros Hk. eapply (triple_bind _ _ _ (λ _, calm settled)); [|by intros ?]. unfold ignore.
  eapply triple_bind; [eapply triple_weaken; [apply (marks (φ := anything) c "" "error" e cm)|done|done|done]|].
  intros r s [Hs ?]. by apply (calm_eq settled "error" s settled_error).
Qed.

Lemma read_compose a b c d : triple (calm anything) (readRenderedCompose new_id rfc3339 a b c d)
  (λ r s, match r with inl _ => calm anything s | inr _ => calm settled s end) (λ _ _, False).
Proof.
  unfold readRenderedCompose. eapply triple_bind; [apply quiet_gets|]. intros dk.
  destruct (Renderer.files dk !! d); [by apply triple_ret|]. cbv zeta.
  eapply triple_bind; [apply quiet_ignore, quiet_logFailure|]. intros ?. apply marked. by apply triple_ret.
Qed.

Lemma ends_get_compose a b c d : ends (get (readRenderedCompose new_id rfc3339 a b c d)).
Proof.
  unfold get. eapply triple_bind; [eapply triple_weaken; [apply read_compose|done|done|done]|].
  intros [content|e]; [by apply triple_ret|]. apply triple_leave. intros s Hs. by right.
Qed.

Lemma ends_deploy_attempts o path tr : ∀ n k acc, ends (deploy_attempts x o path tr n k acc).
Proof.
  pose proof ends_get_compose as Hg. induction n as [|n IH]; intros k acc; simpl; [ways|]. rewrite Hcancel.
  do 4 (apply ends_bind; [ways|intros ?]). ways.
Qed.

Lemma closes_then {A B} (m : M A) (k : A → M B) : closes m → (∀ a, stays (k a)) → closes (m ≫= k).
Proof. apply triple_bind. Qed.

Lemma closes_mark {B} c r v e cm (k : M B) : settled v → stays k →
  closes (check (markStackFailure rfc3339 c r v e cm);; k).
Proof.
  intros Hv Hk. apply closes_then; [|by intros ?]. unfold check.
  eapply triple_bind; [eapply triple_weaken; [apply (marks (φ := anything))|done|done|done]|].
  intros err s [Hs ->]. by apply (calm_eq settled v).
Qed.

Lemma closes_deploy_failed o tr last e acc : closes (deploy_failed x o tr last e acc).
Proof.
  assert (∀ c p, settled (tc_Status (convergeAfterTimeout since yaml_parse unmarshal (x_replies x) (x_interrupted x) decode_inspect
    (x_timeout_inspect x) true (t_content acc) c p))) as Hc.
  { intros c p. unfold convergeAfterTimeout, converge. simpl. repeat case_match; simpl; first [done|apply check_settled]. }
  unfold deploy_failed. apply closes_bind; [ways|]. intros ?. cbv zeta.
  apply (triple_bind _ _ _ (λ p s, calm anything s ∧ settled p.1)).
  { case_decide; [|apply triple_ret; by intros]. destruct (Converged _); [|apply triple_ret; by intros].
    eapply triple_bind; [eapply triple_weaken; [apply (quiet_now (φ := anything))|done|done|done]|]. intros t.
    eapply triple_bind; [eapply triple_weaken; [apply (quiet_on_stack (φ := anything))|done|done|done]|].
    - intros r. unfold applyTimeoutConvergence, persistProjectIdentity, SetStr, SetInt. case_decide; by rewrite ?status_set.
    - intros ?. apply triple_ret. intros s Hs. split; [done|apply Hc]. }
  intros [v out]. apply triple_pure. intros Hv. simpl. apply closes_bind; [ways|]. intros [err|].
  { apply closes_aborts, aborts_marked. }
  apply closes_mark; [done|ways].
Qed.

Lemma closes_reconcile_dispatch o tr last : closes (reconcile_dispatch x o tr last).
Proof.
  pose proof ends_deploy_attempts as Ha. pose proof closes_deploy_failed as Hf.
  unfold reconcile_dispatch. apply closes_bind; [apply Ha|]. intros acc. destruct (a_err _); [apply Hf|].
  unfold deploy_succeeded. do 3 (apply closes_bind; [ways|intros ?]). apply closes_checked. intros r Hr.
  apply closes_then; [by apply closes_record_success|]. intros ?. ways.
Qed.

Lemma closes_deferring {A} d (m : M A) : closes m → closes (deferring d m).
Proof.
  intros Hm s Hs. specialize (Hm s Hs). unfold deferring. destruct (m s) as [r s'].
  destruct r as [r|[err|]].
  - pose proof (quiet_pt_abort (φ := settled) d s' Hm) as Hq. by destruct (pt_finishCurrentAsError d s') as [[]?].
  - destruct Hm as [[? ?]|Hm]; [done|]. pose proof (quiet_pt_abort (φ := settled) d s' Hm) as Hq.
    destruct (pt_finishCurrentAsError d s') as [[]?]; [by right|done].
  - destruct Hm as [Hm|Hm]; [by left|]. pose proof (quiet_pt_abort (φ := settled) d s' Hm) as Hq.
    destruct (pt_finishCurrentAsError d s') as [[]?]; [by right|done].
Qed.

(** ** Whole operations *)
Lemma ends_secrets a b c e : ends (checkSecretBackends new_id rfc3339 a b c e).
Proof. unfold checkSecretBackends. destruct e; [|ways]. cbv zeta. apply ends_bind; [ways|]. intros t. ways. Qed.

Lemma ends_compose_file a b c d e : ends (resolveComposeFile new_id rfc3339 a b c d e).
Proof. unfold resolveComposeFile, abort_sync. ways. Qed.

Lemma ends_environment a b l z : ends (load_environment x stackID a b l z).
Proof. unfold load_environment. ways. Qed.

Lemma ends_fetch tr : ends (reconcile_fetch x stackID tr).
Proof. unfold reconcile_fetch, abort_sync. ways. Qed.

Lemma ends_answer {B} (k : bool → M B) : ends (k true) → ends (answer ≫= k).
Proof. intros Hk s Hs. unfold mbind, M_bind, answer. destruct Hs as (A1 & A2 & A3). rewrite A1. by apply Hk. Qed.

Lemma ends_reconcile_render tr f r : ends (reconcile_render x stackID tr f r).
Proof.
  pose proof ends_compose_file. pose proof ends_environment. unfold reconcile_render, abort_sync.
  do 3 (apply ends_bind; [ways|intros ?]). destruct (stackWorkDir _ _ _); [|ways].
  do 4 (apply ends_bind; [ways|intros ?]). cbv zeta. apply ends_answer. change (negb true) with false. cbv iota. ways.
Qed.

Lemma created_or_reused tr d m reused (k : record → M unit) : (∀ rec, closes (k rec)) →
  closes (syncLog ← match reused with
                    | Some rec => mret rec
                    | None => created ← createSyncLog new_id stackID tr d m;
                              match created with inl rec => mret rec | inr err => fail ("failed to create sync log: " +:+ err) end
                    end; k syncLog).
Proof.
  intros Hk. apply closes_bind; [|done]. destruct reused; [ways|].
  eapply triple_bind; [eapply triple_weaken; [apply (created_log anything)|done|done|done]|].
  intros r. apply triple_pure. intros [rec ->]. by apply triple_ret.
Qed.

Lemma closes_reconcile_deploy tr q f r d : closes (reconcile_deploy x stackID tr q f r d).
Proof.
  unfold reconcile_deploy. apply created_or_reused. intros rec. apply closes_bind; [ways|]. intros ?.
  apply closes_deferring. pose proof closes_reconcile_dispatch. ways.
Qed.

Lemma stays_noop tr c m out reused a b l e f : stays (logNoopSyncWithPhases stackID tr c m out reused a b l e f).
Proof. unfold logNoopSyncWithPhases. ways. Qed.

Lemma closes_reconcile_online tr prev q f : settled prev → closes (reconcile_online x stackID tr prev q f).
Proof.
  intros Hp. pose proof ends_wait. pose proof ends_reconcile_render. pose proof closes_reconcile_deploy.
  pose proof stays_noop. unfold reconcile_online. apply closes_bind; [ways|]. intros stack. cbv zeta.
  destruct (_ && _ && _ && _); [by apply closes_status_only|]. do 2 (apply closes_bind; [ways|intros ?]).
  destruct (_ && _ && _); [|done]. apply closes_status; [done|]. ways.
Qed.

(** Queueing leaves "error" alone, and marks every other status pending. *)
Lemma closes_queued op :
  closes (stack ← gets mem; if shouldMarkPendingOnQueue stack then check (saveRecordStatus "pending" op) else mret tt).
Proof.
  intros s Hs. unfold mbind, M_bind, gets. destruct (shouldMarkPendingOnQueue (mem s)) eqn:Hp; [by apply closes_status_only|].
  unfold shouldMarkPendingOnQueue in Hp. apply bool_decide_eq_false_1 in Hp. destruct Hs as (A1 & A2 & A3).
  split_and!; [done..|]. rewrite A2. unfold settled, status. destruct (decide (GetString "status" (mem s) = "error")) as [->|?]; [done|].
  by destruct Hp.
Qed.

Lemma closes_reconcile_offline tr prev f : settled prev → closes (reconcile_offline stackID tr prev f).
Proof.
  intros Hp. pose proof closes_queued. unfold reconcile_offline. destruct (_ || _); [|by apply closes_status_only].
  apply closes_bind; [ways|]. intros [err|]; [|done]. apply closes_bind; [ways|]. intros ?. apply closes_aborts, aborts_marked.
Qed.

Lemma stays_aborts {A} (m : M A) : aborts m → stays m.
Proof. intros Hm. eapply triple_weaken; [apply Hm|intros s; apply calm_any|done|done]. Qed.
Lemma stays_closes {A} (m : M A) : closes m → stays m.
Proof. intros Hm. eapply triple_pre; [apply Hm|intros s; apply calm_any]. Qed.

Lemma stays_secrets a b c e : stays (checkSecretBackends new_id rfc3339 a b c e).
Proof.
  unfold checkSecretBackends. destruct e; [|ways]. cbv zeta. apply stays_bind; [ways|]. intros t.
  apply stays_aborts, aborts_secret. quiet.
Qed.

Lemma stays_record {A} (k : record → M A) : (∀ r, settled (status r) → stays (k r)) → stays (gets mem ≫= k).
Proof. intros Hk s Hs. unfold mbind, M_bind, gets. apply Hk; [|done]. destruct Hs as (A1 & A2 & A3). by rewrite -A2. Qed.

Lemma stays_git tr q : stays (reconcile_git x stackID tr q).
Proof.
  unfold reconcile_git. apply stays_bind; [apply stays_secrets|]. intros ?. apply stays_record. intros r Hr.
  apply settled_prev in Hr. cbv zeta. apply stays_closes. pose proof ends_fetch.
  do 2 (apply closes_bind; [ways|intros ?]). destruct (x_connected _ _);
    [by apply closes_reconcile_online|by apply closes_reconcile_offline].
Qed.

Lemma closes_local_dispatch o tr sum z : closes (local_dispatch x o tr sum z).
Proof.
  pose proof ends_get_compose. unfold local_dispatch. do 2 (apply closes_bind; [ways|intros ?]). destruct (a_err _) as [e|].
  - do 1 (apply closes_bind; [ways|intros ?]). cbv zeta. apply closes_bind; [ways|]. intros [err|]; [apply closes_aborts, aborts_marked|].
    apply closes_mark; [done|ways].
  - do 3 (apply closes_bind; [ways|intros ?]). apply closes_checked. intros r Hr. apply closes_bind; [ways|]. intros ?.
    apply closes_then; [by apply closes_record_success|]. intros ?. ways.
Qed.

Lemma closes_cleanup tr (m : M unit) : closes m → closes (with_cleanup x stackID tr m).
Proof.
  intros Hm s Hs. specialize (Hm s Hs). unfold with_cleanup. destruct (m s) as [r s'].
  destruct (x_cleanup x) as [e|]; [|done].
  match goal with |- context [ignore ?l s'] => assert (quiet settled (ignore l)) as Hq by quiet end.
  destruct r as [|[err|]].
  - specialize (Hq s' Hm). destruct (ignore _ s') as [[]?]; [by right|done].
  - destruct Hm as [[??]|Hm]; [done|]. specialize (Hq s' Hm). destruct (ignore _ s') as [[]?]; destruct err; try done; by right.
  - destruct Hm as [Hm|Hm]; [by left|]. specialize (Hq s' Hm). destruct (ignore _ s') as [[]?]; [by right|done].
Qed.

Lemma closes_local_deploy tr w sum nv ev a b c d r ws : closes (local_deploy x stackID tr w sum nv ev a b c d r ws).
Proof.
  pose proof closes_local_dispatch. unfold local_deploy.
  eapply triple_bind; [eapply triple_weaken; [apply (created_log anything)|done|done|done]|].
  intros res. apply triple_pure. intros [rec ->]. apply closes_bind; [ways|]. intros ?. apply closes_bind; [ways|]. intros ?.
  apply closes_deferring. ways.
Qed.

Lemma closes_local_sync tr w fp prev wd data z : settled prev → closes (local_sync x stackID tr w fp prev wd data z).
Proof.
  intros Hp. pose proof closes_local_deploy. unfold local_sync, abort_sync. destruct (x_write x); [ways|].
  do 2 (apply closes_bind; [ways|intros ?]). cbv zeta. destruct (_ && _ && _); [by apply closes_status_only|]. ways.
Qed.

Lemma stays_local tr : stays (reconcileLocalStack x stackID tr).
Proof.
  unfold reconcileLocalStack, abort_sync. apply stays_bind; [apply stays_secrets|]. intros ?. apply stays_record. intros r Hr.
  apply settled_prev in Hr. cbv zeta. apply stays_closes. case_decide; [ways|].
  destruct (resolveWorker _ _) as [[w fp]|]; [|ways]. destruct (negb _).
  - apply closes_bind; [ways|]. intros [err|]; [|apply closes_queued]. apply closes_bind; [ways|]. intros ?.
    apply closes_aborts, aborts_marked.
  - apply closes_bind; [ways|]. intros ?. apply closes_bind; [unfold local_fetch, abort_sync; ways|]. intros [[data wd] z].
    by apply closes_cleanup, closes_local_sync.
Qed.

Lemma closes_rollback_dispatch o repo z : closes (rollback_dispatch x o repo z).
Proof.
  pose proof ends_get_compose. unfold rollback_dispatch. do 2 (apply closes_bind; [ways|intros ?]). destruct (a_err _) as [e|].
  - unfold rollback_failed. apply closes_bind; [ways|]. intros ?. cbv zeta. apply closes_bind; [ways|].
    intros [err|]; [apply closes_aborts, aborts_marked|]. do 3 (apply closes_bind; [ways|intros ?]).
    apply closes_mark; [done|ways].
  - unfold rollback_succeeded. do 4 (apply closes_bind; [ways|intros ?]).
    eapply triple_bind; [eapply triple_weaken; [apply (saved_repo anything)|done|done|done]|].
    intros err. apply triple_pure. intros ->. apply closes_checked. intros r Hr.
    apply closes_then; [by apply closes_record_success, settled_post|]. intros ?. ways.
Qed.

Lemma ends_rollback_render c : ends (rollback_render x stackID c).
Proof. pose proof ends_compose_file. pose proof ends_environment. unfold rollback_render, abort_sync. ways. Qed.

Lemma stays_rollback c : stays (rollback_loaded x stackID c).
Proof.
  pose proof ends_rollback_render. pose proof closes_rollback_dispatch. unfold rollback_loaded.
  apply stays_bind; [apply stays_secrets|]. intros ?. apply stays_closes. apply closes_bind; [ways|]. intros ?.
  apply closes_bind; [ways|]. intros [f d]. apply closes_bind; [ways|]. intros [rec|err]; [|apply closes_aborts, aborts_marked].
  apply closes_bind; [ways|]. intros ?. apply closes_deferring. ways.
Qed.

Lemma closes_failRedeploy l c z d ca r e : closes (failRedeploy l c z d ca r e).
Proof.
  unfold failRedeploy. do 3 (apply closes_bind; [ways|intros ?]). destruct a1 as [err|]; [apply closes_aborts, aborts_marked|].
  apply closes_bind; [ways|]. intros ?. apply closes_mark; [done|ways].
Qed.

Lemma closes_redeploy_dispatch o p z ws : closes (redeploy_dispatch x o p z ws).
Proof.
  pose proof closes_failRedeploy. unfold redeploy_dispatch. apply closes_bind; [ways|]. intros [c|e]; [|done].
  do 4 (apply closes_bind; [ways|intros ?]). destruct (a_err _) as [e|]; [done|].
  do 3 (apply closes_bind; [ways|intros ?]). apply closes_checked. intros r Hr.
  apply closes_then; [by apply closes_record_success, settled_post|]. intros ?. ways.
Qed.

Lemma stays_redeploy c v n p : stays (redeploy_loaded x stackID c v n p).
Proof.
  pose proof closes_redeploy_dispatch. pose proof closes_failRedeploy. unfold redeploy_loaded.
  apply stays_bind; [apply stays_secrets|]. intros ?. apply stays_closes. do 3 (apply closes_bind; [ways|intros ?]).
  destruct a2 as [repo|]; [|ways]. cbv zeta. apply closes_bind; [ways|]. intros [rec|err]; [|apply closes_aborts, aborts_marked].
  do 2 (apply closes_bind; [ways|intros ?]). apply closes_deferring. unfold redeploy_run. ways.
Qed.

Lemma stays_loaded op : stays (loaded x stackID op).
Proof.
  destruct op; [|apply stays_rollback|apply stays_redeploy]. simpl. unfold reconcile_loaded. apply stays_bind; [ways|].
  intros r. case_decide; [ways|]. destruct (_ && _); [ways|]. case_decide; [apply stays_local|apply stays_git].
Qed.
End flows.

(** C3: When the database answers and nothing is cancelled, an operation on a stack that
    is not "syncing" does not leave it "syncing": every way out, the failures of git, of
    the render, of the worker and of the post-check included, has recorded a settled
    status.  The one exception is a reconcile that has not come back yet because every
    look at the jobs of the repository so far has seen some running. *)
Theorem no_stack_left_syncing `{Platform} (x : externals) (busy : bool) (stackID : string) (op : operation) (s : st) :
  answers s = [] → (∀ n, x_cancelled x n = None) → Forall (λ r, WaitJobs.rd_ctx r = None) (x_rounds x) →
  status (db s) ≠ "syncing" →
  let '(res, s') := run x busy stackID op s in
  (res = inr StillRunning ∧ Forall jobs_running (x_rounds x)) ∨ status (db s') ≠ "syncing".
Proof.
  intros Ha Hc Hr Hs. destruct busy; [by destruct op; right|]. rewrite run_loads.
  unfold load_stack, mbind, M_bind, answer, modify. rewrite Ha. simpl.
  assert (calm settled (set_stack (db s) (db s) s)) as Hcalm by done.
  pose proof (stays_loaded x stackID Hc Hr op _ Hcalm) as Hl.
  destruct (loaded x stackID op _) as [[[]|r] s'].
  - right. apply Hl.
  - destruct Hl as [[-> Hw]|Hl]; [by left|right; apply Hl].
Qed.
