(* ===== verification/ReconcileRuns.v ===== *)
(** * Runs of the reconciler

    A stack followed through several operations on a small platform, the composition of
    the retries with the worker's result cache, and the runs in which the reconciler does
    something else than its comments say. *)
From Stdlib Require Import ZArith.
From S2P Require Import Prelude GoStrings GoPath GoFmt GoValue GoBase64 SafePath Policy ComposeDoc PbRecord PbTable.
From S2P Require Import Overrides ConfigFiles ConfigInject EnvFile ProjectIdentity LintCore LintRules PhaseTracker LintPhase.
From S2P Require Import Health PostCheck ReconcileCore Reconcile ReconcileOps ReconcileLogic.
From S2P Require Import ReconcileSpec ReconcileSettled.
From S2P Require Renderer WaitJobs DurableCommands.

(** ** A small platform *)

(** The marshaller keeps the image of the service, which is all that changes here. *)
Definition image_of (m : gmap string value) : string :=
  default "none" (s ← get_map "services" m; w ← get_map "web" s; get_str "image" w).

Definition demo_doc (image : string) : gmap string value :=
  {[ "name" := VStr "shop"; "services" := VMap {[ "web" := VMap {[ "image" := VStr image; "restart" := VStr "always" ]} ]} ]}.

#[local] Instance demo : Platform := {|
  p_range := some_range; p_unicode := λ _, true;
  yaml_parse := λ image, Some (VMap (demo_doc image)); yaml_marshal := λ m, Some (image_of m);
  sha256 := λ s, s; hmac := λ s, s; resolve := λ _ _, inl []; workspace := "/repos"; stackStorage := "/data";
  since := λ _, None; unmarshal := λ _ l, (false, l);
  decode_inspect := λ sha, Some {| PostCheck.CommitSHA := sha; CommitSHAs := [sha] |};
  load_overrides := λ _, ∅; show_elapsed := λ _, "1s"; corrupt_input := λ _, "illegal base64 data";
  new_id := λ l, "log" +:+ Itoa (Z.of_nat (length l)); rfc3339 := λ _, "now"; pull_timeout := 300; default_timeout := 300 |}.

Definition shop : record := {| Id := "s1"; fields :=
  {[ "name" := VStr "shop"; "worker" := VStr "w1"; "repository" := VStr "r1"; "status" := VStr "active";
     "last_synced_at" := VStr "then"; "checksum" := VStr "old"; "current_version" := VNum "1";
     "deployed_commit" := VStr "c1"; "deployed_version" := VNum "1"; "deployed_checksum" := VStr "old" ]} |}.

Definition repo_row : record := {| Id := "r1"; fields :=
  {[ "name" := VStr "apps"; "git_url" := VStr "git"; "last_commit_sha" := VStr "c2"; "last_fetched_at" := VStr "then" ]} |}.

Definition worker_row : record := {| Id := "w1"; fields := {[ "fingerprint" := VStr "f" ]} |}.

(** The repository has moved on to commit [c2], which the worker runs as [answer] says. *)
Definition meets (online : bool) (answer : CommandResult + dispatch_failure) (cancelled : option string) : externals := {|
  x_backends := None; x_clone := λ _, None; x_git_paused := λ _, None; x_head := inl "c2"; x_git_dir := true; x_opens := true;
  x_reset := None; x_definition := None; x_worker := λ _, Some worker_row; x_connected := λ _, online;
  x_inspect := Replied "c1" ""; x_active := WaitJobs.PollActive 0; x_rounds := []; x_moved := λ l, l; x_message := λ _, "";
  x_compose_exists := λ _, true; x_env := inl ["A=1"]; x_sops := inl ∅; x_lint := inl (demo_doc "shop:2");
  x_policy := λ _, inl open_policy; x_config := λ _, inl (demo_doc "shop:2"); x_stacks := λ _, inl [shop];
  x_storage := λ _, Renderer.all_ok; x_registry := λ _ _ _, inl ("", []); x_dispatch := λ _ _, answer;
  x_cancelled := λ _, cancelled; x_replies := λ _, DispatchFailed "no status"; x_interrupted := λ _, None;
  x_timeout_inspect := Replied "c1" ""; x_acked := λ _, None; x_read := answer; x_mkdir := inl "/tmp/w"; x_write := None;
  x_cleanup := None |}.

Definition success : CommandResult + dispatch_failure :=
  inl {| Output := "done"; Error := ""; TimedOut := false; ComposeUpMs := 5 |}.
Definition refusal : CommandResult + dispatch_failure :=
  inl {| Output := "pulling"; Error := "image not found"; TimedOut := false; ComposeUpMs := 0 |}.
Definition expiry : CommandResult + dispatch_failure := inr {| deadline := true; de_text := "context deadline exceeded" |}.

Definition idle : st := {|
  db := shop; mem := shop; repos := [repo_row]; logs := []; tracker := None;
  phases := {| rows := []; metrics := [] |};
  disk := {| Renderer.files := {[ "/data/s1/v1.yml" := "shop:1" ]}; Renderer.revisions := [] |};
  config_rows := []; queued := []; sent := []; moves := []; notes := []; answers := []; clocks := [] |}.

(** What an operator sees of a run: the error returned, the status, the commit recorded
    as deployed and the number of commands sent so far. *)
Definition seen (r : (unit + ret) * st) : option string * string * string * nat :=
  (match r.1 with inr (Returns (Some e)) => Some e | _ => None end, status (db r.2), GetString "deployed_commit" (db r.2),
   length (sent r.2)).

Abbreviation sync x tr s := (run x false "s1" (Reconcile tr 0) s).
Abbreviation ok := (meets true success None).
Abbreviation refused_deploy := (meets true refusal None).
Abbreviation offline := (meets false success None).

Example sync_deploys : seen (sync ok "webhook" idle) = (None, "active", "c2", 1).
Proof. vm_compute. reflexivity. Qed.

Lemma no_stack_left_syncing_witness :
  let '(res, s') := run refused_deploy false "s1" (Reconcile "webhook" 0) idle in
  (res = inr StillRunning ∧ Forall jobs_running (x_rounds refused_deploy)) ∨ status (db s') ≠ "syncing".
Proof.
  apply (no_stack_left_syncing refused_deploy false "s1" (Reconcile "webhook" 0) idle);
    [reflexivity|intros n; reflexivity|constructor|discriminate].
Defined.

(** ** Retries and the worker's cache *)

(** When an attempt follows another, the two commands have the same id; so a worker that
    finished the first one within its retention time answers the second from its cache
    and runs nothing. *)
Theorem retry_is_not_executed `{Platform} (x : externals) (busy : bool) (stackID : string) (op : operation) (s : st)
    (new : list (command * (CommandResult + dispatch_failure))) (i : nat) p q messageID w e :
  sent (run x busy stackID op s).2 = sent s ++ new → new !! i = Some p → new !! S i = Some q →
  CommandID (base_of p.1) ∉ DurableCommands.ActiveCommands w →
  DurableCommands.completedDurableCommands w !! CommandID (base_of p.1) = Some e → DurableCommands.fresh e w = true →
  ¬ confirmed p.2
  ∧ let '(execute, w') := DurableCommands.beginDurableCommand (CommandID (base_of q.1)) messageID w in
    execute = false ∧ last (DurableCommands.sent w') = Some (DurableCommands.SentResult (DurableCommands.e_result e)).
Proof.
  intros Hs Hp Hq Ha Hc Hf. destruct (run_dispatched x busy stackID op s) as (log & new' & H1 & H2 & H3 & H4).
  assert (new' = new) as -> by (apply (app_inv_head (sent s)); congruence).
  pose proof (Forall_lookup_1 _ _ _ _ H3 Hp) as [Hip _]. pose proof (Forall_lookup_1 _ _ _ _ H3 Hq) as [Hiq _].
  split; [apply (H4 i p Hp); by apply lookup_lt_Some in Hq|]. rewrite Hiq -Hip.
  rewrite (DurableCommands.cached_is_replayed _ _ _ e); [|done..]. split; [done|]. simpl. by rewrite last_snoc.
Qed.

Definition first_try : command := Deploy
  {| CommandID := "log0"; StackID := "s1"; CommitSHA := "c2"; Trigger := "webhook"; QueueTotal := 0;
     ComposeFileB64 := "c2hvcDoy"; EnvFileB64 := "QT0xCg=="; ForcePull := false; RemoveOrphans := true; RegistryAuthB64 := "";
     InsecureRegistries := []; PullTimeoutSeconds := 300; UpTimeoutSeconds := 300 |}.
Definition kept : DurableCommands.durableResultEntry :=
  {| DurableCommands.e_result := {| DurableCommands.CommandID := "log0"; DurableCommands.Output := "pulling";
       DurableCommands.Error := "image not found" |}; DurableCommands.e_at := 0 |}.
Definition answering : DurableCommands.shared := DurableCommands.set_cache {[ "log0" := kept ]} DurableCommands.started.

Lemma retry_is_not_executed_witness :
  ¬ confirmed refusal
  ∧ let '(execute, w') := DurableCommands.beginDurableCommand (CommandID (base_of first_try)) "m2" answering in
    execute = false ∧ last (DurableCommands.sent w') = Some (DurableCommands.SentResult (DurableCommands.e_result kept)).
Proof.
  apply (retry_is_not_executed refused_deploy false "s1" (Reconcile "webhook" 0) idle (repeat (first_try, refusal) 3) 0
           (first_try, refusal) (first_try, refusal) "m2" answering kept).
  - vm_compute. reflexivity.
  - reflexivity.
  - reflexivity.
  - apply not_elem_of_empty.
  - reflexivity.
  - reflexivity.
Defined.

(** ** Runs against the comments *)

(** A deploy the worker refused is not tried again: the render stored its checksum before
    the deploy, so the next run finds the compose file unchanged, sends nothing, returns
    no error and keeps the old commit. *)
Theorem failed_deploy_is_not_retried :
  seen (sync refused_deploy "webhook" idle) = (Some "image not found", "error", "c1", 3)
  ∧ seen (sync ok "cron" (sync refused_deploy "webhook" idle).2) = (None, "error", "c1", 3)
  ∧ seen (sync ok "manual" (sync refused_deploy "webhook" idle).2) = (None, "error", "c1", 3).
Proof. vm_compute. done. Qed.

(** A failed stack whose next sync is queued for an offline worker is marked "pending",
    and the replay, which deploys nothing, then reports it "active". *)
Theorem failed_stack_turns_active :
  let failed := (sync refused_deploy "webhook" idle).2 in
  let waiting := (sync offline "manual" failed).2 in
  status (db failed) = "error" ∧ seen (sync offline "manual" failed) = (None, "pending", "c1", 3)
  ∧ seen (sync ok "cron" waiting) = (None, "active", "c1", 3).
Proof. vm_compute. done. Qed.

(** When the deadline of the whole reconcile passes during the first attempt, the pause
    before the retry returns at once: nothing is recorded, the stack stays "syncing", its
    log stays "running", and the next run restores "syncing". *)
Theorem expired_reconcile_stays_syncing :
  let x := meets true expiry (Some "context deadline exceeded") in
  let left := (sync x "cron" idle).2 in
  seen (sync x "cron" idle) = (Some "context deadline exceeded", "syncing", "c1", 1)
  ∧ GetString "status" <$> logs left = ["running"]
  ∧ seen (sync ok "cron" left) = (None, "syncing", "c1", 1).
Proof. vm_compute. done. Qed.

(** A redeploy closes the render phase when it starts the secrets phase, so the detail of
    the render is not recorded. *)
Theorem redeploy_render_detail_is_lost :
  let timeline := rows (phases (run ok false "s1" (ForceRedeploy true false false false) idle).2) in
  (λ r, (r_phase r, r_status r, r_detail r)) <$> filter (λ r, r_phase r = PhaseRender ∨ r_phase r = PhaseSecretsFetch) timeline
  = [(PhaseRender, PhaseStatusSuccess, ""); (PhaseSecretsFetch, PhaseStatusSuccess, "")].
Proof. vm_compute. reflexivity. Qed.
