(* ===== verification/Transfer.v ===== *)
(** * internal/sync/reconciler.go: TransferStack

    Moving a stack to another worker: the deployed revision is deployed on the target,
    then torn down on the source, and the record is pointed at the target.  The answers
    of the two workers are the record [journey]; the rest is as in [Reconcile]. *)
From Stdlib Require Import ZArith.
From S2P Require Import Prelude GoStrings GoPath GoFmt GoValue GoBase64 SafePath Policy ComposeDoc PbRecord PbTable.
From S2P Require Import Overrides ConfigFiles ConfigInject EnvFile ProjectIdentity LintCore LintRules PhaseTracker LintPhase.
From S2P Require Import Health PostCheck ReconcileCore Reconcile ReconcileOps ReconcileLogic.
From S2P Require Import ReconcileSpec.
From S2P Require Renderer WaitJobs DurableCommands.

Record journey := {
  j_stacks : list record + string;                       (* the stacks compared for project names *)
  j_namesakes : option (list record);                    (* stacks of this name on the target *)
  j_probe : CommandResult + dispatch_failure; j_containers : string → option (Z * list string);
  j_deploy : CommandResult + dispatch_failure; j_cleanup : CommandResult + dispatch_failure;
  j_teardown : CommandResult + dispatch_failure }.

(** The result and the error of a dispatch. *)
Definition parts (r : CommandResult + dispatch_failure) : CommandResult * option dispatch_failure :=
  match r with inl res => (res, None) | inr f => (no_result, Some f) end.

(** [%v] of an error. *)
Definition show_err (e : option string) : string := default "<nil>" e.

Section transfer.
Context `{Platform} (x : externals) (j : journey).

(** What is known before the transfer starts: the compose file, the environment, the
    registry credentials, the hosts. *)
Record cargo := {
  c_content : string; c_env : string; c_auth : string * list string; c_source : string; c_target : string }.

(** The project name, recorded when it was not; an error leaves the stack as it is. *)
Definition transfer_identity (stackID targetWorkerID : string) : M unit :=
  stack ← gets mem; d ← gets disk;
  match DeployedProjectName yaml_parse stackStorage (Renderer.read_revision d) stack with
  | inr err => fail err
  | inl projectName =>
      (if decide (GetString "compose_project_name" stack = "") then
         let desiredName := SanitizeProjectName (GetString "name" stack) in
         if decide (projectName ≠ desiredName)
         then fail ("stack Compose identity must migrate from " +:+ Quote projectName +:+ " to " +:+ Quote desiredName
                    +:+ " before transfer; redeploy the stack first")
         else on_stack (SetStr "compose_project_name" projectName);;
              check (saveRecord "persist compose project identity before transfer")
       else mret tt);;
      match Renderer.ensureProjectNameUnique (j_stacks j) stackID targetWorkerID projectName with
      | Some err => fail ("target worker project identity conflict: " +:+ err)
      | None => mret tt
      end
  end.

Definition transfer_environment : M (list string) :=
  stack ← gets mem;
  match x_env x with
  | inr err => fail ("failed to load env vars: " +:+ err)
  | inl envVars =>
      let repoID := GetString "repository" stack in
      if decide (repoID = "") then mret envVars else
      found ← find_repo repoID;
      match found with
      | None => fail ("failed to load repository for SOPS secrets: " +:+ db_error)
      | Some _ =>
          match stackWorkDir workspace stack repoID with
          | inr err => fail ("failed to resolve work dir for SOPS secrets: " +:+ err)
          | inl _ =>
              match x_sops x with
              | inr err => fail ("failed to decrypt SOPS secrets file: " +:+ err)
              | inl values => mret (overlaySopsEnv envVars values)
              end
          end
      end
  end.

(** The checks before anything is written. *)
Definition transfer_cargo (stackID sourceWorkerID targetWorkerID : string) : M cargo :=
  stack ← gets mem;
  let deployedVersion := GetInt "deployed_version" stack in
  if decide (deployedVersion = 0%Z)
  then fail "stack has no deployed revision — sync the stack successfully before transferring" else
  d ← gets disk;
  match Renderer.files d !! GetRevisionFilePath stackStorage stackID deployedVersion with
  | None => fail ("failed to read deployed compose revision v" +:+ Itoa deployedVersion)
  | Some content =>
      if decide (content = "")
      then fail "stack has no deployed compose file — sync the stack successfully before transferring" else
      envVars ← transfer_environment;
      match x_registry x 1 content envVars with
      | inr err => fail ("failed to resolve registry credentials for transfer: " +:+ err)
      | inl auth =>
          match buildEnvFileB64 envVars with
          | inr err => fail ("failed to serialize env vars for transfer: " +:+ err)
          | inl envFileB64 =>
              match x_worker x sourceWorkerID, x_worker x targetWorkerID with
              | None, _ => fail ("failed to find source worker " +:+ sourceWorkerID)
              | _, None => fail ("failed to find target worker " +:+ targetWorkerID)
              | Some source, Some target =>
                  mret {| c_content := content; c_env := envFileB64; c_auth := auth;
                          c_source := GetString "hostname" source; c_target := GetString "hostname" target |}
              end
          end
      end
  end.

(** A pre-flight check refused: the log is closed and the status restored. *)
Definition preflight_failed (log prevStatus errMsg op : string) (start : Z) : M unit :=
  ms ← since_ms start;
  upd ← updateSyncLog log "error" ("error: " +:+ errMsg +:+ newline) ms;
  stack ← gets mem;
  match upd with
  | Some err => ignore (markDeployError rfc3339 err (GetString "deployed_commit" stack));; fail err
  | None =>
      ms ← since_ms start;
      notify SyncError log "transfer" "" ms errMsg;;
      check (saveRecordStatus prevStatus op);;
      fail ("transfer failed: " +:+ errMsg)
  end.

(** What the probe of the target found. *)
Definition probe_finding (c : cargo) : string :=
  let '(res, err) := parts (j_probe j) in
  match err with
  | Some _ => ""
  | None =>
      if decide (Error res = "" ∧ Output res ≠ "") then
        match j_containers j (Output res) with
        | Some (count, services) =>
            if decide (0 < count)%Z
            then "target agent " +:+ c_target c +:+ " already has " +:+ Itoa count +:+ " container(s) for this stack (services: "
                 +:+ Join ", " services +:+ ") — remove them manually before transferring"
            else ""
        | None => ""
        end
      else ""
  end.

Definition transfer_command (stackID log : string) (stack : record) (c : cargo) : DeployCommand :=
  let '(forcePull, removeOrphans) := resolveComposeRuntimeFlags stack in
  {| CommandID := log; StackID := stackID; CommitSHA := GetString "deployed_commit" stack; Trigger := "transfer";
     QueueTotal := 0; ComposeFileB64 := EncodeToString (c_content c); EnvFileB64 := c_env c; ForcePull := forcePull;
     RemoveOrphans := removeOrphans; RegistryAuthB64 := (c_auth c).1; InsecureRegistries := (c_auth c).2;
     PullTimeoutSeconds := pull_timeout; UpTimeoutSeconds := deployUpTimeoutSeconds default_timeout stack |}.

(** The deploy on the target failed: what it may have started is removed there. *)
Definition transfer_failed (stackID targetWorkerID log attemptedCommit output : string) (c : cargo) (start : Z) : M unit :=
  let '(res, dispatchErr) := parts (j_deploy j) in
  let deployErrMsg := show_err (de_text <$> dispatchErr)
                      +:+ show_err (if decide (Error res = "") then None else Some (Error res)) in
  cleaned ← (if x_connected x targetWorkerID then
               modify (add_move (TornDown targetWorkerID ("teardown-cleanup-" +:+ stackID) (j_cleanup j)));;
               let '(cres, cerr) := parts (j_cleanup j) in
               mret (if decide (cerr ≠ None ∨ Error cres ≠ "")
                     then "cleanup teardown failed: " +:+ show_err (de_text <$> cerr) +:+ " " +:+ Error cres +:+ newline
                     else Output cres +:+ "cleanup teardown succeeded." +:+ newline)
             else mret ("target agent offline — skipping cleanup." +:+ newline));
  ms ← since_ms start;
  upd ← updateSyncLog log "error"
          (output +:+ Output res +:+ newline +:+ "error: " +:+ deployErrMsg +:+ newline +:+ newline
           +:+ "=== Step 2/2: Cleanup on target agent (" +:+ c_target c +:+ ") ===" +:+ newline +:+ cleaned) ms;
  match upd with
  | Some err => ignore (markDeployError rfc3339 err attemptedCommit);; fail err
  | None =>
      ms ← since_ms start;
      notify SyncError log "transfer" "" ms deployErrMsg;;
      check (markDeployFailure rfc3339 (deployFailureReason res dispatchErr) "error" deployErrMsg attemptedCommit);;
      fail ("transfer failed: " +:+ deployErrMsg)
  end.

Definition transfer_teardown (stackID sourceWorkerID : string) (c : cargo) : M string :=
  let title := newline +:+ "=== Step 2/2: Teardown on source agent (" +:+ c_source c +:+ ") ===" +:+ newline in
  if bool_decide (sourceWorkerID ≠ "") && x_connected x sourceWorkerID then
    modify (add_move (TornDown sourceWorkerID ("teardown-transfer-" +:+ stackID) (j_teardown j)));;
    let '(res, err) := parts (j_teardown j) in
    mret (title +:+ Output res
          +:+ (if decide (err ≠ None ∨ Error res ≠ "")
               then "teardown failed: " +:+ show_err (de_text <$> err) +:+ " " +:+ Error res
                    +:+ " — containers may be orphaned." +:+ newline
               else "teardown on " +:+ c_source c +:+ ": done." +:+ newline))
  else mret (title +:+ "source agent offline — skipping teardown." +:+ newline).

(** The post-check of a transfer: skipped when the work dir does not resolve. *)
Definition transfer_check (content : string) : M postCheckResult :=
  stack ← gets mem;
  match stackWorkDir workspace stack (GetString "repository" stack) with
  | inl _ => post_check x content
  | inr _ =>
      let result := {| pc_Status := "active"; Detail := "post-check skipped: could not resolve work dir for status query";
                       Skipped := true |} in
      pt_start PhasePostCheck;; pt_finish PhasePostCheck PhaseStatusSkipped (Detail result);; mret result
  end.

Definition moved_fields (targetWorkerID status synced : string) (stack : record) : record :=
  clearLastError (SetStr "last_synced_at" synced (SetStr "status" status (SetStr "worker" targetWorkerID stack))).

Definition transfer_done (stackID sourceWorkerID targetWorkerID log attemptedCommit output : string) (c : cargo)
    (start dispatchStart : Z) : M unit :=
  let '(res, _) := parts (j_deploy j) in
  pt_finish PhaseDispatch PhaseStatusSuccess "";;
  pt ← gets tracker;
  recordWorkerAckAndComposeUpPhases pt (x_acked x log) dispatchStart (ComposeUpMs res);;
  torn ← transfer_teardown stackID sourceWorkerID c;
  let output := output +:+ Output res +:+ "deploy on " +:+ c_target c +:+ ": done." +:+ newline +:+ torn in
  duration ← since_ms start;
  result ← transfer_check (c_content c);
  let output := output +:+ newline +:+ "[post-check] " +:+ Detail result +:+ newline in
  synced ← now;
  on_stack (moved_fields targetWorkerID (pc_Status result) (rfc3339 synced));;
  saved ← saveRecord "complete transfer";
  match saved with
  | Some err =>
      ignore (updateSyncLog log "error" ("transfer succeeded but failed to persist stack state: " +:+ err) duration);; fail err
  | None =>
      upd ← updateSyncLog log (if decide (pc_Status result = "active") then "success" else pc_Status result) output duration;
      match upd with
      | Some err => ignore (markDeployError rfc3339 err attemptedCommit);; fail err
      | None => notify_result log "transfer" "" result duration
      end
  end.

(** From the sync log on. *)
Definition transfer_run (stackID sourceWorkerID targetWorkerID prevStatus log : string) (c : cargo) : M unit :=
  pt ← gets tracker;
  pt_recordSkipped pt PhaseGitFetch "n/a: transfer reuses last rendered compose";;
  pt_recordSkipped pt PhaseLint "n/a: transfer reuses last rendered compose";;
  pt_recordSkipped pt PhaseRender "n/a: transfer reuses last rendered compose";;
  pt_recordSkipped pt PhasePolicyCheck "n/a: transfer";;
  pt_start PhaseDispatch;;
  stack ← gets mem;
  let attemptedCommit := GetString "deployed_commit" stack in
  notify SyncStarted log "transfer" attemptedCommit 0 "";;
  start ← now;
  if decide (default [] (j_namesakes j) ≠ []) then
    preflight_failed log prevStatus ("a stack named '" +:+ GetString "name" stack +:+ "' already exists on target agent " +:+ c_target c)
      "restore status after transfer validation failure" start
  else
    modify (add_move (Probed targetWorkerID ("probe-" +:+ stackID) (j_probe j)));;
    let finding := probe_finding c in
    if decide (finding ≠ "") then preflight_failed log prevStatus finding "restore status after transfer probe failure" start
    else
      let output := "=== Step 1/2: Deploy on target agent (" +:+ c_target c +:+ ") ===" +:+ newline in
      dispatchStart ← now;
      modify (add_move (Deployed targetWorkerID (transfer_command stackID log stack c) (j_deploy j)));;
      let '(res, dispatchErr) := parts (j_deploy j) in
      if decide (dispatchErr ≠ None ∨ Error res ≠ "")
      then transfer_failed stackID targetWorkerID log attemptedCommit output c start
      else transfer_done stackID sourceWorkerID targetWorkerID log attemptedCommit output c start dispatchStart.

Definition transfer_loaded (stackID targetWorkerID : string) : M unit :=
  stack ← gets mem;
  let attemptedCommit := GetString "deployed_commit" stack in
  checkSecretBackends new_id rfc3339 stackID "transfer" attemptedCommit (x_backends x);;
  let sourceWorkerID := GetString "worker" stack in
  if decide (sourceWorkerID = "") then fail "stack has no worker assigned"
  else if decide (sourceWorkerID = targetWorkerID) then fail "target worker is the same as the current worker"
  else
    transfer_identity stackID targetWorkerID;;
    c ← transfer_cargo stackID sourceWorkerID targetWorkerID;
    stack ← gets mem;
    let prevStatus := GetString "status" stack in
    check (saveRecordStatus "syncing" "start transfer");;
    created ← createSyncLog new_id stackID "transfer" attemptedCommit (c_source c +:+ " → " +:+ c_target c);
    match created with
    | inr err => ignore (markSyncError rfc3339 err attemptedCommit);; fail err
    | inl syncLog =>
        modify (λ s, set_phases (Some (newPhaseTracker (Id syncLog))) (phases s) s);;
        deferring "transfer aborted" (transfer_run stackID sourceWorkerID targetWorkerID prevStatus (Id syncLog) c)
    end.

Definition TransferStack (busy : bool) (stackID targetWorkerID : string) : M unit :=
  if busy then fail ("stack " +:+ stackID +:+ " already syncing") else load_stack;; transfer_loaded stackID targetWorkerID.
End transfer.

(** ** What a transfer does to a stack

    The containers on the source are torn down only after the target confirmed the very
    revision that was deployed, and the record follows only then. *)
Definition worker_of (r : record) : option value := fields r !! "worker".

Section spec.
Context `{Platform} (x : externals) (j : journey) (stackID target : string) (r0 : record) (l : list move) (w : Renderer.world).

Abbreviation source := (GetString "worker" r0).

(** A teardown on the source. *)
Definition tears_source (m : move) : Prop := ∃ id r, m = TornDown source id r.

(** The command carries the stack's deployed commit and the stored file of its version. *)
Definition deployed_command (c : DeployCommand) : Prop :=
  StackID c = stackID ∧ CommitSHA c = GetString "deployed_commit" r0
  ∧ ∃ content, Renderer.files w !! GetRevisionFilePath stackStorage stackID (GetInt "deployed_version" r0) = Some content
      ∧ ComposeFileB64 c = EncodeToString content.

(** The commands of a transfer so far, and the worker recorded: nothing was torn down on
    the source and the record stays, or the target confirmed the deploy and only then the
    source was torn down. *)
Definition lawful (new : list move) (worker : option value) : Prop :=
  (worker = worker_of r0 ∧ Forall (λ m, ¬ tears_source m) new)
  ∨ ∃ id probe cmd r rest, new = Probed target id probe :: Deployed target cmd r :: rest ∧ confirmed r ∧ deployed_command cmd
      ∧ Forall tears_source rest ∧ (worker = worker_of r0 ∨ worker = Some (VStr target)).

(** Before the target confirmed. *)
Definition home (new : list move) (s : st) : Prop :=
  moves s = l ++ new ∧ disk s = w ∧ (worker_of (db s) = worker_of r0 ∧ deployed (db s) = deployed r0)
  ∧ (worker_of (mem s) = worker_of r0 ∧ deployed (mem s) = deployed r0).

Definition either_place (r : record) : Prop :=
  (worker_of r = worker_of r0 ∨ worker_of r = Some (VStr target)) ∧ deployed r = deployed r0.

(** Afterwards. *)
Definition away (id : string) probe (cmd : DeployCommand) r (s : st) : Prop :=
  (∃ rest, moves s = l ++ Probed target id probe :: Deployed target cmd r :: rest ∧ Forall tears_source rest)
  ∧ either_place (db s) ∧ either_place (mem s).

Definition kept (s : st) : Prop := ∃ new, moves s = l ++ new ∧ lawful new (worker_of (db s)) ∧ deployed (db s) = deployed r0.

Lemma place_books r r' : books_only r r' → worker_of r' = worker_of r.
Proof. intros Hb. apply Hb. by apply (bool_decide_unpack _). Qed.

Lemma home_stable new : stable (home new).
Proof.
  split; unfold home; simpl; intros; destruct_and?; split_and?; try done; try congruence;
    [rewrite (place_books (mem s))|rewrite (deployed_books (mem s))]; done.
Qed.

Lemma away_stable id probe cmd r : stable (away id probe cmd r).
Proof.
  split; unfold away; simpl; try tauto. intros r' s (Hm & Hdb & Hmem) Hb. split_and!; [done|done|].
  unfold either_place in *. by rewrite (place_books (mem s) r' Hb) (deployed_books (mem s) r' Hb).
Qed.

Lemma home_kept new s : Forall (λ m, ¬ tears_source m) new → home new s → kept s.
Proof. intros Hn (Hm & _ & (Hp & Hd) & _). exists new. split_and!; [done| |done]. by left. Qed.

Lemma away_kept id probe cmd r s : confirmed r → deployed_command cmd → away id probe cmd r s → kept s.
Proof.
  intros Hc Hd ((rest & Hm & Hr) & (Hp & Hdb) & _). eexists. split_and!; [exact Hm| |done]. right.
  by exists id, probe, cmd, r, rest.
Qed.

Lemma home_move new m : triple (home new) (modify (add_move m)) (λ _, home (new ++ [m])) (λ _ _, False).
Proof. intros s (H1 & H2 & H3 & H4). unfold modify, home. simpl. rewrite H1 app_assoc. done. Qed.

Lemma away_move id probe cmd r tid tr : keeps (away id probe cmd r) (modify (add_move (TornDown source tid tr))).
Proof.
  apply keeps_modify. intros s ((rest & Hm & Hr) & Hdb & Hmem). split_and!; [|done|done].
  exists (rest ++ [TornDown source tid tr]). simpl. rewrite Hm. split; [by rewrite -app_assoc|].
  apply Forall_app_2; [done|]. apply Forall_singleton. by eexists _, _.
Qed.

Lemma away_moved id probe cmd r status synced : keeps (away id probe cmd r) (on_stack (moved_fields target status synced)).
Proof.
  apply keeps_modify. intros s (Hm & Hdb & Hmem). split_and!; [done|done|]. simpl. split.
  - right. unfold worker_of, moved_fields, clearLastError, SetStr.
    by repeat first [rewrite fields_SetField_eq | rewrite fields_SetField_ne; [|done]].
  - unfold moved_fields, clearLastError, SetStr. rewrite !deployed_set; try done. apply Hmem.
Qed.

(** ** The parts of a transfer *)
Definition same_deploy (r : record) : Prop := worker_of r = worker_of r0 ∧ deployed r = deployed r0.

Lemma same_worker r : same_deploy r → GetString "worker" r = source.
Proof. intros [Hp _]. unfold worker_of in Hp. unfold GetString. by rewrite Hp. Qed.
Lemma same_commit r : same_deploy r → GetString "deployed_commit" r = GetString "deployed_commit" r0.
Proof. intros [_ Hd]. injection Hd as E1 E2 E3. unfold GetString. by rewrite E1. Qed.
Lemma same_version r : same_deploy r → GetInt "deployed_version" r = GetInt "deployed_version" r0.
Proof. intros [_ Hd]. injection Hd as E1 E2 E3. unfold GetInt. by rewrite E2. Qed.

Lemma home_record {A} new (k : record → M A) Q E : (∀ r, same_deploy r → triple (home new) (k r) Q E) →
  triple (home new) (gets mem ≫= k) Q E.
Proof. intros Hk s Hs. apply (Hk (mem s)); [apply Hs|done]. Qed.

Lemma home_disk {A} new (k : Renderer.world → M A) Q E : triple (home new) (k w) Q E → triple (home new) (gets disk ≫= k) Q E.
Proof. intros Hk s Hs. unfold mbind, M_bind, gets. rewrite (proj1 (proj2 Hs)). by apply Hk. Qed.

Lemma keeps_identity new : keeps (home new) (transfer_identity j stackID target).
Proof. pose proof (home_stable new). unfold transfer_identity. keeps. Qed.

Lemma keeps_environment new : keeps (home new) (transfer_environment x).
Proof. pose proof (home_stable new). unfold transfer_environment. keeps. Qed.

Lemma keeps_preflight new log prev e op z : keeps (home new) (preflight_failed log prev e op z).
Proof. pose proof (home_stable new). unfold preflight_failed. keeps. Qed.

Lemma cargo_spec new src : triple (home new) (transfer_cargo x stackID src target)
  (λ c s, home new s ∧ Renderer.files w !! GetRevisionFilePath stackStorage stackID (GetInt "deployed_version" r0) = Some (c_content c))
  (λ _, home new).
Proof.
  unfold transfer_cargo. apply home_record. intros r Hr. cbv zeta. rewrite (same_version r Hr).
  case_decide; [by apply triple_leave|].
  apply home_disk.
  destruct (Renderer.files w !! _) as [content|]; [|by apply triple_leave]. case_decide; [by apply triple_leave|].
  apply triple_step; [apply keeps_environment|done|]. intros env.
  destruct (x_registry x 1 content env) as [auth|]; [|by apply triple_leave].
  destruct (buildEnvFileB64 env) as [b64|]; [|by apply triple_leave].
  destruct (x_worker x src) as [a|], (x_worker x target) as [b|]; try by apply triple_leave.
  apply triple_ret. intros s Hs. by split.
Qed.

Lemma command_deployed log r c : same_deploy r →
  Renderer.files w !! GetRevisionFilePath stackStorage stackID (GetInt "deployed_version" r0) = Some (c_content c) →
  deployed_command (transfer_command stackID log r c).
Proof.
  intros Hr Hf. unfold transfer_command, deployed_command. destruct (resolveComposeRuntimeFlags r). simpl.
  split_and!; [done|by apply same_commit|]. by exists (c_content c).
Qed.

Lemma keeps_transfer_done id probe cmd r log c out cg z1 z2 :
  keeps (away id probe cmd r) (transfer_done x j stackID source target log c out cg z1 z2).
Proof.
  pose proof (away_stable id probe cmd r) as Hst. pose proof (away_move id probe cmd r) as Hm.
  pose proof (away_moved id probe cmd r) as Hmv. unfold transfer_done, transfer_teardown, transfer_check. keeps.
Qed.

Lemma transfer_failed_spec new log c out cg z : Forall (λ m, ¬ tears_source m) new → source ≠ target →
  triple (home new) (transfer_failed x j stackID target log c out cg z) (λ _, kept) (λ _, kept).
Proof.
  intros Hn Hne. unfold transfer_failed. destruct (parts (j_deploy j)) as [res err]. cbv zeta.
  set (m := TornDown target ("teardown-cleanup-" +:+ stackID) (j_cleanup j)).
  assert (Forall (λ m, ¬ tears_source m) (new ++ [m])) as Hn'.
  { apply Forall_app_2; [done|]. apply Forall_singleton. intros (id & r & [= Ht _ _]). by rewrite Ht in Hne. }
  assert (∀ new', Forall (λ m, ¬ tears_source m) new' → stable (home new')) as Hst by (intros; apply home_stable).
  destruct (x_connected x target).
  - eapply (triple_bind _ _ _ (λ _, home (new ++ [m]))).
    + eapply triple_bind; [eapply triple_weaken; [apply home_move|done|done|done]|]. intros ?.
      destruct (parts (j_cleanup j)). by apply triple_ret.
    + intros cl. pose proof (home_stable (new ++ [m])). apply triple_final; [keeps|intros s; by apply home_kept].
  - pose proof (home_stable new). apply triple_final; [keeps|intros s; by apply home_kept].
Qed.

Lemma transfer_run_spec prev log c : source ≠ target →
  Renderer.files w !! GetRevisionFilePath stackStorage stackID (GetInt "deployed_version" r0) = Some (c_content c) →
  triple (home []) (transfer_run x j stackID source target prev log c) (λ _, kept) (λ _, kept).
Proof.
  intros Hne Hf. pose proof (home_stable []) as Hst. unfold transfer_run.
  assert (∀ s, home [] s → kept s) as Hk by (intros s; apply home_kept; constructor).
  do 6 (apply triple_step; [keeps|intros _; exact Hk|]; intros ?). apply home_record. intros r Hr. cbv zeta.
  do 2 (apply triple_step; [keeps|intros _; exact Hk|]; intros ?).
  case_decide; [apply triple_final; [apply keeps_preflight|exact Hk]|].
  eapply triple_bind; [eapply triple_weaken; [apply (home_move [])|done|done|done]|]. intros ?. simpl.
  set (p := Probed target ("probe-" +:+ stackID) (j_probe j)).
  assert (Forall (λ m, ¬ tears_source m) [p]) as Hp by (apply Forall_singleton; by intros (?&?&?)).
  assert (∀ s, home [p] s → kept s) as Hkp by (intros s; by apply home_kept). pose proof (home_stable [p]) as Hstp.
  case_decide; [apply triple_final; [apply keeps_preflight|exact Hkp]|].
  apply triple_step; [keeps|intros _; exact Hkp|]. intros z. set (cmd := transfer_command stackID log r c).
  eapply triple_bind; [eapply triple_weaken; [apply (home_move [p])|done|done|done]|]. intros ?. simpl.
  destruct (parts (j_deploy j)) as [res err] eqn:Hj. case_decide as Hfail.
  - apply transfer_failed_spec; [|done]. apply Forall_cons_2; [by intros (?&?&?)|apply Forall_singleton; by intros (?&?&?)].
  - assert (confirmed (j_deploy j)) as Hc.
    { unfold parts in Hj. destruct (j_deploy j) as [rr|f]; simplify_eq/=; [|by destruct Hfail; left].
      destruct (decide (Error res = "")); [done|]. destruct Hfail. by right. }
    apply (triple_pre _ (away ("probe-" +:+ stackID) (j_probe j) cmd (j_deploy j))).
    + apply triple_final; [apply keeps_transfer_done|]. intros s. apply away_kept; [done|]. by apply command_deployed.
    + intros s (Hm & _ & (? & ?) & (? & ?)). split; [exists []; by split|]. split; split; auto.
Qed.
End spec.

(** C4: Whatever fails, a transfer tears the stack down on its source only after the
    target confirmed a deploy of the commit and the stored file that are recorded as
    deployed; the record names the target only in that case, and the recorded revision
    does not change. *)
Theorem transfer_keeps_the_source `{Platform} (x : externals) (j : journey) (busy : bool) (stackID target : string) (s : st) :
  let s' := (TransferStack x j busy stackID target s).2 in
  ∃ new, moves s' = moves s ++ new ∧ lawful stackID target (db s) (disk s) new (worker_of (db s')) ∧ deployed (db s') = deployed (db s).
Proof.
  assert (∀ s', moves s' = moves s → db s' = db s →
    ∃ new, moves s' = moves s ++ new ∧ lawful stackID target (db s) (disk s) new (worker_of (db s')) ∧ deployed (db s') = deployed (db s)) as Hsame.
  { intros s' Hm Hd. exists []. rewrite app_nil_r Hd. split_and!; [done| |done]. left. split; [done|constructor]. }
  destruct busy; [by apply Hsame|]. simpl. unfold TransferStack, mbind, M_bind.
  destruct (load_stack_cases s) as (a & Hl). simpl in Hl. destruct Hl as [->|(r & ->)]; [|by apply Hsame].
  set (s1 := set_stack _ _ _).
  assert (triple (home (db s) (moves s) (disk s) []) (transfer_loaded x j stackID target)
            (λ _, kept stackID target (db s) (moves s) (disk s)) (λ _, kept stackID target (db s) (moves s) (disk s))) as Ht.
  2: { specialize (Ht s1). destruct (transfer_loaded x j stackID target s1) as [[] s']; apply Ht;
         (split; [by rewrite app_nil_r|]; by split_and!). }
  clear s1 Hsame. pose proof (home_stable (db s) (moves s) (disk s) []) as Hst.
  assert (∀ s', home (db s) (moves s) (disk s) [] s' → kept stackID target (db s) (moves s) (disk s) s') as Hk
    by (intros s'; apply home_kept; constructor).
  unfold transfer_loaded. apply home_record. intros r Hr. cbv zeta. rewrite (same_worker _ r Hr).
  apply triple_step; [keeps|intros _; exact Hk|]. intros ?.
  case_decide; [by apply triple_leave|]. case_decide as Hne; [by apply triple_leave|].
  apply triple_step; [apply keeps_identity|intros _; exact Hk|]. intros ?.
  eapply triple_bind; [eapply triple_weaken; [apply cargo_spec|done|done|intros ??; apply Hk]|]. intros c.
  apply triple_pure. intros Hf. do 2 (apply triple_step; [keeps|intros _; exact Hk|]; intros ?).
  apply triple_step; [keeps|intros _; exact Hk|]. intros [rec|err]; [|apply triple_final; [keeps|exact Hk]].
  apply triple_step; [keeps|intros _; exact Hk|]. intros ?.
  apply triple_deferring; [|by apply transfer_run_spec]. intros s' Hs'. unfold pt_finishCurrentAsError, mbind, M_bind, next_env, modify.
  destruct (clocks s'); simpl; by destruct (finishCurrentAsError _ _ _ _).
Qed.

(** ** A transfer within the retention of an earlier one *)

(** The teardown of every transfer of a stack has the same command id.  A worker that
    tore the stack down within its retention time answers a later teardown from its cache
    and leaves the containers running. *)
Theorem repeated_teardown_is_not_executed (stackID : string) w e messageID :
  let id := "teardown-transfer-" +:+ stackID in
  id ∉ DurableCommands.ActiveCommands w → DurableCommands.completedDurableCommands w !! id = Some e →
  DurableCommands.fresh e w = true →
  (∀ (P : Platform) x j c s, x_connected x (GetString "worker" (mem s)) = true → GetString "worker" (mem s) ≠ "" →
     moves (transfer_teardown x j stackID (GetString "worker" (mem s)) c s).2
     = moves s ++ [TornDown (GetString "worker" (mem s)) id (j_teardown j)])
  ∧ (DurableCommands.beginDurableCommand id messageID w).1 = false.
Proof.
  intros id Ha Hc Hf. split.
  - intros P x j c s Hx Hne. unfold transfer_teardown. rewrite Hx bool_decide_eq_true_2; [|done]. simpl.
    by destruct (parts (j_teardown j)).
  - by rewrite (DurableCommands.cached_is_replayed _ _ _ e).
Qed.
