(* ===== verification/ComposeRun.v ===== *)
(** * internal/compose/runner.go and the host a worker runs commands on

    A program of the worker is a function from the calls made so far to a result and the
    calls made then.  What the host answers may depend on everything done before: a
    [host] gives each answer as a function of that history, so a theorem holds whatever
    docker and the file system do between two calls. *)
From Stdlib Require Import ZArith.
From S2P Require Import Prelude GoStrings GoPath GoFmt SafePath EnvFile.

(** ** The host *)

(** [container.Summary] and [container.InspectResponse], the fields the code reads. *)
Record Summary := { ID : string; Labels : gmap string string }.
Record MountPoint := { m_volume : bool; m_name : string; m_destination : string }.
Record InspectResponse := { config_labels : option (gmap string string); Mounts : list MountPoint }.

(** An error of docker or of the file system: [errdefs.IsNotFound], [os.IsNotExist]. *)
Inductive failure := NotFound (err : string) | Refused (err : string).
Definition text_of (f : failure) : string := match f with NotFound err | Refused err => err end.

Inductive stat := NotExist | StatError | Info (regular directory executable : bool).

Inductive call :=
| Exec (dir dockerConfig : string) (args : list string)
| ContainerList (label : string)
| ContainerInspect (name : string)
| ContainerStop (id : string)
| ContainerRestart (id : string)
| ContainerRemove (id : string)
| VolumeRemove (name : string)
| MkdirAll (dir : string)
| WriteFile (path content : string)
| Remove (path : string)
| RemoveAll (dir : string)
| Emit (line : string).

Definition history := list call.

(** A file opened under a root: its kind, its size when opened and what reading gives. *)
Record opened := { f_regular : bool; f_size : Z; f_data : string + string }.

Record host := {
  h_stat : history → string → stat;
  h_open : history → string → opened + string;                (* Open and Stat under an os.Root *)
  h_root : history → string → option unit;                    (* os.OpenRoot *)
  h_exec : history → call → string * option string;           (* combined output and error *)
  h_client : history → option string;                         (* docker.NewClient *)
  h_list : history → string → list Summary + string;
  h_inspect : history → string → InspectResponse + failure;
  h_docker : history → call → option failure;
  h_file : history → call → option failure }.

(** ** Programs *)
Definition X (A : Type) : Type := history → A * history.

#[global] Instance X_ret : MRet X := λ A x h, (x, h).
#[global] Instance X_bind : MBind X := λ A B f m h, let '(x, h') := m h in f x h'.

Definition ask {A} (f : history → A) : X A := λ h, (f h, h).
(** The answer to a call depends on what was done before it. *)
Definition tell {A} (c : call) (f : history → A) : X A := λ h, (f h, h ++ [c]).

Declare Scope run_scope.

(** [if err != nil { return err }] after a call that returns a value or an error. *)
Definition seq_err {A B} (m : X (A + string)) (k : A → X (B + string)) : X (B + string) :=
  r ← m; match r with inl x => k x | inr err => mret (inr err) end.
Notation "x ←? m ; k" := (seq_err m (λ x, k)) (at level 20, m at level 100, k at level 200, only parsing) : run_scope.
Open Scope run_scope.

Definition of_option (o : option string) : unit + string := match o with Some err => inr err | None => inl tt end.

(** ** linewriter.go: the output of a command as lines *)
Fixpoint trim_reversed (s : string) : string :=
  match s with
  | String a r => if decide (a = nl ∨ a = cr) then trim_reversed r else s
  | EmptyString => ""
  end.
Definition trimNewline (s : string) : string := srev (trim_reversed (srev s)).

(** The loop of [Write]: [ReadString('\n')] until no newline is left. *)
Fixpoint read_lines (fuel : nat) (buf : string) : list string * string :=
  match fuel with
  | O => ([], buf)
  | S fuel =>
      match cut nl buf with
      | None => ([], buf)
      | Some (line, rest) => let '(lines, buf) := read_lines fuel rest in (trimNewline (line +:+ String nl "") :: lines, buf)
      end
  end.

(** The lines handed on and the partial line kept. *)
Definition line_write (buf p : string) : list string * string := read_lines (String.length (buf +:+ p)) (buf +:+ p).
Definition line_flush (buf : string) : list string := if decide (buf = "") then [] else [trimNewline buf].

(** A command's output, written in chunks and flushed. *)
Fixpoint line_stream (buf : string) (chunks : list string) : list string :=
  match chunks with
  | [] => line_flush buf
  | p :: chunks => let '(lines, buf) := line_write buf p in lines ++ line_stream buf chunks
  end.

(** ** Options *)

(** [OnLine] is the rewriting a line goes through before it is streamed. *)
Record RunOptions := {
  WorkDir : string; ComposeFile : string; ForcePull : bool; RemoveOrphans : bool; DockerConfigDir : string;
  OnLine : option (string → string) }.
Record ForceUpOptions := {
  fu_opts : RunOptions; RecreateContainers : bool; RecreateVolumes : bool; RecreateNetworks : bool }.

(** ** Arguments *)
Definition buildUpArgs (composeFile : string) (removeOrphans : bool) : list string :=
  ["compose"; "-f"; composeFile; "up"; "-d"] ++ (if removeOrphans then ["--remove-orphans"] else []).

Definition buildPullArgs (composeFile : string) (forcePull : bool) : list string :=
  ["compose"; "-f"; composeFile; "pull"] ++ (if forcePull then ["--policy"; "always"] else []).

Definition down_args (composeFile : string) (recreateVolumes removeOrphans : bool) : list string :=
  ["compose"; "-f"; composeFile; "down"] ++ (if recreateVolumes then ["-v"] else [])
  ++ (if removeOrphans then ["--remove-orphans"] else []).

Definition force_up_args (composeFile : string) (opts : ForceUpOptions) : list string :=
  buildUpArgs composeFile (RemoveOrphans (fu_opts opts)) ++ (if RecreateContainers opts then ["--force-recreate"] else [])
  ++ (if RecreateVolumes opts && negb (RecreateNetworks opts) then ["--renew-anon-volumes"] else []).

(** The environment of a subprocess: only trusted directories on the path. *)
Definition safeDirs : list string := ["/bin"; "/sbin"; "/usr/bin"; "/usr/sbin"; "/usr/local/bin"].
Definition safePath : string := "PATH=" +:+ Join ":" safeDirs.

Definition safeEnv (environ : list string) (dockerConfigDir : string) : list string :=
  let is_path kv := HasPrefix (ToUpper kv) "PATH=" in
  let env := (λ kv, if is_path kv then safePath else kv) <$> environ in
  let env := if existsb is_path environ then env else env ++ [safePath] in
  if decide (dockerConfigDir = "") then env else env ++ ["DOCKER_CONFIG=" +:+ dockerConfigDir].

Section runner.
Context (w : host).

Fixpoint first_executable (dirs : list string) (h : history) : string + string :=
  match dirs with
  | [] => inr "docker executable not found in allowlisted directories"
  | dir :: dirs =>
      let candidate := PathJoin dir "docker" in
      match h_stat w h candidate with Info true _ true => inl candidate | _ => first_executable dirs h end
  end.

Definition trustedDockerBinary : X (string + string) := ask (first_executable ["/usr/bin"; "/usr/local/bin"; "/bin"]).

Definition or_default (composeFile : string) : string := if decide (composeFile = "") then "docker-compose.yml" else composeFile.

(** The file a pull or an up uses: the one named, else compose.yml. *)
Definition find_compose_file (opts : RunOptions) : X (string + string) :=
  let composeFile := or_default (ComposeFile opts) in
  _ ←? trustedDockerBinary;
  s ← ask (λ h, h_stat w h (PathJoin (WorkDir opts) composeFile));
  match s with
  | NotExist =>
      s ← ask (λ h, h_stat w h (PathJoin (WorkDir opts) "compose.yml"));
      mret (match s with NotExist => inr ("compose file not found in " +:+ WorkDir opts) | _ => inl "compose.yml" end)
  | _ => mret (inl composeFile)
  end.

Fixpoint emit_lines (f : string → string) (lines : list string) : X unit :=
  match lines with [] => mret tt | l :: lines => tell (Emit (f l)) (λ _, tt);; emit_lines f lines end.

(** [exec.CommandContext] and [Run] with the output streamed, the error under a prefix. *)
Definition run_docker (opts : RunOptions) (config prefix : string) (args : list string) : X (string * option string) :=
  let c := Exec (WorkDir opts) config args in
  '(out, err) ← tell c (λ h, h_exec w h c);
  match OnLine opts with Some f => emit_lines f (line_stream "" [out]) | None => mret tt end;;
  mret (out, (λ e, prefix +:+ ": " +:+ e) <$> err).

Definition RunPull (opts : RunOptions) : X (string * option string) :=
  file ← find_compose_file opts;
  match file with
  | inr err => mret ("", Some err)
  | inl file => run_docker opts (DockerConfigDir opts) "docker compose pull failed" (buildPullArgs file (ForcePull opts))
  end.

Definition RunUp (opts : RunOptions) : X (string * option string) :=
  file ← find_compose_file opts;
  match file with
  | inr err => mret ("", Some err)
  | inl file => run_docker opts (DockerConfigDir opts) "docker compose up failed" (buildUpArgs file (RemoveOrphans opts))
  end.

Definition newline : string := String nl "".

Definition RunForceUp (o : ForceUpOptions) : X (string * option string) :=
  let opts := fu_opts o in
  let exec prefix args := run_docker opts (DockerConfigDir opts) prefix args in
  file ← find_compose_file opts;
  match file with
  | inr err => mret ("", Some err)
  | inl file =>
      '(prior, downErr) ←
        (if RecreateNetworks o then
           '(out, err) ← exec "docker compose down failed" (down_args file (RecreateVolumes o) (RemoveOrphans opts));
           mret (match err with Some _ => out | None => out +:+ newline +:+ "--- recreating ---" +:+ newline end, err)
         else mret ("", None));
      match downErr with
      | Some err => mret (prior, Some err)
      | None =>
          '(out, err) ← exec "docker compose up failed" (force_up_args file o);
          mret (prior +:+ out, err)
      end
  end.

(** No DOCKER_CONFIG, and the file is not looked up. *)
Definition RunDown (opts : RunOptions) : X (string * option string) :=
  let composeFile := or_default (ComposeFile opts) in
  bin ← trustedDockerBinary;
  match bin with
  | inr err => mret ("", Some err)
  | inl _ => run_docker opts "" "docker compose down failed" ["compose"; "-f"; composeFile; "down"]
  end.

Definition RunDownPurge (opts : RunOptions) : X (string * option string) :=
  let composeFile := or_default (ComposeFile opts) in
  bin ← trustedDockerBinary;
  match bin with
  | inr err => mret ("", Some err)
  | inl _ => run_docker opts "" "docker compose down --purge failed" ["compose"; "-f"; composeFile; "down"; "-v"; "--remove-orphans"]
  end.

(** ** Reading a compose file *)

(** [path_text] is the text of an error of safepath. *)
Context `{UnicodeTables} (path_text : path_error → string).

Definition openContained (root workDir name : string) : X (opened + string) :=
  r ← ask (λ h, OpenRoot (h_root w h) root workDir);
  match r with
  | inl e => mret (inr ("compose file " +:+ Quote name +:+ " is not reachable from the repository: " +:+ path_text e))
  | inr (_, rel) =>
      r ← ask (λ h, h_open w h (PathJoin rel name));
      mret (match r with
            | inr err => inr err
            | inl f => if f_regular f then inl f else inr ("compose file " +:+ Quote name +:+ " is not a regular file")
            end)
  end.

Fixpoint resolve_candidate (root workDir : string) (candidates : list string) : X (string + string) :=
  match candidates with
  | [] => mret (inr ("compose file not found in " +:+ workDir))
  | name :: candidates =>
      r ← openContained root workDir name;
      match r with inl _ => mret (inl name) | inr _ => resolve_candidate root workDir candidates end
  end.

Definition ResolveFile (root workDir composeFile : string) : X (string + string) :=
  resolve_candidate root workDir [or_default composeFile; "compose.yml"].

Definition ErrOutputTooLarge : string := "compose output exceeds the configured limit".

Definition ReadFile (maxBytes : Z) (root workDir composeFile : string) : X (string + string) :=
  resolved ←? ResolveFile root workDir composeFile;
  r ← openContained root workDir resolved;
  mret (match r with
        | inr err => inr ("compose file not readable: " +:+ err)
        | inl f =>
            if decide (maxBytes < f_size f)%Z
            then inr ("compose file " +:+ resolved +:+ " is " +:+ Itoa (f_size f) +:+ " bytes, over the " +:+ Itoa maxBytes
                      +:+ " byte limit (raise COMPOSE_MAX_KB if this is legitimate): " +:+ ErrOutputTooLarge)
            else match f_data f with
            | inr err => inr ("compose file not readable: " +:+ err)
            | inl data =>
                if decide (maxBytes < Z.of_nat (String.length data))%Z
                then inr ("compose file " +:+ resolved +:+ " exceeds the " +:+ Itoa maxBytes +:+ " byte limit: " +:+ ErrOutputTooLarge)
                else inl data
            end
        end).
End runner.

(** ** Chunks *)
Lemma cut_shorter c s l r : cut c s = Some (l, r) → String.length r < String.length s.
Proof. intros [-> _]%cut_Some. rewrite slength_app. simpl. lia. Qed.

Lemma read_lines_fuel n m buf : String.length buf ≤ n → String.length buf ≤ m → read_lines n buf = read_lines m buf.
Proof.
  revert m buf. induction n as [|n IH]; intros m buf Hn Hm.
  - destruct buf; [|simpl in Hn; lia]. by destruct m.
  - destruct m as [|m]; [destruct buf; [done|simpl in Hm; lia]|]. cbn [read_lines].
    destruct (cut nl buf) as [[l r]|] eqn:Hc; [|done]. apply cut_shorter in Hc. by rewrite (IH m); [|lia..].
Qed.

Lemma read_lines_app buf p : read_lines (String.length (buf +:+ p)) (buf +:+ p) =
  let '(l1, b1) := read_lines (String.length buf) buf in
  let '(l2, b2) := read_lines (String.length (b1 +:+ p)) (b1 +:+ p) in (l1 ++ l2, b2).
Proof.
  induction buf as [buf IH] using (induction_ltof1 _ String.length). unfold ltof in IH.
  destruct (cut nl buf) as [[l r]|] eqn:Hc.
  - pose proof (cut_shorter _ _ _ _ Hc) as Hlen. assert (cut nl (buf +:+ p) = Some (l, r +:+ p)) as Hc'.
    { apply cut_Some in Hc as [-> Hl]. apply cut_Some. split; [|done]. by rewrite sapp_assoc. }
    rewrite slength_app.
    assert (∀ b n, cut nl b = Some (l, n) → 0 < String.length b → read_lines (String.length b) b =
      let '(ls, k) := read_lines (String.length n) n in (trimNewline (l +:+ String nl "") :: ls, k)) as Hstep.
    { intros b n Hb Hpos. pose proof (cut_shorter _ _ _ _ Hb). destruct (String.length b) as [|k] eqn:Hk; [lia|].
      cbn [read_lines]. rewrite Hb. by rewrite (read_lines_fuel k (String.length n)); [|lia..]. }
    rewrite -slength_app (Hstep _ _ Hc'); [|rewrite slength_app; lia]. rewrite (Hstep _ _ Hc); [|lia].
    rewrite (IH r Hlen). destruct (read_lines (String.length r) r) as [l1 b1].
    by destruct (read_lines (String.length (b1 +:+ p)) (b1 +:+ p)).
  - assert (read_lines (String.length buf) buf = ([], buf)) as ->.
    { destruct (String.length buf); simpl; by rewrite ?Hc. }
    by destruct (read_lines _ _).
Qed.

Lemma line_stream_merge buf p q chunks : line_stream buf (p :: q :: chunks) = line_stream buf ((p +:+ q) :: chunks).
Proof.
  cbn [line_stream]. unfold line_write. rewrite -sapp_assoc (read_lines_app (buf +:+ p) q).
  destruct (read_lines (String.length (buf +:+ p)) (buf +:+ p)) as [l1 b1].
  destruct (read_lines (String.length (b1 +:+ q)) (b1 +:+ q)) as [l2 b2]. by rewrite app_assoc.
Qed.

(** The lines do not depend on how the output arrives in chunks. *)
Lemma line_stream_chunks buf p chunks : line_stream buf (p :: chunks) = line_stream buf [foldl String.append p chunks].
Proof.
  revert p. induction chunks as [|q chunks IH]; intros p; [done|]. rewrite line_stream_merge IH. done.
Qed.
