(* ===== verification/Migration.v ===== *)
(** * worker/executor/project_migration.go

    Moving a stack's containers from one compose project name to another: the checks
    before anything is touched, the removal of the stack's own containers, the start under
    the new name, and the way back when a step fails. *)
From Stdlib Require Import ZArith.
From S2P Require Import Prelude GoStrings GoPath GoFmt GoValue GoBase64 SafePath ComposeDoc ProjectIdentity ComposeRun.

Definition stackLabel : string := "dev.wireops.stack_id".
Definition projectLabel : string := "com.docker.compose.project".
Definition stack_filter (stackID : string) : string := stackLabel +:+ "=" +:+ stackID.

(** A container id in a message: twelve characters. *)
Definition short (id : string) : string := stake 12 id.

Definition label (k : string) (labels : gmap string string) : string := default "" (labels !! k).

(** A [string] field of a decoded struct. *)
Definition decode_text (v : option value) : option string :=
  match v with
  | None | Some VNull => Some ""
  | Some (VList _) | Some (VMap _) => None
  | Some v => Some (Sprint v)
  end.

Section migration.
Context `{GoRange} `{UnicodeTables} (w : host).
Context (yaml_parse : string → option value) (yaml_error : string → string) (yaml_bool : value → option bool).
Context (corrupt_input : string → string) (path_text : path_error → string) (maxBytes : Z).

Definition emitMigrationLine (onLine : option (string → string)) (text : string) : X unit :=
  match onLine with
  | Some f => tell (Emit (f ("[project-migration] " +:+ text))) (λ _, tt)
  | None => mret tt
  end.

(** ** Reading the two revisions *)
Definition decodePreviousCompose (workDir : string) (spec : ProjectMigrationSpec) : X ((string * string) + string) :=
  match DecodeString (PreviousComposeB64 spec) with
  | None => mret (inr ("invalid previous compose revision: " +:+ corrupt_input (PreviousComposeB64 spec)))
  | Some content =>
      match ExtractProjectName yaml_parse content with
      | inr err => mret (inr err)
      | inl previousName =>
          if decide (previousName ≠ pm_Previous spec)
          then mret (inr ("previous compose identity mismatch: revision declares " +:+ Quote previousName
                          +:+ ", command expected " +:+ Quote (pm_Previous spec)))
          else
            let path := PathJoin workDir "previous-compose.yml" in
            let c := WriteFile path content in
            err ← tell c (λ h, h_file w h c);
            mret (match err with
                  | Some e => inr ("stage previous compose revision: " +:+ text_of e)
                  | None => inl (Base path, content)
                  end)
      end
  end.

(** The entries of a top-level section, each decoded. *)
Definition section_entries {A} (section : string) (f : value → option A) (content : string) : option (list A) :=
  v ← yaml_parse content; doc ← decode_doc v; entries ← decode_map_field (doc !! section);
  l ← decode_each f (go_range entries); Some l.*2.

Definition container_name (v : value) : option string := svc ← decode_map_field (Some v); decode_text (svc !! "container_name").
Definition volume_name (v : value) : option string := vol ← decode_map_field (Some v); decode_text (vol !! "name").
Definition volume_external (v : value) : option (string * bool) :=
  vol ← decode_map_field (Some v); name ← decode_text (vol !! "name");
  external ← match vol !! "external" with None | Some VNull => Some false | Some b => yaml_bool b end;
  Some (name, external).

Definition explicitContainerNames (content : string) : list string + string :=
  match section_entries "services" container_name content with
  | None => inr ("parse target compose container names: " +:+ yaml_error content)
  | Some names => inl (sort_strings (filter (λ n, n ≠ "") names))
  end.

Definition namedVolumeNames (content : string) : gset string + string :=
  match section_entries "volumes" volume_name content with
  | None => inr ("parse deployed compose volumes: " +:+ yaml_error content)
  | Some names => inl (list_to_set (filter (λ n, n ≠ "") names))
  end.

Definition removableNamedVolumeNames (content : string) : list string + string :=
  match section_entries "volumes" volume_external content with
  | None => inr ("parse deployed compose volumes: " +:+ yaml_error content)
  | Some vols => inl (sort_strings (filter (λ v, v.1 ≠ "" ∧ v.2 = false) vols).*1)
  end.

(** ** Docker *)
Definition listStackContainers (stackID : string) : X (list Summary + string) :=
  tell (ContainerList (stack_filter stackID)) (λ h, h_list w h (stack_filter stackID)).

Definition inspect (name : string) : X (InspectResponse + failure) :=
  tell (ContainerInspect name) (λ h, h_inspect w h name).

Definition act (c : call) : X (option failure) := tell c (λ h, h_docker w h c).

(** No container name of the target may belong to someone else. *)
Fixpoint check_names (stackID : string) (names : list string) : X (unit + string) :=
  match names with
  | [] => mret (inl tt)
  | name :: names =>
      r ← inspect name;
      match r with
      | inr (NotFound _) => check_names stackID names
      | inr (Refused err) => mret (inr ("inspect target container name " +:+ Quote name +:+ ": " +:+ err))
      | inl i =>
          if decide (label stackLabel (default ∅ (config_labels i)) = stackID) then check_names stackID names
          else mret (inr ("container name " +:+ Quote name +:+ " is owned by another workload; refusing project migration"))
      end
  end.

Fixpoint anonymous_volume (named : gset string) (mounts : list MountPoint) : option MountPoint :=
  match mounts with
  | [] => None
  | p :: mounts => if m_volume p && bool_decide (m_name p ∉ named) then Some p else anonymous_volume named mounts
  end.

(** Every container of the stack is in one of the two projects and, unless volumes are to
    be recreated, keeps its data in named volumes. *)
Fixpoint check_owned (previousProject targetProject : string) (recreateVolumes : bool) (named : gset string)
    (owned : list Summary) : X (unit + string) :=
  match owned with
  | [] => mret (inl tt)
  | s :: owned =>
      let project := label projectLabel (Labels s) in
      if decide (project ≠ previousProject ∧ project ≠ targetProject)
      then mret (inr ("container " +:+ short (ID s) +:+ " belongs to unexpected Compose project " +:+ Quote project
                      +:+ "; refusing project migration"))
      else if recreateVolumes then check_owned previousProject targetProject recreateVolumes named owned
      else
        r ← inspect (ID s);
        match r with
        | inr e => mret (inr ("inspect stack container " +:+ short (ID s) +:+ ": " +:+ text_of e))
        | inl i =>
            match anonymous_volume named (Mounts i) with
            | Some p => mret (inr ("container " +:+ short (ID s) +:+ " uses anonymous volume " +:+ Quote (m_name p) +:+ " at "
                                   +:+ m_destination p
                                   +:+ "; enable volume recreation or convert it to a named volume before migrating"))
            | None => check_owned previousProject targetProject recreateVolumes named owned
            end
        end
  end.

Definition preflightProjectMigration (stackID previousProject targetProject targetCompose previousCompose : string)
    (recreateVolumes : bool) : X (list Summary + string) :=
  containerNames ←? mret (explicitContainerNames targetCompose);
  _ ←? check_names stackID containerNames;
  r ← listStackContainers stackID;
  match r with
  | inr err => mret (inr ("list stack containers: " +:+ err))
  | inl owned =>
      named ←? mret (namedVolumeNames previousCompose);
      _ ←? check_owned previousProject targetProject recreateVolumes named owned;
      mret (inl owned)
  end.

Definition real_error (r : option failure) : option string := match r with Some (Refused err) => Some err | _ => None end.

Fixpoint remove_each (containers : list Summary) : X (list string) :=
  match containers with
  | [] => mret []
  | s :: containers =>
      stopped ← act (ContainerStop (ID s));
      failed ← match real_error stopped with
               | Some err => mret ["stop " +:+ short (ID s) +:+ ": " +:+ err]
               | None =>
                   removed ← act (ContainerRemove (ID s));
                   mret (match real_error removed with Some err => ["remove " +:+ short (ID s) +:+ ": " +:+ err] | None => [] end)
               end;
      rest ← remove_each containers;
      mret (failed ++ rest)
  end.

Definition removeStackContainers (containers : list Summary) : X (unit + string) :=
  failures ← remove_each containers;
  mret (if decide (failures = []) then inl tt else inr (Join "; " failures)).

Fixpoint remove_volumes (names : list string) : X (unit + string) :=
  match names with
  | [] => mret (inl tt)
  | name :: names =>
      r ← act (VolumeRemove name);
      match real_error r with
      | Some err => mret (inr ("remove named volume " +:+ Quote name +:+ ": " +:+ err))
      | None => remove_volumes names
      end
  end.

Definition removeNamedVolumes (previousCompose : string) : X (unit + string) :=
  names ←? mret (removableNamedVolumeNames previousCompose);
  remove_volumes names.

(** ** The migration *)

(** What [errors.Join] prints. *)
Definition joined (errs : list (option string)) : string := Join newline (omap id errs).

Definition previous_options (opts : RunOptions) (previousFile : string) : RunOptions :=
  {| WorkDir := WorkDir opts; ComposeFile := previousFile; ForcePull := false; RemoveOrphans := false;
     DockerConfigDir := DockerConfigDir opts; OnLine := OnLine opts |}.

(** Stop what is there and start the previous revision again. *)
Definition restorePrevious (opts : RunOptions) (spec : ProjectMigrationSpec) (stackID previousFile cause output : string)
    : X (string * option string) :=
  emitMigrationLine (OnLine opts) ("migration interrupted; restoring previous Compose project " +:+ pm_Previous spec);;
  listed ← listStackContainers stackID;
  cleanupErr ← match listed with
               | inr err => mret (Some ("list partial migration containers: " +:+ err))
               | inl partial =>
                   r ← removeStackContainers partial;
                   mret (match r with inr err => Some ("remove partial migration containers: " +:+ err) | inl _ => None end)
               end;
  '(rollbackOutput, rollbackErr) ← RunUp w (previous_options opts previousFile);
  let combined := output +:+ rollbackOutput in
  match cleanupErr, rollbackErr with
  | None, None =>
      emitMigrationLine (OnLine opts) "previous Compose project restored";;
      mret (combined, Some ("project identity migration failed and was rolled back: " +:+ cause))
  | _, _ => mret (combined, Some ("project identity migration failed: " +:+ cause +:+ "; rollback failed: "
                                  +:+ joined [cleanupErr; rollbackErr]))
  end.

Definition without_networks (o : ForceUpOptions) : ForceUpOptions :=
  {| fu_opts := fu_opts o; RecreateContainers := RecreateContainers o; RecreateVolumes := RecreateVolumes o;
     RecreateNetworks := false |}.

(** The previous file staged, the previous and the target documents. *)
Definition stage (opts : RunOptions) (spec : ProjectMigrationSpec) : X ((string * string * string) + string) :=
  previous ←? decodePreviousCompose (WorkDir opts) spec;
  read ← ReadFile w path_text maxBytes (WorkDir opts) (WorkDir opts) (ComposeFile opts);
  match read with
  | inr err => mret (inr ("read target compose revision: " +:+ err))
  | inl targetCompose =>
      targetName ←? mret (ExtractProjectName yaml_parse targetCompose);
      if decide (targetName ≠ pm_Target spec)
      then mret (inr ("target compose identity mismatch: revision declares " +:+ Quote targetName +:+ ", command expected "
                      +:+ Quote (pm_Target spec)))
      else client ← ask (h_client w);
           mret (match client with Some err => inr err | None => inl (previous.1, previous.2, targetCompose) end)
  end.

(** The named volumes, when they are to be recreated. *)
Definition empty_volumes (o : ForceUpOptions) (previousCompose : string) : X (unit + string) :=
  if RecreateVolumes o then
    emitMigrationLine (OnLine (fu_opts o)) "removing named volumes explicitly selected for recreation";;
    removeNamedVolumes previousCompose
  else mret (inl tt).

(** From the preflight on. *)
Definition migrate (o : ForceUpOptions) (spec : ProjectMigrationSpec) (stackID previousFile previousCompose targetCompose : string)
    : X (string * option string) :=
  let opts := fu_opts o in
  let say := emitMigrationLine (OnLine opts) in
  let restore := restorePrevious opts spec stackID previousFile in
  say ("preflight " +:+ pm_Previous spec +:+ " -> " +:+ pm_Target spec);;
  checked ← preflightProjectMigration stackID (pm_Previous spec) (pm_Target spec) targetCompose previousCompose
              (RecreateVolumes o);
  match checked with
  | inr err => mret ("", Some ("project identity migration preflight failed: " +:+ err))
  | inl owned =>
      say ("removing " +:+ Itoa (Z.of_nat (length owned)) +:+ " container(s) owned by this stack");;
      removed ← removeStackContainers owned;
      match removed with
      | inr err => restore ("could not remove stack containers: " +:+ err) ""
      | inl _ =>
          emptied ← empty_volumes o previousCompose;
          match emptied with
          | inr err => restore ("could not recreate volumes: " +:+ err) ""
          | inl _ =>
              say ("starting target Compose project " +:+ pm_Target spec);;
              '(output, upErr) ← RunForceUp w (without_networks o);
              match upErr with
              | None => say "project identity migration completed";; mret (output, None)
              | Some err => restore err output
              end
          end
      end
  end.

Definition runProjectIdentityMigration (o : ForceUpOptions) (spec : option ProjectMigrationSpec) (stackID : string)
    : X (string * option string) :=
  let distinct s := bool_decide (pm_Previous s ≠ "") && bool_decide (pm_Target s ≠ "")
                    && bool_decide (pm_Previous s ≠ pm_Target s) in
  if decide (stackID = "") then mret ("", Some "project identity migration requires a stack_id ownership boundary")
  else match spec with
  | None => mret ("", Some "project identity migration requires distinct non-empty project identities")
  | Some spec =>
      if negb (distinct spec)
      then mret ("", Some "project identity migration requires distinct non-empty project identities")
      else
        staged ← stage (fu_opts o) spec;
        match staged with
        | inr err => mret ("", Some err)
        | inl (previousFile, previousCompose, targetCompose) =>
            migrate o spec stackID previousFile previousCompose targetCompose
        end
  end.
End migration.
