(* ===== verification/MigrationSpec.v ===== *)
(** * What a project migration touches and how it ends *)
From Stdlib Require Import ZArith.
From S2P Require Import Prelude GoStrings GoPath GoFmt GoValue GoBase64 SafePath ComposeDoc ProjectIdentity ComposeRun Migration.

(** ** Reasoning about programs of the worker *)

(** Calls made between two histories, each permitted where it was made. *)
Inductive grows (P : history → call → Prop) (h : history) : history → Prop :=
| grows_refl : grows P h h
| grows_step h' c : grows P h h' → P h' c → grows P h (h' ++ [c]).

Lemma grows_trans P h1 h2 h3 : grows P h1 h2 → grows P h2 h3 → grows P h1 h3.
Proof. intros H1 H2. induction H2; [done|]. by constructor. Qed.

Lemma grows_prefix P h h' : grows P h h' → h `prefix_of` h'.
Proof. intros H. induction H as [|h' c _ IH _]; [done|]. by apply prefix_app_r. Qed.

Lemma grows_mono (P Q : history → call → Prop) h h' : (∀ h c, P h c → Q h c) → grows P h h' → grows Q h h'.
Proof. intros HPQ H. induction H; constructor; auto. Qed.

Lemma grows_split P h h' : grows P h h' →
  ∃ new, h' = h ++ new ∧ ∀ i c, new !! i = Some c → P (h ++ take i new) c.
Proof.
  intros Hg. induction Hg as [|h' c _ (new & -> & IH) Hc]; [exists []; split; [by rewrite app_nil_r|done]|].
  exists (new ++ [c]). split; [by rewrite assoc_L|]. intros i d Hi.
  apply lookup_snoc_Some in Hi as [[Hlt Hi]|[-> <-]].
  - rewrite take_app_le; [|lia]. by apply IH.
  - by rewrite take_app_length.
Qed.

(** Under [Pre], [m] makes permitted calls only and ends in [Post]. *)
Definition does (P : history → call → Prop) (Pre : history → Prop) {A} (m : X A) (Post : A → history → Prop) : Prop :=
  ∀ h, Pre h → let '(x, h') := m h in grows P h h' ∧ Post x h'.

Section logic.
Context (P : history → call → Prop).

Lemma does_ret (Pre : history → Prop) {A} (x : A) : does P Pre (mret x) (λ y h, y = x ∧ Pre h).
Proof. intros h Hh. split; [constructor|done]. Qed.

Lemma does_ask (Pre : history → Prop) {A} (f : history → A) : does P Pre (ask f) (λ y h, y = f h ∧ Pre h).
Proof. intros h Hh. split; [constructor|done]. Qed.

Lemma does_tell (Pre : history → Prop) {A} (c : call) (f : history → A) :
  (∀ h, Pre h → P h c) → does P Pre (tell c f) (λ y h', ∃ h, h' = h ++ [c] ∧ y = f h ∧ Pre h).
Proof. intros Hc h Hh. split; [|by exists h]. constructor; [constructor|auto]. Qed.

Lemma does_bind (Pre : history → Prop) {A B} (m : X A) (k : A → X B) Mid Post :
  does P Pre m Mid → (∀ x, does P (Mid x) (k x) Post) → does P Pre (m ≫= k) Post.
Proof.
  intros Hm Hk h Hh. unfold mbind, X_bind. specialize (Hm h Hh). destruct (m h) as [x h1]. destruct Hm as [Hg Hx].
  specialize (Hk x h1 Hx). destruct (k x h1) as [y h2]. destruct Hk. split; [by eapply grows_trans|done].
Qed.

Lemma does_weaken (Pre Pre' : history → Prop) {A} (m : X A) (Post Post' : A → history → Prop) :
  does P Pre' m Post' → (∀ h, Pre h → Pre' h) → (∀ x h, Post' x h → Post x h) → does P Pre m Post.
Proof.
  intros Hm Hp Hq h Hh. specialize (Hm h (Hp h Hh)). destruct (m h) as [x h']. destruct Hm. split; auto.
Qed.

Lemma does_pre (Pre Pre' : history → Prop) {A} (m : X A) (Post : A → history → Prop) :
  does P Pre' m Post → (∀ h, Pre h → Pre' h) → does P Pre m Post.
Proof. intros Hm Hp. eapply does_weaken; [exact Hm|exact Hp|auto]. Qed.

Lemma does_post (Pre : history → Prop) {A} (m : X A) (Post Post' : A → history → Prop) :
  does P Pre m Post' → (∀ x h, Post' x h → Post x h) → does P Pre m Post.
Proof. intros Hm Hq. eapply does_weaken; [exact Hm|auto|exact Hq]. Qed.

Lemma does_pure (φ : Prop) (Pre : history → Prop) {A} (m : X A) (Post : A → history → Prop) :
  (φ → does P Pre m Post) → does P (λ h, φ ∧ Pre h) m Post.
Proof. intros Hm h [Hφ Hh]. by apply Hm. Qed.
End logic.

(** Programs that make permitted calls only, whatever happened before. *)
Definition only (P : history → call → Prop) {A} (m : X A) : Prop := ∀ h, grows P h (m h).2.

Section only.
Context {P : history → call → Prop}.

Lemma only_ret {A} (x : A) : only P (mret x).
Proof. intros h. constructor. Qed.
Lemma only_ask {A} (f : history → A) : only P (ask f).
Proof. intros h. constructor. Qed.
Lemma only_tell {A} (c : call) (f : history → A) : (∀ h, P h c) → only P (tell c f).
Proof. intros Hc h. constructor; [constructor|done]. Qed.
Lemma only_bind {A B} (m : X A) (k : A → X B) : only P m → (∀ x, only P (k x)) → only P (m ≫= k).
Proof.
  intros Hm Hk h. unfold mbind, X_bind. specialize (Hm h). destruct (m h) as [x h1]. eapply grows_trans; [exact Hm|apply Hk].
Qed.
Lemma only_seq_err {A B} (m : X (A + string)) (k : A → X (B + string)) :
  only P m → (∀ x, only P (k x)) → only P (seq_err m k).
Proof. intros Hm Hk. apply only_bind; [done|]. intros [x|e]; [apply Hk|apply only_ret]. Qed.

Lemma only_does (I : history → Prop) {A} (m : X A) :
  (∀ h h', h `prefix_of` h' → I h → I h') → only P m → does P I m (λ _, I).
Proof.
  intros HI Hm h Hh. specialize (Hm h). destruct (m h) as [x h']. split; [done|]. eapply HI; [|done]. by eapply grows_prefix.
Qed.
End only.

(** What was so before and stays so as the history grows. *)
Lemma does_frame (P : history → call → Prop) (I Pre : history → Prop) {A} (m : X A) (Post : A → history → Prop) :
  (∀ h h', h `prefix_of` h' → I h → I h') → does P Pre m Post → does P (λ h, I h ∧ Pre h) m (λ x h, I h ∧ Post x h).
Proof.
  intros HI Hm h [Hi Hp]. specialize (Hm h Hp). destruct (m h) as [x h']. destruct Hm as [Hg Hx]. split; [done|]. split; [|done].
  eapply HI; [by eapply grows_prefix|done].
Qed.

Ltac only_step := first
  [ apply only_ret | apply only_ask | apply only_bind | apply only_seq_err | assumption
  | match goal with |- ∀ _, _ => intro end
  | match goal with |- only _ (match ?x with _ => _ end) => destruct x end
  | match goal with |- only _ (if ?x then _ else _) => destruct x end
  | solve [eauto with calls] ].
Ltac calls := repeat only_step.

Create HintDb calls.

(** ** Reading and checking *)
Section reads.
Context `{GoRange} `{UnicodeTables} (w : host).
Context (yaml_parse : string → option value) (yaml_error : string → string) (yaml_bool : value → option bool).
Context (corrupt_input : string → string) (path_text : path_error → string) (maxBytes : Z).
Context (P : history → call → Prop) (spec : ProjectMigrationSpec) (stackID dir : string).
Hypothesis Pinspect : ∀ h n, P h (ContainerInspect n).
Hypothesis Plist : ∀ h, P h (ContainerList (stack_filter stackID)).
Hypothesis Pemit : ∀ h l, P h (Emit l).
Hypothesis Pwrite : ∀ h c, DecodeString (PreviousComposeB64 spec) = Some c → P h (WriteFile (PathJoin dir "previous-compose.yml") c).

Lemma only_say onLine text : only P (emitMigrationLine onLine text).
Proof. unfold emitMigrationLine. destruct onLine; [by apply only_tell|apply only_ret]. Qed.

Lemma only_check_names names : only P (check_names w stackID names).
Proof. induction names; simpl; unfold inspect; calls. by apply only_tell. Qed.

Lemma only_check_owned p t r named owned : only P (check_owned w p t r named owned).
Proof. induction owned; simpl; unfold inspect; calls. by apply only_tell. Qed.

Lemma only_preflight p t tc pc r :
  only P (preflightProjectMigration w yaml_parse yaml_error stackID p t tc pc r).
Proof.
  unfold preflightProjectMigration, listStackContainers. calls; auto using only_check_names, only_check_owned. by apply only_tell.
Qed.

Lemma only_open root workDir name : only P (openContained w path_text root workDir name).
Proof. unfold openContained. calls. Qed.

Lemma only_read root workDir name : only P (ReadFile w path_text maxBytes root workDir name).
Proof. unfold ReadFile, ResolveFile, resolve_candidate. calls; apply only_open. Qed.

Lemma only_stage opts : WorkDir opts = dir → only P (stage w yaml_parse corrupt_input path_text maxBytes opts spec).
Proof.
  intros <-. unfold stage, decodePreviousCompose. apply only_seq_err.
  - destruct (DecodeString _) as [c|] eqn:Hc; [|apply only_ret]. destruct (ExtractProjectName _ c); [|apply only_ret].
    case_decide; [apply only_ret|]. apply only_bind; [|intros ?; apply only_ret]. apply only_tell. auto.
  - intros ?. apply only_bind; [apply only_read|]. intros ?. calls.
Qed.
End reads.

Lemma Base_previous dir : Base (PathJoin dir "previous-compose.yml") = "previous-compose.yml".
Proof.
  assert (∀ p, Base (p +:+ String slash "previous-compose.yml") = "previous-compose.yml") as Hb.
  { intros p. unfold Base. case_decide as Hp; [by destruct p|].
    assert (trim_right ["/"] (p +:+ String slash "previous-compose.yml") = p +:+ String slash "previous-compose.yml") as ->.
    { unfold trim_right, trim_left. rewrite srev_app.
      change (srev (String slash "previous-compose.yml")) with "lmy.esopmoc-suoiverp/".
      transitivity (srev ("lmy.esopmoc-suoiverp/" +:+ srev p)); [done|]. rewrite srev_app srev_involutive. done. }
    rewrite (proj2 (rcut_Some slash _ p "previous-compose.yml")); [done|]. split; [done|]. by apply (bool_decide_unpack _). }
  destruct (decide (dir = "")) as [->|Hd]; [reflexivity|].
  assert (PathJoin dir "previous-compose.yml" = Clean (PathJoin dir "previous-compose.yml")) as ->.
  { unfold PathJoin. repeat (case_decide; [done|]). by rewrite Clean_idempotent. }
  unfold Clean, show_path. rewrite PathJoin_proper; [|done|by apply (bool_decide_unpack _)].
  destruct (path_comps dir) as [|c cs] eqn:Hc; [by destruct (IsAbs _); [apply (Hb "")|]|].
  assert (Join "/" ((c :: cs) ++ ["previous-compose.yml"]) = Join "/" (c :: cs) +:+ String slash "previous-compose.yml") as Hj
    by (by rewrite Join_app).
  destruct (IsAbs _); [rewrite Hj -sapp_assoc; apply Hb|].
  transitivity (Base (Join "/" ((c :: cs) ++ ["previous-compose.yml"]))); [done|]. rewrite Hj. apply Hb.
Qed.


(** ** What a migration may touch *)
Section contained.
Context `{GoRange} `{UnicodeTables} (w : host).
Context (yaml_parse : string → option value) (yaml_error : string → string) (yaml_bool : value → option bool).
Context (corrupt_input : string → string) (path_text : path_error → string) (maxBytes : Z).
Context (o : ForceUpOptions) (spec : ProjectMigrationSpec) (stackID : string).

(** Docker listed the container as one of the stack. *)
Definition listed (h : history) (id : string) : Prop :=
  ∃ h0 l s, h0 ++ [ContainerList (stack_filter stackID)] `prefix_of` h ∧ h_list w h0 (stack_filter stackID) = inl l
    ∧ s ∈ l ∧ ID s = id.

(** The file docker compose is given: the one named, or compose.yml where that is missing. *)
Definition resolves_to (h : history) (named file : string) : Prop :=
  let found := h_stat w h (PathJoin (WorkDir (fu_opts o)) named) in
  file = named ∧ found ≠ NotExist ∨ file = "compose.yml" ∧ found = NotExist.

(** The previous revision of the command was written to the file it is started from. *)
Definition previous_staged (h : history) : Prop :=
  ∃ content, DecodeString (PreviousComposeB64 spec) = Some content
    ∧ WriteFile (PathJoin (WorkDir (fu_opts o)) "previous-compose.yml") content ∈ h.

(** The arguments that start a project from a file, and never bring one down. *)
Definition starts (file : string) (flags args : list string) : Prop := args = ["compose"; "-f"; file; "up"; "-d"] ++ flags.

(** Only containers docker lists for the stack are stopped and removed; volumes only on
    request, and only those the previous revision declares by name and not as external;
    docker compose only starts the compose file of the deploy, or, without further flags,
    the previous revision once it was written to its file. *)
Definition permitted (h : history) (c : call) : Prop :=
  match c with
  | Exec dir config args => dir = WorkDir (fu_opts o) ∧ config = DockerConfigDir (fu_opts o)
      ∧ ∃ file flags, starts file flags args
          ∧ (resolves_to h (or_default (ComposeFile (fu_opts o))) file
               ∧ flags ⊆ ["--remove-orphans"; "--force-recreate"; "--renew-anon-volumes"]
             ∨ resolves_to h "previous-compose.yml" file ∧ previous_staged h ∧ flags = [])
  | ContainerStop id | ContainerRemove id => listed h id
  | VolumeRemove name => RecreateVolumes o = true
      ∧ ∃ content names, DecodeString (PreviousComposeB64 spec) = Some content
          ∧ removableNamedVolumeNames yaml_parse yaml_error yaml_bool content = inl names ∧ name ∈ names
  | ContainerList l => l = stack_filter stackID
  | WriteFile path content => path = PathJoin (WorkDir (fu_opts o)) "previous-compose.yml"
      ∧ DecodeString (PreviousComposeB64 spec) = Some content
  | ContainerInspect _ | Emit _ => True
  | ContainerRestart _ | MkdirAll _ | Remove _ | RemoveAll _ => False
  end.

Definition all_listed (l : list Summary) (h : history) : Prop := ∀ s, s ∈ l → listed h (ID s).

Lemma all_listed_mono l h h' : h `prefix_of` h' → all_listed l h → all_listed l h'.
Proof. intros Hh Hl s Hs. destruct (Hl s Hs) as (h0 & l0 & s0 & Hp & ?). exists h0, l0, s0. split; [by etrans|done]. Qed.

Lemma remove_each_permitted l l' : l ⊆ l' → does permitted (all_listed l') (remove_each w l) (λ _, all_listed l').
Proof.
  induction l as [|s l IH]; intros Hl; simpl; [eapply does_post; [apply does_ret|naive_solver]|].
  assert (∀ c, c = ContainerStop (ID s) ∨ c = ContainerRemove (ID s) →
    does permitted (all_listed l') (act w c) (λ _, all_listed l')) as Hact.
  { intros c Hc. unfold act. eapply does_post; [apply does_tell|].
    - intros h Hh. specialize (Hh s ltac:(apply Hl; by left)). by destruct Hc as [-> | ->].
    - intros x h' (h & -> & _ & Hh). eapply all_listed_mono; [|done]. by apply prefix_app_r. }
  eapply does_bind; [apply Hact; by left|]. intros stopped.
  eapply does_bind with (Mid := λ _, all_listed l').
  - destruct (real_error stopped); [eapply does_post; [apply does_ret|naive_solver]|].
    eapply does_bind; [apply Hact; by right|]. intros ?. eapply does_post; [apply does_ret|naive_solver].
  - intros ?. eapply does_bind; [apply IH; intros ??; apply Hl; by right|].
    intros ?. eapply does_post; [apply does_ret|naive_solver].
Qed.

Lemma remove_permitted l : does permitted (all_listed l) (removeStackContainers w l) (λ _ _, True).
Proof.
  eapply does_bind; [by apply remove_each_permitted|]. intros ?. by eapply does_post; [apply does_ret|].
Qed.

Lemma list_permitted (I : history → Prop) :
  does permitted I (listStackContainers w stackID) (λ r h, ∀ l, r = inl l → all_listed l h).
Proof.
  eapply does_post; [by apply does_tell|]. intros r h' (h & -> & -> & _) l Hr s Hs.
  exists h, l, s. by split_and!.
Qed.

Lemma find_permitted opts : only permitted (find_compose_file w opts).
Proof. unfold find_compose_file, trustedDockerBinary. calls. Qed.

Lemma emit_permitted f lines : only permitted (emit_lines f lines).
Proof. induction lines; simpl; [apply only_ret|]. apply only_bind; [by apply only_tell|done]. Qed.

Lemma exec_permitted opts prefix args h : WorkDir opts = WorkDir (fu_opts o) →
  permitted h (Exec (WorkDir (fu_opts o)) (DockerConfigDir (fu_opts o)) args) →
  grows permitted h (run_docker w opts (DockerConfigDir (fu_opts o)) prefix args h).2.
Proof.
  intros Hd Ha. assert (does permitted (eq h) (run_docker w opts (DockerConfigDir (fu_opts o)) prefix args) (λ _ _, True)) as Hr.
  { unfold run_docker. rewrite Hd. eapply does_bind; [apply does_tell; by intros ? <-|]. intros [out err].
    eapply does_pre; [apply (only_does (λ _, True)); [done|]|done]. apply only_bind; [|intros ?; apply only_ret].
    destruct (OnLine opts); [apply emit_permitted|apply only_ret]. }
  specialize (Hr h eq_refl). destruct (run_docker _ _ _ _ _ h). apply Hr.
Qed.

Lemma find_resolves opts h f h' : WorkDir opts = WorkDir (fu_opts o) → find_compose_file w opts h = (inl f, h') →
  h' = h ∧ resolves_to h (or_default (ComposeFile opts)) f.
Proof.
  intros Hd. unfold find_compose_file, seq_err, trustedDockerBinary, ask, mbind, X_bind, resolves_to. rewrite Hd.
  destruct (first_executable _ _ _); [|done]. destruct (h_stat w h (PathJoin _ (or_default _))).
  - destruct (h_stat w h _); intros [= <- <-]; auto.
  - intros [= <- <-]. auto.
  - intros [= <- <-]. auto.
Qed.

Lemma up_permitted : does permitted previous_staged (RunUp w (previous_options (fu_opts o) "previous-compose.yml")) (λ _ _, True).
Proof.
  intros h Hst. unfold RunUp, mbind, X_bind. pose proof (find_permitted (previous_options (fu_opts o) "previous-compose.yml") h) as Hg.
  destruct (find_compose_file _ _ h) as [[f|e] h1] eqn:Hf; [|by split].
  apply find_resolves in Hf as [-> Hf]; [|done]. simpl.
  match goal with |- context [run_docker ?w ?o ?c ?p ?a h] => pose proof (exec_permitted o p a h eq_refl) as He;
    destruct (run_docker w o c p a h) end.
  split; [|done]. apply He. split; [done|]. split; [done|]. exists f, []. split; [done|]. by right.
Qed.

Lemma force_flags : ∃ flags, (∀ f, starts f flags (force_up_args f (without_networks o))) ∧
  flags ⊆ ["--remove-orphans"; "--force-recreate"; "--renew-anon-volumes"].
Proof.
  eexists ((if RemoveOrphans (fu_opts o) then ["--remove-orphans"] else []) ++ (if RecreateContainers o then ["--force-recreate"] else [])
    ++ (if RecreateVolumes o then ["--renew-anon-volumes"] else [])). split.
  - intros f. unfold starts, force_up_args, buildUpArgs. simpl. by rewrite andb_true_r.
  - destruct (RemoveOrphans _), (RecreateContainers o), (RecreateVolumes o); set_solver.
Qed.

Lemma force_up_permitted : only permitted (RunForceUp w (without_networks o)).
Proof.
  intros h. unfold RunForceUp, mbind, X_bind. pose proof (find_permitted (fu_opts o) h) as Hg.
  destruct (find_compose_file _ _ h) as [[f|e] h1] eqn:Hf; [|done].
  apply find_resolves in Hf as [-> Hf]; [|done]. simpl. destruct force_flags as (flags & Hs & Hin).
  match goal with |- context [run_docker ?w ?o ?c ?p ?a h] => pose proof (exec_permitted o p a h eq_refl) as He;
    destruct (run_docker w o c p a h) as [[out err] h2] end.
  apply He. split; [done|]. split; [done|]. exists f, flags. split; [done|]. by left.
Qed.

Lemma remove_volumes_permitted names : (∀ h n, n ∈ names → permitted h (VolumeRemove n)) → only permitted (remove_volumes w names).
Proof.
  induction names as [|n names IH]; intros Hn; simpl; [apply only_ret|].
  apply only_bind; [apply only_tell; intros h; apply Hn; by left|]. intros r. destruct (real_error r); [apply only_ret|].
  apply IH. intros h m Hm. apply Hn. by right.
Qed.

Lemma volumes_permitted content : RecreateVolumes o = true → DecodeString (PreviousComposeB64 spec) = Some content →
  only permitted (removeNamedVolumes w yaml_parse yaml_error yaml_bool content).
Proof.
  intros Hr Hc h. unfold removeNamedVolumes, seq_err, mbind, X_bind. simpl.
  destruct (removableNamedVolumeNames _ _ _ content) as [names|] eqn:Hn; [|constructor].
  apply remove_volumes_permitted. intros h' n Hin. split; [done|]. by exists content, names.
Qed.

Lemma say_permitted onLine text : only permitted (emitMigrationLine onLine text).
Proof. by apply only_say. Qed.

Lemma staged_mono h h' : h `prefix_of` h' → previous_staged h → previous_staged h'.
Proof. intros [k ->] (c & Hc & Hin). exists c. split; [done|]. apply elem_of_app. by left. Qed.

(** A step on the way, with the previous revision staged. *)
Lemma staged_does {A} (m : X A) (Pre : history → Prop) Post : does permitted Pre m Post →
  does permitted (λ h, previous_staged h ∧ Pre h) m (λ x h, previous_staged h ∧ Post x h).
Proof. apply does_frame, staged_mono. Qed.

Lemma staged_only {A} (m : X A) : only permitted m → does permitted previous_staged m (λ _, previous_staged).
Proof. apply only_does, staged_mono. Qed.

Lemma restore_permitted cause out :
  does permitted previous_staged (restorePrevious w (fu_opts o) spec stackID "previous-compose.yml" cause out) (λ _ _, True).
Proof.
  unfold restorePrevious.
  eapply does_bind; [apply staged_only, say_permitted|]. intros ?.
  eapply does_bind; [eapply does_pre; [apply staged_does, (list_permitted (λ _, True))|naive_solver]|]. intros listing.
  eapply does_bind with (Mid := λ _, previous_staged).
  - destruct listing as [l|err]; [|by eapply does_post; [apply does_ret|]; intros ?? [_ [? _]]].
    eapply does_bind; [eapply does_pre; [apply staged_does, (remove_permitted l)|naive_solver]|]. intros ?.
    eapply does_post; [apply does_ret|]. by intros ?? [_ [? _]].
  - intros cleanupErr. eapply does_bind; [apply up_permitted|]. intros [out' rollbackErr].
    apply only_does; [done|]. destruct cleanupErr, rollbackErr; try apply only_ret. apply only_bind; [apply say_permitted|].
    intros ?. apply only_ret.
Qed.

Lemma preflight_permitted tc pc :
  does permitted (λ _, True)
    (preflightProjectMigration w yaml_parse yaml_error stackID (pm_Previous spec) (pm_Target spec) tc pc (RecreateVolumes o))
    (λ r h, ∀ l, r = inl l → all_listed l h).
Proof.
  assert (∀ (A : Type) (r : A + string), does permitted (λ _, True) (mret r) (λ _ _, True)) as Hret
    by (intros; by eapply does_post; [apply does_ret|]).
  unfold preflightProjectMigration, seq_err. eapply does_bind; [apply Hret|]. intros [names|e];
    [|eapply does_post; [apply does_ret|naive_solver]].
  eapply does_bind; [by apply only_does; [done|apply only_check_names]|]. intros [[]|e];
    [|eapply does_post; [apply does_ret|naive_solver]].
  eapply does_bind; [apply list_permitted|]. intros [l|e]; [|eapply does_post; [apply does_ret|naive_solver]].
  apply (does_pre _ _ (all_listed l)); [|naive_solver].
  eapply does_bind; [apply only_does; [apply all_listed_mono|apply only_ret]|]. intros [named|e];
    [|eapply does_post; [apply does_ret|naive_solver]].
  eapply does_bind; [apply only_does; [apply all_listed_mono|by apply only_check_owned]|]. intros [[]|e];
    eapply does_post; [apply does_ret|naive_solver|apply does_ret|naive_solver].
Qed.

Lemma stage_result h f pc tc h' :
  stage w yaml_parse corrupt_input path_text maxBytes (fu_opts o) spec h = (inl (f, pc, tc), h') →
  DecodeString (PreviousComposeB64 spec) = Some pc ∧ f = "previous-compose.yml" ∧ previous_staged h'.
Proof.
  unfold stage, seq_err, decodePreviousCompose, mbind, X_bind, mret, X_ret, tell.
  destruct (DecodeString _) as [c|] eqn:Hc; [|done]. destruct (ExtractProjectName _ c); [|done]. case_decide; [done|].
  destruct (h_file w _ _); [done|].
  match goal with |- context [ReadFile ?a ?b ?c ?d ?e ?f ?h1] =>
    pose proof (only_read a b c (λ _ _, True) d e f h1) as Hg; destruct (ReadFile a b c d e f h1) as [[tcomp|] h2] end; [|done].
  destruct (ExtractProjectName _ tcomp); [|done]. case_decide; [done|]. simpl. destruct (h_client w h2); [done|].
  intros [= <- <- <- <-]. rewrite Base_previous. split_and!; [done..|]. apply grows_prefix in Hg. eapply staged_mono; [exact Hg|].
  exists c. split; [done|]. apply elem_of_app. right. by left.
Qed.

Lemma migrate_permitted pc tc : DecodeString (PreviousComposeB64 spec) = Some pc →
  does permitted previous_staged (migrate w yaml_parse yaml_error yaml_bool o spec stackID "previous-compose.yml" pc tc) (λ _ _, True).
Proof.
  intros Hpc. unfold migrate.
  eapply does_bind; [apply staged_only, say_permitted|]. intros ?.
  eapply does_bind; [eapply does_pre; [apply staged_does, preflight_permitted|naive_solver]|].
  intros [owned|err]; [|by eapply does_post; [apply does_ret|]].
  apply (does_pre _ _ (λ h, previous_staged h ∧ all_listed owned h)); [|naive_solver].
  eapply does_bind; [apply staged_does, only_does; [apply all_listed_mono|apply say_permitted]|]. intros ?.
  eapply does_bind; [apply staged_does, remove_permitted|]. cbv beta. intros [[]|err]; [|eapply does_pre; [apply restore_permitted|naive_solver]].
  eapply does_bind with (Mid := λ _, previous_staged).
  { eapply does_pre; [apply staged_only|naive_solver]. unfold empty_volumes. destruct (RecreateVolumes o) eqn:Hr; [|apply only_ret].
    apply only_bind; [apply say_permitted|]. intros ?. by apply volumes_permitted. }
  intros [[]|err]; [|apply restore_permitted].
  eapply does_bind; [apply staged_only, say_permitted|]. intros ?.
  eapply does_bind; [apply staged_only, force_up_permitted|]. intros [out [err|]]; [apply restore_permitted|].
  eapply does_post; [apply staged_only|done]. apply only_bind; [apply say_permitted|]. intros ?. apply only_ret.
Qed.
End contained.


(** ** How a migration ends *)
Definition touches (c : call) : Prop :=
  match c with Exec _ _ _ | ContainerStop _ | ContainerRemove _ | VolumeRemove _ => True | _ => False end.

(** The last thing done: docker was run with these arguments and reported no error. *)
Definition started (w : host) (opts : RunOptions) (args : list string) (h : history) : Prop :=
  let c := Exec (WorkDir opts) (DockerConfigDir opts) args in
  ∃ h1 tail, h = h1 ++ c :: tail ∧ (h_exec w h1 c).2 = None ∧ Forall (λ c, ∃ line, c = Emit line) tail.

Section outcome.
Context `{GoRange} `{UnicodeTables} (w : host).
Context (yaml_parse : string → option value) (yaml_error : string → string) (yaml_bool : value → option bool).
Context (corrupt_input : string → string) (path_text : path_error → string) (maxBytes : Z).
Context (o : ForceUpOptions) (spec : ProjectMigrationSpec) (stackID : string).

Lemma find_file opts h f h' : find_compose_file w opts h = (inl f, h') →
  h' = h ∧ (f = or_default (ComposeFile opts) ∨ f = "compose.yml").
Proof.
  unfold find_compose_file, seq_err, trustedDockerBinary, ask, mbind, X_bind. destruct (first_executable _ _ _); [|done].
  destruct (h_stat w h _); [destruct (h_stat w h _)| |]; intros [= <- <-]; auto.
Qed.

Lemma emitted f lines h : ∃ tail, (emit_lines f lines h).2 = h ++ tail ∧ Forall (λ c, ∃ line, c = Emit line) tail.
Proof.
  revert h. induction lines as [|l lines IH]; intros h; [exists []; by rewrite app_nil_r|].
  simpl. unfold mbind, X_bind, tell. destruct (IH (h ++ [Emit (f l)])) as (tail & Ht & Hf).
  exists (Emit (f l) :: tail). rewrite Ht -assoc_L. split; [done|]. constructor; [by eexists|done].
Qed.

Lemma run_docker_ok opts prefix args h out h' : run_docker w opts (DockerConfigDir opts) prefix args h = ((out, None), h') →
  started w opts args h'.
Proof.
  unfold run_docker, tell, mbind, X_bind, mret, X_ret. destruct (h_exec w h _) as [out' err] eqn:Hx.
  intros Hr. assert (∃ tail, h' = (h ++ [Exec (WorkDir opts) (DockerConfigDir opts) args]) ++ tail
    ∧ Forall (λ c, ∃ line, c = Emit line) tail ∧ err = None) as (tail & -> & Ht & ->).
  { destruct (OnLine opts) as [f|].
    - pose proof (emitted f (line_stream "" [out']) (h ++ [Exec (WorkDir opts) (DockerConfigDir opts) args])) as (tail & Ht & Hf).
      destruct (emit_lines _ _ _) as [[] h1]. simpl in Ht. subst h1. exists tail. destruct err; by simplify_eq/=.
    - exists []. rewrite app_nil_r. destruct err; by simplify_eq/=. }
  exists h, tail. rewrite -assoc_L Hx. done.
Qed.

Lemma started_said opts args onLine text h : started w opts args h → started w opts args (emitMigrationLine onLine text h).2.
Proof.
  intros (h1 & tail & -> & Hx & Ht). destruct onLine as [f|]; [|by exists h1, tail]. simpl.
  exists h1, (tail ++ [Emit (f ("[project-migration] " +:+ text))]). rewrite -assoc_L. split_and!; [done|done|].
  apply Forall_app. split; [done|]. constructor; [by eexists|done].
Qed.

Lemma up_started opts h out h' : RunUp w opts h = ((out, None), h') →
  ∃ file, (file = or_default (ComposeFile opts) ∨ file = "compose.yml") ∧ started w opts (buildUpArgs file (RemoveOrphans opts)) h'.
Proof.
  unfold RunUp, mbind, X_bind. destruct (find_compose_file w opts h) as [[f|e] h1] eqn:Hf; [|done].
  apply find_file in Hf as [-> Hf]. intros Hr%run_docker_ok. by exists f.
Qed.

Lemma force_up_started h out h' : RunForceUp w (without_networks o) h = ((out, None), h') →
  ∃ file, (file = or_default (ComposeFile (fu_opts o)) ∨ file = "compose.yml")
    ∧ started w (fu_opts o) (force_up_args file (without_networks o)) h'.
Proof.
  unfold RunForceUp, mbind, X_bind. destruct (find_compose_file w _ h) as [[f|e] h1] eqn:Hf; [|done].
  apply find_file in Hf as [-> Hf]. simpl. destruct (run_docker w _ _ _ _ h) as [[out' [err|]] h2] eqn:Hd; [done|].
  apply run_docker_ok in Hd. intros [= <- <-]. by exists f.
Qed.

(** The way back either started the previous revision or says that it failed. *)
Definition restored (file e : string) (h' : history) : Prop :=
  ∃ cause, (e = "project identity migration failed and was rolled back: " +:+ cause
              ∧ ∃ f, (f = file ∨ f = "compose.yml") ∧ started w (fu_opts o) (buildUpArgs f false) h')
    ∨ ∃ why, e = "project identity migration failed: " +:+ cause +:+ "; rollback failed: " +:+ why.

Lemma restore_outcome file cause out h : file ≠ "" →
  let '((_, err), h') := restorePrevious w (fu_opts o) spec stackID file cause out h in
  ∃ e, err = Some e ∧ restored file e h'.
Proof.
  intros Hfile. unfold restorePrevious, mbind, X_bind.
  destruct (emitMigrationLine _ _ h) as [[] h1]. destruct (listStackContainers _ _ _) as [listing h2].
  destruct (match listing with inl _ => _ | inr _ => _ end) as [cleanupErr h3].
  destruct (RunUp w _ h3) as [[out' rollbackErr] h4] eqn:Hup.
  destruct cleanupErr as [c|], rollbackErr as [r|]; [| | |];
    try (eexists; split; [reflexivity|]; exists cause; right; by eexists).
  apply up_started in Hup as (f & Hf & Hs).
  pose proof (started_said _ _ (OnLine (fu_opts o)) "previous Compose project restored" _ Hs) as Hs'.
  destruct (emitMigrationLine _ _ h4) as [[] h5]. eexists. split; [reflexivity|]. exists cause. left. split; [done|].
  exists f. split; [|exact Hs']. unfold or_default in Hf. simpl in Hf. by case_decide.
Qed.

Definition untouched (h h' : history) : Prop := ∃ new, h' = h ++ new ∧ Forall (λ c, ¬ touches c) new.

Lemma untouched_grows h h' : grows (λ _ c, ¬ touches c) h h' → untouched h h'.
Proof.
  intros (new & -> & Hn)%grows_split. exists new. split; [done|]. apply Forall_lookup. intros i c Hc. by apply (Hn i).
Qed.

Definition concluded (file : string) (h h' : history) (err : option string) : Prop :=
  match err with
  | None => ∃ f, (f = or_default (ComposeFile (fu_opts o)) ∨ f = "compose.yml")
              ∧ started w (fu_opts o) (force_up_args f (without_networks o)) h'
  | Some e => untouched h h' ∨ restored file e h'
  end.

Lemma restore_concluded file cause out h0 h : file ≠ "" →
  let '((_, err), h') := restorePrevious w (fu_opts o) spec stackID file cause out h in concluded file h0 h' err.
Proof.
  intros Hf. pose proof (restore_outcome file cause out h Hf) as Hr.
  destruct (restorePrevious _ _ _ _ _ _ _ h) as [[out' err] h']. destruct Hr as (e & -> & Hr). by right.
Qed.

Lemma migrate_outcome file pc tc h0 h : file ≠ "" → grows (λ _ c, ¬ touches c) h0 h →
  let '((_, err), h') := migrate w yaml_parse yaml_error yaml_bool o spec stackID file pc tc h in concluded file h0 h' err.
Proof.
  intros Hf Hg. unfold migrate, mbind, X_bind.
  assert (∀ onLine text, only (λ _ c, ¬ touches c) (emitMigrationLine onLine text)) as Hsay by (intros; by apply only_say; auto).
  pose proof (Hsay (OnLine (fu_opts o)) ("preflight " +:+ pm_Previous spec +:+ " -> " +:+ pm_Target spec) h) as Hs.
  destruct (emitMigrationLine _ _ h) as [[] h1].
  assert (only (λ _ c, ¬ touches c)
    (preflightProjectMigration w yaml_parse yaml_error stackID (pm_Previous spec) (pm_Target spec) tc pc (RecreateVolumes o))) as Hp
    by (apply only_preflight; auto).
  specialize (Hp h1). destruct (preflightProjectMigration _ _ _ _ _ _ _ _ _ h1) as [[owned|err] h2].
  2: { left. apply untouched_grows. eapply grows_trans; [exact Hg|]. by eapply grows_trans. }
  clear Hs Hp. destruct (emitMigrationLine _ _ h2) as [[] h3]. destruct (removeStackContainers _ _ h3) as [[[]|err] h4];
    [|by apply restore_concluded].
  destruct (empty_volumes _ _ _ _ _ _ h4) as [[[]|err] h5]; [|by apply restore_concluded].
  destruct (emitMigrationLine _ _ h5) as [[] h6]. destruct (RunForceUp _ _ h6) as [[out [err|]] h7] eqn:Hup;
    [by apply restore_concluded|].
  apply force_up_started in Hup as (f & Hfile & Hst).
  pose proof (started_said _ _ (OnLine (fu_opts o)) "project identity migration completed" _ Hst) as Hst'.
  destruct (emitMigrationLine _ _ h7) as [[] h8]. by exists f.
Qed.
End outcome.

(** C13: A migration that reports success ended with docker compose starting the target
    revision without an error.  One that reports an error either touched no container, volume or project, or
    went back: its last act was to start the previous revision without an error, and the
    error says that it was rolled back, or the error says that the way back failed. *)
Theorem migration_outcome `{GoRange} `{UnicodeTables} (w : host) yaml_parse yaml_error yaml_bool corrupt_input path_text maxBytes
    (o : ForceUpOptions) (spec : option ProjectMigrationSpec) (stackID : string) (h : history) :
  let '((_, err), h') := runProjectIdentityMigration w yaml_parse yaml_error yaml_bool corrupt_input path_text maxBytes o spec
                           stackID h in
  concluded w o "previous-compose.yml" h h' err.
Proof.
  assert (untouched h h) as Hnone by (exists []; split; [by rewrite app_nil_r|done]).
  unfold runProjectIdentityMigration. case_decide; [by left|]. destruct spec as [spec|]; [|by left]. destruct (negb _); [by left|].
  unfold mbind, X_bind.
  assert (only (λ _ c, ¬ touches c) (stage w yaml_parse corrupt_input path_text maxBytes (fu_opts o) spec)) as Hs
    by (apply (only_stage _ _ _ _ _ _ _ (WorkDir (fu_opts o))); auto).
  specialize (Hs h).
  destruct (stage _ _ _ _ _ _ _ h) as [[[[f pc] tc]|err] h1] eqn:Hst; simpl in *; [|left; by apply untouched_grows].
  apply stage_result in Hst as (_ & -> & _). by apply migrate_outcome.
Qed.
