(* ===== verification/Redact.v ===== *)
(** * worker/executor/redact.go: hiding secrets in what a worker reports

    The values of the .env file shipped with a command are looked for in the command's
    output and replaced.  With the writer of the file (EnvFile.v) this shows that no
    value the server sent comes back in clear. *)
From Stdlib Require Import ZArith.
From S2P Require Import Prelude GoStrings GoPath GoFmt GoBase64 EnvFile.

Definition redactedPlaceholder : string := "[REDACTED]".
Definition minRedactableSecretLen : nat := 4.

(** [sort.Slice] by decreasing length: values of one length come in any order. *)
Class GoSort := {
  by_length : list string → list string;
  by_length_perm l : by_length l ≡ₚ l;
  by_length_sorted l : Sorted (λ a b, String.length b ≤ String.length a) (by_length l) }.

(** ** Reading values *)

(** The text between two equal quotes of kind [q]. *)
Definition between (q : ascii) (value : string) : option string :=
  match value with
  | String c r => if bool_decide (c = q) && HasSuffix r (String q "") then Some (TrimSuffix r (String q "")) else None
  | EmptyString => None
  end.

Fixpoint decode_escapes (s : string) : string :=
  match s with
  | EmptyString => ""
  | String c r =>
      if decide (c = bslash) then
        match r with
        | EmptyString => String c ""
        | String d r' =>
            if decide (d = "n"%char) then String nl (decode_escapes r')
            else if decide (d = "r"%char) then String cr (decode_escapes r')
            else if decide (d = "t"%char) then String tab (decode_escapes r')
            else if decide (d = bslash ∨ d = dquote ∨ d = dollar) then String d (decode_escapes r')
            else String c (decode_escapes r)
        end
      else String c (decode_escapes r)
  end.

Definition decodeEnvValue (value : string) : string :=
  match between squote value with
  | Some inner => inner
  | None => match between dquote value with Some inner => decode_escapes inner | None => value end
  end.

(** The candidates for redaction of one line of the file. *)
Definition line_values (line : string) : list string :=
  let line := TrimSpace line in
  if bool_decide (line = "") || HasPrefix line "#" then []
  else match cut "="%char line with
  | None => []
  | Some (_, raw) =>
      let encoded := TrimSpace raw in
      let value := decodeEnvValue encoded in
      let inner := match between dquote encoded with
                   | Some i => i
                   | None => default encoded (between squote encoded)
                   end in
      (if decide (minRedactableSecretLen ≤ String.length value) then [value] else [])
      ++ (if decide (inner ≠ value ∧ minRedactableSecretLen ≤ String.length inner) then [inner] else [])
  end.

(** [strings.FieldsFunc] on line breaks. *)
Definition fields_lines (value : string) : list string :=
  filter (λ s, s ≠ "") (Split nl value ≫= Split cr).

Definition add_candidate (acc : list string) (value : string) : list string :=
  if decide (minRedactableSecretLen ≤ String.length value ∧ value ∉ acc) then acc ++ [value] else acc.

Definition add_value (acc : list string) (value : string) : list string :=
  foldl (λ acc line, add_candidate (add_candidate acc line) (TrimSpace line)) (add_candidate acc value) (fields_lines value).

Definition redactionCandidates `{GoSort} (values : list string) : list string := by_length (foldl add_value [] values).

Definition parseEnvValues `{GoSort} (data : string) : list string :=
  redactionCandidates (Split nl data ≫= line_values).

(** ** Replacing *)
Definition redact_one (text secret : string) : string :=
  if decide (String.length secret < minRedactableSecretLen) then text else ReplaceAll text secret redactedPlaceholder.

Definition redactSecrets (text : string) (secrets : list string) : string :=
  if bool_decide (text = "") || bool_decide (secrets = []) then text else foldl redact_one text secrets.

(** ** What is left after redaction *)

(** A value the placeholder cannot be confused with. *)
Definition maskable (v : string) : Prop :=
  minRedactableSecretLen ≤ String.length v ∧ ¬ in_string "[" v ∧ ¬ in_string "]" v ∧ Contains "REDACTED" v = false.

Lemma maskable_ne v : maskable v → v ≠ "".
Proof. intros (H & _) ->. unfold minRedactableSecretLen in H. simpl in H. lia. Qed.

(** An occurrence lies on one side of a character it does not have. *)
Lemma HasPrefix_before m c x v : ¬ in_string c v → HasPrefix (m +:+ String c x) v = true → HasPrefix m v = true.
Proof.
  revert m. induction v as [|b v IH]; intros m Hc; [by destruct m|]. destruct m as [|a m].
  - rewrite sapp_nil_l HasPrefix_cons. intros [->%bool_decide_eq_true _]%andb_true_iff. exfalso. apply Hc. by left.
  - rewrite sapp_cons !HasPrefix_cons. intros [-> Ht]%andb_true_iff. apply IH; [|done]. intros Hin. apply Hc. by right.
Qed.

Lemma Contains_around m c x v : v ≠ "" → ¬ in_string c v → Contains (m +:+ String c x) v = true →
  Contains m v = true ∨ Contains x v = true.
Proof.
  intros Hne Hc. induction m as [|a m IH].
  - rewrite sapp_nil_l. cbn [Contains]. intros [Hp|Hx]%orb_true_iff; [|by right].
    apply (HasPrefix_before "" c x v Hc) in Hp. by destruct v.
  - rewrite sapp_cons. cbn [Contains]. intros [Hp|Hx]%orb_true_iff.
    + rewrite -sapp_cons in Hp. apply HasPrefix_before in Hp; [|done]. left. by rewrite Hp.
    + destruct (IH Hx) as [->|Hr]; [left; apply orb_true_r|by right].
Qed.

Lemma Contains_after x v : maskable v → Contains (redactedPlaceholder +:+ x) v = true → Contains x v = true.
Proof.
  intros Hm. pose proof (maskable_ne v Hm) as Hne. destruct Hm as (_ & Ho & Hc & Hr). unfold redactedPlaceholder.
  change ("[REDACTED]" +:+ x) with ("" +:+ String "[" ("REDACTED" +:+ String "]" x)).
  intros [Hx|Hx]%Contains_around; [by destruct v| |done..]. apply Contains_around in Hx as [Hx|Hx]; [congruence|done..].
Qed.

Section hides.
Context (v : string) (Hv : maskable v).

Lemma hidden_stays old s : old ≠ "" → Contains s v = false → Contains (ReplaceAll s old redactedPlaceholder) v = false.
Proof.
  intros Hne. induction s as [|r IH|a s Hp IH] using (replace_ind _ Hne); intros Hs; [done|..].
  - rewrite ReplaceAll_match //. apply not_true_iff_false. intros Hc%Contains_after; [|done]. rewrite IH in Hc; [done|].
    apply not_true_iff_false. intros Hr. apply not_true_iff_false in Hs. apply Hs. rewrite !Contains_spec in Hr |- *.
    destruct Hr as (l & t & ->). exists (old +:+ l), t. by rewrite !sapp_assoc.
  - rewrite ReplaceAll_other //. cbn [Contains] in Hs |- *. apply orb_false_iff in Hs as [Hs1 Hs2].
    rewrite (IH Hs2) orb_false_r. apply not_true_iff_false. intros Hc. rewrite -ReplaceAll_other // in Hc.
    apply replaced_prefix in Hc; [congruence|done|apply Hv].
Qed.

Lemma hidden_now s : Contains (ReplaceAll s v redactedPlaceholder) v = false.
Proof.
  pose proof (maskable_ne v Hv) as Hne. induction s as [|r IH|a s Hp IH] using (replace_ind _ Hne).
  - by destruct v.
  - rewrite ReplaceAll_match //. apply not_true_iff_false. intros Hc%Contains_after; [|done]. congruence.
  - rewrite ReplaceAll_other //. cbn [Contains]. rewrite IH orb_false_r. apply not_true_iff_false. intros Hc.
    rewrite -ReplaceAll_other // in Hc. apply replaced_prefix in Hc; [congruence|done|apply Hv].
Qed.

Lemma redact_one_stays text secret : Contains text v = false → Contains (redact_one text secret) v = false.
Proof.
  intros Ht. unfold redact_one. case_decide as Hl; [done|]. apply hidden_stays; [|done].
  intros ->. unfold minRedactableSecretLen in Hl. simpl in Hl. lia.
Qed.

Lemma redacted_stays text secrets : Contains text v = false → Contains (foldl redact_one text secrets) v = false.
Proof. revert text. induction secrets as [|x secrets IH]; intros text Ht; [done|]. by apply IH, redact_one_stays. Qed.

(** Whatever else is redacted, a value among the secrets is gone. *)
Lemma redacted_hidden text secrets : v ∈ secrets → Contains (redactSecrets text secrets) v = false.
Proof.
  intros Hin. unfold redactSecrets. case_bool_decide as Ht; [subst text; simpl; by destruct v; [pose proof (maskable_ne "" Hv)|]|].
  case_bool_decide as Hs; [subst secrets; by apply elem_of_nil in Hin|]. simpl.
  apply list_elem_of_split in Hin as (l1 & l2 & ->). rewrite foldl_app. cbn [foldl]. apply redacted_stays.
  unfold redact_one. destruct Hv as [Hl _]. case_decide; [lia|]. apply hidden_now.
Qed.
End hides.

(** ** The values of a file the server wrote *)
Lemma between_quoted q r : between q (String q r +:+ String q "") = Some r.
Proof. rewrite sapp_cons. simpl. rewrite bool_decide_eq_true_2 // HasSuffix_app TrimSuffix_app. done. Qed.

Lemma between_first q c r : c ≠ q → between q (String c r) = None.
Proof. intros Hc. simpl. by rewrite bool_decide_eq_false_2. Qed.

Lemma decode_escape v : decode_escapes (escape v) = v.
Proof.
  induction v as [|a v IH]; [done|]. cbn [escape]. unfold escape_char.
  repeat (case_decide; [subst a; simpl; by rewrite IH|]).
  rewrite sapp_cons sapp_nil_l. cbn [decode_escapes]. by rewrite decide_False // IH.
Qed.

Lemma decode_quoted v q : quoted v q → decodeEnvValue q = v.
Proof.
  intros [H1 H2 H3|H1 H2|]; unfold decodeEnvValue.
  - destruct v as [|c r]; [done|]. rewrite !between_first; [done|..].
    + intros ->. specialize (H3 dquote (or_introl eq_refl)). done.
    + intros ->. apply H2. by left.
  - by rewrite between_quoted.
  - rewrite between_first; [|done]. rewrite between_quoted. apply decode_escape.
Qed.

(** *** Trimming *)
#[global] Instance in_string_dec c s : Decision (in_string c s).
Proof. induction s as [|a s IH]; simpl; apply _. Defined.

Lemma strip_any_None ps s : strip_any ps s = None ↔ Forall (λ p, HasPrefix s p = false) ps.
Proof.
  unfold strip_any, HasPrefix. induction ps as [|p ps IH]; [done|]. simpl. rewrite Forall_cons -IH.
  destruct (strip_prefix p s); simpl; naive_solver.
Qed.

Lemma trim_left_id ps s : strip_any ps s = None → trim_left ps s = s.
Proof. intros Hs. unfold trim_left. destruct (String.length s); simpl; by rewrite ?Hs. Qed.

Lemma trim_left_fuel_length n ps s : String.length (trim_left_fuel n ps s) ≤ String.length s.
Proof.
  revert s. induction n as [|n IH]; intros s; [done|]. simpl. destruct (strip_any ps s) as [r|] eqn:Hs; [|done].
  etrans; [apply IH|]. unfold strip_any in Hs. apply head_Some_elem_of, list_elem_of_omap in Hs as (p & _ & Hp).
  apply strip_prefix_Some in Hp as ->. rewrite slength_app. lia.
Qed.

Lemma srev_length s : String.length (srev s) = String.length s.
Proof. induction s as [|a s IH]; [done|]. rewrite srev_cons slength_app IH. simpl. lia. Qed.

Lemma trim_left_fixed ps s : Forall (λ p, p ≠ "") ps → String.length s ≤ String.length (trim_left ps s) → strip_any ps s = None.
Proof.
  intros Hps Hl. unfold trim_left in Hl. destruct s as [|a s].
  - apply strip_any_None. eapply Forall_impl; [exact Hps|]. intros p Hp. by destruct p.
  - cbn [String.length trim_left_fuel] in Hl. destruct (strip_any ps (String a s)) as [r|] eqn:Hs; [|done]. exfalso.
    pose proof (trim_left_fuel_length (String.length s) ps r).
    unfold strip_any in Hs. apply head_Some_elem_of, list_elem_of_omap in Hs as (p & Hin & Hp).
    apply strip_prefix_Some in Hp. rewrite Forall_forall in Hps. specialize (Hps p Hin).
    apply (f_equal String.length) in Hp. rewrite slength_app in Hp. simpl in Hp. destruct p; simpl in *; [done|lia].
Qed.

Lemma trimmed_ends s : TrimSpace s = s → strip_any space_seqs s = None ∧ strip_any (srev <$> space_seqs) (srev s) = None.
Proof.
  intros Ht. assert (Forall (λ p, p ≠ "") space_seqs ∧ Forall (λ p, p ≠ "") (srev <$> space_seqs)) as [H1 H2]
    by (split; by apply (bool_decide_unpack _)).
  assert (String.length s ≤ String.length (trim_left space_seqs s)) as Hl.
  { rewrite -{1}Ht. unfold TrimSpace, trim_right. rewrite srev_length. etrans; [apply trim_left_fuel_length|]. by rewrite srev_length. }
  pose proof (trim_left_fixed _ _ H1 Hl) as Hs. split; [done|]. apply trim_left_fixed; [done|].
  unfold TrimSpace, trim_right in Ht. rewrite (trim_left_id _ s Hs) in Ht. rewrite -{1}Ht srev_involutive. done.
Qed.

Lemma ends_trimmed s : strip_any space_seqs s = None → strip_any (srev <$> space_seqs) (srev s) = None → TrimSpace s = s.
Proof.
  intros H1 H2. unfold TrimSpace, trim_right. rewrite (trim_left_id _ s H1) (trim_left_id _ _ H2). apply srev_involutive.
Qed.

(** A sequence of spaces does not reach over another character. *)
Lemma strip_any_app ps c a b : Forall (λ p, ¬ in_string c p) ps → a ≠ "" → strip_any ps a = None →
  strip_any ps (a +:+ String c b) = None.
Proof.
  rewrite !strip_any_None !Forall_forall. intros Hc Ha Hs p Hp. apply not_true_iff_false. intros Hx.
  apply HasPrefix_before in Hx; [|by apply Hc]. by rewrite Hs in Hx.
Qed.

Lemma strip_any_head ps c s : Forall (λ p, p ≠ "" ∧ ¬ in_string c p) ps → strip_any ps (String c s) = None.
Proof.
  rewrite strip_any_None !Forall_forall. intros Hc p Hp. destruct (Hc p Hp) as [Hne Hin]. destruct p as [|d p]; [done|].
  rewrite HasPrefix_cons bool_decide_eq_false_2; [done|]. intros ->. apply Hin. by left.
Qed.

Lemma quoted_ends v q : TrimSpace v = v → quoted v q →
  strip_any space_seqs q = None ∧ strip_any (srev <$> space_seqs) (srev q) = None.
Proof.
  intros Ht Hq. assert (∀ c r, c = squote ∨ c = dquote →
    strip_any space_seqs (String c r +:+ String c "") = None
    ∧ strip_any (srev <$> space_seqs) (srev (String c r +:+ String c "")) = None) as Hquote.
  { intros c r Hc. rewrite srev_app !sapp_cons. change (srev (String c "")) with (String c ""). rewrite ?sapp_cons.
    split; apply strip_any_head; destruct Hc as [-> | ->]; by apply (bool_decide_unpack _). }
  destruct Hq as [H1 H2 H3|H1 H2|]; [by apply trimmed_ends|apply Hquote; by left|apply Hquote; by right].
Qed.

(** A value of the file is found on its line. *)
Lemma line_values_written key v : validateEnvKey key = None → HasPrefix key "#" = false → TrimSpace v = v →
  minRedactableSecretLen ≤ String.length v → v ∈ line_values (key +:+ "=" +:+ quoteEnvValue v).
Proof.
  intros Hk Hh Ht Hl. pose proof (quote_cases v) as Hq. destruct (quoted_ends _ _ Ht Hq) as [Hq1 Hq2].
  pose proof (validated_key key Hk) as [Heq _]. unfold validateEnvKey in Hk. case_decide as Hne; [done|].
  case_decide as Htk; [done|]. apply trimmed_ends in Htk as [Hk1 Hk2].
  assert (quoteEnvValue v ≠ "") as Hqne.
  { intros He. rewrite He in Hq. unfold minRedactableSecretLen in Hl. inversion Hq; subst; simpl in *; try lia; by destruct v. }
  set (q := quoteEnvValue v) in *. change (key +:+ "=" +:+ q) with (key +:+ String "=" q).
  assert (TrimSpace (key +:+ String "=" q) = key +:+ String "=" q) as Htl.
  { apply ends_trimmed; [apply strip_any_app; [by apply (bool_decide_unpack _)|done|done]|].
    rewrite srev_app srev_cons sapp_assoc. change ("=" +:+ ?x) with (String "=" x). apply strip_any_app; [by apply (bool_decide_unpack _)| |done].
    intros He. apply Hqne. by rewrite -(srev_involutive q) He. }
  unfold line_values. cbv zeta. rewrite Htl bool_decide_eq_false_2; [|by destruct key].
  assert (HasPrefix (key +:+ String "=" q) "#" = false) as ->.
  { destruct key as [|c key]; [done|]. rewrite sapp_cons !HasPrefix_cons in Hh |- *. done. }
  simpl. rewrite (proj2 (cut_Some "="%char (key +:+ String "=" q) key q)); [|done].
  rewrite (ends_trimmed q Hq1 Hq2) (decode_quoted v q Hq). rewrite decide_True //. by left.
Qed.

Section candidates.
Context `{GoSort}.

Lemma add_candidate_mono v acc x : v ∈ acc → v ∈ add_candidate acc x.
Proof. unfold add_candidate. case_decide; set_solver. Qed.

Lemma add_candidate_new v acc : minRedactableSecretLen ≤ String.length v → v ∈ add_candidate acc v.
Proof. intros Hl. unfold add_candidate. case_decide as Hd; [set_solver|]. apply dec_stable. naive_solver. Qed.

Lemma add_lines_mono v lines acc : v ∈ acc →
  v ∈ foldl (λ acc line, add_candidate (add_candidate acc line) (TrimSpace line)) acc lines.
Proof. revert acc. induction lines as [|l lines IH]; intros acc Hv; [done|]. apply IH. by do 2 apply add_candidate_mono. Qed.

Lemma candidates_complete values v : v ∈ values → minRedactableSecretLen ≤ String.length v → v ∈ redactionCandidates values.
Proof.
  intros Hv Hl. unfold redactionCandidates. rewrite by_length_perm.
  assert (∀ acc l, v ∈ acc → v ∈ foldl add_value acc l) as Hmono.
  { intros acc l. revert acc. induction l as [|x l IH]; intros acc Ha; [done|]. apply IH, add_lines_mono.
    by apply add_candidate_mono. }
  apply list_elem_of_split in Hv as (l1 & l2 & ->). rewrite foldl_app. cbn [foldl].
  apply Hmono, add_lines_mono. by apply add_candidate_new.
Qed.

(** Every value of a file the server wrote is a candidate. *)
Lemma values_are_candidates envVars content kv key v : serializeEnvContent envVars = inl content → kv ∈ envVars →
  cut "="%char kv = Some (key, v) → HasPrefix key "#" = false → TrimSpace v = v → minRedactableSecretLen ≤ String.length v →
  v ∈ parseEnvValues content.
Proof.
  intros Hs Hin Hc Hh Ht Hl. apply candidates_complete; [|done].
  revert content Hs. induction Hin as [kv envVars|kv x envVars Hin IH]; intros content; cbn [serializeEnvContent].
  - rewrite Hc. destruct (validateEnvKey key) eqn:Hk; [done|]. destruct (serializeEnvContent envVars) as [more|]; [|done].
    intros [= <-]. rewrite -!sapp_assoc (Split_app nl ((key +:+ "=") +:+ quoteEnvValue v) more);
      [|rewrite sapp_assoc; apply line_written; done].
    rewrite bind_cons. apply elem_of_app. left. rewrite sapp_assoc. by apply line_values_written.
  - destruct (cut "="%char x) as [[k y]|]; [|done]. destruct (validateEnvKey k) eqn:Hk; [done|].
    destruct (serializeEnvContent envVars) as [more|]; [|done]. intros [= <-].
    rewrite -!sapp_assoc (Split_app nl ((k +:+ "=") +:+ quoteEnvValue y) more); [|rewrite sapp_assoc; apply line_written; done].
    rewrite bind_cons. apply elem_of_app. right. by apply IH.
Qed.
End candidates.
