(* ===== verification/Executor.v ===== *)
(** * worker/executor: running the commands of the server

    runner.go and registry_auth.go: the work directory of a command, the registry
    credentials, pulling and starting under their own deadlines, and the answer sent back
    with the secrets taken out.  The commands are the records the reconciler builds. *)
From Stdlib Require Import ZArith.
From S2P Require Import Prelude GoStrings GoPath GoFmt GoValue GoBase64 SafePath EnvFile ComposeRun Migration Redact.
From S2P Require ReconcileCore ProjectIdentity.

Abbreviation DeployCommand := ReconcileCore.DeployCommand.
Abbreviation RedeployCommand := (@ProjectIdentity.RedeployCommand DeployCommand).

Record CommandResult := {
  CommandID : string; Output : string; Error : string; ComposeUpMs : Z; TimedOut : bool; TimedOutStep : string }.

Definition failed (id err : string) : CommandResult :=
  {| CommandID := id; Output := ""; Error := err; ComposeUpMs := 0; TimedOut := false; TimedOutStep := "" |}.

(** What the worker is configured with and what it cannot compute: the environment, the
    clock, the contexts, JSON and the registries. *)
Class WorkerEnv := {
  stackDir : string; keep_workdir : string;                 (* WORKER_STACK_DIR, WORKER_KEEP_WORKDIR *)
  elapsed : history → Z;                                    (* milliseconds of the last step *)
  parent_done : history → bool; deadline_hit : Z → history → bool;   (* ctx.Err, the step's own deadline *)
  corrupt_input : string → string; path_text : path_error → string; max_bytes : Z;
  yaml_parse : string → option value; yaml_error : string → string; yaml_bool : value → option bool;
  decode_auths : string → gmap string string + string;      (* docker's config.json *)
  decode_insecure : string → gmap string bool + string;     (* docker info, RegistryConfig *)
  check_registry : history → string → string → bool → option string;   (* the HTTP handshake *)
  decode_ps : string → option (list (string * string)); decode_ps_line : string → option (string * string) }.

Section executor.
Context `{GoRange} `{UnicodeTables} `{GoSort} `{WorkerEnv} (w : host).

Definition keepWorkerWorkDir : bool := bool_decide (ToLower (TrimSpace keep_workdir) = "true").

Definition file_call (c : call) : X (option failure) := tell c (λ h, h_file w h c).

(** ** The work directory *)
Definition command_dir (kind stackID commandID : string) : string :=
  PathJoin (PathJoin (PathJoin stackDir kind) (Base stackID)) ("cmd-" +:+ Base commandID).

Definition clean_dir (dir : string) : X unit :=
  if keepWorkerWorkDir then mret tt else (_ ← file_call (RemoveAll dir); mret tt).

Definition prepareComposeFile (stackID commandID b64 : string) : X ((string * string) + string) :=
  match DecodeString b64 with
  | None => mret (inr ("failed to decode compose file: " +:+ corrupt_input b64))
  | Some content =>
      let dir := command_dir "stacks" stackID commandID in
      made ← file_call (MkdirAll dir);
      match made with
      | Some e => mret (inr ("failed to create work dir: " +:+ text_of e))
      | None =>
          written ← file_call (WriteFile (PathJoin dir "docker-compose.yml") content);
          match written with
          | Some e => file_call (RemoveAll dir);; mret (inr ("failed to write compose file: " +:+ text_of e))
          | None => mret (inl (dir, "docker-compose.yml"))
          end
      end
  end.

Definition applyEnvFile (workDir envFileB64 : string) : X (list string + string) :=
  let envPath := PathJoin workDir ".env" in
  if decide (envFileB64 = "") then
    removed ← file_call (Remove envPath);
    mret (match real_error removed with Some err => inr ("failed to remove .env: " +:+ err) | None => inl [] end)
  else match DecodeString envFileB64 with
  | None => mret (inr ("failed to decode .env content: " +:+ corrupt_input envFileB64))
  | Some data =>
      written ← file_call (WriteFile envPath data);
      mret (match written with Some e => inr ("failed to write .env: " +:+ text_of e) | None => inl (parseEnvValues data) end)
  end.

Definition prepareWorkDir (stackID commandID composeFileB64 envFileB64 : string) : X ((string * string * list string) + string) :=
  prepared ←? prepareComposeFile stackID commandID composeFileB64;
  secrets ← applyEnvFile prepared.1 envFileB64;
  match secrets with
  | inr err => clean_dir prepared.1;; mret (inr ("failed to apply env file for stack " +:+ stackID +:+ ": " +:+ err))
  | inl secrets => mret (inl (prepared.1, prepared.2, secrets))
  end.

(** [fn] in a work directory; what it prints and its error lose the secrets. *)
Definition runInWorkDir {A} (stackID commandID composeFileB64 envFileB64 : string) (onLine : bool)
    (fn : string → string → option (string → string) → X (string * option string * A)) (none : A)
    : X (string * option string * A) :=
  prepared ← prepareWorkDir stackID commandID composeFileB64 envFileB64;
  match prepared with
  | inr err => mret ("", Some err, none)
  | inl (workDir, composeFile, secrets) =>
      '(output, runErr, a) ← fn workDir composeFile (if onLine then Some (λ line, redactSecrets line secrets) else None);
      clean_dir workDir;;
      mret (redactSecrets output secrets, (λ e, redactSecrets e secrets) <$> runErr, a)
  end.

(** ** Pulling and starting *)
Definition defaultPullTimeout : Z := 30 * 60 * 1000000000.
Definition defaultUpTimeout : Z := 5 * 60 * 1000000000.

Definition step_budget (fallback seconds : Z) : Z :=
  let d := wrap64 (seconds * 1000000000) in if decide (d ≤ 0)%Z then fallback else d.

Definition stepDeadlineFired (budget : Z) : X bool := ask (λ h : history, negb (parent_done h) && deadline_hit budget h).

(** The output, the error, the time of the start and the step whose deadline ran out. *)
Definition pullThenUp (pullTimeoutSeconds upTimeoutSeconds : Z) (runOpts : RunOptions)
    (pull up : RunOptions → X (string * option string)) : X (string * option string * (Z * string)) :=
  '(pullOutput, pullErr) ← pull runOpts;
  match pullErr with
  | Some err =>
      fired ← stepDeadlineFired (step_budget defaultPullTimeout pullTimeoutSeconds);
      mret (pullOutput, Some err, (0%Z, if (fired : bool) then "pull" else ""))
  | None =>
      '(upOutput, upErr) ← up runOpts;
      ms ← ask (λ h, elapsed h);
      fired ← stepDeadlineFired (step_budget defaultUpTimeout upTimeoutSeconds);
      mret (pullOutput +:+ upOutput, upErr, (ms, match upErr with Some _ => if (fired : bool) then "up" else "" | None => "" end))
  end.

(** ** Registries *)
Definition path_char (a : ascii) : bool :=
  let n := nat_of_ascii a in
  ((48 <=? n) && (n <=? 57)) || ((65 <=? n) && (n <=? 90)) || ((97 <=? n) && (n <=? 122)) || bool_decide (a = "_"%char)
  || bool_decide (a = "-"%char).

(** ^[A-Za-z0-9_-]+$ *)
Definition isSafePathSegment (s : string) : bool := bool_decide (s ≠ "") && negb (existsc (λ a, negb (path_char a)) s).

(** The directory with the credentials of one command; [None] without credentials. *)
Definition prepareRegistryAuth (stackID commandID authB64 : string) : X (option string + string) :=
  if decide (authB64 = "") then mret (inl None)
  else if negb (isSafePathSegment stackID && isSafePathSegment commandID)
  then mret (inr "invalid stack/command id for registry auth dir")
  else match DecodeString authB64 with
  | None => mret (inr ("failed to decode registry auth: " +:+ corrupt_input authB64))
  | Some content =>
      let dir := command_dir "registry-auth" stackID commandID in
      made ← file_call (MkdirAll dir);
      match made with
      | Some e => mret (inr ("failed to create docker config dir: " +:+ text_of e))
      | None =>
          written ← file_call (WriteFile (PathJoin dir "config.json") content);
          match written with
          | Some e => file_call (RemoveAll dir);; mret (inr ("failed to write docker config: " +:+ text_of e))
          | None => mret (inl (Some dir))
          end
      end
  end.

Definition registryHostForAuthConfigKey (key : string) : string :=
  if decide (key = "https://index.docker.io/v1/") then "docker.io" else key.
Definition registryProbeHost (host : string) : string := if decide (host = "docker.io") then "registry-1.docker.io" else host.

Fixpoint check_auths (insecureHosts : list string) (auths : list (string * string)) (h : history) : option string :=
  match auths with
  | [] => None
  | (key, auth) :: auths =>
      let registryHost := registryHostForAuthConfigKey key in
      match check_registry h (registryProbeHost registryHost) auth (bool_decide (registryHost ∈ insecureHosts)) with
      | Some err => Some ("registry auth check failed for " +:+ registryHost +:+ ": " +:+ err)
      | None => check_auths insecureHosts auths h
      end
  end.

Definition validateRegistryAuth (authB64 : string) (insecureHosts : list string) : X (option string) :=
  if decide (authB64 = "") then mret None
  else match DecodeString authB64 with
  | None => mret (Some ("failed to decode registry auth: " +:+ corrupt_input authB64))
  | Some content =>
      match decode_auths content with
      | inr err => mret (Some ("failed to parse registry auth: " +:+ err))
      | inl auths => ask (check_auths insecureHosts (go_range auths))
      end
  end.

Definition checkInsecureRegistriesConfigured (hosts : list string) (info : string) : option string :=
  match decode_insecure info with
  | inr err => Some ("failed to parse docker daemon registry config: " +:+ err)
  | inl configs =>
      match filter (λ host, configs !! host ≠ Some true) hosts with
      | [] => None
      | host :: _ => Some ("registry " +:+ host +:+ " is marked insecure but is not listed in this worker's Docker daemon "
          +:+ "insecure-registries — add it to /etc/docker/daemon.json and restart Docker")
      end
  end.

Fixpoint find_binary (file : string) (dirs : list string) (h : history) : string + string :=
  match dirs with
  | [] => inr ("executable " +:+ Quote file +:+ " not found in safe paths")
  | dir :: dirs =>
      let path := PathJoin dir file in
      match h_stat w h path with Info _ false _ => inl path | _ => find_binary file dirs h end
  end.
Definition lookPathSecure (file : string) : X (string + string) := ask (find_binary file safeDirs).

Definition preflightInsecureRegistries (hosts : list string) : X (option string) :=
  if decide (hosts = []) then mret None
  else
    bin ← lookPathSecure "docker";
    match bin with
    | inr err => mret (Some ("failed to find docker binary: " +:+ err))
    | inl _ =>
        let c := Exec "" "" ["info"; "--format"; "{{json .RegistryConfig}}"] in
        '(out, err) ← tell c (λ h, h_exec w h c);
        mret (match err with
              | Some e => Some ("failed to query docker daemon registry config: " +:+ e)
              | None => checkInsecureRegistriesConfigured hosts out
              end)
    end.

(** The three steps before anything is run: an error, or the directory for DOCKER_CONFIG. *)
Definition prepare_registries (stackID commandID authB64 : string) (insecureHosts : list string) : X (option string + string) :=
  insecure ← preflightInsecureRegistries insecureHosts;
  match insecure with
  | Some err => mret (inr err)
  | None =>
      valid ← validateRegistryAuth authB64 insecureHosts;
      match valid with
      | Some err => mret (inr err)
      | None => prepareRegistryAuth stackID commandID authB64
      end
  end.

(** ** The commands *)
Definition run_options (cmd : DeployCommand) (config : option string) (workDir composeFile : string)
    (onLine : option (string → string)) : RunOptions :=
  {| WorkDir := workDir; ComposeFile := composeFile; ForcePull := ReconcileCore.ForcePull cmd;
     RemoveOrphans := ReconcileCore.RemoveOrphans cmd; DockerConfigDir := default "" config; OnLine := onLine |}.

Definition clean_config (config : option string) : X unit :=
  match config with Some dir => clean_dir dir | None => mret tt end.

(** Deploy and Redeploy differ in the start. *)
Definition deploy_with (cmd : DeployCommand) (onLine : bool) (up : RunOptions → X (string * option string)) : X CommandResult :=
  let id := ReconcileCore.CommandID cmd in
  config ← prepare_registries (ReconcileCore.StackID cmd) id (ReconcileCore.RegistryAuthB64 cmd) (ReconcileCore.InsecureRegistries cmd);
  match config with
  | inr err => mret (failed id err)
  | inl config =>
      '(output, runErr, (ms, step)) ←
        runInWorkDir (ReconcileCore.StackID cmd) id (ReconcileCore.ComposeFileB64 cmd) (ReconcileCore.EnvFileB64 cmd) onLine
          (λ workDir composeFile line,
             pullThenUp (ReconcileCore.PullTimeoutSeconds cmd) (ReconcileCore.UpTimeoutSeconds cmd)
               (run_options cmd config workDir composeFile line) (RunPull w) up) (0%Z, "");
      clean_config config;;
      mret (match runErr with
            | None => {| CommandID := id; Output := output; Error := ""; ComposeUpMs := ms; TimedOut := false; TimedOutStep := "" |}
            | Some err => {| CommandID := id; Output := output; Error := err; ComposeUpMs := ms;
                             TimedOut := bool_decide (step ≠ ""); TimedOutStep := step |}
            end)
  end.

Definition Deploy (cmd : DeployCommand) (onLine : bool) : X CommandResult := deploy_with cmd onLine (RunUp w).

Definition force_options (cmd : RedeployCommand) (opts : RunOptions) : ForceUpOptions :=
  {| fu_opts := opts; RecreateContainers := ProjectIdentity.RecreateContainers cmd;
     RecreateVolumes := ProjectIdentity.RecreateVolumes cmd; RecreateNetworks := ProjectIdentity.RecreateNetworks cmd |}.

Definition Redeploy (cmd : RedeployCommand) (onLine : bool) : X CommandResult :=
  let base := ProjectIdentity.rd_base cmd in
  deploy_with base onLine (λ opts,
    match ProjectIdentity.ProjectMigration cmd with
    | Some spec => runProjectIdentityMigration w yaml_parse yaml_error yaml_bool corrupt_input path_text max_bytes
                     (force_options cmd opts) (Some spec) (ReconcileCore.StackID base)
    | None => RunForceUp w (force_options cmd opts)
    end).

(** The fields of a TeardownCommand and of a ProbeCommand. *)
Record StackCommand := { sc_id : string; sc_stack : string; sc_compose : string; sc_env : string }.

Definition bare_options (workDir composeFile : string) (onLine : option (string → string)) : RunOptions :=
  {| WorkDir := workDir; ComposeFile := composeFile; ForcePull := false; RemoveOrphans := false; DockerConfigDir := "";
     OnLine := onLine |}.

Definition Teardown (cmd : StackCommand) (onLine : bool) : X CommandResult :=
  '(output, runErr, _) ←
    runInWorkDir (sc_stack cmd) (sc_id cmd) (sc_compose cmd) (sc_env cmd) onLine
      (λ workDir composeFile line, r ← RunDown w (bare_options workDir composeFile line); mret (r, tt)) tt;
  mret {| CommandID := sc_id cmd; Output := output; Error := default "" runErr; ComposeUpMs := 0; TimedOut := false;
          TimedOutStep := "" |}.

(** *** Probe *)
Definition ps_key (e : string * string) : string := if decide (e.1 = "") then e.2 else e.1.
Definition add_service (acc : list string) (e : string * string) : list string :=
  if decide (ps_key e ≠ "" ∧ ps_key e ∉ acc) then acc ++ [ps_key e] else acc.

Definition parse_ps (out : string) : list string :=
  let output := TrimSpace out in
  if decide (output = "" ∨ output = "[]" ∨ output = "null") then []
  else match decode_ps output with
  | Some entries => foldl add_service [] entries
  | None => foldl add_service [] (omap decode_ps_line (filter (λ l, l ≠ "") (TrimSpace <$> Split nl output)))
  end.

(** The exit status is ignored. *)
Definition RunPs (opts : RunOptions) : X (list string + string) :=
  bin ← trustedDockerBinary w;
  match bin with
  | inr err => mret (inr err)
  | inl _ =>
      let c := Exec (WorkDir opts) "" ["compose"; "-f"; or_default (ComposeFile opts); "ps"; "--format"; "json"; "--all"] in
      '(out, _) ← tell c (λ h, h_exec w h c);
      mret (inl (parse_ps out))
  end.

(** The services found, or the error of the work directory. *)
Definition Probe (cmd : StackCommand) : X (list string + string) :=
  '(_, runErr, services) ←
    runInWorkDir (sc_stack cmd) (sc_id cmd) (sc_compose cmd) (sc_env cmd) false
      (λ workDir composeFile _, r ← RunPs (bare_options workDir composeFile None);
         mret ("", None, match r with inl l => l | inr _ => [] end)) [];
  mret (match runErr with Some err => inr err | None => inl services end).
End executor.
