(* ===== verification/ExecutorSpec.v ===== *)
(** * What the worker's commands reveal and which files they touch *)
From Stdlib Require Import ZArith.
From S2P Require Import Prelude GoStrings GoPath GoFmt GoValue GoBase64 SafePath EnvFile ComposeRun Migration MigrationSpec.
From S2P Require Import Redact Executor.
From S2P Require ReconcileCore ProjectIdentity.

(** The command the server sends for a render, executed. *)
Definition execute `{GoRange} `{UnicodeTables} `{GoSort} `{WorkerEnv} (w : host) (c : ReconcileCore.command) (onLine : bool)
    : X CommandResult :=
  match c with
  | ProjectIdentity.Deploy cmd => Deploy w cmd onLine
  | ProjectIdentity.Redeploy cmd => Redeploy w cmd onLine
  end.

(** ** Calls of docker and compose *)
Definition docker_call (c : call) : Prop :=
  match c with
  | Exec _ _ _ | ContainerList _ | ContainerInspect _ | ContainerStop _ | ContainerRemove _ | VolumeRemove _ => True
  | _ => False
  end.

Section docker_calls.
Context `{GoRange} `{UnicodeTables} `{WorkerEnv} (w : host) (P : history → call → Prop).
Hypothesis Pdocker : ∀ h c, docker_call c → P h c.

(** The lines streamed through [onLine] are permitted. *)
Definition tidy (onLine : option (string → string)) : Prop :=
  match onLine with Some f => ∀ h line, P h (Emit (f line)) | None => True end.

Lemma emit_only f lines : (∀ h line, P h (Emit (f line))) → only P (emit_lines f lines).
Proof. intros Hf. induction lines; simpl; [apply only_ret|]. apply only_bind; [apply only_tell; intros; apply Hf|done]. Qed.

Lemma docker_only opts config prefix args : tidy (OnLine opts) → only P (run_docker w opts config prefix args).
Proof.
  intros Ht. unfold run_docker. apply only_bind; [by apply only_tell; intros; apply Pdocker|]. intros [out err].
  apply only_bind; [|intros ?; apply only_ret]. destruct (OnLine opts); [by apply emit_only|apply only_ret].
Qed.

Lemma find_only opts : only P (find_compose_file w opts).
Proof. unfold find_compose_file, trustedDockerBinary. calls. Qed.

Lemma pull_only opts : tidy (OnLine opts) → only P (RunPull w opts).
Proof. intros Ht. apply only_bind; [apply find_only|]. intros [f|]; [by apply docker_only|apply only_ret]. Qed.

Lemma up_only opts : tidy (OnLine opts) → only P (RunUp w opts).
Proof. intros Ht. apply only_bind; [apply find_only|]. intros [f|]; [by apply docker_only|apply only_ret]. Qed.

Lemma force_up_only o : tidy (OnLine (fu_opts o)) → only P (RunForceUp w o).
Proof.
  intros Ht. apply only_bind; [apply find_only|]. intros [f|]; [|apply only_ret]. apply only_bind.
  - destruct (RecreateNetworks o); [|apply only_ret]. apply only_bind; [by apply docker_only|]. intros []. apply only_ret.
  - intros [prior [err|]]; [apply only_ret|]. apply only_bind; [by apply docker_only|]. intros []. apply only_ret.
Qed.

Lemma say_only onLine text : tidy onLine → only P (emitMigrationLine onLine text).
Proof. intros Ht. destruct onLine; [apply only_tell; intros; apply Ht|apply only_ret]. Qed.

Lemma act_only c : docker_call c → only P (act w c).
Proof. intros Hc. apply only_tell. auto. Qed.

Lemma remove_only l : only P (removeStackContainers w l).
Proof.
  unfold removeStackContainers. apply only_bind; [|intros; apply only_ret].
  induction l as [|s l IH]; simpl; [apply only_ret|]. apply only_bind; [by apply act_only|]. intros stopped. apply only_bind.
  - destruct (real_error stopped); [apply only_ret|]. apply only_bind; [by apply act_only|]. intros ?. apply only_ret.
  - intros ?. apply only_bind; [done|]. intros ?. apply only_ret.
Qed.

Lemma volumes_only content : only P (removeNamedVolumes w yaml_parse yaml_error yaml_bool content).
Proof.
  unfold removeNamedVolumes. apply only_seq_err; [apply only_ret|]. intros names.
  induction names as [|n names IH]; simpl; [apply only_ret|]. apply only_bind; [by apply act_only|]. intros r.
  destruct (real_error r); [apply only_ret|done].
Qed.

Lemma restore_only opts spec stackID file cause out : tidy (OnLine opts) →
  only P (restorePrevious w opts spec stackID file cause out).
Proof.
  intros Ht. unfold restorePrevious. apply only_bind; [by apply say_only|]. intros ?.
  apply only_bind; [by apply only_tell; intros; apply Pdocker|]. intros listing. apply only_bind.
  - destruct listing; [|apply only_ret]. apply only_bind; [apply remove_only|]. intros ?. apply only_ret.
  - intros c. apply only_bind; [by apply up_only|]. intros [out' e]. destruct c, e; try apply only_ret.
    apply only_bind; [by apply say_only|]. intros ?. apply only_ret.
Qed.

Lemma migration_only o spec stackID : tidy (OnLine (fu_opts o)) →
  (∀ h c, P h (WriteFile (PathJoin (WorkDir (fu_opts o)) "previous-compose.yml") c)) →
  only P (runProjectIdentityMigration w yaml_parse yaml_error yaml_bool corrupt_input path_text max_bytes o spec stackID).
Proof.
  intros Ht Hw. unfold runProjectIdentityMigration. case_decide; [apply only_ret|]. destruct spec as [spec|]; [|apply only_ret].
  destruct (negb _); [apply only_ret|].
  apply only_bind; [by apply (only_stage _ _ _ _ _ _ _ (WorkDir (fu_opts o)))|]. intros [[[file pc] tc]|]; [|apply only_ret].
  unfold migrate. apply only_bind; [by apply say_only|]. intros ?. apply only_bind; [by apply only_preflight; intros; apply Pdocker|].
  intros [owned|]; [|apply only_ret]. apply only_bind; [by apply say_only|]. intros ?.
  apply only_bind; [apply remove_only|]. intros [[]|]; [|by apply restore_only]. apply only_bind.
  { unfold empty_volumes. destruct (RecreateVolumes o); [|apply only_ret].
    apply only_bind; [by apply say_only|]. intros ?. apply volumes_only. }
  intros [[]|]; [|by apply restore_only]. apply only_bind; [by apply say_only|]. intros ?.
  apply only_bind; [by apply force_up_only|]. intros [out [err|]]; [by apply restore_only|].
  apply only_bind; [by apply say_only|]. intros ?. apply only_ret.
Qed.

Lemma pull_then_up_only a b opts up : tidy (OnLine opts) → only P (up opts) → only P (pullThenUp a b opts (RunPull w) up).
Proof.
  intros Ht Hup. unfold pullThenUp, stepDeadlineFired. apply only_bind; [by apply pull_only|]. intros [po [pe|]].
  - apply only_bind; [apply only_ask|]. intros ?. apply only_ret.
  - apply only_bind; [done|]. intros []. do 2 (apply only_bind; [apply only_ask|]; intros ?). apply only_ret.
Qed.

(** The start of either command, in a work directory where the previous revision may be
    staged. *)
Definition start_of (c : ReconcileCore.command) : RunOptions → X (string * option string) :=
  match c with
  | ProjectIdentity.Deploy cmd => RunUp w
  | ProjectIdentity.Redeploy cmd => λ opts,
      match ProjectIdentity.ProjectMigration cmd with
      | Some spec => runProjectIdentityMigration w yaml_parse yaml_error yaml_bool corrupt_input path_text max_bytes
                       (force_options cmd opts) (Some spec) (ReconcileCore.StackID (ProjectIdentity.rd_base cmd))
      | None => RunForceUp w (force_options cmd opts)
      end
  end.

Lemma start_only c opts : tidy (OnLine opts) → (∀ h x, P h (WriteFile (PathJoin (WorkDir opts) "previous-compose.yml") x)) →
  only P (start_of c opts).
Proof.
  intros Ht Hw. destruct c as [cmd|cmd]; simpl; [by apply up_only|].
  destruct (ProjectIdentity.ProjectMigration cmd); [by apply migration_only|by apply force_up_only].
Qed.
End docker_calls.

Lemma execute_start `{GoRange} `{UnicodeTables} `{GoSort} `{WorkerEnv} (w : host) (c : ReconcileCore.command) (onLine : bool) :
  execute w c onLine = deploy_with w (ReconcileCore.base_of c) onLine (start_of w c).
Proof. by destruct c. Qed.

(** ** Secrets *)
Section secrets.
Context `{GoRange} `{UnicodeTables} `{GoSort} `{WorkerEnv} (w : host) (v : string).

(** A line that is streamed does not show the value. *)
Definition discreet (h : history) (c : call) : Prop := match c with Emit line => Contains line v = false | _ => True end.

(** *** From the file the server wrote *)
Definition compose_call (c : call) : Prop := ∃ dir config args, c = Exec dir config ("compose" :: args).

Definition before_compose (h : history) (c : call) : Prop := discreet h c ∧ ¬ compose_call c.

Lemma tell_before {A} (c : call) (f : history → A) :
  match c with Emit _ => False | Exec _ _ args => head args ≠ Some "compose" | _ => True end → only before_compose (tell c f).
Proof.
  intros Hc. apply only_tell. intros h. split; [by destruct c|]. intros (dir & config & args & ->). by apply Hc.
Qed.

Ltac before := repeat first [ apply only_ret | apply only_ask | apply tell_before; done | apply only_bind | apply only_seq_err
  | match goal with |- ∀ _, _ => intro end | match goal with |- only _ (match ?x with _ => _ end) => destruct x end
  | match goal with |- only _ (if ?x then _ else _) => destruct x end ].

Lemma registries_before s i auth hosts : only before_compose (prepare_registries w s i auth hosts).
Proof.
  unfold prepare_registries, preflightInsecureRegistries, lookPathSecure, validateRegistryAuth, prepareRegistryAuth, file_call.
  before.
Qed.

Lemma clean_before dir : only before_compose (clean_dir w dir).
Proof. unfold clean_dir, file_call. before. Qed.

Lemma workdir_before s id c e : only before_compose (prepareWorkDir w s id c e).
Proof. unfold prepareWorkDir, prepareComposeFile, applyEnvFile, clean_dir, file_call. before. Qed.

Context (envVars : list string) (envFileB64 kv key : string).
Hypothesis Hfile : ReconcileCore.buildEnvFileB64 envVars = inl envFileB64.
Hypothesis Hkv : kv ∈ envVars.
Hypothesis Hcut : cut "="%char kv = Some (key, v).
Hypothesis Hkey : HasPrefix key "#" = false.
Hypothesis Htrim : TrimSpace v = v.
Hypothesis Hv : maskable v.

Lemma env_file_read : ∃ content, envFileB64 ≠ "" ∧ DecodeString envFileB64 = Some content ∧ v ∈ parseEnvValues content.
Proof.
  assert (serializeEnvContent envVars ≠ inl "") as Hne.
  { destruct envVars as [|x rest]; [by apply elem_of_nil in Hkv|]. cbn [serializeEnvContent].
    destruct (cut _ x) as [[k y]|]; [|done]. destruct (validateEnvKey k); [done|].
    destruct (serializeEnvContent rest); [|done]. intros [= Hs]. by destruct k. }
  unfold ReconcileCore.buildEnvFileB64 in Hfile. destruct envVars as [|x rest]; [by apply elem_of_nil in Hkv|].
  destruct (serializeEnvContent (x :: rest)) as [content|] eqn:Hs; [|done]. simplify_eq. exists content. split_and!.
  - intros He. apply Hne. pose proof (base64_roundtrip content) as Hr. rewrite He in Hr. change (Some "" = Some content) in Hr. by simplify_eq.
  - apply base64_roundtrip.
  - eapply values_are_candidates; [exact Hs|exact Hkv|exact Hcut|done..|]. apply Hv.
Qed.

Lemma workdir_secrets s id c h d f secrets h' : prepareWorkDir w s id c envFileB64 h = (inl (d, f, secrets), h') → v ∈ secrets.
Proof.
  destruct env_file_read as (content & Hne & Hd & Hin).
  unfold prepareWorkDir, seq_err, mbind, X_bind. destruct (prepareComposeFile _ _ _ _ _) as [[[d' f']|] h1]; [|done].
  unfold applyEnvFile. rewrite decide_False // Hd. unfold mbind, X_bind, mret, X_ret.
  destruct (file_call w _ h1) as [[e|] h2]; [by destruct (clean_dir w _ h2)|]. simpl. intros Heq. by simplify_eq.
Qed.

(** The way out of a command: nothing was run under compose, or the error is clean too. *)
Definition discreet_end (out err : string) (h h' : history) : Prop :=
  Contains out v = false ∧ grows discreet h h' ∧ (grows before_compose h h' ∨ Contains err v = false).

Lemma v_ne : v ≠ "".
Proof. by apply maskable_ne. Qed.

Lemma Contains_empty : Contains "" v = false.
Proof. pose proof v_ne. by destruct v. Qed.

Lemma before_discreet h h' : grows before_compose h h' → grows discreet h h'.
Proof. apply grows_mono. by intros ?? []. Qed.

Lemma run_discreet {A} s id c onLine (fn : string → string → option (string → string) → X (string * option string * A)) none h :
  (∀ d f line, tidy discreet line → only discreet (fn d f line)) →
  let '((out, err, _), h') := runInWorkDir w s id c envFileB64 onLine fn none h in
  discreet_end out (default "" err) h h'.
Proof.
  intros Hfn. unfold runInWorkDir, mbind, X_bind. pose proof (workdir_before s id c envFileB64 h) as Hb.
  destruct (prepareWorkDir _ _ _ _ _ h) as [[[[d f] secrets]|err] h1] eqn:Hp; simpl in Hb.
  2: { split; [apply Contains_empty|]. split; [by apply before_discreet|by left]. }
  apply workdir_secrets in Hp. pose proof (redacted_hidden v Hv) as Hhide.
  set (line := if onLine then _ else _). assert (tidy discreet line) as Ht by (unfold line; destruct onLine; [intros ? l; by apply Hhide|done]).
  specialize (Hfn d f line Ht h1). destruct (fn d f line h1) as [[[out err] a] h2]. simpl in Hfn.
  pose proof (clean_before d h2) as Hc. destruct (clean_dir w d h2) as [[] h3]. simpl in Hc. split; [by apply Hhide|]. split.
  - eapply grows_trans; [by apply before_discreet|]. eapply grows_trans; [exact Hfn|by apply before_discreet].
  - right. destruct err; [by apply Hhide|apply Contains_empty].
Qed.

Lemma deploy_discreet cmd onLine up h : ReconcileCore.EnvFileB64 cmd = envFileB64 →
  (∀ opts, tidy discreet (OnLine opts) → only discreet (up opts)) →
  let '(r, h') := deploy_with w cmd onLine up h in discreet_end (Output r) (Error r) h h'.
Proof.
  intros He Hup. unfold deploy_with, mbind, X_bind.
  match goal with |- context [prepare_registries w ?s ?i ?a ?l h] => pose proof (registries_before s i a l h) as Hb end.
  destruct (prepare_registries w _ _ _ _ h) as [[config|err] h1]; simpl in Hb.
  2: { split; [apply Contains_empty|]. split; [by apply before_discreet|by left]. }
  rewrite He. match goal with |- context [runInWorkDir w ?s ?i ?c envFileB64 onLine ?fn ?n h1] =>
    pose proof (run_discreet s i c onLine fn n h1) as Hr; destruct (runInWorkDir w s i c envFileB64 onLine fn n h1)
      as [[[out err] [ms step]] h2] end.
  destruct Hr as (Ho & Hg & He').
  { intros d f line Ht. apply pull_then_up_only; [by intros ? []|done|by apply Hup]. }
  assert (grows before_compose h2 (clean_config w config h2).2) as Hg3
    by (destruct config as [dir|]; [apply clean_before|constructor]).
  destruct (clean_config w config h2) as [[] h3]. simpl in Hg3.
  assert (∀ e, (err = Some e ∨ err = None ∧ e = "") → discreet_end out e h h3) as Hend.
  { intros e Herr. split; [done|]. split.
    - eapply grows_trans; [by apply before_discreet|]. eapply grows_trans; [exact Hg|by apply before_discreet].
    - destruct He' as [Hbc|Hclean]; [left|right].
      + eapply grows_trans; [exact Hb|]. by eapply grows_trans.
      + destruct Herr as [-> |[-> ->]]; [done|apply Contains_empty]. }
  destruct err as [e|]; simpl; apply Hend; auto.
Qed.
End secrets.

(** C6: No value of the environment the server ships with a command comes back: whatever
    docker prints or reports, it is in no line the worker streams, not in the output and,
    once docker compose was run, not in the error.  (A value of at least four bytes without
    surrounding space or square brackets that is not part of the placeholder, under a name
    that does not start a comment.) *)
Theorem worker_hides_secrets `{GoRange} `{UnicodeTables} `{GoSort} `{WorkerEnv} (w : host) (envVars : list string) (kv key v : string)
    (c : ReconcileCore.command) (onLine : bool) (h : history) :
  ReconcileCore.buildEnvFileB64 envVars = inl (ReconcileCore.EnvFileB64 (ReconcileCore.base_of c)) → kv ∈ envVars →
  cut "="%char kv = Some (key, v) → HasPrefix key "#" = false → TrimSpace v = v → maskable v →
  let '(r, h') := execute w c onLine h in
  Contains (Output r) v = false
  ∧ ∃ new, h' = h ++ new ∧ (∀ line, Emit line ∈ new → Contains line v = false)
    ∧ ((∃ call, call ∈ new ∧ compose_call call) → Contains (Error r) v = false).
Proof.
  intros Hf Hkv Hcut Hkey Ht Hv.
  assert (let '(r, h') := execute w c onLine h in discreet_end v (Output r) (Error r) h h') as Hd.
  { rewrite execute_start. eapply deploy_discreet; [done..|]. intros opts Htidy. by apply start_only; [intros ? []|..]. }
  destruct (execute w c onLine h) as [r h']. destruct Hd as (Ho & Hg & He). split; [done|].
  apply grows_split in Hg as (new & -> & Hn). exists new. split; [done|]. split.
  - intros line [i Hi]%list_elem_of_lookup. exact (Hn i _ Hi).
  - intros (call & Hin & Hc). destruct He as [Hb|]; [|done]. exfalso.
    apply grows_split in Hb as (new' & Heq & Hn'). apply app_inv_head in Heq as <-.
    apply list_elem_of_lookup in Hin as [i Hi]. by destruct (Hn' i _ Hi).
Qed.

(** ** Files *)

(** A path strictly below a directory. *)
Definition below (dir p : string) : Prop := IsAbs p = IsAbs dir ∧ ∃ c rest, path_comps p = path_comps dir ++ rest ++ [c].

Lemma below_join dir p c : dir ≠ "" → p ≠ "" → inside dir p → proper c → below dir (PathJoin p c).
Proof.
  intros Hd Hp [HA [rest Hr]] Hc. destruct (PathJoin_comps p c) as [HA' _]; [done|apply Hc|].
  split; [congruence|]. exists c, rest. rewrite PathJoin_proper // Hr. by rewrite assoc_L.
Qed.

Lemma below_inside dir p : below dir p → inside dir p.
Proof. intros (HA & c & rest & Hp). split; [done|]. by exists (rest ++ [c]). Qed.

Lemma inside_base dir kind x : dir ≠ "" → proper kind → inside dir (PathJoin (PathJoin dir kind) (Base x)).
Proof.
  intros Hd Hk. pose proof (PathJoin_ne dir kind Hd) as Hp. assert (Base x ≠ "") as Hb.
  { unfold Base. case_decide; [done|]. cbv zeta. by case_decide. }
  destruct (PathJoin_comps (PathJoin dir kind) (Base x) Hp Hb) as [HA Hc].
  destruct (PathJoin_comps dir kind Hd ltac:(apply Hk)) as [HA' _].
  rewrite (PathJoin_proper dir kind) // reverse_snoc in Hc. split; [congruence|]. rewrite Hc.
  destruct (Base_single x) as [->|Hs].
  - change (Split slash "/") with ["";""]. exists [kind]. simpl. by rewrite reverse_cons reverse_involutive.
  - rewrite Split_single //. simpl. unfold clean_step. case_decide.
    + exists [kind]. by rewrite reverse_cons reverse_involutive.
    + case_decide.
      * rewrite decide_False; [|apply Hk]. exists []. by rewrite reverse_involutive app_nil_r.
      * exists [kind; Base x]. by rewrite !reverse_cons reverse_involutive -assoc_L.
Qed.

Lemma command_dir_below `{WorkerEnv} kind stackID commandID : stackDir ≠ "" → proper kind →
  below stackDir (command_dir kind stackID commandID).
Proof.
  intros Hd Hk. unfold command_dir. pose proof (inside_base stackDir kind stackID Hd Hk) as Hi.
  set (p := PathJoin (PathJoin stackDir kind) (Base stackID)) in *.
  assert (p ≠ "") as Hp by (unfold p; by do 2 apply PathJoin_ne).
  destruct (Base_single commandID) as [->|Hs].
  - change ("cmd-" +:+ "/") with "cmd-/". destruct Hi as [HA [rest Hr]]. destruct (PathJoin_comps p "cmd-/") as [HA' Hc]; [done..|]. split; [congruence|].
    exists "cmd-", rest. rewrite Hc Hr. change (Split slash "cmd-/") with ["cmd-"; ""].
    cbn [foldl]. unfold clean_step. simpl. by rewrite reverse_cons reverse_involutive -assoc_L.
  - apply below_join; [done..|]. split_and!; try done. simpl. intros [?|[?|[?|[?|?]]]]; done.
Qed.

Section files.
Context `{GoRange} `{UnicodeTables} `{GoSort} `{WorkerEnv} (w : host).
Hypothesis Hdir : stackDir ≠ "".

(** Files are written and removed strictly below the worker's directory. *)
Definition file_below (h : history) (c : call) : Prop :=
  match c with MkdirAll p | WriteFile p _ | Remove p | RemoveAll p => below stackDir p | _ => True end.

Lemma file_of_below dir name : dir ≠ "" → below stackDir dir → proper name → below stackDir (PathJoin dir name).
Proof. intros Hd Hb Hn. apply below_join; [done..|by apply below_inside|done]. Qed.

Lemma tell_below c : (∀ h, file_below h c) → only file_below (file_call w c).
Proof. intros Hc. by apply only_tell. Qed.

Lemma clean_below dir : below stackDir dir → only file_below (clean_dir w dir).
Proof.
  intros Hb. unfold clean_dir. destruct keepWorkerWorkDir; [apply only_ret|].
  apply only_bind; [by apply tell_below|]. intros ?. apply only_ret.
Qed.

Lemma command_dir_ne kind s i : command_dir kind s i ≠ "".
Proof. unfold command_dir. by do 3 apply PathJoin_ne. Qed.

(** A directory made and one file written in it. *)
Lemma stage_below {A} kind s i name content (k1 : failure → A) (k2 : failure → A) (k3 : A) : proper kind → proper name →
  only file_below (
    let dir := command_dir kind s i in
    made ← file_call w (MkdirAll dir);
    match made with
    | Some e => mret (k1 e)
    | None =>
        written ← file_call w (WriteFile (PathJoin dir name) content);
        match written with Some e => file_call w (RemoveAll dir);; mret (k2 e) | None => mret k3 end
    end).
Proof.
  intros Hk Hn. pose proof (command_dir_below kind s i Hdir Hk) as Hb. cbv zeta.
  apply only_bind; [by apply tell_below|]. intros [e|]; [apply only_ret|].
  apply only_bind; [apply tell_below; intros h; apply file_of_below; [apply command_dir_ne|done..]|].
  intros [e|]; [|apply only_ret]. apply only_bind; [by apply tell_below|]. intros ?. apply only_ret.
Qed.

Lemma registries_below s i auth hosts : only file_below (prepare_registries w s i auth hosts).
Proof.
  unfold prepare_registries. apply only_bind.
  { unfold preflightInsecureRegistries, lookPathSecure. case_decide; [apply only_ret|]. apply only_bind; [apply only_ask|].
    intros []; [|apply only_ret]. apply only_bind; [by apply only_tell|]. intros []. apply only_ret. }
  intros [err|]; [apply only_ret|]. apply only_bind.
  { unfold validateRegistryAuth. case_decide; [apply only_ret|]. destruct (DecodeString _); [|apply only_ret].
    destruct (decode_auths _); [apply only_ask|apply only_ret]. }
  intros [err|]; [apply only_ret|]. unfold prepareRegistryAuth. case_decide; [apply only_ret|].
  destruct (negb _); [apply only_ret|]. destruct (DecodeString _); [|apply only_ret].
  apply stage_below; by apply (bool_decide_unpack _).
Qed.

Lemma registries_dir s i auth hosts h dir h' : prepare_registries w s i auth hosts h = (inl (Some dir), h') →
  dir = command_dir "registry-auth" s i.
Proof.
  unfold prepare_registries, mbind, X_bind. destruct (preflightInsecureRegistries _ _ _) as [[?|] h1]; [done|].
  destruct (validateRegistryAuth _ _ h1) as [[?|] h2]; [done|]. unfold prepareRegistryAuth. case_decide; [done|].
  destruct (negb _); [done|]. destruct (DecodeString _); [|done]. unfold mbind, X_bind.
  destruct (file_call _ _ h2) as [[?|] h3]; [done|]. destruct (file_call _ _ h3) as [[?|] h4]; [by destruct (file_call _ _ h4)|].
  intros [= <- <-]. eauto.
Qed.

Lemma compose_file_dir s i c h dir file h' : prepareComposeFile w s i c h = (inl (dir, file), h') → dir = command_dir "stacks" s i.
Proof.
  unfold prepareComposeFile. destruct (DecodeString c); [|done]. unfold mbind, X_bind, mret, X_ret.
  destruct (file_call _ _ h) as [[?|] h2]; [done|]. destruct (file_call _ _ h2) as [[?|] h3]; [by destruct (file_call _ _ h3)|].
  intros Heq. by simplify_eq.
Qed.

Lemma workdir_below s i c e : only file_below (prepareWorkDir w s i c e).
Proof.
  assert (proper "stacks" ∧ proper "docker-compose.yml" ∧ proper ".env") as (Hs & Hc & He)
    by (split_and!; by apply (bool_decide_unpack _)).
  pose proof (command_dir_below "stacks" s i Hdir Hs) as Hb.
  intros h. unfold prepareWorkDir, seq_err, mbind, X_bind.
  assert (only file_below (prepareComposeFile w s i c)) as Hp.
  { unfold prepareComposeFile. destruct (DecodeString c); [|apply only_ret]. by apply stage_below. }
  specialize (Hp h). destruct (prepareComposeFile w s i c h) as [[[dir file]|] h1] eqn:Hpc; [|done]. simpl in Hp.
  apply compose_file_dir in Hpc as ->.
  eapply grows_trans; [exact Hp|]. simpl.
  assert (only file_below (applyEnvFile w (command_dir "stacks" s i) e)) as Ha.
  { pose proof (file_of_below _ ".env" (command_dir_ne "stacks" s i) Hb He) as Hf. unfold applyEnvFile. case_decide.
    - apply only_bind; [by apply tell_below|]. intros ?. apply only_ret.
    - destruct (DecodeString e); [|apply only_ret]. apply only_bind; [by apply tell_below|]. intros ?. apply only_ret. }
  specialize (Ha h1). destruct (applyEnvFile _ _ _ h1) as [[secrets|err] h2]; simpl in Ha; [done|].
  eapply grows_trans; [exact Ha|]. pose proof (clean_below _ Hb h2) as Hcl. by destruct (clean_dir _ _ h2).
Qed.

Lemma workdir_dir s i c e h d f secrets h' : prepareWorkDir w s i c e h = (inl (d, f, secrets), h') → d = command_dir "stacks" s i.
Proof.
  unfold prepareWorkDir, seq_err, mbind, X_bind. destruct (prepareComposeFile _ _ _ _ h) as [[[dir file]|] h1] eqn:Hpc; [|done].
  destruct (applyEnvFile _ _ _ _) as [[?|] h2]; [|by destruct (clean_dir _ _ h2)]. intros [= <- <- <- <-].
  by apply compose_file_dir in Hpc.
Qed.

Lemma tidy_below onLine : tidy file_below onLine.
Proof. by destruct onLine. Qed.

Lemma deploy_below c onLine : only file_below (execute w c onLine).
Proof.
  rewrite execute_start. intros h. unfold deploy_with, mbind, X_bind. set (cmd := ReconcileCore.base_of c).
  match goal with |- context [prepare_registries w ?s ?i ?a ?l h] => pose proof (registries_below s i a l h) as Hr end.
  destruct (prepare_registries w _ _ _ _ h) as [[config|err] h1] eqn:Hp; [|done].
  simpl in Hr. eapply grows_trans; [exact Hr|]. unfold runInWorkDir, mbind, X_bind.
  pose proof (workdir_below (ReconcileCore.StackID cmd) (ReconcileCore.CommandID cmd) (ReconcileCore.ComposeFileB64 cmd)
                (ReconcileCore.EnvFileB64 cmd) h1) as Hw.
  assert (∀ h2, grows file_below h2 (clean_config w config h2).2) as Hconf.
  { intros h2. destruct config as [dir|]; [|constructor]. apply registries_dir in Hp as ->.
    apply clean_below, command_dir_below; [done|by apply (bool_decide_unpack _)]. }
  destruct (prepareWorkDir w _ _ _ _ h1) as [[[[d f] secrets]|err] h2] eqn:Hd; simpl in Hw.
  2: { eapply grows_trans; [exact Hw|]. specialize (Hconf h2). simpl. by destruct (clean_config w config h2). }
  apply workdir_dir in Hd. assert (below stackDir d) as Hb
    by (subst d; apply command_dir_below; [done|by apply (bool_decide_unpack _)]).
  eapply grows_trans; [exact Hw|]. match goal with |- context [pullThenUp ?a ?b ?opts ?pull ?up h2] =>
    assert (only file_below (pullThenUp a b opts pull up)) as Hpu end.
  { apply pull_then_up_only; [by intros ? []|apply tidy_below|]. apply start_only; [by intros ? []|apply tidy_below|].
    intros h' x. apply file_of_below; [|done|by apply (bool_decide_unpack _)]. simpl. subst d. apply command_dir_ne. }
  specialize (Hpu h2). destruct (pullThenUp _ _ _ _ _ h2) as [[[out err] [ms step]] h3]. simpl in Hpu.
  eapply grows_trans; [exact Hpu|]. pose proof (clean_below d Hb h3) as Hcl. destruct (clean_dir w d h3) as [[] h4]. simpl in Hcl |- *.
  eapply grows_trans; [exact Hcl|]. specialize (Hconf h4). by destruct (clean_config w config h4), err.
Qed.
End files.

(** C33: Whatever ids a command carries, the worker writes and removes files only strictly
    below its own directory. *)
Theorem worker_files_contained `{GoRange} `{UnicodeTables} `{GoSort} `{WorkerEnv} (w : host) (c : ReconcileCore.command)
    (onLine : bool) (h : history) : stackDir ≠ "" →
  let '(_, h') := execute w c onLine h in
  ∃ new, h' = h ++ new ∧ ∀ call, call ∈ new →
    match call with MkdirAll p | WriteFile p _ | Remove p | RemoveAll p => below stackDir p | _ => True end.
Proof.
  intros Hd. pose proof (deploy_below w Hd c onLine h) as Hg. destruct (execute w c onLine h) as [r h']. simpl in Hg.
  apply grows_split in Hg as (new & -> & Hn). exists new. split; [done|].
  intros call [i Hi]%list_elem_of_lookup. exact (Hn i _ Hi).
Qed.

(** ** A run *)
Definition longer (a b : string) : Prop := String.length b ≤ String.length a.
#[local] Instance longer_dec : RelDecision longer := λ a b, decide (String.length b ≤ String.length a).
#[local] Instance longer_total : Total longer.
Proof. intros a b. unfold longer. lia. Qed.
#[local] Instance any_sort : GoSort :=
  {| by_length := merge_sort longer; by_length_perm := merge_sort_Permutation longer; by_length_sorted := Sorted_merge_sort longer |}.

#[local] Instance home : WorkerEnv := {|
  stackDir := "/home/w/.wireops"; keep_workdir := ""; elapsed := λ _, 5%Z; parent_done := λ _, false; deadline_hit := λ _ _, false;
  corrupt_input := λ _, ""; path_text := λ _, ""; max_bytes := 1000; yaml_parse := λ _, None; yaml_error := λ _, "";
  yaml_bool := λ _, None; decode_auths := λ _, inl ∅; decode_insecure := λ _, inl ∅; check_registry := λ _ _ _ _, None;
  decode_ps := λ _, None; decode_ps_line := λ _, None |}.

(** Docker prints what it was given and fails. *)
Definition chatty : host := {|
  h_stat := λ _ _, Info true false true; h_open := λ _ _, inr ""; h_root := λ _ _, None;
  h_exec := λ _ _, ("login with s3cr3t!x" +:+ newline, Some "bad password s3cr3t!x"); h_client := λ _, None;
  h_list := λ _ _, inl []; h_inspect := λ _ _, inr (NotFound ""); h_docker := λ _ _, None; h_file := λ _ _, None |}.

Definition order : ReconcileCore.command := ProjectIdentity.Deploy
  {| ReconcileCore.CommandID := "c1"; ReconcileCore.StackID := "s1"; ReconcileCore.CommitSHA := "abc"; ReconcileCore.Trigger := "manual";
     ReconcileCore.QueueTotal := 0; ReconcileCore.ComposeFileB64 := ""; ReconcileCore.EnvFileB64 := "VE9LRU49czNjcjN0IXgK";
     ReconcileCore.ForcePull := false; ReconcileCore.RemoveOrphans := true; ReconcileCore.RegistryAuthB64 := "";
     ReconcileCore.InsecureRegistries := []; ReconcileCore.PullTimeoutSeconds := 300; ReconcileCore.UpTimeoutSeconds := 300 |}.

Lemma deploy_run :
  let '(r, h) := @execute some_range (λ _, true) _ _ chatty order true [] in
  (Output r, Error r, omap (λ c, match c with Emit l => Some l | _ => None end) h)
  = ("login with [REDACTED]" +:+ newline, "docker compose pull failed: bad password [REDACTED]", ["login with [REDACTED]"]).
Proof. by vm_compute. Qed.

Lemma worker_hides_secrets_witness :
  let '(r, h') := @execute some_range (λ _, true) _ _ chatty order true [] in
  Contains (Output r) "s3cr3t!x" = false
  ∧ ∃ new, h' = [] ++ new ∧ (∀ line, Emit line ∈ new → Contains line "s3cr3t!x" = false)
    ∧ ((∃ call, call ∈ new ∧ compose_call call) → Contains (Error r) "s3cr3t!x" = false).
Proof.
  apply (@worker_hides_secrets some_range (λ _, true) any_sort home chatty ["TOKEN=s3cr3t!x"] "TOKEN=s3cr3t!x" "TOKEN" "s3cr3t!x" order true []).
  - vm_compute. reflexivity.
  - left.
  - reflexivity.
  - reflexivity.
  - vm_compute. reflexivity.
  - apply (bool_decide_unpack _). vm_compute. exact I.
Defined.

Lemma worker_files_contained_witness :
  let '(_, h') := @execute some_range (λ _, true) _ _ chatty order true [] in
  ∃ new, h' = [] ++ new ∧ ∀ call, call ∈ new →
    match call with MkdirAll p | WriteFile p _ | Remove p | RemoveAll p => below (@stackDir home) p | _ => True end.
Proof. apply (@worker_files_contained some_range (λ _, true) any_sort home chatty order true []). discriminate. Defined.
