(* ===== verification/WorkerJobs.v ===== *)
(** * worker/executor/runner.go: jobs

    A job is one [docker run]: its volumes are checked, its config files are written to a
    directory of the run and mounted read-only, the registries are prepared and the
    container is run under a time limit.  The command is the record the job scheduler of
    the server builds. *)
From Stdlib Require Import ZArith.
From S2P Require Import Prelude GoStrings GoPath GoFmt GoBase64 SafePath JobFile ComposeRun Migration Redact Executor.
From S2P Require JobDispatch.
Import JobDispatch(RunJobCommand, ConfigFileSpec, rj_JobRunID, JobName, Image, Command, Env, RepositoryID, RepositoryBranch,
  RepositoryFile, CommitSHA, Volumes, Network, CPUs, MemoryLimit, TimeoutSeconds, ConfigFiles,
  cf_Name, cf_RelPath, cf_Target, cf_Mode, cf_ContentB64).

(** ** [time.Duration] as text *)

(** The digits after the point, without the zeros at the end. *)
Definition fmt_frac (prec : nat) (v : Z) : string :=
  let digits := Itoa (v `mod` 10 ^ Z.of_nat prec) in
  let padded := Join "" (replicate (prec - String.length digits) "0") +:+ digits in
  let shown := trim_right ["0"] padded in
  if decide (shown = "") then "" else "." +:+ shown.

Definition duration_text (d : Z) : string :=
  let u := Z.abs d in
  let in_unit prec unit := Itoa (u / 10 ^ Z.of_nat prec) +:+ fmt_frac prec u +:+ unit in
  let text :=
    if decide (u = 0)%Z then "0s"
    else if decide (u < 1000)%Z then in_unit 0 "ns"
    else if decide (u < 1000000)%Z then in_unit 3 "µs"
    else if decide (u < 1000000000)%Z then in_unit 6 "ms"
    else
      let s := (u / 1000000000)%Z in
      let seconds := Itoa (s `mod` 60) +:+ fmt_frac 9 u +:+ "s" in
      if decide (s < 60)%Z then seconds
      else if decide (s < 3600)%Z then Itoa (s / 60) +:+ "m" +:+ seconds
      else Itoa (s / 3600) +:+ "h" +:+ Itoa ((s / 60) `mod` 60) +:+ "m" +:+ seconds in
  if decide (d < 0)%Z then "-" +:+ text else text.

Example ten_minutes : duration_text 600000000000 = "10m0s". Proof. vm_compute. reflexivity. Qed.
Example millis : duration_text 1500000 = "1.5ms". Proof. vm_compute. reflexivity. Qed.

(** ** The arguments of [docker run] *)
Definition option_when (value flag prefix : string) : list string :=
  if decide (value = "") then [] else [flag; prefix +:+ value].

Definition container_of (jobRunID : string) : string := "wireops-job-" +:+ jobRunID.

(** Everything between [run] and the image. *)
Definition run_options (cmd : RunJobCommand) `{GoRange} (volumes : list string) : list string :=
  ["--rm"; "--name"; container_of (rj_JobRunID cmd)]
  ++ option_when (CPUs cmd) "--cpus" "" ++ option_when (MemoryLimit cmd) "-m" ""
  ++ ["-l"; "dev.wireops.managed=true"]
  ++ option_when (RepositoryID cmd) "-l" "dev.wireops.repository.id="
  ++ option_when (RepositoryBranch cmd) "-l" "dev.wireops.repository.branch="
  ++ option_when (RepositoryFile cmd) "-l" "dev.wireops.repository.file="
  ++ option_when (CommitSHA cmd) "-l" "dev.wireops.repository.commit_sha="
  ++ option_when (JobName cmd) "-l" "dev.wireops.job.name="
  ++ (go_range (Env cmd) ≫= λ kv, ["-e"; kv.1 +:+ "=" +:+ kv.2])
  ++ (volumes ≫= λ v, ["-v"; v])
  ++ option_when (Network cmd) "--network" "".

Definition BuildDockerRunArgs `{GoRange} (cmd : RunJobCommand) (volumes : list string) : list string :=
  "run" :: run_options cmd volumes ++ Image cmd :: Command cmd.

(** ** The checks of the worker *)
Section checks.
Context `{UnicodeTables} `{WorkerEnv}.

Fixpoint validateVolumePaths (volumes : list string) : option string :=
  match volumes with
  | [] => None
  | vol :: volumes =>
      let vol := TrimSpace vol in
      let hostPath := before ":"%char vol in
      if bool_decide (vol = "") then validateVolumePaths volumes
      else if Contains hostPath "/" || HasPrefix hostPath "." then
        match ValidateHostPath hostPath with
        | Some e => Some ("invalid volume path: " +:+ path_text e)
        | None => validateVolumePaths volumes
        end
      else validateVolumePaths volumes
  end.
End checks.

(** ** The run *)

(** Why a context has ended. *)
Inductive ctx_error := DeadlineExceeded | Canceled.

Record JobCompletedMessage := { jc_JobRunID : string; Success : bool; jc_Output : string; DurationMs : Z }.

Definition job_failed (jobRunID out : string) : JobCompletedMessage :=
  {| jc_JobRunID := jobRunID; Success := false; jc_Output := out; DurationMs := 0 |}.

(** The specs of each name, and the names in the order they come up. *)
Definition groups : Type := list string * gmap string (list ConfigFileSpec).

Definition add_spec (g : groups) (f : ConfigFileSpec) : groups :=
  (if decide (g.2 !! cf_Name f = None) then g.1 ++ [cf_Name f] else g.1,
   <[cf_Name f := default [] (g.2 !! cf_Name f) ++ [f]]> g.2).

Section jobs.
Context `{GoRange} `{UnicodeTables} `{GoSort} `{WorkerEnv} (w : host).

(** ** Config files *)
Definition configs_dir (jobRunID : string) : string := PathJoin (PathJoin (PathJoin stackDir "jobs") jobRunID) "configs".

Definition rel_path_error (f : ConfigFileSpec) : option path_error :=
  if decide (cf_RelPath f = "") then None
  else match CleanRelativePath (cf_RelPath f) with inl e => Some e | inr _ => None end.

Fixpoint group_specs (files : list ConfigFileSpec) (g : groups) : groups + string :=
  match files with
  | [] => inl g
  | f :: files =>
      match ValidateConfigName (cf_Name f) with
      | Some e => inr ("invalid config name " +:+ Quote (cf_Name f) +:+ ": " +:+ path_text e)
      | None =>
          match rel_path_error f with
          | Some e => inr ("invalid config " +:+ Quote (cf_Name f) +:+ " rel_path " +:+ Quote (cf_RelPath f) +:+ ": " +:+ path_text e)
          | None => group_specs files (add_spec g f)
          end
      end
  end.

Definition decode_config (f : ConfigFileSpec) : string + string :=
  match DecodeString (cf_ContentB64 f) with
  | Some content => inl content
  | None => inr ("failed to decode config " +:+ Quote (cf_Name f) +:+ ": " +:+ corrupt_input (cf_ContentB64 f))
  end.

Definition checked_call (c : call) (prefix : string) : X (unit + string) :=
  r ← file_call w c;
  mret (match r with Some e => inr (prefix +:+ ": " +:+ text_of e) | None => inl tt end).

Definition write_config (path content : string) (f : ConfigFileSpec) : X (unit + string) :=
  checked_call (WriteFile path content) ("failed to write config " +:+ Quote (cf_Name f)).

(** The files of one directory source. *)
Fixpoint stage_tree (groupDir : string) (specs : list ConfigFileSpec) : X (unit + string) :=
  match specs with
  | [] => mret (inl tt)
  | f :: specs =>
      content ←? mret (decode_config f);
      let path := PathJoin groupDir (cf_RelPath f) in
      _ ←? checked_call (MkdirAll (Dir path)) ("failed to create config dir for " +:+ Quote (cf_Name f));
      _ ←? write_config path content f;
      stage_tree groupDir specs
  end.

Definition mount_ro (path target : string) : string := path +:+ ":" +:+ target +:+ ":ro".

(** One group: a file of its own, or a directory. *)
Definition stage_group (dir name : string) (specs : list ConfigFileSpec) : X (string + string) :=
  let path := PathJoin dir name in
  let target := default "" (cf_Target <$> head specs) in
  match specs with
  | [f] =>
      if decide (cf_RelPath f = "") then
        content ←? mret (decode_config f);
        _ ←? write_config path content f;
        mret (inl (mount_ro path target))
      else
        _ ←? checked_call (MkdirAll path) ("failed to create config dir " +:+ Quote name);
        _ ←? stage_tree path specs;
        mret (inl (mount_ro path target))
  | _ =>
      _ ←? checked_call (MkdirAll path) ("failed to create config dir " +:+ Quote name);
      _ ←? stage_tree path specs;
      mret (inl (mount_ro path target))
  end.

Fixpoint stage_groups (dir : string) (grouped : gmap string (list ConfigFileSpec)) (order : list string) : X (list string + string) :=
  match order with
  | [] => mret (inl [])
  | name :: order =>
      v ←? stage_group dir name (default [] (grouped !! name));
      vs ←? stage_groups dir grouped order;
      mret (inl (v :: vs))
  end.

(** The mounts and the directory to remove afterwards, or an error. *)
Definition prepareJobConfigFiles (jobRunID : string) (files : list ConfigFileSpec) : X ((list string * option string) + string) :=
  if decide (files = []) then mret (inl ([], None))
  else match ValidateConfigName jobRunID with
  | Some e => mret (inr ("invalid job run id: " +:+ path_text e))
  | None =>
      let dir := configs_dir jobRunID in
      _ ←? checked_call (MkdirAll dir) "failed to create job config dir";
      g ←? mret (group_specs files ([], ∅));
      staged ← stage_groups dir g.2 g.1;
      match staged with
      | inr err => clean_dir w dir;; mret (inr err)
      | inl volumes => mret (inl (volumes, Some dir))
      end
  end.

(** ** Running and killing *)

(** Why the context of a run with a budget has ended by then, and whether the ten seconds
    of a kill are over. *)
Context (run_ended : Z → history → option ctx_error) (kill_expired : history → bool).

Definition job_timeout (cmd : RunJobCommand) : Z :=
  if decide (0 < TimeoutSeconds cmd)%Z then wrap64 (TimeoutSeconds cmd * 1000000000) else (10 * 60 * 1000000000)%Z.

Definition job_secrets (cmd : RunJobCommand) : list string :=
  filter (λ v, minRedactableSecretLen ≤ String.length v) ((go_range (Env cmd)).*2).

Definition exec_docker (config : string) (args : list string) : X (string * option string) :=
  let c := Exec "" config args in tell c (λ h, h_exec w h c).

(** [docker stop] of the container, its result ignored. *)
Definition stop_container (jobRunID : string) : X unit :=
  bin ← lookPathSecure w "docker";
  match bin with
  | inr _ => mret tt
  | inl _ => _ ← exec_docker "" ["stop"; container_of jobRunID]; mret tt
  end.

Definition with_line (out err : string) : string := if decide (out = "") then err else out +:+ newline +:+ err.

Definition run_container (cmd : RunJobCommand) (volumes : list string) (config : option string) : X JobCompletedMessage :=
  let done ok out ms := {| jc_JobRunID := rj_JobRunID cmd; Success := ok; jc_Output := out; DurationMs := ms |} in
  bin ← lookPathSecure w "docker";
  match bin with
  | inr err => mret (job_failed (rj_JobRunID cmd) ("failed to find docker binary: " +:+ err))
  | inl _ =>
      '(out, runErr) ← exec_docker (default "" config) (BuildDockerRunArgs cmd (Volumes cmd ++ volumes));
      let output := redactSecrets out (redactionCandidates (job_secrets cmd)) in
      ms ← ask (λ h, elapsed h);
      match runErr with
      | None => mret (done true output ms)
      | Some err =>
          ended ← ask (run_ended (job_timeout cmd));
          match ended with
          | None => mret (done false (with_line output err) ms)
          | Some why =>
              stop_container (rj_JobRunID cmd);;
              mret (done false
                (match why with
                 | DeadlineExceeded => "failed to start job, timeout exceeded: execution took longer than "
                                       +:+ duration_text (job_timeout cmd)
                 | Canceled => "failed to start job, execution was cancelled"
                 end) ms)
          end
      end
  end.

(** With the registries prepared. *)
Definition run_authenticated (cmd : RunJobCommand) (volumes : list string) : X JobCompletedMessage :=
  config ← prepare_registries w (rj_JobRunID cmd) (JobDispatch.CommandID cmd) (JobDispatch.RegistryAuthB64 cmd)
             (JobDispatch.InsecureRegistries cmd);
  match config with
  | inr err => mret (job_failed (rj_JobRunID cmd) ("failed to start job, " +:+ err))
  | inl config => r ← run_container cmd volumes config; clean_config w config;; mret r
  end.

Definition RunJob (cmd : RunJobCommand) : X JobCompletedMessage :=
  match validateVolumePaths (Volumes cmd) with
  | Some err => mret (job_failed (rj_JobRunID cmd) ("failed to start job, " +:+ err))
  | None =>
      staged ← prepareJobConfigFiles (rj_JobRunID cmd) (ConfigFiles cmd);
      match staged with
      | inr err => mret (job_failed (rj_JobRunID cmd) ("failed to stage config files, " +:+ err))
      | inl (volumes, dir) => r ← run_authenticated cmd volumes; clean_config w dir;; mret r
      end
  end.

Definition KillJob (commandID jobRunID : string) : X CommandResult :=
  bin ← lookPathSecure w "docker";
  match bin with
  | inr err => mret (failed commandID ("failed to find docker binary: " +:+ err))
  | inl _ =>
      '(out, err) ← exec_docker "" ["stop"; container_of jobRunID];
      match err with
      | None => mret {| CommandID := commandID; Output := "stopped"; Error := ""; ComposeUpMs := 0; TimedOut := false; TimedOutStep := "" |}
      | Some err =>
          late ← ask kill_expired;
          let output := if (late : bool)
                        then out +:+ newline +:+ "Timeout reached stopping container " +:+ container_of jobRunID else out in
          mret (failed commandID (with_line output err))
      end
  end.
End jobs.
