(* ===== verification/WorkerJobsSpec.v ===== *)
(** * What a job on a worker runs, mounts and writes *)
From Stdlib Require Import ZArith.
From S2P Require Import Prelude GoStrings GoPath GoFmt GoBase64 SafePath Policy JobFile JobRuns ComposeRun Migration MigrationSpec Redact.
From S2P Require Import Executor ExecutorSpec WorkerJobs.
From S2P Require JobDispatch.
Import JobDispatch(RunJobCommand, ConfigFileSpec, rj_JobRunID, Image, Command, Env, Volumes, Network, ConfigFiles,
  cf_Name, cf_RelPath, cf_Target, cf_ContentB64).

(** ** Paths *)
Lemma normalised_init r cs c : normalised r (cs ++ [c]) → normalised r cs.
Proof.
  intros (n & ns & Hs & Hns & Hn). destruct ns as [|x ns] using rev_ind.
  - rewrite app_nil_r in Hs. destruct n as [|n]; [by apply app_nil in Hs as [_ ?]|].
    rewrite replicate_S_end in Hs. apply app_inj_tail in Hs as [-> _].
    exists n, []. split; [by rewrite app_nil_r|]. split; [constructor|]. intros Hr. by apply Hn in Hr.
  - rewrite assoc_L in Hs. apply app_inj_tail in Hs as [-> ->]. apply Forall_app in Hns as [Hns _]. by exists n, ns.
Qed.

(** The directory of a clean path loses the last element. *)
Lemma Dir_comps p cs c : path_comps p = cs ++ [c] → IsAbs (Dir (Clean p)) = IsAbs p ∧ path_comps (Dir (Clean p)) = cs.
Proof.
  intros Hp. pose proof (path_comps_normalised p) as Hn. rewrite Hp in Hn.
  assert (¬ in_string slash c) as Hc by (eapply normalised_no_slash; [exact Hn|set_solver]).
  pose proof (normalised_init _ _ _ Hn) as Hi. unfold Clean. rewrite Hp.
  assert (∀ q, rcut slash (q +:+ String slash c) = Some (q, c)) as Hcut by (intros q; by apply rcut_Some).
  destruct cs as [|x cs].
  - unfold show_path. destruct (IsAbs p); unfold Dir; simpl Join.
    + rewrite (Hcut "" : rcut slash ("/" +:+ c) = _). done.
    + simpl. by rewrite (proj2 (rcut_None slash c) Hc).
  - assert (show_path (IsAbs p) ((x :: cs) ++ [c]) = show_path (IsAbs p) (x :: cs) +:+ String slash c) as ->.
    { unfold show_path. destruct (IsAbs p); rewrite (Join_app (x :: cs)) //; by rewrite sapp_assoc. }
    unfold Dir. rewrite Hcut IsAbs_Clean path_comps_Clean.
    destruct (path_comps_push (show_path (IsAbs p) (x :: cs)) "") as [HA Hcs].
    { unfold show_path. destruct (IsAbs p); [done|]. destruct (Join_head x cs) as [t ->].
      destruct (normalised_names _ _ x Hi) as [? _]; [by constructor|]. by destruct x. }
    rewrite HA Hcs IsAbs_show // path_comps_show //. simpl. unfold clean_step. simpl. by rewrite reverse_involutive.
Qed.

Lemma below_descend dir p : below dir p → ∀ q, inside p q → below dir q.
Proof.
  intros (HA & c & rest & Hp) q [HA' [more Hq]]. split; [congruence|]. rewrite Hq Hp.
  destruct more as [|x more] using rev_ind; [exists c, rest; by rewrite app_nil_r|].
  exists x, (rest ++ [c] ++ more). by rewrite -!assoc_L.
Qed.

(** Two levels below, the directory is below. *)
Lemma below_Dir dir p q : below dir p → below p q → Clean q = q → below dir (Dir q).
Proof.
  intros Hb (HA & c & rest & Hq) Hc. apply (below_descend dir p Hb). rewrite assoc_L in Hq.
  destruct (Dir_comps q (path_comps p ++ rest) c Hq) as [HA' Hd]. rewrite Hc in HA', Hd. split; [congruence|]. by eexists.
Qed.

Lemma PathJoin_clean d x : d ≠ "" → Clean (PathJoin d x) = PathJoin d x.
Proof. intros Hd. unfold PathJoin. rewrite decide_False //. case_decide; apply Clean_idempotent. Qed.

Lemma config_name_proper name : ValidateConfigName name = None → proper name.
Proof.
  unfold ValidateConfigName. case_decide; [done|]. destruct (ContainsAny _ _) eqn:H2; [done|].
  destruct (_ || _) eqn:H3; [done|]. intros _. bool_props. rewrite ContainsAny_false in H2. split_and!; try done. apply H2. by constructor.
Qed.

(** A checked path stays inside its group. *)
Lemma rel_inside d f : d ≠ "" → rel_path_error f = None → inside d (PathJoin d (cf_RelPath f)).
Proof.
  intros Hd. unfold rel_path_error. case_decide as Hr.
  - intros _. rewrite Hr. unfold PathJoin. rewrite decide_False //. simpl. unfold inside.
    rewrite IsAbs_Clean path_comps_Clean. split; [done|]. exists []. by rewrite app_nil_r.
  - unfold CleanRelativePath. rewrite decide_False //. destruct (HasPrefix _ _) eqn:H1; [done|].
    destruct (IsAbs (Clean _)) eqn:H2; [done|]. intros _. rewrite IsAbs_Clean in H2. apply inside_PathJoin; [done..|].
    intros Hin. by rewrite (leading_dotdot (cf_RelPath f)) in H1.
Qed.

(** ** Groups of config files *)
Definition named (name : string) (files : list ConfigFileSpec) : list ConfigFileSpec := filter (λ f, cf_Name f = name) files.

Definition grouped_by_name (files : list ConfigFileSpec) (g : groups) : Prop :=
  ∀ name, g.2 !! name = (if decide (named name files = []) then None else Some (named name files))
    ∧ (name ∈ g.1 ↔ named name files ≠ []).

Definition spec_checked (f : ConfigFileSpec) : Prop := ValidateConfigName (cf_Name f) = None ∧ rel_path_error f = None.

Lemma elem_of_named f name files : f ∈ named name files ↔ f ∈ files ∧ cf_Name f = name.
Proof. unfold named. rewrite list_elem_of_filter. tauto. Qed.

Lemma add_spec_grouped seen g f : grouped_by_name seen g → grouped_by_name (seen ++ [f]) (add_spec g f).
Proof.
  intros Hg name. destruct (Hg name) as [Hl Hn]. unfold add_spec, named in *. simpl. rewrite filter_app filter_cons filter_nil.
  destruct (decide (cf_Name f = name)) as [->|Hne].
  - rewrite lookup_insert_eq Hl. split.
    + rewrite (decide_False (P := _ ++ _ = [])); [by case_decide as He; rewrite ?He|]. by intros [_ ?]%app_nil.
    + split; [intros _ [_ ?]%app_nil; done|]. intros _. case_decide as H1.
      * set_solver.
      * match goal with |- context [if ?d then _ else _] => destruct d end; [done|by apply Hn].
  - rewrite lookup_insert_ne // app_nil_r Hl. split; [done|].
    rewrite -Hn. match goal with |- context [if ?d then _ else _] => destruct d end; [set_solver|done].
Qed.

Lemma group_specs_grouped `{UnicodeTables} `{WorkerEnv} files : ∀ seen g g', grouped_by_name seen g → group_specs files g = inl g' →
  grouped_by_name (seen ++ files) g' ∧ Forall spec_checked files.
Proof.
  induction files as [|f files IH]; intros seen g g' Hg; simpl; [intros [= <-]; by rewrite app_nil_r|].
  destruct (ValidateConfigName (cf_Name f)) eqn:Hv; [done|]. destruct (rel_path_error f) eqn:Hr; [done|]. intros Hs.
  destruct (IH (seen ++ [f]) _ _ (add_spec_grouped _ _ _ Hg) Hs) as [Hg' Hf]. rewrite -assoc_L in Hg'.
  split; [done|by constructor].
Qed.

Lemma no_groups : grouped_by_name [] ([], ∅).
Proof. intros name. split; [done|]. simpl. set_solver. Qed.

Lemma does_seq_err P (Pre : history → Prop) {A B} (m : X (A + string)) (k : A → X (B + string)) Mid (Post : B + string → history → Prop) :
  does P Pre m Mid → (∀ x, does P (Mid (inl x)) (k x) Post) → (∀ e h, Mid (inr e) h → Post (inr e) h) →
  does P Pre (seq_err m k) Post.
Proof.
  intros Hm Hk He. eapply does_bind; [exact Hm|]. intros [x|e]; [apply Hk|].
  eapply does_post; [apply does_ret|]. by intros ? h [-> ?]; apply He.
Qed.

(** ** What is asked of docker *)

(** Options of docker, each followed by its value. *)
Definition option_args (opts : list (string * string)) : list string := opts ≫= λ o, [o.1; o.2].
Definition values_of (flag : string) (opts : list (string * string)) : list string := (filter (λ o, o.1 = flag) opts).*2.
Definition unless_empty (v : string) : list string := if decide (v = "") then [] else [v].

(** [docker run] with these options, image and command. *)
Definition docker_run (opts : list (string * string)) (image : string) (command : list string) : list string :=
  "run" :: "--rm" :: option_args opts ++ image :: command.

(** The options give the container the name of its run, the limits, the environment, the
    volumes and the network of the command, the mounts, labels, and nothing else. *)
Record options_of (cmd : RunJobCommand) (mounts : list string) (opts : list (string * string)) : Prop := {
  oo_flags : Forall (λ o, o.1 ∈ ["--name"; "--cpus"; "-m"; "-l"; "-e"; "-v"; "--network"]) opts;
  oo_name : values_of "--name" opts = ["wireops-job-" +:+ rj_JobRunID cmd];
  oo_cpus : values_of "--cpus" opts = unless_empty (JobDispatch.CPUs cmd);
  oo_memory : values_of "-m" opts = unless_empty (JobDispatch.MemoryLimit cmd);
  oo_env : values_of "-e" opts ≡ₚ (λ kv, kv.1 +:+ "=" +:+ kv.2) <$> map_to_list (Env cmd);
  oo_volumes : values_of "-v" opts = Volumes cmd ++ mounts;
  oo_network : values_of "--network" opts = unless_empty (Network cmd) }.

Definition dashed (s : string) : Prop := HasPrefix s "-" = true.

(** The arguments run the command, and unless its image starts with a dash they cannot be
    read as other options, another image or another command. *)
Definition runs_job (cmd : RunJobCommand) (mounts args : list string) : Prop :=
  ∃ opts, options_of cmd mounts opts ∧ args = docker_run opts (Image cmd) (Command cmd) ∧
  (¬ dashed (Image cmd) → ∀ opts' image command, Forall (λ o, dashed o.1) opts' → ¬ dashed image →
    args = docker_run opts' image command → opts' = opts ∧ image = Image cmd ∧ command = Command cmd).

Lemma option_args_app l k : option_args (l ++ k) = option_args l ++ option_args k.
Proof. unfold option_args. by rewrite bind_app. Qed.

Lemma values_of_app flag l k : values_of flag (l ++ k) = values_of flag l ++ values_of flag k.
Proof. unfold values_of. by rewrite filter_app fmap_app. Qed.

(** Options that all have one flag. *)
Definition flagged (flag : string) (vs : list string) : list (string * string) := (λ v, (flag, v)) <$> vs.

Lemma values_flagged flag vs : values_of flag (flagged flag vs) = vs.
Proof. induction vs as [|v vs IH]; [done|]. unfold values_of, flagged in *. simpl. rewrite filter_cons_True //=. by f_equal. Qed.

Lemma values_other flag flag' vs : flag ≠ flag' → values_of flag (flagged flag' vs) = [].
Proof. intros Hf. induction vs as [|v vs IH]; [done|]. unfold values_of, flagged in *. simpl. rewrite filter_cons_False //=. Qed.

Lemma args_flagged flag vs : option_args (flagged flag vs) = vs ≫= λ v, [flag; v].
Proof. unfold option_args, flagged. by rewrite list_fmap_bind. Qed.

Lemma flagged_app flag l k : flagged flag (l ++ k) = flagged flag l ++ flagged flag k.
Proof. apply fmap_app. Qed.

Lemma option_when_args value flag prefix :
  option_when value flag prefix = option_args (flagged flag (if decide (value = "") then [] else [prefix +:+ value])).
Proof. unfold option_when. by case_decide. Qed.

Lemma docker_run_inj opts opts' image image' command command' :
  Forall (λ o, dashed o.1) opts → Forall (λ o, dashed o.1) opts' → ¬ dashed image → ¬ dashed image' →
  docker_run opts image command = docker_run opts' image' command' → opts = opts' ∧ image = image' ∧ command = command'.
Proof.
  intros Ho Ho' Hi Hi' [= H]. revert opts' Ho' H.
  induction Ho as [|[f v] opts Hf _ IH]; intros [|[f' v'] opts'] Ho'; simpl; intros H.
  - by injection H as -> ->.
  - injection H as -> _. by apply Forall_cons in Ho' as [? _].
  - injection H as <- _. done.
  - injection H as -> -> H. apply Forall_cons in Ho' as [_ Ho']. destruct (IH opts' Ho' H) as (-> & ? & ?). done.
Qed.

(** The labels of a job. *)
Definition job_labels (cmd : RunJobCommand) : list string :=
  let label value prefix := if decide (value = "") then [] else [prefix +:+ value] in
  ["dev.wireops.managed=true"]
  ++ label (JobDispatch.RepositoryID cmd) "dev.wireops.repository.id="
  ++ label (JobDispatch.RepositoryBranch cmd) "dev.wireops.repository.branch="
  ++ label (JobDispatch.RepositoryFile cmd) "dev.wireops.repository.file="
  ++ label (JobDispatch.CommitSHA cmd) "dev.wireops.repository.commit_sha="
  ++ label (JobDispatch.JobName cmd) "dev.wireops.job.name=".

Definition job_options `{GoRange} (cmd : RunJobCommand) (volumes : list string) : list (string * string) :=
  flagged "--name" ["wireops-job-" +:+ rj_JobRunID cmd] ++ flagged "--cpus" (unless_empty (JobDispatch.CPUs cmd))
  ++ flagged "-m" (unless_empty (JobDispatch.MemoryLimit cmd)) ++ flagged "-l" (job_labels cmd)
  ++ flagged "-e" ((λ kv, kv.1 +:+ "=" +:+ kv.2) <$> go_range (Env cmd)) ++ flagged "-v" volumes
  ++ flagged "--network" (unless_empty (Network cmd)).

Lemma built_args `{GoRange} cmd volumes :
  BuildDockerRunArgs cmd volumes = docker_run (job_options cmd volumes) (Image cmd) (Command cmd).
Proof.
  unfold BuildDockerRunArgs, docker_run, run_options, job_options, job_labels. cbv zeta. rewrite !option_when_args.
  rewrite !flagged_app !option_args_app !args_flagged list_fmap_bind -!assoc_L. done.
Qed.

Lemma job_options_of `{GoRange} cmd mounts : options_of cmd mounts (job_options cmd (Volumes cmd ++ mounts)).
Proof.
  unfold job_options. split; rewrite ?values_of_app ?values_flagged ?values_other ?app_nil_r //.
  - rewrite !Forall_app. split_and!; apply Forall_fmap, Forall_true; intros ?; simpl; set_solver.
  - by rewrite go_range_perm.
Qed.

Lemma options_dashed cmd mounts opts : options_of cmd mounts opts → Forall (λ o, dashed o.1) opts.
Proof.
  intros [Hf _]. eapply Forall_impl; [exact Hf|]. intros [f v]. simpl. rewrite !elem_of_cons elem_of_nil.
  by intros [->|[->|[->|[->|[->|[->|[->|[]]]]]]]].
Qed.

Lemma built_runs `{GoRange} cmd mounts : runs_job cmd mounts (BuildDockerRunArgs cmd (Volumes cmd ++ mounts)).
Proof.
  pose proof (job_options_of cmd mounts) as Ho. eexists. split; [exact Ho|]. split; [apply built_args|].
  intros Hi opts' image command Hd Hi' Ha. rewrite built_args in Ha.
  destruct (docker_run_inj _ _ _ _ _ _ (options_dashed _ _ _ Ho) Hd Hi Hi' Ha) as (-> & -> & ->). done.
Qed.

(** ** Staging *)
Section staging.
Context `{GoRange} `{UnicodeTables} `{GoSort} `{WorkerEnv} (w : host) (cmd : RunJobCommand) (h0 : history).
Hypothesis Hdir : stackDir ≠ "".

Definition job_dir : string := configs_dir (rj_JobRunID cmd).
Definition config_path (f : ConfigFileSpec) : string := PathJoin (PathJoin job_dir (cf_Name f)) (cf_RelPath f).

(** Written since the run began. *)
Definition stored (h : history) (f : ConfigFileSpec) : Prop :=
  ∃ content new, DecodeString (cf_ContentB64 f) = Some content ∧ h = h0 ++ new ∧ WriteFile (config_path f) content ∈ new.

(** A read-only mount of a group of config files. *)
Definition staged_mount (v : string) : Prop :=
  ∃ f, f ∈ ConfigFiles cmd ∧ below stackDir (PathJoin job_dir (cf_Name f)) ∧ v = mount_ro (PathJoin job_dir (cf_Name f)) (cf_Target f).

Definition all_staged (h : history) (volumes : list string) : Prop :=
  Forall staged_mount volumes ∧
  ∀ f, f ∈ ConfigFiles cmd → stored h f ∧ ∃ target, mount_ro (PathJoin job_dir (cf_Name f)) target ∈ volumes.

Definition info_args : list string := ["info"; "--format"; "{{json .RegistryConfig}}"].

(** The calls a job may make, and when. *)
Definition job_call (h : history) (c : call) : Prop :=
  match c with
  | Exec dir config args =>
      dir = "" ∧ (args = info_args ∨ args = ["stop"; container_of (rj_JobRunID cmd)]
        ∨ ∃ mounts, runs_job cmd mounts args ∧ all_staged h mounts)
  | MkdirAll p | RemoveAll p => below stackDir p
  | WriteFile p content =>
      below stackDir p ∧ (DecodeString (JobDispatch.RegistryAuthB64 cmd) = Some content
        ∨ ∃ f, f ∈ ConfigFiles cmd ∧ p = config_path f ∧ DecodeString (cf_ContentB64 f) = Some content)
  | _ => False
  end.

Definition since (h : history) : Prop := h0 `prefix_of` h.

Lemma stored_ext h h' f : h `prefix_of` h' → stored h f → stored h' f.
Proof.
  intros [k ->] (content & new & Hd & -> & Hin). exists content, (new ++ k). split_and!; [done|by rewrite assoc_L|set_solver].
Qed.

Lemma all_stored_ext (fs : list ConfigFileSpec) h h' : h `prefix_of` h' → (∀ f, f ∈ fs → stored h f) → ∀ f, f ∈ fs → stored h' f.
Proof. eauto using stored_ext. Qed.

Hypothesis Hrun : ValidateConfigName (rj_JobRunID cmd) = None.

Lemma job_dir_ne : job_dir ≠ "".
Proof. unfold job_dir, configs_dir. by do 3 apply PathJoin_ne. Qed.

Lemma job_dir_below : below stackDir job_dir.
Proof.
  unfold job_dir, configs_dir. apply below_join; [done|by do 2 apply PathJoin_ne| |by apply (bool_decide_unpack _)].
  apply below_inside, below_join; [done|by apply PathJoin_ne| |by apply config_name_proper].
  apply below_inside, below_join; [done|done| |by apply (bool_decide_unpack _)]. split; [done|]. exists []. by rewrite app_nil_r.
Qed.

Lemma group_below name : ValidateConfigName name = None → below job_dir (PathJoin job_dir name).
Proof.
  intros Hn. apply below_join; [apply job_dir_ne..| |by apply config_name_proper]. split; [done|]. exists []. by rewrite app_nil_r.
Qed.

Lemma group_ne name : PathJoin job_dir name ≠ "".
Proof. apply PathJoin_ne, job_dir_ne. Qed.

Lemma config_path_below f : spec_checked f → below job_dir (config_path f).
Proof. intros [Hn Hr]. eapply below_descend; [by apply group_below|]. apply rel_inside; [apply group_ne|done]. Qed.

Lemma in_job_dir p : below job_dir p → below stackDir p.
Proof. intros Hb. eapply below_descend; [apply job_dir_below|by apply below_inside]. Qed.

(** These have been written. *)
Definition kept (fs : list ConfigFileSpec) (h : history) : Prop := since h ∧ ∀ f, f ∈ fs → stored h f.

Lemma kept_ext fs h h' : h `prefix_of` h' → kept fs h → kept fs h'.
Proof. intros Hp [Hs Hf]. split; [unfold since in *; by etrans|]. by eapply all_stored_ext. Qed.

Lemma checked_does fs c prefix : (∀ h, job_call h c) → does job_call (kept fs) (checked_call w c prefix) (λ _, kept fs).
Proof.
  intros Hc. apply only_does; [apply kept_ext|]. apply only_bind; [by apply only_tell|]. intros ?. apply only_ret.
Qed.

Lemma write_does fs f content : spec_checked f → f ∈ ConfigFiles cmd → DecodeString (cf_ContentB64 f) = Some content →
  does job_call (kept fs) (write_config w (config_path f) content f) (λ _, kept (fs ++ [f])).
Proof.
  intros Hc Hin Hd. eapply does_bind.
  - apply does_tell. intros h _. split; [by apply in_job_dir, config_path_below|]. right. by exists f.
  - intros r. eapply does_post; [apply does_ret|]. intros x h [_ (h1 & -> & _ & [Hs Hf])]. split; [by apply prefix_app_r|].
    intros f' [Hf'|Hf']%elem_of_app.
    + eapply stored_ext; [|by apply Hf]. by apply prefix_app_r.
    + apply list_elem_of_singleton in Hf' as ->. destruct Hs as [new ->]. eexists content, (new ++ [_]).
      split_and!; [done|by rewrite assoc_L|]. set_solver.
Qed.

(** [r] reports success only when all of [fs] are there. *)
Definition finished {A} (fs : list ConfigFileSpec) (r : A + string) (h : history) : Prop :=
  match r with inl _ => kept fs h | inr _ => since h end.

Lemma kept_since fs h : kept fs h → since h.
Proof. by intros []. Qed.

Lemma decode_does fs f {A} (k : string → X (A + string)) fs' :
  (∀ content, DecodeString (cf_ContentB64 f) = Some content → does job_call (kept fs) (k content) (finished fs')) →
  does job_call (kept fs) (seq_err (mret (decode_config f)) k) (finished fs').
Proof.
  intros Hk. unfold decode_config. eapply does_seq_err; [apply does_ret| |].
  - intros content. destruct (DecodeString _) as [c|]; [|by intros h [? _]]. intros h [[= ->] Hh]. by apply Hk.
  - intros e h [_ Hh]. by eapply kept_since.
Qed.

Lemma checked_then fs c prefix {A} (k : unit → X (A + string)) fs' : (∀ h, job_call h c) →
  (∀ u, does job_call (kept fs) (k u) (finished fs')) → does job_call (kept fs) (seq_err (checked_call w c prefix) k) (finished fs').
Proof.
  intros Hc Hk. eapply does_seq_err; [by apply checked_does|done|]. intros e h Hh. eapply kept_since; exact Hh.
Qed.

Lemma write_then fs f content {A} (k : unit → X (A + string)) fs' : spec_checked f → f ∈ ConfigFiles cmd →
  DecodeString (cf_ContentB64 f) = Some content → (∀ u, does job_call (kept (fs ++ [f])) (k u) (finished fs')) →
  does job_call (kept fs) (seq_err (write_config w (config_path f) content f) k) (finished fs').
Proof.
  intros Hc Hin Hd Hk. eapply does_seq_err; [by apply write_does|done|]. intros e h Hh. eapply kept_since; exact Hh.
Qed.

Definition of_group (name : string) (specs : list ConfigFileSpec) : Prop :=
  ∀ f, f ∈ specs → spec_checked f ∧ f ∈ ConfigFiles cmd ∧ cf_Name f = name.

Lemma tree_does name specs : ∀ fs, of_group name specs →
  does job_call (kept fs) (stage_tree w (PathJoin job_dir name) specs) (finished (fs ++ specs)).
Proof.
  induction specs as [|f specs IH]; intros fs Hg; cbn [stage_tree].
  - eapply does_post; [apply does_ret|]. intros r h [-> Hh]. by rewrite app_nil_r.
  - destruct (Hg f) as (Hc & Hin & <-); [by left|]. apply decode_does. intros content Hd. cbv zeta.
    change (PathJoin (PathJoin job_dir (cf_Name f)) (cf_RelPath f)) with (config_path f).
    apply checked_then.
    { intros h. eapply below_Dir; [apply job_dir_below|by apply config_path_below|]. apply PathJoin_clean, group_ne. }
    intros ?. apply write_then; [done..|]. intros ?. eapply does_post; [apply IH|].
    + intros f' Hf'. apply Hg. by right.
    + intros r h. by rewrite -assoc_L.
Qed.

Definition group_mount (name : string) (specs : list ConfigFileSpec) : string :=
  mount_ro (PathJoin job_dir name) (default "" (cf_Target <$> head specs)).

(** Success means the files are there and this is what is mounted. *)
Definition gives {A} (fs : list ConfigFileSpec) (v : A) (r : A + string) (h : history) : Prop :=
  finished fs r h ∧ ∀ x, r = inl x → x = v.

Lemma gives_ret {A} fs (v : A) : does job_call (kept fs) (mret (inl v)) (gives fs v).
Proof. eapply does_post; [apply does_ret|]. intros r h [-> Hh]. split; [done|]. by intros x [= ->]. Qed.

Lemma gives_then {A B} fs fs' (m : X (A + string)) (k : A → X (B + string)) v :
  does job_call (kept fs) m (finished fs') → (∀ x, does job_call (kept fs') (k x) (gives fs' v)) →
  does job_call (kept fs) (seq_err m k) (gives fs' v).
Proof. intros Hm Hk. eapply does_seq_err; [exact Hm|exact Hk|]. by intros e h Hh. Qed.

Lemma finished_mono {A} P fs fs' (m : X (A + string)) : (∀ f, f ∈ fs' → f ∈ fs) →
  does job_call P m (finished fs) → does job_call P m (finished fs').
Proof. intros Hs Hm. eapply does_post; [exact Hm|]. intros [x|e] h; [|done]. intros [Hh Hf]. split; auto. Qed.

Lemma directory_does name specs fs : of_group name specs → ValidateConfigName name = None →
  does job_call (kept fs) (_ ←? checked_call w (MkdirAll (PathJoin job_dir name)) ("failed to create config dir " +:+ Quote name);
                           _ ←? stage_tree w (PathJoin job_dir name) specs; mret (inl (group_mount name specs)))
    (gives (fs ++ specs) (group_mount name specs)).
Proof.
  intros Hg Hn. eapply does_seq_err.
  - apply checked_does. intros h. by apply in_job_dir, group_below.
  - intros ?. eapply gives_then; [by apply tree_does|]. intros ?. apply gives_ret.
  - intros e h Hh. split; [eapply kept_since; exact Hh|done].
Qed.

Lemma group_does name specs fs : of_group name specs → ValidateConfigName name = None →
  does job_call (kept fs) (stage_group w job_dir name specs) (gives (fs ++ specs) (group_mount name specs)).
Proof.
  intros Hg Hn. unfold stage_group. destruct specs as [|f [|f2 specs]]; [by apply directory_does| |by apply directory_does].
  case_decide as Hr; [|by apply directory_does]. destruct (Hg f) as (Hc & Hin & He); [by left|].
  assert (PathJoin job_dir name = config_path f) as Hp.
  { unfold config_path. rewrite He Hr. unfold PathJoin at 2. rewrite decide_False; [|apply group_ne]. simpl.
    by rewrite PathJoin_clean; [|apply job_dir_ne]. }
  intros h Hh. unfold decode_config. destruct (DecodeString (cf_ContentB64 f)) as [content|] eqn:Hd.
  - revert h Hh. change (does job_call (kept fs)
      (_ ←? write_config w (PathJoin job_dir name) content f; mret (inl (group_mount name [f]))) (gives (fs ++ [f]) (group_mount name [f]))).
    rewrite Hp. eapply does_seq_err; [by apply write_does|intros ?; apply gives_ret|].
    intros e h Hh. split; [eapply kept_since; exact Hh|done].
  - split; [constructor|]. split; [by eapply kept_since|done].
Qed.

Lemma groups_does (grp : gmap string (list ConfigFileSpec)) order : ∀ fs,
  (∀ name, name ∈ order → ValidateConfigName name = None ∧ of_group name (default [] (grp !! name))) →
  does job_call (kept fs) (stage_groups w job_dir grp order)
    (gives (fs ++ (order ≫= λ name, default [] (grp !! name))) ((λ name, group_mount name (default [] (grp !! name))) <$> order)).
Proof.
  induction order as [|name order IH]; intros fs Ho; cbn [stage_groups].
  - rewrite app_nil_r. apply gives_ret.
  - destruct (Ho name) as [Hn Hg]; [by left|]. set (specs := default [] (grp !! name)) in *.
    eapply does_seq_err; [by apply group_does| |by intros e h [Hh _]; split].
    intros v h [Hh Hv]. specialize (Hv v eq_refl) as ->. revert h Hh. simpl.
    eapply does_seq_err; [apply IH; intros; apply Ho; by right| |].
    + intros vs h [Hh Hvs]. specialize (Hvs vs eq_refl) as ->. split; [constructor|]. rewrite -assoc_L in Hh. split; [done|].
      by intros x [= <-].
    + intros e h [Hh _]. by split.
Qed.
End staging.

(** ** The run *)
Section run.
Context `{GoRange} `{UnicodeTables} `{GoSort} `{WorkerEnv} (w : host) (cmd : RunJobCommand) (h0 : history).
Context (run_ended : Z → history → option ctx_error).
Hypothesis Hdir : stackDir ≠ "".
Abbreviation calls_of := (job_call cmd h0).
Abbreviation since := (since h0).

Definition prepared (r : (list string * option string) + string) (h : history) : Prop :=
  since h ∧ match r with
            | inl (volumes, dir) => all_staged cmd h0 h volumes ∧ (∀ d, dir = Some d → below stackDir d)
            | inr _ => True
            end.

Lemma since_ext h h' : h `prefix_of` h' → since h → since h'.
Proof. unfold WorkerJobsSpec.since. intros. by etrans. Qed.

Lemma nothing_kept h : since h ↔ kept cmd h0 [] h.
Proof. split; [|by intros []]. intros Hs. split; [done|]. by intros f ?%elem_of_nil. Qed.

(** All groups done: every config file is stored and mounted. *)
Lemma groups_staged g h : grouped_by_name (ConfigFiles cmd) g → Forall spec_checked (ConfigFiles cmd) →
  ValidateConfigName (rj_JobRunID cmd) = None →
  kept cmd h0 (g.1 ≫= λ name, default [] (g.2 !! name)) h →
  all_staged cmd h0 h ((λ name, group_mount cmd name (default [] (g.2 !! name))) <$> g.1).
Proof.
  intros Hg Hc Hr [_ Hk]. split.
  - apply Forall_fmap, Forall_forall. intros name Hin. destruct (Hg name) as [Hl Hn]. apply Hn in Hin as Hne. simpl.
    rewrite Hl decide_False //. simpl. destruct (named name (ConfigFiles cmd)) as [|f rest] eqn:Hf; [done|].
    assert (f ∈ named name (ConfigFiles cmd)) as [Hin' <-]%elem_of_named by (rewrite Hf; by left).
    exists f. split; [done|]. rewrite Forall_forall in Hc. destruct (Hc f Hin') as [Hv _]. split; [|done].
    by apply (in_job_dir cmd), group_below.
  - intros f Hf. destruct (Hg (cf_Name f)) as [Hl Hn].
    assert (f ∈ named (cf_Name f) (ConfigFiles cmd)) as Hin by by apply elem_of_named.
    assert (named (cf_Name f) (ConfigFiles cmd) ≠ []) as Hne by (intros He; rewrite He in Hin; by apply elem_of_nil in Hin).
    split.
    + apply Hk. apply list_elem_of_bind. exists (cf_Name f). split; [|by apply Hn]. by rewrite Hl decide_False.
    + eexists. apply list_elem_of_fmap. exists (cf_Name f). split; [reflexivity|by apply Hn].
Qed.

Lemma clean_calls dir : below stackDir dir → only calls_of (clean_dir w dir).
Proof.
  intros Hb. unfold clean_dir. destruct keepWorkerWorkDir; [apply only_ret|]. apply only_bind; [by apply only_tell|].
  intros ?. apply only_ret.
Qed.

Lemma prepare_does : does calls_of since (prepareJobConfigFiles w (rj_JobRunID cmd) (ConfigFiles cmd)) prepared.
Proof.
  unfold prepareJobConfigFiles. case_decide as Hf.
  { eapply does_post; [apply does_ret|]. intros r h [-> Hh]. split; [done|]. split; [|done]. split; [constructor|].
    rewrite Hf. by intros f ?%elem_of_nil. }
  destruct (ValidateConfigName (rj_JobRunID cmd)) eqn:Hr; [eapply does_post; [apply does_ret|]; by intros r h [-> Hh]|].
  change (configs_dir (rj_JobRunID cmd)) with (job_dir cmd). cbv zeta.
  apply (does_seq_err _ _ _ _ (λ _, since)); [|intros ?|by intros e h Hh; split].
  { apply only_does; [apply since_ext|]. apply only_bind; [|intros ?; apply only_ret]. apply only_tell.
    intros h. by apply job_dir_below. }
  destruct (group_specs (ConfigFiles cmd) ([], ∅)) as [g|err] eqn:Hg.
  2: { intros h Hh. split; [constructor|done]. }
  destruct (group_specs_grouped _ _ _ _ no_groups Hg) as [Hgr Hc]. simpl in Hgr.
  eapply does_seq_err; [apply does_ret| |by intros e h [? _]]. intros g' h [[= ->] Hh]. revert h Hh.
  eapply does_bind.
  - eapply does_pre; [|intros h; by apply nothing_kept]. apply groups_does; [done..|].
    intros name Hin. destruct (Hgr name) as [Hl Hn]. apply Hn in Hin as Hne. rewrite Hl decide_False //. simpl.
    rewrite Forall_forall in Hc. split.
    + destruct (named name (ConfigFiles cmd)) as [|f rest] eqn:Hnm; [done|].
      assert (f ∈ named name (ConfigFiles cmd)) as [Hin' <-]%elem_of_named by (rewrite Hnm; by left). by apply Hc.
    + intros f [Hin' <-]%elem_of_named. split_and!; [by apply Hc|done..].
  - intros [volumes|err].
    + eapply does_post; [apply does_ret|]. intros r h [-> [Hk Hv]]. simpl in Hk. split; [by destruct Hk|].
      rewrite (Hv volumes eq_refl). split; [by apply groups_staged|]. intros d [= <-]. by apply job_dir_below.
    + eapply does_bind.
      * eapply (does_pre _ _ since); [|by intros h [Hh _]]. apply only_does; [apply since_ext|]. by apply clean_calls, job_dir_below.
      * intros ?. eapply does_post; [apply does_ret|]. by intros r h [-> Hh].
Qed.

Lemma registries_calls : only calls_of (prepare_registries w (rj_JobRunID cmd) (JobDispatch.CommandID cmd)
  (JobDispatch.RegistryAuthB64 cmd) (JobDispatch.InsecureRegistries cmd)).
Proof.
  unfold prepare_registries. apply only_bind.
  { unfold preflightInsecureRegistries, lookPathSecure. case_decide; [apply only_ret|]. apply only_bind; [apply only_ask|].
    intros []; [|apply only_ret]. apply only_bind; [apply only_tell; intros h; split; [done|by left]|]. intros []. apply only_ret. }
  intros [err|]; [apply only_ret|]. apply only_bind.
  { unfold validateRegistryAuth. case_decide; [apply only_ret|]. destruct (DecodeString _); [|apply only_ret].
    destruct (decode_auths _); [apply only_ask|apply only_ret]. }
  intros [err|]; [apply only_ret|]. unfold prepareRegistryAuth. case_decide; [apply only_ret|].
  destruct (negb _); [apply only_ret|]. destruct (DecodeString _) eqn:Hd; [|apply only_ret]. cbv zeta.
  assert (∀ s i, below stackDir (command_dir "registry-auth" s i)) as Hb
    by (intros; apply command_dir_below; [done|by apply (bool_decide_unpack _)]).
  apply only_bind; [apply only_tell; intros h; apply Hb|]. intros [e|]; [apply only_ret|].
  apply only_bind; [apply only_tell; intros h; split; [|by left]|].
  { apply file_of_below; [done|exact (command_dir_ne Hdir _ _ _)|apply Hb|by apply (bool_decide_unpack _)]. }
  intros [e|]; [|apply only_ret]. apply only_bind; [apply only_tell; intros h; apply Hb|]. intros ?. apply only_ret.
Qed.

Definition staged (volumes : list string) (h : history) : Prop := since h ∧ all_staged cmd h0 h volumes.

Lemma staged_ext volumes h h' : h `prefix_of` h' → staged volumes h → staged volumes h'.
Proof.
  intros Hp [Hs [Hm Hf]]. split; [by eapply since_ext|]. split; [done|]. intros f Hin. destruct (Hf f Hin) as [Hst Hv].
  split; [by eapply stored_ext|done].
Qed.

Lemma stop_calls : only calls_of (stop_container w (rj_JobRunID cmd)).
Proof.
  unfold stop_container, lookPathSecure, exec_docker. apply only_bind; [apply only_ask|]. intros [|]; [|apply only_ret].
  apply only_bind; [apply only_tell; intros h; split; [done|by right; left]|]. intros ?. apply only_ret.
Qed.

Lemma container_does volumes config :
  does calls_of (staged volumes) (run_container w run_ended cmd volumes config) (λ _, since).
Proof.
  unfold run_container, lookPathSecure, exec_docker. eapply does_bind; [apply does_ask|]. intros [bin|err].
  2: { eapply does_post; [apply does_ret|]. by intros r h (_ & _ & Hs & _). }
  eapply does_bind.
  { apply does_tell. intros h (_ & Hs & Ha). split; [done|]. right; right. exists volumes. split; [apply built_runs|done]. }
  intros [out runErr]. cbv zeta. eapply (does_pre _ _ since).
  2: { intros h (h1 & -> & _ & _ & Hs & _). eapply since_ext; [|exact Hs]. by apply prefix_app_r. }
  apply only_does; [apply since_ext|]. apply only_bind; [apply only_ask|]. intros ms. destruct runErr as [err|]; [|apply only_ret].
  apply only_bind; [apply only_ask|]. intros [why|]; [|apply only_ret]. apply only_bind; [apply stop_calls|].
  intros ?. apply only_ret.
Qed.

Lemma config_calls config : (∀ d, config = Some d → below stackDir d) → only calls_of (clean_config w config).
Proof. intros Hc. destruct config as [d|]; [by apply clean_calls, Hc|apply only_ret]. Qed.

Lemma authenticated_does volumes : does calls_of (staged volumes) (run_authenticated w run_ended cmd volumes) (λ _, since).
Proof.
  intros h Hh. unfold run_authenticated, mbind, X_bind. pose proof (registries_calls h) as Hr.
  destruct (prepare_registries _ _ _ _ _ h) as [[config|err] h1] eqn:Hp; simpl in Hr.
  2: { split; [done|]. eapply since_ext; [by eapply grows_prefix|]. by destruct Hh. }
  assert (∀ d, config = Some d → below stackDir d) as Hd.
  { intros d ->. apply registries_dir in Hp as ->. apply command_dir_below; [done|by apply (bool_decide_unpack _)]. }
  assert (staged volumes h1) as Hh1 by (eapply staged_ext; [by eapply grows_prefix|done]).
  pose proof (container_does volumes config h1 Hh1) as Hc. destruct (run_container _ _ _ _ _ h1) as [r h2]. destruct Hc as [Hg Hs].
  pose proof (config_calls config Hd h2) as Hcl. destruct (clean_config w config h2) as [[] h3]. simpl in *.
  split; [eapply grows_trans; [exact Hr|]; by eapply grows_trans|]. eapply since_ext; [by eapply grows_prefix|done].
Qed.

Lemma run_does : does calls_of since (RunJob w run_ended cmd) (λ _, since).
Proof.
  unfold RunJob. destruct (validateVolumePaths _); [eapply does_post; [apply does_ret|by intros r h [_ Hh]]|].
  eapply does_bind; [apply prepare_does|]. intros [[volumes dir]|err]; [|eapply does_post; [apply does_ret|by intros r h (_ & Hh & _)]].
  intros h (Hs & Ha & Hd). unfold mbind, X_bind.
  pose proof (authenticated_does volumes h (conj Hs Ha)) as Hm. destruct (run_authenticated _ _ _ _ h) as [r h1]. destruct Hm as [Hg Hs1].
  pose proof (config_calls dir Hd h1) as Hcl. destruct (clean_config w dir h1) as [[] h2]. simpl in *.
  split; [by eapply grows_trans|]. eapply since_ext; [by eapply grows_prefix|done].
Qed.
End run.

(** The command carries the job. *)
Record carries_job (c : RunJobCommand) (runID : string) (p : JobDispatch.jobRunParams) : Prop := {
  cj_run : rj_JobRunID c = runID;
  cj_image : Image c = d_Image (JobDispatch.def p);
  cj_command : Command c = d_Command (JobDispatch.def p);
  cj_volumes : Volumes c = d_Volumes (JobDispatch.def p);
  cj_network : Network c = d_Network (JobDispatch.def p);
  cj_env : Env c = JobDispatch.envMap p;
  cj_cpu : JobDispatch.CPUs c = CPU (d_Resources (JobDispatch.def p));
  cj_memory : JobDispatch.MemoryLimit c = Memory (d_Resources (JobDispatch.def p));
  cj_configs : ConfigFiles c = JobDispatch.configFiles p }.

Lemma dispatched_carries ParseDuration error_text run_error_text e runID p t cmds t' c :
  JobDispatch.dispatchToWorker ParseDuration error_text run_error_text e runID p t = (cmds, t') → JobDispatch.RunJob c ∈ cmds →
  carries_job c runID p.
Proof.
  unfold JobDispatch.dispatchToWorker. cbv zeta. intros Hs Hin.
  assert (∃ auth, c = JobDispatch.run_command ParseDuration e runID p auth) as [auth ->]; [|done].
  revert Hs. repeat case_match; intros [= <- <-]; set_solver.
Qed.


(** ** What a job's output reveals *)
Section output.
Context `{GoRange} `{UnicodeTables} `{GoSort} `{WorkerEnv} (w : host) (run_ended : Z → history → option ctx_error).

Lemma container_hides cmd volumes config k v h : Env cmd !! k = Some v → maskable v →
  Success (run_container w run_ended cmd volumes config h).1 = true →
  Contains (jc_Output (run_container w run_ended cmd volumes config h).1) v = false.
Proof.
  intros He Hv. unfold run_container, mbind, X_bind. destruct (lookPathSecure _ _ h) as [[bin|err] h1]; [|done].
  destruct (exec_docker _ _ _ h1) as [[out [err|]] h2].
  - simpl. destruct (run_ended _ h2) as [why|]; [|done]. by destruct (stop_container _ _ h2).
  - intros _. apply redacted_hidden; [done|]. apply candidates_complete; [|apply Hv].
    unfold job_secrets. apply list_elem_of_filter. split; [apply Hv|]. apply list_elem_of_fmap. exists (k, v).
    split; [done|]. by apply elem_of_go_range.
Qed.

(** When a job succeeds no value of its environment is in its output (of at least four
    bytes, without square brackets, not part of the placeholder). *)
Theorem job_hides_environment cmd k v h : Env cmd !! k = Some v → maskable v →
  Success (RunJob w run_ended cmd h).1 = true → Contains (jc_Output (RunJob w run_ended cmd h).1) v = false.
Proof.
  intros He Hv. unfold RunJob. destruct (validateVolumePaths _); [done|]. unfold mbind, X_bind.
  destruct (prepareJobConfigFiles _ _ _ h) as [[[volumes dir]|err] h1]; [|done].
  unfold run_authenticated, mbind, X_bind. destruct (prepare_registries _ _ _ _ _ h1) as [[config|err] h2].
  - pose proof (container_hides cmd volumes config k v h2 He Hv) as Hc.
    destruct (run_container _ _ _ _ _ h2) as [r h3]. destruct (clean_config w config h3) as [[] h4].
    unfold mret, X_ret. simpl in Hc. by destruct (clean_config w dir h4) as [[] h5].
  - unfold mret, X_ret. by destruct (clean_config w dir h2).
Qed.
End output.

(** ** Runs *)

(** Bind mounts only below /srv, and no untagged images. *)
Definition fenced_policy : WorkerPolicy :=
  Build_WorkerPolicy false ["/srv"] [] [] [] [] [] true false false false false false false false.

Definition fenced_job (image : string) (command : list string) : JobDispatch.jobRunParams :=
  {| JobDispatch.repoID := "repo"; JobDispatch.repoBranch := "main"; JobDispatch.jobFile := "job.yaml"; JobDispatch.commitSHA := "c0";
     JobDispatch.def := {| d_Name := "backup"; d_Description := "d"; d_Cron := "@daily"; d_Tags := ["prod"]; d_Group := "";
       d_Mode := ModeOnce; d_Image := image; d_Command := command; d_Volumes := ["/srv/data:/data"]; d_Network := "";
       d_Resources := {| CPU := "1"; Memory := "1g"; Timeout := "10m" |}; d_Configs := [] |};
     JobDispatch.envMap := {[ "TOKEN" := "s3cr3t!x" ]};
     JobDispatch.configFiles := [{| cf_Name := "app"; cf_RelPath := ""; cf_Target := "/etc/app.conf"; JobDispatch.cf_Mode := "";
                                    cf_ContentB64 := "aGVsbG8=" |}] |}.

Definition fenced_dispatch : JobDispatch.dispatch_env :=
  {| JobDispatch.de_patch := ok_db 1500; JobDispatch.de_policy := inl fenced_policy; JobDispatch.de_auth := inl ("", []);
     JobDispatch.de_reply := JobDispatch.Acknowledged; JobDispatch.de_update := ok_db 1600; JobDispatch.de_start := ok_db 1700;
     JobDispatch.de_clock := 1550 |}.

Definition dispatched (p : JobDispatch.jobRunParams) : list JobDispatch.command * table :=
  JobDispatch.dispatchToWorker no_duration (λ _, "violation") (λ _, "db") fenced_dispatch "r1" p run0.

Definition sent (p : JobDispatch.jobRunParams) : RunJobCommand :=
  JobDispatch.run_command no_duration fenced_dispatch "r1" p ("", []).

(** Docker prints the job's environment and succeeds. *)
Definition echoing : host := {|
  h_stat := λ _ _, Info true false true; h_open := λ _ _, inr ""; h_root := λ _ _, None;
  h_exec := λ _ _, ("token is s3cr3t!x", None); h_client := λ _, None;
  h_list := λ _ _, inl []; h_inspect := λ _ _, inr (NotFound ""); h_docker := λ _ _, None; h_file := λ _ _, None |}.

Definition job_run (p : JobDispatch.jobRunParams) : JobCompletedMessage * history :=
  @RunJob some_range (λ _, true) any_sort home echoing (λ _ _, None) (sent p) [].


(** The image of a job is not kept from being an option of docker: with bind mounts
    allowed below /srv only, a job whose image is [--volume=/etc:/host:ro] and whose
    command starts with an image passes the policy, which refuses the volume itself, and
    the worker puts it where docker still reads options. *)
Theorem job_image_may_be_an_option :
  ValidateVolumes fenced_policy ["/etc:/host:ro"] ≠ None
  ∧ JobDispatch.RunJob (sent (fenced_job "--volume=/etc:/host:ro" ["alpine:3"; "cat"; "/host/shadow"]))
      ∈ (dispatched (fenced_job "--volume=/etc:/host:ro" ["alpine:3"; "cat"; "/host/shadow"])).1
  ∧ Exec "" "" ["run"; "--rm"; "--name"; "wireops-job-r1"; "--cpus"; "1"; "-m"; "1g"; "-l"; "dev.wireops.managed=true";
                "-l"; "dev.wireops.repository.id=repo"; "-l"; "dev.wireops.repository.branch=main";
                "-l"; "dev.wireops.repository.file=job.yaml"; "-l"; "dev.wireops.repository.commit_sha=c0";
                "-l"; "dev.wireops.job.name=backup"; "-e"; "TOKEN=s3cr3t!x"; "-v"; "/srv/data:/data";
                "-v"; "/home/w/.wireops/jobs/r1/configs/app:/etc/app.conf:ro";
                "--volume=/etc:/host:ro"; "alpine:3"; "cat"; "/host/shadow"]
      ∈ (job_run (fenced_job "--volume=/etc:/host:ro" ["alpine:3"; "cat"; "/host/shadow"])).2.
Proof.
  split; [by vm_compute|]. split; [vm_compute; by left|].
  apply list_elem_of_lookup. exists 2. vm_compute. reflexivity.
Qed.

Lemma job_hides_environment_witness : Contains (jc_Output (job_run (fenced_job "alpine:3" ["env"])).1) "s3cr3t!x" = false.
Proof.
  apply (@job_hides_environment some_range (λ _, true) any_sort home echoing (λ _ _, None) (sent (fenced_job "alpine:3" ["env"]))
           "TOKEN" "s3cr3t!x" []).
  - vm_compute. reflexivity.
  - apply (bool_decide_unpack _). vm_compute. exact I.
  - vm_compute. reflexivity.
Defined.
