(* ===== verification/WorkerFiles.v ===== *)
(** * worker/executor/runner.go: reading a file for an import

    A compose file of a project that is not managed yet is read from the host of the
    worker.  [eval_symlinks] is [filepath.EvalSymlinks] and [read_file] is [os.ReadFile]
    on the file system as it is while the command runs. *)
From S2P Require Import Prelude GoStrings GoPath GoFmt GoBase64 SafePath ComposeRun Migration MigrationSpec Redact Executor ExecutorSpec.
From S2P Require Import WorkerJobsSpec.

Definition isSubpath (parent child : string) : bool :=
  let parent := Clean parent in
  let child := Clean child in
  if decide (parent = child) then true
  else HasPrefix child (if HasSuffix parent "/" then parent else parent +:+ "/").

Section reading.
Context `{WorkerEnv}.
Context (eval_symlinks read_file : string → string + string) (allowed_import_dirs : string).

(** Up the path until a directory resolves; [fuel] bounds the number of elements. *)
Fixpoint resolve_up (fuel : nat) (dir : string) (suffix : list string) : option string :=
  match fuel with
  | O => None
  | S fuel =>
      let parent := Dir dir in
      if decide (parent = dir) then None
      else
        let suffix := Base dir :: suffix in
        match eval_symlinks parent with
        | inl resolved => Some (foldl PathJoin resolved suffix)
        | inr _ => resolve_up fuel parent suffix
        end
  end.

Definition resolvePathSymlinks (path : string) : string :=
  let cleaned := Clean path in
  match eval_symlinks cleaned with
  | inl resolved => resolved
  | inr _ => default cleaned (resolve_up (S (S (String.length cleaned))) cleaned [])
  end.

Definition sensitiveRoots : list string := ["/etc"; "/root"; "/var/run"; "/run"; "/proc"; "/sys"; "/boot"; "/dev"].

Definition under (root path : string) : bool := isSubpath (resolvePathSymlinks root) path.

Definition import_dirs : list string := filter (λ d, d ≠ "") (TrimSpace <$> Split ","%char allowed_import_dirs).

Definition isAllowedPath (path : string) : bool :=
  match ValidateHostPath path with
  | Some _ => false
  | None =>
      let cleaned := Clean path in
      if negb (IsAbs cleaned) then false
      else
        let resolved := resolvePathSymlinks cleaned in
        if under stackDir resolved then true
        else if bool_decide (allowed_import_dirs ≠ "") then existsb (λ d, under d resolved) import_dirs
        else negb (existsb (λ root, under root resolved) sensitiveRoots)
  end.

Definition ReadFile (commandID path : string) : CommandResult :=
  match ValidateHostPath path with
  | Some e => failed commandID (path_text e)
  | None =>
      let cleanedPath := Clean path in
      let ext := ToLower (Ext cleanedPath) in
      if bool_decide (ext ≠ ".yml") && bool_decide (ext ≠ ".yaml") then failed commandID "only .yml/.yaml files are allowed"
      else match eval_symlinks cleanedPath with
      | inr err => failed commandID err
      | inl resolvedPath =>
          if negb (isAllowedPath resolvedPath) then failed commandID "access to the requested path is denied by worker policy"
          else match read_file resolvedPath with
          | inr err => failed commandID err
          | inl data => {| CommandID := commandID; Output := EncodeToString data; Error := ""; ComposeUpMs := 0; TimedOut := false;
                           TimedOutStep := "" |}
          end
      end
  end.
End reading.

(** ** Directories and what lies under them *)
Lemma Clean_no_slash p : path_comps p ≠ [] → HasSuffix (Clean p) "/" = false.
Proof.
  intros Hp. apply not_true_iff_false. intros Hs. pose proof (path_comps_normalised p) as Hn.
  assert (∃ r, Clean p = r +:+ String slash "") as [r Hr].
  { unfold HasSuffix in Hs. apply HasPrefix_spec in Hs as [r Hr]. exists (srev r).
    rewrite -(srev_involutive (Clean p)) Hr srev_app. done. }
  pose proof (Split_Clean p Hp) as Hsp. rewrite Hr Split_app_gen in Hsp. simpl in Hsp.
  destruct (path_comps p) as [|c cs _] using rev_ind; [done|]. rewrite assoc_L in Hsp.
  apply app_inj_tail in Hsp as [_ Hc]. destruct (normalised_names _ _ c Hn) as [Hne _]; [set_solver|]. by rewrite -Hc in Hne.
Qed.

Lemma isSubpath_inside parent child : isSubpath parent child = true → inside parent child.
Proof.
  unfold isSubpath. case_decide as He; [intros _; apply (Clean_prefix_inside parent child); by left|].
  destruct (decide (path_comps parent = [])) as [Hp|Hp].
  - rewrite (Clean_nil _ Hp). destruct (IsAbs parent) eqn:HA; simpl.
    + intros Hc. change (IsAbs (Clean child) = true) in Hc. rewrite IsAbs_Clean in Hc. split; [congruence|]. rewrite Hp. by eexists.
    + intros Hc. exfalso. change "./" with ("." +:+ "/") in Hc. replace "." with (Clean parent) in Hc by by rewrite (Clean_nil _ Hp) HA.
      apply Clean_prefix_spec in Hc as [Hne _]. done.
  - rewrite Clean_no_slash //. intros Hc. apply (Clean_prefix_inside parent child). by right.
Qed.

Lemma inside_isSubpath parent child : IsAbs parent = true → inside parent child → isSubpath parent child = true.
Proof.
  intros HA Hi. unfold isSubpath. case_decide as He; [done|].
  destruct (decide (path_comps parent = [])) as [Hp|Hp].
  - rewrite (Clean_nil _ Hp) HA. simpl. change (IsAbs (Clean child) = true). rewrite IsAbs_Clean. destruct Hi as [Hi _]. congruence.
  - rewrite Clean_no_slash //. destruct (proj2 (Clean_prefix_inside parent child)) as [?|Hc]; [split; [done|by left]| |done].
    exfalso. by apply He.
Qed.

(** ** Resolving *)
Section resolved.
Context `{WorkerEnv}.
Context (eval_symlinks read_file : string → string + string) (allowed_import_dirs : string).

Lemma Dir_shorter p : Clean p = p → Dir p ≠ p →
  Clean (Dir p) = Dir p ∧ length (path_comps (Dir p)) < length (path_comps p) ∧ IsAbs (Dir p) = IsAbs p.
Proof.
  intros Hc Hd. assert (path_comps p ≠ []) as Hne.
  { intros Hp. apply Hd. rewrite -Hc (Clean_nil _ Hp). by destruct (IsAbs p). }
  destruct (path_comps p) as [|c cs _] eqn:Hp using rev_ind; [done|].
  destruct (Dir_comps p cs c Hp) as [HA Hcs]. rewrite Hc in HA, Hcs. rewrite HA Hcs length_app /=. split_and!; [|lia|done].
  unfold Dir. destruct (rcut slash p) as [[d b]|]; [apply Clean_idempotent|done].
Qed.

(** The search ends at the root: more fuel than elements changes nothing. *)
Lemma resolve_up_ends n m : ∀ dir suffix, Clean dir = dir → length (path_comps dir) < n → length (path_comps dir) < m →
  resolve_up eval_symlinks n dir suffix = resolve_up eval_symlinks m dir suffix.
Proof.
  revert m. induction n as [|n IH]; intros m dir suffix Hc Hn Hm; [lia|]. destruct m as [|m]; [lia|]. cbn [resolve_up]. cbv zeta.
  case_decide as Hd; [done|]. destruct (Dir_shorter dir Hc Hd) as (Hc' & Hl & _).
  destruct (eval_symlinks (Dir dir)); [done|]. apply IH; [done|lia..].
Qed.

Lemma Split_length c s : length (Split c s) ≤ S (String.length s).
Proof. induction s as [|a s IH]; simpl; [lia|]. case_decide; simpl in *; [lia|]. destruct (Split c s); simpl in *; lia. Qed.

Lemma clean_step_length r stk c : length (clean_step r stk c) ≤ S (length stk).
Proof. unfold clean_step. repeat case_decide; destruct stk; simpl; repeat case_decide; destruct r; simpl; lia. Qed.

Lemma path_comps_length p : length (path_comps p) ≤ S (String.length p).
Proof.
  etrans; [|apply (Split_length slash)]. unfold path_comps. rewrite length_reverse. unfold clean_stack.
  assert (∀ cs stk, length (foldl (clean_step (IsAbs p)) stk cs) ≤ length stk + length cs) as Hf; [|apply (Hf _ [])].
  induction cs as [|c cs IH]; intros stk; simpl; [lia|]. specialize (IH (clean_step (IsAbs p) stk c)).
  pose proof (clean_step_length (IsAbs p) stk c). lia.
Qed.

(** Resolving ends: with any fuel beyond the length of the path it comes to the same. *)
Theorem resolving_terminates n path : S (String.length (Clean path)) < n →
  resolvePathSymlinks eval_symlinks path =
  match eval_symlinks (Clean path) with
  | inl resolved => resolved
  | inr _ => default (Clean path) (resolve_up eval_symlinks n (Clean path) [])
  end.
Proof.
  intros Hn. unfold resolvePathSymlinks. cbv zeta. destruct (eval_symlinks (Clean path)); [done|].
  pose proof (path_comps_length (Clean path)).
  rewrite (resolve_up_ends _ n); [done|by rewrite Clean_idempotent|lia..].
Qed.

Hypothesis eval_abs : ∀ p q, IsAbs p = true → eval_symlinks p = inl q → IsAbs q = true.

Lemma foldl_join_abs suffix : ∀ p, IsAbs p = true → Forall (λ x, x ≠ "") suffix → IsAbs (foldl PathJoin p suffix) = true.
Proof.
  induction suffix as [|x suffix IH]; intros p Hp Hs; [done|]. inversion_clear Hs. simpl. apply IH; [|done].
  destruct (PathJoin_comps p x) as [-> _]; [by destruct p|done..].
Qed.

Lemma Base_ne p : Base p ≠ "".
Proof. unfold Base. case_decide; [done|]. cbv zeta. by case_decide. Qed.

Lemma resolve_up_abs fuel : ∀ dir suffix q, Clean dir = dir → IsAbs dir = true → Forall (λ x, x ≠ "") suffix →
  resolve_up eval_symlinks fuel dir suffix = Some q → IsAbs q = true.
Proof.
  induction fuel as [|fuel IH]; intros dir suffix q Hc HA Hs; [done|]. cbn [resolve_up]. cbv zeta.
  case_decide as Hd; [done|]. destruct (Dir_shorter dir Hc Hd) as (Hc' & _ & HA'). rewrite HA in HA'.
  destruct (eval_symlinks (Dir dir)) as [r|] eqn:He.
  - intros [= <-]. apply (foldl_join_abs (Base dir :: suffix)); [exact (eval_abs _ _ HA' He)|]. constructor; [apply Base_ne|done].
  - apply IH; [done..|]. constructor; [apply Base_ne|done].
Qed.

Lemma resolve_abs p : IsAbs p = true → IsAbs (resolvePathSymlinks eval_symlinks p) = true.
Proof.
  intros HA. unfold resolvePathSymlinks. cbv zeta. assert (IsAbs (Clean p) = true) as HC by by rewrite IsAbs_Clean.
  destruct (eval_symlinks (Clean p)) as [r|] eqn:He; [exact (eval_abs _ _ HC He)|].
  destruct (resolve_up _ _ _ _) as [q|] eqn:Hr; [|done]. simpl. eapply resolve_up_abs; [apply Clean_idempotent|done| |exact Hr]. done.
Qed.

(** Where files may be read: the worker's own directory, the directories configured for
    imports or, when there are none, anywhere but the system directories. *)
Definition importable (p : string) : Prop :=
  inside (resolvePathSymlinks eval_symlinks stackDir) p
  ∨ if decide (allowed_import_dirs = "")
    then ∀ root, root ∈ sensitiveRoots → ¬ inside (resolvePathSymlinks eval_symlinks root) p
    else ∃ d, d ∈ import_dirs allowed_import_dirs ∧ inside (resolvePathSymlinks eval_symlinks d) p.

Lemma allowed_importable p : isAllowedPath eval_symlinks allowed_import_dirs p = true →
  importable (resolvePathSymlinks eval_symlinks (Clean p)).
Proof.
  unfold isAllowedPath, importable, under. destruct (ValidateHostPath p); [done|]. cbv zeta. destruct (negb _); [done|].
  destruct (isSubpath _ _) eqn:Hs; [intros _; left; by apply isSubpath_inside|]. intros Hok. right.
  destruct (decide (allowed_import_dirs = "")) as [He|He].
  - rewrite bool_decide_eq_false_2 in Hok; [|tauto]. intros root Hin Hi. apply negb_true_iff in Hok.
    assert (existsb (λ root, isSubpath (resolvePathSymlinks eval_symlinks root)
      (resolvePathSymlinks eval_symlinks (Clean p))) sensitiveRoots = true) as Hex; [|congruence].
    apply existsb_exists. exists root. split; [by apply list_elem_of_In|]. apply inside_isSubpath; [|done]. apply resolve_abs.
    unfold sensitiveRoots in Hin. set_unfold in Hin. by destruct_or! Hin; subst.
  - rewrite bool_decide_eq_true_2 // in Hok. apply existsb_exists in Hok as (d & Hd & Hsub). exists d.
    split; [by apply list_elem_of_In|by apply isSubpath_inside].
Qed.

Hypothesis eval_fixed : ∀ p q, eval_symlinks p = inl q → Clean q = q ∧ eval_symlinks q = inl q.

(** A file is read for an import only where imports may come from, symbolic links
    followed: what a command gets back is the content of a file in the worker's own
    directory, in a configured import directory or, when none is configured, outside the
    system directories; in every other case it gets an error and no content. *)
Theorem import_reads_confined commandID path :
  (∃ err, ReadFile eval_symlinks read_file allowed_import_dirs commandID path = failed commandID err)
  ∨ ∃ p data, eval_symlinks (Clean path) = inl p ∧ importable p ∧ read_file p = inl data
      ∧ DecodeString (Output (ReadFile eval_symlinks read_file allowed_import_dirs commandID path)) = Some data.
Proof.
  unfold ReadFile. destruct (ValidateHostPath path) as [e|]; [by left; eexists|]. cbv zeta.
  destruct (_ && _); [by left; eexists|]. destruct (eval_symlinks (Clean path)) as [p|err] eqn:He; [|by left; eexists].
  destruct (negb (isAllowedPath _ _ p)) eqn:Ha; [by left; eexists|]. apply negb_false_iff, allowed_importable in Ha.
  destruct (read_file p) as [data|err] eqn:Hr; [|by left; eexists]. right. exists p, data. destruct (eval_fixed _ _ He) as [Hc Hf].
  unfold resolvePathSymlinks in Ha. rewrite Hc in Ha. cbv zeta in Ha. rewrite Hc Hf in Ha. split_and!; [done..|]. apply base64_roundtrip.
Qed.
End resolved.

(** ** A host with one link *)
Definition one_link (p : string) : string + string :=
  if decide (p = "/srv/app.yml") then inl "/home/u/.ssh/id_rsa"
  else if decide (Clean p = p) then inl p else inr "lstat: no such file or directory".

Lemma one_link_abs p q : IsAbs p = true → one_link p = inl q → IsAbs q = true.
Proof. unfold one_link. intros Hp. case_decide; [by intros [= <-]|]. case_decide; [|done]. by intros [= <-]. Qed.

Lemma one_link_fixed p q : one_link p = inl q → Clean q = q ∧ one_link q = inl q.
Proof.
  unfold one_link. case_decide as H1; [intros [= <-]; by vm_compute|]. case_decide as H2; [|done]. intros [= <-].
  split; [done|]. by rewrite decide_False // decide_True.
Qed.

Lemma import_reads_confined_witness :
  (∃ err, @ReadFile home one_link (λ _, inl "key") "" "c1" "/srv/app.yml" = failed "c1" err)
  ∨ ∃ p data, one_link (Clean "/srv/app.yml") = inl p ∧ @importable home one_link "" p ∧ inl "key" = @inl string string data
      ∧ DecodeString (Output (@ReadFile home one_link (λ _, inl "key") "" "c1" "/srv/app.yml")) = Some data.
Proof. exact (@import_reads_confined home one_link (λ _, inl "key") "" one_link_abs one_link_fixed "c1" "/srv/app.yml"). Defined.

(** The extension is that of the name asked for, not of the file read: through a link
    named app.yml a key is read. *)
Example import_follows_link :
  Output (@ReadFile home one_link (λ p, if decide (p = "/home/u/.ssh/id_rsa") then inl "key" else inr "no") "" "c1" "/srv/app.yml")
  = EncodeToString "key".
Proof. vm_compute. reflexivity. Qed.

Lemma resolving_terminates_witness :
  resolvePathSymlinks one_link "/srv/x/../app.yml" =
  match one_link (Clean "/srv/x/../app.yml") with
  | inl resolved => resolved
  | inr _ => default (Clean "/srv/x/../app.yml") (resolve_up one_link 20 (Clean "/srv/x/../app.yml") [])
  end.
Proof. apply resolving_terminates. vm_compute. lia. Defined.
