(* ===== verification/WorkerQueries.v ===== *)
(** * worker/executor/runner.go: what a worker says about its containers

    Inspecting the revision of a stack (with internal/docker/client.go), stopping and
    restarting a container, discovering projects and reading logs. *)
From Stdlib Require Import ZArith.
From S2P Require Import Prelude GoStrings GoPath GoFmt EnvFile ComposeRun Migration MigrationSpec Redact Executor ExecutorSpec.
From S2P Require PostCheck.
Import PostCheck(InspectResult, CommitSHA, CommitSHAs).

Definition succeeded (id out : string) : CommandResult :=
  {| CommandID := id; Output := out; Error := ""; ComposeUpMs := 0; TimedOut := false; TimedOutStep := "" |}.

(** ** The revision a host runs *)
Definition commitSHALabel : string := "dev.wireops.repository.commit_sha".

Definition add_commit (commits : list string) (cnt : Summary) : list string :=
  let val := label commitSHALabel (Labels cnt) in
  if decide (val = "" ∨ val ∈ commits) then commits else commits ++ [val].

Definition distinctCommitSHAs (containers : list Summary) : list string := foldl add_commit [] containers.

Definition inspectResultFor (commits : list string) : InspectResult :=
  {| CommitSHA := default "" (head commits); CommitSHAs := commits |}.

(** ** Projects that are not managed *)
Record DiscoveredProject := { dp_ProjectName : string; dp_ComposePath : string; dp_Services : list string }.

Definition managedLabel : string := "dev.wireops.managed".

Definition add_container (projects : gmap string DiscoveredProject) (cnt : Summary) : gmap string DiscoveredProject :=
  let projectName := label projectLabel (Labels cnt) in
  if decide (label managedLabel (Labels cnt) = "true" ∨ projectName = "") then projects
  else
    let proj := default {| dp_ProjectName := projectName;
                           dp_ComposePath := label "com.docker.compose.project.working_dir" (Labels cnt);
                           dp_Services := [] |} (projects !! projectName) in
    let svcName := label "com.docker.compose.service" (Labels cnt) in
    <[projectName := {| dp_ProjectName := dp_ProjectName proj; dp_ComposePath := dp_ComposePath proj;
                        dp_Services := if decide (svcName = "" ∨ svcName ∈ dp_Services proj) then dp_Services proj
                                       else dp_Services proj ++ [svcName] |}]> projects.

(** ** Logs *)
Fixpoint to_valid_utf8 (fuel : nat) (s : string) : string :=
  match fuel, s with
  | S fuel, String _ _ =>
      let '(r, n) := decode_rune s in
      let rest := to_valid_utf8 fuel (sdrop n s) in
      if decide (r = 65533%N ∧ n = 1) then rest else stake n s +:+ rest
  | _, _ => ""
  end.

(** [strings.ToValidUTF8(s, "")]. *)
Definition ToValidUTF8 (s : string) : string := to_valid_utf8 (String.length s) s.

Definition continuation (a : ascii) : bool := (N.land (N_of_ascii a) 192 =? 128)%N.

Fixpoint skip_continuation (s : string) : string :=
  match s with String a s' => if continuation a then skip_continuation s' else s | EmptyString => s end.

Definition tailLogOutput (logs : string) (maxBytes : nat) : string :=
  if decide (String.length logs ≤ maxBytes) then logs
  else ToValidUTF8 (skip_continuation (sdrop (String.length logs - maxBytes) logs)).

Definition filterLogLines (logs : string) (re : string → bool) : string := Join newline (List.filter re (Split nl logs)).

Definition maxReadBytes : nat := N.to_nat 1048576.
Definition maxOutputBytes : nat := N.to_nat 65536.

(** [std_copy] is [stdcopy.StdCopy] into one buffer: what was written, and an error. *)
Definition formatContainerLogs (std_copy : string → string * option string) (raw : string) (tty : bool)
    (pattern : option (string → bool)) (sourceTruncated : bool) : (string * bool) + string :=
  let '(combined, err) := if tty then (raw, None) else std_copy raw in
  match (if sourceTruncated then None else err) with
  | Some e => inr e
  | None =>
      let logs := match pattern with Some re => filterLogLines combined re | None => combined end in
      if decide (maxOutputBytes < String.length logs) then inl (tailLogOutput logs maxOutputBytes, true)
      else inl (logs, sourceTruncated)
  end.

Record ContainerLogsResult := {
  Logs : string; AppliedTail : string; AppliedSince : string; AppliedUntil : string; lr_Pattern : string;
  Truncated : bool; TruncationReason : string }.

Record LogsCommand := {
  lc_id : string; lc_container : string; lc_project : string; lc_stack : string; lc_tail : string; lc_since : string;
  lc_until : string; lc_pattern : string }.

(** ** The commands *)
Section queries.
Context `{GoRange} (w : host).
(** JSON, regular expressions, and the log stream of a container: opening it fails, or it
    gives some bytes and perhaps an error. *)
Context (encode_inspect : InspectResult → string) (encode_projects : list DiscoveredProject → string)
  (encode_logs : ContainerLogsResult → string) (compile : string → (string → bool) + string)
  (tty_of : history → string → bool) (open_logs : history → LogsCommand → string → (string * option string) + string)
  (std_copy : string → string * option string).

Definition NewClient : X (unit + string) := ask (λ h, of_option (h_client w h)).

Definition GetRunningStackCommits (stackID : string) : X (list string + string) :=
  containers ←? listStackContainers w stackID;
  mret (inl (distinctCommitSHAs containers)).

Definition answer {A} (id : string) (m : X (A + string)) (k : A → X CommandResult) : X CommandResult :=
  r ← m; match r with inl x => k x | inr err => mret (failed id err) end.

Definition Inspect (commandID stackID : string) : X CommandResult :=
  answer commandID NewClient (λ _,
  answer commandID (GetRunningStackCommits stackID) (λ commits,
  mret (succeeded commandID (encode_inspect (inspectResultFor commits))))).

Definition inspect_labels (containerID : string) : X (option (gmap string string) + string) :=
  r ← inspect w containerID;
  mret (match r with inl i => inl (config_labels i) | inr f => inr (text_of f) end).

Definition belongs_to (key value : string) (labels : option (gmap string string)) : bool :=
  match labels with Some l => bool_decide (label key l = value) | None => false end.

Definition ContainerBelongsToProject (containerID projectName : string) : X (bool + string) :=
  labels ←? inspect_labels containerID; mret (inl (belongs_to projectLabel projectName labels)).

Definition ContainerBelongsToStack (containerID stackID : string) : X (bool + string) :=
  labels ←? inspect_labels containerID; mret (inl (belongs_to stackLabel stackID labels)).

Definition verifyContainerAndGetClient (containerID projectName stackID : string) : X (unit + string) :=
  _ ←? NewClient;
  belongs ←? (if decide (stackID ≠ "") then ContainerBelongsToStack containerID stackID
              else ContainerBelongsToProject containerID projectName);
  mret (if (belongs : bool) then inl tt else inr "container does not belong to stack").

Inductive action := Stop | Restart.

Definition executeContainerAction (commandID containerID projectName stackID : string) (a : action) : X CommandResult :=
  answer commandID (verifyContainerAndGetClient containerID projectName stackID) (λ _,
  r ← act w (match a with Stop => ContainerStop containerID | Restart => ContainerRestart containerID end);
  mret (match r with
        | Some f => failed commandID (text_of f)
        | None => succeeded commandID (match a with Stop => "stopped" | Restart => "restarted" end)
        end)).

Definition StopContainer commandID containerID projectName stackID := executeContainerAction commandID containerID projectName stackID Stop.
Definition RestartContainer commandID containerID projectName stackID :=
  executeContainerAction commandID containerID projectName stackID Restart.

Definition DiscoverProjects (commandID : string) : X CommandResult :=
  answer commandID NewClient (λ _,
  answer commandID (tell (ContainerList projectLabel) (λ h, h_list w h projectLabel)) (λ containers,
  mret (succeeded commandID (encode_projects (go_range (foldl add_container ∅ containers)).*2)))).

Definition logs_result (cmd : LogsCommand) (tail logs : string) (truncated : bool) : ContainerLogsResult :=
  {| Logs := logs; AppliedTail := tail; AppliedSince := lc_since cmd; AppliedUntil := lc_until cmd; lr_Pattern := lc_pattern cmd;
     Truncated := truncated;
     TruncationReason := if truncated then "log output exceeded the 64 KiB response limit or 1 MiB read limit" else "" |}.

(** The bytes read: at most one more than the limit, which is then cut off. *)
Definition read_limited (data : string) : string * bool :=
  (stake maxReadBytes data, bool_decide (maxReadBytes < String.length data)).

Definition finish_logs (cmd : LogsCommand) (tail raw : string) (tty : bool) (pattern : option (string → bool)) (truncated : bool)
    : CommandResult :=
  match formatContainerLogs std_copy raw tty pattern truncated with
  | inr err => failed (lc_id cmd) ("decoding container logs: " +:+ err)
  | inl (logs, truncated) => succeeded (lc_id cmd) (encode_logs (logs_result cmd tail logs truncated))
  end.

Definition GetContainerLogs (cmd : LogsCommand) : X CommandResult :=
  let id := lc_id cmd in
  let tail := if decide (lc_tail cmd = "") then "100" else lc_tail cmd in
  answer id (verifyContainerAndGetClient (lc_container cmd) (lc_project cmd) (lc_stack cmd)) (λ _,
  answer id (mret (if decide (lc_pattern cmd = "") then inl None
                   else match compile (lc_pattern cmd) with
                        | inl re => inl (Some re) | inr err => inr ("invalid log pattern: " +:+ err) end)) (λ pattern,
  answer id (r ← inspect w (lc_container cmd);
             mret (match r with inl _ => inl tt | inr f => inr ("inspecting container logs target: " +:+ text_of f) end)) (λ _,
  tty ← ask (λ h, tty_of h (lc_container cmd));
  answer id (ask (λ h, open_logs h cmd tail)) (λ '(data, readErr),
  let '(raw, truncated) := read_limited data in
  mret (match (if truncated then None else readErr) with
        | Some err => failed id ("reading container logs: " +:+ err)
        | None => finish_logs cmd tail raw tty pattern truncated
        end))))).
End queries.

(** ** The revision, end to end *)
Lemma elem_of_commits sha containers : ∀ commits, sha ∈ foldl add_commit commits containers ↔
  sha ∈ commits ∨ sha ≠ "" ∧ ∃ c, c ∈ containers ∧ label commitSHALabel (Labels c) = sha.
Proof.
  induction containers as [|c containers IH]; intros commits; simpl; [set_solver|]. rewrite IH. unfold add_commit. cbv zeta.
  setoid_rewrite elem_of_cons. case_decide as Hd; [naive_solver|]. apply Decidable.not_or in Hd as [Hne Hn].
  rewrite elem_of_app list_elem_of_singleton. naive_solver.
Qed.

Lemma NoDup_commits containers : ∀ commits, NoDup commits → NoDup (foldl add_commit commits containers).
Proof.
  induction containers as [|c containers IH]; intros commits Hn; simpl; [done|]. apply IH. unfold add_commit. cbv zeta.
  case_decide as Hd; [done|]. apply NoDup_app. split_and!; [done| |apply NoDup_singleton]. set_solver.
Qed.

Lemma singleton_iff {A} (l : list A) x : NoDup l → l = [x] ↔ x ∈ l ∧ ∀ y, y ∈ l → y = x.
Proof.
  intros Hn. split; [intros ->; set_solver|]. intros [Hx Hall]. destruct l as [|y l]; [by apply elem_of_nil in Hx|].
  assert (y = x) as -> by (apply Hall; by left). destruct l as [|z l]; [done|]. exfalso.
  assert (z = x) as -> by (apply Hall; right; by left). apply NoDup_cons in Hn as [Hn _]. apply Hn. by left.
Qed.

(** One revision means: some container carries it, and no container carries another. *)
Lemma one_commit containers sha : sha ≠ "" → distinctCommitSHAs containers = [sha] ↔
  (∃ c, c ∈ containers ∧ label commitSHALabel (Labels c) = sha)
  ∧ ∀ c, c ∈ containers → label commitSHALabel (Labels c) = "" ∨ label commitSHALabel (Labels c) = sha.
Proof.
  intros Hs. unfold distinctCommitSHAs. rewrite singleton_iff; [|apply NoDup_commits, NoDup_nil_2].
  setoid_rewrite elem_of_commits. setoid_rewrite elem_of_nil. split.
  - intros [[[]|[_ Hex]] Hall]. split; [done|]. intros c Hc. destruct (decide (label commitSHALabel (Labels c) = "")); [by left|].
    right. apply Hall. right. split; [done|]. by exists c.
  - intros [Hex Hall]. split; [by right|]. intros y [[]|[Hy (c & Hc & <-)]]. by destruct (Hall c Hc).
Qed.

Section convergence.
Context (since : string → option Z) `{GoRange} (yaml_parse : string → option GoValue.value)
  (unmarshal : string → list Health.ServiceStatus → bool * list Health.ServiceStatus)
  (replies : nat → PostCheck.reply) (interrupted : nat → option string).
Context (w : host) (encode_inspect : InspectResult → string) (decode_inspect : string → option InspectResult).
(** JSON: what the worker encodes the server decodes, and an empty text is no document. *)
Hypothesis decode_encode : ∀ r, decode_inspect (encode_inspect r) = Some r.
Hypothesis decode_nothing : decode_inspect "" = None.

(** After a deploy killed by its budget the server records the new revision exactly when
    it could ask, its check of the containers found something to verify, the commit is a
    new one, and on the worker docker lists for the stack a container of that commit and
    none of another. *)
Theorem timeout_convergence_end_to_end commandID stackID dispatcher composeContent commitSHA previousSHA (h : history) :
  let r := (Inspect w encode_inspect commandID stackID h).1 in
  PostCheck.Converged (PostCheck.convergeAfterTimeout since yaml_parse unmarshal replies interrupted decode_inspect
    (PostCheck.Replied (Output r) (Error r)) dispatcher composeContent commitSHA previousSHA) = true ↔
  dispatcher = true ∧ commitSHA ≠ "" ∧ commitSHA ≠ previousSHA
  ∧ PostCheck.Skipped (PostCheck.postDeployCheck since yaml_parse unmarshal replies interrupted composeContent) = false
  ∧ h_client w h = None
  ∧ ∃ containers, h_list w h (stack_filter stackID) = inl containers
      ∧ (∃ c, c ∈ containers ∧ label commitSHALabel (Labels c) = commitSHA)
      ∧ ∀ c, c ∈ containers → label commitSHALabel (Labels c) = "" ∨ label commitSHALabel (Labels c) = commitSHA.
Proof.
  cbv zeta. rewrite PostCheck.convergence_exact.
  enough (commitSHA ≠ "" → (∃ output inspected, PostCheck.Replied (Output (Inspect w encode_inspect commandID stackID h).1)
      (Error (Inspect w encode_inspect commandID stackID h).1) = PostCheck.Replied output ""
      ∧ decode_inspect output = Some inspected ∧ CommitSHAs inspected = [commitSHA]) ↔
    h_client w h = None ∧ ∃ containers, h_list w h (stack_filter stackID) = inl containers
      ∧ distinctCommitSHAs containers = [commitSHA]) as Hk.
  { split.
    - intros (Hd & Hc & Hp & Hs & Hr). apply Hk in Hr as (Hcl & containers & Hl & Ho); [|done]. apply one_commit in Ho; [|done].
      split_and!; [done..|]. by exists containers.
    - intros (Hd & Hc & Hp & Hs & Hcl & containers & Hl & Ho). split_and!; [done..|]. apply Hk; [done|]. split; [done|].
      exists containers. split; [done|]. by apply one_commit. }
  intros Hc. unfold Inspect, answer, NewClient, GetRunningStackCommits, listStackContainers, seq_err, mbind, X_bind, ask, tell. simpl.
  destruct (h_client w h) as [err|]; simpl.
  { split; [|by intros []]. intros (output & inspected & [= <- _] & Hd & _). by rewrite decode_nothing in Hd. }
  destruct (h_list w h (stack_filter stackID)) as [containers|err]; simpl.
  - split.
    + intros (output & inspected & [= <-] & Hd & Ho). rewrite decode_encode in Hd. simplify_eq. split; [done|]. by exists containers.
    + intros (_ & containers' & [= <-] & Ho). eexists _, _. split; [done|]. by rewrite decode_encode.
  - split; [|by intros (_ & containers & ? & _)]. intros (output & inspected & [= <- _] & Hd & _). by rewrite decode_nothing in Hd.
Qed.
End convergence.

(** ** Containers are touched only for their stack *)
Section actions.
Context (w : host) (commandID containerID projectName stackID : string).

(** The container's label, as docker showed it in [h], names the stack or, for a command
    without a stack, the project. *)
Definition owned (h : history) : Prop :=
  ∃ i l, h_inspect w h containerID = inl i ∧ config_labels i = Some l
    ∧ if decide (stackID = "") then label projectLabel l = projectName else label stackLabel l = stackID.

Definition action_call (h : history) (c : call) : Prop :=
  match c with
  | ContainerInspect id => id = containerID
  | ContainerStop id | ContainerRestart id => id = containerID ∧ ∃ h', h = h' ++ [ContainerInspect containerID] ∧ owned h'
  | _ => False
  end.

Lemma verify_cases h :
  (∃ err, verifyContainerAndGetClient w containerID projectName stackID h = (inr err, h))
  ∨ (∃ err, verifyContainerAndGetClient w containerID projectName stackID h = (inr err, h ++ [ContainerInspect containerID]))
  ∨ verifyContainerAndGetClient w containerID projectName stackID h = (inl tt, h ++ [ContainerInspect containerID]) ∧ owned h.
Proof.
  unfold verifyContainerAndGetClient, NewClient, seq_err, mbind, X_bind, ask. simpl. destruct (h_client w h) as [err|]; simpl; [by left; eexists|].
  right. case_decide as Hs.
  - unfold ContainerBelongsToStack, inspect_labels, inspect, seq_err, mbind, X_bind, tell, belongs_to. simpl.
    destruct (h_inspect w h containerID) as [i|f] eqn:Hi; simpl; [|by left; eexists].
    destruct (config_labels i) as [l|] eqn:Hl; simpl; [|by left; eexists]. case_bool_decide as Hb; simpl; [|by left; eexists].
    right. split; [done|]. exists i, l. split_and!; [done..|]. by rewrite decide_False.
  - unfold ContainerBelongsToProject, inspect_labels, inspect, seq_err, mbind, X_bind, tell, belongs_to. simpl.
    destruct (h_inspect w h containerID) as [i|f] eqn:Hi; simpl; [|by left; eexists].
    destruct (config_labels i) as [l|] eqn:Hl; simpl; [|by left; eexists]. case_bool_decide as Hb; simpl; [|by left; eexists].
    right. split; [done|]. exists i, l. split_and!; [done..|]. by rewrite decide_True.
Qed.

(** A container is stopped or restarted only right after docker showed it with the label
    of the command's stack (of its project when the command has no stack), and only the
    one the command names; docker is asked about no other container. *)
Theorem container_actions_owned a h :
  let '(_, h') := executeContainerAction w commandID containerID projectName stackID a h in
  ∃ new, h' = h ++ new ∧ ∀ i c, new !! i = Some c → action_call (h ++ take i new) c.
Proof.
  enough (grows action_call h (executeContainerAction w commandID containerID projectName stackID a h).2) as Hg
    by (destruct (executeContainerAction _ _ _ _ _ _ _); by apply grows_split).
  unfold executeContainerAction, answer, mbind, X_bind.
  destruct (verify_cases h) as [[err ->]|[[err ->]|[-> Ho]]]; [constructor|by repeat constructor|].
  unfold act, tell. simpl. constructor; [by repeat constructor|]. destruct a; (split; [done|]); by exists h.
Qed.
End actions.

(** ** Projects *)
Section discovery.

Definition unmanaged_in (name : string) (c : Summary) : Prop :=
  label managedLabel (Labels c) ≠ "true" ∧ label projectLabel (Labels c) = name.

Definition in_service (name s : string) (c : Summary) : Prop :=
  unmanaged_in name c ∧ label "com.docker.compose.service" (Labels c) = s.

Definition discovered (containers : list Summary) (projects : gmap string DiscoveredProject) : Prop :=
  ∀ name, match projects !! name with
          | None => name = "" ∨ ∀ c, c ∈ containers → ¬ unmanaged_in name c
          | Some p => name ≠ "" ∧ dp_ProjectName p = name ∧ (∃ c, c ∈ containers ∧ unmanaged_in name c) ∧ NoDup (dp_Services p)
              ∧ ∀ s, s ∈ dp_Services p ↔ s ≠ "" ∧ ∃ c, c ∈ containers ∧ in_service name s c
          end.

Lemma exists_snoc {A} (P : A → Prop) l x : (∃ y, y ∈ l ++ [x] ∧ P y) ↔ (∃ y, y ∈ l ∧ P y) ∨ P x.
Proof.
  split.
  - intros (y & [Hy|Hy]%elem_of_app & HP); [left; by exists y|]. apply list_elem_of_singleton in Hy as ->. by right.
  - intros [(y & Hy & HP)|HP]; [exists y|exists x]; rewrite elem_of_app list_elem_of_singleton; auto.
Qed.

(** A container of no interest to the project [name]. *)
Lemma discovered_skip seen c name p : ¬ unmanaged_in name c →
  match p with
  | None => name = "" ∨ ∀ c, c ∈ seen → ¬ unmanaged_in name c
  | Some p => name ≠ "" ∧ dp_ProjectName p = name ∧ (∃ c, c ∈ seen ∧ unmanaged_in name c) ∧ NoDup (dp_Services p)
      ∧ ∀ s, s ∈ dp_Services p ↔ s ≠ "" ∧ ∃ c, c ∈ seen ∧ in_service name s c
  end →
  match p with
  | None => name = "" ∨ ∀ c', c' ∈ seen ++ [c] → ¬ unmanaged_in name c'
  | Some p => name ≠ "" ∧ dp_ProjectName p = name ∧ (∃ c', c' ∈ seen ++ [c] ∧ unmanaged_in name c') ∧ NoDup (dp_Services p)
      ∧ ∀ s, s ∈ dp_Services p ↔ s ≠ "" ∧ ∃ c', c' ∈ seen ++ [c] ∧ in_service name s c'
  end.
Proof.
  intros Hu. destruct p as [p|].
  - intros (Hne & Hn & Hex & Hnd & Hs). split_and!; [done..|apply exists_snoc; by left|done|]. intros s. rewrite Hs exists_snoc.
    assert (¬ in_service name s c) by (intros [? _]; done). tauto.
  - intros [Hd|Hd]; [by left|]. right. intros c' [Hc'|Hc']%elem_of_app; [auto|]. by apply list_elem_of_singleton in Hc' as ->.
Qed.

Lemma add_container_discovered seen projects c : discovered seen projects → discovered (seen ++ [c]) (add_container projects c).
Proof.
  intros Hd name. specialize (Hd name). unfold add_container. cbv zeta. case_decide as Hskip.
  { destruct (decide (name = "")) as [->|Hne]; [|apply discovered_skip; [unfold unmanaged_in; intuition congruence|done]].
    destruct (projects !! ""); [by destruct Hd|by left]. }
  apply Decidable.not_or in Hskip as [Hm Hne]. destruct (decide (label projectLabel (Labels c) = name)) as [He|He].
  2: { rewrite lookup_insert_ne //. apply discovered_skip; [by intros [_ ?]|done]. }
  rewrite He lookup_insert_eq. rewrite He in Hne. assert (unmanaged_in name c) as Hu by done.
  set (svc := label "com.docker.compose.service" (Labels c)).
  assert (∀ s, in_service name s c ↔ s = svc) as Hsvc by (intros s; unfold in_service; naive_solver).
  destruct (projects !! name) as [p|] eqn:Hp; simpl.
  - destruct Hd as (_ & Hn & Hex & Hnd & Hs). split_and!; [done..|apply exists_snoc; by left| |].
    { case_decide as Hi; [done|]. apply NoDup_app. split_and!; [done|set_solver|apply NoDup_singleton]. }
    intros s. rewrite (exists_snoc (in_service name s)) Hsvc. specialize (Hs s). case_decide as Hi.
    + destruct (decide (s = svc)) as [->|]; [|tauto]. destruct Hi as [Hi|Hi]; tauto.
    + rewrite elem_of_app list_elem_of_singleton Hs. destruct (decide (s = svc)) as [->|]; tauto.
  - assert (∀ s, ¬ ∃ c', c' ∈ seen ∧ in_service name s c') as Hno.
    { intros s (c' & Hc' & [Hu' _]). destruct Hd as [?|Hd]; [done|]. by apply (Hd c'). }
    split_and!; [done..|apply exists_snoc; by right| |].
    { case_decide; [apply NoDup_nil_2|apply NoDup_singleton]. }
    intros s. rewrite (exists_snoc (in_service name s)) Hsvc. specialize (Hno s).
    case_decide as Hi; rewrite ?elem_of_nil ?list_elem_of_singleton.
    + destruct Hi as [Hi|Hi%elem_of_nil]; [|done]. intuition congruence.
    + intuition congruence.
Qed.

(** The projects reported are exactly the compose projects with a container wireops does
    not manage, each with the services of those containers. *)
Theorem discovery_exact containers : discovered containers (foldl add_container ∅ containers).
Proof.
  assert (∀ l seen projects, discovered seen projects → discovered (seen ++ l) (foldl add_container projects l)) as Hf.
  { induction l as [|c l IH]; intros seen projects Hd; simpl; [by rewrite app_nil_r|].
    rewrite (assoc_L (++) seen [c] l : seen ++ c :: l = _). by apply IH, add_container_discovered. }
  apply (Hf containers [] ∅). intros name. rewrite lookup_empty. right. by intros c ?%elem_of_nil.
Qed.
End discovery.

(** ** Logs stay within their limit *)
Lemma sdrop_length n s : String.length (sdrop n s) = String.length s - n.
Proof. revert s. induction n as [|n IH]; intros [|a s]; simpl; [done|lia|done|apply IH]. Qed.

Lemma stake_length n s : String.length (stake n s) ≤ n.
Proof. revert s. induction n as [|n IH]; intros [|a s]; simpl; [lia..|]. specialize (IH s). lia. Qed.

Lemma decode_rune_width s : s ≠ "" → 1 ≤ (decode_rune s).2 ≤ String.length s.
Proof.
  destruct s as [|a s]; [done|]. intros _. unfold decode_rune. simpl.
  destruct (_ <=? _)%N; simpl; [lia|]. destruct s as [|b s]; simpl; [lia|]. destruct (_ && _); simpl; [lia|].
  destruct s as [|c s]; simpl; [lia|]. destruct (_ && _); simpl; [lia|]. destruct s as [|d s]; simpl; [lia|].
  destruct (_ && _); simpl; lia.
Qed.

Lemma to_valid_length fuel : ∀ s, String.length (to_valid_utf8 fuel s) ≤ String.length s.
Proof.
  induction fuel as [|fuel IH]; intros s; [simpl; lia|]. destruct s as [|a s]; [done|]. cbn [to_valid_utf8].
  destruct (decode_rune (String a s)) as [r n] eqn:Hd. specialize (IH (sdrop n (String a s))). rewrite sdrop_length in IH.
  pose proof (decode_rune_width (String a s)) as Hw. rewrite Hd in Hw. simpl in Hw. destruct Hw as [H1 H2]; [done|].
  cbv zeta. case_decide; [simpl in *; lia|]. rewrite slength_app. pose proof (stake_length n (String a s)). simpl in *. lia.
Qed.

Lemma skip_length s : String.length (skip_continuation s) ≤ String.length s.
Proof. induction s as [|a s IH]; simpl; [done|]. destruct (continuation a); simpl; lia. Qed.

Lemma tail_bounded logs maxBytes : String.length (tailLogOutput logs maxBytes) ≤ maxBytes.
Proof.
  unfold tailLogOutput. case_decide; [done|]. unfold ToValidUTF8. etrans; [apply to_valid_length|].
  etrans; [apply skip_length|]. rewrite sdrop_length. lia.
Qed.

(** A log answer is never over the limit, and one not marked truncated is complete: all
    of what docker gave, or all of its lines that match. *)
Theorem logs_bounded std_copy raw tty pattern sourceTruncated logs truncated :
  formatContainerLogs std_copy raw tty pattern sourceTruncated = inl (logs, truncated) →
  String.length logs ≤ maxOutputBytes
  ∧ (truncated = false → sourceTruncated = false
       ∧ ∃ all, (if tty then (raw, None) else std_copy raw) = (all, None)
         ∧ logs = match pattern with Some re => filterLogLines all re | None => all end).
Proof.
  unfold formatContainerLogs. destruct (if tty then _ else _) as [all err].
  destruct (if sourceTruncated then None else err) as [e|] eqn:He; [done|]. case_decide as Hl; intros [= <- <-].
  - split; [apply tail_bounded|done].
  - split; [lia|]. intros ->. split; [done|]. subst err. by exists all.
Qed.

Lemma logs_bounded_witness : String.length "two" ≤ maxOutputBytes.
Proof.
  refine (proj1 (logs_bounded (λ s, (s, None)) ("one" +:+ newline +:+ "two") false (Some (λ l, HasPrefix l "t")) false "two" false _)).
  vm_compute. reflexivity.
Defined.

(** ** A concrete encoding *)
Fixpoint pos_text (p : positive) : string :=
  match p with xH => "1" | xO p => String "0" (pos_text p) | xI p => String "2" (pos_text p) end.

Fixpoint text_pos (s : string) : option positive :=
  match s with
  | EmptyString => None
  | String a s =>
      if decide (a = "1"%char) then Some xH
      else p ← text_pos s; Some (if decide (a = "0"%char) then xO p else xI p)
  end.

Lemma text_pos_text p : text_pos (pos_text p) = Some p.
Proof. induction p as [p IH|p IH|]; simpl; [by rewrite IH..|done]. Qed.

Definition inspect_text (r : InspectResult) : string := pos_text (encode (CommitSHA r, CommitSHAs r)).
Definition text_inspect (s : string) : option InspectResult :=
  p ← text_pos s; '(c, l) ← decode p; Some {| CommitSHA := c; CommitSHAs := l |}.

Lemma text_inspect_text r : text_inspect (inspect_text r) = Some r.
Proof. unfold text_inspect, inspect_text. rewrite text_pos_text /= decode_encode /=. by destruct r. Qed.

(** One service, on the new commit. *)
Definition on_commit (sha : string) : host := {|
  h_stat := λ _ _, NotExist; h_open := λ _ _, inr ""; h_root := λ _ _, None; h_exec := λ _ _, ("", None); h_client := λ _, None;
  h_list := λ _ _, inl [{| ID := "a"; Labels := {[ commitSHALabel := sha ]} |}; {| ID := "b"; Labels := ∅ |}];
  h_inspect := λ _ _, inr (NotFound ""); h_docker := λ _ _, None; h_file := λ _ _, None |}.

Lemma timeout_convergence_end_to_end_witness :
  let r := (Inspect (on_commit "abc") inspect_text "c1" "s1" []).1 in
  PostCheck.Converged (@PostCheck.convergeAfterTimeout (λ _, None) some_range PostCheck.one_service PostCheck.answers
    (λ _, PostCheck.Replied "[]" "") (λ _, None) text_inspect (PostCheck.Replied (Output r) (Error r)) true "" "abc" "old") = true.
Proof.
  apply (@timeout_convergence_end_to_end (λ _, None) some_range PostCheck.one_service PostCheck.answers (λ _, PostCheck.Replied "[]" "")
    (λ _, None) (on_commit "abc") inspect_text text_inspect text_inspect_text eq_refl "c1" "s1" true "" "abc" "old" []).
  split; [reflexivity|]. split; [discriminate|]. split; [discriminate|]. split; [vm_compute; reflexivity|]. split; [reflexivity|].
  eexists. split; [reflexivity|]. split; [eexists; split; [left|reflexivity]|].
  intros c Hc. apply elem_of_cons in Hc as [->|Hc]; [right; reflexivity|]. apply list_elem_of_singleton in Hc as ->. left. reflexivity.
Defined.
