(* ===== verification/Crypto.v ===== *)
(** * internal/crypto: the secret key and encrypted values

    The secret key of the server, the values encrypted under it and the canary that
    tells at start-up whether the key is still the one the data was encrypted with.
    AES-GCM itself is a parameter: sealing and opening under a key and a nonce of
    twelve bytes. *)
From Stdlib Require Import ZArith.
From S2P Require Import Prelude GoStrings GoPath GoFmt GoBase64 GoValue ComposeDoc PbRecord PbTable Redact.

(** ** encoding/hex *)
Definition fromHexChar (a : ascii) : option N :=
  let n := N_of_ascii a in
  if in_range 48 57 n then Some (n - 48)%N
  else if in_range 97 102 n then Some (n - 87)%N
  else if in_range 65 70 n then Some (n - 55)%N
  else None.

(** [hex.DecodeString]: an odd length is an error too. *)
Fixpoint hex_decode (s : string) : option string :=
  match s with
  | "" => Some ""
  | String a (String b r) =>
      x ← fromHexChar a; y ← fromHexChar b; r ← hex_decode r; Some (String (ascii_of_N (x * 16 + y)) r)
  | _ => None
  end.

Fixpoint hex_encode (s : string) : string :=
  match s with
  | "" => ""
  | String a r => String (hexdigit (N_of_ascii a / 16)) (String (hexdigit (N_of_ascii a mod 16)) (hex_encode r))
  end.

(** ** secret_key.go *)
Definition NormalizeSecretKey (raw : string) : option string :=
  let raw := TrimSpace raw in
  if decide (raw = "") then None
  else if decide (String.length raw = 64) then
    decoded ← hex_decode raw; if decide (String.length decoded = 32) then Some decoded else None
  else if decide (String.length raw = 32) then Some raw
  else None.

Definition ValidateSecretKey (raw : string) : option string :=
  let raw := TrimSpace raw in
  if decide (raw = "") then Some "SECRET_KEY is required"
  else match NormalizeSecretKey raw with
  | None => Some ("SECRET_KEY must be a raw 32-byte key or a 64-character hex-encoded 32-byte key (got " +:+
                  Itoa (Z.of_nat (String.length raw)) +:+ " characters)")
  | Some _ => None
  end.

(** The collections of the database; a query of one that is missing fails. *)
Abbreviation database := (gmap string rows).

(** ** encrypt.go *)
Section aead.
Context (Seal : string → string → string → string) (Open : string → string → string → option string).

(** [aes.NewCipher] takes keys of 16, 24 and 32 bytes; [nonce] is what the random
    source gives. *)
Definition key_size_ok (key : string) : bool := bool_decide (String.length key ∈ [16; 24; 32]).

Definition nonceSize : nat := 12.

Definition Encrypt (nonce : option string) (plaintext key : string) : option string :=
  if negb (key_size_ok key) then None
  else nonce ← nonce; Some (EncodeToString (nonce +:+ Seal key nonce plaintext)).

Definition Decrypt (encoded key : string) : option string :=
  ciphertext ← DecodeString encoded;
  if negb (key_size_ok key) then None
  else if String.length ciphertext <? nonceSize then None
  else Open key (stake nonceSize ciphertext) (sdrop nonceSize ciphertext).

Definition IsEncrypted (value key : string) : bool :=
  if decide (value = "") then false else bool_decide (is_Some (Decrypt value key)).

(** ** canary.go *)
Definition canaryPlaintext := "wireops-secret-key-canary-v1".

Definition secretBearingFields : list (string * string) :=
  [ ("repository_keys", "ssh_private_key"); ("repository_keys", "git_password"); ("repository_keys", "oauth_token");
    ("repository_keys", "oauth_refresh_token"); ("repositories", "sops_age_key"); ("stack_env_vars", "value");
    ("job_env_vars", "value"); ("registry_credentials", "password") ].

Definition holds_secret (db : database) (cf : string * string) : bool :=
  match db !! cf.1 with
  | Some rows => existsb (λ r, bool_decide (GetString cf.2 r ≠ "")) rows
  | None => false
  end.

Definition hasExistingEncryptedData (db : database) : bool := existsb (holds_secret db) secretBearingFields.

Inductive canary_error := KeyLength | QueryFailed | NoCanaryForData | SeedFailed | SaveFailed | KeyMismatch.

(** [nonce] is the random bytes of the seal, [saved] whether the row can be saved and
    [id] the id it gets. *)
Definition VerifyOrSeedSecretKeyCanary (nonce : option string) (saved : bool) (id secretKey : string) (db : database)
  : option canary_error * database :=
  if decide (String.length secretKey ≠ 32) then (Some KeyLength, db)
  else match db !! "secret_key_canary" with
  | None => (Some QueryFailed, db)
  | Some [] =>
      if hasExistingEncryptedData db then (Some NoCanaryForData, db)
      else match Encrypt nonce canaryPlaintext secretKey with
      | None => (Some SeedFailed, db)
      | Some encrypted =>
          if saved then (None, <["secret_key_canary" := [SetStr "value" encrypted {| Id := id; fields := ∅ |}]]> db)
          else (Some SaveFailed, db)
      end
  | Some (r :: _) =>
      if decide (Decrypt (GetString "value" r) secretKey = Some canaryPlaintext) then (None, db) else (Some KeyMismatch, db)
  end.
End aead.

(** ** Round trips *)
Lemma hexdigit_from n : (n < 16)%N → fromHexChar (hexdigit n) = Some n.
Proof.
  intros Hn. assert (n ∈ [0; 1; 2; 3; 4; 5; 6; 7; 8; 9; 10; 11; 12; 13; 14; 15]%N) as Hin
    by (rewrite !elem_of_cons; lia).
  repeat (apply elem_of_cons in Hin as [->|Hin]; [done|]). by apply elem_of_nil in Hin.
Qed.

Lemma hex_roundtrip s : hex_decode (hex_encode s) = Some s.
Proof.
  induction s as [|a s IH]; [done|]. cbn [hex_encode hex_decode].
  pose proof (N_ascii_bounded a) as Ha.
  rewrite !hexdigit_from; [|apply N.Div0.div_lt_upper_bound; lia|apply N.mod_lt; lia]. simpl. rewrite IH. simpl. do 2 f_equal.
  rewrite -{3}(ascii_N_embedding a). f_equal. pose proof (N.div_mod (N_of_ascii a) 16). lia.
Qed.

Lemma trim_left_fuel_strips n ps s : Forall (λ p, p ≠ "") ps → String.length s ≤ n →
  strip_any ps (trim_left_fuel n ps s) = None ∧ ∃ p, s = p +:+ trim_left_fuel n ps s.
Proof.
  intros Hps. revert s. induction n as [|n IH]; intros s Hn; simpl.
  - destruct s; [|simpl in Hn; lia]. split; [|by exists ""]. apply strip_any_None.
    eapply Forall_impl; [exact Hps|]. intros p Hp. by destruct p.
  - destruct (strip_any ps s) as [r|] eqn:Hs; [|split; [done|by exists ""]].
    unfold strip_any in Hs. apply head_Some_elem_of, list_elem_of_omap in Hs as (p & Hin & Hp). apply strip_prefix_Some in Hp.
    rewrite Forall_forall in Hps. specialize (Hps p Hin). subst s. rewrite slength_app in Hn.
    destruct (IH r) as [H1 (p' & H2)]; [destruct p; simpl in *; [done|lia]|]. split; [done|]. exists (p +:+ p').
    by rewrite sapp_assoc -H2.
Qed.

Lemma HasPrefix_extend s t p : HasPrefix s p = true → HasPrefix (s +:+ t) p = true.
Proof. intros (r & ->)%HasPrefix_spec. apply HasPrefix_spec. exists (r +:+ t). by rewrite sapp_assoc. Qed.

Lemma TrimSpace_idemp s : TrimSpace (TrimSpace s) = TrimSpace s.
Proof.
  assert (Forall (λ p, p ≠ "") space_seqs ∧ Forall (λ p, p ≠ "") (srev <$> space_seqs)) as [H1 H2]
    by (split; by apply (bool_decide_unpack _)).
  destruct (trim_left_fuel_strips _ _ s H1 ltac:(done)) as [Hl _].
  destruct (trim_left_fuel_strips _ _ (srev (trim_left space_seqs s)) H2 ltac:(done)) as [Hr (p & Hp)].
  fold (trim_left space_seqs s) in Hl. apply ends_trimmed.
  - unfold TrimSpace, trim_right, trim_left in *. set (u := trim_left_fuel _ (srev <$> _) _) in *.
    apply (f_equal srev) in Hp. rewrite srev_involutive srev_app in Hp. rewrite Hp in Hl.
    rewrite strip_any_None in Hl. apply strip_any_None. eapply Forall_impl; [exact Hl|]. intros q Hq. cbv beta in *.
    apply not_true_iff_false. intros Hx. apply (HasPrefix_extend _ (srev p)) in Hx. by rewrite Hx in Hq.
  - unfold TrimSpace, trim_right. by rewrite srev_involutive.
Qed.

Lemma length_hex_encode s : String.length (hex_encode s) = 2 * String.length s.
Proof. induction s as [|a s IH]; [done|]. simpl. rewrite IH. lia. Qed.

Lemma stake_app s t : stake (String.length s) (s +:+ t) = s.
Proof. induction s as [|a s IH]; [by destruct t|]. simpl. by rewrite IH. Qed.

Lemma sdrop_app s t : sdrop (String.length s) (s +:+ t) = t.
Proof. induction s as [|a s IH]; [by destruct t|]. done. Qed.

Lemma stake_app_eq n s t : String.length s = n → stake n (s +:+ t) = s.
Proof. intros <-. apply stake_app. Qed.
Lemma sdrop_app_eq n s t : String.length s = n → sdrop n (s +:+ t) = t.
Proof. intros <-. apply sdrop_app. Qed.

Section spec.
Context (Seal : string → string → string → string) (Open : string → string → string → option string).
(** What is sealed under a key and a nonce opens under them. *)
Context (open_seal : ∀ key nonce p, Open key nonce (Seal key nonce p) = Some p).

Lemma decrypt_encrypt nonce p key e : String.length nonce = nonceSize → Encrypt Seal (Some nonce) p key = Some e →
  Decrypt Open e key = Some p.
Proof.
  intros Hn He. unfold Encrypt in He. destruct (key_size_ok key) eqn:Hk; [|done]. cbn in He. injection He as <-.
  unfold Decrypt. rewrite base64_roundtrip. cbn [mbind option_bind]. rewrite Hk. cbn [negb].
  case_match eqn:Hl; [apply Nat.ltb_lt in Hl; rewrite slength_app Hn in Hl; lia|].
  by rewrite stake_app_eq // sdrop_app_eq.
Qed.

Lemma key_size_32 key : String.length key = 32 → key_size_ok key = true.
Proof. intros Hk. unfold key_size_ok. by rewrite Hk. Qed.

Lemma normalized_length raw key : NormalizeSecretKey raw = Some key → String.length key = 32.
Proof.
  unfold NormalizeSecretKey. do 2 (case_decide; [done||intros (d & _ & Hd)%bind_Some; by case_decide; simplify_eq|]).
  case_decide; [|done]. by intros [= <-].
Qed.

(** The key of the server, given as 32 bytes or as their hexadecimal digits, encrypts
    every value, the result decrypts to the value and is recognised as encrypted, so it is
    not encrypted twice. *)
Theorem secret_roundtrip raw key nonce p : NormalizeSecretKey raw = Some key → String.length nonce = nonceSize →
  ValidateSecretKey raw = None ∧
  ∃ e, Encrypt Seal (Some nonce) p key = Some e ∧ Decrypt Open e key = Some p ∧ IsEncrypted Open e key = true.
Proof.
  intros Hk Hn. split.
  - unfold ValidateSecretKey. unfold NormalizeSecretKey in Hk |- *. rewrite TrimSpace_idemp. case_decide; [done|]. by rewrite Hk.
  - assert (key_size_ok key = true) as Hs by (by eapply key_size_32, normalized_length).
    eexists. unfold Encrypt. rewrite Hs /=. split; [done|].
    assert (Decrypt Open (EncodeToString (nonce +:+ Seal key nonce p)) key = Some p) as Hd.
    { apply (decrypt_encrypt nonce); [done|]. unfold Encrypt. by rewrite Hs. }
    split; [done|]. unfold IsEncrypted. case_decide as He; [|rewrite Hd; by apply bool_decide_eq_true].
    exfalso. destruct nonce; [done|]. apply (f_equal DecodeString) in He. by rewrite base64_roundtrip in He.
Qed.

(** A first start that succeeds on a database without encrypted values fixes the key:
    a later start succeeds with that key, and with a key that does not open the canary it
    fails and changes nothing, whatever else the database has got in between. *)
Theorem canary_pins_key nonce saved id key db db1 db2 nonce2 saved2 id2 key2 :
  String.length nonce = nonceSize → VerifyOrSeedSecretKeyCanary Seal Open (Some nonce) saved id key db = (None, db1) →
  db !! "secret_key_canary" = Some [] → db2 !! "secret_key_canary" = db1 !! "secret_key_canary" →
  VerifyOrSeedSecretKeyCanary Seal Open nonce2 saved2 id2 key db2 = (None, db2) ∧
  (Open key2 nonce (Seal key nonce canaryPlaintext) ≠ Some canaryPlaintext →
   ∃ err, VerifyOrSeedSecretKeyCanary Seal Open nonce2 saved2 id2 key2 db2 = (Some err, db2)).
Proof.
  intros Hn Hv He H2. unfold VerifyOrSeedSecretKeyCanary in Hv. case_decide as Hl; [done|]. rewrite He in Hv.
  destruct (hasExistingEncryptedData db); [done|]. destruct (Encrypt Seal _ _ _) as [e|] eqn:Hen; [|done].
  destruct saved; [|done]. simplify_eq. rewrite lookup_insert_eq in H2. pose proof (decrypt_encrypt _ _ _ _ Hn Hen) as Hd.
  unfold VerifyOrSeedSecretKeyCanary. rewrite H2 GetString_SetStr. split.
  - case_decide; [done|]. by rewrite decide_True.
  - intros Ho. case_decide; [by eexists|]. rewrite decide_False; [by eexists|]. intros Hx. apply Ho.
    unfold Encrypt in Hen. destruct (key_size_ok key); [|done]. cbn in Hen. injection Hen as <-.
    unfold Decrypt in Hx. rewrite base64_roundtrip in Hx. cbn [mbind option_bind] in Hx. destruct (key_size_ok key2); [|done]. cbn [negb] in Hx. case_match; [done|].
    by rewrite stake_app_eq // sdrop_app_eq in Hx.
Qed.
End spec.

(** ** Witnesses *)

(** A cipher that prefixes the key. *)
Definition toy_seal (key nonce p : string) : string := key +:+ p.
Definition toy_open (key nonce c : string) : option string := strip_prefix key c.
Definition toy_key := "0123456789abcdef0123456789abcdef".
Definition toy_nonce := "nonce-twelve".
Definition toy_db : database := {["secret_key_canary" := []]}.

Lemma toy_cipher_open key nonce p : toy_open key nonce (toy_seal key nonce p) = Some p.
Proof. by apply strip_prefix_Some. Defined.

Lemma secret_roundtrip_witness : ValidateSecretKey (hex_encode toy_key) = None ∧
  ∃ e, Encrypt toy_seal (Some toy_nonce) "s3cret" toy_key = Some e ∧ Decrypt toy_open e toy_key = Some "s3cret" ∧
    IsEncrypted toy_open e toy_key = true.
Proof. apply (secret_roundtrip toy_seal toy_open toy_cipher_open); vm_compute; reflexivity. Defined.

Lemma canary_pins_key_witness : let boot key db := VerifyOrSeedSecretKeyCanary toy_seal toy_open (Some toy_nonce) true "c1" key db in
  boot toy_key (boot toy_key toy_db).2 = (None, (boot toy_key toy_db).2) ∧
  ∃ err, boot "ffffffffffffffffffffffffffffffff" (boot toy_key toy_db).2 = (Some err, (boot toy_key toy_db).2).
Proof.
  intros boot.
  destruct (canary_pins_key toy_seal toy_open toy_cipher_open toy_nonce true "c1" toy_key toy_db (boot toy_key toy_db).2
    (boot toy_key toy_db).2 (Some toy_nonce) true "c1" "ffffffffffffffffffffffffffffffff") as [H1 H2].
  1-4: vm_compute; reflexivity. split; [exact H1|apply H2; vm_compute; discriminate].
Defined.
