(* ===== verification/AuditLog.v ===== *)
(** * internal/audit: the audit log

    The event a request is recorded as, the middleware that records the custom routes
    that change something, and the table of the log.  Header names are in their
    canonical form; [add_days] is [time.AddDate] on the time of a record. *)
From Stdlib Require Import ZArith.
From S2P Require Import Prelude GoStrings GoFmt GoValue ComposeDoc PbRecord PbTable Rbac.

Definition ActorAnonymous := "anonymous".
Definition ActorSystem := "system".
Definition ActorWorker := "worker".

Definition OriginAPI := "api".
Definition OriginAPIKey := "api_key".
Definition OriginSetup := "setup".
Definition OriginSystem := "system".
Definition OriginUI := "ui".
Definition OriginWebhook := "webhook".
Definition OriginWorker := "worker".

Definition StatusSuccess := "success".
Definition StatusError := "error".

Definition DefaultAuditRetentionDays : Z := 30.
Definition DefaultJobRunRetentionDays : Z := 7.

Definition headerAuditActorID := "X-Wireops-Actor-Id".
Definition headerAuditOrigin := "X-Wireops-Origin".
Definition headerAuditWorkerID := "X-Wireops-Worker-Id".
Definition headerAuditRequestID := "X-Request-Id".

Record Event := {
  ActorType : string; ActorID : string; Action : string; ResourceType : string; ResourceID : string; Origin : string;
  Status : string; ErrorCode : string; Metadata : gmap string value }.

(** A request: [info] is what [RequestInfo] parses, the body and the query, or an error. *)
Record http_request := {
  method : string; path : string; headers : gmap string string; info : option (gmap string value * gmap string string) }.

(** [*core.RequestEvent]; its [Request] may be nil, and so may be the event itself. *)
Record RequestEvent := { Auth : option auth_record; Request : option http_request }.

Definition header (k : string) (q : http_request) : string := default "" (headers q !! k).

(** ** Names and keys *)
Definition normalizeOrigin (raw : string) : string :=
  let o := ToLower (TrimSpace raw) in
  if decide (o ∈ [OriginAPI; OriginAPIKey; OriginSetup; OriginSystem; OriginUI; OriginWebhook; OriginWorker]) then o else "".

Definition RequestOrigin (req : option RequestEvent) : string :=
  match req ≫= Request with
  | None => OriginSystem
  | Some q =>
      let origin := normalizeOrigin (header headerAuditOrigin q) in
      if decide (origin ≠ "") then origin
      else if HasPrefix (path q) "/api/custom/webhook/" then OriginWebhook
      else if HasPrefix (path q) "/api/custom/setup" then OriginSetup
      else OriginAPI
  end.

Definition sensitiveWords : list string :=
  ["authorization"; "cookie"; "credential"; "git_password"; "known_host"; "passphrase"; "password"; "private_key"; "secret";
   "ssh_key"; "ssh_private_key"; "token"].

Definition isSensitiveKey (key : string) : bool :=
  let key := ToLower (TrimSpace key) in
  bool_decide (key ≠ "") && existsb (Contains key) sensitiveWords.

Definition splitPath (p : string) : list string := filter (λ part, part ≠ "") (Split "/"%char (trim_right ["/"] (trim_left ["/"] p))).

Definition strings_value (l : list string) : value := VList (VStr <$> l).

Section metadata.
Context `{GoRange}.

Definition sanitizeBodyKeys (body : gmap string value) : list string * list string :=
  let fields := (go_range body).*1 in
  (sort_strings fields, sort_strings (List.filter isSensitiveKey fields)).

Definition sortedKeys (m : gmap string string) : list string := sort_strings (go_range m).*1.

Definition set_nonempty (k : string) (l : list string) (m : gmap string value) : gmap string value :=
  if decide (l = []) then m else <[k := strings_value l]> m.

(** The event the middleware passes has a request: its method has been read. *)
Definition RequestMetadata (req : option http_request) : gmap string value :=
  match req with
  | None => ∅
  | Some q =>
      match info q with
      | None => ∅
      | Some (body, query) =>
          let requestID := TrimSpace (header headerAuditRequestID q) in
          let m := if decide (requestID = "") then ∅ else {["request_id" := VStr requestID]} in
          let '(bodyKeys, sensitiveKeys) := sanitizeBodyKeys body in
          set_nonempty "query_keys" (sortedKeys query)
            (set_nonempty "sensitive_fields" sensitiveKeys (set_nonempty "changed_fields" bodyKeys m))
      end
  end.

(** ** The log *)

(** The tables the package reads and writes, and one call's view of the outside: the
    clock, the calls of the database that succeed and the id of a new row. *)
Record tables := { audit_logs : rows; job_runs : rows; app_settings : rows }.

Record calls := {
  now : Z; find_collection : bool; find_settings : bool; save_row : bool; delete_logs : bool; delete_runs : bool;
  new_id : string }.

Context (add_days : Z → Z → Z).

Definition retentionDays (c : calls) (field : string) (fallback : Z) (t : tables) : Z :=
  if find_settings c then
    match app_settings t with
    | [] => fallback
    | r :: _ => let days := GetInt field r in if (days <=? 0)%Z then fallback else days
    end
  else fallback.

Definition AuditRetentionDays (c : calls) : tables → Z := retentionDays c "audit_retention_days" DefaultAuditRetentionDays.
Definition JobRunRetentionDays (c : calls) : tables → Z := retentionDays c "job_run_retention_days" DefaultJobRunRetentionDays.

Definition or_else (s d : string) : string := if decide (s = "") then d else s.

(** The record an event is written as. *)
Definition audit_record (c : calls) (ev : Event) (t : tables) : record :=
  let rec := SetInt "expires_at" (add_days (now c) (AuditRetentionDays c t))
    (SetStr "error_code" (ErrorCode ev) (SetStr "status" (or_else (Status ev) StatusSuccess)
    (SetStr "origin" (or_else (Origin ev) OriginSystem) (SetStr "resource_id" (ResourceID ev)
    (SetStr "resource_type" (ResourceType ev) (SetStr "action" (Action ev)
    (SetStr "actor_id" (ActorID ev) (SetStr "actor_type" (or_else (ActorType ev) ActorSystem)
      {| Id := new_id c; fields := ∅ |})))))))) in
  if decide (Metadata ev = ∅) then rec else SetField "metadata_json" (VMap (Metadata ev)) rec.

Definition set_logs (l : rows) (t : tables) : tables :=
  {| audit_logs := l; job_runs := job_runs t; app_settings := app_settings t |}.

Definition Record_ (c : calls) (ev : Event) (t : tables) : tables :=
  if decide (Action ev = "" ∨ ResourceType ev = "") then t
  else if negb (find_collection c) then t
  else if save_row c then set_logs (upsert (audit_record c ev t) (audit_logs t)) t else t.

Definition RecordSystem (c : calls) (action resourceType resourceID status errorCode : string) : tables → tables :=
  Record_ c {| ActorType := ActorSystem; ActorID := ""; Action := action; ResourceType := resourceType; ResourceID := resourceID;
    Origin := OriginSystem; Status := status; ErrorCode := errorCode; Metadata := ∅ |}.

Definition isInternalOrVerified (req : option RequestEvent) : bool :=
  match req ≫= Request with
  | None => true
  | Some _ => bool_decide (is_Some (req ≫= Auth))
  end.

Definition set_actor (ty id : string) (ev : Event) : Event :=
  {| ActorType := ty; ActorID := id; Action := Action ev; ResourceType := ResourceType ev; ResourceID := ResourceID ev;
     Origin := Origin ev; Status := Status ev; ErrorCode := ErrorCode ev; Metadata := Metadata ev |}.
Definition set_origin (o : string) (ev : Event) : Event :=
  {| ActorType := ActorType ev; ActorID := ActorID ev; Action := Action ev; ResourceType := ResourceType ev;
     ResourceID := ResourceID ev; Origin := o; Status := Status ev; ErrorCode := ErrorCode ev; Metadata := Metadata ev |}.
Definition set_metadata (m : gmap string value) (ev : Event) : Event :=
  {| ActorType := ActorType ev; ActorID := ActorID ev; Action := Action ev; ResourceType := ResourceType ev;
     ResourceID := ResourceID ev; Origin := Origin ev; Status := Status ev; ErrorCode := ErrorCode ev; Metadata := m |}.
Definition set_result (status code : string) (ev : Event) : Event :=
  {| ActorType := ActorType ev; ActorID := ActorID ev; Action := Action ev; ResourceType := ResourceType ev;
     ResourceID := ResourceID ev; Origin := Origin ev; Status := status; ErrorCode := code; Metadata := Metadata ev |}.

(** The trimmed header of the request, if there is one; the id the event has otherwise. *)
Definition header_or_id (h : string) (req : option RequestEvent) (ev : Event) : string :=
  match req ≫= Request with Some q => TrimSpace (header h q) | None => ActorID ev end.

(** The actor of a request nobody is authenticated for. *)
Definition guess_actor (req : option RequestEvent) (ev : Event) : Event :=
  let isVerified := isInternalOrVerified req in
  let ev := if bool_decide (Origin ev = OriginWorker) && isVerified
            then set_actor ActorWorker (header_or_id headerAuditWorkerID req ev) ev
            else if bool_decide (Origin ev = OriginSystem) && isVerified then set_actor ActorSystem (ActorID ev) ev else ev in
  if decide (ActorType ev = "") then set_actor ActorAnonymous (header_or_id headerAuditActorID req ev) ev else ev.

Definition request_event (req : option RequestEvent) (ev : Event) : Event :=
  let ev := match req ≫= Auth with
            | Some a => set_actor (if decide (a_collection a = Some "service_accounts") then ActorAgent else ActorUser) (a_id a) ev
            | None => ev
            end in
  let ev := if decide (Origin ev = "") then set_origin (RequestOrigin req) ev else ev in
  if decide (ActorType ev = "") then guess_actor req ev else ev.

Definition RecordRequest (c : calls) (req : option RequestEvent) (ev : Event) : tables → tables := Record_ c (request_event req ev).

(** [DELETE … WHERE expires_at < now]; a row without the date is deleted too, its
    column being the empty text. *)
Definition expired (now : Z) (r : record) : bool :=
  match fields r !! "expires_at" with Some (VNum t) => bool_decide (default 0 (num_int t) < now)%Z | _ => true end.

Definition purge (now : Z) (l : rows) : rows := filter (λ r, expired now r = false) l.

Definition PurgeExpired (c : calls) (t : tables) : bool * tables :=
  if negb (delete_logs c) then (false, t)
  else
    let t := set_logs (purge (now c) (audit_logs t)) t in
    if negb (delete_runs c) then (false, t)
    else (true, {| audit_logs := audit_logs t; job_runs := purge (now c) (job_runs t); app_settings := app_settings t |}).
End metadata.

(** ** Which routes are recorded *)

(** A segment of a path: a text, or any segment. *)
Inductive seg := Lit (s : string) | Any.

Definition seg_ok (s : seg) (part : string) : bool := match s with Lit t => bool_decide (part = t) | Any => true end.

Fixpoint segs_ok (l : list seg) (p : list string) : bool :=
  match l, p with
  | [], [] => true
  | s :: l, part :: p => seg_ok s part && segs_ok l p
  | _, _ => false
  end.

Definition custom (action resourceType resourceID : string) : Event :=
  {| ActorType := ""; ActorID := ""; Action := action; ResourceType := resourceType; ResourceID := resourceID; Origin := "";
     Status := ""; ErrorCode := ""; Metadata := ∅ |}.

(** The cases of [MatchCustomRoute] in the order it tries them: the method, the
    segments after "api" and "custom", and the event; the resource is the second
    segment or a fixed text. *)
Inductive resource := Second | Fixed (s : string).

Definition custom_routes : list (string * list seg * (string * string * resource)) :=
  [ ("POST", [Lit "stacks"; Any; Lit "sync"], ("stack.sync", "stack", Second));
    ("POST", [Lit "stacks"; Any; Lit "resync-definition"], ("stack.resync_definition", "stack", Second));
    ("POST", [Lit "stacks"; Any; Lit "rollback"], ("stack.rollback", "stack", Second));
    ("POST", [Lit "stacks"; Any; Lit "force-redeploy"], ("stack.force_redeploy", "stack", Second));
    ("POST", [Lit "stacks"; Any; Lit "transfer"], ("stack.transfer", "stack", Second));
    ("PUT", [Lit "stacks"; Any; Lit "render-overrides"], ("stack.render_overrides.set", "stack", Second));
    ("DELETE", [Lit "stacks"; Any; Lit "render-overrides"], ("stack.render_overrides.clear", "stack", Second));
    ("DELETE", [Lit "stacks"; Any], ("stack.delete", "stack", Second));
    ("POST", [Lit "stacks"; Any; Lit "container"; Lit "stop"], ("container.stop", "stack", Second));
    ("POST", [Lit "stacks"; Any; Lit "container"; Lit "restart"], ("container.restart", "stack", Second));
    ("POST", [Lit "webhook"; Any], ("stack.webhook_sync", "stack", Second));
    ("POST", [Lit "stacks"; Lit "import"], ("stack.import", "stack", Fixed ""));
    ("DELETE", [Lit "orphans"; Any], ("orphan.purge", "orphan", Second));
    ("POST", [Lit "credentials"; Lit "test"], ("credential.test", "credential", Fixed ""));
    ("POST", [Lit "credentials"; Lit "keyscan"], ("credential.keyscan", "credential", Fixed ""));
    ("POST", [Lit "backups"], ("backup.create", "backup", Fixed "local"));
    ("POST", [Lit "jobs"; Any; Lit "run"], ("job.run", "scheduled_job", Second));
    ("POST", [Lit "job-runs"; Any; Lit "cancel"], ("job_run.cancel", "job_run", Second));
    ("DELETE", [Lit "job-runs"; Any], ("job_run.delete", "job_run", Second));
    ("POST", [Lit "worker"; Lit "tokens"], ("worker_token.create", "worker_token", Fixed ""));
    ("POST", [Lit "workers"; Any; Lit "revoke"], ("worker.revoke", "worker", Second));
    ("PUT", [Lit "workers"; Any; Lit "policy"], ("worker_policy.update", "worker_policy", Second));
    ("DELETE", [Lit "workers"; Any; Lit "policy"], ("worker_policy.reset", "worker_policy", Second));
    ("PUT", [Lit "settings"; Lit "worker-policy"], ("settings.worker_policy.update", "worker_policy", Fixed "global"));
    ("PUT", [Lit "settings"; Lit "app-settings"], ("settings.app.update", "app_settings", Fixed "global"));
    ("PUT", [Lit "settings"; Lit "sso-groups-claim"], ("settings.sso_claim.update", "app_settings", Fixed "global"));
    ("POST", [Lit "users"; Lit "invite"], ("user.invite", "user", Fixed ""));
    ("PUT", [Lit "users"; Any], ("user.update", "user", Second));
    ("POST", [Lit "users"; Lit "invite"; Lit "accept"], ("user.invite_accept", "user", Fixed ""));
    ("POST", [Lit "auth"; Lit "elevate"], ("auth.elevate", "auth", Fixed ""));
    ("POST", [Lit "setup"], ("setup.create_admin", "setup", Fixed "initial"));
    ("PUT", [Lit "integrations"; Any], ("integration.update", "integration", Second));
    ("DELETE", [Lit "integrations"; Any], ("integration.delete", "integration", Second));
    ("POST", [Lit "integrations"; Any; Lit "test"], ("integration.test", "integration", Second));
    ("POST", [Lit "service-accounts"], ("service_account.create", "service_account", Fixed ""));
    ("PUT", [Lit "service-accounts"; Any], ("service_account.update", "service_account", Second));
    ("DELETE", [Lit "service-accounts"; Any], ("service_account.delete", "service_account", Second));
    ("POST", [Lit "sso-group-roles"], ("sso_group_role.create", "sso_group_role", Fixed ""));
    ("PUT", [Lit "sso-group-roles"; Any], ("sso_group_role.update", "sso_group_role", Second));
    ("DELETE", [Lit "sso-group-roles"; Any], ("sso_group_role.delete", "sso_group_role", Second)) ].

Definition mutating (method : string) : bool := bool_decide (method ∈ ["POST"; "PUT"; "PATCH"; "DELETE"]).

Definition MatchCustomRoute (method path : string) : option Event :=
  if negb (mutating method) then None
  else match splitPath path with
  | a :: b :: ((_ :: _) as p) =>
      if decide (a = "api" ∧ b = "custom") then
        '(_, _, (action, ty, res)) ← List.find (λ '(m, segs, _), bool_decide (m = method) && segs_ok segs p) custom_routes;
        Some (custom action ty (match res with Second => nth 1 p "" | Fixed s => s end))
      else None
  | _ => None
  end.

(** ** The middleware *)

(** What a handler does with the response writer it is given. *)
Inductive write_op := WriteHeader (status : Z) | Write.

(** [statusRecorder]: its status is 0 until the first call. *)
Definition record_op (status : Z) (o : write_op) : Z :=
  match o with WriteHeader n => n | Write => if (status =? 0)%Z then 200%Z else status end.

Definition recorded (ops : list write_op) : Z := foldl record_op 0%Z ops.

(** The next handlers of the chain: the writes they make, whether they return an
    error, and what they do to the tables. *)
Definition next_handler := tables → list write_op * bool * tables.

Section middleware.
Context `{GoRange} (add_days : Z → Z → Z).

Definition audit_event (e : RequestEvent) (q : http_request) (ev : Event) (ops : list write_op) (failed : bool) : Event :=
  let ev := set_metadata (RequestMetadata (Some q)) (set_origin (RequestOrigin (Some e)) ev) in
  let status := if (recorded ops =? 0)%Z then 200%Z else recorded ops in
  if failed || (400 <=? status)%Z
  then set_result StatusError (if (400 <=? status)%Z then Itoa status else "500") ev
  else set_result StatusSuccess (ErrorCode ev) ev.

Definition CustomRouteMiddleware (c : calls) (e : RequestEvent) (q : http_request) (next : next_handler) : next_handler := λ t,
  match MatchCustomRoute (method q) (path q) with
  | None => next t
  | Some ev =>
      let '(ops, failed, t) := next t in
      (ops, failed, RecordRequest add_days c (Some e) (audit_event e q ev ops failed) t)
  end.
End middleware.

(** ** What is recorded *)
Section recorded.
Context `{GoRange} (add_days : Z → Z → Z).

Lemma find_custom method path ev : MatchCustomRoute method path = Some ev → ∃ action ty res,
  ev = custom action ty res ∧ action ≠ "" ∧ ty ≠ "".
Proof.
  unfold MatchCustomRoute. destruct (mutating method); [|done]. cbn [negb]. destruct (splitPath path) as [|a [|b [|x p]]]; [done..|].
  case_decide; [|done]. intros ([[m segs] [[action ty] res]] & Hf & [= <-])%bind_Some.
  apply List.find_some in Hf as [Hin _]. eexists _, _, _. split; [done|].
  assert (Forall (λ r : string * list seg * (string * string * resource), r.2.1.1 ≠ "" ∧ r.2.1.2 ≠ "") custom_routes) as Ha
    by (unfold custom_routes; repeat constructor; done).
  rewrite List.Forall_forall in Ha. exact (Ha _ Hin).
Qed.

Definition actor_is (a : option auth_record) (row : record) : Prop :=
  match a with
  | Some a => GetString "actor_type" row = (if decide (a_collection a = Some "service_accounts") then ActorAgent else ActorUser) ∧
              GetString "actor_id" row = a_id a
  | None => GetString "actor_type" row = ActorAnonymous
  end.

Lemma GetString_metadata k c ev t : k ≠ "metadata_json" → GetString k (audit_record add_days c ev t) =
  GetString k (SetInt "expires_at" (add_days (now c) (AuditRetentionDays c t))
    (SetStr "error_code" (ErrorCode ev) (SetStr "status" (or_else (Status ev) StatusSuccess)
    (SetStr "origin" (or_else (Origin ev) OriginSystem) (SetStr "resource_id" (ResourceID ev)
    (SetStr "resource_type" (ResourceType ev) (SetStr "action" (Action ev)
    (SetStr "actor_id" (ActorID ev) (SetStr "actor_type" (or_else (ActorType ev) ActorSystem)
      {| Id := new_id c; fields := ∅ |}))))))))).
Proof. intros Hk. unfold audit_record. case_decide; [done|]. by rewrite GetString_SetField_ne. Qed.

Lemma audit_record_fields c ev t : let row := audit_record add_days c ev t in
  GetString "actor_type" row = or_else (ActorType ev) ActorSystem ∧ GetString "actor_id" row = ActorID ev ∧
  GetString "action" row = Action ev ∧ GetString "resource_type" row = ResourceType ev ∧ GetString "resource_id" row = ResourceID ev ∧
  GetString "status" row = or_else (Status ev) StatusSuccess ∧ GetString "origin" row = or_else (Origin ev) OriginSystem.
Proof. intros row. unfold row. split_and!; rewrite GetString_metadata; try done; by record_simpl. Qed.

Lemma Id_audit_record c ev t : Id (audit_record add_days c ev t) = new_id c.
Proof. unfold audit_record. by case_decide. Qed.

Lemma upsert_new rec t : Id rec ∉ ids_of t → upsert rec t = t ++ [rec].
Proof. intros Hn. unfold upsert. by case_decide. Qed.

(** The actor, whatever the headers and the event say. *)
Lemma request_event_actor e q ev c t : Request e = Some q → ActorType ev = "" →
  actor_is (Auth e) (audit_record add_days c (request_event (Some e) ev) t).
Proof.
  intros Hq Ha. unfold request_event. simpl.
  assert (∀ ev', ActorType ev' = ActorType ev → Auth e = None → ActorType (guess_actor (Some e) ev') = ActorAnonymous) as Hg.
  { intros ev' He' Hn. unfold guess_actor, isInternalOrVerified. simpl. rewrite Hq Hn /= !andb_false_r.
    by rewrite decide_True // He'. }
  destruct (Auth e) as [a|] eqn:He; simpl.
  - destruct (decide (Origin ev = "")); simpl; (rewrite decide_False; [|by case_decide]);
      match goal with |- context [audit_record _ _ ?ev _] => destruct (audit_record_fields c ev t) as (-> & -> & _) end;
      simpl; unfold or_else; by repeat case_decide.
  - destruct (decide (Origin ev = "")); (rewrite decide_True; [|done]);
      match goal with |- context [audit_record _ _ ?ev _] => destruct (audit_record_fields c ev t) as (-> & _) end; by rewrite Hg.
Qed.

(** What [RecordRequest] keeps of the event. *)
Lemma request_event_keeps e ev : let ev' := request_event e ev in
  Action ev' = Action ev ∧ ResourceType ev' = ResourceType ev ∧ ResourceID ev' = ResourceID ev ∧ Status ev' = Status ev ∧
  Metadata ev' = Metadata ev ∧ (Origin ev ≠ "" → Origin ev' = Origin ev).
Proof.
  unfold request_event, guess_actor. destruct ev, (e ≫= Auth); simpl;
    repeat (match goal with |- context [if ?b then _ else _] => destruct b eqn:? end; simpl); naive_solver.
Qed.

(** A request the table of recorded routes matches adds one row: the event of the
    route, the actor the request is authenticated as whatever its headers say, "anonymous"
    for one that is not authenticated, and the status "error" exactly when the handler
    fails or answers 400 or more; the answer of the handler is unchanged. *)
Theorem custom_route_recorded c e q next t ev ops failed t1 :
  Request e = Some q → MatchCustomRoute (method q) (path q) = Some ev → next t = (ops, failed, t1) →
  find_collection c = true → save_row c = true → new_id c ∉ ids_of (audit_logs t1) →
  ∃ row, CustomRouteMiddleware add_days c e q next t = (ops, failed, set_logs (audit_logs t1 ++ [row]) t1) ∧
    GetString "action" row = Action ev ∧ GetString "resource_id" row = ResourceID ev ∧ actor_is (Auth e) row ∧
    (GetString "status" row = StatusError ↔ failed = true ∨ (400 ≤ recorded ops)%Z).
Proof.
  intros Hq Hm Hn Hf Hs Hid. destruct (find_custom _ _ _ Hm) as (action & ty & res & -> & Ha & Ht).
  unfold CustomRouteMiddleware. rewrite Hm Hn. unfold RecordRequest, Record_.
  set (ev := audit_event e q _ ops failed). destruct (request_event_keeps (Some e) ev) as (H1 & H2 & H3 & H4 & _).
  assert (Action ev = action ∧ ResourceType ev = ty ∧ ResourceID ev = res ∧ ActorType ev = "") as (E1 & E2 & E3 & E4)
    by (unfold ev, audit_event; by case_match).
  rewrite decide_False; [|rewrite H1 H2 E1 E2; by intros [?|?]]. rewrite Hf Hs /=.
  eexists. split; [rewrite upsert_new //; by rewrite Id_audit_record|].
  destruct (audit_record_fields c (request_event (Some e) ev) t1) as (_ & _ & -> & _ & -> & -> & _).
  split_and!; [by rewrite H1|by rewrite H3|by apply (request_event_actor e q)|].
  rewrite H4. unfold ev, audit_event.
  destruct (Z.eqb_spec (recorded ops) 0) as [H0|H0]; destruct failed; simpl;
    repeat (case_match; simpl); unfold or_else; simpl; repeat case_decide; try done;
    try (split; [|done]); try (split; [done|]); intros; try (by left); try (right; lia); destruct_or?; try done; lia.
Qed.

Lemma range_keys {A} (m : gmap string A) : (go_range m).*1 ≡ₚ elements (dom m).
Proof.
  rewrite go_range_perm. apply NoDup_Permutation; [apply NoDup_fst_map_to_list|apply NoDup_elements|]. intros k.
  rewrite elem_of_elements elem_of_dom list_elem_of_fmap. split.
  - intros ([k' x] & -> & Hx). apply elem_of_map_to_list in Hx. by exists x.
  - intros [x Hx]. exists (k, x). split; [done|]. by apply elem_of_map_to_list.
Qed.

Lemma range_keys_eq {A B} (m1 : gmap string A) (m2 : gmap string B) : dom m1 = dom m2 →
  sort_strings (go_range m1).*1 = sort_strings (go_range m2).*1.
Proof. intros Hd. apply sort_strings_perm_eq. by rewrite !range_keys Hd. Qed.

Lemma range_keys_filter {A B} (m1 : gmap string A) (m2 : gmap string B) f : dom m1 = dom m2 →
  sort_strings (List.filter f (go_range m1).*1) = sort_strings (List.filter f (go_range m2).*1).
Proof.
  intros Hd. apply sort_strings_perm_eq. assert ((go_range m1).*1 ≡ₚ (go_range m2).*1) as Hp by by rewrite !range_keys Hd.
  induction Hp; simpl; repeat case_match; try done; try constructor; try done. by etrans.
Qed.

(** What is written of a body and a query is their keys: two requests that agree on
    everything else leave the same log. *)
Theorem audit_keeps_no_values c e1 e2 q1 q2 next t body1 body2 query1 query2 :
  Request e1 = Some q1 → Request e2 = Some q2 → Auth e1 = Auth e2 →
  method q1 = method q2 → path q1 = path q2 → headers q1 = headers q2 →
  info q1 = Some (body1, query1) → info q2 = Some (body2, query2) →
  dom body1 = dom body2 → dom query1 = dom query2 →
  CustomRouteMiddleware add_days c e1 q1 next t = CustomRouteMiddleware add_days c e2 q2 next t.
Proof.
  intros Hq1 Hq2 Ha Hm Hp Hh Hi1 Hi2 Hb Hq. unfold CustomRouteMiddleware. rewrite Hm Hp.
  destruct (MatchCustomRoute (method q2) (path q2)) as [ev|]; [|done]. destruct (next t) as [[ops failed] t1]. f_equal.
  assert (RequestOrigin (Some e1) = RequestOrigin (Some e2)) as Ho by (unfold RequestOrigin, header; simpl; by rewrite Hq1 Hq2 /= Hh Hp).
  assert (RequestMetadata (Some q1) = RequestMetadata (Some q2)) as Hd.
  { unfold RequestMetadata, header. rewrite Hi1 Hi2 Hh /sanitizeBodyKeys /sortedKeys.
    by rewrite (range_keys_eq _ _ Hb) (range_keys_eq _ _ Hq) (range_keys_filter _ _ isSensitiveKey Hb). }
  unfold RecordRequest. f_equal. unfold audit_event. rewrite Ho Hd.
  match goal with |- request_event _ ?x = _ => generalize x end. intros ev'. unfold request_event, guess_actor, isInternalOrVerified, header_or_id, header.
  simpl. by rewrite Hq1 Hq2 Ha /= Ho Hh.
Qed.
End recorded.

(** ** Witnesses *)
#[local] Instance plain_range : GoRange := {| go_range := λ A m, map_to_list m; go_range_perm := λ A m, reflexivity _ |}.

Definition demo_calls : calls :=
  {| now := 1000; find_collection := true; find_settings := true; save_row := true; delete_logs := true; delete_runs := true;
     new_id := "a1" |}.
Definition no_tables : tables := {| audit_logs := []; job_runs := []; app_settings := [] |}.
Definition demo_agent : auth_record :=
  {| a_superuser := false; a_collection := Some "service_accounts"; a_disabled := false; a_role := "operator"; a_id := "sa1" |}.
Definition demo_request (password : string) : http_request :=
  {| method := "POST"; path := "/api/custom/stacks/s1/sync"; headers := {[headerAuditActorID := "root"; headerAuditOrigin := "system"]};
     info := Some ({["password" := VStr password]}, ∅) |}.
Definition demo_event (password : string) : RequestEvent := {| Auth := Some demo_agent; Request := Some (demo_request password) |}.
Definition refusing : next_handler := λ t, ([WriteHeader 403; Write], false, t).

Lemma custom_route_recorded_witness : ∃ row,
  CustomRouteMiddleware Z.add demo_calls (demo_event "x") (demo_request "x") refusing no_tables =
    ([WriteHeader 403; Write], false, set_logs [row] no_tables) ∧ GetString "actor_id" row = "sa1" ∧ GetString "status" row = StatusError.
Proof.
  destruct (custom_route_recorded Z.add demo_calls (demo_event "x") (demo_request "x") refusing no_tables
    (custom "stack.sync" "stack" "s1") [WriteHeader 403; Write] false no_tables) as (row & H1 & _ & _ & [_ H2] & H3).
  1-5: reflexivity. { apply not_elem_of_nil. }
  exists row. split; [exact H1|]. split; [exact H2|]. apply H3. right. vm_compute. discriminate.
Defined.

Lemma audit_keeps_no_values_witness :
  CustomRouteMiddleware Z.add demo_calls (demo_event "x") (demo_request "x") refusing no_tables =
  CustomRouteMiddleware Z.add demo_calls (demo_event "y") (demo_request "y") refusing no_tables.
Proof.
  apply (audit_keeps_no_values Z.add demo_calls (demo_event "x") (demo_event "y") (demo_request "x") (demo_request "y") refusing no_tables
    {["password" := VStr "x"]} {["password" := VStr "y"]} ∅ ∅); try reflexivity.
Defined.
