(* ===== verification/ApiKeys.v ===== *)
(** * internal/auth/apikey.go and internal/routes/service_accounts.go: API keys

    A service account is one row with its role and the hash of its key.  The handlers
    read the row, change it in memory and save it; the functions named [..._plan] are
    the part between the two, so that a handler is one step when nothing runs beside
    it and two otherwise.  HMAC-SHA256, the parser of RFC 3339 and what a save writes
    of a row that has changed in the meantime are parameters. *)
From Stdlib Require Import ZArith.
From S2P Require Import Prelude GoStrings GoPath GoFmt GoBase64 GoValue ComposeDoc PbRecord PbTable Rbac Crypto.
From S2P Require AuditLog.

Definition lastUsedThrottle : Z := 300000000000.
Definition APIKeyHeader := "X-Wireops-Api-Key".
Definition APIKeyOrigin := "api_key".
Definition apiKeyPrefix := "wireops_sk_".
Definition apiKeyHashPrefix := "hmac-sha256:".
Definition apiKeyHashContext := "wireops-api-key-hash-v1".

(** ** Keys *)

(** [base64.RawURLEncoding]: the URL alphabet and no padding. *)
Fixpoint raw_url (s : string) : string :=
  match s with
  | "" => ""
  | String a s => if decide (a = "="%char) then raw_url s
                  else String (if decide (a = "+"%char) then "-" else if decide (a = "/"%char) then "_" else a)%char (raw_url s)
  end.

Definition GenerateAPIKey (random : option string) : option string :=
  b ← random; Some (apiKeyPrefix +:+ raw_url (EncodeToString b)).

Definition APIKeyPrefix (key : string) : string :=
  let key := TrimSpace key in
  if String.length key <=? 16 then key else stake 16 key.

Definition apiKeyFromRequest (r : option AuditLog.http_request) : string :=
  match r with
  | None => ""
  | Some q =>
      let key := TrimSpace (AuditLog.header APIKeyHeader q) in
      if decide (key ≠ "") then key
      else
        let auth := TrimSpace (AuditLog.header "Authorization" q) in
        if HasPrefix (ToLower auth) ("bearer " +:+ apiKeyPrefix) then TrimSpace (sdrop 7 auth) else ""
  end.

(** The account as the authenticated record of a request. *)
Definition account_auth (r : record) : auth_record :=
  {| a_superuser := false; a_collection := Some "service_accounts"; a_disabled := GetBool "disabled" r;
     a_role := GetString "role" r; a_id := Id r |}.

(** What a request meets outside: the clock, the random bytes, the variable
    SECRET_KEY, whether the query and the save of the database succeed and the id of
    a new row. *)
Record calls := { now : Z; random : option string; SECRET_KEY : string; find_ok : bool; save_ok : bool; new_id : string }.

(** The body of a request as the decoder of JSON reads it. *)
Inductive body_read (A : Type) := Malformed | Empty | Body (a : A).
Arguments Malformed {A}. Arguments Empty {A}. Arguments Body {A} a.

Record create_body := { cb_Name : string; cb_Description : string; cb_Role : string; cb_Enabled : option bool }.
Record put_body :=
  { pb_Name : option string; pb_Description : option string; pb_Role : option string; pb_Enabled : option bool }.

(** The status of a response, for a key its text, which is shown once, and the event the
    handler passes to [audit.RecordRequest] before it answers. *)
Record response := { code : Z; api_key : option string; event : option AuditLog.Event }.
Definition resp (n : Z) : response := {| code := n; api_key := None; event := None |}.

(** "api_key.issue" and "api_key.revoke". *)
Definition key_event (action : string) (rec : record) : AuditLog.Event :=
  AuditLog.set_metadata {["service_account" := VStr (Id rec); "key_prefix" := VStr (GetString "key_prefix" rec)]}
    (AuditLog.custom action "api_key" (Id rec)).

Definition issued (key : string) (rec : record) : response :=
  {| code := 201; api_key := Some key; event := Some (key_event "api_key.issue" rec) |}.
Definition revoked (rec : record) : response :=
  {| code := 200; api_key := None; event := Some (key_event "api_key.revoke" rec) |}.

Section keys.
Context (hmac : string → string → string) (parse_RFC3339 : string → option Z).

Definition apiKeyHashSecret (raw : string) : option string :=
  match ValidateSecretKey raw with
  | Some _ => None
  | None => Some (apiKeyHashContext +:+ ":" +:+ default "" (NormalizeSecretKey raw))
  end.

Definition HashAPIKey (env key : string) : option string :=
  secret ← apiKeyHashSecret env; Some (apiKeyHashPrefix +:+ hex_encode (hmac secret (TrimSpace key))).

Inductive verdict := NotConfigured | Invalid | Authenticated (account : record).

Definition authenticateAPIKey (c : calls) (raw : string) (accounts : rows) : verdict :=
  match HashAPIKey (SECRET_KEY c) raw with
  | None => NotConfigured
  | Some keyHash =>
      if negb (find_ok c) then Invalid
      else match FindAll "key_hash" keyHash accounts with
      | [] => Invalid
      | r :: _ =>
          if negb (GetBool "enabled" r) then Invalid
          else if GetBool "key_revoked" r then Invalid
          else
            let expiresAt := GetDateTime "key_expires_at" r in
            if bool_decide (expiresAt ≠ zero_time) && (expiresAt <? now c)%Z then Invalid else Authenticated r
      end
  end.

(** The change of the row the middleware saves, if the last one is old enough. *)
Definition touch_plan (c : calls) (r : record) : option record :=
  let lastUsed := GetDateTime "key_last_used_at" r in
  if bool_decide (lastUsed = zero_time) || (lastUsedThrottle <? now c - lastUsed)%Z
  then Some (SetField "key_last_used_at" (date_value (now c)) r) else None.

Definition set_header (k v : string) (q : AuditLog.http_request) : AuditLog.http_request :=
  {| AuditLog.method := AuditLog.method q; AuditLog.path := AuditLog.path q; AuditLog.headers := <[k := v]> (AuditLog.headers q);
     AuditLog.info := AuditLog.info q |}.

Inductive passed := Answer (r : response) | Pass (e : AuditLog.RequestEvent) (used : option record).

Definition APIKeyMiddleware (c : calls) (e : AuditLog.RequestEvent) (accounts : rows) : passed :=
  match AuditLog.Auth e with
  | Some _ => Pass e None
  | None =>
      let raw := apiKeyFromRequest (AuditLog.Request e) in
      if decide (raw = "") then Pass e None
      else match authenticateAPIKey c raw accounts with
      | NotConfigured => Answer (resp 500)
      | Invalid => Answer (resp 401)
      | Authenticated r =>
          Pass {| AuditLog.Auth := Some (account_auth r);
                  AuditLog.Request := set_header AuditLog.headerAuditOrigin APIKeyOrigin <$> AuditLog.Request e |} (Some r)
      end
  end.

(** ** Handlers *)

(** The indexes of the collection: names are unique, and so are hashes that are not empty. *)
Definition unique_in (rec : record) (t : rows) : bool :=
  forallb (λ r, bool_decide (Id r = Id rec) ||
    (bool_decide (GetString "name" r ≠ GetString "name" rec) &&
     (bool_decide (GetString "key_hash" rec = "") || bool_decide (GetString "key_hash" r ≠ GetString "key_hash" rec)))) t.

Definition service_role (role : string) : bool := bool_decide (role = RoleViewer ∨ role = RoleOperator).

Definition CreateAccount (c : calls) (creator : option auth_record) (body : body_read create_body) (t : rows) : response * rows :=
  match body with
  | Malformed | Empty => (resp 400, t)
  | Body b =>
      let name := TrimSpace (cb_Name b) in
      let description := TrimSpace (cb_Description b) in
      let role := NormalizeRole (cb_Role b) in
      if decide (name = "") then (resp 400, t)
      else if decide (description = "") then (resp 400, t)
      else if negb (service_role role) then (resp 400, t)
      else if negb (default true (cb_Enabled b)) then (resp 400, t)
      else match GenerateAPIKey (random c) with
      | None => (resp 500, t)
      | Some key =>
          if negb (find_ok c) then (resp 500, t)
          else match HashAPIKey (SECRET_KEY c) key with
          | None => (resp 500, t)
          | Some keyHash =>
              let rec := SetNil "key_last_used_at" (SetBool "key_revoked" false (SetStr "key_prefix" (APIKeyPrefix key)
                (SetStr "key_hash" keyHash (SetBool "enabled" true (SetStr "role" role (SetStr "description" description
                  (SetStr "name" name {| Id := new_id c; fields := ∅ |}))))))) in
              let rec := match creator with
                         | Some a => if decide (a_collection a = Some "users") then SetStr "created_by" (a_id a) rec else rec
                         | None => rec
                         end in
              if save_ok c && unique_in rec t then (issued key rec, upsert rec t) else (resp 500, t)
          end
      end
  end.

(** A text of the body that is given must not be blank. *)
Definition put_text (k : string) (v : option string) (rec : record) : option record :=
  match v with
  | None => Some rec
  | Some s => let trimmed := TrimSpace s in if decide (trimmed = "") then None else Some (SetStr k trimmed rec)
  end.

Definition put_role (v : option string) (rec : record) : option record :=
  match v with
  | None => Some rec
  | Some s => let role := NormalizeRole s in if service_role role then Some (SetStr "role" role rec) else None
  end.

Definition put_enabled (v : option bool) (rec : record) : option record :=
  match v with
  | None => Some rec
  | Some true => if GetBool "enabled" rec then Some (SetBool "enabled" true rec) else None
  | Some false =>
      Some (SetNil "key_last_used_at" (SetNil "key_expires_at" (SetBool "key_revoked" true (SetStr "key_prefix" ""
        (SetStr "key_hash" "" (SetBool "enabled" false rec))))))
  end.

Definition put_plan (body : body_read put_body) (rec : record) : response + record :=
  match body with
  | Malformed | Empty => inl (resp 400)
  | Body b =>
      match (rec ← put_text "name" (pb_Name b) rec; rec ← put_text "description" (pb_Description b) rec;
             rec ← put_role (pb_Role b) rec; put_enabled (pb_Enabled b) rec) with
      | None => inl (resp 400)
      | Some rec => inr rec
      end
  end.

Definition issue_plan (c : calls) (body : body_read (option string)) (account : record) : response + (string * record) :=
  match body with
  | Malformed => inl (resp 400)
  | _ =>
      match GenerateAPIKey (random c) with
      | None => inl (resp 500)
      | Some key =>
          match HashAPIKey (SECRET_KEY c) key with
          | None => inl (resp 500)
          | Some keyHash =>
              let account := SetNil "key_last_used_at" (SetBool "key_revoked" false (SetStr "key_prefix" (APIKeyPrefix key)
                (SetStr "key_hash" keyHash account))) in
              let expires := match body with Body (Some s) => TrimSpace s | _ => "" end in
              if decide (expires = "") then inr (key, SetNil "key_expires_at" account)
              else match parse_RFC3339 expires with
              | None => inl (resp 400)
              | Some t => inr (key, SetField "key_expires_at" (date_value t) account)
              end
          end
      end
  end.

Definition revoke_plan (account : record) : record := SetBool "key_revoked" true account.

Definition DeleteAccount : response := resp 400.

(** ** A save *)

(** What is in the row after a save of [modified], read as [original], over [current]. *)
Context (save_over : record → record → record → record).

Definition save (ok : bool) (original modified : record) (t : rows) : bool * rows :=
  match FindById (Id original) t with
  | Some current =>
      let rec := save_over original modified current in
      if ok && unique_in rec t then (true, upsert rec t) else (false, t)
  | None => (false, t)
  end.

(** A handler that runs with no other between its reading and its save. *)
Definition saved (c : calls) (original modified : record) (r : response) (t : rows) : response * rows :=
  let '(ok, t) := save (save_ok c) original modified t in (if ok then r else resp 500, t).

Definition PutAccount (c : calls) (id : string) (body : body_read put_body) (t : rows) : response * rows :=
  match FindById id t with
  | None => (resp 404, t)
  | Some rec => match put_plan body rec with inl r => (r, t) | inr rec' => saved c rec rec' (resp 200) t end
  end.

Definition IssueKey (c : calls) (id : string) (body : body_read (option string)) (t : rows) : response * rows :=
  match FindById id t with
  | None => (resp 404, t)
  | Some rec =>
      match issue_plan c body rec with
      | inl r => (r, t)
      | inr (key, rec') => saved c rec rec' (issued key rec') t
      end
  end.

Definition RevokeKey (c : calls) (id : string) (t : rows) : response * rows :=
  match FindById id t with
  | None => (resp 404, t)
  | Some rec => saved c rec (revoke_plan rec) (revoked (revoke_plan rec)) t
  end.

(** The middleware with its save: the request goes on whether the save succeeds or not. *)
Definition Authenticate (c : calls) (e : AuditLog.RequestEvent) (t : rows) : passed * rows :=
  match APIKeyMiddleware c e t with
  | Pass e' (Some r) =>
      (Pass e' (Some r), match touch_plan c r with Some r' => (save (save_ok c) r r' t).2 | None => t end)
  | p => (p, t)
  end.

(** Requests beside each other: one has read a row and saves it later. *)
Record state := { accounts : rows; inflight : list (record * record) }.

(** The change a request plans for the row it has read. *)
Inductive planned (c : calls) (t : rows) : record → record → Prop :=
| planned_put id body r m : FindById id t = Some r → put_plan body r = inr m → planned c t r m
| planned_issue id body r key m : FindById id t = Some r → issue_plan c body r = inr (key, m) → planned c t r m
| planned_revoke id r : FindById id t = Some r → planned c t r (revoke_plan r)
| planned_touch e e' r m : APIKeyMiddleware c e t = Pass e' (Some r) → touch_plan c r = Some m → planned c t r m.

(** Requests to the routes: the database gives a new row an id that no row has. *)
Inductive route_step : state → state → Prop :=
| step_create c creator body s : new_id c ∉ ids_of (accounts s) →
    route_step s {| accounts := (CreateAccount c creator body (accounts s)).2; inflight := inflight s |}
| step_read c r m s : planned c (accounts s) r m → route_step s {| accounts := accounts s; inflight := (r, m) :: inflight s |}
| step_save ok r m l1 l2 s : inflight s = l1 ++ (r, m) :: l2 →
    route_step s {| accounts := (save ok r m (accounts s)).2; inflight := l1 ++ l2 |}.

(** The values of the select field of the collection; an edit through the API of
    PocketBase, which admins may make, has to choose one of them or none. *)
Definition role_values : list string := [""; RoleViewer; RoleOperator; RoleMonitoring].

Inductive step : state → state → Prop :=
| by_route s s' : route_step s s' → step s s'
| by_edit r s : GetString "role" r ∈ role_values → step s {| accounts := upsert r (accounts s); inflight := inflight s |}.
End keys.

(** ** What the handlers keep *)
Lemma put_text_other k k' v r r' : put_text k' v r = Some r' → k ≠ k' →
  Id r' = Id r ∧ fields r' !! k = fields r !! k.
Proof.
  unfold put_text. intros Hp Hne. destruct v; [case_decide; [done|]|]; simplify_eq; [|done].
  split; [done|]. unfold SetStr. by rewrite fields_SetField_ne.
Qed.

(** A plan keeps the id, chooses a role for service accounts or keeps the one there
    is, and never enables an account. *)
Definition kept (r m : record) : Prop :=
  Id m = Id r ∧ (fields m !! "role" = fields r !! "role" ∨ GetString "role" m ∈ [RoleViewer; RoleOperator]) ∧
  (GetBool "enabled" m = true → GetBool "enabled" r = true).

Lemma service_role_in role : service_role role = true → role ∈ [RoleViewer; RoleOperator].
Proof. intros Hr%bool_decide_eq_true. rewrite !elem_of_cons. tauto. Qed.

Lemma put_plan_kept body r m : put_plan body r = inr m → kept r m.
Proof.
  unfold put_plan. destruct body as [| |b]; [done..|]. destruct (_ ≫= _) as [x|] eqn:Hb; [|done]. intros [= ->].
  apply bind_Some in Hb as (r1 & H1 & (r2 & H2 & (r3 & H3 & H4)%bind_Some)%bind_Some).
  destruct (put_text_other "role" _ _ _ _ H1) as [I1 F1]; [done|]. destruct (put_text_other "role" _ _ _ _ H2) as [I2 F2]; [done|].
  destruct (put_text_other "enabled" _ _ _ _ H1) as [_ E1]; [done|]. destruct (put_text_other "enabled" _ _ _ _ H2) as [_ E2]; [done|].
  assert (Id r3 = Id r2 ∧ fields r3 !! "enabled" = fields r2 !! "enabled" ∧
          (fields r3 !! "role" = fields r2 !! "role" ∨ GetString "role" r3 ∈ [RoleViewer; RoleOperator])) as (I3 & E3 & F3).
  { unfold put_role in H3. destruct (pb_Role b) as [s|]; [|simplify_eq; auto]. case_match eqn:Hs; [|done]. simplify_eq.
    split; [done|]. unfold SetStr. rewrite fields_SetField_ne //. split; [done|]. right. field_simpl. by apply service_role_in. }
  assert (Id m = Id r3 ∧ fields m !! "role" = fields r3 !! "role" ∧ (GetBool "enabled" m = true → GetBool "enabled" r3 = true)) as (I4 & F4 & E4).
  { unfold put_enabled in H4. destruct (pb_Enabled b) as [[]|]; [case_match; [|done]| |]; simplify_eq;
      (split; [done|]; split; [by field_simpl|]); field_simpl; done. }
  split; [congruence|]. split.
  - destruct F3 as [F3|F3]; [left; congruence|right]. unfold GetString in *. by rewrite F4.
  - intros Hm%E4. unfold GetBool in *. by rewrite E3 E2 E1 in Hm.
Qed.

Section invariants.
Context (hmac : string → string → string) (parse_RFC3339 : string → option Z).
Context (save_over : record → record → record → record).
Context (save_over_spec : save_spec save_over).

Lemma issue_plan_kept c body r key m : issue_plan hmac parse_RFC3339 c body r = inr (key, m) → kept r m.
Proof.
  unfold issue_plan. intros Hp. destruct body as [| |b]; [done|..]; repeat (case_match; [done|] || case_match); simplify_eq;
    (split; [done|]; split; [left; by field_simpl|by field_simpl]).
Qed.

Lemma planned_kept c t r m : planned hmac parse_RFC3339 c t r m → kept r m ∧ r ∈ t.
Proof.
  intros [id body r0 m0 Hf Hp|id body r0 key m0 Hf Hp|id r0 Hf|e e' r0 m0 Hm Ht].
  - split; [by eapply put_plan_kept|]. by apply FindById_Some in Hf as [? _].
  - split; [by eapply issue_plan_kept|]. by apply FindById_Some in Hf as [? _].
  - apply FindById_Some in Hf as [? _]. split; [|done]. split; [done|]. unfold revoke_plan. split; [left|]; by field_simpl.
  - split.
    + unfold touch_plan in Ht. case_match; [|done]. simplify_eq. split; [done|]. split; [left|]; by field_simpl.
    + unfold APIKeyMiddleware in Hm. repeat (case_match; try done); simplify_eq. unfold authenticateAPIKey in *.
      repeat (case_match; try done); simplify_eq. by eapply FindAll_head.
Qed.

(** ** The ceiling of service accounts *)
Definition capped (r : record) : Prop := RoleRank (GetString "role" r) ≤ 3.

Lemma capped_role r : GetString "role" r ∈ [RoleViewer; RoleOperator] ∨ GetString "role" r ∈ role_values → capped r.
Proof.
  unfold capped, role_values. rewrite !elem_of_cons elem_of_nil. intros Hr.
  assert (GetString "role" r = "" ∨ GetString "role" r = RoleViewer ∨ GetString "role" r = RoleOperator ∨
          GetString "role" r = RoleMonitoring) as [->|[->|[->| ->]]] by tauto; vm_compute; lia.
Qed.

Lemma capped_fields r m : fields m !! "role" = fields r !! "role" → capped r → capped m.
Proof. intros Hf. unfold capped, GetString. by rewrite Hf. Qed.

Lemma capped_kept r m : kept r m → capped r → capped m.
Proof. intros (_ & [Hr|Hr] & _) Hc; [by eapply capped_fields|]. apply capped_role. by left. Qed.

Lemma create_new c creator body t : ∃ rec, (CreateAccount hmac c creator body t).2 = t ∨
  (CreateAccount hmac c creator body t).2 = upsert rec t ∧ Id rec = new_id c ∧ GetString "role" rec ∈ [RoleViewer; RoleOperator].
Proof.
  unfold CreateAccount. destruct body as [| |b]; [exists (Build_record "" ∅); by left..|].
  do 2 (case_decide; [exists (Build_record "" ∅); by left|]).
  destruct (service_role _) eqn:Hr; [|exists (Build_record "" ∅); by left]. cbn [negb].
  repeat (case_match; try (exists (Build_record "" ∅); by left)); eexists; right; (split; [reflexivity|]; split; [done|]);
    field_simpl; by apply service_role_in.
Qed.

Lemma save_cases ok r m t : (save save_over ok r m t).2 = t ∨
  ∃ cur, FindById (Id r) t = Some cur ∧ (save save_over ok r m t).2 = upsert (save_over r m cur) t.
Proof. unfold save. case_match; [|by left]. case_match; [|by left]. right. eauto. Qed.

Definition all_capped (s : state) : Prop := Forall capped (accounts s) ∧ Forall (λ p, capped p.2) (inflight s).

Lemma step_capped s s' : step hmac parse_RFC3339 save_over s s' → all_capped s → all_capped s'.
Proof.
  intros [? ? [c creator body s0 _|c r m s0 Hp|ok r m l1 l2 s0 Hl]|r s0 Hr] [Ha Hi]; split; simpl; try done.
  - destruct (create_new c creator body (accounts s0)) as (rec & [->|(-> & _ & Hr)]); [done|].
    rewrite List.Forall_forall. intros x Hx. apply list_elem_of_In in Hx. apply elem_of_upsert in Hx as [->|[Hx _]].
    + apply capped_role. by left.
    + rewrite Forall_forall in Ha. by apply Ha.
  - destruct (planned_kept _ _ _ _ Hp) as [Hk Hin]. constructor; [|done]. apply (capped_kept r); [done|].
    rewrite Forall_forall in Ha. by apply Ha.
  - rewrite Hl in Hi. apply Forall_app in Hi as [_ [Hm _]%Forall_cons]. rewrite !Forall_forall in Ha |- *. simpl in Hm.
    destruct (save_cases ok r m (accounts s0)) as [->|(cur & Hc & ->)]; [done|]. apply FindById_Some in Hc as [Hc _].
    intros x [->|[Hx _]]%elem_of_upsert; [|by apply Ha].
    destruct (save_over_spec r m cur "role") as [_ [Hf|[Hf _]]]; [by apply (capped_fields m)|].
    apply (capped_fields cur); [done|by apply Ha].
  - rewrite Hl in Hi. apply Forall_app in Hi as [H1 [_ H2]%Forall_cons]. by apply Forall_app.
  - rewrite !Forall_forall in Ha |- *. intros x [->|[Hx _]]%elem_of_upsert; [|by apply Ha]. apply capped_role. by right.
Qed.

Lemma steps_capped s s' : rtc (step hmac parse_RFC3339 save_over) s s' → all_capped s → all_capped s'.
Proof. induction 1; eauto using step_capped. Qed.

(** The rank of what a request without a session is authenticated as. *)
Lemma key_rank s c e e' used :
  rtc (step hmac parse_RFC3339 save_over) {| accounts := []; inflight := [] |} s →
  AuditLog.Auth e = None → APIKeyMiddleware hmac c e (accounts s) = Pass e' used →
  AuditLog.Auth e' = None ∨ ∃ r, AuditLog.Auth e' = Some (account_auth r) ∧ capped r.
Proof.
  intros Hs He Hm. apply steps_capped in Hs as [Ha _]; [|by split; constructor].
  unfold APIKeyMiddleware in Hm. rewrite He in Hm. case_decide; [by simplify_eq; left|].
  destruct (authenticateAPIKey _ _ _ _) as [| |r] eqn:Hv; [done..|]. simplify_eq. right. exists r. split; [done|].
  unfold authenticateAPIKey in Hv. repeat (case_match; try done); simplify_eq.
  rewrite Forall_forall in Ha. apply Ha. by eapply FindAll_head.
Qed.

(** ** Disabling an account *)
Lemma saved_ok c r m ans t r' t' : FindById (Id r) t = Some r → saved save_over c r m ans t = (r', t') → code r' ≠ 500%Z →
  r' = ans ∧ t' = upsert m t ∧ unique_in m t = true.
Proof.
  unfold saved, save. intros -> Hs Hc. rewrite (save_over_same _ save_over_spec) in Hs. destruct (save_ok c && unique_in m t) eqn:Hu; simplify_eq.
  by apply andb_true_iff in Hu as [_ ->].
Qed.

Definition disabled_at (id : string) (t : rows) : Prop := id ∈ ids_of t ∧ ∀ r, r ∈ t → Id r = id → GetBool "enabled" r = false.

(** The planned changes that are still to be saved do not enable the account either. *)
Definition shut (id : string) (s : state) : Prop :=
  disabled_at id (accounts s) ∧ ∀ r m, (r, m) ∈ inflight s → Id m = Id r ∧ (Id m = id → GetBool "enabled" m = false).

Lemma disabled_upsert id rec t : disabled_at id t → (Id rec = id → GetBool "enabled" rec = false) → disabled_at id (upsert rec t).
Proof.
  intros [Hi Hd] Hr. split; [apply ids_upsert; by right|]. intros x [->|[Hx _]]%elem_of_upsert; [done|by apply Hd].
Qed.

Lemma shut_step id s s' : route_step hmac parse_RFC3339 save_over s s' → shut id s → shut id s'.
Proof.
  intros [c creator body s0 Hn|c r m s0 Hp|ok r m l1 l2 s0 Hl] [Hd Hi]; split; simpl; try done.
  - destruct (create_new c creator body (accounts s0)) as (rec & [->|(-> & Hid & _)]); [done|].
    apply disabled_upsert; [done|]. intros Hx. destruct Hd as [Hd _]. by rewrite -Hx Hid in Hd.
  - destruct (planned_kept _ _ _ _ Hp) as [(Hid & _ & Hk) Hin]. intros r' m' [Hx|Hx]%elem_of_cons; [|by eapply Hi].
    simplify_eq. split; [done|]. intros Hm. apply not_true_iff_false. intros He%Hk. destruct Hd as [_ Hd].
    rewrite (Hd r Hin) in He; congruence.
  - destruct (save_cases ok r m (accounts s0)) as [->|(cur & Hc & ->)]; [done|]. apply FindById_Some in Hc as [Hc Hcid].
    apply disabled_upsert; [done|]. destruct (save_over_spec r m cur "enabled") as [-> Hf]. intros Hm.
    destruct (Hi r m) as [Hid Hmf]; [rewrite Hl; set_solver|]. specialize (Hmf Hm). destruct Hd as [_ Hd].
    assert (GetBool "enabled" cur = false) as Hcf by (apply Hd; [done|congruence]).
    unfold GetBool in *. by destruct Hf as [->|[-> _]].
  - intros r' m' Hx. apply Hi. rewrite Hl. set_solver.
Qed.

Lemma shut_steps id s s' : rtc (route_step hmac parse_RFC3339 save_over) s s' → shut id s → shut id s'.
Proof. induction 1; eauto using shut_step. Qed.

Lemma authenticated_row c raw t r : authenticateAPIKey hmac c raw t = Authenticated r → ∃ h,
  HashAPIKey hmac (SECRET_KEY c) raw = Some h ∧ r ∈ t ∧ GetString "key_hash" r = h ∧ GetBool "enabled" r = true ∧
  GetBool "key_revoked" r = false.
Proof.
  unfold authenticateAPIKey. intros Hv. destruct (HashAPIKey _ _ raw) as [h|]; [|done]. exists h.
  destruct (negb (find_ok c)); [done|]. destruct (FindAll _ h t) as [|x l] eqn:Hf; [done|].
  destruct (GetBool "enabled" x) eqn:He; [|done]. destruct (GetBool "key_revoked" x) eqn:Hr; [done|]. cbn [negb] in Hv.
  case_match; [done|]. simplify_eq. by destruct (FindAll_head _ _ _ _ _ Hf).
Qed.

(** C14: Disabling is final: once a request that disables an account has been answered with
    nothing else in flight, no key authenticates as that account, however the requests
    that follow are interleaved, those that enable it or issue keys for it included. *)
Theorem disabled_is_final c id b t ans t1 s c' raw r :
  pb_Enabled b = Some false → PutAccount save_over c id (Body b) t = (ans, t1) → code ans = 200%Z →
  rtc (route_step hmac parse_RFC3339 save_over) {| accounts := t1; inflight := [] |} s →
  authenticateAPIKey hmac c' raw (accounts s) = Authenticated r → Id r ≠ id.
Proof.
  intros Hb Hp Hc Hs (h & _ & Hr & _ & He & _)%authenticated_row Hid.
  assert (shut id {| accounts := t1; inflight := [] |}) as Hsh.
  { unfold PutAccount in Hp. destruct (FindById id t) as [rec|] eqn:Hf; [|by simplify_eq].
    destruct (put_plan (Body b) rec) as [x|m] eqn:Hpl; [|].
    { unfold put_plan in Hpl. case_match; by simplify_eq. }
    pose proof (FindById_Some _ _ _ Hf) as [_ <-].
    destruct (saved_ok _ _ _ _ _ _ _ Hf Hp) as (_ & -> & _); [lia|]. destruct (put_plan_kept _ _ _ Hpl) as (Hmi & _).
    split; [|by intros ?? ?%elem_of_nil]. split; [simpl; apply ids_upsert; by left|]. simpl. intros x [->|[_ Hx]]%elem_of_upsert Hxi; [|congruence].
    unfold put_plan in Hpl. destruct (_ ≫= _) as [y|] eqn:Hy; [|done]. injection Hpl as ->.
    apply bind_Some in Hy as (r1 & _ & (r2 & _ & (r3 & _ & H4)%bind_Some)%bind_Some). rewrite Hb in H4. simpl in H4. simplify_eq. by field_simpl. }
  apply (shut_steps _ _ _ Hs) in Hsh as [[_ Hd] _]. by rewrite (Hd r Hr Hid) in He.
Qed.

(** ** The life of a key *)
Lemma unique_hash m t x : unique_in m t = true → x ∈ t → Id x ≠ Id m → GetString "key_hash" m ≠ "" →
  GetString "key_hash" x ≠ GetString "key_hash" m.
Proof.
  unfold unique_in. rewrite List.forallb_forall. intros Hu Hx Hne Hh. apply list_elem_of_In in Hx. specialize (Hu x Hx).
  apply orb_true_iff in Hu as [Hu%bool_decide_eq_true|Hu]; [done|].
  apply andb_true_iff in Hu as [_ [Hu%bool_decide_eq_true|Hu%bool_decide_eq_true]%orb_true_iff]; done.
Qed.

Lemma issue_saves c id body t ans t1 key : IssueKey hmac parse_RFC3339 save_over c id body t = (ans, t1) → api_key ans = Some key →
  ∃ rec m h, FindById id t = Some rec ∧ HashAPIKey hmac (SECRET_KEY c) key = Some h ∧ t1 = upsert m t ∧ unique_in m t = true ∧
    Id m = id ∧ GetString "key_hash" m = h ∧ GetBool "enabled" m = GetBool "enabled" rec ∧ GetBool "key_revoked" m = false ∧
    GetString "role" m = GetString "role" rec ∧
    ((body = Empty ∨ body = Body None) → GetDateTime "key_expires_at" m = zero_time).
Proof.
  unfold IssueKey. intros Hi Hk. destruct (FindById id t) as [rec|] eqn:Hf; [|by simplify_eq].
  pose proof (FindById_Some _ _ _ Hf) as [_ Hid]. subst id.
  destruct (issue_plan _ _ c body rec) as [x|[key' m]] eqn:Hp.
  { simplify_eq. unfold issue_plan in Hp. repeat (case_match; simplify_eq); done. }
  destruct (saved_ok _ _ _ _ _ _ _ Hf Hi) as (-> & -> & Hu).
  { intros H5. unfold saved in Hi. destruct (save _ _ _ _ _) as [[] ?]; by simplify_eq. }
  injection Hk as ->. exists rec, m.
  unfold issue_plan in Hp. destruct body as [| |bo]; [done|..]; destruct (GenerateAPIKey _) as [k|]; try done;
    destruct (HashAPIKey hmac (SECRET_KEY c) k) as [h|] eqn:Hh; try done; exists h; repeat (case_match; try done); simplify_eq;
    split_and!; try done; try (by field_simpl); try (intros [?|?]; simplify_eq); unfold GetDateTime; by field_simpl.
Qed.

(** A key that was issued authenticates as its account while the account is enabled and
    the key has no date; a key with another hash no longer does, so issuing replaces the
    key; and once the key is revoked no key does. *)
Theorem issued_key_works c id body t ans t1 key c' :
  IssueKey hmac parse_RFC3339 save_over c id body t = (ans, t1) → api_key ans = Some key → SECRET_KEY c' = SECRET_KEY c →
  (body = Empty ∨ body = Body None → find_ok c' = true → GetBool "enabled" <$> FindById id t = Some true →
   ∃ r, authenticateAPIKey hmac c' key t1 = Authenticated r ∧ Id r = id ∧ Some (GetString "role" r) = GetString "role" <$> FindById id t) ∧
  (∀ other r, HashAPIKey hmac (SECRET_KEY c) other ≠ HashAPIKey hmac (SECRET_KEY c) key →
   authenticateAPIKey hmac c' other t1 = Authenticated r → Id r ≠ id) ∧
  (∀ c2 ans2 t2 any r, RevokeKey save_over c2 id t1 = (ans2, t2) → code ans2 = 200%Z →
   authenticateAPIKey hmac c' any t2 = Authenticated r → Id r ≠ id).
Proof.
  intros Hi Hk Henv. destruct (issue_saves _ _ _ _ _ _ _ Hi Hk) as (rec & m & h & Hf & Hh & -> & Hu & Hid & Hmh & Hen & Hrv & Hro & Hex).
  split_and!.
  - intros Hb Hok He. rewrite Hf in He |- *. simpl in He |- *. exists m. split; [|by rewrite Hro].
    unfold authenticateAPIKey. rewrite Henv Hh Hok. cbn [negb].
    assert (GetString "key_hash" m ≠ "") as Hne.
    { rewrite Hmh. unfold HashAPIKey in Hh. by apply bind_Some in Hh as (? & _ & [= <-]). }
    destruct (FindAll "key_hash" h (upsert m t)) as [|x l] eqn:Hfa.
    + assert (m ∈ FindAll "key_hash" h (upsert m t)) as Hin by (apply FindAll_elem; split; [done|]; apply elem_of_upsert; by left).
      rewrite Hfa in Hin. by apply elem_of_nil in Hin.
    + apply FindAll_head in Hfa as [Hx [->|[Hin Hne']]%elem_of_upsert].
      * rewrite Hen. simplify_eq. rewrite He Hrv. cbn [negb]. by rewrite (Hex Hb).
      * exfalso. apply (unique_hash m t x Hu Hin Hne' Hne). congruence.
  - intros other r Ho (h' & Hh' & Hr & Hrh & _)%authenticated_row Hx. rewrite Henv in Hh'.
    apply elem_of_upsert in Hr as [->|[_ Hr]]; [|congruence]. apply Ho. congruence.
  - intros c2 ans2 t2 any r Hrk Hc (h' & _ & Hr & _ & _ & Hnr)%authenticated_row Hx.
    unfold RevokeKey in Hrk. assert (FindById id (upsert m t) = Some m) as Hfm by (rewrite -Hid; apply FindById_upsert).
    rewrite Hfm in Hrk. rewrite -Hid in Hfm. destruct (saved_ok _ _ _ _ _ _ _ Hfm Hrk) as (_ & -> & _); [lia|].
    apply elem_of_upsert in Hr as [->|[_ Hr]]; [|apply Hr; simpl; congruence]. unfold revoke_plan in Hnr. by rewrite GetBool_SetField_eq in Hnr.
Qed.
End invariants.

(** ** Witnesses *)
Definition toy_hmac (secret m : string) : string := m.
Definition toy_parse (s : string) : option Z := Some 0%Z.

Definition demo_calls (n : Z) (id rnd : string) : calls :=
  {| now := n; random := Some rnd; SECRET_KEY := toy_key; find_ok := true; save_ok := true; new_id := id |}.
Definition demo_body (role : string) : create_body :=
  {| cb_Name := " ci "; cb_Description := "pipeline"; cb_Role := role; cb_Enabled := None |}.
Definition disable : put_body := {| pb_Name := None; pb_Description := None; pb_Role := None; pb_Enabled := Some false |}.

Definition created := CreateAccount toy_hmac (demo_calls 1 "sa1" "abc") None (Body (demo_body "Operator")) [].
Definition created_key : string := default "" (api_key created.1).
Definition reissue := IssueKey toy_hmac toy_parse save_all (demo_calls 2 "" "xyz") "sa1" Empty created.2.
Definition disabled := PutAccount save_all (demo_calls 3 "" "") "sa1" (Body disable) created.2.

Definition key_event_of (key : string) : AuditLog.RequestEvent :=
  {| AuditLog.Auth := None;
     AuditLog.Request := Some {| AuditLog.method := "GET"; AuditLog.path := "/api/custom/audit-logs";
       AuditLog.headers := {["Authorization" := "Bearer " +:+ key]}; AuditLog.info := None |} |}.

Definition passes (p : passed) : option AuditLog.RequestEvent := match p with Pass e _ => Some e | Answer _ => None end.

(** A key issued for the disabled account, and the request that carries it. *)
Definition reissued_disabled := IssueKey toy_hmac toy_parse save_all (demo_calls 4 "" "xyz") "sa1" Empty disabled.2.

Lemma disabled_is_final_witness : code disabled.1 = 200%Z ∧ ∀ r,
  authenticateAPIKey toy_hmac (demo_calls 6 "" "") created_key disabled.2 = Authenticated r → Id r ≠ "sa1".
Proof.
  split; [vm_compute; reflexivity|]. intros r Hr.
  refine (disabled_is_final toy_hmac toy_parse save_all save_all_spec (demo_calls 3 "" "") "sa1" disable created.2 disabled.1 disabled.2
    {| accounts := disabled.2; inflight := [] |} (demo_calls 6 "" "") created_key r _ _ _ _ Hr).
  - reflexivity.
  - unfold disabled. by destruct (PutAccount _ _ _ _ _).
  - vm_compute. reflexivity.
  - apply rtc_refl.
Defined.

Lemma issued_key_works_witness : ∃ r, authenticateAPIKey toy_hmac (demo_calls 6 "" "") (default "" (api_key reissue.1)) reissue.2 = Authenticated r ∧
  Id r = "sa1" ∧ ∀ r', authenticateAPIKey toy_hmac (demo_calls 6 "" "") created_key reissue.2 = Authenticated r' → Id r' ≠ "sa1".
Proof.
  destruct (issued_key_works toy_hmac toy_parse save_all save_all_spec (demo_calls 2 "" "xyz") "sa1" Empty created.2 reissue.1 reissue.2
    (default "" (api_key reissue.1)) (demo_calls 6 "" "")) as (H1 & H2 & _).
  - unfold reissue. by destruct (IssueKey _ _ _ _ _ _ _).
  - vm_compute. reflexivity.
  - reflexivity.
  - destruct H1 as (r & H1 & Hid & _); [by left|reflexivity|vm_compute; reflexivity|]. exists r. split; [exact H1|]. split; [exact Hid|].
    intros r'. apply H2. vm_compute. discriminate.
Defined.

(** The route that issues a key does not look whether the account is enabled, while the
    route that creates an account refuses keys for disabled accounts: it answers 201 with
    a key that is refused as soon as it is used. *)
Theorem disabled_account_gets_dead_key : code reissued_disabled.1 = 201%Z ∧ ∃ key, api_key reissued_disabled.1 = Some key ∧
  APIKeyMiddleware toy_hmac (demo_calls 6 "" "") (key_event_of key) reissued_disabled.2 = Answer (resp 401).
Proof.
  split; [vm_compute; reflexivity|]. exists (default "" (api_key reissued_disabled.1)). split; vm_compute; reflexivity.
Qed.
