(* ===== verification/Webhook.v ===== *)
(** * internal/webhook/signature.go and the webhook route of internal/routes/stack_routes.go

    A push of a git provider triggers a sync of the stack it names when its body is
    signed with the secret of the stack and its branch is the one of the repository.
    HMAC-SHA256, AES-GCM and the decoder of JSON are parameters. *)
From Stdlib Require Import ZArith.
From S2P Require Import Prelude GoStrings GoPath GoFmt GoBase64 GoValue ComposeDoc PbRecord PbTable Crypto.
From S2P Require Scheduler AuditLog.

Definition GitHubSignatureHeader := "X-Hub-Signature-256".
Definition sha256Prefix := "sha256=".

(** [BranchFromRef]. *)
Definition BranchFromRef (ref : string) : string := TrimPrefix ref "refs/heads/".

Section webhook.
Context (hmac : string → string → string) (Open : string → string → string → option string).
(** The "ref" of a push payload, [None] if the body is not such a document. *)
Context (unmarshal_ref : string → option string).

Definition VerifySignature (secret body headerValue : string) : bool :=
  if decide (secret = "" ∨ headerValue = "") then false
  else if negb (HasPrefix headerValue sha256Prefix) then false
  else match hex_decode (TrimPrefix headerValue sha256Prefix) with
  | None => false
  | Some sig => bool_decide (sig = hmac secret body)
  end.

Definition RefFromPayload (body : string) : option string := unmarshal_ref body.

(** A request to the route: the id of the path, the header of the signature and the
    body, [None] if it cannot be read. *)
Record push := { push_id : string; signature : string; body : option string }.

(** The two tables, the secret key of the environment and the result of the queries. *)
Record server := { stacks : rows; repositories : rows; SECRET_KEY : string }.

Inductive answer :=
| MissingId | StackNotFound | NotConfigured | InvalidBody | Misconfigured | InvalidSignature | MalformedPayload | BranchMismatch
| Triggered.

(** The branch of the repository of a stack; [None] if the repository is not found. *)
Definition repo_branch (sv : server) (stack : record) : option string :=
  repo ← FindById (GetString "repository" stack) (repositories sv);
  let branch := GetString "branch" repo in Some (if decide (branch = "") then "main" else branch).

Definition webhook_sync (sv : server) (p : push) (s : Scheduler.Scheduler) : answer * Scheduler.Scheduler :=
  if decide (push_id p = "") then (MissingId, s)
  else match FindById (push_id p) (stacks sv) with
  | None => (StackNotFound, s)
  | Some stack =>
      let encryptedSecret := GetString "webhook_secret" stack in
      if decide (encryptedSecret = "") then (NotConfigured, s)
      else match body p with
      | None => (InvalidBody, s)
      | Some body =>
          let secretKey := default "" (NormalizeSecretKey (SECRET_KEY sv)) in
          match Decrypt Open encryptedSecret secretKey with
          | None => (Misconfigured, s)
          | Some plainSecret =>
              if negb (VerifySignature plainSecret body (signature p)) then (InvalidSignature, s)
              else match RefFromPayload body with
              | None => (MalformedPayload, s)
              | Some ref =>
                  if bool_decide (ref ≠ "") && match repo_branch sv stack with
                                               | Some branch => bool_decide (BranchFromRef ref ≠ branch)
                                               | None => false
                                               end
                  then (BranchMismatch, s)
                  else (Triggered, Scheduler.TriggerSync (push_id p) "webhook" 0 "webhook" s)
              end
          end
      end
  end.

(** ** When a sync is triggered *)

(** The header is the prefix and hexadecimal digits of the code of the body. *)
Lemma verify_spec secret body h : VerifySignature secret body h = true ↔
  secret ≠ "" ∧ ∃ digits, h = sha256Prefix +:+ digits ∧ hex_decode digits = Some (hmac secret body).
Proof.
  unfold VerifySignature. case_decide as Hd.
  { split; [done|]. intros [Hs (d & -> & _)]. destruct Hd as [Hd|Hd]; [done|]. by destruct d. }
  apply Decidable.not_or in Hd as [Hs Hh]. destruct (HasPrefix h sha256Prefix) eqn:Hp; cbn [negb].
  - apply HasPrefix_spec in Hp as (d & ->).
    assert (TrimPrefix (sha256Prefix +:+ d) sha256Prefix = d) as -> by apply TrimPrefix_app.
    destruct (hex_decode d) as [sig|] eqn:Hx.
    + rewrite bool_decide_eq_true. split.
      * intros ->. split; [done|]. by exists d.
      * intros [_ (d' & Hd & H')]. apply (inj (String.append sha256Prefix)) in Hd as ->. congruence.
    + split; [done|]. intros [_ (d' & Hd & H')]. apply (inj (String.append sha256Prefix)) in Hd as ->. congruence.
  - split; [done|]. intros [_ (d & -> & _)]. by rewrite HasPrefix_app in Hp.
Qed.

Lemma branch_spec ref branch : BranchFromRef ref = branch ↔
  ref = "refs/heads/" +:+ branch ∨ ref = branch ∧ HasPrefix ref "refs/heads/" = false.
Proof.
  unfold BranchFromRef. destruct (HasPrefix ref "refs/heads/") eqn:Hp.
  - apply HasPrefix_spec in Hp as (r & ->). rewrite TrimPrefix_app. split; [intros ->; by left|].
    intros [Hr|[_ ?]]; [|done]. by apply (inj (String.append "refs/heads/")) in Hr.
  - unfold TrimPrefix, HasPrefix in *. destruct (strip_prefix _ ref) eqn:Hs; [done|]. split; [intros ->; by right|].
    intros [->|[? _]]; [|done]. by rewrite (proj2 (strip_prefix_Some _ _ _) eq_refl) in Hs.
Qed.

(** The cases that answer before the branch is looked at. *)
#[local] Ltac no_trigger := split_and!; [done..|]; split; [done|]; intros (? & ? & ? & ? & ? & ? & ?); destruct_and?; simplify_eq; done.

(** C10: A push triggers a sync exactly when it names a stack with a secret the server can
    decrypt, its header carries the code of its body under that secret, which is not
    empty, and its branch is the branch of the repository ("main" if none is set) where
    both are known; every other push leaves the scheduler as it is. *)
Theorem webhook_gate sv p s : let '(a, s') := webhook_sync sv p s in
  (a ≠ Triggered → s' = s) ∧
  (a = Triggered → s' = Scheduler.TriggerSync (push_id p) "webhook" 0 "webhook" s) ∧
  (a = Triggered ↔ push_id p ≠ "" ∧ ∃ stack b secret digits ref,
    FindById (push_id p) (stacks sv) = Some stack ∧ body p = Some b ∧ GetString "webhook_secret" stack ≠ "" ∧
    Decrypt Open (GetString "webhook_secret" stack) (default "" (NormalizeSecretKey (SECRET_KEY sv))) = Some secret ∧ secret ≠ "" ∧
    signature p = sha256Prefix +:+ digits ∧ hex_decode digits = Some (hmac secret b) ∧ unmarshal_ref b = Some ref ∧
    (ref = "" ∨ ∀ branch, repo_branch sv stack = Some branch → ref = "refs/heads/" +:+ branch ∨ ref = branch ∧ HasPrefix ref "refs/heads/" = false)).
Proof.
  unfold webhook_sync. case_decide as Hid; [no_trigger|].
  destruct (FindById (push_id p) (stacks sv)) as [stack|] eqn:Hst; [|no_trigger].
  case_decide as Hsec; [no_trigger|]. destruct (body p) as [b|] eqn:Hb; [|no_trigger].
  destruct (Decrypt Open _ _) as [secret|] eqn:Hde; [|no_trigger].
  destruct (VerifySignature secret b (signature p)) eqn:Hv; cbn [negb].
  2: { split_and!; [done..|]. split; [done|]. intros (_ & ? & ? & ? & ? & ? & ? & ? & ? & ? & ? & Hsig & Hx & _). simplify_eq.
       rewrite -not_true_iff_false in Hv. destruct Hv. apply verify_spec. eauto. }
  unfold RefFromPayload. destruct (unmarshal_ref b) as [ref|] eqn:Hr; [|no_trigger].
  apply verify_spec in Hv as (Hne & digits & Hsig & Hx).
  destruct (bool_decide (ref ≠ "") && _) eqn:Hbr; (split_and!; [done..|]; split; [try done|try done]).
  - intros (_ & ? & ? & ? & ? & ? & ? & ? & ? & ? & ? & _ & _ & ? & Hm). simplify_eq.
    apply andb_true_iff in Hbr as [Hn%bool_decide_eq_true Hbr]. destruct Hm as [Hm|Hm]; [done|].
    destruct (repo_branch sv _) as [branch|]; [|done]. apply bool_decide_eq_true in Hbr. destruct Hbr. apply branch_spec. by apply Hm.
  - intros _. split; [done|]. exists stack, b, secret, digits, ref. split_and!; try done.
    apply andb_false_iff in Hbr as [Hn%bool_decide_eq_false|Hbr]; [left; by apply dec_stable|right].
    intros branch Hbb. rewrite Hbb in Hbr. apply bool_decide_eq_false, dec_stable in Hbr. by apply branch_spec.
Qed.
End webhook.

(** ** Witness of a push that is accepted *)
Definition toy_stack : record := {| Id := "s1"; fields := {["webhook_secret" := VStr (EncodeToString (toy_nonce +:+ toy_key +:+ "hush")); "repository" := VStr "r1"]} |}.
Definition toy_server : server := {| stacks := [toy_stack]; repositories := [{| Id := "r1"; fields := ∅ |}]; SECRET_KEY := toy_key |}.
Definition toy_hmac (secret body : string) : string := secret +:+ body.
Definition toy_push (b : string) : push :=
  {| push_id := "s1"; signature := sha256Prefix +:+ hex_encode (toy_hmac "hush" b); body := Some b |}.

Example signed_push_triggers s :
  webhook_sync toy_hmac toy_open (λ b, Some b) toy_server (toy_push "refs/heads/main") s =
    (Triggered, Scheduler.TriggerSync "s1" "webhook" 0 "webhook" s) ∧
  webhook_sync toy_hmac toy_open (λ b, Some b) toy_server (toy_push "refs/heads/dev") s = (BranchMismatch, s).
Proof. done. Qed.
