(* ===== verification/Routes.v ===== *)
(** * internal/routes: the table of the routes

    Every route the server registers under its own paths (cmd/serve.go and
    internal/routes): its method, its pattern and the guard bound to it, one table per
    file; how the router chooses a route; and the chain a request goes through, which
    is the middleware of API keys, the one of the audit log and the guard. *)
From Stdlib Require Import ZArith.
From S2P Require Import Prelude GoStrings PbRecord PbTable Rbac.
From S2P Require AuditLog ApiKeys.

Abbreviation seg := AuditLog.seg.
Abbreviation Lit := AuditLog.Lit.
Abbreviation Any := AuditLog.Any.

Inductive guard := Public | Cap (capability : string) | Superuser.

Record route := { r_method : string; r_segs : list seg; r_guard : guard }.

#[global] Instance seg_eq_dec : EqDecision seg.
Proof. solve_decision. Defined.
#[global] Instance guard_eq_dec : EqDecision guard.
Proof. solve_decision. Defined.
#[global] Instance route_eq_dec : EqDecision route.
Proof. solve_decision. Defined.

(** A route under /api/custom. *)
Definition custom (method : string) (segs : list seg) (g : guard) : route :=
  {| r_method := method; r_segs := Lit "api" :: Lit "custom" :: segs; r_guard := g |}.

(** ** The tables *)
Definition audit_table : list route :=
  [ custom "GET" [Lit "audit-logs"] (Cap CapViewAuditLogs) ].

Definition auth_table : list route :=
  [ custom "POST" [Lit "auth"; Lit "elevate"] Public ].

Definition backup_routes_table : list route :=
  [ custom "GET" [Lit "backups"] (Cap CapManageSettings);
    custom "POST" [Lit "backups"] (Cap CapManageSettings);
    custom "POST" [Lit "backups"; Lit "upload"] Superuser;
    custom "GET" [Lit "backups"; Any; Lit "download"] (Cap CapManageSettings);
    custom "DELETE" [Lit "backups"; Any] (Cap CapManageSettings);
    custom "POST" [Lit "backups"; Any; Lit "restore"] (Cap CapManageSettings);
    custom "POST" [Lit "backups"; Any; Lit "sync-local"] (Cap CapManageSettings);
    custom "GET" [Lit "backups"; Lit "settings"] (Cap CapManageSettings);
    custom "PUT" [Lit "backups"; Lit "settings"] (Cap CapManageSettings) ].

Definition credentials_table : list route :=
  [ custom "POST" [Lit "credentials"; Lit "test"] (Cap CapManageRepos);
    custom "POST" [Lit "credentials"; Lit "keyscan"] (Cap CapManageRepos) ].

Definition env_var_routes_table : list route :=
  [ custom "POST" [Lit "stacks"; Any; Lit "env-vars"; Lit "bulk"] (Cap CapOperateStacks);
    custom "POST" [Lit "stacks"; Any; Lit "env-vars"; Lit "copy-from"] (Cap CapOperateStacks);
    custom "GET" [Lit "env-vars"; Any; Any; Lit "reveal"] (Cap CapManageSecurity);
    custom "GET" [Lit "stacks"; Any; Lit "env-vars"; Lit "reveal-all"] (Cap CapManageSecurity) ].

Definition exec_routes_table : list route :=
  [ custom "POST" [Lit "stacks"; Any; Lit "exec"] (Cap CapUseTerminal) ].

Definition git_provider_routes_table : list route :=
  [ custom "GET" [Lit "git-providers"] (Cap CapManageRepos);
    custom "POST" [Lit "git-providers"; Any; Lit "authorize-url"] (Cap CapManageRepos);
    custom "GET" [Lit "git-providers"; Any; Lit "callback"] Public;
    custom "GET" [Lit "git-providers"; Any; Lit "orgs"] (Cap CapManageRepos);
    custom "GET" [Lit "git-providers"; Any; Lit "repos"] (Cap CapManageRepos);
    custom "GET" [Lit "git-providers"; Any; Lit "branches"] (Cap CapManageRepos) ].

Definition infisical_browse_routes_table : list route :=
  [ custom "GET" [Lit "integrations"; Lit "infisical"; Lit "projects"] (Cap CapOperateStacks);
    custom "GET" [Lit "integrations"; Lit "infisical"; Lit "project"] (Cap CapOperateStacks);
    custom "GET" [Lit "integrations"; Lit "infisical"; Lit "browse"] (Cap CapOperateStacks);
    custom "POST" [Lit "integrations"; Lit "infisical"; Lit "test"] (Cap CapManageSettings) ].

Definition jobs_table : list route :=
  [ custom "GET" [Lit "jobs"] (Cap CapViewJobs);
    custom "GET" [Lit "jobs"; Lit "groups"] (Cap CapViewJobs);
    custom "POST" [Lit "job-runs"; Any; Lit "cancel"] (Cap CapManageJobs);
    custom "POST" [Lit "jobs"; Any; Lit "run"] (Cap CapManageJobs);
    custom "GET" [Lit "jobs"; Any; Lit "definition"] (Cap CapViewJobs);
    custom "GET" [Lit "jobs"; Any; Lit "raw"] (Cap CapViewJobs);
    custom "DELETE" [Lit "job-runs"; Any] (Cap CapManageJobs);
    custom "POST" [Lit "jobs"; Any; Lit "env-vars"; Lit "bulk"] (Cap CapManageJobs) ].

Definition lint_routes_table : list route :=
  [ custom "POST" [Lit "lint"; Lit "compose"] (Cap CapManageRepos) ].

Definition me_table : list route :=
  [ custom "GET" [Lit "me"] Public ].

Definition metrics_table : list route :=
  [ {| r_method := "GET"; r_segs := [Lit "metrics"]; r_guard := Cap CapViewMetrics |};
    custom "GET" [Lit "metrics"] (Cap CapViewMetrics);
    custom "GET" [Lit "workers"; Any; Lit "metrics"] (Cap CapViewMetrics) ].

Definition registry_credentials_table : list route :=
  [ custom "POST" [Lit "registry-credentials"; Lit "test"] (Cap CapManageRepos) ].

Definition routes_register_table : list route :=
  [ custom "GET" [Lit "stacks"; Any; Lit "stream"] (Cap CapViewLogs);
    custom "GET" [Lit "repositories"; Any; Lit "commits"] (Cap CapViewStacks);
    custom "GET" [Lit "repositories"; Any; Lit "files"] (Cap CapManageRepos);
    custom "GET" [Lit "repositories"; Any; Lit "stack-files"] (Cap CapManageRepos);
    custom "GET" [Lit "repositories"; Any; Lit "job-files"] (Cap CapManageRepos);
    custom "GET" [Lit "repositories"; Any; Lit "job-definition"] (Cap CapManageRepos);
    custom "GET" [Lit "repositories"; Any; Lit "wireops-files"] (Cap CapManageRepos);
    custom "GET" [Lit "repositories"; Any; Lit "wireops-definition"] (Cap CapManageRepos);
    custom "GET" [Lit "repositories"; Any; Lit "compose-wireops-files"] (Cap CapManageRepos);
    custom "GET" [Lit "repositories"; Any; Lit "compose-definition"] (Cap CapManageRepos);
    custom "POST" [Lit "repositories"; Any; Lit "sync"] (Cap CapManageRepos);
    custom "GET" [Lit "orphans"] (Cap CapManageSettings);
    custom "GET" [Lit "system"; Lit "info"] (Cap CapManageSettings);
    custom "DELETE" [Lit "orphans"; Any] (Cap CapManageSettings);
    custom "GET" [Lit "integrations"] (Cap CapManageSettings);
    custom "PUT" [Lit "integrations"; Any] (Cap CapManageSettings);
    custom "DELETE" [Lit "integrations"; Any] (Cap CapManageSettings);
    custom "GET" [Lit "stacks"; Any; Lit "integration-actions"] (Cap CapViewStacks);
    custom "POST" [Lit "integrations"; Any; Lit "test"] (Cap CapManageSettings) ].

Definition service_accounts_table : list route :=
  [ custom "GET" [Lit "service-accounts"] (Cap CapManageSecurity);
    custom "POST" [Lit "service-accounts"] (Cap CapManageSecurity);
    custom "PUT" [Lit "service-accounts"; Any] (Cap CapManageSecurity);
    custom "DELETE" [Lit "service-accounts"; Any] (Cap CapManageSecurity);
    custom "POST" [Lit "service-accounts"; Any; Lit "keys"] (Cap CapManageSecurity);
    custom "DELETE" [Lit "service-accounts"; Any; Lit "keys"] (Cap CapManageSecurity) ].

Definition setup_table : list route :=
  [ custom "GET" [Lit "setup"; Lit "status"] Public;
    custom "POST" [Lit "setup"] Public ].

Definition sops_routes_table : list route :=
  [ custom "GET" [Lit "stacks"; Any; Lit "sops-env-vars"] (Cap CapViewStacks);
    custom "POST" [Lit "repositories"; Any; Lit "sops-rotate-key"] (Cap CapManageRepos);
    custom "POST" [Lit "repositories"; Any; Lit "sops-encrypt"] (Cap CapManageRepos) ].

Definition sso_group_roles_table : list route :=
  [ custom "GET" [Lit "sso-group-roles"] (Cap CapManageSecurity);
    custom "POST" [Lit "sso-group-roles"] (Cap CapManageSecurity);
    custom "PUT" [Lit "sso-group-roles"; Any] (Cap CapManageSecurity);
    custom "DELETE" [Lit "sso-group-roles"; Any] (Cap CapManageSecurity);
    custom "PUT" [Lit "settings"; Lit "sso-groups-claim"] (Cap CapManageSecurity) ].

Definition stack_definition_routes_table : list route :=
  [ custom "POST" [Lit "stacks"; Any; Lit "resync-definition"] (Cap CapOperateStacks) ].

Definition stack_migrate_routes_table : list route :=
  [ custom "POST" [Lit "stacks"; Any; Lit "migrate"; Lit "preview"] (Cap CapManageRepos);
    custom "POST" [Lit "stacks"; Any; Lit "migrate"] (Cap CapManageRepos) ].

Definition stack_observability_table : list route :=
  [ custom "GET" [Lit "stacks"; Any; Lit "health"] (Cap CapViewStacks);
    custom "GET" [Lit "inventory"] (Cap CapViewStacks) ].

Definition stack_routes_table : list route :=
  [ custom "POST" [Lit "stacks"; Any; Lit "sync"] (Cap CapOperateStacks);
    custom "POST" [Lit "stacks"; Any; Lit "rollback"] (Cap CapOperateStacks);
    custom "GET" [Lit "stacks"; Any; Lit "webhook-url"] (Cap CapOperateStacks);
    custom "POST" [Lit "webhook"; Any] Public;
    custom "POST" [Lit "stacks"; Any; Lit "force-redeploy"] (Cap CapOperateStacks);
    custom "GET" [Lit "stacks"; Any; Lit "render-overrides"] (Cap CapOperateStacks);
    custom "PUT" [Lit "stacks"; Any; Lit "render-overrides"] (Cap CapOperateStacks);
    custom "DELETE" [Lit "stacks"; Any; Lit "render-overrides"] (Cap CapOperateStacks);
    custom "GET" [Lit "stacks"; Any; Lit "services"] (Cap CapViewStacks);
    custom "GET" [Lit "stacks"; Any; Lit "resources"] (Cap CapViewStacks);
    custom "GET" [Lit "stacks"; Any; Lit "container"; Any; Lit "stats"] (Cap CapViewStacks);
    custom "GET" [Lit "stacks"; Any; Lit "container"; Any; Lit "logs"] (Cap CapViewLogs);
    custom "GET" [Lit "stacks"; Any; Lit "compose"] (Cap CapViewStacks);
    custom "GET" [Lit "stacks"; Any; Lit "dependency-graph"] (Cap CapViewStacks);
    custom "GET" [Lit "stacks"; Any; Lit "revisions"; Any] (Cap CapViewStacks);
    custom "POST" [Lit "stacks"; Any; Lit "container"; Lit "stop"] (Cap CapOperateStacks);
    custom "POST" [Lit "stacks"; Any; Lit "container"; Lit "restart"] (Cap CapOperateStacks);
    custom "DELETE" [Lit "stacks"; Any] (Cap CapOperateStacks);
    custom "POST" [Lit "stacks"; Any; Lit "transfer"] (Cap CapOperateStacks);
    custom "GET" [Lit "stacks"; Lit "import"; Lit "discover"] (Cap CapOperateStacks);
    custom "POST" [Lit "stacks"; Lit "import"] (Cap CapOperateStacks);
    custom "POST" [Lit "stacks"; Lit "from-wireops"] (Cap CapManageRepos);
    custom "POST" [Lit "stacks"; Lit "from-compose"] (Cap CapManageRepos) ].

Definition terminal_table : list route :=
  [ custom "POST" [Lit "stacks"; Any; Lit "terminal"; Lit "sessions"] (Cap CapUseTerminal);
    custom "GET" [Lit "terminal"; Lit "sessions"; Any; Lit "stream"] (Cap CapUseTerminal);
    custom "POST" [Lit "terminal"; Lit "sessions"; Any; Lit "input"] (Cap CapUseTerminal);
    custom "POST" [Lit "terminal"; Lit "sessions"; Any; Lit "resize"] (Cap CapUseTerminal);
    custom "POST" [Lit "terminal"; Lit "sessions"; Any; Lit "close"] (Cap CapUseTerminal);
    custom "GET" [Lit "terminal-sessions"] (Cap CapViewAuditLogs);
    custom "GET" [Lit "terminal"; Lit "sessions"; Any; Lit "transcript"] (Cap CapUseTerminal);
    custom "GET" [Lit "terminal"; Lit "sessions"; Lit "active"] (Cap CapManageSecurity) ].

Definition users_table : list route :=
  [ custom "POST" [Lit "users"; Lit "invite"] (Cap CapManageUsers);
    custom "GET" [Lit "users"; Lit "invite"; Lit "validate"] Public;
    custom "POST" [Lit "users"; Lit "invite"; Lit "accept"] Public;
    custom "PUT" [Lit "users"; Any] (Cap CapManageUsers);
    custom "PATCH" [Lit "users"; Lit "me"] Public ].

Definition vault_browse_routes_table : list route :=
  [ custom "GET" [Lit "integrations"; Lit "vault"; Lit "mounts"] (Cap CapOperateStacks);
    custom "GET" [Lit "integrations"; Lit "vault"; Lit "browse"] (Cap CapOperateStacks);
    custom "GET" [Lit "integrations"; Lit "vault"; Lit "fields"] (Cap CapOperateStacks);
    custom "POST" [Lit "integrations"; Lit "vault"; Lit "test"] (Cap CapManageSettings) ].

Definition worker_table : list route :=
  [ custom "POST" [Lit "worker"; Lit "tokens"] (Cap CapManageSecurity);
    custom "GET" [Lit "workers"] (Cap CapViewWorkers);
    custom "POST" [Lit "workers"; Any; Lit "revoke"] (Cap CapManageWorkers);
    custom "GET" [Lit "workers"; Any; Lit "policy"] (Cap CapViewWorkerPolicy);
    custom "PUT" [Lit "workers"; Any; Lit "policy"] (Cap CapManageSettings);
    custom "DELETE" [Lit "workers"; Any; Lit "policy"] (Cap CapManageSettings);
    custom "GET" [Lit "settings"; Lit "worker-policy"] (Cap CapViewWorkerPolicy);
    custom "PUT" [Lit "settings"; Lit "worker-policy"] (Cap CapManageSettings);
    custom "GET" [Lit "settings"; Lit "app-settings"] (Cap CapManageSettings);
    custom "PUT" [Lit "settings"; Lit "app-settings"] (Cap CapManageSettings) ].

Definition routes : list route :=
  audit_table ++ auth_table ++ backup_routes_table ++ credentials_table ++ env_var_routes_table ++
  exec_routes_table ++ git_provider_routes_table ++ infisical_browse_routes_table ++ jobs_table ++ lint_routes_table ++
  me_table ++ metrics_table ++ registry_credentials_table ++ routes_register_table ++ service_accounts_table ++
  setup_table ++ sops_routes_table ++ sso_group_roles_table ++ stack_definition_routes_table ++ stack_migrate_routes_table ++
  stack_observability_table ++ stack_routes_table ++ terminal_table ++ users_table ++ vault_browse_routes_table ++
  worker_table.

(** ** The router *)

(** [http.ServeMux]: of the patterns that match, the most specific one; patterns that
    overlap without one being more specific than the other are refused when they are
    registered, so the one with most literal segments is it. *)
Definition literals (l : list seg) : nat := length (filter (λ s, s ≠ Any) l).

Definition better (r1 r2 : route) : route := if literals (r_segs r1) <? literals (r_segs r2) then r2 else r1.

Definition best (l : list route) : option route :=
  match l with [] => None | r :: l => Some (foldl better r l) end.

(** A pattern of GET serves HEAD too; no route is registered for HEAD alone. *)
Definition served_as (method : string) : string := if decide (method = "HEAD") then "GET" else method.

Definition matches (method : string) (parts : list string) (r : route) : bool :=
  bool_decide (r_method r = served_as method) && AuditLog.segs_ok (r_segs r) parts.

(** A path that is not clean is redirected, not served.  What no route matches is left to the
    files of the interface, which the least specific pattern of all serves to everyone. *)
Definition clean (path : string) : bool := bool_decide (path = "/" +:+ Join "/" (AuditLog.splitPath path)).

Definition dispatch (method path : string) : option route :=
  if clean path then best (List.filter (matches method (AuditLog.splitPath path)) routes) else None.

Definition guard_outcome (g : guard) (a : option auth_record) : outcome :=
  match g with
  | Public => Next
  | Cap capability => Require capability (Some a)
  | Superuser => RequireSuperuser (Some a)
  end.

(** The handler a request reaches, and the event it gets. *)
Definition reaches (hmac : string → string → string) (c : ApiKeys.calls) (e : AuditLog.RequestEvent) (accounts : rows)
  : option (route * AuditLog.RequestEvent) :=
  match ApiKeys.APIKeyMiddleware hmac c e accounts with
  | ApiKeys.Answer _ => None
  | ApiKeys.Pass e' _ =>
      q ← AuditLog.Request e';
      r ← dispatch (AuditLog.method q) (AuditLog.path q);
      match guard_outcome (r_guard r) (AuditLog.Auth e') with Next => Some (r, e') | _ => None end
  end.

(** ** Facts of the table *)
Lemma better_cases r1 r2 : better r1 r2 = r1 ∨ better r1 r2 = r2.
Proof. unfold better. case_match; auto. Qed.

Lemma best_elem l r : best l = Some r → r ∈ l.
Proof.
  destruct l as [|x l]; [done|]. simpl. intros [= <-]. revert x. induction l as [|y l IH]; intros x; simpl; [by left|].
  destruct (better_cases x y) as [->| ->].
  - specialize (IH x). apply elem_of_cons in IH as [->|IH]; [by left|]. by do 2 right.
  - right. apply IH.
Qed.

Lemma dispatch_matches method path r : dispatch method path = Some r →
  r ∈ routes ∧ r_method r = served_as method ∧ AuditLog.segs_ok (r_segs r) (AuditLog.splitPath path) = true.
Proof.
  unfold dispatch. case_match; [|done]. intros Hr%best_elem. apply list_elem_of_In, List.filter_In in Hr as [Hin Hm].
  unfold matches in Hm. apply andb_true_iff in Hm as [Hm%bool_decide_eq_true Hs]. split; [by apply list_elem_of_In|done].
Qed.

Lemma mutating_served method : AuditLog.mutating method = true → served_as method = method.
Proof. unfold served_as. by case_decide as Hd; [subst method|]. Qed.

(** Two patterns that some path matches both: one is a special case of the other. *)
Fixpoint overlap (l k : list seg) : bool :=
  match l, k with
  | [], [] => true
  | a :: l, b :: k => match a, b with AuditLog.Lit s, AuditLog.Lit t => bool_decide (s = t) | _, _ => true end && overlap l k
  | _, _ => false
  end.

Fixpoint special_case (l k : list seg) : bool :=
  match l, k with
  | [], [] => true
  | a :: l, b :: k => match b with AuditLog.Any => true | _ => bool_decide (a = b) end && special_case l k
  | _, _ => false
  end.

Definition comparable (r1 r2 : route) : bool :=
  negb (bool_decide (r_method r1 = r_method r2)) || negb (overlap (r_segs r1) (r_segs r2)) ||
  xorb (special_case (r_segs r1) (r_segs r2)) (special_case (r_segs r2) (r_segs r1)).

Fixpoint pairwise {A} (f : A → A → bool) (l : list A) : bool :=
  match l with [] => true | x :: l => forallb (f x) l && pairwise f l end.

(** The router accepts the table: no two patterns conflict and none is registered twice. *)
Lemma table_accepted : pairwise comparable routes = true.
Proof. vm_compute. reflexivity. Qed.

Lemma routes_forall (P : route → bool) : forallb P routes = true → ∀ r, r ∈ routes → P r = true.
Proof. rewrite List.forallb_forall. intros Hf r Hr%list_elem_of_In. by apply Hf. Qed.

Lemma overlap_ok l k p : AuditLog.segs_ok l p = true → AuditLog.segs_ok k p = true → overlap l k = true.
Proof.
  revert k p. induction l as [|a l IH]; intros [|b k] [|x p]; try done. simpl.
  intros [Ha Hl]%andb_true_iff [Hb Hk]%andb_true_iff. rewrite (IH k p) // andb_true_r.
  destruct a, b; try done. simpl in *. apply bool_decide_eq_true in Ha, Hb. apply bool_decide_eq_true. congruence.
Qed.

Lemma pairwise_In {A} (f : A → A → bool) l x y : (∀ a b, f a b = f b a) → pairwise f l = true → x ∈ l → y ∈ l → x ≠ y → f x y = true.
Proof.
  intros Hsym. induction l as [|z l IH]; intros Hp Hx Hy Hne; [by apply elem_of_nil in Hx|].
  simpl in Hp. apply andb_true_iff in Hp as [Hz Hp]. rewrite List.forallb_forall in Hz.
  apply elem_of_cons in Hx as [->|Hx], Hy as [->|Hy]; [done| | |by apply IH].
  - apply Hz. by apply list_elem_of_In.
  - rewrite Hsym. apply Hz. by apply list_elem_of_In.
Qed.

Lemma overlap_sym l k : overlap l k = overlap k l.
Proof.
  revert k. induction l as [|a l IH]; intros [|b k]; try done. simpl. rewrite IH. f_equal. destruct a, b; try done.
  apply bool_decide_ext. split; congruence.
Qed.

Lemma comparable_sym r1 r2 : comparable r1 r2 = comparable r2 r1.
Proof.
  unfold comparable. rewrite overlap_sym Bool.xorb_comm. do 3 f_equal. apply bool_decide_ext. split; congruence.
Qed.

Lemma special_literals l k : special_case l k = true → literals k ≤ literals l ∧ (literals l = literals k → special_case k l = true).
Proof.
  revert k. induction l as [|a l IH]; intros [|b k]; try done. simpl. intros [Hb Hs]%andb_true_iff. destruct (IH k Hs) as [H1 H2].
  unfold literals in *. rewrite !filter_cons. destruct b as [t|], a as [s|]; simpl in *; try (apply bool_decide_eq_true in Hb; simplify_eq);
    repeat (rewrite decide_True; [|done]) || idtac; repeat case_decide; simpl in *; try done; split; try lia; intros He;
    rewrite ?bool_decide_eq_true_2 //= ?H2 //; lia.
Qed.

Lemma best_max l r r' : best l = Some r → r' ∈ l → literals (r_segs r') ≤ literals (r_segs r).
Proof.
  destruct l as [|x l]; [done|]. simpl. intros [= <-] Hr. assert (∀ y, literals (r_segs y) ≤ literals (r_segs (foldl better y l)) ∧
    ∀ z, z ∈ l → literals (r_segs z) ≤ literals (r_segs (foldl better y l))) as Hm.
  { clear. induction l as [|z l IH]; intros y; [split; [done|by intros ? ?%elem_of_nil]|]. simpl.
    assert (literals (r_segs y) ≤ literals (r_segs (better y z)) ∧ literals (r_segs z) ≤ literals (r_segs (better y z))) as [Hy Hz].
    { unfold better. destruct (Nat.ltb_spec (literals (r_segs y)) (literals (r_segs z))); lia. }
    destruct (IH (better y z)) as [H1 H2]. split; [lia|]. intros w [->|Hw]%elem_of_cons; [lia|by apply H2]. }
  destruct (Hm x) as [Hx Hl]. apply elem_of_cons in Hr as [->|Hr]; [done|by apply Hl].
Qed.

(** C36: The table is well formed: every guard names a capability with a role of its own, so
    no route falls back to the default role by a misspelt name, and of the routes that
    match a request the one that serves it is a special case of every other. *)
Theorem routes_well_formed :
  (∀ r c, r ∈ routes → r_guard r = Cap c → c ∈ AllCapabilities) ∧
  (∀ method path r r', dispatch method path = Some r → r' ∈ routes → matches method (AuditLog.splitPath path) r' = true → r' ≠ r →
   special_case (r_segs r) (r_segs r') = true ∧ special_case (r_segs r') (r_segs r) = false).
Proof.
  split.
  - intros r c Hr Hg.
    assert (forallb (λ r, match r_guard r with Cap c => bool_decide (c ∈ AllCapabilities) | _ => true end) routes = true) as Hf
      by (vm_compute; reflexivity).
    apply (routes_forall _ Hf) in Hr. rewrite Hg in Hr. by apply bool_decide_eq_true in Hr.
  - intros method path r r' Hd Hr' Hm' Hne. pose proof (dispatch_matches _ _ _ Hd) as (Hr & Hme & Hs).
    unfold matches in Hm'. apply andb_true_iff in Hm' as [Hme'%bool_decide_eq_true Hs'].
    pose proof (pairwise_In comparable routes r r' comparable_sym table_accepted Hr Hr' ltac:(done)) as Hc. unfold comparable in Hc.
    rewrite Hme Hme' bool_decide_eq_true_2 // (overlap_ok _ _ _ Hs Hs') /= in Hc.
    assert (literals (r_segs r') ≤ literals (r_segs r)) as Hl.
    { unfold dispatch in Hd. destruct (clean path); [|done]. apply (best_max _ _ _ Hd). apply list_elem_of_In, List.filter_In.
      split; [by apply list_elem_of_In|]. unfold matches. by rewrite bool_decide_eq_true_2. }
    destruct (special_case (r_segs r) (r_segs r')) eqn:H1; [by destruct (special_case (r_segs r') (r_segs r))|].
    exfalso. destruct (special_case (r_segs r') (r_segs r)) eqn:H2; [|done].
    destruct (special_literals _ _ H2) as [H3 H4]. rewrite H4 in H1; [done|lia].
Qed.

(** ** Who reaches what *)

(** The routes without a guard; their handlers check a password, a token, a signature or
    the authenticated record themselves. *)
Definition public_routes : list route :=
  [ custom "POST" [Lit "auth"; Lit "elevate"] Public;
    custom "GET" [Lit "git-providers"; Any; Lit "callback"] Public;
    custom "GET" [Lit "me"] Public;
    custom "GET" [Lit "setup"; Lit "status"] Public;
    custom "POST" [Lit "setup"] Public;
    custom "POST" [Lit "webhook"; Any] Public;
    custom "GET" [Lit "users"; Lit "invite"; Lit "validate"] Public;
    custom "POST" [Lit "users"; Lit "invite"; Lit "accept"] Public;
    custom "PATCH" [Lit "users"; Lit "me"] Public ].

Definition min_rank (g : guard) : nat :=
  match g with Public => 0 | Cap c => RoleRank (MinimumRole c) | Superuser => 5 end.

Definition auth_rank (a : option auth_record) : nat :=
  match a with
  | None => 0
  | Some a => if a_superuser a then 5 else RoleRank (ResolveActor (Some (Some a))).1.1
  end.

Lemma guard_rank g a : guard_outcome g a = Next → min_rank g ≤ auth_rank a.
Proof.
  destruct g as [|capability|]; [simpl; lia| |].
  - cbn [guard_outcome min_rank]. rewrite Require_Next. destruct a as [a|]; cbn [auth_rank].
    + unfold Can. destruct (a_superuser a) eqn:Hs; [intros _; pose proof (RoleRank_le (MinimumRole capability)); lia|].
      destruct (ResolveActor _) as [[role ty] id]. cbn [fst]. intros Hx. apply AtLeast_true in Hx. exact Hx.
    + unfold Can. simpl. by rewrite AtLeast_empty.
  - destruct a as [a|]; simpl; [|done]. by destruct (a_superuser a).
Qed.


(** What agents may not do: the routes of settings, users, keys and the audit log. *)
Definition admin_routes : list route := List.filter (λ r, RoleRank RoleAdmin <=? min_rank (r_guard r)) routes.

Lemma admin_rank r : r ∈ admin_routes → 4 ≤ min_rank (r_guard r).
Proof.
  unfold admin_routes. generalize routes. intros l Hr. apply list_elem_of_In in Hr. apply List.filter_In in Hr as [_ Hr].
  by apply Nat.leb_le in Hr.
Qed.

Section agents.
Context (hmac : string → string → string) (parse_RFC3339 : string → option Z) (save_over : record → record → record → record).
Context (save_over_spec : save_spec save_over).

End agents.

(** ** What is recorded *)

(** The routes that change something and that the middleware of the audit log does not
    match: those whose handler writes the entry, and those that leave none. *)
Definition recorded_by_handler : list (string * list seg) :=
  [ ("POST", [Lit "backups"; Lit "upload"]); ("DELETE", [Lit "backups"; Any]); ("POST", [Lit "backups"; Any; Lit "restore"]);
    ("POST", [Lit "backups"; Any; Lit "sync-local"]); ("POST", [Lit "stacks"; Any; Lit "env-vars"; Lit "bulk"]);
    ("POST", [Lit "stacks"; Any; Lit "env-vars"; Lit "copy-from"]); ("POST", [Lit "stacks"; Any; Lit "exec"]);
    ("POST", [Lit "jobs"; Any; Lit "env-vars"; Lit "bulk"]); ("POST", [Lit "service-accounts"; Any; Lit "keys"]);
    ("DELETE", [Lit "service-accounts"; Any; Lit "keys"]); ("POST", [Lit "repositories"; Any; Lit "sops-rotate-key"]);
    ("POST", [Lit "stacks"; Any; Lit "migrate"]); ("POST", [Lit "stacks"; Any; Lit "terminal"; Lit "sessions"]);
    ("POST", [Lit "terminal"; Lit "sessions"; Any; Lit "close"]) ].

Definition not_recorded : list (string * list seg) :=
  [ ("PUT", [Lit "backups"; Lit "settings"]); ("POST", [Lit "git-providers"; Any; Lit "authorize-url"]);
    ("POST", [Lit "lint"; Lit "compose"]); ("POST", [Lit "registry-credentials"; Lit "test"]);
    ("POST", [Lit "repositories"; Any; Lit "sync"]); ("POST", [Lit "repositories"; Any; Lit "sops-encrypt"]);
    ("POST", [Lit "stacks"; Any; Lit "migrate"; Lit "preview"]); ("POST", [Lit "stacks"; Lit "from-wireops"]);
    ("POST", [Lit "stacks"; Lit "from-compose"]); ("POST", [Lit "terminal"; Lit "sessions"; Any; Lit "input"]);
    ("POST", [Lit "terminal"; Lit "sessions"; Any; Lit "resize"]); ("PATCH", [Lit "users"; Lit "me"]) ].

Definition unmatched (r : route) : bool := bool_decide ((r_method r, drop 2 (r_segs r)) ∈ recorded_by_handler ++ not_recorded).

Definition rule_segs (rule : string * list seg * (string * string * AuditLog.resource)) : list seg := rule.1.2.
Definition rule_method (rule : string * list seg * (string * string * AuditLog.resource)) : string := rule.1.1.

(** Every path of the route matches some rule; no path of it matches any. *)
Definition covered (r : route) : bool :=
  existsb (λ rule, bool_decide (rule_method rule = r_method r) && special_case (drop 2 (r_segs r)) (rule_segs rule)) AuditLog.custom_routes.
Definition uncovered (r : route) : bool :=
  forallb (λ rule, negb (bool_decide (rule_method rule = r_method r) && overlap (drop 2 (r_segs r)) (rule_segs rule))) AuditLog.custom_routes.

Definition under_custom (r : route) : bool :=
  match r_segs r with
  | AuditLog.Lit a :: AuditLog.Lit b :: _ :: _ => bool_decide (a = "api" ∧ b = "custom")
  | _ => false
  end.

Lemma special_case_ok l k p : special_case l k = true → AuditLog.segs_ok l p = true → AuditLog.segs_ok k p = true.
Proof.
  revert k p. induction l as [|a l IH]; intros [|b k] [|x p]; try done. simpl.
  intros [Hb Hs]%andb_true_iff [Ha Hl]%andb_true_iff. rewrite (IH k p) // andb_true_r.
  destruct b; [|done]. by apply bool_decide_eq_true in Hb as ->.
Qed.

Lemma under_custom_path r parts : under_custom r = true → AuditLog.segs_ok (r_segs r) parts = true → ∃ x p,
  parts = "api" :: "custom" :: x :: p ∧ AuditLog.segs_ok (drop 2 (r_segs r)) (x :: p) = true.
Proof.
  unfold under_custom. destruct (r_segs r) as [|[a|] [|[b|] [|c l]]]; try done. intros [-> ->]%bool_decide_eq_true.
  destruct parts as [|x [|y [|z p]]]; try done; simpl.
  - intros [_ H]%andb_true_iff. done.
  - intros [_ [_ H]%andb_true_iff]%andb_true_iff. done.
  - intros [->%bool_decide_eq_true [->%bool_decide_eq_true H]%andb_true_iff]%andb_true_iff. eauto.
Qed.

(** The rule the middleware finds for the segments after /api/custom. *)
Lemma match_rule method path x p : AuditLog.mutating method = true → AuditLog.splitPath path = "api" :: "custom" :: x :: p →
  AuditLog.MatchCustomRoute method path = None ↔
  ∀ rule, rule ∈ AuditLog.custom_routes → rule_method rule = method → AuditLog.segs_ok (rule_segs rule) (x :: p) = false.
Proof.
  intros Hm Hp. unfold AuditLog.MatchCustomRoute. rewrite Hm Hp. cbn [negb].
  case_decide as Hd; [clear Hd|by destruct Hd].
  generalize AuditLog.custom_routes. intros rules. induction rules as [|[[m segs] ev] rules IH].
  - split; [|done]. intros _ rule Hr. by apply elem_of_nil in Hr.
  - cbn [List.find]. destruct (bool_decide (m = method) && AuditLog.segs_ok segs (x :: p)) eqn:Hr.
    + apply andb_true_iff in Hr as [->%bool_decide_eq_true Hr]. destruct ev as [[action ty] res]. split; [done|].
      intros H. by rewrite (H (method, segs, (action, ty, res)) ltac:(by left) eq_refl) in Hr.
    + rewrite IH. split.
      * intros H rule [->|Hin]%elem_of_cons Hme; [|by apply H]. cbn in Hme. subst m. rewrite bool_decide_eq_true_2 // in Hr.
      * intros H rule Hin. apply H. by right.
Qed.

Lemma coverage_table : forallb (λ r, negb (AuditLog.mutating (r_method r)) ||
  (under_custom r && if unmatched r then uncovered r else covered r)) routes = true.
Proof. vm_compute. reflexivity. Qed.

(** Which changes the middleware of the audit log records: of the requests that change
    something, exactly those of the routes listed as unmatched go by without an event of
    the middleware, whatever the path. *)
Theorem audit_coverage method path r : dispatch method path = Some r → AuditLog.mutating method = true →
  (AuditLog.MatchCustomRoute method path = None ↔ unmatched r = true).
Proof.
  intros (Hin & Hme & Hs)%dispatch_matches Hm. rewrite (mutating_served _ Hm) in Hme. subst method. apply (routes_forall _ coverage_table) in Hin. rewrite Hm in Hin.
  apply andb_true_iff in Hin as [Hu Hc]. destruct (under_custom_path _ _ Hu Hs) as (x & p & Hp & Hd).
  rewrite (match_rule _ _ _ _ Hm Hp). destruct (unmatched r); split; try done.
  - intros _ rule Hr Hme. apply list_elem_of_In in Hr. unfold uncovered in Hc. rewrite List.forallb_forall in Hc.
    apply Hc in Hr. rewrite bool_decide_eq_true_2 // in Hr. apply not_true_iff_false. intros Hx.
    by rewrite (overlap_ok _ _ _ Hd Hx) in Hr.
  - intros H. unfold covered in Hc. apply List.existsb_exists in Hc as (rule & Hr & Hx).
    apply andb_true_iff in Hx as [Hme%bool_decide_eq_true Hsp]. apply list_elem_of_In in Hr.
    pose proof (special_case_ok _ _ _ Hsp Hd) as Hx. by rewrite (H _ Hr Hme) in Hx.
Qed.

(** ** Witnesses *)
Definition sync_route : route := custom "POST" [Lit "stacks"; Any; Lit "sync"] (Cap CapOperateStacks).



Lemma audit_coverage_witness : AuditLog.MatchCustomRoute "POST" "/api/custom/stacks/from-compose" = None.
Proof.
  apply (audit_coverage "POST" "/api/custom/stacks/from-compose" (custom "POST" [Lit "stacks"; Lit "from-compose"] (Cap CapManageRepos)));
    vm_compute; reflexivity.
Defined.
