(* ===== verification/Users.v ===== *)
(** * internal/routes/users.go and the user guard of internal/hooks/pb_hooks.go

    Users and their roles: the routes that change a user and oneself, and the hook that
    guards the changes admins make through the API of PocketBase.  The initial admin is
    protected.  A sign-on through the identity provider writes its role over that of the
    user too; the rest of that route is in Identity.  A handler reads the row, decides and saves it later; the functions named
    [..._plan] are the decision.  What is in a row after a save is the parameter
    [save_over] of PbTable. *)
From Stdlib Require Import ZArith.
From S2P Require Import Prelude GoStrings GoValue ComposeDoc PbRecord PbTable Rbac.

Inductive response := Ok (code : Z) | Err (code : Z).

(** [countActiveAdmins], the query of the active admins. *)
Definition active_admin (r : record) : bool := bool_decide (GetString "role" r = RoleAdmin) && negb (GetBool "disabled" r).

Definition countActiveAdmins (find_ok : bool) (users : rows) : option nat :=
  if find_ok then Some (length (List.filter active_admin users)) else None.

(** ** handleUpdateUser *)
Record update_body := { ub_Role : option string; ub_Name : option string; ub_Disabled : option bool }.

Definition last_admin (count : option nat) (ok : record) : response + record :=
  match count with
  | None => inl (Err 500)
  | Some n => if n <=? 1 then inl (Err 409) else inr ok
  end.

Definition update_role (count : option nat) (v : option string) (rec : record) : response + record :=
  match v with
  | None => inr rec
  | Some s =>
      let role := NormalizeRole s in
      if decide (role = "") then inl (Err 400)
      else if GetBool "protected" rec && bool_decide (role ≠ RoleAdmin) then inl (Err 409)
      else if bool_decide (GetString "role" rec = RoleAdmin) && bool_decide (role ≠ RoleAdmin)
      then last_admin count (SetStr "role" role rec)
      else inr (SetStr "role" role rec)
  end.

Definition update_disabled (count : option nat) (v : option bool) (rec : record) : response + record :=
  match v with
  | None => inr rec
  | Some d =>
      if GetBool "protected" rec && d then inl (Err 409)
      else if d && bool_decide (GetString "role" rec = RoleAdmin) then last_admin count (SetBool "disabled" d rec)
      else inr (SetBool "disabled" d rec)
  end.

Definition update_name (v : option string) (rec : record) : record :=
  match v with Some s => SetStr "name" s rec | None => rec end.

(** The decision; the admins are counted once for the role and once for the switch. *)
Definition update_plan (count1 count2 : option nat) (body : option update_body) (rec : record) : response + record :=
  match body with
  | None => inl (Err 400)
  | Some b =>
      match update_role count1 (ub_Role b) (update_name (ub_Name b) rec) with
      | inl r => inl r
      | inr rec => update_disabled count2 (ub_Disabled b) rec
      end
  end.

(** ** handleUpdateSelf *)
Record self_body := { sb_Name : option string; sb_Old : option string; sb_Password : option string; sb_Confirm : option string }.

(** [valid old] is [rec.ValidatePassword(old)], [hashed p] what a password is stored as. *)
Definition self_plan (valid : string → bool) (hashed : string → value) (body : option self_body) (rec : record) : response + record :=
  match body with
  | None => inl (Err 400)
  | Some b =>
      let rec := match sb_Name b with Some s => SetStr "name" s rec | None => rec end in
      match sb_Old b, sb_Password b, sb_Confirm b with
      | None, None, None => inr rec
      | Some old, Some password, Some confirm =>
          if decide (old = "" ∨ password = "" ∨ confirm = "") then inl (Err 400)
          else if decide (password ≠ confirm) then inl (Err 400)
          else if negb (valid old) then inl (Err 400)
          else inr (SetField "password" (hashed password) rec)
      | _, _, _ => inl (Err 400)
      end
  end.

(** ** The guard of the update hook *)
Definition roleChanged (o m : record) : bool := bool_decide (GetString "role" m ≠ GetString "role" o).
Definition disabledChanged (o m : record) : bool := negb (Bool.eqb (GetBool "disabled" m) (GetBool "disabled" o)).

(** Whether [OnRecordUpdateRequest] lets a change of a user from [o] to [m] pass; a count
    that fails does not stop it. *)
Definition hook_allows (isAdmin : bool) (count : option nat) (o m : record) : bool :=
  if roleChanged o m && negb isAdmin then false
  else if GetBool "protected" m && roleChanged o m && bool_decide (GetString "role" m ≠ RoleAdmin) then false
  else if GetBool "protected" m && disabledChanged o m && GetBool "disabled" m then false
  else
    let wasActiveAdmin := active_admin o in
    let isDisablingAdmin := disabledChanged o m && GetBool "disabled" m && wasActiveAdmin in
    let isDemotingAdmin := roleChanged o m && bool_decide (GetString "role" m ≠ RoleAdmin) && wasActiveAdmin in
    if isDisablingAdmin || isDemotingAdmin then match count with Some n => negb (n <=? 1) | None => true end else true.

(** ** The user of a sign-on: [user] after /auth/elevate with the role of the provider. *)
Definition signed_on (role : string) (user : record) : record :=
  SetBool "emailVisibility" true (SetBool "is_sso" true (SetStr "role" role user)).

Section store.
Context (save_over : record → record → record → record).

Definition save_user (ok : bool) (o m : record) (t : rows) : rows :=
  match FindById (Id o) t with
  | Some cur => if ok then upsert (save_over o m cur) t else t
  | None => t
  end.

(** The route with nothing beside it. *)
Definition UpdateUser (find_ok save_ok : bool) (id : string) (body : option update_body) (t : rows) : response * rows :=
  match FindById id t with
  | None => (Err 404, t)
  | Some rec =>
      let count := countActiveAdmins find_ok t in
      match update_plan count count body rec with
      | inl r => (r, t)
      | inr m => (if save_ok then Ok 200 else Err 500, save_user save_ok rec m t)
      end
  end.

(** ** Requests beside each other *)

(** The users, the changes that are decided and not saved, and the sign-ons so far: the user
    and the role each wrote. *)
Record state := { users : rows; inflight : list (record * record); signed : list (string * string) }.

Inductive planned (t : rows) : record → record → Prop :=
| plan_update id c1 c2 body r m : FindById id t = Some r → update_plan c1 c2 body r = inr m → planned t r m
| plan_self id valid hashed body r m : FindById id t = Some r → self_plan valid hashed body r = inr m → planned t r m
| plan_hook id isAdmin count r m : FindById id t = Some r → Id m = Id r → fields m !! "protected" = fields r !! "protected" →
    hook_allows isAdmin count r m = true → planned t r m.

(** Steps: a request reads and decides, a request saves, a user is created under a new id, a
    user signs on, which is one transaction.  Deletions are refused by the hook. *)
Inductive step : state → state → Prop :=
| step_read r m s : planned (users s) r m → step s {| users := users s; inflight := (r, m) :: inflight s; signed := signed s |}
| step_save ok r m l1 l2 s : inflight s = l1 ++ (r, m) :: l2 →
    step s {| users := save_user ok r m (users s); inflight := l1 ++ l2; signed := signed s |}
| step_new rec s : Id rec ∉ ids_of (users s) → step s {| users := upsert rec (users s); inflight := inflight s; signed := signed s |}
| step_sign_on role user s : user ∈ users s → role ≠ "" →
    step s {| users := upsert (signed_on role user) (users s); inflight := inflight s; signed := (Id user, role) :: signed s |}.
End store.

Lemma NoDup_ids_filter f t : NoDup (ids_of t) → NoDup (ids_of (List.filter f t)).
Proof.
  unfold ids_of. induction t as [|r t IH]; [done|]. cbn [fmap list_fmap List.filter]. rewrite NoDup_cons. intros [Hr Ht].
  destruct (f r); [|by apply IH]. cbn [fmap list_fmap]. apply NoDup_cons. split; [|by apply IH]. intros Hx. apply Hr. apply list_elem_of_fmap in Hx as (y & -> & Hy).
  apply list_elem_of_In, List.filter_In in Hy as [Hy _]. apply list_elem_of_fmap_2. by apply list_elem_of_In.
Qed.

(** ** The initial admin *)

(** Protected, admin and enabled. *)
Definition initial (r : record) : Prop :=
  GetBool "protected" r = true ∧ GetString "role" r = RoleAdmin ∧ GetBool "disabled" r = false.

(** Protected, enabled, and an admin unless the role is one of [R]. *)
Definition initial_but (R : string → Prop) (r : record) : Prop :=
  GetBool "protected" r = true ∧ (GetString "role" r = RoleAdmin ∨ R (GetString "role" r)) ∧ GetBool "disabled" r = false.

Lemma initial_set R k v r : k ≠ "protected" → k ≠ "role" → k ≠ "disabled" → initial_but R r → initial_but R (SetField k v r).
Proof.
  intros H1 H2 H3 (I1 & I2 & I3). unfold initial_but. by rewrite !GetBool_SetField_ne // GetString_SetField_ne.
Qed.

Lemma update_plan_initial R c1 c2 body r m : update_plan c1 c2 body r = inr m → initial_but R r → initial_but R m ∧ Id m = Id r.
Proof.
  unfold update_plan. destruct body as [b|]; [|done]. intros Hp Hi.
  assert (initial_but R (update_name (ub_Name b) r) ∧ Id (update_name (ub_Name b) r) = Id r) as [Hn Hid].
  { unfold update_name. destruct (ub_Name b); [split; [by apply initial_set|done]|done]. }
  destruct (update_role c1 (ub_Role b) _) as [|r1] eqn:H1; [done|].
  assert (initial_but R r1 ∧ Id r1 = Id r) as [Hr1 Hid1].
  { unfold update_role in H1. destruct (ub_Role b) as [s|]; [|by simplify_eq]. case_decide; [done|].
    rewrite (proj1 Hn) in H1. destruct (decide (NormalizeRole s = RoleAdmin)) as [Hs|Hs].
    - rewrite Hs (bool_decide_eq_false_2 (RoleAdmin ≠ RoleAdmin)) in H1; [|by intros ?]. rewrite !andb_false_r in H1. simplify_eq. split; [|done]. destruct Hn as (I1 & I2 & I3). split_and!; [by field_simpl|left; by field_simpl|by field_simpl].
    - by rewrite bool_decide_eq_true_2 in H1. }
  unfold update_disabled in Hp. destruct (ub_Disabled b) as [d|]; [|by simplify_eq]. rewrite (proj1 Hr1) in Hp.
  destruct d; simpl in Hp; [done|]. simplify_eq. split; [|done]. destruct Hr1 as (I1 & I2 & I3). unfold initial_but. field_simpl. by split_and!.
Qed.

Lemma self_plan_initial R valid hashed body r m : self_plan valid hashed body r = inr m → initial_but R r → initial_but R m ∧ Id m = Id r.
Proof.
  unfold self_plan. intros Hp Hi. repeat (case_match; try done); simplify_eq; (split; [|done]); repeat apply initial_set; done.
Qed.

Lemma hook_initial R isAdmin count r m : fields m !! "protected" = fields r !! "protected" → hook_allows isAdmin count r m = true →
  initial_but R r → initial_but R m.
Proof.
  intros Hf Hh (I1 & I2 & I3). assert (GetBool "protected" m = true) as Hp by (unfold GetBool in *; by rewrite Hf).
  unfold hook_allows in Hh. rewrite Hp in Hh. destruct (roleChanged r m && negb isAdmin); [done|].
  destruct (true && roleChanged r m && _) eqn:H1; [done|]. destruct (true && disabledChanged r m && _) eqn:H2; [done|].
  split_and!; [done| |].
  - simpl in H1. unfold roleChanged in H1. destruct (decide (GetString "role" m = GetString "role" r)) as [->|Hne]; [done|].
    rewrite bool_decide_eq_true_2 // in H1. left. by apply bool_decide_eq_false, dec_stable in H1.
  - apply not_true_iff_false. intros Hd. simpl in H2. unfold disabledChanged in H2. by rewrite Hd I3 in H2.
Qed.

Lemma planned_initial R t r m : planned t r m → initial_but R r → initial_but R m ∧ Id m = Id r.
Proof.
  intros [id c1 c2 body r0 m0 _ Hp|id valid hashed body r0 m0 _ Hp|id isAdmin count r0 m0 _ Hid Hf Hh] Hi.
  - by eapply update_plan_initial.
  - by eapply self_plan_initial.
  - split; [by eapply hook_initial|done].
Qed.

Lemma planned_row t r m : planned t r m → r ∈ t ∧ Id m = Id r.
Proof.
  intros [id c1 c2 body r0 m0 Hf Hp|id valid hashed body r0 m0 Hf Hp|id isAdmin count r0 m0 Hf Hid _ _];
    (split; [by apply FindById_Some in Hf as [? _]|]); [| |done].
  - unfold update_plan, update_role, update_disabled, update_name, last_admin in Hp. repeat (case_match; simplify_eq; try done).
  - unfold self_plan in Hp. repeat (case_match; simplify_eq; try done).
Qed.

Section initial_admin.
Context (save_over : record → record → record → record) (Hsave : save_spec save_over).

Lemma save_over_initial R o m c : initial_but R m → initial_but R c → initial_but R (save_over o m c).
Proof.
  unfold initial_but, GetBool, GetString. intros (M1 & M2 & M3) (C1 & C2 & C3). split_and!.
  - by apply (save_over_field _ Hsave "protected" (λ x, match x with Some (VBool b) => b | _ => false end = true)).
  - by apply (save_over_field _ Hsave "role" (λ x, let s := match x with Some (VStr s) => s | Some (VNum t) => t
      | Some (VBool b) => if b then "true" else "false" | _ => "" end in s = RoleAdmin ∨ R s)).
  - by apply (save_over_field _ Hsave "disabled" (λ x, match x with Some (VBool b) => b | _ => false end = false)).
Qed.

Lemma initial_more (R R' : string → Prop) r : (∀ x, R x → R' x) → initial_but R r → initial_but R' r.
Proof. intros HR (I1 & [I2|I2] & I3); split_and!; auto. Qed.

(** The user [id] exists and, in the table and in what is to be saved, is protected and
    enabled and has the role of an admin or of a sign-on of its own. *)
Definition reigns (id : string) (s : state) : Prop :=
  id ∈ ids_of (users s) ∧ (∀ r, r ∈ users s → Id r = id → initial_but (λ role, (id, role) ∈ signed s) r) ∧
  (∀ r m, (r, m) ∈ inflight s → Id m = Id r ∧ (Id m = id → initial_but (λ role, (id, role) ∈ signed s) m)).

Lemma reigns_step id s s' : step save_over s s' → reigns id s → reigns id s'.
Proof.
  intros [r m s0 Hp|ok r m l1 l2 s0 Hl|rec s0 Hn|role user s0 Hus Hro] (Hin & Hu & Hf); unfold reigns; simpl.
  - destruct (planned_row _ _ _ Hp) as [Hr Hid]. split_and!; [done|done|].
    intros r' m' [Hx|Hx]%elem_of_cons; [|by apply (Hf r' m')]. simplify_eq. split; [done|]. intros Hm.
    eapply planned_initial; [done|]. apply Hu; [done|congruence].
  - assert (∀ r' m', (r', m') ∈ l1 ++ l2 → Id m' = Id r' ∧ (Id m' = id → initial_but (λ role, (id, role) ∈ signed s0) m')) as Hrest.
    { intros r' m' Hx. apply (Hf r' m'). rewrite Hl. set_solver. }
    unfold save_user. destruct (FindById (Id r) (users s0)) as [cur|] eqn:Hc; [|done]. destruct ok; [|done].
    apply FindById_Some in Hc as [Hc Hcid]. destruct (Hf r m) as [Hid Hm]; [rewrite Hl; set_solver|].
    split_and!; [apply ids_upsert; by right| |done].
    intros x [->|[Hx _]]%elem_of_upsert Hxid; [|by apply Hu]. rewrite (save_over_Id _ Hsave) in Hxid.
    apply save_over_initial; [by apply Hm|]. apply Hu; [done|congruence].
  - split_and!; [apply ids_upsert; by right| |done]. intros x [->|[Hx _]]%elem_of_upsert Hxid; [by subst|by apply Hu].
  - assert (∀ r, initial_but (λ role, (id, role) ∈ signed s0) r → initial_but (λ role0, (id, role0) ∈ (Id user, role) :: signed s0) r) as Hmore
      by (intros r; apply initial_more; intros x Hx; by right).
    split_and!; [apply ids_upsert; by right| |].
    + intros x [->|[Hx _]]%elem_of_upsert Hxid; [|by apply Hmore, Hu]. change (Id user = id) in Hxid.
      destruct (Hu user Hus Hxid) as (I1 & _ & I3). unfold signed_on, initial_but. subst id. split_and!; [by field_simpl|right; field_simpl; left|by field_simpl].
    + intros r m Hx. destruct (Hf r m Hx) as [Hid Hm]. split; [done|]. intros Hxid. by apply Hmore, Hm.
Qed.

(** C22: The initial admin stays: however changes of users through the route, of one's own
    account, through the API of PocketBase without touching the mark itself, sign-ons
    through the identity provider and new users are interleaved, the protected user
    remains, protected and enabled; it remains an admin unless a sign-on as this user
    wrote its role, and then it is an admin or has a role such a sign-on wrote. *)
Theorem initial_admin_stays id t s : id ∈ ids_of t → (∀ r, r ∈ t → Id r = id → initial r) →
  rtc (step save_over) {| users := t; inflight := []; signed := [] |} s →
  id ∈ ids_of (users s) ∧ ∀ r, r ∈ users s → Id r = id →
    GetBool "protected" r = true ∧ GetBool "disabled" r = false ∧ (GetString "role" r = RoleAdmin ∨ (id, GetString "role" r) ∈ signed s).
Proof.
  intros Hin Hi Hs. assert (reigns id s) as (H1 & H2 & _).
  { assert (reigns id {| users := t; inflight := []; signed := [] |}) as H0.
    { split_and!; [done| |by intros ? ? ?%elem_of_nil]. intros r Hr Hid. destruct (Hi r Hr Hid) as (I1 & I2 & I3). split_and!; auto. }
    clear Hin Hi. induction Hs; eauto using reigns_step. }
  split; [done|]. intros r Hr Hid. destruct (H2 r Hr Hid) as (I1 & I2 & I3). by split_and!.
Qed.

(** ** The last active admin *)
Lemma active_upsert t rec : NoDup (ids_of t) → 2 ≤ length (List.filter active_admin t) →
  1 ≤ length (List.filter active_admin (upsert rec t)).
Proof.
  intros Hn Hc. destruct (List.filter active_admin t) as [|x [|y l]] eqn:Hf; simpl in Hc; [lia|lia|].
  assert (∃ z, z ∈ t ∧ active_admin z = true ∧ Id z ≠ Id rec) as (z & Hz & Ha & Hne).
  { assert (x ∈ t ∧ active_admin x = true) as [Hx Hax].
    { assert (In x (List.filter active_admin t)) as Hi by (rewrite Hf; by left). apply List.filter_In in Hi. by rewrite list_elem_of_In. }
    assert (y ∈ t ∧ active_admin y = true) as [Hy Hay].
    { assert (In y (List.filter active_admin t)) as Hi by (rewrite Hf; right; by left). apply List.filter_In in Hi. by rewrite list_elem_of_In. }
    destruct (decide (Id x = Id rec)) as [He|He]; [|by exists x]. exists y. split_and!; [done|done|]. rewrite -He. intros Hxy.
    assert (NoDup (ids_of (List.filter active_admin t))) as Hnf by (by apply NoDup_ids_filter).
    rewrite Hf in Hnf. unfold ids_of in Hnf. cbn in Hnf. apply NoDup_cons in Hnf as [Hnf _]. apply Hnf. rewrite -Hxy. by left. }
  assert (In z (List.filter active_admin (upsert rec t))) as Hi.
  { apply List.filter_In. split; [|done]. apply list_elem_of_In, elem_of_upsert. by right. }
  destruct (List.filter active_admin (upsert rec t)); [done|]. simpl. lia.
Qed.

Lemma active_filter_upsert t m r : FindById (Id m) t = Some r → NoDup (ids_of t) → (active_admin r = true → active_admin m = true) →
  1 ≤ length (List.filter active_admin t) → 1 ≤ length (List.filter active_admin (upsert m t)).
Proof.
  intros Hf Hn Ham Hc. destruct (List.filter active_admin t) as [|x l] eqn:Hl; [simpl in Hc; lia|].
  assert (In x (List.filter active_admin t)) as Hx by (rewrite Hl; by left). apply List.filter_In in Hx as [Hx Hax].
  apply list_elem_of_In in Hx.
  assert (∃ z, z ∈ upsert m t ∧ active_admin z = true) as (z & Hz & Ha).
  { destruct (decide (Id x = Id m)) as [He|He]; [|exists x; split; [apply elem_of_upsert; by right|done]].
    exists m. split; [apply elem_of_upsert; by left|]. apply Ham. apply FindById_Some in Hf as [Hr Hid].
    assert (x = r) as ->; [|done]. apply (NoDup_ids_inj t); [done..|congruence]. }
  assert (In z (List.filter active_admin (upsert m t))) as Hi by (apply List.filter_In; split; [by apply list_elem_of_In|done]).
  destruct (List.filter active_admin (upsert m t)); [done|]. simpl. lia.
Qed.

(** The decision takes the right of an admin away only if there is another. *)
Lemma update_plan_admin n body r m : update_plan (Some n) (Some n) body r = inr m → Id m = Id r ∧
  (active_admin r = true → active_admin m = true ∨ 2 ≤ n).
Proof.
  unfold update_plan. destruct body as [b|]; [|done]. intros Hp.
  destruct (update_role _ (ub_Role b) _) as [|r1] eqn:H1; [done|].
  assert (Id r1 = Id r ∧ (2 ≤ n ∨ (GetString "role" r = RoleAdmin → GetString "role" r1 = RoleAdmin)) ∧ GetBool "disabled" r1 = GetBool "disabled" r)
    as (Hid & Hr & Hd).
  { assert (∀ k, k ≠ "name" → fields (update_name (ub_Name b) r) !! k = fields r !! k) as Hk.
    { intros k Hk. unfold update_name. destruct (ub_Name b); [|done]. by field_simpl. }
    assert (GetString "role" (update_name (ub_Name b) r) = GetString "role" r ∧
            GetBool "disabled" (update_name (ub_Name b) r) = GetBool "disabled" r ∧ Id (update_name (ub_Name b) r) = Id r) as (K1 & K2 & K3).
    { unfold GetString, GetBool. rewrite !Hk //. split_and!; [done..|]. unfold update_name. by destruct (ub_Name b). }
    unfold update_role, last_admin in H1. destruct (ub_Role b) as [s|]; [|simplify_eq; split_and!; [done|right; by rewrite K1|done]].
    case_decide; [done|]. destruct (GetBool "protected" _ && _); [done|].
    destruct (bool_decide (GetString "role" _ = RoleAdmin) && _) eqn:Hb.
    - destruct (n <=? 1) eqn:Hn; [done|]. apply Nat.leb_gt in Hn. simplify_eq. split_and!; [done|left; lia|by field_simpl].
    - simplify_eq. split_and!; [done| |by field_simpl]. right. intros Hx. rewrite K1 Hx in Hb. simpl in Hb.
      apply bool_decide_eq_false, dec_stable in Hb. by field_simpl. }
  assert (Id m = Id r ∧ GetString "role" m = GetString "role" r1 ∧ (GetBool "disabled" m = GetBool "disabled" r1 ∨ GetBool "disabled" m = false ∨ 2 ≤ n ∨
    GetString "role" r1 ≠ RoleAdmin)) as (Hid2 & Hr2 & Hd2).
  { unfold update_disabled, last_admin in Hp. destruct (ub_Disabled b) as [d|]; [|simplify_eq; tauto].
    destruct (GetBool "protected" r1 && d); [done|]. destruct (d && bool_decide _) eqn:Hb.
    - destruct (n <=? 1) eqn:Hn; [done|]. apply Nat.leb_gt in Hn. simplify_eq. split_and!; [done|by field_simpl|right; right; left; lia].
    - simplify_eq. split_and!; [done|by field_simpl|]. apply andb_false_iff in Hb as [->|Hb%bool_decide_eq_false]; [right; left; by field_simpl|by do 3 right]. }
  split; [done|]. unfold active_admin. rewrite !andb_true_iff !bool_decide_eq_true !negb_true_iff. intros [Ha1 Ha2].
  destruct Hr as [Hr|Hr]; [by right|]. specialize (Hr Ha1). rewrite Hr2 Hr. destruct Hd2 as [Hd2|[Hd2|[Hd2|Hd2]]]; [left|left|by right|done].
  - by rewrite Hd2 Hd Ha2.
  - by rewrite Hd2.
Qed.

(** With no count it never does. *)
Lemma update_plan_unknown body r m : update_plan None None body r = inr m → Id m = Id r ∧ (active_admin r = true → active_admin m = true).
Proof.
  intros Hp. assert (update_plan (Some 0) (Some 0) body r = inr m) as Hp'.
  { unfold update_plan, update_role, update_disabled, last_admin in *. destruct body; [|done].
    repeat (case_match; simplify_eq; try done). }
  apply update_plan_admin in Hp' as [Hid Ha]. split; [done|]. intros [Hm|Hm]%Ha; [done|lia].
Qed.

(** One request after the other, the route that changes users never removes the last
    active admin. *)
Theorem last_admin_stays find_ok save_ok id body t : NoDup (ids_of t) → 1 ≤ length (List.filter active_admin t) →
  1 ≤ length (List.filter active_admin (UpdateUser save_over find_ok save_ok id body t).2).
Proof.
  intros Hn Hc. unfold UpdateUser. destruct (FindById id t) as [r|] eqn:Hf; [|done].
  pose proof (FindById_Some _ _ _ Hf) as [_ Hid]. subst id.
  destruct (update_plan _ _ body r) as [x|m] eqn:Hp; [done|]. simpl. unfold save_user. rewrite Hf. destruct save_ok; [|done].
  rewrite (save_over_same _ Hsave). unfold countActiveAdmins in Hp. destruct find_ok.
  - destruct (update_plan_admin _ _ _ _ Hp) as [Hid Ha]. destruct (active_admin r) eqn:Har.
    + destruct (Ha eq_refl) as [Hm|Hm]; [|by apply active_upsert]. apply (active_filter_upsert t m r); [by rewrite Hid|done..].
    + apply (active_filter_upsert t m r); [by rewrite Hid|done|by rewrite Har|done].
  - destruct (update_plan_unknown _ _ _ Hp) as [Hid Ha]. apply (active_filter_upsert t m r); [by rewrite Hid|done..].
Qed.
End initial_admin.

(** ** Where the guards end *)
Definition admin_row (id : string) (protected : bool) : record :=
  SetBool "protected" protected (SetStr "role" RoleAdmin {| Id := id; fields := ∅ |}).

(** The hook looks at the mark of the changed record, so a change that also takes the
    mark away demotes and disables the initial admin while another admin is active. *)
Theorem hook_mark_can_be_removed : let o := admin_row "u1" true in
  let m := SetBool "protected" false (SetBool "disabled" true (SetStr "role" RoleViewer o)) in
  hook_allows true (Some 2) o m = true ∧ initial o ∧ active_admin m = false.
Proof. by vm_compute. Qed.

Definition disable_body : option update_body := Some {| ub_Role := None; ub_Name := None; ub_Disabled := Some true |}.

(** The count is taken before the save: two requests that disable the only two admins
    beside each other both pass, and no active admin is left. *)
Theorem concurrent_removals_leave_none : let a := admin_row "u1" false in let b := admin_row "u2" false in
  ∃ s, rtc (step save_all) {| users := [a; b]; inflight := []; signed := [] |} s ∧ List.filter active_admin (users s) = [].
Proof.
  intros a b. eexists. split.
  - eapply rtc_l; [apply (step_read save_all a (SetBool "disabled" true a))|].
    { eapply (plan_update _ "u1" (Some 2) (Some 2) disable_body); reflexivity. }
    eapply rtc_l; [apply (step_read save_all b (SetBool "disabled" true b))|].
    { eapply (plan_update _ "u2" (Some 2) (Some 2) disable_body); reflexivity. }
    eapply rtc_l; [apply (step_save save_all true a (SetBool "disabled" true a) [(b, SetBool "disabled" true b)] []); reflexivity|].
    eapply rtc_l; [apply (step_save save_all true b (SetBool "disabled" true b) [] []); reflexivity|]. apply rtc_refl.
  - reflexivity.
Qed.

(** ** Witnesses *)
Lemma initial_admin_stays_witness : active_admin (SetBool "disabled" true (admin_row "u2" false)) = false ∧
  ∀ r, r ∈ [admin_row "u1" true; SetBool "disabled" true (admin_row "u2" false)] → Id r = "u1" → GetString "role" r = RoleAdmin.
Proof.
  split; [vm_compute; reflexivity|]. intros r Hr Hid.
  destruct (initial_admin_stays save_all save_all_spec "u1" [admin_row "u1" true; admin_row "u2" false]
    {| users := [admin_row "u1" true; SetBool "disabled" true (admin_row "u2" false)]; inflight := []; signed := [] |}) as [_ H].
  - left.
  - clear r Hr Hid. intros r Hr Hid. apply elem_of_cons in Hr as [->|Hr]; [by vm_compute|]. apply list_elem_of_singleton in Hr as ->. discriminate.
  - eapply rtc_l; [apply (step_read save_all (admin_row "u2" false) (SetBool "disabled" true (admin_row "u2" false)))|].
    { eapply (plan_update _ "u2" (Some 2) (Some 2) disable_body); reflexivity. }
    eapply rtc_l; [apply (step_save save_all true (admin_row "u2" false) (SetBool "disabled" true (admin_row "u2" false)) [] []); reflexivity|].
    apply rtc_refl.
  - destruct (H r Hr Hid) as (_ & _ & [Hro|Hsi]); [done|]. by apply elem_of_nil in Hsi.
Defined.

Lemma last_admin_stays_witness :
  (UpdateUser save_all true true "u1" disable_body [admin_row "u1" false]).1 = Err 409 ∧
  1 ≤ length (List.filter active_admin (UpdateUser save_all true true "u1" disable_body [admin_row "u1" false; admin_row "u2" false]).2).
Proof.
  split; [vm_compute; reflexivity|]. apply (last_admin_stays save_all save_all_spec).
  - apply (bool_decide_unpack _). vm_compute. exact I.
  - vm_compute. lia.
Defined.
