(* ===== verification/Identity.v ===== *)
(** * Invitations, first set-up, single sign-on and superusers

    internal/routes/users.go (invitations), internal/routes/setup.go and
    internal/setup/service.go, the route /auth/elevate of internal/routes/auth.go and
    [syncSuperusers] of cmd/serve.go: the ways an account comes into being or changes
    its role without an admin changing it.  The collection of users keeps e-mail
    addresses unique.  At the end, the rate limiter of /auth/elevate: requests per address
    in a sliding window, with a goroutine that drops the addresses whose requests are all
    old, and the address a request counts for. *)
From Stdlib Require Import ZArith.
From S2P Require Import Prelude GoStrings GoValue ComposeDoc PbRecord PbTable Rbac Crypto Users.
From S2P Require AuditLog.

Record db := { users : rows; invites : rows; sso_users : rows; superusers : rows }.

Definition set_users (t : rows) (d : db) : db :=
  {| users := t; invites := invites d; sso_users := sso_users d; superusers := superusers d |}.
Definition set_invites (t : rows) (d : db) : db :=
  {| users := users d; invites := t; sso_users := sso_users d; superusers := superusers d |}.
Definition set_sso (t : rows) (d : db) : db :=
  {| users := users d; invites := invites d; sso_users := t; superusers := superusers d |}.
Definition set_superusers (t : rows) (d : db) : db :=
  {| users := users d; invites := invites d; sso_users := sso_users d; superusers := t |}.

(** What a request meets outside: the clock, the calls that succeed, random bytes and the
    ids of new rows. *)
Record calls := {
  now : Z; find_users : bool; find_invites : bool; find_collection : bool; save_user : bool; save_invite : bool; mail : bool;
  random : option string; new_id : string }.

Definition hours24 : Z := 86400000000000.

Definition with_email (email : string) (t : rows) : rows := FindAll "email" email t.

(** A save of a new user; the index of the addresses refuses a second one. *)
Definition create_user (ok : bool) (rec : record) (t : rows) : option rows :=
  if ok && bool_decide (with_email (GetString "email" rec) t = []) then Some (upsert rec t) else None.

Section identity.
(** What a password is stored as. *)
Context (hashed : string → value).

(** ** Invitations *)
Definition generateSecureToken (c : calls) : option string := hex_encode <$> random c.

Record invite_body := { ib_Email : string; ib_Role : string; ib_Delivery : string }.

Definition handleCreateInvite (c : calls) (creator : option auth_record) (body : option invite_body) (d : db) : response * db :=
  match body with
  | None => (Err 400, d)
  | Some b =>
      if decide (ib_Email b = "") then (Err 400, d)
      else
        let role := NormalizeRole (ib_Role b) in
        if decide (role = "") then (Err 400, d)
        else
          let delivery := if decide (ib_Delivery b = "") then "email" else ib_Delivery b in
          if decide (delivery ≠ "email" ∧ delivery ≠ "link") then (Err 400, d)
          else if find_users c && bool_decide (with_email (ib_Email b) (users d) ≠ []) then (Err 409, d)
          else match generateSecureToken c with
          | None => (Err 500, d)
          | Some token =>
              if negb (find_collection c) then (Err 500, d)
              else
                let invite := SetBool "used" false (SetField "expires_at" (date_value (now c + hours24)) (SetStr "token" token
                  (SetStr "role" role (SetStr "email" (ib_Email b) {| Id := new_id c; fields := ∅ |})))) in
                let invite := match creator with Some a => SetStr "created_by" (a_id a) invite | None => invite end in
                if negb (save_invite c) then (Err 500, d)
                else if decide (delivery = "link") then (Ok 200, set_invites (upsert invite (invites d)) d)
                else if mail c then (Ok 200, set_invites (upsert invite (invites d)) d)
                else (Err 500, d)
          end
  end.

(** The invitation of a token, or the answer. *)
Definition find_invite (c : calls) (token : string) (d : db) : response + record :=
  if negb (find_invites c) then inl (Err 404)
  else match FindAll "token" token (invites d) with
  | [] => inl (Err 404)
  | invite :: _ =>
      if GetBool "used" invite then inl (Err 404)
      else if (GetDateTime "expires_at" invite <? now c)%Z then inl (Err 410)
      else inr invite
  end.

Definition handleValidateInvite (c : calls) (token : string) (d : db) : response :=
  if decide (token = "") then Err 400 else match find_invite c token d with inl r => r | inr _ => Ok 200 end.

Record accept_body := { ab_Token : string; ab_Password : string; ab_Confirm : string }.

Definition mark_used (c : calls) (invite : record) (d : db) : db :=
  if save_invite c then set_invites (upsert (SetBool "used" true invite) (invites d)) d else d.

Definition invited_user (c : calls) (invite : record) (password : string) : record :=
  SetBool "verified" true (SetStr "role" (MustNormalizeRole (GetString "role" invite)) (SetField "password" (hashed password)
    (SetStr "email" (GetString "email" invite) {| Id := new_id c; fields := ∅ |}))).

Definition handleAcceptInvite (c : calls) (body : option accept_body) (d : db) : response * db :=
  match body with
  | None => (Err 400, d)
  | Some b =>
      if decide (ab_Token b = "" ∨ ab_Password b = "" ∨ ab_Confirm b = "") then (Err 400, d)
      else if decide (ab_Password b ≠ ab_Confirm b) then (Err 400, d)
      else match find_invite c (ab_Token b) d with
      | inl r => (r, d)
      | inr invite =>
          if find_users c && bool_decide (with_email (GetString "email" invite) (users d) ≠ []) then (Err 409, mark_used c invite d)
          else if negb (find_collection c) then (Err 500, d)
          else match create_user (save_user c) (invited_user c invite (ab_Password b)) (users d) with
          | None => (Err 500, d)
          | Some t => (Ok 201, mark_used c invite (set_users t d))
          end
      end
  end.

(** ** The first set-up *)
Definition DefaultInstallerEmail := "__pbinstaller@example.com".

Definition CountRealUsers (d : db) : nat := length (filter (λ r, GetString "email" r ≠ DefaultInstallerEmail) (users d)).

Definition initial_user (c : calls) (email password : string) : record :=
  SetBool "protected" true (SetBool "verified" true (SetStr "role" RoleAdmin (SetField "password" (hashed password)
    (SetStr "email" email {| Id := new_id c; fields := ∅ |})))).

Inductive setup_error := ErrSetupAlreadyDone | ErrBootstrapFailed.

(** [CreateInitialAdmin]: one transaction under the mutex of the package; [super] says
    whether the superuser can be saved. *)
Definition CreateInitialAdmin (c : calls) (super : bool) (super_id email password : string) (d : db) : option setup_error * db :=
  if negb (find_users c) then (Some ErrBootstrapFailed, d)
  else if decide (0 < CountRealUsers d) then (Some ErrSetupAlreadyDone, d)
  else if negb (find_collection c) then (Some ErrBootstrapFailed, d)
  else
    let user := initial_user c email password in
    match create_user (save_user c) user (users d) with
    | None => (Some ErrBootstrapFailed, d)
    | Some t =>
        let su := SetField "password" (hashed password) (SetBool "verified" true (SetStr "email" email {| Id := super_id; fields := ∅ |})) in
        if super then (None, set_superusers (upsert su (superusers d)) (set_users t d)) else (Some ErrBootstrapFailed, d)
    end.

Record setup_body := { su_Email : string; su_Password : string; su_Token : string }.

(** The route up to the transaction: the checks of the body, of the status at this moment
    and of the token of the environment.  [valid_email] is [mail.ParseAddress]. *)
Definition setup_admitted (valid_email : string → bool) (status_ok : bool) (BOOTSTRAP_TOKEN : string) (body : option setup_body) (d : db) : bool :=
  match body with
  | None => false
  | Some b =>
      negb (bool_decide (su_Email b = "" ∨ su_Password b = "" ∨ su_Token b = "")) && valid_email (su_Email b) &&
      (8 <=? String.length (su_Password b)) && status_ok && bool_decide (CountRealUsers d = 0) &&
      bool_decide (BOOTSTRAP_TOKEN ≠ "") && bool_decide (su_Token b = BOOTSTRAP_TOKEN)
  end.

(** ** Single sign-on *)

(** [FindAuthRecordByToken] as the collection and the id of the record of a valid token. *)
Context (token_record : string → option (string * string)).

Inductive elevate_error := InvalidToken | AlreadyConsumed | NoEmail | NoUser | RoleEmpty | TxFailed.

Definition set_if (b : bool) (f : record → record) (r : record) : record := if b then f r else r.

(** The transaction of /auth/elevate: the id of the user the new token is for. *)
Definition elevate (c : calls) (token : string) (d : db) : (elevate_error + string) * db :=
  match token_record token with
  | None => (inl InvalidToken, d)
  | Some (collection, id) =>
      if decide (collection ≠ "sso_users") then (inl InvalidToken, d)
      else match FindById id (sso_users d) with
      | None => (inl InvalidToken, d)
      | Some sso =>
          if GetBool "elevate_consumed" sso then (inl AlreadyConsumed, d)
          else
            let email := GetString "email" sso in
            if decide (email = "") then (inl NoEmail, d)
            else
              let role := GetString "role" sso in
              if decide (role = "") then (inl RoleEmpty, d)
              else
                let found := if find_users c then with_email email (users d) else [] in
                match found with
                | [] =>
                    let user := SetBool "emailVisibility" true (SetBool "is_sso" true (SetStr "role" role
                      (SetBool "verified" true (SetStr "email" email {| Id := new_id c; fields := ∅ |})))) in
                    match create_user (find_collection c && save_user c) user (users d) with
                    | None => (inl NoUser, d)
                    | Some t => (inr (new_id c), set_sso (upsert (SetBool "verified" false (SetBool "elevate_consumed" true sso)) (sso_users d)) (set_users t d))
                    end
                | user :: _ =>
                    let user' := signed_on role user in
                    let needsSave := bool_decide (GetString "role" user ≠ role) || negb (GetBool "is_sso" user) || negb (GetBool "emailVisibility" user) in
                    if needsSave && negb (save_user c) then (inl TxFailed, d)
                    else
                      let t := if needsSave then upsert user' (users d) else users d in
                      (inr (Id user), set_sso (upsert (SetBool "verified" false (SetBool "elevate_consumed" true sso)) (sso_users d)) (set_users t d))
                end
      end
  end.
End identity.

(** ** Superusers *)

(** [validAdmins]: the active admins by address; [range] goes through the map in any order. *)
Definition validAdmins (t : rows) : gmap string record :=
  foldl (λ m u, if decide (GetString "email" u = "") then m else <[GetString "email" u := u]> m) ∅ (List.filter active_admin t).

(** The superuser of an admin: the row of the address, or a new one, with the password and
    the token key of the admin. *)
Definition sync_one (new_id : string → string) (u : record) (t : rows) : rows :=
  let email := GetString "email" u in
  let su := default (SetStr "email" email {| Id := new_id email; fields := ∅ |}) (head (with_email email t)) in
  if decide (GetString "password:hash" su = GetString "password:hash" u ∧ GetString "tokenKey" su = GetString "tokenKey" u) then t
  else upsert (SetStr "tokenKey" (GetString "tokenKey" u) (SetStr "password:hash" (GetString "password:hash" u) su)) t.

(** [syncSuperusers] where the calls of the database succeed: first the superusers that are
    no active admin are deleted, then each admin gets theirs. *)
Definition syncSuperusers `{GoRange} (new_id : string → string) (d : db) : db :=
  let valid := validAdmins (users d) in
  let pruned := filter (λ su, is_Some (valid !! GetString "email" su)) (superusers d) in
  set_superusers (foldl (λ t p, sync_one new_id p.2 t) pruned (go_range valid)) d.

(** ** Accounts *)
Lemma email_upsert email rec t : (∀ r, r ∈ t → Id r = Id rec → GetString "email" r = GetString "email" rec) →
  with_email email t ≠ [] → with_email email (upsert rec t) ≠ [].
Proof.
  intros Hk Hne. unfold with_email in *. destruct (FindAll "email" email t) as [|x l] eqn:Hf; [done|].
  apply FindAll_head in Hf as [He Hx]. intros Hn.
  assert (∃ y, y ∈ upsert rec t ∧ GetString "email" y = email) as (y & Hy & Hye).
  { destruct (decide (Id x = Id rec)) as [Hi|Hi]; [exists rec|exists x]; (split; [apply elem_of_upsert; auto|]); [|done].
    rewrite -He. symmetry. by apply Hk. }
  assert (y ∈ FindAll "email" email (upsert rec t)) as Hin by (by apply FindAll_elem). rewrite Hn in Hin. by apply elem_of_nil in Hin.
Qed.

Lemma email_fresh rec t : Id rec ∉ ids_of t → ∀ r, r ∈ t → Id r = Id rec → GetString "email" r = GetString "email" rec.
Proof. intros Hn r Hr He. exfalso. apply Hn. rewrite -He. by apply list_elem_of_fmap_2. Qed.

Lemma create_user_Some ok rec t t' : create_user ok rec t = Some t' → with_email (GetString "email" rec) t = [] ∧ t' = upsert rec t.
Proof. unfold create_user. case_match eqn:Hb; [|done]. intros [= <-]. by apply andb_true_iff in Hb as [_ Hb%bool_decide_eq_true]. Qed.

Section accounts.
Context (hashed : string → value) (token_record : string → option (string * string)).

(** The requests of this file one after the other, and changes of a user that keep the
    address; new rows have new ids and new invitations new tokens. *)
Inductive step : db → db → Prop :=
| step_invite c creator body d : (∀ token x, generateSecureToken c = Some token → x ∈ invites d → GetString "token" x ≠ token) →
    new_id c ∉ ids_of (invites d) → step d (handleCreateInvite c creator body d).2
| step_accept c body d : new_id c ∉ ids_of (users d) → NoDup (ids_of (invites d)) → step d (handleAcceptInvite hashed c body d).2
| step_setup c super sid email password d : new_id c ∉ ids_of (users d) → step d (CreateInitialAdmin hashed c super sid email password d).2
| step_elevate c token d : new_id c ∉ ids_of (users d) → NoDup (ids_of (users d)) → step d (elevate token_record c token d).2
| step_update r m d : r ∈ users d → Id m = Id r → GetString "email" m = GetString "email" r → NoDup (ids_of (users d)) →
    step d (set_users (upsert m (users d)) d).

Lemma find_invite_inr c token d invite : find_invite c token d = inr invite →
  invite ∈ invites d ∧ GetString "token" invite = token ∧ GetBool "used" invite = false ∧ (now c ≤ GetDateTime "expires_at" invite)%Z.
Proof.
  unfold find_invite. destruct (negb _); [done|]. destruct (FindAll "token" token (invites d)) as [|x l] eqn:Hf; [done|].
  destruct (GetBool "used" x) eqn:Hu; [done|]. destruct (Z.ltb_spec (GetDateTime "expires_at" x) (now c)); [done|]. intros [= ->].
  by destruct (FindAll_head _ _ _ _ _ Hf).
Qed.

Lemma mark_used_users c invite d : users (mark_used c invite d) = users d.
Proof. unfold mark_used. by case_match. Qed.

(** What accepting does to the users. *)
Lemma accept_cases c body d : users (handleAcceptInvite hashed c body d).2 = users d ∧ (handleAcceptInvite hashed c body d).1 ≠ Ok 201 ∨
  ∃ b invite, body = Some b ∧ find_invite c (ab_Token b) d = inr invite ∧ (handleAcceptInvite hashed c body d).1 = Ok 201 ∧
    with_email (GetString "email" invite) (users d) = [] ∧
    (handleAcceptInvite hashed c body d).2 = mark_used c invite (set_users (upsert (invited_user hashed c invite (ab_Password b)) (users d)) d).
Proof.
  unfold handleAcceptInvite. destruct body as [b|]; [|by left]. do 2 (case_decide; [by left|]).
  destruct (find_invite c (ab_Token b) d) as [r|invite] eqn:Hf.
  { left. split; [done|]. simpl. intros ->. unfold find_invite in Hf. repeat (case_match; simplify_eq). }
  destruct (_ && _); [left; split; [apply mark_used_users|done]|]. destruct (negb _); [by left|].
  destruct (create_user _ _ _) as [t|] eqn:Hc; [|by left]. apply create_user_Some in Hc as [He ->]. right. exists b, invite.
  by split_and!.
Qed.

Lemma email_same t r m : NoDup (ids_of t) → r ∈ t → Id m = Id r → GetString "email" m = GetString "email" r →
  ∀ x, x ∈ t → Id x = Id m → GetString "email" x = GetString "email" m.
Proof. intros Hn Hr Hid He x Hx Hxi. rewrite He. f_equal. apply (NoDup_ids_inj t); [done..|congruence]. Qed.

Lemma email_stays email d d' : step d d' → with_email email (users d) ≠ [] → with_email email (users d') ≠ [].
Proof.
  intros [c creator body d0 _ _|c body d0 Hn _|c super sid em pw d0 Hn|c token d0 Hn Hnd|r m d0 Hr Hid He Hnd] Hw.
  - unfold handleCreateInvite. by repeat case_match.
  - destruct (accept_cases c body d0) as [[-> _]|(b & invite & _ & _ & _ & _ & ->)]; [done|]. rewrite mark_used_users. simpl.
    apply email_upsert; [by apply email_fresh|done].
  - unfold CreateInitialAdmin. destruct (negb _); [done|]. case_decide; [done|]. destruct (negb _); [done|].
    destruct (create_user _ _ _) as [t|] eqn:Hc; [|done]. apply create_user_Some in Hc as [_ ->]. destruct super; [|done]. simpl.
    apply email_upsert; [by apply email_fresh|done].
  - unfold elevate. destruct (token_record token) as [[coll id]|]; [|done]. case_decide; [done|].
    destruct (FindById id (sso_users d0)) as [sso|]; [|done]. destruct (GetBool _ sso); [done|]. do 2 (case_decide; [done|]).
    destruct (if find_users c then _ else _) as [|user l] eqn:Hf.
    + destruct (create_user _ _ _) as [t|] eqn:Hc; [|done]. apply create_user_Some in Hc as [_ ->]. simpl.
      apply email_upsert; [by apply email_fresh|done].
    + destruct (find_users c); [|done]. apply FindAll_head in Hf as [_ Hu]. destruct (_ && negb (save_user c)); [done|]. simpl.
      destruct (_ || _); [|done]. apply email_upsert; [|done]. apply (email_same _ user); [done..|by field_simpl].
  - simpl. apply email_upsert; [|done]. by apply (email_same _ r).
Qed.

Lemma emails_stay email d d' : rtc step d d' → with_email email (users d) ≠ [] → with_email email (users d') ≠ [].
Proof. induction 1; eauto using email_stays. Qed.

(** ** Invitations are used once *)

(** All invitations with the token are for the address. *)
Definition token_for (token email : string) (d : db) : Prop :=
  ∀ x, x ∈ invites d → GetString "token" x = token → GetString "email" x = email.

Lemma token_mark token email c invite d : invite ∈ invites d → token_for token email d → token_for token email (mark_used c invite d).
Proof.
  intros Hi Ht. unfold mark_used. destruct (save_invite c); [|done]. intros x [->|[Hx _]]%elem_of_upsert Hxt; [|by apply Ht].
  unfold SetBool in *. rewrite GetString_SetField_ne //. rewrite GetString_SetField_ne // in Hxt. by apply Ht.
Qed.

Lemma accept_invites c body d : invites (handleAcceptInvite hashed c body d).2 = invites d ∨
  ∃ invite, invite ∈ invites d ∧ invites (handleAcceptInvite hashed c body d).2 = invites (mark_used c invite d).
Proof.
  unfold handleAcceptInvite. destruct body as [b|]; [|by left]. do 2 (case_decide; [by left|]).
  destruct (find_invite c (ab_Token b) d) as [r|invite] eqn:Hf; [by left|]. apply find_invite_inr in Hf as [Hi _].
  destruct (_ && _); [right; eauto|]. destruct (negb _); [by left|]. destruct (create_user _ _ _); [|by left].
  right. exists invite. split; [done|]. unfold mark_used. by destruct (save_invite c).
Qed.

Lemma invite_cases c creator body d : invites (handleCreateInvite c creator body d).2 = invites d ∨
  ∃ rec token, generateSecureToken c = Some token ∧ Id rec = new_id c ∧ GetString "token" rec = token ∧
    invites (handleCreateInvite c creator body d).2 = upsert rec (invites d).
Proof.
  unfold handleCreateInvite. destruct body as [b|]; [|by left]. do 3 (case_decide; [by left|]). destruct (_ && _); [by left|].
  destruct (generateSecureToken c) as [token|]; [|by left]. destruct (negb (find_collection c)); [by left|].
  destruct (negb (save_invite c)); [by left|].
  assert (∀ (creator : option auth_record) rec, Id rec = new_id c → GetString "token" rec = token →
    Id (match creator with Some a => SetStr "created_by" (a_id a) rec | None => rec end) = new_id c ∧
    GetString "token" (match creator with Some a => SetStr "created_by" (a_id a) rec | None => rec end) = token) as Hc.
  { intros [a|] rec Hid Ht; [|done]. split; [done|]. by field_simpl. }
  destruct (Hc creator (SetBool "used" false (SetField "expires_at" (date_value (now c + hours24)) (SetStr "token" token
                  (SetStr "role" (NormalizeRole (ib_Role b)) (SetStr "email" (ib_Email b) {| Id := new_id c; fields := ∅ |})))))) as [Hi1 Hi2];
    [done|by field_simpl|].
  match goal with |- context [if ?D then _ else _] => destruct D end; [right; eauto 10|].
  destruct (mail c); [right; eauto 10|by left].
Qed.

Lemma token_stays token email d d' : step d d' → (∃ x, x ∈ invites d ∧ GetString "token" x = token) → token_for token email d →
  (∃ x, x ∈ invites d' ∧ GetString "token" x = token) ∧ token_for token email d'.
Proof.
  intros Hs Hx Ht. destruct Hs as [c creator body d0 Hfresh Hnew|c body d0 _ Hnd|c super sid em pw d0 _|c tok d0 _ _|r m d0 _ _ _ _].
  - destruct (invite_cases c creator body d0) as [He|(rec & tok & Hg & Hid & Htok & He)]; unfold token_for; rewrite He; [done|].
    destruct Hx as (x & Hx & Hxt). split.
    + exists x. split; [|done]. apply elem_of_upsert. right. split; [done|]. rewrite Hid. intros Hxn. apply Hnew. rewrite -Hxn.
      by apply list_elem_of_fmap_2.
    + intros y [->|[Hy _]]%elem_of_upsert Hyt; [|by apply Ht]. exfalso. apply (Hfresh tok x Hg Hx). congruence.
  - destruct (accept_invites c body d0) as [He|(invite & Hi & He)]; unfold token_for; rewrite He; [done|]. split.
    + destruct Hx as (x & Hx & Hxt). unfold mark_used. destruct (save_invite c); [|eauto]. simpl.
      destruct (decide (Id x = Id invite)) as [Hxi|Hxi].
      * assert (x = invite) as -> by (by apply (NoDup_ids_inj (invites d0))).
        exists (SetBool "used" true invite). split; [apply elem_of_upsert; by left|]. by field_simpl.
      * exists x. split; [apply elem_of_upsert; by right|done].
    + by apply token_mark.
  - enough (invites (CreateInitialAdmin hashed c super sid em pw d0).2 = invites d0) as He by (unfold token_for; by rewrite He).
    unfold CreateInitialAdmin. by repeat case_match.
  - enough (invites (elevate token_record c tok d0).2 = invites d0) as He by (unfold token_for; by rewrite He).
    unfold elevate. by repeat case_match.
  - done.
Qed.

(** An invitation makes one account: it must be unused and not expired, the account gets
    its address and its role, and after that no request with the same token makes another
    account, whatever is invited, accepted, elevated or changed in between and even if
    marking the invitation as used has failed. *)
Theorem invitation_once c b d d1 d2 c' b' : (∀ x y, x ∈ invites d → y ∈ invites d → GetString "token" x = GetString "token" y → x = y) →
  new_id c ∉ ids_of (users d) → NoDup (ids_of (invites d)) →
  handleAcceptInvite hashed c (Some b) d = (Ok 201, d1) → rtc step d1 d2 → ab_Token b' = ab_Token b →
  (∃ invite user, invite ∈ invites d ∧ GetString "token" invite = ab_Token b ∧ GetBool "used" invite = false ∧
    (now c ≤ GetDateTime "expires_at" invite)%Z ∧ users d1 = upsert user (users d) ∧ with_email (GetString "email" user) (users d) = [] ∧
    GetString "email" user = GetString "email" invite ∧ GetString "role" user = MustNormalizeRole (GetString "role" invite)) ∧
  (handleAcceptInvite hashed c' (Some b') d2).1 ≠ Ok 201 ∧ users (handleAcceptInvite hashed c' (Some b') d2).2 = users d2.
Proof.
  intros Huniq Hnew Hnd Ha Hs Htok.
  destruct (accept_cases c (Some b) d) as [[_ Hx]|(b0 & invite & [= <-] & Hf & _ & He & H2)]; [by rewrite Ha in Hx|].
  rewrite Ha in H2. simpl in H2. pose proof (find_invite_inr _ _ _ _ Hf) as (Hin & Ht & Hu & Hexp).
  set (user := invited_user hashed c invite (ab_Password b)) in *.
  assert (GetString "email" user = GetString "email" invite) as Hue by (unfold user, invited_user; by field_simpl).
  assert (users d1 = upsert user (users d)) as Hu1 by (rewrite H2 mark_used_users //).
  split.
  { exists invite, user. split_and!; try done; try (by rewrite Hue); unfold user, invited_user; by field_simpl. }
  assert (with_email (GetString "email" invite) (users d2) ≠ []) as Hw.
  { apply (emails_stay _ _ _ Hs). rewrite Hu1. intros Hn.
    assert (user ∈ with_email (GetString "email" invite) (upsert user (users d))) as Hi
      by (apply FindAll_elem; split; [done|apply elem_of_upsert; by left]).
    rewrite Hn in Hi. by apply elem_of_nil in Hi. }
  assert (step d d1) as Hs1 by (replace d1 with (handleAcceptInvite hashed c (Some b) d).2; [by apply step_accept|by rewrite Ha]).
  assert ((∃ x, x ∈ invites d2 ∧ GetString "token" x = ab_Token b) ∧ token_for (ab_Token b) (GetString "email" invite) d2) as [_ Htf].
  { assert ((∃ x, x ∈ invites d1 ∧ GetString "token" x = ab_Token b) ∧ token_for (ab_Token b) (GetString "email" invite) d1) as H1.
    { apply (token_stays _ _ d); [done|by exists invite|]. intros x Hx Hxt. f_equal. apply Huniq; [done..|congruence]. }
    clear -H1 Hs. induction Hs as [|x y z Hxy _ IH]; [done|]. apply IH. destruct H1. by apply (token_stays _ _ x). }
  destruct (accept_cases c' (Some b') d2) as [[-> Hx]|(b1 & invite' & [= <-] & Hf' & _ & He' & _)]; [done|]. exfalso.
  apply find_invite_inr in Hf' as (Hin' & Ht' & _). apply Hw. rewrite -(Htf invite') //. congruence.
Qed.

(** ** Set-up happens once *)
Lemma real_users email d : email ≠ DefaultInstallerEmail → with_email email (users d) ≠ [] → 0 < CountRealUsers d.
Proof.
  intros He Hw. unfold with_email in Hw. destruct (FindAll "email" email (users d)) as [|x l] eqn:Hf; [done|].
  apply FindAll_head in Hf as [Hx Hin]. unfold CountRealUsers.
  assert (x ∈ filter (λ r, GetString "email" r ≠ DefaultInstallerEmail) (users d)) as Hi by (apply list_elem_of_filter; by rewrite Hx).
  destruct (filter _ _); [by apply elem_of_nil in Hi|]. simpl. lia.
Qed.

(** The first set-up makes the protected admin when there is no user, and never again:
    the check is repeated inside the transaction, so requests that were admitted beside
    each other make one admin between them. *)
Theorem setup_once c super sid email password d d1 d2 c' super' sid' email' password' :
  email ≠ DefaultInstallerEmail → new_id c ∉ ids_of (users d) →
  CreateInitialAdmin hashed c super sid email password d = (None, d1) → rtc step d1 d2 →
  CountRealUsers d = 0 ∧ (∃ r, users d1 = upsert r (users d) ∧ initial r ∧ GetString "email" r = email) ∧
  ∃ err, CreateInitialAdmin hashed c' super' sid' email' password' d2 = (Some err, d2).
Proof.
  intros He Hn Hc Hs. unfold CreateInitialAdmin in Hc. destruct (negb (find_users c)); [done|]. case_decide as H0; [done|].
  destruct (negb (find_collection c)); [done|]. destruct (create_user _ _ _) as [t|] eqn:Hcu; [|done]. destruct super; [|done].
  apply create_user_Some in Hcu as [_ ->]. simplify_eq. split; [lia|]. split.
  - eexists. split; [reflexivity|]. unfold initial_user, initial. split_and!; by field_simpl.
  - assert (0 < CountRealUsers d2) as Hr.
    { apply (real_users email); [done|]. apply (emails_stay _ _ _ Hs). simpl. intros Hw.
      assert (initial_user hashed c email password ∈ with_email email (upsert (initial_user hashed c email password) (users d))) as Hi.
      { apply FindAll_elem. split; [unfold initial_user; by field_simpl|apply elem_of_upsert; by left]. }
      rewrite Hw in Hi. by apply elem_of_nil in Hi. }
    unfold CreateInitialAdmin. destruct (negb (find_users c')); [by eexists|]. rewrite decide_True; [by eexists|done].
Qed.
End accounts.

(** ** Superusers mirror the admins *)
Definition add_admin (m : gmap string record) (u : record) : gmap string record :=
  if decide (GetString "email" u = "") then m else <[GetString "email" u := u]> m.

Lemma validAdmins_fold l m e u : foldl add_admin m l !! e = Some u → m !! e = Some u ∨ u ∈ l ∧ GetString "email" u = e ∧ e ≠ "".
Proof.
  revert m. induction l as [|x l IH]; intros m; [by left|]. simpl. intros [Hm|(Hu & ? & ?)]%IH; [|right; by split; [right|]].
  unfold add_admin in Hm. case_decide as Hx; [by left|]. destruct (decide (GetString "email" x = e)) as [<-|Hne].
  - rewrite lookup_insert_eq in Hm. simplify_eq. right. split; [by left|done].
  - rewrite lookup_insert_ne // in Hm. by left.
Qed.

Lemma validAdmins_has l m u : u ∈ l → GetString "email" u ≠ "" → (∀ v, v ∈ l → GetString "email" v = GetString "email" u → v = u) →
  foldl add_admin m l !! GetString "email" u = Some u.
Proof.
  revert m. induction l as [|x l IH] using rev_ind; intros m Hu He Hun; [by apply elem_of_nil in Hu|].
  rewrite foldl_app. simpl. unfold add_admin at 1. destruct (decide (GetString "email" x = GetString "email" u)) as [Hx|Hx].
  - assert (x = u) as -> by (apply Hun; [apply elem_of_app; right; by left|done]). rewrite decide_False // lookup_insert_eq //.
  - assert (u ∈ l) as Hul by (apply elem_of_app in Hu as [?|Hu]; [done|]; apply list_elem_of_singleton in Hu as ->; done).
    case_decide; [|rewrite lookup_insert_ne //]; apply IH; try done; intros v Hv; apply Hun; apply elem_of_app; by left.
Qed.

Lemma validAdmins_spec t e u : validAdmins t !! e = Some u → u ∈ t ∧ active_admin u = true ∧ GetString "email" u = e ∧ e ≠ "".
Proof.
  intros [Hu|(Hu & ? & ?)]%validAdmins_fold; [by rewrite lookup_empty in Hu|].
  apply list_elem_of_In, List.filter_In in Hu as [Hu Ha]. split_and!; try done. by apply list_elem_of_In.
Qed.

Section superusers.
Context `{GoRange} (new_id : string → string).

Definition mirror (u su : record) : Prop := GetString "email" su = GetString "email" u ∧
  GetString "password:hash" su = GetString "password:hash" u ∧ GetString "tokenKey" su = GetString "tokenKey" u.

(** The row [sync_one] works on. *)
Definition chosen (u : record) (t : rows) : record :=
  default (SetStr "email" (GetString "email" u) {| Id := new_id (GetString "email" u); fields := ∅ |}) (head (with_email (GetString "email" u) t)).

Lemma chosen_cases u t : GetString "email" (chosen u t) = GetString "email" u ∧
  (chosen u t ∈ t ∨ Id (chosen u t) = new_id (GetString "email" u) ∧ GetString "password:hash" (chosen u t) = "").
Proof.
  unfold chosen. destruct (with_email (GetString "email" u) t) as [|x l] eqn:Hf; simpl.
  - split; [by field_simpl|]. right. split; [done|]. by field_simpl.
  - apply FindAll_head in Hf as [? ?]. split; [done|by left].
Qed.

Definition synced (u : record) (t : rows) : record :=
  SetStr "tokenKey" (GetString "tokenKey" u) (SetStr "password:hash" (GetString "password:hash" u) (chosen u t)).

Lemma sync_one_cases u t : sync_one new_id u t = t ∧ mirror u (chosen u t) ∨ sync_one new_id u t = upsert (synced u t) t ∧ mirror u (synced u t).
Proof.
  destruct (chosen_cases u t) as [He _]. unfold sync_one. fold (chosen u t). case_decide as Hd; [left|right]; (split; [done|]).
  - split_and!; tauto.
  - unfold mirror, synced. by field_simpl.
Qed.

Lemma sync_emails l t su : su ∈ foldl (λ t p, sync_one new_id p.2 t) t (l : list (string * record)) →
  su ∈ t ∨ ∃ p, p ∈ l ∧ GetString "email" su = GetString "email" p.2.
Proof.
  revert t. induction l as [|p l IH]; intros t; [by left|]. simpl. intros [Hs|(q & Hq & Hqe)]%IH; [|right; exists q; by split; [right|]].
  destruct (sync_one_cases p.2 t) as [[Hx _]|[Hx Hm]]; rewrite Hx in Hs; [by left|].
  apply elem_of_upsert in Hs as [->|[Hs _]]; [|by left]. right. exists p. split; [by left|apply Hm].
Qed.

(** Ids are distinct, and a new row has the new id of its address. *)
Definition tidy (old : rows) (t : rows) : Prop :=
  NoDup (ids_of t) ∧ ∀ r, r ∈ t → Id r ∈ ids_of old ∨ Id r = new_id (GetString "email" r).

Context (old : rows) (Hfresh : ∀ e, new_id e ∉ ids_of old) (Hinj : ∀ e e', new_id e = new_id e' → e = e').

Lemma tidy_sync u t : tidy old t → tidy old (sync_one new_id u t).
Proof.
  intros [Hn Ht]. destruct (sync_one_cases u t) as [[-> _]|[-> Hm]]; [done|]. split; [by apply NoDup_upsert|].
  intros r [->|[Hr _]]%elem_of_upsert; [|by apply Ht]. destruct (chosen_cases u t) as [He [Hc|[Hc _]]].
  - destruct (Ht _ Hc) as [Hi|Hi]; [by left|]. right. unfold synced. field_simpl. simpl. by rewrite Hi.
  - right. unfold synced. field_simpl. simpl. by rewrite Hc He.
Qed.

Lemma mirror_kept u v su t : tidy old t → GetString "email" u ≠ GetString "email" v → su ∈ t → mirror u su → su ∈ sync_one new_id v t.
Proof.
  intros [Hn Ht] Hne Hs Hm. destruct (sync_one_cases v t) as [[-> _]|[-> _]]; [done|]. apply elem_of_upsert. right. split; [done|].
  unfold synced. simpl. intros Hid. destruct (chosen_cases v t) as [He [Hc|[Hc _]]].
  - assert (su = chosen v t) as -> by (by apply (NoDup_ids_inj t)). apply Hne. destruct Hm as [Hm _]. congruence.
  - destruct (Ht _ Hs) as [Hi|Hi]; [rewrite Hid Hc in Hi; by apply Hfresh in Hi|]. apply Hne. destruct Hm as [Hm _]. rewrite -Hm.
    apply Hinj. congruence.
Qed.

Lemma sync_mirrors l t u : NoDup (l.*1) → (∀ p, p ∈ l → GetString "email" p.2 = p.1) → tidy old t →
  (GetString "email" u, u) ∈ l → GetString "password:hash" u ≠ "" →
  ∃ su, su ∈ foldl (λ t p, sync_one new_id p.2 t) t (l : list (string * record)) ∧ mirror u su.
Proof.
  intros Hnd He Ht Hu Hh. induction l as [|p l IH] using rev_ind in t, Hnd, He, Ht, Hu |- *; [by apply elem_of_nil in Hu|].
  rewrite foldl_app. simpl. rewrite fmap_app in Hnd. apply NoDup_app in Hnd as (Hnd & Hdis & _).
  assert (tidy old (foldl (λ t p, sync_one new_id p.2 t) t l)) as Ht'.
  { clear -Ht Hfresh. revert t Ht. induction l as [|q l IHl]; intros t Ht; [done|]. simpl. apply IHl. by apply tidy_sync. }
  apply elem_of_app in Hu as [Hu|Hu].
  - destruct (IH t) as (su & Hs & Hm); [done|intros q Hq; apply He; apply elem_of_app; by left|done|done|].
    exists su. split; [|done]. apply (mirror_kept u); [done| |done|done]. rewrite (He p); [|apply elem_of_app; right; by left].
    intros Heq. apply (Hdis (GetString "email" u)); [by apply (list_elem_of_fmap_2 fst) in Hu|]. rewrite Heq. by left.
  - apply list_elem_of_singleton in Hu as <-. simpl.
    destruct (sync_one_cases u (foldl (λ t p, sync_one new_id p.2 t) t l)) as [[-> Hm]|[-> Hm]].
    + eexists. split; [|exact Hm]. destruct (chosen_cases u (foldl (λ t p, sync_one new_id p.2 t) t l)) as [_ [Hc|[_ Hc]]]; [done|].
      destruct Hm as (_ & Hm & _). congruence.
    + eexists. split; [|exact Hm]. apply elem_of_upsert. by left.
Qed.
End superusers.

(** After [syncSuperusers] every superuser has the address of an active admin, so a user
    who is demoted or disabled is no superuser any more, and every active admin with an
    address and a password is a superuser with that password and token key. *)
Theorem superusers_mirror_admins `{GoRange} new_id d : NoDup (ids_of (superusers d)) → (∀ e, new_id e ∉ ids_of (superusers d)) →
  (∀ e e', new_id e = new_id e' → e = e') →
  (∀ su, su ∈ superusers (syncSuperusers new_id d) → ∃ u, u ∈ users d ∧ active_admin u = true ∧ GetString "email" u = GetString "email" su) ∧
  (∀ u, u ∈ users d → active_admin u = true → GetString "email" u ≠ "" → GetString "password:hash" u ≠ "" →
   (∀ v, v ∈ users d → GetString "email" v = GetString "email" u → v = u) →
   ∃ su, su ∈ superusers (syncSuperusers new_id d) ∧ mirror u su).
Proof.
  intros Hn Hf Hi. unfold syncSuperusers. simpl. split.
  - intros su [Hs|([e u] & Hp & He)]%sync_emails.
    + apply list_elem_of_filter in Hs as [[u Hu] _]. apply validAdmins_spec in Hu as (? & ? & ? & _). eauto.
    + apply elem_of_go_range, validAdmins_spec in Hp as (? & ? & ? & _). exists u. split_and!; try done.
  - intros u Hu Ha He Hh Hun. apply (sync_mirrors new_id (superusers d)); try done.
    + rewrite go_range_perm. apply NoDup_fst_map_to_list.
    + intros [e v] Hp. apply elem_of_go_range, validAdmins_spec in Hp as (_ & _ & ? & _). done.
    + split.
      * clear -Hn. unfold ids_of in *. induction (superusers d) as [|x l IH]; [done|]. simpl in Hn. apply NoDup_cons in Hn as [Hx Hn].
        rewrite filter_cons. case_decide; [|by apply IH]. simpl. apply NoDup_cons. split; [|by apply IH]. intros Hin. apply Hx.
        apply list_elem_of_fmap in Hin as (y & -> & Hy). apply list_elem_of_filter in Hy as [_ Hy]. by apply list_elem_of_fmap_2.
      * intros r Hr. apply list_elem_of_filter in Hr as [_ Hr]. left. by apply list_elem_of_fmap_2.
    + apply elem_of_go_range. apply validAdmins_has; [|done|].
      * apply list_elem_of_In, List.filter_In. split; [by apply list_elem_of_In|done].
      * intros v Hv. apply list_elem_of_In, List.filter_In in Hv as [Hv _]. apply Hun. by apply list_elem_of_In.
Qed.

(** ** Single sign-on and the initial admin *)
Definition demo_calls (id : string) : calls :=
  {| now := 5; find_users := true; find_invites := true; find_collection := true; save_user := true; save_invite := true; mail := true;
     random := Some "abc"; new_id := id |}.
Definition toy_hash (p : string) : value := VStr ("hash:" +:+ p).

Definition sso_db : db :=
  {| users := [SetStr "email" "root@example.com" (admin_row "u1" true)]; invites := [];
     sso_users := [SetStr "role" RoleViewer (SetStr "email" "root@example.com" {| Id := "o1"; fields := ∅ |})]; superusers := [] |}.

(** What a sign-on does to the users: nothing, a new one, or the one change of [signed_on]
    to the user of the address. *)
Theorem elevate_users token_record c token d : let '(_, d') := elevate token_record c token d in
  users d' = users d ∨ (∃ user, Id user = new_id c ∧ users d' = upsert user (users d)) ∨
  ∃ role user, user ∈ users d ∧ role ≠ "" ∧ users d' = upsert (signed_on role user) (users d).
Proof.
  unfold elevate. destruct (token_record token) as [[collection id]|]; [|by left]. case_decide; [by left|]. destruct (FindById id (sso_users d)) as [sso|]; [|by left].
  destruct (GetBool "elevate_consumed" sso); [by left|]. cbv zeta. case_decide; [by left|]. case_decide as Hr; [by left|].
  destruct (if find_users c then with_email _ (users d) else []) as [|user l] eqn:Hf.
  - destruct (create_user _ _ _) as [t|] eqn:Hc; [|by left]. right. left. unfold create_user in Hc. destruct (find_collection c && save_user c && _); [|done]. injection Hc as <-. eexists. by split; [|reflexivity].
  - destruct (_ && negb (save_user c)); [by left|]. cbn [users set_sso set_users]. destruct (_ || _ || _); [|by left]. right. right.
    eexists _, user. split_and!; [|exact Hr|done]. destruct (find_users c); [|done]. unfold with_email in Hf.
    assert (user ∈ user :: l) as Hu by left. rewrite -Hf in Hu. by apply FindAll_elem in Hu as [_ ?].
Qed.

(** Signing in through the identity provider gives the user the role of the groups even
    if the user is the initial admin, which the route and the hook refuse to demote, and
    even if no other admin is left. *)
Theorem sso_demotes_initial_admin :
  let '(r, d) := elevate (λ _, Some ("sso_users", "o1")) (demo_calls "u2") "token" sso_db in
  r = inr "u1" ∧ (∀ u, u ∈ users sso_db → initial u) ∧ List.filter active_admin (users d) = [] ∧
  GetBool "protected" <$> FindById "u1" (users d) = Some true.
Proof. vm_compute. split_and!; try done. intros u Hu. apply list_elem_of_singleton in Hu as ->. done. Qed.

(** ** Witnesses *)
#[local] Instance plain_range : GoRange := {| go_range := λ A m, map_to_list m; go_range_perm := λ A m, reflexivity _ |}.

Definition no_db : db := {| users := []; invites := []; sso_users := []; superusers := [] |}.
Definition invite_request : option invite_body := Some {| ib_Email := "a@example.com"; ib_Role := "Operator"; ib_Delivery := "link" |}.
Definition invited : db := (handleCreateInvite (demo_calls "i1") None invite_request no_db).2.
Definition accept_request : accept_body := {| ab_Token := hex_encode "abc"; ab_Password := "p4ssword"; ab_Confirm := "p4ssword" |}.
Definition accepted : db := (handleAcceptInvite toy_hash (demo_calls "u1") (Some accept_request) invited).2.

Lemma invitation_once_witness : (handleAcceptInvite toy_hash (demo_calls "u1") (Some accept_request) invited).1 = Ok 201 ∧
  (handleAcceptInvite toy_hash (demo_calls "u2") (Some accept_request) accepted).1 ≠ Ok 201.
Proof.
  split; [vm_compute; reflexivity|].
  refine (proj1 (proj2 (invitation_once toy_hash (λ _, None) (demo_calls "u1") accept_request invited accepted accepted (demo_calls "u2") accept_request
    _ _ _ _ _ _))).
  - intros x y Hx Hy _. apply list_elem_of_singleton in Hx, Hy. congruence.
  - apply not_elem_of_nil.
  - apply NoDup_singleton.
  - vm_compute. reflexivity.
  - apply rtc_refl.
  - reflexivity.
Defined.

Definition set_up : db := (CreateInitialAdmin toy_hash (demo_calls "u1") true "su1" "root@example.com" "p4ssword" no_db).2.

Lemma setup_once_witness : CountRealUsers no_db = 0 ∧
  ∃ err, CreateInitialAdmin toy_hash (demo_calls "u2") true "su2" "evil@example.com" "p4ssword" set_up = (Some err, set_up).
Proof.
  destruct (setup_once toy_hash (λ _, None) (demo_calls "u1") true "su1" "root@example.com" "p4ssword" no_db set_up set_up
    (demo_calls "u2") true "su2" "evil@example.com" "p4ssword") as (H1 & _ & H2).
  - discriminate.
  - apply not_elem_of_nil.
  - vm_compute. reflexivity.
  - apply rtc_refl.
  - split; [exact H1|exact H2].
Defined.

Lemma superusers_mirror_admins_witness : ids_of (users set_up) ≠ [] ∧ ∀ su, su ∈ superusers (syncSuperusers (λ e, "new:" +:+ e) set_up) →
  ∃ u, u ∈ users set_up ∧ active_admin u = true ∧ GetString "email" u = GetString "email" su.
Proof.
  split; [discriminate|]. refine (proj1 (superusers_mirror_admins (λ e, "new:" +:+ e) set_up _ _ _)).
  - apply NoDup_singleton.
  - intros e He. apply list_elem_of_singleton in He. discriminate.
  - intros e e' He. by injection He.
Defined.

(** ** The rate limiter of /auth/elevate (internal/routes/auth.go) *)
Record rateLimiter := { requests : gmap string (list Z); limit : nat; window : Z }.

Definition newRateLimiter (limit : nat) (window : Z) : rateLimiter := {| requests := ∅; limit := limit; window := window |}.

Definition set_requests (m : gmap string (list Z)) (rl : rateLimiter) : rateLimiter :=
  {| requests := m; limit := limit rl; window := window rl |}.

(** [now.Sub(t) < rl.window]. *)
Definition recent (rl : rateLimiter) (now t : Z) : Prop := (now - t < window rl)%Z.

#[global] Instance recent_dec rl now t : Decision (recent rl now t).
Proof. unfold recent. apply _. Defined.

Definition cleanup_entry (rl : rateLimiter) (now : Z) (times : list Z) : option (list Z) :=
  match filter (recent rl now) times with [] => None | valid => Some valid end.

Definition cleanup (now : Z) (rl : rateLimiter) : rateLimiter := set_requests (omap (cleanup_entry rl now) (requests rl)) rl.

Definition times_of (rl : rateLimiter) (ip : string) : list Z := default [] (requests rl !! ip).

Definition allow (ip : string) (now : Z) (rl : rateLimiter) : bool * rateLimiter :=
  let valid := filter (recent rl now) (times_of rl ip) in
  if limit rl <=? length valid then (false, set_requests (<[ip := valid]> (requests rl)) rl)
  else (true, set_requests (<[ip := valid ++ [now]]> (requests rl)) rl).

(** [elevateRateLimiter]: five requests in a minute. *)
Definition elevateRateLimiter : rateLimiter := newRateLimiter 5 60000000000.

(** [getClientIP]; [peer] is the address of the connection and [isTrustedProxy] the test
    of an address against the networks of WIREOPS_TRUSTED_PROXIES. *)
Definition getClientIP (isTrustedProxy : string → bool) (peer : string) (q : AuditLog.http_request) : string :=
  if negb (isTrustedProxy peer) then peer
  else
    let xff := TrimSpace (AuditLog.header "X-Forwarded-For" q) in
    if decide (xff ≠ "") then TrimSpace (hd "" (Split "," xff))
    else let xri := TrimSpace (AuditLog.header "X-Real-Ip" q) in if decide (xri ≠ "") then xri else peer.

(** ** A run of the limiter *)
Inductive event := Ask (ip : string) (now : Z) | Clean (now : Z).

Definition at_time (e : event) : Z := match e with Ask _ now | Clean now => now end.

(** The limiter and the requests it has allowed, oldest first. *)
Definition limiter_step (e : event) (s : rateLimiter * list (string * Z)) : rateLimiter * list (string * Z) :=
  match e with
  | Ask ip now => let '(ok, rl) := allow ip now s.1 in (rl, if ok then s.2 ++ [(ip, now)] else s.2)
  | Clean now => (cleanup now s.1, s.2)
  end.

Definition run (es : list event) (rl : rateLimiter) : rateLimiter * list (string * Z) := foldl (λ s e, limiter_step e s) (rl, []) es.

(** The times of the requests of an address that were allowed. *)
Definition allowed (ip : string) (l : list (string * Z)) : list Z := (filter (λ p : string * Z, p.1 = ip) l).*2.

(** The events happen one after the other. *)
Definition ordered (es : list event) : Prop := Sorted Z.le (at_time <$> es).

(** The limiter knows every allowed request that is recent now or later. *)
Definition knows (now : Z) (s : rateLimiter * list (string * Z)) : Prop := ∀ ip t, (now ≤ t)%Z →
  filter (recent s.1 t) (times_of s.1 ip) = filter (recent s.1 t) (allowed ip s.2).

Lemma filter_recent_later rl now t (l : list Z) : (now ≤ t)%Z → filter (recent rl t) (filter (recent rl now) l) = filter (recent rl t) l.
Proof.
  intros Ht. induction l as [|x l IH]; [done|]. rewrite !filter_cons.
  destruct (decide (recent rl now x)) as [H1|H1]; destruct (decide (recent rl t x)) as [H2|H2]; rewrite ?filter_cons.
  - rewrite decide_True // IH //.
  - rewrite decide_False // IH //.
  - exfalso. apply H1. unfold recent in *. lia.
  - done.
Qed.

Lemma allowed_snoc ip ip' t l : allowed ip (l ++ [(ip', t)]) = if decide (ip' = ip) then allowed ip l ++ [t] else allowed ip l.
Proof.
  unfold allowed. rewrite filter_app fmap_app filter_cons filter_nil. simpl.
  by destruct (decide (ip' = ip)); rewrite ?app_nil_r.
Qed.

Lemma limiter_const e s : limit (limiter_step e s).1 = limit s.1 ∧ window (limiter_step e s).1 = window s.1.
Proof. destruct e as [ip now|now]; [|done]. simpl. unfold allow. by destruct (_ <=? _). Qed.

Lemma recent_const e s t x : recent (limiter_step e s).1 t x ↔ recent s.1 t x.
Proof. unfold recent. by rewrite (proj2 (limiter_const e s)). Qed.

Lemma filter_recent_const rl rl' t (l : list Z) : window rl' = window rl → filter (recent rl' t) l = filter (recent rl t) l.
Proof. intros Hw. apply list_filter_iff. intros x. unfold recent. by rewrite Hw. Qed.

Lemma knows_step now e s : (now ≤ at_time e)%Z → knows now s → knows (at_time e) (limiter_step e s).
Proof.
  intros Hn Hk ip t Ht. rewrite !(filter_recent_const s.1 (limiter_step e s).1); [|apply limiter_const..].
  assert (now ≤ t)%Z as Hnt by lia. destruct e as [ip' now'|now']; simpl in *.
  - unfold allow. destruct (limit s.1 <=? _) eqn:Hl; simpl.
    + destruct (decide (ip' = ip)) as [->|Hne]; unfold times_of; simpl.
      * rewrite lookup_insert_eq /=. rewrite filter_recent_later //. by apply Hk.
      * rewrite lookup_insert_ne //. by apply Hk.
    + rewrite allowed_snoc. destruct (decide (ip' = ip)) as [->|Hne]; unfold times_of; simpl.
      * rewrite lookup_insert_eq /=. rewrite !filter_app filter_recent_later //. f_equal. by apply Hk.
      * rewrite lookup_insert_ne //. by apply Hk.
  - rewrite -(Hk ip t Hnt). unfold times_of, cleanup. simpl. rewrite lookup_omap.
    destruct (requests s.1 !! ip) as [l|]; [|done]. simpl. unfold cleanup_entry.
    destruct (filter (recent s.1 now') l) as [|x k] eqn:Hf; simpl; by rewrite -(filter_recent_later _ now' t l) // Hf.
Qed.

Lemma ordered_snoc es e : ordered (es ++ [e]) → ordered es ∧ Forall (λ x, (at_time x ≤ at_time e)%Z) es.
Proof.
  unfold ordered. rewrite fmap_app. intros Hs. apply Sorted_StronglySorted in Hs; [|intros ? ? ?; lia].
  apply StronglySorted_app in Hs as (H1 & H2 & _). split; [by apply StronglySorted_Sorted|].
  rewrite Forall_forall. intros x Hx. apply H1; [by apply list_elem_of_fmap_2|by left].
Qed.

(** The limiter counts: its answer is whether the address has had fewer than the limit
    allowed in the window that ends now. *)
Lemma allow_counts now ip t s : knows now s → (now ≤ t)%Z →
  (allow ip t s.1).1 = bool_decide (length (filter (recent s.1 t) (allowed ip s.2)) < limit s.1).
Proof.
  intros Hk Ht. unfold allow. rewrite (Hk ip t Ht). destruct (limit s.1 <=? _) eqn:Hl; simpl; symmetry.
  - apply Nat.leb_le in Hl. apply bool_decide_eq_false. lia.
  - apply Nat.leb_gt in Hl. by apply bool_decide_eq_true.
Qed.

Section bound.
Context (n : nat) (w : Z).

Lemma run_snoc es e rl : run (es ++ [e]) rl = limiter_step e (run es rl).
Proof. unfold run. by rewrite foldl_app. Qed.

Lemma run_const es : limit (run es (newRateLimiter n w)).1 = n ∧ window (run es (newRateLimiter n w)).1 = w.
Proof.
  induction es as [|e es IH] using rev_ind; [done|]. rewrite run_snoc. by destruct (limiter_const e (run es (newRateLimiter n w))) as [-> ->].
Qed.

Lemma run_knows es now : ordered es → Forall (λ e, (at_time e ≤ now)%Z) es → knows now (run es (newRateLimiter n w)).
Proof.
  revert now. induction es as [|e es IH] using rev_ind; intros now Ho Hn.
  - intros ip t _. unfold times_of. simpl. by rewrite lookup_empty.
  - apply ordered_snoc in Ho as [Ho He]. apply Forall_app in Hn as [_ [Hn _]%Forall_cons]. rewrite run_snoc.
    intros ip t Ht. apply (knows_step (at_time e)); [done|by apply IH|lia].
Qed.

Definition within (a t : Z) : Prop := (a ≤ t < a + w)%Z.
#[local] Instance within_dec a t : Decision (within a t).
Proof. unfold within. apply _. Defined.

Lemma length_filter_le (P Q : Z → Prop) `{∀ x, Decision (P x), ∀ x, Decision (Q x)} l : (∀ x, x ∈ l → P x → Q x) →
  length (filter P l) ≤ length (filter Q l).
Proof.
  intros Hi. induction l as [|x l IH]; [done|]. rewrite !filter_cons.
  assert (length (filter P l) ≤ length (filter Q l)) as Hl by (apply IH; intros y Hy; apply Hi; by right).
  specialize (Hi x ltac:(by left)). repeat case_decide; simpl; try lia. tauto.
Qed.

Lemma allowed_before es now ip t : Forall (λ e, (at_time e ≤ now)%Z) es → t ∈ allowed ip (run es (newRateLimiter n w)).2 → (t ≤ now)%Z.
Proof.
  induction es as [|e es IH] using rev_ind; intros Hn; [by intros ?%elem_of_nil|].
  apply Forall_app in Hn as [Hn [He _]%Forall_cons]. rewrite run_snoc. destruct e as [ip' now'|now']; simpl in *; [|by apply IH].
  unfold allow. destruct (_ <=? _); simpl; [by apply IH|]. rewrite allowed_snoc. case_decide; [|by apply IH].
  rewrite elem_of_app list_elem_of_singleton. intros [?| ->]; [by apply IH|done].
Qed.

(** The limiter is exact: however requests of all addresses and the clean-ups alternate,
    a request is allowed exactly when fewer than the limit of its address were allowed in
    the window before it, so no window of that length holds more than the limit. *)
Theorem limiter_exact es ip now a : ordered (es ++ [Ask ip now]) →
  let s := run es (newRateLimiter n w) in
  (allow ip now s.1).1 = bool_decide (length (filter (λ t, (now - t < w)%Z) (allowed ip s.2)) < n) ∧
  length (filter (within a) (allowed ip s.2)) ≤ n.
Proof.
  intros [Ho Hn]%ordered_snoc s. simpl in Hn. destruct (run_const es) as [Hl Hwi]. split.
  - rewrite (allow_counts now ip now s); [|by apply run_knows|lia]. unfold s. rewrite Hl.
    rewrite (list_filter_iff (recent (run es (newRateLimiter n w)).1 now) (λ t, (now - t < w)%Z)); [done|].
    intros t. unfold recent. by rewrite Hwi.
  - unfold s. clear s Hl Hwi Hn now. revert Ho. induction es as [|e es IH] using rev_ind; intros Ho; [simpl; lia|].
    apply ordered_snoc in Ho as [Ho Hn]. specialize (IH Ho). rewrite run_snoc. destruct e as [ip' now|now]; [|done].
    pose proof (allow_counts now ip' now _ (run_knows _ _ Ho Hn) ltac:(lia)) as Hc. simpl.
    destruct (allow ip' now _) as [[] rl'] eqn:Ha; simpl in *; [|done].
    rewrite allowed_snoc. destruct (decide (ip' = ip)) as [->|]; [|done].
    rewrite filter_app filter_cons filter_nil. destruct (decide (within a now)) as [Hin|Hin]; [|by rewrite app_nil_r].
    destruct (run_const es) as [Hl Hwi]. symmetry in Hc. apply bool_decide_eq_true in Hc. rewrite Hl in Hc.
    rewrite length_app. simpl. etrans; [|exact Hc].
    enough (length (filter (within a) (allowed ip (run es (newRateLimiter n w)).2)) ≤
            length (filter (recent (run es (newRateLimiter n w)).1 now) (allowed ip (run es (newRateLimiter n w)).2))) by lia.
    apply length_filter_le. intros t Ht Hwt. unfold recent, within in *. rewrite Hwi. lia.
Qed.
End bound.

(** ** Witness *)
Definition five : list event := (λ t, Ask "10.0.0.1" t) <$> [1; 2; 3; 4; 5]%Z.

Lemma limiter_exact_witness : (allow "10.0.0.1" 6 (run five elevateRateLimiter).1).1 = false ∧
  length (filter (within 60000000000 0) (allowed "10.0.0.1" (run five elevateRateLimiter).2)) ≤ 5.
Proof.
  destruct (limiter_exact 5 60000000000 five "10.0.0.1" 6 0) as [H1 H2].
  - unfold ordered. simpl. repeat constructor; lia.
  - split; [rewrite H1; vm_compute; reflexivity|exact H2].
Defined.
