(* ===== verification/EnvSecrets.v ===== *)
(** * Environment variables at rest: internal/hooks/pb_hooks.go, internal/secrets

    The hooks that run when a variable of a stack, of a job or of all of them is
    created, changed or shown, and the providers that give a stored secret its value at
    deploy time.  A secret of the internal provider is stored encrypted; one of an
    external provider is stored as a reference.  AES-GCM is a parameter, as in Crypto;
    so are the two external services.  [original] is [record.Original()]: the record as
    it was read, blank for a new one. *)
From Stdlib Require Import ZArith.
From S2P Require Import Prelude GoStrings GoPath GoFmt GoValue ComposeDoc PbRecord PbTable EnvVars Crypto.

(** ** internal/secrets: references *)

(** The two halves around the first occurrence of [sub] ([strings.Index]). *)
Fixpoint cut_sub (sub s : string) : option (string * string) :=
  match strip_prefix sub s with
  | Some r => Some ("", r)
  | None =>
      match s with
      | EmptyString => None
      | String a s => match cut_sub sub s with Some (l, r) => Some (String a l, r) | None => None end
      end
  end.

(** Names of variables. *)
Definition key_start (a : ascii) : bool :=
  let n := N_of_ascii a in in_range 65 90 n || in_range 97 122 n || (n =? 95)%N.

Fixpoint key_rest (s : string) : bool :=
  match s with "" => true | String a s => (key_start a || in_range 48 57 (N_of_ascii a)) && key_rest s end.

(** [^[A-Za-z_][A-Za-z0-9_]*$] *)
Definition envVarKeyPattern (s : string) : bool :=
  match s with "" => false | String a s => key_start a && key_rest s end.

Definition ValidProviders : list string := ["internal"; "vault"; "infisical"].

Definition parseVaultReference (rawValue : string) : option (string * string) :=
  match rcut "#"%char rawValue with
  | None => None
  | Some (mountPath, field) =>
      if decide (field = "") then None
      else if decide (mountPath = "") then None
      else match cut_sub "/data/" mountPath with
      | None => None
      | Some (mount, secretPath) => if decide (mount = "" ∨ secretPath = "") then None else Some (mountPath, field)
      end
  end.

(** [strings.SplitN(s, "/", 3)] *)
Definition SplitN3 (s : string) : list string :=
  match cut slash s with
  | None => [s]
  | Some (a, r) => match cut slash r with None => [a; r] | Some (b, c) => [a; b; c] end
  end.

Record infisical_ref := { projectID : string; environment : string; secretPath : string; secretName : string }.

Definition parseInfisicalReference (rawValue : string) : option infisical_ref :=
  match rcut "#"%char rawValue with
  | None => None
  | Some (locator, secretName) =>
      if decide (secretName = "") then None
      else match SplitN3 locator with
      | p :: e :: rest =>
          if decide (p = "" ∨ e = "") then None
          else Some {| projectID := p; environment := e;
                       secretPath := match rest with
                                     | s :: _ => if decide (s ≠ "") then "/" +:+ TrimPrefix s "/" else "/"
                                     | [] => "/"
                                     end;
                       secretName := secretName |}
      | _ => None
      end
  end.

Inductive ref_error := EmptyReference (provider : string) | InvalidReference (rawValue : string) | NotExternal (provider : string).

Definition ValidateReference (provider rawValue : string) : option ref_error :=
  if decide (TrimSpace rawValue = "") then Some (EmptyReference provider)
  else if decide (provider = "vault") then
    match parseVaultReference rawValue with Some _ => None | None => Some (InvalidReference rawValue) end
  else if decide (provider = "infisical") then
    match parseInfisicalReference rawValue with Some _ => None | None => Some (InvalidReference rawValue) end
  else Some (NotExternal provider).

(** ** internal/secrets: the per-pass connection cache

    One pass over the variables of a stack carries a cache from the name of a provider
    to the connection it built, or to the error the attempt gave. *)
Definition cache (T : Type) : Type := option (gmap string (T + string)).

Definition loadCachedConn {T} (c : cache T) (key : string) (build : T + string) : (T + string) * cache T :=
  match c with
  | None => (build, None)
  | Some items =>
      match items !! key with
      | Some entry => (entry, c)
      | None => (build, Some (<[key := build]> items))
      end
  end.

(** ** internal/secrets: resolving *)

(** What a read of Vault at a path gives: an error, nothing, or the data of the secret. *)
Inductive vault_read := ReadFailed (err : string) | NoSecret | Data (data : gmap string value).

Record vaultConn := { vault_client : string → vault_read; allowedMount : string }.

Definition vault_resolve (conn : vaultConn + string) (rawValue : string) : string + string :=
  match parseVaultReference rawValue with
  | None => inr "vault: invalid reference"
  | Some (mountPath, field) =>
      match conn with
      | inr err => inr err
      | inl c =>
          let mount := before slash mountPath in
          if decide (allowedMount c ≠ "" ∧ mount ≠ allowedMount c) then inr "vault: mount is not permitted"
          else match vault_client c mountPath with
          | ReadFailed err => inr ("vault: failed to read: " +:+ err)
          | NoSecret => inr "vault: no secret found"
          | Data d =>
              match d !! "data" with
              | Some (VMap data) =>
                  match data !! field with
                  | None => inr "vault: field not found"
                  | Some (VStr s) => inl s
                  | Some _ => inr "vault: field is not a string"
                  end
              | _ => inr "vault: does not look like a KV v2 secret (missing data envelope)"
              end
          end
      end
  end.

Record infisicalConn := { infisical_client : infisical_ref → string + string; allowedProjectID : string }.

Definition infisical_resolve (conn : infisicalConn + string) (rawValue : string) : string + string :=
  match parseInfisicalReference rawValue with
  | None => inr "infisical: invalid reference"
  | Some ref =>
      match conn with
      | inr err => inr err
      | inl c =>
          if decide (allowedProjectID c ≠ "" ∧ projectID ref ≠ allowedProjectID c) then inr "infisical: project is not permitted"
          else match infisical_client c ref with
          | inr err => inr ("infisical: failed to retrieve secret: " +:+ err)
          | inl v => inl v
          end
      end
  end.

Section hooks.
Context (Seal : string → string → string → string) (Open : string → string → string → option string).
(** [secretKey], normalised at start-up; empty when it is not set. *)
Context (secretKey : string).

Definition internal_resolve (rawValue : string) : string + string :=
  if decide (String.length secretKey ≠ 32) then inr "SECRET_KEY must be exactly 32 bytes"
  else match Decrypt Open rawValue secretKey with
  | None => inr "internal secret provider: failed to decrypt value"
  | Some v => inl v
  end.

(** [Registry.Get] on the default registry, and [Resolve] of the provider it gives. *)
Definition registry_resolve (vault : vaultConn + string) (infisical : infisicalConn + string) (name rawValue : string)
  : string + string :=
  let name := if decide (name = "") then "internal" else name in
  if decide (name = "internal") then internal_resolve rawValue
  else if decide (name = "vault") then vault_resolve vault rawValue
  else if decide (name = "infisical") then infisical_resolve infisical rawValue
  else inr ("secrets: unknown provider " +:+ name).

(** ** internal/hooks: a variable before it is saved *)
Inductive hook_error :=
  | KeyNot32 | EncryptFailed (field : string) | KeyRequired | UnknownProvider (provider : string)
  | BadReference (err : ref_error) | SecretDowngrade | ProviderLocked.

Definition placeholder : string := "••••••••".

Definition encryptField (nonce : option string) (field : string) (r : record) : record + hook_error :=
  if decide (String.length secretKey ≠ 32) then inr KeyNot32
  else
    let val := GetString field r in
    if decide (val = "" ∨ val = placeholder) then inl r
    else if IsEncrypted Open val secretKey then inl r
    else match Encrypt Seal nonce val secretKey with
    | None => inr (EncryptFailed field)
    | Some encrypted => inl (SetStr field encrypted r)
    end.

Definition isInternalSecretProvider (provider : string) : bool := bool_decide (provider = "" ∨ provider = "internal").

Definition normalizeEnvVarKey (r : record) : record + hook_error :=
  let key := TrimSpace (GetString "key" r) in
  if decide (key = "") then inr KeyRequired else inl (SetStr "key" key r).

Definition preserveMaskedFieldValue (original : option record) (field : string) (r : record) : record :=
  let val := GetString field r in
  if decide (val ≠ "" ∧ val ≠ placeholder) then r
  else match original with
  | None => r
  | Some o => let originalValue := GetString field o in
              if decide (originalValue = "") then r else SetStr field originalValue r
  end.

Definition preserveMaskedSecretValue (original : option record) (field : string) (r : record) : record :=
  let val := GetString field r in
  if decide (val ≠ "" ∧ val ≠ placeholder) then r
  else match original with
  | None => r
  | Some o =>
      if negb (GetBool "secret" o) then r
      else let originalValue := GetString field o in
           if decide (originalValue = "") then r else SetStr field originalValue r
  end.

Definition preventEnvSecretDowngrade (original : option record) (r : record) : option hook_error :=
  match original with
  | None => None
  | Some o => if GetBool "secret" o && negb (GetBool "secret" r) then Some SecretDowngrade else None
  end.

Definition or_internal (provider : string) : string := if decide (provider = "") then "internal" else provider.

Definition preventEnvSecretProviderChange (original : option record) (r : record) : option hook_error :=
  match original with
  | None => None
  | Some o =>
      if negb (GetBool "secret" o) then None
      else if decide (or_internal (GetString "secret_provider" o) ≠ or_internal (GetString "secret_provider" r))
      then Some ProviderLocked else None
  end.

Definition validateSecretProvider (provider : string) : option hook_error :=
  if existsb (λ valid, bool_decide (provider = valid)) ValidProviders then None else Some (UnknownProvider provider).

(** The provider of the record: a known one, or the default for a secret of a collection
    that has the field. *)
Definition prepare_provider (has_provider_field : bool) (r : record) : record + hook_error :=
  let provider := GetString "secret_provider" r in
  if decide (provider ≠ "") then match validateSecretProvider provider with Some err => inr err | None => inl r end
  else if GetBool "secret" r && has_provider_field then inl (SetStr "secret_provider" "internal" r)
  else inl r.

(** The value of a secret: kept if it came back blank, then encrypted; or a reference. *)
Definition prepare_value (nonce : option string) (original : option record) (r : record) : record + hook_error :=
  if negb (GetBool "secret" r) then inl r
  else if isInternalSecretProvider (GetString "secret_provider" r) then
    encryptField nonce "value" (preserveMaskedSecretValue original "value" r)
  else match ValidateReference (GetString "secret_provider" r) (GetString "value" r) with
  | Some err => inr (BadReference err)
  | None => inl r
  end.

Definition prepareEnvSecretRecord (has_provider_field : bool) (nonce : option string) (original : option record) (r : record)
  : record + hook_error :=
  match normalizeEnvVarKey r with
  | inr err => inr err
  | inl r =>
      match prepare_provider has_provider_field r with
      | inr err => inr err
      | inl r => prepare_value nonce original r
      end
  end.

(** [OnRecordCreate] and [OnRecordUpdate] of the three collections. *)
Definition on_create (has_provider_field : bool) (nonce : option string) (r : record) : record + hook_error :=
  prepareEnvSecretRecord has_provider_field nonce (Some {| Id := ""; fields := ∅ |}) r.

Definition on_update (has_provider_field : bool) (nonce : option string) (original r : record) : record + hook_error :=
  match preventEnvSecretDowngrade (Some original) r with
  | Some err => inr err
  | None =>
      match preventEnvSecretProviderChange (Some original) r with
      | Some err => inr err
      | None => prepareEnvSecretRecord has_provider_field nonce (Some original) r
      end
  end.

(** [OnRecordEnrich]: what an answer of the API shows of the record. *)
Definition enrich (r : record) : record :=
  if GetBool "secret" r && isInternalSecretProvider (GetString "secret_provider" r) then SetStr "value" "" r else r.

(** [OnRecordDelete] of a global variable: it must not be bound to a stack or a job.
    A count fails when its query does; a collection that is missing counts as empty. *)
Inductive delete_error := CountFailed | InUse (stacks jobs : nat).

Definition countRecordsIfCollectionExists (t : option rows + unit) (field id : string) : option nat :=
  match t with inl None => Some 0 | inl (Some l) => Some (length (FindAll field id l)) | inr _ => None end.

Definition delete_global (stack_bindings job_bindings : option rows + unit) (id : string) : option delete_error :=
  match countRecordsIfCollectionExists stack_bindings "global_env_var" id with
  | None => Some CountFailed
  | Some stackCount =>
      match countRecordsIfCollectionExists job_bindings "global_env_var" id with
      | None => Some CountFailed
      | Some jobCount => if decide (0 < stackCount + jobCount) then Some (InUse stackCount jobCount) else None
      end
  end.

(** ** What may be stored *)

(** A secret of the internal provider is empty, the placeholder of a value that was never
    given, or a ciphertext of the server's key; one of an external provider is a reference. *)
Definition at_rest (r : record) : Prop :=
  GetBool "secret" r = true →
  if isInternalSecretProvider (GetString "secret_provider" r)
  then GetString "value" r = "" ∨ GetString "value" r = placeholder ∨ IsEncrypted Open (GetString "value" r) secretKey = true
  else ∃ p, p ∈ ValidProviders ∧ GetString "secret_provider" r = p ∧ ValidateReference p (GetString "value" r) = None.
End hooks.

(** ** The hooks keep secrets encrypted *)
Lemma validateSecretProvider_ok p : validateSecretProvider p = None → p ∈ ValidProviders.
Proof.
  unfold validateSecretProvider. destruct (existsb _ _) eqn:He; [|done]. intros _.
  apply existsb_exists in He as (x & Hx & <-%bool_decide_eq_true). by apply list_elem_of_In.
Qed.

Lemma normalize_ok r r' : normalizeEnvVarKey r = inl r' →
  r' = SetStr "key" (TrimSpace (GetString "key" r)) r ∧ TrimSpace (GetString "key" r) ≠ "".
Proof. unfold normalizeEnvVarKey. case_decide; [done|]. by intros [= <-]. Qed.

(** What the choice of the provider leaves and what it gives. *)
Lemma prepare_provider_ok hp r r' : prepare_provider hp r = inl r' →
  Id r' = Id r ∧ (∀ k, k ≠ "secret_provider" → fields r' !! k = fields r !! k) ∧
  or_internal (GetString "secret_provider" r') = or_internal (GetString "secret_provider" r) ∧
  (GetString "secret_provider" r' = "" ∨ GetString "secret_provider" r' ∈ ValidProviders).
Proof.
  unfold prepare_provider. case_decide as Hp.
  - destruct (validateSecretProvider _) eqn:Hv; [done|]. intros [= <-]. apply validateSecretProvider_ok in Hv. auto.
  - destruct (decide (GetString "secret_provider" r = "")) as [He|]; [|done].
    destruct (GetBool "secret" r && hp); intros [= <-]; [|auto].
    split_and!; [done|intros k Hk; by apply fields_SetField_ne| |]; unfold SetStr; record_simpl; [by rewrite He|right; by left].
Qed.

Section spec.
Context (Seal : string → string → string → string) (Open : string → string → string → option string).
(** What is sealed under a key and a nonce opens under them. *)
Context (open_seal : ∀ key nonce p, Open key nonce (Seal key nonce p) = Some p).
Context (secretKey : string).

Definition nonce_ok (nonce : option string) : Prop := ∀ n, nonce = Some n → String.length n = nonceSize.

Abbreviation encrypted v := (IsEncrypted Open v secretKey = true).
Abbreviation at_rest := (at_rest Open secretKey).

Lemma encrypt_recognised nonce p e : nonce_ok nonce → Encrypt Seal nonce p secretKey = Some e →
  Decrypt Open e secretKey = Some p ∧ encrypted e.
Proof.
  intros Hn He. destruct nonce as [n|]; [|unfold Encrypt in He; by destruct (negb _)].
  pose proof (decrypt_encrypt Seal Open open_seal n p secretKey e (Hn n eq_refl) He) as Hd. split; [done|].
  unfold IsEncrypted. case_decide as Hz; [|rewrite Hd; by apply bool_decide_eq_true].
  subst e. unfold Decrypt in Hd. simpl in Hd. by destruct (negb _).
Qed.

(** An encrypted field holds nothing, the placeholder or a ciphertext. *)
Lemma encryptField_ok nonce f r r' : nonce_ok nonce → encryptField Seal Open secretKey nonce f r = inl r' →
  Id r' = Id r ∧ (∀ k, k ≠ f → fields r' !! k = fields r !! k) ∧
  (GetString f r' = "" ∨ GetString f r' = placeholder ∨ encrypted (GetString f r')) ∧
  (GetString f r' = GetString f r ∨
   (GetString f r ≠ "" ∧ GetString f r ≠ placeholder ∧ IsEncrypted Open (GetString f r) secretKey = false) ∧ Decrypt Open (GetString f r') secretKey = Some (GetString f r)).
Proof.
  intros Hn. unfold encryptField. case_decide; [done|]. case_decide as Hv; [intros [= <-]; destruct Hv; split_and!; auto|].
  destruct (IsEncrypted Open (GetString f r) secretKey) eqn:Hi; [intros [= <-]; split_and!; auto|].
  destruct (Encrypt _ _ _ _) as [e|] eqn:He; [|done]. intros [= <-]. destruct (encrypt_recognised _ _ _ Hn He).
  rewrite GetString_SetStr. split_and!; [done|intros k Hk; by apply fields_SetField_ne|auto|]. right. split_and!; auto.
Qed.

Lemma preserve_ok original f r : let r' := preserveMaskedSecretValue original f r in
  Id r' = Id r ∧ ∀ k, k ≠ f → fields r' !! k = fields r !! k.
Proof.
  unfold preserveMaskedSecretValue. case_decide; [done|]. destruct original as [o|]; [|done].
  destruct (negb _); [done|]. case_decide; [done|]. split; [done|]. intros k Hk. by apply fields_SetField_ne.
Qed.

Lemma internal_or p : isInternalSecretProvider p = bool_decide (or_internal p = "internal").
Proof. unfold isInternalSecretProvider, or_internal. apply bool_decide_ext. case_decide; subst; tauto. Qed.

Lemma get_same k r r' : fields r' !! k = fields r !! k → GetString k r' = GetString k r ∧ GetBool k r' = GetBool k r.
Proof. unfold GetString, GetBool. by intros ->. Qed.

(** A variable the hook lets through: what was submitted of the other fields, the key
    trimmed, a known provider, and of a secret nothing but what may be stored. *)
Lemma prepare_ok hp nonce o r r' : nonce_ok nonce → prepareEnvSecretRecord Seal Open secretKey hp nonce o r = inl r' →
  Id r' = Id r ∧ (∀ k, k ≠ "value" → k ≠ "key" → k ≠ "secret_provider" → fields r' !! k = fields r !! k) ∧
  GetString "key" r' = TrimSpace (GetString "key" r) ∧ GetString "key" r' ≠ "" ∧
  or_internal (GetString "secret_provider" r') = or_internal (GetString "secret_provider" r) ∧ at_rest r'.
Proof.
  intros Hn. unfold prepareEnvSecretRecord. destruct (normalizeEnvVarKey r) as [r1|] eqn:H1; [|done].
  apply normalize_ok in H1 as [-> Hk]. set (r1 := SetStr "key" _ r).
  destruct (prepare_provider hp r1) as [r2|] eqn:H2; [|done]. apply prepare_provider_ok in H2 as (Hi2 & Hf2 & Hp2 & Hv2).
  intros Hpv. assert (Id r' = Id r2 ∧ (∀ k, k ≠ "value" → fields r' !! k = fields r2 !! k) ∧ at_rest r') as (Hi & Hf & Hr).
  { unfold prepare_value in Hpv. unfold EnvSecrets.at_rest. destruct (GetBool "secret" r2) eqn:Hs; cbn [negb] in Hpv; [|simplify_eq; by rewrite Hs].
    destruct (isInternalSecretProvider (GetString "secret_provider" r2)) eqn:Hint.
    - pose proof (preserve_ok o "value" r2) as [Hi3 Hf3]. apply (encryptField_ok _ _ _ _ Hn) in Hpv as (Hi4 & Hf4 & Hv4 & _).
      assert (∀ k, k ≠ "value" → fields r' !! k = fields r2 !! k) as Hf by (intros k Hne; by rewrite Hf4 // Hf3).
      split_and!; [by rewrite Hi4|done|]. intros _. destruct (get_same "secret_provider" _ _ (Hf "secret_provider" ltac:(done))) as [-> _]. by rewrite Hint.
    - destruct (ValidateReference _ _) eqn:Hr; [done|]. simplify_eq. split_and!; [done|done|]. intros _. rewrite Hint.
      exists (GetString "secret_provider" r'). split_and!; [|done|done]. destruct Hv2 as [Hv2|Hv2]; [|done].
      unfold isInternalSecretProvider in Hint. apply bool_decide_eq_false in Hint. naive_solver. }
  destruct (get_same "key" _ _ (Hf "key" ltac:(done))) as [Hkey _]. rewrite (proj1 (get_same "key" _ _ (Hf2 "key" ltac:(done)))) in Hkey.
  assert (GetString "key" r1 = TrimSpace (GetString "key" r)) as Hk1 by (unfold r1; by rewrite GetString_SetStr).
  split_and!; [by rewrite Hi Hi2| |congruence|congruence| |done].
  - intros k H1 H3 H4. rewrite Hf // Hf2 //. unfold r1. by apply fields_SetField_ne.
  - rewrite (proj1 (get_same _ _ _ (Hf "secret_provider" ltac:(done)))) Hp2. unfold r1, SetStr. by record_simpl.
Qed.

(** ** A collection of variables

    One request after the other: what it reads is what it changes. *)
Context (hp : bool).

Inductive step : rows → rows → Prop :=
  | step_create t nonce r r' : nonce_ok nonce → Id r ∉ ids_of t → on_create Seal Open secretKey hp nonce r = inl r' → step t (upsert r' t)
  | step_update t nonce o r r' : nonce_ok nonce → FindById (Id r) t = Some o → on_update Seal Open secretKey hp nonce o r = inl r' →
      step t (upsert r' t)
  | step_delete t id : step t (filter (λ r, Id r ≠ id) t).

Lemma update_prepared nonce o r r' : on_update Seal Open secretKey hp nonce o r = inl r' →
  prepareEnvSecretRecord Seal Open secretKey hp nonce (Some o) r = inl r' ∧ (GetBool "secret" o = true → GetBool "secret" r = true) ∧
  (GetBool "secret" o = true → or_internal (GetString "secret_provider" o) = or_internal (GetString "secret_provider" r)).
Proof.
  unfold on_update, preventEnvSecretDowngrade, preventEnvSecretProviderChange.
  destruct (GetBool "secret" o); cbn [negb andb]; [|intros ->; split_and!; done].
  destruct (GetBool "secret" r); cbn [negb]; [|done]. case_decide as Hp; [done|]. intros ->. split_and!; [done..|].
  intros _. by destruct (decide (or_internal (GetString "secret_provider" o) = or_internal (GetString "secret_provider" r))).
Qed.

Lemma step_at_rest t t' : step t t' → Forall at_rest t → Forall at_rest t'.
Proof.
  intros Hs Ht. rewrite !Forall_forall in Ht |- *. intros x Hx. destruct Hs as [t nonce r r' Hn _ Hc|t nonce o r r' Hn _ Hu|t id].
  - apply (prepare_ok _ _ _ _ _ Hn) in Hc as (_ & _ & _ & _ & _ & Hr). apply elem_of_upsert in Hx as [->|[Hx _]]; auto.
  - apply update_prepared in Hu as [Hu _]. apply (prepare_ok _ _ _ _ _ Hn) in Hu as (_ & _ & _ & _ & _ & Hr).
    apply elem_of_upsert in Hx as [->|[Hx _]]; auto.
  - apply list_elem_of_filter in Hx as [_ Hx]. auto.
Qed.

Lemma run_at_rest t t' : rtc step t t' → Forall at_rest t → Forall at_rest t'.
Proof. induction 1; eauto using step_at_rest. Qed.

(** The value of an internal secret after a change: a blank or masked one, or the stored
    one itself, is the one that was there. *)
Lemma update_keeps_value nonce o r r' : nonce_ok nonce → at_rest o → on_update Seal Open secretKey hp nonce o r = inl r' →
  GetBool "secret" o = true → isInternalSecretProvider (GetString "secret_provider" o) = true →
  GetString "value" o ≠ "" → GetString "value" r ∈ [""; placeholder; GetString "value" o] →
  GetString "value" r' = GetString "value" o.
Proof.
  intros Hn Ho Hu Hso Hio Hvo Hv. apply update_prepared in Hu as (Hu & Hs & Hp). specialize (Hs Hso). specialize (Hp Hso).
  unfold prepareEnvSecretRecord in Hu. destruct (normalizeEnvVarKey r) as [r1|] eqn:H1; [|done]. apply normalize_ok in H1 as [-> _].
  destruct (prepare_provider _ _) as [r2|] eqn:H2; [|done]. apply prepare_provider_ok in H2 as (_ & Hf2 & Hp2 & _).
  assert (GetBool "secret" r2 = true) as Hs2.
  { rewrite (proj2 (get_same "secret" _ _ (Hf2 "secret" ltac:(done)))). unfold SetStr. by rewrite GetBool_SetField_ne. }
  assert (GetString "value" r2 = GetString "value" r) as Hv2.
  { rewrite (proj1 (get_same "value" _ _ (Hf2 "value" ltac:(done)))). unfold SetStr. by record_simpl. }
  assert (isInternalSecretProvider (GetString "secret_provider" r2) = true) as Hi2.
  { unfold SetStr in Hp2. rewrite GetString_SetField_ne in Hp2; [|done]. rewrite -Hp2 in Hp. rewrite internal_or -Hp -internal_or. done. }
  unfold prepare_value in Hu. rewrite Hs2 Hi2 in Hu. cbn [negb] in Hu. apply (encryptField_ok _ _ _ _ Hn) in Hu as (_ & _ & _ & Hu).
  assert (GetString "value" (preserveMaskedSecretValue (Some o) "value" r2) = GetString "value" o) as Hpres.
  { rewrite !elem_of_cons elem_of_nil in Hv. unfold preserveMaskedSecretValue. rewrite Hv2. case_decide; [destruct Hv as [|[|[|[]]]]; tauto || congruence|].
    rewrite Hso. cbn [negb]. case_decide; [done|]. by rewrite GetString_SetStr. }
  rewrite Hpres in Hu. destruct Hu as [Hu|[(H1 & H2 & H3) _]]; [done|]. specialize (Ho Hso). rewrite Hio in Ho.
  destruct Ho as [Ho|[Ho|Ho]]; [done|done|congruence].
Qed.

(** C15: However variables are created, changed and deleted, one request after the other, a
    secret of the internal provider is stored as a ciphertext of the server's key (or has
    no value yet) and a secret of an external one as a reference to it; the API shows no
    value of an internal one; and no request makes a secret plain or hands it to another
    provider. *)
Theorem secrets_at_rest t t' : Forall at_rest t → rtc step t t' →
  Forall at_rest t' ∧
  (∀ r, r ∈ t' → GetBool "secret" r = true → isInternalSecretProvider (GetString "secret_provider" r) = true →
     GetString "value" (enrich r) = "") ∧
  ∀ nonce o r r', nonce_ok nonce → o ∈ t' → GetBool "secret" o = true → on_update Seal Open secretKey hp nonce o r = inl r' →
    GetBool "secret" r' = true ∧ or_internal (GetString "secret_provider" r') = or_internal (GetString "secret_provider" o).
Proof.
  intros Ht Hs. split_and!; [by eapply run_at_rest|..].
  - intros r _ Hsec Hint. unfold enrich. rewrite Hsec Hint. cbn [andb]. by rewrite GetString_SetStr.
  - intros nonce o r r' Hn _ Hso Hu. apply update_prepared in Hu as (Hu & H1 & H2).
    apply (prepare_ok _ _ _ _ _ Hn) in Hu as (_ & Hf & _ & _ & Hp & _). rewrite Hp H2 //. split; [|done].
    rewrite (proj2 (get_same "secret" _ _ (Hf "secret" ltac:(done) ltac:(done) ltac:(done)))). auto.
Qed.

(** The hook on a record of an internal secret, step by step. *)
Lemma prepare_internal nonce o r : String.length secretKey = 32 → nonce_ok (Some nonce) → TrimSpace (GetString "key" r) ≠ "" →
  GetBool "secret" r = true → isInternalSecretProvider (GetString "secret_provider" r) = true →
  ∃ r', prepareEnvSecretRecord Seal Open secretKey hp (Some nonce) o r = inl r'.
Proof.
  intros Hk Hn Hkey Hs Hi. unfold prepareEnvSecretRecord, normalizeEnvVarKey. rewrite decide_False //.
  set (r1 := SetStr "key" _ r). assert (∃ r2, prepare_provider hp r1 = inl r2) as [r2 H2].
  { unfold prepare_provider. case_decide; [|destruct (_ && _); eauto].
    assert (GetString "secret_provider" r1 = "internal") as ->; [|eexists; reflexivity].
    apply bool_decide_eq_true in Hi. unfold r1, SetStr in *. rewrite GetString_SetField_ne // in H |- *. by destruct Hi. }
  rewrite H2. apply prepare_provider_ok in H2 as (_ & Hf2 & Hp2 & _).
  assert (GetBool "secret" r2 = true) as Hs2.
  { rewrite (proj2 (get_same "secret" _ _ (Hf2 "secret" ltac:(done)))). unfold r1, SetStr. by rewrite GetBool_SetField_ne. }
  assert (isInternalSecretProvider (GetString "secret_provider" r2) = true) as Hi2.
  { rewrite internal_or Hp2. unfold r1, SetStr. by rewrite GetString_SetField_ne // -internal_or. }
  unfold prepare_value. rewrite Hs2 Hi2. cbn [negb]. unfold encryptField.
  destruct (decide (String.length secretKey ≠ 32)); [done|]. case_match; [eauto|]. destruct (IsEncrypted _ _ _); [eauto|].
  unfold Encrypt. rewrite key_size_32 //. simpl. eauto.
Qed.

(** The value the hook stores: of a plain variable and of a reference what was
    submitted, of a new value of an internal secret a ciphertext of it. *)
Lemma prepare_value_spec nonce o r r' : nonce_ok nonce → prepareEnvSecretRecord Seal Open secretKey hp nonce o r = inl r' →
  (GetBool "secret" r = false ∨ isInternalSecretProvider (GetString "secret_provider" r) = false → GetString "value" r' = GetString "value" r) ∧
  (GetBool "secret" r = true → isInternalSecretProvider (GetString "secret_provider" r) = true →
   GetString "value" r ≠ "" → GetString "value" r ≠ placeholder →
   if IsEncrypted Open (GetString "value" r) secretKey then GetString "value" r' = GetString "value" r
   else Decrypt Open (GetString "value" r') secretKey = Some (GetString "value" r)).
Proof.
  intros Hn. unfold prepareEnvSecretRecord. destruct (normalizeEnvVarKey r) as [r1|] eqn:H1; [|done].
  apply normalize_ok in H1 as [-> _]. set (r1 := SetStr "key" _ r).
  destruct (prepare_provider hp r1) as [r2|] eqn:H2; [|done]. apply prepare_provider_ok in H2 as (_ & Hf2 & Hp2 & _).
  assert (GetBool "secret" r2 = GetBool "secret" r ∧ GetString "value" r2 = GetString "value" r) as [Hs2 Hv2].
  { rewrite (proj2 (get_same "secret" _ _ (Hf2 "secret" ltac:(done)))) (proj1 (get_same "value" _ _ (Hf2 "value" ltac:(done)))).
    unfold r1, SetStr. by rewrite GetBool_SetField_ne // GetString_SetField_ne. }
  assert (isInternalSecretProvider (GetString "secret_provider" r2) = isInternalSecretProvider (GetString "secret_provider" r)) as Hi2.
  { rewrite !internal_or Hp2. unfold r1, SetStr. by rewrite GetString_SetField_ne. }
  unfold prepare_value. rewrite Hs2 Hi2. destruct (GetBool "secret" r); cbn [negb]; [|by intros [= <-]].
  destruct (isInternalSecretProvider (GetString "secret_provider" r)).
  - intros Hr'. split; [by intros []|]. intros _ _ V1 V2.
    assert (preserveMaskedSecretValue o "value" r2 = r2) as Hr3 by (unfold preserveMaskedSecretValue; rewrite Hv2; case_decide; [done|tauto]).
    rewrite Hr3 in Hr'. unfold encryptField in Hr'. rewrite Hv2 in Hr'. destruct (decide (String.length secretKey ≠ 32)); [done|].
    destruct (decide (_ ∨ _)) as [[]|]; [done|done|]. destruct (IsEncrypted _ _ _); [by simplify_eq|].
    destruct (Encrypt _ _ _ _) as [e|] eqn:He; [|done]. simplify_eq. rewrite GetString_SetStr. by apply (encrypt_recognised _ _ _ Hn) in He as [-> _].
  - destruct (ValidateReference _ _); [done|]. intros [= <-]. split; [done|]. intros _. discriminate.
Qed.

(** What a deploy reads of a stored internal secret. *)
Lemma resolve_internal vault infisical r key v : String.length secretKey = 32 → TrimSpace (GetString "key" r) = key → key ≠ "" →
  GetBool "secret" r = true → isInternalSecretProvider (GetString "secret_provider" r) = true →
  Decrypt Open (GetString "value" r) secretKey = Some v →
  resolve_row (Some (registry_resolve Open secretKey vault infisical)) r = inl (Some (key, v)).
Proof.
  intros Hk Hkey Hne Hs Hi Hd. unfold resolve_row. rewrite Hkey decide_False // Hs. rewrite internal_or in Hi. apply bool_decide_eq_true in Hi.
  unfold registry_resolve. fold (or_internal (GetString "secret_provider" r)). rewrite Hi. destruct (decide ("internal" = "internal")); [|done].
  unfold internal_resolve. destruct (decide (String.length secretKey ≠ 32)); [done|by rewrite Hd].
Qed.

(** C38: A value submitted as a secret is what a deploy hands to the containers: it is saved,
    the API does not show it, and a client that sends the shown record back, blank value
    and all, changes nothing of that. *)
Theorem secret_reaches_deploy vault infisical nonce nonce' r :
  String.length secretKey = 32 → String.length nonce = nonceSize → String.length nonce' = nonceSize →
  TrimSpace (GetString "key" r) ≠ "" → GetBool "secret" r = true → isInternalSecretProvider (GetString "secret_provider" r) = true →
  GetString "value" r ≠ "" → GetString "value" r ≠ placeholder → IsEncrypted Open (GetString "value" r) secretKey = false →
  ∃ r' r'', on_create Seal Open secretKey hp (Some nonce) r = inl r' ∧
    on_update Seal Open secretKey hp (Some nonce') r' (enrich r') = inl r'' ∧ GetString "value" (enrich r') = "" ∧
    ∀ x, x ∈ [r'; r''] → resolve_row (Some (registry_resolve Open secretKey vault infisical)) x =
                          inl (Some (TrimSpace (GetString "key" r), GetString "value" r)).
Proof.
  intros Hk Hn Hn' Hkey Hs Hi V1 V2 V3.
  assert (nonce_ok (Some nonce)) as HN by (intros ? [= <-]; done). assert (nonce_ok (Some nonce')) as HN' by (intros ? [= <-]; done).
  destruct (prepare_internal nonce (Some {| Id := ""; fields := ∅ |}) r Hk HN Hkey Hs Hi) as (r' & Hr').
  destruct (prepare_value_spec _ _ _ _ HN Hr') as [_ Hd]. specialize (Hd Hs Hi V1 V2). rewrite V3 in Hd.
  pose proof (prepare_ok _ _ _ _ _ HN Hr') as (_ & Hf & Hkr & _ & Hp & Hrest).
  assert (GetBool "secret" r' = true) as Hs'.
  { by rewrite (proj2 (get_same "secret" _ _ (Hf "secret" ltac:(done) ltac:(done) ltac:(done)))). }
  assert (isInternalSecretProvider (GetString "secret_provider" r') = true) as Hi' by (rewrite internal_or Hp -internal_or; done).
  assert (enrich r' = SetStr "value" "" r') as He by (unfold enrich; by rewrite Hs' Hi').
  assert (TrimSpace (GetString "key" (enrich r')) = TrimSpace (GetString "key" r)) as Hke.
  { rewrite He. unfold SetStr. record_simpl. by rewrite Hkr TrimSpace_idemp. }
  assert (GetBool "secret" (enrich r') = true ∧ GetString "secret_provider" (enrich r') = GetString "secret_provider" r') as [Hse Hpe].
  { rewrite He. unfold SetStr. by rewrite GetBool_SetField_ne // GetString_SetField_ne. }
  destruct (prepare_internal nonce' (Some r') (enrich r') Hk HN') as (r'' & Hr''); [congruence|done|by rewrite Hpe|].
  pose proof (prepare_ok _ _ _ _ _ HN' Hr'') as (_ & Hf'' & Hkr'' & _ & Hp'' & _).
  assert (on_update Seal Open secretKey hp (Some nonce') r' (enrich r') = inl r'') as Hu.
  { unfold on_update, preventEnvSecretDowngrade, preventEnvSecretProviderChange. rewrite Hs' Hse Hpe. cbn [andb negb].
    case_decide; [done|]. done. }
  exists r', r''. split_and!; [done|done|rewrite He; by rewrite GetString_SetStr|]. intros x Hx.
  assert (GetString "value" r'' = GetString "value" r') as Hv.
  { apply (update_keeps_value _ _ _ _ HN' Hrest Hu Hs' Hi'); [|rewrite He GetString_SetStr; by left].
    intros Hz. rewrite Hz in Hd. unfold Decrypt in Hd. simpl in Hd. by destruct (negb _). }
  rewrite !elem_of_cons elem_of_nil in Hx. destruct Hx as [->|[->|[]]].
  - apply resolve_internal; [done|by rewrite Hkr TrimSpace_idemp|done..].
  - apply resolve_internal; [done|by rewrite Hkr'' Hke TrimSpace_idemp|done| | |by rewrite Hv].
    + by rewrite (proj2 (get_same "secret" _ _ (Hf'' "secret" ltac:(done) ltac:(done) ltac:(done)))).
    + by rewrite internal_or Hp'' Hpe -internal_or.
Qed.
End spec.

(** ** Where the hooks end

    They compare with the record as it was read.  Two changes of one plain variable read
    beside each other, one that makes it a secret and one that gives it a new value: both
    pass, and when the second is saved last the variable is plain again or holds its
    value unencrypted under the mark of a secret. *)
Definition plain_var : record :=
  SetBool "secret" false (SetStr "value" "old" (SetStr "key" "DB_PASS" {| Id := "v1"; fields := ∅ |})).

Theorem concurrent_change_exposes save_over : save_spec save_over →
  ∃ made revalued, on_update toy_seal toy_open toy_key true (Some toy_nonce) plain_var (SetBool "secret" true plain_var) = inl made ∧
    on_update toy_seal toy_open toy_key true (Some toy_nonce) plain_var (SetStr "value" "new" plain_var) = inl revalued ∧
    at_rest toy_open toy_key made ∧ GetBool "secret" made = true ∧
    let row := save_over plain_var revalued made in GetBool "secret" row = false ∨ ¬ at_rest toy_open toy_key row.
Proof.
  intros Hsave. eexists _, _. split; [vm_compute; reflexivity|]. split; [vm_compute; reflexivity|].
  set (made := {| Id := "v1"; fields := _ |}). set (revalued := {| Id := "v1"; fields := _ |}).
  split; [intros _; right; right; vm_compute; reflexivity|]. split; [reflexivity|]. intros row.
  destruct (GetBool "secret" row) eqn:Hs; [right|by left]. intros Hr. specialize (Hr Hs).
  assert (GetString "value" row = "new") as Hv.
  { unfold GetString. destruct (Hsave plain_var revalued made "value") as [_ [Hx|[_ Hx]]]; [by rewrite Hx|discriminate]. }
  rewrite Hv in Hr. destruct (isInternalSecretProvider _) eqn:Hi; [destruct Hr as [?|[?|?]]; discriminate|].
  destruct (Hsave plain_var revalued made "secret_provider") as [_ [Hx|[Hx _]]];
    apply (get_same "secret_provider") in Hx as [Hx _]; fold row in Hx; rewrite Hx in Hi; discriminate.
Qed.

(** The comment of [validateSecretProvider] speaks of vault and infisical as providers it
    keeps out; both are accepted. *)
Theorem external_providers_accepted : validateSecretProvider "vault" = None ∧ validateSecretProvider "infisical" = None.
Proof. done. Qed.

(** ** References *)

(** A restricted Vault backend is read at the mount it is restricted to, a restricted
    Infisical one in its project; and what the hooks accept as a reference is one the
    provider can read. *)
Theorem backends_stay_in_scope (c : vaultConn) (i : infisicalConn) raw :
  (∀ v, vault_resolve (inl c) raw = inl v → allowedMount c ≠ "" → ∃ path field data envelope,
     parseVaultReference raw = Some (path, field) ∧ before slash path = allowedMount c ∧ vault_client c path = Data data ∧
     data !! "data" = Some (VMap envelope) ∧ envelope !! field = Some (VStr v)) ∧
  (∀ v, infisical_resolve (inl i) raw = inl v → allowedProjectID i ≠ "" → ∃ ref,
     parseInfisicalReference raw = Some ref ∧ projectID ref = allowedProjectID i ∧ infisical_client i ref = inl v) ∧
  (ValidateReference "vault" raw = None ↔ TrimSpace raw ≠ "" ∧ is_Some (parseVaultReference raw)) ∧
  (ValidateReference "infisical" raw = None ↔ TrimSpace raw ≠ "" ∧ is_Some (parseInfisicalReference raw)).
Proof.
  split_and!.
  - intros v Hv Ha. unfold vault_resolve in Hv. destruct (parseVaultReference raw) as [[path field]|]; [|done].
    case_decide as Hd; [done|]. destruct (vault_client c path) as [| |data] eqn:Hc; [done..|].
    destruct (data !! "data") as [[| | | | |envelope]|] eqn:He; try done. destruct (envelope !! field) as [[]|] eqn:Hf; simplify_eq.
    exists path, field, data, envelope. split_and!; [done| |done..].
    destruct (decide (before slash path = allowedMount c)); [done|]. tauto.
  - intros v Hv Ha. unfold infisical_resolve in Hv. destruct (parseInfisicalReference raw) as [ref|]; [|done].
    case_decide as Hd; [done|]. destruct (infisical_client i ref) eqn:Hc; simplify_eq. exists ref. split_and!; [done| |done].
    destruct (decide (projectID ref = allowedProjectID i)); [done|]. tauto.
  - unfold ValidateReference. case_decide; [split; [done|tauto]|].
    destruct (parseVaultReference raw); split; naive_solver.
  - unfold ValidateReference. case_decide; [split; [done|tauto]|].
    destruct (parseInfisicalReference raw); split; naive_solver.
Qed.

(** ** One connection per pass *)
Fixpoint load_all {T} (c : cache T) (key : string) (builds : list (T + string)) : list (T + string) * cache T :=
  match builds with
  | [] => ([], c)
  | b :: builds => let '(x, c) := loadCachedConn c key b in let '(l, c) := load_all c key builds in (x :: l, c)
  end.

Lemma load_all_cached {T} items key (entry : T + string) builds : items !! key = Some entry →
  load_all (Some items) key builds = (repeat entry (length builds), Some items).
Proof. intros Hk. induction builds as [|b l IH]; [done|]. simpl. by rewrite Hk IH. Qed.

(** Within a pass a backend is connected to once, also when that fails: every secret of
    the pass gets the result of the first attempt. *)
Theorem one_connection_per_pass {T} key (b : T + string) builds :
  load_all (Some ∅) key (b :: builds) = (repeat b (S (length builds)), Some {[key := b]}).
Proof. simpl. rewrite lookup_empty. rewrite (load_all_cached _ _ b); [done|apply lookup_insert_eq]. Qed.

(** ** Witnesses *)
Definition secret_var : record :=
  SetBool "secret" true (SetStr "value" "s3cret" (SetStr "key" " DB_PASS" {| Id := "v2"; fields := ∅ |})).

Lemma secrets_at_rest_witness : Forall (at_rest toy_open toy_key) [] ∧
  ∃ t, Forall (at_rest toy_open toy_key) t ∧ t ≠ [].
Proof.
  split; [constructor|]. eexists. split.
  - refine (proj1 (secrets_at_rest toy_seal toy_open toy_cipher_open toy_key true [] _ _ _)); [constructor|].
    eapply rtc_l; [|apply rtc_refl].
    eapply (step_create toy_seal toy_open toy_key true [] (Some toy_nonce) secret_var); [intros n [= <-]; reflexivity|apply not_elem_of_nil|].
    vm_compute. reflexivity.
  - vm_compute. discriminate.
Defined.

Lemma secret_reaches_deploy_witness : TrimSpace " DB_PASS" = "DB_PASS" ∧
  ∃ r' r'', on_create toy_seal toy_open toy_key true (Some toy_nonce) secret_var = inl r' ∧
    on_update toy_seal toy_open toy_key true (Some toy_nonce) r' (enrich r') = inl r'' ∧ GetString "value" (enrich r') = "" ∧
    ∀ x, x ∈ [r'; r''] → resolve_row (Some (registry_resolve toy_open toy_key (inr "") (inr ""))) x =
                          inl (Some (TrimSpace (GetString "key" secret_var), GetString "value" secret_var)).
Proof.
  split; [vm_compute; reflexivity|].
  apply (secret_reaches_deploy toy_seal toy_open toy_cipher_open toy_key true); vm_compute; congruence.
Defined.

Lemma concurrent_change_exposes_witness : save_spec save_all ∧ ∃ made revalued,
  on_update toy_seal toy_open toy_key true (Some toy_nonce) plain_var (SetBool "secret" true plain_var) = inl made ∧
    on_update toy_seal toy_open toy_key true (Some toy_nonce) plain_var (SetStr "value" "new" plain_var) = inl revalued ∧
    at_rest toy_open toy_key made ∧ GetBool "secret" made = true ∧
    let row := save_all plain_var revalued made in GetBool "secret" row = false ∨ ¬ at_rest toy_open toy_key row.
Proof. split; [exact save_all_spec|]. apply (concurrent_change_exposes save_all). exact save_all_spec. Defined.
