(* ===== verification/SopsFiles.v ===== *)
(** * internal/secrets/sops.go and internal/routes/sops_routes.go: SOPS files

    The encrypted file of secrets next to a stack's definition: where it is looked for in
    the checkout of the repository, how it is decrypted with the key pair of the
    repository and the three routes around it.  The SOPS and age libraries, the YAML
    decoder and the file system are parameters; the process environment and the
    temporary files, which the decryption changes, are state. *)
From Stdlib Require Import ZArith.
From S2P Require Import Prelude GoStrings GoPath GoFmt GoValue ComposeDoc SafePath PbRecord PbTable Crypto EnvSecrets.

(** ** Finding the file *)
Definition SecretsFileNames : list string := ["secrets.yaml"; "secrets.yml"].

(** What [Root.Lstat] and [Root.ReadFile] find at a path relative to an open root. *)
Inductive node := Missing | StatFailed | Symlink | Directory | Regular (content : option string).

Inductive sops_error := CannotOpen (err : path_error) | CannotStat (path : string) | IsSymlink (path : string) | CannotRead (path : string).

Section files.
(** [os.OpenRoot]: what is in the root, or whether it is the root that is missing. *)
Context (open_root : string → (string → node) + bool).

(** [safepath.OpenRoot], where the error of a missing root is told apart. *)
Definition open_dir (root dir : string) : ((string → node) * string) + (path_error * bool) :=
  let missing := λ p, match open_root p with inr b => b | inl _ => false end in
  match OpenRoot (λ p, match open_root p with inl r => Some r | inr _ => None end) root dir with
  | inl err => inr (err, match err with ECannotOpen p => missing p | _ => false end)
  | inr x => inl x
  end.

(** The loop over the two names: the file that is there with what it holds. *)
Fixpoint first_file (lstat : string → node) (rel dir : string) (names : list string) : option (string * option string) + sops_error :=
  match names with
  | [] => inl None
  | name :: names =>
      let relPath := PathJoin rel name in
      let path := PathJoin dir name in
      match lstat relPath with
      | Missing => first_file lstat rel dir names
      | StatFailed => inr (CannotStat path)
      | Symlink => inr (IsSymlink path)
      | Directory => first_file lstat rel dir names
      | Regular content => inl (Some (path, content))
      end
  end.

Definition FindSecretsFile (root dir : string) : string + sops_error :=
  match open_dir root dir with
  | inr (err, notExist) => if notExist : bool then inl "" else inr (CannotOpen err)
  | inl (lstat, rel) =>
      match first_file lstat rel dir SecretsFileNames with
      | inr err => inr err
      | inl None => inl ""
      | inl (Some (path, _)) => inl path
      end
  end.

Definition ReadSecretsFile (root dir : string) : option (string * string) + sops_error :=
  match open_dir root dir with
  | inr (err, notExist) => if notExist : bool then inl None else inr (CannotOpen err)
  | inl (lstat, rel) =>
      match first_file lstat rel dir SecretsFileNames with
      | inr err => inr err
      | inl None => inl None
      | inl (Some (path, None)) => inr (CannotRead path)
      | inl (Some (path, Some content)) => inl (Some (path, content))
      end
  end.
End files.

(** ** Decrypting it *)
Section values.
(** The decoder's map, if the text is YAML of one, and how a number of it prints ([None]
    for one that is no [int], [int64] or [float64]). *)
Context (yaml_load : string → option (gmap string value)) (show_num : string → option string).

Definition scalar (v : value) : option string :=
  match v with
  | VStr s => Some s
  | VNum n => show_num n
  | VBool b => Some (if b then "true" else "false")
  | VNull => Some ""
  | _ => None
  end.

Inductive decrypt_error := NoAgeKey | TempFailed | SetenvFailed | CannotDecrypt (err : string) | NotYaml | NotFlat.

Definition flattenSecretsYAML (plaintext : string) : gmap string string + decrypt_error :=
  match yaml_load plaintext with
  | None => inr NotYaml
  | Some raw => if decide (map_Forall (λ _ v, is_Some (scalar v)) raw) then inl (omap scalar raw) else inr NotFlat
  end.

(** The process: its environment and the temporary files. *)
Record process := { environ : gmap string string; temp_files : gmap string string }.

Definition set_env (k v : string) (p : process) : process := {| environ := <[k := v]> (environ p); temp_files := temp_files p |}.
Definition unset_env (k : string) (p : process) : process := {| environ := delete k (environ p); temp_files := temp_files p |}.
Definition write_temp (f c : string) (p : process) : process := {| environ := environ p; temp_files := <[f := c]> (temp_files p) |}.
Definition remove_temp (f : string) (p : process) : process := {| environ := environ p; temp_files := delete f (temp_files p) |}.

(** What the operating system answers: the name of the new temporary file, whether its mode
    can be set, whether it can be written (and what of it is there if not), closed and
    removed, and whether the environment can be set. *)
Record os_calls := { os_temp : option string; os_chmod : bool; os_write : bool; os_partial : string; os_close : bool; os_setenv : bool; os_remove : bool }.

(** [cipher.Decrypt] of the library reads the key from the file the environment names. *)
Context (sops_decrypt : process → string → string + string).

Definition SOPS_AGE_KEY_FILE := "SOPS_AGE_KEY_FILE".

(** From the set environment to the end, with the deferred restore. *)
Definition with_key_file (w : os_calls) (keyPath content : string) (p : process) : (gmap string string + decrypt_error) * process :=
  let prev := environ p !! SOPS_AGE_KEY_FILE in
  if negb (os_setenv w) then (inr SetenvFailed, p)
  else
    let p := set_env SOPS_AGE_KEY_FILE keyPath p in
    let r := match sops_decrypt p content with
             | inr err => inr (CannotDecrypt err)
             | inl plaintext => flattenSecretsYAML plaintext
             end in
    (r, match prev with Some v => set_env SOPS_AGE_KEY_FILE v p | None => unset_env SOPS_AGE_KEY_FILE p end).

Definition DecryptSecretsFile (w : os_calls) (content ageKeyPlaintext : string) (p : process) : (gmap string string + decrypt_error) * process :=
  if decide (ageKeyPlaintext = "") then (inr NoAgeKey, p)
  else match os_temp w with
  | None => (inr TempFailed, p)
  | Some keyPath =>
      let created := write_temp keyPath "" p in
      let '(r, p) :=
        if negb (os_chmod w) then (inr TempFailed, created)
        else if negb (os_write w) then (inr TempFailed, write_temp keyPath (os_partial w) p)
        else let written := write_temp keyPath ageKeyPlaintext p in
             if negb (os_close w) then (inr TempFailed, written) else with_key_file w keyPath content written in
      (r, if os_remove w then remove_temp keyPath p else p)
  end.

(** ** Encrypting one *)
Context (yaml_dump : gmap string string → string) (sops_encrypt : string → string → option string).

Inductive encrypt_error := NoPublicKey | NoValues | BadName | LibraryFailed.

Definition EncryptSecretsMap (values : gmap string string) (agePublicKey : string) : string + encrypt_error :=
  if decide (agePublicKey = "") then inr NoPublicKey
  else if decide (values = ∅) then inr NoValues
  else if decide (map_Forall (λ k _, envVarKeyPattern k = true) values)
  then match sops_encrypt agePublicKey (yaml_dump values) with Some e => inl e | None => inr LibraryFailed end
  else inr BadName.
End values.

(** ** The routes *)
Section routes.
Context (Seal : string → string → string → string) (Open : string → string → string → option string) (secretKey : string).

(** A fresh key pair on a repository, when it is created ([ensureRepositorySopsKeypair])
    and when it is rotated: the private key encrypted, both fields overwritten. *)
Definition set_keypair (pair : option (string * string)) (nonce : option string) (repository : record) : option record :=
  match pair with
  | None => None
  | Some (privateKey, publicKey) =>
      match Encrypt Seal nonce privateKey secretKey with
      | None => None
      | Some encrypted => Some (SetStr "sops_age_public_key" publicKey (SetStr "sops_age_key" encrypted repository))
      end
  end.

Inductive rotate_answer := RepoNotFound | Failed500 | Rotated (publicKey : string).

Definition sops_rotate_key (pair : option (string * string)) (nonce : option string) (saved : bool) (repoID : string) (repos : rows)
  : rotate_answer * rows :=
  match FindById repoID repos with
  | None => (RepoNotFound, repos)
  | Some repo =>
      match set_keypair pair nonce repo with
      | None => (Failed500, repos)
      | Some repo => if saved then (Rotated (GetString "sops_age_public_key" repo), upsert repo repos) else (Failed500, repos)
      end
  end.

(** The directory of a stack in the checkout of its repository. *)
Definition stack_dir (workspace repoID composePath : string) : string * string :=
  let root := PathJoin workspace repoID in
  (root, if decide (composePath ≠ "" ∧ composePath ≠ ".") then PathJoin root composePath else root).

Inductive list_answer :=
  | StackNotFound | InvalidPath (err : path_error) | ReadFailed (err : sops_error)
  | Keys (keys : list string) (available : bool) (source_file error : option string).

Context (yaml_load : string → option (gmap string value)) (show_num : string → option string).
Context (sops_decrypt : process → string → string + string) (show_error : decrypt_error → string).
Context (open_root : string → (string → node) + bool) (workspace : string).

Definition sops_env_vars (w : os_calls) (p : process) (stack : option record) (repos : rows) : list_answer * process :=
  match stack with
  | None => (StackNotFound, p)
  | Some stack =>
      if decide (GetString "source_type" stack = "local") then (Keys [] false None None, p)
      else match FindById (GetString "repository" stack) repos with
      | None => (Keys [] false None None, p)
      | Some repo =>
          let composePath := GetString "compose_path" stack in
          match ValidateComposePath composePath with
          | Some err => (InvalidPath err, p)
          | None =>
              let '(root, workDir) := stack_dir workspace (GetString "repository" stack) composePath in
              match ReadSecretsFile open_root root workDir with
              | inr err => (ReadFailed err, p)
              | inl None => (Keys [] false None None, p)
              | inl (Some (path, content)) =>
                  let encryptedKey := GetString "sops_age_key" repo in
                  if decide (encryptedKey = "") then (Keys [] true (Some (Base path)) (Some "repository has no SOPS age key configured"), p)
                  else match Decrypt Open encryptedKey secretKey with
                  | None => (Keys [] true (Some (Base path)) (Some "failed to decrypt repository SOPS age key"), p)
                  | Some ageKey =>
                      match DecryptSecretsFile yaml_load show_num sops_decrypt w content ageKey p with
                      | (inr err, p) => (Keys [] true (Some (Base path)) (Some (show_error err)), p)
                      | (inl values, p) => (Keys (sorted_keys values) true (Some (Base path)) None, p)
                      end
                  end
              end
          end
      end
  end.
End routes.

(** [sops-encrypt]: the body's values under the public key of the repository; nothing is saved. *)
Inductive encrypt_answer := NoRepository | NoKeyConfigured | InvalidBody | EncryptRefused (err : encrypt_error) | Content (content : string).

Definition sops_encrypt_route (yaml_dump : gmap string string → string) (sops_encrypt : string → string → option string)
  (repoID : string) (repos : rows) (body : option (gmap string string)) : encrypt_answer :=
  match FindById repoID repos with
  | None => NoRepository
  | Some repo =>
      let publicKey := GetString "sops_age_public_key" repo in
      if decide (publicKey = "") then NoKeyConfigured
      else match body with
      | None => InvalidBody
      | Some values =>
          match EncryptSecretsMap yaml_dump sops_encrypt values publicKey with inr err => EncryptRefused err | inl e => Content e end
      end
  end.

(** ** The file is one of the checkout *)
Lemma first_file_ok lstat rel dir names path c : first_file lstat rel dir names = inl (Some (path, c)) →
  ∃ name, name ∈ names ∧ path = PathJoin dir name ∧ lstat (PathJoin rel name) = Regular c.
Proof.
  induction names as [|n names IH]; [done|]. simpl. destruct (lstat _) eqn:Hl; try done.
  - intros (x & ? & ?)%IH. exists x. split; [by right|done].
  - intros (x & ? & ?)%IH. exists x. split; [by right|done].
  - intros [= <- <-]. exists n. split; [by left|done].
Qed.

(** A file of secrets that is found or read is a regular file of one of the two names in
    the directory, no symbolic link, and the directory lies inside the root; the two
    functions look at the same file. *)
Theorem secrets_file_contained open_root root dir : root ≠ "" →
  (∀ path content, ReadSecretsFile open_root root dir = inl (Some (path, content)) →
     FindSecretsFile open_root root dir = inl path ∧ inside root dir ∧
     ∃ name rel lstat, name ∈ SecretsFileNames ∧ path = PathJoin dir name ∧ open_root root = inl lstat ∧
       Rel root dir = Some rel ∧ lstat (PathJoin rel name) = Regular (Some content)) ∧
  (ReadSecretsFile open_root root dir = inl None ↔ FindSecretsFile open_root root dir = inl "" ∧
     ∀ path, ReadSecretsFile open_root root dir ≠ inr (CannotRead path)).
Proof.
  intros Hroot. unfold ReadSecretsFile, FindSecretsFile.
  assert (∀ lstat rel, open_dir open_root root dir = inl (lstat, rel) → inside root dir ∧ open_root root = inl lstat ∧ Rel root dir = Some rel) as Hopen.
  { intros lstat rel. unfold open_dir. destruct (OpenRoot _ _ _) as [err|[r rl]] eqn:Ho; [done|]. intros [= <- <-]. split.
    - pose proof (open_root_contained _ _ _ _ _ Ho) as Hi. by case_decide.
    - unfold OpenRoot in Ho. rewrite decide_False // in Ho. destruct (Rel root dir); [|done]. destruct (_ || _); [done|].
      destruct (open_root root); [|done]. by simplify_eq. }
  assert (∀ name, name ∈ SecretsFileNames → PathJoin dir name ≠ "") as Hne.
  { intros name Hn. rewrite !elem_of_cons elem_of_nil in Hn. unfold PathJoin.
    destruct Hn as [->|[->|[]]]; case_decide; apply Clean_nonempty. }
  destruct (open_dir open_root root dir) as [[lstat rel]|[err b]].
  2: { destruct b; (split; [done|split; naive_solver]). }
  destruct (first_file lstat rel dir SecretsFileNames) as [[[path c]|]|err] eqn:Hf; [|split; [done|split; naive_solver]|split; [done|split; naive_solver]].
  apply first_file_ok in Hf as (name & Hn & -> & Hl). destruct (Hopen lstat rel eq_refl) as (Hi & Ho & Hr).
  destruct c as [content|]; split; try done.
  - intros path content' [= <- <-]. split_and!; [done|done|]. by exists name, rel, lstat.
  - split; [done|]. intros [Hx _]. exfalso. injection Hx as Hx. by apply (Hne name Hn).
  - split; [done|]. intros [_ Hx]. by destruct (Hx (PathJoin dir name)).
Qed.

(** ** The age key does not stay behind *)
Section decrypt.
Context (yaml_load : string → option (gmap string value)) (show_num : string → option string).
Context (sops_decrypt : process → string → string + string).

Lemma process_eq p q : environ p = environ q → temp_files p = temp_files q → p = q.
Proof. destruct p, q. simpl. by intros -> ->. Qed.

Lemma with_key_file_ok w keyPath content p : (with_key_file yaml_load show_num sops_decrypt w keyPath content p).2 = p.
Proof.
  unfold with_key_file. destruct (os_setenv w); [|done]. simpl. destruct (environ p !! SOPS_AGE_KEY_FILE) as [v|] eqn:Hv; apply process_eq; try done; simpl.
  - by rewrite insert_insert_eq insert_id.
  - by rewrite delete_insert_id.
Qed.

(** On every outcome of a decryption, the process environment is what it was and the
    temporary file with the age key is gone, as long as it can be removed; and the library
    runs only while the environment names the file with the key of the repository. *)
Theorem age_key_not_left w content ageKey p r p' :
  (∀ f, os_temp w = Some f → temp_files p !! f = None) → os_remove w = true →
  DecryptSecretsFile yaml_load show_num sops_decrypt w content ageKey p = (r, p') →
  p' = p ∧
  (∀ values, r = inl values → ∃ q f plaintext, os_temp w = Some f ∧ environ q !! SOPS_AGE_KEY_FILE = Some f ∧
     temp_files q !! f = Some ageKey ∧ sops_decrypt q content = inl plaintext ∧
     flattenSecretsYAML yaml_load show_num plaintext = inl values).
Proof.
  intros Hfresh Hrem. unfold DecryptSecretsFile. case_decide; [by intros [= <- <-]|]. destruct (os_temp w) as [f|]; [|by intros [= <- <-]].
  specialize (Hfresh f eq_refl).
  assert (∀ c, remove_temp f (write_temp f c p) = p) as Hrt.
  { intros c. apply process_eq; [done|]. simpl. by rewrite delete_insert_id. }
  destruct (os_chmod w); cbn [negb]; [|intros [= <- <-]; rewrite Hrem; done].
  destruct (os_write w); cbn [negb]; [|intros [= <- <-]; rewrite Hrem; done].
  destruct (os_close w); cbn [negb]; [|intros [= <- <-]; rewrite Hrem; done].
  pose proof (with_key_file_ok w f content (write_temp f ageKey p)) as Hw.
  destruct (with_key_file _ _ _ _ _ _ _) as [r1 p1] eqn:Hk. simpl in Hw. subst p1. rewrite Hrem Hrt. intros [= <- <-]. split; [done|].
  intros values ->. unfold with_key_file in Hk. destruct (os_setenv w); [|done]. cbn [negb] in Hk. injection Hk as Hk _.
  destruct (sops_decrypt _ content) as [plaintext|] eqn:Hs; [|done].
  exists (set_env SOPS_AGE_KEY_FILE f (write_temp f ageKey p)), f, plaintext. split_and!; [done|..|done|done]; simpl; apply lookup_insert_eq.
Qed.
End decrypt.

(** ** From the values to the deploy and back *)
Section roundtrip.
Context (Seal : string → string → string → string) (Open : string → string → string → option string).
Context (open_seal : ∀ key nonce p, Open key nonce (Seal key nonce p) = Some p).
Context (yaml_load : string → option (gmap string value)) (show_num : string → option string) (yaml_dump : gmap string string → string).
Context (sops_decrypt : process → string → string + string) (sops_encrypt : string → string → option string).
Context (age_pair : string → string → Prop).
(** Texts survive the YAML library, and what is encrypted for a public key is decrypted by
    the SOPS library when the environment names a file with its private key. *)
Context (yaml_texts : ∀ m, yaml_load (yaml_dump m) = Some (VStr <$> m)).
Context (sops_opens : ∀ priv pub pt e q f, age_pair priv pub → sops_encrypt pub pt = Some e →
  environ q !! SOPS_AGE_KEY_FILE = Some f → temp_files q !! f = Some priv → sops_decrypt q e = inl pt).
Context (secretKey : string) (show_error : decrypt_error → string) (open_root : string → (string → node) + bool) (workspace : string).

Lemma flatten_texts m : flattenSecretsYAML yaml_load show_num (yaml_dump m) = inl m.
Proof.
  unfold flattenSecretsYAML. rewrite yaml_texts. case_decide as Hd.
  - f_equal. apply map_eq. intros k. rewrite lookup_omap lookup_fmap. by destruct (m !! k).
  - destruct Hd. intros k v Hv. rewrite lookup_fmap in Hv. destruct (m !! k); simplify_eq/=. by eexists.
Qed.

Lemma decrypt_encrypted w content values priv pub e p f : age_pair priv pub → priv ≠ "" →
  EncryptSecretsMap yaml_dump sops_encrypt values pub = inl e → content = e →
  os_temp w = Some f → os_chmod w = true → os_write w = true → os_close w = true → os_setenv w = true →
  (DecryptSecretsFile yaml_load show_num sops_decrypt w content priv p).1 = inl values.
Proof.
  intros Hp Hne He -> Ht Hc Hw Hcl Hs. unfold EncryptSecretsMap in He. do 3 (case_decide; [try done|try done]).
  destruct (sops_encrypt pub (yaml_dump values)) as [e'|] eqn:Hse; [|done]. injection He as ->.
  unfold DecryptSecretsFile. rewrite decide_False // Ht Hc Hw Hcl. cbn [negb]. unfold with_key_file. rewrite Hs. cbn [negb].
  rewrite (sops_opens priv pub (yaml_dump values) e _ f); [by rewrite flatten_texts|done|done|apply lookup_insert_eq|apply lookup_insert_eq].
Qed.

(** A repository gets a key pair, an operator has values encrypted for it and commits the
    file: the route that lists the secrets of a stack of the repository shows exactly the
    names of the values, and none of the values. *)
Theorem sops_keys_listed repo0 repo priv pub nonce values e stack repos w p path f :
  age_pair priv pub → priv ≠ "" → String.length nonce = nonceSize →
  set_keypair Seal secretKey (Some (priv, pub)) (Some nonce) repo0 = Some repo → FindById (Id repo) repos = Some repo →
  sops_encrypt_route yaml_dump sops_encrypt (Id repo) repos (Some values) = Content e →
  GetString "repository" stack = Id repo → GetString "source_type" stack ≠ "local" → ValidateComposePath (GetString "compose_path" stack) = None →
  (let '(root, dir) := stack_dir workspace (Id repo) (GetString "compose_path" stack) in ReadSecretsFile open_root root dir = inl (Some (path, e))) →
  os_temp w = Some f → os_chmod w = true → os_write w = true → os_close w = true → os_setenv w = true →
  (sops_env_vars Open secretKey yaml_load show_num sops_decrypt show_error open_root workspace w p (Some stack) repos).1 =
    Keys (sorted_keys values) true (Some (Base path)) None.
Proof.
  intros Hp Hne Hn Hk Hf He Hr Hl Hv Hread Ht Hc Hw Hcl Hs. unfold set_keypair in Hk.
  destruct (Encrypt Seal _ priv secretKey) as [enc|] eqn:Henc; [|done]. injection Hk as Hk.
  assert (GetString "sops_age_public_key" repo = pub ∧ GetString "sops_age_key" repo = enc) as [Hpub Hkey].
  { rewrite -Hk. rewrite GetString_SetStr. unfold SetStr. rewrite GetString_SetField_ne // GetString_SetField_eq. done. }
  pose proof (decrypt_encrypt Seal Open open_seal _ _ _ _ Hn Henc) as Hd.
  unfold sops_encrypt_route in He. rewrite Hf in He. cbv zeta in He. rewrite Hpub in He. case_decide; [done|].
  destruct (EncryptSecretsMap _ _ _ _) as [e'|] eqn:Hem; [|done]. injection He as ->.
  unfold sops_env_vars. rewrite decide_False // Hr Hf Hv. destruct (stack_dir _ _ _) as [root dir]. rewrite Hread Hkey.
  destruct (decide (enc = "")) as [Hz|_].
  { exfalso. rewrite Hz in Hd. unfold Decrypt in Hd. simpl in Hd. by destruct (negb _). }
  rewrite Hd. pose proof (decrypt_encrypted w e values priv pub e p f Hp Hne Hem eq_refl Ht Hc Hw Hcl Hs) as Hx.
  destruct (DecryptSecretsFile _ _ _ _ _ _ _) as [r p']. simpl in Hx. by rewrite Hx.
Qed.
End roundtrip.

(** ** Witnesses *)
Definition toy_dump (m : gmap string string) : string := pretty (N.pos (encode m)).
Definition toy_load (s : string) : option (gmap string value) :=
  match digits s with
  | Some z => match decode (A := gmap string string) (Z.to_pos z) with Some m => Some (VStr <$> m) | None => None end
  | None => None
  end.
Definition toy_sops_encrypt (pub pt : string) : option string := Some (pub +:+ pt).
Definition toy_sops_decrypt (q : process) (c : string) : string + string :=
  match (f ← environ q !! SOPS_AGE_KEY_FILE; k ← temp_files q !! f; strip_prefix k c) with Some pt => inl pt | None => inr "no key" end.
Definition all_fine : os_calls :=
  {| os_temp := Some "/tmp/age.key"; os_chmod := true; os_write := true; os_partial := ""; os_close := true; os_setenv := true; os_remove := true |}.
Definition idle : process := {| environ := {["SOPS_AGE_KEY_FILE" := "/etc/age"]}; temp_files := ∅ |}.

Lemma toy_yaml_texts m : toy_load (toy_dump m) = Some (VStr <$> m).
Proof.
  unfold toy_load, toy_dump. destruct (pretty_N_digits (N.pos (encode m))) as [_ ->]. by rewrite /= decode_encode.
Qed.

Lemma toy_sops_opens (priv pub pt e : string) q f : priv = pub → toy_sops_encrypt pub pt = Some e →
  environ q !! SOPS_AGE_KEY_FILE = Some f → temp_files q !! f = Some priv → toy_sops_decrypt q e = inl pt.
Proof.
  intros -> [= <-] Hf Hp. unfold toy_sops_decrypt. rewrite Hf. cbn [mbind option_bind]. rewrite Hp. cbn [mbind option_bind].
  by rewrite (proj2 (strip_prefix_Some pub (pub +:+ pt) pt) eq_refl).
Qed.

Lemma age_key_not_left_witness : (DecryptSecretsFile toy_load Some toy_sops_decrypt all_fine "sealed" "AGE" idle).2 = idle.
Proof.
  refine (proj1 (age_key_not_left toy_load Some toy_sops_decrypt all_fine "sealed" "AGE" idle _ _ _ _ (surjective_pairing _))).
  - intros f [= <-]. reflexivity.
  - reflexivity.
Defined.

Definition keyed_repo : record :=
  default {| Id := ""; fields := ∅ |} (set_keypair toy_seal toy_key (Some ("AGE", "AGE")) (Some toy_nonce) {| Id := "r1"; fields := ∅ |}).
Definition toy_file : string :=
  match sops_encrypt_route toy_dump toy_sops_encrypt "r1" [keyed_repo] (Some {["DB_PASS" := "x"]}) with Content e => e | _ => "" end.
Definition toy_checkout (p : string) : (string → node) + bool :=
  if decide (p = "/repos/r1") then inl (λ f, if decide (f = "web/secrets.yml") then Regular (Some toy_file) else Missing) else inr true.
Definition web_stack : record := SetStr "compose_path" "web" (SetStr "repository" "r1" {| Id := "s1"; fields := ∅ |}).

Lemma sops_keys_listed_witness :
  (sops_env_vars toy_open toy_key toy_load Some toy_sops_decrypt (λ _, "") toy_checkout "/repos" all_fine idle (Some web_stack) [keyed_repo]).1 =
    Keys (sorted_keys {["DB_PASS" := "x"]}) true (Some "secrets.yml") None.
Proof.
  apply (sops_keys_listed toy_seal toy_open toy_cipher_open toy_load Some toy_dump toy_sops_decrypt toy_sops_encrypt (λ a b, a = b)
    toy_yaml_texts toy_sops_opens toy_key (λ _, "") toy_checkout "/repos" {| Id := "r1"; fields := ∅ |} keyed_repo "AGE" "AGE" toy_nonce
    {["DB_PASS" := "x"]} toy_file web_stack [keyed_repo] all_fine idle "/repos/r1/web/secrets.yml" "/tmp/age.key");
    vm_compute; congruence.
Defined.
