(* ===== verification/EnvRoutes.v ===== *)
(** * internal/routes/env_var_routes.go: bulk edit, copy and reveal

    The bulk edit of the variables of a stack or of a job, the copy from another stack
    and the two routes that show an admin the decrypted values.  A row is saved through
    the hooks of EnvSecrets; what else PocketBase checks of it is [accepts], the id of a
    new row is [fresh], [deletes] tells whether a row can be deleted and [rnd] gives the
    random bytes of the i-th encryption.  A transaction keeps nothing when its function
    fails; no other request changes the rows between the queries of a route and its
    transaction. *)
From Stdlib Require Import ZArith.
From S2P Require Import Prelude GoStrings GoPath GoFmt GoBase64 GoValue ComposeDoc SafePath PbRecord PbTable Crypto EnvSecrets SopsFiles.
From S2P Require AuditLog.

(** ** The request *)
Record bulkEnvVar := { bv_Key : string; bv_Value : string; bv_Secret : bool; bv_SecretProvider : string }.
Record bulkEnvVarsRequest := { Mode : string; Vars : list bulkEnvVar }.

(** The loop over the variables: the set of their keys. *)
Fixpoint collect_keys (seen : gset string) (vars : list bulkEnvVar) : gset string + string :=
  match vars with
  | [] => inl seen
  | v :: vars =>
      let key := TrimSpace (bv_Key v) in
      if decide (key = "") then inr "variable keys cannot be empty"
      else if negb (envVarKeyPattern key) then inr ("invalid key: " +:+ key)
      else if decide (key ∈ seen) then inr ("duplicate key in payload: " +:+ key)
      else collect_keys ({[key]} ∪ seen) vars
  end.

(** [body] is [None] when it is not JSON of the expected types. *)
Definition parseBulkEnvVarsRequest (body : option bulkEnvVarsRequest) : (bulkEnvVarsRequest * gset string) + string :=
  match body with
  | None => inr "invalid body"
  | Some b =>
      if decide (Mode b ≠ "replace" ∧ Mode b ≠ "append") then inr ("mode must be " +:+ ch 34 +:+ "replace" +:+ ch 34 +:+ " or " +:+ ch 34 +:+ "append" +:+ ch 34)
      else match collect_keys ∅ (Vars b) with inr err => inr err | inl seen => inl (b, seen) end
  end.

(** ** Rows by key *)
Definition by_key (l : rows) : gmap string record := foldl (λ m rec, <[GetString "key" rec := rec]> m) ∅ l.

Definition isInternalSecret (rec : record) : bool :=
  if negb (GetBool "secret" rec) then false
  else let provider := GetString "secret_provider" rec in bool_decide (provider = "" ∨ provider = "internal").

Inductive save_error := HookRefused (err : hook_error) | NotAccepted | NotDeleted | EncryptError.

Section routes.
Context (Seal : string → string → string → string) (Open : string → string → string → option string).
Context (secretKey : string) (hp : bool).
Context (accepts : rows → record → bool) (deletes : record → bool) (fresh : rows → string) (rnd : nat → option string).

(** [txApp.Save] of a new record and of one that was read as [o]. *)
Definition store (t : rows) (r : record + hook_error) : (rows * record) + save_error :=
  match r with
  | inr err => inr (HookRefused err)
  | inl r => if accepts t r then inl (upsert r t, r) else inr NotAccepted
  end.

Definition create (i : nat) (t : rows) (r : record) : (rows * record) + save_error :=
  store t (on_create Seal Open secretKey hp (rnd i) r).
Definition update (i : nat) (t : rows) (o r : record) : (rows * record) + save_error :=
  store t (on_update Seal Open secretKey hp (rnd i) o r).

Definition delete_row (t : rows) (rec : record) : rows + save_error :=
  if deletes rec then inl (filter (λ r, Id r ≠ Id rec) t) else inr NotDeleted.

Fixpoint delete_rows (t : rows) (l : list record) : rows + save_error :=
  match l with
  | [] => inl t
  | rec :: l => match delete_row t rec with inr err => inr err | inl t => delete_rows t l end
  end.

(** A new row of the target. *)
Definition new_row (targetField targetID key : string) (t : rows) : record :=
  SetStr "key" key (SetStr targetField targetID {| Id := fresh t; fields := ∅ |}).

Record bulkEnvVarsResult := { Created : nat; Updated : nat; Deleted : nat }.

(** What the loop sets of the record of a variable. *)
Definition skipValue (existing : option record) (v : bulkEnvVar) : bool :=
  match existing with
  | None => false
  | Some rec =>
      bool_decide (bv_Value v = "") && bv_Secret v && GetBool "secret" rec &&
      bool_decide (GetString "secret_provider" rec = "" ∨ GetString "secret_provider" rec = "internal")
  end.

Definition set_var (skip : bool) (v : bulkEnvVar) (rec : record) : record :=
  SetStr "secret_provider" (bv_SecretProvider v) (SetBool "secret" (bv_Secret v)
    (if skip then rec else SetStr "value" (bv_Value v) rec)).

Definition save_var (targetField targetID : string) (byKey : gmap string record) (i : nat) (t : rows) (v : bulkEnvVar)
  : (rows * record) + save_error :=
  let key := TrimSpace (bv_Key v) in
  match byKey !! key with
  | None => create i t (set_var false v (new_row targetField targetID key t))
  | Some rec => update i t rec (set_var (skipValue (Some rec) v) v rec)
  end.

Fixpoint save_vars (targetField targetID : string) (byKey : gmap string record) (i : nat) (vars : list bulkEnvVar)
  (t : rows) (res : bulkEnvVarsResult) : (rows * bulkEnvVarsResult) + save_error :=
  match vars with
  | [] => inl (t, res)
  | v :: vars =>
      match save_var targetField targetID byKey i t v with
      | inr err => inr err
      | inl (t, _) =>
          save_vars targetField targetID byKey (S i) vars t
            (if decide (is_Some (byKey !! TrimSpace (bv_Key v)))
             then {| Created := Created res; Updated := S (Updated res); Deleted := Deleted res |}
             else {| Created := S (Created res); Updated := Updated res; Deleted := Deleted res |})
      end
  end.

(** The rows a replacing request deletes; the order of a Go map does not matter, since
    one failure takes everything back. *)
Definition dropped (byKey : gmap string record) (seen : gset string) : list record :=
  (map_to_list (filter (λ kr, kr.1 ∉ seen) byKey)).*2.

(** The transaction of [runBulkUpsertEnvVars]. *)
Definition bulk_tx (targetField targetID : string) (body : bulkEnvVarsRequest) (seen : gset string) (t : rows)
  : (rows * bulkEnvVarsResult) + save_error :=
  let byKey := by_key (FindAll targetField targetID t) in
  match save_vars targetField targetID byKey 0 (Vars body) t {| Created := 0; Updated := 0; Deleted := 0 |} with
  | inr err => inr err
  | inl (t, res) =>
      if decide (Mode body = "replace") then
        let l := dropped byKey seen in
        match delete_rows t l with
        | inr err => inr err
        | inl t => inl (t, {| Created := Created res; Updated := Updated res; Deleted := length l |})
        end
      else inl (t, res)
  end.

Definition runBulkUpsertEnvVars (targetField targetID : string) (body : bulkEnvVarsRequest) (seen : gset string) (t : rows)
  : (bulkEnvVarsResult + save_error) * rows :=
  match bulk_tx targetField targetID body seen t with
  | inr err => (inr err, t)
  | inl (t', res) => (inl res, t')
  end.

Inductive bulk_answer := NotFound | BadRequest (err : string) | Refused (err : save_error) | Done (res : bulkEnvVarsResult) (count : nat) (mode : string).

(** [bulkUpsertStackEnvVars] and [bulkUpsertJobEnvVars]: [target] is the stack or the job
    with the id of the path; [Done] carries what the audit entry of the request says. *)
Definition bulkUpsertEnvVars (targetField : string) (target : option record) (body : option bulkEnvVarsRequest) (t : rows) : bulk_answer * rows :=
  match target with
  | None => (NotFound, t)
  | Some rec =>
      match parseBulkEnvVarsRequest body with
      | inr err => (BadRequest err, t)
      | inl (body, seen) =>
          match runBulkUpsertEnvVars targetField (Id rec) body seen t with
          | (inr err, t) => (Refused err, t)
          | (inl res, t) => (Done res (length (Vars body)) (Mode body), t)
          end
      end
  end.
Definition bulkUpsertStackEnvVars := bulkUpsertEnvVars "stack".
Definition bulkUpsertJobEnvVars := bulkUpsertEnvVars "job".
End routes.

(** ** The rows of a target by their keys *)
Definition has (targetField targetID : string) (t : rows) (k : string) (r : record) : Prop :=
  r ∈ t ∧ GetString targetField r = targetID ∧ GetString "key" r = k.

Lemma by_key_Some l k r : by_key l !! k = Some r → r ∈ l ∧ GetString "key" r = k.
Proof.
  unfold by_key. induction l as [|x l IH] using rev_ind; [done|]. rewrite foldl_app /= elem_of_app list_elem_of_singleton.
  destruct (decide (GetString "key" x = k)) as [He|He]; [rewrite -He lookup_insert_eq; intros [= <-]; auto|].
  rewrite lookup_insert_ne //. intros [? ?]%IH. auto.
Qed.

Lemma by_key_None l k r : by_key l !! k = None → r ∈ l → GetString "key" r ≠ k.
Proof.
  unfold by_key. induction l as [|x l IH] using rev_ind; [by intros _ ?%elem_of_nil|]. rewrite foldl_app /= elem_of_app list_elem_of_singleton.
  destruct (decide (GetString "key" x = k)) as [He|He]; [by rewrite -He lookup_insert_eq|].
  rewrite lookup_insert_ne //. intros Hn [Hr| ->]; auto.
Qed.

Lemma by_key_has tf tid t k r : (∀ k r1 r2, has tf tid t k r1 → has tf tid t k r2 → r1 = r2) →
  by_key (FindAll tf tid t) !! k = Some r ↔ has tf tid t k r.
Proof.
  intros Hu. split.
  - intros [[Hf Hr]%FindAll_elem Hk]%by_key_Some. done.
  - intros Hh. destruct (by_key (FindAll tf tid t) !! k) as [r'|] eqn:Hb.
    + apply by_key_Some in Hb as [[Hf Hr]%FindAll_elem Hk]. f_equal. by apply (Hu k).
    + exfalso. destruct Hh as (Hr & Hf & Hk). apply (by_key_None _ _ r Hb); [by apply FindAll_elem|done].
Qed.

Lemma collect_keys_ok vars : ∀ s seen, collect_keys s vars = inl seen →
  let keys := (λ v, TrimSpace (bv_Key v)) <$> vars in
  NoDup keys ∧ seen = s ∪ list_to_set keys ∧ ∀ k, k ∈ keys → k ∉ s ∧ envVarKeyPattern k = true.
Proof.
  induction vars as [|v vars IH]; intros s seen; simpl.
  { intros [= <-]. split_and!; [constructor|set_solver|by intros k ?%elem_of_nil]. }
  case_decide; [done|]. destruct (envVarKeyPattern _) eqn:He; [|done]. cbn [negb]. case_decide; [done|].
  intros (Hn & -> & Hk)%IH. split_and!; [|set_solver|].
  - apply NoDup_cons. split; [|done]. intros [Hx _]%Hk. set_solver.
  - intros k [->|Hx]%elem_of_cons; [done|]. destruct (Hk k Hx). set_solver.
Qed.

Section spec.
Context (Seal : string → string → string → string) (Open : string → string → string → option string).
(** What is sealed under a key and a nonce opens under them. *)
Context (open_seal : ∀ key nonce p, Open key nonce (Seal key nonce p) = Some p).
Context (secretKey : string) (hp : bool).
Context (accepts : rows → record → bool) (fresh : rows → string) (rnd : nat → option string).
Context (rnd_ok : ∀ i, nonce_ok (rnd i)) (fresh_ok : ∀ t, fresh t ∉ ids_of t).
Context (tf tid : string) (tf_ok : tf ∈ ["stack"; "job"]).

Abbreviation has := (has tf tid).
Abbreviation at_rest := (at_rest Open secretKey).
Abbreviation key_of v := (TrimSpace (bv_Key v)).

(** What the row [r] of a variable is after the request said [v] of it; [old] is the row
    before, if there was one. *)
Definition saved_as (old : option record) (v : bulkEnvVar) (r : record) : Prop :=
  let internal := isInternalSecretProvider (bv_SecretProvider v) in
  GetBool "secret" r = bv_Secret v ∧
  or_internal (GetString "secret_provider" r) = or_internal (bv_SecretProvider v) ∧
  (bv_Secret v = false ∨ internal = false → GetString "value" r = bv_Value v) ∧
  (bv_Secret v = true → internal = true → bv_Value v ≠ "" → bv_Value v ≠ placeholder →
   if IsEncrypted Open (bv_Value v) secretKey then GetString "value" r = bv_Value v
   else Decrypt Open (GetString "value" r) secretKey = Some (bv_Value v)) ∧
  (bv_Secret v = true → internal = true → bv_Value v = "" ∨ bv_Value v = placeholder → ∀ o, old = Some o →
   GetBool "secret" o = true → GetString "value" o ≠ "" → GetString "value" r = GetString "value" o) ∧
  (∀ o, old = Some o → GetBool "secret" o = true → bv_Secret v = true).

Lemma tf_ne : tf ≠ "value" ∧ tf ≠ "key" ∧ tf ≠ "secret_provider" ∧ tf ≠ "secret".
Proof. pose proof tf_ok as H. rewrite !elem_of_cons elem_of_nil in H. destruct H as [H|[H|[]]]; rewrite H; done. Qed.

Lemma store_ok t r t' r' : store accepts t r = inl (t', r') → r = inl r' ∧ t' = upsert r' t.
Proof. unfold store. destruct r as [r|]; [|done]. destruct (accepts t r); [|done]. by intros [= <- <-]. Qed.

Lemma set_var_get skip v rec : GetBool "secret" (set_var skip v rec) = bv_Secret v ∧
  GetString "secret_provider" (set_var skip v rec) = bv_SecretProvider v ∧ Id (set_var skip v rec) = Id rec ∧
  GetString "key" (set_var skip v rec) = GetString "key" rec ∧ GetString tf (set_var skip v rec) = GetString tf rec ∧
  GetString "value" (set_var skip v rec) = if skip then GetString "value" rec else bv_Value v.
Proof.
  destruct tf_ne as (T1 & T2 & T3 & T4). unfold set_var, SetBool, SetStr.
  rewrite GetBool_SetField_ne // GetBool_SetField_eq GetString_SetField_eq. split_and!; [done|done|by destruct skip|..].
  all: rewrite !GetString_SetField_ne //; destruct skip; rewrite ?GetString_SetField_eq ?GetString_SetField_ne //.
Qed.

(** A record the hooks let through keeps its id and its target. *)
Lemma prepared_row nonce o r r' : nonce_ok nonce → prepareEnvSecretRecord Seal Open secretKey hp nonce o r = inl r' →
  Id r' = Id r ∧ GetString tf r' = GetString tf r ∧ GetString "key" r' = TrimSpace (GetString "key" r) ∧
  GetBool "secret" r' = GetBool "secret" r ∧ or_internal (GetString "secret_provider" r') = or_internal (GetString "secret_provider" r).
Proof.
  intros Hn Hp. destruct (prepare_ok Seal Open open_seal secretKey _ _ _ _ _ Hn Hp) as (Hi & Hf & Hk & _ & Hpr & _).
  destruct tf_ne as (T1 & T2 & T3 & T4). split_and!; [done| |done| |done].
  - apply get_same. by apply Hf.
  - apply get_same. by apply Hf.
Qed.

Lemma save_var_ok byKey i t v t' r' : Forall at_rest t →
  (∀ r, byKey !! key_of v = Some r → has t (key_of v) r) →
  save_var Seal Open secretKey hp accepts fresh rnd tf tid byKey i t v = inl (t', r') →
  t' = upsert r' t ∧ GetString tf r' = tid ∧ GetString "key" r' = key_of v ∧
  match byKey !! key_of v with None => Id r' ∉ ids_of t | Some rec => Id r' = Id rec end ∧ saved_as (byKey !! key_of v) v r'.
Proof.
  intros Hrest Hb. unfold save_var. destruct tf_ne as (T1 & T2 & T3 & T4). destruct (byKey !! key_of v) as [rec|].
  - intros [Hu ->]%store_ok. set (skip := skipValue (Some rec) v) in *. destruct (set_var_get skip v rec) as (G1 & G2 & G3 & G4 & G5 & G6).
    destruct (Hb rec eq_refl) as (Hin & Htid & Hkey). rewrite Forall_forall in Hrest. pose proof (Hrest _ Hin) as Hro.
    destruct (update_prepared Seal Open secretKey hp _ _ _ _ Hu) as (Hp & Hdown & Hlock). rewrite G2 in Hlock. rewrite G1 in Hdown.
    destruct (prepared_row _ _ _ _ (rnd_ok i) Hp) as (P1 & P2 & P3 & P4 & P5).
    destruct (prepare_value_spec Seal Open open_seal secretKey hp _ _ _ _ (rnd_ok i) Hp) as [V1 V2]. rewrite G1 G2 G6 in V1 V2.
    rewrite G4 Hkey TrimSpace_idemp in P3. split_and!; [done|by rewrite P2 G5|done|by rewrite P1|]. unfold saved_as.
    assert (skip = true → bv_Value v = "" ∧ bv_Secret v = true ∧ isInternalSecretProvider (bv_SecretProvider v) = true) as Hskip.
    { intros Hx. unfold skip, skipValue in Hx. rewrite !andb_true_iff !bool_decide_eq_true in Hx. destruct Hx as [[[Hv Hs] Hso] Hio]. split_and!; [done..|].
      rewrite internal_or -(Hlock Hso) -internal_or. unfold isInternalSecretProvider. by apply bool_decide_eq_true. }
    split_and!; [by rewrite P4|by rewrite P5 G2|..].
    + intros Hd. rewrite (V1 Hd). destruct skip; [|done]. destruct (Hskip eq_refl) as (_ & ? & ?). destruct Hd; congruence.
    + intros Hs Hi N1 N2. destruct skip; [by destruct (Hskip eq_refl)|]. by apply V2.
    + intros Hs Hi Hv o [= <-] Hso Hvo. apply (update_keeps_value Seal Open open_seal secretKey hp (rnd i) rec (set_var skip v rec)); [apply rnd_ok|done|done|done| |done|].
      * rewrite internal_or (Hlock Hso) -internal_or. done.
      * rewrite G6 !elem_of_cons. destruct skip; tauto.
    + by intros o [= <-].
  - intros [Hc ->]%store_ok. set (rec := new_row fresh tf tid (key_of v) t) in *. destruct (set_var_get false v rec) as (G1 & G2 & G3 & G4 & G5 & G6).
    unfold on_create in Hc. destruct (prepared_row _ _ _ _ (rnd_ok i) Hc) as (P1 & P2 & P3 & P4 & P5).
    destruct (prepare_value_spec Seal Open open_seal secretKey hp _ _ _ _ (rnd_ok i) Hc) as [V1 V2]. rewrite G1 G2 G6 in V1 V2.
    assert (GetString "key" rec = key_of v ∧ GetString tf rec = tid ∧ Id rec = fresh t) as (R1 & R2 & R3).
    { unfold rec, new_row. rewrite GetString_SetStr. unfold SetStr. rewrite GetString_SetField_ne // GetString_SetField_eq. done. }
    rewrite G4 R1 TrimSpace_idemp in P3. split_and!; [done|by rewrite P2 G5|done|rewrite P1 G3 R3; apply fresh_ok|]. unfold saved_as.
    split_and!; [by rewrite P4|by rewrite P5 G2|done|done|done|done].
Qed.

(** The effect of one saved row on the rows of the target. *)
Lemma has_upsert t r' k0 old : NoDup (ids_of t) → GetString tf r' = tid → GetString "key" r' = k0 →
  (∀ r, has t k0 r ↔ old = Some r) → match old with None => Id r' ∉ ids_of t | Some rec => Id r' = Id rec end →
  (∀ x, has (upsert r' t) k0 x ↔ x = r') ∧ (∀ k x, k ≠ k0 → has (upsert r' t) k x ↔ has t k x) ∧
  (∀ x, GetString tf x ≠ tid → x ∈ upsert r' t ↔ x ∈ t).
Proof.
  intros Hn Htf Hk Hold Hid.
  assert (∀ x, x ∈ t → Id x = Id r' → has t k0 x) as Hsame.
  { intros x Hx He. destruct old as [rec|]; [|exfalso; apply Hid; rewrite -He; by apply list_elem_of_fmap_2].
    assert (has t k0 rec) as Hr by (by apply Hold). rewrite (NoDup_ids_inj t x rec) //; [apply Hr|congruence]. }
  unfold EnvRoutes.has in *. split_and!.
  - intros x. rewrite elem_of_upsert. split; [|intros ->; auto]. intros ([->|[Hx Hne]] & Hx2 & Hx3); [done|].
    exfalso. apply Hne. assert (old = Some x) as -> by (by apply Hold). done.
  - intros k x Hne. rewrite elem_of_upsert. split; [intros ([->|[Hx _]] & H2 & H3); [congruence|done]|].
    intros (Hx & H2 & H3). split_and!; [right|done..]. split; [done|]. intros He. apply Hne. destruct (Hsame x Hx He) as (_ & _ & <-). done.
  - intros x Hne. rewrite elem_of_upsert. split; [intros [->|[Hx _]]; congruence|]. intros Hx. right. split; [done|].
    intros He. apply Hne. by destruct (Hsame x Hx He) as (_ & <- & _).
Qed.

Lemma save_vars_ok byKey vars : ∀ i t res t' res', Forall at_rest t → NoDup (ids_of t) → NoDup ((λ v, key_of v) <$> vars) →
  (∀ v r, v ∈ vars → byKey !! key_of v = Some r ↔ has t (key_of v) r) →
  save_vars Seal Open secretKey hp accepts fresh rnd tf tid byKey i vars t res = inl (t', res') →
  Forall at_rest t' ∧ NoDup (ids_of t') ∧ (∀ x, GetString tf x ≠ tid → x ∈ t' ↔ x ∈ t) ∧
  (∀ k x, k ∉ (λ v, key_of v) <$> vars → has t' k x ↔ has t k x) ∧
  (∀ v, v ∈ vars → ∃ r, saved_as (byKey !! key_of v) v r ∧ ∀ x, has t' (key_of v) x ↔ x = r) ∧
  Created res' + Updated res' = Created res + Updated res + length vars ∧ Deleted res' = Deleted res.
Proof.
  induction vars as [|v vars IH]; intros i t res t' res' Hr Hn Hk Hb.
  { intros [= <- <-]. split_and!; [done|done|done|done|by intros v ?%elem_of_nil|simpl; lia|done]. }
  cbn [save_vars]. destruct (save_var _ _ _ _ _ _ _ _ _ _ _ _ _) as [[t1 r1]|] eqn:Hs; [|done].
  destruct (save_var_ok _ _ _ _ _ _ Hr (λ r, proj1 (Hb v r ltac:(by left))) Hs) as (-> & H1 & H2 & H3 & H4).
  destruct (has_upsert t r1 (key_of v) (byKey !! key_of v)) as (U1 & U2 & U3); [done|done|done| |done|].
  { intros r. rewrite Hb; [done|by left]. }
  rewrite fmap_cons in Hk. apply NoDup_cons in Hk as [Hnv Hk].
  assert (Forall at_rest (upsert r1 t)) as Hr1.
  { unfold save_var in Hs. destruct (byKey !! key_of v).
    - apply store_ok in Hs as [Hs _]. apply update_prepared in Hs as [Hs _]. apply (prepare_ok Seal Open open_seal secretKey _ _ _ _ _ (rnd_ok i)) in Hs as (_ & _ & _ & _ & _ & Hx).
      rewrite !Forall_forall in Hr |- *. intros x [->|[? _]]%elem_of_upsert; auto.
    - apply store_ok in Hs as [Hs _]. apply (prepare_ok Seal Open open_seal secretKey _ _ _ _ _ (rnd_ok i)) in Hs as (_ & _ & _ & _ & _ & Hx).
      rewrite !Forall_forall in Hr |- *. intros x [->|[? _]]%elem_of_upsert; auto. }
  assert (∀ w, w ∈ vars → key_of w ≠ key_of v) as Hother.
  { intros w Hw He. apply Hnv. rewrite -He. by apply (list_elem_of_fmap_2 (λ v, key_of v)). }
  intros Hrec. apply IH in Hrec as (R1 & R2 & R3 & R4 & R5 & R6 & R7); [|done|by apply NoDup_upsert|done|].
  - split_and!; [done|done|intros x Hx; by rewrite R3 // U3| | | |].
    + intros k x Hkx. rewrite fmap_cons not_elem_of_cons in Hkx. rewrite R4; [|tauto]. apply U2. tauto.
    + intros w [->|Hw]%elem_of_cons; [|auto]. exists r1. split; [done|]. intros x. by rewrite R4.
    + rewrite R6. case_match; simpl; lia.
    + rewrite R7. by case_match.
  - intros w r Hw. rewrite Hb; [|by right]. symmetry. apply U2. auto.
Qed.

Context (deletes : record → bool).

Lemma delete_rows_ok l : ∀ t t', delete_rows deletes t l = inl t' → NoDup (ids_of t) →
  NoDup (ids_of t') ∧ ∀ x, x ∈ t' ↔ x ∈ t ∧ Id x ∉ ids_of l.
Proof.
  induction l as [|d l IH]; intros t t'; simpl.
  { intros [= <-] Hn. split; [done|]. intros x. split; [intros; split; [done|apply not_elem_of_nil]|tauto]. }
  unfold delete_row. destruct (deletes d); [|done]. intros Hd Hn. apply IH in Hd as [Hn' Hd].
  - split; [done|]. intros x. rewrite Hd list_elem_of_filter. unfold ids_of. rewrite ?fmap_cons not_elem_of_cons. tauto.
  - unfold ids_of. apply (sublist_NoDup _ (Id <$> t)); [done|]. apply fmap_sublist. apply sublist_filter.
Qed.

Lemma elem_of_dropped byKey seen r : r ∈ dropped byKey seen ↔ ∃ k, byKey !! k = Some r ∧ k ∉ seen.
Proof.
  unfold dropped. rewrite list_elem_of_fmap. split.
  - intros ([k x] & -> & Hx%elem_of_map_to_list). apply map_lookup_filter_Some in Hx as [Hx Hs]. by exists k.
  - intros (k & Hk & Hs). exists (k, r). split; [done|]. apply elem_of_map_to_list, map_lookup_filter_Some. done.
Qed.

Lemma bulk_tx_ok b seen t t' res : Forall at_rest t → NoDup (ids_of t) →
  (∀ k r1 r2, has t k r1 → has t k r2 → r1 = r2) → parseBulkEnvVarsRequest (Some b) = inl (b, seen) →
  bulk_tx Seal Open secretKey hp accepts deletes fresh rnd tf tid b seen t = inl (t', res) →
  Forall at_rest t' ∧ NoDup (ids_of t') ∧ (∀ x, GetString tf x ≠ tid → x ∈ t' ↔ x ∈ t) ∧
  (∀ k x, (∀ v, v ∈ Vars b → key_of v ≠ k) → has t' k x ↔ Mode b = "append" ∧ has t k x) ∧
  (∀ v, v ∈ Vars b → ∃ r, saved_as (by_key (FindAll tf tid t) !! key_of v) v r ∧ ∀ x, has t' (key_of v) x ↔ x = r) ∧
  Created res + Updated res = length (Vars b).
Proof.
  intros Hr Hn Hu Hp. unfold parseBulkEnvVarsRequest in Hp. case_decide as Hmode; [done|].
  destruct (collect_keys ∅ (Vars b)) as [seen'|] eqn:Hc; [|done]. simplify_eq. apply collect_keys_ok in Hc as (Hk & Hseen & _).
  rewrite left_id_L in Hseen. unfold bulk_tx. set (byKey := by_key (FindAll tf tid t)).
  assert (∀ k r, byKey !! k = Some r ↔ has t k r) as Hby by (intros k r; by apply by_key_has).
  destruct (save_vars _ _ _ _ _ _ _ _ _ _ _ _ _ _) as [[t1 res1]|] eqn:Hs; [|done].
  apply save_vars_ok in Hs as (R1 & R2 & R3 & R4 & R5 & R6 & _); [|done|done|done|intros v r _; apply Hby]. simpl in R6.
  assert (∀ k, (∀ v, v ∈ Vars b → key_of v ≠ k) ↔ k ∉ (λ v, key_of v) <$> Vars b) as Hnot.
  { intros k. rewrite list_elem_of_fmap. split; [intros H (v & -> & Hv); by apply (H v)|]. intros H v Hv <-. apply H. eauto. }
  case_decide as Hrep.
  - destruct (delete_rows _ _ _) as [t2|] eqn:Hd; [|done]. intros [= <- <-]. apply delete_rows_ok in Hd as [Hn2 Hd]; [|done].
    (** A row that stays is not one of the deleted: their keys are not in the request. *)
    assert (∀ x, x ∈ t1 → (GetString tf x = tid → GetString "key" x ∈ seen) → x ∈ t2) as Hstay.
    { intros x Hx Hkx. apply Hd. split; [done|]. intros (y & He & (k & Hy & Hky)%elem_of_dropped)%list_elem_of_fmap.
      apply Hby in Hy. rewrite -R4 in Hy; [|intros ?; apply Hky; rewrite Hseen; by apply elem_of_list_to_set]. destruct Hy as (Hy1 & Hy2 & Hy3).
      assert (x = y) as -> by (by apply (NoDup_ids_inj t1)). apply Hky. rewrite -Hy3. auto. }
    split_and!; [| done| | | |simpl; lia].
    + rewrite !Forall_forall in R1 |- *. intros x [Hx _]%Hd. auto.
    + intros x Hx. rewrite -R3 //. split; [intros [? _]%Hd; done|]. intros Hx1. apply Hstay; [done|]. done.
    + intros k x Hkx. split; [|intros [Ha _]; by rewrite Ha in Hrep]. intros (Hx & H1 & H2). exfalso.
      apply Hd in Hx as [Hx Hnd]. apply Hnd. apply (list_elem_of_fmap_2 Id). apply elem_of_dropped. exists k. split.
      * apply Hby. rewrite -R4; [done|by apply Hnot].
      * rewrite Hseen elem_of_list_to_set. by apply Hnot.
    + intros v Hv. destruct (R5 v Hv) as (r & Hsa & Hr5). exists r. split; [done|]. intros x. rewrite -Hr5.
      split; [intros (Hx & ?); split; [by apply Hd in Hx as [? _]|done]|]. intros (Hx & H1 & H2). split; [|done]. apply Hstay; [done|].
      intros _. rewrite Hseen elem_of_list_to_set H2. by apply (list_elem_of_fmap_2 (λ v, key_of v)).
  - intros [= <- <-]. assert (Mode b = "append") as Ha by (destruct (decide (Mode b = "append")); tauto).
    split_and!; [done|done|done| |done|lia]. intros k x Hkx. rewrite Ha R4; [tauto|by apply Hnot].
Qed.

(** The bulk edit does what it is asked or nothing: when it is done, every variable of the
    request has one row that says what the request said of it, where a blank value of an
    internal secret keeps the stored one and no secret has become plain; every other
    variable of the target is as before, or gone if the request replaces; the rows of
    other targets are as before and secrets are encrypted.  Any other answer leaves all
    rows as they were. *)
Theorem bulk_exact target body t a t' : Id target = tid → Forall at_rest t → NoDup (ids_of t) →
  (∀ k r1 r2, has t k r1 → has t k r2 → r1 = r2) →
  bulkUpsertEnvVars Seal Open secretKey hp accepts deletes fresh rnd tf (Some target) body t = (a, t') →
  match a with
  | Done res count mode => ∃ b, body = Some b ∧ count = length (Vars b) ∧ mode = Mode b ∧
      Created res + Updated res = count ∧ Forall at_rest t' ∧ NoDup (ids_of t') ∧
      (∀ v, v ∈ Vars b → ∃ r, saved_as (by_key (FindAll tf tid t) !! key_of v) v r ∧ ∀ x, has t' (key_of v) x ↔ x = r) ∧
      (∀ k x, (∀ v, v ∈ Vars b → key_of v ≠ k) → has t' k x ↔ Mode b = "append" ∧ has t k x) ∧
      (∀ x, GetString tf x ≠ tid → x ∈ t' ↔ x ∈ t)
  | _ => t' = t
  end.
Proof.
  intros Hid Hr Hn Hu. unfold bulkUpsertEnvVars. destruct body as [b|]; [|by intros [= <- <-]].
  destruct (parseBulkEnvVarsRequest (Some b)) as [[b' seen]|] eqn:Hp; [|by intros [= <- <-]].
  assert (b' = b) as ->. { unfold parseBulkEnvVarsRequest in Hp. case_decide; [done|]. by destruct (collect_keys _ _); simplify_eq. }
  unfold runBulkUpsertEnvVars. rewrite Hid. destruct (bulk_tx _ _ _ _ _ _ _ _ _ _ _ _ _) as [[t1 res]|] eqn:Hb; [|by intros [= <- <-]].
  intros [= <- <-]. apply bulk_tx_ok in Hb as (R1 & R2 & R3 & R4 & R5 & R6); [|done..]. exists b. split_and!; done.
Qed.
End spec.

(** ** Witnesses *)

(** New ids: one longer than every id there is. *)
Definition longer (t : rows) : string := foldr (λ r s, Id r +:+ s) "x" t.

Lemma longer_length t r : r ∈ t → String.length (Id r) < String.length (longer t).
Proof.
  induction t as [|x t IH]; [by intros ?%elem_of_nil|]. intros [->|Hr]%elem_of_cons; simpl; rewrite slength_app.
  - enough (0 < String.length (longer t)) by (unfold longer in *; lia). clear. induction t; simpl; [lia|]. rewrite slength_app. unfold longer in *. lia.
  - specialize (IH Hr). unfold longer in *. lia.
Qed.

Lemma longer_fresh t : longer t ∉ ids_of t.
Proof. intros (r & He & Hr)%list_elem_of_fmap. pose proof (longer_length t r Hr). rewrite He in H. lia. Qed.

Definition secret_row : record :=
  SetStr "secret_provider" "internal" (SetBool "secret" true
    (SetStr "value" (EncodeToString (toy_nonce +:+ toy_seal toy_key toy_nonce "s3cret")) (SetStr "key" "B" (SetStr "stack" "s1" {| Id := "v1"; fields := ∅ |})))).
Definition toy_bulk (mode : string) (vars : list bulkEnvVar) : bulk_answer * rows :=
  bulkUpsertEnvVars toy_seal toy_open toy_key true (λ _ _, true) (λ _, true) longer (λ _, Some toy_nonce) "stack"
    (Some {| Id := "s1"; fields := ∅ |}) (Some {| Mode := mode; Vars := vars |}) [secret_row].
Definition plain_a : bulkEnvVar := {| bv_Key := " A"; bv_Value := "1"; bv_Secret := false; bv_SecretProvider := "" |}.
Definition blank_b (secret : bool) : bulkEnvVar := {| bv_Key := "B"; bv_Value := ""; bv_Secret := secret; bv_SecretProvider := "" |}.

(** A comment of the loop says that a secret made plain with a blank value loses its
    ciphertext; the hook refuses the whole request. *)
Theorem downgrade_is_refused : toy_bulk "append" [plain_a; blank_b false] = (Refused (HookRefused SecretDowngrade), [secret_row]).
Proof. vm_compute. reflexivity. Qed.

Lemma bulk_exact_witness :
  (toy_bulk "replace" [plain_a; blank_b true]).1 = Done {| Created := 1; Updated := 1; Deleted := 0 |} 2 "replace" ∧
  ∃ r, (∀ x, has "stack" "s1" (toy_bulk "replace" [plain_a; blank_b true]).2 "A" x ↔ x = r) ∧ GetString "value" r = "1".
Proof.
  split; [vm_compute; reflexivity|].
  pose proof (bulk_exact toy_seal toy_open toy_cipher_open toy_key true (λ _ _, true) longer (λ _, Some toy_nonce)
    ltac:(intros i n [= <-]; reflexivity) longer_fresh "stack" "s1" ltac:(left) (λ _, true) {| Id := "s1"; fields := ∅ |}
    (Some {| Mode := "replace"; Vars := [plain_a; blank_b true] |}) [secret_row]
    (Done {| Created := 1; Updated := 1; Deleted := 0 |} 2 "replace") (toy_bulk "replace" [plain_a; blank_b true]).2) as H.
  destruct H as (b & Hb & _ & _ & _ & _ & _ & H & _).
  - reflexivity.
  - constructor; [|constructor]. intros _. right. right. vm_compute. reflexivity.
  - apply NoDup_singleton.
  - intros k r1 r2 (H1 & _) (H2 & _). apply list_elem_of_singleton in H1 as ->, H2 as ->. reflexivity.
  - vm_compute. reflexivity.
  - injection Hb as <-. destruct (H plain_a ltac:(left)) as (r & (_ & _ & Hv & _) & Hx). exists r. split; [exact Hx|]. apply Hv. by left.
Defined.

(** ** internal/routes/env_var_routes.go: copying and revealing variables

    The copy of variables from one stack to another, and the two routes that give an
    admin the plaintext of internal secrets.  Rows are saved as above. *)
(** ** SOPS files of a stack *)
Inductive lookup_repo := RepoFound | NoRows | QueryError.

Inductive has_sops_error := RepoQuery | BadComposePath (err : path_error) | SopsFile (err : sops_error).

Section copy.
Context (open_root : string → (string → node) + bool) (workspace : string) (find_repo : string → lookup_repo).

Definition stackHasSopsSecretsFile (stack : record) : bool + has_sops_error :=
  if decide (GetString "source_type" stack = "local") then inl false
  else
    let repoID := GetString "repository" stack in
    if decide (repoID = "") then inl false
    else match find_repo repoID with
    | NoRows => inl false
    | QueryError => inr RepoQuery
    | RepoFound =>
        let composePath := GetString "compose_path" stack in
        match ValidateComposePath composePath with
        | Some err => inr (BadComposePath err)
        | None =>
            let '(root, workDir) := stack_dir workspace repoID composePath in
            match FindSecretsFile open_root root workDir with
            | inr err => inr (SopsFile err)
            | inl path => inl (bool_decide (path ≠ ""))
            end
        end
    end.

(** ** Copying *)
Record copyEnvVarsRequest := { SourceStack : string; ce_Keys : list string; Overwrite : bool }.

Context (Seal : string → string → string → string) (Open : string → string → string → option string).
Context (secretKey : string) (hp : bool).
Context (accepts : rows → record → bool) (fresh : rows → string).
(** [rnd i true] are the random bytes of the route's own encryption of the i-th key,
    [rnd i false] those of the hook. *)
Context (rnd : nat → bool → option string).

(** The value to store for a source row: [None] to skip the key. *)
Definition copied_value (i : nat) (src : record) : option string + save_error :=
  let value := GetString "value" src in
  if isInternalSecret src then
    match Decrypt Open value secretKey with
    | None => inl None
    | Some plaintext =>
        match Encrypt Seal (rnd i true) plaintext secretKey with
        | None => inr EncryptError
        | Some reencrypted => inl (Some reencrypted)
        end
    end
  else inl (Some value).

Definition set_copy (value : string) (src rec : record) : record :=
  SetStr "secret_provider" (GetString "secret_provider" src) (SetBool "secret" (GetBool "secret" src) (SetStr "value" value rec)).

(** One key: the rows, and the record the map of the target holds for it, which a save
    changes in place when it was there. *)
Definition copy_key (targetID key : string) (i : nat) (overwrite : bool) (src : option record) (existing : option record) (t : rows)
  : option (rows * option record) + save_error :=
  match src with
  | None => inl None
  | Some src =>
      if bool_decide (is_Some existing) && negb overwrite then inl None
      else match copied_value i src with
      | inr err => inr err
      | inl None => inl None
      | inl (Some value) =>
          match existing with
          | Some rec =>
              match update Seal Open secretKey hp accepts (λ i, rnd i false) i t rec (set_copy value src rec) with
              | inr err => inr err
              | inl (t, rec) => inl (Some (t, Some rec))
              end
          | None =>
              match create Seal Open secretKey hp accepts (λ i, rnd i false) i t (set_copy value src (new_row fresh "stack" targetID key t)) with
              | inr err => inr err
              | inl (t, _) => inl (Some (t, None))
              end
          end
      end
  end.

Fixpoint copy_keys (targetID : string) (overwrite : bool) (source : gmap string record) (i : nat) (keys : list string)
  (target : gmap string record) (t : rows) (copied : nat) (skipped : list string) : (rows * nat * list string) + save_error :=
  match keys with
  | [] => inl (t, copied, skipped)
  | key :: keys =>
      match copy_key targetID key i overwrite (source !! key) (target !! key) t with
      | inr err => inr err
      | inl None => copy_keys targetID overwrite source (S i) keys target t copied (skipped ++ [key])
      | inl (Some (t, rec)) =>
          copy_keys targetID overwrite source (S i) keys (match rec with Some r => <[key := r]> target | None => target end) t (S copied) skipped
      end
  end.

Inductive copy_answer :=
  | TargetNotFound | BadBody | SourceNotFound | SopsCheckFailed (err : has_sops_error) | CrossRepository
  | CopyRefused (err : save_error) | Copied (copied : nat) (skipped : list string).

Definition copyStackEnvVars (stacks : rows) (targetID : string) (body : option copyEnvVarsRequest) (t : rows) : copy_answer * rows :=
  match FindById targetID stacks with
  | None => (TargetNotFound, t)
  | Some target =>
      match body with
      | None => (BadBody, t)
      | Some b =>
          match FindById (SourceStack b) stacks with
          | None => (SourceNotFound, t)
          | Some source =>
              if decide (ce_Keys b = []) then (Copied 0 [], t)
              else
                let cross := bool_decide (GetString "repository" source ≠ GetString "repository" target) in
                match (if cross then stackHasSopsSecretsFile source else inl false) with
                | inr err => (SopsCheckFailed err, t)
                | inl true => (CrossRepository, t)
                | inl false =>
                    let sourceByKey := by_key (filter (λ rec, GetString "key" rec ∈ ce_Keys b) (FindAll "stack" (Id source) t)) in
                    let targetByKey := by_key (FindAll "stack" (Id target) t) in
                    match copy_keys (Id target) (Overwrite b) sourceByKey 0 (ce_Keys b) targetByKey t 0 [] with
                    | inr err => (CopyRefused err, t)
                    | inl (t', copied, skipped) => (Copied copied (sort_strings skipped), t')
                    end
                end
          end
      end
  end.

(** ** Revealing *)
Definition revealable : list string := ["stack_env_vars"; "job_env_vars"; "global_env_vars"].

Inductive reveal_answer := UnknownCollection | VarNotFound | NotInternal | DecryptFailed | Value (plaintext : string).

(** The audit entry of a revealed variable names it and not its value. *)
Definition reveal_event (action collection : string) (rec : record) : AuditLog.Event :=
  AuditLog.set_metadata {["key" := VStr (GetString "key" rec)]} (AuditLog.custom action collection (Id rec)).

Definition revealEnvVar (db : gmap string rows) (collection id : string) : reveal_answer * list AuditLog.Event :=
  if negb (bool_decide (collection ∈ revealable)) then (UnknownCollection, [])
  else match (t ← db !! collection; FindById id t) with
  | None => (VarNotFound, [])
  | Some rec =>
      if negb (isInternalSecret rec) then (NotInternal, [])
      else match Decrypt Open (GetString "value" rec) secretKey with
      | None => (DecryptFailed, [])
      | Some plaintext => (Value plaintext, [reveal_event "env_vars.revealed" collection rec])
      end
  end.

(** The loop of [revealStackEnvVars]: a row that cannot be decrypted is left out. *)
Definition revealed (rec : record) : option string :=
  if isInternalSecret rec then Decrypt Open (GetString "value" rec) secretKey else None.

Definition reveal_rows (l : rows) : gmap string string * list AuditLog.Event :=
  foldl (λ acc rec, match revealed rec with
                    | None => acc
                    | Some plaintext => (<[GetString "key" rec := plaintext]> acc.1,
                                         acc.2 ++ [reveal_event "stack.env_vars.revealed_all" "stack_env_vars" rec])
                    end) (∅, []) l.

(** [None]: there is no such stack, or its rows cannot be listed. *)
Definition revealStackEnvVars (stack : option record) (t : option rows) : option (gmap string string * list AuditLog.Event) :=
  match stack, t with Some s, Some t => Some (reveal_rows (FindAll "stack" (Id s) t)) | _, _ => None end.
End copy.

(** ** What a copy is *)
Section spec.
Context (Seal : string → string → string → string) (Open : string → string → string → option string).
(** What is sealed under a key and a nonce opens under them. *)
Context (open_seal : ∀ key nonce p, Open key nonce (Seal key nonce p) = Some p).
Context (secretKey : string) (hp : bool).
Context (accepts : rows → record → bool) (fresh : rows → string) (rnd : nat → bool → option string).
Context (rnd_ok : ∀ i b, nonce_ok (rnd i b)) (fresh_ok : ∀ t, fresh t ∉ ids_of t).
Context (tid : string).

Abbreviation has := (has "stack" tid).
Abbreviation at_rest := (at_rest Open secretKey).

(** The row [r] holds what [src] holds: the same kind, the same provider, and the same
    plaintext of an internal secret or else the same value. *)
Definition copy_of (src r : record) : Prop :=
  GetBool "secret" r = GetBool "secret" src ∧
  or_internal (GetString "secret_provider" r) = or_internal (GetString "secret_provider" src) ∧
  if isInternalSecret src
  then is_Some (Decrypt Open (GetString "value" src) secretKey) ∧
       Decrypt Open (GetString "value" r) secretKey = Decrypt Open (GetString "value" src) secretKey
  else GetString "value" r = GetString "value" src.

Lemma placeholder_plain : IsEncrypted Open placeholder secretKey = false.
Proof. reflexivity. Qed.

Lemma internal_secret_eq r : isInternalSecret r = GetBool "secret" r && isInternalSecretProvider (GetString "secret_provider" r).
Proof. unfold isInternalSecret, isInternalSecretProvider. by destruct (GetBool "secret" r). Qed.

Lemma set_copy_get v src rec : GetBool "secret" (set_copy v src rec) = GetBool "secret" src ∧
  GetString "secret_provider" (set_copy v src rec) = GetString "secret_provider" src ∧ Id (set_copy v src rec) = Id rec ∧
  GetString "key" (set_copy v src rec) = GetString "key" rec ∧ GetString "stack" (set_copy v src rec) = GetString "stack" rec ∧
  GetString "value" (set_copy v src rec) = v.
Proof. unfold set_copy. by field_simpl. Qed.

(** The hook leaves what the route prepared. *)
Lemma prepared_copy i o src rec r' value : copied_value Seal Open secretKey rnd i src = inl (Some value) →
  prepareEnvSecretRecord Seal Open secretKey hp (rnd i false) o (set_copy value src rec) = inl r' →
  Id r' = Id rec ∧ GetString "stack" r' = GetString "stack" rec ∧ GetString "key" r' = TrimSpace (GetString "key" rec) ∧ copy_of src r' ∧ at_rest r'.
Proof.
  intros Hv Hp. destruct (set_copy_get value src rec) as (G1 & G2 & G3 & G4 & G5 & G6).
  destruct (prepared_row Seal Open open_seal secretKey hp "stack" ltac:(by left) _ _ _ _ (rnd_ok i false) Hp) as (P1 & P2 & P3 & P4 & P5).
  destruct (prepare_value_spec Seal Open open_seal secretKey hp _ _ _ _ (rnd_ok i false) Hp) as [V1 V2]. rewrite G1 G2 G6 in V1 V2.
  destruct (prepare_ok Seal Open open_seal secretKey _ _ _ _ _ (rnd_ok i false) Hp) as (_ & _ & _ & _ & _ & Hr).
  split_and!; [congruence|congruence|by rewrite P3 G4| |done]. unfold copy_of. split_and!; [by rewrite P4|by rewrite P5 G2|].
  unfold copied_value in Hv. cbv zeta in Hv. rewrite internal_secret_eq in Hv |- *.
  destruct (GetBool "secret" src) eqn:Hs, (isInternalSecretProvider (GetString "secret_provider" src)) eqn:Hi; cbn [andb] in *.
  - destruct (Decrypt Open (GetString "value" src) secretKey) as [p|]; [|done].
    destruct (Encrypt Seal (rnd i true) p secretKey) as [e|] eqn:He; [|done]. injection Hv as <-.
    destruct (encrypt_recognised Seal Open open_seal secretKey _ _ _ (rnd_ok i true) He) as [Hd Hx]. split; [by eexists|].
    specialize (V2 eq_refl eq_refl). rewrite Hx in V2. rewrite V2 //.
    + intros ->. by rewrite /IsEncrypted in Hx.
    + intros ->. by rewrite placeholder_plain in Hx.
  - simplify_eq. apply V1. by right.
  - simplify_eq. apply V1. by left.
  - simplify_eq. apply V1. by left.
Qed.

Lemma copy_key_ok key i ov src existing t t' rec' : TrimSpace key = key →
  (∀ r, existing = Some r → has t key r) →
  copy_key Seal Open secretKey hp accepts fresh rnd tid key i ov src existing t = inl (Some (t', rec')) →
  ∃ s r', src = Some s ∧ (existing = None ∨ ov = true) ∧ t' = upsert r' t ∧ GetString "stack" r' = tid ∧ GetString "key" r' = key ∧
    match existing with None => Id r' ∉ ids_of t | Some rec => Id r' = Id rec end ∧ copy_of s r' ∧ at_rest r' ∧
    (∀ o, existing = Some o → GetBool "secret" o = true → GetBool "secret" s = true).
Proof.
  intros Hk Hex. unfold copy_key. destruct src as [s|]; [|done]. destruct (bool_decide (is_Some existing) && negb ov) eqn:Hov; [done|].
  destruct (copied_value _ _ _ _ _ _) as [[value|]|] eqn:Hv; [|done..]. destruct existing as [rec|].
  - destruct (update _ _ _ _ _ _ _ _ _ _) as [[t1 r1]|] eqn:Hu; [|done]. intros [= <- <-]. apply store_ok in Hu as [Hu ->].
    apply update_prepared in Hu as (Hu & Hd & _). destruct (Hex rec eq_refl) as (Hin & Hst & Hkey).
    destruct (set_copy_get value s rec) as (G1 & _). rewrite G1 in Hd.
    destruct (prepared_copy _ _ _ _ _ _ Hv Hu) as (P1 & P2 & P3 & P4 & P5). exists s, r1.
    split_and!; [done|right; by destruct ov|done|congruence|by rewrite P3 Hkey|done|done|done|by intros o [= <-]].
  - destruct (create _ _ _ _ _ _ _ _ _) as [[t1 r1]|] eqn:Hc; [|done]. intros [= <- <-]. apply store_ok in Hc as [Hc ->].
    destruct (prepared_copy _ _ _ _ _ _ Hv Hc) as (P1 & P2 & P3 & P4 & P5). exists s, r1.
    assert (GetString "key" (new_row fresh "stack" tid key t) = key ∧ GetString "stack" (new_row fresh "stack" tid key t) = tid) as [N1 N2]
      by (unfold new_row; by field_simpl).
    split_and!; [done|by left|done|congruence|by rewrite P3 N1|rewrite P1; apply fresh_ok|done|done|done].
Qed.

(** Why a key is skipped: there is no such variable, the target has one that is to stay, or
    the stored secret does not decrypt. *)
Definition skip_reason (ov : bool) (src existing : option record) : Prop :=
  src = None ∨ (is_Some existing ∧ ov = false) ∨
  ∃ s, src = Some s ∧ isInternalSecret s = true ∧ Decrypt Open (GetString "value" s) secretKey = None.

Lemma copy_key_skips key i ov src existing t :
  copy_key Seal Open secretKey hp accepts fresh rnd tid key i ov src existing t = inl None → skip_reason ov src existing.
Proof.
  unfold copy_key, skip_reason. destruct src as [s|]; [|by left]. destruct (bool_decide (is_Some existing) && negb ov) eqn:Hov.
  { intros _. right. left. apply andb_true_iff in Hov as [H1%bool_decide_eq_true H2]. by destruct ov. }
  unfold copied_value. destruct (isInternalSecret s) eqn:Hi; cycle 1.
  { destruct existing; repeat case_match; try done; naive_solver. }
  destruct (Decrypt Open (GetString "value" s) secretKey) eqn:Hd; [|intros _; right; right; by exists s].
  destruct (Encrypt _ _ _ _); [|done]. destruct existing; repeat case_match; done.
Qed.

Lemma copy_keys_ok ov source keys : ∀ i target t copied skipped t' copied' skipped',
  Forall at_rest t → NoDup (ids_of t) → NoDup keys → (∀ k, is_Some (source !! k) → TrimSpace k = k) →
  (∀ k r, k ∈ keys → target !! k = Some r ↔ has t k r) →
  copy_keys Seal Open secretKey hp accepts fresh rnd tid ov source i keys target t copied skipped = inl (t', copied', skipped') →
  ∃ new, skipped' = skipped ++ new ∧ copied' + length new = copied + length keys ∧ new ⊆ keys ∧
  Forall at_rest t' ∧ NoDup (ids_of t') ∧ (∀ x, GetString "stack" x ≠ tid → x ∈ t' ↔ x ∈ t) ∧
  (∀ k x, k ∉ keys ∨ k ∈ new → has t' k x ↔ has t k x) ∧
  (∀ k, k ∈ new → skip_reason ov (source !! k) (target !! k)) ∧
  (∀ k, k ∈ keys → k ∉ new → ∃ s r, source !! k = Some s ∧ copy_of s r ∧ (∀ x, has t' k x ↔ x = r) ∧
     ∀ o, has t k o → ov = true ∧ (GetBool "secret" o = true → GetBool "secret" s = true)).
Proof.
  induction keys as [|key keys IH]; intros i target t copied skipped t' copied' skipped' Hr Hn Hk Htrim Ht.
  { intros [= <- <- <-]. exists []. rewrite app_nil_r. split_and!; [done|simpl; lia|done|done|done|done|done|by intros k ?%elem_of_nil|by intros k ?%elem_of_nil]. }
  apply NoDup_cons in Hk as [Hnk Hk]. cbn [copy_keys]. destruct (copy_key _ _ _ _ _ _ _ _ _ _ _ _ _ _) as [[[t1 rec1]|]|] eqn:Hc; [..|done].
  - assert (TrimSpace key = key) as Hkey.
    { apply Htrim. unfold copy_key in Hc. destruct (source !! key); [by eexists|done]. }
    apply copy_key_ok in Hc as (s & r1 & Hs & Hov & -> & H1 & H2 & H3 & H4 & H5 & H6); [|done|intros r Hx; apply Ht; [by left|done]].
    destruct (has_upsert "stack" tid t r1 key (target !! key)) as (U1 & U2 & U3); [done|done|done| |done|].
    { intros r. rewrite Ht; [done|by left]. }
    intros Hrec. apply IH in Hrec as (new & R1 & R2 & R3 & R4 & R5 & R6 & R7 & R8 & R9); [|..|by apply NoDup_upsert|done|done|].
    + exists new. assert (key ∉ new) as Hkn by (intros ?; by apply Hnk, R3).
      assert (∀ k, k ∈ keys → match rec1 with Some r => <[key:=r]> target | None => target end !! k = target !! k) as Hsame.
      { intros k Hkk. destruct rec1; [|done]. rewrite lookup_insert_ne //. by intros ->. }
      split_and!; [done|simpl; lia|set_solver +R3|done|done|intros x Hx; by rewrite R6 // U3|..].
      * intros k x Hkx. rewrite R7; [|set_solver +Hkx]. apply U2. set_solver +Hkx Hkn.
      * intros k Hkn'. rewrite -Hsame; [auto|by apply R3].
      * intros k [->|Hkk]%elem_of_cons Hkn'.
        -- exists s, r1. split_and!; [done|done|intros x; rewrite R7; [apply U1|by left]|]. intros o Ho. apply Ht in Ho; [|by left].
           split; [destruct Hov; [congruence|done]|]. by apply H6.
        -- destruct (R9 k Hkk Hkn') as (s' & r' & Q1 & Q2 & Q3 & Q4). exists s', r'. split_and!; [done..|].
           intros o Ho. apply Q4. apply U2; [by intros ->|done].
    + rewrite !Forall_forall in Hr |- *. intros x [->|[? _]]%elem_of_upsert; auto.
    + intros k r Hkk. assert (k ≠ key) as Hne by (by intros ->).
      assert (match rec1 with Some r => <[key:=r]> target | None => target end !! k = target !! k) as ->
        by (destruct rec1; [by rewrite lookup_insert_ne|done]).
      rewrite Ht; [|by right]. symmetry. by apply U2.
  - apply copy_key_skips in Hc. intros Hrec.
    apply IH in Hrec as (new & R1 & R2 & R3 & R4 & R5 & R6 & R7 & R8 & R9); [|done|done|done|done|intros k r Hkk; apply Ht; by right].
    exists (key :: new). rewrite R1 -app_assoc. split_and!; [done|simpl; lia|set_solver +R3|done|done|done|..].
    + intros k x Hkx. apply R7. set_solver +Hkx Hnk.
    + intros k [->|Hkn]%elem_of_cons; [done|auto].
    + intros k Hkk Hkn. apply R9; set_solver +Hkk Hkn.
Qed.

Context (open_root : string → (string → node) + bool) (workspace : string) (find_repo : string → lookup_repo).

(** A copy that is done has made, of every requested variable it does not report as
    skipped, the one row of that key in the target: of the same kind and provider, with
    the same plaintext (a secret under a new ciphertext) or value; a secret of the target
    was never overwritten by a plain value.  The skipped keys, the other variables of the
    target and the rows of every other stack are untouched; SOPS secrets of another
    repository are not left behind silently.  Any other answer leaves all rows. *)
Theorem copy_exact stacks body t a t' : Forall at_rest t → NoDup (ids_of t) → (∀ r, r ∈ t → TrimSpace (GetString "key" r) = GetString "key" r) →
  (∀ k r1 r2, has t k r1 → has t k r2 → r1 = r2) → (∀ b, body = Some b → NoDup (ce_Keys b)) →
  copyStackEnvVars open_root workspace find_repo Seal Open secretKey hp accepts fresh rnd stacks tid body t = (a, t') →
  match a with
  | Copied n skipped => ∃ b source target, body = Some b ∧ FindById (SourceStack b) stacks = Some source ∧ FindById tid stacks = Some target ∧
      n + length skipped = length (ce_Keys b) ∧ Forall at_rest t' ∧
      (ce_Keys b = [] ∨ GetString "repository" source = GetString "repository" target ∨
       stackHasSopsSecretsFile open_root workspace find_repo source = inl false) ∧
      (∀ k, k ∈ ce_Keys b → k ∉ skipped → ∃ s r, EnvRoutes.has "stack" (Id source) t k s ∧ copy_of s r ∧ (∀ x, has t' k x ↔ x = r) ∧
         ∀ o, has t k o → Overwrite b = true ∧ (GetBool "secret" o = true → GetBool "secret" s = true)) ∧
      (∀ k x, k ∉ ce_Keys b ∨ k ∈ skipped → has t' k x ↔ has t k x) ∧
      (∀ x, GetString "stack" x ≠ tid → x ∈ t' ↔ x ∈ t)
  | _ => t' = t
  end.
Proof.
  intros Hr Hn Htr Hu Hb. unfold copyStackEnvVars. destruct (FindById tid stacks) as [target|] eqn:Hft; [|by intros [= <- <-]].
  pose proof (FindById_Some _ _ _ Hft) as [_ Hid]. destruct body as [b|]; [|by intros [= <- <-]].
  destruct (FindById (SourceStack b) stacks) as [source|] eqn:Hfs; [|by intros [= <- <-]]. specialize (Hb b eq_refl).
  destruct (decide (ce_Keys b = [])) as [He|He].
  { intros [= <- <-]. exists b, source, target. rewrite He. split_and!; [done|done|done|done|done|by left|by intros k ?%elem_of_nil|done|done]. }
  destruct (if bool_decide _ then _ else _) as [[]|] eqn:Hx; [by intros [= <- <-]| |by intros [= <- <-]].
  assert (GetString "repository" source = GetString "repository" target ∨ stackHasSopsSecretsFile open_root workspace find_repo source = inl false) as Hsops.
  { destruct (decide (GetString "repository" source = GetString "repository" target)); [by left|].
    right. by rewrite bool_decide_eq_true_2 in Hx. }
  set (src := by_key (filter (λ rec, GetString "key" rec ∈ ce_Keys b) (FindAll "stack" (Id source) t))).
  assert (∀ k s, src !! k = Some s → EnvRoutes.has "stack" (Id source) t k s) as Hsrc.
  { intros k s [[_ [Hst Hin]%FindAll_elem]%list_elem_of_filter Hk]%by_key_Some. done. }
  rewrite Hid. destruct (copy_keys _ _ _ _ _ _ _ _ _ _ _ _ _ _ _ _) as [[[t1 n] sk]|] eqn:Hc; [|by intros [= <- <-]]. intros [= <- <-].
  apply copy_keys_ok in Hc as (new & R1 & R2 & R3 & R4 & R5 & R6 & R7 & R8 & R9); [|done|done|done| |intros k r _; by apply by_key_has].
  - simpl in R1. subst sk. exists b, source, target. split_and!; [done|done|done| |done|by right| | |done].
    + rewrite sort_strings_perm. lia.
    + intros k Hk Hnk. rewrite elem_of_sort_strings in Hnk. destruct (R9 k Hk Hnk) as (s & r & Q1 & Q2 & Q3 & Q4). exists s, r. auto.
    + intros k x Hkx. apply R7. by rewrite elem_of_sort_strings in Hkx.
  - intros k [s (Hs & _ & Hk)%Hsrc]. rewrite -Hk. auto.
Qed.

(** ** Revealing *)

(** An admin is shown what a deploy would use: the plaintext of an internal secret and of
    nothing else, with one audit entry per secret shown, which does not hold it. *)
Theorem reveal_exact db collection id a evs : revealEnvVar Open secretKey db collection id = (a, evs) →
  (∀ p, a = Value p → ∃ t rec, collection ∈ revealable ∧ db !! collection = Some t ∧ FindById id t = Some rec ∧ isInternalSecret rec = true ∧
     Decrypt Open (GetString "value" rec) secretKey = Some p ∧ evs = [reveal_event "env_vars.revealed" collection rec]) ∧
  ((∀ p, a ≠ Value p) → evs = []).
Proof.
  unfold revealEnvVar. case_bool_decide as Hc; cbn [negb]; [|intros [= <- <-]; split; done].
  destruct (db !! collection) as [t|]; cbn [mbind option_bind]; [|intros [= <- <-]; split; done].
  destruct (FindById id t) as [rec|] eqn:Hf; [|intros [= <- <-]; split; done].
  destruct (isInternalSecret rec) eqn:Hi; cbn [negb]; [|intros [= <- <-]; split; done].
  destruct (Decrypt _ _ _) as [p|] eqn:Hd; [|intros [= <- <-]; split; done].
  intros [= <- <-]. split; [|intros H; by destruct (H p)]. intros p' [= <-]. exists t, rec. split_and!; done.
Qed.

(** All the secrets of a stack at once: a value is shown under a key exactly if the last row
    of that key that decrypts holds it, and there are as many entries as rows shown. *)
Lemma reveal_rows_snoc l rec : reveal_rows Open secretKey (l ++ [rec]) =
  match revealed Open secretKey rec with
  | None => reveal_rows Open secretKey l
  | Some p => (<[GetString "key" rec := p]> (reveal_rows Open secretKey l).1,
               (reveal_rows Open secretKey l).2 ++ [reveal_event "stack.env_vars.revealed_all" "stack_env_vars" rec])
  end.
Proof. unfold reveal_rows. by rewrite foldl_app. Qed.

Theorem reveal_rows_exact l : let '(values, evs) := reveal_rows Open secretKey l in
  (∀ k p, values !! k = Some p → ∃ rec, rec ∈ l ∧ GetString "key" rec = k ∧ revealed Open secretKey rec = Some p) ∧
  (∀ rec, rec ∈ l → is_Some (revealed Open secretKey rec) → is_Some (values !! GetString "key" rec)) ∧
  evs = reveal_event "stack.env_vars.revealed_all" "stack_env_vars" <$> filter (λ rec, is_Some (revealed Open secretKey rec)) l.
Proof.
  destruct (reveal_rows Open secretKey l) as [values evs] eqn:Hl. revert values evs Hl.
  induction l as [|rec l IH] using rev_ind; intros values evs.
  { intros [= <- <-]. split_and!; [intros k p Hx; by rewrite lookup_empty in Hx|by intros r ?%elem_of_nil|done]. }
  rewrite reveal_rows_snoc. destruct (reveal_rows Open secretKey l) as [v1 e1]. destruct (IH v1 e1 eq_refl) as (I1 & I2 & I3).
  rewrite filter_app fmap_app.
  assert (filter (λ rec, is_Some (revealed Open secretKey rec)) [rec] = match revealed Open secretKey rec with Some _ => [rec] | None => [] end) as ->.
  { rewrite filter_cons filter_nil. by destruct (revealed Open secretKey rec). }
  destruct (revealed Open secretKey rec) as [p|] eqn:Hrec; intros [= <- <-].
  - split_and!; [| |by rewrite I3].
    + intros k q. destruct (decide (GetString "key" rec = k)) as [He|He].
      * subst k. rewrite lookup_insert_eq. intros [= <-]. exists rec. set_solver.
      * rewrite lookup_insert_ne //. intros (r & ? & ?)%I1. exists r. set_solver.
    + intros r [Hin| ->%list_elem_of_singleton]%elem_of_app Hs; [|rewrite lookup_insert_eq; by eexists].
      destruct (decide (GetString "key" rec = GetString "key" r)) as [He|He]; [rewrite He lookup_insert_eq; by eexists|].
      rewrite lookup_insert_ne //. auto.
  - split_and!; [| |by rewrite app_nil_r].
    + intros k q (r & ? & ?)%I1. exists r. set_solver.
    + intros r [Hin| ->%list_elem_of_singleton]%elem_of_app Hs; [auto|]. rewrite Hrec in Hs. by destruct Hs.
Qed.
End spec.

(** ** Where the copy ends *)
Definition two_stacks : rows := [{| Id := "s1"; fields := ∅ |}; {| Id := "s2"; fields := ∅ |}].
Definition source_row : record := SetStr "value" "1" (SetStr "key" "A" (SetStr "stack" "s1" {| Id := "v1"; fields := ∅ |})).

Definition toy_rnd (i : nat) (b : bool) : option string := Some toy_nonce.

Lemma toy_rnd_ok i b : nonce_ok (toy_rnd i b).
Proof. intros n [= <-]. reflexivity. Qed.

Definition toy_copy (keys : list string) (t : rows) : copy_answer * rows :=
  copyStackEnvVars (λ _, inr true) "/repos" (λ _, NoRows) toy_seal toy_open toy_key true (λ _ _, true) longer toy_rnd
    two_stacks "s2" (Some {| SourceStack := "s1"; ce_Keys := keys; Overwrite := false |}) t.

(** A key that is named twice is created twice: the map of the target is not told of the
    first row, and two rows of one key are left. *)
Theorem duplicate_key_copied_twice : let '(a, t') := toy_copy ["A"; "A"] [source_row] in
  a = Copied 2 [] ∧ (GetString "key" <$> FindAll "stack" "s2" t') = ["A"; "A"].
Proof. vm_compute. done. Qed.

(** ** Witnesses *)
Lemma copy_exact_witness : (toy_copy ["A"; "B"] [source_row]).1 = Copied 1 ["B"] ∧
  ∀ x, GetString "stack" x ≠ "s2" → x ∈ (toy_copy ["A"; "B"] [source_row]).2 ↔ x ∈ [source_row].
Proof.
  split; [vm_compute; reflexivity|].
  pose proof (copy_exact toy_seal toy_open toy_cipher_open toy_key true (λ _ _, true) longer toy_rnd toy_rnd_ok longer_fresh "s2"
    (λ _, inr true) "/repos" (λ _, NoRows) two_stacks (Some {| SourceStack := "s1"; ce_Keys := ["A"; "B"]; Overwrite := false |}) [source_row]
    (Copied 1 ["B"]) (toy_copy ["A"; "B"] [source_row]).2) as H.
  destruct H as (b & source & target & _ & _ & _ & _ & _ & _ & _ & _ & H); [..|exact H].
  - constructor; [|constructor]. intros Hs. discriminate.
  - apply NoDup_singleton.
  - intros r Hr. apply list_elem_of_singleton in Hr as ->. reflexivity.
  - intros k r1 r2 (H1 & _) (H2 & _). apply list_elem_of_singleton in H1 as ->, H2 as ->. reflexivity.
  - intros b [= <-]. apply (bool_decide_unpack _). vm_compute. exact I.
  - vm_compute. reflexivity.
Defined.
