(* ===== verification/TermSessions.v ===== *)
(** * internal/termsession, internal/routes/terminal.go: terminal sessions

    The sessions of the web terminal on the server: the table of open sessions with its
    cap per worker and its idle sweep, the row and the transcript file of each session,
    and the handlers of the routes and of the messages of the workers.  Times are in
    nanoseconds; a transcript handle is the path of its open file.  The worker server's
    queue of a session, which closing it also releases, is not part of this state. *)
From Stdlib Require Import ZArith.
From S2P Require Import Prelude WorkerServer GoStrings GoPath GoFmt GoBase64 GoValue ComposeDoc PbRecord PbTable Crypto Rbac TermStream.

(** ** internal/protocol/messages.go: the id of an open command *)
Definition terminalOpenCommandIDPrefix := "terminal-open-".

Definition TerminalOpenCommandID (sessionID : string) : string := terminalOpenCommandIDPrefix +:+ sessionID.

Inductive message :=
  | MsgTerminalOpen (commandID sessionID stackID projectName containerID : string) (shell : list string) (rows cols : N)
  | MsgTerminalInput (sessionID dataB64 : string)
  | MsgTerminalResize (sessionID : string) (rows cols : N)
  | MsgTerminalClose (sessionID : string).

(** ** The table of open sessions *)
Record terminalSessionMeta := { workerID : string; actorID : string; stackID : string; lastActivity : Z }.

Abbreviation sessions := (gmap string terminalSessionMeta).

Definition at_time (now : Z) (m : terminalSessionMeta) : terminalSessionMeta :=
  {| workerID := workerID m; actorID := actorID m; stackID := stackID m; lastActivity := now |}.

Definition rememberTerminalSession (now : Z) (sessionID : string) (m : terminalSessionMeta) (s : sessions) : sessions :=
  <[sessionID := at_time now m]> s.

Definition countTerminalSessionsForWorker (w : string) (s : sessions) : nat :=
  size (filter (λ im, workerID im.2 = w) s).

Definition reserveTerminalSession (now : Z) (sessionID w : string) (limit : nat) (m : terminalSessionMeta) (s : sessions) : option sessions :=
  if limit <=? countTerminalSessionsForWorker w s then None else Some (<[sessionID := at_time now m]> s).

Definition lookupTerminalSession (sessionID : string) (s : sessions) : option terminalSessionMeta := s !! sessionID.
Definition forgetTerminalSession (sessionID : string) (s : sessions) : sessions := delete sessionID s.

Definition touchTerminalSession (now : Z) (sessionID : string) (s : sessions) : sessions :=
  match s !! sessionID with Some m => <[sessionID := at_time now m]> s | None => s end.

Definition terminalIdleTimeout : Z := 900000000000.

Definition idleTerminalSessions (now : Z) (s : sessions) : sessions :=
  filter (λ im, (lastActivity im.2 < now - terminalIdleTimeout)%Z) s.

(** [maxConcurrentSessionsPerWorker] *)
Definition maxConcurrentSessionsPerWorker (env : option string) : nat :=
  let v := TrimSpace (default "" env) in
  if decide (v ≠ "") then
    match Atoi v with Some n => if decide (0 < n)%Z then Z.to_nat n else 5 | None => 5 end
  else 5.

(** ** internal/termsession *)
Definition DefaultRetentionDays : Z := 30.

Definition RetentionDays (settings : option rows) : Z :=
  match settings with
  | Some (r :: _) => let days := GetInt "terminal_retention_days" r in if (days <=? 0)%Z then DefaultRetentionDays else days
  | _ => DefaultRetentionDays
  end.

Definition transcriptPath (storageDir sessionID : string) : string := PathJoin storageDir (Base sessionID +:+ ".cast").

Record recorder := {
  starts : gmap string Z;                 (* sessionStart *)
  files : gmap string string;             (* openFiles: the path behind each handle *)
  disk : gmap string string;              (* the transcript files *)
  trows : rows                            (* terminal_sessions *)
}.

Record CreateRecordParams := {
  p_SessionID : string; p_StackID : string; p_StackName : string; p_UserID : string; p_UserEmail : string; p_WorkerID : string;
  p_WorkerHostname : string; p_ContainerID : string; p_ContainerName : string; p_ServiceName : string; p_Rows : N; p_Cols : N
}.

(** What reaches the disk of a line: all of it, or its first bytes when the write fails. *)
Definition put (written : option nat) (line : string) : string := match written with None => line | Some n => stake n line end.

(** What the file system and the database answer, and the id of the new row. *)
Record io := { io_mkdir : bool; io_open : bool; io_write : option nat; io_collection : bool; io_save : bool; io_id : string; io_settings : option rows }.

Section session.
Context (storageDir : string).

(** How the asciicast header prints, and the seconds of an event ([encoding/json] of a
    map and of a float64); [later] adds days to a time. *)
Context (header_line : N → N → Z → string) (show_secs : Z → string) (later : Z → Z → Z).

Definition event_line (elapsed : Z) (data : string) : string :=
  "[" +:+ show_secs elapsed +:+ "," +:+ ch 34 +:+ "o" +:+ ch 34 +:+ "," +:+ ch 34 +:+ EncodeToString data +:+ ch 34 +:+ "]" +:+ ch 10.

Definition set_starts f (r : recorder) : recorder := {| starts := f (starts r); files := files r; disk := disk r; trows := trows r |}.
Definition set_files f (r : recorder) : recorder := {| starts := starts r; files := f (files r); disk := disk r; trows := trows r |}.
Definition set_disk f (r : recorder) : recorder := {| starts := starts r; files := files r; disk := f (disk r); trows := trows r |}.
Definition set_trows f (r : recorder) : recorder := {| starts := starts r; files := files r; disk := disk r; trows := f (trows r) |}.

Definition session_row (c : io) (now : Z) (p : CreateRecordParams) : record :=
  SetField "expires_at" (date_value (later now (RetentionDays (io_settings c)))) (
  SetStr "status" "open" (SetField "started_at" (date_value now) (
  SetStr "transcript_path" (transcriptPath storageDir (p_SessionID p)) (
  SetStr "service_name" (p_ServiceName p) (SetStr "container_name" (p_ContainerName p) (SetStr "container_id" (p_ContainerID p) (
  SetStr "worker_hostname" (p_WorkerHostname p) (SetStr "worker" (p_WorkerID p) (SetStr "user_email" (p_UserEmail p) (
  SetStr "user" (p_UserID p) (SetStr "stack_name" (p_StackName p) (SetStr "stack" (p_StackID p) (
  SetStr "session_id" (p_SessionID p) {| Id := io_id c; fields := ∅ |}))))))))))))).

(** The fresh transcript file with its header; its handle is kept only if that is written. *)
Definition open_transcript (c : io) (now : Z) (p : CreateRecordParams) (r : recorder) : recorder :=
  let path := transcriptPath storageDir (p_SessionID p) in
  if negb (io_open c) then r
  else
    let r := set_disk <[path := put (io_write c) (header_line (p_Cols p) (p_Rows p) now)]> r in
    if decide (io_write c = None) then set_files <[p_SessionID p := path]> r else r.

Definition CreateRecord (c : io) (now : Z) (p : CreateRecordParams) (r : recorder) : recorder :=
  let r := set_starts <[p_SessionID p := now]> r in
  if negb (io_mkdir c) then r
  else
    let r := open_transcript c now p r in
    if negb (io_collection c) then r
    else if io_save c then set_trows (upsert (session_row c now p)) r else r.

Definition AppendTranscript (written : option nat) (now : Z) (sessionID data : string) (r : recorder) : recorder :=
  match starts r !! sessionID with
  | None => r
  | Some start =>
      let line := event_line (now - start) data in
      match files r !! sessionID with
      | None => r
      | Some path => set_disk <[path := default "" (disk r !! path) +:+ put written line]> r
      end
  end.

Definition closed_row (now : Z) (exitCode : Z) (rec : record) : record :=
  SetStr "status" "closed" (SetInt "exit_code" exitCode (SetField "ended_at" (date_value now) rec)).

Definition CloseRecord (saved : bool) (now : Z) (sessionID : string) (exitCode : Z) (r : recorder) : recorder :=
  let r := set_files (delete sessionID) (set_starts (delete sessionID) r) in
  match FindAll "session_id" sessionID (trows r) with
  | [] => r
  | rec :: _ => if saved then set_trows (upsert (closed_row now exitCode rec)) r else r
  end.

(** [removed] tells which files and [deleted] which rows can be deleted. *)
Definition purge_one (removed : string → bool) (deleted : record → bool) (r : recorder) (rec : record) : recorder :=
  let path := GetString "transcript_path" rec in
  let r := if decide (path ≠ "") then (if removed path then set_disk (delete path) r else r) else r in
  if deleted rec then set_trows (filter (λ x, Id x ≠ Id rec)) r else r.

Definition expired (now : Z) (rec : record) : bool := (GetDateTime "expires_at" rec <? now)%Z.

Definition PurgeExpired (removed : string → bool) (deleted : record → bool) (now : Z) (r : recorder) : recorder :=
  foldl (purge_one removed deleted) r (List.filter (expired now) (trows r)).
End session.

(** ** internal/routes/terminal.go: the handlers *)
Record server := { table : sessions; rec_of : recorder; broker : TBroker; sent : list (string * message); audit : list (string * string * string) }.

Definition set_table f (s : server) : server := {| table := f (table s); rec_of := rec_of s; broker := broker s; sent := sent s; audit := audit s |}.
Definition set_rec f (s : server) : server := {| table := table s; rec_of := f (rec_of s); broker := broker s; sent := sent s; audit := audit s |}.
Definition send w m (s : server) : server := {| table := table s; rec_of := rec_of s; broker := broker s; sent := sent s ++ [(w, m)]; audit := audit s |}.
(** An audit entry: its action, the stack it is about and the session. *)
Definition note action stack sid (s : server) : server :=
  {| table := table s; rec_of := rec_of s; broker := broker s; sent := sent s; audit := audit s ++ [(action, stack, sid)] |}.
Definition publish (b : option TBroker) (s : server) : option server :=
  match b with Some b => Some {| table := table s; rec_of := rec_of s; broker := b; sent := sent s; audit := audit s |} | None => None end.

Inductive refusal := UnknownSession | NotOwner.

Definition authorizeTerminalSession (e : event) (sessionID : string) (s : server) : terminalSessionMeta + refusal :=
  match lookupTerminalSession sessionID (table s) with
  | None => inr UnknownSession
  | Some meta =>
      let '(_, _, actor) := ResolveActor e in
      if decide (actor = "" ∨ actor ≠ actorID meta) then inr NotOwner else inl meta
  end.

Definition authorizeTerminalSessionForClose (e : event) (sessionID : string) (s : server) : terminalSessionMeta + refusal :=
  match lookupTerminalSession sessionID (table s) with
  | None => inr UnknownSession
  | Some meta =>
      let '(_, _, actor) := ResolveActor e in
      if decide (actor ≠ "" ∧ actor = actorID meta) then inl meta
      else if Can e CapManageSecurity then inl meta else inr NotOwner
  end.

Section handlers.
Context (storageDir : string) (header_line : N → N → Z → string) (show_secs : Z → string) (later : Z → Z → Z).

Record open_body := { ContainerID : string; Shell : list string; Rows : N; Cols : N }.

Inductive open_answer := ContainerRequired | DispatcherUnavailable | AlreadyAnswered | TooMany (limit : nat) | SendFailed | Opened (sessionID : string).

(** What the queries of the open handler find: the stack with its project and worker
    ([None] when [resolveStackAndWorker] has answered), the service of the container, the
    user and the worker. *)
Record found := { f_stack : option (record * string * string); f_service : option record; f_user : option record; f_worker : option record }.

Definition text_of (field : string) (r : option record) : string := match r with Some r => GetString field r | None => "" end.

(** [send_ok]: the message reaches the worker's connection; [saved]: the row can be closed. *)
Definition open_session (c : io) (saved send_ok hasSender : bool) (limit : nat) (now : Z) (e : event) (stack_id sessionID : string)
  (body : option open_body) (q : found) (s : server) : open_answer * server :=
  match body with
  | None => (ContainerRequired, s)
  | Some b =>
      if decide (TrimSpace (ContainerID b) = "") then (ContainerRequired, s)
      else if negb hasSender then (DispatcherUnavailable, s)
      else match f_stack q with
      | None => (AlreadyAnswered, s)
      | Some (stack, projectName, w) =>
          let '(_, _, actor) := ResolveActor e in
          match reserveTerminalSession now sessionID w limit {| workerID := w; actorID := actor; stackID := stack_id; lastActivity := 0 |} (table s) with
          | None => (TooMany limit, s)
          | Some t =>
              let p := {| p_SessionID := sessionID; p_StackID := stack_id; p_StackName := GetString "name" stack; p_UserID := actor;
                          p_UserEmail := text_of "email" (f_user q); p_WorkerID := w; p_WorkerHostname := text_of "hostname" (f_worker q);
                          p_ContainerID := ContainerID b; p_ContainerName := text_of "container_name" (f_service q);
                          p_ServiceName := text_of "service_name" (f_service q);
                          p_Rows := if decide (Rows b = 0%N) then 24%N else Rows b; p_Cols := if decide (Cols b = 0%N) then 80%N else Cols b |} in
              let s := set_rec (CreateRecord storageDir header_line later c now p) (set_table (λ _, t) s) in
              if send_ok then
                (Opened sessionID,
                 note "terminal.open" stack_id sessionID
                   (send w (MsgTerminalOpen (TerminalOpenCommandID sessionID) sessionID stack_id projectName (ContainerID b) (Shell b) (Rows b) (Cols b)) s))
              else (SendFailed, set_rec (CloseRecord saved now sessionID (-1)) (set_table (forgetTerminalSession sessionID) s))
          end
      end
  end.

Inductive answer := Refused (r : refusal) | BadBody | Unavailable | Ok.

Definition input (send_ok hasSender : bool) (now : Z) (e : event) (sessionID : string) (body : option string) (s : server) : answer * server :=
  match authorizeTerminalSession e sessionID s with
  | inr r => (Refused r, s)
  | inl meta =>
      match body with
      | None => (BadBody, s)
      | Some data =>
          if negb hasSender then (Unavailable, s)
          else if negb send_ok then (Unavailable, s)
          else (Ok, set_table (touchTerminalSession now sessionID) (send (workerID meta) (MsgTerminalInput sessionID (EncodeToString data)) s))
      end
  end.

Definition resize (send_ok hasSender : bool) (e : event) (sessionID : string) (body : option (N * N)) (s : server) : answer * server :=
  match authorizeTerminalSession e sessionID s with
  | inr r => (Refused r, s)
  | inl meta =>
      match body with
      | None => (BadBody, s)
      | Some (rows, cols) =>
          if decide (rows = 0%N ∨ cols = 0%N) then (BadBody, s)
          else if negb hasSender then (Unavailable, s)
          else if negb send_ok then (Unavailable, s)
          else (Ok, send (workerID meta) (MsgTerminalResize sessionID rows cols) s)
      end
  end.

(** What the close route and the sweeper share: the order to the worker, whether or not it
    arrives, the slot and the record. *)
Definition abandon (saved send_ok hasSender : bool) (now : Z) (sessionID : string) (meta : terminalSessionMeta) (s : server) : server :=
  let s := if hasSender && send_ok then send (workerID meta) (MsgTerminalClose sessionID) s else s in
  set_rec (CloseRecord saved now sessionID (-1)) (set_table (forgetTerminalSession sessionID) s).

Definition close (saved send_ok hasSender : bool) (now : Z) (e : event) (sessionID : string) (s : server) : answer * server :=
  match authorizeTerminalSessionForClose e sessionID s with
  | inr r => (Refused r, s)
  | inl meta =>
      let '(_, _, actor) := ResolveActor e in
      let action := if decide (actor ≠ actorID meta) then "terminal.admin_close" else "terminal.close" in
      (Ok, note action (stackID meta) sessionID (abandon saved send_ok hasSender now sessionID meta s))
  end.

(** One tick of the sweeper; [l] are the idle sessions in the order of the map. *)
Definition sweep_one (saved send_ok hasSender : bool) (now : Z) (s : server) (im : string * terminalSessionMeta) : server :=
  note "terminal.idle_close" (stackID im.2) im.1 (abandon saved send_ok hasSender now im.1 im.2 s).

Definition sweep (saved send_ok hasSender : bool) (now : Z) (s : server) : server :=
  foldl (sweep_one saved send_ok hasSender now) s (map_to_list (idleTerminalSessions now (table s))).

Definition HandleTerminalOpenRejected (saved : bool) (now : Z) (sessionID reason : string) (s : server) : option server :=
  let s := set_rec (CloseRecord saved now sessionID (-1)) (set_table (forgetTerminalSession sessionID) s) in
  publish (PublishClosed sessionID (-1) reason (broker s)) s.

(** cmd/serve.go: the messages of the worker. *)
Definition onTerminalOutput (written : option nat) (now : Z) (sessionID dataB64 : string) (s : server) : option server :=
  match DecodeString dataB64 with
  | None => Some s
  | Some data =>
      match publish (PublishOutput sessionID data (broker s)) s with
      | None => None
      | Some s => Some (set_rec (AppendTranscript show_secs written now sessionID data) s)
      end
  end.

Definition onTerminalClosed (saved : bool) (now : Z) (sessionID : string) (exitCode : Z) (err : string) (s : server) : option server :=
  match publish (PublishClosed sessionID exitCode err (broker s)) s with
  | None => None
  | Some s => Some (set_rec (CloseRecord saved now sessionID exitCode) s)
  end.

(** One event the stream route reads: the text it writes, and whether it goes on. *)
Definition stream_event (show_closed : Z → string → string) (sessionID : string) (ev : TEvent) (s : server) : string * bool * server :=
  if Closed ev then
    ("event: closed" +:+ ch 10 +:+ "data: " +:+ show_closed (ExitCode ev) (Error ev) +:+ ch 10 +:+ ch 10, false,
     set_table (forgetTerminalSession sessionID) s)
  else ("data: " +:+ EncodeToString (Data ev) +:+ ch 10 +:+ ch 10, true, s).

(** The transcript route: the file of the row, for the owner and for who may see audit logs. *)
Inductive transcript_answer := NoSession | ForbiddenTranscript | NotAvailable | Transcript (content : string).

Definition transcript (e : event) (sessionID : string) (s : server) : transcript_answer :=
  let '(_, _, actor) := ResolveActor e in
  match FindAll "session_id" sessionID (trows (rec_of s)) with
  | [] => NoSession
  | r :: _ =>
      if bool_decide (GetString "user" r ≠ actor) && negb (Can e CapViewAuditLogs) then ForbiddenTranscript
      else match disk (rec_of s) !! GetString "transcript_path" r with Some c => Transcript c | None => NotAvailable end
  end.
End handlers.

(** [terminalSessionFilters]: the parts of the filter; [next_day] is the day after a date
    [2006-01-02] ([None] if it is not one). *)
Definition terminalSessionFilters (next_day : string → option string) (from to stackName userEmail serviceName status : string)
  : list (string * string * string * string) :=
  let add := λ field op value name, if decide (value = "") then [] else [(field, op, name, value)] in
  let toVal := TrimSpace to in
  add "started_at" ">=" (TrimSpace from) "from" ++
  (if decide (String.length toVal = 10) then
     match next_day toVal with Some d => add "started_at" "<" d "to" | None => add "started_at" "<=" toVal "to" end
   else add "started_at" "<=" toVal "to") ++
  add "stack_name" "=" (TrimSpace stackName) "stack_name" ++ add "user_email" "=" (TrimSpace userEmail) "user_email" ++
  add "service_name" "=" (TrimSpace serviceName) "service_name" ++ add "status" "=" (TrimSpace status) "status".

(** ** The id of an open command names its session *)
Lemma open_command_roundtrip sessionID : sessionID ≠ "" → TerminalOpenSessionIDFromCommandID (TerminalOpenCommandID sessionID) = Some sessionID.
Proof.
  intros Hs. unfold TerminalOpenSessionIDFromCommandID, TerminalOpenCommandID. rewrite (proj2 (strip_prefix_Some _ _ sessionID) eq_refl).
  by destruct sessionID.
Qed.

(** ** The cap on the sessions of a worker

    The table is touched under its mutex only, so every interleaving of the handlers is a
    sequence of these steps. *)
Inductive table_step (limit : nat) : sessions → sessions → Prop :=
  | step_reserve now sid w m s s' : workerID m = w → reserveTerminalSession now sid w limit m s = Some s' → table_step limit s s'
  | step_forget sid s : table_step limit s (forgetTerminalSession sid s)
  | step_touch now sid s : table_step limit s (touchTerminalSession now sid s).

Lemma session_count_insert w sid m s : countTerminalSessionsForWorker w (<[sid := m]> s) ≤
  (if decide (workerID m = w) then 1 else 0) + countTerminalSessionsForWorker w s.
Proof.
  unfold countTerminalSessionsForWorker. destruct (decide (workerID m = w)) as [Hm|Hm].
  - rewrite map_filter_insert_True // map_size_insert. destruct (_ !! sid); [apply Nat.le_succ_diag_r|apply Nat.le_refl].
  - rewrite map_filter_insert_False // map_filter_delete map_size_delete. destruct (_ !! sid); [apply Nat.le_pred_l|apply Nat.le_refl].
Qed.

Lemma session_count_delete w sid s : countTerminalSessionsForWorker w (delete sid s) ≤ countTerminalSessionsForWorker w s.
Proof. unfold countTerminalSessionsForWorker. rewrite map_filter_delete map_size_delete. destruct (_ !! sid); [apply Nat.le_pred_l|apply Nat.le_refl]. Qed.

Lemma session_count_touch w now sid s : countTerminalSessionsForWorker w (touchTerminalSession now sid s) = countTerminalSessionsForWorker w s.
Proof.
  unfold touchTerminalSession, countTerminalSessionsForWorker. destruct (s !! sid) as [m|] eqn:Hm; [|done].
  destruct (decide (workerID m = w)) as [Hw|Hw].
  - rewrite map_filter_insert_True // map_size_insert. match goal with |- context [?f !! sid] => destruct (f !! sid) eqn:Hx end; [done|].
    apply map_lookup_filter_None in Hx as [Hx|Hx]; [congruence|]. by destruct (Hx m Hm).
  - rewrite map_filter_insert_False // map_filter_delete map_size_delete. match goal with |- context [?f !! sid] => destruct (f !! sid) eqn:Hx end; [|done].
    apply map_lookup_filter_Some in Hx as [Hx ?]. simpl in *. congruence.
Qed.

Lemma table_step_capped limit s s' : table_step limit s s' → (∀ w, countTerminalSessionsForWorker w s ≤ limit) →
  ∀ w, countTerminalSessionsForWorker w s' ≤ limit.
Proof.
  intros Hs Hc w. destruct Hs as [now sid w' m s s' <- Hr|sid s|now sid s].
  - unfold reserveTerminalSession in Hr. destruct (limit <=? _) eqn:Hl; [done|]. apply Nat.leb_gt in Hl. injection Hr as <-.
    pose proof (session_count_insert w sid (at_time now m) s) as Hi. simpl in Hi. case_decide as Hw; [subst w; lia|]. specialize (Hc w). lia.
  - pose proof (session_count_delete w sid s). unfold forgetTerminalSession. specialize (Hc w). lia.
  - rewrite session_count_touch. auto.
Qed.

(** However requests, sweeps and messages of workers interleave, no worker has more open
    sessions than the limit. *)
Theorem sessions_capped limit s : rtc (table_step limit) ∅ s → ∀ w, countTerminalSessionsForWorker w s ≤ limit.
Proof.
  intros Hr. assert (∀ w, countTerminalSessionsForWorker w ∅ ≤ limit) as H0.
  { intros w. unfold countTerminalSessionsForWorker. rewrite map_filter_empty map_size_empty. lia. }
  revert H0. induction Hr; eauto using table_step_capped.
Qed.

(** ** Recording *)
Section recording.
Context (storageDir : string) (header_line : N → N → Z → string) (show_secs : Z → string) (later : Z → Z → Z).

(** The operations on the records of the sessions, as they come in. *)
Inductive op :=
  | OpCreate (c : io) (now : Z) (p : CreateRecordParams)
  | OpAppend (written : option nat) (now : Z) (sessionID data : string)
  | OpClose (saved : bool) (now : Z) (sessionID : string) (exitCode : Z).

Definition apply_op (r : recorder) (o : op) : recorder :=
  match o with
  | OpCreate c now p => CreateRecord storageDir header_line later c now p r
  | OpAppend written now sid data => AppendTranscript show_secs written now sid data r
  | OpClose saved now sid code => CloseRecord saved now sid code r
  end.

(** What the operations append to the transcript of the session that began at [start]. *)
Definition recorded_line (sid : string) (start : Z) (o : op) : string :=
  match o with OpAppend written now sid' data => if decide (sid' = sid) then put written (event_line show_secs (now - start) data) else "" | _ => "" end.

Fixpoint recorded (sid : string) (start : Z) (ops : list op) : string :=
  match ops with [] => "" | o :: ops => recorded_line sid start o +:+ recorded sid start ops end.

(** The operation neither ends the session nor opens another on its transcript. *)
Definition leaves (sid : string) (o : op) : Prop :=
  match o with
  | OpCreate _ _ p => transcriptPath storageDir (p_SessionID p) ≠ transcriptPath storageDir sid
  | OpClose _ _ sid' _ => sid' ≠ sid
  | OpAppend _ _ _ _ => True
  end.

(** The session is being recorded, and its file is no other session's. *)
Definition recording (sid : string) (start : Z) (r : recorder) : Prop :=
  starts r !! sid = Some start ∧ files r !! sid = Some (transcriptPath storageDir sid) ∧
  ∀ sid' path, files r !! sid' = Some path → sid' ≠ sid → path ≠ transcriptPath storageDir sid.

Lemma CloseRecord_get saved now sid code r : starts (CloseRecord saved now sid code r) = delete sid (starts r) ∧
  files (CloseRecord saved now sid code r) = delete sid (files r) ∧ disk (CloseRecord saved now sid code r) = disk r.
Proof. unfold CloseRecord. cbv zeta. destruct (FindAll _ _ _); [done|]. by destruct saved. Qed.

Lemma CreateRecord_get c now p r : let r' := CreateRecord storageDir header_line later c now p r in
  let path := transcriptPath storageDir (p_SessionID p) in
  starts r' = <[p_SessionID p := now]> (starts r) ∧ (files r' = files r ∨ files r' = <[p_SessionID p := path]> (files r)) ∧
  (disk r' = disk r ∨ ∃ x, disk r' = <[path := x]> (disk r)).
Proof.
  unfold CreateRecord, open_transcript. cbv zeta.
  destruct (io_mkdir c), (io_open c), (io_write c), (io_collection c), (io_save c); simpl; split_and!; eauto.
Qed.

(** What the transcript of the session holds. *)
Definition content (sid : string) (r : recorder) : string := default "" (disk r !! transcriptPath storageDir sid).

Lemma AppendTranscript_get written now sid data r : starts (AppendTranscript show_secs written now sid data r) = starts r ∧
  files (AppendTranscript show_secs written now sid data r) = files r ∧ trows (AppendTranscript show_secs written now sid data r) = trows r.
Proof. unfold AppendTranscript. destruct (starts r !! sid), (files r !! sid); done. Qed.

Lemma AppendTranscript_own written now sid data start r : recording sid start r →
  content sid (AppendTranscript show_secs written now sid data r) = content sid r +:+ put written (event_line show_secs (now - start) data).
Proof. intros (Hs & Hf & _). unfold content, AppendTranscript. rewrite Hs Hf. simpl. by rewrite lookup_insert_eq. Qed.

Lemma AppendTranscript_other written now sid sid' data start r : recording sid start r → sid' ≠ sid →
  content sid (AppendTranscript show_secs written now sid' data r) = content sid r.
Proof.
  intros (_ & _ & Ho) Hne. unfold content, AppendTranscript. destruct (starts r !! sid'), (files r !! sid') as [path|] eqn:Hp; try done.
  simpl. rewrite lookup_insert_ne //. by eapply Ho.
Qed.

Lemma apply_op_recording sid start o r : recording sid start r → leaves sid o →
  recording sid start (apply_op r o) ∧ content sid (apply_op r o) = content sid r +:+ recorded_line sid start o.
Proof.
  intros Hr Hl. destruct o as [c now p|written now sid' data|saved now sid' code]; simpl in *.
  - destruct Hr as (Hs & Hf & Ho). assert (p_SessionID p ≠ sid) as Hne by congruence.
    destruct (CreateRecord_get c now p r) as (C1 & C2 & C3). unfold recording, content. rewrite C1 lookup_insert_ne // sapp_nil_r.
    split_and!; [done|..].
    + destruct C2 as [->| ->]; [done|by rewrite lookup_insert_ne].
    + intros sid' path Hp. destruct C2 as [C2|C2]; rewrite C2 in Hp; [by apply Ho|].
      apply lookup_insert_Some in Hp as [[_ <-]|[_ Hp]]; [done|by apply Ho].
    + destruct C3 as [->|[x ->]]; [done|by rewrite lookup_insert_ne].
  - split.
    + destruct (AppendTranscript_get written now sid' data r) as (A1 & A2 & _). unfold recording. by rewrite A1 A2.
    + destruct (decide (sid' = sid)) as [->|Hne]; [by apply AppendTranscript_own|].
      by rewrite (AppendTranscript_other _ _ _ _ _ _ _ Hr Hne) sapp_nil_r.
  - destruct Hr as (Hs & Hf & Ho). destruct (CloseRecord_get saved now sid' code r) as (C1 & C2 & C3).
    unfold recording, content. rewrite C1 C2 C3 !lookup_delete_ne // sapp_nil_r.
    split_and!; [done|done| |done]. intros sid'' path [_ Hp]%lookup_delete_Some. by apply Ho.
Qed.

Lemma run_recording sid start ops r : recording sid start r → Forall (leaves sid) ops →
  recording sid start (foldl apply_op r ops) ∧ content sid (foldl apply_op r ops) = content sid r +:+ recorded sid start ops.
Proof.
  revert r. induction ops as [|o ops IH]; intros r Hr Hl; [by rewrite /= sapp_nil_r|].
  inversion Hl as [|?? H1 H2]; subst. destruct (apply_op_recording sid start o r Hr H1) as [Hr' Hc].
  destruct (IH _ Hr' H2) as [IH1 IH2]. split; [done|]. simpl. by rewrite IH2 Hc sapp_assoc.
Qed.

(** No two open transcripts share a file with the new session. *)
Definition fresh_path (sid : string) (r : recorder) : Prop := map_Forall (λ _ path, path ≠ transcriptPath storageDir sid) (files r).

#[global] Instance fresh_path_dec sid r : Decision (fresh_path sid r).
Proof. unfold fresh_path. apply _. Defined.

Lemma CreateRecord_recording c now p r : io_mkdir c = true → io_open c = true → io_write c = None → fresh_path (p_SessionID p) r →
  let r' := CreateRecord storageDir header_line later c now p r in
  recording (p_SessionID p) now r' ∧ content (p_SessionID p) r' = header_line (p_Cols p) (p_Rows p) now.
Proof.
  intros H1 H2 H3 Hf. unfold CreateRecord, open_transcript. rewrite H1 H2 H3. cbv zeta. simpl.
  assert (∀ r0, starts r0 = <[p_SessionID p:=now]> (starts r) → files r0 = <[p_SessionID p:=transcriptPath storageDir (p_SessionID p)]> (files r) →
    disk r0 = <[transcriptPath storageDir (p_SessionID p):=header_line (p_Cols p) (p_Rows p) now]> (disk r) →
    recording (p_SessionID p) now r0 ∧ content (p_SessionID p) r0 = header_line (p_Cols p) (p_Rows p) now) as Hall.
  { intros r0 E1 E2 E3. unfold recording, content. rewrite E1 E2 E3 !lookup_insert_eq. split_and!; [done|done| |done].
    intros sid' path Hp Hne. rewrite lookup_insert_ne // in Hp. exact (Hf _ _ Hp). }
  destruct (io_collection c), (io_save c); by apply Hall.
Qed.

(** The session is closed: no handle is left, and its file is no open session's. *)
Definition closed (sid : string) (r : recorder) : Prop := starts r !! sid = None ∧ files r !! sid = None ∧ fresh_path sid r.

Lemma CloseRecord_closed saved now sid code start r : recording sid start r →
  closed sid (CloseRecord saved now sid code r) ∧ content sid (CloseRecord saved now sid code r) = content sid r.
Proof.
  intros (_ & _ & Ho). destruct (CloseRecord_get saved now sid code r) as (C1 & C2 & C3).
  unfold closed, content, fresh_path. rewrite C1 C2 C3 !lookup_delete_eq. split_and!; [done|done| |done].
  intros sid' path [Hne Hp]%lookup_delete_Some. apply (Ho sid'); [done|congruence].
Qed.

(** A chunk the worker sends after the session is closed is not recorded. *)
Lemma apply_op_closed sid o r : closed sid r → leaves sid o → closed sid (apply_op r o) ∧ content sid (apply_op r o) = content sid r.
Proof.
  intros (Hs & Hf & Ho) Hl. destruct o as [c now p|written now sid' data|saved now sid' code]; simpl in *; unfold closed, content, fresh_path in *.
  - assert (p_SessionID p ≠ sid) as Hne by congruence. destruct (CreateRecord_get c now p r) as (C1 & C2 & C3).
    rewrite C1 lookup_insert_ne //. split_and!; [done|..].
    + destruct C2 as [->| ->]; [done|by rewrite lookup_insert_ne].
    + destruct C2 as [->| ->]; [done|]. by apply map_Forall_insert_2.
    + destruct C3 as [->|[x ->]]; [done|by rewrite lookup_insert_ne].
  - destruct (AppendTranscript_get written now sid' data r) as (A1 & A2 & _). rewrite A1 A2. split_and!; [done|done|done|].
    unfold AppendTranscript. destruct (starts r !! sid'), (files r !! sid') as [path|] eqn:Hp; try done.
    simpl. rewrite lookup_insert_ne //. exact (Ho _ _ Hp).
  - destruct (CloseRecord_get saved now sid' code r) as (C1 & C2 & C3). rewrite C1 C2 C3 !lookup_delete_ne //.
    split_and!; [done|done| |done]. by apply map_Forall_delete.
Qed.

Lemma run_closed sid ops r : closed sid r → Forall (leaves sid) ops → content sid (foldl apply_op r ops) = content sid r.
Proof.
  revert r. induction ops as [|o ops IH]; intros r Hr Hl; [done|]. inversion Hl as [|?? H1 H2]; subst.
  destruct (apply_op_closed sid o r Hr H1) as [Hr' Hc]. simpl. by rewrite (IH _ Hr' H2).
Qed.

(** The transcript of a session is the asciicast header followed by one line for each
    chunk (as far as its write got) appended under its id before it is closed, in order and with the time since it
    was opened, whatever the other sessions do meanwhile; what comes after is dropped. *)
Theorem transcript_exact c now p r ops saved now' code ops' :
  io_mkdir c = true → io_open c = true → io_write c = None → fresh_path (p_SessionID p) r →
  Forall (leaves (p_SessionID p)) ops → Forall (leaves (p_SessionID p)) ops' →
  let r1 := foldl apply_op r (OpCreate c now p :: ops) in
  let text := header_line (p_Cols p) (p_Rows p) now +:+ recorded (p_SessionID p) now ops in
  content (p_SessionID p) r1 = text ∧
  content (p_SessionID p) (foldl apply_op r1 (OpClose saved now' (p_SessionID p) code :: ops')) = text.
Proof.
  intros H1 H2 H3 Hf Hl Hl' r1 text. destruct (CreateRecord_recording c now p r H1 H2 H3 Hf) as [Hr Hc].
  destruct (run_recording _ _ ops _ Hr Hl) as [Hr' Hc']. rewrite Hc in Hc'. split; [exact Hc'|].
  destruct (CloseRecord_closed saved now' _ code _ _ Hr') as [Hcl Hcc]. simpl. rewrite (run_closed _ _ _ Hcl Hl') Hcc. exact Hc'.
Qed.

(** Every transcript is directly in the storage directory, whatever the id of the session. *)
Theorem transcript_in_dir sid : storageDir ≠ "" →
  IsAbs (transcriptPath storageDir sid) = IsAbs storageDir ∧
  ∃ name, path_comps (transcriptPath storageDir sid) = path_comps storageDir ++ [name].
Proof.
  intros Hd. set (name := Base sid +:+ ".cast"). assert (4 < String.length name) as Hlen.
  { unfold name. rewrite slength_app. simpl. lia. }
  assert (name ≠ "" ∧ name ≠ "." ∧ name ≠ "..") as (N1 & N2 & N3) by (split_and!; intros E; rewrite E in Hlen; simpl in Hlen; lia).
  destruct (PathJoin_comps storageDir name Hd N1) as [HA Hc]. split; [exact HA|]. unfold transcriptPath. rewrite Hc.
  destruct (Base_single sid) as [E|Hs].
  - exists ".cast". unfold name. rewrite E. change (Split slash ("/" +:+ ".cast")) with [""; ".cast"]. simpl.
    by rewrite reverse_cons reverse_involutive.
  - exists name. rewrite Split_single; [|unfold name; rewrite in_string_app; simpl; naive_solver].
    simpl. unfold clean_step. rewrite !decide_False; [|done|naive_solver]. by rewrite reverse_cons reverse_involutive.
Qed.
End recording.

(** ** Who may do what *)
Section rights.
Context (storageDir : string) (header_line : N → N → Z → string) (show_secs : Z → string) (later : Z → Z → Z).

(** A step of the server: a request of the routes, a tick of the sweeper, a message of a
    worker. *)
Inductive request :=
  | ReqOpen (c : io) (saved send_ok hasSender : bool) (limit : nat) (now : Z) (e : event) (stack_id sessionID : string) (body : option open_body) (q : found)
  | ReqInput (send_ok hasSender : bool) (now : Z) (e : event) (sessionID : string) (body : option string)
  | ReqResize (send_ok hasSender : bool) (e : event) (sessionID : string) (body : option (N * N))
  | ReqClose (saved send_ok hasSender : bool) (now : Z) (e : event) (sessionID : string)
  | Tick (saved send_ok hasSender : bool) (now : Z).

Definition serve (s : server) (r : request) : server :=
  match r with
  | ReqOpen c saved ok has limit now e stk sid body q => (open_session storageDir header_line later c saved ok has limit now e stk sid body q s).2
  | ReqInput ok has now e sid body => (input ok has now e sid body s).2
  | ReqResize ok has e sid body => (resize ok has e sid body s).2
  | ReqClose saved ok has now e sid => (close saved ok has now e sid s).2
  | Tick saved ok has now => sweep saved ok has now s
  end.

(** The requests the actor [a] makes. *)
Definition by_actor (a : string) (r : request) : Prop :=
  match r with
  | ReqOpen _ _ _ _ _ _ e _ _ _ _ | ReqInput _ _ _ e _ _ | ReqResize _ _ e _ _ | ReqClose _ _ _ _ e _ => (ResolveActor e).2 = a
  | Tick _ _ _ _ => False
  end.

(** What reaches the shell of the session: keystrokes and sizes. *)
Definition drives (sid : string) (wm : string * message) : bool :=
  match wm.2 with MsgTerminalInput sid' _ | MsgTerminalResize sid' _ _ => bool_decide (sid' = sid) | _ => false end.

(** Another session is opened: the ids are fresh. *)
Definition other_open (sid : string) (r : request) : Prop :=
  match r with ReqOpen _ _ _ _ _ _ _ _ sid' _ _ => sid' ≠ sid | _ => True end.

Definition owned (sid a : string) (s : server) : Prop := ∀ m, table s !! sid = Some m → actorID m = a.

Definition driven (sid : string) (s : server) : list (string * message) := List.filter (drives sid) (sent s).

Lemma sweep_one_get saved ok has now s im :
  table (sweep_one saved ok has now s im) = delete im.1 (table s) ∧ starts (rec_of (sweep_one saved ok has now s im)) = delete im.1 (starts (rec_of s)) ∧
  files (rec_of (sweep_one saved ok has now s im)) = delete im.1 (files (rec_of s)) ∧ ∀ sid, driven sid (sweep_one saved ok has now s im) = driven sid s.
Proof.
  unfold sweep_one, abandon, driven. cbv zeta.
  assert (∀ s0, files (rec_of (set_rec (CloseRecord saved now im.1 (-1)) s0)) = delete im.1 (files (rec_of s0)) ∧
    starts (rec_of (set_rec (CloseRecord saved now im.1 (-1)) s0)) = delete im.1 (starts (rec_of s0))) as Hr.
  { intros s0. simpl. by destruct (CloseRecord_get saved now im.1 (-1) (rec_of s0)) as (-> & -> & _). }
  destruct (has && ok); simpl; split_and!; try done; try apply Hr. intros sid. rewrite List.filter_app. simpl. apply app_nil_r.
Qed.

Lemma sweep_list_get saved ok has now l s : let s' := foldl (sweep_one saved ok has now) s l in
  table s' = foldl (λ t im, delete im.1 t) (table s) l ∧ starts (rec_of s') = foldl (λ t im, delete im.1 t) (starts (rec_of s)) l ∧
  files (rec_of s') = foldl (λ t im, delete im.1 t) (files (rec_of s)) l ∧ ∀ sid, driven sid s' = driven sid s.
Proof.
  revert s. induction l as [|im l IH]; intros s; [done|]. simpl. destruct (sweep_one_get saved ok has now s im) as (E1 & E2 & E3 & E4).
  destruct (IH (sweep_one saved ok has now s im)) as (I1 & I2 & I3 & I4). rewrite I1 I2 I3 E1 E2 E3. split_and!; [done..|].
  intros sid. by rewrite I4 E4.
Qed.

Lemma owned_sub sid a s s' : owned sid a s → (∀ m, table s' !! sid = Some m → ∃ m', table s !! sid = Some m' ∧ actorID m' = actorID m) → owned sid a s'.
Proof. intros Ho Hs m Hm. destruct (Hs m Hm) as (m' & Hm' & <-). by apply Ho. Qed.

Lemma foldl_delete_sub {A B} (l : list (string * A)) (t : gmap string B) k x : foldl (λ t im, delete im.1 t) t l !! k = Some x → t !! k = Some x.
Proof. revert t. induction l as [|im l IH]; intros t Hx; [done|]. apply IH in Hx. by apply lookup_delete_Some in Hx as [_ ?]. Qed.

Lemma forget_owned sid sid' a s f : owned sid a s → owned sid a (set_rec f (set_table (forgetTerminalSession sid') s)).
Proof. intros Ho. apply (owned_sub _ _ _ _ Ho). simpl. unfold forgetTerminalSession. intros m [_ Hm]%lookup_delete_Some. by exists m. Qed.

Lemma abandon_owned sid sid' a saved ok has now m s : owned sid a s →
  owned sid a (abandon saved ok has now sid' m s) ∧ driven sid (abandon saved ok has now sid' m s) = driven sid s.
Proof.
  intros Ho. unfold abandon. cbv zeta. split; [apply forget_owned; by destruct (has && ok)|].
  unfold driven. destruct (has && ok); [|done]. simpl. rewrite List.filter_app. apply app_nil_r.
Qed.

Lemma authorize_owner e sid s m : authorizeTerminalSession e sid s = inl m → table s !! sid = Some m ∧ (ResolveActor e).2 = actorID m.
Proof.
  unfold authorizeTerminalSession, lookupTerminalSession. destruct (table s !! sid) as [m'|]; [|done]. destruct (ResolveActor e) as [[??] actor].
  case_decide as Ha; [done|]. intros [= <-]. split; [done|]. simpl. destruct (decide (actor = actorID m')); [done|]. destruct Ha. by right.
Qed.

Lemma serve_owned sid a s r : ¬ by_actor a r → other_open sid r → owned sid a s →
  owned sid a (serve s r) ∧ driven sid (serve s r) = driven sid s.
Proof.
  intros Hr Hop Ho. destruct r as [c saved ok has limit now e stk sid' body q|ok has now e sid' body|ok has e sid' body|saved ok has now e sid'|saved ok has now]; simpl in Hr, Hop; simpl.
  - unfold open_session. destruct body as [b|]; [|done]. case_decide; [done|]. destruct has; [|done]. simpl.
    destruct (f_stack q) as [[[stack project] w]|]; [|done]. destruct (ResolveActor e) as [[??] actor].
    unfold reserveTerminalSession. destruct (_ <=? _); [done|].
    match goal with |- context [set_rec (CreateRecord _ _ _ c now ?p) ?s0] => assert (owned sid a s0) as Ho' end.
    { apply (owned_sub _ _ _ _ Ho). simpl. intros m. rewrite lookup_insert_ne //. eauto. }
    destruct ok; simpl; [|split; [by apply forget_owned|done]].
    split; [done|]. unfold driven. simpl. rewrite List.filter_app. apply app_nil_r.
  - unfold input. destruct (authorizeTerminalSession e sid' s) as [m|] eqn:Hm; [|done]. apply authorize_owner in Hm as [Hm Hact].
    destruct body, has, ok; try done. simpl. split.
    + apply (owned_sub _ _ _ _ Ho). simpl. unfold touchTerminalSession. rewrite Hm. intros m' [[<- <-]|[_ ?]]%lookup_insert_Some; eauto.
    + unfold driven. simpl. rewrite List.filter_app. simpl. unfold drives. simpl. case_bool_decide as E; [|apply app_nil_r].
      subst sid'. destruct Hr. rewrite Hact. by apply Ho.
  - unfold resize. destruct (authorizeTerminalSession e sid' s) as [m|] eqn:Hm; [|done]. apply authorize_owner in Hm as [Hm Hact].
    destruct body as [[rows cols]|]; [|done]. case_decide; [done|]. destruct has, ok; try done. simpl. split; [done|].
    unfold driven. simpl. rewrite List.filter_app. simpl. unfold drives. simpl. case_bool_decide as E; [|apply app_nil_r].
    subst sid'. destruct Hr. rewrite Hact. by apply Ho.
  - unfold close. destruct (authorizeTerminalSessionForClose e sid' s) as [m|]; [|done]. destruct (ResolveActor e) as [[??] actor]. simpl.
    apply (abandon_owned sid sid' a saved ok has now m s Ho).
  - unfold sweep. destruct (sweep_list_get saved ok has now (map_to_list (idleTerminalSessions now (table s))) s) as (E1 & _ & _ & E4).
    split; [|apply E4]. apply (owned_sub _ _ _ _ Ho). rewrite E1. intros m Hm%foldl_delete_sub. by exists m.
Qed.

(** C27: Only the user who opened a session types into it or sizes it: as long as others make
    the requests, nothing is sent to its shell. *)
Theorem only_owner_drives sid a s rs : owned sid a s → Forall (λ r, ¬ by_actor a r ∧ other_open sid r) rs →
  driven sid (foldl serve s rs) = driven sid s.
Proof.
  revert s. induction rs as [|r rs IH]; intros s Ho Hrs; [done|]. inversion Hrs as [|?? [H1 H2] H3]; subst.
  destruct (serve_owned sid a s r H1 H2 Ho) as [Ho' Hd]. simpl. by rewrite (IH _ Ho' H3).
Qed.
(** A session is closed by who opened it and by who may manage security, by nobody else. *)
Theorem close_rights saved ok has now e sid s m : table s !! sid = Some m →
  let '(a, s') := close saved ok has now e sid s in
  let actor := (ResolveActor e).2 in
  if bool_decide (actor ≠ "" ∧ actor = actorID m) || Can e CapManageSecurity then
    a = Ok ∧ table s' = delete sid (table s) ∧ files (rec_of s') !! sid = None ∧
    audit s' = audit s ++ [(if decide (actor = actorID m) then "terminal.close" else "terminal.admin_close", stackID m, sid)]
  else a = Refused NotOwner ∧ s' = s.
Proof.
  intros Hm. unfold close, authorizeTerminalSessionForClose, lookupTerminalSession. rewrite Hm.
  destruct (ResolveActor e) as [[r t] actor] eqn:Ha. simpl.
  assert (∀ action, let s' := note action (stackID m) sid (abandon saved ok has now sid m s) in
    table s' = delete sid (table s) ∧ files (rec_of s') !! sid = None ∧ audit s' = audit s ++ [(action, stackID m, sid)]) as Hg.
  { intros action. unfold abandon. cbv zeta. simpl. match goal with |- context [CloseRecord saved now sid (-1) ?r0] =>
      destruct (CloseRecord_get saved now sid (-1) r0) as (_ & -> & _) end. rewrite lookup_delete_eq. by destruct (has && ok). }
  destruct (decide (actor ≠ "" ∧ actor = actorID m)) as [Hown|Hown].
  - rewrite bool_decide_eq_true_2 //. simpl. destruct Hown as [_ ->]. rewrite decide_False; [|tauto]. rewrite decide_True //. split; [done|apply Hg].
  - rewrite bool_decide_eq_false_2 //. simpl. destruct (Can e CapManageSecurity); [|done]. split; [done|].
    destruct (decide (actor = actorID m)) as [E|E].
    + rewrite (decide_False (P := actor ≠ actorID m)); [|tauto]. apply Hg.
    + rewrite (decide_True (P := actor ≠ actorID m)); [apply Hg|done].
Qed.

Lemma foldl_delete_lookup {A B} (l : list (string * A)) (t : gmap string B) k :
  foldl (λ t im, delete im.1 t) t l !! k = if decide (k ∈ l.*1) then None else t !! k.
Proof.
  revert t. induction l as [|im l IH]; intros t; [done|]. simpl. rewrite IH. destruct (decide (k = im.1)) as [->|Hk].
  - rewrite lookup_delete_eq (decide_True (P := im.1 ∈ im.1 :: l.*1)); [|by left]. by case_decide.
  - rewrite lookup_delete_ne //. destruct (decide (k ∈ l.*1)); [rewrite decide_True //; by right|].
    rewrite decide_False //. intros [|]%elem_of_cons; done.
Qed.

Lemma elem_of_keys {A} k (t : gmap string A) : k ∈ (map_to_list t).*1 ↔ is_Some (t !! k).
Proof.
  rewrite list_elem_of_fmap. split.
  - intros ([k' x] & -> & Hx%elem_of_map_to_list). by exists x.
  - intros [x Hx]. exists (k, x). split; [done|]. by apply elem_of_map_to_list.
Qed.

(** A tick of the sweeper ends the sessions without input for longer than the timeout, and
    no others: the rest keep their slot and their open transcript. *)
Theorem sweep_exact saved ok has now s :
  let s' := sweep saved ok has now s in
  table s' = filter (λ im, (now - terminalIdleTimeout ≤ lastActivity im.2)%Z) (table s) ∧
  ∀ sid, files (rec_of s') !! sid =
    if decide (is_Some (idleTerminalSessions now (table s) !! sid)) then None else files (rec_of s) !! sid.
Proof.
  cbv zeta. unfold sweep. destruct (sweep_list_get saved ok has now (map_to_list (idleTerminalSessions now (table s))) s) as (E1 & _ & E3 & _).
  assert (∀ sid, sid ∈ (map_to_list (idleTerminalSessions now (table s))).*1 ↔ is_Some (idleTerminalSessions now (table s) !! sid)) as Hk
    by (intros; apply elem_of_keys). rewrite E1 E3. split.
  - apply map_eq. intros sid. rewrite foldl_delete_lookup. rewrite (decide_ext _ _ (None : option terminalSessionMeta) _ (Hk sid)).
    unfold idleTerminalSessions in *. case_decide as Hi.
    + symmetry. apply map_lookup_filter_None. right. destruct Hi as [m [Hm Hl]%map_lookup_filter_Some]. simpl in *. intros m' Hm' Hc. simpl in Hc.
      assert (m' = m) as -> by congruence. lia.
    + destruct (table s !! sid) as [m|] eqn:Hm; symmetry; [|apply map_lookup_filter_None; by left].
      apply map_lookup_filter_Some. split; [done|]. simpl. apply Z.nlt_ge. intros Hlt. destruct Hi. exists m. by apply map_lookup_filter_Some.
  - intros sid. rewrite foldl_delete_lookup. apply decide_ext, Hk.
Qed.
End rights.

(** ** What closes a session too early, or too late *)
Section limits.
Context (show_secs : Z → string).

Lemma output_keeps_table written now sid data s s' : onTerminalOutput show_secs written now sid data s = Some s' → table s' = table s.
Proof.
  unfold onTerminalOutput, publish. destruct (DecodeString data) as [d|]; [|by intros [= <-]].
  destruct (PublishOutput sid d (broker s)); [|done]. by intros [= <-].
Qed.

(** Output is no activity: a session whose command keeps writing is closed when its user
    has not typed for longer than the timeout. *)
Theorem output_is_not_activity sid m s outputs s' saved ok has now :
  table s !! sid = Some m → foldl (λ acc o, acc ≫= onTerminalOutput show_secs o.1.1.1 o.1.1.2 o.1.2 o.2) (Some s) outputs = Some s' →
  (lastActivity m + terminalIdleTimeout < now)%Z → table (sweep saved ok has now s') !! sid = None.
Proof.
  intros Hm Hs Hnow. assert (table s' = table s) as Ht.
  { clear Hm. revert s Hs. induction outputs as [|[[[w t] i] d] l IH]; intros s Hs; [by injection Hs as <-|]. simpl in Hs.
    destruct (onTerminalOutput show_secs w t i d s) as [s1|] eqn:H1.
    - rewrite (IH s1 Hs). by apply output_keeps_table in H1.
    - exfalso. clear -Hs. induction l as [|o l IH]; [done|]. by apply IH. }
  destruct (sweep_exact saved ok has now s') as [-> _]. rewrite Ht. apply map_lookup_filter_None. right.
  intros m' Hm' Hc. simpl in Hc. assert (m' = m) as -> by congruence. lia.
Qed.

(** The end of a session the worker reports frees its slot only when a stream reads it:
    until then a worker at its limit takes no other. *)
Theorem ended_session_keeps_slot storageDir header_line later sid code err saved now s s' c saved' ok limit now' e stk sid' b stack project w q :
  onTerminalClosed saved now sid code err s = Some s' → limit ≤ countTerminalSessionsForWorker w (table s) →
  TrimSpace (ContainerID b) ≠ "" → f_stack q = Some (stack, project, w) →
  open_session storageDir header_line later c saved' ok true limit now' e stk sid' (Some b) q s' = (TooMany limit, s').
Proof.
  intros Hc Hl Hb Hq. assert (table s' = table s) as Ht.
  { unfold onTerminalClosed, publish in Hc. destruct (PublishClosed _ _ _ _); [|done]. by injection Hc as <-. }
  unfold open_session. rewrite decide_False //. simpl. rewrite Hq. destruct (ResolveActor e) as [[??]?].
  unfold reserveTerminalSession. rewrite Ht. by rewrite (proj2 (Nat.leb_le _ _) Hl).
Qed.
End limits.

(** ** Witnesses *)
Definition w_io : io := {| io_mkdir := true; io_open := true; io_write := None; io_collection := true; io_save := true; io_id := "row1"; io_settings := None |}.
Definition w_params : CreateRecordParams :=
  {| p_SessionID := "s1"; p_StackID := "k1"; p_StackName := "web"; p_UserID := "u1"; p_UserEmail := "a@b.c"; p_WorkerID := "w1"; p_WorkerHostname := "h1";
     p_ContainerID := "c1"; p_ContainerName := "web-1"; p_ServiceName := "web"; p_Rows := 24; p_Cols := 80 |}.
Definition no_records : recorder := {| starts := ∅; files := ∅; disk := ∅; trows := [] |}.

Definition w_header (_ _ : N) (_ : Z) : string := "{}".
Definition w_secs (_ : Z) : string := "0".
Definition w_ops : list op := [OpAppend None 7 "s1" "a"; OpAppend None 8 "s2" "b"; OpAppend (Some 3) 9 "s1" "c"; OpAppend None 9 "s1" "d"].
Definition w_recorded : recorder := foldl (apply_op "/data/t" w_header w_secs Z.add) no_records (OpCreate w_io 5 w_params :: w_ops).

Lemma transcript_exact_witness :
  content "/data/t" "s1" w_recorded = "{}" +:+ recorded w_secs "s1" 5 w_ops ∧
  content "/data/t" "s1" (foldl (apply_op "/data/t" w_header w_secs Z.add) w_recorded [OpClose true 10 "s1" 0; OpAppend None 11 "s1" "late"])
    = "{}" +:+ recorded w_secs "s1" 5 w_ops.
Proof.
  apply (transcript_exact "/data/t" w_header w_secs Z.add w_io 5 w_params no_records w_ops true 10 0 [OpAppend None 11 "s1" "late"]); try done.
  - repeat constructor.
  - repeat constructor.
Defined.

Definition w_user (id role : string) : event := Some (Some {| a_id := id; a_collection := Some "users"; a_superuser := false; a_disabled := false; a_role := role |}).
Definition w_meta : terminalSessionMeta := {| workerID := "w1"; actorID := "u1"; stackID := "k1"; lastActivity := 0 |}.
Definition w_server : server := {| table := {[ "s1" := w_meta ]}; rec_of := no_records; broker := TermStream.New; sent := []; audit := [] |}.

(** Another user types into, sizes and closes the session of [u1], who then types too. *)
Definition w_others : list request :=
  [ReqInput true true 3 (w_user "u2" "operator") "s1" (Some "rm"); ReqResize true true (w_user "u2" "admin") "s1" (Some (1%N, 1%N));
   ReqClose true true true 4 (w_user "u2" "operator") "s1"].

Lemma only_owner_drives_witness :
  driven "s1" (foldl (serve "/data/t" w_header Z.add) w_server w_others) = driven "s1" w_server ∧
  driven "s1" (serve "/data/t" w_header Z.add (foldl (serve "/data/t" w_header Z.add) w_server w_others)
    (ReqInput true true 5 (w_user "u1" "operator") "s1" (Some "ls"))) = [("w1", MsgTerminalInput "s1" (EncodeToString "ls"))].
Proof.
  split; [|by vm_compute]. apply (only_owner_drives "/data/t" w_header Z.add "s1" "u1" w_server w_others).
  - intros m Hm. vm_compute in Hm. by injection Hm as <-.
  - repeat constructor; simpl; intros Hx; by vm_compute in Hx.
Defined.

Definition w_sessions : sessions := {["s1" := at_time 1 w_meta; "s2" := at_time 2 w_meta]}.

Lemma sessions_capped_witness :
  rtc (table_step 2) ∅ w_sessions ∧ countTerminalSessionsForWorker "w1" w_sessions ≤ 2 ∧ reserveTerminalSession 3 "s3" "w1" 2 w_meta w_sessions = None.
Proof.
  assert (rtc (table_step 2) ∅ w_sessions) as Hr.
  { eapply rtc_l; [apply (step_reserve 2 2 "s2" "w1" w_meta ∅ {["s2" := at_time 2 w_meta]}); [done|by vm_compute]|].
    eapply rtc_l; [apply (step_reserve 2 1 "s1" "w1" w_meta {["s2" := at_time 2 w_meta]} w_sessions); [done|by vm_compute]|].
    apply rtc_refl. }
  split_and!; [exact Hr|exact (sessions_capped 2 _ Hr "w1")|by vm_compute].
Defined.
