(* ===== verification/StackDefs.v ===== *)
(** * internal/manifest, internal/routes/wireops.go, stack_definition_routes.go: stack definitions

    A stack can be described by a file of its repository: a wireops.yaml beside a compose
    file, or an x-wireops block inside one.  Here are the parser, the routes that create a
    stack from such a file and refresh one, the hook that keeps the described fields from
    other changes, and the bypass that opens it.  YAML is decoded by [decode] and
    [decode_block]; files and directories of the checkout are [read_file] and [list_dir]. *)
From Stdlib Require Import ZArith SpecFloat.
From S2P Require Import Prelude GoStrings GoPath GoFmt GoValue ComposeDoc SafePath PbRecord PbTable.
From S2P Require JobFile ComposeRun.

(** ** time.ParseDuration and Duration.Seconds, on float64 as in Go *)
Definition float_of (n : Z) : spec_float := binary_normalize 53 1024 n 0 false.
Definition float_div : spec_float → spec_float → spec_float := SFdiv 53 1024.
Definition float_mul : spec_float → spec_float → spec_float := SFmul 53 1024.
Definition float_add : spec_float → spec_float → spec_float := SFadd 53 1024.

(** The conversion of a float64 of the range of an integer: towards zero. *)
Definition trunc (f : spec_float) : Z :=
  match f with
  | S754_finite s m e =>
      let n := if (0 <=? e)%Z then (Z.pos m * 2 ^ e)%Z else (Z.pos m / 2 ^ (- e))%Z in if s then (- n)%Z else n
  | _ => 0%Z
  end.

Definition Second : Z := 1000000000.

(** [int(d.Seconds())] *)
Definition whole_seconds (d : Z) : Z :=
  trunc (float_add (float_of (Z.quot d Second)) (float_div (float_of (Z.rem d Second)) (float_of Second))).

Definition unitMap (u : string) : option Z :=
  if decide (u = "ns") then Some 1%Z else if decide (u = "us" ∨ u = "µs" ∨ u = "μs") then Some 1000%Z
  else if decide (u = "ms") then Some 1000000%Z else if decide (u = "s") then Some Second
  else if decide (u = "m") then Some 60000000000%Z else if decide (u = "h") then Some 3600000000000%Z else None.

Fixpoint leadingInt (x : Z) (s : string) : option (Z * string) :=
  match s with
  | "" => Some (x, "")
  | String a s' =>
      match digit_of a with
      | None => Some (x, s)
      | Some d => if (2 ^ 63 / 10 <? x)%Z then None
                  else let x := (x * 10 + d)%Z in if (2 ^ 63 <? x)%Z then None else leadingInt x s'
      end
  end.

(** The digits of a fraction, and the power of ten they are over; digits that no longer
    fit are skipped. *)
Fixpoint leadingFraction (x scale : Z) (overflow : bool) (s : string) : Z * Z * string :=
  match s with
  | "" => (x, scale, "")
  | String a s' =>
      match digit_of a with
      | None => (x, scale, s)
      | Some d =>
          if overflow then leadingFraction x scale true s'
          else if ((2 ^ 63 - 1) / 10 <? x)%Z then leadingFraction x scale true s'
          else let y := (x * 10 + d)%Z in
               if (2 ^ 63 <? y)%Z then leadingFraction x scale true s' else leadingFraction y (scale * 10) false s'
      end
  end.

Fixpoint unit_name (s : string) : string * string :=
  match s with
  | "" => ("", "")
  | String a s' => if decide (a = "."%char ∨ is_Some (digit_of a)) then ("", s) else let '(u, r) := unit_name s' in (String a u, r)
  end.

(** The loop over the terms; each takes at least one character. *)
Fixpoint duration_terms (fuel : nat) (d : Z) (s : string) : option Z :=
  match fuel, s with
  | _, "" => Some d
  | O, _ => None
  | S fuel, String a _ =>
      if decide (a ≠ "."%char ∧ digit_of a = None) then None
      else match leadingInt 0 s with
      | None => None
      | Some (v, s1) =>
          let pre := bool_decide (s1 ≠ s) in
          let '(f, scale, s2, post) :=
            match s1 with
            | String b s1' => if decide (b = "."%char)
                              then let '(f, scale, s2) := leadingFraction 0 1 false s1' in (f, scale, s2, bool_decide (s2 ≠ s1'))
                              else (0%Z, 1%Z, s1, false)
            | "" => (0%Z, 1%Z, s1, false)
            end in
          if negb pre && negb post then None
          else let '(u, s3) := unit_name s2 in
          if decide (u = "") then None
          else match unitMap u with
          | None => None
          | Some unit =>
              if (2 ^ 63 / unit <? v)%Z then None
              else
                let v := (v * unit)%Z in
                let v := if (0 <? f)%Z then (v + trunc (float_mul (float_of f) (float_div (float_of unit) (float_of scale))))%Z else v in
                if (2 ^ 63 <? v)%Z then None
                else let d := ((d + v) mod 2 ^ 64)%Z in if (2 ^ 63 <? d)%Z then None else duration_terms fuel d s3
          end
      end
  end.

Definition ParseDuration (s : string) : option Z :=
  let '(neg, s) := match s with
                   | String "-" r => (true, r) | String "+" r => (false, r) | _ => (false, s) end in
  if decide (s = "0") then Some 0%Z
  else if decide (s = "") then None
  else match duration_terms (String.length s) 0 s with
  | None => None
  | Some d => if neg then Some (- d)%Z else if (2 ^ 63 - 1 <? d)%Z then None else Some d
  end.

Example durations :
  (ParseDuration <$> ["1h30m"; "1.5s"; "-2ms"; "+.5m"; "0"; "10"; "s"; "1.s"; "."; "9223372036854775807ns"; "9223372036854775808ns"; "0.000000001s"])
  = [Some 5400000000000; Some 1500000000; Some (-2000000); Some 30000000000; Some 0; None; None; Some 1000000000; None;
     Some 9223372036854775807; None; Some 1]%Z ∧
  (whole_seconds <$> [1500000000; 59999999999; 3600000000000; 16777216999999999]%Z) = [1; 59; 3600; 16777217]%Z.
Proof. vm_compute. done. Qed.

(** ** internal/manifest/parser.go *)
Record ComposeConfig := { RemoveOrphans : option bool; ForcePull : option bool }.
Record JobsConfig := { WaitRunning : option bool }.
Record WorkerConfig := { Tags : option (list string) }.
Record SyncConfig := { Interval : string }.

(** Why no single compose file was found beside a wireops.yaml. *)
Inductive resolution :=
  | BadWireopsPath (err : path_error) | CannotReadDir (dir : string) | InvalidCandidates (dir : string) (candidates : list (string * string))
  | NoComposeFile (dir : string) | Ambiguous (dir : string) (files : list string).

Record Definition_ := {
  Version : string; Name : string; Group : string; Timeout : string; DeployTimeoutSeconds : Z;
  Compose : option ComposeConfig; Jobs : option JobsConfig; Worker : option WorkerConfig; Sync : option SyncConfig;
  SyncIntervalSeconds : Z; ResolvedComposePath : string; ResolvedComposeFile : string; ResolutionError : option resolution; Deprecated : bool
}.

Definition supportedVersion : string := "wireops.v1".
Definition ExtensionKey : string := "x-wireops".

Inductive problem :=
  | VersionRequired | UnsupportedVersion (v : string) | NameRequired
  | BadTimeout (t : string) | ShortTimeout | BadInterval (t : string) | ShortInterval.

Definition check_duration (t : string) (bad short : problem) : list problem :=
  if decide (t = "") then []
  else match ParseDuration t with
  | None => [bad]
  | Some d => if (d <? Second)%Z then [short] else []
  end.

Definition interval_of (d : Definition_) : string := match Sync d with Some c => Interval c | None => "" end.

Definition Validate (d : Definition_) : list problem :=
  (if decide (Version d = "") then [VersionRequired]
   else if decide (Version d ≠ supportedVersion) then [UnsupportedVersion (Version d)] else []) ++
  (if decide (Name d = "") then [NameRequired] else []) ++
  check_duration (Timeout d) (BadTimeout (Timeout d)) ShortTimeout ++
  check_duration (interval_of d) (BadInterval (interval_of d)) ShortInterval.

Definition set_times (timeout interval : Z) (d : Definition_) : Definition_ :=
  {| Version := Version d; Name := Name d; Group := Group d; Timeout := Timeout d; DeployTimeoutSeconds := timeout;
     Compose := Compose d; Jobs := Jobs d; Worker := Worker d; Sync := Sync d; SyncIntervalSeconds := interval;
     ResolvedComposePath := ResolvedComposePath d; ResolvedComposeFile := ResolvedComposeFile d; ResolutionError := ResolutionError d;
     Deprecated := Deprecated d |}.

(** [def.ResolvedComposePath], [ResolvedComposeFile] and [ResolutionError]. *)
Definition set_resolved (path file : string) (err : option resolution) (d : Definition_) : Definition_ :=
  {| Version := Version d; Name := Name d; Group := Group d; Timeout := Timeout d; DeployTimeoutSeconds := DeployTimeoutSeconds d;
     Compose := Compose d; Jobs := Jobs d; Worker := Worker d; Sync := Sync d; SyncIntervalSeconds := SyncIntervalSeconds d;
     ResolvedComposePath := path; ResolvedComposeFile := file; ResolutionError := err; Deprecated := Deprecated d |}.

Definition set_deprecated (d : Definition_) : Definition_ :=
  {| Version := Version d; Name := Name d; Group := Group d; Timeout := Timeout d; DeployTimeoutSeconds := DeployTimeoutSeconds d;
     Compose := Compose d; Jobs := Jobs d; Worker := Worker d; Sync := Sync d; SyncIntervalSeconds := SyncIntervalSeconds d;
     ResolvedComposePath := ResolvedComposePath d; ResolvedComposeFile := ResolvedComposeFile d; ResolutionError := ResolutionError d;
     Deprecated := true |}.

Definition seconds_of (t : string) (before : Z) : Z :=
  if decide (t = "") then before else whole_seconds (default 0%Z (ParseDuration t)).

Definition finalizeDefinition (d : Definition_) : Definition_ + list problem :=
  match Validate d with
  | [] => inl (set_times (seconds_of (Timeout d) (DeployTimeoutSeconds d)) (seconds_of (interval_of d) (SyncIntervalSeconds d)) d)
  | errs => inr errs
  end.

Definition IsWireopsFile (filename : string) : bool :=
  let base := Base filename in bool_decide (base = "wireops.yaml" ∨ base = "wireops.yml").

Inductive manifest_error :=
  | BadPath (err : path_error) | NotWireopsFile (path : string) | Escapes (path : string) | CannotRead (path : string)
  | InvalidYaml | MultipleDocuments | TrailingContent | InvalidCompose | InvalidBlock | Invalid (errs : list problem).

Section manifest.
Context (cwd : string) (read_file : string → option string).
Context (decode : string → option (Definition_ * JobFile.trailing)).
(** The x-wireops entry of a compose document: [None] if the document is no mapping. *)
Context (decode_block : string → option (option (option Definition_))).

(** [filepath.Abs] *)
Definition Abs (p : string) : string := if IsAbs p then Clean p else PathJoin cwd p.

Definition ParseWireopsFile (repoWorkspace repoID filePath : string) : Definition_ + manifest_error :=
  match CleanRelativePath filePath with
  | inl err => inr (BadPath err)
  | inr clean =>
      if negb (IsWireopsFile (Base clean)) then inr (NotWireopsFile filePath)
      else
        let baseAbs := Abs (PathJoin repoWorkspace repoID) in
        let fullAbs := Abs (PathJoin baseAbs clean) in
        match Rel baseAbs fullAbs with
        | None => inr (Escapes filePath)
        | Some rel =>
            if decide (rel = ".." ∨ HasPrefix rel "../" = true) then inr (Escapes filePath)
            else match read_file fullAbs with
            | None => inr (CannotRead filePath)
            | Some data =>
                match decode data with
                | None => inr InvalidYaml
                | Some (_, JobFile.AnotherDocument) => inr MultipleDocuments
                | Some (_, JobFile.Garbage) => inr TrailingContent
                | Some (def, JobFile.Nothing) =>
                    match finalizeDefinition def with inr errs => inr (Invalid errs) | inl def => inl (set_deprecated def) end
                end
            end
        end
  end.

Definition ParseComposeManifest (raw : string) : option Definition_ + manifest_error :=
  match decode_block raw with
  | None => inr InvalidCompose
  | Some None => inl None
  | Some (Some None) => inr InvalidBlock
  | Some (Some (Some def)) => match finalizeDefinition def with inr errs => inr (Invalid errs) | inl def => inl (Some def) end
  end.

Definition HasEmbeddedXWireops (raw : string) : bool :=
  match decode_block raw with Some (Some _) => true | _ => false end.
End manifest.

(** ** internal/routes/wireops.go *)

(** The letters a pattern with the flag [(?i)] takes for [s] and [k]: the long s and the
    Kelvin sign, besides the capitals. *)
Fixpoint fold_case (n : nat) (s : string) : string :=
  match n, s with
  | S n, String a s' =>
      match strip_prefix (ch 197 +:+ ch 191) s, strip_prefix (ch 226 +:+ ch 132 +:+ ch 170) s with
      | Some r, _ => String "s" (fold_case n r)
      | _, Some r => String "k" (fold_case n r)
      | None, None => String (lower_ascii a) (fold_case n s')
      end
  | _, _ => EmptyString
  end.

(** [(?i)^(docker-)?compose\.ya?ml$] *)
Definition composeFilenamePattern (name : string) : bool :=
  bool_decide (TrimPrefix (fold_case (String.length name) name) "docker-" ∈ ["compose.yml"; "compose.yaml"]).

Section resolve.
Context (yaml_parse : string → option value).
(** A directory: its entries by name, and whether each is a directory. *)
Context (list_dir : string → option (list (string * bool))) (read_file : string → option string).

Fixpoint scan_dir (absDir : string) (entries : list (string * bool)) : list string * list (string * string) :=
  match entries with
  | [] => ([], [])
  | (name, is_dir) :: entries =>
      let '(matches, invalid) := scan_dir absDir entries in
      if is_dir then (matches, invalid)
      else match read_file (PathJoin absDir name) with
      | None => (matches, invalid)
      | Some data =>
          if IsComposeFile yaml_parse data then (name :: matches, invalid)
          else if composeFilenamePattern name then
            match ComposeCandidateError yaml_parse data with Some err => (matches, (name, err) :: invalid) | None => (matches, invalid) end
          else (matches, invalid)
      end
  end.

Definition resolveWireopsComposeFile (repoDir wireopsFile : string) (def : Definition_) : Definition_ :=
  let failed := λ err, set_resolved (ResolvedComposePath def) (ResolvedComposeFile def) (Some err) def in
  match CleanRelativePath wireopsFile with
  | inl err => failed (BadWireopsPath err)
  | inr cleanWireopsFile =>
      let dir := Dir cleanWireopsFile in
      let absDir := PathJoin repoDir dir in
      match list_dir absDir with
      | None => failed (CannotReadDir dir)
      | Some entries =>
          let '(matches, invalidCandidates) := scan_dir absDir entries in
          match sort_strings matches with
          | [] => failed (match invalidCandidates with [] => NoComposeFile dir | l => InvalidCandidates dir l end)
          | [m] => set_resolved dir m (ResolutionError def) def
          | l => failed (Ambiguous dir l)
          end
      end
  end.
End resolve.

(** ** The fields a definition describes *)
Definition resolveWireopsStackFields (def : Definition_) : bool * bool * string * list string :=
  let removeOrphans := match Compose def with Some c => default true (RemoveOrphans c) | None => true end in
  let forcePull := match Compose def with Some c => default false (ForcePull c) | None => false end in
  let wait := match Jobs def with Some j => default false (WaitRunning j) | None => false end in
  let tags := match Worker def with Some w => default [] (Tags w) | None => [] end in
  (removeOrphans, forcePull, if wait then "always" else "never", tags).

(** [record.Set] of a list, and [GetStringSlice]: the texts that are not empty, each once. *)
Definition SetStrings (k : string) (l : list string) (r : record) : record := SetField k (VList (VStr <$> l)) r.

Fixpoint uniques (seen : gset string) (l : list string) : list string :=
  match l with
  | [] => []
  | x :: l => if decide (x = "" ∨ x ∈ seen) then uniques seen l else x :: uniques ({[x]} ∪ seen) l
  end.

Definition texts (v : value) : list string := match v with VList l => omap (λ x, match x with VStr s => Some s | _ => None end) l | _ => [] end.

Definition GetStringSlice (k : string) (r : record) : list string := match fields r !! k with Some v => uniques ∅ (texts v) | None => [] end.

(** A change of a field, as the refresh reports it. *)
Inductive change := BoolChange (from to : bool) | IntChange (from to : Z) | TextChange (from to : string) | ListChange (from to : list string).

Definition setBool (k : string) (next : bool) (s : record * gmap string change) : record * gmap string change :=
  let previous := GetBool k s.1 in
  if decide (previous = next) then s else (SetBool k next s.1, <[k := BoolChange previous next]> s.2).
Definition setInt (k : string) (next : Z) (s : record * gmap string change) : record * gmap string change :=
  let previous := GetInt k s.1 in
  if decide (previous = next) then s else (SetInt k next s.1, <[k := IntChange previous next]> s.2).
Definition setString (k next : string) (s : record * gmap string change) : record * gmap string change :=
  let previous := GetString k s.1 in
  if decide (previous = next) then s else (SetStr k next s.1, <[k := TextChange previous next]> s.2).
Definition setStrings (k : string) (next : list string) (s : record * gmap string change) : record * gmap string change :=
  let previous := GetStringSlice k s.1 in
  if decide (previous = next) then s else (SetStrings k next s.1, <[k := ListChange previous next]> s.2).

Definition set_described (def : Definition_) (s : record * gmap string change) : record * gmap string change :=
  let '(removeOrphans, forcePull, waitRunningJobs, workerTags) := resolveWireopsStackFields def in
  setStrings "worker_tags" workerTags (setString "wait_running_jobs" waitRunningJobs (
  setInt "sync_interval_seconds" (SyncIntervalSeconds def) (setInt "deploy_timeout_seconds" (DeployTimeoutSeconds def) (
  setBool "force_pull" forcePull (setBool "remove_orphans" removeOrphans s))))).

Definition applyWireopsDefinition (stack : record) (def : Definition_) (source : string) : record * gmap string change :=
  let s := set_described def (stack, ∅) in
  if decide (source = "wireops_file")
  then setString "compose_file" (ResolvedComposeFile def) (setString "compose_path" (ResolvedComposePath def) s) else s.

(** ** The routes *)
Section routes.
Context `{UnicodeTables} (cwd workspace : string).
Context (decode : string → option (Definition_ * JobFile.trailing)) (decode_block : string → option (option (option Definition_))).
Context (yaml_parse : string → option value) (list_dir : string → option (list (string * bool))) (read_file : string → option string).
(** [compose.ReadFile] on the server, at the state [h] of its disk. *)
Context (w : ComposeRun.host) (h : ComposeRun.history) (path_text : path_error → string) (maxBytes : Z).

Definition read_compose (root workDir composeFile : string) : string + string :=
  (ComposeRun.ReadFile w path_text maxBytes root workDir composeFile h).1.

Definition too_large (err : string) : bool := HasSuffix err ComposeRun.ErrOutputTooLarge.

Definition work_dir (root composePath : string) : string :=
  if decide (composePath ≠ "" ∧ composePath ≠ ".") then PathJoin root composePath else root.

(** What is wrong with the source of a definition. *)
Inductive source_error :=
  | NoWireopsPath | ParseError (err : manifest_error) | Unresolved (err : resolution) | BadComposePath (err : path_error)
  | ComposeTooLarge (err : string) | ComposeMissing | NoBlock | NotManaged.

Definition from_file (repoDir repoID wireopsFile : string) : Definition_ + source_error :=
  match ParseWireopsFile cwd read_file decode workspace repoID wireopsFile with
  | inr err => inr (ParseError err)
  | inl def =>
      let def := resolveWireopsComposeFile yaml_parse list_dir read_file repoDir wireopsFile def in
      match ResolutionError def with Some err => inr (Unresolved err) | None => inl def end
  end.

Definition from_block (repoDir composePath composeFile : string) : Definition_ + source_error :=
  match ValidateComposePath composePath with
  | Some err => inr (BadComposePath err)
  | None =>
      let composeFile := if decide (composeFile = "") then "docker-compose.yml" else composeFile in
      match ValidateComposeFile composeFile with
      | Some err => inr (BadComposePath err)
      | None =>
          match read_compose repoDir (work_dir repoDir composePath) composeFile with
          | inr err => inr (if too_large err then ComposeTooLarge err else ComposeMissing)
          | inl data =>
              match ParseComposeManifest decode_block data with
              | inr err => inr (ParseError err)
              | inl None => inr NoBlock
              | inl (Some def) => inl def
              end
          end
      end
  end.

Definition definitionFromGit (stack : record) (repoDir : string) : Definition_ + source_error :=
  let source := GetString "config_source" stack in
  if decide (source = "wireops_file") then
    let wireopsFile := GetString "wireops_file_path" stack in
    if decide (wireopsFile = "") then inr NoWireopsPath else from_file repoDir (GetString "repository" stack) wireopsFile
  else if decide (source = "compose_embedded") then from_block repoDir (GetString "compose_path" stack) (GetString "compose_file" stack)
  else inr NotManaged.

(** *** Creating a stack *)
Record from_wireops_body := { fw_Repository : string; fw_Worker : string; fw_WireopsFile : string; fw_Paused : bool }.
Record from_compose_body := { fc_Repository : string; fc_Worker : string; fc_ComposePath : string; fc_ComposeFile : string; fc_Paused : bool }.

Inductive create_answer := BadRequest | WorkerNotFound | AlreadyAnswered | SourceError (err : source_error) | NotSaved | Created (stack : record).

Definition new_stack (id repository worker path file : string) (paused : bool) (def : Definition_) : record :=
  let '(removeOrphans, forcePull, waitRunningJobs, workerTags) := resolveWireopsStackFields def in
  SetStr "group" (TrimSpace (Group def)) (SetStrings "worker_tags" workerTags (SetStr "wait_running_jobs" waitRunningJobs (
  SetInt "sync_interval_seconds" (SyncIntervalSeconds def) (SetInt "deploy_timeout_seconds" (DeployTimeoutSeconds def) (
  SetBool "force_pull" forcePull (SetBool "remove_orphans" removeOrphans (SetStr "status" (if paused then "paused" else "pending") (
  SetBool "auto_sync" true (SetStr "compose_file" file (SetStr "compose_path" path (SetStr "worker" worker (
  SetStr "repository" repository (SetStr "name" (Name def) {| Id := id; fields := ∅ |}))))))))))))).

(** [setup] is the checkout of a repository after a fetch, [None] when that has answered;
    [saved] whether the hooks and the database accept the new stack; [id] its id. *)
Context (setup : string → option string) (saved : record → bool) (id : string).

Definition keep (stack : record) (t : rows) : create_answer * rows :=
  if saved stack then (Created stack, upsert stack t) else (NotSaved, t).

Definition create_from_wireops (workers : rows) (body : option from_wireops_body) (t : rows) : create_answer * rows :=
  match body with
  | None => (BadRequest, t)
  | Some b =>
      if decide (fw_Repository b = "" ∨ fw_Worker b = "" ∨ fw_WireopsFile b = "") then (BadRequest, t)
      else match FindById (fw_Worker b) workers with
      | None => (WorkerNotFound, t)
      | Some _ =>
          match setup (fw_Repository b) with
          | None => (AlreadyAnswered, t)
          | Some repoDir =>
              match from_file repoDir (fw_Repository b) (fw_WireopsFile b) with
              | inr err => (SourceError err, t)
              | inl def =>
                  keep (SetStr "wireops_file_path" (fw_WireopsFile b) (SetStr "config_source" "wireops_file"
                    (new_stack id (fw_Repository b) (fw_Worker b) (ResolvedComposePath def) (ResolvedComposeFile def) (fw_Paused b) def))) t
              end
          end
      end
  end.

Definition create_from_compose (workers : rows) (body : option from_compose_body) (t : rows) : create_answer * rows :=
  match body with
  | None => (BadRequest, t)
  | Some b =>
      if decide (fc_Repository b = "" ∨ fc_Worker b = "") then (BadRequest, t)
      else match FindById (fc_Worker b) workers with
      | None => (WorkerNotFound, t)
      | Some _ =>
          let composeFile := if decide (fc_ComposeFile b = "") then "docker-compose.yml" else fc_ComposeFile b in
          match ValidateComposePath (fc_ComposePath b), ValidateComposeFile composeFile with
          | None, None =>
              match setup (fc_Repository b) with
              | None => (AlreadyAnswered, t)
              | Some repoDir =>
                  match from_block repoDir (fc_ComposePath b) composeFile with
                  | inr err => (SourceError err, t)
                  | inl def =>
                      keep (SetStr "config_source" "compose_embedded"
                        (new_stack id (fc_Repository b) (fc_Worker b) (fc_ComposePath b) composeFile (fc_Paused b) def)) t
                  end
              end
          | _, _ => (BadRequest, t)
          end
      end
  end.

(** *** Refreshing one *)
Record definitionRefreshResponse := { r_Status : string; r_Source : string; r_CommitSHA : string; ChangedFields : gmap string change; Preview : bool }.

Inductive refresh_answer :=
  | MissingId | NoScheduler | StackNotFound | Syncing | NotFileManaged | RefreshAnswered | NoCommit | RefreshSource (err : source_error)
  | RefreshNotSaved | Refreshed (resp : definitionRefreshResponse).

Definition previewStatus (changes : gmap string change) : string := if decide (changes = ∅) then "unchanged" else "would-update".

(** The stack is looked up before and after its lock is taken, which is one lookup here.
    [lock] tells whether the lock is free; [commit] is the head of a checkout. *)
Definition resync_definition (has_scheduler lock preview : bool) (commit : string → option string) (stackID : string) (t : rows)
  : refresh_answer * rows :=
  if decide (stackID = "") then (MissingId, t)
  else if negb has_scheduler then (NoScheduler, t)
  else match FindById stackID t with
  | None => (StackNotFound, t)
  | Some stack =>
      if negb lock then (Syncing, t)
      else
        let source := GetString "config_source" stack in
        if decide (source ≠ "wireops_file" ∧ source ≠ "compose_embedded") then (NotFileManaged, t)
        else match setup (GetString "repository" stack) with
        | None => (RefreshAnswered, t)
        | Some repoDir =>
            match commit repoDir with
            | None => (NoCommit, t)
            | Some sha =>
                match definitionFromGit stack repoDir with
                | inr err => (RefreshSource err, t)
                | inl def =>
                    let '(stack', changes) := applyWireopsDefinition stack def source in
                    let resp := λ status p, {| r_Status := status; r_Source := source; r_CommitSHA := sha; ChangedFields := changes; Preview := p |} in
                    if preview then (Refreshed (resp (previewStatus changes) true), t)
                    else if decide (changes = ∅) then (Refreshed (resp "unchanged" false), t)
                    else if saved stack' then (Refreshed (resp "updated" false), upsert stack' t)
                    else (RefreshNotSaved, t)
                end
            end
        end
  end.
End routes.

(** ** internal/sync/definition_refresh.go: the definition a reconcile re-reads *)
Section reconcile.
Context `{UnicodeTables} (cwd workspace : string).
Context (decode : string → option (Definition_ * JobFile.trailing)) (decode_block : string → option (option (option Definition_))).
Context (read_file : string → option string).
Context (w : ComposeRun.host) (h : ComposeRun.history) (path_text : path_error → string) (maxBytes : Z).

Definition parseStackDefinition (stack : record) (source repoID : string) : Definition_ + source_error :=
  if decide (source = "wireops_file") then
    let wireopsFile := GetString "wireops_file_path" stack in
    if decide (wireopsFile = "") then inr NoWireopsPath
    else match ParseWireopsFile cwd read_file decode workspace repoID wireopsFile with inr err => inr (ParseError err) | inl def => inl def end
  else
    let repoRoot := PathJoin workspace repoID in
    from_block decode_block w h path_text maxBytes repoRoot (GetString "compose_path" stack) (GetString "compose_file" stack).
End reconcile.

(** ** [reflect.DeepEqual] on values

    The fuel is more than the depth of the left one. *)
Fixpoint DeepEqual (n : nat) (v u : value) : bool :=
  match n with
  | O => false
  | S n =>
      match v, u with
      | VNull, VNull => true
      | VBool a, VBool b => bool_decide (a = b)
      | VNum a, VNum b => bool_decide (a = b)
      | VStr a, VStr b => bool_decide (a = b)
      | VList l, VList k => bool_decide (length l = length k) && forallb (λ p, DeepEqual n p.1 p.2) (zip l k)
      | VMap m, VMap p =>
          bool_decide (dom m = dom p) &&
          forallb (λ kx, match p !! kx.1 with Some y => DeepEqual n kx.2 y | None => false end) (map_to_list m)
      | _, _ => false
      end
  end.

Lemma DeepEqual_list n l k : (∀ x, x ∈ l → ∀ y, DeepEqual n x y = true ↔ x = y) → length l = length k →
  forallb (λ p, DeepEqual n p.1 p.2) (zip l k) = true ↔ l = k.
Proof.
  revert k. induction l as [|x l IH]; intros [|y k] Hl Hlen; try done. cbn [zip zip_with forallb fst snd].
  rewrite andb_true_iff Hl; [|by left]. rewrite IH; [|intros z Hz; apply Hl; by right|by injection Hlen]. naive_solver.
Qed.

Lemma DeepEqual_map n (m p : gmap string value) : (∀ k x, m !! k = Some x → ∀ y, DeepEqual n x y = true ↔ x = y) → dom m = dom p →
  forallb (λ kx, match p !! kx.1 with Some y => DeepEqual n kx.2 y | None => false end) (map_to_list m) = true ↔ m = p.
Proof.
  intros Hm Hdom. rewrite forallb_forall. split.
  - intros Hall. apply map_eq. intros k. destruct (m !! k) as [x|] eqn:Hk.
    + specialize (Hall (k, x)). simpl in Hall. destruct (p !! k) as [y|].
      * f_equal. apply (Hm k x Hk). apply Hall. by apply list_elem_of_In, elem_of_map_to_list.
      * discriminate Hall. by apply list_elem_of_In, elem_of_map_to_list.
    + symmetry. apply not_elem_of_dom. rewrite -Hdom. by apply not_elem_of_dom.
  - intros <- [k x] Hin. apply list_elem_of_In, elem_of_map_to_list in Hin. simpl. rewrite Hin. by apply (Hm k x Hin).
Qed.

Lemma DeepEqual_spec n v u : depth v < n → DeepEqual n v u = true ↔ v = u.
Proof.
  revert v u. induction n as [|n IH]; intros v u Hn; [lia|].
  destruct v as [|a|a|a|l|m], u as [|b|b|b|k|p]; cbn [DeepEqual]; try (split; congruence); try (rewrite bool_decide_eq_true; split; congruence).
  - destruct (decide (length l = length k)) as [Hlen|Hlen]; [|rewrite bool_decide_eq_false_2 //; split; [done|congruence]].
    rewrite bool_decide_eq_true_2 // andb_true_l DeepEqual_list //; [split; congruence|].
    intros x Hx y. apply IH. pose proof (depth_list x l Hx). lia.
  - destruct (decide (dom m = dom p)) as [Hd|Hd]; [|rewrite bool_decide_eq_false_2 //; split; [done|congruence]].
    rewrite bool_decide_eq_true_2 // andb_true_l DeepEqual_map //; [split; congruence|].
    intros j x Hx y. apply IH. pose proof (depth_map j x m Hx). lia.
Qed.

#[global] Instance value_eq_dec : EqDecision value.
Proof.
  intros v u. destruct (DeepEqual (S (depth v)) v u) eqn:E.
  - left. apply (DeepEqual_spec (S (depth v))); [lia|done].
  - right. intros Hvu. apply (DeepEqual_spec (S (depth v))) in Hvu; [congruence|lia].
Defined.

(** ** internal/hooks, internal/stackdef: the fields of a described stack *)
Definition wireopsManagedStackFields : list string :=
  ["compose_path"; "compose_file"; "remove_orphans"; "force_pull"; "deploy_timeout_seconds"; "sync_interval_seconds"; "wait_running_jobs";
   "wait_running_jobs_timeout_seconds"; "worker_tags"; "wireops_file_path"; "config_source"].

Definition isFileManagedConfigSource (configSource : string) : bool := bool_decide (configSource = "wireops_file" ∨ configSource = "compose_embedded").

Inductive immutable_error := StackMissing | Immutable (fields : list string).

(** [bypassed]: the stack has a bypass; [original] the record as it was read. *)
Definition validateWireopsFieldsImmutable (bypassed : bool) (stacks : rows) (original : option record) (record : record) : option immutable_error :=
  if bypassed then None
  else
    let found := match original with
                 | Some o => inl (Some o)
                 | None => if decide (TrimSpace (Id record) ≠ "")
                           then match FindById (Id record) stacks with Some o => inl (Some o) | None => inr tt end
                           else inl None
                 end in
    match found with
    | inr _ => Some StackMissing
    | inl None => None
    | inl (Some o) =>
        if negb (isFileManagedConfigSource (GetString "config_source" o)) then None
        else match List.filter (λ k, bool_decide (fields o !! k ≠ fields record !! k)) wireopsManagedStackFields with
             | [] => None
             | errs => Some (Immutable errs)
             end
    end.

(** [bypassStacks]: a set of stacks, not a count of the callers that opened it. *)
Definition open_bypass (stackID : string) (b : gset string) : gset string := {[stackID]} ∪ b.
Definition close_bypass (stackID : string) (b : gset string) : gset string := b ∖ {[stackID]}.
Definition IsBypassed (stackID : string) (b : gset string) : bool := bool_decide (stackID ∈ b).

(** ** Theorems: the parser *)

(** A definition is accepted exactly when its version is supported, it has a name and its
    two durations, where given, are at least a second; then they are what it is read as. *)
Theorem definition_accepted d :
  match finalizeDefinition d with
  | inl d' => Version d = supportedVersion ∧ Name d ≠ "" ∧
      (∀ t, t ∈ [Timeout d; interval_of d] → t ≠ "" → ∃ ns, ParseDuration t = Some ns ∧ (Second ≤ ns)%Z) ∧
      d' = set_times (seconds_of (Timeout d) (DeployTimeoutSeconds d)) (seconds_of (interval_of d) (SyncIntervalSeconds d)) d
  | inr errs => errs ≠ [] ∧ ¬ (Version d = supportedVersion ∧ Name d ≠ "" ∧
      ∀ t, t ∈ [Timeout d; interval_of d] → t ≠ "" → ∃ ns, ParseDuration t = Some ns ∧ (Second ≤ ns)%Z)
  end.
Proof.
  assert (∀ t b c, check_duration t b c = [] ↔ (t ≠ "" → ∃ ns, ParseDuration t = Some ns ∧ (Second ≤ ns)%Z)) as Hd.
  { intros t b c. unfold check_duration. case_decide as Ht; [naive_solver|]. destruct (ParseDuration t) as [ns|]; [|naive_solver].
    destruct (ns <? Second)%Z eqn:Hs; [apply Z.ltb_lt in Hs|apply Z.ltb_ge in Hs]; split; try done.
    - intros Hx. destruct (Hx Ht) as (? & [= <-] & ?). lia.
    - intros _ _. eauto. }
  assert (Validate d = [] ↔ Version d = supportedVersion ∧ Name d ≠ "" ∧
    ∀ t, t ∈ [Timeout d; interval_of d] → t ≠ "" → ∃ ns, ParseDuration t = Some ns ∧ (Second ≤ ns)%Z) as Hv.
  { unfold Validate. rewrite !app_nil Hd Hd. split.
    - intros (H1 & H2 & H3 & H4). split_and!.
      + destruct (decide (Version d = supportedVersion)) as [|Hx]; [done|]. destruct (decide (Version d = "")); [done|].
        by destruct (decide (Version d ≠ supportedVersion)).
      + intros Hx. by rewrite decide_True in H2.
      + intros t [->|[->|?%elem_of_nil]%elem_of_cons]%elem_of_cons; done.
    - intros (H1 & H2 & H3). rewrite H1. split_and!; [done|by case_decide|apply H3; set_solver|apply H3; set_solver]. }
  unfold finalizeDefinition. destruct (Validate d) as [|e es] eqn:He; [naive_solver|]. split; [done|]. rewrite -Hv. done.
Qed.

(** ** Theorems: the refresh *)

Lemma num_int_Itoa_any n : num_int (Itoa n) = Some n.
Proof.
  destruct (decide (0 ≤ n)%Z) as [Hn|Hn]; [by apply num_int_Itoa|]. destruct n as [|p|p]; [lia|lia|].
  unfold num_int. assert (Itoa (Z.neg p) = "-" +:+ pretty (N.pos p)) as -> by done.
  rewrite (proj2 (strip_prefix_Some "-" _ (pretty (N.pos p))) eq_refl).
  destruct (pretty_N_digits (N.pos p)) as [H1 H2]. unfold unsigned_int. by rewrite cut_none_digits // H2.
Qed.

Lemma GetInt_SetInt_any k n r : GetInt k (SetInt k n r) = n.
Proof. unfold GetInt. simpl. by rewrite lookup_insert_eq num_int_Itoa_any. Qed.

Lemma uniques_seen l seen seen' : seen ⊆ seen' → (∀ x, x ∈ l → x ∈ seen' → x ∈ seen) → uniques seen' l = uniques seen l.
Proof.
  revert seen seen'. induction l as [|x l IH]; intros seen seen' Hs Hl; [done|]. simpl.
  destruct (decide (x = "" ∨ x ∈ seen)) as [Hx|Hx].
  - rewrite decide_True; [|destruct Hx; [by left|right; set_solver]]. apply IH; set_solver.
  - rewrite decide_False; [|intros [?|?]; apply Hx; [by left|right; apply Hl; [by left|done]]]. f_equal. apply IH; [set_solver|].
    intros y Hy [->%elem_of_singleton|Hy']%elem_of_union; [set_solver|]. set_solver.
Qed.

Lemma uniques_idemp seen l : uniques seen (uniques seen l) = uniques seen l.
Proof.
  revert seen. induction l as [|x l IH]; intros seen; [done|]. cbn [uniques]. destruct (decide (x = "" ∨ x ∈ seen)) as [|Hx]; [done|].
  cbn [uniques]. rewrite decide_False //. by rewrite IH.
Qed.

Lemma texts_VStr l : texts (VList (VStr <$> l)) = l.
Proof. unfold texts. induction l as [|x l IH]; [done|]. cbn. f_equal. exact IH. Qed.

Lemma GetStringSlice_Set k l r : GetStringSlice k (SetStrings k l r) = uniques ∅ l.
Proof. unfold GetStringSlice, SetStrings. rewrite fields_SetField_eq. by rewrite texts_VStr. Qed.

(** Only the field [k] may differ. *)
Definition only_field (k : string) (r r' : record) : Prop := Id r' = Id r ∧ ∀ k', k' ≠ k → fields r' !! k' = fields r !! k'.

Lemma only_SetField k v r : only_field k r (SetField k v r).
Proof. split; [done|]. intros k' Hk. by rewrite fields_SetField_ne. Qed.

Lemma only_refl k r : only_field k r r.
Proof. by split. Qed.

Lemma setBool_ok k b s : GetBool k (setBool k b s).1 = b ∧ only_field k s.1 (setBool k b s).1.
Proof. unfold setBool. case_decide; [split; [done|apply only_refl]|]. split; [apply GetBool_SetField_eq|apply only_SetField]. Qed.
Lemma setInt_ok k n s : GetInt k (setInt k n s).1 = n ∧ only_field k s.1 (setInt k n s).1.
Proof. unfold setInt. case_decide; [split; [done|apply only_refl]|]. split; [apply GetInt_SetInt_any|apply only_SetField]. Qed.
Lemma setString_ok k n s : GetString k (setString k n s).1 = n ∧ only_field k s.1 (setString k n s).1.
Proof. unfold setString. case_decide; [split; [done|apply only_refl]|]. split; [apply GetString_SetStr|apply only_SetField]. Qed.
Lemma setStrings_ok k l s : GetStringSlice k (setStrings k l s).1 = uniques ∅ l ∧ only_field k s.1 (setStrings k l s).1.
Proof.
  unfold setStrings. case_decide as Hd; [split; [|apply only_refl]|split; [apply GetStringSlice_Set|apply only_SetField]].
  subst l. unfold GetStringSlice. destruct (fields s.1 !! k); [by rewrite uniques_idemp|done].
Qed.

Lemma get_field_ext k r r' : fields r' !! k = fields r !! k →
  GetBool k r' = GetBool k r ∧ GetInt k r' = GetInt k r ∧ GetString k r' = GetString k r ∧ GetStringSlice k r' = GetStringSlice k r.
Proof. intros E. unfold GetBool, GetInt, GetString, GetStringSlice. by rewrite E. Qed.

Lemma get_other k k' r r' : only_field k r r' → k' ≠ k →
  GetBool k' r' = GetBool k' r ∧ GetInt k' r' = GetInt k' r ∧ GetString k' r' = GetString k' r ∧ GetStringSlice k' r' = GetStringSlice k' r.
Proof. intros [_ Ho] Hk. by apply get_field_ext, Ho. Qed.

(** What a deploy reads of the fields a definition describes. *)
Definition described (r : record) : bool * bool * Z * Z * string * list string :=
  (GetBool "remove_orphans" r, GetBool "force_pull" r, GetInt "deploy_timeout_seconds" r, GetInt "sync_interval_seconds" r,
   GetString "wait_running_jobs" r, GetStringSlice "worker_tags" r).

Definition describes (def : Definition_) : bool * bool * Z * Z * string * list string :=
  let '(removeOrphans, forcePull, waitRunningJobs, workerTags) := resolveWireopsStackFields def in
  (removeOrphans, forcePull, DeployTimeoutSeconds def, SyncIntervalSeconds def, waitRunningJobs, uniques ∅ workerTags).

Definition described_fields : list string :=
  ["remove_orphans"; "force_pull"; "deploy_timeout_seconds"; "sync_interval_seconds"; "wait_running_jobs"; "worker_tags"].

Lemma new_stack_described id repo w path file paused def : described (new_stack id repo w path file paused def) = describes def.
Proof.
  unfold described, describes, new_stack. destruct (resolveWireopsStackFields def) as [[[o f] wt] tags].
  assert (∀ k v r, "worker_tags" ≠ k → GetStringSlice "worker_tags" (SetField k v r) = GetStringSlice "worker_tags" r) as Ht.
  { intros k v r Hk. unfold GetStringSlice. by rewrite fields_SetField_ne. }
  assert (∀ a b c d e f a' b' c' d' e' f', a = a' → b = b' → c = c' → d = d' → e = e' → f = f' →
    (a, b, c, d, e, f) = (a', b', c', d', e', f') :> bool * bool * Z * Z * string * list string) as H6 by congruence.
  apply H6.
  - unfold SetStrings. by field_simpl.
  - unfold SetStrings. by field_simpl.
  - unfold SetStrings, SetStr. do 4 (rewrite (GetInt_SetField_ne "deploy_timeout_seconds"); [|done]). apply GetInt_SetInt_any.
  - unfold SetStrings, SetStr. do 3 (rewrite (GetInt_SetField_ne "sync_interval_seconds"); [|done]). apply GetInt_SetInt_any.
  - unfold SetStrings. by field_simpl.
  - unfold SetStr at 1. rewrite Ht //. apply GetStringSlice_Set.
Qed.

(** The six fields every definition describes. *)
Lemma set_described_ok def s : described (set_described def s).1 = describes def ∧ Id (set_described def s).1 = Id s.1 ∧
  ∀ k, k ∉ described_fields → fields (set_described def s).1 !! k = fields s.1 !! k.
Proof.
  unfold set_described, describes, described. destruct (resolveWireopsStackFields def) as [[[o f] wt] tags].
  set (s1 := setBool "remove_orphans" o s). set (s2 := setBool "force_pull" f s1).
  set (s3 := setInt "deploy_timeout_seconds" _ s2). set (s4 := setInt "sync_interval_seconds" _ s3).
  set (s5 := setString "wait_running_jobs" wt s4). set (s6 := setStrings "worker_tags" tags s5).
  destruct (setBool_ok "remove_orphans" o s) as [G1 [I1 E1]]. destruct (setBool_ok "force_pull" f s1) as [G2 [I2 E2]].
  destruct (setInt_ok "deploy_timeout_seconds" (DeployTimeoutSeconds def) s2) as [G3 [I3 E3]].
  destruct (setInt_ok "sync_interval_seconds" (SyncIntervalSeconds def) s3) as [G4 [I4 E4]].
  destruct (setString_ok "wait_running_jobs" wt s4) as [G5 [I5 E5]]. destruct (setStrings_ok "worker_tags" tags s5) as [G6 [I6 E6]].
  fold s1 in G1, I1, E1. fold s2 in G2, I2, E2. fold s3 in G3, I3, E3. fold s4 in G4, I4, E4. fold s5 in G5, I5, E5. fold s6 in G6, I6, E6.
  split_and!; [|congruence|].
  - rewrite -G1 -G2 -G3 -G4 -G5 -G6. unfold GetBool, GetInt, GetString, GetStringSlice.
    rewrite (E6 "remove_orphans") // (E5 "remove_orphans") // (E4 "remove_orphans") // (E3 "remove_orphans") // (E2 "remove_orphans") //.
    rewrite (E6 "force_pull") // (E5 "force_pull") // (E4 "force_pull") // (E3 "force_pull") //.
    rewrite (E6 "deploy_timeout_seconds") // (E5 "deploy_timeout_seconds") // (E4 "deploy_timeout_seconds") //.
    by rewrite (E6 "sync_interval_seconds") // (E5 "sync_interval_seconds") // (E6 "wait_running_jobs").
  - intros k [H1 [H2 [H3 [H4 [H5 [H6 _]%not_elem_of_cons]%not_elem_of_cons]%not_elem_of_cons]%not_elem_of_cons]%not_elem_of_cons]%not_elem_of_cons.
    etrans; [exact (E6 k H6)|]. etrans; [exact (E5 k H5)|]. etrans; [exact (E4 k H4)|]. etrans; [exact (E3 k H3)|].
    etrans; [exact (E2 k H2)|]. exact (E1 k H1).
Qed.

Lemma described_ext r r' : (∀ k, k ∈ described_fields → fields r' !! k = fields r !! k) → described r' = described r.
Proof.
  intros E. unfold described, GetBool, GetInt, GetString, GetStringSlice.
  rewrite (E "remove_orphans") ?(E "force_pull") ?(E "deploy_timeout_seconds") ?(E "sync_interval_seconds") ?(E "wait_running_jobs") ?(E "worker_tags") //;
    apply (bool_decide_unpack _); vm_compute; exact I.
Qed.

Lemma apply_ok stack def source : let r := (applyWireopsDefinition stack def source).1 in
  described r = describes def ∧
  (source = "wireops_file" → GetString "compose_path" r = ResolvedComposePath def ∧ GetString "compose_file" r = ResolvedComposeFile def) ∧
  Id r = Id stack ∧
  ∀ k, k ∉ described_fields → (source = "wireops_file" → k ≠ "compose_path" ∧ k ≠ "compose_file") → fields r !! k = fields stack !! k.
Proof.
  unfold applyWireopsDefinition. cbv zeta. destruct (set_described_ok def (stack, ∅)) as (Hd & Hid & Hk). set (s6 := set_described def (stack, ∅)) in *.
  case_decide as Hsrc.
  - set (s7 := setString "compose_path" (ResolvedComposePath def) s6). set (s8 := setString "compose_file" _ s7).
    destruct (setString_ok "compose_path" (ResolvedComposePath def) s6) as [G7 O7].
    destruct (setString_ok "compose_file" (ResolvedComposeFile def) s7) as [G8 O8]. fold s7 in G7, O7. fold s8 in G8, O8.
    assert (∀ k, k ≠ "compose_path" → k ≠ "compose_file" → fields s8.1 !! k = fields s6.1 !! k) as E8.
    { intros k H1 H2. by rewrite (proj2 O8 k H2) (proj2 O7 k H1). }
    split_and!.
    + rewrite -Hd. apply described_ext. intros k Hin.
      assert ("compose_path" ∉ described_fields ∧ "compose_file" ∉ described_fields) as [N1 N2]
        by (apply (bool_decide_unpack _); vm_compute; exact I). apply E8; congruence.
    + intros _. split; [|done]. rewrite -G7. unfold GetString. by rewrite (proj2 O8).
    + by rewrite (proj1 O8) (proj1 O7).
    + intros k H1 H2. destruct (H2 Hsrc). rewrite E8 //. by apply Hk.
  - split_and!; [exact Hd|done|exact Hid|]. intros k H1 _. by apply Hk.
Qed.

(** C25: A refresh gives the fields a definition describes the values a stack created from it
    would have, and leaves every other field of the stack alone. *)
Theorem refresh_as_created stack def source id repo w path file paused :
  let r := (applyWireopsDefinition stack def source).1 in
  described r = described (new_stack id repo w path file paused def) ∧
  (source = "wireops_file" → GetString "compose_path" r = ResolvedComposePath def ∧ GetString "compose_file" r = ResolvedComposeFile def) ∧
  Id r = Id stack ∧
  ∀ k, k ∉ described_fields → (source = "wireops_file" → k ≠ "compose_path" ∧ k ≠ "compose_file") → fields r !! k = fields stack !! k.
Proof. rewrite new_stack_described. apply apply_ok. Qed.

(** A write of what is read already changes nothing. *)
Lemma set_same s : (∀ k b, GetBool k s.1 = b → setBool k b s = s) ∧ (∀ k n, GetInt k s.1 = n → setInt k n s = s) ∧
  (∀ k n, GetString k s.1 = n → setString k n s = s) ∧ (∀ k l, GetStringSlice k s.1 = l → setStrings k l s = s).
Proof. unfold setBool, setInt, setString, setStrings. split_and!; intros; by rewrite decide_True. Qed.

Definition tags_of (def : Definition_) : list string := (resolveWireopsStackFields def).2.

(** Once the fields are those of the definition, there is nothing to change. *)
Lemma apply_same stack def source : uniques ∅ (tags_of def) = tags_of def → described stack = describes def →
  (source = "wireops_file" → GetString "compose_path" stack = ResolvedComposePath def ∧ GetString "compose_file" stack = ResolvedComposeFile def) →
  applyWireopsDefinition stack def source = (stack, ∅).
Proof.
  intros Hu Hd Hp. unfold applyWireopsDefinition, set_described. unfold described, describes, tags_of in *.
  destruct (resolveWireopsStackFields def) as [[[o f] wt] tags]. simpl in Hu. rewrite Hu in Hd. injection Hd as H1 H2 H3 H4 H5 H6.
  destruct (set_same (stack, ∅)) as (B & I & T & L). cbv zeta.
  rewrite (B _ _ H1) (B _ _ H2) (I _ _ H3) (I _ _ H4) (T _ _ H5) (L _ _ H6). case_decide as Hs; [|done].
  destruct (Hp Hs) as [P1 P2]. by rewrite (T _ _ P1) (T _ _ P2).
Qed.

Section refresh.
Context `{UnicodeTables} (cwd workspace : string).
Context (decode : string → option (Definition_ * JobFile.trailing)) (decode_block : string → option (option (option Definition_))).
Context (yaml_parse : string → option value) (list_dir : string → option (list (string * bool))) (read_file : string → option string).
Context (w : ComposeRun.host) (h : ComposeRun.history) (path_text : path_error → string) (maxBytes : Z).
Context (setup : string → option string) (saved : record → bool).

Abbreviation from_git := (definitionFromGit cwd workspace decode decode_block yaml_parse list_dir read_file w h path_text maxBytes).
Abbreviation resync := (resync_definition cwd workspace decode decode_block yaml_parse list_dir read_file w h path_text maxBytes setup saved).

(** The definition of a stack is read from where it was before the refresh. *)
Lemma from_git_applied stack def repoDir : from_git stack repoDir = inl def →
  let r := (applyWireopsDefinition stack def (GetString "config_source" stack)).1 in
  from_git r repoDir = inl def ∧ GetString "config_source" r = GetString "config_source" stack ∧ GetString "repository" r = GetString "repository" stack.
Proof.
  intros Hd r. destruct (apply_ok stack def (GetString "config_source" stack)) as (_ & _ & _ & Hk). fold r in Hk.
  assert (∀ k, k ∉ described_fields ++ ["compose_path"; "compose_file"] → GetString k r = GetString k stack) as Hg.
  { intros k [H1 H2]%not_elem_of_app. unfold GetString. rewrite Hk //. intros _.
    apply not_elem_of_cons in H2 as [? [? _]%not_elem_of_cons]. done. }
  assert (GetString "config_source" r = GetString "config_source" stack) as Hs by (apply Hg, (bool_decide_unpack _); vm_compute; exact I).
  assert (GetString "repository" r = GetString "repository" stack) as Hr by (apply Hg, (bool_decide_unpack _); vm_compute; exact I).
  split_and!; [|done..]. unfold definitionFromGit in *. rewrite Hs Hr. case_decide as E1.
  - rewrite Hg; [done|]. apply (bool_decide_unpack _); vm_compute; exact I.
  - case_decide as E2; [|done]. assert (∀ k, k ∉ described_fields → GetString k r = GetString k stack) as Hc.
    { intros k H1. unfold GetString. rewrite Hk //. }
    rewrite !Hc; [done|apply (bool_decide_unpack _); vm_compute; exact I..].
Qed.

(** The refresh of a stack whose definition can be read. *)
Lemma resync_run preview commit stackID t stack repoDir sha def : stackID ≠ "" → FindById stackID t = Some stack →
  (GetString "config_source" stack = "wireops_file" ∨ GetString "config_source" stack = "compose_embedded") →
  setup (GetString "repository" stack) = Some repoDir → commit repoDir = Some sha → from_git stack repoDir = inl def →
  resync true true preview commit stackID t =
    let source := GetString "config_source" stack in
    let '(stack', changes) := applyWireopsDefinition stack def source in
    let resp := λ status p, {| r_Status := status; r_Source := source; r_CommitSHA := sha; ChangedFields := changes; Preview := p |} in
    if preview then (Refreshed (resp (previewStatus changes) true), t)
    else if decide (changes = ∅) then (Refreshed (resp "unchanged" false), t)
    else if saved stack' then (Refreshed (resp "updated" false), upsert stack' t) else (RefreshNotSaved, t).
Proof.
  intros Hid Hf Hsrc Hs Hc Hd. unfold resync_definition. rewrite decide_False //. simpl negb. cbv iota. rewrite Hf. simpl negb. cbv iota zeta.
  rewrite decide_False; [|tauto]. by rewrite Hs Hc Hd.
Qed.

(** Every other answer is the same for a preview, and nothing is saved. *)
Lemma resync_refused lock commit stackID t a t' : resync true lock false commit stackID t = (a, t') →
  (resync true lock true commit stackID t = (a, t) ∧ t' = t ∧ a ≠ RefreshNotSaved ∧ ∀ resp, a ≠ Refreshed resp) ∨
  lock = true ∧ stackID ≠ "" ∧ ∃ stack repoDir sha def, FindById stackID t = Some stack ∧
    (GetString "config_source" stack = "wireops_file" ∨ GetString "config_source" stack = "compose_embedded") ∧
    setup (GetString "repository" stack) = Some repoDir ∧ commit repoDir = Some sha ∧ from_git stack repoDir = inl def.
Proof.
  unfold resync_definition. case_decide as Hid; [intros [= <- <-]; by left|]. simpl negb. cbv iota zeta.
  destruct (FindById stackID t) as [stack|] eqn:Hf; [|intros [= <- <-]; by left].
  destruct lock; simpl negb; cbv iota; [|intros [= <- <-]; by left].
  destruct (decide (GetString "config_source" stack ≠ "wireops_file" ∧ _)) as [Hsrc|Hsrc]; [intros [= <- <-]; by left|].
  destruct (setup (GetString "repository" stack)) as [repoDir|] eqn:Hsu; [|intros [= <- <-]; by left].
  destruct (commit repoDir) as [sha|] eqn:Hc; [|intros [= <- <-]; by left].
  destruct (from_git stack repoDir) as [def|err] eqn:Hd; [|intros [= <- <-]; by left].
  intros _. right. split_and!; [done..|]. exists stack, repoDir, sha, def. split_and!; try done.
  destruct (decide (GetString "config_source" stack = "wireops_file")); [by left|]. right.
  destruct (decide (GetString "config_source" stack = "compose_embedded")); [done|tauto].
Qed.

(** A preview answers with the changes the refresh would make and changes nothing; a
    refresh whose tags are not empty and not repeated is settled: the next one of the same
    checkout finds nothing to change. *)
Theorem refresh_settles lock commit stackID t a t' : resync true lock false commit stackID t = (a, t') →
  (∃ p, resync true lock true commit stackID t = (p, t) ∧
    match a with
    | Refreshed resp => ∃ resp', p = Refreshed resp' ∧ ChangedFields resp' = ChangedFields resp ∧ r_CommitSHA resp' = r_CommitSHA resp
    | RefreshNotSaved => ∃ resp', p = Refreshed resp' ∧ ChangedFields resp' ≠ ∅
    | _ => p = a
    end) ∧
  (∀ resp stack def repoDir, a = Refreshed resp → FindById stackID t = Some stack → setup (GetString "repository" stack) = Some repoDir →
     from_git stack repoDir = inl def → uniques ∅ (tags_of def) = tags_of def →
     ∃ resp', resync true lock false commit stackID t' = (Refreshed resp', t') ∧ ChangedFields resp' = ∅ ∧ r_Status resp' = "unchanged").
Proof.
  intros Hrs. destruct (resync_refused _ _ _ _ _ _ Hrs) as [(Hp & -> & Hr & Hn)|(-> & Hid & stack & repoDir & sha & def & Hf & Hsrc & Hs & Hc & Hd)].
  { split; [|intros resp ??? Ha; by destruct (Hn resp)]. exists a. split; [done|]. destruct a as [| | | | | | | | |resp]; try done. by destruct (Hn resp). }
  rewrite (resync_run _ _ _ _ _ _ _ _ Hid Hf Hsrc Hs Hc Hd) in Hrs. rewrite (resync_run _ _ _ _ _ _ _ _ Hid Hf Hsrc Hs Hc Hd). cbv zeta in Hrs |- *.
  destruct (from_git_applied _ _ _ Hd) as (Hd' & Hcs & Hrepo).
  destruct (apply_ok stack def (GetString "config_source" stack)) as (A1 & A2 & A3 & _).
  destruct (applyWireopsDefinition stack def (GetString "config_source" stack)) as [stack' changes] eqn:Ha. simpl in Hd', Hcs, Hrepo, A1, A2, A3.
  destruct (decide (changes = ∅)) as [->|Hch].
  - injection Hrs as <- <-. split; [eexists; split; [done|]; eauto|]. intros resp stack0 def0 repoDir0 _ Hf0 Hs0 Hd0 Hu.
    rewrite Hf in Hf0. injection Hf0 as <-. eexists. rewrite (resync_run _ _ _ _ _ _ _ _ Hid Hf Hsrc Hs Hc Hd). cbv zeta. rewrite Ha. by case_decide.
  - destruct (saved stack') eqn:Hsv; injection Hrs as <- <-; split.
    + eexists; split; [done|]; eauto.
    + intros resp stack0 def0 repoDir0 _ Hf0 Hs0 Hd0 Hu. rewrite Hf in Hf0. injection Hf0 as <-. assert (repoDir0 = repoDir) as -> by congruence.
      assert (def0 = def) as -> by congruence. apply FindById_Some in Hf as [_ Hid'].
      assert (FindById stackID (upsert stack' t) = Some stack') as Hf' by (rewrite -Hid' -A3; apply FindById_upsert).
      eexists. rewrite (resync_run false commit stackID _ stack' repoDir sha def Hid Hf' ltac:(by rewrite Hcs) ltac:(by rewrite Hrepo) Hc Hd').
      cbv zeta. rewrite (apply_same stack' def _ Hu A1); [by case_decide|by rewrite Hcs].
    + eexists; split; [done|]. eauto.
    + intros ????. discriminate.
Qed.
End refresh.

(** Tags that are repeated, or empty, never settle: what is stored reads without them, so
    every refresh of every stack with such a definition reports a change and saves. *)
Theorem repeated_tags_never_settle stack def source : uniques ∅ (tags_of def) ≠ tags_of def →
  "worker_tags" ∈ dom (applyWireopsDefinition stack def source).2.
Proof.
  intros Hu. unfold applyWireopsDefinition, set_described, tags_of in *. destruct (resolveWireopsStackFields def) as [[[o f] wt] tags]. simpl in Hu. cbv zeta.
  match goal with |- context [setStrings "worker_tags" tags ?s] => assert ("worker_tags" ∈ dom (setStrings "worker_tags" tags s).2) as Hin end.
  { unfold setStrings. rewrite decide_False; [cbn [snd]; rewrite dom_insert; by apply elem_of_union_l, elem_of_singleton|]. intros Ht. apply Hu. rewrite -Ht. unfold GetStringSlice.
    destruct (_ !! _); [apply uniques_idemp|done]. }
  assert (∀ k n s, "worker_tags" ∈ dom s.2 → "worker_tags" ∈ dom (setString k n s).2) as Hs.
  { intros k n s Hx. unfold setString. destruct (decide _); [done|]. cbn [snd]. rewrite dom_insert. by apply elem_of_union_r. }
  case_decide; [by do 2 apply Hs|done].
Qed.

(** ** Theorems: the lock on the described fields *)

(** One change of a stack through the API or by another part of the server that opens no
    bypass, read and saved with nothing in between; the rest of the hook is [hooks].  New
    stacks have ids that were not [used] before. *)
Inductive edit (hooks : record → record → bool) (used : gset string) : rows → rows → Prop :=
  | edit_save t o r : o ∈ t → Id r = Id o → validateWireopsFieldsImmutable false t (Some o) r = None → hooks o r = true → edit hooks used t (upsert r t)
  | edit_create t r : Id r ∉ used → edit hooks used t (upsert r t)
  | edit_delete t id : edit hooks used t (filter (λ x, Id x ≠ id) t).

Lemma immutable_ok t o r : validateWireopsFieldsImmutable false t (Some o) r = None →
  isFileManagedConfigSource (GetString "config_source" o) = true → ∀ k, k ∈ wireopsManagedStackFields → fields r !! k = fields o !! k.
Proof.
  unfold validateWireopsFieldsImmutable. cbv zeta. intros Hv Hm k Hk. rewrite Hm in Hv. simpl negb in Hv. cbv iota in Hv.
  destruct (List.filter _ _) as [|x l] eqn:Hf; [|done]. symmetry. apply dec_stable. intros Hne.
  assert (k ∈ List.filter (λ k, bool_decide (fields o !! k ≠ fields r !! k)) wireopsManagedStackFields) as Hin.
  { apply list_elem_of_In, List.filter_In. split; [by apply list_elem_of_In|by apply bool_decide_eq_true]. }
  rewrite Hf in Hin. by apply elem_of_nil in Hin.
Qed.

(** The rows of the stack [id] have the managed fields of [o], which is described by a file. *)
Definition as_described (o : record) (t : rows) : Prop :=
  ∀ r, r ∈ t → Id r = Id o → ∀ k, k ∈ wireopsManagedStackFields → fields r !! k = fields o !! k.

Lemma edit_keeps hooks used t t' o : edit hooks used t t' → Id o ∈ used → isFileManagedConfigSource (GetString "config_source" o) = true →
  as_described o t → as_described o t'.
Proof.
  intros He Hu Hm Ho. destruct He as [t o' r' Ho' Hid Hv _|t r' Hnew|t id].
  - intros r [->|[Hr _]]%elem_of_upsert Hrid k Hk; [|by apply Ho]. pose proof (Ho o' Ho' ltac:(congruence)) as Hsame.
    rewrite (immutable_ok _ _ _ Hv); [by apply Hsame| |done]. unfold GetString.
    rewrite Hsame; [exact Hm|]. apply (bool_decide_unpack _). vm_compute. exact I.
  - intros r [->|[Hr _]]%elem_of_upsert Hrid k Hk; [congruence|by apply Ho].
  - intros r [_ Hr]%list_elem_of_filter Hrid k Hk. by apply Ho.
Qed.

(** C26: Whatever is saved through the API, and by everything that opens no bypass, a stack that
    is described by a file keeps the values of its managed fields. *)
Theorem described_fields_locked hooks used t t' o : NoDup (ids_of t) → o ∈ t → Id o ∈ used →
  isFileManagedConfigSource (GetString "config_source" o) = true → rtc (edit hooks used) t t' →
  ∀ r, r ∈ t' → Id r = Id o → ∀ k, k ∈ wireopsManagedStackFields → fields r !! k = fields o !! k.
Proof.
  intros Hn Ho Hu Hm Hs. assert (as_described o t) as H0.
  { intros r Hr Hid k _. by rewrite (NoDup_ids_inj t r o Hn Hr Ho Hid). }
  clear Hn Ho. induction Hs as [t|t t1 t' He _ IH]; [exact H0|]. apply IH. by eapply edit_keeps.
Qed.

(** While a bypass of a stack is open, every save of it passes, not only the one it was
    opened for. *)
Theorem open_bypass_admits_all b id t o r : Id r = id → validateWireopsFieldsImmutable (IsBypassed (Id r) (open_bypass id b)) t o r = None.
Proof. intros <-. unfold IsBypassed, open_bypass. rewrite bool_decide_eq_true_2; [done|set_solver]. Qed.

(** ** Theorems: where a definition is read from *)

(** The file of a definition lies in the checkout of its repository and is named
    wireops.yaml or wireops.yml. *)
Theorem wireops_file_contained cwd read_file decode workspace repoID filePath def :
  IsAbs cwd = true → PathJoin workspace repoID ≠ "" → ParseWireopsFile cwd read_file decode workspace repoID filePath = inl def →
  ∃ path, is_Some (read_file path) ∧ inside (Abs cwd (PathJoin workspace repoID)) path ∧
    path = PathJoin (Abs cwd (PathJoin workspace repoID)) (Clean filePath) ∧ IsWireopsFile (Base (Clean filePath)) = true.
Proof.
  intros Hcwd Hne Hp. unfold ParseWireopsFile in Hp. destruct (CleanRelativePath filePath) as [|clean] eqn:Hc; [done|].
  set (base := Abs cwd (PathJoin workspace repoID)) in *.
  assert (base ≠ "" ∧ IsAbs base = true) as [Hb HA].
  { unfold base, Abs. destruct (IsAbs (PathJoin workspace repoID)) eqn:E.
    - split; [apply Clean_nonempty|by rewrite IsAbs_Clean].
    - assert (cwd ≠ "") as Hcw by (intros ->; done). split; [by apply PathJoin_ne|]. by rewrite (proj1 (PathJoin_comps cwd _ Hcw Hne)). }
  destruct (clean_relative_contained base _ _ Hb Hc) as [-> Hin]. destruct (IsWireopsFile (Base (Clean filePath))) eqn:Hw; [|done]. simpl negb in Hp. cbv iota zeta in Hp.
  assert (IsAbs (PathJoin base (Clean filePath)) = true) as HJ by (rewrite (proj1 (PathJoin_comps base _ Hb (Clean_nonempty _))); done).
  assert (Abs cwd (PathJoin base (Clean filePath)) = PathJoin base (Clean filePath)) as Hfull.
  { unfold Abs. rewrite HJ. unfold PathJoin. rewrite decide_False // decide_False; [|apply Clean_nonempty]. apply Clean_idempotent. }
  rewrite Hfull in Hp. destruct (Rel _ _) as [rel|]; [|done]. case_decide; [done|]. destruct (read_file _) as [data|] eqn:Hr; [|done].
  exists (PathJoin base (Clean filePath)). split_and!; [by eexists|done|done|done].
Qed.

(** A reconcile re-reads the deploy timeout and the sync interval the refresh would set. *)
Theorem reconcile_reads_schedule `{UnicodeTables} cwd workspace decode decode_block yaml_parse list_dir read_file w h path_text maxBytes stack repoID def :
  GetString "repository" stack = repoID →
  definitionFromGit cwd workspace decode decode_block yaml_parse list_dir read_file w h path_text maxBytes stack (PathJoin workspace repoID) = inl def →
  ∃ def', parseStackDefinition cwd workspace decode decode_block read_file w h path_text maxBytes stack (GetString "config_source" stack) repoID = inl def' ∧
    DeployTimeoutSeconds def' = DeployTimeoutSeconds def ∧ SyncIntervalSeconds def' = SyncIntervalSeconds def.
Proof.
  intros <-. unfold definitionFromGit, parseStackDefinition. destruct (decide (GetString "config_source" stack = "wireops_file")) as [E|E].
  - destruct (decide (GetString "wireops_file_path" stack = "")); [done|]. unfold from_file. destruct (ParseWireopsFile _ _ _ _ _ _) as [d|]; [|done].
    unfold resolveWireopsComposeFile. cbv zeta. intros Hd. exists d. split; [done|].
    destruct (CleanRelativePath _); [done|]. destruct (list_dir _) as [entries|]; [|done]. destruct (scan_dir _ _ _ _) as [ms inv].
    destruct (sort_strings ms) as [|m [|]]; [done| |done]. simpl in Hd. destruct (ResolutionError d); [done|]. by injection Hd as <-.
  - destruct (decide (GetString "config_source" stack = "compose_embedded")); [|done]. intros Hd. exists def. by split.
Qed.

(** ** Witnesses *)
#[local] Instance all_printable : UnicodeTables := λ _, true.

Definition bare : ComposeRun.host := {|
  ComposeRun.h_stat := λ _ _, ComposeRun.Info true false true; ComposeRun.h_open := λ _ _, inr ""; ComposeRun.h_root := λ _ _, None;
  ComposeRun.h_exec := λ _ _, ("", None); ComposeRun.h_client := λ _, None; ComposeRun.h_list := λ _ _, inl [];
  ComposeRun.h_inspect := λ _ _, inr (ComposeRun.NotFound ""); ComposeRun.h_docker := λ _ _, None; ComposeRun.h_file := λ _ _, None |}.

Definition raw_def : Definition_ :=
  {| Version := "wireops.v1"; Name := "web"; Group := ""; Timeout := "90s"; DeployTimeoutSeconds := 0; Compose := None; Jobs := None;
     Worker := Some {| Tags := Some ["gpu"; "eu"] |}; Sync := Some {| Interval := "5m" |}; SyncIntervalSeconds := 0; ResolvedComposePath := "";
     ResolvedComposeFile := ""; ResolutionError := None; Deprecated := false |}.

Definition repo_file (p : string) : option string :=
  if decide (p = "/repos/r1/web/wireops.yaml") then Some "definition" else if decide (p = "/repos/r1/web/compose.yaml") then Some "document" else None.
Definition repo_dir (p : string) : option (list (string * bool)) :=
  if decide (p = "/repos/r1/web") then Some [("compose.yaml", false); ("wireops.yaml", false)] else None.
Definition repo_decode (data : string) : option (Definition_ * JobFile.trailing) := if decide (data = "definition") then Some (raw_def, JobFile.Nothing) else None.
Definition repo_yaml (data : string) : option value :=
  if decide (data = "document") then Some (VMap {["services" := VMap {["web" := VMap {["image" := VStr "nginx"]}]}]}) else None.

Definition file_stack : record :=
  SetStr "wireops_file_path" "web/wireops.yaml" (SetStr "config_source" "wireops_file" (SetStr "repository" "r1" {| Id := "s1"; fields := ∅ |})).

Definition toy_resync (preview : bool) (t : rows) : refresh_answer * rows :=
  resync_definition "/srv" "/repos" repo_decode (λ _, None) repo_yaml repo_dir repo_file bare [] (λ _, "") 1000 (λ id, Some (PathJoin "/repos" id)) (λ _, true)
    true true preview (λ _, Some "abc") "s1" t.

Definition answered_fields (a : refresh_answer) : gset string := match a with Refreshed resp => dom (ChangedFields resp) | _ => ∅ end.

Lemma refresh_settles_witness :
  answered_fields (toy_resync false [file_stack]).1 = list_to_set ["remove_orphans"; "deploy_timeout_seconds"; "sync_interval_seconds"; "wait_running_jobs";
    "worker_tags"; "compose_path"; "compose_file"] ∧
  ∃ resp', toy_resync false (toy_resync false [file_stack]).2 = (Refreshed resp', (toy_resync false [file_stack]).2) ∧
    ChangedFields resp' = ∅ ∧ r_Status resp' = "unchanged".
Proof.
  split; [vm_compute; reflexivity|].
  refine (proj2 (refresh_settles "/srv" "/repos" repo_decode (λ _, None) repo_yaml repo_dir repo_file bare [] (λ _, "") 1000
    (λ id, Some (PathJoin "/repos" id)) (λ _, true) true (λ _, Some "abc") "s1" [file_stack] _ _ (surjective_pairing _)) _ _ _ _ _ _ _ _ _);
    [vm_compute; reflexivity..].
Defined.

Definition locked_stack : record := SetStr "compose_path" "web" file_stack.

Definition paused_stack : record := SetStr "status" "paused" locked_stack.

Lemma described_fields_locked_witness :
  rtc (edit (λ _ _, true) {["s1"]}) [locked_stack] (upsert paused_stack [locked_stack]) ∧
  fields paused_stack !! "compose_path" = fields locked_stack !! "compose_path" ∧
  validateWireopsFieldsImmutable false [locked_stack] (Some locked_stack) (SetStr "compose_path" "other" locked_stack) = Some (Immutable ["compose_path"]).
Proof.
  assert (rtc (edit (λ _ _, true) {["s1"]}) [locked_stack] (upsert paused_stack [locked_stack])) as Hr.
  { apply rtc_once. apply (edit_save _ _ _ locked_stack); [by left|done|vm_compute; reflexivity|done]. }
  split_and!; [exact Hr| |vm_compute; reflexivity].
  apply (described_fields_locked (λ _ _, true) {["s1"]} [locked_stack] (upsert paused_stack [locked_stack]) locked_stack).
  - apply NoDup_singleton.
  - by left.
  - by apply elem_of_singleton.
  - vm_compute. reflexivity.
  - exact Hr.
  - apply elem_of_upsert. by left.
  - reflexivity.
  - left.
Defined.
