(* ===== verification/StackMigrate.v ===== *)
(** * internal/routes/stack_migrate_routes.go, pkg/utils/setdiff.go: moving a stack to another repository

    The difference of two slices as sets, the report of what a move would change, and the
    move itself: the optional teardown of the old project, the change of the record under
    a bypass of the hook, and the sync that follows. *)
From Stdlib Require Import ZArith.
From S2P Require Import Prelude GoStrings GoPath GoFmt GoBase64 GoValue ComposeDoc SafePath PbRecord PbTable Crypto EnvSecrets SopsFiles StackDefs.
From S2P Require ReconcileCore ProjectIdentity DurableCommands JobFile ComposeRun.

(** ** pkg/utils/setdiff.go *)
Section setdiff.
Context {T : Type} `{Countable T}.

(** One of the loops: the elements not seen before that satisfy the test. *)
Fixpoint keep_unseen (test : T → bool) (seen : gset T) (l : list T) : list T :=
  match l with
  | [] => []
  | v :: l => if decide (v ∈ seen) then keep_unseen test seen l
              else (if test v then [v] else []) ++ keep_unseen test ({[v]} ∪ seen) l
  end.

Definition SetDiff (source target : list T) : list T * list T * list T :=
  let inSource : gset T := list_to_set source in
  let inTarget : gset T := list_to_set target in
  (keep_unseen (λ v, bool_decide (v ∉ inSource)) ∅ target,
   keep_unseen (λ v, bool_decide (v ∉ inTarget)) ∅ source,
   keep_unseen (λ v, bool_decide (v ∈ inSource)) ∅ target).

Lemma elem_of_keep test seen l v :
  v ∈ keep_unseen test seen l ↔ (v ∈ l ∧ v ∉ seen ∧ test v = true).
Proof.
  revert seen. induction l as [|x l IH]; intros seen; simpl.
  { rewrite elem_of_nil. tauto. }
  rewrite elem_of_cons. destruct (decide (x ∈ seen)) as [Hs|Hs].
  { rewrite IH. destruct (decide (v = x)) as [->|]; tauto. }
  rewrite elem_of_app IH not_elem_of_union not_elem_of_singleton.
  destruct (decide (v = x)) as [->|Hne]; destruct (test x) eqn:Hx;
    rewrite ?list_elem_of_singleton ?elem_of_nil ?Hx; intuition congruence.
Qed.

Lemma NoDup_keep test seen l : NoDup (keep_unseen test seen l).
Proof.
  revert seen. induction l as [|x l IH]; intros seen; simpl; [constructor|].
  case_decide; [apply IH|]. destruct (test x); simpl; [|apply IH].
  apply NoDup_cons. split; [|apply IH]. rewrite elem_of_keep. intros (_ & Hn & _). apply Hn. by apply elem_of_union_l, elem_of_singleton.
Qed.

Lemma keep_sublist test seen l : keep_unseen test seen l `sublist_of` l.
Proof.
  revert seen. induction l as [|x l IH]; intros seen; simpl; [constructor|].
  case_decide; [by apply sublist_cons|]. destruct (test x); simpl; [by apply sublist_skip|by apply sublist_cons].
Qed.

(** SetDiff splits two slices as sets: added, removed and common hold exactly
    the elements of the target only, of the source only and of both, each once
    and in the order of the slice they come from. *)
Lemma SetDiff_spec source target added removed common : SetDiff source target = (added, removed, common) →
  (∀ v, v ∈ added ↔ v ∈ target ∧ v ∉ source) ∧ (∀ v, v ∈ removed ↔ v ∈ source ∧ v ∉ target)
  ∧ (∀ v, v ∈ common ↔ v ∈ source ∧ v ∈ target)
  ∧ NoDup added ∧ NoDup removed ∧ NoDup common
  ∧ added `sublist_of` target ∧ removed `sublist_of` source ∧ common `sublist_of` target.
Proof.
  intros [= <- <- <-].
  split_and!; try apply NoDup_keep; try apply keep_sublist; 
    intros v; rewrite elem_of_keep bool_decide_eq_true elem_of_list_to_set; pose proof (not_elem_of_empty (C := gset T) v); tauto.
Qed.
End setdiff.

(** ** What a compose document declares *)

(** The names of a section, sorted. *)
Definition names_of (section : string) (config : gmap string value) : list string :=
  match get_map section config with Some m => sorted_keys m | None => [] end.

Definition extractComposeResourceSets (config : gmap string value) : list string * list string * list string :=
  (names_of "services" config, names_of "volumes" config, names_of "networks" config).

Definition composeProjectName (config : gmap string value) : string := default "" (get_str "name" config).

Section ports.
(** [strconv.FormatFloat(n, 'f', 0, 64)] of the number with this text; [floats] is false
    for a document that was decoded from YAML, whose whole numbers are no float64. *)
Context (format0 : string → string) (floats : bool).

Definition portNumberString (v : option value) : string :=
  match v with
  | Some (VNum t) => if floats then format0 t else ""
  | Some (VStr s) => s
  | _ => ""
  end.

Definition published_port (item : value) : option string :=
  match item with
  | VMap m =>
      let published := portNumberString (m !! "published") in
      if decide (published = "") then None
      else let protocol := default "" (get_str "protocol" m) in
           Some (published +:+ "/" +:+ (if decide (protocol = "") then "tcp" else protocol))
  | _ => None
  end.

Definition service_ports (svc : value) : list string :=
  match svc with VMap m => omap published_port (default [] (get_list "ports" m)) | _ => [] end.

(** [slices.Compact] *)
Fixpoint compact (l : list string) : list string :=
  match l with
  | x :: ((y :: _) as l') => if decide (x = y) then compact l' else x :: compact l'
  | _ => l
  end.

Definition extractPublishedHostPorts (config : gmap string value) : list string :=
  match get_map "services" config with
  | None => []
  | Some services => compact (sort_strings (mjoin (service_ports <$> (map_to_list services).*2)))
  end.
End ports.

(** ** The report *)
Record MigrateDiff := { Added : list string; Removed : list string; Common : list string }.
Record ProjectNameCheck := { Source : string; Target : string; Same : bool }.

Inductive sops_status := SopsNone | SopsOk | SopsUndecryptable | SopsSourceHad.
Record SopsCheck := { Status : sops_status; TargetAgePublicKey : string }.

(** The findings with what their messages name. *)
Inductive MigrateWarning :=
  | VolumeRemoved (v : string) | ServiceRemoved (s : string) | NetworkRemoved (n : string)
  | VolumeAdded (v : string) | ServiceAdded (s : string) | NetworkAdded (n : string)
  | ProjectNameChanged (source target : string) | PortConflict (ports : list string)
  | SopsWarning (targetKey : string) | SopsMissing.

Definition Severity (w : MigrateWarning) : string :=
  match w with
  | VolumeRemoved _ | PortConflict _ => "critical"
  | ServiceRemoved _ | ProjectNameChanged _ _ | SopsWarning _ | SopsMissing => "warn"
  | NetworkRemoved _ | VolumeAdded _ | ServiceAdded _ | NetworkAdded _ => "info"
  end.

Record MigratePreview := {
  SourceRepository : string; TargetRepository : string; Services : MigrateDiff; Volumes : MigrateDiff; Networks : MigrateDiff;
  ProjectName : ProjectNameCheck; Sops : SopsCheck; Warnings : list MigrateWarning }.

Definition diffSets (source target : list string) : MigrateDiff :=
  let '(added, removed, common) := SetDiff source target in {| Added := added; Removed := removed; Common := common |}.

Definition migrateWarnings (services volumes networks : MigrateDiff) (projectName : ProjectNameCheck) (sops : SopsCheck) (conflictingPorts : list string)
  : list MigrateWarning :=
  (VolumeRemoved <$> Removed volumes) ++ (ServiceRemoved <$> Removed services) ++ (NetworkRemoved <$> Removed networks) ++
  (VolumeAdded <$> Added volumes) ++ (ServiceAdded <$> Added services) ++ (NetworkAdded <$> Added networks) ++
  (if Same projectName then []
   else ProjectNameChanged (Source projectName) (Target projectName) :: (match conflictingPorts with [] => [] | l => [PortConflict l] end)) ++
  match Status sops with
  | SopsUndecryptable => [SopsWarning (TargetAgePublicKey sops)]
  | SopsSourceHad => [SopsMissing]
  | _ => []
  end.

(** A document and whether its numbers are float64. *)
Record config := { c_map : gmap string value; c_floats : bool }.

Definition buildMigratePreview (format0 : string → string) (sourceRepoID targetRepoID : string) (source target : config) (sops : SopsCheck) : MigratePreview :=
  let '(ss, sv, sn) := extractComposeResourceSets (c_map source) in
  let '(ts, tv, tn) := extractComposeResourceSets (c_map target) in
  let services := diffSets ss ts in
  let volumes := diffSets sv tv in
  let networks := diffSets sn tn in
  let a := composeProjectName (c_map source) in
  let b := composeProjectName (c_map target) in
  let projectName := {| Source := a; Target := b; Same := bool_decide (a = b) |} in
  let conflictingPorts := Common (diffSets (extractPublishedHostPorts format0 (c_floats source) (c_map source))
                                           (extractPublishedHostPorts format0 (c_floats target) (c_map target))) in
  {| SourceRepository := sourceRepoID; TargetRepository := targetRepoID; Services := services; Volumes := volumes; Networks := networks;
     ProjectName := projectName; Sops := sops; Warnings := migrateWarnings services volumes networks projectName sops conflictingPorts |}.

Section sops.
Context (Open : string → string → string → option string) (secretKey : string).
Context (yaml_load : string → option (gmap string value)) (show_num : string → option string) (sops_decrypt : process → string → string + string).
Context (open_root : string → (string → node) + bool).

Definition resolveSopsCheck (w : os_calls) (p : process) (destRepo : record) (destRoot destWorkDir sourceRoot sourceWorkDir : string) : SopsCheck * process :=
  let sourceHadSecrets := match FindSecretsFile open_root sourceRoot sourceWorkDir with inl path => bool_decide (path ≠ "") | inr _ => false end in
  match ReadSecretsFile open_root destRoot destWorkDir with
  | inr _ | inl None => ({| Status := if sourceHadSecrets then SopsSourceHad else SopsNone; TargetAgePublicKey := "" |}, p)
  | inl (Some (_, content)) =>
      let bad := {| Status := SopsUndecryptable; TargetAgePublicKey := GetString "sops_age_public_key" destRepo |} in
      let encryptedKey := GetString "sops_age_key" destRepo in
      if decide (encryptedKey = "") then (bad, p)
      else match Decrypt Open encryptedKey secretKey with
      | None => (bad, p)
      | Some ageKey =>
          match DecryptSecretsFile yaml_load show_num sops_decrypt w content ageKey p with
          | (inr _, p) => (bad, p)
          | (inl _, p) => ({| Status := SopsOk; TargetAgePublicKey := "" |}, p)
          end
      end
  end.
End sops.

(** internal/routes/helpers.go *)
Definition stackWorkDir (workspace : string) (stack : record) : string :=
  let importPath := GetString "import_path" stack in
  if decide (GetString "source_type" stack = "local" ∧ importPath ≠ "") then Dir importPath
  else
    let base := PathJoin workspace (GetString "repository" stack) in
    let composePath := GetString "compose_path" stack in
    if decide (ValidateComposePath composePath = None ∧ composePath ≠ "" ∧ composePath ≠ ".") then PathJoin base (Clean composePath) else base.

(** ** The move *)
Record migrateRequestBody := {
  Repository : string; ComposePath : string; ComposeFile : string; WireopsFile : string; Confirm : bool; TeardownOldProject : bool }.

Inductive dest_error := WireopsFileRequired | DestSource (err : source_error) | PathsRequired.

(** A teardown sent to a worker, and what came back: nothing, or the error the worker reports. *)
Record teardown := { td_worker : string; td_command : string; td_compose : string; td_env : string }.

Inductive migrate_answer :=
  | StackNotFound | InvalidBody | NotConfirmed | RepositoryRequired | SameRepository | RepositoryNotFound | StackSyncing | RepoAnswered
  | DestError (err : dest_error) | BadDestPath (err : path_error) | WorkerAnswered | TeardownFailed (err : string) | NotMigrated | MigrationStarted
  | EnvFailed | TargetConfigFailed | SourceConfigFailed | PreviewReport (p : MigratePreview).

(** What a request does, in this order: a teardown is sent, the changed stack is saved, the
    move is recorded (source and target repository, old and new path, whether the old
    project was torn down), a sync is triggered with the user's id. *)
Inductive event :=
  | TornDown (t : teardown) | Saved (r : record)
  | Recorded (stackID source target oldPath newPath : string) (tornDown : bool)
  | Synced (stackID trigger user : string).

Record world := { stacks : rows; events : list event }.

Section migrate.
Context `{UnicodeTables} (cwd workspace stackStorage : string).
Context (decode : string → option (Definition_ * JobFile.trailing)) (yaml_parse : string → option value).
Context (list_dir : string → option (list (string * bool))) (read_file : string → option string).

Definition resolveMigrateDestComposePaths (destRepoDir destRepoID : string) (wireopsManaged : bool) (body : migrateRequestBody) : (string * string) + dest_error :=
  if wireopsManaged then
    if decide (WireopsFile body = "") then inr WireopsFileRequired
    else match from_file cwd workspace decode yaml_parse list_dir read_file destRepoDir destRepoID (WireopsFile body) with
    | inr err => inr (DestSource err)
    | inl def => inl (ResolvedComposePath def, ResolvedComposeFile def)
    end
  else if decide (ComposePath body = "" ∧ ComposeFile body = "") then inr PathsRequired
  else inl (ComposePath body, if decide (ComposeFile body = "") then "docker-compose.yml" else ComposeFile body).

(** The checks both routes make of the destination. *)
Definition destination (setup : string → option string) (stack : record) (body : migrateRequestBody) : (string * (string * string)) + migrate_answer :=
  match setup (Repository body) with
  | None => inr RepoAnswered
  | Some destRepoDir =>
      let wireopsManaged := bool_decide (GetString "config_source" stack = "wireops_file") in
      match resolveMigrateDestComposePaths destRepoDir (Repository body) wireopsManaged body with
      | inr err => inr (DestError err)
      | inl (composePath, composeFile) =>
          match ValidateComposePath composePath, ValidateComposeFile composeFile with
          | Some err, _ => inr (BadDestPath err)
          | None, Some err => inr (BadDestPath err)
          | None, None => inl (destRepoDir, (composePath, composeFile))
          end
      end
  end.

(** [load_env]: the environment of the stack; [dispatch]: the output and the error of the
    worker's result, or that there is none. *)
Definition dispatchTeardownForMigration (load_env : list string + string) (dispatch : (string * string) + string) (stack : record)
  : (string + string) * list teardown :=
  let deployedVersion := GetInt "deployed_version" stack in
  if decide (deployedVersion = 0%Z) then (inl "", [])
  else match read_file (ProjectIdentity.GetRevisionFilePath stackStorage (Id stack) deployedVersion) with
  | None => (inr "failed to read deployed compose revision for teardown", [])
  | Some composeContent =>
      match load_env with
      | inr err => (inr ("failed to load env vars for teardown: " +:+ err), [])
      | inl envVars =>
          match ReconcileCore.buildEnvFileB64 envVars with
          | inr err => (inr ("failed to serialize env vars for teardown: " +:+ err), [])
          | inl envFileB64 =>
              let cmd := {| td_worker := GetString "worker" stack; td_command := "migrate-teardown-" +:+ Id stack;
                            td_compose := EncodeToString composeContent; td_env := envFileB64 |} in
              match dispatch with
              | inr err => (inr ("teardown dispatch failed: " +:+ err), [cmd])
              | inl (output, error) => if decide (error = "") then (inl output, [cmd]) else (inr ("worker teardown failed: " +:+ error), [cmd])
              end
          end
      end
  end.

Definition repointed (body : migrateRequestBody) (composePath composeFile : string) (wireopsManaged : bool) (txStack : record) : record :=
  let r := SetStr "compose_file" composeFile (SetStr "compose_path" composePath (SetStr "repository" (Repository body) txStack)) in
  let r := if wireopsManaged then SetStr "wireops_file_path" (WireopsFile body) r else r in
  SetStr "checksum" "" (SetStr "desired_commit" "" (SetStr "status" "pending" r)).

(** [lock]: the lock of the stack is free; [online]: the worker is, or has not answered
    for it; [saved]: the transaction commits.  The stack is read again in the transaction,
    which finds it as it was. *)
Definition migrate (lock online : bool) (saved : record → bool) (setup : string → option string) (load_env : list string + string)
  (dispatch : (string * string) + string) (repos : rows) (user stackID : string) (body : option migrateRequestBody) (s : world)
  : migrate_answer * world :=
  match FindById stackID (stacks s), body with
  | None, _ => (StackNotFound, s)
  | Some _, None => (InvalidBody, s)
  | Some stack, Some body =>
      if negb (Confirm body) then (NotConfirmed, s)
      else if decide (Repository body = "") then (RepositoryRequired, s)
      else if decide (Repository body = GetString "repository" stack) then (SameRepository, s)
      else match FindById (Repository body) repos with
      | None => (RepositoryNotFound, s)
      | Some _ =>
          if negb lock then (StackSyncing, s)
          else match destination setup stack body with
          | inr a => (a, s)
          | inl (_, (composePath, composeFile)) =>
              let '(torn, sent) := if TeardownOldProject body
                                   then if negb online then (inr None, [])
                                        else match dispatchTeardownForMigration load_env dispatch stack with
                                             | (inl out, sent) => (inl out, sent) | (inr err, sent) => (inr (Some err), sent) end
                                   else (inl "", []) in
              let s := {| stacks := stacks s; events := events s ++ (TornDown <$> sent) |} in
              match torn with
              | inr None => (WorkerAnswered, s)
              | inr (Some err) => (TeardownFailed err, s)
              | inl _ =>
                  let r := repointed body composePath composeFile (bool_decide (GetString "config_source" stack = "wireops_file")) stack in
                  if saved r then
                    (MigrationStarted,
                     {| stacks := upsert r (stacks s);
                        events := events s ++ [Saved r;
                          Recorded stackID (GetString "repository" stack) (Repository body) (GetString "compose_path" stack) composePath (TeardownOldProject body);
                          Synced stackID "migrate" user] |})
                  else (NotMigrated, s)
              end
          end
      end
  end.

(** [config_json]: docker compose config of a directory, a file and a root, parsed;
    [yaml_map]: a YAML document that is a mapping. *)
Definition resolveCurrentStackConfigMap (config_json : string → string → string → option (gmap string value)) (yaml_map : string → option (gmap string value))
  (stack : record) : option config :=
  let deployedVersion := GetInt "deployed_version" stack in
  let revision := if (0 <? deployedVersion)%Z
                  then read_file (ProjectIdentity.GetRevisionFilePath stackStorage (Id stack) deployedVersion) ≫= yaml_map else None in
  match revision with
  | Some m => Some {| c_map := m; c_floats := false |}
  | None =>
      let root := PathJoin workspace (GetString "repository" stack) in
      let composeFile := if decide (GetString "compose_file" stack = "") then "docker-compose.yml" else GetString "compose_file" stack in
      (λ m, {| c_map := m; c_floats := true |}) <$> config_json (stackWorkDir workspace stack) composeFile root
  end.

Definition migrate_preview (format0 : string → string) (check_sops : record → string → string → string → string → SopsCheck)
  (config_json : string → string → string → option (gmap string value)) (yaml_map : string → option (gmap string value))
  (setup : string → option string) (load_env : list string + string) (repos : rows) (stackID : string) (body : option migrateRequestBody) (t : rows)
  : migrate_answer :=
  match FindById stackID t, body with
  | None, _ => StackNotFound
  | Some _, None => InvalidBody
  | Some stack, Some body =>
      if decide (Repository body = "") then RepositoryRequired
      else if decide (Repository body = GetString "repository" stack) then SameRepository
      else match FindById (Repository body) repos with
      | None => RepositoryNotFound
      | Some destRepo =>
          match destination setup stack body with
          | inr a => a
          | inl (destRepoDir, (composePath, composeFile)) =>
              match load_env with
              | inr _ => EnvFailed
              | inl _ =>
                  let destWorkDir := work_dir destRepoDir composePath in
                  match config_json destWorkDir composeFile destRepoDir with
                  | None => TargetConfigFailed
                  | Some target =>
                      match resolveCurrentStackConfigMap config_json yaml_map stack with
                      | None => SourceConfigFailed
                      | Some source =>
                          let sourceRoot := PathJoin workspace (GetString "repository" stack) in
                          let sops := check_sops destRepo destRepoDir destWorkDir sourceRoot (stackWorkDir workspace stack) in
                          PreviewReport (buildMigratePreview format0 (GetString "repository" stack) (Repository body) source {| c_map := target; c_floats := true |} sops)
                      end
                  end
              end
          end
      end
  end.
End migrate.

(** ** What the report says *)
Lemma elem_of_names section config v : v ∈ names_of section config ↔ ∃ m, get_map section config = Some m ∧ is_Some (m !! v).
Proof.
  unfold names_of. destruct (get_map section config) as [m|]; [|split; [by intros ?%elem_of_nil|by intros (? & ? & _)]].
  rewrite elem_of_sorted_keys. split; [intros Hv; exists m; done|by intros (? & [= <-] & ?)].
Qed.

Lemma elem_of_compact l x : x ∈ compact l ↔ x ∈ l.
Proof.
  induction l as [|a l IH]; [done|]. destruct l as [|b l]; [done|]. cbn [compact] in *. destruct (decide (a = b)) as [->|Hab].
  - rewrite IH !elem_of_cons. tauto.
  - rewrite elem_of_cons IH !elem_of_cons. tauto.
Qed.

(** A host port with its protocol some service of the document publishes. *)
Definition publishes (format0 : string → string) (c : config) (port : string) : Prop :=
  ∃ services svc m item, get_map "services" (c_map c) = Some services ∧ (∃ name, services !! name = Some svc) ∧ svc = VMap m ∧
    item ∈ default [] (get_list "ports" m) ∧ published_port format0 (c_floats c) item = Some port.

Lemma elem_of_ports format0 c port : port ∈ extractPublishedHostPorts format0 (c_floats c) (c_map c) ↔ publishes format0 c port.
Proof.
  unfold extractPublishedHostPorts, publishes. destruct (get_map "services" (c_map c)) as [services|]; [|split; [by intros ?%elem_of_nil|naive_solver]].
  rewrite elem_of_compact elem_of_sort_strings list_elem_of_join. split.
  - intros (l & Hp & Hl). apply list_elem_of_fmap in Hl as (svc & -> & Hs). apply list_elem_of_fmap in Hs as ([name v] & -> & Hv%elem_of_map_to_list).
    simpl in Hp. unfold service_ports in Hp. destruct v as [| | | | |m]; try by apply elem_of_nil in Hp.
    apply list_elem_of_omap in Hp as (item & Hi & Hp). exists services, (VMap m), m, item. split_and!; eauto.
  - intros (? & svc & m & item & [= <-] & [name Hn] & -> & Hi & Hp). exists (service_ports format0 (c_floats c) (VMap m)). split.
    + simpl. apply list_elem_of_omap. eauto.
    + apply list_elem_of_fmap. exists (VMap m). split; [done|]. apply list_elem_of_fmap. exists (name, VMap m). split; [done|]. by apply elem_of_map_to_list.
Qed.

Lemma diffSets_spec a b v : (v ∈ Added (diffSets a b) ↔ v ∈ b ∧ v ∉ a) ∧ (v ∈ Removed (diffSets a b) ↔ v ∈ a ∧ v ∉ b) ∧
  (v ∈ Common (diffSets a b) ↔ v ∈ a ∧ v ∈ b) ∧ NoDup (Common (diffSets a b)).
Proof.
  unfold diffSets. destruct (SetDiff a b) as [[added removed] common] eqn:Hd.
  destruct (SetDiff_spec _ _ _ _ _ Hd) as (H1 & H2 & H3 & _ & _ & H6 & _). split_and!; [apply H1|apply H2|apply H3|done].
Qed.

(** The warnings that are critical are the volumes whose data is left behind and, when the
    project is renamed, the host ports that both projects publish: all of them and no
    others. *)
Theorem preview_critical_exact format0 src dst source target sops w :
  let p := buildMigratePreview format0 src dst source target sops in
  (w ∈ Warnings p ∧ Severity w = "critical") ↔
  (∃ v, w = VolumeRemoved v ∧ v ∈ names_of "volumes" (c_map source) ∧ v ∉ names_of "volumes" (c_map target)) ∨
  (composeProjectName (c_map source) ≠ composeProjectName (c_map target) ∧
   ∃ ports, w = PortConflict ports ∧ ports ≠ [] ∧
     ports = Common (diffSets (extractPublishedHostPorts format0 (c_floats source) (c_map source)) (extractPublishedHostPorts format0 (c_floats target) (c_map target))) ∧
     NoDup ports ∧ ∀ port, port ∈ ports ↔ publishes format0 source port ∧ publishes format0 target port).
Proof.
  cbv zeta. unfold buildMigratePreview, extractComposeResourceSets. cbv zeta. cbn [Warnings]. unfold migrateWarnings.
  set (cs := Common _). assert (∀ port, port ∈ cs ↔ publishes format0 source port ∧ publishes format0 target port) as Hcs.
  { intros port. unfold cs. destruct (diffSets_spec (extractPublishedHostPorts format0 (c_floats source) (c_map source))
      (extractPublishedHostPorts format0 (c_floats target) (c_map target)) port) as (_ & _ & -> & _). by rewrite !elem_of_ports. }
  assert (NoDup cs) as Hnd by (unfold cs; by eapply (diffSets_spec _ _ "")).
  rewrite !elem_of_app. cbn [Same Source Target]. split.
  - intros [Hw Hs]. destruct Hw as [Hw|[Hw|[Hw|[Hw|[Hw|[Hw|[Hw|Hw]]]]]]];
      try (apply list_elem_of_fmap in Hw as (v & -> & Hv); simpl in Hs; first [done|left; exists v; split; [done|]; by apply diffSets_spec in Hv]).
    + case_bool_decide as Hn; [by apply elem_of_nil in Hw|]. right. split; [done|]. apply elem_of_cons in Hw as [->|Hw]; [done|].
      revert Hw. clearbody cs. destruct cs as [|x l]; [by intros ?%elem_of_nil|]. intros ->%list_elem_of_singleton. exists (x :: l). split_and!; done.
    + destruct (Status sops); try (by apply elem_of_nil in Hw); apply list_elem_of_singleton in Hw as ->; done.
  - intros [(v & -> & Hv)|(Hn & ports & -> & Hne & -> & _)].
    + split; [|done]. left. apply list_elem_of_fmap. exists v. split; [done|]. by apply diffSets_spec.
    + split; [|done]. do 6 right. left. rewrite bool_decide_eq_false_2 //. right. fold cs in Hne |- *. destruct cs; [done|]. by left.
Qed.

(** A target whose secrets file is a link, or cannot be read, is reported like one without. *)
Theorem unreadable_secrets_not_reported Open secretKey yaml_load show_num sops_decrypt open_root w p repo destRoot destWorkDir sourceRoot sourceWorkDir err :
  ReadSecretsFile open_root destRoot destWorkDir = inr err → FindSecretsFile open_root sourceRoot sourceWorkDir = inl "" →
  (resolveSopsCheck Open secretKey yaml_load show_num sops_decrypt open_root w p repo destRoot destWorkDir sourceRoot sourceWorkDir).1
    = {| Status := SopsNone; TargetAgePublicKey := "" |}.
Proof. intros Hr Hf. unfold resolveSopsCheck. by rewrite Hr Hf. Qed.

(** ** What a move does *)
Section exact.
Context `{UnicodeTables} (cwd workspace stackStorage : string).
Context (decode : string → option (Definition_ * JobFile.trailing)) (yaml_parse : string → option value).
Context (list_dir : string → option (list (string * bool))) (read_file : string → option string).
Context (setup : string → option string) (load_env : list string + string) (dispatch : (string * string) + string) (repos : rows).

Abbreviation move := (migrate cwd workspace stackStorage decode yaml_parse list_dir read_file).
Abbreviation dest := (destination cwd workspace decode yaml_parse list_dir read_file setup).
Abbreviation tear := (dispatchTeardownForMigration stackStorage read_file load_env dispatch).

(** At most one teardown, of the deployed revision, to the worker of the stack. *)
Lemma teardown_sent stack out sent : tear stack = (out, sent) →
  sent = [] ∨ ∃ content env, sent = [{| td_worker := GetString "worker" stack; td_command := "migrate-teardown-" +:+ Id stack; td_compose := EncodeToString content; td_env := env |}] ∧
    read_file (ProjectIdentity.GetRevisionFilePath stackStorage (Id stack) (GetInt "deployed_version" stack)) = Some content.
Proof.
  unfold dispatchTeardownForMigration. case_decide; [intros [= <- <-]; by left|]. destruct (read_file _) as [content|]; [|intros [= <- <-]; by left].
  destruct load_env as [envs|]; [|intros [= <- <-]; by left]. destruct (ReconcileCore.buildEnvFileB64 envs) as [env|]; [|intros [= <- <-]; by left].
  destruct dispatch as [[output error]|]; [case_decide|]; intros [= <- <-]; right; eauto.
Qed.

Lemma repointed_spec body path file managed r : let r' := repointed body path file managed r in
  Id r' = Id r ∧ GetString "repository" r' = Repository body ∧ GetString "compose_path" r' = path ∧ GetString "compose_file" r' = file ∧
  GetString "status" r' = "pending" ∧ GetString "desired_commit" r' = "" ∧ GetString "checksum" r' = "" ∧
  (managed = true → GetString "wireops_file_path" r' = WireopsFile body) ∧
  ∀ k, k ∉ ["repository"; "compose_path"; "compose_file"; "status"; "desired_commit"; "checksum"] → (managed = true → k ≠ "wireops_file_path") →
    fields r' !! k = fields r !! k.
Proof.
  unfold repointed. cbv zeta. destruct managed; split_and!; try done; try (by field_simpl).
  - intros k Hk Hm. specialize (Hm eq_refl). rewrite !not_elem_of_cons in Hk. destruct Hk as (? & ? & ? & ? & ? & ? & _). by rewrite !fields_SetField_ne.
  - intros k Hk _. rewrite !not_elem_of_cons in Hk. destruct Hk as (? & ? & ? & ? & ? & ? & _). by rewrite !fields_SetField_ne.
Qed.

(** A destination that is refused never answers that the move has started. *)
Lemma destination_refused stack b a : dest stack b = inr a → a = RepoAnswered ∨ (∃ err, a = DestError err) ∨ ∃ err, a = BadDestPath err.
Proof.
  unfold destination. destruct (setup _) as [dir|]; [|intros [= <-]; by left]. cbv zeta.
  destruct (resolveMigrateDestComposePaths _ _ _ _ _ _ _ _ _ _) as [[path file]|err]; [|intros [= <-]; right; left; by exists err].
  destruct (ValidateComposePath path) as [err|]; [intros [= <-]; right; right; by exists err|].
  destruct (ValidateComposeFile file) as [err|]; [intros [= <-]; right; right; by exists err|done].
Qed.

(** What the teardown step of a move sends: nothing unless it is asked for, the worker is
    online and the stack has a deployed revision. *)
Definition teardown_step (online : bool) (b : migrateRequestBody) (stack : record) : (string + option string) * list teardown :=
  if TeardownOldProject b
  then if negb online then (inr None, [])
       else match tear stack with (inl out, sent) => (inl out, sent) | (inr err, sent) => (inr (Some err), sent) end
  else (inl "", []).

Lemma teardown_step_spec online b stack out sent : teardown_step online b stack = (out, sent) →
  length sent ≤ 1 ∧ (TeardownOldProject b = false → sent = []) ∧
  (TeardownOldProject b = true → ∀ o, out = inl o → online = true ∧ tear stack = (inl o, sent)).
Proof.
  unfold teardown_step. destruct (TeardownOldProject b); [|intros [= <- <-]; by split_and!; [simpl; lia| |]].
  destruct online; simpl; [|intros [= <- <-]; by split_and!; [simpl; lia| |]].
  destruct (tear stack) as [[o|err] l] eqn:Ht; intros [= <- <-]; (split_and!; [|done|]).
  - destruct (teardown_sent _ _ _ Ht) as [->|(? & ? & -> & _)]; simpl; lia.
  - by intros _ ? [= ->].
  - destruct (teardown_sent _ _ _ Ht) as [->|(? & ? & -> & _)]; simpl; lia.
  - done.
Qed.

(** The teardown of a move: the deployed revision, sent once to the worker of the stack,
    which did not report an error; none when nothing is deployed. *)
Definition old_project_down (stack : record) (sent : list teardown) : Prop :=
  let v := GetInt "deployed_version" stack in
  v = 0%Z ∧ sent = [] ∨
  v ≠ 0%Z ∧ ∃ content env out, read_file (ProjectIdentity.GetRevisionFilePath stackStorage (Id stack) v) = Some content ∧ dispatch = inl (out, "") ∧
    sent = [{| td_worker := GetString "worker" stack; td_command := "migrate-teardown-" +:+ Id stack; td_compose := EncodeToString content; td_env := env |}].

Lemma teardown_ok stack out sent : tear stack = (inl out, sent) → old_project_down stack sent.
Proof.
  unfold dispatchTeardownForMigration, old_project_down. cbv zeta. case_decide; [intros [= _ <-]; by left|].
  destruct (read_file _) as [content|]; [|done]. destruct load_env as [envs|]; [|done].
  destruct (ReconcileCore.buildEnvFileB64 envs) as [env|]; [|done]. destruct dispatch as [[output error]|]; [|done].
  case_decide as He; [|done]. intros [= _ <-]. right. split; [done|]. exists content, env, output. by rewrite He.
Qed.

(** The record of the moved stack: its source is the new one, its sync state is reset, and
    nothing else is changed. *)
Record moved_to (b : migrateRequestBody) (path file : string) (stack r : record) : Prop := {
  mt_id : Id r = Id stack;
  mt_repository : GetString "repository" r = Repository b;
  mt_path : GetString "compose_path" r = path;
  mt_file : GetString "compose_file" r = file;
  mt_definition : GetString "config_source" stack = "wireops_file" → GetString "wireops_file_path" r = WireopsFile b;
  mt_status : GetString "status" r = "pending";
  mt_commit : GetString "desired_commit" r = "";
  mt_checksum : GetString "checksum" r = "";
  mt_frame : ∀ k, k ∉ ["repository"; "compose_path"; "compose_file"; "status"; "desired_commit"; "checksum"] →
    k = "wireops_file_path" ∧ GetString "config_source" stack = "wireops_file" ∨ fields r !! k = fields stack !! k }.

(** Where the stack goes: a checkout of the repository and a path that stays in it, taken
    from the definition found there for a stack that has one, and from the request, without
    a look at the checkout, for the others. *)
Definition destined (b : migrateRequestBody) (stack : record) (path file : string) : Prop :=
  ∃ dir, setup (Repository b) = Some dir ∧ (dir ≠ "" → inside dir (PathJoin dir path)) ∧ ValidateComposeFile file = None ∧
    if decide (GetString "config_source" stack = "wireops_file")
    then ∃ def, from_file cwd workspace decode yaml_parse list_dir read_file dir (Repository b) (WireopsFile b) = inl def ∧
           path = ResolvedComposePath def ∧ file = ResolvedComposeFile def
    else path = ComposePath b ∧ file = (if decide (ComposeFile b = "") then "docker-compose.yml" else ComposeFile b).

Lemma destination_ok stack b dir path file : dest stack b = inl (dir, (path, file)) → destined b stack path file.
Proof.
  unfold destination, resolveMigrateDestComposePaths, destined. destruct (setup _) as [d|]; [|done]. cbv zeta. intros Hd. exists d. split; [done|].
  case_bool_decide as Hm; [rewrite decide_True //|rewrite decide_False //].
  - destruct (decide (WireopsFile b = "")); [done|]. destruct (from_file _ _ _ _ _ _ _ _ _) as [def|]; [|done].
    destruct (ValidateComposePath (ResolvedComposePath def)) eqn:Hp; [done|]. destruct (ValidateComposeFile (ResolvedComposeFile def)) eqn:Hf; [done|].
    injection Hd as <- <- <-. split_and!; [|done|by exists def]. intros Hne. by apply compose_path_contained.
  - destruct (decide (_ ∧ _)); [done|]. destruct (ValidateComposePath (ComposePath b)) eqn:Hp; [done|].
    match type of Hd with context [ValidateComposeFile ?f] => destruct (ValidateComposeFile f) eqn:Hf end; [done|].
    injection Hd as <- <- <-. split_and!; [|done..]. intros Hne. by apply compose_path_contained.
Qed.

Lemma repointed_moved b path file stack :
  moved_to b path file stack (repointed b path file (bool_decide (GetString "config_source" stack = "wireops_file")) stack).
Proof.
  destruct (repointed_spec b path file (bool_decide (GetString "config_source" stack = "wireops_file")) stack) as (H1 & H2 & H3 & H4 & H5 & H6 & H7 & H8 & H9).
  split; try done.
  - intros Hc. by apply H8, bool_decide_eq_true.
  - intros k Hk. destruct (decide (k = "wireops_file_path" ∧ GetString "config_source" stack = "wireops_file")) as [Hd|Hd]; [by left|].
    right. apply H9; [done|]. intros Hb%bool_decide_eq_true ->. by apply Hd.
Qed.

(** C20: A move that starts was confirmed, is to another repository that exists, and happens
    with the lock of the stack.  It changes the source of the stack as asked, or as the
    definition in the new repository says, resets its sync state and keeps every other
    field and every other stack; the old project is torn down exactly when asked, before
    the record is saved, and one sync follows.  Any other answer changes no stack and
    triggers nothing; at most a teardown that was asked for was sent. *)
Theorem move_exact lock online saved user stackID body s a s' :
  move lock online saved setup load_env dispatch repos user stackID body s = (a, s') →
  match a with
  | MigrationStarted => ∃ stack b path file r sent, FindById stackID (stacks s) = Some stack ∧ body = Some b ∧ Confirm b = true ∧ lock = true ∧
      Repository b ≠ GetString "repository" stack ∧ is_Some (FindById (Repository b) repos) ∧ destined b stack path file ∧
      moved_to b path file stack r ∧ FindById stackID (stacks s') = Some r ∧ (∀ x, Id x ≠ stackID → x ∈ stacks s' ↔ x ∈ stacks s) ∧
      (if TeardownOldProject b then online = true ∧ old_project_down stack sent else sent = []) ∧
      events s' = events s ++ (TornDown <$> sent) ++
        [Saved r; Recorded stackID (GetString "repository" stack) (Repository b) (GetString "compose_path" stack) path (TeardownOldProject b);
         Synced stackID "migrate" user]
  | _ => stacks s' = stacks s ∧ ∃ sent, events s' = events s ++ (TornDown <$> sent) ∧ length sent ≤ 1 ∧
      ∀ b, body = Some b → TeardownOldProject b = false → sent = []
  end.
Proof.
  assert (stacks s = stacks s ∧ ∃ sent, events s = events s ++ (TornDown <$> sent) ∧ length sent ≤ 1 ∧
      ∀ b, body = Some b → TeardownOldProject b = false → sent = []) as Hsame.
  { split; [done|]. exists []. rewrite app_nil_r. split_and!; [done|simpl; lia|done]. }
  unfold migrate. destruct (FindById stackID (stacks s)) as [stack|] eqn:Hf; [|intros [= <- <-]; exact Hsame].
  destruct body as [b|]; [|intros [= <- <-]; exact Hsame].
  destruct (Confirm b) eqn:Hcf; simpl negb; cbv iota; [|intros [= <- <-]; exact Hsame].
  destruct (decide (Repository b = "")); [intros [= <- <-]; exact Hsame|].
  destruct (decide (Repository b = GetString "repository" stack)) as [|Hne]; [intros [= <- <-]; exact Hsame|].
  destruct (FindById (Repository b) repos) as [repo|] eqn:Hrepo; [|intros [= <- <-]; exact Hsame].
  destruct lock; simpl negb; cbv iota; [|intros [= <- <-]; exact Hsame].
  destruct (dest stack b) as [[dir [path file]]|a0] eqn:Hd.
  2: { intros [= <- <-]. destruct (destination_refused _ _ _ Hd) as [->|[[? ->]|[? ->]]]; exact Hsame. }
  fold (teardown_step online b stack). destruct (teardown_step online b stack) as [out sent] eqn:Ht.
  apply teardown_step_spec in Ht as (Hlen & Hno & Hyes). cbv zeta.
  assert (∀ b0, Some b = Some b0 → TeardownOldProject b0 = false → sent = []) as Hno' by (intros ? [= <-]; exact Hno).
  destruct out as [out|[err|]]; [|intros [= <- <-]; (split; [done|by exists sent])..].
  destruct (saved _); intros [= <- <-]; [|split; [done|by exists sent]].
  pose proof (repointed_moved b path file stack) as Hm. destruct (FindById_Some _ _ _ Hf) as [_ Hs].
  eexists stack, b, path, file, _, sent. split_and!; try done; [by eapply destination_ok|..].
  - cbn [stacks]. rewrite -Hs -(mt_id _ _ _ _ _ Hm). apply FindById_upsert.
  - intros x Hx. cbn [stacks]. rewrite elem_of_upsert (mt_id _ _ _ _ _ Hm) Hs. split; [|by right].
    intros [->|[? _]]; [|done]. by rewrite (mt_id _ _ _ _ _ Hm) Hs in Hx.
  - destruct (TeardownOldProject b); [|by apply Hno]. destruct (Hyes eq_refl out eq_refl) as [-> Htear]. split; [done|]. by eapply teardown_ok.
  - cbn [events]. by rewrite -assoc_L.
Qed.
End exact.

(** ** Where a move leaves the stack inconsistent *)
Section findings.
Context `{UnicodeTables} (cwd workspace stackStorage : string).
Context (decode : string → option (Definition_ * JobFile.trailing)) (yaml_parse : string → option value).
Context (list_dir : string → option (list (string * bool))) (read_file : string → option string).
Context (setup : string → option string) (load_env : list string + string) (dispatch : (string * string) + string) (repos : rows).

(** The old project is torn down before the record is saved: when the save fails, the
    stack keeps the record of a deployed project that no longer runs. *)
Theorem torn_down_but_not_moved online saved user stackID b s s' :
  migrate cwd workspace stackStorage decode yaml_parse list_dir read_file true online saved setup load_env dispatch repos user stackID (Some b) s = (NotMigrated, s') →
  TeardownOldProject b = true →
  ∃ stack, FindById stackID (stacks s) = Some stack ∧ FindById stackID (stacks s') = Some stack ∧
    ∃ out sent, dispatchTeardownForMigration stackStorage read_file load_env dispatch stack = (inl out, sent) ∧ events s' = events s ++ (TornDown <$> sent).
Proof.
  unfold migrate. intros Hm Ht. destruct (FindById stackID (stacks s)) as [stack|] eqn:Hf; [|done]. exists stack. split; [done|]. revert Hm.
  destruct (Confirm b); simpl negb; cbv iota; [|done]. destruct (decide (Repository b = "")); [done|].
  destruct (decide (Repository b = GetString "repository" stack)); [done|]. destruct (FindById (Repository b) repos); [|done].
  destruct (destination _ _ _ _ _ _ _ _ _) as [[dir [path file]]|a0] eqn:Hd.
  2: { intros [= -> _]. destruct (destination_refused _ _ _ _ _ _ _ _ _ _ Hd) as [?|[[? ?]|[? ?]]]; done. }
  rewrite Ht. destruct online; simpl negb; cbv iota; [|done].
  destruct (dispatchTeardownForMigration _ _ _ _ _) as [[out|err] sent]; cbv zeta; [|done].
  destruct (saved _); [done|]. intros [= <-]. by eauto.
Qed.
End findings.

(** Every move of a stack sends its teardown under one command id: a worker that answered
    it within its retention time answers the next one from its cache, whatever project
    that one is to stop. *)
Theorem second_move_not_torn_down stackStorage read_file load_env dispatch stack out t w e messageID :
  dispatchTeardownForMigration stackStorage read_file load_env dispatch stack = (out, [t]) →
  td_command t ∉ DurableCommands.ActiveCommands w → DurableCommands.completedDurableCommands w !! ("migrate-teardown-" +:+ Id stack) = Some e →
  DurableCommands.fresh e w = true →
  (DurableCommands.beginDurableCommand (td_command t) messageID w).1 = false.
Proof.
  intros Ht Ha Hc Hf. destruct (teardown_sent _ _ _ _ _ _ _ Ht) as [?|(content & env & [= ->] & _)]; [done|].
  by rewrite (DurableCommands.cached_is_replayed _ _ _ e).
Qed.

(** ** Witness *)
#[local] Instance any_printable : UnicodeTables := λ _, true.

Definition old_stack : record :=
  SetInt "deployed_version" 3 (SetStr "worker" "w1" (SetStr "compose_path" "old" (SetStr "repository" "r0" {| Id := "s1"; fields := ∅ |}))).

Definition ask : migrateRequestBody :=
  {| Repository := "r1"; ComposePath := "web"; ComposeFile := ""; WireopsFile := ""; Confirm := true; TeardownOldProject := true |}.

Definition revision_file (p : string) : option string := if decide (p = ProjectIdentity.GetRevisionFilePath "/stacks" "s1" 3) then Some "services: {}" else None.

Definition other : record := {| Id := "s2"; fields := ∅ |}.

Definition moved (lock online saved : bool) : migrate_answer * world :=
  migrate "/srv" "/repos" "/stacks" repo_decode repo_yaml repo_dir revision_file lock online (λ _, saved) (λ id, Some (PathJoin "/repos" id)) (inl []) (inl ("down", ""))
    [{| Id := "r1"; fields := ∅ |}] "u1" "s1" (Some ask) {| stacks := [old_stack; other]; events := [] |}.

Definition torn (e : event) : option string := match e with TornDown t => Some (td_command t) | _ => None end.

Lemma move_exact_witness :
  (moved true true true).1 = MigrationStarted ∧ omap torn (events (moved true true true).2) = ["migrate-teardown-s1"] ∧
  (moved false true true).1 = StackSyncing ∧ (moved true false true).1 = WorkerAnswered ∧
  ∃ r sent path, FindById "s1" (stacks (moved true true true).2) = Some r ∧
    events (moved true true true).2 = (TornDown <$> sent) ++ [Saved r; Recorded "s1" "r0" "r1" "old" path true; Synced "s1" "migrate" "u1"].
Proof.
  split_and!; [vm_compute; reflexivity..|].
  pose proof (move_exact "/srv" "/repos" "/stacks" repo_decode repo_yaml repo_dir revision_file (λ id, Some (PathJoin "/repos" id)) (inl []) (inl ("down", ""))
    [{| Id := "r1"; fields := ∅ |}] true true (λ _, true) "u1" "s1" (Some ask) {| stacks := [old_stack; other]; events := [] |}
    (moved true true true).1 (moved true true true).2 (surjective_pairing _)) as H.
  replace (moved true true true).1 with MigrationStarted in H by (vm_compute; reflexivity).
  destruct H as (stack & b & path & file & r & sent & Hs & Hb & _ & _ & _ & _ & _ & _ & Hr & _ & _ & Hsy). vm_compute in Hs. injection Hs as <-.
  injection Hb as <-. exists r, sent, path. split; [exact Hr|exact Hsy].
Defined.

Lemma torn_down_but_not_moved_witness :
  omap torn (events (moved true true false).2) = ["migrate-teardown-s1"] ∧
  ∃ stack, FindById "s1" (stacks (moved true true false).2) = Some stack.
Proof.
  split; [vm_compute; reflexivity|].
  destruct (torn_down_but_not_moved "/srv" "/repos" "/stacks" repo_decode repo_yaml repo_dir revision_file (λ id, Some (PathJoin "/repos" id)) (inl []) (inl ("down", ""))
    [{| Id := "r1"; fields := ∅ |}] true (λ _, false) "u1" "s1" ask {| stacks := [old_stack; other]; events := [] |}
    (moved true true false).2) as (stack & _ & H & _); [vm_compute; reflexivity..|]. exists stack. exact H.
Defined.
