(* ===== verification/StackRoutes.v ===== *)
(** * internal/routes/stack_routes.go, stack_observability.go: the routes of a stack

    What the handlers do with a stack: the overrides of a render, the triggers of a sync,
    a rollback, a redeploy and a transfer, the commands sent to its worker, the import of
    a project, the current compose file, the health of what is deployed, and the deletion
    of the stack with its teardown.  Each handler takes the site as it is and returns the
    answer and the site it leaves; what the worker, the disk and the database answer are
    arguments. *)
From Stdlib Require Import ZArith.
From S2P Require Import Prelude GoStrings GoPath GoFmt GoBase64 GoValue ComposeDoc SafePath PbRecord PbTable StackDefs StackMigrate.
From S2P Require Policy PolicyCompose Overrides Health ComposeRun ReconcileCore ProjectIdentity DurableCommands WorkerQueries.

Inductive command :=
  | GetStatusCommand (CommandID StackID ProjectName : string)
  | ContainerActionCommand (CommandID StackID ProjectName ContainerID : string)
  | GetContainerStatsCommand (CommandID StackID ProjectName ContainerID : string)
  | GetContainerLogsCommand (CommandID StackID ProjectName ContainerID Tail Since Until Pattern : string)
  | ReadFileCommand (CommandID Path : string)
  | TeardownCommand (CommandID StackID ComposeFileB64 EnvFileB64 : string).

(** What the scheduler is asked to start. *)
Inductive trigger :=
  | TriggerSync (stackID reason user : string)
  | TriggerRollback (stackID commit user : string)
  | TriggerForceRedeploy (stackID : string) (containers volumes networks pause : bool) (user : string)
  | TriggerTransfer (stackID target user : string).

(** The tables that name a stack besides its own, the stored revisions, the stacks the
    scheduler knows, and what was sent and started. *)
Record site := {
  s_stacks : rows; s_workers : rows; s_tables : gmap string rows; s_disk : gmap string string;
  s_scheduled : gset string; s_sent : list (string * command); s_started : list trigger }.

Definition with_stacks (t : rows) (s : site) : site :=
  {| s_stacks := t; s_workers := s_workers s; s_tables := s_tables s; s_disk := s_disk s; s_scheduled := s_scheduled s; s_sent := s_sent s; s_started := s_started s |}.
Definition with_tables (t : gmap string rows) (s : site) : site :=
  {| s_stacks := s_stacks s; s_workers := s_workers s; s_tables := t; s_disk := s_disk s; s_scheduled := s_scheduled s; s_sent := s_sent s; s_started := s_started s |}.
Definition with_disk (d : gmap string string) (s : site) : site :=
  {| s_stacks := s_stacks s; s_workers := s_workers s; s_tables := s_tables s; s_disk := d; s_scheduled := s_scheduled s; s_sent := s_sent s; s_started := s_started s |}.
Definition unscheduled (stackID : string) (s : site) : site :=
  {| s_stacks := s_stacks s; s_workers := s_workers s; s_tables := s_tables s; s_disk := s_disk s; s_scheduled := s_scheduled s ∖ {[stackID]};
     s_sent := s_sent s; s_started := s_started s |}.
Definition send_to (worker : string) (c : command) (s : site) : site :=
  {| s_stacks := s_stacks s; s_workers := s_workers s; s_tables := s_tables s; s_disk := s_disk s; s_scheduled := s_scheduled s;
     s_sent := s_sent s ++ [(worker, c)]; s_started := s_started s |}.
Definition start (t : trigger) (s : site) : site :=
  {| s_stacks := s_stacks s; s_workers := s_workers s; s_tables := s_tables s; s_disk := s_disk s; s_scheduled := s_scheduled s; s_sent := s_sent s;
     s_started := s_started s ++ [t] |}.

(** The result of a dispatch: the output and the error of the worker, or why there is none. *)
Abbreviation result := ((string * string) + string)%type.

(** ** Answers *)
Inductive reply :=
  | MissingId | StackUnknown | ServiceUnavailable | WorkerRefused (err : string) | WorkerOffline (hostname : string) | ProjectUnknown (err : string)
  | BadBody | OverridesEmpty | PolicyUnavailable | OverridesDisabled | ComposeFileRefused (err : path_error) | EnvUnavailable (err : string)
  | ConfigUnresolved (err : string) | UnknownService (name : string) | OverrideRefused (err : Overrides.override_error)
  | PolicyRefused (err : PolicyCompose.message) | NotSaved | Triggered
  | CommitRequired | TargetRequired | SameWorker | TargetOffline (host : string) | TransferStarted
  | ContainerRequired | NotDispatched (err : string) | WorkerFailed (forbidden : bool) (err : string) | Stopped | Restarted | Stats (raw : string)
  | ImportIncomplete | ImportNotAbsolute | ImportNotYaml | ImportTraversal | WorkerUnknown | ImportUnreadable (err : string) | ImportTriggered (id : string)
  | NoWorkerAssigned | RevisionUnreadable | EnvNotSerialized (err : string) | TeardownUndelivered (err : string) | TeardownRefused (err output : string)
  | RelatedNotRead (table : string) | RelatedNotDeleted (table id : string) | StackNotDeleted | StackDeleted (output : string) | Panic
  | ComposeContent (content filename : string) | ComposeTooLarge | ComposePathRefused (err : path_error) | ComposeNotFound | ComposeUndecodable
  | BadVersion | RevisionNotFound.

(** The status of an answer that is no success, and whether it is one. *)
Definition status_of (r : reply) : Z :=
  match r with
  | MissingId | WorkerRefused _ | BadBody | OverridesEmpty | ComposeFileRefused _ | ConfigUnresolved _ | UnknownService _ | OverrideRefused _ | PolicyRefused _
  | CommitRequired | TargetRequired | SameWorker | ContainerRequired | ImportIncomplete | ImportNotAbsolute | ImportNotYaml | ImportTraversal | WorkerUnknown
  | ImportUnreadable _ | NoWorkerAssigned | ComposePathRefused _ | BadVersion => 400%Z
  | OverridesDisabled => 403%Z
  | StackUnknown | ComposeNotFound | RevisionNotFound => 404%Z
  | ProjectUnknown _ => 409%Z
  | ComposeTooLarge => 422%Z
  | PolicyUnavailable | EnvUnavailable _ | NotSaved | RevisionUnreadable | EnvNotSerialized _ | TeardownUndelivered _ | TeardownRefused _ _
  | RelatedNotRead _ | RelatedNotDeleted _ _ | StackNotDeleted | Panic | ComposeUndecodable => 500%Z
  | WorkerFailed forbidden _ => if forbidden then 403%Z else 500%Z
  | ServiceUnavailable | WorkerOffline _ | TargetOffline _ | NotDispatched _ => 503%Z
  | TransferStarted => 202%Z
  | Triggered | Stopped | Restarted | Stats _ | ImportTriggered _ | StackDeleted _ | ComposeContent _ _ => 200%Z
  end.

(** ** The stack of a request and its worker (routes_register.go) *)
Section routes.
(** The worker service, when there is one: which workers are connected. *)
Context (workerSvc : option (string → bool)).

Definition resolveWorker (workers : rows) (workerID : string) : record + string :=
  if decide (workerID = "") then inr "stack has no worker assigned"
  else match FindById workerID workers with Some worker => inl worker | None => inr ("worker " +:+ workerID +:+ " not found") end.

(** Nothing, or the answer already given. *)
Definition workerOnline (stackID : string) (s : site) : option reply :=
  match workerSvc with
  | None => Some ServiceUnavailable
  | Some IsConnected =>
      match FindById stackID (s_stacks s) with
      | None => None
      | Some stack =>
          let assignedWorkerID := GetString "worker" stack in
          match resolveWorker (s_workers s) assignedWorkerID with
          | inr err => Some (WorkerRefused err)
          | inl worker => if IsConnected assignedWorkerID then None else Some (WorkerOffline (GetString "hostname" worker))
          end
      end
  end.

(** A worker that was named: it exists and is connected. *)
Definition connected_worker (workers : rows) (workerID : string) : record + reply :=
  match resolveWorker workers workerID with
  | inr err => inr (WorkerRefused err)
  | inl worker =>
      match workerSvc with
      | Some IsConnected => if IsConnected workerID then inl worker else inr (WorkerOffline (GetString "hostname" worker))
      | None => inr (WorkerOffline (GetString "hostname" worker))
      end
  end.

Context (yaml_parse : string → option value) (stackStorage workspace : string).

Definition revision_path : string → Z → string := ProjectIdentity.GetRevisionFilePath stackStorage.

(** [os.ReadFile] of a stored revision. *)
Definition read_stored (s : site) (p : string) : string + string := match s_disk s !! p with Some c => inl c | None => inr ("open " +:+ p) end.

Definition deployed_project (s : site) (stack : record) : string + string :=
  ProjectIdentity.DeployedProjectName yaml_parse stackStorage (read_stored s) stack.

Definition resolveStackAndWorker (stackID : string) (s : site) : (record * string * string) + reply :=
  match workerOnline stackID s with
  | Some r => inr r
  | None =>
      match FindById stackID (s_stacks s) with
      | None => inr StackUnknown
      | Some stack =>
          match deployed_project s stack with
          | inr err => inr (ProjectUnknown err)
          | inl projectName => inl (stack, projectName, GetString "worker" stack)
          end
      end
  end.

(** ** Triggers *)
Definition sync_route (user id : string) (s : site) : reply * site :=
  if decide (id = "") then (MissingId, s)
  else match workerOnline id s with
  | Some r => (r, s)
  | None => (Triggered, start (TriggerSync id "manual" user) s)
  end.

(** [commit]: the commit of the body, when it decodes. *)
Definition rollback_route (user id : string) (commit : option string) (s : site) : reply * site :=
  match commit with
  | None => (CommitRequired, s)
  | Some sha =>
      if decide (sha = "") then (CommitRequired, s)
      else match workerOnline id s with
      | Some r => (r, s)
      | None => (Triggered, start (TriggerRollback id sha user) s)
      end
  end.

(** A field the body leaves out is [None]. *)
Record forceRedeployBody := { RecreateContainers : option bool; RecreateVolumes : option bool; RecreateNetworks : option bool; PauseAfter : option bool }.

Definition force_redeploy_route (user id : string) (body : option forceRedeployBody) (s : site) : reply * site :=
  if decide (id = "") then (MissingId, s)
  else match workerOnline id s with
  | Some r => (r, s)
  | None =>
      match body with
      | None => (BadBody, s)
      | Some b => (Triggered, start (TriggerForceRedeploy id (default false (RecreateContainers b)) (default false (RecreateVolumes b))
                                       (default false (RecreateNetworks b)) (default true (PauseAfter b)) user) s)
      end
  end.

Definition transfer_route (user id : string) (target : option string) (s : site) : reply * site :=
  if decide (id = "") then (MissingId, s)
  else match target with
  | None => (TargetRequired, s)
  | Some target =>
      if decide (target = "") then (TargetRequired, s)
      else match FindById id (s_stacks s) with
      | None => (StackUnknown, s)
      | Some stack =>
          if decide (GetString "worker" stack = target) then (SameWorker, s)
          else match workerOnline id s with
          | Some r => (r, s)
          | None =>
              match workerSvc with
              | Some IsConnected =>
                  if IsConnected target then (TransferStarted, start (TriggerTransfer id target user) s)
                  else (TargetOffline (match FindById target (s_workers s) with Some a => GetString "hostname" a | None => target end), s)
              | None => (TransferStarted, start (TriggerTransfer id target user) s)
              end
          end
      end
  end.

(** ** Overrides of a render *)

(** [encoding/json] of a [ServiceOverride]: a field with the option omitempty is left out
    when it is the empty string, a list without elements or a nil pointer. *)
Definition opt_field (k : string) (v : option value) : gmap string value := match v with Some v => {[k := v]} | None => ∅ end.

Definition marshal_strings (l : option (list string)) : option value := match l with Some (x :: l) => Some (VList (VStr <$> x :: l)) | _ => None end.

Definition marshal_override (o : Overrides.ServiceOverride) : value :=
  VMap (opt_field "image" (if decide (Overrides.Image o = "") then None else Some (VStr (Overrides.Image o)))
        ∪ opt_field "ports" (marshal_strings (Overrides.Ports o)) ∪ opt_field "networks" (marshal_strings (Overrides.Networks o))
        ∪ opt_field "scale" ((λ n, VNum (Itoa n)) <$> Overrides.Scale o)).

Definition unmarshal_strings (v : option value) : option (option (list string)) :=
  match v with
  | None => Some None
  | Some (VList l) => Some <$> mapM (λ v, match v with VStr s => Some s | _ => None end) l
  | Some _ => None
  end.

(** The override a document of the written shape holds. *)
Definition unmarshal_override (v : value) : option Overrides.ServiceOverride :=
  match v with
  | VMap m =>
      if decide (dom m ⊆ {["image"; "ports"; "networks"; "scale"]}) then
        image ← match m !! "image" with None => Some "" | Some (VStr s) => Some s | Some _ => None end;
        ports ← unmarshal_strings (m !! "ports"); networks ← unmarshal_strings (m !! "networks");
        scale ← match m !! "scale" with None => Some None | Some (VNum t) => Some <$> num_int t | Some _ => None end;
        Some {| Overrides.Image := image; Overrides.Ports := ports; Overrides.Networks := networks; Overrides.Scale := scale |}
      else None
  | _ => None
  end.

Definition set_overrides (o : gmap string Overrides.ServiceOverride) : record → record := SetField "render_overrides" (VMap (marshal_override <$> o)).

(** [foreign]: what the decoder leaves of a document of another shape. *)
Definition LoadRenderOverrides (foreign : value → gmap string Overrides.ServiceOverride) (stack : record) : gmap string Overrides.ServiceOverride :=
  match fields stack !! "render_overrides" with
  | None | Some VNull => ∅
  | Some (VMap m) =>
      let decoded := unmarshal_override <$> m in
      if decide (map_Forall (λ _ o, is_Some o) decoded) then omap id decoded else foreign (VMap m)
  | Some v => foreign v
  end.

(** What resolves the compose document of a stack: its environment, docker compose config
    of a directory and a file with it, parsed, and the policy of a worker. *)
Context `{GoRange} (foreign : value → gmap string Overrides.ServiceOverride).
Context (load_env : string → list string + string) (config_json : string → string → list string → gmap string value + string).
Context (load_policy : string → Policy.load_error + Policy.WorkerPolicy).

Definition compose_file_of (stack : record) : string :=
  if decide (GetString "compose_file" stack = "") then "docker-compose.yml" else GetString "compose_file" stack.

Definition redeploy (stackID : string) (recreate : bool) (user : string) : trigger := TriggerForceRedeploy stackID recreate false false true user.

Definition put_overrides_route (saved : record → bool) (user stackID : string) (body : option (gmap string Overrides.ServiceOverride)) (s : site) : reply * site :=
  if decide (stackID = "") then (MissingId, s)
  else match FindById stackID (s_stacks s) with
  | None => (StackUnknown, s)
  | Some stack =>
      match workerOnline stackID s with
      | Some r => (r, s)
      | None =>
          match body with
          | None => (BadBody, s)
          | Some overrides =>
              if decide (overrides = ∅) then (OverridesEmpty, s)
              else match load_policy (GetString "worker" stack) with
              | inl _ => (PolicyUnavailable, s)
              | inr wp =>
                  if negb (Policy.AllowRenderOverrides wp) then (OverridesDisabled, s)
                  else match ValidateComposeFile (compose_file_of stack) with
                  | Some err => (ComposeFileRefused err, s)
                  | None =>
                      match load_env stackID with
                      | inr err => (EnvUnavailable err, s)
                      | inl envVars =>
                          match config_json (stackWorkDir workspace stack) (compose_file_of stack) envVars with
                          | inr err => (ConfigUnresolved err, s)
                          | inl configMap =>
                              let services := default ∅ (get_map "services" configMap) in
                              match List.filter (λ kv, bool_decide (services !! kv.1 = None)) (go_range overrides) with
                              | kv :: _ => (UnknownService kv.1, s)
                              | [] =>
                                  match Overrides.ApplyServiceOverrides configMap overrides with
                                  | inr err => (OverrideRefused err, s)
                                  | inl configMap =>
                                      match PolicyCompose.ValidateComposeConfig wp configMap with
                                      | Some err => (PolicyRefused err, s)
                                      | None =>
                                          let stack := set_overrides overrides stack in
                                          if saved stack
                                          then (Triggered, start (redeploy stackID (Overrides.RenderOverridesRequireContainerRecreate overrides) user)
                                                             (with_stacks (upsert stack (s_stacks s)) s))
                                          else (NotSaved, s)
                                      end
                                  end
                              end
                          end
                      end
                  end
              end
          end
      end
  end.

Definition delete_overrides_route (saved : record → bool) (user stackID : string) (s : site) : reply * site :=
  if decide (stackID = "") then (MissingId, s)
  else match FindById stackID (s_stacks s) with
  | None => (StackUnknown, s)
  | Some stack =>
      match workerOnline stackID s with
      | Some r => (r, s)
      | None =>
          let recreateContainers := Overrides.RenderOverridesRequireContainerRecreate (LoadRenderOverrides foreign stack) in
          let stack := SetNil "render_overrides" stack in
          if saved stack then (Triggered, start (redeploy stackID recreateContainers user) (with_stacks (upsert stack (s_stacks s)) s)) else (NotSaved, s)
      end
  end.

(** ** Values of the repository beside the overrides *)
Section git_values.
(** [strconv.FormatFloat(n, 'f', 0, 64)], and the int a float64 equals, of the number with
    this text. *)
Context (format0 : string → string) (float_int : string → option Z).

Definition short_port (item : value) : option string :=
  match item with
  | VStr v => Some v
  | VMap v =>
      let published := portNumberString format0 true (v !! "published") in
      let target := portNumberString format0 true (v !! "target") in
      if decide (published = "" ∨ target = "") then None
      else let short := published +:+ ":" +:+ target in
           let protocol := default "" (get_str "protocol" v) in
           Some (if decide (protocol ≠ "" ∧ protocol ≠ "tcp") then short +:+ "/" +:+ protocol else short)
  | _ => None
  end.

Definition composePortsToShortForm (raw : option value) : list string :=
  match raw with Some (VList l) => omap short_port l | _ => [] end.

Definition composeNetworksToList (raw : option value) : list string :=
  match raw with
  | Some (VMap m) => sorted_keys m
  | Some (VList l) => omap (λ item, match item with VStr s => Some s | _ => None end) l
  | _ => []
  end.

Definition composeInteger (raw : option value) : option Z := match raw with Some (VNum t) => float_int t | _ => None end.

Definition composeServiceScale (svc : gmap string value) : Z :=
  match composeInteger (svc !! "scale") with
  | Some scale => scale
  | None => match get_map "deploy" svc ≫= λ deploy, composeInteger (deploy !! "replicas") with Some replicas => replicas | None => 1 end
  end.

Record git_value := { g_image : string; g_ports : list string; g_networks : list string; g_scale : Z }.

Definition git_value_of (svc : gmap string value) : git_value :=
  {| g_image := default "" (get_str "image" svc); g_ports := composePortsToShortForm (svc !! "ports"); g_networks := composeNetworksToList (svc !! "networks");
     g_scale := composeServiceScale svc |}.

Inductive shown :=
  | Refused (r : reply)
  | Shown (overrides : gmap string Overrides.ServiceOverride) (git : option (gmap string git_value + string)).

Definition get_overrides_route (stackID : string) (s : site) : shown :=
  match FindById stackID (s_stacks s) with
  | None => Refused StackUnknown
  | Some stack =>
      let overrides := LoadRenderOverrides foreign stack in
      if decide (overrides = ∅) then Shown overrides None
      else match ValidateComposeFile (compose_file_of stack) with
      | Some err => Refused (ComposeFileRefused err)
      | None =>
          match load_env stackID with
          | inr err => Shown overrides (Some (inr ("failed to resolve env vars: " +:+ err)))
          | inl envVars =>
              match config_json (stackWorkDir workspace stack) (compose_file_of stack) envVars with
              | inr err => Shown overrides (Some (inr err))
              | inl configMap =>
                  let services := default ∅ (get_map "services" configMap) in
                  Shown overrides (Some (inl (map_imap (λ name _, git_value_of <$> get_map name services) overrides)))
              end
          end
      end
  end.
End git_values.

(** ** Containers *)
Definition forbidden_error (err : string) : bool := Contains (ToLower err) "does not belong to stack".

(** The three routes that send one command about a container: [ask] builds it from the
    stack, the project and the container, [ok] is the answer for an output. *)
Definition container_command (ask : string → string → string → command) (ok : string → reply) (answer : result) (stackID : string) (containerID : string) (s : site)
  : reply * site :=
  match resolveStackAndWorker stackID s with
  | inr r => (r, s)
  | inl (_, projectName, workerID) =>
      let s := send_to workerID (ask stackID projectName containerID) s in
      match answer with
      | inr err => (NotDispatched err, s)
      | inl (output, err) => if decide (err = "") then (ok output, s) else (WorkerFailed (forbidden_error err) err, s)
      end
  end.

Definition stop_route (answer : result) (stackID : string) (container : option string) (s : site) : reply * site :=
  match container with
  | None => (ContainerRequired, s)
  | Some c => if decide (c = "") then (ContainerRequired, s)
              else container_command (λ stack project c, ContainerActionCommand ("stop-container-" +:+ c) stack project c) (λ _, Stopped) answer stackID c s
  end.

Definition restart_route (answer : result) (stackID : string) (container : option string) (s : site) : reply * site :=
  match container with
  | None => (ContainerRequired, s)
  | Some c => if decide (c = "") then (ContainerRequired, s)
              else container_command (λ stack project c, ContainerActionCommand ("restart-container-" +:+ c) stack project c) (λ _, Restarted) answer stackID c s
  end.

(** The decoding of the output into the statistics is left to the caller of the route. *)
Definition stats_route (answer : result) (stackID containerID : string) (s : site) : reply * site :=
  if decide (containerID = "") then (ContainerRequired, s)
  else container_command (λ stack project c, GetContainerStatsCommand ("stats-container-" +:+ c) stack project c) Stats answer stackID containerID s.

(** ** Importing a project of a worker *)
Record import_body := { i_Name : string; i_WorkerID : string; i_ImportPath : string; i_RecreateVolumes : bool }.

Definition import_error (b : import_body) : option reply :=
  if decide (i_Name b = "" ∨ i_ImportPath b = "" ∨ i_WorkerID b = "") then Some ImportIncomplete
  else if negb (HasPrefix (i_ImportPath b) "/") then Some ImportNotAbsolute
  else if decide (ToLower (Ext (i_ImportPath b)) ≠ ".yml" ∧ ToLower (Ext (i_ImportPath b)) ≠ ".yaml") then Some ImportNotYaml
  else if Contains (i_ImportPath b) ".." then Some ImportTraversal
  else None.

Definition imported (id : string) (b : import_body) : record :=
  SetBool "auto_sync" false (SetStr "status" "pending" (SetBool "import_recreate_volumes" (i_RecreateVolumes b) (
  SetStr "import_path" (i_ImportPath b) (SetStr "source_type" "local" (SetStr "worker" (i_WorkerID b) (SetStr "name" (i_Name b) {| Id := id; fields := ∅ |})))))).

(** [id]: the id of the new record. *)
Definition import_route (saved : record → bool) (answer : result) (id user : string) (body : option import_body) (s : site) : reply * site :=
  match body with
  | None => (BadBody, s)
  | Some b =>
      match import_error b with
      | Some r => (r, s)
      | None =>
          match FindById (i_WorkerID b) (s_workers s) with
          | None => (WorkerUnknown, s)
          | Some worker =>
              if negb (match workerSvc with Some IsConnected => IsConnected (i_WorkerID b) | None => false end) then (WorkerOffline (GetString "hostname" worker), s)
              else
                let s := send_to (i_WorkerID b) (ReadFileCommand ("validate-import-" +:+ i_WorkerID b) (i_ImportPath b)) s in
                match answer with
                | inr err => (ImportUnreadable err, s)
                | inl (_, err) =>
                    if decide (err ≠ "") then (ImportUnreadable err, s)
                    else let stack := imported id b in
                         if saved stack then (ImportTriggered id, start (TriggerSync id "manual" user) (with_stacks (upsert stack (s_stacks s)) s))
                         else (NotSaved, s)
                end
          end
      end
  end.

(** ** The current compose file *)
Section content.
(** [maxBytes]: the configured limit, which is positive; [too_large]: the error with this
    text wraps [ErrOutputTooLarge]; the host and its history for the file of a checkout. *)
Context `{UnicodeTables} (maxBytes : Z) (too_large : string → bool) (path_text : path_error → string) (w : ComposeRun.host) (h : ComposeRun.history).

(** [readFileBounded]: the content, or whether the file is too large. *)
Definition readFileBounded (s : site) (p : string) : string + bool :=
  match s_disk s !! p with
  | None => inr false
  | Some data => if decide (maxBytes < Z.of_nat (String.length data))%Z then inr true else inl data
  end.

Definition local_content (answer : result) (stack : record) (s : site) : reply * site :=
  let workerID := GetString "worker" stack in
  match connected_worker (s_workers s) workerID with
  | inr r => (r, s)
  | inl _ =>
      let importPath := GetString "import_path" stack in
      let s := send_to workerID (ReadFileCommand ("compose-" +:+ Id stack) importPath) s in
      match answer with
      | inr _ => (ComposeNotFound, s)
      | inl (output, err) =>
          if decide (err ≠ "") then (ComposeNotFound, s)
          else match DecodeString output with
          | None => (ComposeUndecodable, s)
          | Some data => (if decide (maxBytes < Z.of_nat (String.length data))%Z then ComposeTooLarge else ComposeContent data (Base importPath), s)
          end
      end
  end.

Definition repository_content (stack : record) : reply :=
  let composePath := GetString "compose_path" stack in
  match ValidateComposePath composePath with
  | Some err => ComposePathRefused err
  | None =>
      match ValidateComposeFile (compose_file_of stack) with
      | Some err => ComposeFileRefused err
      | None =>
          let root := PathJoin workspace (GetString "repository" stack) in
          let workDir := work_dir root composePath in
          match ComposeRun.ReadFile w path_text maxBytes root workDir (compose_file_of stack) h with
          | (inr err, _) => if too_large err then ComposeTooLarge else ComposeNotFound
          | (inl data, _) =>
              match ComposeRun.ResolveFile w path_text root workDir (compose_file_of stack) h with
              | (inl resolvedName, _) => ComposeContent data resolvedName
              | (inr _, _) => ComposeNotFound
              end
          end
      end
  end.

Definition resolveCurrentComposeContent (answer : result) (stack : record) (s : site) : reply * site :=
  let currentVersion := GetInt "current_version" stack in
  let source := if decide (GetString "source_type" stack = "local") then local_content answer stack s else (repository_content stack, s) in
  if (0 <? currentVersion)%Z then
    match readFileBounded s (revision_path (Id stack) currentVersion) with
    | inl data => (ComposeContent data ("v" +:+ Itoa currentVersion +:+ ".yml"), s)
    | inr true => (ComposeTooLarge, s)
    | inr false => source
    end
  else source.

Definition compose_route (answer : result) (stackID : string) (s : site) : reply * site :=
  match FindById stackID (s_stacks s) with
  | None => (StackUnknown, s)
  | Some stack => resolveCurrentComposeContent answer stack s
  end.
End content.

Definition revision_route (stackID version : string) (s : site) : reply :=
  match Atoi version with
  | None => BadVersion
  | Some version =>
      if (version <=? 0)%Z then BadVersion
      else match FindById stackID (s_stacks s) with
      | None => StackUnknown
      | Some _ =>
          match s_disk s !! revision_path stackID version with
          | None => RevisionNotFound
          | Some data => ComposeContent data ("v" +:+ Itoa version +:+ ".yml")
          end
      end
  end.

(** ** Health of what is deployed (stack_observability.go) *)
Section observe.
(** The time since a container was started, for the detection of restart loops. *)
Context (since : string → option Z).

Record health_counts := { healthy : nat; unhealthy : nat; starting : nat; missing : nat }.

Inductive health :=
  | HealthUnknown (reason : string)
  | HealthKnown (state : string) (services : list Health.ServiceStatus) (expected : nat) (counts : health_counts).

Definition instances_of (statuses : list Health.ServiceStatus) (name : string) : list Health.ServiceStatus :=
  filter (λ st, Health.ServiceName st = name) statuses.

Definition service_state (statuses : list Health.ServiceStatus) (service : ExpectedService) : Health.ServiceHealthState :=
  let instances := instances_of statuses (es_Name service) in
  let state := Health.ClassifyServiceInstances since instances (IsInit service) true in
  match state with
  | Health.ServiceHealthy =>
      if negb (IsInit service) && bool_decide (Z.of_nat (length instances) < Replicas service)%Z then Health.ServiceMissing else state
  | _ => state
  end.

Definition count_state (c : health_counts) (state : Health.ServiceHealthState) : health_counts :=
  match state with
  | Health.ServiceHealthy => {| healthy := S (healthy c); unhealthy := unhealthy c; starting := starting c; missing := missing c |}
  | Health.ServiceStarting => {| healthy := healthy c; unhealthy := unhealthy c; starting := S (starting c); missing := missing c |}
  | Health.ServiceMissing => {| healthy := healthy c; unhealthy := unhealthy c; starting := starting c; missing := S (missing c) |}
  | _ => {| healthy := healthy c; unhealthy := S (unhealthy c); starting := starting c; missing := missing c |}
  end.

Definition overall (c : health_counts) : string :=
  if decide (0 < unhealthy c + missing c ∧ 0 < healthy c) then "degraded"
  else if decide (0 < unhealthy c + missing c) then "unhealthy"
  else if decide (0 < starting c) then "starting"
  else "healthy".

Definition counts_of (statuses : list Health.ServiceStatus) (expected : list ExpectedService) : health_counts :=
  foldl count_state {| healthy := 0; unhealthy := 0; starting := 0; missing := 0 |} (service_state statuses <$> expected).

(** [decode]: the statuses of an output; [random]: the random id of the command. *)
Definition stackHealth (decode : string → option (list Health.ServiceStatus)) (random : string) (answer : result) (stack : record) (s : site) : health * site :=
  let version := GetInt "deployed_version" stack in
  if (version <=? 0)%Z then (HealthUnknown "no deployed revision is available", s)
  else match s_disk s !! revision_path (Id stack) version with
  | None => (HealthUnknown "the deployed revision could not be read", s)
  | Some content =>
      match ExpectedServices yaml_parse content with
      | None => (HealthUnknown "the deployed revision could not be parsed", s)
      | Some expected =>
          let workerID := GetString "worker" stack in
          match connected_worker (s_workers s) workerID with
          | inr (WorkerRefused err) => (HealthUnknown err, s)
          | inr (WorkerOffline hostname) => (HealthUnknown ("worker '" +:+ hostname +:+ "' is offline"), s)
          | inr _ => (HealthUnknown "", s)
          | inl _ =>
              match (match ExtractProjectName yaml_parse content with inl name => inl name | inr _ => deployed_project s stack end) with
              | inr err => (HealthUnknown err, s)
              | inl projectName =>
                  let s := send_to workerID (GetStatusCommand ("health-" +:+ Id stack +:+ "-" +:+ random) (Id stack) projectName) s in
                  match answer with
                  | inr err => (HealthUnknown ("could not query worker status: " +:+ err), s)
                  | inl (output, err) =>
                      if decide (err ≠ "") then (HealthUnknown ("worker status query failed: " +:+ err), s)
                      else match decode output with
                      | None => (HealthUnknown "worker returned invalid service status", s)
                      | Some statuses =>
                          let counts := counts_of statuses expected in
                          (HealthKnown (overall counts) statuses (length expected) counts, s)
                      end
                  end
              end
          end
      end
  end.
End observe.

(** ** Deleting a stack *)

(** [envvars.LoadStack], without the secrets of the repository. *)
Context (load_stack : string → list string + string).

Definition related_tables : list string :=
  ["sync_logs"; "stack_services"; "stack_env_vars"; "stack_global_env_vars"; "stack_revisions"; "stack_pending_reconciles"].

Definition drop_row (id : string) (t : rows) : rows := filter (λ r, Id r ≠ id) t.

(** What the database answers: a query of a table, a deletion from a table, the deletion of
    the stack; which files survive the removal of its directory. *)
Record failures := { f_query : string → bool; f_delete : string → string → bool; f_stack : bool; f_survives : string → bool }.

Fixpoint delete_rows (f : failures) (table : string) (records : rows) (tables : gmap string rows) : (reply + unit) * gmap string rows :=
  match records with
  | [] => (inr tt, tables)
  | rec :: records =>
      if f_delete f table (Id rec) then (inl (RelatedNotDeleted table (Id rec)), tables)
      else delete_rows f table records (<[table := drop_row (Id rec) (default [] (tables !! table))]> tables)
  end.

Fixpoint delete_related (f : failures) (stackID : string) (cols : list string) (tables : gmap string rows) : (reply + unit) * gmap string rows :=
  match cols with
  | [] => (inr tt, tables)
  | col :: cols =>
      if f_query f col then (inl (RelatedNotRead col), tables)
      else match delete_rows f col (FindAll "stack" stackID (default [] (tables !! col))) tables with
      | (inl r, tables) => (inl r, tables)
      | (inr _, tables) => delete_related f stackID cols tables
      end
  end.

(** [os.RemoveAll] of the directory of the revisions. *)
Definition remove_storage (f : failures) (stackID : string) (disk : gmap string string) : gmap string string :=
  filter (λ pc, HasPrefix pc.1 (Dir (revision_path stackID 1) +:+ "/") = true → f_survives f pc.1 = true) disk.

(** The teardown: nothing to do, the answer that ends the request, or the output. *)
Definition delete_teardown (answer : result) (workerID stackID composeContent : string) (s : site) : (reply + string) * site :=
  let envVars := match load_stack stackID with inl envVars => envVars | inr _ => [] end in
  match ReconcileCore.buildEnvFileB64 envVars with
  | inr err => (inl (EnvNotSerialized err), s)
  | inl teardownEnvFileB64 =>
      match workerSvc with
      | None => (inl Panic, s)
      | Some _ =>
          let s := send_to workerID (TeardownCommand ("teardown-" +:+ stackID) stackID (EncodeToString composeContent) teardownEnvFileB64) s in
          match answer with
          | inr err => (inl (TeardownUndelivered err), s)
          | inl (output, err) => if decide (err = "") then (inr output, s) else (inl (TeardownRefused err output), s)
          end
      end
  end.

(** What follows the teardown. *)
Definition delete_records (f : failures) (stackID teardownOutput : string) (s : site) : reply * site :=
  let s := unscheduled stackID s in
  match delete_related f stackID related_tables (s_tables s) with
  | (inl r, tables) => (r, with_tables tables s)
  | (inr _, tables) =>
      let s := with_disk (remove_storage f stackID (s_disk s)) (with_tables tables s) in
      if f_stack f then (StackNotDeleted, s) else (StackDeleted teardownOutput, with_stacks (drop_row stackID (s_stacks s)) s)
  end.

Definition delete_route (f : failures) (answer : result) (force : bool) (stackID : string) (s : site) : reply * site :=
  if decide (stackID = "") then (MissingId, s)
  else
    let agentIsOnline := match workerSvc, FindById stackID (s_stacks s) with
                         | Some IsConnected, Some stack =>
                             if force then bool_decide (GetString "worker" stack ≠ "") && IsConnected (GetString "worker" stack) else true
                         | _, _ => true
                         end in
    match (if force then None else workerOnline stackID s) with
    | Some r => (r, s)
    | None =>
        match FindById stackID (s_stacks s) with
        | None => (StackUnknown, s)
        | Some stack =>
            let workerID := GetString "worker" stack in
            if decide (workerID = "" ∧ force = false) then (NoWorkerAssigned, s)
            else
              let deployedVersion := GetInt "deployed_version" stack in
              let composeContent := if (0 <? deployedVersion)%Z then s_disk s !! revision_path stackID deployedVersion else Some "" in
              match composeContent, force with
              | None, false => (RevisionUnreadable, s)
              | _, _ =>
                  let composeContent := default "" composeContent in
                  if bool_decide (composeContent ≠ "") && agentIsOnline then
                    match delete_teardown answer workerID stackID composeContent s with
                    | (inl r, s) => (r, s)
                    | (inr output, s) => delete_records f stackID output s
                    end
                  else delete_records f stackID "" s
              end
        end
    end.
End routes.

(** ** Theorems: overrides *)

(** What a document keeps of an override: an empty list is left out. *)
Definition omit_empty (o : Overrides.ServiceOverride) : Overrides.ServiceOverride :=
  let some l := match l with Some [] => None | _ => l end in
  {| Overrides.Image := Overrides.Image o; Overrides.Ports := some (Overrides.Ports o); Overrides.Networks := some (Overrides.Networks o);
     Overrides.Scale := Overrides.Scale o |}.

Lemma unmarshal_VStr l : mapM (λ v, match v with VStr s => Some s | _ => None end) (VStr <$> l) = Some l.
Proof. induction l as [|x l IH]; [done|]. cbn. cbn in IH. by rewrite IH. Qed.

Lemma lookup_opt_field k v k' : opt_field k v !! k' = if decide (k = k') then v else None.
Proof.
  unfold opt_field. destruct v; destruct (decide (k = k')) as [->|]; [by rewrite lookup_singleton_eq|by rewrite lookup_singleton_ne|done..].
Qed.

Lemma unmarshal_marshal_strings l : unmarshal_strings (marshal_strings l) = Some (match l with Some [] => None | _ => l end).
Proof. destruct l as [[|x l]|]; [done| |done]. cbn [marshal_strings unmarshal_strings]. by rewrite unmarshal_VStr. Qed.

Lemma unmarshal_marshal o : (∀ n, Overrides.Scale o = Some n → (0 ≤ n)%Z) → unmarshal_override (marshal_override o) = Some (omit_empty o).
Proof.
  destruct o as [image ports networks scale]. cbn [Overrides.Scale]. intros Hs. unfold unmarshal_override, marshal_override, omit_empty.
  cbn [Overrides.Image Overrides.Ports Overrides.Networks Overrides.Scale]. rewrite decide_True.
  2: { intros k Hk. apply elem_of_dom in Hk. rewrite !lookup_union !lookup_opt_field in Hk. set_unfold.
       destruct (decide ("image" = k)), (decide ("ports" = k)), (decide ("networks" = k)), (decide ("scale" = k)); subst; auto. by destruct Hk. }
  set (m := _ ∪ opt_field "scale" _).
  assert (m !! "image" = (if decide (image = "") then None else Some (VStr image)) ∧ m !! "ports" = marshal_strings ports ∧
    m !! "networks" = marshal_strings networks ∧ m !! "scale" = (λ n, VNum (Itoa n)) <$> scale) as (-> & -> & -> & ->).
  { unfold m. rewrite !lookup_union !lookup_opt_field. repeat (rewrite decide_True; [|done]). repeat (rewrite decide_False; [|done]).
    rewrite ?(left_id_L None) ?(right_id_L None). split_and!; try done. all: by rewrite ?(left_id_L None) ?(right_id_L None). }
  rewrite !unmarshal_marshal_strings. destruct (decide (image = "")) as [->|Hne]; destruct scale as [k|]; cbn; rewrite ?num_int_Itoa; auto.
Qed.

(** What is stored is what was sent, but for the lists that are empty. *)
Lemma load_set_overrides foreign o stack : (∀ name x n, o !! name = Some x → Overrides.Scale x = Some n → (0 ≤ n)%Z) →
  LoadRenderOverrides foreign (set_overrides o stack) = omit_empty <$> o.
Proof.
  intros Hs. unfold LoadRenderOverrides, set_overrides. rewrite fields_SetField_eq. cbv zeta.
  assert (unmarshal_override <$> (marshal_override <$> o) = Some <$> (omit_empty <$> o)) as ->.
  { apply map_eq. intros name. rewrite !lookup_fmap. destruct (o !! name) as [x|] eqn:Hx; [|done]. cbn. f_equal. apply unmarshal_marshal. eauto. }
  rewrite decide_True; [|intros k x Hx; apply lookup_fmap_Some in Hx as (? & <- & _); by eexists].
  apply map_eq. intros name. rewrite lookup_omap lookup_fmap. by destruct ((omit_empty <$> o) !! name).
Qed.

(** The scales of overrides that apply are not negative. *)
Lemma applied_scales `{GoRange} doc o doc' : Overrides.ApplyServiceOverrides doc o = inl doc' →
  ∀ name x n, o !! name = Some x → Overrides.Scale x = Some n → (0 ≤ n)%Z.
Proof.
  intros [Ha _]%Overrides.apply_overrides_iff name x n Hx Hn. destruct (Ha name x Hx) as (svc & svc' & _ & Ho). revert Ho.
  unfold Overrides.override_service, Overrides.applyServiceScaleOverride. rewrite Hn.
  destruct (decide (n < 0 ∨ Overrides.maxRenderOverrideScale < n)%Z) as [|Hr]; [done|]. intros _. lia.
Qed.

Section overrides.
Context (workerSvc : option (string → bool)) (workspace : string) `{GoRange}.
Context (load_env : string → list string + string) (config_json : string → string → list string → gmap string value + string).
Context (load_policy : string → Policy.load_error + Policy.WorkerPolicy).

(** Overrides are saved only when the policy of the worker allows them and permits the
    document with them applied; any other answer leaves everything as it was. *)
Lemma put_overrides_ok saved user stackID body s r s' :
  put_overrides_route workerSvc workspace load_env config_json load_policy saved user stackID body s = (r, s') →
  (r ≠ Triggered ∧ s' = s) ∨
  r = Triggered ∧ ∃ stack o wp env doc doc', FindById stackID (s_stacks s) = Some stack ∧ workerOnline workerSvc stackID s = None ∧ body = Some o ∧ o ≠ ∅ ∧
    load_policy (GetString "worker" stack) = inr wp ∧ Policy.AllowRenderOverrides wp = true ∧ load_env stackID = inl env ∧
    config_json (stackWorkDir workspace stack) (compose_file_of stack) env = inl doc ∧ Overrides.ApplyServiceOverrides doc o = inl doc' ∧
    PolicyCompose.ValidateComposeConfig wp doc' = None ∧
    s' = start (redeploy stackID (Overrides.RenderOverridesRequireContainerRecreate o) user) (with_stacks (upsert (set_overrides o stack) (s_stacks s)) s).
Proof.
  unfold put_overrides_route. destruct (decide (stackID = "")); [intros [= <- <-]; by left|].
  destruct (FindById stackID (s_stacks s)) as [stack|] eqn:Hf; [|intros [= <- <-]; by left].
  destruct (workerOnline workerSvc stackID s) as [w|] eqn:Hw.
  { intros [= <- <-]. left. split; [|done]. intros ->. revert Hw. unfold workerOnline. destruct workerSvc; [|done]. rewrite Hf.
    destruct (resolveWorker _ _); [case_match|]; done. }
  destruct body as [o|]; [|intros [= <- <-]; by left]. destruct (decide (o = ∅)) as [|Hne]; [intros [= <- <-]; by left|].
  destruct (load_policy _) as [|wp] eqn:Hp; [intros [= <- <-]; by left|]. destruct (Policy.AllowRenderOverrides wp) eqn:Hal; simpl negb; cbv iota; [|intros [= <- <-]; by left].
  destruct (ValidateComposeFile _); [intros [= <- <-]; by left|]. destruct (load_env stackID) as [env|] eqn:He; [|intros [= <- <-]; by left].
  destruct (config_json _ _ _) as [doc|] eqn:Hc; [|intros [= <- <-]; by left]. cbv zeta. destruct (List.filter _ _); [|intros [= <- <-]; by left].
  destruct (Overrides.ApplyServiceOverrides doc o) as [doc'|] eqn:Ha; [|intros [= <- <-]; by left].
  destruct (PolicyCompose.ValidateComposeConfig wp doc') eqn:Hv; [intros [= <- <-]; by left|].
  destruct (saved _); intros [= <- <-]; [|by left]. right. split; [done|]. exists stack, o, wp, env, doc, doc'. split_and!; done.
Qed.

(** C16: Overrides without empty lists that are saved are the ones a later render reads, and,
    whatever order it goes through them, they apply to the document they were checked
    with and give the one the policy permitted. *)
Theorem accepted_overrides_reapply saved user stackID o s r s' :
  put_overrides_route workerSvc workspace load_env config_json load_policy saved user stackID (Some o) s = (r, s') → r = Triggered →
  (∀ name x, o !! name = Some x → Overrides.Ports x ≠ Some [] ∧ Overrides.Networks x ≠ Some []) →
  ∃ stack wp env doc doc', FindById stackID (s_stacks s') = Some stack ∧ load_policy (GetString "worker" stack) = inr wp ∧
    Policy.AllowRenderOverrides wp = true ∧ load_env stackID = inl env ∧
    config_json (stackWorkDir workspace stack) (compose_file_of stack) env = inl doc ∧ PolicyCompose.ValidateComposeConfig wp doc' = None ∧
    ∀ foreign (other : GoRange), LoadRenderOverrides foreign stack = o ∧ @Overrides.ApplyServiceOverrides other doc (LoadRenderOverrides foreign stack) = inl doc'.
Proof.
  intros Hp -> Hl. apply put_overrides_ok in Hp as [[? _]|(_ & stack & o' & wp & env & doc & doc' & Hf & _ & [= <-] & _ & Hwp & Hal & He & Hc & Ha & Hv & ->)]; [done|].
  assert (GetString "worker" (set_overrides o stack) = GetString "worker" stack ∧ compose_file_of (set_overrides o stack) = compose_file_of stack ∧
    stackWorkDir workspace (set_overrides o stack) = stackWorkDir workspace stack) as (Hw & Hcf & Hwd).
  { unfold set_overrides, compose_file_of, stackWorkDir. split_and!; by rewrite !GetString_SetField_ne. }
  exists (set_overrides o stack), wp, env, doc, doc'. split_and!; rewrite ?Hw ?Hcf ?Hwd; try done.
  - destruct (FindById_Some _ _ _ Hf) as [_ <-]. exact (FindById_upsert (set_overrides o stack) (s_stacks s)).
  - intros foreign other. assert (LoadRenderOverrides foreign (set_overrides o stack) = o) as ->.
    { rewrite load_set_overrides; [|exact (applied_scales _ _ _ Ha)]. apply map_eq. intros name. rewrite lookup_fmap. destruct (o !! name) as [x|] eqn:Hx; [|done].
      cbn. f_equal. destruct (Hl _ _ Hx) as [H1 H2]. destruct x as [im po ne sc]. unfold omit_empty. cbn in *. by destruct po as [[]|], ne as [[]|]. }
    split; [done|]. apply Overrides.apply_overrides_iff in Ha as [Ha ->]. by apply Overrides.apply_overrides_iff.
Qed.
End overrides.

(** ** Theorems: deleting *)
Definition rows_at (tables : gmap string rows) (t : string) : rows := default [] (tables !! t).

(** The ids of a table tell its rows apart. *)
Definition ids_unique (tables : gmap string rows) : Prop := ∀ t x y, x ∈ rows_at tables t → y ∈ rows_at tables t → Id x = Id y → x = y.

Lemma elem_of_drop_row id t x : x ∈ drop_row id t ↔ x ∈ t ∧ Id x ≠ id.
Proof. unfold drop_row. rewrite list_elem_of_filter. tauto. Qed.

Lemma rows_at_insert tables t t' rs : rows_at (<[t := rs]> tables) t' = if decide (t = t') then rs else rows_at tables t'.
Proof. unfold rows_at. destruct (decide (t = t')) as [->|]; [by rewrite lookup_insert_eq|by rewrite lookup_insert_ne]. Qed.

Lemma delete_rows_spec f table records : ∀ tables out tables', delete_rows f table records tables = (out, tables') →
  (∀ t x, x ∈ rows_at tables' t → x ∈ rows_at tables t) ∧
  (∀ t x, x ∈ rows_at tables t → t ≠ table ∨ Id x ∉ ids_of records → x ∈ rows_at tables' t) ∧
  (out = inr tt → ∀ x, x ∈ rows_at tables' table → Id x ∉ ids_of records).
Proof.
  induction records as [|rec records IH]; intros tables out tables'; cbn [delete_rows].
  - intros [= <- <-]. split_and!; [done|done|]. intros _ x _. apply not_elem_of_nil.
  - destruct (f_delete f table (Id rec)); [intros [= <- <-]; split_and!; done|].
    intros (Hs & Hk & Hd)%IH. split_and!.
    + intros t x Hx. apply Hs in Hx. rewrite rows_at_insert in Hx. destruct (decide (table = t)) as [->|]; [|done]. by apply elem_of_drop_row in Hx as [].
    + intros t x Hx Hn. unfold ids_of in Hn. cbn in Hn. rewrite not_elem_of_cons in Hn. apply Hk; [|by destruct Hn as [|[]]; [left|right]].
      rewrite rows_at_insert. destruct (decide (table = t)) as [->|]; [|done]. apply elem_of_drop_row. split; [done|]. by destruct Hn as [|[]].
    + intros Ho x Hx. unfold ids_of. cbn. rewrite not_elem_of_cons. split; [|by apply Hd].
      apply Hs in Hx. rewrite rows_at_insert decide_True // in Hx. by apply elem_of_drop_row in Hx as [].
Qed.

Lemma ids_unique_mono tables tables' : ids_unique tables → (∀ t x, x ∈ rows_at tables' t → x ∈ rows_at tables t) → ids_unique tables'.
Proof. intros Hu Hs t x y Hx Hy. apply (Hu t); by apply Hs. Qed.

(** The rows that go are rows of the stack, and when nothing fails none of them stays. *)
Lemma delete_related_spec f stackID cols : ∀ tables out tables', ids_unique tables → delete_related f stackID cols tables = (out, tables') →
  (∀ t x, x ∈ rows_at tables' t → x ∈ rows_at tables t) ∧
  (∀ t x, x ∈ rows_at tables t → GetString "stack" x ≠ stackID → x ∈ rows_at tables' t) ∧
  (out = inr tt → ∀ t x, t ∈ cols → x ∈ rows_at tables' t → GetString "stack" x ≠ stackID).
Proof.
  induction cols as [|col cols IH]; intros tables out tables' Hu; cbn [delete_related].
  - intros [= <- <-]. split_and!; [done|done|]. by intros _ t x ?%elem_of_nil.
  - destruct (f_query f col); [intros [= <- <-]; by split_and!|].
    destruct (delete_rows _ _ _ _) as [out1 tables1] eqn:Hd. apply delete_rows_spec in Hd as (Hs1 & Hk1 & Hd1).
    assert (∀ t x, x ∈ rows_at tables t → GetString "stack" x ≠ stackID → x ∈ rows_at tables1 t) as Hkeep.
    { intros t x Hx Hne. apply Hk1; [done|]. destruct (decide (t = col)) as [->|]; [right|by left]. unfold ids_of. rewrite list_elem_of_fmap.
      intros (y & Hid & [Hy Hin]%FindAll_elem). assert (x = y) as -> by (by apply (Hu col)). done. }
    destruct out1 as [r|[]]; [intros [= <- <-]; by split_and!|].
    intros (Hs2 & Hk2 & Hd2)%IH; [|by eapply ids_unique_mono]. split_and!.
    + intros t x Hx. by apply Hs1, Hs2.
    + intros t x Hx Hne. by apply Hk2, Hne; apply Hkeep.
    + intros Ho t x [->|Ht]%elem_of_cons Hx; [|by apply (Hd2 Ho t)]. intros Hst. apply Hs2 in Hx.
      apply (Hd1 eq_refl x Hx). apply list_elem_of_fmap_2. apply FindAll_elem. split; [done|by apply Hs1].
Qed.

(** The answers of the removal of rows. *)
Lemma delete_rows_answer f table records : ∀ tables r tables', delete_rows f table records tables = (inl r, tables') → ∃ id, r = RelatedNotDeleted table id.
Proof.
  induction records as [|x records IH]; intros tables r tables'; cbn [delete_rows]; [done|].
  destruct (f_delete f table (Id x)); [intros [= <- _]; by eexists|apply IH].
Qed.

Lemma delete_related_answer f stackID cols : ∀ tables r tables', delete_related f stackID cols tables = (inl r, tables') →
  (∃ t, r = RelatedNotRead t) ∨ ∃ t id, r = RelatedNotDeleted t id.
Proof.
  induction cols as [|col cols IH]; intros tables r tables'; cbn [delete_related]; [done|].
  destruct (f_query f col); [intros [= <- _]; left; by eexists|].
  destruct (delete_rows _ _ _ _) as [[r1|[]] t1] eqn:Hr; [|apply IH]. intros [= <- _]. right. apply delete_rows_answer in Hr as [id ->]. eauto.
Qed.

Section deleting.
Context (workerSvc : option (string → bool)) (stackStorage : string) (load_stack : string → list string + string).

Abbreviation tear := (delete_teardown workerSvc load_stack).
Abbreviation remove := (delete_route workerSvc stackStorage load_stack).

(** What the removal keeps of the disk: everything outside the directory of the stack. *)
Definition outside (stackID p : string) : Prop := HasPrefix p (Dir (revision_path stackStorage stackID 1) +:+ "/") = false.

Lemma remove_storage_spec f stackID disk p :
  (outside stackID p → remove_storage stackStorage f stackID disk !! p = disk !! p) ∧
  (¬ outside stackID p → f_survives f p = false → remove_storage stackStorage f stackID disk !! p = None).
Proof.
  unfold remove_storage, outside. split.
  - intros Ho. destruct (disk !! p) as [c|] eqn:Hp.
    + apply map_lookup_filter_Some. split; [done|]. simpl. by rewrite Ho.
    + apply map_lookup_filter_None. by left.
  - intros Ho Hs. apply map_lookup_filter_None. right. intros c _. simpl. rewrite Hs. destruct (HasPrefix p _); [|done]. intros Hc. by specialize (Hc eq_refl).
Qed.

Lemma delete_records_spec f stackID output s r s' : ids_unique (s_tables s) → delete_records stackStorage f stackID output s = (r, s') →
  s_sent s' = s_sent s ∧ s_started s' = s_started s ∧ s_scheduled s' = s_scheduled s ∖ {[stackID]} ∧
  (∀ t x, GetString "stack" x ≠ stackID → x ∈ rows_at (s_tables s') t ↔ x ∈ rows_at (s_tables s) t) ∧
  (∀ p, outside stackID p → s_disk s' !! p = s_disk s !! p) ∧
  ((r = StackDeleted output ∧ s_stacks s' = drop_row stackID (s_stacks s) ∧
     (∀ t x, t ∈ related_tables → x ∈ rows_at (s_tables s') t → GetString "stack" x ≠ stackID) ∧
     (∀ p, ¬ outside stackID p → f_survives f p = false → s_disk s' !! p = None)) ∨
   (s_stacks s' = s_stacks s ∧ ((∃ t, r = RelatedNotRead t) ∨ (∃ t id, r = RelatedNotDeleted t id) ∨ r = StackNotDeleted))).
Proof.
  intros Hu. unfold delete_records. cbv zeta. destruct (delete_related _ _ _ _) as [out tables] eqn:Hd.
  destruct (delete_related_spec _ _ _ _ _ _ Hu Hd) as (Hs & Hk & Hg).
  assert (∀ t x, GetString "stack" x ≠ stackID → x ∈ rows_at tables t ↔ x ∈ rows_at (s_tables s) t) as Hiff by (intros t x Hx; split; [apply Hs|intros ?; by apply Hk]).
  destruct out as [r0|[]].
  - intros [= <- <-]. split_and!; [done..|]. right. split; [done|]. apply delete_related_answer in Hd as [?|?]; auto.
  - destruct (f_stack f); intros [= <- <-]; (split_and!; [done|done|done|exact Hiff|intros p Hp; cbn; by apply remove_storage_spec|]).
    + right. split; [done|]. auto.
    + left. split_and!; [done|done|exact (Hg eq_refl)|]. intros p Hp Hsv. cbn. by apply remove_storage_spec.
Qed.

(** The rows and files of the other stacks. *)
Definition others_kept (stackID : string) (s s' : site) : Prop :=
  (∀ x, Id x ≠ stackID → x ∈ s_stacks s' ↔ x ∈ s_stacks s) ∧
  (∀ t x, GetString "stack" x ≠ stackID → x ∈ rows_at (s_tables s') t ↔ x ∈ rows_at (s_tables s) t) ∧
  (∀ p, outside stackID p → s_disk s' !! p = s_disk s !! p).

Definition teardown_command (stackID content env : string) : command := TeardownCommand ("teardown-" +:+ stackID) stackID (EncodeToString content) env.

Lemma tear_spec answer workerID stackID content s out s' : tear answer workerID stackID content s = (out, s') →
  (∃ r, out = inl r ∧ s_stacks s' = s_stacks s ∧ s_tables s' = s_tables s ∧ s_disk s' = s_disk s ∧ s_scheduled s' = s_scheduled s ∧
     ((∃ err, r = EnvNotSerialized err) ∨ r = Panic ∨ (∃ err, r = TeardownUndelivered err) ∨ ∃ err o, r = TeardownRefused err o)) ∨
  ∃ output env, out = inr output ∧ answer = inl (output, "") ∧ s' = send_to workerID (teardown_command stackID content env) s.
Proof.
  unfold delete_teardown. cbv zeta. destruct (ReconcileCore.buildEnvFileB64 _) as [env|err]; [|intros [= <- <-]; left; eexists; split_and!; eauto].
  destruct workerSvc; [|intros [= <- <-]; left; eexists; split_and!; eauto].
  destruct answer as [[output err]|err]; [|intros [= <- <-]; left; eexists; split_and!; eauto].
  destruct (decide (err = "")) as [->|]; intros [= <- <-]; [right; eauto|]. left. eexists. split_and!; eauto 8.
Qed.

(** Why no teardown was sent before a deletion. *)
Definition nothing_to_stop (force : bool) (stack : record) (s : site) : Prop :=
  let version := GetInt "deployed_version" stack in
  let content := s_disk s !! revision_path stackStorage (Id stack) version in
  (version ≤ 0)%Z ∨ content = Some "" ∨
  force = true ∧ (content = None ∨ ∃ IsConnected, workerSvc = Some IsConnected ∧ (GetString "worker" stack = "" ∨ IsConnected (GetString "worker" stack) = false)).

(** The answers given after the schedule of the stack is stopped. *)
Definition past_teardown (r : reply) : bool :=
  match r with RelatedNotRead _ | RelatedNotDeleted _ _ | StackNotDeleted | StackDeleted _ => true | _ => false end.

Definition torn_down (answer : result) (output : string) (stack : record) (s s' : site) : Prop :=
  ∃ content env, s_disk s !! revision_path stackStorage (Id stack) (GetInt "deployed_version" stack) = Some content ∧ answer = inl (output, "") ∧
    s_sent s' = s_sent s ++ [(GetString "worker" stack, teardown_command (Id stack) content env)].

Lemma online_answer stackID s r : workerOnline workerSvc stackID s = Some r → past_teardown r = false.
Proof.
  unfold workerOnline. destruct workerSvc as [c|]; [|by intros [= <-]]. destruct (FindById stackID (s_stacks s)) as [stack|]; [|done].
  destruct (resolveWorker _ _); [|by intros [= <-]]. destruct (c _); [done|by intros [= <-]].
Qed.

(** A request ends before the teardown, at it, after it with rows left, or with the stack gone. *)
Lemma delete_cases f answer force stackID s r s' : remove f answer force stackID s = (r, s') →
  (s_stacks s' = s_stacks s ∧ s_tables s' = s_tables s ∧ s_disk s' = s_disk s ∧ s_scheduled s' = s_scheduled s ∧ past_teardown r = false) ∨
  ∃ stack output s1, FindById stackID (s_stacks s) = Some stack ∧ delete_records stackStorage f stackID output s1 = (r, s') ∧
    s_stacks s1 = s_stacks s ∧ s_tables s1 = s_tables s ∧ s_disk s1 = s_disk s ∧
    (torn_down answer output stack s s1 ∨ s_sent s1 = s_sent s ∧ nothing_to_stop force stack s).
Proof.
  assert (∀ r, past_teardown r = false → s_stacks s = s_stacks s ∧ s_tables s = s_tables s ∧ s_disk s = s_disk s ∧ s_scheduled s = s_scheduled s ∧ past_teardown r = false) as Hsame by done.
  unfold delete_route. destruct (decide (stackID = "")); [intros [= <- <-]; left; by apply Hsame|]. cbv zeta.
  destruct (if force then None else _) as [r0|] eqn:Hw.
  { intros [= <- <-]. left. apply Hsame. destruct force; [done|]. by eapply online_answer. }
  destruct (FindById stackID (s_stacks s)) as [stack|] eqn:Hf; [|intros [= <- <-]; left; by apply Hsame].
  destruct (FindById_Some _ _ _ Hf) as [_ Hid].
  destruct (decide (GetString "worker" stack = "" ∧ force = false)) as [|Hnw]; [intros [= <- <-]; left; by apply Hsame|].
  remember (if (0 <? GetInt "deployed_version" stack)%Z then _ else Some "") as content eqn:Hcon.
  set (online := match workerSvc with Some _ => _ | None => _ end).
  destruct (decide (content = None ∧ force = false)) as [[-> ->]|Hc]; [intros [= <- <-]; left; by apply Hsame|].
  intros Hr. assert ((if bool_decide (default "" content ≠ "") && online then
    match tear answer (GetString "worker" stack) stackID (default "" content) s with (inl r, s) => (r, s) | (inr output, s) => delete_records stackStorage f stackID output s end
    else delete_records stackStorage f stackID "" s) = (r, s')) as Hr'.
  { destruct content, force; try exact Hr. by destruct Hc. }
  clear Hr. destruct (bool_decide (default "" content ≠ "") && online) eqn:Hb.
  - destruct (tear _ _ _ _ _) as [out s1] eqn:Ht. apply tear_spec in Ht as [(r1 & -> & E1 & E2 & E3 & E4 & Ha)|(output & env & -> & -> & ->)].
    + left. injection Hr' as <- <-. split_and!; try done. destruct Ha as [[? ->]|[->|[[? ->]|(? & ? & ->)]]]; done.
    + right. exists stack, output, (send_to (GetString "worker" stack) (teardown_command stackID (default "" content) env) s). split_and!; try done.
      left. apply andb_true_iff in Hb as [Hb%bool_decide_eq_true _]. exists (default "" content), env. split_and!; [|done|by rewrite Hid].
      rewrite Hid. subst content. destruct (0 <? GetInt "deployed_version" stack)%Z; [|done]. by destruct (s_disk s !! _).
  - right. exists stack, "", s. split_and!; try done. right. split; [done|]. unfold nothing_to_stop. rewrite Hid.
    destruct (0 <? GetInt "deployed_version" stack)%Z eqn:Hz; [|left; lia]. right. rewrite -Hcon.
    destruct content as [c|]; [|right; split; [destruct force; [done|by destruct Hc]|by left]].
    apply andb_false_iff in Hb as [Hb%bool_decide_eq_false|Hb]; [left; f_equal; simpl in Hb; destruct (decide (c = "")); tauto|]. right.
    revert Hb. unfold online. destruct workerSvc as [IsConnected|]; [|done]. destruct force; [|done]. intros Hb. split; [done|]. right. exists IsConnected. split; [done|].
    apply andb_false_iff in Hb as [Hb%bool_decide_eq_false|Hb]; [left; destruct (decide (GetString "worker" stack = "")); tauto|by right].
Qed.


(** A deletion that fails after the teardown leaves the stack in the table, without the
    schedule that would sync it. *)
Theorem failed_delete_unschedules f answer force stackID s r s' : ids_unique (s_tables s) → remove f answer force stackID s = (r, s') →
  past_teardown r = true → (∀ o, r ≠ StackDeleted o) →
  is_Some (FindById stackID (s_stacks s')) ∧ stackID ∉ s_scheduled s'.
Proof.
  intros Hu [(_ & _ & _ & _ & Hp)|(stack & output & s1 & Hf & Hd & E1 & E2 & _)]%delete_cases; [by rewrite Hp|]. intros _ Hno.
  apply delete_records_spec in Hd as (_ & _ & Hsc & _ & _ & Ho); [|by rewrite E2]. destruct Ho as [(-> & _)|(Hst & _)]; [by destruct (Hno output)|].
  rewrite Hst E1 Hf Hsc. split; [done|set_solver].
Qed.

(** The teardown of every deletion of a stack has one command id: a worker that failed it
    answers the next attempts with the same error, without trying, until it forgets. *)
Theorem refused_teardown_is_replayed answer workerID stackID content s out s' w e messageID :
  tear answer workerID stackID content s = (out, s') → s_sent s' ≠ s_sent s →
  let id := "teardown-" +:+ stackID in
  id ∉ DurableCommands.ActiveCommands w → DurableCommands.completedDurableCommands w !! id = Some e → DurableCommands.fresh e w = true →
  (∃ env, s_sent s' = s_sent s ++ [(workerID, TeardownCommand id stackID (EncodeToString content) env)]) ∧
  (DurableCommands.beginDurableCommand id messageID w).1 = false.
Proof.
  intros Ht Hs id Ha Hc Hf. split; [|by rewrite (DurableCommands.cached_is_replayed _ _ _ e)]. revert Ht Hs. unfold delete_teardown. cbv zeta.
  destruct (ReconcileCore.buildEnvFileB64 _) as [env|err]; [|by intros [= <- <-]]. destruct workerSvc; [|by intros [= <- <-]].
  destruct answer as [[output err]|err]; [destruct (decide (err = ""))|]; intros [= <- <-] _; by exists env.
Qed.
End deleting.

(** ** Theorems: whom a command may go to *)
Section own.
Context (workerSvc : option (string → bool)) (yaml_parse : string → option value) (stackStorage : string).

(** The worker of the stack, connected. *)
Definition own_worker (id worker : string) (s : site) : Prop :=
  ∃ stack IsConnected, FindById id (s_stacks s) = Some stack ∧ worker = GetString "worker" stack ∧ workerSvc = Some IsConnected ∧ IsConnected worker = true.

Definition sends_own (id : string) (s s' : site) : Prop :=
  s_sent s' = s_sent s ∨ ∃ worker c, own_worker id worker s ∧ s_sent s' = s_sent s ++ [(worker, c)].

Lemma online_own id s stack : workerOnline workerSvc id s = None → FindById id (s_stacks s) = Some stack → own_worker id (GetString "worker" stack) s.
Proof.
  intros Hw Hf. revert Hw. unfold workerOnline. destruct workerSvc as [c|] eqn:Hsv; [|done]. rewrite Hf. destruct (resolveWorker _ _); [|done].
  destruct (c _) eqn:Hc; [|done]. intros _. exists stack, c. split_and!; done.
Qed.

Lemma connected_own id s stack r : connected_worker workerSvc (s_workers s) (GetString "worker" stack) = inl r → FindById id (s_stacks s) = Some stack →
  own_worker id (GetString "worker" stack) s.
Proof.
  intros Hw Hf. revert Hw. unfold connected_worker. destruct (resolveWorker _ _); [|done]. destruct workerSvc as [c|] eqn:Hsv; [|done].
  destruct (c _) eqn:Hc; [|done]. intros _. exists stack, c. split_and!; done.
Qed.

Lemma container_own ask ok answer id c s : sends_own id s (container_command workerSvc yaml_parse stackStorage ask ok answer id c s).2.
Proof.
  unfold container_command, resolveStackAndWorker. destruct (workerOnline workerSvc id s) eqn:Hw; [by left|].
  destruct (FindById id (s_stacks s)) as [stack|] eqn:Hf; [|by left]. destruct (deployed_project _ _ _ _) as [p|]; [|by left].
  right. exists (GetString "worker" stack), (ask id p c). split; [by apply online_own|]. destruct answer as [[o err]|]; [destruct (decide (err = ""))|]; done.
Qed.
End own.

(** ** Theorems: health *)
Section health.
Context (workerSvc : option (string → bool)) (yaml_parse : string → option value) (stackStorage : string) `{GoRange}.
Context (since : string → option Z) (decode : string → option (list Health.ServiceStatus)).

(** Every container of the service is sound, and there are as many as it declares. *)
Definition service_sound (statuses : list Health.ServiceStatus) (service : ExpectedService) : Prop :=
  let instances := instances_of statuses (es_Name service) in
  (∀ i, i ∈ instances → Health.sound_instance since (IsInit service) true i) ∧
  (IsInit service = false → instances ≠ [] ∧ (Replicas service ≤ Z.of_nat (length instances))%Z).

Lemma service_state_sound statuses service : service_state since statuses service = Health.ServiceHealthy ↔ service_sound statuses service.
Proof.
  unfold service_state, service_sound. cbv zeta. set (l := instances_of _ _). pose proof (Health.Classify_all since l (IsInit service)) as Hc.
  destruct (Health.ClassifyServiceInstances since l (IsInit service) true); try (split; [done|]; intros [Ha Hr]; apply Hc; split; [|done];
    intros ->; destruct (IsInit service); [done|]; by destruct Hr).
  destruct (proj1 Hc eq_refl) as [He Hall]. destruct (IsInit service); simpl; [by split|]. case_bool_decide as Hl; split; try done.
  - intros [_ Hr]. destruct (Hr eq_refl). lia.
  - intros _. split; [done|]. intros _. split; [intros Hn; by specialize (He Hn)|lia].
Qed.

Definition count_of (st : Health.ServiceHealthState → bool) (l : list Health.ServiceHealthState) : nat := length (List.filter st l).

Definition is_healthy (st : Health.ServiceHealthState) : bool := match st with Health.ServiceHealthy => true | _ => false end.
Definition is_starting (st : Health.ServiceHealthState) : bool := match st with Health.ServiceStarting => true | _ => false end.
Definition is_broken (st : Health.ServiceHealthState) : bool := negb (is_healthy st) && negb (is_starting st).

Lemma counts_fold l : ∀ c, let c' := foldl count_state c l in
  healthy c' = healthy c + count_of is_healthy l ∧ starting c' = starting c + count_of is_starting l ∧
  unhealthy c' + missing c' = unhealthy c + missing c + count_of is_broken l ∧
  healthy c' + unhealthy c' + starting c' + missing c' = healthy c + unhealthy c + starting c + missing c + length l.
Proof.
  induction l as [|st l IH]; intros c; cbv zeta; [cbn; lia|]. cbn [foldl]. destruct (IH (count_state c st)) as (H1 & H2 & H3 & H4).
  unfold count_of in *. destruct st; cbn in *; lia.
Qed.

Lemma count_pos st l : 0 < count_of st l ↔ ∃ x, x ∈ l ∧ st x = true.
Proof.
  unfold count_of. induction l as [|x l IH]; cbn; [split; [lia|by intros (? & ?%elem_of_nil & _)]|]. destruct (st x) eqn:Hx; cbn.
  - split; [intros _; exists x; split; [by left|done]|lia].
  - rewrite IH. split; intros (y & Hy & Hs); exists y; (split; [|done]); [by right|]. apply elem_of_cons in Hy as [->|]; [congruence|done].
Qed.

Lemma overall_exact l : let c := foldl count_state {| healthy := 0; unhealthy := 0; starting := 0; missing := 0 |} l in
  (overall c = "healthy" ↔ ∀ st, st ∈ l → is_healthy st = true) ∧
  (overall c = "degraded" ↔ (∃ st, st ∈ l ∧ is_broken st = true) ∧ ∃ st, st ∈ l ∧ is_healthy st = true) ∧
  (overall c = "unhealthy" ↔ (∃ st, st ∈ l ∧ is_broken st = true) ∧ ∀ st, st ∈ l → is_healthy st = false).
Proof.
  cbv zeta. set (z := {| healthy := 0; unhealthy := 0; starting := 0; missing := 0 |}). destruct (counts_fold l z) as (H1 & H2 & H3 & _). fold z in H1, H2, H3.
  cbn in H1, H2, H3. unfold overall. rewrite H1 H2 H3 -!count_pos.
  assert ((∀ st, st ∈ l → is_healthy st = true) ↔ count_of is_broken l = 0 ∧ count_of is_starting l = 0) as ->.
  { split.
    - intros Ha. assert (¬ 0 < count_of is_broken l) by (rewrite count_pos; intros (x & Hx & Hb); unfold is_broken in Hb; by rewrite (Ha x Hx) in Hb).
      assert (¬ 0 < count_of is_starting l) by (rewrite count_pos; intros (x & Hx & Hb); specialize (Ha x Hx); by destruct x). lia.
    - intros [Hb Hs] st Hst. destruct (is_healthy st) eqn:Hh; [done|]. exfalso. destruct (is_starting st) eqn:Hst'.
      + assert (0 < count_of is_starting l) by (apply count_pos; eauto). lia.
      + assert (0 < count_of is_broken l); [|lia]. apply count_pos. exists st. split; [done|]. unfold is_broken. by rewrite Hh Hst'. }
  assert ((∀ st, st ∈ l → is_healthy st = false) ↔ count_of is_healthy l = 0) as ->.
  { split.
    - intros Ha. assert (¬ 0 < count_of is_healthy l); [|lia]. rewrite count_pos. intros (x & Hx & Hb). by rewrite (Ha x Hx) in Hb.
    - intros Hz st Hst. destruct (is_healthy st) eqn:Hh; [|done]. assert (0 < count_of is_healthy l) by (apply count_pos; eauto). lia. }
  repeat case_decide; split_and!; (split; [intros ?|intros [? ?]]); try done; try lia.
Qed.

(** The health of a stack is read off the deployed revision and what its worker reports: it
    is healthy exactly when every service of the revision is sound, degraded when some are
    broken beside a sound one, unhealthy when some are broken and none is sound; every
    service is counted once. *)
Theorem health_exact random answer stack s state statuses n counts s' :
  stackHealth workerSvc yaml_parse stackStorage since decode random answer stack s = (HealthKnown state statuses n counts, s') →
  ∃ content expected output, s_disk s !! revision_path stackStorage (Id stack) (GetInt "deployed_version" stack) = Some content ∧
    ExpectedServices yaml_parse content = Some expected ∧ answer = inl (output, "") ∧ decode output = Some statuses ∧ n = length expected ∧
    healthy counts + unhealthy counts + starting counts + missing counts = n ∧
    (state = "healthy" ↔ ∀ es, es ∈ expected → service_sound statuses es) ∧
    (state = "degraded" ↔ (∃ es, es ∈ expected ∧ is_broken (service_state since statuses es) = true) ∧ ∃ es, es ∈ expected ∧ service_sound statuses es) ∧
    (state = "unhealthy" ↔ (∃ es, es ∈ expected ∧ is_broken (service_state since statuses es) = true) ∧ ∀ es, es ∈ expected → ¬ service_sound statuses es).
Proof.
  unfold stackHealth. cbv zeta. destruct (_ <=? 0)%Z; [done|]. destruct (s_disk s !! _) as [content|]; [|done]. destruct (ExpectedServices _ _) as [expected|] eqn:He; [|done].
  destruct (connected_worker _ _ _) as [rec|r]; [|by destruct r]. destruct (match ExtractProjectName _ _ with inl _ => _ | inr _ => _ end); [|done].
  destruct answer as [[output err]|]; [|done]. destruct (decide (err ≠ "")) as [|Herr]; [done|]. destruct (decode output) as [sts|] eqn:Hde; [|done].
  intros [= <- <- <- <- _]. exists content, expected, output. split_and!; try done; [destruct (decide (err = "")); [by subst|tauto]|..].
  - unfold counts_of. destruct (counts_fold (service_state since sts <$> expected) {| healthy := 0; unhealthy := 0; starting := 0; missing := 0 |}) as (_ & _ & _ & Ht).
    cbn in Ht. rewrite length_fmap in Ht. exact Ht.
  - unfold counts_of. rewrite (proj1 (overall_exact _)). setoid_rewrite <- service_state_sound. split.
    + intros Ha es Hes. specialize (Ha _ (list_elem_of_fmap_2 (service_state since sts) _ _ Hes)). by destruct (service_state since sts es).
    + intros Ha st (es & -> & Hes)%list_elem_of_fmap. by rewrite Ha.
  - unfold counts_of. rewrite (proj1 (proj2 (overall_exact _))). setoid_rewrite <- service_state_sound. split.
    + intros [(st & (es & -> & Hes)%list_elem_of_fmap & Hb) (st1 & (es' & -> & Hes')%list_elem_of_fmap & Hh)]. split; [eauto|]. exists es'. split; [done|]. by destruct (service_state since sts es').
    + intros [(es & Hes & Hb) (es' & Hes' & Hh)]. split; [exists (service_state since sts es)|exists (service_state since sts es')]; (split; [by apply (list_elem_of_fmap_2 (service_state since sts))|]); [done|by rewrite Hh].
  - unfold counts_of. rewrite (proj2 (proj2 (overall_exact _))). setoid_rewrite <- service_state_sound. split.
    + intros [(st & (es & -> & Hes)%list_elem_of_fmap & Hb) Ha]. split; [eauto|]. intros es' Hes' Hh.
      specialize (Ha _ (list_elem_of_fmap_2 (service_state since sts) _ _ Hes')). by rewrite Hh in Ha.
    + intros [(es & Hes & Hb) Ha]. split; [exists (service_state since sts es); split; [by apply (list_elem_of_fmap_2 (service_state since sts))|done]|].
      intros st (es' & -> & Hes')%list_elem_of_fmap. specialize (Ha _ Hes'). by destruct (service_state since sts es').
Qed.
End health.

(** ** Theorems: compose content and imports *)
Section content_facts.
Context (workerSvc : option (string → bool)) (stackStorage workspace : string) `{UnicodeTables}.
Context (maxBytes : Z) (too_large : string → bool) (path_text : path_error → string) (w : ComposeRun.host) (h : ComposeRun.history).

Lemma read_bounded root workDir file data h' : ComposeRun.ReadFile w path_text maxBytes root workDir file h = (inl data, h') →
  (Z.of_nat (String.length data) ≤ maxBytes)%Z.
Proof.
  unfold ComposeRun.ReadFile, ComposeRun.seq_err, mbind, ComposeRun.X_bind. destruct (ComposeRun.ResolveFile _ _ _ _ _ _) as [[name|] h1]; cbn -[ComposeRun.openContained]; [|done].
  destruct (ComposeRun.openContained _ _ _ _ _ _) as [[f|] h2]; unfold mret, ComposeRun.X_ret; [|done].
  destruct (decide (maxBytes < ComposeRun.f_size f)%Z); [done|]. destruct (ComposeRun.f_data f) as [d|]; [|done].
  destruct (decide (maxBytes < Z.of_nat (String.length d))%Z); [done|]. intros [= <- _]. lia.
Qed.

(** A compose file that is shown is not longer than the limit, whether it is the rendered
    revision, the file of the worker or the file of the repository; and it is the rendered
    revision whenever that can be read. *)
Theorem shown_compose_bounded answer stack s content filename s' :
  resolveCurrentComposeContent workerSvc stackStorage workspace maxBytes too_large path_text w h answer stack s = (ComposeContent content filename, s') →
  (Z.of_nat (String.length content) ≤ maxBytes)%Z ∧
  let current := GetInt "current_version" stack in
  ∀ rendered, (0 < current)%Z → s_disk s !! revision_path stackStorage (Id stack) current = Some rendered → content = rendered ∧ s' = s.
Proof.
  unfold resolveCurrentComposeContent. cbv zeta. set (src := if decide _ then local_content _ _ _ _ _ else _).
  assert (src = (ComposeContent content filename, s') → (Z.of_nat (String.length content) ≤ maxBytes)%Z) as Hsrc.
  { unfold src. case_decide.
    - unfold local_content. cbv zeta. destruct (connected_worker _ _ _) as [rec|r] eqn:Hc.
      2: { intros [= -> _]. revert Hc. unfold connected_worker. destruct (resolveWorker _ _); [|done]. by repeat case_match. }
      destruct answer as [[output err]|]; [|done]. case_decide; [done|]. destruct (DecodeString output) as [data|]; [|done]. case_decide; [done|]. intros [= <- _ _]. lia.
    - intros [= Hr _]. revert Hr. unfold repository_content. destruct (ValidateComposePath _); [done|]. destruct (ValidateComposeFile _); [done|]. cbv zeta.
      destruct (ComposeRun.ReadFile _ _ _ _ _ _ _) as [[data|err] h1] eqn:Hr; [|by destruct (too_large err)].
      destruct (ComposeRun.ResolveFile _ _ _ _ _ _) as [[name|] h2]; [|done]. intros [= <- _]. by eapply read_bounded. }
  destruct (0 <? _)%Z eqn:Hz; [|intros Hs; split; [auto|]; intros; lia]. unfold readFileBounded. destruct (s_disk s !! _) as [data|] eqn:Hd.
  - case_decide; [done|]. intros [= <- _ <-]. split; [lia|]. by intros ? _ [= <-].
  - intros Hs. split; [auto|]. done.
Qed.

(** An import saves a stack only for an absolute YAML path without parent elements that a
    connected worker could read, and starts its first sync; any other answer saves nothing. *)
Theorem import_exact saved answer id user body s r s' : import_route workerSvc saved answer id user body s = (r, s') →
  match r with
  | ImportTriggered _ => ∃ b IsConnected output, body = Some b ∧ i_Name b ≠ "" ∧ HasPrefix (i_ImportPath b) "/" = true ∧ Contains (i_ImportPath b) ".." = false ∧
      ToLower (Ext (i_ImportPath b)) ∈ [".yml"; ".yaml"] ∧ workerSvc = Some IsConnected ∧ IsConnected (i_WorkerID b) = true ∧
      is_Some (FindById (i_WorkerID b) (s_workers s)) ∧ answer = inl (output, "") ∧
      s_stacks s' = upsert (imported id b) (s_stacks s) ∧ s_started s' = s_started s ++ [TriggerSync id "manual" user] ∧
      s_sent s' = s_sent s ++ [(i_WorkerID b, ReadFileCommand ("validate-import-" +:+ i_WorkerID b) (i_ImportPath b))]
  | _ => s_stacks s' = s_stacks s ∧ s_started s' = s_started s
  end.
Proof.
  unfold import_route. destruct body as [b|]; [|by intros [= <- <-]]. destruct (import_error b) as [e|] eqn:He.
  { intros [= <- <-]. revert He. unfold import_error. destruct (decide (_ ∨ _)); [by intros [= <-]|].
    destruct (negb _); [by intros [= <-]|]. destruct (decide (_ ∧ _)); [by intros [= <-]|]. destruct (Contains _ _); [by intros [= <-]|done]. }
  destruct (FindById (i_WorkerID b) (s_workers s)) as [worker|] eqn:Hf; [|by intros [= <- <-]].
  destruct workerSvc as [c|] eqn:Hsv; [|by intros [= <- <-]]. destruct (c (i_WorkerID b)) eqn:Hc; simpl negb; cbv iota zeta; [|by intros [= <- <-]].
  destruct answer as [[output err]|]; [|by intros [= <- <-]]. case_decide as Herr; [by intros [= <- <-]|].
  destruct (saved _); intros [= <- <-]; [|done]. revert He. unfold import_error. case_decide as Hn; [done|].
  destruct (HasPrefix (i_ImportPath b) "/") eqn:Hp; simpl negb; cbv iota; [|done]. case_decide as Hx; [done|].
  destruct (Contains (i_ImportPath b) "..") eqn:Hd; [done|]. intros _. exists b, c, output. split_and!; try done; [tauto| |].
  - destruct (decide (ToLower (Ext (i_ImportPath b)) = ".yml")) as [->|]; [by left|]. destruct (decide (ToLower (Ext (i_ImportPath b)) = ".yaml")) as [->|]; [by right; left|tauto].
  - destruct (decide (err = "")) as [->|]; [done|tauto].
Qed.
End content_facts.

(** ** Witnesses *)
Definition every_order : GoRange := {| go_range := λ A m, map_to_list m; go_range_perm := λ A m, reflexivity _ |}.

Definition web_doc : gmap string value :=
  {["services" := VMap {["web" := VMap {["image" := VStr "nginx:1.27"; "ports" := VList [VMap {["published" := VStr "8080"; "target" := VNum "80"]}]]}]}]}.

Definition kind_policy : Policy.WorkerPolicy :=
  {| Policy.Disabled := false; Policy.AllowedVolumes := []; Policy.AllowedNetworks := []; Policy.AllowedImages := []; Policy.AllowedCapAdd := []; Policy.AllowedDevices := [];
     Policy.AllowedSecurityOpt := []; Policy.PreventLatestImages := true; Policy.BlockHostVolumes := false; Policy.BlockPrivileged := true; Policy.BlockHostNetwork := true;
     Policy.BlockHostPID := true; Policy.BlockHostIPC := true; Policy.BlockDockerSocket := true; Policy.AllowRenderOverrides := true |}.

Definition web_stack : record := SetInt "deployed_version" 2 (SetStr "worker" "w1" (SetStr "repository" "r1" {| Id := "s1"; fields := ∅ |})).
Definition other_stack : record := SetStr "worker" "w2" {| Id := "s2"; fields := ∅ |}.
Definition log_of (id stack : string) : record := SetStr "stack" stack {| Id := id; fields := ∅ |}.

Definition web_site : site :=
  {| s_stacks := [web_stack; other_stack]; s_workers := [{| Id := "w1"; fields := ∅ |}; {| Id := "w2"; fields := ∅ |}];
     s_tables := {["sync_logs" := [log_of "l1" "s1"; log_of "l2" "s2"; log_of "l3" "s1"]; "stack_revisions" := [log_of "v1" "s1"]]};
     s_disk := {["/data/s1/v2.yml" := "services: {}"; "/data/s2/v1.yml" := "kept"]}; s_scheduled := {["s1"; "s2"]}; s_sent := []; s_started := [] |}.

Definition put (o : gmap string Overrides.ServiceOverride) : reply * site :=
  @put_overrides_route (Some (λ _, true)) "/repos" every_order (λ _, inl []) (λ _ _ _, inl web_doc) (λ _, inr kind_policy) (λ _, true) "u1" "s1" (Some o) web_site.

Definition new_image : gmap string Overrides.ServiceOverride :=
  {["web" := {| Overrides.Image := "nginx:1.28"; Overrides.Ports := Some ["9090:80"]; Overrides.Networks := None; Overrides.Scale := None |}]}.

Lemma accepted_overrides_reapply_witness :
  (put new_image).1 = Triggered ∧ (put {["web" := {| Overrides.Image := "nginx:latest"; Overrides.Ports := None; Overrides.Networks := None; Overrides.Scale := None |}]}).1 ≠ Triggered ∧
  ∃ stack, FindById "s1" (s_stacks (put new_image).2) = Some stack ∧ LoadRenderOverrides (λ _, ∅) stack = new_image.
Proof.
  split_and!; [vm_compute; reflexivity|vm_compute; discriminate|].
  destruct (@accepted_overrides_reapply (Some (λ _, true)) "/repos" every_order (λ _, inl []) (λ _ _ _, inl web_doc) (λ _, inr kind_policy) (λ _, true) "u1" "s1" new_image
    web_site (put new_image).1 (put new_image).2) as (stack & wp & env & doc & doc' & Hf & _ & _ & _ & _ & _ & Ho).
  - exact (surjective_pairing _).
  - vm_compute. reflexivity.
  - intros name x Hx. unfold new_image in Hx. apply lookup_singleton_Some in Hx as [_ <-]. split; discriminate.
  - exists stack. split; [exact Hf|exact (proj1 (Ho (λ _, ∅) every_order))].
Defined.

(** A service without its published ports, in three copies: the override is checked and
    saved, but the empty list is not stored, and a later render refuses what is. *)
Definition three_unpublished : gmap string Overrides.ServiceOverride :=
  {["web" := {| Overrides.Image := ""; Overrides.Ports := Some []; Overrides.Networks := None; Overrides.Scale := Some 3%Z |}]}.

Theorem saved_override_does_not_apply :
  (put three_unpublished).1 = Triggered ∧
  ∃ stack, FindById "s1" (s_stacks (put three_unpublished).2) = Some stack ∧
    @Overrides.ApplyServiceOverrides every_order web_doc (LoadRenderOverrides (λ _, ∅) stack) = inr (Overrides.ScaleFixedPort "web").
Proof. split; [vm_compute; reflexivity|]. exists (set_overrides three_unpublished web_stack). split; vm_compute; reflexivity. Qed.

Definition no_failures : failures := {| f_query := λ _, false; f_delete := λ _ _, false; f_stack := false; f_survives := λ _, false |}.

Definition deleted (f : failures) : reply * site :=
  delete_route (Some (λ _, true)) "/data" (λ _, inl []) f (inl ("down", "")) false "s1" web_site.

Lemma web_site_unique : ids_unique (s_tables web_site).
Proof.
  assert (∀ t rs, s_tables web_site !! t = Some rs → NoDup (ids_of rs)) as Hn.
  { apply (bool_decide_unpack (map_Forall (λ _ rs, NoDup (ids_of rs)) (s_tables web_site))). vm_compute. exact I. }
  intros t x y. unfold rows_at. destruct (s_tables web_site !! t) as [rs|] eqn:Hrs; [|by intros ?%elem_of_nil]. apply NoDup_ids_inj. by eapply Hn.
Qed.


(** ** container_log_filters.go: the logs of a container

    An instant is a [time.Time] without its location: seconds since the year one, kept at
    64 bits, and nanoseconds. *)
Record Time := { t_sec : Z; t_nsec : Z }.

Definition unixToInternal : Z := 62135596800.
Definition nanos : Z := 1000000000.

(** [time.Unix] *)
Definition TimeUnix (sec nsec : Z) : Time :=
  let '(sec, nsec) := if decide (nsec < 0 ∨ nanos ≤ nsec)%Z
                      then let n := Z.quot nsec nanos in
                           let '(sec, nsec) := ((sec + n)%Z, (nsec - n * nanos)%Z) in
                           if decide (nsec < 0)%Z then ((sec - 1)%Z, (nsec + nanos)%Z) else (sec, nsec)
                      else (sec, nsec) in
  {| t_sec := wrap64 (sec + unixToInternal); t_nsec := nsec |}.

Definition Unix (t : Time) : Z := wrap64 (t_sec t - unixToInternal).
Definition Before (t u : Time) : bool := bool_decide (t_sec t < t_sec u ∨ t_sec t = t_sec u ∧ t_nsec t < t_nsec u)%Z.
Definition zero_Time : Time := {| t_sec := 0; t_nsec := 0 |}.
Definition IsZero (t : Time) : bool := bool_decide (t_sec t = 0 ∧ t_nsec t = 0)%Z.

(** [Time.Add], of a time of the present, where no sum leaves the range. *)
Definition Add (t : Time) (d : Z) : Time :=
  let ns := (t_sec t * nanos + t_nsec t + d)%Z in {| t_sec := (ns / nanos)%Z; t_nsec := (ns mod nanos)%Z |}.

Definition isASCIIDigits (s : string) : bool := negb (bool_decide (s = "")) && GoFmt.all_digits s.

Fixpoint zeros (n : nat) : string := match n with O => "" | S n => String "0" (zeros n) end.

(** [strings.TrimRight] of zeros, and the format with nine digits. *)
Fixpoint trim_zeros (s : string) : string :=
  match s with
  | "" => ""
  | String a r => let r := trim_zeros r in if decide (a = "0"%char ∧ r = "") then "" else String a r
  end.

Definition nine_digits (n : Z) : string := zeros (9 - String.length (Itoa n)) +:+ Itoa n.

Definition parseUnixTimestamp (raw : string) : option Time :=
  let negative := HasPrefix raw "-" in
  match Split "."%char (TrimPrefix raw "-") with
  | [p0; p1] =>
      if negb (isASCIIDigits p0) || negb (isASCIIDigits p1) || bool_decide (9 < String.length p1) then None
      else whole ← Atoi p0; fraction ← Atoi (p1 +:+ zeros (9 - String.length p1));
           Some (if negative then TimeUnix (- whole) (- fraction) else TimeUnix whole fraction)
  | _ => None
  end.

Section log_filters.
(** The parser and the printer of RFC 3339 of package time, and the regular expressions:
    nothing when the pattern does not compile. *)
Context (parse_rfc3339 : string → option Time) (format_rfc3339 : Time → string) (compile : string → option (string → bool)).

Definition formatDockerLogTime (value : Time) : string :=
  if (Unix value <? 0)%Z then format_rfc3339 value
  else if decide (t_nsec value = 0%Z) then Itoa (Unix value)
  else Itoa (Unix value) +:+ "." +:+ trim_zeros (nine_digits (t_nsec value)).

Inductive filter_error := BadPattern | BadSince (err : string) | BadUntil (err : string) | SinceNotBefore.

Definition normalizeLogTime (raw : string) (reference : Time) : (string * Time) + string :=
  let raw := TrimSpace raw in
  if decide (raw = "") then inl ("", zero_Time)
  else match ParseDuration raw with
  | Some duration =>
      if (duration <=? 0)%Z then inr "relative log time must be a positive duration"
      else let resolved := Add reference (- duration) in inl (formatDockerLogTime resolved, resolved)
  | None =>
      match parse_rfc3339 raw with
      | Some parsed => inl (formatDockerLogTime parsed, parsed)
      | None =>
          match Atoi raw with
          | Some seconds => let resolved := TimeUnix seconds 0 in inl (formatDockerLogTime resolved, resolved)
          | None =>
              match parseUnixTimestamp raw with
              | Some parsed => inl (formatDockerLogTime parsed, parsed)
              | None => inr "must be RFC3339 with timezone, a Unix timestamp, or a positive relative duration such as 30m"
              end
          end
      end
  end.

Definition normalizeContainerLogFilters (since until pattern : string) (reference : Time) : (string * string) + filter_error :=
  if bool_decide (pattern ≠ "") && bool_decide (compile pattern = None) then inr BadPattern
  else match normalizeLogTime since reference with
  | inr err => inr (BadSince err)
  | inl (normalizedSince, sinceTime) =>
      match normalizeLogTime until reference with
      | inr err => inr (BadUntil err)
      | inl (normalizedUntil, untilTime) =>
          if negb (IsZero sinceTime) && negb (IsZero untilTime) && negb (Before sinceTime untilTime) then inr SinceNotBefore
          else inl (normalizedSince, normalizedUntil)
      end
  end.

Definition filterLogOutput (logs pattern : string) : string :=
  if decide (pattern = "") then logs
  else match compile pattern with
  | Some re => WorkerQueries.filterLogLines logs re
  | None => logs
  end.

Definition maxLogResponseBytes : nat := N.to_nat 65536.

Definition capLogOutput (logs : string) : string * bool :=
  if decide (String.length logs ≤ maxLogResponseBytes) then (logs, false) else (WorkerQueries.tailLogOutput logs maxLogResponseBytes, true).

(** exec_routes.go: a field that is no list of texts is no capability. *)
Definition recordHasCapability (worker : record) (capability : string) : bool :=
  match fields worker !! "capabilities" with
  | Some (VList l) =>
      match mapM (λ v, match v with VStr s => Some s | _ => None end) l with Some caps => bool_decide (capability ∈ caps) | None => false end
  | _ => false
  end.

Definition CapabilityContainerLogsFilterV1 : string := "container_logs_filter_v1".

Record ContainerLogsResult := {
  Logs : string; AppliedTail : string; AppliedSince : string; AppliedUntil : string; lr_Pattern : string; Truncated : bool; TruncationReason : string }.

Inductive logs_answer :=
  | LogsRefused (r : reply) | LogsBadFilter (e : filter_error) | LogsUpgradeNeeded | LogsInvalid | LogsShown (response : ContainerLogsResult).

(** [decode]: the decoding of an output into a response that is already there. *)
Definition logs_route (workerSvc : option (string → bool)) (yaml_parse : string → option value) (stackStorage : string)
  (decode : string → ContainerLogsResult → option ContainerLogsResult) (random : string) (now : Time) (answer : result)
  (stackID containerID tail since until pattern : string) (s : site) : logs_answer * site :=
  if decide (containerID = "") then (LogsRefused ContainerRequired, s)
  else match resolveStackAndWorker workerSvc yaml_parse stackStorage stackID s with
  | inr r => (LogsRefused r, s)
  | inl (_, projectName, workerID) =>
      let tail := if decide (tail = "") then "100" else tail in
      match normalizeContainerLogFilters since until pattern now with
      | inr e => (LogsBadFilter e, s)
      | inl (since, until) =>
          match resolveWorker (s_workers s) workerID with
          | inr err => (LogsRefused (WorkerRefused err), s)
          | inl worker =>
              let supportsFilters := recordHasCapability worker CapabilityContainerLogsFilterV1 in
              if bool_decide (since ≠ "" ∨ until ≠ "") && negb supportsFilters then (LogsUpgradeNeeded, s)
              else
                let s := send_to workerID (GetContainerLogsCommand ("logs-container-" +:+ containerID +:+ "-" +:+ random) stackID projectName containerID
                                             tail since until pattern) s in
                match answer with
                | inr err => (LogsRefused (NotDispatched err), s)
                | inl (output, err) =>
                    if decide (err ≠ "") then (LogsRefused (WorkerFailed (forbidden_error err) err), s)
                    else
                      let response := {| Logs := output; AppliedTail := tail; AppliedSince := since; AppliedUntil := until; lr_Pattern := pattern;
                                         Truncated := false; TruncationReason := "" |} in
                      match (if supportsFilters then decode output response
                             else Some {| Logs := filterLogOutput output pattern; AppliedTail := tail; AppliedSince := since; AppliedUntil := until;
                                          lr_Pattern := pattern; Truncated := false; TruncationReason := "" |}) with
                      | None => (LogsInvalid, s)
                      | Some response =>
                          let '(logs, truncated) := capLogOutput (Logs response) in
                          (LogsShown {| Logs := if truncated then logs else Logs response; AppliedTail := tail; AppliedSince := since; AppliedUntil := until;
                                        lr_Pattern := pattern; Truncated := truncated || Truncated response;
                                        TruncationReason := if truncated && bool_decide (TruncationReason response = "")
                                                            then "log output exceeded the 64 KiB response limit" else TruncationReason response |}, s)
                      end
                end
          end
      end
  end.

(** Accepted filters: each is empty or an instant Docker reads, and the first is before the
    second unless one is absent (or the zero time). *)
Lemma filters_ok since until pattern now since' until' : normalizeContainerLogFilters since until pattern now = inl (since', until') →
  ∃ t u, normalizeLogTime since now = inl (since', t) ∧ normalizeLogTime until now = inl (until', u) ∧ (IsZero t = false → IsZero u = false → Before t u = true) ∧
    (pattern ≠ "" → is_Some (compile pattern)).
Proof.
  unfold normalizeContainerLogFilters. destruct (bool_decide (pattern ≠ "") && _) eqn:Hp; [done|].
  destruct (normalizeLogTime since now) as [[a t]|]; [|done]. destruct (normalizeLogTime until now) as [[b u]|]; [|done].
  destruct (negb (IsZero t) && negb (IsZero u) && negb (Before t u)) eqn:Hb; [done|]. intros [= <- <-]. exists t, u. split_and!; try done.
  - intros Ht Hu. rewrite Ht Hu in Hb. simpl in Hb. by apply negb_false_iff.
  - intros Hne. rewrite bool_decide_eq_true_2 // in Hp. simpl in Hp. apply bool_decide_eq_false in Hp. by destruct (compile pattern).
Qed.

(** Logs that are shown are within the limit, with the filters the server resolved, which
    went to the worker of the stack; a time filter only to a worker that supports it. *)
Theorem logs_exact workerSvc yaml_parse stackStorage decode random now answer stackID containerID tail since until pattern s response s' :
  logs_route workerSvc yaml_parse stackStorage decode random now answer stackID containerID tail since until pattern s = (LogsShown response, s') →
  String.length (Logs response) ≤ maxLogResponseBytes ∧
  ∃ stack project id worker t u, FindById stackID (s_stacks s) = Some stack ∧ own_worker workerSvc stackID (GetString "worker" stack) s ∧
    s_sent s' = s_sent s ++ [(GetString "worker" stack, GetContainerLogsCommand id stackID project containerID (AppliedTail response) (AppliedSince response) (AppliedUntil response) pattern)] ∧
    normalizeLogTime since now = inl (AppliedSince response, t) ∧ normalizeLogTime until now = inl (AppliedUntil response, u) ∧
    (IsZero t = false → IsZero u = false → Before t u = true) ∧
    FindById (GetString "worker" stack) (s_workers s) = Some worker ∧
    (AppliedSince response ≠ "" ∨ AppliedUntil response ≠ "" → recordHasCapability worker CapabilityContainerLogsFilterV1 = true).
Proof.
  unfold logs_route. case_decide; [done|]. unfold resolveStackAndWorker. destruct (workerOnline workerSvc stackID s) eqn:Hw; [done|].
  destruct (FindById stackID (s_stacks s)) as [stack|] eqn:Hf; [|done]. destruct (deployed_project _ _ _ _) as [project|]; [|done]. cbv zeta.
  destruct (normalizeContainerLogFilters since until pattern now) as [[a b]|] eqn:Hn; [|done]. apply filters_ok in Hn as (t & u & Ht & Hu & Hb & _).
  destruct (resolveWorker _ _) as [worker|] eqn:Hr; [|done]. destruct (bool_decide _ && _) eqn:Hc; [done|].
  destruct answer as [[output err]|]; [|done]. destruct (decide (err ≠ "")); [done|]. destruct (if recordHasCapability _ _ then _ else _) as [resp|]; [|done].
  destruct (capLogOutput (Logs resp)) as [logs truncated] eqn:Hcap. intros [= <- <-]. cbn [Logs AppliedTail AppliedSince AppliedUntil].
  assert (String.length (if truncated then logs else Logs resp) ≤ maxLogResponseBytes) as Hlen.
  { revert Hcap. unfold capLogOutput. destruct (decide (String.length (Logs resp) ≤ maxLogResponseBytes)); intros [= <- <-]; [done|]. apply WorkerQueries.tail_bounded. }
  split; [exact Hlen|]. assert (FindById (GetString "worker" stack) (s_workers s) = Some worker) as Hwk.
  { revert Hr. unfold resolveWorker. destruct (decide (GetString "worker" stack = "")); [done|]. destruct (FindById (GetString "worker" stack) (s_workers s)); congruence. }
  exists stack, project. eexists _, worker, t, u. split_and!; try done; [by apply online_own|].
  intros Hne. apply andb_false_iff in Hc as [Hc%bool_decide_eq_false|Hc]; [done|]. by apply negb_false_iff.
Qed.
End log_filters.

(** The order of the forms: a text that reads as a duration is one. *)
Example log_times :
  (λ raw, normalizeLogTime (λ _, None) (λ _, "before the epoch") raw (TimeUnix 1000000 0)) <$> ["30s"; " 1700000000 "; "1.500"; "-1.5"; "1.+5"; "-30s"]
  = [inl ("999970", TimeUnix 999970 0); inl ("1700000000", TimeUnix 1700000000 0); inl ("1.5", TimeUnix 1 500000000);
     inl ("before the epoch", TimeUnix (-2) 500000000); inr "must be RFC3339 with timezone, a Unix timestamp, or a positive relative duration such as 30m";
     inr "relative log time must be a positive duration"].
Proof. vm_compute. reflexivity. Qed.

(** ** Unix timestamps *)
Lemma all_digits_bool s : all_digits s → GoFmt.all_digits s = true.
Proof.
  induction s as [|a s IH]; [done|]. intros Hs. cbn. rewrite IH; [|intros c Hc; apply Hs; by right]. rewrite andb_true_r.
  destruct (Hs a (or_introl eq_refl)) as [d Hd]. revert Hd. unfold digit_of, is_digit. case_decide as Hr; [|done]. intros _. apply andb_true_iff. rewrite !Nat.leb_le. lia.
Qed.

Lemma digits_acc_from s : all_digits s → ∀ acc, digits_from (Z.of_N acc) s = Some (Z.of_N (digits_acc acc s)).
Proof.
  induction s as [|a s IH]; [done|]. intros Hs acc. cbn [digits_from digits_acc]. destruct (Hs a (or_introl eq_refl)) as [d Hd]. rewrite Hd. cbn.
  revert Hd. unfold digit_of. case_decide as Hr; [|done]. intros [= <-]. rewrite -IH; [|intros c Hc; apply Hs; by right]. f_equal.
  unfold GoFmt.digit_of, nat_of_ascii in *. lia.
Qed.

Lemma Atoi_Itoa n : (0 ≤ n < 2 ^ 63)%Z → Atoi (Itoa n) = Some n.
Proof.
  intros Hn. rewrite Itoa_pos; [|lia]. destruct (pretty_N_digits (Z.to_N n)) as [Ha Hd]. unfold Atoi. set (s := pretty (Z.to_N n)) in *.
  assert (s ≠ "") as Hne by (intros He; rewrite He in Hd; done).
  assert (∀ b, s ≠ String "-" b ∧ s ≠ String "+" b) as Hsign.
  { intros b. split; intros He; rewrite He in Ha; by destruct (Ha _ (or_introl eq_refl)). }
  assert (match s with String "-" b => (true, b) | String "+" b => (false, b) | _ => (false, s) end = (false, s)) as ->.
  { destruct s as [|a s']; [done|]. destruct (Hsign s') as [H1 H2]. destruct a as [[] [] [] [] [] [] [] []]; try done; by [destruct H1|destruct H2]. }
  rewrite bool_decide_eq_false_2 // all_digits_bool //. cbv [orb negb].
  assert (Z.of_N (digits_acc 0 s) = n) as ->; [|by rewrite decide_True; [|lia]].
  unfold digits in Hd. rewrite decide_False // (digits_acc_from s Ha 0%N) in Hd. injection Hd as ->. lia.
Qed.

Lemma leadingInt_digits s : all_digits s → ∀ x v r, leadingInt x s = Some (v, r) → r = "".
Proof.
  induction s as [|a s IH]; intros Hs x v r; cbn [leadingInt]; [by intros [= _ <-]|]. destruct (Hs a (or_introl eq_refl)) as [d ->].
  destruct (_ <? x)%Z; [done|]. cbv zeta. destruct (_ <? _)%Z; [done|]. apply IH. intros c Hc. apply Hs. by right.
Qed.

(** Digits alone are no duration, but for zero. *)
Lemma digits_no_duration s : all_digits s → s ≠ "0" → ParseDuration s = None.
Proof.
  intros Ha H0. unfold ParseDuration.
  assert (match s with String "-" r => (true, r) | String "+" r => (false, r) | _ => (false, s) end = (false, s)) as ->.
  { destruct s as [|a s']; [done|]. destruct (Ha a (or_introl eq_refl)) as [d Hd]. destruct a as [[] [] [] [] [] [] [] []]; done. }
  rewrite decide_False //. destruct s as [|a s']; [done|]. destruct (decide (String a s' = "")); [done|]. cbn [String.length duration_terms].
  destruct (decide (_ ∧ _)); [done|]. destruct (leadingInt 0 (String a s')) as [[v r]|] eqn:Hl; [|done].
  apply leadingInt_digits in Hl as ->; [|done]. cbv zeta. rewrite bool_decide_eq_true_2 //.
Qed.

Lemma Unix_TimeUnix n : (0 < n < 2 ^ 63 - unixToInternal)%Z → Unix (TimeUnix n 0) = n.
Proof.
  intros Hn. unfold Unix, TimeUnix. destruct (decide (0 < 0 ∨ nanos ≤ 0)%Z) as [Hd|]; [unfold nanos in Hd; lia|]. cbn [t_sec]. unfold wrap64, unixToInternal in *. rewrite !Z.mod_small; lia.
Qed.

(** A positive number of seconds since the epoch is passed on as it is. *)
Theorem unix_seconds_kept parse_rfc3339 format_rfc3339 raw n now : TrimSpace raw = Itoa n → (0 < n < 2 ^ 63 - unixToInternal)%Z → parse_rfc3339 (Itoa n) = None →
  normalizeLogTime parse_rfc3339 format_rfc3339 raw now = inl (Itoa n, TimeUnix n 0).
Proof.
  intros Hr Hn Hp. unfold normalizeLogTime. rewrite Hr. unfold unixToInternal in Hn.
  assert (Itoa n ≠ "" ∧ Itoa n ≠ "0") as [H1 H2].
  { split; intros He; pose proof (num_int_Itoa n ltac:(lia)) as Hi; rewrite He in Hi; vm_compute in Hi; simplify_eq; lia. }
  rewrite decide_False // digits_no_duration //; [|rewrite Itoa_pos; [|lia]; apply pretty_N_digits].
  rewrite Hp Atoi_Itoa; [|lia]. cbv zeta. do 2 f_equal. unfold formatDockerLogTime. rewrite Unix_TimeUnix; [|unfold unixToInternal; lia].
  destruct (n <? 0)%Z eqn:Hlt; [lia|]. by destruct (decide (t_nsec (TimeUnix n 0) = 0%Z)).
Qed.

(** The epoch itself is taken for a relative time and refused. *)
Theorem epoch_refused parse_rfc3339 format_rfc3339 now : normalizeLogTime parse_rfc3339 format_rfc3339 "0" now = inr "relative log time must be a positive duration".
Proof. reflexivity. Qed.

(** ** Theorems: what is sent and started *)
Record answers := { a_result : result; a_saved : record → bool; a_failures : failures; a_random : string }.

(** The requests about one stack. *)
Inductive request :=
  | AskSync | AskRollback (commit : option string) | AskRedeploy (body : option forceRedeployBody) | AskTransfer (target : option string)
  | AskOverrides (body : option (gmap string Overrides.ServiceOverride)) | AskNoOverrides
  | AskStop (container : option string) | AskRestart (container : option string) | AskStats (container : string)
  | AskLogs (container tail since until pattern : string) | AskCompose | AskHealth | AskDelete (force : bool).

Section requests.
Context (workerSvc : option (string → bool)) (yaml_parse : string → option value) (stackStorage workspace : string) `{GoRange}.
Context (foreign : value → gmap string Overrides.ServiceOverride).
Context (load_env load_stack : string → list string + string) (config_json : string → string → list string → gmap string value + string).
Context (load_policy : string → Policy.load_error + Policy.WorkerPolicy).
Context `{UnicodeTables} (maxBytes : Z) (too_large : string → bool) (path_text : path_error → string) (w : ComposeRun.host) (h : ComposeRun.history).
Context (since : string → option Z) (decode : string → option (list Health.ServiceStatus)).
Context (parse_rfc3339 : string → option Time) (format_rfc3339 : Time → string) (compile : string → option (string → bool)).
Context (decode_logs : string → ContainerLogsResult → option ContainerLogsResult) (now : Time).

(** The site after a request. *)
Definition handle (req : request) (a : answers) (user id : string) (s : site) : site :=
  match req with
  | AskSync => (sync_route workerSvc user id s).2
  | AskRollback commit => (rollback_route workerSvc user id commit s).2
  | AskRedeploy body => (force_redeploy_route workerSvc user id body s).2
  | AskTransfer target => (transfer_route workerSvc user id target s).2
  | AskOverrides body => (put_overrides_route workerSvc workspace load_env config_json load_policy (a_saved a) user id body s).2
  | AskNoOverrides => (delete_overrides_route workerSvc foreign (a_saved a) user id s).2
  | AskStop c => (stop_route workerSvc yaml_parse stackStorage (a_result a) id c s).2
  | AskRestart c => (restart_route workerSvc yaml_parse stackStorage (a_result a) id c s).2
  | AskStats c => (stats_route workerSvc yaml_parse stackStorage (a_result a) id c s).2
  | AskLogs c tail from until pattern =>
      (logs_route parse_rfc3339 format_rfc3339 compile workerSvc yaml_parse stackStorage decode_logs (a_random a) now (a_result a)
         id c tail from until pattern s).2
  | AskCompose => (compose_route workerSvc stackStorage workspace maxBytes too_large path_text w h (a_result a) id s).2
  | AskHealth => match FindById id (s_stacks s) with
                 | Some stack => (stackHealth workerSvc yaml_parse stackStorage since decode (a_random a) (a_result a) stack s).2
                 | None => s
                 end
  | AskDelete force => (delete_route workerSvc stackStorage load_stack (a_failures a) (a_result a) force id s).2
  end.

Local Abbreviation own_worker := (own_worker workerSvc).
Local Abbreviation sends_own := (sends_own workerSvc).

Lemma compose_own a id s : sends_own id s (handle AskCompose a "" id s).
Proof.
  cbn. unfold compose_route. destruct (FindById id (s_stacks s)) as [stack|] eqn:Hf; [|by left].
  unfold resolveCurrentComposeContent. cbv zeta. set (src := if decide _ then local_content _ _ _ _ _ else _).
  assert (sends_own id s src.2) as Hsrc.
  { unfold src. case_decide; [|by left]. unfold local_content. cbv zeta. destruct (connected_worker _ _ _) eqn:Hc; [|by left].
    right. exists (GetString "worker" stack). eexists. split; [by eapply connected_own|].
    destruct (a_result a) as [[o err]|]; [case_decide; [done|destruct (DecodeString o)]|]; done. }
  destruct (0 <? _)%Z; [|done]. destruct (readFileBounded _ _ _) as [|[]]; [by left|by left|done].
Qed.

Lemma health_own a id s : sends_own id s (handle AskHealth a "" id s).
Proof.
  cbn. destruct (FindById id (s_stacks s)) as [stack|] eqn:Hf; [|by left]. unfold stackHealth. cbv zeta.
  destruct (_ <=? 0)%Z; [by left|]. destruct (s_disk s !! _) as [content|]; [|by left]. destruct (ExpectedServices _ _); [|by left].
  destruct (connected_worker _ _ _) as [rec|r] eqn:Hc; [|destruct r; by left].
  set (project := match ExtractProjectName _ _ with inl _ => _ | inr _ => _ end). destruct project as [p|]; [|by left].
  right. exists (GetString "worker" stack). eexists. split; [by eapply connected_own|].
  destruct (a_result a) as [[o err]|]; [case_decide; [done|destruct (decode o)]|]; done.
Qed.

Lemma delete_own a force id s : sends_own id s (handle (AskDelete force) a "" id s).
Proof.
  cbn. destruct (delete_route _ _ _ _ _ _ _ _) as [r s'] eqn:Hd. cbn. revert Hd. unfold delete_route. destruct (decide (id = "")); [intros [= <- <-]; by left|]. cbv zeta.
  assert (∀ output s1, s_sent (delete_records stackStorage (a_failures a) id output s1).2 = s_sent s1) as Hrec.
  { intros output s1. unfold delete_records. cbv zeta. destruct (delete_related _ _ _ _) as [[]]; [done|]. by destruct (f_stack _). }
  destruct (if force then None else _) as [r0|] eqn:Hw; [intros [= <- <-]; by left|].
  destruct (FindById id (s_stacks s)) as [stack|] eqn:Hf; [|intros [= <- <-]; by left].
  destruct (decide (_ ∧ _)); [intros [= <- <-]; by left|]. set (content := if (0 <? _)%Z then _ else _).
  set (online := match workerSvc with Some _ => _ | None => _ end). intros Hr.
  assert (s' = s ∨ (if bool_decide (default "" content ≠ "") && online then
    match delete_teardown workerSvc load_stack (a_result a) (GetString "worker" stack) id (default "" content) s with
    | (inl r, s) => (r, s) | (inr output, s) => delete_records stackStorage (a_failures a) id output s end
    else delete_records stackStorage (a_failures a) id "" s) = (r, s')) as [->|Hr'].
  { destruct content, force; [by right..|]. left. by injection Hr as _ <-. }
  { by left. }
  clear Hr. destruct (bool_decide _ && online) eqn:Hb; [|left; by rewrite -(Hrec "" s) Hr'].
  apply andb_true_iff in Hb as [_ Hon]. revert Hr'. unfold delete_teardown. cbv zeta.
  destruct (ReconcileCore.buildEnvFileB64 _) as [env|]; [|intros [= <- <-]; by left]. destruct workerSvc as [c|] eqn:Hsv; [|intros [= <- <-]; by left].
  assert (own_worker id (GetString "worker" stack) s) as Hown.
  { destruct force; [|rewrite -Hsv in Hw; by apply online_own]. apply andb_true_iff in Hon as [_ Hon]. exists stack, c. by rewrite Hsv. }
  destruct (a_result a) as [[o err]|]; [destruct (decide (err = ""))|]; intros Hr; (right; exists (GetString "worker" stack); eexists; split; [rewrite -Hsv; exact Hown|]).
  - replace s' with (delete_records stackStorage (a_failures a) id o
      (send_to (GetString "worker" stack) (TeardownCommand ("teardown-" +:+ id) id (EncodeToString (default "" content)) env) s)).2 by (by rewrite Hr).
    rewrite Hrec. done.
  - by injection Hr as _ <-.
  - by injection Hr as _ <-.
Qed.

Lemma logs_own a c tail from until pattern id s : sends_own id s (handle (AskLogs c tail from until pattern) a "" id s).
Proof.
  cbn. unfold logs_route, resolveStackAndWorker. case_decide; [by left|]. destruct (workerOnline workerSvc id s) eqn:Hw; [by left|].
  destruct (FindById id (s_stacks s)) as [stack|] eqn:Hf; [|by left]. destruct (deployed_project _ _ _ _) as [p|]; [|by left]. cbv zeta.
  destruct (normalizeContainerLogFilters _ _ _ _ _ _ _) as [[f u]|]; [|by left]. destruct (resolveWorker _ _) as [worker|]; [|by left].
  destruct (bool_decide _ && _); [by left|]. right. exists (GetString "worker" stack). eexists. split; [by apply online_own|].
  destruct (a_result a) as [[o err]|]; [|done]. case_decide; [done|]. destruct (if recordHasCapability _ _ then _ else _) as [resp|]; [|done].
  by destruct (capLogOutput (Logs resp)).
Qed.

End requests.
