(* ===== verification/RecordHooks.v ===== *)
(** * internal/hooks/pb_hooks.go, internal/registry/credential_store.go: hooks of records

    The hooks that check and prepare the records of repositories, their keys, registry
    credentials, worker policies, stacks and jobs, as the steps a database admits, and the
    loader that turns the registry credentials into the authentication of a pull. *)
From Stdlib Require Import ZArith.
From S2P Require Import Prelude GoStrings GoPath GoFmt GoBase64 GoValue ComposeDoc SafePath PbRecord PbTable Crypto EnvSecrets.
From S2P Require Policy LintCore LintRules LintSource ConfigInject StackDefs.

(** ** Repository keys *)

(** [strings.Index] of a character. *)
Definition Index (c : ascii) (s : string) : Z := match cut c s with Some (l, _) => Z.of_nat (String.length l) | None => -1 end.

Definition isSSHGitURL (gitURL : string) : bool :=
  let gitURL := TrimSpace gitURL in
  if decide (gitURL = "") then false
  else if HasPrefix gitURL "ssh://" then true
  else if Contains gitURL "://" then false
  else let at_ := Index "@"%char gitURL in let colon := Index ":"%char gitURL in (0 <? at_)%Z && (at_ <? colon)%Z.

Definition AuthTypeSSH : string := "ssh_key".
Definition AuthTypeBasic : string := "basic".
Definition AuthTypeOAuthToken : string := "oauth_token".

Inductive record_error :=
  | KeyMissing | KeyNotFound | KeyTypeWrong (wanted : string) | KeyTypeImmutable | KeyGone | KeyInUse (n : nat)
  | RegistryURLInvalid | RegistryDuplicate (host : string) | PolicyExists | Encryption (err : hook_error)
  | WorkerRequired | WorkerNotFound | LintErrors (messages : list string) | Immutable (err : StackDefs.immutable_error) | ServerManaged
  | StacksAssociated (n : nat) | JobsAssociated (n : nat) | QueryFailed.

Definition validateRepositoryKeyAssignment (keys : rows) (repository : record) : option record_error :=
  let keyID := TrimSpace (GetString "repository_key" repository) in
  let ssh := isSSHGitURL (GetString "git_url" repository) in
  if decide (keyID = "") then if ssh then Some KeyMissing else None
  else match FindById keyID keys with
  | None => Some KeyNotFound
  | Some key =>
      let keyAuthType := GetString "auth_type" key in
      if ssh then if decide (keyAuthType ≠ AuthTypeSSH) then Some (KeyTypeWrong AuthTypeSSH) else None
      else if decide (keyAuthType ≠ AuthTypeBasic ∧ keyAuthType ≠ AuthTypeOAuthToken) then Some (KeyTypeWrong AuthTypeBasic) else None
  end.

(** [original]: the record as it was read for the change. *)
Definition validateRepositoryKeyTypeImmutable (keys : rows) (original : option record) (r : record) : option record_error :=
  let originalType := match original with Some o => GetString "auth_type" o | None => "" end in
  let persisted := if decide (originalType = "" ∧ TrimSpace (Id r) ≠ "")
                   then match FindById (Id r) keys with Some p => inl (GetString "auth_type" p) | None => inr KeyGone end
                   else inl originalType in
  match persisted with
  | inr err => Some err
  | inl originalType => if decide (originalType = "" ∨ GetString "auth_type" r = originalType) then None else Some KeyTypeImmutable
  end.

(** [answered], here and below: the query of the hook answers. *)
Definition delete_key (answered : bool) (repositories : rows) (r : record) : option record_error :=
  if negb answered then Some QueryFailed
  else match FindAll "repository_key" (Id r) repositories with [] => None | l => Some (KeyInUse (length l)) end.

Section hooks.
Context (Seal : string → string → string → string) (Open : string → string → string → option string) (secretKey : string).

(** One nonce per field. *)
Fixpoint encrypt_fields (nonce : string → option string) (names : list string) (r : record) : record + hook_error :=
  match names with
  | [] => inl r
  | f :: names => match encryptField Seal Open secretKey (nonce f) f r with inl r => encrypt_fields nonce names r | inr err => inr err end
  end.

Definition sensitive_fields : list string := ["ssh_private_key"; "ssh_passphrase"; "git_password"].

Definition encryptSensitiveFields (nonce : string → option string) (r : record) : record + hook_error :=
  if decide (String.length secretKey ≠ 32) then inr KeyNot32 else encrypt_fields nonce sensitive_fields r.

Definition create_key (nonce : string → option string) (r : record) : record + record_error :=
  match encryptSensitiveFields nonce r with inl r => inl r | inr err => inr (Encryption err) end.

Definition update_key (nonce : string → option string) (keys : rows) (original : option record) (r : record) : record + record_error :=
  match validateRepositoryKeyTypeImmutable keys original r with Some err => inr err | None => create_key nonce r end.

(** The repositories that are cloned again after a key has changed. *)
Definition key_changed (original : option record) (r : record) : bool :=
  match original with
  | None => true
  | Some o => existsb (λ f, bool_decide (GetString f r ≠ GetString f o))
                ["auth_type"; "ssh_private_key"; "ssh_passphrase"; "ssh_known_host"; "git_username"; "git_password"]
  end.

Definition reclone_after_key (repositories : rows) (original : option record) (r : record) : list string :=
  if key_changed original r then Id <$> FindAll "repository_key" (Id r) repositories else [].

(** ** Repositories *)
Definition create_repository (keypair : record → record) (keys : rows) (r : record) : record + record_error :=
  match validateRepositoryKeyAssignment keys r with Some err => inr err | None => inl (keypair r) end.

Definition update_repository (keys : rows) (r : record) : record + record_error :=
  match validateRepositoryKeyAssignment keys r with Some err => inr err | None => inl r end.

(** [stacks_ok], [jobs_ok]: the two queries answer; one that fails counts as none found. *)
Definition delete_repository (stacks_ok jobs_ok : bool) (stacks jobs : rows) (r : record) : option record_error :=
  let stacks := if stacks_ok then FindAll "repository" (Id r) stacks else [] in
  let jobs := if jobs_ok then FindAll "repository" (Id r) jobs else [] in
  if decide (stacks ≠ []) then Some (StacksAssociated (length stacks))
  else if decide (jobs ≠ []) then Some (JobsAssociated (length jobs))
  else None.

(** After an update: whether the repository is cloned again and its ticker restarted. *)
Definition after_repository_update (original : option record) (r : record) : bool * bool :=
  (match original with
   | Some o => existsb (λ f, bool_decide (GetString f r ≠ GetString f o)) ["git_url"; "branch"; "repository_key"]
   | None => false
   end,
   match original with Some o => bool_decide (GetInt "sync_interval_seconds" r ≠ GetInt "sync_interval_seconds" o) | None => true end).

(** ** Registry credentials *)

(** [url.Parse] of a text: its host name and its port. *)
Context (url_parse : string → option (string * string)).

Definition JoinHostPort (host port : string) : string := if Contains host ":" then "[" +:+ host +:+ "]:" +:+ port else host +:+ ":" +:+ port.

Definition NormalizeRegistryHost (registryURL : string) : string :=
  let trimmed := TrimSpace registryURL in
  if decide (trimmed = "") then ""
  else
    let parseable := if Contains trimmed "://" then trimmed else "//" +:+ trimmed in
    match url_parse parseable with
    | None => ""
    | Some (hostname, port) =>
        if decide (hostname = "") then ""
        else
          let host := ToLower hostname in
          let host := if decide (host = "index.docker.io") then "docker.io" else host in
          let host := if Contains host ":" then "[" +:+ host +:+ "]" else host in
          if decide (port = "") then host else JoinHostPort (Trim host ["["%char; "]"%char]) port
    end.

Definition prepareRegistryCredential (answered : bool) (existing : rows) (r : record) : record + record_error :=
  let host := NormalizeRegistryHost (GetString "registry_url" r) in
  if decide (host = "") then inr RegistryURLInvalid
  else
    let r := SetStr "registry_host" host r in
    if negb answered then inr QueryFailed
    else if existsb (λ c, bool_decide (Id c ≠ Id r)) (FindAll "registry_host" host existing) then inr (RegistryDuplicate host) else inl r.

(** Both hooks, of a creation and of an update. *)
Definition save_credential (answered : bool) (nonce : option string) (existing : rows) (r : record) : record + record_error :=
  match prepareRegistryCredential answered existing r with
  | inr err => inr err
  | inl r => match encryptField Seal Open secretKey nonce "password" r with inl r => inl r | inr err => inr (Encryption err) end
  end.

Definition create_policy (answered : bool) (policies : rows) (r : record) : record + record_error :=
  if negb answered then inr QueryFailed else match policies with [] => inl r | _ => inr PolicyExists end.

(** ** The authentication of a pull *)
Record Credential := { c_ID : string; c_RegistryURL : string; c_Username : string; c_Password : string; c_Insecure : bool }.

Inductive auth_error := CredentialUnknown | CredentialUnreadable | NoRegistryURL | SeveralMatch (host : string) | HostMismatch (host : string).

Definition LoadCredentialByID (t : rows) (id : string) : Credential + auth_error :=
  match FindById id t with
  | None => inr CredentialUnknown
  | Some r =>
      if decide (String.length secretKey ≠ 32) then inr CredentialUnreadable
      else
        let raw := GetString "password" r in
        match (if decide (raw = "") then Some "" else Decrypt Open raw secretKey) with
        | None => inr CredentialUnreadable
        | Some password =>
            inl {| c_ID := Id r; c_RegistryURL := GetString "registry_url" r; c_Username := GetString "username" r; c_Password := password;
                   c_Insecure := GetBool "insecure" r |}
        end
  end.

Definition BuildAuthEntry (cred : Credential) : (string * string) + auth_error :=
  let host := NormalizeRegistryHost (c_RegistryURL cred) in
  if decide (host = "") then inr NoRegistryURL else inl (host, EncodeToString (c_Username cred +:+ ":" +:+ c_Password cred)).

Definition dockerAuthConfigKey (host : string) : string :=
  if decide (NormalizeRegistryHost host = "docker.io") then "https://index.docker.io/v1/" else NormalizeRegistryHost host.

Definition record_host (r : record) : string :=
  let host := NormalizeRegistryHost (GetString "registry_host" r) in
  if decide (host = "") then NormalizeRegistryHost (GetString "registry_url" r) else host.

(** The entries and the insecure hosts so far, and the hosts already matched. *)
Record auths := { au_entries : gmap string string; au_matched : gset string; au_insecure : gset string }.

Fixpoint collect (t : rows) (wanted : gset string) (records : rows) (a : auths) : auths + auth_error :=
  match records with
  | [] => inl a
  | r :: records =>
      let host := record_host r in
      if decide (host ∉ wanted) then collect t wanted records a
      else if decide (host ∈ au_matched a) then inr (SeveralMatch host)
      else match LoadCredentialByID t (Id r) with
      | inr err => inr err
      | inl credential =>
          match BuildAuthEntry credential with
          | inr err => inr err
          | inl (credentialHost, auth) =>
              if decide (credentialHost ≠ host) then inr (HostMismatch host)
              else collect t wanted records
                     {| au_entries := <[dockerAuthConfigKey host := auth]> (au_entries a); au_matched := {[host]} ∪ au_matched a;
                        au_insecure := if c_Insecure credential then {[host]} ∪ au_insecure a else au_insecure a |}
          end
      end
  end.

Definition wanted_hosts (hosts : list string) : gset string := list_to_set (List.filter (λ h, negb (bool_decide (h = ""))) (NormalizeRegistryHost <$> hosts)).

(** The entries of the docker configuration and the insecure hosts; nothing when no
    credential matches. *)
Definition BuildDockerAuthForHosts (t : rows) (hosts : list string) : option (gmap string string * list string) + auth_error :=
  let wanted := wanted_hosts hosts in
  if decide (wanted = ∅) then inl None
  else match collect t wanted t {| au_entries := ∅; au_matched := ∅; au_insecure := ∅ |} with
  | inr err => inr err
  | inl a => inl (if decide (au_entries a = ∅) then None else Some (au_entries a, sort_strings (elements (au_insecure a))))
  end.

(** ** Stacks *)
Definition validateAssignedWorker (workers : rows) (r : record) : option record_error :=
  let workerID := GetString "worker" r in
  if decide (workerID = "") then Some WorkerRequired
  else match FindById workerID workers with Some _ => None | None => Some WorkerNotFound end.

Section lint.
(** The checkout, docker compose config of a directory, a file and a root, parsed, and the
    policy of a worker when it loads. *)
Context `{UnicodeTables} (workspace : string) (is_dir : string → bool) (config_json : string → string → string → option (gmap string value)).
Context (load_policy : string → option Policy.WorkerPolicy) (redact : list LintCore.Finding → list LintCore.Finding).

Definition rejectStackOnLintErrors (r : record) : option record_error :=
  let repoID := GetString "repository" r in
  let composeFileName := GetString "compose_file" r in
  let composePath := GetString "compose_path" r in
  if decide (repoID = "" ∨ composeFileName = "") then None
  else match ValidateComposeFile composeFileName, ValidateComposePath composePath with
  | None, None =>
      let repoDir := PathJoin workspace repoID in
      if negb (is_dir repoDir) then None
      else
        let workDir := if decide (composePath ≠ "" ∧ composePath ≠ ".") then PathJoin repoDir (Clean composePath) else repoDir in
        match config_json workDir composeFileName repoDir with
        | None => None
        | Some configMap =>
            let workerID := GetString "worker" r in
            let report := LintRules.Run configMap
              {| LintCore.ctx_Policy := if decide (workerID = "") then None else load_policy workerID; LintCore.ctx_EnvKeys := None; LintCore.ctx_RepoRoot := repoDir |} in
            if LintCore.HasErrors report
            then Some (LintErrors (LintCore.f_Message <$> filter (λ f, LintCore.f_Severity f = LintCore.SeverityError) (redact (LintCore.Findings report))))
            else None
        end
  | _, _ => None
  end.

Definition create_stack (nonce : option string) (workers : rows) (r : record) : record + record_error :=
  match validateAssignedWorker workers r with
  | Some err => inr err
  | None =>
      match rejectStackOnLintErrors r with
      | Some err => inr err
      | None => match encryptField Seal Open secretKey nonce "webhook_secret" r with inl r => inl r | inr err => inr (Encryption err) end
      end
  end.
End lint.

Definition update_stack (nonce : option string) (bypassed : bool) (workers stacks : rows) (original : option record) (r : record) : record + record_error :=
  match validateAssignedWorker workers r with
  | Some err => inr err
  | None =>
      match StackDefs.validateWireopsFieldsImmutable bypassed stacks original r with
      | Some err => inr (Immutable err)
      | None =>
          match encryptField Seal Open secretKey nonce "webhook_secret" (preserveMaskedFieldValue original "webhook_secret" r) with
          | inl r => inl r
          | inr err => inr (Encryption err)
          end
      end
  end.

(** Requests of the API. *)
Definition create_stack_request (r : record) : option record_error := if decide (GetString "compose_project_name" r ≠ "") then Some ServerManaged else None.

Definition update_stack_request (original : option record) (r : record) : option record_error :=
  let previous := match original with Some o => GetString "compose_project_name" o | None => "" end in
  if decide (GetString "compose_project_name" r ≠ previous) then Some ServerManaged else None.

(** ** The containers shown with a stack *)
Record ContainerInfo := { ci_Name : string; IsFallback : bool; Slug : string }.

Definition slug_of (svc : gmap string value) : string :=
  let check (meta : option value) : option string :=
    match get_str "customization.image.slug" (ConfigInject.NormalizeToMap meta) with Some v => if decide (v = "") then None else Some v | None => None end in
  let deploy := get_map "deploy" svc in
  let first := [check (svc !! "labels"); check (svc !! "annotations"); deploy ≫= λ d, check (d !! "labels"); deploy ≫= λ d, check (d !! "annotations")] in
  default "" (head (omap id first)).

Definition container_info (name : string) (svc : value) : option ContainerInfo :=
  match svc with
  | VMap m =>
      let cName := default "" (get_str "container_name" m) in
      Some {| ci_Name := if decide (cName = "") then name else cName; IsFallback := bool_decide (cName = ""); Slug := slug_of m |}
  | _ => None
  end.

(** One pass of the sort: [x], at the place that is filled, and the entries after it; the
    smaller of two changes places with it. *)
Fixpoint sweep (x : ContainerInfo) (l : list ContainerInfo) : ContainerInfo * list ContainerInfo :=
  match l with
  | [] => (x, [])
  | y :: l => if decide (strings.String.le (ci_Name x) (ci_Name y)) then let '(m, l) := sweep x l in (m, y :: l) else let '(m, l) := sweep y l in (m, x :: l)
  end.

Fixpoint exchange_sort (fuel : nat) (l : list ContainerInfo) : list ContainerInfo :=
  match fuel, l with
  | S fuel, x :: l => let '(m, l) := sweep x l in m :: exchange_sort fuel l
  | _, _ => []
  end.

Definition extractContainersFromCompose `{GoRange} (yaml_parse : string → option value) (data : string) : list ContainerInfo :=
  match yaml_parse data with
  | Some (VMap doc) =>
      match get_map "services" doc with
      | Some services => let results := omap (λ kv, container_info kv.1 kv.2) (go_range services) in exchange_sort (length results) results
      | None => []
      end
  | _ => []
  end.

(** The file the list is read from, on the server. *)
Definition listed_file (workspace : string) (r : record) : string :=
  if decide (GetString "source_type" r = "local") then GetString "import_path" r
  else
    let base := PathJoin workspace (GetString "repository" r) in
    let composePath := match ValidateComposePath (GetString "compose_path" r) with Some _ => "" | None => GetString "compose_path" r end in
    let composeFileName := match ValidateComposeFile (GetString "compose_file" r) with
                           | Some _ => "docker-compose.yml"
                           | None => if decide (GetString "compose_file" r = "") then "docker-compose.yml" else GetString "compose_file" r end in
    let dir := if decide (composePath ≠ "" ∧ composePath ≠ ".") then PathJoin base (Clean composePath) else base in
    PathJoin dir composeFileName.

Definition enrich_stack `{GoRange} (yaml_parse : string → option value) (read_file : string → option string) (workspace : string) (r : record)
  : record * option (list ContainerInfo) :=
  let r := if decide (GetString "webhook_secret" r = "") then r else SetStr "webhook_secret" placeholder r in
  let rendered := GetString "rendered_revision" r in
  let composeContent := if decide (rendered ≠ "") then rendered
                        else let composeFile := listed_file workspace r in
                             if decide (composeFile = "") then "" else default "" (read_file composeFile) in
  (r, if decide (composeContent = "") then None else Some (extractContainersFromCompose yaml_parse composeContent)).
End hooks.

(** ** Theorems: the containers of a stack *)
Definition by_name (x y : ContainerInfo) : Prop := strings.String.le (ci_Name x) (ci_Name y).

Lemma sweep_pass_ok l : ∀ x m l', sweep x l = (m, l') → m :: l' ≡ₚ x :: l ∧ Forall (by_name m) (x :: l).
Proof.
  induction l as [|y l IH]; intros x m l'; cbn [sweep].
  - intros [= <- <-]. split; [done|]. constructor; [|done]. unfold by_name. by destruct (total strings.String.le (ci_Name x) (ci_Name x)).
  - destruct (decide (strings.String.le (ci_Name x) (ci_Name y))) as [Hle|Hle].
    + destruct (sweep x l) as [m0 l0] eqn:Hs. intros [= <- <-]. destruct (IH _ _ _ Hs) as [Hp [Hx Hl]%Forall_cons]. split.
      * rewrite Permutation_swap Hp. apply Permutation_swap.
      * constructor; [done|]. constructor; [|done]. unfold by_name in *. by transitivity (ci_Name x).
    + destruct (sweep y l) as [m0 l0] eqn:Hs. intros [= <- <-]. destruct (IH _ _ _ Hs) as [Hp [Hy Hl]%Forall_cons]. split.
      * rewrite Permutation_swap Hp. done.
      * constructor; [|by constructor]. unfold by_name in *. transitivity (ci_Name y); [done|]. by destruct (total strings.String.le (ci_Name x) (ci_Name y)).
Qed.

(** The list of containers has every service of the document once and is in order of the
    names, whatever the order the services were read in. *)
Lemma exchange_sort_ok n : ∀ l, length l ≤ n → exchange_sort n l ≡ₚ l ∧ StronglySorted by_name (exchange_sort n l).
Proof.
  induction n as [|n IH]; intros [|x l] Hn; cbn in Hn |- *; try lia; try (split; [done|constructor]).
  destruct (sweep x l) as [m l'] eqn:Hs. destruct (sweep_pass_ok _ _ _ _ Hs) as [Hp Hf]. assert (length l' ≤ n) as Hl.
  { apply Permutation_length in Hp. cbn in Hp. lia. }
  destruct (IH l' Hl) as [Hp' Hs']. split; [by rewrite Hp'|]. constructor; [done|]. rewrite Hp'. rewrite -Hp in Hf. by apply Forall_cons in Hf as [].
Qed.

(** ** Theorems: keys and repositories *)
Section keys.
Context (Seal : string → string → string → string) (Open : string → string → string → option string).
(** What is sealed under a key and a nonce opens under them. *)
Context (open_seal : ∀ key nonce p, Open key nonce (Seal key nonce p) = Some p).
Context (secretKey : string).

(** A field that holds nothing, the placeholder or a ciphertext. *)
Definition sealed (v : string) : Prop := v = "" ∨ v = placeholder ∨ IsEncrypted Open v secretKey = true.

Lemma encrypt_fields_ok nonce names : (∀ f, nonce_ok (nonce f)) → ∀ r r', encrypt_fields Seal Open secretKey nonce names r = inl r' →
  Id r' = Id r ∧ (∀ k, k ∉ names → fields r' !! k = fields r !! k) ∧ (∀ f, f ∈ names → sealed (GetString f r')) ∧ (∀ f, sealed (GetString f r) → sealed (GetString f r')).
Proof.
  intros Hn. induction names as [|f names IH]; intros r r'; cbn [encrypt_fields].
  - intros [= <-]. split_and!; try done. by intros f ?%elem_of_nil.
  - destruct (encryptField _ _ _ _ _ _) as [r1|] eqn:He; [|done]. apply (encryptField_ok Seal Open open_seal secretKey _ _ _ _ (Hn f)) in He as (Hi & Hf & Hs & _).
    intros (Hi' & Hf' & Hs' & Hk')%IH. assert (∀ g, sealed (GetString g r) → sealed (GetString g r1)) as Hk.
    { intros g Hg. destruct (decide (g = f)) as [->|Hne]; [exact Hs|]. unfold GetString in *. by rewrite Hf. }
    split_and!.
    + congruence.
    + intros k [Hne Hk0]%not_elem_of_cons. by rewrite Hf' // Hf.
    + intros g [->|Hg]%elem_of_cons; [by apply Hk'|by apply Hs'].
    + intros g Hg. by apply Hk', Hk.
Qed.

Lemma FindById_self t r : NoDup (ids_of t) → r ∈ t → FindById (Id r) t = Some r.
Proof.
  intros Hn Hin. destruct (FindById (Id r) t) as [x|] eqn:Hf.
  - destruct (FindById_Some _ _ _ Hf) as [Hx Hid]. f_equal. by apply (NoDup_ids_inj t).
  - exfalso. unfold FindById in Hf. destruct (filter (λ x, Id x = Id r) t) as [|y l] eqn:He; [|done]. by apply (filter_nil_not_elem_of _ _ r He).
Qed.

Record database := { d_keys : rows; d_repos : rows }.

(** A relation holds ids, which have no space around them. *)
Definition relation_ok (r : record) : Prop := TrimSpace (GetString "repository_key" r) = GetString "repository_key" r.

(** What the hooks let through, one save after the other: the record a request changes is
    the one that is stored. *)
Inductive saves : database → database → Prop :=
  | key_created nonce d r r' : (∀ f, nonce_ok (nonce f)) → Id r ∉ ids_of (d_keys d) → create_key Seal Open secretKey nonce r = inl r' →
      saves d {| d_keys := upsert r' (d_keys d); d_repos := d_repos d |}
  | key_updated nonce d o r r' : (∀ f, nonce_ok (nonce f)) → o ∈ d_keys d → Id r = Id o → Id r ≠ "" → TrimSpace (Id r) = Id r →
      update_key Seal Open secretKey nonce (d_keys d) (Some o) r = inl r' → saves d {| d_keys := upsert r' (d_keys d); d_repos := d_repos d |}
  | key_deleted answered d r : delete_key answered (d_repos d) r = None → saves d {| d_keys := filter (λ x, Id x ≠ Id r) (d_keys d); d_repos := d_repos d |}
  | repo_created keypair d r r' : (∀ r, Id (keypair r) = Id r ∧ ∀ k, k ∉ ["sops_age_key"; "sops_age_public_key"] → fields (keypair r) !! k = fields r !! k) →
      relation_ok r → create_repository keypair (d_keys d) r = inl r' → saves d {| d_keys := d_keys d; d_repos := upsert r' (d_repos d) |}
  | repo_updated d r r' : relation_ok r → update_repository (d_keys d) r = inl r' → saves d {| d_keys := d_keys d; d_repos := upsert r' (d_repos d) |}
  | repo_deleted d id : saves d {| d_keys := d_keys d; d_repos := filter (λ x, Id x ≠ id) (d_repos d) |}.

(** An address git reaches over SSH: with that scheme, or without a scheme and of the form
    user@host:path. *)
Definition ssh_address (u : string) : Prop :=
  (∃ rest, u = "ssh://" +:+ rest) ∨
  ¬ (∃ l r, u = l +:+ "://" +:+ r) ∧
  ∃ user host path, u = user +:+ String "@" (host +:+ String ":" path) ∧ user ≠ "" ∧
    ¬ in_string "@" user ∧ ¬ in_string ":" user ∧ ¬ in_string ":" host.

(** The key of a repository fits its address: an SSH address has an SSH key, another one has
    none or a password or a token. *)
Definition key_fits (keys : rows) (r : record) : Prop :=
  let key := TrimSpace (GetString "repository_key" r) in
  if decide (key = "") then ¬ ssh_address (TrimSpace (GetString "git_url" r))
  else ∃ k, k ∈ keys ∧ Id k = key ∧
    (ssh_address (TrimSpace (GetString "git_url" r)) → GetString "auth_type" k = "ssh_key") ∧
    (¬ ssh_address (TrimSpace (GetString "git_url" r)) → GetString "auth_type" k ∈ ["basic"; "oauth_token"]).

(** Every repository has the key its address needs, and no private key, passphrase or
    password is stored readable. *)
Definition keys_consistent (d : database) : Prop :=
  NoDup (ids_of (d_keys d)) ∧ (∀ r, r ∈ d_repos d → relation_ok r ∧ key_fits (d_keys d) r) ∧
  ∀ k f, k ∈ d_keys d → f ∈ ["ssh_private_key"; "ssh_passphrase"; "git_password"] → sealed (GetString f k).

Lemma ssh_spec u : isSSHGitURL u = true ↔ ssh_address (TrimSpace u).
Proof.
  unfold isSSHGitURL, ssh_address. cbv zeta. set (v := TrimSpace u). clearbody v. case_decide as Hv.
  { split; [done|]. subst v. intros [[rest [=]]|(_ & user & host & path & Hu & _)]. by destruct user. }
  destruct (HasPrefix v "ssh://") eqn:Hp.
  { split; [|done]. intros _. left. by apply HasPrefix_spec in Hp. }
  destruct (Contains v "://") eqn:Hc.
  { split; [done|]. intros [Hr|[Hn _]]; [apply HasPrefix_spec in Hr; congruence|]. destruct Hn. by apply Contains_spec. }
  rewrite andb_true_iff !Z.ltb_lt. split.
  - intros [Ha Hb]. right. split; [intros Hr%Contains_spec; congruence|]. unfold Index in *.
    destruct (cut "@"%char v) as [[user rest]|] eqn:Hat; [|lia]. destruct (cut ":"%char v) as [[l path]|] eqn:Hco; [|lia].
    apply cut_Some in Hat as [Hv1 Hu]. apply cut_Some in Hco as [Hv2 Hl].
    assert (∃ host, l = user +:+ String "@" host) as [host ->].
    { rewrite Hv1 in Hv2. clear - Hv2 Hb. revert l Hv2 Hb. induction user as [|a user IH]; intros [|b l]; simpl; intros Hv2 Hb; [lia| |lia|].
      - injection Hv2 as <- _. by exists l.
      - injection Hv2 as <- Hv2. destruct (IH l Hv2) as [host ->]; [lia|]. by exists host. }
    exists user, host, path. split_and!.
    + rewrite Hv2. by rewrite sapp_assoc.
    + intros ->. simpl in Ha. lia.
    + done.
    + intros Hin. apply Hl, in_string_app. by left.
    + intros Hin. apply Hl, in_string_app. by do 2 right.
  - intros [Hr|(_ & user & host & path & Hu & Hne & H1 & H2 & H3)]; [apply HasPrefix_spec in Hr; congruence|]. unfold Index.
    assert (cut "@"%char v = Some (user, host +:+ String ":" path)) as -> by (by apply cut_Some).
    assert (cut ":"%char v = Some (user +:+ String "@" host, path)) as ->.
    { apply cut_Some. split; [rewrite Hu; by rewrite sapp_assoc|]. intros [?|[?|?]]%in_string_app; done. }
    rewrite slength_app. simpl. destruct user; [done|]. simpl. lia.
Qed.

Lemma fits_spec keys r : NoDup (ids_of keys) → validateRepositoryKeyAssignment keys r = None ↔ key_fits keys r.
Proof.
  intros Hn. unfold validateRepositoryKeyAssignment, key_fits. cbv zeta.
  set (url := GetString "git_url" r). assert (isSSHGitURL url = false ↔ ¬ ssh_address (TrimSpace url)) as Hno by (by rewrite -ssh_spec not_true_iff_false).
  destruct (decide (TrimSpace (GetString "repository_key" r) = "")) as [|Hk].
  - rewrite -Hno. by destruct (isSSHGitURL _).
  - setoid_rewrite <- Hno. setoid_rewrite <- ssh_spec. destruct (FindById _ keys) as [k|] eqn:Hf.
    + destruct (FindById_Some _ _ _ Hf) as [Hin Hid]. split.
      * intros Hv. exists k. split_and!; [done..| |]; intros Hs; rewrite Hs in Hv.
        -- destruct (decide (GetString "auth_type" k = AuthTypeSSH)) as [|Hd]; [done|]. by rewrite (decide_True _ _ Hd) in Hv.
        -- destruct (decide (GetString "auth_type" k = AuthTypeBasic)) as [->|H1]; [by left|].
           destruct (decide (GetString "auth_type" k = AuthTypeOAuthToken)) as [->|H2]; [by right; left|].
           by rewrite (decide_True _ _ (conj H1 H2)) in Hv.
      * intros (k' & Hin' & Hid' & H1 & H2). assert (k' = k) as -> by (apply (NoDup_ids_inj keys); [done..|congruence]).
        destruct (isSSHGitURL _); [rewrite (H1 eq_refl); reflexivity|].
        specialize (H2 eq_refl). rewrite !elem_of_cons elem_of_nil in H2. by destruct H2 as [->|[->|[]]].
    + split; [done|]. intros (k & Hin & Hid & _). exfalso. apply (FindById_self keys) in Hin; [|done]. congruence.
Qed.

(** The same in terms of the check of the code. *)
Definition keys_checked (d : database) : Prop :=
  NoDup (ids_of (d_keys d)) ∧ (∀ r, r ∈ d_repos d → relation_ok r ∧ validateRepositoryKeyAssignment (d_keys d) r = None) ∧
  ∀ k f, k ∈ d_keys d → f ∈ sensitive_fields → sealed (GetString f k).

(** The check looks at the type of the key only. *)
Lemma assignment_ext keys keys' r : (∀ id, id = TrimSpace (GetString "repository_key" r) → id ≠ "" →
    ∀ k, FindById id keys = Some k → ∃ k', FindById id keys' = Some k' ∧ (GetString "auth_type" k ≠ "" → GetString "auth_type" k' = GetString "auth_type" k)) →
  validateRepositoryKeyAssignment keys r = None → validateRepositoryKeyAssignment keys' r = None.
Proof.
  intros Hk. unfold validateRepositoryKeyAssignment. cbv zeta. destruct (decide (TrimSpace (GetString "repository_key" r) = "")) as [|Hne]; [done|].
  destruct (FindById _ keys) as [k|] eqn:Hf; [|done]. destruct (Hk _ eq_refl Hne k Hf) as (k' & -> & Ht).
  destruct (isSSHGitURL _).
  - case_decide as Hd; [done|]. intros _. assert (GetString "auth_type" k = AuthTypeSSH) as He by (destruct (decide (GetString "auth_type" k = AuthTypeSSH)); tauto).
    rewrite Ht; [|by rewrite He]. rewrite He. by destruct (decide (AuthTypeSSH ≠ AuthTypeSSH)).
  - case_decide as Hd; [done|]. intros _. assert (GetString "auth_type" k = AuthTypeBasic ∨ GetString "auth_type" k = AuthTypeOAuthToken) as He
      by (destruct (decide (GetString "auth_type" k = AuthTypeBasic)), (decide (GetString "auth_type" k = AuthTypeOAuthToken)); tauto).
    rewrite Ht; [|by destruct He as [-> | ->]]. destruct (decide (GetString "auth_type" k ≠ AuthTypeBasic ∧ _)); [tauto|done].
Qed.

Lemma FindById_stays t t' id k : FindById id t = Some k → NoDup (ids_of t') → (k ∈ t' → FindById id t' = Some k).
Proof.
  intros [_ Hid]%FindById_Some Hn Hin. destruct (FindById id t') as [x|] eqn:Hf.
  - destruct (FindById_Some _ _ _ Hf) as [Hx Hxid]. f_equal. apply (NoDup_ids_inj t'); [done..|congruence].
  - exfalso. unfold FindById in Hf. destruct (filter (λ r, Id r = id) t') as [|y l] eqn:He; [|done]. by apply (filter_nil_not_elem_of _ _ k He).
Qed.

Lemma NoDup_filter_ids (P : record → Prop) `{∀ x, Decision (P x)} t : NoDup (ids_of t) → NoDup (ids_of (filter P t)).
Proof. intros Hn. unfold ids_of in *. eapply sublist_NoDup; [exact Hn|]. apply fmap_sublist, sublist_filter. Qed.

Lemma create_key_ok nonce r r' : (∀ f, nonce_ok (nonce f)) → create_key Seal Open secretKey nonce r = inl r' →
  Id r' = Id r ∧ GetString "auth_type" r' = GetString "auth_type" r ∧ ∀ f, f ∈ sensitive_fields → sealed (GetString f r').
Proof.
  intros Hn. unfold create_key, encryptSensitiveFields. destruct (decide (String.length secretKey ≠ 32)); [done|].
  destruct (encrypt_fields _ _ _ _ _ _) as [r1|] eqn:He; [|done]. intros [= <-]. destruct (encrypt_fields_ok _ _ Hn _ _ He) as (Hi & Hf & Hs & _).
  split_and!; [done| |done]. unfold GetString. rewrite Hf //. apply (bool_decide_unpack _). vm_compute. exact I.
Qed.

Lemma checked_consistent d : keys_checked d ↔ keys_consistent d.
Proof. unfold keys_checked, keys_consistent. split; intros (Hn & Hr & Hk); split_and!; try done; intros r [H1 H2]%Hr; split; try done; by apply fits_spec. Qed.

Lemma keys_checked_stay d d' : keys_checked d → rtc saves d d' → keys_checked d'.
Proof.
  intros Hc Hs. revert Hc. induction Hs as [|d d1 d' Hst _ IH]; [done|]. intros (Hn & Hr & Hk). apply IH. clear IH.
  destruct Hst as [nonce d r r' Hno Hnew Hcr|nonce d o r r' Hno Ho Hid Hne Htr Hu|answered d r Hd|keypair d r r' Hkp Hrel Hcr|d r r' Hrel Hcr|d id].
  - destruct (create_key_ok _ _ _ Hno Hcr) as (Hi & _ & Hse). split_and!; cbn; [by apply NoDup_upsert| |].
    + intros x Hx. destruct (Hr x Hx) as [Hrel Hv]. split; [done|]. eapply assignment_ext, Hv. intros id _ _ k Hf.
      exists k. split; [|done]. apply (FindById_stays (d_keys d)); [done|by apply NoDup_upsert|]. apply elem_of_upsert. right.
      destruct (FindById_Some _ _ _ Hf) as [Hin _]. split; [done|]. intros He. apply Hnew. rewrite -Hi -He. by apply list_elem_of_fmap_2.
    + intros k f [->|[Hin _]]%elem_of_upsert Hf; [by apply Hse|by apply Hk].
  - unfold update_key in Hu. destruct (validateRepositoryKeyTypeImmutable _ _ _) eqn:Hv; [done|].
    destruct (create_key_ok _ _ _ Hno Hu) as (Hi & Ha & Hse). split_and!; cbn; [by apply NoDup_upsert| |].
    + intros x Hx. destruct (Hr x Hx) as [Hrel Hva]. split; [done|]. eapply assignment_ext, Hva. intros id _ _ k Hf.
      destruct (FindById_Some _ _ _ Hf) as [Hin Hkid]. destruct (decide (Id k = Id r')) as [He|He].
      * exists r'. split; [rewrite -Hkid He; apply FindById_upsert|]. intros Hnz. assert (k = o) as -> by (apply (NoDup_ids_inj (d_keys d)); [done..|congruence]).
        rewrite Ha. revert Hv. unfold validateRepositoryKeyTypeImmutable. cbv zeta. destruct (decide (_ ∧ _)) as [[]|]; [done|].
        destruct (decide (GetString "auth_type" o = "" ∨ _)) as [[]|]; done.
      * exists k. split; [|done]. apply (FindById_stays (d_keys d)); [done|by apply NoDup_upsert|]. apply elem_of_upsert. by right.
    + intros k f [->|[Hin _]]%elem_of_upsert Hf; [by apply Hse|by apply Hk].
  - split_and!; cbn; [by apply NoDup_filter_ids| |].
    + intros x Hx. destruct (Hr x Hx) as [Hrel Hv]. split; [done|]. eapply assignment_ext, Hv. intros id -> Hne k Hf.
      exists k. split; [|done]. apply (FindById_stays (d_keys d)); [done|by apply NoDup_filter_ids|]. apply list_elem_of_filter.
      destruct (FindById_Some _ _ _ Hf) as [Hin Hkid]. split; [|done]. intros He. revert Hd. unfold delete_key. destruct answered; [|done]. cbn [negb].
      destruct (FindAll "repository_key" (Id r) (d_repos d)) as [|y l] eqn:Hfa; [|done]. intros _.
      apply (not_elem_of_nil x). rewrite -Hfa. apply FindAll_elem. split; [|done]. by rewrite -He Hkid Hrel.
    + intros k f [_ Hin]%list_elem_of_filter Hf. by apply Hk.
  - unfold create_repository in Hcr. destruct (validateRepositoryKeyAssignment _ r) eqn:Hv; [done|]. injection Hcr as <-. destruct (Hkp r) as [Hi Hf].
    assert (∀ f, f ∉ ["sops_age_key"; "sops_age_public_key"] → GetString f (keypair r) = GetString f r) as Hg by (intros f Hnf; unfold GetString; by rewrite Hf).
    assert (GetString "repository_key" (keypair r) = GetString "repository_key" r ∧ GetString "git_url" (keypair r) = GetString "git_url" r) as [E1 E2]
      by (split; apply Hg; apply (bool_decide_unpack _); vm_compute; exact I).
    split_and!; cbn; [done| |done]. intros x [->|[Hx _]]%elem_of_upsert; [|by apply Hr]. unfold relation_ok, validateRepositoryKeyAssignment in *. by rewrite E1 E2.
  - unfold update_repository in Hcr. destruct (validateRepositoryKeyAssignment _ r) eqn:Hv; [done|]. injection Hcr as <-.
    split_and!; cbn; [done| |done]. intros x [->|[Hx _]]%elem_of_upsert; [done|by apply Hr].
  - split_and!; cbn; [done| |done]. intros x [_ Hx]%list_elem_of_filter. by apply Hr.
Qed.

(** C21: Under the hooks, whatever is saved and deleted, one save after the other, every
    repository with an SSH address keeps an SSH key that exists, every other one keeps no
    key or one with a password or a token, and the private keys, passphrases and passwords
    are never stored readable.  (The tokens of an OAuth key are not touched by these hooks:
    they are encrypted where they are obtained.) *)
Theorem keys_stay_consistent d d' : keys_consistent d → rtc saves d d' → keys_consistent d'.
Proof. rewrite -!checked_consistent. apply keys_checked_stay. Qed.
End keys.

(** ** Theorems: the authentication of a pull *)
Section registry.
Context (Seal : string → string → string → string) (Open : string → string → string → option string).
Context (open_seal : ∀ key nonce p, Open key nonce (Seal key nonce p) = Some p).
Context (secretKey : string) (url_parse : string → option (string * string)).

Abbreviation norm := (NormalizeRegistryHost url_parse).

(** The host of the address docker keeps the credentials of Docker Hub under. *)
Context (url_hub : url_parse "https://index.docker.io/v1/" = Some ("index.docker.io", "")).

Lemma norm_hub : norm "https://index.docker.io/v1/" = "docker.io".
Proof using url_hub.
  unfold NormalizeRegistryHost. cbv zeta. replace (TrimSpace "https://index.docker.io/v1/") with "https://index.docker.io/v1/" by (vm_compute; reflexivity).
  replace (Contains "https://index.docker.io/v1/" "://") with true by (vm_compute; reflexivity). rewrite url_hub. vm_compute. reflexivity.
Qed.

Definition host_of (r : record) : string := GetString "registry_host" r.

(** The stored credentials: a host each, its own, and no readable password. *)
Definition creds_consistent (t : rows) : Prop :=
  NoDup (ids_of t) ∧ (∀ r, r ∈ t → host_of r = norm (GetString "registry_url" r) ∧ host_of r ≠ "" ∧ sealed Open secretKey (GetString "password" r)) ∧
  ∀ x y, x ∈ t → y ∈ t → host_of x = host_of y → x = y.

Inductive cred_saves : rows → rows → Prop :=
  | cred_saved answered nonce t r r' : nonce_ok nonce → save_credential Seal Open secretKey url_parse answered nonce t r = inl r' → cred_saves t (upsert r' t)
  | cred_deleted t id : cred_saves t (filter (λ x, Id x ≠ id) t).

Lemma save_credential_ok answered nonce t r r' : nonce_ok nonce → save_credential Seal Open secretKey url_parse answered nonce t r = inl r' →
  Id r' = Id r ∧ host_of r' = norm (GetString "registry_url" r') ∧ host_of r' ≠ "" ∧ sealed Open secretKey (GetString "password" r') ∧
  ∀ c, c ∈ t → host_of c = host_of r' → Id c = Id r'.
Proof.
  intros Hn. unfold save_credential, prepareRegistryCredential. cbv zeta. destruct (decide (norm (GetString "registry_url" r) = "")) as [|Hne]; [done|].
  destruct answered; [|done]. cbn [negb].
  destruct (existsb _ _) eqn:Hex; [done|]. destruct (encryptField _ _ _ _ _ _) as [r1|] eqn:He; [|done]. intros [= <-].
  apply (encryptField_ok Seal Open open_seal secretKey _ _ _ _ Hn) in He as (Hi & Hf & Hs & _).
  assert (host_of r1 = norm (GetString "registry_url" r) ∧ GetString "registry_url" r1 = GetString "registry_url" r) as [E1 E2].
  { unfold host_of. rewrite (proj1 (get_same "registry_host" _ _ (Hf "registry_host" ltac:(done)))) (proj1 (get_same "registry_url" _ _ (Hf "registry_url" ltac:(done)))).
    rewrite GetString_SetStr. split; [done|]. unfold SetStr. by rewrite GetString_SetField_ne. }
  rewrite E1 E2. split_and!; [exact Hi|done|done|exact Hs|]. intros c Hc Hh. destruct (decide (Id c = Id r1)) as [|Hd]; [done|]. exfalso.
  assert (existsb (λ c, bool_decide (Id c ≠ Id (SetStr "registry_host" (norm (GetString "registry_url" r)) r)))
    (FindAll "registry_host" (norm (GetString "registry_url" r)) t) = true) as Ht; [|congruence].
  apply existsb_exists. exists c. split; [apply list_elem_of_In, FindAll_elem; done|]. apply bool_decide_eq_true. cbn. by rewrite -Hi.
Qed.

Lemma creds_step t t' : creds_consistent t → cred_saves t t' → creds_consistent t'.
Proof.
  intros Hc Hst. destruct Hst as [answered nonce t r r' Hno Hs|t id]; destruct Hc as (Hn & Hr & Hd).
  - destruct (save_credential_ok _ _ _ _ _ Hno Hs) as (_ & H1 & H2 & H3 & H4). split_and!; [by apply NoDup_upsert| |].
    + intros x [->|[Hx _]]%elem_of_upsert; [done|by apply Hr].
    + intros x y [->|[Hx Hxi]]%elem_of_upsert [->|[Hy Hyi]]%elem_of_upsert Hh; [done| | |by apply Hd].
      * by destruct Hyi; apply H4.
      * by destruct Hxi; apply H4.
  - split_and!; [by apply NoDup_filter_ids| |].
    + intros x [_ Hx]%list_elem_of_filter. by apply Hr.
    + intros x y [_ Hx]%list_elem_of_filter [_ Hy]%list_elem_of_filter. by apply Hd.
Qed.

(** What a stored password reads as. *)
Definition password_of (r : record) : option string :=
  if decide (String.length secretKey ≠ 32) then None
  else if decide (GetString "password" r = "") then Some "" else Decrypt Open (GetString "password" r) secretKey.

(** The name docker keeps the credentials of a registry under: the host of its images, but
    the address of the old index for Docker Hub. *)
Definition docker_name (host : string) : string := if decide (host = "docker.io") then "https://index.docker.io/v1/" else host.

(** A stored host that reads as another one, which is wanted. *)
Definition misread (wanted : gset string) (r : record) : Prop := norm (host_of r) ≠ host_of r ∧ norm (host_of r) ∈ wanted.

(** The entry of a credential in the configuration of docker. *)
Definition entry_of (wanted : gset string) (r : record) : option (string * string) :=
  if decide (host_of r ∈ wanted)
  then p ← password_of r; Some (docker_name (host_of r), EncodeToString (GetString "username" r +:+ ":" +:+ p)) else None.

(** The hosts a command asks for: they are not empty and read as themselves. *)
Definition plain (wanted : gset string) : Prop := ∀ h, h ∈ wanted → h ≠ "" ∧ norm h = h.

(** A record that is not misread is matched by the host it is stored with. *)
Lemma record_host_ok wanted t r : plain wanted → creds_consistent t → r ∈ t → ¬ misread wanted r →
  host_of r ∈ wanted ∧ record_host url_parse r = host_of r ∨ host_of r ∉ wanted ∧ record_host url_parse r ∉ wanted.
Proof.
  intros Hp (_ & Hr & _) Hin Hm. destruct (Hr r Hin) as (Hh & Hne & _). unfold record_host, misread in *. fold (host_of r). rewrite -Hh. cbv zeta.
  destruct (decide (host_of r ∈ wanted)) as [Hw|Hw]; [left|right]; (split; [done|]).
  - destruct (Hp _ Hw) as [_ ->]. by destruct (decide (host_of r = "")).
  - destruct (decide (norm (host_of r) = "")); [done|]. intros Hn. apply Hm. split; [|done]. intros He. by rewrite He in Hn.
Qed.

(** A misread record ends the search. *)
Lemma misread_fails wanted t r records a : plain wanted → creds_consistent t → r ∈ t → misread wanted r →
  is_Some (match collect Open secretKey url_parse t wanted (r :: records) a with inr err => Some err | inl _ => None end).
Proof.
  intros Hp (Hn & Hr & _) Hin [Hne Hw]. destruct (Hr r Hin) as (Hh & _). destruct (Hp _ Hw) as [Hw0 _]. cbn [collect]. unfold record_host. fold (host_of r). cbv zeta.
  destruct (decide (norm (host_of r) = "")); [done|]. destruct (decide (norm (host_of r) ∉ wanted)); [done|]. destruct (decide (norm (host_of r) ∈ au_matched a)); [by eexists|].
  destruct (LoadCredentialByID _ _ _ _) as [c|] eqn:Hl; [|by eexists]. unfold LoadCredentialByID in Hl. rewrite FindById_self // in Hl.
  destruct (decide (String.length secretKey ≠ 32)); [done|]. destruct (if decide (GetString "password" r = "") then Some "" else _); [|done]. injection Hl as <-.
  unfold BuildAuthEntry. cbn [c_RegistryURL]. rewrite -Hh. cbv zeta. destruct (decide (host_of r = "")); [by eexists|].
  destruct (decide (host_of r ≠ norm (host_of r))) as [|Hs]; [by eexists|]. destruct Hs. by intros ?.
Qed.

(** One wanted record: its entry, or a password that cannot be read. *)
Lemma load_entry t r : creds_consistent t → r ∈ t →
  match password_of r with
  | None => LoadCredentialByID Open secretKey t (Id r) = inr CredentialUnreadable
  | Some p => ∃ c, LoadCredentialByID Open secretKey t (Id r) = inl c ∧ c_Insecure c = GetBool "insecure" r ∧
      BuildAuthEntry url_parse c = inl (host_of r, EncodeToString (GetString "username" r +:+ ":" +:+ p))
  end.
Proof.
  intros Hc Hin. destruct Hc as (Hn & Hr & _). destruct (Hr r Hin) as (Hh & Hne & _). unfold password_of, LoadCredentialByID. rewrite FindById_self //.
  destruct (decide (String.length secretKey ≠ 32)); [done|]. cbv zeta.
  destruct (if decide (GetString "password" r = "") then Some "" else _) as [p|]; [|done].
  eexists. split_and!; [done|done|]. unfold BuildAuthEntry. cbn [c_RegistryURL c_Username c_Password]. rewrite -Hh. by destruct (decide (host_of r = "")).
Qed.

Lemma docker_key wanted h : plain wanted → h ∈ wanted → dockerAuthConfigKey url_parse h = docker_name h.
Proof. intros Hp Hh. unfold dockerAuthConfigKey. by rewrite (proj2 (Hp h Hh)). Qed.

Lemma docker_name_inj wanted g h : plain wanted → g ∈ wanted → h ∈ wanted → docker_name g = docker_name h → g = h.
Proof using url_hub.
  intros Hp Hg Hh. assert (∀ h, h ∈ wanted → h ≠ "https://index.docker.io/v1/") as Hno by (intros x Hx ->; by destruct (Hp _ Hx) as [_ E]; rewrite norm_hub in E).
  unfold docker_name. destruct (decide (g = "docker.io")), (decide (h = "docker.io")); intros He; [congruence| | |done]; exfalso; [by apply (Hno h)|by apply (Hno g)].
Qed.

(** The loop over the records: it fails on a password that cannot be read and on a stored
    host that is misread, and on nothing else; otherwise every wanted credential, and no other, adds its entry. *)
Lemma collect_ok t wanted : plain wanted → creds_consistent t → ∀ records a, NoDup records → (∀ r, r ∈ records → r ∈ t ∧ host_of r ∉ au_matched a) →
  match collect Open secretKey url_parse t wanted records a with
  | inr err => err = CredentialUnreadable ∧ (∃ r, r ∈ records ∧ host_of r ∈ wanted ∧ password_of r = None) ∨ (∃ r, r ∈ records ∧ misread wanted r)
  | inl a' => (∀ r, r ∈ records → host_of r ∈ wanted → is_Some (password_of r)) ∧
      (∀ k v, au_entries a' !! k = Some v ↔ (∃ r, r ∈ records ∧ entry_of wanted r = Some (k, v)) ∨
        au_entries a !! k = Some v ∧ ∀ r, r ∈ records → host_of r ∈ wanted → docker_name (host_of r) ≠ k) ∧
      (∀ h, h ∈ au_insecure a' ↔ (∃ r, r ∈ records ∧ host_of r = h ∧ h ∈ wanted ∧ GetBool "insecure" r = true) ∨ h ∈ au_insecure a)
  end.
Proof.
  intros Hpl Hc. induction records as [|r records IH]; intros a Hnd Ha; [cbn [collect]|].
  - split_and!; [by intros r ?%elem_of_nil| |].
    + intros k v. split; [intros Hk; right; split; [done|]; by intros r ?%elem_of_nil|]. by intros [(r & ?%elem_of_nil & _)|[? _]].
    + intros h. split; [by right|]. by intros [(r & ?%elem_of_nil & _)|?].
  - apply NoDup_cons in Hnd as [Hr Hnd]. destruct (Ha r ltac:(by left)) as [Hin Hm].
    destruct (decide (norm (host_of r) ≠ host_of r ∧ norm (host_of r) ∈ wanted)) as [Hmis|Hmis].
    { destruct (misread_fails wanted t r records a Hpl Hc Hin Hmis) as [err Herr]. destruct (collect _ _ _ _ _ _ _) as [|err']; [done|]. right. exists r. split; [by left|done]. }
    assert (¬ misread wanted r) as Hnm by done. clear Hmis.
    cbn [collect]. cbv zeta. destruct (record_host_ok wanted t r Hpl Hc Hin Hnm) as [[Hwr ->]|[Hw Hw']]; [destruct (decide (host_of r ∉ wanted)) as [|_]; [done|]|
      destruct (decide (record_host url_parse r ∉ wanted)) as [_|]; [|tauto]]; [clear Hnm|clear Hnm Hw'].
    + destruct (decide (host_of r ∈ au_matched a)) as [|_]; [done|]. pose proof (load_entry t r Hc Hin) as Hl. destruct (password_of r) as [p|] eqn:Hp.
      2: { rewrite Hl. left. split; [done|]. exists r. split; [by left|done]. }
      destruct Hl as (c & -> & Hins & ->). destruct (decide (host_of r ≠ host_of r)) as [|_]; [done|]. rewrite Hins (docker_key wanted) //.
      set (auth := EncodeToString _). set (a1 := {| au_entries := _ |}).
      assert (entry_of wanted r = Some (docker_name (host_of r), auth)) as Her by (unfold entry_of; destruct (decide (host_of r ∈ wanted)); [by rewrite Hp|done]).
      assert (∀ x, x ∈ records → x ∈ t ∧ host_of x ∉ au_matched a1) as Ha1.
      { intros x Hx. destruct (Ha x (list_elem_of_further _ _ _ Hx)) as [Hxt Hxm]. split; [done|]. cbn. rewrite not_elem_of_union elem_of_singleton. split; [|done].
        intros He. apply Hr. destruct Hc as (_ & _ & Hd). by rewrite (Hd r x Hin Hxt). }
      specialize (IH a1 Hnd Ha1). destruct (collect _ _ _ _ _ _ _) as [a'|err].
      2: { destruct IH as [(-> & x & Hx & H1)|(x & Hx & H1)]; [left; split; [done|]|right]; exists x; (split; [by right|done]). }
      destruct IH as (I1 & I2 & I3). split_and!.
      * intros x [->|Hx]%elem_of_cons Hxw; [by rewrite Hp|by apply I1].
      * intros k v. rewrite I2. cbn [a1 au_entries]. split.
        -- intros [(x & Hx & He)|[Hk Hall]]; [left; exists x; split; [by right|done]|]. apply lookup_insert_Some in Hk as [[<- <-]|[Hne Hk]].
           ++ left. exists r. split; [by left|done].
           ++ right. split; [done|]. intros x [->|Hx]%elem_of_cons Hxw; [done|by apply Hall].
        -- intros [(x & [->|Hx]%elem_of_cons & He)|[Hk Hall]].
           ++ rewrite Her in He. injection He as <- <-. right. split; [by rewrite lookup_insert_eq|]. intros x Hx Hxw He. apply Hr.
              destruct (Ha x (list_elem_of_further _ _ _ Hx)) as [Hxt _]. destruct Hc as (_ & _ & Hd). rewrite (Hd r x Hin Hxt) //.
              by apply (docker_name_inj wanted).
           ++ left. eauto.
           ++ right. split; [rewrite lookup_insert_ne; [done|]; apply Hall; [by left|done]|]. intros x Hx. apply Hall. by right.
      * intros h. rewrite I3. cbn [a1 au_insecure]. split.
        -- intros [(x & Hx & He)|Hk]; [left; exists x; split; [by right|done]|]. destruct (GetBool "insecure" r) eqn:Hb; [|by right].
           apply elem_of_union in Hk as [->%elem_of_singleton|Hk]; [|by right]. left. exists r. split_and!; [by left|done|done|done].
        -- intros [(x & [->|Hx]%elem_of_cons & He & Hxw & Hb)|Hk].
           ++ right. rewrite Hb He. apply elem_of_union_l. by apply elem_of_singleton.
           ++ left. eauto 6.
           ++ right. destruct (GetBool "insecure" r); [by apply elem_of_union_r|done].
    + specialize (IH a Hnd (λ x Hx, Ha x (list_elem_of_further _ _ _ Hx))). destruct (collect _ _ _ _ _ _ _) as [a'|err].
      2: { destruct IH as [(-> & x & Hx & H1)|(x & Hx & H1)]; [left; split; [done|]|right]; exists x; (split; [by right|done]). }
      destruct IH as (I1 & I2 & I3). assert (entry_of wanted r = None) as Hno by (unfold entry_of; by destruct (decide (host_of r ∈ wanted))).
      split_and!.
      * intros x [->|Hx]%elem_of_cons Hxw; [done|by apply I1].
      * intros k v. rewrite I2. split.
        -- intros [(x & Hx & He)|[Hk Hall]]; [left; exists x; split; [by right|done]|]. right. split; [done|]. intros x [->|Hx]%elem_of_cons Hxw; [done|by apply Hall].
        -- intros [(x & [->|Hx]%elem_of_cons & He)|[Hk Hall]]; [congruence|left; eauto|]. right. split; [done|]. intros x Hx. apply Hall. by right.
      * intros h. rewrite I3. split; (intros [(x & Hx & He)|Hk]; [left|by right]); [exists x; split; [by right|done]|].
        apply elem_of_cons in Hx as [->|Hx]; [|eauto]. destruct He as (<- & ? & _). done.
Qed.

Lemma wanted_plain hosts : (∀ h, h ∈ hosts → h ≠ "" ∧ norm h = h) → ∀ h, h ∈ wanted_hosts url_parse hosts ↔ h ∈ hosts.
Proof.
  intros Hp h. unfold wanted_hosts. rewrite elem_of_list_to_set list_elem_of_In filter_In -list_elem_of_In list_elem_of_fmap negb_true_iff bool_decide_eq_false. split.
  - intros [(x & -> & Hx) _]. by rewrite (proj2 (Hp x Hx)).
  - intros Hh. destruct (Hp h Hh) as [Hne He]. split; [|done]. by exists h.
Qed.

End registry.

(** ** Theorems: stacks *)
Section stacks.
Context (Seal : string → string → string → string) (Open : string → string → string → option string).
Context (open_seal : ∀ key nonce p, Open key nonce (Seal key nonce p) = Some p) (secretKey : string).
Context `{UnicodeTables} (workspace : string) (is_dir : string → bool) (config_json : string → string → string → option (gmap string value)).
Context (load_policy : string → option Policy.WorkerPolicy) (redact : list LintCore.Finding → list LintCore.Finding).

Abbreviation create := (create_stack Seal Open secretKey workspace is_dir config_json load_policy redact).

(** Creations and updates of stacks through the API, each of the stored record. *)
Inductive stack_requests (workers : rows) : rows → rows → Prop :=
  | stack_created nonce t r r' : nonce_ok nonce → Id r ∉ ids_of t → create_stack_request r = None → create nonce workers r = inl r' →
      stack_requests workers t (upsert r' t)
  | stack_updated nonce bypassed t o r r' : nonce_ok nonce → o ∈ t → Id r = Id o → update_stack_request (Some o) r = None →
      update_stack Seal Open secretKey nonce bypassed workers t (Some o) r = inl r' → stack_requests workers t (upsert r' t)
  | stack_removed t id : stack_requests workers t (filter (λ x, Id x ≠ id) t).

Lemma create_stack_ok nonce workers r r' : nonce_ok nonce → create nonce workers r = inl r' →
  Id r' = Id r ∧ (∀ k, k ≠ "webhook_secret" → fields r' !! k = fields r !! k) ∧ is_Some (FindById (GetString "worker" r) workers) ∧
  rejectStackOnLintErrors workspace is_dir config_json load_policy redact r = None ∧ sealed Open secretKey (GetString "webhook_secret" r').
Proof.
  intros Hn. unfold create_stack, validateAssignedWorker. cbv zeta. destruct (decide (GetString "worker" r = "")); [done|].
  destruct (FindById _ workers); [|done]. destruct (rejectStackOnLintErrors _ _ _ _ _ r); [done|].
  destruct (encryptField _ _ _ _ _ _) as [r1|] eqn:He; [|done]. intros [= <-].
  apply (encryptField_ok Seal Open open_seal secretKey _ _ _ _ Hn) in He as (Hi & Hf & Hs & _). split_and!; try done.
Qed.

Lemma update_stack_ok nonce bypassed workers t o r r' : nonce_ok nonce → update_stack Seal Open secretKey nonce bypassed workers t o r = inl r' →
  Id r' = Id r ∧ (∀ k, k ≠ "webhook_secret" → fields r' !! k = fields r !! k) ∧ is_Some (FindById (GetString "worker" r) workers) ∧
  sealed Open secretKey (GetString "webhook_secret" r').
Proof.
  intros Hn. unfold update_stack, validateAssignedWorker. cbv zeta. destruct (decide (GetString "worker" r = "")); [done|].
  destruct (FindById _ workers); [|done]. destruct (StackDefs.validateWireopsFieldsImmutable _ _ _ _); [done|].
  destruct (encryptField _ _ _ _ _ _) as [r1|] eqn:He; [|done]. intros [= <-].
  apply (encryptField_ok Seal Open open_seal secretKey _ _ _ _ Hn) in He as (Hi & Hf & Hs & _).
  assert (∀ k, k ≠ "webhook_secret" → fields (preserveMaskedFieldValue o "webhook_secret" r) !! k = fields r !! k) as Hpf.
  { intros k Hk. unfold preserveMaskedFieldValue. cbv zeta. destruct (decide (_ ∧ _)); [done|]. destruct o; [|done]. destruct (decide (_ = "")); [done|].
    by apply fields_SetField_ne. }
  assert (Id (preserveMaskedFieldValue o "webhook_secret" r) = Id r) as Hpi.
  { unfold preserveMaskedFieldValue. cbv zeta. destruct (decide (_ ∧ _)); [done|]. destruct o; [|done]. by destruct (decide (_ = "")). }
  split_and!; [congruence| |done|exact Hs]. intros k Hk. rewrite Hf // Hpf //.
Qed.

(** What the API can make of the stacks: a stack keeps the identity of its project, a new
    one has none, every stack names a worker that exists and no webhook secret is stored
    readable. *)
Definition as_stored (workers t0 t : rows) : Prop :=
  ∀ r, r ∈ t → sealed Open secretKey (GetString "webhook_secret" r) ∧ is_Some (FindById (GetString "worker" r) workers) ∧
    ((∃ o, o ∈ t0 ∧ Id o = Id r ∧ GetString "compose_project_name" r = GetString "compose_project_name" o) ∨ GetString "compose_project_name" r = "").

Theorem project_identity_server_managed workers t0 t : as_stored workers t0 t0 → rtc (stack_requests workers) t0 t → as_stored workers t0 t.
Proof.
  intros H0 Hs. assert (∀ t t', as_stored workers t0 t → stack_requests workers t t' → as_stored workers t0 t') as Hstep.
  { clear Hs t H0. intros t t' Ht Hst. assert (∀ k r r', (∀ k, k ≠ "webhook_secret" → fields r' !! k = fields r !! k) → k ≠ "webhook_secret" → GetString k r' = GetString k r) as Hg.
    { intros k r r' Hf Hk. unfold GetString. by rewrite Hf. }
    destruct Hst as [nonce t r r' Hn Hnew Hq Hc|nonce bypassed t o r r' Hn Ho Hid Hq Hu|t id].
    - destruct (create_stack_ok _ _ _ _ Hn Hc) as (Hi & Hf & Hw & _ & Hse). intros x [->|[Hx _]]%elem_of_upsert; [|by apply Ht].
      split_and!; [done|by rewrite (Hg _ r)|]. right. rewrite (Hg _ r) //. revert Hq. unfold create_stack_request.
      destruct (decide (GetString "compose_project_name" r ≠ "")); [done|]. intros _. destruct (decide (GetString "compose_project_name" r = "")); tauto.
    - destruct (update_stack_ok _ _ _ _ _ _ _ Hn Hu) as (Hi & Hf & Hw & Hse). intros x [->|[Hx _]]%elem_of_upsert; [|by apply Ht].
      split_and!; [done|by rewrite (Hg _ r)|]. assert (GetString "compose_project_name" r = GetString "compose_project_name" o) as Hsame.
      { revert Hq. unfold update_stack_request. cbv zeta. destruct (decide (GetString "compose_project_name" r ≠ _)); [done|]. intros _.
        destruct (decide (GetString "compose_project_name" r = GetString "compose_project_name" o)); tauto. }
      rewrite (Hg _ r) // Hsame. destruct (Ht o Ho) as (_ & _ & [(o0 & Ho0 & Hid0 & Hp)|Hp]); [left|by right]. exists o0. split_and!; [done|congruence|done].
    - intros x [_ Hx]%list_elem_of_filter. by apply Ht. }
  enough (∀ a, rtc (stack_requests workers) a t → as_stored workers t0 a → as_stored workers t0 t) as Hall by (by apply (Hall t0)).
  clear Hs H0. intros a Ha. induction Ha as [|t1 t2 t Hst _ IH]; [done|]. intros Hf. apply IH. by eapply Hstep.
Qed.
End stacks.

(** Every service that is a mapping is listed once, the list is in order of the names. *)
Theorem containers_listed `{GoRange} yaml_parse data doc services : yaml_parse data = Some (VMap doc) → get_map "services" doc = Some services →
  let l := extractContainersFromCompose yaml_parse data in
  StronglySorted by_name l ∧ l ≡ₚ omap (λ kv, container_info kv.1 kv.2) (map_to_list services).
Proof.
  intros Hy Hs. unfold extractContainersFromCompose. rewrite Hy Hs. cbv zeta.
  destruct (exchange_sort_ok (length (omap (λ kv, container_info kv.1 kv.2) (go_range services))) (omap (λ kv, container_info kv.1 kv.2) (go_range services))) as [Hp Hso]; [done|].
  split; [done|]. rewrite Hp. apply omap_Permutation, go_range_perm.
Qed.

(** A query that fails counts as no stack and no job: the repository they use is deleted. *)
Theorem unanswered_query_deletes stacks jobs r : FindAll "repository" (Id r) jobs = [] → delete_repository false true stacks jobs r = None.
Proof. intros Hj. unfold delete_repository. cbv zeta. by rewrite Hj. Qed.

(** The file of a local stack is on its worker; the list of containers shown with the stack
    is read from the file of that path on the server. *)
Theorem local_list_reads_server_file `{GoRange} yaml_parse read_file workspace r content : GetString "source_type" r = "local" → GetString "import_path" r ≠ "" →
  GetString "rendered_revision" r = "" → GetString "webhook_secret" r = "" → read_file (GetString "import_path" r) = Some content → content ≠ "" →
  (enrich_stack yaml_parse read_file workspace r).2 = Some (extractContainersFromCompose yaml_parse content).
Proof.
  intros Hl Hi Hr Hw Hf Hc. assert (listed_file workspace r = GetString "import_path" r) as Hlf by (unfold listed_file; by destruct (decide (GetString "source_type" r = "local"))).
  unfold enrich_stack. cbv zeta. destruct (decide (GetString "webhook_secret" r = "")); [|done]. rewrite Hr Hlf Hf. cbn [default option_rect].
  destruct (decide ("" ≠ "")) as [Hn|_]; [done|]. destruct (decide (GetString "import_path" r = "")); [done|]. cbn. by destruct (decide (content = "")).
Qed.

(** ** Witnesses *)
Lemma creds_empty Open key url_parse : creds_consistent Open key url_parse [].
Proof.
  split; [constructor|]. split; [intros r Hr|intros x y Hx]; exfalso; by eapply not_elem_of_nil.
Qed.

Lemma keys_empty Open key : keys_consistent Open key {| d_keys := []; d_repos := [] |}.
Proof.
  split; [constructor|]. split; [intros r Hr|intros k f Hk]; exfalso; by eapply not_elem_of_nil.
Qed.

(** Two addresses of Docker Hub and two of another registry. *)
Definition toy_url (u : string) : option (string * string) :=
  if decide (u = "//docker.io") then Some ("docker.io", "") else if decide (u = "https://index.docker.io/v1/") then Some ("index.docker.io", "")
  else if decide (u = "//ghcr.io" ∨ u = "https://ghcr.io/") then Some ("ghcr.io", "") else None.

Definition new_cred (id url user password : string) (insecure : bool) : record :=
  SetBool "insecure" insecure (SetStr "password" password (SetStr "username" user (SetStr "registry_url" url {| Id := id; fields := ∅ |}))).

Definition saved (t : rows) (r : record) : rows :=
  match save_credential toy_seal toy_open toy_key toy_url true (Some toy_nonce) t r with inl r' => upsert r' t | inr _ => t end.

Definition stored_creds : rows := saved (saved [] (new_cred "c1" "https://ghcr.io/" "bot" "pw" true)) (new_cred "c2" "docker.io" "hub" "x" false).

Definition pull (hosts : list string) := BuildDockerAuthForHosts toy_open toy_key toy_url stored_creds hosts.

Lemma saved_step t r r' : save_credential toy_seal toy_open toy_key toy_url true (Some toy_nonce) t r = inl r' → cred_saves toy_seal toy_open toy_key toy_url t (saved t r).
Proof. intros Hs. unfold saved. rewrite Hs. eapply cred_saved, Hs. by intros n [= <-]. Qed.


Definition ssh_key : record := SetStr "ssh_private_key" "PEM" (SetStr "auth_type" "ssh_key" {| Id := "k1"; fields := ∅ |}).
Definition ssh_repo : record := SetStr "repository_key" "k1" (SetStr "git_url" "git@example.com:team/app.git" {| Id := "r1"; fields := ∅ |}).
Definition kept_key : record := match create_key toy_seal toy_open toy_key (λ _, Some toy_nonce) ssh_key with inl r => r | inr _ => ssh_key end.
Definition with_key : database := {| d_keys := [kept_key]; d_repos := [] |}.
Definition with_repo : database := {| d_keys := [kept_key]; d_repos := [ssh_repo] |}.

Lemma keys_stay_consistent_witness :
  keys_consistent toy_open toy_key with_repo ∧ GetString "ssh_private_key" kept_key ≠ "PEM" ∧ delete_key true (d_repos with_repo) kept_key = Some (KeyInUse 1) ∧
  update_key toy_seal toy_open toy_key (λ _, Some toy_nonce) (d_keys with_repo) (Some kept_key) (SetStr "auth_type" "basic" kept_key) = inr KeyTypeImmutable.
Proof.
  split_and!; [|vm_compute; congruence|vm_compute; reflexivity..].
  apply (keys_stay_consistent toy_seal toy_open toy_cipher_open toy_key {| d_keys := []; d_repos := [] |}).
  - apply keys_empty.
  - apply (rtc_l _ _ with_key).
    + apply (key_created toy_seal toy_open toy_key (λ _, Some toy_nonce) {| d_keys := []; d_repos := [] |} ssh_key kept_key); [by intros f n [= <-]|apply not_elem_of_nil|].
      vm_compute. reflexivity.
    + apply rtc_once. apply (repo_created toy_seal toy_open toy_key id with_key ssh_repo ssh_repo); [done|vm_compute; reflexivity..].
Defined.
